(* ===== verification/_CoqProject ===== *)
-Q . S2P
Prelude.v
IntUtil.v
Hex.v
Config.v
Currency.v
Types.v
Keccak.v
MerkleTree.v
Amounts.v
TxChecks.v
Varint.v
TransactionExtra.v
Codec.v
SwappedVector.v
Emission.v
DifficultyAlgo.v
Base58.v
BankingIndex.v
ChainStore.v
UpgradeDetector.v
Sync.v
SyncLiveness.v
Transfers.v
TransfersVisibility.v
TransfersInvariant.v
TransfersReach.v
TransfersConsumer.v
TransfersWallet.v
Checkpoints.v
InputChecks.v
AliasIndex.v
CommitmentStore.v
Elderfiers.v
BlockEffects.v
SwapStateMachine.v
Serialization.v
BlockIndices.v
ProofOfWork.v
MinerTx.v
Chain.v
ChainInvariant.v
ChainReach.v
Reorg.v
ReorgInvariant.v
TransactionPool.v
PeerList.v
P2pTypes.v
NetHosts.v
ProtocolHandler.v
ProtocolDemo.v
ProtocolSafety.v
NetNode.v
ProtocolLiveness.v
Synchronizer.v
TransfersExceptions.v
SynchronizerDemo.v
SynchronizerSafety.v
SynchronizerRound.v
SynchronizerConsumers.v
BlockQueries.v
