(* ===== verification/Prelude.v ===== *)
(** * Verification of the Fuego node

    Fuego is a CryptoNote currency.  Its node keeps a chain of blocks ([Blockchain]), decides which
    transactions and coinbases are valid ([Core], [Currency]), rolls blocks back on
    reorganisations, exchanges them with its peers ([CryptoNoteProtocolHandler], [NodeServer]), and serves blocks to wallets, which keep
    their own copy of the chain of hashes ([SynchronizationState]).  This library translates the consensus-relevant code
    of [src/src] into executable definitions and proves what makes it correct.

    ** How code becomes definitions

    - Integers are [Z]; the wrap-around of [uint8_t], [uint32_t], [uint64_t] and [int64_t] is
      written out where the code can reach it ([u8], [u32], [u64], [i64] below).
    - Code that can fail an [assert] or throw, divide by zero or read out of range returns an
      [outcome]: [Ret], [AssertFail], [Throw] or [Undefined].  A [bool] that reports an error and an output
      parameter become an [option] or a pair.
    - Member variables are records, passed and returned; [std::unordered_map] is [gmap],
      [std::vector] a list, [std::map] and [multi_index] containers are lists in their order.
    - Curve arithmetic, key derivation, signature checks and clocks are arguments; log lines and locks are
      left out.
    - Loops are structural where the code counts; the others carry fuel, which is shown to be
      enough: 65 rounds for doubling loops on 64 bits ([Sync.sparse_loop]), the length of the
      chain for the short history, ten bytes for a varint, 64 halvings for the Merkle tree,
      the number of leaves for the tree of commitments, the number of bytes left for containers
      ([Codec.get_items]) and extra fields, 255 for the free Elderfier number,
      twenty decimal orders for amounts, the number of blocks for the walks down the chain ([Reorg.for_down],
      [Reorg.alternative_chain]), and the nesting of switches for [Reorg.handle_alternative_block], which is one, and the
      [2 (N - n) + 1] exchanges of a synchronisation of [N] blocks of which [n] are known ([ProtocolLiveness.session]).  A theorem about such a loop states that it returns.

    ** Files

    - [Prelude]: widths, the [outcome] monad, vectors, byte strings, tactics and hints.
    - [IntUtil]: [Common/int-util.h] (128-bit products and quotients), [Difficulty.cpp]
      ([check_hash]), [BankingFee.cpp].
    - [Config], [Currency], [Types]: [CryptoNoteConfig.h]; the members, builder and
      version-dependent accessors of [Currency]; the structures of [include/CryptoNote.h].
    - [Keccak], [MerkleTree]: [crypto/keccak.c], [crypto/hash.c] and [crypto/tree-hash.c].
    - [Amounts]: decompositions, pretty amounts, fusion transactions, amount text.
    - [TxChecks]: sums and overflow, input and output checks, ring offsets
      ([CryptoNoteFormatUtils.cpp]), fees and deposit interest ([Currency.cpp]),
      [check_tx_semantic], [check_tx_mixin] and [check_tx_fee] ([Core.cpp]).
    - [Emission]: [getBlockReward], [getPenalizedAmount], [computePerBlockEfierRewards] and
      [constructMinerTx].
    - [DifficultyAlgo]: [nextDifficulty] with its five versions.
    - [Hex], [Varint], [Base58]: the text and byte formats of hashes, integers and addresses.
    - [TransactionExtra]: the fields of the extra data ([TransactionExtra.cpp]).
    - [Codec], [Serialization]: the binary serializers as pairs of a writer and a reader, and the
      formats of transactions and blocks with their hashes ([CryptoNoteSerialization.cpp]).
    - [BankingIndex]: [BankingIndex.cpp] and [InvestmentIndex.cpp], behind the class [DepositLedger].
    - [ChainStore]: the transaction containers of [Blockchain] with [pushTransaction],
      [popTransaction] and [popTransactions].
    - [UpgradeDetector]: the vote for a protocol version, and finding it again when the node starts.
    - [Sync]: [BlockIndex], [findBlockchainSupplement], [SynchronizationState] and the update of a
      consumer, tied by the class [HistoryBuilder]; [SyncLiveness]: repeated rounds.
    - [Transfers]: the wallet's container of outputs ([TransfersContainer.cpp]), with its visibility
      ([TransfersVisibility]), its invariant ([TransfersInvariant]) and the containers that are reached ([TransfersReach]).
    - [TransfersConsumer]: [TransfersConsumer.cpp], [TransfersSubscription.cpp] and [updateConsumers]: from blocks to
      containers, over the class [Environment]; [TransfersWallet]: the wallets that are reached;
      [TransfersExceptions]: what an operation that throws leaves behind, and the consumer as the synchroniser drives it.
    - [Checkpoints]: checkpoints and the rule for alternative blocks.
    - [AliasIndex]: the registry of names.
    - [CommitmentStore], [Elderfiers]: [CommitmentIndex.cpp], first the commitments with their Merkle
      tree, then the registration, unstaking, slashing and reports of the Elderfiers, with clearing, saving and loading the index.
    - [SwapStateMachine]: the states of an atomic swap.
    - [MinerTx]: the validation of a coinbase, on top of [Emission], [BankingIndex],
      [UpgradeDetector] and [Checkpoints].
    - [InputChecks]: [checkTransactionInputs] against the blocks and the store of a chain.
    - [BlockEffects]: [pushToBankingIndex], what the extra fields and outputs of a block do to the ledgers.
    - [BlockIndices]: the indices of generated transactions, orphans and timestamps.
    - [SwappedVector]: the vector of blocks in two files.
    - [ProofOfWork]: [checkProofOfWork] and the blob that is hashed.
    - [Chain]: [pushBlock], [popBlock], [removeLastBlock] and [rollbackBlockchainTo] of [Blockchain.cpp]
      over all of these, with the pool behind the class [TxPool].  [ChainInvariant] has what a push and a pop
      keep, [ChainReach] the states that are reached.
    - [Reorg]: [addNewBlock], [handle_alternative_block] and [switch_to_alternative_blockchain] with the
      Poisson check and the rollback; [ReorgInvariant]: what a node keeps, and that it never switches.
    - [TransactionPool]: the memory pool with its indices and the block template.
    - [PeerList]: the white, gray and anchor lists of peers ([PeerListManager.cpp]), with their file.
    - [P2pTypes]: the messages, the state of a connection, the handler with what it sent, and the monad of the handlers with its two
      program logics ([wp], [twp]); the core and the format of blocks are the classes [Core] and [Format].
    - [NetHosts]: blocked and failing hosts, the peers a message is relayed to ([NetNode.cpp]).
    - [ProtocolHandler]: the handlers of [CryptoNoteProtocolHandler.cpp]; what the other fibres do while one waits is the argument
      [others].  [ProtocolDemo]: a small core to run them on; [ProtocolSafety]: what one handler does.
    - [NetNode]: handshakes, timed synchronisation and the loop over the commands of a connection.
    - [ProtocolLiveness]: two nodes that answer each other.
    - [Synchronizer]: the worker of [BlockchainSynchronizer.cpp] with the many consumers of a wallet behind the class
      [IBlockchainConsumer], the requests that wait for it and the transactions it is given ([TransactionPrefixImpl]).  The
      worker is a program counter, and each call of another thread is a step between two of its own.  [TransfersExceptions] makes
      [TransfersConsumer] an instance of the class.  [SynchronizerDemo]: small consumers to run it on; [SynchronizerSafety]: its invariant, the end
      after [stop], the requests that errors lose; [SynchronizerRound]: rounds with consumers that lag behind;
      [SynchronizerConsumers]: the chains that consumers are told, and transactions that one of them refuses.
    - [BlockQueries]: what a node answers to peers and to wallets about its blocks ([Blockchain.cpp], [Core.cpp],
      [InProcessNode.cpp]); its theorems discharge what [ProtocolLiveness] and [SynchronizerRound] assume of an honest node.

    ** What is proved

    - The chain: in every reachable chain the indices, heights, links and the deposit ledger agree with the blocks and no swap
      fee is ever shared ([ChainReach]); outside the checkpoint zone inputs are accepted exactly when each meets the conditions of its kind, and an
      accepted transaction is pushed ([InputChecks]); the effects of a block add up ([BlockEffects]);
      the files of the blocks behave like a list ([SwappedVector]); one proof of work serves one block
      ([ProofOfWork]).
    - Money: no key image is accepted twice and a rollback of admissible transactions restores the store exactly
      ([ChainStore]); the reward is exact ([Emission]); outside the checkpoint zone
      a coinbase is bounded by the reward ([MinerTx]); a transaction that passes
      the semantic check creates no money ([TxChecks]); decompositions and fusion
      transactions balance ([Amounts]).
    - Consensus arithmetic: proof of work, the penalty and the difficulty are the intended
      functions at machine width, with the exact limits where they stop being so
      ([IntUtil], [Emission], [DifficultyAlgo]).
    - Formats: varints, Base58, addresses, amounts, ring offsets, extra fields, transactions and blocks
      round-trip, with the exact set of accepted encodings; the Merkle branch recomputes the root.
    - Peers: only requested blocks reach the core, in the order of the response, a lite block only with its transactions, requests are bounded ([ProtocolSafety]);
      a node that synchronises with an honest peer ends with the whole chain ([ProtocolLiveness]); a node whose
      blocks can be read back is such a peer, and answers wallets honestly ([BlockQueries]); the lists of peers stay well formed, over restarts ([PeerList]).
    - The pool: transactions in priority order, of which those that no block returned do not conflict in ring key images and multisignature outputs, and the block template.
    - Elderfiers: the registry and its lifecycle, over restarts and rebuildings, the quorum of a slash, the report of an epoch;
      the commitments refine a log, their proofs verify and their root binds them.
    - State under reorganisation: the deposit ledger refines the list of blocks, the upgrade
      detector holds the first completed vote, and a restart finds it again; no call that returns switches to a heavier chain, since [popBlock] pops
      two blocks ([ReorgInvariant]).
    - Wallets: a synchronisation round joins the wallet to the node's chain, and repeated rounds reach it ([Sync],
      [SyncLiveness]); the containers of a wallet that follows its node are consistent and show what its copy of the chain holds
      ([TransfersWallet]); detaching forgets exactly what is above the height, the balance counts a key image once, and
      unlocked outputs are reported when they unlock ([TransfersReach]); an output key is credited once.
      With many consumers: whatever the other threads call, the worker ends in eight steps after [stop] unless it is fed
      new requests, each consumer is told one chain that its state follows, those that lag behind catch up in undisturbed rounds, and
      an unconfirmed transaction that one consumer refuses is withdrawn from all ([SynchronizerSafety], [SynchronizerRound],
      [SynchronizerConsumers]).
    - Defects: theorems that show where the code departs from what it means to do (burned coins
      that survive a rollback, the overdraft of the fee pool, key images leaked by a rejected
      transaction, the template a node rejects, two faults of the difficulty, a null
      pointer, payment ids that the pool forgets, the template that starts with the cheapest transaction,
      roots that depend on the history of a node, stakes that a reorganisation counts twice, reorganisations that
      cannot succeed, lite blocks that drop an honest peer, blocked hosts that stay connected, outputs that an exception leaves without their transaction, withdrawals of deposits that a wallet does not notice, output keys that it does not remember).

    ** Not modelled

    Elliptic curves, signatures and the slow hash; sockets and the Levin framing, RPC, files and logging; threads, but for
    the fibres of the protocol handler and the worker of the synchroniser, whose interleavings are explicit; key storage,
    payments and user interfaces of the wallets; decoy selection, ring sizes and other floating-point heuristics; the deposit
    commitments and the staged unlock of deposits, which nothing in the consensus code calls. *)

From stdpp Require Export base list numbers option gmap strings sorting.
From Stdlib Require Export ZArith Lia.

#[global] Open Scope Z_scope.

Create HintDb fuego.

#[global] Arguments Z.pow : simpl never.
#[global] Arguments Z.modulo : simpl never.
#[global] Arguments Z.div : simpl never.
#[global] Arguments Z.shiftl : simpl never.
#[global] Arguments Z.shiftr : simpl never.
#[global] Arguments Z.mul : simpl never.
#[global] Arguments Z.add : simpl never.
#[global] Arguments Z.sub : simpl never.

(** * Machine integers

    A C++ [uintN_t] is a [Z] in [0, 2^N); every operation that can leave the
    range is wrapped explicitly with [u8], [u32] or [u64].  [int64_t] values
    are wrapped with [i64]. *)

Definition u8 (x : Z) : Z := x mod 2 ^ 8.
Definition u32 (x : Z) : Z := x mod 2 ^ 32.
Definition u64 (x : Z) : Z := x mod 2 ^ 64.
Definition i64 (x : Z) : Z := (x + 2 ^ 63) mod 2 ^ 64 - 2 ^ 63.

Definition UINT64_MAX : Z := 2 ^ 64 - 1.
Definition UINT32_MAX : Z := 2 ^ 32 - 1.
Definition INT64_MAX : Z := 2 ^ 63 - 1.
Definition INT64_MIN : Z := - 2 ^ 63.

Definition is_u8 (x : Z) : Prop := 0 <= x < 2 ^ 8.
Definition is_u32 (x : Z) : Prop := 0 <= x < 2 ^ 32.
Definition is_u64 (x : Z) : Prop := 0 <= x < 2 ^ 64.
Definition is_i64 (x : Z) : Prop := - 2 ^ 63 <= x < 2 ^ 63.

Lemma u8_small x : 0 <= x < 2 ^ 8 -> u8 x = x.
Proof. apply Z.mod_small. Qed.

Lemma u32_small x : 0 <= x < 2 ^ 32 -> u32 x = x.
Proof. apply Z.mod_small. Qed.

Lemma u64_small x : 0 <= x < 2 ^ 64 -> u64 x = x.
Proof. apply Z.mod_small. Qed.

Lemma i64_small x : - 2 ^ 63 <= x < 2 ^ 63 -> i64 x = x.
Proof. intros H. unfold i64. rewrite Z.mod_small; lia. Qed.

Lemma u8_range x : 0 <= u8 x < 2 ^ 8.
Proof. apply Z.mod_pos_bound. lia. Qed.

Lemma u32_range x : 0 <= u32 x < 2 ^ 32.
Proof. apply Z.mod_pos_bound. lia. Qed.

Lemma u64_range x : 0 <= u64 x < 2 ^ 64.
Proof. apply Z.mod_pos_bound. lia. Qed.

#[export] Hint Resolve u8_range u32_range u64_range : fuego.

(** A sum of two 64-bit values either fits or wraps once. *)
Lemma u64_add_cases a b :
  is_u64 a -> is_u64 b ->
  (a + b < 2 ^ 64 /\ u64 (a + b) = a + b) \/
  (2 ^ 64 <= a + b /\ u64 (a + b) = a + b - 2 ^ 64).
Proof.
  unfold is_u64, u64. intros Ha Hb.
  destruct (Z.lt_ge_cases (a + b) (2 ^ 64)) as [H | H].
  - left. split; [lia | apply Z.mod_small; lia].
  - right. split; [lia |].
    rewrite <- (Z.mod_small (a + b - 2 ^ 64) (2 ^ 64)) by lia.
    rewrite <- (Z_mod_plus_full (a + b - 2 ^ 64) 1). f_equal. lia.
Qed.

(** * Outcomes of fallible code

    [AssertFail] is a failed [assert] (debug builds stop there), [Undefined] is
    an access out of range or a division by zero, [Throw] a C++ exception. *)

Inductive outcome (A : Type) : Type :=
| Ret (a : A)
| AssertFail
| Undefined
| Throw (what : string).
Arguments Ret {A} a.
Arguments AssertFail {A}.
Arguments Undefined {A}.
Arguments Throw {A} what.

#[export] Instance outcome_ret : MRet outcome := fun A a => Ret a.
#[export] Instance outcome_bind : MBind outcome := fun A B f c =>
  match c with
  | Ret a => f a
  | AssertFail => AssertFail
  | Undefined => Undefined
  | Throw e => Throw e
  end.

Lemma outcome_bind_ret {A B} (a : A) (f : A -> outcome B) : (Ret a ≫= f) = f a.
Proof. reflexivity. Qed.

Lemma outcome_bind_inv {A B} (c : outcome A) (f : A -> outcome B) b :
  (c ≫= f) = Ret b -> exists a, c = Ret a /\ f a = Ret b.
Proof. destruct c; simpl; try discriminate. eauto. Qed.

(** [assert(b)]. *)
Definition assert_ (b : bool) : outcome unit :=
  if b then Ret tt else AssertFail.

Lemma assert_true b : b = true -> assert_ b = Ret tt.
Proof. intros ->. reflexivity. Qed.

(** [v[i]] on a vector: undefined out of range. *)
Definition vec_at {A} (l : list A) (i : Z) : outcome A :=
  if i <? 0 then Undefined
  else match l !! Z.to_nat i with Some a => Ret a | None => Undefined end.

Lemma vec_at_lookup {A} (l : list A) (i : Z) a :
  0 <= i -> l !! Z.to_nat i = Some a -> vec_at l i = Ret a.
Proof.
  intros Hi Hl. unfold vec_at. rewrite Hl.
  destruct (Z.ltb_spec i 0); [lia | reflexivity].
Qed.

Lemma vec_at_Ret {A} (l : list A) (i : Z) a :
  vec_at l i = Ret a <-> 0 <= i /\ l !! Z.to_nat i = Some a.
Proof.
  unfold vec_at. destruct (Z.ltb_spec i 0).
  - split; [discriminate | lia].
  - destruct (l !! Z.to_nat i) as [x |]; split.
    + intros [= ->]. done.
    + intros [_ [= ->]]. done.
    + discriminate.
    + intros [_ ?]. discriminate.
Qed.

Lemma vec_at_in_range {A} (l : list A) (i : Z) :
  0 <= i < Z.of_nat (length l) -> exists a, vec_at l i = Ret a.
Proof.
  intros Hi. destruct (lookup_lt_is_Some_2 l (Z.to_nat i)) as [a Ha]; [lia |].
  exists a. apply vec_at_lookup; [lia | done].
Qed.

(** [v[i] = a]: undefined out of range. *)
Definition vec_set {A} (l : list A) (i : Z) (a : A) : outcome (list A) :=
  if (0 <=? i) && (i <? Z.of_nat (length l)) then Ret (<[Z.to_nat i := a]> l) else Undefined.

Lemma vec_set_app {A} (l r : list A) (x a : A) i :
  i = Z.of_nat (length l) -> vec_set (l ++ x :: r) i a = Ret (l ++ a :: r).
Proof.
  intros ->. unfold vec_set. rewrite Nat2Z.id, length_app. cbn [length].
  destruct (Z.leb_spec 0 (Z.of_nat (length l))); [| lia].
  destruct (Z.ltb_spec (Z.of_nat (length l)) (Z.of_nat (length l + S (length r)))); [| lia].
  rewrite insert_app_r_alt, Nat.sub_diag by lia. done.
Qed.

Lemma vec_at_app {A} (l r : list A) (x : A) i :
  i = Z.of_nat (length l) -> vec_at (l ++ x :: r) i = Ret x.
Proof.
  intros ->. apply vec_at_lookup; [lia |].
  rewrite Nat2Z.id, lookup_app_r, Nat.sub_diag by lia. done.
Qed.

(** Unsigned division and remainder: undefined for a zero divisor. *)
Definition udiv (a b : Z) : outcome Z := if b =? 0 then Undefined else Ret (a / b).

Lemma udiv_pos a b : 0 < b -> udiv a b = Ret (a / b).
Proof. intros H. unfold udiv. destruct (Z.eqb_spec b 0); [lia | done]. Qed.

(** * Byte strings

    A byte string is a list of values in [0, 256); [Crypto::Hash] is one of 32
    bytes, read by the 64-bit code as four little-endian words. *)

Abbreviation bytes := (list Z).
Abbreviation Hash := (list Z).

Definition NULL_HASH : Hash := replicate 32 0.

Definition is_byte (b : Z) : Prop := 0 <= b < 256.

Fixpoint le_value (bs : bytes) : Z :=
  match bs with
  | [] => 0
  | b :: bs => b + 256 * le_value bs
  end.

Lemma le_value_app a b : le_value (a ++ b) = le_value a + 256 ^ Z.of_nat (length a) * le_value b.
Proof.
  induction a as [| x a IH]; cbn [app le_value length].
  - change (256 ^ Z.of_nat 0) with 1. lia.
  - rewrite IH, Nat2Z.inj_succ, Z.pow_succ_r by lia. ring.
Qed.

Lemma le_value_range bs :
  Forall is_byte bs -> 0 <= le_value bs < 256 ^ Z.of_nat (length bs).
Proof.
  induction 1 as [| b bs Hb _ IH]; cbn [le_value length].
  - change (256 ^ Z.of_nat 0) with 1. lia.
  - unfold is_byte in Hb. rewrite Nat2Z.inj_succ, Z.pow_succ_r by lia. lia.
Qed.

(** * Tactics *)

(** Case on every boolean comparison of [Z] in the goal or a hypothesis. *)
Ltac zcase :=
  match goal with
  | |- context [?a <? ?b] => destruct (Z.ltb_spec a b)
  | |- context [?a <=? ?b] => destruct (Z.leb_spec a b)
  | |- context [?a >? ?b] => rewrite (Z.gtb_ltb a b)
  | |- context [?a >=? ?b] => rewrite (Z.geb_leb a b)
  | |- context [?a =? ?b] => destruct (Z.eqb_spec a b)
  | H : context [?a <? ?b] |- _ => destruct (Z.ltb_spec a b)
  | H : context [?a <=? ?b] |- _ => destruct (Z.leb_spec a b)
  | H : context [?a >? ?b] |- _ => rewrite (Z.gtb_ltb a b) in H
  | H : context [?a >=? ?b] |- _ => rewrite (Z.geb_leb a b) in H
  | H : context [?a =? ?b] |- _ => destruct (Z.eqb_spec a b)
  end.

Ltac zcases := repeat (zcase; try lia; try discriminate).

(** Open an equation [c >>= f = Ret b] step by step. *)
Ltac outcome_inv :=
  repeat match goal with
  | H : (_ ≫= _) = Ret _ |- _ =>
      let a := fresh "a" in let H1 := fresh "Hc" in
      apply outcome_bind_inv in H as (a & H1 & H)
  | H : Ret _ = Ret _ |- _ => injection H as H; subst
  end.
