(* ===== verification/IntUtil.v ===== *)
(** 64- and 128-bit integer arithmetic of [src/src/Common/int-util.h] and the
    proof-of-work comparison of [src/src/CryptoNoteCore/Difficulty.cpp].

    The 128-bit product and the long division are modelled word by word, as the
    C code computes them, and proved equal to the product and the quotient of
    unbounded integers. *)

From S2P Require Import Prelude.

(** * [int-util.h] *)

Definition hi_dword (val : Z) : Z := Z.shiftr val 32.

Definition lo_dword (val : Z) : Z := Z.land val 0xFFFFFFFF.

(** [mul128 m n] is [(product_lo, product_hi)]. *)
Definition mul128 (multiplier multiplicand : Z) : outcome (Z * Z) :=
  let a := hi_dword multiplier in
  let b := lo_dword multiplier in
  let c := hi_dword multiplicand in
  let d := lo_dword multiplicand in
  let ac := u64 (a * c) in
  let ad := u64 (a * d) in
  let bc := u64 (b * c) in
  let bd := u64 (b * d) in
  let adbc := u64 (ad + bc) in
  let adbc_carry := if adbc <? ad then 1 else 0 in
  let product_lo := u64 (bd + u64 (Z.shiftl adbc 32)) in
  let product_lo_carry := if product_lo <? bd then 1 else 0 in
  let product_hi :=
    u64 (u64 (u64 (ac + Z.shiftr adbc 32) + u64 (Z.shiftl adbc_carry 32))
         + product_lo_carry) in
  _ ← assert_ (ac <=? product_hi);
  Ret (product_lo, product_hi).

(** [div_with_reminder dividend divisor remainder] is the quotient and the new
    remainder. *)
Definition div_with_reminder (dividend divisor remainder : Z) : outcome (Z * Z) :=
  let dividend := Z.lor dividend (u64 (Z.shiftl remainder 32)) in
  if divisor =? 0 then Undefined
  else Ret (dividend / divisor, u32 (dividend mod divisor)).

(** [div128_32 hi lo divisor] is [(remainder, quotient_hi, quotient_lo)]. *)
Definition div128_32 (dividend_hi dividend_lo divisor : Z) : outcome (Z * Z * Z) :=
  let d3 := hi_dword dividend_hi in
  let d2 := lo_dword dividend_hi in
  let d1 := hi_dword dividend_lo in
  let d0 := lo_dword dividend_lo in
  '(q3, r3) ← div_with_reminder d3 divisor 0;
  '(q2, r2) ← div_with_reminder d2 divisor r3;
  '(q1, r1) ← div_with_reminder d1 divisor r2;
  '(q0, r0) ← div_with_reminder d0 divisor r1;
  Ret (r0, Z.lor (u64 (Z.shiftl q3 32)) q2, Z.lor (u64 (Z.shiftl q1 32)) q0).

(** ** Word arithmetic *)

Lemma hi_dword_div x : hi_dword x = x / 2 ^ 32.
Proof. unfold hi_dword. apply Z.shiftr_div_pow2. lia. Qed.

Lemma lo_dword_mod x : lo_dword x = x mod 2 ^ 32.
Proof.
  unfold lo_dword. change 0xFFFFFFFF with (Z.ones 32).
  apply Z.land_ones. lia.
Qed.

Lemma dword_split x :
  is_u64 x ->
  x = hi_dword x * 2 ^ 32 + lo_dword x /\
  0 <= hi_dword x < 2 ^ 32 /\ 0 <= lo_dword x < 2 ^ 32.
Proof.
  unfold is_u64. intros Hx. rewrite hi_dword_div, lo_dword_mod.
  pose proof (Z.div_mod x (2 ^ 32)). pose proof (Z.mod_pos_bound x (2 ^ 32)).
  split; [lia |]. split; [| lia].
  split; [apply Z.div_pos; lia | apply Z.div_lt_upper_bound; lia].
Qed.

Lemma shiftl_u64 x n : 0 <= n -> u64 (Z.shiftl x n) = (x * 2 ^ n) mod 2 ^ 64.
Proof. intros H. unfold u64. by rewrite Z.shiftl_mul_pow2. Qed.

(** The low [n] bits of a shifted value are free for an [or]. *)
Lemma lor_shiftl_add a b n :
  0 <= n -> 0 <= b < 2 ^ n -> Z.lor (Z.shiftl a n) b = a * 2 ^ n + b.
Proof.
  intros Hn Hb. rewrite <- (Z.shiftl_mul_pow2 a n) by done.
  rewrite <- Z.add_lor_land.
  replace (Z.land (Z.shiftl a n) b) with 0; [lia |].
  symmetry. apply Z.bits_inj'. intros i Hi.
  rewrite Z.land_spec, Z.bits_0, Z.shiftl_spec by done.
  destruct (Z.lt_ge_cases i n) as [Hin | Hin].
  - by rewrite (Z.testbit_neg_r a (i - n)) by lia.
  - rewrite <- (Z.mod_small b (2 ^ n)) by done.
    rewrite Z.mod_pow2_bits_high by lia. apply andb_false_r.
Qed.

Lemma div_mod_unique x q r d : 0 <= r < d -> x = q * d + r -> x / d = q /\ x mod d = r.
Proof.
  intros Hr ->. split.
  - rewrite Z.div_add_l by lia. rewrite Z.div_small; lia.
  - rewrite Z.add_comm, Z_mod_plus_full. apply Z.mod_small. lia.
Qed.

(** The product of two half-words fits in a word. *)
Lemma dword_product x y :
  0 <= x < 2 ^ 32 -> 0 <= y < 2 ^ 32 -> 0 <= x * y <= (2 ^ 32 - 1) * (2 ^ 32 - 1).
Proof. intros. split; [nia | apply Z.mul_le_mono_nonneg; lia]. Qed.

(** Adding the cross products into the two result words, with both carries. *)
Lemma mul128_carries ac ad bc bd P :
  0 <= ac <= (2 ^ 32 - 1) * (2 ^ 32 - 1) -> 0 <= ad <= (2 ^ 32 - 1) * (2 ^ 32 - 1) ->
  0 <= bc <= (2 ^ 32 - 1) * (2 ^ 32 - 1) -> 0 <= bd <= (2 ^ 32 - 1) * (2 ^ 32 - 1) ->
  P = ac * 2 ^ 64 + (ad + bc) * 2 ^ 32 + bd -> P < 2 ^ 128 ->
  let adbc := u64 (ad + bc) in
  let k1 := if adbc <? ad then 1 else 0 in
  let lo := u64 (bd + u64 (Z.shiftl adbc 32)) in
  let k2 := if lo <? bd then 1 else 0 in
  let hi := u64 (u64 (u64 (ac + Z.shiftr adbc 32) + u64 (Z.shiftl k1 32)) + k2) in
  lo = P mod 2 ^ 64 /\ hi = P / 2 ^ 64 /\ ac <= hi.
Proof.
  intros Hac Had Hbc Hbd HP HPb adbc k1 lo k2 hi.
  set (k := if 2 ^ 64 <=? ad + bc then 1 else 0).
  assert (Hadbc : adbc = ad + bc - k * 2 ^ 64 /\ 0 <= adbc < 2 ^ 64 /\ k1 = k).
  { unfold k1, k, adbc, u64.
    destruct (u64_add_cases ad bc) as [[? E] | [? E]]; unfold is_u64, u64 in *;
      try lia; rewrite E; zcases. }
  destruct Hadbc as (Hadbc & Hr & Hk1). clearbody adbc k1.
  assert (Hk : 0 <= k <= 1) by (unfold k; zcases).
  pose proof (Z.div_mod adbc (2 ^ 32)) as Hdm.
  pose proof (Z.mod_pos_bound adbc (2 ^ 32)) as Hm.
  set (h := adbc / 2 ^ 32) in *. set (l := adbc mod 2 ^ 32) in *.
  assert (Hsh : u64 (Z.shiftl adbc 32) = l * 2 ^ 32).
  { rewrite shiftl_u64 by lia. apply (div_mod_unique _ h); lia. }
  assert (Hsr : Z.shiftr adbc 32 = h) by (apply Z.shiftr_div_pow2; lia).
  assert (Hks : u64 (Z.shiftl k 32) = k * 2 ^ 32).
  { rewrite shiftl_u64 by lia. apply Z.mod_small. lia. }
  assert (Hlo : lo = bd + l * 2 ^ 32 - k2 * 2 ^ 64 /\ 0 <= lo < 2 ^ 64 /\ 0 <= k2 <= 1).
  { unfold k2, lo. rewrite Hsh.
    destruct (u64_add_cases bd (l * 2 ^ 32)) as [[? E] | [? E]]; unfold is_u64 in *;
      try lia; rewrite E; zcases. }
  destruct Hlo as (Hlo & Hlor & Hk2).
  assert (Hhi : hi = ac + h + k * 2 ^ 32 + k2).
  { unfold hi. rewrite Hk1, Hsr, Hks, (u64_small (ac + h)) by lia.
    rewrite (u64_small (ac + h + k * 2 ^ 32)) by lia. apply u64_small. lia. }
  clearbody hi lo k2.
  destruct (div_mod_unique P hi lo (2 ^ 64)); lia.
Qed.

(** [mul128] never fails its assertion and returns the two words of the exact
    128-bit product. *)
Lemma mul128_exact m n :
  is_u64 m -> is_u64 n ->
  mul128 m n = Ret ((m * n) mod 2 ^ 64, m * n / 2 ^ 64).
Proof.
  intros Hm Hn.
  destruct (dword_split m Hm) as (Em & Ha & Hb).
  destruct (dword_split n Hn) as (En & Hc & Hd).
  unfold mul128. set (a := hi_dword m) in *. set (b := lo_dword m) in *.
  set (c := hi_dword n) in *. set (d := lo_dword n) in *.
  rewrite (u64_small (a * c)), (u64_small (a * d)), (u64_small (b * c)), (u64_small (b * d))
    by (match goal with |- 0 <= ?x * ?y < _ => pose proof (dword_product x y); lia end).
  destruct (mul128_carries (a * c) (a * d) (b * c) (b * d) (m * n)) as (Elo & Ehi & Hle);
    try (apply dword_product; done); [rewrite Em, En; ring | unfold is_u64 in *; nia |].
  cbv zeta in *. rewrite assert_true by (apply Z.leb_le; exact Hle).
  rewrite outcome_bind_ret, Ehi, Elo. reflexivity.
Qed.

Lemma div_with_reminder_exact x d r :
  0 <= x < 2 ^ 32 -> 0 < d < 2 ^ 32 -> 0 <= r < d ->
  div_with_reminder x d r = Ret ((r * 2 ^ 32 + x) / d, (r * 2 ^ 32 + x) mod d).
Proof.
  intros Hx Hd Hr. unfold div_with_reminder.
  replace (u64 (Z.shiftl r 32)) with (Z.shiftl r 32)
    by (symmetry; apply u64_small; rewrite Z.shiftl_mul_pow2; lia).
  rewrite Z.lor_comm, lor_shiftl_add by lia.
  destruct (Z.eqb_spec d 0); [lia |].
  rewrite u32_small; [done |].
  pose proof (Z.mod_pos_bound (r * 2 ^ 32 + x) d). lia.
Qed.

(** One step of long division yields a digit in base 2^32. *)
Lemma long_division_digit x d r :
  0 <= x < 2 ^ 32 -> 0 < d -> 0 <= r < d ->
  let n := r * 2 ^ 32 + x in
  n = (n / d) * d + n mod d /\ 0 <= n / d < 2 ^ 32 /\ 0 <= n mod d < d.
Proof.
  intros Hx Hd Hr n. pose proof (Z.div_mod n d). pose proof (Z.mod_pos_bound n d).
  repeat split; try lia; [apply Z.div_pos; lia | apply Z.div_lt_upper_bound; nia].
Qed.

(** [div128_32] is the exact 128-by-32-bit division. *)
Lemma div128_32_exact hi lo d :
  is_u64 hi -> is_u64 lo -> 0 < d < 2 ^ 32 ->
  let n := hi * 2 ^ 64 + lo in
  div128_32 hi lo d = Ret (n mod d, (n / d) / 2 ^ 64, (n / d) mod 2 ^ 64).
Proof.
  intros Hhi Hlo Hd n.
  destruct (dword_split hi Hhi) as (Eh & H3 & H2).
  destruct (dword_split lo Hlo) as (El & H1 & H0).
  unfold div128_32.
  set (x3 := hi_dword hi) in *. set (x2 := lo_dword hi) in *.
  set (x1 := hi_dword lo) in *. set (x0 := lo_dword lo) in *.
  destruct (long_division_digit x3 d 0) as (E3 & Q3 & R3); [lia.. |].
  rewrite div_with_reminder_exact by lia. rewrite outcome_bind_ret.
  set (q3 := (0 * 2 ^ 32 + x3) / d) in *. set (r3 := (0 * 2 ^ 32 + x3) mod d) in *.
  destruct (long_division_digit x2 d r3) as (E2 & Q2 & R2); [lia.. |].
  rewrite div_with_reminder_exact by lia. rewrite outcome_bind_ret.
  set (q2 := (r3 * 2 ^ 32 + x2) / d) in *. set (r2 := (r3 * 2 ^ 32 + x2) mod d) in *.
  destruct (long_division_digit x1 d r2) as (E1 & Q1 & R1); [lia.. |].
  rewrite div_with_reminder_exact by lia. rewrite outcome_bind_ret.
  set (q1 := (r2 * 2 ^ 32 + x1) / d) in *. set (r1 := (r2 * 2 ^ 32 + x1) mod d) in *.
  destruct (long_division_digit x0 d r1) as (E0 & Q0 & R0); [lia.. |].
  rewrite div_with_reminder_exact by lia. rewrite outcome_bind_ret.
  set (q0 := (r1 * 2 ^ 32 + x0) / d) in *. set (r0 := (r1 * 2 ^ 32 + x0) mod d) in *.
  clearbody q3 r3 q2 r2 q1 r1 q0 r0.
  rewrite (u64_small (Z.shiftl q3 32)), (u64_small (Z.shiftl q1 32))
    by (rewrite Z.shiftl_mul_pow2; lia).
  rewrite !lor_shiftl_add by lia.
  set (QH := q3 * 2 ^ 32 + q2). set (QL := q1 * 2 ^ 32 + q0).
  destruct (div_mod_unique n (QH * 2 ^ 64 + QL) r0 d) as [Eq Er]; [lia | unfold n; nia |].
  rewrite Eq, Er.
  destruct (div_mod_unique (QH * 2 ^ 64 + QL) QH QL (2 ^ 64)) as [-> ->]; [lia | lia | done].
Qed.

(** * [Difficulty.cpp]: does a hash meet a difficulty? *)

(** [mul] with [unsigned __int128]: low and high word of the product. *)
Definition mul (a b : Z) : Z * Z :=
  let res := (a * b) mod 2 ^ 128 in
  (u64 res, u64 (Z.shiftr res 64)).

Definition cadd (a b : Z) : bool := u64 (a + b) <? a.

Definition cadc (a b : Z) (c : bool) : bool :=
  (u64 (a + b) <? a) || (c && (u64 (a + b) =? u64 (-1))).

(** [((const uint64_t * ) &hash)[i]] on a little-endian machine. *)
Definition hash_word (hash : Hash) (i : nat) : Z := le_value (take 8 (drop (8 * i) hash)).

Definition check_hash (hash : Hash) (difficulty : Z) : bool :=
  let '(top, high) := mul (hash_word hash 3) difficulty in
  if negb (high =? 0) then false
  else
    let '(_, cur) := mul (hash_word hash 0) difficulty in
    let '(low, high) := mul (hash_word hash 1) difficulty in
    let carry := cadd cur low in
    let cur := high in
    let '(low, high) := mul (hash_word hash 2) difficulty in
    let carry := cadc cur low carry in
    let carry := cadc high top carry in
    negb carry.

Lemma mul_exact a b :
  is_u64 a -> is_u64 b -> mul a b = ((a * b) mod 2 ^ 64, a * b / 2 ^ 64).
Proof.
  unfold is_u64. intros Ha Hb. unfold mul.
  assert (0 <= a * b < 2 ^ 128) by nia.
  rewrite (Z.mod_small (a * b) (2 ^ 128)), Z.shiftr_div_pow2 by lia.
  rewrite (u64_small (a * b / 2 ^ 64)); [done |].
  split; [apply Z.div_pos; lia | apply Z.div_lt_upper_bound; lia].
Qed.

(** The carry chain: a sum with carry overflows exactly when a carry is produced. *)
Lemma cadc_spec a b c :
  is_u64 a -> is_u64 b -> cadc a b c = (2 ^ 64 <=? a + b + Z.b2z c).
Proof.
  unfold is_u64. intros Ha Hb. unfold cadc. change (u64 (-1)) with (2 ^ 64 - 1).
  destruct (u64_add_cases a b Ha Hb) as [[? ->] | [? ->]]; destruct c; simpl Z.b2z; zcases; done.
Qed.

Lemma cadd_spec a b : is_u64 a -> is_u64 b -> cadd a b = (2 ^ 64 <=? a + b).
Proof.
  intros Ha Hb. rewrite <- (Z.add_0_r (a + b)). change 0 with (Z.b2z false).
  rewrite <- cadc_spec by done. unfold cadc, cadd. by rewrite orb_false_r.
Qed.

Lemma hash_word_range h i : Forall is_byte h -> is_u64 (hash_word h i).
Proof.
  intros H. unfold hash_word, is_u64. set (w := take 8 (drop (8 * i) h)).
  assert (Hw : Forall is_byte w) by (apply Forall_take, Forall_drop, H).
  pose proof (le_value_range w Hw) as Hr.
  assert (Hl : (length w <= 8)%nat) by (unfold w; rewrite length_take; lia).
  split; [lia |]. eapply Z.lt_le_trans; [apply Hr |].
  change (2 ^ 64) with (256 ^ 8). apply Z.pow_le_mono_r; lia.
Qed.

(** A 32-byte hash is the number its four words spell. *)
Lemma hash_words_value h :
  length h = 32%nat ->
  le_value h = hash_word h 0 + 2 ^ 64 * hash_word h 1
             + 2 ^ 128 * hash_word h 2 + 2 ^ 192 * hash_word h 3.
Proof.
  intros H. unfold hash_word. change (8 * 0)%nat with 0%nat. rewrite drop_0.
  rewrite <- (take_drop 8 h) at 1. rewrite le_value_app, length_take, H.
  rewrite <- (take_drop 8 (drop 8 h)) at 1. rewrite le_value_app, length_take, length_drop, H.
  rewrite <- (take_drop 8 (drop 8 (drop 8 h))) at 1.
  rewrite le_value_app, length_take, !length_drop, H.
  rewrite !drop_drop. simpl (8 + _)%nat. simpl (8 * _)%nat.
  rewrite (take_ge (drop 24 h)) by (rewrite length_drop; lia).
  change (Z.of_nat (8 `min` 32)) with 8. change (Z.of_nat (8 `min` (32 - 8))) with 8.
  change (Z.of_nat (8 `min` (32 - 8 - 8))) with 8. change (256 ^ 8) with (2 ^ 64).
  simpl (16 + 8)%nat. lia.
Qed.

(** The two words of a product. *)
Lemma product_words a b :
  is_u64 a -> is_u64 b ->
  a * b = (a * b / 2 ^ 64) * 2 ^ 64 + (a * b) mod 2 ^ 64 /\
  is_u64 ((a * b) mod 2 ^ 64) /\ is_u64 (a * b / 2 ^ 64).
Proof.
  unfold is_u64. intros Ha Hb. pose proof (Z.div_mod (a * b) (2 ^ 64)).
  repeat split; try (apply Z.mod_pos_bound; lia); [lia | apply Z.div_pos; nia |].
  apply Z.div_lt_upper_bound; nia.
Qed.

(** The carries out of three columns decide the overflow of the whole sum. *)
Lemma carry_chain l0 h0 l1 h1 l2 h2 l3 h3 :
  is_u64 l0 -> is_u64 h0 -> is_u64 l1 -> is_u64 h1 ->
  is_u64 l2 -> is_u64 h2 -> is_u64 l3 -> is_u64 h3 ->
  (if negb (h3 =? 0) then false
   else negb (cadc h2 l3 (cadc h1 l2 (cadd h0 l1)))) =
  (h0 * 2 ^ 64 + l0 + 2 ^ 64 * (h1 * 2 ^ 64 + l1) + 2 ^ 128 * (h2 * 2 ^ 64 + l2)
   + 2 ^ 192 * (h3 * 2 ^ 64 + l3) <? 2 ^ 256).
Proof.
  intros. rewrite cadd_spec, !cadc_spec by done. unfold is_u64 in *.
  destruct (Z.leb_spec (2 ^ 64) (h0 + l1)); simpl Z.b2z;
  match goal with |- context [2 ^ 64 <=? h1 + l2 + ?x] =>
    destruct (Z.leb_spec (2 ^ 64) (h1 + l2 + x)); simpl Z.b2z end;
  match goal with |- context [2 ^ 64 <=? h2 + l3 + ?x] =>
    destruct (Z.leb_spec (2 ^ 64) (h2 + l3 + x)) end;
  destruct (Z.eqb_spec h3 0); simpl negb; symmetry;
    first [apply Z.ltb_lt; lia | apply Z.ltb_ge; lia].
Qed.

(** C26: the word-by-word carry computation of [check_hash] decides exactly
    whether the hash, read as a 256-bit little-endian integer, times the
    difficulty stays below 2^256. *)
Theorem check_hash_correct (h : Hash) (d : Z) :
  length h = 32%nat -> Forall is_byte h -> is_u64 d ->
  check_hash h d = (le_value h * d <? 2 ^ 256).
Proof.
  intros Hl Hb Hd. rewrite (hash_words_value h Hl).
  unfold check_hash.
  rewrite !mul_exact by (done || by apply hash_word_range).
  destruct (product_words (hash_word h 0) d) as (E0 & L0 & H0); [by apply hash_word_range | done |].
  destruct (product_words (hash_word h 1) d) as (E1 & L1 & H1); [by apply hash_word_range | done |].
  destruct (product_words (hash_word h 2) d) as (E2 & L2 & H2); [by apply hash_word_range | done |].
  destruct (product_words (hash_word h 3) d) as (E3 & L3 & H3); [by apply hash_word_range | done |].
  rewrite (carry_chain ((hash_word h 0 * d) mod 2 ^ 64)) by done.
  f_equal. lia.
Qed.

(** The hash one and the difficulty 2^64 - 1 pass; the all-ones hash fails from difficulty 2 on. *)
Lemma check_hash_correct_witness :
  check_hash (1 :: replicate 31 0) UINT64_MAX = (le_value (1 :: replicate 31 0) * UINT64_MAX <? 2 ^ 256).
Proof.
  apply (check_hash_correct (1 :: replicate 31 0) UINT64_MAX); [reflexivity | | unfold is_u64, UINT64_MAX; lia].
  repeat constructor; unfold is_byte; lia.
Defined.
