(* ===== verification/Hex.v ===== *)
(** Hexadecimal text of hashes and keys: [src/src/Common/StringTools.cpp] and [StringTools.h].  Text is
    a list of character codes. *)

From S2P Require Import Prelude.

(** The characters of a string literal. *)
Definition str (s : string) : bytes := map (fun a => Z.of_nat (Ascii.nat_of_ascii a)) (String.list_ascii_of_string s).

(** * The code *)

(** [characterValues]: 0xff for a character that is no digit. *)
Definition characterValue (ch : Z) : Z :=
  if (48 <=? ch) && (ch <=? 57) then ch - 48
  else if (65 <=? ch) && (ch <=? 70) then ch - 55
  else if (97 <=? ch) && (ch <=? 102) then ch - 87
  else 0xff.

Definition fromHexChar (ch : Z) : option Z :=
  let v := characterValue ch in if 0x0f <? v then None else Some v.

(** [bool fromHex(const std::string& text, std::vector<uint8_t>& data)]; an odd length fails. *)
Fixpoint fromHex (text : bytes) : option bytes :=
  match text with
  | [] => Some []
  | [_] => None
  | a :: b :: rest =>
      value1 ← fromHexChar a;
      value2 ← fromHexChar b;
      data ← fromHex rest;
      Some (Z.lor (u8 (Z.shiftl value1 4)) value2 :: data)
  end.

Definition hex_digit (v : Z) : Z := if v <? 10 then 48 + v else 87 + v.

Definition toHex (data : bytes) : bytes :=
  data ≫= (fun b => [hex_digit (Z.shiftr b 4); hex_digit (Z.land b 15)]).

(** [podFromHex] for a hash: exactly 32 bytes. *)
Definition podFromHex (text : bytes) : option Hash :=
  if 32 <? Z.shiftr (Z.of_nat (length text)) 1 then None
  else
    data ← fromHex text;
    if Z.of_nat (length data) =? 32 then Some data else None.

(** * Round trip *)

Lemma fromHexChar_digit v : 0 <= v < 16 -> fromHexChar (hex_digit v) = Some v.
Proof.
  intros Hv. assert (v = 0 \/ v = 1 \/ v = 2 \/ v = 3 \/ v = 4 \/ v = 5 \/ v = 6 \/ v = 7 \/ v = 8 \/ v = 9 \/ v = 10
    \/ v = 11 \/ v = 12 \/ v = 13 \/ v = 14 \/ v = 15) as Hc by lia.
  repeat (destruct Hc as [-> | Hc]; [reflexivity |]). by subst.
Qed.

Lemma nibbles b : 0 <= b < 256 -> Z.lor (u8 (Z.shiftl (Z.shiftr b 4) 4)) (Z.land b 15) = b.
Proof.
  intros Hb. unfold u8. apply Z.bits_inj'. intros n Hn. rewrite Z.lor_spec, Z.land_spec.
  change 15 with (Z.ones 4). destruct (Z.lt_ge_cases n 8) as [H8 | H8].
  - rewrite Z.mod_pow2_bits_low by lia. destruct (Z.lt_ge_cases n 4) as [H4 | H4].
    + rewrite Z.shiftl_spec_low, Z.ones_spec_low by lia. by rewrite andb_true_r.
    + rewrite Z.shiftl_spec_high, Z.shiftr_spec, Z.ones_spec_high by lia. rewrite andb_false_r, orb_false_r.
      f_equal. lia.
  - rewrite Z.mod_pow2_bits_high, Z.ones_spec_high by lia. rewrite andb_false_r.
    symmetry. rewrite <- (Z.mod_small b (2 ^ 8)) by lia. apply Z.mod_pow2_bits_high. lia.
Qed.

Lemma fromHex_toHex data : Forall is_byte data -> fromHex (toHex data) = Some data.
Proof.
  induction 1 as [| b data Hb _ IH]; [done |]. unfold is_byte in Hb.
  change (toHex (b :: data)) with (hex_digit (Z.shiftr b 4) :: hex_digit (Z.land b 15) :: toHex data).
  cbn [fromHex]. rewrite (fromHexChar_digit (Z.shiftr b 4)) by
    (rewrite Z.shiftr_div_pow2 by lia; split; [apply Z.div_pos | apply Z.div_lt_upper_bound]; lia).
  rewrite (fromHexChar_digit (Z.land b 15)) by (change 15 with (Z.ones 4); rewrite Z.land_ones by lia; apply Z.mod_pos_bound; lia).
  cbn [mbind option_bind]. rewrite IH. cbn. by rewrite nibbles.
Qed.

Lemma length_toHex data : length (toHex data) = (2 * length data)%nat.
Proof.
  unfold toHex. induction data as [| b l IH]; [done |]. rewrite bind_cons, length_app, IH. cbn [length]. lia.
Qed.
