(* ===== verification/Config.v ===== *)
(** Consensus constants of [src/src/CryptoNoteConfig.h], under the names the
    source gives them. *)

From S2P Require Import Prelude.

Definition DIFFICULTY_TARGET : Z := 480.
Definition DIFFICULTY_TARGET_DRGL : Z := 81.
Definition CRYPTONOTE_PUBLIC_ADDRESS_BASE58_PREFIX : Z := 1753191.
Definition CRYPTONOTE_SUBADDRESS_BASE58_PREFIX : Z := CRYPTONOTE_PUBLIC_ADDRESS_BASE58_PREFIX.
Definition CRYPTONOTE_PUBLIC_ADDRESS_BASE58_PREFIX_TESTNET : Z := 1075740.
Definition CRYPTONOTE_SUBADDRESS_BASE58_PREFIX_TESTNET : Z :=
  CRYPTONOTE_PUBLIC_ADDRESS_BASE58_PREFIX_TESTNET.
Definition CRYPTONOTE_MINED_MONEY_UNLOCK_WINDOW : Z := 60.
Definition CRYPTONOTE_MINED_MONEY_UNLOCK_WINDOW_TESTNET : Z := 0.
Definition EMISSION_SPEED_FACTOR : Z := 18.
Definition EMISSION_SPEED_FACTOR_FANGO : Z := 19.
Definition EMISSION_SPEED_FACTOR_FUEGO : Z := 20.
Definition CRYPTONOTE_BLOCK_FUTURE_TIME_LIMIT : Z := 60 * 60 * 2.
Definition CRYPTONOTE_BLOCK_FUTURE_TIME_LIMIT_V1 : Z := DIFFICULTY_TARGET_DRGL * 6.
Definition CRYPTONOTE_BLOCK_FUTURE_TIME_LIMIT_V2 : Z := DIFFICULTY_TARGET * 2.
Definition BLOCKCHAIN_TIMESTAMP_CHECK_WINDOW : Z := 60.
Definition BLOCKCHAIN_TIMESTAMP_CHECK_WINDOW_V1 : Z := 11.

Definition MONEY_SUPPLY : Z := 80000088000008.
Definition COIN : Z := 10000000.
Definition MINIMUM_FEE_V1 : Z := 800000.
Definition MINIMUM_FEE_V2 : Z := 80000.
Definition MINIMUM_FEE_8KH : Z := 8000.
Definition MINIMUM_FEE : Z := MINIMUM_FEE_8KH.
Definition DEFAULT_DUST_THRESHOLD : Z := 1000.

Definition CRYPTONOTE_COIN_VERSION : Z := 1.
Definition CRYPTONOTE_DISPLAY_DECIMAL_POINT : Z := 7.
Definition CRYPTONOTE_REWARD_BLOCKS_WINDOW : Z := 100.
Definition CRYPTONOTE_BLOCK_GRANTED_FULL_REWARD_ZONE : Z := 430080.
Definition CRYPTONOTE_BLOCK_GRANTED_FULL_REWARD_ZONE_V2 : Z := 430080.
Definition CRYPTONOTE_BLOCK_GRANTED_FULL_REWARD_ZONE_V1 : Z := 20000.
Definition CRYPTONOTE_BLOCK_GRANTED_FULL_REWARD_ZONE_CURRENT : Z :=
  CRYPTONOTE_BLOCK_GRANTED_FULL_REWARD_ZONE.
Definition CRYPTONOTE_COINBASE_BLOB_RESERVED_SIZE : Z := 600.

Definition EXPECTED_NUMBER_OF_BLOCKS_PER_DAY : Z := 24 * 60 * 60 / DIFFICULTY_TARGET.
Definition DIFFICULTY_CUT : Z := 60.
Definition DIFFICULTY_LAG : Z := 15.
Definition DIFFICULTY_WINDOW : Z := 1067.
Definition DIFFICULTY_WINDOW_V2 : Z := 18.
Definition DIFFICULTY_WINDOW_V3 : Z := 60.
Definition DIFFICULTY_WINDOW_V4 : Z := 45.

Definition MIN_TX_MIXIN_SIZE_V2 : Z := 2.
Definition MIN_TX_MIXIN_SIZE_V10 : Z := 8.
Definition MIN_TX_MIXIN_SIZE : Z := MIN_TX_MIXIN_SIZE_V10.
Definition MAX_TX_MIXIN_SIZE : Z := 18.

Definition AMOUNT_TIER_0 : Z := 8000000.
Definition AMOUNT_TIER_1 : Z := 80000000.
Definition AMOUNT_TIER_2 : Z := 800000000.
Definition AMOUNT_TIER_3 : Z := 8000000000.
Definition TEST_AMOUNT_TIER_0 : Z := 800000.
Definition TEST_AMOUNT_TIER_1 : Z := 8000000.
Definition TEST_AMOUNT_TIER_2 : Z := 80000000.
Definition TEST_AMOUNT_TIER_3 : Z := 800000000.
Definition ELDERKING_DEPOSITS_PER_TIER : Z := 5.
Definition ELDERKING_TOTAL_DEPOSITS : Z := ELDERKING_DEPOSITS_PER_TIER * 4.
Definition ELDERKING_CEREMONY_AMOUNT : Z :=
  ELDERKING_DEPOSITS_PER_TIER * (AMOUNT_TIER_0 + AMOUNT_TIER_1 + AMOUNT_TIER_2 + AMOUNT_TIER_3).
Definition ELDERFIER_STAKING_REVIEW_WINDOW : Z := 1000.
Definition TESTIFIER_DEPOSITS_PER_TIER : Z := 5.
Definition TESTIFIER_TOTAL_DEPOSITS : Z := TESTIFIER_DEPOSITS_PER_TIER * 4.
Definition TESTIFIER_CEREMONY_AMOUNT : Z :=
  TESTIFIER_DEPOSITS_PER_TIER * (TEST_AMOUNT_TIER_0 + TEST_AMOUNT_TIER_1 + TEST_AMOUNT_TIER_2 + TEST_AMOUNT_TIER_3).
Definition EPOCH_DURATION_BLOCKS : Z := 900.
Definition TESTNET_EPOCH_DURATION_BLOCKS : Z := 10.
Definition FEE_POOL_RATE_PRECISION : Z := 1000000.
Definition SWAP_FEE_EFIER_SHARE_PCT : Z := 10.
Definition SWAP_FEE_TREASURY_SHARE_PCT : Z := 10.
Definition DEPOSIT_MIN_AMOUNT : Z := AMOUNT_TIER_0.
Definition BURN_DEPOSIT_MIN_AMOUNT : Z := AMOUNT_TIER_0.
Definition COLD_MIN_TERM : Z := 16000.
Definition COLD_MAX_TERM : Z := 65000.
Definition TESTNET_COLD_MIN_TERM : Z := 8.
Definition TESTNET_COLD_MAX_TERM : Z := 42.
Definition CD_TRANSFER_MIN_REMAINING_TERM : Z := 1.
Definition DEPOSIT_TERM_FOREVER : Z := u32 (-1).

Definition MULTIPLIER_FACTOR : Z := 100.
Definition END_MULTIPLIER_BLOCK : Z := 50.

Definition MAX_BLOCK_SIZE_INITIAL : Z := 800000.
Definition MAX_BLOCK_SIZE_GROWTH_SPEED_NUMERATOR : Z := 100 * 1024.
Definition MAX_BLOCK_SIZE_GROWTH_SPEED_DENOMINATOR : Z :=
  365 * 24 * 60 * 60 / DIFFICULTY_TARGET.

Definition CRYPTONOTE_MAX_BLOCK_NUMBER : Z := 500000000.
Definition CRYPTONOTE_LOCKED_TX_ALLOWED_DELTA_BLOCKS : Z := 1.
Definition CRYPTONOTE_LOCKED_TX_ALLOWED_DELTA_SECONDS : Z :=
  DIFFICULTY_TARGET_DRGL * CRYPTONOTE_LOCKED_TX_ALLOWED_DELTA_BLOCKS.
Definition CRYPTONOTE_LOCKED_TX_ALLOWED_DELTA_SECONDS_V2 : Z :=
  DIFFICULTY_TARGET * CRYPTONOTE_LOCKED_TX_ALLOWED_DELTA_BLOCKS.
Definition CRYPTONOTE_MAX_TX_SIZE_LIMIT : Z :=
  CRYPTONOTE_BLOCK_GRANTED_FULL_REWARD_ZONE_CURRENT - CRYPTONOTE_COINBASE_BLOB_RESERVED_SIZE.
Definition CRYPTONOTE_MEMPOOL_TX_LIVETIME : Z := 60 * 60 * 12.
Definition CRYPTONOTE_MEMPOOL_TX_FROM_ALT_BLOCK_LIVETIME : Z := 60 * 60 * 12.
Definition CRYPTONOTE_NUMBER_OF_PERIODS_TO_FORGET_TX_DELETED_FROM_POOL : Z := 7.
Definition FUSION_TX_MAX_SIZE : Z := CRYPTONOTE_BLOCK_GRANTED_FULL_REWARD_ZONE * 30 / 100.
Definition FUSION_TX_MIN_INPUT_COUNT : Z := 12.
Definition FUSION_TX_MIN_IN_OUT_COUNT_RATIO : Z := 4.

Definition UPGRADE_HEIGHT_V2 : Z := 147958.
Definition UPGRADE_HEIGHT_V3 : Z := 154321.
Definition UPGRADE_HEIGHT_V4 : Z := 300000.
Definition UPGRADE_HEIGHT_V5 : Z := 324819.
Definition UPGRADE_HEIGHT_V6 : Z := 345678.
Definition UPGRADE_HEIGHT_V7 : Z := 657000.
Definition UPGRADE_HEIGHT_V8 : Z := 800000.
Definition UPGRADE_HEIGHT_V9 : Z := 826420.
Definition UPGRADE_HEIGHT_V10 : Z := 999999.
Definition UPGRADE_VOTING_THRESHOLD : Z := 90.
Definition UPGRADE_VOTING_WINDOW : Z := EXPECTED_NUMBER_OF_BLOCKS_PER_DAY.
Definition UPGRADE_WINDOW : Z := EXPECTED_NUMBER_OF_BLOCKS_PER_DAY.

Definition TRANSACTION_VERSION_1 : Z := 1.
Definition TRANSACTION_VERSION_2 : Z := 2.
Definition BLOCK_MAJOR_VERSION_1 : Z := 1.
Definition BLOCK_MAJOR_VERSION_2 : Z := 2.
Definition BLOCK_MAJOR_VERSION_3 : Z := 3.
Definition BLOCK_MAJOR_VERSION_4 : Z := 4.
Definition BLOCK_MAJOR_VERSION_5 : Z := 5.
Definition BLOCK_MAJOR_VERSION_6 : Z := 6.
Definition BLOCK_MAJOR_VERSION_7 : Z := 7.
Definition BLOCK_MAJOR_VERSION_8 : Z := 8.
Definition BLOCK_MAJOR_VERSION_9 : Z := 9.
Definition BLOCK_MAJOR_VERSION_10 : Z := 10.
Definition BLOCK_MAJOR_VERSION_11 : Z := 11.
Definition BLOCK_MINOR_VERSION_0 : Z := 0.
Definition BLOCK_MINOR_VERSION_1 : Z := 1.
Definition POISSON_CHECK_TRIGGER : Z := 10.
Definition POISSON_CHECK_DEPTH : Z := 60.
