(* ===== verification/Currency.v ===== *)
(** The [Currency] object of [src/src/CryptoNoteCore/Currency.h] and
    [Currency.cpp]: its parameters, the builder that fills them, and every
    accessor whose answer depends on the block version. *)

From S2P Require Import Prelude Config.

(** The consensus members of class [Currency] (file names, the genesis block and
    the logger are left out). *)
Record Currency := mkCurrency {
  m_maxBlockHeight : Z;
  m_publicAddressBase58Prefix : Z;
  m_subAddressBase58Prefix : Z;
  m_minedMoneyUnlockWindow : Z;
  m_timestampCheckWindow : Z;
  m_timestampCheckWindow_v1 : Z;
  m_blockFutureTimeLimit : Z;
  m_blockFutureTimeLimit_v1 : Z;
  m_blockFutureTimeLimit_v2 : Z;
  m_moneySupply : Z;
  m_emissionSpeedFactor : Z;
  m_emissionSpeedFactor_FANGO : Z;
  m_emissionSpeedFactor_FUEGO : Z;
  m_cryptonoteCoinVersion : Z;
  m_rewardBlocksWindow : Z;
  m_blockGrantedFullRewardZone : Z;
  m_minerTxBlobReservedSize : Z;
  m_numberOfDecimalPlaces : Z;
  m_coin : Z;
  m_minMixin : Z;
  m_maxMixin : Z;
  m_minimumFee : Z;
  m_defaultDustThreshold : Z;
  m_difficultyTarget : Z;
  m_difficultyTarget_DRGL : Z;
  m_difficultyWindow : Z;
  m_difficultyLag : Z;
  m_difficultyCut : Z;
  m_depositMinAmount : Z;
  m_depositMinTerm : Z;
  m_depositMaxTerm : Z;
  m_depositMinTotalRateFactor : Z;
  m_depositMaxTotalRate : Z;
  m_burnDepositMinAmount : Z;
  m_burnDepositStandardAmount : Z;
  m_burnDepositLargeAmount : Z;
  m_depositTermForever : Z;
  m_ethereal_xfg : Z;
  m_maxBlockSizeInitial : Z;
  m_maxBlockSizeGrowthSpeedNumerator : Z;
  m_maxBlockSizeGrowthSpeedDenominator : Z;
  m_lockedTxAllowedDeltaSeconds : Z;
  m_lockedTxAllowedDeltaSeconds_v2 : Z;
  m_lockedTxAllowedDeltaBlocks : Z;
  m_mempoolTxLiveTime : Z;
  m_mempoolTxFromAltBlockLiveTime : Z;
  m_numberOfPeriodsToForgetTxDeletedFromPool : Z;
  m_upgradeHeightV2 : Z;
  m_upgradeHeightV3 : Z;
  m_upgradeHeightV4 : Z;
  m_upgradeHeightV5 : Z;
  m_upgradeHeightV6 : Z;
  m_upgradeHeightV7 : Z;
  m_upgradeHeightV8 : Z;
  m_upgradeHeightV9 : Z;
  m_upgradeHeightV10 : Z;
  m_upgradeVotingThreshold : Z;
  m_upgradeVotingWindow : Z;
  m_upgradeWindow : Z;
  m_transactionMaxSize : Z;
  m_fusionTxMaxSize : Z;
  m_fusionTxMinInputCount : Z;
  m_fusionTxMinInOutCountRatio : Z;
  m_testnet : bool
}.

(** Members that [CurrencyBuilder] leaves uninitialised: the model takes their
    indeterminate values as an argument. *)
Record Uninitialised := mkUninitialised {
  raw_depositMinTotalRateFactor : Z;
  raw_depositMaxTotalRate : Z;
  raw_burnDepositStandardAmount : Z;
  raw_burnDepositLargeAmount : Z;
  raw_ethereal_xfg : Z
}.

(** [m_coin] as [CurrencyBuilder::numberOfDecimalPlaces] computes it. *)
Definition coinOfDecimalPlaces (val : Z) : Z :=
  Nat.iter (Z.to_nat val) (fun coin => u64 (coin * 10)) 1.

(** The setters of [CurrencyBuilder] that reject bad values. *)
Definition builder_emissionSpeedFactor (val : Z) : outcome Z :=
  if (val <=? 0) || (8 * 8 <? val) then Throw "val at emissionSpeedFactor()" else Ret val.

Definition builder_difficultyWindow (val : Z) : outcome Z :=
  if val <? 2 then Throw "val at difficultyWindow()" else Ret val.

Definition builder_upgradeVotingThreshold (val : Z) : outcome Z :=
  if (val <=? 0) || (100 <? val) then Throw "val at upgradeVotingThreshold()" else Ret val.

Definition builder_upgradeWindow (val : Z) : outcome Z :=
  if val <=? 0 then Throw "val at upgradeWindow()" else Ret (u32 val).

(** [CurrencyBuilder::testnet(val)]: the members that depend on the network, as
    (address prefix, subaddress prefix, min term, max term, unlock window). *)
Definition builder_testnet (val : bool) : Z * Z * Z * Z * Z :=
  if val then
    (CRYPTONOTE_PUBLIC_ADDRESS_BASE58_PREFIX_TESTNET, CRYPTONOTE_SUBADDRESS_BASE58_PREFIX_TESTNET,
     TESTNET_COLD_MIN_TERM, TESTNET_COLD_MAX_TERM, CRYPTONOTE_MINED_MONEY_UNLOCK_WINDOW_TESTNET)
  else
    (CRYPTONOTE_PUBLIC_ADDRESS_BASE58_PREFIX, CRYPTONOTE_SUBADDRESS_BASE58_PREFIX,
     COLD_MIN_TERM, COLD_MAX_TERM, CRYPTONOTE_MINED_MONEY_UNLOCK_WINDOW).

(** [Currency::init]: on testnet the upgrade heights are replaced. *)
Definition init_upgradeHeights (testnet : bool) (built : list Z) : list Z :=
  if testnet then [2; 3; 4; 5; 6; 17; 18; 19; 20] else built.

(** [CurrencyBuilder(log).testnet(net).currency()]: the constructor, the network
    switch and [Currency::init]. *)
Definition makeCurrency (raw : Uninitialised) (net : bool) : outcome Currency :=
  let '(prefix, subPrefix, minTerm, maxTerm, unlockWindow) := builder_testnet net in
  let heights := init_upgradeHeights net
    [UPGRADE_HEIGHT_V2; UPGRADE_HEIGHT_V3; UPGRADE_HEIGHT_V4; UPGRADE_HEIGHT_V5;
     UPGRADE_HEIGHT_V6; UPGRADE_HEIGHT_V7; UPGRADE_HEIGHT_V8; UPGRADE_HEIGHT_V9;
     UPGRADE_HEIGHT_V10] in
  esf ← builder_emissionSpeedFactor EMISSION_SPEED_FACTOR;
  esf_FANGO ← builder_emissionSpeedFactor EMISSION_SPEED_FACTOR_FANGO;
  esf_FUEGO ← builder_emissionSpeedFactor EMISSION_SPEED_FACTOR_FUEGO;
  window ← builder_difficultyWindow DIFFICULTY_WINDOW;
  threshold ← builder_upgradeVotingThreshold UPGRADE_VOTING_THRESHOLD;
  upgradeWin ← builder_upgradeWindow UPGRADE_WINDOW;
  Ret {|
    m_maxBlockHeight := CRYPTONOTE_MAX_BLOCK_NUMBER;
    m_publicAddressBase58Prefix := prefix;
    m_subAddressBase58Prefix := subPrefix;
    m_minedMoneyUnlockWindow := unlockWindow;
    m_timestampCheckWindow := BLOCKCHAIN_TIMESTAMP_CHECK_WINDOW;
    m_timestampCheckWindow_v1 := BLOCKCHAIN_TIMESTAMP_CHECK_WINDOW_V1;
    m_blockFutureTimeLimit := CRYPTONOTE_BLOCK_FUTURE_TIME_LIMIT;
    m_blockFutureTimeLimit_v1 := CRYPTONOTE_BLOCK_FUTURE_TIME_LIMIT_V1;
    m_blockFutureTimeLimit_v2 := CRYPTONOTE_BLOCK_FUTURE_TIME_LIMIT_V2;
    m_moneySupply := MONEY_SUPPLY;
    m_emissionSpeedFactor := esf;
    m_emissionSpeedFactor_FANGO := esf_FANGO;
    m_emissionSpeedFactor_FUEGO := esf_FUEGO;
    m_cryptonoteCoinVersion := CRYPTONOTE_COIN_VERSION;
    m_rewardBlocksWindow := CRYPTONOTE_REWARD_BLOCKS_WINDOW;
    m_blockGrantedFullRewardZone := CRYPTONOTE_BLOCK_GRANTED_FULL_REWARD_ZONE;
    m_minerTxBlobReservedSize := CRYPTONOTE_COINBASE_BLOB_RESERVED_SIZE;
    m_numberOfDecimalPlaces := CRYPTONOTE_DISPLAY_DECIMAL_POINT;
    m_coin := coinOfDecimalPlaces CRYPTONOTE_DISPLAY_DECIMAL_POINT;
    m_minMixin := MIN_TX_MIXIN_SIZE;
    m_maxMixin := MAX_TX_MIXIN_SIZE;
    m_minimumFee := MINIMUM_FEE;
    m_defaultDustThreshold := DEFAULT_DUST_THRESHOLD;
    m_difficultyTarget := DIFFICULTY_TARGET;
    m_difficultyTarget_DRGL := DIFFICULTY_TARGET_DRGL;
    m_difficultyWindow := window;
    m_difficultyLag := DIFFICULTY_LAG;
    m_difficultyCut := DIFFICULTY_CUT;
    m_depositMinAmount := DEPOSIT_MIN_AMOUNT;
    m_depositMinTerm := minTerm;
    m_depositMaxTerm := maxTerm;
    m_depositMinTotalRateFactor := raw_depositMinTotalRateFactor raw;
    m_depositMaxTotalRate := raw_depositMaxTotalRate raw;
    m_burnDepositMinAmount := BURN_DEPOSIT_MIN_AMOUNT;
    m_burnDepositStandardAmount := raw_burnDepositStandardAmount raw;
    m_burnDepositLargeAmount := raw_burnDepositLargeAmount raw;
    m_depositTermForever := DEPOSIT_TERM_FOREVER;
    m_ethereal_xfg := raw_ethereal_xfg raw;
    m_maxBlockSizeInitial := MAX_BLOCK_SIZE_INITIAL;
    m_maxBlockSizeGrowthSpeedNumerator := MAX_BLOCK_SIZE_GROWTH_SPEED_NUMERATOR;
    m_maxBlockSizeGrowthSpeedDenominator := MAX_BLOCK_SIZE_GROWTH_SPEED_DENOMINATOR;
    m_lockedTxAllowedDeltaSeconds := CRYPTONOTE_LOCKED_TX_ALLOWED_DELTA_SECONDS;
    m_lockedTxAllowedDeltaSeconds_v2 := CRYPTONOTE_LOCKED_TX_ALLOWED_DELTA_SECONDS_V2;
    m_lockedTxAllowedDeltaBlocks := CRYPTONOTE_LOCKED_TX_ALLOWED_DELTA_BLOCKS;
    m_mempoolTxLiveTime := CRYPTONOTE_MEMPOOL_TX_LIVETIME;
    m_mempoolTxFromAltBlockLiveTime := CRYPTONOTE_MEMPOOL_TX_FROM_ALT_BLOCK_LIVETIME;
    m_numberOfPeriodsToForgetTxDeletedFromPool :=
      CRYPTONOTE_NUMBER_OF_PERIODS_TO_FORGET_TX_DELETED_FROM_POOL;
    m_upgradeHeightV2 := nth 0 heights 0;
    m_upgradeHeightV3 := nth 1 heights 0;
    m_upgradeHeightV4 := nth 2 heights 0;
    m_upgradeHeightV5 := nth 3 heights 0;
    m_upgradeHeightV6 := nth 4 heights 0;
    m_upgradeHeightV7 := nth 5 heights 0;
    m_upgradeHeightV8 := nth 6 heights 0;
    m_upgradeHeightV9 := nth 7 heights 0;
    m_upgradeHeightV10 := nth 8 heights 0;
    m_upgradeVotingThreshold := threshold;
    m_upgradeVotingWindow := UPGRADE_VOTING_WINDOW;
    m_upgradeWindow := upgradeWin;
    m_transactionMaxSize := CRYPTONOTE_MAX_TX_SIZE_LIMIT;
    m_fusionTxMaxSize := FUSION_TX_MAX_SIZE;
    m_fusionTxMinInputCount := FUSION_TX_MIN_INPUT_COUNT;
    m_fusionTxMinInOutCountRatio := FUSION_TX_MIN_IN_OUT_COUNT_RATIO;
    m_testnet := net
  |}.

Definition defaultRaw : Uninitialised := mkUninitialised 0 0 0 0 0.

(** The value of a computation that returns. *)
Definition ret_value {A} (o : outcome A) : match o with Ret _ => A | _ => unit end :=
  match o with Ret a => a | _ => tt end.

(** The two networks. *)
Definition mainnet : Currency := ret_value (makeCurrency defaultRaw false).
Definition testnet : Currency := ret_value (makeCurrency defaultRaw true).

(** * Version-dependent parameters *)

Section Accessors.
Context (c : Currency).

Definition timestampCheckWindow (blockMajorVersion : Z) : Z :=
  if BLOCK_MAJOR_VERSION_5 <=? blockMajorVersion
  then m_timestampCheckWindow_v1 c else m_timestampCheckWindow c.

Definition blockFutureTimeLimit (blockMajorVersion : Z) : Z :=
  if BLOCK_MAJOR_VERSION_7 <=? blockMajorVersion then m_blockFutureTimeLimit_v2 c
  else if BLOCK_MAJOR_VERSION_5 <=? blockMajorVersion then m_blockFutureTimeLimit_v1 c
  else m_blockFutureTimeLimit c.

Definition emissionSpeedFactor (blockMajorVersion : Z) : Z :=
  if BLOCK_MAJOR_VERSION_9 <=? blockMajorVersion then m_emissionSpeedFactor_FUEGO c
  else if blockMajorVersion =? BLOCK_MAJOR_VERSION_8 then m_emissionSpeedFactor_FANGO c
  else m_emissionSpeedFactor c.

Definition minMixin (blockMajorVersion : Z) : Z :=
  if BLOCK_MAJOR_VERSION_10 <=? blockMajorVersion then
    if m_testnet c then 0 else MIN_TX_MIXIN_SIZE_V10
  else if BLOCK_MAJOR_VERSION_7 <=? blockMajorVersion then MIN_TX_MIXIN_SIZE_V2
  else m_minMixin c.

(** [Currency::calculateOptimalRingSize]. *)
Definition calculateOptimalRingSize (amount availableOutputs blockMajorVersion : Z) : Z :=
  if blockMajorVersion <? BLOCK_MAJOR_VERSION_10 then minMixin blockMajorVersion
  else
    let minRingSize := minMixin blockMajorVersion in
    let maxRingSize := m_maxMixin c in
    if availableOutputs <? minRingSize then 0
    else
      let targetRingSizes := [18; 15; 12; 11; 10; 9; 8] in
      match List.find (fun targetSize =>
              (targetSize <=? availableOutputs) && (targetSize <=? maxRingSize))
              targetRingSizes with
      | Some targetSize => targetSize
      | None => minRingSize
      end.

Definition difficultyTarget (blockMajorVersion : Z) : Z :=
  if blockMajorVersion <=? BLOCK_MAJOR_VERSION_6
  then m_difficultyTarget_DRGL c else m_difficultyTarget c.

Definition difficultyBlocksCountByBlockVersion (blockMajorVersion : Z) : Z :=
  if BLOCK_MAJOR_VERSION_10 <=? blockMajorVersion then 40
  else if BLOCK_MAJOR_VERSION_7 <=? blockMajorVersion then DIFFICULTY_WINDOW_V4 + 1
  else if BLOCK_MAJOR_VERSION_3 <=? blockMajorVersion then DIFFICULTY_WINDOW_V3 + 1
  else if blockMajorVersion =? BLOCK_MAJOR_VERSION_2 then DIFFICULTY_WINDOW_V2
  else u64 (m_difficultyWindow c + m_difficultyLag c).

Definition lockedTxAllowedDeltaSeconds (blockMajorVersion : Z) : Z :=
  if BLOCK_MAJOR_VERSION_7 <=? blockMajorVersion
  then m_lockedTxAllowedDeltaSeconds_v2 c else m_lockedTxAllowedDeltaSeconds c.

Definition maxUpgradeDistance : Z := u32 (7 * m_upgradeWindow c).

Definition calculateUpgradeHeight (voteCompleteHeight : Z) : Z :=
  u32 (voteCompleteHeight + m_upgradeWindow c).

Definition blockGrantedFullRewardZoneByBlockVersion (blockMajorVersion : Z) : Z :=
  if BLOCK_MAJOR_VERSION_3 <=? blockMajorVersion then m_blockGrantedFullRewardZone c
  else if blockMajorVersion =? BLOCK_MAJOR_VERSION_2
  then CRYPTONOTE_BLOCK_GRANTED_FULL_REWARD_ZONE_V2
  else CRYPTONOTE_BLOCK_GRANTED_FULL_REWARD_ZONE_V1.

Definition upgradeHeight (majorVersion : Z) : Z :=
  if majorVersion =? BLOCK_MAJOR_VERSION_2 then m_upgradeHeightV2 c
  else if majorVersion =? BLOCK_MAJOR_VERSION_3 then m_upgradeHeightV3 c
  else if majorVersion =? BLOCK_MAJOR_VERSION_4 then m_upgradeHeightV4 c
  else if majorVersion =? BLOCK_MAJOR_VERSION_5 then m_upgradeHeightV5 c
  else if majorVersion =? BLOCK_MAJOR_VERSION_6 then m_upgradeHeightV6 c
  else if majorVersion =? BLOCK_MAJOR_VERSION_7 then m_upgradeHeightV7 c
  else if majorVersion =? BLOCK_MAJOR_VERSION_8 then m_upgradeHeightV8 c
  else if majorVersion =? BLOCK_MAJOR_VERSION_9 then m_upgradeHeightV9 c
  else if majorVersion =? BLOCK_MAJOR_VERSION_10 then m_upgradeHeightV10 c
  else u32 (-1).

Definition blockMajorVersionAtHeight (height : Z) : Z :=
  if upgradeHeight BLOCK_MAJOR_VERSION_10 <=? height then BLOCK_MAJOR_VERSION_10
  else if upgradeHeight BLOCK_MAJOR_VERSION_9 <=? height then BLOCK_MAJOR_VERSION_9
  else if upgradeHeight BLOCK_MAJOR_VERSION_8 <=? height then BLOCK_MAJOR_VERSION_8
  else if upgradeHeight BLOCK_MAJOR_VERSION_7 <=? height then BLOCK_MAJOR_VERSION_7
  else if upgradeHeight BLOCK_MAJOR_VERSION_6 <=? height then BLOCK_MAJOR_VERSION_6
  else if upgradeHeight BLOCK_MAJOR_VERSION_5 <=? height then BLOCK_MAJOR_VERSION_5
  else if upgradeHeight BLOCK_MAJOR_VERSION_4 <=? height then BLOCK_MAJOR_VERSION_4
  else if upgradeHeight BLOCK_MAJOR_VERSION_3 <=? height then BLOCK_MAJOR_VERSION_3
  else if upgradeHeight BLOCK_MAJOR_VERSION_2 <=? height then BLOCK_MAJOR_VERSION_2
  else BLOCK_MAJOR_VERSION_1.

Definition minimumFee (blockMajorVersion : Z) : Z :=
  if BLOCK_MAJOR_VERSION_10 <=? blockMajorVersion then MINIMUM_FEE_8KH
  else if BLOCK_MAJOR_VERSION_8 <=? blockMajorVersion then MINIMUM_FEE_V2
  else if blockMajorVersion <=? BLOCK_MAJOR_VERSION_7 then MINIMUM_FEE_V1
  else m_minimumFee c.

(** [Currency::maxBlockCumulativeSize]. *)
Definition maxBlockCumulativeSize (height : Z) : outcome Z :=
  limit ← udiv UINT64_MAX (m_maxBlockSizeGrowthSpeedNumerator c);
  _ ← assert_ (height <=? limit);
  growth ← udiv (u64 (height * m_maxBlockSizeGrowthSpeedNumerator c))
                (m_maxBlockSizeGrowthSpeedDenominator c);
  let maxSize := u64 (m_maxBlockSizeInitial c + growth) in
  _ ← assert_ (m_maxBlockSizeInitial c <=? maxSize);
  Ret maxSize.

(** [Currency::calculateBankingFee] of [BankingFee.cpp]. *)
Definition calculateBankingFee (depositAmount activeEfierCount : Z) : Z :=
  if activeEfierCount =? 0 then 0
  else
    let fee := u64 (depositAmount * activeEfierCount) / 1000 in
    if (fee =? 0) && (0 <? depositAmount) then m_defaultDustThreshold c else fee.

(** Burn deposits and HEAT. *)
Definition isValidBurnDepositAmount (amount : Z) : bool :=
  (amount =? m_burnDepositMinAmount c) || (amount =? m_burnDepositStandardAmount c)
  || (amount =? m_burnDepositLargeAmount c).

Definition isValidBurnDepositTerm (term : Z) : bool := term =? m_depositTermForever c.

Definition isBurnDeposit (term : Z) : bool := isValidBurnDepositTerm term.

Definition convertXfgToHeat (xfgAmount : Z) : Z := u64 (xfgAmount * 10000000).

Definition convertHeatToXfg (heatAmount : Z) : Z := heatAmount / 10000000.

End Accessors.
