(* ===== verification/Types.v ===== *)
(** The transaction and block data of [src/include/CryptoNote.h] and
    [src/include/CryptoTypes.h].  Fixed-size byte arrays (hashes, keys,
    signatures) are byte lists; every struct keeps its field names. *)

From S2P Require Import Prelude.

Record MembershipProof := mkMembershipProof {
  mp_e : list bytes;
  mp_s : list bytes
}.

Record BaseInput := mkBaseInput { bi_blockIndex : Z }.

Record KeyInput := mkKeyInput {
  ki_amount : Z;
  ki_outputIndexes : list Z;
  ki_keyImage : bytes
}.

Record MultisignatureInput := mkMultisignatureInput {
  mi_amount : Z;
  mi_signatureCount : Z;
  mi_outputIndex : Z;
  mi_term : Z
}.

Record TransactionInputCommitmentSpend := mkCommitmentSpend {
  cs_amount : Z;
  cs_outputIndexes : list Z;
  cs_keyImage : bytes;
  cs_claimedInterest : Z
}.

Record TransactionInputCommitmentTransfer := mkCommitmentTransfer {
  ct_amount : Z;
  ct_outputIndexes : list Z;
  ct_keyImage : bytes;
  ct_newTerm : Z
}.

Record TransactionInputUnified := mkInputUnified {
  iu_outputIndexes : list Z;
  iu_keyImage : bytes;
  iu_pseudoCommitment : bytes;
  iu_sigC0 : bytes
}.

(** The [boost::variant] of inputs. *)
Inductive TransactionInput :=
| InBase (i : BaseInput)
| InKey (i : KeyInput)
| InMultisignature (i : MultisignatureInput)
| InCommitmentSpend (i : TransactionInputCommitmentSpend)
| InCommitmentTransfer (i : TransactionInputCommitmentTransfer)
| InUnified (i : TransactionInputUnified).

Record KeyOutput := mkKeyOutput { ko_key : bytes }.

Record MultisignatureOutput := mkMultisignatureOutput {
  mo_keys : list bytes;
  mo_requiredSignatureCount : Z;
  mo_term : Z
}.

Record TransactionOutputCommitment := mkOutputCommitment {
  oc_commitKey : bytes;
  oc_term : Z;
  oc_amountCommitment : bytes;
  oc_amountProof : MembershipProof
}.

Record TransactionOutputUnified := mkOutputUnified {
  ou_key : bytes;
  ou_term : Z;
  ou_commitment : bytes;
  ou_proof : MembershipProof
}.

(** The [boost::variant] of output targets. *)
Inductive TransactionOutputTarget :=
| OutKey (o : KeyOutput)
| OutMultisignature (o : MultisignatureOutput)
| OutCommitment (o : TransactionOutputCommitment)
| OutUnified (o : TransactionOutputUnified).

Record TransactionOutput := mkTransactionOutput {
  out_amount : Z;
  out_target : TransactionOutputTarget
}.

(** [TransactionPrefix] and [Transaction]; the signatures are one list per
    input. *)
Record Transaction := mkTransaction {
  tx_version : Z;
  tx_unlockTime : Z;
  tx_inputs : list TransactionInput;
  tx_outputs : list TransactionOutput;
  tx_extra : bytes;
  tx_signatures : list (list bytes)
}.

Record ParentBlock := mkParentBlock {
  pb_majorVersion : Z;
  pb_minorVersion : Z;
  pb_previousBlockHash : Hash;
  pb_transactionCount : Z;
  pb_baseTransactionBranch : list Hash;
  pb_baseTransaction : Transaction;
  pb_blockchainBranch : list Hash
}.

(** [BlockHeader] and [Block]. *)
Record Block := mkBlock {
  b_majorVersion : Z;
  b_minorVersion : Z;
  b_nonce : Z;
  b_timestamp : Z;
  b_previousBlockHash : Hash;
  b_parentBlock : ParentBlock;
  b_baseTransaction : Transaction;
  b_transactionHashes : list Hash
}.

Record AccountPublicAddress := mkAddress {
  spendPublicKey : bytes;
  viewPublicKey : bytes
}.

(** ** Decidable equality *)

#[export] Instance BaseInput_eq_dec : EqDecision BaseInput.
Proof. solve_decision. Defined.
#[export] Instance KeyInput_eq_dec : EqDecision KeyInput.
Proof. solve_decision. Defined.
#[export] Instance MultisignatureInput_eq_dec : EqDecision MultisignatureInput.
Proof. solve_decision. Defined.
#[export] Instance CommitmentSpend_eq_dec : EqDecision TransactionInputCommitmentSpend.
Proof. solve_decision. Defined.
#[export] Instance CommitmentTransfer_eq_dec : EqDecision TransactionInputCommitmentTransfer.
Proof. solve_decision. Defined.
#[export] Instance InputUnified_eq_dec : EqDecision TransactionInputUnified.
Proof. solve_decision. Defined.
#[export] Instance TransactionInput_eq_dec : EqDecision TransactionInput.
Proof. solve_decision. Defined.
#[export] Instance KeyOutput_eq_dec : EqDecision KeyOutput.
Proof. solve_decision. Defined.
#[export] Instance MultisignatureOutput_eq_dec : EqDecision MultisignatureOutput.
Proof. solve_decision. Defined.
#[export] Instance MembershipProof_eq_dec : EqDecision MembershipProof.
Proof. solve_decision. Defined.
#[export] Instance OutputCommitment_eq_dec : EqDecision TransactionOutputCommitment.
Proof. solve_decision. Defined.
#[export] Instance OutputUnified_eq_dec : EqDecision TransactionOutputUnified.
Proof. solve_decision. Defined.
#[export] Instance TransactionOutputTarget_eq_dec : EqDecision TransactionOutputTarget.
Proof. solve_decision. Defined.
#[export] Instance TransactionOutput_eq_dec : EqDecision TransactionOutput.
Proof. solve_decision. Defined.
#[export] Instance Transaction_eq_dec : EqDecision Transaction.
Proof. solve_decision. Defined.
#[export] Instance ParentBlock_eq_dec : EqDecision ParentBlock.
Proof. solve_decision. Defined.
#[export] Instance Block_eq_dec : EqDecision Block.
Proof. solve_decision. Defined.
#[export] Instance AccountPublicAddress_eq_dec : EqDecision AccountPublicAddress.
Proof. solve_decision. Defined.

(** Sum of output amounts, without wrap-around: the reference value of the
    64-bit loops. *)
Definition outs_total (outs : list TransactionOutput) : Z :=
  foldr (fun o acc => out_amount o + acc) 0 outs.

(** Every field of a [TransactionInput] is in the range of its C++ type. *)
Definition input_wf (i : TransactionInput) : Prop :=
  match i with
  | InBase b => is_u32 (bi_blockIndex b)
  | InKey k => is_u64 (ki_amount k) /\ Forall is_u32 (ki_outputIndexes k)
  | InMultisignature m =>
      is_u64 (mi_amount m) /\ is_u8 (mi_signatureCount m) /\ is_u32 (mi_outputIndex m)
      /\ is_u32 (mi_term m)
  | InCommitmentSpend s =>
      is_u64 (cs_amount s) /\ Forall is_u32 (cs_outputIndexes s) /\ is_u64 (cs_claimedInterest s)
  | InCommitmentTransfer t =>
      is_u64 (ct_amount t) /\ Forall is_u32 (ct_outputIndexes t) /\ is_u32 (ct_newTerm t)
  | InUnified u => Forall is_u32 (iu_outputIndexes u)
  end.

Definition output_wf (o : TransactionOutput) : Prop :=
  is_u64 (out_amount o) /\
  match out_target o with
  | OutKey _ => True
  | OutMultisignature m => is_u8 (mo_requiredSignatureCount m) /\ is_u32 (mo_term m)
  | OutCommitment c => is_u32 (oc_term c)
  | OutUnified u => is_u32 (ou_term u)
  end.

Record tx_wf (tx : Transaction) : Prop := {
  tx_wf_version : is_u8 (tx_version tx);
  tx_wf_unlock : is_u64 (tx_unlockTime tx);
  tx_wf_inputs : Forall input_wf (tx_inputs tx);
  tx_wf_outputs : Forall output_wf (tx_outputs tx)
}.
