(* ===== verification/Keccak.v ===== *)
(** Keccak of [src/src/crypto/keccak.c] and [cn_fast_hash] of
    [src/src/crypto/hash.c].  The state is a list of 25 words; each loop of the
    C code is a fold over its index range with the array updated in place. *)

From S2P Require Import Prelude.

Definition KECCAK_ROUNDS : nat := 24.
Definition HASH_SIZE : nat := 32.

Definition keccakf_rndc : list Z :=
  [0x0000000000000001; 0x0000000000008082; 0x800000000000808a;
   0x8000000080008000; 0x000000000000808b; 0x0000000080000001;
   0x8000000080008081; 0x8000000000008009; 0x000000000000008a;
   0x0000000000000088; 0x0000000080008009; 0x000000008000000a;
   0x000000008000808b; 0x800000000000008b; 0x8000000000008089;
   0x8000000000008003; 0x8000000000008002; 0x8000000000000080;
   0x000000000000800a; 0x800000008000000a; 0x8000000080008081;
   0x8000000000008080; 0x0000000080000001; 0x8000000080008008].

Definition keccakf_rotc : list Z :=
  [1; 3; 6; 10; 15; 21; 28; 36; 45; 55; 2; 14;
   27; 41; 56; 8; 25; 43; 62; 18; 39; 61; 20; 44].

Definition keccakf_piln : list nat :=
  [10; 7; 11; 17; 18; 3; 5; 16; 8; 21; 24; 4;
   15; 23; 19; 13; 12; 2; 20; 14; 22; 9; 6; 1]%nat.

(** [ROTL64(x, y)]: a left shift at 64 bits or-ed with the bits shifted out. *)
Definition ROTL64 (x y : Z) : Z := Z.lor (u64 (Z.shiftl x y)) (Z.shiftr x (64 - y)).

(** [a[i]] of a fixed-size array with a constant index in range. *)
Definition word (a : list Z) (i : nat) : Z := nth i a 0.

(** [~x] at 64 bits. *)
Definition not64 (x : Z) : Z := Z.lxor x UINT64_MAX.

Definition theta (st : list Z) : list Z :=
  let bc := map (fun i => Z.lxor (word st i) (Z.lxor (word st (i + 5))
                   (Z.lxor (word st (i + 10)) (Z.lxor (word st (i + 15)) (word st (i + 20))))))
                (seq 0 5) in
  foldl (fun st i =>
    let t := Z.lxor (word bc ((i + 4) mod 5)) (ROTL64 (word bc ((i + 1) mod 5)) 1) in
    foldl (fun st j => <[(j + i)%nat := Z.lxor (word st (j + i)) t]> st) st [0; 5; 10; 15; 20]%nat)
    st (seq 0 5).

Definition rho_pi (st : list Z) : list Z :=
  snd (foldl (fun '(t, st) i =>
    let j := nth i keccakf_piln 0%nat in
    let bc0 := word st j in
    (bc0, <[j := ROTL64 t (word keccakf_rotc i)]> st)) (word st 1, st) (seq 0 24)).

Definition chi (st : list Z) : list Z :=
  foldl (fun st j =>
    let bc := map (fun i => word st (j + i)) (seq 0 5) in
    foldl (fun st i =>
      <[(j + i)%nat := Z.lxor (word st (j + i))
          (Z.land (not64 (word bc ((i + 1) mod 5))) (word bc ((i + 2) mod 5)))]> st)
      st (seq 0 5)) st [0; 5; 10; 15; 20]%nat.

Definition iota (round : nat) (st : list Z) : list Z :=
  <[0%nat := Z.lxor (word st 0) (word keccakf_rndc round)]> st.

Definition keccakf (st : list Z) (rounds : nat) : list Z :=
  foldl (fun st round => iota round (chi (rho_pi (theta st)))) st (seq 0 rounds).

(** Little-endian words of a byte string and back. *)
Definition words_of (n : nat) (bs : bytes) : list Z :=
  map (fun i => le_value (take 8 (drop (8 * i) bs))) (seq 0 n).

Definition bytes_of_word (w : Z) : bytes :=
  map (fun k => u8 (Z.shiftr w (8 * Z.of_nat k))) (seq 0 8).

Definition absorb (rsizw : nat) (st : list Z) (block : bytes) : list Z :=
  foldl (fun st i => <[i := Z.lxor (word st i) (word (words_of rsizw block) i)]> st)
        st (seq 0 rsizw).

(** [keccak(in, inlen, md, mdlen)]; the [for] loop consumes whole blocks, with the
    input length as fuel. *)
Fixpoint keccak_blocks (fuel : nat) (rsiz : nat) (st : list Z) (inp : bytes) : list Z * bytes :=
  match fuel with
  | O => (st, inp)
  | S fuel =>
      if (rsiz <=? length inp)%nat then
        keccak_blocks fuel rsiz (keccakf (absorb (rsiz / 8) st inp) KECCAK_ROUNDS) (drop rsiz inp)
      else (st, inp)
  end.

Definition keccak (inp : bytes) (mdlen : nat) : bytes :=
  let rsiz := if (200 =? mdlen)%nat then 136%nat else (200 - 2 * mdlen)%nat in
  let '(st, inp) := keccak_blocks (length inp) rsiz (replicate 25 0) inp in
  let temp := inp ++ 1 :: replicate (rsiz - length inp - 1) 0 in
  let temp := <[(rsiz - 1)%nat := Z.lor (word temp (rsiz - 1)) 0x80]> temp in
  let st := keccakf (absorb (rsiz / 8) st temp) KECCAK_ROUNDS in
  take mdlen (concat (map bytes_of_word st)).

Definition keccak1600 (inp : bytes) : bytes := keccak inp 200.

Definition cn_fast_hash (data : bytes) : Hash := take HASH_SIZE (keccak1600 data).

(** The published Keccak-256 digest of the empty string. *)
Example cn_fast_hash_empty :
  cn_fast_hash [] =
    [0xc5; 0xd2; 0x46; 0x01; 0x86; 0xf7; 0x23; 0x3c; 0x92; 0x7e; 0x7d; 0xb2; 0xdc; 0xc7; 0x03; 0xc0;
     0xe5; 0x00; 0xb6; 0x53; 0xca; 0x82; 0x27; 0x3b; 0x7b; 0xfa; 0xd8; 0x04; 0x5d; 0x85; 0xa4; 0x70].
Proof. vm_compute. reflexivity. Qed.

(** * The digest is always 32 bytes *)

Lemma length_insert_fold {A} (f : list Z -> A -> nat) (g : list Z -> A -> Z) (l : list A) st :
  length (foldl (fun st i => <[f st i := g st i]> st) st l) = length st.
Proof.
  revert st. induction l as [| a l IH]; intros st; simpl; [done |].
  by rewrite IH, length_insert.
Qed.

Lemma length_fold_same {A} (F : list Z -> A -> list Z) (l : list A) st :
  (forall st a, length (F st a) = length st) -> length (foldl F st l) = length st.
Proof.
  intros HF. revert st. induction l as [| a l IH]; intros st; simpl; [done |]. by rewrite IH.
Qed.

Lemma length_theta st : length (theta st) = length st.
Proof.
  apply length_fold_same. intros. by rewrite (length_insert_fold (fun _ j => (j + a)%nat)).
Qed.

Lemma length_rho_pi st : length (rho_pi st) = length st.
Proof.
  unfold rho_pi. generalize (word st 1). intros t.
  generalize (seq 0 24). intros l. revert t st.
  induction l as [| a l IH]; intros t st; simpl; [done |].
  by rewrite IH, length_insert.
Qed.

Lemma length_chi st : length (chi st) = length st.
Proof.
  apply length_fold_same. intros. by rewrite (length_insert_fold (fun _ j => (a + j)%nat)).
Qed.

Lemma length_keccakf st n : length (keccakf st n) = length st.
Proof.
  apply length_fold_same. intros. unfold iota.
  by rewrite length_insert, length_chi, length_rho_pi, length_theta.
Qed.

Lemma length_absorb n st b : length (absorb n st b) = length st.
Proof. unfold absorb. by rewrite (length_insert_fold (fun _ i => i)). Qed.

Lemma length_keccak_blocks fuel rsiz st inp :
  length (keccak_blocks fuel rsiz st inp).1 = length st.
Proof.
  revert st inp. induction fuel as [| fuel IH]; intros st inp; simpl; [done |].
  destruct (_ <=? _)%nat; [| done].
  by rewrite IH, length_keccakf, length_absorb.
Qed.

Lemma length_concat_bytes l : length (concat (map bytes_of_word l)) = (8 * length l)%nat.
Proof.
  induction l as [| w l IH]; [done |].
  cbn [map concat]. rewrite length_app, IH. simpl. lia.
Qed.

Lemma cn_fast_hash_length data : length (cn_fast_hash data) = HASH_SIZE.
Proof.
  unfold cn_fast_hash, keccak1600, keccak.
  destruct (keccak_blocks _ _ _ _) as [st rest] eqn:E.
  assert (length st = 25%nat) as Hst.
  { pose proof (length_keccak_blocks (length data) 136 (replicate 25 0) data) as H.
    simpl in E, H. rewrite E in H. done. }
  rewrite length_take, length_take, length_concat_bytes, length_keccakf, length_absorb, Hst.
  unfold HASH_SIZE. lia.
Qed.

Lemma bytes_of_word_byte w : Forall is_byte (bytes_of_word w).
Proof.
  unfold bytes_of_word. apply Forall_map, Forall_true. intros k. apply u8_range.
Qed.

Lemma cn_fast_hash_bytes data : Forall is_byte (cn_fast_hash data).
Proof.
  unfold cn_fast_hash, keccak1600, keccak.
  destruct (keccak_blocks _ _ _ _) as [st rest].
  apply Forall_take, Forall_take.
  apply Forall_concat, Forall_map, Forall_true. intros w. apply bytes_of_word_byte.
Qed.
