(* ===== verification/MerkleTree.v ===== *)
(** The transaction tree hash of [src/src/crypto/tree-hash.c]: [tree_hash], the
    branch of the first leaf [tree_branch], and [tree_hash_from_branch], which
    merge-mined blocks use to recompute the root from a leaf and its branch. *)

From S2P Require Import Prelude IntUtil Keccak.

(** [cn_fast_hash(hashes[i], 2 * HASH_SIZE, _)]: two adjacent entries. *)
Definition hash2 (a b : Hash) : Hash := cn_fast_hash (a ++ b).

(** * The code *)

(** [for (i = 1; i < 8 * sizeof(size_t); i <<= 1) cnt |= cnt >> i;]
    [cnt &= ~(cnt >> 1);] *)
Definition smear (cnt : Z) : Z :=
  foldl (fun cnt i => Z.lor cnt (Z.shiftr cnt i)) cnt [1; 2; 4; 8; 16; 32].

Definition highest_bit (cnt : Z) : Z :=
  let cnt := smear cnt in Z.land cnt (not64 (Z.shiftr cnt 1)).

(** [for (; j < cnt; i += 2, ++j) cn_fast_hash(src[i], 2 * HASH_SIZE, dst[j]);]
    for [n] rounds, reading one array and writing another. *)
Fixpoint hash_leaves (n : nat) (i j : Z) (src dst : list Hash) : outcome (Z * list Hash) :=
  match n with
  | O => Ret (i, dst)
  | S n =>
      a ← vec_at src i;
      b ← vec_at src (i + 1);
      dst ← vec_set dst j (hash2 a b);
      hash_leaves n (i + 2) (j + 1) src dst
  end.

(** The same loop in place. *)
Fixpoint hash_level (n : nat) (i j : Z) (ints : list Hash) : outcome (list Hash) :=
  match n with
  | O => Ret ints
  | S n =>
      a ← vec_at ints i;
      b ← vec_at ints (i + 1);
      ints ← vec_set ints j (hash2 a b);
      hash_level n (i + 2) (j + 1) ints
  end.

(** [while (cnt > 2) { cnt >>= 1; ... }]: [cnt] is halved, so 64 rounds are enough. *)
Fixpoint tree_levels (fuel : nat) (cnt : Z) (ints : list Hash) : outcome (list Hash) :=
  match fuel with
  | O => Undefined
  | S fuel =>
      if 2 <? cnt then
        let cnt := Z.shiftr cnt 1 in
        ints ← hash_level (Z.to_nat cnt) 0 0 ints;
        tree_levels fuel cnt ints
      else Ret ints
  end.

(** [ints = alloca(n * HASH_SIZE); memcpy(ints, src, m * HASH_SIZE);] the bytes
    that are not copied are indeterminate. *)
Definition alloca_copy (n m : Z) (src : list Hash) : list Hash :=
  take (Z.to_nat m) src ++ replicate (Z.to_nat (n - m)) [].

Definition tree_hash (hashes : list Hash) : outcome Hash :=
  let count := Z.of_nat (length hashes) in
  _ ← assert_ (0 <? count);
  if count =? 1 then vec_at hashes 0
  else if count =? 2 then
    a ← vec_at hashes 0; b ← vec_at hashes 1; Ret (hash2 a b)
  else
    let cnt := highest_bit (count - 1) in
    let m := u64 (2 * cnt - count) in
    '(i, ints) ← hash_leaves (Z.to_nat (cnt - m)) m m hashes (alloca_copy cnt m hashes);
    _ ← assert_ (i =? count);
    ints ← tree_levels 64 cnt ints;
    a ← vec_at ints 0; b ← vec_at ints 1; Ret (hash2 a b).

(** [for (i = sizeof(size_t) << 2; i > 0; i >>= 1)]. *)
Definition halvings : list Z := [32; 16; 8; 4; 2; 1].

Definition tree_depth (count : Z) : outcome Z :=
  _ ← assert_ (0 <? count);
  Ret (snd (foldl (fun '(count, depth) i =>
    if 0 <? Z.shiftr count i then (Z.shiftr count i, depth + i) else (count, depth))
    (count, 0) halvings)).

Definition branch_cnt (count : Z) : Z * Z :=
  foldl (fun '(cnt, depth) i =>
    if u64 (Z.shiftl cnt i) <=? count then (u64 (Z.shiftl cnt i), depth + i) else (cnt, depth))
    (1, 0) halvings.

(** [while (depth > 0) { ... }] of [tree_branch]. *)
Fixpoint branch_levels (depth : nat) (cnt : Z) (ints branch : list Hash) : outcome (list Hash) :=
  match depth with
  | O => Ret branch
  | S depth =>
      _ ← assert_ (cnt =? Z.shiftl 1 (Z.of_nat (S depth)));
      let cnt := Z.shiftr cnt 1 in
      x ← vec_at ints 0;
      branch ← vec_set branch (Z.of_nat depth) x;
      ints ← hash_level (Z.to_nat (cnt - 1)) 1 0 ints;
      branch_levels depth cnt ints branch
  end.

(** [tree_branch(hashes, count, branch)]; [branch] is the caller's buffer. *)
Definition tree_branch (hashes branch : list Hash) : outcome (list Hash) :=
  let count := Z.of_nat (length hashes) in
  _ ← assert_ (0 <? count);
  let '(cnt, depth) := branch_cnt count in
  _ ← assert_ (cnt =? Z.shiftl 1 depth);
  d ← tree_depth count;
  _ ← assert_ (depth =? d);
  let m := u64 (2 * cnt - count) in
  '(i, ints) ← hash_leaves (Z.to_nat (cnt - m)) m (m - 1) hashes
                 (alloca_copy (cnt - 1) (m - 1) (drop 1 hashes));
  _ ← assert_ (i =? count);
  branch_levels (Z.to_nat depth) cnt ints branch.

(** The bit of the path that puts the leaf on the right at a level. *)
Definition path_bit (path : option bytes) (depth : nat) : bool :=
  match path with
  | None => false
  | Some p => Z.testbit (nth (depth / 8) p 0) (Z.of_nat (depth mod 8))
  end.

(** The loop of [tree_hash_from_branch]: [buffer] is [None] while [from_leaf] holds. *)
Fixpoint from_branch_loop (depth : nat) (branch : list Hash) (leaf : Hash) (path : option bytes)
    (buffer : option (Hash * Hash)) : outcome Hash :=
  match depth with
  | O => match buffer with
         | None => Undefined
         | Some (b0, b1) => Ret (hash2 b0 b1)
         end
  | S depth =>
      let current := match buffer with None => leaf | Some (b0, b1) => hash2 b0 b1 end in
      sibling ← vec_at branch (Z.of_nat depth);
      from_branch_loop depth branch leaf path
        (Some (if path_bit path depth then (sibling, current) else (current, sibling)))
  end.

Definition tree_hash_from_branch (branch : list Hash) (depth : nat) (leaf : Hash)
    (path : option bytes) : outcome Hash :=
  match depth with
  | O => Ret leaf
  | S _ => from_branch_loop depth branch leaf path None
  end.

(** * Collisions *)

(** Two different texts among [T] with one hash. *)
Definition collision (T : list bytes) : Prop := exists a b, a ∈ T /\ b ∈ T /\ a <> b /\ cn_fast_hash a = cn_fast_hash b.

Definition is_hash (h : Hash) : Prop := length h = 32%nat.

Lemma hash2_inj T a b c d :
  a ++ b ∈ T -> c ++ d ∈ T -> is_hash a -> is_hash c -> hash2 a b = hash2 c d -> collision T \/ (a = c /\ b = d).
Proof.
  intros Hab Hcd Ha Hc He. destruct (decide (a ++ b = c ++ d)) as [E | Hne].
  - right. apply app_inj_1 in E; [done |]. unfold is_hash in *. congruence.
  - left. by exists (a ++ b), (c ++ d).
Qed.

(** * Reference definition

    [merkle d l] is the root of the complete binary tree of depth [d] over the
    [2^d] leaves [l]; the CryptoNote tree hash first pairs up the last leaves so
    that a power of two is left. *)

Fixpoint pairs (l : list Hash) : list Hash :=
  match l with
  | a :: b :: l => hash2 a b :: pairs l
  | _ => []
  end.

Fixpoint merkle (d : nat) (l : list Hash) : Hash :=
  match d with
  | O => nth 0 l []
  | S d => hash2 (merkle d (take (2 ^ d) l)) (merkle d (drop (2 ^ d) l))
  end.

Definition fold_tail (m : nat) (l : list Hash) : list Hash := take m l ++ pairs (drop m l).

Definition tree_root (hashes : list Hash) : Hash :=
  let n := length hashes in
  let d := Nat.log2 (n - 1) in
  merkle d (fold_tail (2 * 2 ^ d - n) hashes).

Lemma pairs_app l1 l2 :
  Nat.Even (length l1) -> pairs (l1 ++ l2) = pairs l1 ++ pairs l2.
Proof.
  intros [k Hk]. revert l1 Hk. induction k as [| k IH]; intros l1 Hk.
  - destruct l1; [done | simpl in Hk; lia].
  - destruct l1 as [| a [| b l1]]; simpl in Hk; [lia | lia |].
    cbn [app pairs]. rewrite IH by lia. done.
Qed.

Lemma length_pairs l k : length l = (2 * k)%nat -> length (pairs l) = k.
Proof.
  revert l. induction k as [| k IH]; intros l Hl.
  - destruct l; [done | simpl in Hl; lia].
  - destruct l as [| a [| b l]]; simpl in Hl; [lia | lia |].
    cbn [pairs length]. rewrite IH by lia. lia.
Qed.

Lemma merkle_pairs d l :
  length l = (2 ^ S d)%nat -> merkle (S d) l = merkle d (pairs l).
Proof.
  revert l. induction d as [| d IH]; intros l Hl.
  - destruct l as [| a [| b [| c l]]]; try (simpl in Hl; lia). done.
  - assert (Hp : (2 ^ S (S d) = 2 * 2 ^ S d)%nat) by (simpl; lia).
    assert (Hq : (2 ^ S d = 2 * 2 ^ d)%nat) by (simpl; lia).
    change (merkle (S (S d)) l)
      with (hash2 (merkle (S d) (take (2 ^ S d) l)) (merkle (S d) (drop (2 ^ S d) l))).
    rewrite !IH by (rewrite ?length_take, ?length_drop; lia).
    cbn [merkle].
    rewrite <- (take_drop (2 ^ S d) l) at 3 4.
    rewrite pairs_app by (rewrite length_take; exists (2 ^ d)%nat; lia).
    assert (Hl1 : length (pairs (take (2 ^ S d) l)) = (2 ^ d)%nat)
      by (apply length_pairs; rewrite length_take; lia).
    rewrite take_app_length', drop_app_length' by done. done.
Qed.

Lemma length_fold_tail m l k :
  length l = (m + 2 * k)%nat -> length (fold_tail m l) = (m + k)%nat.
Proof.
  intros Hl. unfold fold_tail. rewrite length_app, length_take.
  rewrite (length_pairs _ k) by (rewrite length_drop; lia). lia.
Qed.

(** * The bit tricks compute powers of two *)

Lemma smear_step x s :
  0 < x -> 0 < s ->
  (forall b, Z.log2 x - s < b <= Z.log2 x -> 0 <= b -> Z.testbit x b = true) ->
  let y := Z.lor x (Z.shiftr x s) in
  Z.log2 y = Z.log2 x /\ 0 < y /\
  (forall b, Z.log2 y - 2 * s < b <= Z.log2 y -> 0 <= b -> Z.testbit y b = true).
Proof.
  intros Hx Hs Hbits y.
  assert (Hsh : 0 <= Z.shiftr x s) by (apply Z.shiftr_nonneg; lia).
  assert (Hlog : Z.log2 y = Z.log2 x).
  { unfold y. rewrite Z.log2_lor by lia. apply Z.max_l.
    apply Z.log2_le_mono. rewrite Z.shiftr_div_pow2 by lia.
    apply Z.div_le_upper_bound; [apply Z.pow_pos_nonneg; lia |].
    assert (1 <= 2 ^ s) by (apply (Z.pow_le_mono_r 2 0 s); lia). nia. }
  assert (Hy : 0 < y).
  { assert (0 <= y) by (apply Z.lor_nonneg; lia).
    destruct (Z.eq_dec y 0) as [E | E]; [| lia].
    apply Z.lor_eq_0_l in E. lia. }
  split; [done |]. split; [done |].
  rewrite Hlog. intros b Hb Hb0. unfold y. rewrite Z.lor_spec, Z.shiftr_spec by lia.
  destruct (Z.le_gt_cases b (Z.log2 x - s)) as [H | H].
  - rewrite (Hbits (b + s)) by lia. apply orb_true_r.
  - rewrite (Hbits b) by lia. done.
Qed.

Lemma smear_ones x : 0 < x < 2 ^ 64 -> smear x = Z.ones (Z.log2 x + 1).
Proof.
  intros Hx. unfold smear. cbn [foldl].
  assert (H0 : forall b, Z.log2 x - 1 < b <= Z.log2 x -> 0 <= b -> Z.testbit x b = true).
  { intros b Hb _. replace b with (Z.log2 x) by lia. apply Z.bit_log2. lia. }
  destruct (smear_step x 1 ltac:(lia) ltac:(lia) H0) as (L1 & P1 & B1). revert L1 P1 B1.
  set (x1 := Z.lor x _). intros.
  destruct (smear_step x1 2 P1 ltac:(lia) B1) as (L2 & P2 & B2). revert L2 P2 B2.
  set (x2 := Z.lor x1 _). intros.
  destruct (smear_step x2 4 P2 ltac:(lia) B2) as (L3 & P3 & B3). revert L3 P3 B3.
  set (x3 := Z.lor x2 _). intros.
  destruct (smear_step x3 8 P3 ltac:(lia) B3) as (L4 & P4 & B4). revert L4 P4 B4.
  set (x4 := Z.lor x3 _). intros.
  destruct (smear_step x4 16 P4 ltac:(lia) B4) as (L5 & P5 & B5). revert L5 P5 B5.
  set (x5 := Z.lor x4 _). intros.
  destruct (smear_step x5 32 P5 ltac:(lia) B5) as (L6 & P6 & B6). revert L6 P6 B6.
  set (x6 := Z.lor x5 _). intros.
  assert (Hlog : Z.log2 x < 64) by (apply Z.log2_lt_pow2; lia).
  assert (Hlog0 : 0 <= Z.log2 x) by apply Z.log2_nonneg.
  apply Z.bits_inj'. intros b Hb. rewrite Z.testbit_ones_nonneg by lia.
  destruct (Z.ltb_spec b (Z.log2 x + 1)).
  - apply B6; lia.
  - apply Z.bits_above_log2; lia.
Qed.

Lemma highest_bit_pow2 x : 0 < x < 2 ^ 64 -> highest_bit x = 2 ^ Z.log2 x.
Proof.
  intros Hx. unfold highest_bit. rewrite smear_ones by done.
  assert (Hlog : Z.log2 x < 64) by (apply Z.log2_lt_pow2; lia).
  assert (Hlog0 : 0 <= Z.log2 x) by apply Z.log2_nonneg.
  apply Z.bits_inj'. intros b Hb.
  rewrite Z.land_spec, Z.testbit_ones_nonneg by lia.
  unfold not64. change UINT64_MAX with (Z.ones 64).
  rewrite Z.lxor_spec, Z.shiftr_spec, !Z.testbit_ones_nonneg by lia.
  rewrite Z.pow2_bits_eqb by lia.
  zcases; reflexivity.
Qed.

Lemma branch_cnt_step count d i :
  0 < count < 2 ^ 64 -> 0 <= d -> 0 < i -> d + i < 64 ->
  d <= Z.log2 count < d + 2 * i ->
  exists d',
    (if u64 (Z.shiftl (2 ^ d) i) <=? count then (u64 (Z.shiftl (2 ^ d) i), d + i) else (2 ^ d, d))
      = (2 ^ d', d')
    /\ 0 <= d' <= d + i /\ d' <= Z.log2 count < d' + i.
Proof.
  intros Hc Hd Hi Hdi HL.
  rewrite Z.shiftl_mul_pow2, <- Z.pow_add_r by lia.
  rewrite u64_small by (split; [apply Z.pow_nonneg; lia | apply Z.pow_lt_mono_r; lia]).
  destruct (Z.leb_spec (2 ^ (d + i)) count) as [H | H].
  - exists (d + i). apply Z.log2_le_pow2 in H; [| lia]. split; [done | lia].
  - exists d. apply Z.log2_lt_pow2 in H; [| lia]. split; [done | lia].
Qed.

Lemma branch_cnt_pow2 count :
  0 < count < 2 ^ 64 ->
  branch_cnt count = (2 ^ Z.log2 count, Z.log2 count).
Proof.
  intros Hc. unfold branch_cnt, halvings.
  assert (Hlog : Z.log2 count < 64) by (apply Z.log2_lt_pow2; lia).
  assert (Hlog0 : 0 <= Z.log2 count) by apply Z.log2_nonneg.
  change (1, 0) with (2 ^ 0, 0). cbn [foldl].
  destruct (branch_cnt_step count 0 32) as (d1 & -> & ? & ?); try lia.
  destruct (branch_cnt_step count d1 16) as (d2 & -> & ? & ?); try lia.
  destruct (branch_cnt_step count d2 8) as (d3 & -> & ? & ?); try lia.
  destruct (branch_cnt_step count d3 4) as (d4 & -> & ? & ?); try lia.
  destruct (branch_cnt_step count d4 2) as (d5 & -> & ? & ?); try lia.
  destruct (branch_cnt_step count d5 1) as (d6 & -> & ? & ?); try lia.
  replace d6 with (Z.log2 count) by lia. done.
Qed.

Lemma shiftr_pos_log2 x i : 0 < x -> 0 <= i -> (0 <? Z.shiftr x i) = (i <=? Z.log2 x).
Proof.
  intros Hx Hi. rewrite Z.shiftr_div_pow2 by lia.
  assert (Hp : 0 < 2 ^ i) by (apply Z.pow_pos_nonneg; lia).
  destruct (Z.leb_spec i (Z.log2 x)) as [H | H].
  - apply Z.log2_le_pow2 in H; [| lia]. apply Z.ltb_lt, Z.div_str_pos. lia.
  - apply Z.log2_lt_pow2 in H; [| lia]. rewrite Z.div_small by lia. done.
Qed.

Lemma tree_depth_step count d c i :
  0 < count -> 0 <= d -> 0 < i -> c = Z.shiftr count d ->
  d <= Z.log2 count < d + 2 * i ->
  exists d',
    (if 0 <? Z.shiftr c i then (Z.shiftr c i, d + i) else (c, d)) = (Z.shiftr count d', d')
    /\ 0 <= d' /\ d' <= Z.log2 count < d' + i.
Proof.
  intros Hc Hd Hi -> HL. rewrite Z.shiftr_shiftr, shiftr_pos_log2 by lia.
  destruct (Z.leb_spec (d + i) (Z.log2 count)); [exists (d + i) | exists d]; split; [done | lia | done | lia].
Qed.

Lemma tree_depth_log2 count : 0 < count < 2 ^ 64 -> tree_depth count = Ret (Z.log2 count).
Proof.
  intros Hc. unfold tree_depth, halvings. rewrite assert_true, outcome_bind_ret by (apply Z.ltb_lt; lia).
  assert (Hlog : Z.log2 count < 64) by (apply Z.log2_lt_pow2; lia).
  assert (Hlog0 : 0 <= Z.log2 count) by apply Z.log2_nonneg.
  cbn [foldl].
  destruct (tree_depth_step count 0 count 32) as (d1 & -> & ? & ?); try lia; [by rewrite Z.shiftr_0_r |].
  destruct (tree_depth_step count d1 (Z.shiftr count d1) 16) as (d2 & -> & ? & ?); try done; try lia.
  destruct (tree_depth_step count d2 (Z.shiftr count d2) 8) as (d3 & -> & ? & ?); try done; try lia.
  destruct (tree_depth_step count d3 (Z.shiftr count d3) 4) as (d4 & -> & ? & ?); try done; try lia.
  destruct (tree_depth_step count d4 (Z.shiftr count d4) 2) as (d5 & -> & ? & ?); try done; try lia.
  destruct (tree_depth_step count d5 (Z.shiftr count d5) 1) as (d6 & -> & ? & ?); try done; try lia.
  simpl. f_equal. lia.
Qed.

(** * The loops compute [pairs] *)

(** The in-place loop: [done_] is written, [junk] is read already, [todo] is left. *)
Lemma hash_level_pairs n done_ junk todo rest :
  length todo = (2 * n)%nat ->
  exists junk',
    hash_level n (Z.of_nat (length done_ + length junk)) (Z.of_nat (length done_))
      (done_ ++ junk ++ todo ++ rest)
    = Ret (done_ ++ pairs todo ++ junk' ++ rest)
    /\ length junk' = (length junk + n)%nat.
Proof.
  revert done_ junk todo. induction n as [| n IH]; intros done_ junk todo Hl.
  - destruct todo; [| simpl in Hl; lia]. exists junk. split; [done | lia].
  - destruct todo as [| a [| b todo]]; simpl in Hl; [lia | lia |].
    cbn [hash_level pairs].
    rewrite (app_assoc done_ junk). cbn [app].
    rewrite (vec_at_app (done_ ++ junk) (b :: todo ++ rest) a
               (Z.of_nat (length done_ + length junk))) by (rewrite length_app; lia).
    rewrite outcome_bind_ret.
    replace ((done_ ++ junk) ++ a :: b :: todo ++ rest)
      with ((done_ ++ junk ++ [a]) ++ b :: todo ++ rest) by (by rewrite <- !app_assoc).
    rewrite vec_at_app by (rewrite !length_app; simpl; lia).
    rewrite outcome_bind_ret.
    destruct (junk ++ [a; b]) as [| x junk2] eqn:E; [destruct junk; done |].
    assert (Hj : S (length junk2) = (length junk + 2)%nat).
    { change (S (length junk2)) with (length (x :: junk2)). rewrite <- E, length_app. done. }
    replace ((done_ ++ junk ++ [a]) ++ b :: todo ++ rest)
      with (done_ ++ x :: junk2 ++ todo ++ rest).
    2: { change (x :: junk2 ++ todo ++ rest) with ((x :: junk2) ++ todo ++ rest).
         rewrite <- E, <- !app_assoc. done. }
    rewrite vec_set_app, outcome_bind_ret by done.
    destruct (IH (done_ ++ [hash2 a b]) junk2 todo ltac:(lia)) as (junk' & Heq & Hlen).
    exists junk'. split; [| lia].
    replace (Z.of_nat (length done_ + length junk) + 2)
      with (Z.of_nat (length (done_ ++ [hash2 a b]) + length junk2))
      by (rewrite length_app; cbn [length]; lia).
    replace (Z.of_nat (length done_) + 1) with (Z.of_nat (length (done_ ++ [hash2 a b])))
      by (rewrite length_app; cbn [length]; lia).
    rewrite <- !app_assoc in Heq. exact Heq.
Qed.

(** The first loop, from the leaves into the fresh array. *)
Lemma hash_leaves_pairs n src pre todo dst fresh :
  src = pre ++ todo -> length todo = (2 * n)%nat -> length fresh = n ->
  hash_leaves n (Z.of_nat (length pre)) (Z.of_nat (length dst)) src (dst ++ fresh)
  = Ret (Z.of_nat (length src), dst ++ pairs todo).
Proof.
  revert src pre todo dst fresh. induction n as [| n IH]; intros src pre todo dst fresh -> Hl Hf.
  - destruct todo; [| simpl in Hl; lia]. destruct fresh; [| simpl in Hf; lia].
    cbn [hash_leaves pairs]. by rewrite !app_nil_r.
  - destruct todo as [| a [| b todo]]; simpl in Hl; [lia | lia |].
    destruct fresh as [| x fresh]; [simpl in Hf; lia |]. simpl in Hf.
    cbn [hash_leaves pairs].
    rewrite (vec_at_app pre (b :: todo) a (Z.of_nat (length pre))), outcome_bind_ret by done.
    replace (pre ++ a :: b :: todo) with ((pre ++ [a]) ++ b :: todo) by (by rewrite <- app_assoc).
    rewrite vec_at_app, outcome_bind_ret by (rewrite length_app; simpl; lia).
    rewrite vec_set_app, outcome_bind_ret by done.
    replace ((pre ++ [a]) ++ b :: todo) with ((pre ++ [a; b]) ++ todo) by (by rewrite <- !app_assoc).
    replace (Z.of_nat (length pre) + 2) with (Z.of_nat (length (pre ++ [a; b])))
      by (rewrite length_app; simpl; lia).
    replace (Z.of_nat (length dst) + 1) with (Z.of_nat (length (dst ++ [hash2 a b])))
      by (rewrite length_app; simpl; lia).
    replace (dst ++ hash2 a b :: fresh) with ((dst ++ [hash2 a b]) ++ fresh) by (by rewrite <- app_assoc).
    rewrite (IH _ (pre ++ [a; b]) todo) by (done || lia).
    by rewrite <- !app_assoc.
Qed.

(** * [tree_hash] computes the reference root *)

Lemma of_nat_log2 n : (0 < n)%nat -> Z.log2 (Z.of_nat n) = Z.of_nat (Nat.log2 n).
Proof.
  intros Hn. apply Z.log2_unique; [lia |].
  destruct (Nat.log2_spec n Hn) as [H1 H2].
  rewrite <- Nat2Z.inj_succ. change 2 with (Z.of_nat 2). rewrite <- !Nat2Z.inj_pow. lia.
Qed.

Lemma of_nat_pow2 d : Z.of_nat (2 ^ d) = 2 ^ Z.of_nat d.
Proof. by rewrite Nat2Z.inj_pow. Qed.

Lemma pow2_shiftr1 d : Z.shiftr (Z.of_nat (2 ^ S d)) 1 = Z.of_nat (2 ^ d).
Proof.
  rewrite Z.shiftr_div_pow2, Nat.pow_succ_r', Nat2Z.inj_mul by lia.
  change (2 ^ 1) with 2. symmetry. apply Z.div_unique_exact; lia.
Qed.

Lemma pow2_pos d : (0 < 2 ^ d)%nat.
Proof. induction d; simpl; lia. Qed.

Lemma tree_levels_merkle fuel d l rest :
  (d < fuel)%nat -> length l = (2 ^ S d)%nat ->
  exists x y rest',
    tree_levels fuel (Z.of_nat (2 ^ S d)) (l ++ rest) = Ret (x :: y :: rest')
    /\ hash2 x y = merkle (S d) l.
Proof.
  revert d l rest. induction fuel as [| fuel IH]; intros d l rest Hd Hl; [lia |].
  cbn [tree_levels]. destruct d as [| d].
  - destruct l as [| x [| y [| z l]]]; try (simpl in Hl; lia).
    exists x, y, rest. split; done.
  - assert (Hp : (2 ^ S (S d) = 2 * 2 ^ S d)%nat) by apply Nat.pow_succ_r'.
    pose proof (pow2_pos d) as Hq. pose proof (Nat.pow_succ_r' 2 d) as Hr.
    destruct (Z.ltb_spec 2 (Z.of_nat (2 ^ S (S d)))) as [_ | H]; [| lia].
    rewrite pow2_shiftr1, Nat2Z.id.
    destruct (hash_level_pairs (2 ^ S d) [] [] l rest) as (junk & Heq & _); [lia |].
    cbn [app length Nat.add] in Heq. change (Z.of_nat 0) with 0 in Heq.
    rewrite Heq, outcome_bind_ret.
    destruct (IH d (pairs l) (junk ++ rest)) as (x & y & rest' & Hx & Hm);
      [lia | apply length_pairs; lia |].
    exists x, y, rest'. rewrite Hx. split; [done |].
    by rewrite (merkle_pairs (S d)) by lia.
Qed.

(** The first pass leaves [fold_tail]: [m] leaves kept, [2 * k] paired up. *)
Lemma hash_leaves_fold_tail hashes m k :
  length hashes = (m + 2 * k)%nat ->
  hash_leaves k (Z.of_nat m) (Z.of_nat m) hashes
    (alloca_copy (Z.of_nat (m + k)) (Z.of_nat m) hashes)
  = Ret (Z.of_nat (length hashes), fold_tail m hashes).
Proof.
  intros Hl. unfold alloca_copy, fold_tail.
  assert (Hm : length (take m hashes) = m) by (rewrite length_take; lia).
  replace (Z.of_nat m) with (Z.of_nat (length (take m hashes))) at 1 2 by (by rewrite Hm).
  rewrite Nat2Z.id. apply hash_leaves_pairs.
  - by rewrite take_drop.
  - rewrite length_drop. lia.
  - rewrite length_replicate. lia.
Qed.

Lemma tree_hash_root hashes :
  (0 < length hashes)%nat -> Z.of_nat (length hashes) < 2 ^ 64 ->
  tree_hash hashes = Ret (tree_root hashes).
Proof.
  intros Hpos Hmax. unfold tree_hash.
  rewrite assert_true, outcome_bind_ret by (apply Z.ltb_lt; lia).
  destruct hashes as [| a [| b [| c l]]]; [simpl in Hpos; lia | done | done |].
  set (hs := a :: b :: c :: l) in *.
  assert (Hlen : (3 <= length hs)%nat) by (simpl; lia).
  clearbody hs. clear a b c l.
  destruct (Z.eqb_spec (Z.of_nat (length hs)) 1) as [E1 | _]; [lia |].
  destruct (Z.eqb_spec (Z.of_nat (length hs)) 2) as [E2 | _]; [lia |].
  rewrite highest_bit_pow2 by lia.
  replace (Z.of_nat (length hs) - 1) with (Z.of_nat (length hs - 1)) by lia.
  rewrite of_nat_log2, <- of_nat_pow2 by lia. unfold tree_root.
  set (n := length hs) in *. set (d := Nat.log2 (n - 1)) in *.
  destruct (Nat.log2_spec (n - 1)) as [H1 H2]; [lia |]. fold d in H1, H2.
  clearbody d.
  rewrite Nat.pow_succ_r' in H2.
  destruct d as [| d]; [change (2 ^ 0)%nat with 1%nat in H2; lia |].
  set (cnt := (2 ^ S d)%nat) in *.
  rewrite u64_small by lia.
  replace (2 * Z.of_nat cnt - Z.of_nat n) with (Z.of_nat (2 * cnt - n)) by lia.
  replace (Z.to_nat (Z.of_nat cnt - Z.of_nat (2 * cnt - n))) with (n - cnt)%nat by lia.
  replace (alloca_copy (Z.of_nat cnt)) with (alloca_copy (Z.of_nat ((2 * cnt - n) + (n - cnt))))
    by (do 2 f_equal; lia).
  rewrite hash_leaves_fold_tail, outcome_bind_ret by (fold n; lia). cbn beta iota.
  rewrite assert_true, outcome_bind_ret by apply Z.eqb_refl.
  destruct (tree_levels_merkle 64 d (fold_tail (2 * cnt - n) hs) []) as (x & y & r & Hx & Hm).
  - assert (2 ^ Z.of_nat d < 2 ^ 64); [| apply Z.pow_lt_mono_r_iff in H; lia].
    rewrite <- of_nat_pow2. pose proof (Nat.pow_succ_r' 2 d). fold cnt in H. lia.
  - rewrite (length_fold_tail _ _ (n - cnt)); fold n cnt; lia.
  - rewrite app_nil_r in Hx. fold cnt in Hx. rewrite Hx, outcome_bind_ret. simpl. by rewrite Hm.
Qed.

(** * The branch of the first leaf leads to the root *)

(** Climbing the branch with the leaf always on the left. *)
Fixpoint climb (depth : nat) (branch : list Hash) (x : Hash) : outcome Hash :=
  match depth with
  | O => Ret x
  | S depth => sibling ← vec_at branch (Z.of_nat depth); climb depth branch (hash2 x sibling)
  end.

Lemma from_branch_loop_climb d br leaf b0 b1 :
  from_branch_loop d br leaf None (Some (b0, b1)) = climb d br (hash2 b0 b1).
Proof.
  revert b0 b1. induction d as [| d IH]; intros b0 b1; cbn [from_branch_loop climb]; [done |].
  destruct (vec_at br (Z.of_nat d)); try done. apply IH.
Qed.

Lemma tree_hash_from_branch_climb d br leaf :
  tree_hash_from_branch br d leaf None = climb d br leaf.
Proof.
  destruct d as [| d]; cbn [tree_hash_from_branch from_branch_loop climb]; [done |].
  destruct (vec_at br (Z.of_nat d)); try done. apply from_branch_loop_climb.
Qed.

Lemma branch_levels_climb d x rest junk branch :
  length (x :: rest) = (2 ^ d)%nat -> (d <= length branch)%nat ->
  exists br,
    branch_levels d (Z.of_nat (2 ^ d)) (rest ++ junk) branch = Ret br
    /\ length br = length branch
    /\ (forall k, (d <= k)%nat -> br !! k = branch !! k)
    /\ climb d br x = Ret (merkle d (x :: rest)).
Proof.
  revert x rest junk branch. induction d as [| d IH]; intros x rest junk branch Hl Hb.
  - exists branch. cbn [branch_levels climb merkle nth]. done.
  - pose proof (Nat.pow_succ_r' 2 d) as Hp. pose proof (pow2_pos d) as Hq.
    destruct rest as [| y rest]; [simpl length in Hl; lia |].
    assert (Hr : length rest = (2 * (2 ^ d - 1))%nat) by (cbn [length] in Hl; lia).
    cbn [branch_levels app]. rewrite assert_true, outcome_bind_ret.
    2: { apply Z.eqb_eq. rewrite Z.shiftl_1_l. apply of_nat_pow2. }
    change (vec_at (y :: rest ++ junk) 0) with (Ret y : outcome Hash).
    rewrite outcome_bind_ret, pow2_shiftr1.
    assert (Hset : vec_set branch (Z.of_nat d) y = Ret (<[d := y]> branch)).
    { unfold vec_set. rewrite Nat2Z.id.
      destruct (Z.leb_spec 0 (Z.of_nat d)); [| lia].
      destruct (Z.ltb_spec (Z.of_nat d) (Z.of_nat (length branch))); [done | lia]. }
    rewrite Hset, outcome_bind_ret.
    replace (Z.to_nat (Z.of_nat (2 ^ d) - 1)) with (2 ^ d - 1)%nat by lia.
    destruct (hash_level_pairs (2 ^ d - 1) [] [y] rest junk Hr) as (junk' & Heq & _).
    cbn [app length Nat.add] in Heq.
    change (Z.of_nat 0) with 0 in Heq. change (Z.of_nat 1) with 1 in Heq.
    rewrite Heq, outcome_bind_ret.
    destruct (IH (hash2 x y) (pairs rest) (junk' ++ junk) (<[d := y]> branch))
      as (br & Hbr & Hlen & Hkeep & Hclimb).
    + cbn [length]. rewrite (length_pairs _ _ Hr). lia.
    + rewrite length_insert. lia.
    + exists br. rewrite length_insert in Hlen. split; [done |]. split; [done |]. split.
      * intros k Hk. rewrite Hkeep, list_lookup_insert_ne by lia. done.
      * cbn [climb]. rewrite (vec_at_lookup br (Z.of_nat d) y), outcome_bind_ret.
        -- rewrite Hclimb, merkle_pairs by done. done.
        -- lia.
        -- rewrite Nat2Z.id, Hkeep, list_lookup_insert_eq by lia. done.
Qed.

(** The folding by [tree_branch], whose power of two may equal the count, has the same root. *)
Lemma tree_root_branch hs :
  (0 < length hs)%nat ->
  merkle (Nat.log2 (length hs)) (fold_tail (2 * 2 ^ Nat.log2 (length hs) - length hs) hs)
  = tree_root hs.
Proof.
  intros Hpos. unfold tree_root. set (n := length hs) in *.
  destruct (decide (n = 1%nat)) as [E | E]; [by rewrite E |].
  assert (Hs : S (n - 1) = n) by lia.
  destruct (Nat.log2_succ_or (n - 1)) as [H | H]; rewrite Hs in H; [| by rewrite H].
  destruct (Nat.log2_eq_succ_is_pow2 (n - 1)) as [b Hb]; [by rewrite Hs |].
  rewrite Hs in Hb.
  assert (Hd : Nat.log2 n = b) by (rewrite Hb; apply Nat.log2_pow2; lia).
  rewrite H in Hd. rewrite H. set (d := Nat.log2 (n - 1)) in *. clearbody d. subst b.
  pose proof (Nat.pow_succ_r' 2 d) as Hp.
  replace (2 * 2 ^ S d - n)%nat with n by lia.
  replace (2 * 2 ^ d - n)%nat with 0%nat by lia.
  unfold fold_tail. rewrite take_ge, drop_ge, take_0, drop_0 by (fold n; lia).
  cbn [pairs]. rewrite app_nil_r. cbn [app]. apply merkle_pairs. fold n. lia.
Qed.

Lemma fold_tail_cons x l m : (0 < m)%nat -> fold_tail m (x :: l) = x :: fold_tail (m - 1) l.
Proof.
  intros Hm. destruct m as [| m]; [lia |]. unfold fold_tail. cbn [take drop app].
  by replace (S m - 1)%nat with m by lia.
Qed.

(** [tree_branch] reaches its last loop with the folded leaves, the first one dropped. *)
Lemma tree_branch_levels leaf hs buffer n d :
  n = length (leaf :: hs) -> d = Nat.log2 n -> Z.of_nat n < 2 ^ 64 ->
  tree_branch (leaf :: hs) buffer
  = branch_levels d (Z.of_nat (2 ^ d)) (fold_tail (2 * 2 ^ d - n - 1) hs) buffer.
Proof.
  intros Hn Hd Hmax. unfold tree_branch. rewrite <- Hn.
  assert (Hn1 : n = S (length hs)) by done.
  destruct (Nat.log2_spec n) as [H1 H2]; [lia |]. rewrite Nat.pow_succ_r', <- Hd in H2.
  rewrite <- Hd in H1.
  rewrite assert_true, outcome_bind_ret by (apply Z.ltb_lt; lia).
  rewrite branch_cnt_pow2, tree_depth_log2, of_nat_log2, <- Hd by lia.
  rewrite Z.shiftl_1_l, assert_true, !outcome_bind_ret by apply Z.eqb_refl.
  rewrite assert_true, outcome_bind_ret by apply Z.eqb_refl.
  rewrite <- of_nat_pow2. set (cnt := (2 ^ d)%nat) in *.
  rewrite u64_small by lia.
  replace (2 * Z.of_nat cnt - Z.of_nat n) with (Z.of_nat (2 * cnt - n)) by lia.
  set (m := (2 * cnt - n - 1)%nat).
  replace (2 * cnt - n)%nat with (S m) by lia.
  replace (Z.to_nat (Z.of_nat cnt - Z.of_nat (S m))) with (n - cnt)%nat by lia.
  replace (Z.of_nat (S m) - 1) with (Z.of_nat m) by lia.
  pose proof (hash_leaves_pairs (n - cnt) (leaf :: hs) (take (S m) (leaf :: hs))
    (drop (S m) (leaf :: hs)) (take m hs) (replicate (n - cnt) [])) as Hl.
  rewrite !length_take, length_drop, length_replicate, take_drop, <- Hn in Hl.
  replace (S m `min` n)%nat with (S m) in Hl by lia.
  replace (m `min` length hs)%nat with m in Hl by lia.
  unfold alloca_copy. rewrite !Nat2Z.id. change (drop 1 (leaf :: hs)) with hs.
  replace (Z.to_nat (Z.of_nat cnt - 1 - Z.of_nat m)) with (n - cnt)%nat by lia.
  rewrite Hl, outcome_bind_ret by (done || lia). cbn beta iota.
  rewrite assert_true, outcome_bind_ret by apply Z.eqb_refl. done.
Qed.

(** C25: For every non-empty list of transaction hashes (fewer than [2^64]) and
    every buffer with room for the branch, [tree_depth] and [tree_branch] succeed
    without a failed assertion, and [tree_hash_from_branch], given the first hash,
    that branch and no path, recomputes exactly the root that [tree_hash]
    computes, which is the Merkle root [tree_root]. *)
Theorem merkle_branch_correct hashes leaf buffer :
  hd_error hashes = Some leaf -> Z.of_nat (length hashes) < 2 ^ 64 ->
  Z.log2 (Z.of_nat (length hashes)) <= Z.of_nat (length buffer) ->
  exists depth branch,
    tree_depth (Z.of_nat (length hashes)) = Ret (Z.of_nat depth)
    /\ tree_branch hashes buffer = Ret branch
    /\ tree_hash_from_branch branch depth leaf None = tree_hash hashes
    /\ tree_hash hashes = Ret (tree_root hashes).
Proof.
  intros Hhd Hmax Hbuf. destruct hashes as [| x hs]; [done |]. injection Hhd as ->.
  assert (Hpos : (0 < length (leaf :: hs))%nat) by (cbn [length]; lia).
  rewrite of_nat_log2 in Hbuf by done.
  pose proof (tree_root_branch _ Hpos) as Hroot.
  destruct (Nat.log2_spec _ Hpos) as [H1 H2]. rewrite Nat.pow_succ_r' in H2.
  rewrite tree_hash_root, tree_depth_log2, of_nat_log2 by lia.
  rewrite (tree_branch_levels _ _ _ _ _ eq_refl eq_refl Hmax).
  set (n := length (leaf :: hs)) in *. set (d := Nat.log2 n) in *.
  rewrite fold_tail_cons in Hroot by lia.
  destruct (branch_levels_climb d leaf (fold_tail (2 * 2 ^ d - n - 1) hs) [] buffer)
    as (br & Hbr & _ & _ & Hclimb); [| lia |].
  - rewrite <- fold_tail_cons by lia.
    rewrite (length_fold_tail _ _ (n - 2 ^ d)); fold n; lia.
  - rewrite app_nil_r in Hbr. exists d, br.
    by rewrite tree_hash_from_branch_climb, Hclimb, Hroot.
Qed.

Lemma merkle_branch_correct_witness :
  exists depth branch,
    tree_depth 3 = Ret (Z.of_nat depth)
    /\ tree_branch [[1]; [2]; [3]] [[]; []] = Ret branch
    /\ tree_hash_from_branch branch depth [1] None = tree_hash [[1]; [2]; [3]]
    /\ tree_hash [[1]; [2]; [3]] = Ret (tree_root [[1]; [2]; [3]]).
Proof.
  apply (merkle_branch_correct [[1]; [2]; [3]] [1] [[]; []]); [reflexivity | reflexivity |].
  vm_compute. discriminate.
Defined.
