(* ===== verification/Amounts.v ===== *)
(** Amounts: their decomposition into outputs ([CryptoNoteFormatUtils.h]),
    fusion transactions, and the decimal text form of [Currency.cpp]. *)

From S2P Require Import Prelude Config Currency Types.

(** * Pretty amounts *)

(** [Currency::PRETTY_AMOUNTS]. *)
Definition PRETTY_AMOUNTS : list Z :=
  [1; 2; 3; 4; 5; 6; 7; 8; 9;
   10; 20; 30; 40; 50; 60; 70; 80; 90;
   100; 200; 300; 400; 500; 600; 700; 800; 900;
   1000; 2000; 3000; 4000; 5000; 6000; 7000; 8000; 9000;
   10000; 20000; 30000; 40000; 50000; 60000; 70000; 80000; 90000;
   100000; 200000; 300000; 400000; 500000; 600000; 700000; 800000; 900000;
   1000000; 2000000; 3000000; 4000000; 5000000; 6000000; 7000000; 8000000; 9000000;
   10000000; 20000000; 30000000; 40000000; 50000000; 60000000; 70000000; 80000000; 90000000;
   100000000; 200000000; 300000000; 400000000; 500000000; 600000000; 700000000; 800000000; 900000000;
   1000000000; 2000000000; 3000000000; 4000000000; 5000000000; 6000000000; 7000000000; 8000000000; 9000000000;
   10000000000; 20000000000; 30000000000; 40000000000; 50000000000; 60000000000; 70000000000; 80000000000; 90000000000;
   100000000000; 200000000000; 300000000000; 400000000000; 500000000000; 600000000000; 700000000000; 800000000000; 900000000000;
   1000000000000; 2000000000000; 3000000000000; 4000000000000; 5000000000000; 6000000000000; 7000000000000; 8000000000000; 9000000000000;
   10000000000000; 20000000000000; 30000000000000; 40000000000000; 50000000000000; 60000000000000; 70000000000000; 80000000000000; 90000000000000;
   100000000000000; 200000000000000; 300000000000000; 400000000000000; 500000000000000; 600000000000000; 700000000000000; 800000000000000; 900000000000000;
   1000000000000000; 2000000000000000; 3000000000000000; 4000000000000000; 5000000000000000; 6000000000000000; 7000000000000000; 8000000000000000; 9000000000000000;
   10000000000000000; 20000000000000000; 30000000000000000; 40000000000000000; 50000000000000000; 60000000000000000; 70000000000000000; 80000000000000000; 90000000000000000;
   100000000000000000; 200000000000000000; 300000000000000000; 400000000000000000; 500000000000000000; 600000000000000000; 700000000000000000; 800000000000000000; 900000000000000000;
   1000000000000000000; 2000000000000000000; 3000000000000000000; 4000000000000000000; 5000000000000000000; 6000000000000000000; 7000000000000000000; 8000000000000000000; 9000000000000000000;
   10000000000000000000].

(** [std::lower_bound] on a sorted vector: the first position whose element is
    not less than the value ([length l] for [end()]). *)
Fixpoint lower_bound (l : list Z) (v : Z) : nat :=
  match l with
  | [] => 0%nat
  | x :: l => if x <? v then S (lower_bound l v) else 0%nat
  end.

Definition is_valid_decomposed_amount (amount : Z) : bool :=
  match PRETTY_AMOUNTS !! lower_bound PRETTY_AMOUNTS amount with
  | None => false
  | Some x => amount =? x
  end.

(** * Decomposition *)

(** A call of one of the two handlers of [decompose_amount_into_digits]. *)
Inductive piece := Chunk (a : Z) | Dust (a : Z).

Definition piece_amount (p : piece) : Z := match p with Chunk a => a | Dust a => a end.

Section Digits.
Context (dust_threshold : Z).

(** The [while (0 != amount)] loop and the final dust; running out of fuel is
    [Undefined], so a [Ret] below also says that the loop ends. *)
Fixpoint decompose_loop (fuel : nat) (amount dust order : Z) (is_dust_handled : bool)
    : outcome (list piece) :=
  if amount =? 0 then
    Ret (if negb is_dust_handled && negb (0 =? dust) then [Dust dust] else [])
  else
    match fuel with
    | O => Undefined
    | S fuel =>
        let chunk := u64 ((amount mod 10) * order) in
        let amount := amount / 10 in
        let order := u64 (order * 10) in
        if u64 (dust + chunk) <=? dust_threshold then
          decompose_loop fuel amount (u64 (dust + chunk)) order is_dust_handled
        else
          let emit_dust := negb is_dust_handled && negb (0 =? dust) in
          rest ← decompose_loop fuel amount dust order (is_dust_handled || emit_dust);
          Ret ((if emit_dust then [Dust dust] else [])
               ++ (if 0 =? chunk then [] else [Chunk chunk]) ++ rest)
    end.

(** A 64-bit amount has at most 20 decimal digits. *)
Definition decompose_amount_into_digits (amount : Z) : outcome (list piece) :=
  if 0 =? amount then Ret [] else decompose_loop 20 amount 0 1 false.

End Digits.

(** [decomposeAmount] of [CryptoNoteTools.cpp]: both handlers push back. *)
Definition decomposeAmount (amount dustThreshold : Z) : outcome (list Z) :=
  ps ← decompose_amount_into_digits dustThreshold amount;
  Ret (map piece_amount ps).

(** [decompose_amount_uniform]: the tiers, and [out.push_back(tier); amount -= tier;]. *)
Definition tiers : list Z := [10000000; 1000000; 100000; 10000; 1000].

Fixpoint push_tier (fuel : nat) (tier amount : Z) (out : list Z) : Z * list Z :=
  match fuel with
  | O => (amount, out)
  | S fuel =>
      if tier <=? amount then push_tier fuel tier (u64 (amount - tier)) (out ++ [tier])
      else (amount, out)
  end.

Fixpoint uniform_loop (ts : list Z) (dust_threshold amount : Z) (out : list Z) : Z * list Z :=
  match ts with
  | [] => (amount, out)
  | tier :: ts =>
      if tier <? dust_threshold then (amount, out)
      else
        let '(amount, out) := push_tier (Z.to_nat (amount / tier)) tier amount out in
        uniform_loop ts dust_threshold amount out
  end.

(** [out.back() += a] on a non-empty vector. *)
Definition add_to_back (out : list Z) (a : Z) : list Z :=
  match reverse out with
  | [] => out
  | b :: rest => reverse rest ++ [u64 (b + a)]
  end.

Definition decompose_amount_uniform (amount dust_threshold : Z) : list Z :=
  if amount =? 0 then []
  else
    let '(amount, out) := uniform_loop tiers dust_threshold amount [] in
    if 0 <? amount then
      match out with
      | [] => [amount]
      | _ => add_to_back out amount
      end
    else out.

(** * Fusion transactions *)

(** [getInputsAmounts] of [CryptoNoteTools.cpp]. *)
Definition getInputsAmounts (tx : Transaction) : list Z :=
  omap (fun i => match i with
                 | InKey k => Some (ki_amount k)
                 | InMultisignature m => Some (mi_amount m)
                 | _ => None
                 end) (tx_inputs tx).

(** [std::sort] on integers. *)
Definition sort (l : list Z) : list Z := merge_sort Z.le l.

Section Fusion.
Context (c : Currency).

Fixpoint fusion_input_sum (inputsAmounts : list Z) (inputAmount : Z) : option Z :=
  match inputsAmounts with
  | [] => Some inputAmount
  | amount :: rest =>
      if amount <? m_defaultDustThreshold c then None
      else fusion_input_sum rest (u64 (inputAmount + amount))
  end.

Definition isFusionTransaction (inputsAmounts outputsAmounts : list Z) (size : Z) : outcome bool :=
  if m_fusionTxMaxSize c <? size then Ret false
  else if Z.of_nat (length inputsAmounts) <? m_fusionTxMinInputCount c then Ret false
  else if Z.of_nat (length inputsAmounts)
          <? u64 (Z.of_nat (length outputsAmounts) * m_fusionTxMinInOutCountRatio c) then Ret false
  else match fusion_input_sum inputsAmounts 0 with
       | None => Ret false
       | Some inputAmount =>
           expectedOutputsAmounts ← decomposeAmount inputAmount (m_defaultDustThreshold c);
           Ret (bool_decide (sort expectedOutputsAmounts = outputsAmounts))
       end.

(** The overload on a transaction; [size] is its serialised size. *)
Definition isFusionTransactionTx (tx : Transaction) (size : Z) : outcome bool :=
  isFusionTransaction (getInputsAmounts tx) (map out_amount (tx_outputs tx)) size.

(** Both overloads of [isAmountApplicableInFusionTransactionInput]: the power of
    ten when the answer is true. *)
Definition isAmountApplicableInFusionTransactionInput (amount threshold height : Z) : option Z :=
  if threshold <=? amount then None
  else if (height <? UPGRADE_HEIGHT_V4) && (amount <? m_defaultDustThreshold c) then None
  else
    let it := lower_bound PRETTY_AMOUNTS amount in
    match PRETTY_AMOUNTS !! it with
    | None => None
    | Some x => if amount =? x then Some (u8 (Z.of_nat it / 9)) else None
    end.

End Fusion.

(** * Text form *)

(** [std::to_string] on an unsigned value: at most 20 digits. *)
Fixpoint digits_of (fuel : nat) (n : Z) (acc : bytes) : bytes :=
  match fuel with
  | O => acc
  | S fuel =>
      let acc := (48 + n mod 10) :: acc in
      if n / 10 =? 0 then acc else digits_of fuel (n / 10) acc
  end.

Definition to_string (n : Z) : bytes := digits_of 20 n [].

Definition isdigit (ch : Z) : bool := (48 <=? ch) && (ch <=? 57).
Definition isspace (ch : Z) : bool := (ch =? 32) || ((9 <=? ch) && (ch <=? 13)).

(** [boost::algorithm::trim]. *)
Fixpoint trim_left (s : bytes) : bytes :=
  match s with
  | [] => []
  | ch :: rest => if isspace ch then trim_left rest else s
  end.

Definition trim (s : bytes) : bytes := reverse (trim_left (reverse (trim_left s))).

(** [std::string::find_first_of(ch)]. *)
Fixpoint find_first_of (s : bytes) (ch : Z) : option nat :=
  match s with
  | [] => None
  | x :: rest => if x =? ch then Some 0%nat else S <$> find_first_of rest ch
  end.

(** [Common::fromString<uint64_t>] on a string of digits: stream extraction fails
    when the value does not fit. *)
Definition digits_value (s : bytes) : Z := foldl (fun v ch => v * 10 + (ch - 48)) 0 s.

Definition fromString (s : bytes) : option Z :=
  let v := digits_value s in if v <=? UINT64_MAX then Some v else None.

Section Text.
Context (c : Currency).

Definition decimals : nat := Z.to_nat (m_numberOfDecimalPlaces c).

Definition formatAmount (amount : Z) : bytes :=
  let s := to_string amount in
  let s := if (length s <? decimals + 1)%nat then replicate (decimals + 1 - length s) 48 ++ s else s in
  take (length s - decimals) s ++ 46 :: drop (length s - decimals) s.

(** The signed overload. *)
Definition formatAmountSigned (amount : Z) : bytes :=
  let s := formatAmount (u64 (Z.abs amount)) in
  if amount <? 0 then 45 :: s else s.

(** [while (m_numberOfDecimalPlaces < fractionSize && '0' == strAmount.back())],
    on the reversed string. *)
Fixpoint drop_zeros (rev : bytes) (fractionSize : nat) : bytes * nat :=
  match rev with
  | ch :: rest =>
      if (decimals <? fractionSize)%nat && (ch =? 48) then drop_zeros rest (fractionSize - 1)
      else (rev, fractionSize)
  | [] => (rev, fractionSize)
  end.

Definition parseAmount (str : bytes) : option Z :=
  let strAmount := trim str in
  '(strAmount, fractionSize) ←
    match find_first_of strAmount 46 with
    | Some pointIndex =>
        let '(rev, fractionSize) :=
          drop_zeros (reverse strAmount) (length strAmount - pointIndex - 1) in
        let strAmount := reverse rev in
        if (decimals <? fractionSize)%nat then None
        else Some (take pointIndex strAmount ++ drop (S pointIndex) strAmount, fractionSize)
    | None => Some (strAmount, 0%nat)
    end;
  match strAmount with
  | [] => None
  | _ =>
      if negb (forallb isdigit strAmount) then None
      else
        let strAmount := if (fractionSize <? decimals)%nat
                         then strAmount ++ replicate (decimals - fractionSize) 48 else strAmount in
        fromString strAmount
  end.

End Text.

(** * Properties of the decomposition *)

Definition sumZ (l : list Z) : Z := foldr Z.add 0 l.

Lemma sumZ_app l1 l2 : sumZ (l1 ++ l2) = sumZ l1 + sumZ l2.
Proof. induction l1; cbn [app sumZ foldr] in *; [done | unfold sumZ in *; lia]. Qed.

Lemma sumZ_replicate n x : sumZ (replicate n x) = Z.of_nat n * x.
Proof. induction n; cbn [replicate sumZ foldr] in *; [done | unfold sumZ in *; lia]. Qed.

Lemma sumZ_nonneg l : Forall (Z.le 0) l -> 0 <= sumZ l.
Proof. unfold sumZ. induction 1; cbn [foldr]; lia. Qed.

Lemma sumZ_perm l1 l2 : l1 ≡ₚ l2 -> sumZ l1 = sumZ l2.
Proof. unfold sumZ. induction 1; cbn [foldr]; lia. Qed.

(** [d * 10^k] with a non-zero digit [d], in 64 bits. *)
Definition is_digit_amount (a : Z) : Prop :=
  exists d k, 1 <= d <= 9 /\ 0 <= k /\ a = d * 10 ^ k /\ a < 2 ^ 64.

Lemma pow10_pos k : 0 <= k -> 0 < 10 ^ k.
Proof. intros. apply Z.pow_pos_nonneg; lia. Qed.

Lemma pow10_u64_bound k : 0 <= k -> 10 ^ k < 2 ^ 64 -> k <= 19.
Proof.
  intros Hk H. destruct (Z.le_gt_cases k 19); [done |].
  assert (10 ^ 20 <= 10 ^ k) by (apply Z.pow_le_mono_r; lia). lia.
Qed.

Lemma digit_amounts_valid :
  forallb (fun k => forallb (fun d =>
    implb (d * 10 ^ k <? 2 ^ 64) (is_valid_decomposed_amount (d * 10 ^ k)))
    (seqZ 1 9)) (seqZ 0 20) = true.
Proof. vm_compute. reflexivity. Qed.

Lemma digit_amount_valid a : is_digit_amount a -> is_valid_decomposed_amount a = true.
Proof.
  intros (d & k & Hd & Hk & -> & Ha).
  pose proof (pow10_pos k Hk) as Hp.
  pose proof (pow10_u64_bound k Hk ltac:(nia)) as Hk19.
  pose proof digit_amounts_valid as H.
  rewrite forallb_forall in H. specialize (H k).
  rewrite forallb_forall in H.
  specialize (H ltac:(apply list_elem_of_In, elem_of_seqZ; lia)
                d ltac:(apply list_elem_of_In, elem_of_seqZ; lia)).
  destruct (Z.ltb_spec (d * 10 ^ k) (2 ^ 64)); [done | lia].
Qed.

Lemma u64_order_step k : 0 <= k -> u64 (u64 (10 ^ k) * 10) = u64 (10 ^ (k + 1)).
Proof.
  intros Hk. unfold u64. rewrite Z.mul_mod_idemp_l, Z.pow_add_r by lia. done.
Qed.

Lemma pow10_step k : 0 <= k -> 10 ^ (k + 1) = 10 * 10 ^ k.
Proof. intros. rewrite Z.pow_add_r by lia. change (10 ^ 1) with 10. lia. Qed.

(** The arithmetic of one round: the digit taken off and the rest. *)
Lemma digit_step amount k :
  0 < amount -> 0 <= k -> amount * 10 ^ k < 2 ^ 64 ->
  let chunk := u64 ((amount mod 10) * u64 (10 ^ k)) in
  chunk = (amount mod 10) * 10 ^ k
  /\ amount * 10 ^ k = chunk + amount / 10 * 10 ^ (k + 1)
  /\ 0 <= amount / 10 < amount
  /\ (chunk = 0 \/ 10 ^ k <= chunk <= 9 * 10 ^ k).
Proof.
  intros Ha Hk Hb chunk. pose proof (pow10_pos k Hk) as Hp.
  pose proof (Z.mod_pos_bound amount 10 ltac:(lia)) as Hm.
  pose proof (Z.div_mod amount 10 ltac:(lia)) as Hdm.
  assert (0 <= amount / 10 < amount)
    by (split; [apply Z.div_pos; lia | apply Z.div_lt; lia]).
  assert (Hc : chunk = (amount mod 10) * 10 ^ k).
  { unfold chunk. rewrite (u64_small (10 ^ k)) by nia. rewrite u64_small by nia. done. }
  rewrite pow10_step by lia. rewrite Hc.
  split; [done |]. split; [nia |]. split; [done |].
  destruct (Z.eq_dec (amount mod 10) 0) as [E | E]; [left; nia | right; nia].
Qed.

(** Once a chunk has gone over the threshold every later non-zero digit does. *)
Lemma decompose_loop_chunks thr fuel amount dust k h :
  0 <= amount < 10 ^ Z.of_nat fuel -> 0 <= k -> amount * 10 ^ k < 2 ^ 64 ->
  0 <= dust -> dust + amount * 10 ^ k < 2 ^ 64 -> dust <= thr -> thr < dust + 10 ^ k ->
  (h = true \/ dust = 0) ->
  exists cs,
    decompose_loop thr fuel amount dust (u64 (10 ^ k)) h = Ret (map Chunk cs)
    /\ sumZ cs = amount * 10 ^ k
    /\ Forall is_digit_amount cs
    /\ Forall (Z.le (10 ^ k)) cs
    /\ StronglySorted Z.lt cs.
Proof.
  revert amount k h. induction fuel as [| fuel IH]; intros amount k h Ham Hk Hb Hd Hdb Hdt Hthr Hh.
  - change (10 ^ Z.of_nat 0) with 1 in Ham. assert (amount = 0) as -> by lia.
    exists []. cbn [decompose_loop map sumZ foldr]. rewrite Z.eqb_refl.
    split; [destruct Hh as [-> | ->]; [done | destruct h; done] | repeat split; constructor].
  - cbn [decompose_loop]. destruct (Z.eqb_spec amount 0) as [-> | Hne].
    { exists []. split; [destruct Hh as [-> | ->]; [done | destruct h; done] |].
      repeat split; constructor. }
    destruct (digit_step amount k ltac:(lia) Hk Hb) as (Hc & Hsum & Hdiv & Hrange).
    cbv zeta in Hc, Hsum, Hrange. rewrite u64_order_step by lia.
    set (chunk := u64 ((amount mod 10) * u64 (10 ^ k))) in *.
    pose proof (pow10_step k Hk) as Hps. pose proof (pow10_pos k Hk) as Hpp.
    rewrite Nat2Z.inj_succ, Z.pow_succ_r in Ham by lia.
    assert (Hfuel : 0 <= amount / 10 < 10 ^ Z.of_nat fuel)
      by (split; [lia | apply Z.div_lt_upper_bound; lia]).
    assert (Hc0 : 0 <= chunk < 2 ^ 64) by apply u64_range.
    set (q := amount / 10) in *. clearbody q.
    assert (Hq : 0 <= q * 10 ^ (k + 1)) by (apply Z.mul_nonneg_nonneg; lia).
    rewrite (u64_small (dust + chunk)) by lia.
    destruct (IH q (k + 1) h) as (cs & Hcs & Hs & Hdig & Hge & Hsort); try lia; [done |].
    destruct Hrange as [H0 | Hnz].
    + rewrite H0, Z.add_0_r. destruct (Z.leb_spec dust thr); [| lia].
      exists cs. split; [done |]. split; [lia |]. split; [done |]. split; [| done].
      eapply Forall_impl; [exact Hge |]. simpl. lia.
    + destruct (Z.leb_spec (dust + chunk) thr); [lia |].
      assert (Hem : negb h && negb (0 =? dust) = false)
        by (destruct Hh as [-> | ->]; [done | by rewrite Z.eqb_refl, andb_false_r]).
      rewrite Hem, orb_false_r, Hcs, outcome_bind_ret.
      destruct (Z.eqb_spec 0 chunk); [lia |].
      exists (chunk :: cs). cbn [map app sumZ foldr]. split; [done |]. split; [unfold sumZ in Hs; lia |].
      split; [| split].
      * constructor; [| done]. exists (amount mod 10), k.
        pose proof (Z.mod_pos_bound amount 10 ltac:(lia)).
        split; [| split; [lia | split; [done | lia]]]. nia.
      * constructor; [lia |]. eapply Forall_impl; [exact Hge |]. simpl. lia.
      * constructor; [done |]. eapply Forall_impl; [exact Hge |]. simpl. lia.
Qed.

Lemma StronglySorted_cons_le x lo (cs : list Z) :
  x < lo -> Forall (Z.le lo) cs -> StronglySorted Z.lt cs -> StronglySorted Z.lt (x :: cs).
Proof.
  intros Hx Hge Hs. constructor; [done |]. eapply Forall_impl; [exact Hge |]. simpl. lia.
Qed.

(** Before that the dust grows with every digit. *)
Lemma decompose_loop_dust thr fuel amount dust k :
  0 <= amount < 10 ^ Z.of_nat fuel -> 0 <= k -> amount * 10 ^ k < 2 ^ 64 ->
  0 <= dust < 10 ^ k -> dust + amount * 10 ^ k < 2 ^ 64 -> dust <= thr ->
  exists dust' cs,
    decompose_loop thr fuel amount dust (u64 (10 ^ k)) false
      = Ret ((if 0 =? dust' then [] else [Dust dust']) ++ map Chunk cs)
    /\ 0 <= dust' <= thr
    /\ dust' + sumZ cs = dust + amount * 10 ^ k
    /\ Forall is_digit_amount cs
    /\ StronglySorted Z.lt (dust' :: cs).
Proof.
  revert amount dust k. induction fuel as [| fuel IH]; intros amount dust k Ham Hk Hb Hd Hdb Hdt;
    cbn [decompose_loop]; destruct (Z.eqb_spec amount 0) as [-> | Hne];
    try (exists dust, []; cbn [map sumZ foldr negb andb];
         split; [by destruct (0 =? dust) | repeat split; try constructor; try constructor; lia]).
  - change (10 ^ Z.of_nat 0) with 1 in Ham. lia.
  - destruct (digit_step amount k ltac:(lia) Hk Hb) as (Hc & Hsum & Hdiv & Hrange).
    cbv zeta in Hc, Hsum, Hrange. rewrite u64_order_step by lia.
    set (chunk := u64 ((amount mod 10) * u64 (10 ^ k))) in *.
    pose proof (pow10_step k Hk) as Hps. pose proof (pow10_pos k Hk) as Hpp.
    rewrite Nat2Z.inj_succ, Z.pow_succ_r in Ham by lia.
    assert (Hfuel : 0 <= amount / 10 < 10 ^ Z.of_nat fuel)
      by (split; [lia | apply Z.div_lt_upper_bound; lia]).
    assert (Hc0 : 0 <= chunk < 2 ^ 64) by apply u64_range.
    set (q := amount / 10) in *. clearbody q.
    assert (Hq : 0 <= q * 10 ^ (k + 1)) by (apply Z.mul_nonneg_nonneg; lia).
    rewrite (u64_small (dust + chunk)) by lia.
    destruct (Z.leb_spec (dust + chunk) thr) as [Hle | Hgt].
    + destruct (IH q (dust + chunk) (k + 1)) as (d' & cs & Heq & Hr & Hs & Hdig & Hsort); try lia.
      exists d', cs. split; [done |]. split; [done |]. split; [lia | done].
    + destruct Hrange as [H0 | Hnz]; [lia |]. cbn [negb andb orb].
      destruct (decompose_loop_chunks thr fuel q dust (k + 1) (negb (0 =? dust)))
        as (cs & Hcs & Hs & Hdig & Hge & Hsort); try lia.
      rewrite Hcs, outcome_bind_ret. destruct (Z.eqb_spec 0 chunk); [lia |].
      exists dust, (chunk :: cs). split; [by destruct (0 =? dust) |]. split; [lia |].
      split; [unfold sumZ in *; cbn [foldr]; lia |].
      split.
      * constructor; [| done]. exists (amount mod 10), k.
        pose proof (Z.mod_pos_bound amount 10 ltac:(lia)).
        split; [| split; [lia | split; [done | lia]]]. nia.
      * apply (StronglySorted_cons_le _ chunk); [lia | | apply (StronglySorted_cons_le _ (10 ^ (k + 1)))].
        -- constructor; [lia |]. eapply Forall_impl; [exact Hge |]. simpl. lia.
        -- lia.
        -- done.
        -- done.
Qed.

Lemma decompose_pieces amount thr :
  is_u64 amount -> 0 <= thr ->
  exists dust cs,
    decompose_amount_into_digits thr amount
      = Ret ((if 0 =? dust then [] else [Dust dust]) ++ map Chunk cs)
    /\ 0 <= dust <= thr
    /\ dust + sumZ cs = amount
    /\ Forall is_digit_amount cs
    /\ StronglySorted Z.lt (dust :: cs).
Proof.
  unfold is_u64. intros Ha Ht. unfold decompose_amount_into_digits.
  destruct (Z.eqb_spec 0 amount) as [<- | Hne].
  - exists 0, []. repeat split; try constructor; try constructor; lia.
  - destruct (decompose_loop_dust thr 20 amount 0 0) as (d & cs & Heq & Hr & Hs & Hd & Hsort);
      change (10 ^ 0) with 1; change (10 ^ Z.of_nat 20) with 100000000000000000000; try lia.
    exists d, cs. change 1 with (u64 (10 ^ 0)). rewrite Heq.
    change (10 ^ 0) with 1 in Hs. split; [done |]. split; [done |]. split; [lia | done].
Qed.

(** [decompose_amount_into_digits] terminates on every 64-bit amount and
    threshold, with at most one piece of dust, which comes first and does not
    exceed the threshold, followed by chunks in increasing order, each of them an
    amount that [is_valid_decomposed_amount] accepts; the pieces add up to the
    amount, with no wrap-around. *)
Theorem decompose_digits_correct amount dust_threshold :
  is_u64 amount -> is_u64 dust_threshold ->
  exists dust chunks,
    decompose_amount_into_digits dust_threshold amount
      = Ret ((if 0 =? dust then [] else [Dust dust]) ++ map Chunk chunks)
    /\ 0 <= dust <= dust_threshold
    /\ dust + sumZ chunks = amount
    /\ Forall (fun a => is_valid_decomposed_amount a = true) chunks
    /\ StronglySorted Z.lt (dust :: chunks).
Proof.
  intros Ha Ht. destruct (decompose_pieces amount dust_threshold Ha) as (d & cs & H1 & H2 & H3 & H4 & H5);
    [unfold is_u64 in Ht; lia |].
  exists d, cs. repeat split; try done; try lia.
  eapply Forall_impl; [exact H4 |]. apply digit_amount_valid.
Qed.

Lemma decompose_digits_correct_witness :
  exists dust chunks,
    decompose_amount_into_digits 1000000 62387455827
      = Ret ((if 0 =? dust then [] else [Dust dust]) ++ map Chunk chunks)
    /\ 0 <= dust <= 1000000
    /\ dust + sumZ chunks = 62387455827
    /\ Forall (fun a => is_valid_decomposed_amount a = true) chunks
    /\ StronglySorted Z.lt (dust :: chunks).
Proof. apply (decompose_digits_correct 62387455827 1000000); unfold is_u64; lia. Defined.

(** ** Uniform tiers *)

Lemma push_tier_spec n tier amount out :
  0 < tier -> 0 <= amount < 2 ^ 64 -> amount / tier = Z.of_nat n ->
  push_tier n tier amount out = (amount - Z.of_nat n * tier, out ++ replicate n tier).
Proof.
  intros Ht. revert amount out. induction n as [| n IH]; intros amount out Ha Hn.
  - cbn [push_tier replicate]. rewrite app_nil_r. f_equal. lia.
  - cbn [push_tier replicate].
    pose proof (Z.mul_div_le amount tier Ht) as Hle.
    assert (Hge : tier <= amount) by nia.
    destruct (Z.leb_spec tier amount); [| lia].
    rewrite u64_small by lia. rewrite IH; [| lia |].
    + f_equal; [lia | by rewrite <- app_assoc].
    + replace (amount - tier) with (amount + (-1) * tier) by lia.
      rewrite Z.div_add by lia. lia.
Qed.

Lemma uniform_loop_spec ts thr amount out a' out' :
  Forall (fun t => 0 < t) ts -> 0 <= amount < 2 ^ 64 ->
  uniform_loop ts thr amount out = (a', out') ->
  exists added,
    out' = out ++ added /\ Forall (fun t => t ∈ ts /\ thr <= t) added
    /\ 0 <= a' <= amount /\ a' + sumZ added = amount
    /\ (Forall (fun t => thr <= t) ts -> forall t, last ts = Some t -> a' < t).
Proof.
  revert amount out. induction ts as [| t ts IH]; intros amount out Hts Ha; cbn [uniform_loop].
  - intros [= <- <-]. exists []. rewrite app_nil_r. cbn [sumZ foldr].
    repeat split; try done; try lia.
  - apply Forall_cons in Hts as [Ht Hts]. destruct (Z.ltb_spec t thr) as [Hlt | Hge].
    + intros [= <- <-]. exists []. rewrite app_nil_r. cbn [sumZ foldr].
      repeat split; try done; try lia. intros H. apply Forall_cons in H. lia.
    + pose proof (Z.div_pos amount t ltac:(lia) Ht) as Hq.
      rewrite (push_tier_spec _ t amount out) by lia. rewrite Z2Nat.id by lia.
      pose proof (Z.div_mod amount t ltac:(lia)) as Hdm.
      pose proof (Z.mod_pos_bound amount t Ht) as Hm.
      intros Heq. apply IH in Heq as (added & -> & Hall & Hr & Hs & Hlast); [| done | nia].
      exists (replicate (Z.to_nat (amount / t)) t ++ added).
      rewrite sumZ_app, sumZ_replicate, Z2Nat.id by lia.
      split; [by rewrite app_assoc |]. split; [| split; [nia | split; [lia |]]].
      * apply Forall_app. split.
        -- apply Forall_replicate. split; [left | done].
        -- eapply Forall_impl; [exact Hall |]. intros x [? ?]. split; [by right | done].
      * intros Hthr u Hu. apply Forall_cons in Hthr as [_ Hthr].
        destruct ts as [| t2 ts]; [| by apply Hlast].
        injection Hu as <-. cbn [uniform_loop] in *. nia.
Qed.

Lemma add_to_back_snoc init b a : add_to_back (init ++ [b]) a = init ++ [u64 (b + a)].
Proof. unfold add_to_back. by rewrite reverse_snoc, reverse_involutive. Qed.

Lemma tiers_pos t : t ∈ tiers -> 0 < t.
Proof.
  intros Ht. assert (H : Forall (fun t => 0 < t) tiers) by (repeat constructor).
  rewrite Forall_forall in H. auto.
Qed.

Lemma decompose_uniform_spec amount dust_threshold :
  is_u64 amount ->
  sumZ (decompose_amount_uniform amount dust_threshold) = amount
  /\ exists out rem,
       Forall (fun t => t ∈ tiers) out /\ 0 <= rem
       /\ (dust_threshold <= 1000 -> rem < 1000)
       /\ (decompose_amount_uniform amount dust_threshold = out /\ rem = 0
           \/ out = [] /\ decompose_amount_uniform amount dust_threshold = [rem]
           \/ exists init b, out = init ++ [b]
                /\ decompose_amount_uniform amount dust_threshold = init ++ [b + rem]).
Proof.
  intros Ha. unfold decompose_amount_uniform. destruct (Z.eqb_spec amount 0) as [-> | Hne].
  { split; [done |]. exists [], 0. split; [constructor |]. split; [lia |]. split; [lia | by left]. }
  destruct (uniform_loop tiers dust_threshold amount []) as [a' out] eqn:E.
  apply uniform_loop_spec in E as (added & -> & Hall & Hr & Hs & Hlast);
    [| repeat constructor; lia | exact Ha]. cbn [app].
  assert (Htiers : Forall (fun t => t ∈ tiers) added)
    by (eapply Forall_impl; [exact Hall | intros x [? _]; done]).
  assert (Hrem : dust_threshold <= 1000 -> a' < 1000).
  { intros Hthr. apply Hlast; [| done]. repeat constructor; lia. }
  destruct (Z.ltb_spec 0 a') as [Hpos | Hz].
  - destruct added as [| x added] using rev_ind.
    + split; [cbn [sumZ foldr] in *; lia |].
      exists [], a'. repeat split; try done; try lia. by right; left.
    + clear IHadded. rewrite sumZ_app in Hs. cbn [sumZ foldr] in Hs.
      assert (Hx : 0 < x).
      { apply Forall_app in Htiers as [_ Hx]. apply Forall_cons in Hx as [Hx _].
        by apply tiers_pos. }
      assert (Hnn : 0 <= sumZ added).
      { apply Forall_app in Htiers as [Hx' _]. apply sumZ_nonneg.
        eapply Forall_impl; [exact Hx' |]. intros t Ht. apply tiers_pos in Ht. lia. }
      assert (Hback : match added ++ [x] with [] => [a'] | _ :: _ => add_to_back (added ++ [x]) a' end
                      = added ++ [x + a']).
      { rewrite add_to_back_snoc. unfold is_u64 in Ha. rewrite u64_small by (unfold sumZ in *; lia).
        by destruct added. }
      rewrite Hback. split; [rewrite sumZ_app; cbn [sumZ foldr] in *; unfold sumZ in *; lia |].
      exists (added ++ [x]), a'. repeat split; try done; try lia. right; right. by exists added, x.
  - split; [lia |]. exists added, 0. repeat split; try done; try lia.
    left. split; [done | lia].
Qed.

(** The outputs of [decompose_amount_uniform] add up to the amount for every
    64-bit amount and threshold, and with a threshold of at most 1000 (the
    network's) they are standard tiers, plus a remainder below 1000 that is merged
    into the last of them or stands alone when there is none. *)
Theorem decompose_uniform_correct amount dust_threshold :
  is_u64 amount ->
  sumZ (decompose_amount_uniform amount dust_threshold) = amount
  /\ exists out rem,
       Forall (fun t => t ∈ tiers) out /\ 0 <= rem
       /\ (dust_threshold <= 1000 -> rem < 1000)
       /\ (decompose_amount_uniform amount dust_threshold = out /\ rem = 0
           \/ out = [] /\ decompose_amount_uniform amount dust_threshold = [rem]
           \/ exists init b, out = init ++ [b]
                /\ decompose_amount_uniform amount dust_threshold = init ++ [b + rem]).
Proof. apply decompose_uniform_spec. Qed.

Lemma decompose_uniform_nonneg amount thr :
  is_u64 amount -> Forall (Z.le 0) (decompose_amount_uniform amount thr).
Proof.
  intros Ha. destruct (decompose_uniform_spec amount thr Ha) as (_ & out & rem & Ht & Hr & _ & Hcase).
  assert (Hpos : Forall (Z.le 0) out)
    by (eapply Forall_impl; [exact Ht |]; intros t H; apply tiers_pos in H; lia).
  destruct Hcase as [[-> _] | [[_ ->] | (init & b & -> & ->)]].
  - done.
  - by repeat constructor.
  - apply Forall_app in Hpos as [Hi Hb]. apply Forall_cons in Hb as [Hb _].
    apply Forall_app. split; [done |]. repeat constructor. lia.
Qed.

Lemma decompose_uniform_correct_witness :
  sumZ (decompose_amount_uniform 2345678 1000) = 2345678
  /\ exists out rem,
       Forall (fun t => t ∈ tiers) out /\ 0 <= rem
       /\ (1000 <= 1000 -> rem < 1000)
       /\ (decompose_amount_uniform 2345678 1000 = out /\ rem = 0
           \/ out = [] /\ decompose_amount_uniform 2345678 1000 = [rem]
           \/ exists init b, out = init ++ [b]
                /\ decompose_amount_uniform 2345678 1000 = init ++ [b + rem]).
Proof. apply (decompose_uniform_correct 2345678 1000). unfold is_u64. lia. Defined.

(** ** Fusion transactions pay no fee *)

Lemma decomposeAmount_sum amount thr :
  is_u64 amount -> 0 <= thr ->
  exists l, decomposeAmount amount thr = Ret l /\ sumZ l = amount /\ Forall (Z.le 0) l.
Proof.
  intros Ha Ht. destruct (decompose_pieces amount thr Ha Ht) as (d & cs & Heq & Hd & Hs & _ & Hsort).
  unfold decomposeAmount. rewrite Heq, outcome_bind_ret. eexists. split; [done |].
  rewrite map_app, map_map, sumZ_app.
  change (map (fun x => piece_amount (Chunk x)) cs) with (map (fun x : Z => x) cs).
  rewrite map_id. apply StronglySorted_inv in Hsort as [_ Hge].
  assert (Hcs : Forall (Z.le 0) cs) by (eapply Forall_impl; [exact Hge |]; simpl; lia).
  destruct (Z.eqb_spec 0 d); cbn [map piece_amount app].
  - split; [cbn [sumZ foldr]; unfold sumZ in *; lia | done].
  - split; [cbn [sumZ foldr]; unfold sumZ in *; lia | constructor; [lia | done]].
Qed.

Lemma u64_add_idemp a b : u64 (u64 a + b) = u64 (a + b).
Proof. unfold u64. by rewrite Z.add_mod_idemp_l by lia. Qed.

Lemma u64_idemp a : u64 (u64 a) = u64 a.
Proof. apply u64_small, u64_range. Qed.

Lemma fusion_input_sum_spec c ins acc s :
  fusion_input_sum c ins acc = Some s ->
  u64 s = u64 (acc + sumZ ins) /\ Forall (fun a => m_defaultDustThreshold c <= a) ins.
Proof.
  revert acc. induction ins as [| a ins IH]; intros acc; cbn [fusion_input_sum].
  - intros [= ->]. cbn [sumZ foldr]. by rewrite Z.add_0_r.
  - destruct (Z.ltb_spec a (m_defaultDustThreshold c)); [done |].
    intros H'. apply IH in H' as [H1 H2]. split; [| by constructor].
    rewrite H1, u64_add_idemp. unfold sumZ. cbn [foldr]. f_equal. lia.
Qed.

Lemma fusion_input_sum_u64 c ins acc s :
  is_u64 acc -> fusion_input_sum c ins acc = Some s -> is_u64 s.
Proof.
  revert acc. induction ins as [| a ins IH]; intros acc Hacc; cbn [fusion_input_sum].
  - by intros [= ->].
  - destruct (_ <? _); [done |]. intros H. eapply IH; [| exact H]. apply u64_range.
Qed.

(** [isFusionTransaction] never fails. *)
Lemma fusion_answer c inputsAmounts outputsAmounts size :
  0 <= m_defaultDustThreshold c ->
  exists answer, isFusionTransaction c inputsAmounts outputsAmounts size = Ret answer.
Proof.
  intros Hthr. unfold isFusionTransaction.
  destruct (_ <? size); [by eexists |]. destruct (_ <? m_fusionTxMinInputCount c); [by eexists |].
  destruct (_ <? u64 _); [by eexists |].
  destruct (fusion_input_sum c inputsAmounts 0) as [s |] eqn:E; [| by eexists].
  apply fusion_input_sum_u64 in E; [| unfold is_u64; lia].
  destruct (decomposeAmount_sum s (m_defaultDustThreshold c) E Hthr) as (l & -> & _).
  by eexists.
Qed.

(** [isFusionTransaction] always returns an answer, and when it accepts, the
    size and input count are within the limits, every input reaches the dust
    threshold, and the outputs add up to exactly the 64-bit sum of the inputs: an
    accepted fusion transaction pays no fee and creates no money. *)
Theorem fusion_balances c inputsAmounts outputsAmounts size :
  0 <= m_defaultDustThreshold c ->
  exists answer,
    isFusionTransaction c inputsAmounts outputsAmounts size = Ret answer
    /\ (answer = true ->
        size <= m_fusionTxMaxSize c
        /\ m_fusionTxMinInputCount c <= Z.of_nat (length inputsAmounts)
        /\ Forall (fun a => m_defaultDustThreshold c <= a) inputsAmounts
        /\ sumZ outputsAmounts = u64 (sumZ inputsAmounts)).
Proof.
  intros Hthr. unfold isFusionTransaction.
  destruct (Z.ltb_spec (m_fusionTxMaxSize c) size); [by eexists |].
  destruct (Z.ltb_spec (Z.of_nat (length inputsAmounts)) (m_fusionTxMinInputCount c)); [by eexists |].
  destruct (_ <? u64 _); [by eexists |].
  destruct (fusion_input_sum c inputsAmounts 0) as [s |] eqn:E; [| by eexists].
  pose proof (fusion_input_sum_spec _ _ _ _ E) as [Hs Hall].
  apply fusion_input_sum_u64 in E; [| unfold is_u64; lia].
  destruct (decomposeAmount_sum s (m_defaultDustThreshold c) E Hthr) as (l & -> & Hl & _).
  rewrite outcome_bind_ret. eexists. split; [done |]. intros Hb. apply bool_decide_eq_true in Hb.
  repeat split; try done; try lia.
  rewrite <- Hb, (sumZ_perm _ l) by apply merge_sort_Permutation.
  rewrite Hl, <- (u64_small s) by exact E. rewrite Hs. done.
Qed.

Lemma fusion_balances_witness :
  isFusionTransaction mainnet (replicate 12 1000000) [2000000; 10000000] 1000 = Ret true
  /\ exists answer,
    isFusionTransaction mainnet (replicate 12 1000000) [2000000; 10000000] 1000 = Ret answer
    /\ (answer = true ->
        1000 <= m_fusionTxMaxSize mainnet
        /\ m_fusionTxMinInputCount mainnet <= Z.of_nat (length (replicate 12 1000000))
        /\ Forall (fun a => m_defaultDustThreshold mainnet <= a) (replicate 12 1000000)
        /\ sumZ [2000000; 10000000] = u64 (sumZ (replicate 12 1000000))).
Proof.
  split; [vm_compute; reflexivity |].
  apply (fusion_balances mainnet (replicate 12 1000000) [2000000; 10000000] 1000).
  vm_compute. discriminate.
Defined.

(** ** Text round trip *)

Lemma digits_value_app a b :
  digits_value (a ++ b) = digits_value a * 10 ^ Z.of_nat (length b) + digits_value b.
Proof.
  unfold digits_value. rewrite foldl_app. generalize (foldl (fun v ch => v * 10 + (ch - 48)) 0 a).
  induction b as [| ch b IH] using rev_ind; intros v.
  - cbn [foldl length]. change (10 ^ Z.of_nat 0) with 1. lia.
  - rewrite !foldl_app, length_app. cbn [foldl length]. rewrite IH, Nat.add_1_r, Nat2Z.inj_succ.
    rewrite Z.pow_succ_r by lia. lia.
Qed.

Lemma digits_value_zeros n s : digits_value (replicate n 48 ++ s) = digits_value s.
Proof.
  rewrite digits_value_app. replace (digits_value (replicate n 48)) with 0; [lia |].
  induction n as [| n IH]; [done |]. cbn [replicate].
  change (48 :: replicate n 48) with ([48] ++ replicate n 48).
  rewrite digits_value_app, <- IH. done.
Qed.

Lemma digits_of_spec fuel n acc :
  0 <= n < 10 ^ Z.of_nat (S fuel) ->
  exists ds, digits_of (S fuel) n acc = ds ++ acc /\ ds <> []
    /\ forallb isdigit ds = true /\ digits_value ds = n.
Proof.
  revert n acc. induction fuel as [| fuel IH]; intros n acc Hn;
    pose proof (Z.mod_pos_bound n 10 ltac:(lia)) as Hm;
    pose proof (Z.div_mod n 10 ltac:(lia)) as Hdm;
    (assert (Hdig : isdigit (48 + n mod 10) = true) by (unfold isdigit; lia)).
  - exists [48 + n mod 10]. change (10 ^ Z.of_nat 1) with 10 in Hn. cbn [digits_of app].
    rewrite Z.div_small by lia. split; [done |]. split; [done |]. split; [by rewrite <- Hdig; cbn; rewrite andb_true_r |].
    unfold digits_value. cbn [foldl]. rewrite Z.mod_small; lia.
  - change (digits_of (S (S fuel)) n acc) with
      (if n / 10 =? 0 then (48 + n mod 10) :: acc
       else digits_of (S fuel) (n / 10) ((48 + n mod 10) :: acc)).
    destruct (Z.eqb_spec (n / 10) 0) as [E | E].
    { exists [48 + n mod 10]. split; [done |]. split; [done |].
      split; [by rewrite <- Hdig; cbn; rewrite andb_true_r |].
      unfold digits_value. cbn [foldl]. lia. }
    destruct (IH (n / 10) ((48 + n mod 10) :: acc)) as (ds & Heq & Hne & Hall & Hv).
    { rewrite (Nat2Z.inj_succ (S fuel)), Z.pow_succ_r in Hn by lia.
      split; [apply Z.div_pos; lia | apply Z.div_lt_upper_bound; lia]. }
    exists (ds ++ [48 + n mod 10]). rewrite Heq. split; [by rewrite <- app_assoc |].
    split; [by destruct ds |]. split.
    + rewrite forallb_app, Hall. cbn [forallb]. by rewrite Hdig.
    + rewrite digits_value_app, Hv. cbn [length]. change (10 ^ Z.of_nat 1) with 10.
      unfold digits_value. cbn [foldl]. lia.
Qed.

(** The padded digits of an amount, before the point is inserted. *)
Lemma formatAmount_split c amount :
  is_u64 amount ->
  exists pre frac,
    formatAmount c amount = pre ++ 46 :: frac
    /\ pre <> [] /\ length frac = decimals c
    /\ forallb isdigit (pre ++ frac) = true
    /\ digits_value (pre ++ frac) = amount.
Proof.
  unfold is_u64. intros Ha. unfold formatAmount, to_string.
  destruct (digits_of_spec 19 amount []) as (ds & -> & Hne & Hall & Hv).
  { change (10 ^ Z.of_nat 20) with 100000000000000000000. lia. }
  rewrite app_nil_r.
  set (s := if (length ds <? decimals c + 1)%nat then _ else ds).
  assert (Hs : (decimals c + 1 <= length s)%nat /\ forallb isdigit s = true /\ digits_value s = amount).
  { unfold s. destruct (Nat.ltb_spec (length ds) (decimals c + 1)) as [H | H].
    - rewrite length_app, length_replicate, digits_value_zeros, forallb_app, Hall, andb_true_r.
      split; [lia |]. split; [| done].
      apply forallb_forall. intros x Hx. apply list_elem_of_In, elem_of_replicate in Hx as [-> _].
      done.
    - split; [lia | done]. }
  destruct Hs as (Hl & Hd & Hvs). clearbody s.
  exists (take (length s - decimals c) s), (drop (length s - decimals c) s).
  rewrite take_drop, length_drop. split; [done |]. split; [| split; [lia | done]].
  intros H. apply (f_equal length) in H. rewrite length_take in H. simpl in H. lia.
Qed.

Lemma trim_left_id s : forallb (fun ch => negb (isspace ch)) s = true -> trim_left s = s.
Proof. destruct s as [| ch s]; [done |]. cbn [forallb trim_left]. by destruct (isspace ch). Qed.

Lemma trim_id s : forallb (fun ch => negb (isspace ch)) s = true -> trim s = s.
Proof.
  intros H. unfold trim. rewrite (trim_left_id s H), trim_left_id, reverse_involutive; [done |].
  apply forallb_forall. rewrite forallb_forall in H. intros x Hx. apply H.
  apply list_elem_of_In, elem_of_reverse. by apply list_elem_of_In.
Qed.

Lemma find_first_of_app pre ch s :
  Forall (fun x => x <> ch) pre -> find_first_of (pre ++ ch :: s) ch = Some (length pre).
Proof.
  induction 1 as [| x pre Hx _ IH]; cbn [app find_first_of length].
  - by rewrite Z.eqb_refl.
  - destruct (Z.eqb_spec x ch); [done |]. rewrite IH. done.
Qed.

Lemma digits_not ch s :
  forallb isdigit s = true -> isdigit ch = false -> Forall (fun x => x <> ch) s.
Proof.
  intros H Hch. apply Forall_forall. intros x Hx ->. rewrite forallb_forall in H.
  rewrite H in Hch by (by apply list_elem_of_In). done.
Qed.

Lemma digits_no_space s :
  forallb isdigit s = true -> forallb (fun ch => negb (isspace ch)) s = true.
Proof.
  rewrite !forallb_forall. intros H x Hx. specialize (H x Hx).
  unfold isdigit in H. unfold isspace. lia.
Qed.

(** [parseAmount] reads back exactly the amount that [formatAmount] printed,
    for every 64-bit amount and any number of decimal places. *)
Theorem parse_formatAmount c amount :
  is_u64 amount -> parseAmount c (formatAmount c amount) = Some amount.
Proof.
  intros Ha.
  destruct (formatAmount_split c amount Ha) as (pre & frac & -> & Hne & Hl & Hd & Hv).
  pose proof Hd as Hd'. rewrite forallb_app in Hd'. apply andb_true_iff in Hd' as [Hp Hf].
  unfold parseAmount. rewrite trim_id.
  2: { rewrite forallb_app. cbn [forallb]. by rewrite !digits_no_space by done. }
  rewrite find_first_of_app by (by apply digits_not).
  rewrite length_app. cbn [length].
  replace (length pre + S (length frac) - length pre - 1)%nat with (decimals c) by lia.
  assert (Hz : forall r, drop_zeros c r (decimals c) = (r, decimals c)).
  { intros [| ch r]; [done |]. cbn [drop_zeros]. by rewrite Nat.ltb_irrefl. }
  rewrite Hz, reverse_involutive, Nat.ltb_irrefl. cbn [mbind option_bind].
  replace (take (length pre) (pre ++ 46 :: frac)) with pre by (by rewrite take_app_length).
  replace (drop (S (length pre)) (pre ++ 46 :: frac)) with frac
    by (rewrite drop_app_ge, Nat.sub_succ_l, Nat.sub_diag by lia; done).
  destruct (pre ++ frac) as [| x s] eqn:E; [by destruct pre |].
  rewrite Hd, Nat.ltb_irrefl. cbn [negb]. unfold fromString. rewrite Hv.
  unfold is_u64, UINT64_MAX in *. destruct (Z.leb_spec amount (2 ^ 64 - 1)); [done | lia].
Qed.

Lemma parse_formatAmount_witness :
  formatAmount mainnet 12345 = [48; 46; 48; 48; 49; 50; 51; 52; 53]
  /\ parseAmount mainnet (formatAmount mainnet 12345) = Some 12345.
Proof.
  split; [vm_compute; reflexivity |].
  apply (parse_formatAmount mainnet 12345). unfold is_u64. lia.
Defined.
