(* ===== verification/TxChecks.v ===== *)
(** Stateless transaction checks: [CryptoNoteFormatUtils.cpp], the amount and fee
    functions of [Currency.cpp], and [core::check_tx_semantic],
    [core::check_tx_mixin] and [core::check_tx_fee] of [Core.cpp]. *)

From S2P Require Import Prelude Config IntUtil Currency Types Amounts.

(** * [CryptoNoteFormatUtils.cpp] *)

(** The amount of an input as [get_inputs_money_amount] and
    [check_inputs_overflow] read it. *)
Definition input_money (i : TransactionInput) : Z :=
  match i with
  | InKey k => ki_amount k
  | InMultisignature m => mi_amount m
  | InCommitmentSpend s => cs_amount s
  | InCommitmentTransfer t => ct_amount t
  | InBase _ | InUnified _ => 0
  end.

Definition get_inputs_money_amount (tx : Transaction) : Z :=
  foldl (fun money i => u64 (money + input_money i)) 0 (tx_inputs tx).

Definition get_outs_money_amount (tx : Transaction) : Z :=
  foldl (fun money o => u64 (money + out_amount o)) 0 (tx_outputs tx).

(** The common loop of [check_inputs_overflow] and [check_outs_overflow]. *)
Fixpoint check_overflow_loop (amounts : list Z) (money : Z) : bool :=
  match amounts with
  | [] => true
  | amount :: rest =>
      if u64 (amount + money) <? money then false
      else check_overflow_loop rest (u64 (money + amount))
  end.

Definition check_inputs_overflow (tx : Transaction) : bool :=
  check_overflow_loop (map input_money (tx_inputs tx)) 0.

Definition check_outs_overflow (tx : Transaction) : bool :=
  check_overflow_loop (map out_amount (tx_outputs tx)) 0.

Definition check_money_overflow (tx : Transaction) : bool :=
  check_inputs_overflow tx && check_outs_overflow tx.

Definition get_block_height (b : Block) : Z :=
  match tx_inputs (b_baseTransaction b) with
  | [InBase i] => bi_blockIndex i
  | _ => 0
  end.

Definition input_type_supported (version : Z) (i : TransactionInput) : bool :=
  match i with
  | InMultisignature _ | InCommitmentSpend _ => negb (version <? TRANSACTION_VERSION_2)
  | InCommitmentTransfer _ => negb (version <? TRANSACTION_VERSION_2)
  | InKey _ | InBase _ => true
  | InUnified _ => false
  end.

Definition check_inputs_types_supported (tx : Transaction) : bool :=
  forallb (input_type_supported (tx_version tx)) (tx_inputs tx).

(** [checkMultisignatureInputsDiff]: [inputsUsage] is the set of used pairs. *)
Fixpoint multisignature_diff_loop (ins : list TransactionInput) (inputsUsage : gset (Z * Z)) : bool :=
  match ins with
  | [] => true
  | InMultisignature m :: rest =>
      let key := (mi_amount m, mi_outputIndex m) in
      if decide (key ∈ inputsUsage) then false
      else multisignature_diff_loop rest ({[key]} ∪ inputsUsage)
  | _ :: rest => multisignature_diff_loop rest inputsUsage
  end.

Definition checkMultisignatureInputsDiff (tx : Transaction) : bool :=
  multisignature_diff_loop (tx_inputs tx) ∅.

Section OutputKeys.
(** [Crypto::check_key] decides whether 32 bytes are a curve point. *)
Context (check_key : bytes -> bool).

(** One round of [check_outs_valid]; [error] says whether the caller passed a
    string.  The version test of multisignature outputs writes through the
    pointer without looking at it. *)
Definition check_out_valid (version : Z) (error : bool) (out : TransactionOutput)
    : outcome (bool * string) :=
  let fail (msg : string) := Ret (false, if error then msg else ""%string) in
  match out_target out with
  | OutKey k =>
      if out_amount out =? 0 then fail "Zero amount ouput"%string
      else if negb (check_key (ko_key k)) then fail "Output with invalid key"%string
      else Ret (true, ""%string)
  | OutMultisignature m =>
      if version <? TRANSACTION_VERSION_2 then
        if error
        then Ret (false,
          "Transaction contains multisignature output but its version is less than 2"%string)
        else Undefined
      else if Z.of_nat (length (mo_keys m)) <? mo_requiredSignatureCount m then
        fail "Multisignature output with invalid required signature count"%string
      else if negb (forallb check_key (mo_keys m)) then
        fail "Multisignature output with invalid public key"%string
      else Ret (true, ""%string)
  | OutCommitment o =>
      if version <? TRANSACTION_VERSION_2 then
        fail "Transaction contains commitment output but its version is less than 2"%string
      else if negb (check_key (oc_commitKey o)) then
        fail "Commitment output with invalid commit key"%string
      else Ret (true, ""%string)
  | OutUnified _ => fail "Output with invalid type"%string
  end.

Fixpoint check_outs_loop (version : Z) (error : bool) (outs : list TransactionOutput)
    : outcome (bool * string) :=
  match outs with
  | [] => Ret (true, ""%string)
  | out :: rest =>
      '(ok, msg) ← check_out_valid version error out;
      if ok : bool then check_outs_loop version error rest else Ret (false, msg)
  end.

Definition check_outs_valid (tx : Transaction) (error : bool) : outcome (bool * string) :=
  check_outs_loop (tx_version tx) error (tx_outputs tx).

End OutputKeys.

(** [relative_output_offsets_to_absolute]: [res[i] += res[i - 1]] from the front. *)
Fixpoint to_absolute (prev : Z) (off : list Z) : list Z :=
  match off with
  | [] => []
  | x :: rest => let y := u32 (x + prev) in y :: to_absolute y rest
  end.

Definition relative_output_offsets_to_absolute (off : list Z) : list Z :=
  match off with
  | [] => []
  | x :: rest => x :: to_absolute x rest
  end.

(** [absolute_output_offsets_to_relative]: sort, then [res[i] -= res[i - 1]] from
    the back, so that each subtraction sees the original predecessor. *)
Fixpoint to_relative (prev : Z) (off : list Z) : list Z :=
  match off with
  | [] => []
  | x :: rest => u32 (x - prev) :: to_relative x rest
  end.

Definition absolute_output_offsets_to_relative (off : list Z) : list Z :=
  match sort off with
  | [] => []
  | x :: rest => x :: to_relative x rest
  end.

(** * Amounts and fees of [Currency.cpp] *)

Section Fees.
Context (c : Currency).

(** [Currency::calculateInterest]: computes a yield, then returns
    [offchaininterest], which stays 0. *)
Definition calculateInterest (amount term height : Z) : outcome Z :=
  let a := u64 (u64 (term * m_depositMaxTotalRate c) - m_depositMinTotalRateFactor c) in
  '(bLo, bHi) ← mul128 amount a;
  let offchaininterest := 0 in
  _ ← assert_ (m_depositMaxTerm c <? UINT32_MAX / 100);
  '(_, cHi, cLo) ← div128_32 bHi bLo (u32 (100 * m_depositMaxTerm c));
  _ ← assert_ (cHi =? 0);
  '(interestHi, interestLo) ←
    (if height <=? END_MULTIPLIER_BLOCK then
       '(interestLo, interestHi) ← mul128 cLo MULTIPLIER_FACTOR;
       _ ← assert_ (interestHi =? 0);
       Ret (interestHi, interestLo)
     else Ret (cHi, cLo));
  Ret offchaininterest.

Definition calculateTotalTransactionInterest (tx : Transaction) (height : Z) : outcome Z :=
  foldl (fun acc i =>
    interest ← acc;
    match i with
    | InMultisignature m =>
        if mi_term m =? 0 then Ret interest
        else y ← calculateInterest (mi_amount m) (mi_term m) height; Ret (u64 (interest + y))
    | _ => Ret interest
    end) (Ret 0) (tx_inputs tx).

Definition getTransactionInputAmount (i : TransactionInput) (height : Z) : outcome Z :=
  match i with
  | InKey k => Ret (ki_amount k)
  | InMultisignature m =>
      if mi_term m =? 0 then Ret (mi_amount m)
      else y ← calculateInterest (mi_amount m) (mi_term m) height; Ret (u64 (mi_amount m + y))
  | InCommitmentSpend s => Ret (u64 (cs_amount s + cs_claimedInterest s))
  | InCommitmentTransfer t => Ret (ct_amount t)
  | InBase _ => Ret 0
  | InUnified _ => AssertFail
  end.

Fixpoint sum_inputs (ins : list TransactionInput) (height amount : Z) : outcome Z :=
  match ins with
  | [] => Ret amount
  | i :: rest =>
      a ← getTransactionInputAmount i height;
      sum_inputs rest height (u64 (amount + a))
  end.

Definition getTransactionAllInputsAmount (tx : Transaction) (height : Z) : outcome Z :=
  sum_inputs (tx_inputs tx) height 0.

(** [getTransactionFee(tx, fee, height)]: [None] is the [false] result. *)
Definition getTransactionFee (tx : Transaction) (height : Z) : outcome (option Z) :=
  amount_in ← sum_inputs (tx_inputs tx) height 0;
  let amount_out := get_outs_money_amount tx in
  if amount_in <? amount_out then
    let versionedMinFee := minimumFee c (blockMajorVersionAtHeight c height) in
    if (0 <? Z.of_nat (length (tx_inputs tx))) && (0 <? Z.of_nat (length (tx_outputs tx)))
       && (u64 (amount_in + versionedMinFee) <? amount_out)
    then Ret (Some versionedMinFee) else Ret None
  else Ret (Some (u64 (amount_in - amount_out))).

(** The overload that turns a failure into a fee of 0. *)
Definition getTransactionFeeOrZero (tx : Transaction) (height : Z) : outcome Z :=
  r ← getTransactionFee tx height; Ret (default 0 r).

(** [Currency::calculateCdInterest]; [epochFeeRates] is the vector behind
    [CommitmentIndex::getEpochFeeRate] and [getEpochCount]. *)
Definition getEpochCount (epochFeeRates : list Z) : Z := Z.of_nat (length epochFeeRates).

Definition getEpochFeeRate (epochFeeRates : list Z) (epochNumber : Z) : outcome Z :=
  if getEpochCount epochFeeRates <=? epochNumber then Ret 0 else vec_at epochFeeRates epochNumber.

Fixpoint cd_interest_loop (fuel : nat) (amount e endEpoch : Z) (rates : list Z) (interest : Z)
    : outcome Z :=
  if (e <=? endEpoch) && (e <? getEpochCount rates) then
    match fuel with
    | O => Undefined
    | S fuel =>
        epochRate ← getEpochFeeRate rates e;
        cd_interest_loop fuel amount (u64 (e + 1)) endEpoch rates
          (u64 (interest + u64 (amount * epochRate) / FEE_POOL_RATE_PRECISION))
    end
  else Ret interest.

Definition calculateCdInterest (amount creationHeight currentHeight : Z) (rates : list Z)
    : outcome Z :=
  if currentHeight <=? creationHeight then Ret 0
  else
    let epochDuration := if m_testnet c then TESTNET_EPOCH_DURATION_BLOCKS else EPOCH_DURATION_BLOCKS in
    cd_interest_loop (length rates) amount (creationHeight / epochDuration)
      (currentHeight / epochDuration) rates 0.

End Fees.

(** * [Core.cpp] *)

Section Semantic.
Context (c : Currency).
Context (check_key : bytes -> bool).
(** [scalarmultKey(keyImage, L) == I]: the key image has the order of the base point. *)
Context (key_image_in_domain : bytes -> bool).

(** The loop of [core::check_tx_inputs_keyimages_diff]. *)
Fixpoint keyimages_diff_loop (ins : list TransactionInput) (ki : gset bytes) : bool :=
  match ins with
  | [] => true
  | InKey k :: rest =>
      if decide (ki_keyImage k ∈ ki) then false
      else match ki_outputIndexes k with
           | [] => false
           | _ :: offsets =>
               if negb (key_image_in_domain (ki_keyImage k)) then false
               else if existsb (Z.eqb 0) offsets then false
               else keyimages_diff_loop rest ({[ki_keyImage k]} ∪ ki)
           end
  | _ :: rest => keyimages_diff_loop rest ki
  end.

Definition check_tx_inputs_keyimages_diff (tx : Transaction) : bool :=
  keyimages_diff_loop (tx_inputs tx) ∅.

Definition check_tx_semantic (tx : Transaction) (height : Z) : outcome bool :=
  match tx_inputs tx with
  | [] => Ret false
  | _ =>
      if negb (check_inputs_types_supported tx) then Ret false
      else
        '(ok, _) ← check_outs_valid check_key tx true;
        if negb ok then Ret false
        else if negb (check_money_overflow tx) then Ret false
        else
          amount_in ← getTransactionAllInputsAmount c tx height;
          let amount_out := get_outs_money_amount tx in
          if amount_in <? amount_out then Ret false
          else if negb (check_tx_inputs_keyimages_diff tx) then Ret false
          else if negb (checkMultisignatureInputsDiff tx) then Ret false
          else Ret true
  end.

(** [core::check_tx_mixin]; [inputIndex] stays 0. *)
Definition check_tx_mixin (tx : Transaction) (blockMajorVersion : Z) : outcome bool :=
  (fix loop (ins : list TransactionInput) : outcome bool :=
     match ins with
     | [] => Ret true
     | txin :: rest =>
         _ ← assert_ (0 <? Z.of_nat (length (tx_signatures tx)));
         match txin with
         | InKey k =>
             let txMixin := Z.of_nat (length (ki_outputIndexes k)) in
             if m_maxMixin c <? txMixin then Ret false
             else if (BLOCK_MAJOR_VERSION_7 <=? blockMajorVersion)
                     && (txMixin <? minMixin c blockMajorVersion) then Ret false
             else loop rest
         | _ => loop rest
         end
     end) (tx_inputs tx).

(** [core::check_tx_fee]; [objectSize] is the size of the serialised transaction,
    which [getObjectHash(tx, h, blobSize)] stores over the argument.  The result is
    the answer with [m_verification_failed] and [m_tx_fee_too_small]. *)
Definition check_tx_fee (tx : Transaction) (objectSize blockMajorVersion : Z)
    : outcome (bool * bool * bool) :=
  let inputs_amount := get_inputs_money_amount tx in
  let outputs_amount := get_outs_money_amount tx in
  if inputs_amount <? outputs_amount then Ret (false, true, false)
  else
    let fee := u64 (inputs_amount - outputs_amount) in
    isFusion ← (if fee =? 0 then isFusionTransactionTx c tx objectSize else Ret false);
    if negb isFusion && (fee <? minimumFee c blockMajorVersion) then Ret (false, true, true)
    else Ret (true, false, false).

End Semantic.

(** * Overflow checks are exact *)

Lemma u64_comm_add a b : u64 (a + b) = u64 (b + a).
Proof. by rewrite Z.add_comm. Qed.

Lemma check_overflow_loop_exact amounts money :
  Forall is_u64 amounts -> is_u64 money ->
  check_overflow_loop amounts money = (money + sumZ amounts <? 2 ^ 64).
Proof.
  intros H. revert money. induction H as [| a rest Ha Hrest IH]; intros money Hm; unfold is_u64 in *;
    cbn [check_overflow_loop].
  - cbn [sumZ foldr]. symmetry. apply Z.ltb_lt. lia.
  - assert (0 <= sumZ rest)
      by (apply sumZ_nonneg; eapply Forall_impl; [exact Hrest | unfold is_u64; simpl; lia]).
    change (sumZ (a :: rest)) with (a + sumZ rest).
    destruct (u64_add_cases a money Ha Hm) as [[Hlt ->] | [Hge ->]].
    + destruct (Z.ltb_spec (a + money) money); [lia |].
      rewrite u64_small, IH by (unfold is_u64; lia).
      f_equal. lia.
    + destruct (Z.ltb_spec (a + money - 2 ^ 64) money); [| lia].
      symmetry. apply Z.ltb_ge. lia.
Qed.

Lemma fold_u64_sum {A} (f : A -> Z) (l : list A) m :
  foldl (fun money o => u64 (money + f o)) (u64 m) l = u64 (m + sumZ (map f l)).
Proof.
  revert m. induction l as [| a l IH]; intros m; cbn [foldl map].
  - cbn [sumZ foldr]. by rewrite Z.add_0_r.
  - rewrite u64_add_idemp, IH. unfold sumZ. cbn [foldr]. f_equal. lia.
Qed.

Lemma outs_total_sum outs : outs_total outs = sumZ (map out_amount outs).
Proof. unfold outs_total, sumZ. induction outs; cbn [foldr map]; [done | lia]. Qed.

Lemma get_outs_money_amount_u64 tx :
  get_outs_money_amount tx = u64 (outs_total (tx_outputs tx)).
Proof.
  unfold get_outs_money_amount. change 0 with (u64 0). by rewrite fold_u64_sum, outs_total_sum.
Qed.

Lemma get_inputs_money_amount_u64 tx :
  get_inputs_money_amount tx = u64 (sumZ (map input_money (tx_inputs tx))).
Proof. unfold get_inputs_money_amount. change 0 with (u64 0). by rewrite fold_u64_sum. Qed.

Lemma input_money_u64 i : input_wf i -> is_u64 (input_money i).
Proof. destruct i; cbn [input_wf input_money]; unfold is_u64; intuition lia. Qed.

Lemma inputs_money_wf tx : tx_wf tx -> Forall is_u64 (map input_money (tx_inputs tx)).
Proof.
  intros H. apply Forall_map. eapply Forall_impl; [apply tx_wf_inputs, H |]. apply input_money_u64.
Qed.

Lemma outs_money_wf tx : tx_wf tx -> Forall is_u64 (map out_amount (tx_outputs tx)).
Proof.
  intros H. apply Forall_map. eapply Forall_impl; [apply tx_wf_outputs, H |]. by intros o [? _].
Qed.

Lemma sumZ_u64_nonneg l : Forall is_u64 l -> 0 <= sumZ l.
Proof. intros H. apply sumZ_nonneg. eapply Forall_impl; [exact H |]. unfold is_u64. simpl. lia. Qed.

Lemma check_money_overflow_iff tx :
  tx_wf tx ->
  check_money_overflow tx = true <->
  sumZ (map input_money (tx_inputs tx)) < 2 ^ 64 /\ outs_total (tx_outputs tx) < 2 ^ 64.
Proof.
  intros Hwf. pose proof (inputs_money_wf tx Hwf) as Hi. pose proof (outs_money_wf tx Hwf) as Ho.
  rewrite outs_total_sum.
  unfold check_money_overflow, check_inputs_overflow, check_outs_overflow.
  rewrite !check_overflow_loop_exact, !Z.add_0_l by (done || (unfold is_u64; lia)).
  by rewrite andb_true_iff, !Z.ltb_lt.
Qed.

Lemma check_money_overflow_exact_aux tx :
  tx_wf tx -> check_money_overflow tx = true ->
  get_inputs_money_amount tx = sumZ (map input_money (tx_inputs tx))
  /\ get_outs_money_amount tx = outs_total (tx_outputs tx)
  /\ is_u64 (sumZ (map input_money (tx_inputs tx)))
  /\ is_u64 (outs_total (tx_outputs tx)).
Proof.
  intros Hwf H. apply check_money_overflow_iff in H; [| done].
  pose proof (sumZ_u64_nonneg _ (inputs_money_wf tx Hwf)) as Hi.
  pose proof (sumZ_u64_nonneg _ (outs_money_wf tx Hwf)) as Ho. rewrite <- outs_total_sum in Ho.
  rewrite get_outs_money_amount_u64, get_inputs_money_amount_u64, !u64_small by lia.
  unfold is_u64. repeat split; try done; lia.
Qed.

(** [check_money_overflow] accepts a transaction exactly when neither the sum
    of its input amounts nor the sum of its output amounts leaves 64 bits, and then
    the 64-bit totals [get_inputs_money_amount] and [get_outs_money_amount] are
    the true sums. *)
Theorem check_money_overflow_exact tx :
  tx_wf tx ->
  (check_money_overflow tx = true <->
   sumZ (map input_money (tx_inputs tx)) < 2 ^ 64 /\ outs_total (tx_outputs tx) < 2 ^ 64)
  /\ (check_money_overflow tx = true ->
      get_inputs_money_amount tx = sumZ (map input_money (tx_inputs tx))
      /\ get_outs_money_amount tx = outs_total (tx_outputs tx)).
Proof.
  intros Hwf. split; [by apply check_money_overflow_iff |].
  intros H. by destruct (check_money_overflow_exact_aux tx Hwf H) as (? & ? & _ & _).
Qed.

(** * What an accepted transaction satisfies *)

Lemma calculateInterest_zero c amount term height y :
  calculateInterest c amount term height = Ret y -> y = 0.
Proof.
  unfold calculateInterest. intros H. outcome_inv.
  destruct a. outcome_inv. destruct a0 as [[? ?] ?]. outcome_inv. destruct a1. outcome_inv. done.
Qed.

(** The value an input declares: its amount, plus the interest claimed by a
    commitment spend. *)
Definition input_declared (i : TransactionInput) : Z :=
  match i with
  | InCommitmentSpend s => cs_amount s + cs_claimedInterest s
  | _ => input_money i
  end.

Lemma getTransactionInputAmount_declared c i h a :
  input_wf i -> getTransactionInputAmount c i h = Ret a -> a = u64 (input_declared i).
Proof.
  destruct i; cbn [input_wf getTransactionInputAmount input_declared input_money];
    unfold is_u64; intros Hwf H.
  - injection H as <-. done.
  - injection H as <-. symmetry. apply u64_small. tauto.
  - destruct (mi_term i =? 0).
    + injection H as <-. symmetry. apply u64_small. tauto.
    + outcome_inv. apply calculateInterest_zero in Hc as ->. by rewrite Z.add_0_r.
  - injection H as <-. done.
  - injection H as <-. symmetry. apply u64_small. tauto.
  - discriminate.
Qed.

Lemma sum_inputs_declared c ins h m r :
  Forall input_wf ins -> sum_inputs c ins h (u64 m) = Ret r ->
  r = u64 (m + sumZ (map input_declared ins)).
Proof.
  intros Hwf. revert m. induction Hwf as [| i ins Hi _ IH]; intros m; cbn [sum_inputs].
  - intros [= <-]. cbn [map sumZ foldr]. by rewrite Z.add_0_r.
  - intros H. outcome_inv. apply getTransactionInputAmount_declared in Hc as ->; [| done].
    rewrite u64_add_idemp in H. rewrite u64_comm_add, u64_add_idemp in H. apply IH in H as ->.
    unfold sumZ. cbn [map foldr]. f_equal. lia.
Qed.

(** The key images of the key inputs, and the outputs the multisignature inputs spend. *)
Definition key_images (ins : list TransactionInput) : list bytes :=
  omap (fun i => match i with InKey k => Some (ki_keyImage k) | _ => None end) ins.

Definition multisignature_uses (ins : list TransactionInput) : list (Z * Z) :=
  omap (fun i => match i with
                 | InMultisignature m => Some (mi_amount m, mi_outputIndex m)
                 | _ => None end) ins.

Lemma multisignature_diff_loop_spec ins used :
  multisignature_diff_loop ins used = true ->
  NoDup (multisignature_uses ins) /\ Forall (fun u => u ∉ used) (multisignature_uses ins).
Proof.
  revert used. induction ins as [| i ins IH]; intros used;
    [intros _; split; constructor |].
  destruct i as [b | k | m | s | t | u]; try exact (IH used). cbn [multisignature_diff_loop].
  destruct (decide _) as [| Hnin]; [done |]. intros H. apply IH in H as [Hnd Hall]. clear IH.
  change (multisignature_uses (InMultisignature m :: ins))
    with ((mi_amount m, mi_outputIndex m) :: multisignature_uses ins).
  split; constructor; try done.
  - intros Hin. rewrite Forall_forall in Hall. apply Hall in Hin. set_solver.
  - eapply Forall_impl; [exact Hall |]. set_solver.
Qed.

(** A ring that [check_tx_inputs_keyimages_diff] accepts: not empty, no repeated member. *)
Definition ring_ok (i : TransactionInput) : Prop :=
  match i with
  | InKey k => exists first offsets,
      ki_outputIndexes k = first :: offsets /\ Forall (fun o => o <> 0) offsets
  | _ => True
  end.

Lemma keyimages_diff_loop_spec dom ins used :
  keyimages_diff_loop dom ins used = true ->
  NoDup (key_images ins) /\ Forall (fun k => k ∉ used) (key_images ins)
  /\ Forall (fun k => dom k = true) (key_images ins) /\ Forall ring_ok ins.
Proof.
  revert used. induction ins as [| i ins IH]; intros used; [intros _; repeat split; constructor |].
  destruct i as [b | k | m | s | t | u];
    try (intros H; apply IH in H as (? & ? & ? & ?); repeat split; try done; by constructor).
  cbn [keyimages_diff_loop]. destruct (decide _) as [| Hnin]; [done |].
  destruct (ki_outputIndexes k) as [| first offsets] eqn:Ek; [done |].
  destruct (dom (ki_keyImage k)) eqn:Ed; [| done]. cbn [negb].
  destruct (existsb (Z.eqb 0) offsets) eqn:Ez; [done |].
  intros H. apply IH in H as (Hnd & Hall & Hdom & Hring). clear IH.
  change (key_images (InKey k :: ins)) with (ki_keyImage k :: key_images ins).
  split; [| split; [| split]]; constructor; try done.
  - intros Hin. rewrite Forall_forall in Hall. apply Hall in Hin. set_solver.
  - eapply Forall_impl; [exact Hall |]. set_solver.
  - exists first, offsets. split; [done |]. apply Forall_forall. intros o Ho ->.
    enough (existsb (Z.eqb 0) offsets = true) by congruence.
    apply existsb_exists. exists 0. split; [by apply list_elem_of_In | done].
Qed.

(** C27: a well-formed transaction that [core::check_tx_semantic] accepts has
    inputs, spends in outputs no more than its inputs declare (as unbounded
    integers, claimed interest included), does not use the key image of a ring key input or a
    multisignature output twice, only uses such key images of the right domain, and the ring of every key input
    is non-empty with pairwise different members.  (Commitment inputs are not compared: [repeated_commitment_counts_twice].) *)
Theorem check_tx_semantic_sound c check_key dom tx height :
  tx_wf tx -> check_tx_semantic c check_key dom tx height = Ret true ->
  tx_inputs tx <> []
  /\ outs_total (tx_outputs tx) <= sumZ (map input_declared (tx_inputs tx))
  /\ NoDup (key_images (tx_inputs tx))
  /\ NoDup (multisignature_uses (tx_inputs tx))
  /\ Forall (fun k => dom k = true) (key_images (tx_inputs tx))
  /\ Forall ring_ok (tx_inputs tx).
Proof.
  intros Hwf. unfold check_tx_semantic.
  destruct (tx_inputs tx) as [| i0 ins0] eqn:Ei; [done |]. rewrite <- Ei in *.
  destruct (check_inputs_types_supported tx); [| done]. cbn [negb]. intros H. outcome_inv.
  destruct a as [ok msg]. destruct ok; [| done]. cbn [negb] in H.
  destruct (check_money_overflow tx) eqn:Eo; [| done]. cbn [negb] in H. outcome_inv.
  apply andb_true_iff in Eo as [_ Eo]. unfold check_outs_overflow in Eo.
  rewrite check_overflow_loop_exact in Eo by (by apply outs_money_wf || (unfold is_u64; lia)).
  apply Z.ltb_lt in Eo. rewrite Z.add_0_l, <- outs_total_sum in Eo.
  assert (Ho0 : 0 <= outs_total (tx_outputs tx))
    by (rewrite outs_total_sum; by apply sumZ_u64_nonneg, outs_money_wf).
  rewrite get_outs_money_amount_u64, u64_small in H by lia.
  change (getTransactionAllInputsAmount c tx height)
    with (sum_inputs c (tx_inputs tx) height (u64 0)) in Hc0.
  apply sum_inputs_declared in Hc0 as ->; [| apply tx_wf_inputs, Hwf]. rewrite Z.add_0_l in H.
  destruct (Z.ltb_spec (u64 (sumZ (map input_declared (tx_inputs tx)))) (outs_total (tx_outputs tx)))
    as [| Hle]; [done |].
  destruct (check_tx_inputs_keyimages_diff dom tx) eqn:Ek; [| done]. cbn [negb] in H.
  destruct (checkMultisignatureInputsDiff tx) eqn:Em; [| done].
  apply keyimages_diff_loop_spec in Ek as (Hnd & _ & Hdom & Hring).
  apply multisignature_diff_loop_spec in Em as [Hnm _].
  split; [by rewrite Ei |]. split; [| done].
  assert (0 <= sumZ (map input_declared (tx_inputs tx))).
  { apply sumZ_nonneg, Forall_map. eapply Forall_impl; [apply tx_wf_inputs, Hwf |].
    intros i Hi. destruct i; cbn in *; unfold is_u64 in *; lia. }
  unfold u64 in Hle.
  pose proof (Z.mod_le (sumZ (map input_declared (tx_inputs tx))) (2 ^ 64)). lia.
Qed.

(** A small transaction used by the witnesses: one ring input, two outputs. *)
Definition sample_tx : Transaction := {|
  tx_version := 1; tx_unlockTime := 0;
  tx_inputs := [InKey (mkKeyInput 1000000 [5; 2; 7] [1])];
  tx_outputs := [mkTransactionOutput 600000 (OutKey (mkKeyOutput [2]));
                 mkTransactionOutput 300000 (OutKey (mkKeyOutput [3]))];
  tx_extra := []; tx_signatures := [[]]
|}.

Lemma sample_tx_wf : tx_wf sample_tx.
Proof. constructor; cbn; repeat constructor; cbn; unfold is_u8, is_u64, is_u32; lia. Qed.

Lemma check_money_overflow_exact_witness :
  (check_money_overflow sample_tx = true <->
   sumZ (map input_money (tx_inputs sample_tx)) < 2 ^ 64 /\ outs_total (tx_outputs sample_tx) < 2 ^ 64)
  /\ (check_money_overflow sample_tx = true ->
      get_inputs_money_amount sample_tx = sumZ (map input_money (tx_inputs sample_tx))
      /\ get_outs_money_amount sample_tx = outs_total (tx_outputs sample_tx)).
Proof. apply (check_money_overflow_exact sample_tx). exact sample_tx_wf. Defined.

Lemma check_tx_semantic_sound_witness :
  tx_inputs sample_tx <> []
  /\ outs_total (tx_outputs sample_tx) <= sumZ (map input_declared (tx_inputs sample_tx))
  /\ NoDup (key_images (tx_inputs sample_tx))
  /\ NoDup (multisignature_uses (tx_inputs sample_tx))
  /\ Forall (fun k => (fun _ : bytes => true) k = true) (key_images (tx_inputs sample_tx))
  /\ Forall ring_ok (tx_inputs sample_tx).
Proof.
  apply (check_tx_semantic_sound mainnet (fun _ => true) (fun _ => true) sample_tx 1000).
  - exact sample_tx_wf.
  - vm_compute. reflexivity.
Defined.

(** When [core::check_tx_fee] accepts a transaction whose amounts do not
    overflow, the outputs do not exceed the inputs and either the difference
    reaches the minimum fee of the block version, or it is zero and the transaction is a
    fusion transaction; when it refuses for the fee alone it sets both flags, and it
    never fails otherwise. *)
Theorem check_tx_fee_sound c tx objectSize version :
  tx_wf tx -> check_money_overflow tx = true -> 0 <= m_defaultDustThreshold c ->
  exists ok failed small,
    check_tx_fee c tx objectSize version = Ret (ok, failed, small)
    /\ failed = negb ok
    /\ (ok = true ->
        let fee := sumZ (map input_money (tx_inputs tx)) - outs_total (tx_outputs tx) in
        minimumFee c version <= fee
        \/ fee = 0 /\ isFusionTransactionTx c tx objectSize = Ret true)
    /\ (small = true ->
        0 <= sumZ (map input_money (tx_inputs tx)) - outs_total (tx_outputs tx)
          < minimumFee c version).
Proof.
  intros Hwf Hov Hthr.
  destruct (check_money_overflow_exact_aux tx Hwf Hov) as (Hi & Ho & Hib & Hob).
  unfold is_u64 in Hib, Hob.
  unfold check_tx_fee. rewrite Hi, Ho.
  set (ins := sumZ (map input_money (tx_inputs tx))) in *.
  set (outs := outs_total (tx_outputs tx)) in *.
  destruct (Z.ltb_spec ins outs); [by exists false, true, false |].
  rewrite u64_small by lia.
  destruct (fusion_answer c (getInputsAmounts tx) (map out_amount (tx_outputs tx)) objectSize Hthr)
    as [b Hb].
  change (isFusionTransaction c (getInputsAmounts tx) (map out_amount (tx_outputs tx)) objectSize)
    with (isFusionTransactionTx c tx objectSize) in Hb.
  rewrite Hb.
  destruct (Z.eqb_spec (ins - outs) 0) as [E | E]; rewrite outcome_bind_ret.
  - destruct b; cbn [negb andb].
    + exists true, false, false. repeat split; try done. intros _. right. done.
    + destruct (Z.ltb_spec (ins - outs) (minimumFee c version)).
      * exists false, true, true. repeat split; try done; lia.
      * exists true, false, false. repeat split; try done. intros _. by left.
  - cbn [negb andb]. destruct (Z.ltb_spec (ins - outs) (minimumFee c version)).
    + exists false, true, true. repeat split; try done; lia.
    + exists true, false, false. repeat split; try done. intros _. by left.
Qed.

Lemma check_tx_fee_sound_witness :
  exists ok failed small,
    check_tx_fee mainnet sample_tx 300 BLOCK_MAJOR_VERSION_10 = Ret (ok, failed, small)
    /\ failed = negb ok
    /\ (ok = true ->
        let fee := sumZ (map input_money (tx_inputs sample_tx)) - outs_total (tx_outputs sample_tx) in
        minimumFee mainnet BLOCK_MAJOR_VERSION_10 <= fee
        \/ fee = 0 /\ isFusionTransactionTx mainnet sample_tx 300 = Ret true)
    /\ (small = true ->
        0 <= sumZ (map input_money (tx_inputs sample_tx)) - outs_total (tx_outputs sample_tx)
          < minimumFee mainnet BLOCK_MAJOR_VERSION_10).
Proof.
  apply (check_tx_fee_sound mainnet sample_tx 300 BLOCK_MAJOR_VERSION_10).
  - exact sample_tx_wf.
  - vm_compute. reflexivity.
  - vm_compute. discriminate.
Defined.

(** * Ring offsets *)

Lemma u32_sub_add x p : is_u32 x -> u32 (u32 (x - p) + p) = x.
Proof.
  intros Hx. unfold u32. rewrite Z.add_mod_idemp_l by lia.
  replace (x - p + p) with x by lia. by apply Z.mod_small.
Qed.

Lemma u32_add_sub x p : is_u32 x -> u32 (u32 (x + p) - p) = x.
Proof.
  intros Hx. unfold u32. rewrite Zminus_mod_idemp_l.
  replace (x + p - p) with x by lia. by apply Z.mod_small.
Qed.

Lemma to_absolute_relative prev l : Forall is_u32 l -> to_absolute prev (to_relative prev l) = l.
Proof.
  intros H. revert prev. induction H as [| x l Hx _ IH]; intros prev; [done |].
  cbn [to_relative to_absolute]. by rewrite u32_sub_add, IH.
Qed.

Lemma to_relative_absolute prev l : Forall is_u32 l -> to_relative prev (to_absolute prev l) = l.
Proof.
  intros H. revert prev. induction H as [| x l Hx _ IH]; intros prev; [done |].
  cbn [to_relative to_absolute]. by rewrite u32_add_sub, IH.
Qed.

Lemma to_absolute_sorted prev l :
  Forall is_u32 l -> 0 <= prev -> prev + sumZ l < 2 ^ 32 ->
  Sorted Z.le (prev :: to_absolute prev l)
  /\ (Forall (fun o => o <> 0) l -> StronglySorted Z.lt (prev :: to_absolute prev l)).
Proof.
  intros H. revert prev. induction H as [| x l Hx Hl IH]; intros prev Hp Hs; cbn [to_absolute].
  { split; intros; repeat constructor. }
  change (sumZ (x :: l)) with (x + sumZ l) in Hs.
  assert (0 <= sumZ l)
    by (apply sumZ_nonneg; eapply Forall_impl; [exact Hl | unfold is_u32; simpl; lia]).
  unfold is_u32 in Hx. rewrite u32_small by lia.
  destruct (IH (x + prev)) as [IH1 IH2]; [lia | lia |].
  split.
  - constructor; [done |]. constructor. lia.
  - intros Hnz. apply Forall_cons in Hnz as [Hnx Hnz]. specialize (IH2 Hnz).
    apply (StronglySorted_cons_le _ (x + prev)); [lia | | done].
    apply StronglySorted_inv in IH2 as [_ IH2]. constructor; [lia |].
    eapply Forall_impl; [exact IH2 |]. simpl. lia.
Qed.

Lemma sort_sorted_id l : Sorted Z.le l -> sort l = l.
Proof.
  intros H. unfold sort. apply (Sorted_unique Z.le); [apply Sorted_merge_sort; apply _ | done |].
  apply merge_sort_Permutation.
Qed.

(** Packing the ring members of an input and unpacking them gives the same
    members in increasing order, for every list of 32-bit indexes; unpacking
    offsets whose sum fits in 32 bits and packing them again gives the same
    offsets; and offsets that are non-zero after the first unpack to strictly
    increasing, hence distinct, indexes. *)
Theorem output_offsets_roundtrip off :
  Forall is_u32 off ->
  relative_output_offsets_to_absolute (absolute_output_offsets_to_relative off) = sort off
  /\ (sumZ off < 2 ^ 32 ->
      absolute_output_offsets_to_relative (relative_output_offsets_to_absolute off) = off
      /\ (Forall (fun o => o <> 0) (tail off) ->
          StronglySorted Z.lt (relative_output_offsets_to_absolute off))).
Proof.
  intros Hu. split.
  - assert (Hs : Forall is_u32 (sort off)).
    { unfold sort. by rewrite merge_sort_Permutation. }
    unfold absolute_output_offsets_to_relative. destruct (sort off) as [| x rest]; [done |].
    apply Forall_cons in Hs as [_ Hs]. cbn [relative_output_offsets_to_absolute].
    by rewrite to_absolute_relative.
  - intros Hsum. destruct off as [| x rest]; [split; [done | constructor] |].
    apply Forall_cons in Hu as [Hx Hu]. cbn [relative_output_offsets_to_absolute tail].
    change (sumZ (x :: rest)) with (x + sumZ rest) in Hsum. unfold is_u32 in Hx.
    destruct (to_absolute_sorted x rest Hu) as [H1 H2]; [lia | lia |]. split; [| done].
    unfold absolute_output_offsets_to_relative. rewrite sort_sorted_id by done.
    by rewrite to_relative_absolute.
Qed.

Lemma output_offsets_roundtrip_witness :
  relative_output_offsets_to_absolute (absolute_output_offsets_to_relative [5; 2; 7]) = sort [5; 2; 7]
  /\ (sumZ [5; 2; 7] < 2 ^ 32 ->
      absolute_output_offsets_to_relative (relative_output_offsets_to_absolute [5; 2; 7]) = [5; 2; 7]
      /\ (Forall (fun o => o <> 0) (tail [5; 2; 7]) ->
          StronglySorted Z.lt (relative_output_offsets_to_absolute [5; 2; 7]))).
Proof.
  apply (output_offsets_roundtrip [5; 2; 7]). repeat constructor; unfold is_u32; lia.
Defined.

(** * Interest of a certificate of deposit *)

(** The interest of [n] epochs from [e] on. *)
Fixpoint cd_interest_sum (amount : Z) (rates : list Z) (e : nat) (n : nat) : Z :=
  match n with
  | O => 0
  | S n => amount * nth e rates 0 / FEE_POOL_RATE_PRECISION + cd_interest_sum amount rates (S e) n
  end.

Lemma cd_interest_sum_range amount rates e n :
  0 <= amount -> Forall (fun r => 0 <= r <= FEE_POOL_RATE_PRECISION) rates ->
  0 <= cd_interest_sum amount rates e n <= Z.of_nat n * amount.
Proof.
  intros Ha Hr. revert e. induction n as [| n IH]; intros e; cbn [cd_interest_sum]; [lia |].
  assert (Hn : 0 <= nth e rates 0 <= FEE_POOL_RATE_PRECISION).
  { destruct (nth_in_or_default e rates 0) as [Hin | ->].
    - rewrite Forall_forall in Hr. apply Hr. by apply list_elem_of_In.
    - unfold FEE_POOL_RATE_PRECISION. lia. }
  specialize (IH (S e)). unfold FEE_POOL_RATE_PRECISION in *.
  assert (0 <= amount * nth e rates 0 / 1000000 <= amount).
  { split; [apply Z.div_pos; nia | apply Z.div_le_upper_bound; nia]. }
  lia.
Qed.

Lemma cd_interest_loop_sum fuel amount e last rates acc :
  0 <= amount <= 8 * 10 ^ 9 -> Forall (fun r => 0 <= r <= FEE_POOL_RATE_PRECISION) rates ->
  Z.of_nat (length rates) < 2 ^ 30 -> (length rates - e <= fuel)%nat ->
  0 <= acc -> acc + Z.of_nat (length rates - e) * amount < 2 ^ 64 -> 
  let n := Nat.min (S last - e) (length rates - e) in
  cd_interest_loop fuel amount (Z.of_nat e) (Z.of_nat last) rates acc
  = Ret (acc + cd_interest_sum amount rates e n).
Proof.
  intros Ha Hr Hlen. revert e acc. induction fuel as [| fuel IH]; intros e acc Hf Hacc Hb n;
    cbn [cd_interest_loop]; unfold getEpochCount.
  - destruct (Z.ltb_spec (Z.of_nat e) (Z.of_nat (length rates))); [lia |].
    rewrite andb_false_r. replace n with 0%nat by lia. cbn [cd_interest_sum]. f_equal. lia.
  - destruct (Z.leb_spec (Z.of_nat e) (Z.of_nat last)); cbn [andb];
      [destruct (Z.ltb_spec (Z.of_nat e) (Z.of_nat (length rates))) |];
      try (replace n with 0%nat by lia; cbn [cd_interest_sum]; f_equal; lia).
    unfold getEpochFeeRate, getEpochCount.
    destruct (Z.leb_spec (Z.of_nat (length rates)) (Z.of_nat e)); [lia |].
    destruct (nth_lookup_or_length rates e 0) as [Hnth | Hbad]; [| lia].
    rewrite (vec_at_lookup rates (Z.of_nat e) (nth e rates 0)), outcome_bind_ret
      by (rewrite ?Nat2Z.id; done || lia).
    pose proof (cd_interest_sum_range amount rates e 1 ltac:(lia) Hr) as Hstep.
    cbn [cd_interest_sum] in Hstep.
    assert (Hrate : 0 <= nth e rates 0 <= FEE_POOL_RATE_PRECISION)
      by (rewrite Forall_forall in Hr; apply Hr; eapply list_elem_of_lookup_2; exact Hnth).
    unfold FEE_POOL_RATE_PRECISION in *.
    rewrite (u64_small (amount * nth e rates 0)) by nia.
    replace (length rates - e)%nat with (S (length rates - S e)) in Hb by lia.
    rewrite Nat2Z.inj_succ in Hb.
    rewrite (u64_small (acc + _)) by nia. rewrite (u64_small (Z.of_nat e + 1)) by lia.
    replace (Z.of_nat e + 1) with (Z.of_nat (S e)) by lia.
    rewrite IH by (lia || nia). subst n.
    replace (Nat.min (S last - e) (length rates - e))
      with (S (Nat.min (S last - S e) (length rates - S e))) by lia.
    cbn [cd_interest_sum]. unfold FEE_POOL_RATE_PRECISION. f_equal. lia.
Qed.

Definition epochDuration (c : Currency) : Z :=
  if m_testnet c then TESTNET_EPOCH_DURATION_BLOCKS else EPOCH_DURATION_BLOCKS.

(** For a deposit of at most the largest tier and fee rates of at most 100%,
    [calculateCdInterest] returns without wrap-around exactly the sum of
    [amount * rate / FEE_POOL_RATE_PRECISION] over the recorded epochs from that of the
    creation to that of the current height, and never more than the amount per epoch. *)
Theorem calculateCdInterest_exact c amount creationHeight currentHeight rates :
  0 <= amount <= 8 * 10 ^ 9 -> Forall (fun r => 0 <= r <= FEE_POOL_RATE_PRECISION) rates ->
  Z.of_nat (length rates) < 2 ^ 30 -> is_u32 creationHeight -> creationHeight < currentHeight ->
  let start := Z.to_nat (creationHeight / epochDuration c) in
  let end_ := Z.to_nat (currentHeight / epochDuration c) in
  let n := Nat.min (S end_ - start) (length rates - start) in
  calculateCdInterest c amount creationHeight currentHeight rates
    = Ret (cd_interest_sum amount rates start n)
  /\ 0 <= cd_interest_sum amount rates start n <= Z.of_nat n * amount.
Proof.
  intros Ha Hr Hl Hc Hlt start end_ n. split; [| by apply cd_interest_sum_range; [lia |]].
  unfold calculateCdInterest. destruct (Z.leb_spec currentHeight creationHeight); [lia |].
  fold (epochDuration c). unfold is_u32 in Hc.
  assert (Hd : 0 < epochDuration c) by (unfold epochDuration; by destruct (m_testnet c)).
  rewrite <- (Z2Nat.id (creationHeight / epochDuration c)) by (apply Z.div_pos; lia).
  rewrite <- (Z2Nat.id (currentHeight / epochDuration c)) by (apply Z.div_pos; lia).
  rewrite cd_interest_loop_sum by (done || lia || nia). done.
Qed.

Lemma calculateCdInterest_exact_witness :
  let start := Z.to_nat (950 / epochDuration mainnet) in
  let end_ := Z.to_nat (2000 / epochDuration mainnet) in
  let n := Nat.min (S end_ - start) (length [0; 12; 40; 7] - start) in
  calculateCdInterest mainnet 80000000 950 2000 [0; 12; 40; 7]
    = Ret (cd_interest_sum 80000000 [0; 12; 40; 7] start n)
  /\ 0 <= cd_interest_sum 80000000 [0; 12; 40; 7] start n <= Z.of_nat n * 80000000.
Proof.
  apply (calculateCdInterest_exact mainnet 80000000 950 2000 [0; 12; 40; 7]);
    [lia | repeat constructor; unfold FEE_POOL_RATE_PRECISION; lia | cbn; lia
    | unfold is_u32; lia | lia].
Defined.

(** * The unchecked error pointer *)

(** [check_outs_valid] called without an error string, as
    [Blockchain::prevalidate_miner_transaction] calls it, dereferences the null
    pointer as soon as it reaches a multisignature output of a transaction whose
    version is below 2; with an error string every transaction gets an answer. *)
Theorem check_outs_valid_null_error check_key tx pre m amount post :
  tx_outputs tx = pre ++ mkTransactionOutput amount (OutMultisignature m) :: post ->
  tx_version tx < TRANSACTION_VERSION_2 ->
  check_outs_loop check_key (tx_version tx) false pre = Ret (true, ""%string) ->
  check_outs_valid check_key tx false = Undefined
  /\ exists answer, check_outs_valid check_key tx true = Ret answer.
Proof.
  intros Houts Hv Hpre. unfold check_outs_valid. rewrite Houts. split.
  - revert Hpre. clear Houts. induction pre as [| o pre IH]; cbn [app check_outs_loop].
    + intros _. unfold check_out_valid. cbn [out_target].
      destruct (Z.ltb_spec (tx_version tx) TRANSACTION_VERSION_2); [done | lia].
    + intros H. outcome_inv. rewrite Hc, outcome_bind_ret. destruct a as [[|] msg]; [| done].
      by apply IH.
  - generalize (pre ++ mkTransactionOutput amount (OutMultisignature m) :: post). intros outs.
    induction outs as [| o outs [r IH]]; cbn [check_outs_loop]; [by eexists |].
    assert (exists b msg, check_out_valid check_key (tx_version tx) true o = Ret (b, msg))
      as (b & msg & ->).
    { unfold check_out_valid. destruct (out_target o); repeat case_match; eauto. }
    rewrite outcome_bind_ret. destruct b; [by exists r | by eexists].
Qed.

Definition coinbase_v1_multisig : Transaction := {|
  tx_version := 1; tx_unlockTime := 70; tx_inputs := [InBase (mkBaseInput 10)];
  tx_outputs := [mkTransactionOutput 5 (OutMultisignature (mkMultisignatureOutput [] 0 0))];
  tx_extra := []; tx_signatures := []
|}.

Lemma check_outs_valid_null_error_witness :
  check_outs_valid (fun _ => true) coinbase_v1_multisig false = Undefined
  /\ exists answer, check_outs_valid (fun _ => true) coinbase_v1_multisig true = Ret answer.
Proof.
  apply (check_outs_valid_null_error (fun _ => true) coinbase_v1_multisig []
           (mkMultisignatureOutput [] 0 0) 5 []); reflexivity.
Defined.
