(* ===== verification/Varint.v ===== *)
(** Variable-length integers: the stream functions of
    [src/src/Common/StreamTools.cpp] and the iterator functions of
    [src/src/Common/Varint.h].  A stream is the list of bytes still to be read;
    the width [w] is the number of bits of the C++ type. *)

From S2P Require Import Prelude IntUtil.

(** * The code *)

(** [writeVarint]: [while (value >= 0x80) { write(value | 0x80); value >>= 7; } write(value)].
    A 64-bit value takes at most ten bytes. *)
Fixpoint write_loop (fuel : nat) (value : Z) : bytes :=
  match fuel with
  | O => [u8 value]
  | S fuel =>
      if 0x80 <=? value then u8 (Z.lor value 0x80) :: write_loop fuel (Z.shiftr value 7)
      else [u8 value]
  end.

Definition writeVarint (value : Z) : bytes := write_loop 9 value.

(** [write_varint] of [Varint.h]: the byte is [(char(i) & 0x7f) | 0x80]. *)
Fixpoint write_varint_loop (fuel : nat) (i : Z) : bytes :=
  match fuel with
  | O => [u8 i]
  | S fuel =>
      if 0x80 <=? i then Z.lor (Z.land (u8 i) 0x7f) 0x80 :: write_varint_loop fuel (Z.shiftr i 7)
      else [u8 i]
  end.

Definition write_varint (i : Z) : bytes := write_varint_loop 9 i.

(** [readVarint]: the value and the rest of the stream. *)
Fixpoint read_loop (fuel : nat) (w shift temp : Z) (inp : bytes) : outcome (Z * bytes) :=
  match fuel with
  | O => Undefined
  | S fuel =>
      match inp with
      | [] => Throw "Failed to read from IInputStream"
      | piece :: inp =>
          if (w - 7 <=? shift) && (Z.shiftl 1 (w - shift) <=? piece)
          then Throw "readVarint, value overflow"
          else
            let temp := Z.lor temp (Z.shiftl (Z.land piece 0x7f) shift) in
            if Z.land piece 0x80 =? 0 then
              if (piece =? 0) && negb (shift =? 0)
              then Throw "readVarint, invalid value representation"
              else Ret (temp, inp)
            else read_loop fuel w (shift + 7) temp inp
      end
  end.

Definition readVarint (w : Z) (inp : bytes) : outcome (Z * bytes) := read_loop 10 w 0 0 inp.

(** [Tools::read_varint]: the returned count (or [-1], [-2]) and the value of [i]. *)
Fixpoint read_varint_loop (fuel : nat) (bits shift read i : Z) (inp : bytes) : outcome (Z * Z) :=
  match fuel with
  | O => Undefined
  | S fuel =>
      match inp with
      | [] => Ret (read, i)
      | byte :: inp =>
          let read := read + 1 in
          if (bits <=? shift + 7) && (Z.shiftl 1 (bits - shift) <=? byte) then Ret (-1, i)
          else if (byte =? 0) && negb (shift =? 0) then Ret (-2, i)
          else
            let i := Z.lor i (Z.shiftl (Z.land byte 0x7f) shift) in
            if Z.land byte 0x80 =? 0 then Ret (read, i)
            else read_varint_loop fuel bits (shift + 7) read i inp
      end
  end.

Definition read_varint (inp : bytes) : outcome (Z * Z) := read_varint_loop 11 64 0 0 0 inp.

(** * Bytes of the encoding *)

Lemma land_7f x : Z.land x 0x7f = x mod 128.
Proof. change 0x7f with (Z.ones 7). rewrite Z.land_ones by lia. done. Qed.

Lemma lor_80 x : 0 <= x < 128 -> Z.lor x 0x80 = 128 + x.
Proof.
  intros Hx. rewrite Z.lor_comm. change 0x80 with (Z.shiftl 1 7).
  rewrite lor_shiftl_add; [done | lia | exact Hx].
Qed.

Lemma mod_256_128 v : (v mod 2 ^ 8) mod 128 = v mod 128.
Proof. apply Z.mod_mod_divide. by exists 2. Qed.

Lemma u8_lor_80 v : u8 (Z.lor v 0x80) = 128 + v mod 128.
Proof.
  unfold u8. rewrite <- Z.land_ones by lia. rewrite Z.land_lor_distr_l.
  change (Z.land 0x80 (Z.ones 8)) with 128.
  rewrite Z.land_ones by lia.
  assert (H : forall x, 0 <= x < 2 ^ 8 -> Z.lor x 128 = 128 + x mod 128).
  { intros x Hx. pose proof (Z.div_mod x 128 ltac:(lia)) as Hdm.
    pose proof (Z.mod_pos_bound x 128 ltac:(lia)) as Hm.
    assert (Hq : x / 128 = 0 \/ x / 128 = 1) by lia.
    replace (Z.lor x 128) with (Z.lor (Z.shiftl 1 7) (x mod 128)).
    - rewrite lor_shiftl_add by lia. lia.
    - destruct Hq as [Hq | Hq].
      + replace (x mod 128) with x by lia. change (Z.shiftl 1 7) with 128. apply Z.lor_comm.
      + rewrite Hdm at 2. rewrite Hq.
        replace (128 * 1 + x mod 128) with (1 * 2 ^ 7 + x mod 128) by lia.
        rewrite <- lor_shiftl_add by lia. change (Z.shiftl 1 7) with 128.
        rewrite (Z.lor_comm 128), <- Z.lor_assoc. done. }
  rewrite H by (apply Z.mod_pos_bound; lia).
  f_equal. apply mod_256_128.
Qed.

Lemma land_80_small p : 0 <= p < 128 -> Z.land p 0x80 = 0.
Proof.
  intros Hp. apply Z.bits_inj'. intros k Hk. rewrite Z.land_spec, Z.bits_0.
  change 0x80 with (2 ^ 7). rewrite Z.pow2_bits_eqb by lia.
  destruct (Z.eqb_spec 7 k) as [<- |]; [| apply andb_false_r].
  rewrite andb_true_r, Z.testbit_false by lia. rewrite Z.div_small by lia. done.
Qed.

Lemma land_80_big p : 128 <= p < 256 -> Z.land p 0x80 = 128.
Proof.
  intros Hp. replace p with (Z.lor (Z.shiftl 1 7) (p mod 128)).
  - rewrite Z.land_lor_distr_l, (land_80_small (p mod 128)) by (apply Z.mod_pos_bound; lia). done.
  - pose proof (Z.div_mod p 128 ltac:(lia)). pose proof (Z.mod_pos_bound p 128 ltac:(lia)).
    rewrite lor_shiftl_add by lia. lia.
Qed.

(** Adding seven bits above [shift]. *)
Lemma lor_piece temp x shift :
  0 <= shift -> 0 <= temp < 2 ^ shift -> Z.lor temp (Z.shiftl x shift) = temp + x * 2 ^ shift.
Proof. intros Hs Ht. rewrite Z.lor_comm, lor_shiftl_add by done. lia. Qed.

(** The two writers agree. *)
Lemma write_varint_loop_eq fuel v : write_varint_loop fuel v = write_loop fuel v.
Proof.
  revert v. induction fuel as [| fuel IH]; intros v; cbn [write_varint_loop write_loop]; [done |].
  destruct (0x80 <=? v); [| done]. rewrite IH. f_equal.
  rewrite u8_lor_80, land_7f. unfold u8.
  rewrite mod_256_128.
  apply lor_80, Z.mod_pos_bound. lia.
Qed.

(** One unfolding of the writer, for a value that fits. *)
Lemma write_loop_step fuel v :
  0 <= v < 128 * 128 ^ Z.of_nat fuel ->
  write_loop fuel v = if v <? 128 then [v]
                      else (128 + v mod 128) :: write_loop (fuel - 1) (v / 128).
Proof.
  intros Hv. destruct fuel as [| fuel]; cbn [write_loop].
  - change (128 ^ Z.of_nat 0) with 1 in Hv. destruct (Z.ltb_spec v 128); [| lia].
    by rewrite u8_small by lia.
  - destruct (Z.leb_spec 0x80 v); destruct (Z.ltb_spec v 128); try lia.
    + rewrite u8_lor_80, Z.shiftr_div_pow2, Nat.sub_succ, Nat.sub_0_r by lia. done.
    + by rewrite u8_small by lia.
Qed.

(** The number of bytes written only depends on the value. *)
Lemma write_loop_fuel f1 f2 v :
  0 <= v < 128 * 128 ^ Z.of_nat f1 -> v < 128 * 128 ^ Z.of_nat f2 ->
  write_loop f1 v = write_loop f2 v.
Proof.
  revert f2 v. induction f1 as [| f1 IH]; intros f2 v H1 H2;
    rewrite (write_loop_step f2) by lia; rewrite write_loop_step by lia;
    destruct (Z.ltb_spec v 128); try done.
  - change (128 ^ Z.of_nat 0) with 1 in H1. lia.
  - destruct f2 as [| f2]; [change (128 ^ Z.of_nat 0) with 1 in H2; lia |].
    rewrite !Nat.sub_succ, !Nat.sub_0_r. f_equal.
    rewrite Nat2Z.inj_succ, Z.pow_succ_r in H1, H2 by lia.
    apply IH; [split; [apply Z.div_pos; lia |] |]; apply Z.div_lt_upper_bound; lia.
Qed.

(** * Reading back *)

Section RoundTrip.
Context (w : Z) (Hw : 8 <= w <= 64).

Lemma pow2_le_128 n : 0 <= n <= 7 -> 2 ^ n <= 128.
Proof. intros H. change 128 with (2 ^ 7). apply Z.pow_le_mono_r; lia. Qed.

(** What [read_loop] does with a terminal byte and with a continuation byte. *)
Lemma read_loop_last fuel shift temp p inp :
  0 <= shift < w -> 0 <= temp < 2 ^ shift -> 0 <= p < 128 -> p < 2 ^ (w - shift) ->
  (shift <> 0 -> p <> 0) ->
  read_loop (S fuel) w shift temp (p :: inp) = Ret (temp + p * 2 ^ shift, inp).
Proof.
  intros Hs Ht Hp Hpw Hnz. cbn [read_loop].
  rewrite Z.shiftl_1_l. destruct (Z.leb_spec (2 ^ (w - shift)) p); [lia |].
  rewrite andb_false_r, land_7f, (Z.mod_small p), land_80_small, lor_piece by lia.
  destruct (Z.eqb_spec 0 0); [| done].
  destruct (Z.eqb_spec p 0); [| done]. destruct (Z.eqb_spec shift 0); [done |]. tauto.
Qed.

Lemma read_loop_more fuel shift temp x inp :
  0 <= shift -> shift < w - 7 -> 0 <= temp < 2 ^ shift -> 0 <= x < 128 ->
  read_loop (S fuel) w shift temp ((128 + x) :: inp)
  = read_loop fuel w (shift + 7) (temp + x * 2 ^ shift) inp.
Proof.
  intros Hs Hsw Ht Hx. cbn [read_loop].
  destruct (Z.leb_spec (w - 7) shift); [lia |]. cbn [andb].
  rewrite land_80_big, land_7f by lia.
  replace ((128 + x) mod 128) with x.
  2: { replace (128 + x) with (x + 1 * 128) by lia. rewrite Z.mod_add, Z.mod_small; lia. }
  by rewrite lor_piece by lia.
Qed.

Lemma temp_bound temp x shift :
  0 <= shift -> 0 <= temp < 2 ^ shift -> 0 <= x < 128 -> 0 <= temp + x * 2 ^ shift < 2 ^ (shift + 7).
Proof. intros Hs Ht Hx. rewrite Z.pow_add_r by lia. change (2 ^ 7) with 128. nia. Qed.

Lemma read_write_loop fuel wfuel shift temp v rest :
  0 <= shift < w -> 0 <= temp < 2 ^ shift -> 0 <= v < 2 ^ (w - shift) ->
  (shift <> 0 -> v <> 0) -> w - shift <= 7 * Z.of_nat fuel -> v < 128 * 128 ^ Z.of_nat wfuel ->
  read_loop fuel w shift temp (write_loop wfuel v ++ rest) = Ret (temp + v * 2 ^ shift, rest).
Proof.
  revert wfuel shift temp v. induction fuel as [| fuel IH];
    intros wfuel shift temp v Hs Ht Hv Hnz Hf Hwf; [lia |].
  rewrite write_loop_step by lia. destruct (Z.ltb_spec v 128).
  - cbn [app]. by apply read_loop_last; lia || done.
  - assert (Hsh : shift < w - 7).
    { destruct (Z.lt_ge_cases shift (w - 7)); [done |].
      pose proof (pow2_le_128 (w - shift) ltac:(lia)). lia. }
    cbn [app]. pose proof (Z.mod_pos_bound v 128 ltac:(lia)) as Hm.
    pose proof (Z.div_mod v 128 ltac:(lia)) as Hdm.
    rewrite read_loop_more by lia.
    replace (w - shift) with (7 + (w - (shift + 7))) in Hv by lia.
    rewrite (Z.pow_add_r 2 7) in Hv by lia. change (2 ^ 7) with 128 in Hv.
    destruct wfuel as [| wfuel]; [change (128 ^ Z.of_nat 0) with 1 in Hwf; lia |].
    rewrite Nat.sub_succ, Nat.sub_0_r. rewrite Nat2Z.inj_succ, Z.pow_succ_r in Hwf by lia.
    rewrite IH.
    + rewrite Z.pow_add_r by lia. change (2 ^ 7) with 128. do 2 f_equal. nia.
    + lia.
    + apply temp_bound; lia.
    + split; [apply Z.div_pos; lia | apply Z.div_lt_upper_bound; lia].
    + intros _. apply Z.neq_sym, Z.lt_neq, Z.div_str_pos. lia.
    + lia.
    + apply Z.div_lt_upper_bound; lia.
Qed.

(** An accepted string is the encoding of the value read. *)
Lemma read_loop_canonical fuel shift temp inp v rest :
  0 <= shift < w -> 0 <= temp < 2 ^ shift -> Forall is_byte inp ->
  read_loop fuel w shift temp inp = Ret (v, rest) ->
  exists v', v = temp + v' * 2 ^ shift /\ 0 <= v' < 2 ^ (w - shift) /\ (shift <> 0 -> v' <> 0)
    /\ forall wfuel, v' < 128 * 128 ^ Z.of_nat wfuel -> inp = write_loop wfuel v' ++ rest.
Proof.
  revert shift temp inp. induction fuel as [| fuel IH]; intros shift temp inp Hs Ht Hin; [done |].
  destruct inp as [| p inp]; [done |]. apply Forall_cons in Hin as [Hp Hin]. unfold is_byte in Hp.
  cbn [read_loop]. rewrite Z.shiftl_1_l.
  destruct ((w - 7 <=? shift) && (2 ^ (w - shift) <=? p)) eqn:Eov; [done |].
  assert (Hpw : w - 7 <= shift -> p < 2 ^ (w - shift)).
  { intros H. apply andb_false_iff in Eov as [E | E]; [apply Z.leb_gt in E | apply Z.leb_gt in E]; lia. }
  destruct (Z.lt_ge_cases p 128) as [Hlt | Hge].
  - rewrite land_80_small, land_7f, Z.mod_small, lor_piece by lia. rewrite Z.eqb_refl.
    destruct (Z.eqb_spec p 0); cbn [andb].
    + destruct (Z.eqb_spec shift 0); [cbn [negb] | done]. intros [= <- <-].
      exists 0. subst. split; [lia |]. split; [split; [lia | apply Z.pow_pos_nonneg; lia] |].
      split; [done |]. intros wf Hwf. rewrite write_loop_step by lia. done.
    + intros [= <- <-]. exists p. split; [done |]. split.
      { destruct (Z.lt_ge_cases shift (w - 7)); [| lia].
        assert (2 ^ 7 <= 2 ^ (w - shift)) by (apply Z.pow_le_mono_r; lia). lia. }
      split; [done |]. intros wf Hwf. rewrite write_loop_step by lia.
      destruct (Z.ltb_spec p 128); [done | lia].
  - assert (Hsh : shift < w - 7).
    { destruct (Z.lt_ge_cases shift (w - 7)) as [| H]; [done |].
      pose proof (pow2_le_128 (w - shift) ltac:(lia)). specialize (Hpw H). lia. }
    rewrite land_80_big, land_7f, lor_piece by lia.
    assert (Hx : p mod 128 = p - 128).
    { replace p with (p - 128 + 1 * 128) at 1 by lia. rewrite Z.mod_add, Z.mod_small; lia. }
    rewrite Hx. cbn [Z.eqb]. intros H. apply IH in H as (v1 & -> & Hv1 & Hnz & Hw1).
    + exists (p - 128 + 128 * v1). rewrite Z.pow_add_r by lia. change (2 ^ 7) with 128.
      split; [lia |].
      replace (w - shift) with (7 + (w - (shift + 7))) by lia.
      rewrite (Z.pow_add_r 2 7) by lia. change (2 ^ 7) with 128.
      assert (v1 <> 0) by (apply Hnz; lia). split; [lia |]. split; [lia |].
      intros wf Hwf. rewrite write_loop_step by lia.
      destruct (Z.ltb_spec (p - 128 + 128 * v1) 128); [lia |].
      destruct wf as [| wf]; [change (128 ^ Z.of_nat 0) with 1 in Hwf; lia |].
      rewrite Nat.sub_succ, Nat.sub_0_r. rewrite Nat2Z.inj_succ, Z.pow_succ_r in Hwf by lia.
      replace (p - 128 + 128 * v1) with (p - 128 + v1 * 128) by lia.
      rewrite Z.mod_add, Z.div_add, Z.mod_small, Z.div_small, Z.add_0_l by lia.
      cbn [app]. rewrite <- (Hw1 wf) by lia. f_equal. lia.
    + lia.
    + apply temp_bound; lia.
    + done.
Qed.

End RoundTrip.

Lemma varint_fuel w v : 8 <= w <= 64 -> 0 <= v < 2 ^ w -> v < 128 * 128 ^ Z.of_nat 9.
Proof.
  intros Hw Hv. assert (2 ^ w <= 2 ^ 64) by (apply Z.pow_le_mono_r; lia).
  change (128 * 128 ^ Z.of_nat 9) with (2 ^ 70). lia.
Qed.

(** For every width of 8 to 64 bits, [readVarint] reads back the value that
    [writeVarint] wrote and leaves the rest of the stream, and conversely every
    byte string it accepts starts with exactly the encoding of the value returned,
    which fits the width: each value has one encoding, and no other string is
    accepted. *)
Theorem varint_roundtrip w :
  8 <= w <= 64 ->
  (forall v rest, 0 <= v < 2 ^ w -> readVarint w (writeVarint v ++ rest) = Ret (v, rest))
  /\ (forall inp v rest, Forall is_byte inp -> readVarint w inp = Ret (v, rest) ->
      0 <= v < 2 ^ w /\ inp = writeVarint v ++ rest).
Proof.
  intros Hw. split.
  - intros v rest Hv. unfold readVarint, writeVarint.
    rewrite (read_write_loop w Hw) by (rewrite ?Z.sub_0_r; try (by eapply varint_fuel); lia).
    do 2 f_equal. lia.
  - intros inp v rest Hb H. unfold readVarint in H.
    apply (read_loop_canonical w Hw) in H as (v' & -> & Hv' & _ & Henc); [| lia | lia | done].
    rewrite Z.sub_0_r in Hv'. replace (0 + v' * 2 ^ 0) with v' by lia.
    split; [done |]. apply Henc. by eapply varint_fuel.
Qed.

Lemma varint_roundtrip_witness :
  (forall v rest, 0 <= v < 2 ^ 64 -> readVarint 64 (writeVarint v ++ rest) = Ret (v, rest))
  /\ (forall inp v rest, Forall is_byte inp -> readVarint 64 inp = Ret (v, rest) ->
      0 <= v < 2 ^ 64 /\ inp = writeVarint v ++ rest).
Proof. apply (varint_roundtrip 64). lia. Defined.

(** ** The iterator version *)

Lemma length_write_loop_pos fuel v : (0 < length (write_loop fuel v))%nat.
Proof. destruct fuel; cbn [write_loop]; [| destruct (_ <=? v)]; cbn; lia. Qed.

Lemma read_varint_write_loop fuel wfuel shift read i v rest :
  0 <= shift < 64 -> 0 <= i < 2 ^ shift -> 0 <= v < 2 ^ (64 - shift) ->
  (shift <> 0 -> v <> 0) -> 64 - shift <= 7 * Z.of_nat fuel -> v < 128 * 128 ^ Z.of_nat wfuel ->
  read_varint_loop fuel 64 shift read i (write_loop wfuel v ++ rest)
  = Ret (read + Z.of_nat (length (write_loop wfuel v)), i + v * 2 ^ shift).
Proof.
  revert wfuel shift read i v. induction fuel as [| fuel IH];
    intros wfuel shift read i v Hs Ht Hv Hnz Hf Hwf; [lia |].
  rewrite write_loop_step by lia. destruct (Z.ltb_spec v 128).
  - cbn [app read_varint_loop length]. rewrite Z.shiftl_1_l.
    destruct (Z.leb_spec (2 ^ (64 - shift)) v); [lia |]. rewrite andb_false_r.
    replace ((v =? 0) && negb (shift =? 0)) with false
      by (destruct (Z.eqb_spec v 0); destruct (Z.eqb_spec shift 0); try done; tauto).
    rewrite land_7f, (Z.mod_small v), land_80_small, lor_piece by lia. done.
  - assert (Hsh : shift < 57).
    { destruct (Z.lt_ge_cases shift 57); [done |].
      pose proof (pow2_le_128 (64 - shift) ltac:(lia)). lia. }
    pose proof (Z.mod_pos_bound v 128 ltac:(lia)) as Hm.
    pose proof (Z.div_mod v 128 ltac:(lia)) as Hdm.
    cbn [app read_varint_loop length].
    destruct (Z.leb_spec 64 (shift + 7)); [lia |]. cbn [andb].
    destruct (Z.eqb_spec (128 + v mod 128) 0); [lia |]. cbn [andb].
    rewrite land_80_big, land_7f by lia.
    replace ((128 + v mod 128) mod 128) with (v mod 128)
      by (replace (128 + v mod 128) with (v mod 128 + 1 * 128) by lia; rewrite Z.mod_add, Z.mod_mod; lia).
    rewrite lor_piece by lia. cbn [Z.eqb].
    replace (64 - shift) with (7 + (64 - (shift + 7))) in Hv by lia.
    rewrite (Z.pow_add_r 2 7) in Hv by lia. change (2 ^ 7) with 128 in Hv.
    destruct wfuel as [| wfuel]; [change (128 ^ Z.of_nat 0) with 1 in Hwf; lia |].
    rewrite Nat.sub_succ, Nat.sub_0_r. rewrite Nat2Z.inj_succ, Z.pow_succ_r in Hwf by lia.
    rewrite IH.
    + rewrite Z.pow_add_r by lia. change (2 ^ 7) with 128. f_equal. f_equal; [lia | nia].
    + lia.
    + apply temp_bound; lia.
    + split; [apply Z.div_pos; lia | apply Z.div_lt_upper_bound; lia].
    + intros _. apply Z.neq_sym, Z.lt_neq, Z.div_str_pos. lia.
    + lia.
    + apply Z.div_lt_upper_bound; lia.
Qed.

Lemma read_write_varint v rest :
  is_u64 v ->
  read_varint (write_varint v ++ rest) = Ret (Z.of_nat (length (write_varint v)), v).
Proof.
  unfold is_u64. intros Hv. unfold read_varint, write_varint. rewrite write_varint_loop_eq.
  rewrite read_varint_write_loop
    by (rewrite ?Z.sub_0_r; try (by apply (varint_fuel 64)); lia).
  do 2 f_equal. lia.
Qed.

Lemma write_loop_bytes fuel v : 0 <= v -> Forall is_byte (write_loop fuel v).
Proof.
  revert v. induction fuel as [| fuel IH]; intros v Hv; cbn [write_loop].
  - repeat constructor; apply u8_range.
  - destruct (_ <=? v); constructor; try apply u8_range; [| constructor].
    apply IH, Z.shiftr_nonneg. lia.
Qed.
