(* ===== verification/TransactionExtra.v ===== *)
(** The extra field of a transaction: [parseTransactionExtra], [writeTransactionExtra] and the
    functions they call, from [src/src/CryptoNoteCore/TransactionExtra.cpp], with the parts of
    [BinaryInputStreamSerializer] and [BinaryOutputStreamSerializer] they use.  A stream is the list
    of bytes still to be read; a failed read throws. *)

From S2P Require Import Prelude IntUtil Hex Varint.

(** * Data *)

Definition TX_EXTRA_PADDING_MAX_COUNT : Z := 255.
Definition TX_EXTRA_NONCE_MAX_COUNT : Z := 255.
Definition TX_EXTRA_TAG_PADDING : Z := 0x00.
Definition TX_EXTRA_TAG_PUBKEY : Z := 0x01.
Definition TX_EXTRA_NONCE : Z := 0x02.
Definition TX_EXTRA_MERGE_MINING_TAG : Z := 0x03.
Definition TX_EXTRA_MESSAGE_TAG : Z := 0x04.
Definition TX_EXTRA_TTL : Z := 0x05.
Definition TX_EXTRA_YIELD_COMMITMENT : Z := 0x07.
Definition TX_EXTRA_HEAT_COMMITMENT : Z := 0x08.
Definition TX_EXTRA_BURN_RECEIPT : Z := 0x18.
Definition TX_EXTRA_COLD_RECEIPT : Z := 0x69.
Definition TX_EXTRA_COLD_COMMITMENT : Z := 0xCD.
Definition TX_EXTRA_COLD_MIGRATION : Z := 0xCE.
Definition TX_EXTRA_DEPOSIT_SECRET : Z := 0xD5.
Definition TX_EXTRA_ELDERFIER_ALIAS : Z := 0xEA.
Definition TX_EXTRA_ELDERFIER_MESSAGE : Z := 0xEC.
Definition TX_EXTRA_ELDERFIER_DEPOSIT : Z := 0xEF.
Definition TX_EXTRA_NONCE_PAYMENT_ID : Z := 0x00.

Record TransactionExtraElderfierDeposit := mkElderfierDeposit {
  ed_depositHash : Hash;
  ed_depositAmount : Z;
  ed_elderfierCommitment : Hash;
  ed_securityWindow : Z;
  ed_metadata : bytes;
  ed_signature : bytes;
  ed_isSlashable : bool
}.

(** The four consensus members are neither written nor parsed. *)
Record TransactionExtraElderfierMessage := mkElderfierMessage {
  em_senderKey : bytes;
  em_recipientKey : bytes;
  em_messageType : Z;
  em_timestamp : Z;
  em_messageData : bytes;
  em_signature : bytes
}.

Record TransactionExtraAliasRegistration := mkAlias {
  ar_version : Z;
  ar_alias : bytes;
  ar_aliasHash : Hash;
  ar_addressHash : Hash;
  ar_ownerAddress : bytes;
  ar_aliasType : Z
}.

Record TransactionExtraHeatCommitment := mkHeat { hc_commitment : Hash; hc_amount : Z; hc_metadata : bytes }.

Record TransactionExtraYieldCommitment := mkYield {
  yc_commitment : Hash;
  yc_amount : Z;
  yc_term : Z;
  yc_claimChainCode : Z;
  yc_CIAId : bytes;
  yc_metadata : bytes;
  yc_gift_secret : bytes
}.

Record TransactionExtraColdCommitment := mkCold {
  cc_commitment : Hash;
  cc_amount : Z;
  cc_term : Z;
  cc_claimChainCode : Z;
  cc_metadata : bytes;
  cc_gift_secret : bytes
}.

Record TransactionExtraColdMigration := mkMigration {
  cm_originalTxHash : Hash;
  cm_commitment : Hash;
  cm_amount : Z;
  cm_term : Z;
  cm_claimChainCode : Z
}.

Record TransactionExtraBurnReceipt := mkBurnReceipt { br_proof_pubkey : bytes; br_tx_hash : bytes; br_timestamp : Z }.

Record TransactionExtraDepositReceipt := mkDepositReceipt {
  dr_proof_pubkey : bytes;
  dr_tx_hash : bytes;
  dr_timestamp : Z;
  dr_term : Z;
  dr_deposit_type : bytes
}.

Record TransactionExtraDepositSecret := mkDepositSecret { ds_ephPubKey : bytes; ds_encryptedPayload : bytes }.

(** The [boost::variant] of fields. *)
Inductive TransactionExtraField :=
| ExtraPadding (size : Z)
| ExtraPublicKey (publicKey : bytes)
| ExtraNonce (nonce : bytes)
| ExtraMergeMiningTag (depth : Z) (merkleRoot : Hash)
| ExtraMessage (data : bytes)
| ExtraTTL (ttl : Z)
| ExtraElderfierDeposit (d : TransactionExtraElderfierDeposit)
| ExtraElderfierMessage (m : TransactionExtraElderfierMessage)
| ExtraAliasRegistration (a : TransactionExtraAliasRegistration)
| ExtraHeatCommitment (h : TransactionExtraHeatCommitment)
| ExtraYieldCommitment (y : TransactionExtraYieldCommitment)
| ExtraColdCommitment (c : TransactionExtraColdCommitment)
| ExtraColdMigration (m : TransactionExtraColdMigration)
| ExtraBurnReceipt (r : TransactionExtraBurnReceipt)
| ExtraDepositReceipt (r : TransactionExtraDepositReceipt).

(** * Streams *)

(** [read(in, data, size)]. *)
Definition read_bytes (size : Z) (inp : bytes) : outcome (bytes * bytes) :=
  if Z.of_nat (length inp) <? size then Throw "Failed to read from IInputStream"
  else Ret (take (Z.to_nat size) inp, drop (Z.to_nat size) inp).

Definition read_u8 (inp : bytes) : outcome (Z * bytes) :=
  match inp with [] => Throw "Failed to read from IInputStream" | b :: inp => Ret (b, inp) end.

(** [for (i = 0; i < n; ++i) value |= read<uint8_t>(iss) << (i * 8)]. *)
Fixpoint read_le (n : nat) (i value : Z) (inp : bytes) : outcome (Z * bytes) :=
  match n with
  | O => Ret (value, inp)
  | S n =>
      '(b, inp) ← read_u8 inp;
      read_le n (i + 1) (Z.lor value (Z.shiftl b (i * 8))) inp
  end.

(** [for (i = 0; i < n; ++i) { push_back(value & 0xFF); value >>= 8; }]. *)
Fixpoint write_le (n : nat) (value : Z) : bytes :=
  match n with O => [] | S n => Z.land value 0xFF :: write_le n (Z.shiftr value 8) end.

(** A length byte and the data; a length of 4 bytes and the data. *)
Definition read_vec8 (inp : bytes) : outcome (bytes * bytes) :=
  '(size, inp) ← read_u8 inp; read_bytes size inp.

Definition read_vec32 (inp : bytes) : outcome (bytes * bytes) :=
  '(size, inp) ← read_le 4 0 0 inp; read_bytes size inp.

(** The writers keep the whole data when the length byte is not 0, else nothing. *)
Definition write_vec8 (data : bytes) : bytes :=
  let size := u8 (Z.of_nat (length data)) in
  size :: (if 0 <? size then data else []).

Definition write_vec32 (data : bytes) : bytes := write_le 4 (u32 (Z.of_nat (length data))) ++ data.

(** [operator()(std::string&)] of the two serializers. *)
Definition read_string (inp : bytes) : outcome (bytes * bytes) :=
  '(size, inp) ← readVarint 64 inp;
  if 10000 * 1024 * 1024 <? size then Throw "string size is too big" else read_bytes size inp.

Definition write_string (value : bytes) : bytes := writeVarint (Z.of_nat (length value)) ++ value.

(** * Alias registrations *)

Definition alias_char (lower : bool) (c : Z) : bool :=
  (if lower then (97 <=? c) && (c <=? 122) else (65 <=? c) && (c <=? 90))
  || ((48 <=? c) && (c <=? 57)) || (c =? 38).

Definition special_aliases (aliasType : Z) : list bytes :=
  if aliasType =? 0 then
    [[71; 65; 76; 65; 80; 65; 71; 79; 83]; [87; 73; 78; 83; 76; 65; 89; 69; 82]; [76; 79; 85; 68; 77; 73; 78; 73; 78; 71]]
  else if aliasType =? 1 then
    [[103; 97; 108; 97; 112; 97; 103; 111; 115]; [119; 105; 110; 115; 108; 97; 121; 101; 114]]
  else [].

Definition alias_isValid (a : TransactionExtraAliasRegistration) : bool :=
  if bool_decide (ar_alias a ∈ special_aliases (ar_aliasType a)) then true
  else if negb (Z.of_nat (length (ar_alias a)) =? 8) then false
  else if ar_aliasType a =? 0 then forallb (alias_char false) (ar_alias a)
  else if ar_aliasType a =? 1 then forallb (alias_char true) (ar_alias a)
  else false.

Definition alias_toBinaryArray (a : TransactionExtraAliasRegistration) : bytes :=
  writeVarint (ar_version a) ++ write_string (ar_alias a) ++ ar_aliasHash a ++ ar_addressHash a
  ++ write_string (ar_ownerAddress a) ++ writeVarint (ar_aliasType a).

(** [try { ... } catch (std::exception&) { return false; }]: the streams only throw
    (see [parse_field_throws] for the fuel of the variable-length integers). *)
Definition catch {A} (r : outcome A) : option A := match r with Ret a => Some a | _ => None end.

(** [fromBinaryArray]: [None] is [false]. *)
Definition alias_fromBinaryArray (ba : bytes) : option TransactionExtraAliasRegistration :=
  let r :=
    '(version, inp) ← readVarint 8 ba;
    '(alias, inp) ← read_string inp;
    '(aliasHash, inp) ← read_bytes 32 inp;
    '(addressHash, inp) ← read_bytes 32 inp;
    '(ownerAddress, inp) ← read_string inp;
    '(aliasType, inp) ← readVarint 8 inp;
    Ret (mkAlias version alias aliasHash addressHash ownerAddress aliasType, inp) in
  match catch r with Some (a, []) => Some a | _ => None end.

(** * Receipts *)

(** The four length bytes of a receipt: fewer at the end of the extra field. *)
Fixpoint read_le_short (n : nat) (i value : Z) (inp : bytes) : Z * bytes :=
  match n, inp with
  | S n, b :: inp => read_le_short n (i + 1) (Z.lor value (Z.shiftl b (i * 8))) inp
  | _, _ => (value, inp)
  end.

Definition read_receipt_string (inp : bytes) : outcome (bytes * bytes) :=
  match inp with
  | [] => Throw "false"
  | _ => let '(size, inp) := read_le_short 4 0 0 inp in read_bytes size inp
  end.

(** Both read from the start of the whole extra field. *)
Definition getBurnReceiptFromExtra (tx_extra : bytes) : option TransactionExtraBurnReceipt :=
  match tx_extra with
  | tag :: inp =>
      if negb (tag =? TX_EXTRA_BURN_RECEIPT) then None
      else catch (
        '(proof_pubkey, inp) ← read_bytes 32 inp;
        '(tx_hash, inp) ← read_receipt_string inp;
        '(timestamp, _) ← read_le 8 0 0 inp;
        Ret (mkBurnReceipt proof_pubkey tx_hash timestamp))
  | [] => None
  end.

Definition getDepositReceiptFromExtra (tx_extra : bytes) : option TransactionExtraDepositReceipt :=
  match tx_extra with
  | tag :: inp =>
      if negb (tag =? TX_EXTRA_COLD_RECEIPT) then None
      else catch (
        '(proof_pubkey, inp) ← read_bytes 32 inp;
        '(tx_hash, inp) ← read_receipt_string inp;
        '(timestamp, inp) ← read_le 8 0 0 inp;
        '(term, inp) ← read_le 4 0 0 inp;
        '(deposit_type, _) ← read_receipt_string inp;
        Ret (mkDepositReceipt proof_pubkey tx_hash timestamp term deposit_type))
  | [] => None
  end.

(** * [parseTransactionExtra] *)

(** The padding loop: [size] so far; [None] is [return false]. *)
Fixpoint padding_loop (size : Z) (inp : bytes) : option (Z * bytes) :=
  match inp with
  | [] => Some (size, [])
  | b :: rest =>
      if size <=? TX_EXTRA_PADDING_MAX_COUNT then
        if negb (b =? 0) then None else padding_loop (size + 1) rest
      else Some (size, inp)
  end.

Definition read_elderfier_deposit (inp : bytes) : outcome (TransactionExtraElderfierDeposit * bytes) :=
  '(depositHash, inp) ← read_bytes 32 inp;
  '(depositAmount, inp) ← read_le 8 0 0 inp;
  '(elderfierCommitment, inp) ← read_bytes 32 inp;
  '(securityWindow, inp) ← read_le 4 0 0 inp;
  '(metadata, inp) ← read_vec32 inp;
  '(signature, inp) ← read_vec32 inp;
  '(isSlashable, inp) ← read_u8 inp;
  Ret (mkElderfierDeposit depositHash depositAmount elderfierCommitment securityWindow metadata signature
         (negb (isSlashable =? 0)), inp).

Definition read_elderfier_message (inp : bytes) : outcome (TransactionExtraElderfierMessage * bytes) :=
  '(senderKey, inp) ← read_bytes 32 inp;
  '(recipientKey, inp) ← read_bytes 32 inp;
  '(messageType, inp) ← read_le 4 0 0 inp;
  '(timestamp, inp) ← read_le 8 0 0 inp;
  '(messageData, inp) ← read_vec32 inp;
  '(signature, inp) ← read_vec32 inp;
  Ret (mkElderfierMessage senderKey recipientKey messageType timestamp messageData signature, inp).

Definition read_heat (inp : bytes) : outcome (TransactionExtraHeatCommitment * bytes) :=
  '(commitment, inp) ← read_bytes 32 inp;
  '(amount, inp) ← read_le 8 0 0 inp;
  '(metadata, inp) ← read_vec8 inp;
  Ret (mkHeat commitment amount metadata, inp).

Definition read_yield (inp : bytes) : outcome (TransactionExtraYieldCommitment * bytes) :=
  '(commitment, inp) ← read_bytes 32 inp;
  '(amount, inp) ← read_le 8 0 0 inp;
  '(term, inp) ← read_le 4 0 0 inp;
  '(claimChainCode, inp) ← read_u8 inp;
  '(CIAId, inp) ← read_vec8 inp;
  '(metadata, inp) ← read_vec8 inp;
  '(gift_secret, inp) ← read_vec8 inp;
  Ret (mkYield commitment amount term claimChainCode CIAId metadata gift_secret, inp).

Definition read_cold (inp : bytes) : outcome (TransactionExtraColdCommitment * bytes) :=
  '(commitment, inp) ← read_bytes 32 inp;
  '(amount, inp) ← read_le 8 0 0 inp;
  '(term, inp) ← read_le 4 0 0 inp;
  '(claimChainCode, inp) ← read_u8 inp;
  '(metadata, inp) ← read_vec8 inp;
  '(gift_secret, inp) ← read_vec8 inp;
  Ret (mkCold commitment amount term claimChainCode metadata gift_secret, inp).

Definition read_migration (inp : bytes) : outcome (TransactionExtraColdMigration * bytes) :=
  '(originalTxHash, inp) ← read_bytes 32 inp;
  '(commitment, inp) ← read_bytes 32 inp;
  '(amount, inp) ← read_le 8 0 0 inp;
  '(term, inp) ← read_le 4 0 0 inp;
  '(claimChainCode, inp) ← read_u8 inp;
  Ret (mkMigration originalTxHash commitment amount term claimChainCode, inp).

(** The merge mining tag is wrapped in a string, whose rest is ignored. *)
Definition read_mm_tag (inp : bytes) : outcome (TransactionExtraField * bytes) :=
  '(field, inp) ← read_string inp;
  '(depth, f) ← readVarint 64 field;
  '(merkleRoot, _) ← read_bytes 32 f;
  Ret (ExtraMergeMiningTag depth merkleRoot, inp).

(** One round of the loop after the tag: [None] is [return false], [Some []] a tag that adds no field. *)
Definition parse_field (extra : bytes) (c : Z) (inp : bytes) : outcome (option (list TransactionExtraField) * bytes) :=
  if c =? TX_EXTRA_TAG_PADDING then
    Ret (match padding_loop 1 inp with
         | None => (None, inp)
         | Some (size, inp) =>
             if TX_EXTRA_PADDING_MAX_COUNT <? size then (None, inp) else (Some [ExtraPadding size], inp)
         end)
  else if c =? TX_EXTRA_TAG_PUBKEY then
    '(publicKey, inp) ← read_bytes 32 inp; Ret (Some [ExtraPublicKey publicKey], inp)
  else if c =? TX_EXTRA_NONCE then
    '(nonce, inp) ← read_vec8 inp; Ret (Some [ExtraNonce nonce], inp)
  else if c =? TX_EXTRA_MERGE_MINING_TAG then
    '(mmTag, inp) ← read_mm_tag inp; Ret (Some [mmTag], inp)
  else if c =? TX_EXTRA_MESSAGE_TAG then
    '(data, inp) ← read_string inp; Ret (Some [ExtraMessage data], inp)
  else if c =? TX_EXTRA_TTL then
    '(_, inp) ← readVarint 8 inp;
    '(ttl, inp) ← readVarint 64 inp;
    Ret (Some [ExtraTTL ttl], inp)
  else if c =? TX_EXTRA_ELDERFIER_DEPOSIT then
    '(d, inp) ← read_elderfier_deposit inp; Ret (Some [ExtraElderfierDeposit d], inp)
  else if c =? TX_EXTRA_ELDERFIER_MESSAGE then
    '(m, inp) ← read_elderfier_message inp; Ret (Some [ExtraElderfierMessage m], inp)
  else if c =? TX_EXTRA_ELDERFIER_ALIAS then
    '(size, inp) ← readVarint 64 inp;
    if (0 <? size) && (size <=? 1024) then
      '(ba, inp) ← read_bytes size inp;
      Ret (match alias_fromBinaryArray ba with Some a => Some [ExtraAliasRegistration a] | None => None end, inp)
    else Ret (None, inp)
  else if c =? TX_EXTRA_HEAT_COMMITMENT then
    '(h, inp) ← read_heat inp; Ret (Some [ExtraHeatCommitment h], inp)
  else if c =? TX_EXTRA_YIELD_COMMITMENT then
    '(y, inp) ← read_yield inp; Ret (Some [ExtraYieldCommitment y], inp)
  else if c =? TX_EXTRA_COLD_COMMITMENT then
    '(c, inp) ← read_cold inp; Ret (Some [ExtraColdCommitment c], inp)
  else if c =? TX_EXTRA_COLD_MIGRATION then
    '(m, inp) ← read_migration inp; Ret (Some [ExtraColdMigration m], inp)
  else if c =? TX_EXTRA_BURN_RECEIPT then
    Ret (match getBurnReceiptFromExtra extra with Some r => Some [ExtraBurnReceipt r] | None => None end, inp)
  else if c =? TX_EXTRA_COLD_RECEIPT then
    Ret (match getDepositReceiptFromExtra extra with Some r => Some [ExtraDepositReceipt r] | None => None end, inp)
  else if c =? TX_EXTRA_DEPOSIT_SECRET then
    '(_, inp) ← read_vec8 inp; Ret (Some [], inp)
  else Ret (Some [], inp).

(** The loop: the answer, and the fields found so far also when it fails.  Every round reads the
    tag, so the length of the extra field is enough fuel. *)
Fixpoint parse_loop (fuel : nat) (extra inp : bytes) (fields : list TransactionExtraField)
    : bool * list TransactionExtraField :=
  match fuel, inp with
  | _, [] => (true, fields)
  | O, _ => (false, fields)
  | S fuel, c :: inp =>
      match catch (parse_field extra c inp) with
      | Some (Some new, inp) => parse_loop fuel extra inp (fields ++ new)
      | _ => (false, fields)
      end
  end.

Definition parseTransactionExtra (transactionExtra : bytes) : bool * list TransactionExtraField :=
  parse_loop (length transactionExtra) transactionExtra transactionExtra [].

(** * [writeTransactionExtra] *)

Definition addTransactionPublicKeyToExtra (tx_extra tx_pub_key : bytes) : bytes :=
  tx_extra ++ TX_EXTRA_TAG_PUBKEY :: tx_pub_key.

Definition addExtraNonceToTransactionExtra (tx_extra extra_nonce : bytes) : option bytes :=
  if TX_EXTRA_NONCE_MAX_COUNT <? Z.of_nat (length extra_nonce) then None
  else Some (tx_extra ++ [TX_EXTRA_NONCE; u8 (Z.of_nat (length extra_nonce))] ++ extra_nonce).

Definition appendMergeMiningTagToExtra (tx_extra : bytes) (depth : Z) (merkleRoot : Hash) : bytes :=
  tx_extra ++ TX_EXTRA_MERGE_MINING_TAG :: write_string (writeVarint depth ++ merkleRoot).

Definition append_message_to_extra (tx_extra data : bytes) : bytes := tx_extra ++ TX_EXTRA_MESSAGE_TAG :: write_string data.

Definition appendTTLToExtra (tx_extra : bytes) (ttl : Z) : bytes :=
  let ttlData := write_varint ttl in
  tx_extra ++ TX_EXTRA_TTL :: write_varint (Z.of_nat (length ttlData)) ++ ttlData.

Definition addElderfierDepositToExtra (tx_extra : bytes) (d : TransactionExtraElderfierDeposit) : bytes :=
  tx_extra ++ TX_EXTRA_ELDERFIER_DEPOSIT :: ed_depositHash d ++ write_le 8 (ed_depositAmount d)
  ++ ed_elderfierCommitment d ++ write_le 4 (ed_securityWindow d) ++ write_vec32 (ed_metadata d)
  ++ write_vec32 (ed_signature d) ++ [if ed_isSlashable d then 1 else 0].

Definition addElderfierMessageToExtra (tx_extra : bytes) (m : TransactionExtraElderfierMessage) : bytes :=
  tx_extra ++ TX_EXTRA_ELDERFIER_MESSAGE :: em_senderKey m ++ em_recipientKey m ++ write_le 4 (em_messageType m)
  ++ write_le 8 (em_timestamp m) ++ write_vec32 (em_messageData m) ++ write_vec32 (em_signature m).

Definition addAliasToExtra (tx_extra : bytes) (a : TransactionExtraAliasRegistration) : option bytes :=
  if negb (alias_isValid a) then None
  else
    let ba := alias_toBinaryArray a in
    Some (tx_extra ++ TX_EXTRA_ELDERFIER_ALIAS :: write_varint (Z.of_nat (length ba)) ++ ba).

Definition addHeatCommitmentToExtra (tx_extra : bytes) (h : TransactionExtraHeatCommitment) : bytes :=
  tx_extra ++ TX_EXTRA_HEAT_COMMITMENT :: hc_commitment h ++ write_le 8 (hc_amount h) ++ write_vec8 (hc_metadata h).

(** The CIA id is written whole, whatever its length byte. *)
Definition addYieldCommitmentToExtra (tx_extra : bytes) (y : TransactionExtraYieldCommitment) : bytes :=
  tx_extra ++ TX_EXTRA_YIELD_COMMITMENT :: yc_commitment y ++ write_le 8 (yc_amount y) ++ write_le 4 (yc_term y)
  ++ [yc_claimChainCode y] ++ (u8 (Z.of_nat (length (yc_CIAId y))) :: yc_CIAId y)
  ++ write_vec8 (yc_metadata y) ++ write_vec8 (yc_gift_secret y).

Definition addColdCommitmentToExtra (tx_extra : bytes) (c : TransactionExtraColdCommitment) : bytes :=
  tx_extra ++ TX_EXTRA_COLD_COMMITMENT :: cc_commitment c ++ write_le 8 (cc_amount c) ++ write_le 4 (cc_term c)
  ++ [cc_claimChainCode c] ++ write_vec8 (cc_metadata c) ++ write_vec8 (cc_gift_secret c).

Definition addColdMigrationToExtra (tx_extra : bytes) (m : TransactionExtraColdMigration) : bytes :=
  tx_extra ++ TX_EXTRA_COLD_MIGRATION :: cm_originalTxHash m ++ cm_commitment m ++ write_le 8 (cm_amount m)
  ++ write_le 4 (cm_term m) ++ [cm_claimChainCode m].

Definition addBurnReceiptToExtra (tx_extra : bytes) (r : TransactionExtraBurnReceipt) : bytes :=
  tx_extra ++ TX_EXTRA_BURN_RECEIPT :: br_proof_pubkey r ++ write_vec32 (br_tx_hash r) ++ write_le 8 (br_timestamp r).

Definition addDepositReceiptToExtra (tx_extra : bytes) (r : TransactionExtraDepositReceipt) : bytes :=
  tx_extra ++ TX_EXTRA_COLD_RECEIPT :: dr_proof_pubkey r ++ write_vec32 (dr_tx_hash r) ++ write_le 8 (dr_timestamp r)
  ++ write_le 4 (dr_term r) ++ write_vec32 (dr_deposit_type r).

(** [ExtraSerializerVisitor]; [None] is [false]. *)
Definition write_field (extra : bytes) (f : TransactionExtraField) : option bytes :=
  match f with
  | ExtraPadding size =>
      if TX_EXTRA_PADDING_MAX_COUNT <? size then None else Some (extra ++ replicate (Z.to_nat size) 0)
  | ExtraPublicKey publicKey => Some (addTransactionPublicKeyToExtra extra publicKey)
  | ExtraNonce nonce => addExtraNonceToTransactionExtra extra nonce
  | ExtraMergeMiningTag depth merkleRoot => Some (appendMergeMiningTagToExtra extra depth merkleRoot)
  | ExtraMessage data => Some (append_message_to_extra extra data)
  | ExtraTTL ttl => Some (appendTTLToExtra extra ttl)
  | ExtraElderfierDeposit d => Some (addElderfierDepositToExtra extra d)
  | ExtraElderfierMessage m => Some (addElderfierMessageToExtra extra m)
  | ExtraAliasRegistration a => addAliasToExtra extra a
  | ExtraHeatCommitment h => Some (addHeatCommitmentToExtra extra h)
  | ExtraYieldCommitment y => Some (addYieldCommitmentToExtra extra y)
  | ExtraColdCommitment c => Some (addColdCommitmentToExtra extra c)
  | ExtraColdMigration m => Some (addColdMigrationToExtra extra m)
  | ExtraBurnReceipt r => Some (addBurnReceiptToExtra extra r)
  | ExtraDepositReceipt r => Some (addDepositReceiptToExtra extra r)
  end.

(** The answer and the extra field, partly written when it fails. *)
Fixpoint writeTransactionExtra (tx_extra : bytes) (fields : list TransactionExtraField) : bool * bytes :=
  match fields with
  | [] => (true, tx_extra)
  | f :: fields =>
      match write_field tx_extra f with
      | None => (false, tx_extra)
      | Some tx_extra => writeTransactionExtra tx_extra fields
      end
  end.

(** * Payment ids, public key and TTL *)

Definition setPaymentIdToTransactionExtraNonce (payment_id : Hash) : bytes := TX_EXTRA_NONCE_PAYMENT_ID :: payment_id.

Definition getPaymentIdFromTransactionExtraNonce (extra_nonce : bytes) : option Hash :=
  if negb (32 + 1 =? Z.of_nat (length extra_nonce)) then None
  else match extra_nonce with
       | tag :: payment_id => if negb (TX_EXTRA_NONCE_PAYMENT_ID =? tag) then None else Some payment_id
       | [] => None
       end.

Definition createTxExtraWithPaymentId (paymentIdString extra : bytes) : option bytes :=
  match podFromHex paymentIdString with
  | None => None
  | Some paymentIdBin => addExtraNonceToTransactionExtra extra (setPaymentIdToTransactionExtraNonce paymentIdBin)
  end.

(** [findTransactionExtraFieldByType] for the types that are looked up. *)
Definition find_nonce (fields : list TransactionExtraField) : option bytes :=
  head (omap (fun f => match f with ExtraNonce n => Some n | _ => None end) fields).
Definition find_public_key (fields : list TransactionExtraField) : option bytes :=
  head (omap (fun f => match f with ExtraPublicKey k => Some k | _ => None end) fields).
Definition find_ttl (fields : list TransactionExtraField) : option Z :=
  head (omap (fun f => match f with ExtraTTL t => Some t | _ => None end) fields).

Definition getPaymentIdFromTxExtra (extra : bytes) : option Hash :=
  let '(ok, fields) := parseTransactionExtra extra in
  if negb ok then None
  else match find_nonce fields with Some n => getPaymentIdFromTransactionExtraNonce n | None => None end.

Definition getTransactionPublicKeyFromExtra (tx_extra : bytes) : bytes :=
  default (replicate 32 0) (find_public_key (parseTransactionExtra tx_extra).2).

(** [BlockchainExplorerDataBuilder::getPaymentId], which ignores the answer of the parser. *)
Definition explorerPaymentId (extra : bytes) : option Hash :=
  match find_nonce (parseTransactionExtra extra).2 with
  | Some n => getPaymentIdFromTransactionExtraNonce n
  | None => None
  end.

(** * Deposit secrets *)

Definition addDepositSecretToExtra (tx_extra : bytes) (s : TransactionExtraDepositSecret) : option bytes :=
  if negb (Z.of_nat (length (ds_encryptedPayload s)) =? 45) then None
  else Some (tx_extra ++ TX_EXTRA_DEPOSIT_SECRET :: u8 (32 + u8 (Z.of_nat (length (ds_encryptedPayload s))))
             :: ds_ephPubKey s ++ ds_encryptedPayload s).

(** The scan looks at every byte; the first that equals the tag decides. *)
Fixpoint getDepositSecretFromExtra (tx_extra : bytes) : option TransactionExtraDepositSecret :=
  match tx_extra with
  | tag :: ((len :: data) as rest) =>
      if negb (tag =? TX_EXTRA_DEPOSIT_SECRET) then getDepositSecretFromExtra rest
      else if negb (len =? 77) || (Z.of_nat (length data) <? len) then None
      else Some (mkDepositSecret (take 32 data) (drop 32 (take 77 data)))
  | _ => None
  end.

(** * Reading back what was written *)

Lemma readVarint_write w v rest :
  8 <= w <= 64 -> 0 <= v < 2 ^ w -> readVarint w (writeVarint v ++ rest) = Ret (v, rest).
Proof.
  intros Hw Hv. unfold readVarint, writeVarint.
  rewrite (read_write_loop w) by (rewrite ?Z.sub_0_r; try (by apply (varint_fuel w)); lia).
  f_equal. f_equal. change (2 ^ 0) with 1. lia.
Qed.

Lemma write_varint_eq v : write_varint v = writeVarint v.
Proof. apply write_varint_loop_eq. Qed.

Lemma read_bytes_app size d rest : Z.of_nat (length d) = size -> read_bytes size (d ++ rest) = Ret (d, rest).
Proof.
  intros <-. unfold read_bytes. rewrite length_app, Nat2Z.id.
  destruct (Z.ltb_spec (Z.of_nat (length d + length rest)) (Z.of_nat (length d))); [lia |].
  by rewrite take_app_length, drop_app_length.
Qed.

Lemma read_le_app n i value v rest :
  0 <= i -> 0 <= value < 2 ^ (i * 8) -> 0 <= v < 2 ^ (8 * Z.of_nat n) ->
  read_le n i value (write_le n v ++ rest) = Ret (value + v * 2 ^ (i * 8), rest).
Proof.
  revert i value v. induction n as [| n IH]; intros i value v Hi Hval Hv; cbn [write_le read_le app].
  - change (2 ^ (8 * Z.of_nat 0)) with 1 in Hv. replace v with 0 by lia. by rewrite Z.mul_0_l, Z.add_0_r.
  - unfold read_u8. rewrite outcome_bind_ret. change 0xFF with (Z.ones 8). rewrite Z.land_ones by lia.
    rewrite lor_piece by lia. pose proof (Z.mod_pos_bound v (2 ^ 8) ltac:(lia)) as Hm.
    pose proof (Z.div_mod v (2 ^ 8) ltac:(lia)) as Hdm.
    assert (Hp : 2 ^ ((i + 1) * 8) = 2 ^ 8 * 2 ^ (i * 8)) by (rewrite <- Z.pow_add_r by lia; f_equal; lia).
    assert (Hp0 : 0 < 2 ^ (i * 8)) by lia.
    rewrite Z.shiftr_div_pow2 by lia.
    rewrite IH; [| lia | rewrite Hp; nia |].
    + f_equal. f_equal. rewrite Hp. nia.
    + rewrite Nat2Z.inj_succ in Hv. replace (8 * Z.succ (Z.of_nat n)) with (8 + 8 * Z.of_nat n) in Hv by lia.
      rewrite Z.pow_add_r in Hv by lia. split; [apply Z.div_pos; lia | apply Z.div_lt_upper_bound; lia].
Qed.

Lemma read_le_write n v rest :
  0 <= v < 2 ^ (8 * Z.of_nat n) -> read_le n 0 0 (write_le n v ++ rest) = Ret (v, rest).
Proof. intros Hv. rewrite read_le_app by lia. f_equal. f_equal. change (2 ^ (0 * 8)) with 1. lia. Qed.

Lemma read_vec8_write d rest : Z.of_nat (length d) <= 255 -> read_vec8 (write_vec8 d ++ rest) = Ret (d, rest).
Proof.
  intros Hd. unfold read_vec8, write_vec8. rewrite u8_small by lia. cbn [app read_u8]. rewrite outcome_bind_ret.
  destruct (Z.ltb_spec 0 (Z.of_nat (length d))); [by apply read_bytes_app |].
  destruct d; [| cbn in *; lia]. by apply (read_bytes_app 0 []).
Qed.

Lemma read_vec8_plain d rest :
  Z.of_nat (length d) <= 255 -> read_vec8 (u8 (Z.of_nat (length d)) :: d ++ rest) = Ret (d, rest).
Proof.
  intros Hd. unfold read_vec8. rewrite u8_small by lia. cbn [read_u8]. rewrite outcome_bind_ret. by apply read_bytes_app.
Qed.

Lemma read_vec32_write d rest : Z.of_nat (length d) < 2 ^ 32 -> read_vec32 (write_vec32 d ++ rest) = Ret (d, rest).
Proof.
  intros Hd. unfold read_vec32, write_vec32. rewrite u32_small, <- app_assoc by lia.
  rewrite read_le_write, outcome_bind_ret by (cbn; lia). by apply read_bytes_app.
Qed.

Lemma read_string_write d rest :
  Z.of_nat (length d) <= 10000 * 1024 * 1024 -> read_string (write_string d ++ rest) = Ret (d, rest).
Proof.
  intros Hd. unfold read_string, write_string. rewrite <- app_assoc, readVarint_write, outcome_bind_ret by lia.
  destruct (Z.ltb_spec (10000 * 1024 * 1024) (Z.of_nat (length d))); [lia |]. by apply read_bytes_app.
Qed.

(** The fields that survive: every member has the range of its type, fixed arrays have their
    size, lengths fit their length fields.  Receipts are excluded, padding is treated apart. *)
Definition field_wf (f : TransactionExtraField) : Prop :=
  match f with
  | ExtraPadding _ | ExtraBurnReceipt _ | ExtraDepositReceipt _ => False
  | ExtraPublicKey k => Z.of_nat (length k) = 32
  | ExtraNonce n => Z.of_nat (length n) <= 255
  | ExtraMergeMiningTag depth root => is_u64 depth /\ Z.of_nat (length root) = 32
  | ExtraMessage d => Z.of_nat (length d) <= 10000 * 1024 * 1024
  | ExtraTTL ttl => is_u64 ttl
  | ExtraElderfierDeposit d =>
      Z.of_nat (length (ed_depositHash d)) = 32 /\ is_u64 (ed_depositAmount d)
      /\ Z.of_nat (length (ed_elderfierCommitment d)) = 32 /\ is_u32 (ed_securityWindow d)
      /\ Z.of_nat (length (ed_metadata d)) < 2 ^ 32 /\ Z.of_nat (length (ed_signature d)) < 2 ^ 32
  | ExtraElderfierMessage m =>
      Z.of_nat (length (em_senderKey m)) = 32 /\ Z.of_nat (length (em_recipientKey m)) = 32
      /\ is_u32 (em_messageType m) /\ is_u64 (em_timestamp m)
      /\ Z.of_nat (length (em_messageData m)) < 2 ^ 32 /\ Z.of_nat (length (em_signature m)) < 2 ^ 32
  | ExtraAliasRegistration a =>
      alias_isValid a = true /\ is_u8 (ar_version a) /\ is_u8 (ar_aliasType a)
      /\ Z.of_nat (length (ar_aliasHash a)) = 32 /\ Z.of_nat (length (ar_addressHash a)) = 32
      /\ Z.of_nat (length (alias_toBinaryArray a)) <= 1024
  | ExtraHeatCommitment h =>
      Z.of_nat (length (hc_commitment h)) = 32 /\ is_u64 (hc_amount h) /\ Z.of_nat (length (hc_metadata h)) <= 255
  | ExtraYieldCommitment y =>
      Z.of_nat (length (yc_commitment y)) = 32 /\ is_u64 (yc_amount y) /\ is_u32 (yc_term y)
      /\ Z.of_nat (length (yc_CIAId y)) <= 255 /\ Z.of_nat (length (yc_metadata y)) <= 255
      /\ Z.of_nat (length (yc_gift_secret y)) <= 255
  | ExtraColdCommitment c =>
      Z.of_nat (length (cc_commitment c)) = 32 /\ is_u64 (cc_amount c) /\ is_u32 (cc_term c)
      /\ Z.of_nat (length (cc_metadata c)) <= 255 /\ Z.of_nat (length (cc_gift_secret c)) <= 255
  | ExtraColdMigration m =>
      Z.of_nat (length (cm_originalTxHash m)) = 32 /\ Z.of_nat (length (cm_commitment m)) = 32
      /\ is_u64 (cm_amount m) /\ is_u32 (cm_term m)
  end.

#[local] Arguments write_le : simpl never.
#[local] Arguments read_le : simpl never.
#[local] Arguments write_vec8 : simpl never.
#[local] Arguments write_vec32 : simpl never.
#[local] Arguments write_string : simpl never.
#[local] Arguments read_bytes : simpl never.
#[local] Arguments writeVarint : simpl never.
#[local] Arguments readVarint : simpl never.
#[local] Arguments write_varint : simpl never.
#[local] Arguments u8 : simpl never.

(** Read the next piece of a stream. *)
Ltac read_step :=
  first
  [ rewrite outcome_bind_ret
  | rewrite <- app_assoc
  | rewrite read_bytes_app by lia
  | rewrite read_le_write by (cbn; unfold is_u64, is_u32 in *; lia)
  | rewrite read_vec8_write by lia
  | rewrite read_vec8_plain by lia
  | rewrite read_vec32_write by lia
  | rewrite read_string_write by lia
  | progress cbn [app read_u8] ].
Ltac read_back := repeat read_step.

(** [w] writes the tag [c] and [body], which reads back as [f]. *)
Definition reads_back (f : TransactionExtraField) : Prop :=
  exists c body, (forall extra, write_field extra f = Some (extra ++ c :: body))
    /\ (forall whole rest, parse_field whole c (body ++ rest) = Ret (Some [f], rest)).

Lemma reads_back_deposit d : field_wf (ExtraElderfierDeposit d) -> reads_back (ExtraElderfierDeposit d).
Proof.
  intros (H1 & H2 & H3 & H4 & H5 & H6). eexists _, _. split; [done |]. intros whole rest.
  unfold parse_field. cbn -[read_elderfier_deposit]. unfold read_elderfier_deposit. read_back.
  destruct d as [h a c w m s b]. by destruct b.
Qed.

Lemma reads_back_message m : field_wf (ExtraElderfierMessage m) -> reads_back (ExtraElderfierMessage m).
Proof.
  intros (H1 & H2 & H3 & H4 & H5 & H6). eexists _, _. split; [done |]. intros whole rest.
  unfold parse_field. cbn -[read_elderfier_message]. unfold read_elderfier_message. read_back. by destruct m.
Qed.

Lemma reads_back_heat h : field_wf (ExtraHeatCommitment h) -> reads_back (ExtraHeatCommitment h).
Proof.
  intros (H1 & H2 & H3). eexists _, _. split; [done |]. intros whole rest.
  unfold parse_field. cbn -[read_heat]. unfold read_heat. read_back. by destruct h.
Qed.

Lemma reads_back_yield y : field_wf (ExtraYieldCommitment y) -> reads_back (ExtraYieldCommitment y).
Proof.
  intros (H1 & H2 & H3 & H4 & H5 & H6). eexists _, _. split; [done |]. intros whole rest.
  unfold parse_field. cbn -[read_yield]. unfold read_yield. read_back. by destruct y.
Qed.

Lemma reads_back_cold c : field_wf (ExtraColdCommitment c) -> reads_back (ExtraColdCommitment c).
Proof.
  intros (H1 & H2 & H3 & H4 & H5). eexists _, _. split; [done |]. intros whole rest.
  unfold parse_field. cbn -[read_cold]. unfold read_cold. read_back. by destruct c.
Qed.

Lemma reads_back_migration m : field_wf (ExtraColdMigration m) -> reads_back (ExtraColdMigration m).
Proof.
  intros (H1 & H2 & H3 & H4). eexists _, _. split; [done |]. intros whole rest.
  unfold parse_field. cbn -[read_migration]. unfold read_migration. read_back. by destruct m.
Qed.

Lemma length_writeVarint v : (length (writeVarint v) <= 10)%nat.
Proof.
  unfold writeVarint. assert (H : forall f v, (length (write_loop f v) <= S f)%nat).
  { induction f as [| f IH]; intros x; cbn [write_loop]; [done |].
    destruct (_ <=? x); cbn [length]; [specialize (IH (Z.shiftr x 7)) |]; lia. }
  apply H.
Qed.

Lemma reads_back_nonce n : field_wf (ExtraNonce n) -> reads_back (ExtraNonce n).
Proof.
  intros H. cbn in H. exists TX_EXTRA_NONCE, (u8 (Z.of_nat (length n)) :: n). split.
  - intros extra. unfold write_field, addExtraNonceToTransactionExtra, TX_EXTRA_NONCE_MAX_COUNT.
    destruct (Z.ltb_spec 255 (Z.of_nat (length n))); [lia | done].
  - intros whole rest. unfold parse_field. cbn -[read_vec8]. by read_back.
Qed.

Lemma reads_back_mm_tag depth root : field_wf (ExtraMergeMiningTag depth root) -> reads_back (ExtraMergeMiningTag depth root).
Proof.
  intros [H1 H2]. eexists _, _. split; [done |]. intros whole rest. unfold parse_field. cbn -[read_mm_tag].
  unfold read_mm_tag. pose proof (length_writeVarint depth) as Hl.
  rewrite read_string_write by (rewrite length_app; lia). rewrite outcome_bind_ret.
  rewrite readVarint_write by (unfold is_u64 in H1; lia). rewrite outcome_bind_ret.
  rewrite <- (app_nil_r root) at 1. by rewrite read_bytes_app, !outcome_bind_ret.
Qed.

Lemma reads_back_ttl ttl : field_wf (ExtraTTL ttl) -> reads_back (ExtraTTL ttl).
Proof.
  intros H. eexists _, _. split; [done |]. intros whole rest. unfold parse_field. cbn.
  rewrite !write_varint_eq, <- app_assoc. pose proof (length_writeVarint ttl) as Hl.
  rewrite readVarint_write by lia. rewrite outcome_bind_ret.
  rewrite readVarint_write by (cbn in H; unfold is_u64 in H; lia). by rewrite outcome_bind_ret.
Qed.

Lemma alias_binary_roundtrip a :
  is_u8 (ar_version a) -> is_u8 (ar_aliasType a) -> Z.of_nat (length (ar_aliasHash a)) = 32 ->
  Z.of_nat (length (ar_addressHash a)) = 32 -> Z.of_nat (length (alias_toBinaryArray a)) <= 1024 ->
  alias_fromBinaryArray (alias_toBinaryArray a) = Some a.
Proof.
  unfold is_u8. intros Hv Ht H1 H2 Hl.
  assert (Hs : Z.of_nat (length (ar_alias a)) <= 1024 /\ Z.of_nat (length (ar_ownerAddress a)) <= 1024).
  { revert Hl. unfold alias_toBinaryArray, write_string. rewrite !length_app. lia. }
  unfold alias_fromBinaryArray, alias_toBinaryArray. rewrite readVarint_write by lia. read_back.
  rewrite <- (app_nil_r (writeVarint (ar_aliasType a))).
  rewrite readVarint_write by lia. rewrite outcome_bind_ret. by destruct a.
Qed.

Lemma reads_back_alias a : field_wf (ExtraAliasRegistration a) -> reads_back (ExtraAliasRegistration a).
Proof.
  intros (Hval & Hv & Ht & H1 & H2 & Hl). eexists TX_EXTRA_ELDERFIER_ALIAS, _. split.
  - intros extra. unfold write_field, addAliasToExtra. by rewrite Hval.
  - intros whole rest. unfold parse_field. cbn -[alias_fromBinaryArray alias_toBinaryArray].
    rewrite write_varint_eq, <- app_assoc, readVarint_write by lia. rewrite outcome_bind_ret.
    assert (Hpos : 0 < Z.of_nat (length (alias_toBinaryArray a)))
      by (unfold alias_toBinaryArray; rewrite !length_app; lia).
    destruct (Z.ltb_spec 0 (Z.of_nat (length (alias_toBinaryArray a)))); [| lia].
    destruct (Z.leb_spec (Z.of_nat (length (alias_toBinaryArray a))) 1024); [| lia]. cbn [andb].
    rewrite read_bytes_app by done. rewrite outcome_bind_ret. by rewrite alias_binary_roundtrip.
Qed.

Lemma field_reads_back f : field_wf f -> reads_back f.
Proof.
  destruct f as [n | k | n | d r | d | t | d | m | a | h | y | c | m | r | r]; try done.
  - intros H. cbn in H. eexists _, _. split; [done |]. intros whole rest. unfold parse_field. cbn. by read_back.
  - apply reads_back_nonce.
  - apply reads_back_mm_tag.
  - intros H. cbn in H. eexists _, _. split; [done |]. intros whole rest. unfold parse_field. cbn -[read_string].
    by read_back.
  - apply reads_back_ttl.
  - apply reads_back_deposit.
  - apply reads_back_message.
  - apply reads_back_alias.
  - apply reads_back_heat.
  - apply reads_back_yield.
  - apply reads_back_cold.
  - apply reads_back_migration.
Qed.

(** Padding, at the end of the extra field. *)
Lemma padding_loop_zeros n size :
  size + Z.of_nat n <= 256 -> padding_loop size (replicate n 0) = Some (size + Z.of_nat n, []).
Proof.
  revert size. induction n as [| n IH]; intros size Hs; cbn [replicate padding_loop].
  - f_equal. f_equal. lia.
  - unfold TX_EXTRA_PADDING_MAX_COUNT. destruct (Z.leb_spec size 255); [| lia]. cbn [negb Z.eqb].
    rewrite IH by lia. f_equal. f_equal. lia.
Qed.

Lemma parse_padding fuel whole n fields :
  1 <= n <= 255 -> (1 <= fuel)%nat ->
  parse_loop fuel whole (replicate (Z.to_nat n) 0) fields = (true, fields ++ [ExtraPadding n]).
Proof.
  intros Hn Hf. destruct fuel as [| fuel]; [lia |].
  replace (Z.to_nat n) with (S (Z.to_nat (n - 1))) by lia. cbn [replicate parse_loop].
  unfold parse_field. cbn -[padding_loop]. rewrite padding_loop_zeros by lia.
  replace (1 + Z.of_nat (Z.to_nat (n - 1))) with n by lia. unfold TX_EXTRA_PADDING_MAX_COUNT.
  destruct (Z.ltb_spec 255 n); [lia |]. cbn. by destruct fuel.
Qed.

Lemma parse_loop_nil fuel whole fields : parse_loop fuel whole [] fields = (true, fields).
Proof. by destruct fuel. Qed.

(** A list of fields, then a tail that parses by itself. *)
Lemma parse_written fs : Forall field_wf fs ->
  exists body, (forall extra rest, writeTransactionExtra extra (fs ++ rest) = writeTransactionExtra (extra ++ body) rest)
    /\ (length fs <= length body)%nat
    /\ forall fuel whole tail fields, (length fs <= fuel)%nat ->
         parse_loop fuel whole (body ++ tail) fields = parse_loop (fuel - length fs) whole tail (fields ++ fs).
Proof.
  induction 1 as [| f fs Hf _ (body & Hw & Hlen & Hp)].
  - exists []. split; [intros extra rest; by rewrite app_nil_r |]. split; [done |].
    intros fuel whole tail fields _. cbn [length app]. by rewrite Nat.sub_0_r, app_nil_r.
  - destruct (field_reads_back f Hf) as (c & b & Hwf & Hpf). exists (c :: b ++ body). split; [| split].
    + intros extra rest. cbn [app writeTransactionExtra]. rewrite Hwf, Hw. f_equal.
      rewrite <- app_assoc. done.
    + cbn [length]. rewrite length_app. lia.
    + intros fuel whole tail fields Hfu. destruct fuel as [| fuel]; [cbn in Hfu; lia |]. cbn [app length parse_loop].
      rewrite <- app_assoc, Hpf. cbn [catch]. rewrite Hp by (cbn in Hfu; lia).
      rewrite <- app_assoc. done.
Qed.

(** The extra field round-trips: for every list of fields whose members fit their encodings
    (receipts excepted), possibly ended by padding, [writeTransactionExtra] succeeds and
    [parseTransactionExtra] reads back exactly those fields in the same order. *)
Theorem extra_roundtrip (fs pad : list TransactionExtraField) :
  Forall field_wf fs -> (pad = [] \/ exists n, pad = [ExtraPadding n] /\ 1 <= n <= 255) ->
  exists extra, writeTransactionExtra [] (fs ++ pad) = (true, extra) /\ parseTransactionExtra extra = (true, fs ++ pad).
Proof.
  intros Hfs Hpad. destruct (parse_written fs Hfs) as (body & Hw & Hlen & Hp). rewrite Hw. cbn [app].
  destruct Hpad as [-> | (n & -> & Hn)].
  - exists body. split; [done |]. unfold parseTransactionExtra. rewrite <- (app_nil_r body) at 3. rewrite Hp by done.
    by rewrite app_nil_r, parse_loop_nil.
  - exists (body ++ replicate (Z.to_nat n) 0). split.
    + cbn [writeTransactionExtra write_field]. unfold TX_EXTRA_PADDING_MAX_COUNT. destruct (Z.ltb_spec 255 n); [lia | done].
    + unfold parseTransactionExtra. rewrite Hp by (rewrite length_app; lia).
      rewrite parse_padding; [done | done |]. rewrite length_app, length_replicate. lia.
Qed.

Lemma extra_roundtrip_witness :
  let fs := [ExtraPublicKey (replicate 32 9); ExtraNonce (setPaymentIdToTransactionExtraNonce (replicate 32 4)); ExtraTTL 1700000000;
             ExtraColdCommitment (mkCold (replicate 32 7) 800000000 16440 1 [5; 6] [])] in
  exists extra, writeTransactionExtra [] (fs ++ [ExtraPadding 12]) = (true, extra)
    /\ parseTransactionExtra extra = (true, fs ++ [ExtraPadding 12]).
Proof.
  intros fs. apply (extra_roundtrip fs [ExtraPadding 12]).
  - repeat constructor; unfold is_u64, is_u32; cbn; try lia; discriminate.
  - right. exists 12. split; [done | lia].
Defined.

(** ** Payment ids and deposit secrets *)

(** A payment id in hexadecimal survives the extra field. *)
Lemma payment_id_roundtrip (payment_id : bytes) :
  Forall is_byte payment_id -> length payment_id = 32%nat ->
  exists extra', createTxExtraWithPaymentId (toHex payment_id) [] = Some extra'
    /\ getPaymentIdFromTxExtra extra' = Some payment_id.
Proof.
  intros Hb Hl. unfold createTxExtraWithPaymentId, podFromHex.
  rewrite fromHex_toHex by done.
  rewrite length_toHex, Hl. change (32 <? Z.shiftr (Z.of_nat (2 * 32)) 1) with false. cbn [mbind option_bind].
  rewrite Hl. change (Z.of_nat 32 =? 32) with true. cbv iota.
  destruct (parse_written [ExtraNonce (setPaymentIdToTransactionExtraNonce payment_id)]) as (body & Hw & Hlen & Hp).
  { repeat constructor. cbn. lia. }
  specialize (Hw [] []). cbn -[addExtraNonceToTransactionExtra] in Hw.
  destruct (addExtraNonceToTransactionExtra _ _) as [e |]; [| done]. injection Hw as ->.
  exists body. split; [done |]. unfold getPaymentIdFromTxExtra, parseTransactionExtra.
  rewrite <- (app_nil_r body) at 3. rewrite Hp by done.
  rewrite parse_loop_nil.
  change (find_nonce _) with (Some (setPaymentIdToTransactionExtraNonce payment_id)). cbn [negb].
  unfold getPaymentIdFromTransactionExtraNonce, setPaymentIdToTransactionExtraNonce.
  cbn [length]. by rewrite Hl.
Qed.

Lemma deposit_secret_roundtrip s :
  length (ds_ephPubKey s) = 32%nat -> length (ds_encryptedPayload s) = 45%nat ->
  exists e, addDepositSecretToExtra [] s = Some e /\ getDepositSecretFromExtra e = Some s.
Proof.
  intros H1 H2. unfold addDepositSecretToExtra. rewrite H2. eexists. split; [reflexivity |].
  change (u8 (32 + u8 (Z.of_nat 45))) with 77.
  cbn [app getDepositSecretFromExtra Z.eqb negb]. change (TX_EXTRA_DEPOSIT_SECRET =? TX_EXTRA_DEPOSIT_SECRET) with true.
  cbn [negb]. change (77 =? 77) with true. cbn [negb orb]. rewrite length_app, H1, H2. cbn [Z.ltb].
  change (Z.of_nat (32 + 45) <? 77) with false. cbn.
  rewrite <- H1, take_app_length. rewrite (take_ge (_ ++ _)) by (rewrite length_app; lia).
  rewrite drop_app_length. by destruct s.
Qed.

(** The scan stops at the first byte that equals the tag. *)
Lemma secret_scan_stops a b c :
  TX_EXTRA_DEPOSIT_SECRET ∉ a -> b <> 77 -> getDepositSecretFromExtra (a ++ TX_EXTRA_DEPOSIT_SECRET :: b :: c) = None.
Proof.
  intros Ha Hb. induction a as [| x a IH]; cbn [app].
  - cbn -[TX_EXTRA_DEPOSIT_SECRET]. rewrite Z.eqb_refl. cbn [negb]. destruct (Z.eqb_spec b 77); [done |]. done.
  - apply not_elem_of_cons in Ha as [Hx Ha].
    destruct (a ++ TX_EXTRA_DEPOSIT_SECRET :: b :: c) as [| y l] eqn:E; [by destruct a |].
    cbn [getDepositSecretFromExtra]. destruct (Z.eqb_spec x TX_EXTRA_DEPOSIT_SECRET); [done |]. cbn [negb]. by apply IH.
Qed.

(** A deposit secret can be lost.  The wallet looks for the secret by scanning the raw bytes for its
    tag instead of parsing the fields: if the transaction public key written before it
    contains the byte 0xD5 and the byte after that is not 77, the secret that was
    stored is not found, although the parser skips the very same field correctly. *)
Theorem deposit_secret_hidden (a c : bytes) (b : Z) (s : TransactionExtraDepositSecret) (extra : bytes) :
  length (a ++ TX_EXTRA_DEPOSIT_SECRET :: b :: c) = 32%nat -> TX_EXTRA_DEPOSIT_SECRET ∉ a -> b <> 77 ->
  length (ds_ephPubKey s) = 32%nat ->
  addDepositSecretToExtra (addTransactionPublicKeyToExtra [] (a ++ TX_EXTRA_DEPOSIT_SECRET :: b :: c)) s = Some extra ->
  getDepositSecretFromExtra extra = None
  /\ parseTransactionExtra extra = (true, [ExtraPublicKey (a ++ TX_EXTRA_DEPOSIT_SECRET :: b :: c)]).
Proof.
  intros Hl Ha Hb Hk He. unfold addDepositSecretToExtra in He.
  destruct (Z.eqb_spec (Z.of_nat (length (ds_encryptedPayload s))) 45) as [Hp |]; [| done]. cbn [negb] in He.
  rewrite Hp in He. change (u8 (32 + u8 45)) with 77 in He.
  injection He as <-. unfold addTransactionPublicKeyToExtra. cbn [app]. split.
  - rewrite <- app_assoc. cbn [app].
    apply (secret_scan_stops (TX_EXTRA_TAG_PUBKEY :: a)); [| done]. apply not_elem_of_cons. done.
  - set (k := a ++ _) in *. unfold parseTransactionExtra. cbn [length]. rewrite length_app, Hl. cbn [Nat.add].
    cbn [parse_loop]. set (w := TX_EXTRA_TAG_PUBKEY :: _). unfold parse_field at 1. cbn -[read_bytes].
    rewrite read_bytes_app by lia. rewrite outcome_bind_ret. cbn [catch app parse_loop].
    unfold parse_field at 1. cbn -[read_bytes read_vec8]. unfold read_vec8. cbn [read_u8]. rewrite outcome_bind_ret.
    rewrite <- (app_nil_r (_ ++ ds_encryptedPayload s)). rewrite read_bytes_app by (rewrite length_app; lia).
    rewrite outcome_bind_ret. done.
Qed.

Lemma deposit_secret_hidden_witness :
  let key := replicate 10 1 ++ TX_EXTRA_DEPOSIT_SECRET :: 3 :: replicate 20 2 in
  let s := mkDepositSecret (replicate 32 8) (replicate 45 6) in
  exists extra, addDepositSecretToExtra (addTransactionPublicKeyToExtra [] key) s = Some extra
    /\ getDepositSecretFromExtra extra = None /\ parseTransactionExtra extra = (true, [ExtraPublicKey key]).
Proof.
  intros key s. eexists. split; [reflexivity |].
  apply (deposit_secret_hidden (replicate 10 1) (replicate 20 2) 3 s).
  - reflexivity.
  - intros H. apply elem_of_replicate in H as [H _]. discriminate.
  - discriminate.
  - reflexivity.
  - reflexivity.
Defined.

(** A receipt is read from the start of the extra field but not skipped: its bytes are parsed again
    as fields, here the public key of the receipt as a transaction public key. *)
Example receipt_parsed_twice :
  let r := mkBurnReceipt (1 :: replicate 31 7) [104; 105] 0 in
  writeTransactionExtra [] [ExtraBurnReceipt r] = (true, addBurnReceiptToExtra [] r)
  /\ parseTransactionExtra (addBurnReceiptToExtra [] r)
     = (false, [ExtraBurnReceipt r; ExtraPublicKey (replicate 31 7 ++ [2])]).
Proof. split; vm_compute; reflexivity. Qed.

(** A metadata of more than 255 bytes is written whole behind a truncated length byte. *)
Example long_metadata_corrupts :
  let h := mkHeat (replicate 32 7) 1 (replicate 256 9 ++ [1]) in
  (parseTransactionExtra (addHeatCommitmentToExtra [] h)).1 = false.
Proof. vm_compute. reflexivity. Qed.

(** ** The parser always answers

    On bytes, no round of the loop fails an assertion or runs out of fuel, and every round reads
    forward: [catch] only hides exceptions, and the fuel of [parseTransactionExtra] is enough. *)

Definition reads {A} (n : nat) (P : A -> Prop) (r : outcome (A * bytes)) : Prop :=
  match r with
  | Ret (a, rest) => P a /\ Forall is_byte rest /\ (length rest <= n)%nat
  | Throw _ => True
  | AssertFail | Undefined => False
  end.

Ltac reads_ret := unfold reads; split; [done | split; [by try constructor | cbn in *; lia]].

Definition any {A} (a : A) : Prop := True.

Lemma reads_bind {A B} n (P : A -> Prop) (Q : B -> Prop) r k :
  reads n P r ->
  (forall a rest, P a -> Forall is_byte rest -> (length rest <= n)%nat -> reads n Q (k (a, rest))) ->
  reads n Q (r ≫= k).
Proof. destruct r as [[a rest] | | |]; cbn; try done. intros (Ha & Hr & Hl) Hk. by apply Hk. Qed.

Lemma reads_weaken {A} n m (P Q : A -> Prop) r :
  (n <= m)%nat -> (forall a, P a -> Q a) -> reads n P r -> reads m Q r.
Proof. intros Hnm HPQ. destruct r as [[a rest] | | |]; cbn; try done. intros (Ha & Hr & Hl). split; [auto | split; [done | lia]]. Qed.

Lemma reads_bytes n size inp :
  Forall is_byte inp -> (length inp <= n)%nat -> reads n (Forall is_byte) (read_bytes size inp).
Proof.
  intros Hb Hl. unfold read_bytes. destruct (_ <? size); [done |]. split; [| split].
  - by apply Forall_take.
  - by apply Forall_drop.
  - rewrite length_drop. lia.
Qed.

Lemma reads_u8 n inp : Forall is_byte inp -> (length inp <= n)%nat -> reads n is_byte (read_u8 inp).
Proof. intros Hb Hl. destruct Hb as [| b inp Hb Hi]; cbn; [done |]. cbn in Hl. by reads_ret. Qed.

Lemma reads_le k n i value inp : Forall is_byte inp -> (length inp <= n)%nat -> reads n any (read_le k i value inp).
Proof.
  revert i value inp. induction k as [| k IH]; intros i value inp Hb Hl; [by split; [| split] |].
  change (reads n any (read_u8 inp ≫= fun '(b, inp) => read_le k (i + 1) (Z.lor value (Z.shiftl b (i * 8))) inp)).
  eapply reads_bind; [by apply reads_u8 |]. intros b rest _ Hr Hlr. by apply IH.
Qed.

Lemma reads_loop fuel w shift temp n inp :
  8 <= w -> 0 <= shift < w -> w - shift <= 7 * Z.of_nat fuel -> Forall is_byte inp -> (length inp <= n)%nat ->
  reads n any (read_loop fuel w shift temp inp).
Proof.
  revert shift temp inp. induction fuel as [| fuel IH]; intros shift temp inp Hw Hs Hf Hb Hl; [lia |].
  destruct Hb as [| p inp Hp Hi]; cbn [read_loop]; [done |]. cbn in Hl. unfold is_byte in Hp.
  destruct ((w - 7 <=? shift) && (Z.shiftl 1 (w - shift) <=? p)) eqn:E; [done |].
  destruct (Z.eqb_spec (Z.land p 0x80) 0) as [| Hc].
  - clear E. destruct (_ && _); [done |]. by reads_ret.
  - assert (Hp128 : 128 <= p) by (destruct (Z.lt_ge_cases p 128); [by rewrite land_80_small in Hc by lia | lia]).
    assert (Hsw : shift < w - 7).
    { destruct (Z.leb_spec (w - 7) shift) as [Hle |]; [| lia]. cbn [andb] in E. apply Z.leb_gt in E.
      rewrite Z.shiftl_1_l in E. pose proof (pow2_le_128 (w - shift)). lia. }
    apply IH; [lia | lia | lia | done | lia].
Qed.

Lemma reads_varint w n inp :
  8 <= w <= 64 -> Forall is_byte inp -> (length inp <= n)%nat -> reads n any (readVarint w inp).
Proof. intros Hw Hb Hl. apply reads_loop; [lia | lia | cbn; lia | done | done]. Qed.

Lemma reads_vec8 n inp : Forall is_byte inp -> (length inp <= n)%nat -> reads n (Forall is_byte) (read_vec8 inp).
Proof.
  intros Hb Hl. eapply reads_bind; [by apply reads_u8 |]. intros a rest _ Hr Hlr. by apply reads_bytes.
Qed.

Lemma reads_vec32 n inp : Forall is_byte inp -> (length inp <= n)%nat -> reads n (Forall is_byte) (read_vec32 inp).
Proof.
  intros Hb Hl. eapply reads_bind; [by apply reads_le |]. intros a rest _ Hr Hlr. by apply reads_bytes.
Qed.

Lemma reads_string n inp : Forall is_byte inp -> (length inp <= n)%nat -> reads n (Forall is_byte) (read_string inp).
Proof.
  intros Hb Hl. eapply reads_bind; [apply (reads_varint 64); [lia | done | done] |].
  intros a rest _ Hr Hlr. cbv beta iota. destruct (_ <? a); [done | by apply reads_bytes].
Qed.

Create HintDb stream.
#[local] Hint Resolve reads_bytes reads_u8 reads_le reads_vec8 reads_vec32 reads_string : stream.

Ltac reads_step :=
  lazymatch goal with
  | |- reads _ _ (Ret (_, _)) => reads_ret
  | |- reads _ _ (readVarint _ _ ≫= _) => eapply reads_bind; [apply reads_varint; [lia | done | done] |]
  | |- reads _ _ (_ ≫= _) => eapply reads_bind; [by eauto with stream |]
  end.
Ltac reads_all := repeat (reads_step; try (intros ? ? ? ? ?; cbv beta iota)).

Lemma padding_loop_reads n size inp size' rest :
  Forall is_byte inp -> (length inp <= n)%nat -> padding_loop size inp = Some (size', rest) ->
  Forall is_byte rest /\ (length rest <= n)%nat.
Proof.
  intros Hb. revert size. induction Hb as [| b inp Hb Hi IH]; intros size Hl H; cbn [padding_loop] in H; [by injection H as <- <- |].
  destruct (size <=? _); [| injection H as <- <-; split; [by constructor | done]].
  destruct (negb _); [done |]. cbn in Hl. eapply IH; [lia | done].
Qed.

Section Readers.
Context (n : nat) (inp : bytes) (Hb : Forall is_byte inp) (Hl : (length inp <= n)%nat).

Lemma reads_elderfier_deposit : reads n any (read_elderfier_deposit inp).
Proof. unfold read_elderfier_deposit. reads_all. Qed.

Lemma reads_elderfier_message : reads n any (read_elderfier_message inp).
Proof. unfold read_elderfier_message. reads_all. Qed.

Lemma reads_heat : reads n any (read_heat inp).
Proof. unfold read_heat. reads_all. Qed.

Lemma reads_yield : reads n any (read_yield inp).
Proof. unfold read_yield. reads_all. Qed.

Lemma reads_cold : reads n any (read_cold inp).
Proof. unfold read_cold. reads_all. Qed.

Lemma reads_migration : reads n any (read_migration inp).
Proof. unfold read_migration. reads_all. Qed.

Lemma reads_mm_tag : reads n any (read_mm_tag inp).
Proof.
  unfold read_mm_tag. eapply reads_bind; [by apply reads_string |]. intros field rest Hf Hr Hlr. cbv beta iota.
  pose proof (reads_varint 64 _ field ltac:(lia) Hf (le_n _)) as Hv.
  destruct (readVarint 64 field) as [[depth f] | | |]; try done. destruct Hv as (_ & Hf' & _). cbn [mbind outcome_bind].
  pose proof (reads_bytes _ 32 f Hf' (le_n _)) as Hm. by destruct (read_bytes 32 f) as [[root g] | | |].
Qed.

End Readers.

#[local] Hint Resolve reads_elderfier_deposit reads_elderfier_message reads_heat reads_yield reads_cold reads_migration
  reads_mm_tag : stream.

Lemma parse_field_throws whole c inp :
  Forall is_byte inp -> reads (length inp) any (parse_field whole c inp).
Proof.
  intros Hb. assert (Hl : (length inp <= length inp)%nat) by done. unfold parse_field.
  repeat (match goal with |- reads _ _ (if ?b then _ else _) => destruct b end); try (reads_all; fail).
  - destruct (padding_loop 1 inp) as [[size rest] |] eqn:E; [| by reads_ret].
    destruct (padding_loop_reads _ _ _ _ _ Hb Hl E). destruct (_ <? size); by reads_ret.
  - eapply reads_bind; [by apply reads_varint |]. intros size rest _ Hr Hlr. cbv beta iota.
    destruct (_ && _); reads_all.
Qed.

Lemma parse_loop_fuel whole inp f1 f2 fields :
  Forall is_byte inp -> (length inp <= f1)%nat -> (length inp <= f2)%nat ->
  parse_loop f1 whole inp fields = parse_loop f2 whole inp fields.
Proof.
  revert inp f2 fields. induction f1 as [| f1 IH]; intros inp f2 fields Hb H1 H2.
  - destruct inp; [by rewrite !parse_loop_nil | cbn in H1; lia].
  - destruct Hb as [| c inp Hc Hi]; [by rewrite !parse_loop_nil |].
    destruct f2 as [| f2]; [cbn in H2; lia |]. cbn [parse_loop length] in *.
    pose proof (parse_field_throws whole c inp Hi) as Hp.
    destruct (parse_field whole c inp) as [[[new |] rest] | | |]; try done. cbn [catch].
    destruct Hp as (_ & Hr & Hlr). apply IH; [done | lia | lia].
Qed.
