(* ===== verification/Codec.v ===== *)
(** The binary serializers: [BinaryInputStreamSerializer] and [BinaryOutputStreamSerializer] of
    [src/src/Serialization], with the overloads for containers of [SerializationOverloads.h].  An
    overload of [ISerializer::operator()] is a [codec]: what it writes on the output serializer and
    what it reads on the input one.  [Lawful] states that the two directions are inverse. *)

From S2P Require Import Prelude IntUtil Varint TransactionExtra.

Record codec (A : Type) := mkCodec { put : A -> bytes; get : bytes -> outcome (A * bytes) }.
Arguments mkCodec {A}.
Arguments put {A}.
Arguments get {A}.

(** * The overloads *)

(** [operator()(uintN_t&)]: a variable-length integer of the type's width. *)
Definition varint (w : Z) : codec Z := mkCodec writeVarint (readVarint w).

(** [binary(void*, size)]: the bytes of a fixed-size object. *)
Definition pod (size : nat) : codec bytes := mkCodec (fun v => v) (read_bytes (Z.of_nat size)).

(** [serializeAsBinary] of a byte vector: [binary(std::string&)], the size and the bytes. *)
Definition blob : codec bytes := mkCodec write_string read_string.

Section Containers.
Context {A : Type} (c : codec A).

(** Elements one after another; an array of a size known beforehand. *)
Definition put_items (l : list A) : bytes := l ≫= put c.

Fixpoint get_array (n : nat) (inp : bytes) : outcome (list A * bytes) :=
  match n with
  | O => Ret ([], inp)
  | S n =>
      '(x, inp) ← get c inp;
      '(l, inp) ← get_array n inp;
      Ret (x :: l, inp)
  end.

Definition array (n : nat) : codec (list A) := mkCodec put_items (get_array n).

(** The loop over the elements: an element takes at least one byte, so that the length of the stream
    is enough fuel; without bytes left the read of an element throws. *)
Fixpoint get_items (fuel : nat) (size : Z) (inp : bytes) : outcome (list A * bytes) :=
  if size <=? 0 then Ret ([], inp)
  else match fuel with
       | O => Throw "Failed to read from IInputStream"
       | S fuel =>
           '(x, inp) ← get c inp;
           '(l, inp) ← get_items fuel (size - 1) inp;
           Ret (x :: l, inp)
       end.

(** [beginArray], then [serializeContainer]. *)
Definition vector : codec (list A) := mkCodec
  (fun l => writeVarint (Z.of_nat (length l)) ++ put_items l)
  (fun inp =>
    '(size, inp) ← readVarint 64 inp;
    if 10000 * 1024 * 1024 <? size then Throw "array size is too big"
    else get_items (length inp) size inp).

End Containers.

(** * Laws *)

(** On the values in [wf] writing can be read back; what is read is in [wf] and was written that
    way; and reading takes bytes. *)
Class Lawful {A} (c : codec A) (wf : A -> Prop) : Prop := {
  get_put a rest : wf a -> get c (put c a ++ rest) = Ret (a, rest);
  put_get inp a rest : Forall is_byte inp -> get c inp = Ret (a, rest) ->
    wf a /\ inp = put c a ++ rest /\ Forall is_byte rest
}.

(** An encoding that is never empty, and the failure on an empty stream. *)
Class Consuming {A} (c : codec A) (wf : A -> Prop) : Prop := {
  put_pos a : wf a -> put c a <> [];
  get_nil : get c [] = Throw "Failed to read from IInputStream"
}.

Definition is_uint (w v : Z) : Prop := 0 <= v < 2 ^ w.
Definition is_pod (size : nat) (v : bytes) : Prop := length v = size /\ Forall is_byte v.
Definition short {A} (l : list A) : Prop := Z.of_nat (length l) <= 10000 * 1024 * 1024.
Definition is_blob (v : bytes) : Prop := short v /\ Forall is_byte v.
Definition is_vector {A} (wf : A -> Prop) (l : list A) : Prop := short l /\ Forall wf l.
Definition is_array {A} (wf : A -> Prop) (n : nat) (l : list A) : Prop := length l = n /\ Forall wf l.

#[export] Instance varint_lawful w : TCEq (andb (8 <=? w) (w <=? 64)) true -> Lawful (varint w) (is_uint w).
Proof.
  intros Hw%TCEq_eq. apply andb_true_iff in Hw as [H1%Z.leb_le H2%Z.leb_le].
  destruct (varint_roundtrip w) as [Hr Hc]; [lia |]. split; cbn [put get varint].
  - intros a rest Ha. by apply Hr.
  - intros inp a rest Hb Hg. destruct (Hc inp a rest Hb Hg) as [Ha ->]. split; [done |]. split; [done |].
    by apply Forall_app in Hb as [_ ?].
Qed.

#[export] Instance pod_lawful size : Lawful (pod size) (is_pod size).
Proof.
  split; cbn [put get pod].
  - intros a rest [Hl _]. apply read_bytes_app. by rewrite Hl.
  - intros inp a rest Hb. unfold read_bytes. rewrite Nat2Z.id.
    destruct (Z.ltb_spec (Z.of_nat (length inp)) (Z.of_nat size)) as [| Hle]; [done |]. intros [= <- <-].
    rewrite <- (take_drop size inp) in Hb. apply Forall_app in Hb as [? ?]. unfold is_pod.
    rewrite length_take, take_drop. split_and!; try done. lia.
Qed.

Lemma writeVarint_pos v : writeVarint v <> [].
Proof. intros Hn. pose proof (length_write_loop_pos 9 v) as Hl. unfold writeVarint in Hn. rewrite Hn in Hl. cbn in Hl. lia. Qed.

#[export] Instance varint_consuming w : Consuming (varint w) (is_uint w).
Proof. split; [intros a _; apply writeVarint_pos | done]. Qed.

#[export] Instance blob_lawful : Lawful blob is_blob.
Proof.
  destruct (varint_roundtrip 64) as [Hr Hc]; [lia |]. split; cbn [put get blob]; unfold write_string, read_string.
  - intros a rest [Hs _]. unfold short in Hs. rewrite <- app_assoc, Hr, outcome_bind_ret by lia.
    destruct (Z.ltb_spec (10000 * 1024 * 1024) (Z.of_nat (length a))); [lia |]. by apply read_bytes_app.
  - intros inp a rest Hb ([size i] & Hv & Hg)%outcome_bind_inv.
    apply Hc in Hv as [Hsz ->]; [| done]. apply Forall_app in Hb as [_ Hb].
    destruct (Z.ltb_spec (10000 * 1024 * 1024) size); [done |].
    replace size with (Z.of_nat (Z.to_nat size)) in Hg by lia.
    apply (put_get (c := pod (Z.to_nat size))) in Hg as ([Hl Hba] & -> & Hrest); [| done]. cbn [put pod].
    unfold is_blob, short. rewrite Hl, <- app_assoc. replace (Z.of_nat (Z.to_nat size)) with size by lia.
    split_and!; try done; lia.
Qed.

Section ContainerLaws.
Context {A : Type} (c : codec A) (wf : A -> Prop) {L : Lawful c wf}.

#[export] Instance array_lawful n : Lawful (array c n) (is_array wf n).
Proof.
  split; cbn [put get array].
  - intros l rest [Hn Hl]. subst n. induction Hl as [| x l Hx Hl IH]; cbn [length get_array]; [done |].
    unfold put_items in *. rewrite bind_cons, <- app_assoc, get_put by done. rewrite outcome_bind_ret, IH. done.
  - intros inp a rest. revert inp a rest. induction n as [| n IH]; cbn [get_array]; intros inp l rest Hb Hg.
    + injection Hg as <- <-. by repeat constructor.
    + apply outcome_bind_inv in Hg as ([x i] & Hx & Hg). apply outcome_bind_inv in Hg as ([l' i'] & Hl & Hg).
      injection Hg as <- <-. apply put_get in Hx as (Hwx & -> & Hb1); [| done].
      apply IH in Hl as ([Hn Hwl] & -> & Hb2); [| done]. unfold put_items in *. rewrite bind_cons, <- app_assoc.
      split; [split; [cbn; by rewrite Hn | by constructor] | done].
Qed.

Context {N : Consuming c wf}.

Lemma get_items_put l rest fuel :
  Forall wf l -> (length (put_items c l) <= fuel)%nat ->
  get_items c fuel (Z.of_nat (length l)) (put_items c l ++ rest) = Ret (l, rest).
Proof.
  intros Hl. revert fuel. induction Hl as [| x l Hx Hl IH]; intros fuel Hf; [by destruct fuel |].
  unfold put_items in *. rewrite bind_cons, length_app in *. rewrite <- app_assoc.
  pose proof (put_pos x Hx) as Hp. destruct fuel as [| fuel]; [destruct (put c x); cbn in *; [done | lia] |]. cbn [get_items length].
  destruct (Z.leb_spec (Z.of_nat (S (length l))) 0); [lia |]. rewrite get_put, outcome_bind_ret by done.
  replace (Z.of_nat (S (length l)) - 1) with (Z.of_nat (length l)) by lia.
  rewrite IH by (destruct (put c x); cbn in *; [done | lia]). done.
Qed.

Lemma put_get_items fuel size inp l rest :
  0 <= size -> Forall is_byte inp -> get_items c fuel size inp = Ret (l, rest) ->
  Z.of_nat (length l) = size /\ Forall wf l /\ inp = put_items c l ++ rest /\ Forall is_byte rest.
Proof.
  revert size inp l. induction fuel as [| fuel IH]; intros size inp l Hs Hb Hg; cbn [get_items] in Hg;
    destruct (Z.leb_spec size 0); try done.
  - injection Hg as <- <-. split_and!; [cbn; lia | constructor | done | done].
  - injection Hg as <- <-. split_and!; [cbn; lia | constructor | done | done].
  - apply outcome_bind_inv in Hg as ([x i] & Hx & Hg). apply outcome_bind_inv in Hg as ([l' i'] & Hl & Hg).
    injection Hg as <- <-. apply put_get in Hx as (Hwx & -> & Hb1); [| done].
    apply IH in Hl as (Hn & Hwl & -> & Hb2); [| lia | done]. unfold put_items in *. rewrite bind_cons, <- app_assoc.
    cbn [length]. split_and!; [lia | by constructor | done | done].
Qed.

#[export] Instance vector_lawful : Lawful (vector c) (is_vector wf).
Proof.
  destruct (varint_roundtrip 64) as [Hr Hc]; [lia |]. split; cbn [put get vector].
  - intros l rest [Hs Hl]. unfold short in Hs. rewrite <- app_assoc, Hr, outcome_bind_ret by lia.
    destruct (Z.ltb_spec (10000 * 1024 * 1024) (Z.of_nat (length l))); [lia |].
    apply get_items_put; [done |]. rewrite length_app. lia.
  - intros inp l rest Hb ([size i] & Hv & Hg)%outcome_bind_inv. apply Hc in Hv as [Hsz ->]; [| done].
    apply Forall_app in Hb as [_ Hb]. destruct (Z.ltb_spec (10000 * 1024 * 1024) size); [done |].
    apply put_get_items in Hg as (Hn & Hwl & -> & Hrest); [| lia | done].
    unfold is_vector, short. rewrite Hn, <- app_assoc. split_and!; try done.
Qed.

(** More fuel than bytes changes nothing: an element takes a byte, and the empty stream throws. *)
Lemma get_items_fuel fuel more size inp :
  Forall is_byte inp -> (length inp <= fuel)%nat -> get_items c fuel size inp = get_items c (fuel + more) size inp.
Proof.
  revert size inp. induction fuel as [| fuel IH]; intros size inp Hb Hf; cbn [get_items Nat.add].
  - destruct inp; [| cbn in Hf; lia]. destruct more as [| more]; [done |]. cbn [get_items]. destruct (size <=? 0); [done |].
    by rewrite get_nil.
  - destruct (size <=? 0); [done |]. destruct (get c inp) as [[x i] | | |] eqn:Hx; [| done | done | done].
    rewrite !outcome_bind_ret. apply put_get in Hx as (Hwx & -> & Hb1); [| done].
    rewrite IH; [done | done |]. rewrite length_app in Hf. pose proof (put_pos x Hwx) as Hp.
    destruct (put c x); [done |]. cbn [length] in Hf. lia.
Qed.

End ContainerLaws.

#[export] Instance pod_consuming size : Consuming (pod (S size)) (is_pod (S size)).
Proof. split; [| done]. by intros [| b a] [Hl _]. Qed.
