(* ===== verification/SwappedVector.v ===== *)
(** [src/src/CryptoNoteCore/SwappedVector.h]: the vector of blocks that the node keeps in two files, with
    the items used last in memory.  The items file holds the encodings of the items one after the other;
    the index file holds their number and the size of each.

    A file stream is its bytes and its state ([operator!]); what a write to the disk reports is left to
    [f_good].  The iterators that link [m_items] and [m_cache] are the index of the item.  The reference
    that [prepare] returns is assigned at once by its callers, so that the item is an argument here. *)

From S2P Require Import Prelude TransactionExtra Codec.

(** * Files *)

Record File := mkFile { f_bytes : bytes; f_good : bool }.

(** [seekp] and [write]: bytes that are skipped past the end are zero. *)
Definition write_at (pos : Z) (data file : bytes) : bytes :=
  let n := Z.to_nat pos in
  take n (file ++ replicate (n - length file) 0) ++ data ++ drop (n + length data) file.

Definition f_write (pos : Z) (data : bytes) (f : File) : File :=
  if f_good f then mkFile (write_at pos data (f_bytes f)) true else f.

(** [read] of an unsigned integer of [n] bytes. *)
Definition read_uint (n : nat) (inp : bytes) : option (Z * bytes) :=
  if (length inp <? n)%nat then None else Some (le_value (take n inp), drop n inp).

(** The two files by name: [None] when there is no such file. *)
Definition Disk : Type := option bytes * option bytes.

Section SwappedVector.
Context {T : Type} (c : codec T).

Record SwappedVector := mkSwapped {
  m_itemsFile : File;
  m_indexesFile : File;
  m_poolSize : Z;
  m_offsets : list Z;
  m_itemsFileSize : Z;
  m_items : gmap Z T;
  m_cache : list Z;
  m_cacheHits : Z;
  m_cacheMisses : Z
}.

Definition sv_size (v : SwappedVector) : Z := Z.of_nat (length (m_offsets v)).
Definition sv_empty (v : SwappedVector) : bool := bool_decide (m_offsets v = []).

(** * Opening *)

(** The sizes of the items give their offsets; reading past the end of the index file fails. *)
Fixpoint read_sizes (fuel : nat) (count : Z) (inp : bytes) (offsets : list Z) (itemsFileSize : Z) : option (list Z * Z) :=
  if count <=? 0 then Some (offsets, itemsFileSize)
  else
    match fuel with
    | O => None
    | S fuel =>
        match read_uint 4 inp with
        | None => None
        | Some (itemSize, inp) => read_sizes fuel (count - 1) inp (offsets ++ [itemsFileSize]) (u64 (itemsFileSize + itemSize))
        end
    end.

(** A new index file is written when one of the files is missing; when only the items file is missing, the
    index file is open already, cannot be opened again and [open] fails after it has created the items file. *)
Definition sv_open (d : Disk) (poolSize : Z) : Disk + SwappedVector :=
  if poolSize =? 0 then inl d
  else
    match d with
    | (Some items, Some indexes) =>
        match read_uint 8 indexes with
        | None => inl d
        | Some (count, inp) =>
            match read_sizes (length inp) count inp [] 0 with
            | None => inl d
            | Some (offsets, itemsFileSize) =>
                inr (mkSwapped (mkFile items true) (mkFile indexes true) poolSize offsets itemsFileSize ∅ [] 0 0)
            end
        end
    | (None, Some indexes) => inl (Some [], Some indexes)
    | (items, None) =>
        inr (mkSwapped (mkFile (default [] items) true) (mkFile (write_le 8 0) true) poolSize [] 0 ∅ [] 0 0)
    end.

(** * Access *)

(** The item used longest ago leaves when the pool is full. *)
Definition prepare (v : SwappedVector) (index : Z) (item : T) : outcome SwappedVector :=
  '(items, cache) ← (if Z.of_nat (size (m_items v)) =? m_poolSize v then
                       match m_cache v with [] => Undefined | k :: rest => Ret (delete k (m_items v), rest) end
                     else Ret (m_items v, m_cache v));
  Ret (mkSwapped (m_itemsFile v) (m_indexesFile v) (m_poolSize v) (m_offsets v) (m_itemsFileSize v)
         (<[index := item]> items) (cache ++ [index]) (m_cacheHits v) (m_cacheMisses v)).

Definition counted (hits misses : Z) (v : SwappedVector) : SwappedVector :=
  mkSwapped (m_itemsFile v) (m_indexesFile v) (m_poolSize v) (m_offsets v) (m_itemsFileSize v) (m_items v) (m_cache v)
    (u64 (m_cacheHits v + hits)) (u64 (m_cacheMisses v + misses)).

(** [splice] to the end of the list. *)
Definition touch (index : Z) (v : SwappedVector) : SwappedVector :=
  mkSwapped (m_itemsFile v) (m_indexesFile v) (m_poolSize v) (m_offsets v) (m_itemsFileSize v) (m_items v)
    (if decide (last (m_cache v) = Some index) then m_cache v else filter (fun k => k <> index) (m_cache v) ++ [index])
    (m_cacheHits v) (m_cacheMisses v).

Definition sv_at (v : SwappedVector) (index : Z) : outcome (T * SwappedVector) :=
  match m_items v !! index with
  | Some item => Ret (item, counted 1 0 (touch index v))
  | None =>
      if sv_size v <=? index then Throw "SwappedVector::operator[]"
      else if negb (f_good (m_itemsFile v)) then Throw "SwappedVector::operator[]"
      else
        offset ← vec_at (m_offsets v) index;
        '(tempItem, _) ← get c (drop (Z.to_nat offset) (f_bytes (m_itemsFile v)));
        v ← prepare v index tempItem;
        Ret (tempItem, counted 0 1 v)
  end.

Definition sv_front (v : SwappedVector) : outcome (T * SwappedVector) := sv_at v 0.
Definition sv_back (v : SwappedVector) : outcome (T * SwappedVector) := sv_at v (u64 (sv_size v - 1)).

(** * Changes *)

Definition sv_clear (v : SwappedVector) : outcome SwappedVector :=
  if negb (f_good (m_indexesFile v)) then Throw "SwappedVector::clear"
  else
    let indexes := f_write 0 (write_le 8 0) (m_indexesFile v) in
    if negb (f_good indexes) then Throw "SwappedVector::clear"
    else Ret (mkSwapped (m_itemsFile v) indexes (m_poolSize v) [] 0 ∅ [] (m_cacheHits v) (m_cacheMisses v)).

Definition sv_pop_back (v : SwappedVector) : outcome SwappedVector :=
  if negb (f_good (m_indexesFile v)) then Throw "SwappedVector::pop_back"
  else
    let indexes := f_write 0 (write_le 8 (u64 (sv_size v - 1))) (m_indexesFile v) in
    if negb (f_good indexes) then Throw "SwappedVector::pop_back"
    else
      match last (m_offsets v) with
      | None => Undefined
      | Some itemsFileSize =>
          let offsets := take (length (m_offsets v) - 1) (m_offsets v) in
          let n := Z.of_nat (length offsets) in
          let '(items, cache) :=
            match m_items v !! n with
            | Some _ => (delete n (m_items v), filter (fun k => k <> n) (m_cache v))
            | None => (m_items v, m_cache v)
            end in
          Ret (mkSwapped (m_itemsFile v) indexes (m_poolSize v) offsets itemsFileSize items cache (m_cacheHits v) (m_cacheMisses v))
      end.

Definition sv_push_back (v : SwappedVector) (item : T) : outcome SwappedVector :=
  if negb (f_good (m_itemsFile v)) then Throw "SwappedVector::push_back"
  else
    let items := f_write (m_itemsFileSize v) (put c item) (m_itemsFile v) in
    let itemsFileSize := m_itemsFileSize v + Z.of_nat (length (put c item)) in
    if negb (f_good (m_indexesFile v)) then Throw "SwappedVector::push_back"
    else
      let itemSize := u32 (itemsFileSize - m_itemsFileSize v) in
      let indexes := f_write (8 + 4 * sv_size v) (write_le 4 itemSize) (m_indexesFile v) in
      if negb (f_good indexes) then Throw "SwappedVector::push_back"
      else
        let indexes := f_write 0 (write_le 8 (sv_size v + 1)) indexes in
        if negb (f_good indexes) then Throw "SwappedVector::push_back"
        else
          let v := mkSwapped items indexes (m_poolSize v) (m_offsets v ++ [m_itemsFileSize v]) itemsFileSize
                     (m_items v) (m_cache v) (m_cacheHits v) (m_cacheMisses v) in
          prepare v (sv_size v - 1) item.

(** What is on the disk when the streams are closed. *)
Definition disk_of (v : SwappedVector) : Disk := (Some (f_bytes (m_itemsFile v)), Some (f_bytes (m_indexesFile v))).

End SwappedVector.

Arguments SwappedVector : clear implicits.

(** * Files as lists *)

Lemma le_value_write_le n v : 0 <= v < 256 ^ Z.of_nat n -> le_value (write_le n v) = v.
Proof.
  revert v. induction n as [| n IH]; intros v Hv; cbn [write_le le_value].
  - change (256 ^ Z.of_nat 0) with 1 in Hv. lia.
  - rewrite Nat2Z.inj_succ, Z.pow_succ_r in Hv by lia. rewrite Z.shiftr_div_pow2 by lia. change (2 ^ 8) with 256.
    change 255 with (Z.ones 8). rewrite Z.land_ones by lia. change (2 ^ 8) with 256.
    rewrite IH; [pose proof (Z.div_mod v 256); lia |]. split; [apply Z.div_pos; lia | apply Z.div_lt_upper_bound; lia].
Qed.

Lemma length_write_le n v : length (write_le n v) = n.
Proof. revert v. induction n as [| n IH]; intros v; cbn [write_le length]; [done | by rewrite IH]. Qed.

Lemma read_uint_app n v rest : 0 <= v < 256 ^ Z.of_nat n -> read_uint n (write_le n v ++ rest) = Some (v, rest).
Proof.
  intros Hv. unfold read_uint. rewrite length_app, length_write_le. destruct (Nat.ltb_spec (n + length rest) n); [lia |].
  rewrite take_app_length', drop_app_length' by (by rewrite length_write_le). by rewrite le_value_write_le.
Qed.

(** Overwriting what follows a prefix, and overwriting the prefix itself. *)
Lemma write_at_after pre data tail :
  exists tail', write_at (Z.of_nat (length pre)) data (pre ++ tail) = pre ++ data ++ tail'.
Proof.
  unfold write_at. rewrite Nat2Z.id. rewrite <- app_assoc, take_app_length. by eexists.
Qed.

Lemma write_at_start old data rest : length old = length data -> write_at 0 data (old ++ rest) = data ++ rest.
Proof. intros Hl. unfold write_at. change (Z.to_nat 0) with 0%nat. cbn [take app Nat.add]. rewrite <- Hl. by rewrite drop_app_length. Qed.

Lemma filter_everything {A} (P : A -> Prop) `{!forall x, Decision (P x)} (l : list A) : Forall P l -> filter P l = l.
Proof. induction 1 as [| x l Hx _ IH]; [done |]. by rewrite filter_cons_True, IH. Qed.

(** * The vector as a list *)

Section Refinement.
Context {T : Type} (c : codec T) (wf : T -> Prop) `{!Lawful c wf}.

Definition item_size (x : T) : Z := Z.of_nat (length (put c x)).
Definition stored_size (l : list T) : Z := Z.of_nat (length (put_items c l)).

(** The offset of each item is the size of those before it. *)
Fixpoint offsets_of (start : Z) (l : list T) : list Z :=
  match l with [] => [] | x :: l => start :: offsets_of (start + item_size x) l end.

Definition size_table (l : list T) : bytes := l ≫= (fun x => write_le 4 (item_size x)).

(** What is well within the widths: sizes of items at 32 bits, the size of the files at 63. *)
Record fits (l : list T) : Prop := {
  fits_items : Forall (fun x => wf x /\ item_size x < 2 ^ 32) l;
  fits_size : stored_size l < 2 ^ 63;
  fits_length : Z.of_nat (length l) < 2 ^ 60
}.

Record cache_ok (l : list T) (v : SwappedVector T) : Prop := {
  cache_items i x : m_items v !! i = Some x -> 0 <= i /\ l !! Z.to_nat i = Some x;
  cache_nodup : NoDup (m_cache v);
  cache_keys i : i ∈ m_cache v <-> is_Some (m_items v !! i);
  cache_room : Z.of_nat (length (m_cache v)) <= m_poolSize v
}.

Record sv_rep (l : list T) (v : SwappedVector T) : Prop := {
  rep_pool : 0 < m_poolSize v;
  rep_items : exists tail, m_itemsFile v = mkFile (put_items c l ++ tail) true;
  rep_index : exists tail, m_indexesFile v = mkFile (write_le 8 (Z.of_nat (length l)) ++ size_table l ++ tail) true;
  rep_offsets : m_offsets v = offsets_of 0 l;
  rep_end : m_itemsFileSize v = stored_size l;
  rep_cache : cache_ok l v
}.

Lemma length_offsets start l : length (offsets_of start l) = length l.
Proof. revert start. induction l as [| x l IH]; intros start; cbn; [done | by rewrite IH]. Qed.

Lemma stored_cons x l : stored_size (x :: l) = item_size x + stored_size l.
Proof. unfold stored_size, item_size, put_items. cbn. rewrite length_app. lia. Qed.

Lemma stored_snoc l x : stored_size (l ++ [x]) = stored_size l + item_size x.
Proof. unfold stored_size, item_size, put_items. rewrite bind_app, length_app. cbn. rewrite app_nil_r. lia. Qed.

Lemma offsets_snoc start l x : offsets_of start (l ++ [x]) = offsets_of start l ++ [start + stored_size l].
Proof.
  revert start. induction l as [| y l IH]; intros start; cbn [offsets_of app].
  - do 2 f_equal. unfold stored_size. cbn. lia.
  - rewrite IH, stored_cons. do 3 f_equal. lia.
Qed.

(** Each item is found at its offset. *)
Lemma offset_lookup start l i x :
  l !! i = Some x -> exists pre post, offsets_of start l !! i = Some (start + stored_size pre)
    /\ put_items c l = put_items c pre ++ put c x ++ put_items c post /\ l = pre ++ x :: post.
Proof.
  revert start i. induction l as [| y l IH]; intros start i Hi; [done |]. destruct i as [| i]; cbn in Hi.
  - injection Hi as ->. exists [], l. split_and!; [| done | done]. cbn. f_equal. unfold stored_size. cbn. lia.
  - destruct (IH (start + item_size y) i Hi) as (pre & post & Ho & Hp & ->). exists (y :: pre), post.
    split_and!; [| | done].
    + etransitivity; [exact Ho |]. f_equal. rewrite stored_cons. lia.
    + unfold put_items in *. cbn. rewrite Hp. by rewrite <- app_assoc.
Qed.

Lemma length_size_table l : length (size_table l) = (4 * length l)%nat.
Proof. unfold size_table. induction l as [| x l IH]; [done |]. rewrite bind_cons, length_app, length_write_le, IH. cbn [length]. lia. Qed.

Lemma size_table_snoc l x : size_table (l ++ [x]) = size_table l ++ write_le 4 (item_size x).
Proof. unfold size_table. rewrite bind_app, bind_cons. cbn [mbind list_bind]. by rewrite app_nil_r. Qed.

Lemma size_map_keys l v : cache_ok l v -> Z.of_nat (size (m_items v)) = Z.of_nat (length (m_cache v)).
Proof.
  intros [_ Hn Hk _]. f_equal. rewrite <- size_dom. rewrite <- (size_list_to_set (C := gset Z) (m_cache v)) by done.
  f_equal. apply set_eq. intros i. rewrite elem_of_list_to_set, elem_of_dom. symmetry. apply Hk.
Qed.

(** * Each operation *)

Ltac keep_rep H := destruct H as [Hpool [itail Hitems] [xtail Hindex] Hoff Hend Hcache].

Lemma prepare_rep l v i x :
  sv_rep l v -> m_items v !! i = None -> 0 <= i -> l !! Z.to_nat i = Some x ->
  exists v', prepare v i x = Ret v' /\ sv_rep l v'.
Proof.
  intros H Hi Hpos Hx. keep_rep H. pose proof (size_map_keys l v Hcache) as Hsize.
  destruct Hcache as [Hit Hnd Hk Hroom].
  assert (Hnot : i ∉ m_cache v) by (rewrite Hk, Hi; by intros [? ?]).
  assert (Hadd : forall items cache, items ⊆ m_items v -> NoDup cache -> i ∉ cache -> (forall j, j ∈ cache <-> is_Some (items !! j)) ->
    Z.of_nat (length cache) < m_poolSize v ->
    sv_rep l (mkSwapped (m_itemsFile v) (m_indexesFile v) (m_poolSize v) (m_offsets v) (m_itemsFileSize v)
       (<[i := x]> items) (cache ++ [i]) (m_cacheHits v) (m_cacheMisses v))).
  { intros items cache Hsub Hnd' Hni Hkeys Hlt. split; try done; [by eexists | by eexists |]. split; cbn.
    - intros j y. destruct (decide (j = i)) as [-> | Hne].
      + rewrite lookup_insert_eq. by intros [= ->].
      + rewrite lookup_insert_ne by done. intros Hy. apply Hit. by apply (lookup_weaken _ _ _ _ Hy).
    - apply NoDup_app. split_and!; [done | | apply NoDup_singleton]. intros j Hj ->%list_elem_of_singleton. done.
    - intros j. rewrite elem_of_app, list_elem_of_singleton, Hkeys. destruct (decide (j = i)) as [-> | Hne].
      + rewrite lookup_insert_eq. split; [by eexists | by right].
      + rewrite lookup_insert_ne by done. split; [intros [? | ?]; done | by left].
    - rewrite length_app. cbn. lia. }
  unfold prepare. rewrite Hsize. destruct (Z.eqb_spec (Z.of_nat (length (m_cache v))) (m_poolSize v)) as [Hfull | Hfull].
  - destruct (m_cache v) as [| k rest] eqn:Hc; [cbn in Hfull; lia |]. rewrite outcome_bind_ret. eexists. split; [reflexivity |].
    apply NoDup_cons in Hnd as [Hkr Hnd]. apply Hadd; [apply delete_subseteq | done | by intros Hin; apply Hnot; right | | cbn in Hfull; lia].
    intros j. destruct (decide (j = k)) as [-> | Hne].
    + rewrite lookup_delete_eq. split; [by intros Hin; destruct (Hkr Hin) | by intros [? ?]].
    + rewrite lookup_delete_ne, <- Hk, elem_of_cons by done. split; [by right | by intros [? | ?]].
  - rewrite outcome_bind_ret. eexists. split; [reflexivity |]. apply Hadd; try done; lia.
Qed.

Lemma counted_rep l v h m : sv_rep l v -> sv_rep l (counted h m v).
Proof. intros [? ? ? ? ? [? ? ? ?]]. split; [done.. |]. by split. Qed.

Lemma touch_rep l v i : sv_rep l v -> is_Some (m_items v !! i) -> sv_rep l (touch i v).
Proof.
  intros H Hi. keep_rep H. destruct Hcache as [Hit Hnd Hk Hroom].
  split; try done; [by eexists | by eexists |]. unfold touch. cbn. destruct (decide _) as [Hl | Hl]; [done |].
  assert (Hperm : filter (fun k => k <> i) (m_cache v) ++ [i] ≡ₚ m_cache v).
  { symmetry. apply NoDup_Permutation; [done | |].
    - apply NoDup_app. split_and!; [by apply NoDup_filter | | apply NoDup_singleton].
      intros j Hj ->%list_elem_of_singleton. by apply list_elem_of_filter in Hj as [? _].
    - intros j. rewrite elem_of_app, list_elem_of_filter, list_elem_of_singleton. destruct (decide (j = i)) as [-> | Hne].
      + split; [by right | by rewrite Hk].
      + split; [by left | intros [[_ ?] | ?]; done]. }
  split; cbn; [done | by rewrite Hperm | intros j; by rewrite Hperm | by rewrite Hperm].
Qed.

Lemma sv_at_rep l v i x :
  fits l -> sv_rep l v -> 0 <= i -> l !! Z.to_nat i = Some x ->
  exists v', sv_at c v i = Ret (x, v') /\ sv_rep l v'.
Proof.
  intros Hf H Hpos Hx. unfold sv_at. destruct (m_items v !! i) as [y |] eqn:Hi.
  - destruct (cache_items _ _ (rep_cache _ _ H) _ _ Hi) as [_ Hy]. rewrite Hx in Hy. injection Hy as <-.
    eexists. split; [reflexivity |]. apply counted_rep, touch_rep; [done | by eexists].
  - destruct (prepare_rep l v i x H Hi Hpos Hx) as (v' & Hp & Hv'). keep_rep H.
    destruct (offset_lookup 0 _ _ _ Hx) as (pre & post & Ho & Hput & Hl).
    unfold sv_size. rewrite Hoff, length_offsets. pose proof (lookup_lt_Some _ _ _ Hx).
    destruct (Z.leb_spec (Z.of_nat (length l)) i); [lia |]. rewrite Hitems. cbn [f_good f_bytes negb].
    rewrite (vec_at_lookup _ _ _ Hpos Ho), outcome_bind_ret, Hput. unfold stored_size. rewrite Z.add_0_l, Nat2Z.id.
    rewrite <- app_assoc, drop_app_length, <- app_assoc.
    assert (Hwf : wf x) by (eapply (proj1 (Forall_forall _ _) (fits_items _ Hf)), list_elem_of_lookup_2; exact Hx).
    rewrite (get_put x _ Hwf), outcome_bind_ret, Hp, outcome_bind_ret. eexists. split; [reflexivity |]. by apply counted_rep.
Qed.

Lemma sv_at_out l v i : sv_rep l v -> Z.of_nat (length l) <= i -> sv_at c v i = Throw "SwappedVector::operator[]".
Proof.
  intros H Hle. unfold sv_at, sv_size. rewrite (rep_offsets _ _ H), length_offsets.
  destruct (m_items v !! i) as [y |] eqn:Hi.
  - destruct (cache_items _ _ (rep_cache _ _ H) _ _ Hi) as [? Hy%lookup_lt_Some]. lia.
  - destruct (Z.leb_spec (Z.of_nat (length l)) i); [done | lia].
Qed.

Lemma f_write_count l n tail :
  f_write 0 (write_le 8 n) (mkFile (write_le 8 (Z.of_nat (length l)) ++ size_table l ++ tail) true)
    = mkFile (write_le 8 n ++ size_table l ++ tail) true.
Proof. unfold f_write. cbn [f_good f_bytes]. rewrite write_at_start; [done |]. by rewrite !length_write_le. Qed.

Lemma fits_prefix l x : fits (l ++ [x]) -> fits l /\ wf x /\ item_size x < 2 ^ 32.
Proof.
  intros [Hi Hs Hl]. apply Forall_app in Hi as [Hi Hx]. rewrite Forall_singleton in Hx. rewrite length_app in Hl. cbn [length] in Hl.
  rewrite stored_snoc in Hs. unfold item_size in *. split; [split; [done | lia | lia] | done].
Qed.

Lemma sv_push_back_rep l v x :
  fits (l ++ [x]) -> sv_rep l v -> exists v', sv_push_back c v x = Ret v' /\ sv_rep (l ++ [x]) v'.
Proof.
  intros Hf H. destruct (fits_prefix _ _ Hf) as (Hf' & Hwf & Hx). keep_rep H. pose proof (length_offsets 0 l) as Hlo.
  unfold sv_push_back, sv_size. rewrite Hitems, Hindex, Hoff, Hlo, Hend. cbn [f_good negb].
  replace (u32 _) with (item_size x) by (unfold item_size in *; rewrite u32_small; lia).
  destruct (write_at_after (put_items c l) (put c x) itail) as [itail' Hw].
  destruct (write_at_after (write_le 8 (Z.of_nat (length l)) ++ size_table l) (write_le 4 (item_size x)) xtail) as [xtail' Hw'].
  assert (Hi : f_write (stored_size l) (put c x) (mkFile (put_items c l ++ itail) true) = mkFile (put_items c (l ++ [x]) ++ itail') true).
  { unfold f_write, stored_size. cbn [f_good f_bytes]. rewrite Hw. unfold put_items. rewrite bind_app, bind_cons. cbn [mbind list_bind].
    by rewrite app_nil_r, <- app_assoc. }
  assert (Hn : f_write (8 + 4 * Z.of_nat (length l)) (write_le 4 (item_size x)) (mkFile (write_le 8 (Z.of_nat (length l)) ++ size_table l ++ xtail) true)
    = mkFile (write_le 8 (Z.of_nat (length l)) ++ size_table (l ++ [x]) ++ xtail') true).
  { unfold f_write. cbn [f_good f_bytes].
    replace (8 + 4 * Z.of_nat (length l)) with (Z.of_nat (length (write_le 8 (Z.of_nat (length l)) ++ size_table l)))
      by (rewrite length_app, length_write_le, length_size_table; lia).
    rewrite app_assoc, Hw', size_table_snoc. by rewrite <- !app_assoc. }
  rewrite Hi, Hn. cbn [f_good negb]. unfold f_write at 1 2. cbn [f_good f_bytes negb].
  rewrite write_at_start by (by rewrite !length_write_le).
  cbn [m_offsets]. rewrite length_app, Hlo. cbn [length]. replace (Z.of_nat (length l + 1) - 1) with (Z.of_nat (length l)) by lia.
  apply prepare_rep; [| | lia | by rewrite Nat2Z.id, lookup_app_r, Nat.sub_diag by lia].
  - split; cbn; try done.
    + by eexists.
    + exists xtail'. rewrite length_app. cbn [length]. by replace (Z.of_nat (length l) + 1) with (Z.of_nat (length l + 1)) by lia.
    + by rewrite offsets_snoc.
    + by rewrite stored_snoc.
    + destruct Hcache as [Hit ? ? ?]. split; try done. cbn. intros i y Hi'. destruct (Hit i y Hi') as [? ?]. split; [done | by apply lookup_app_l_Some].
  - cbn. destruct (m_items v !! Z.of_nat (length l)) as [y |] eqn:Hy; [| done].
    destruct (cache_items _ _ Hcache _ _ Hy) as [_ Hl%lookup_lt_Some]. lia.
Qed.

Lemma sv_pop_back_rep l x v :
  fits (l ++ [x]) -> sv_rep (l ++ [x]) v -> exists v', sv_pop_back v = Ret v' /\ sv_rep l v'.
Proof.
  intros Hf H. keep_rep H. destruct (fits_length _ Hf). rewrite offsets_snoc in Hoff. pose proof (fits_length _ Hf) as Hlen.
  rewrite length_app in Hlen. cbn [length] in Hlen.
  unfold sv_pop_back, sv_size. rewrite Hindex. cbn [f_good negb]. rewrite f_write_count. cbn [f_good negb].
  rewrite Hoff, last_snoc, length_app, length_offsets. cbn [length]. rewrite Nat.add_sub, take_app_length' by (by rewrite length_offsets).
  rewrite length_offsets. replace (u64 _) with (Z.of_nat (length l)) by (rewrite u64_small; lia).
  rewrite size_table_snoc, <- app_assoc.
  assert (Hdone : forall items cache, (forall i, items !! i = if decide (i = Z.of_nat (length l)) then None else m_items v !! i) ->
    cache = filter (fun k => k <> Z.of_nat (length l)) (m_cache v) ->
    sv_rep l (mkSwapped (m_itemsFile v) (mkFile (write_le 8 (Z.of_nat (length l)) ++ size_table l ++ write_le 4 (item_size x) ++ xtail) true)
      (m_poolSize v) (offsets_of 0 l) (0 + stored_size l) items cache (m_cacheHits v) (m_cacheMisses v))).
  { intros items cache Hitems' ->. destruct Hcache as [Hit Hnd Hk Hroom]. split; cbn; try done.
    - exists (put c x ++ itail). rewrite Hitems. unfold put_items. rewrite bind_app, bind_cons. cbn [mbind list_bind]. by rewrite app_nil_r, <- app_assoc.
    - by eexists.
    - split; cbn.
      + intros i y. rewrite Hitems'. case_decide as Hi; [done |]. intros Hy. destruct (Hit i y Hy) as [Hpos Hl]. split; [done |].
        pose proof (lookup_lt_Some _ _ _ Hl) as Hlt. rewrite length_app in Hlt. cbn [length] in Hlt. by rewrite lookup_app_l in Hl by lia.
      + by apply NoDup_filter.
      + intros i. rewrite list_elem_of_filter, Hitems', Hk. case_decide as Hi; [split; [by intros [? _] | by intros [? ?]] | split; [by intros [_ ?] | by split]].
      + pose proof (length_filter (fun k => k <> Z.of_nat (length l)) (m_cache v)). lia. }
  destruct (m_items v !! Z.of_nat (length l)) as [y |] eqn:Hy.
  - eexists. split; [reflexivity |]. apply Hdone; [| done]. intros i. case_decide as Hi.
    + subst i. by rewrite lookup_delete_eq.
    + by rewrite lookup_delete_ne.
  - eexists. split; [reflexivity |]. apply Hdone.
    + intros i. case_decide as Hi; [by subst i | done].
    + symmetry. apply filter_everything. apply Forall_forall. intros i Hi%(cache_keys _ _ Hcache) ->. rewrite Hy in Hi. by destruct Hi.
Qed.

Lemma sv_clear_rep l v : sv_rep l v -> exists v', sv_clear v = Ret v' /\ sv_rep [] v'.
Proof.
  intros H. keep_rep H. unfold sv_clear. rewrite Hindex. cbn [f_good negb]. rewrite f_write_count. cbn [f_good negb].
  eexists. split; [reflexivity |]. split; cbn [m_poolSize m_itemsFile m_indexesFile m_offsets m_itemsFileSize]; try done.
  - rewrite Hitems. by eexists.
  - by eexists.
  - split; cbn; [done | constructor | | lia]. intros i. split; [by intros ?%elem_of_nil | by intros [? ?]].
Qed.

(** * Opening *)

Lemma read_sizes_table l fuel tail offsets start :
  Forall (fun x => wf x /\ item_size x < 2 ^ 32) l -> (length l <= fuel)%nat -> 0 <= start -> start + stored_size l < 2 ^ 63 ->
  read_sizes fuel (Z.of_nat (length l)) (size_table l ++ tail) offsets start = Some (offsets ++ offsets_of start l, start + stored_size l).
Proof.
  revert fuel offsets start. induction l as [| x l IH]; intros fuel offsets start Hl Hfuel Hpos Hsize.
  - destruct fuel; cbn; rewrite app_nil_r; do 2 f_equal; unfold stored_size; cbn; lia.
  - destruct fuel as [| fuel]; [cbn in Hfuel; lia |]. apply Forall_cons in Hl as [[_ Hx] Hl]. rewrite stored_cons in *.
    assert (0 <= item_size x) by (unfold item_size; lia). assert (0 <= stored_size l) by (unfold stored_size; lia).
    change (size_table (x :: l)) with (write_le 4 (item_size x) ++ size_table l). cbn [read_sizes length].
    destruct (Z.leb_spec (Z.of_nat (S (length l))) 0); [lia |].
    rewrite <- app_assoc, read_uint_app by (change (256 ^ Z.of_nat 4) with (2 ^ 32); lia).
    replace (Z.of_nat (S (length l)) - 1) with (Z.of_nat (length l)) by lia. rewrite u64_small by lia.
    rewrite IH by (done || (cbn in Hfuel; lia)). cbn [offsets_of]. rewrite <- app_assoc. do 2 f_equal. lia.
Qed.

Lemma sv_open_rep l v poolSize :
  fits l -> sv_rep l v -> 0 < poolSize -> exists v', sv_open (disk_of v) poolSize = inr v' /\ sv_rep l v'.
Proof.
  intros Hf H Hp. keep_rep H. destruct (fits_length _ Hf). pose proof (fits_length _ Hf). unfold sv_open, disk_of.
  destruct (Z.eqb_spec poolSize 0); [lia |]. rewrite Hitems, Hindex. cbn [f_bytes].
  rewrite read_uint_app by (change (256 ^ Z.of_nat 8) with (2 ^ 64); lia).
  rewrite read_sizes_table; [| exact (fits_items _ Hf) | rewrite length_app, length_size_table; lia | lia | rewrite Z.add_0_l; exact (fits_size _ Hf)].
  eexists. split; [reflexivity |]. split; cbn; try done; [by eexists | by eexists |].
  split; cbn; [done | constructor | | lia]. intros i. split; [by intros ?%elem_of_nil | by intros [? ?]].
Qed.

Lemma sv_open_new poolSize items :
  0 < poolSize -> exists v, sv_open (items, None) poolSize = inr v /\ sv_rep [] v.
Proof.
  intros Hp. unfold sv_open. destruct (Z.eqb_spec poolSize 0); [lia |]. destruct items as [items |]; (eexists; split; [reflexivity |]).
  all: split; cbn; try done; [by eexists | by exists [] |].
  all: split; cbn; [done | constructor | | lia]; intros i; (split; [by intros ?%elem_of_nil | by intros [? ?]]).
Qed.

(** * Runs of operations *)

(** [VReopen]: the process ends and the files are opened again. *)
Inductive VectorOp := VPush (x : T) | VPop | VAt (i : Z) | VBack | VClear | VReopen (poolSize : Z).

(** What the operation answers, and the vector after it. *)
Definition sv_step (v : SwappedVector T) (op : VectorOp) : outcome (option T * SwappedVector T) :=
  match op with
  | VPush x => v ← sv_push_back c v x; Ret (None, v)
  | VPop => v ← sv_pop_back v; Ret (None, v)
  | VAt i => '(x, v) ← sv_at c v i; Ret (Some x, v)
  | VBack => '(x, v) ← sv_back c v; Ret (Some x, v)
  | VClear => v ← sv_clear v; Ret (None, v)
  | VReopen poolSize => match sv_open (disk_of v) poolSize with inr v => Ret (None, v) | inl _ => Throw "open" end
  end.

Definition list_step (l : list T) (op : VectorOp) : option (option T * list T) :=
  match op with
  | VPush x => Some (None, l ++ [x])
  | VPop => match l with [] => None | _ => Some (None, take (length l - 1) l) end
  | VAt i => x ← l !! Z.to_nat i; Some (Some x, l)
  | VBack => x ← last l; Some (Some x, l)
  | VClear => Some (None, [])
  | VReopen poolSize => if poolSize =? 0 then None else Some (None, l)
  end.

Fixpoint sv_run (v : SwappedVector T) (ops : list VectorOp) : outcome (list (option T) * SwappedVector T) :=
  match ops with
  | [] => Ret ([], v)
  | op :: ops => '(x, v) ← sv_step v op; '(xs, v) ← sv_run v ops; Ret (x :: xs, v)
  end.

Fixpoint list_run (l : list T) (ops : list VectorOp) : option (list (option T) * list T) :=
  match ops with
  | [] => Some ([], l)
  | op :: ops => '(x, l) ← list_step l op; '(xs, l) ← list_run l ops; Some (x :: xs, l)
  end.

Definition op_in_range (l : list T) (op : VectorOp) : Prop :=
  match op with VPush x => fits (l ++ [x]) | VAt i => 0 <= i | VReopen poolSize => 0 <= poolSize | _ => True end.

Fixpoint run_in_range (l : list T) (ops : list VectorOp) : Prop :=
  match ops with
  | [] => True
  | op :: ops => op_in_range l op /\ match list_step l op with Some (_, l) => run_in_range l ops | None => True end
  end.

(** The answer of the vector is that of the list, and where the list has none the vector does not return. *)
Definition agrees (r : outcome (list (option T) * SwappedVector T)) (s : option (list (option T) * list T)) : Prop :=
  match s with
  | Some (xs, l) => exists v, r = Ret (xs, v) /\ sv_rep l v
  | None => forall a, r <> Ret a
  end.

Lemma sv_step_rep l v op :
  fits l -> sv_rep l v -> op_in_range l op ->
  match list_step l op with
  | Some (x, l') => fits l' /\ exists v', sv_step v op = Ret (x, v') /\ sv_rep l' v'
  | None => forall a, sv_step v op <> Ret a
  end.
Proof.
  intros Hf H Hop. destruct op as [x | | i | | | poolSize]; cbn [list_step sv_step op_in_range] in *.
  - split; [done |]. destruct (sv_push_back_rep l v x Hop H) as (v' & -> & ?). by exists v'.
  - destruct l as [| x l _] using rev_ind.
    + intros a. unfold sv_pop_back. keep_rep H. rewrite Hindex. cbn [f_good negb]. rewrite f_write_count. cbn [f_good negb]. by rewrite Hoff.
    + destruct (sv_pop_back_rep l x v Hf H) as (v' & -> & ?). rewrite length_app. cbn [length]. rewrite Nat.add_sub, take_app_length.
      destruct (l ++ [x]) eqn:E; [by destruct l |]. rewrite <- E in Hf. split; [by destruct (fits_prefix _ _ Hf) | by exists v'].
  - destruct (l !! Z.to_nat i) as [x |] eqn:Hx; cbn.
    + split; [done |]. destruct (sv_at_rep l v i x Hf H Hop Hx) as (v' & -> & ?). by exists v'.
    + intros a. rewrite (sv_at_out l v i H); [done |]. apply lookup_ge_None in Hx. lia.
  - unfold sv_back, sv_size. rewrite (rep_offsets _ _ H), length_offsets. pose proof (fits_length _ Hf) as Hlen.
    destruct l as [| x l _] using rev_ind.
    + intros a. rewrite (sv_at_out [] v _ H); [done | apply u64_range].
    + rewrite last_snoc, length_app in *. cbn [length mbind option_bind] in *. split; [done |].
      replace (u64 _) with (Z.of_nat (length l)) by (rewrite u64_small; lia).
      destruct (sv_at_rep _ v (Z.of_nat (length l)) x Hf H) as (v' & -> & ?);
        [lia | by rewrite Nat2Z.id, lookup_app_r, Nat.sub_diag by lia | by exists v'].
  - destruct (sv_clear_rep l v H) as (v' & -> & ?). split; [split; [constructor | done | cbn; lia] | by exists v'].
  - destruct (Z.eqb_spec poolSize 0) as [-> | Hne]; [done |]. split; [done |].
    destruct (sv_open_rep l v poolSize Hf H) as (v' & -> & ?); [lia | by exists v'].
Qed.

Lemma sv_run_rep l v ops : fits l -> sv_rep l v -> run_in_range l ops -> agrees (sv_run v ops) (list_run l ops).
Proof.
  revert l v. induction ops as [| op ops IH]; intros l v Hf H Hr; cbn [sv_run list_run run_in_range] in *.
  - by exists v.
  - destruct Hr as [Hop Hr]. pose proof (sv_step_rep l v op Hf H Hop) as Hs.
    destruct (list_step l op) as [[x l'] |]; cbn [mbind option_bind].
    + destruct Hs as (Hf' & v' & -> & Hv'). rewrite outcome_bind_ret. specialize (IH l' v' Hf' Hv' Hr).
      destruct (list_run l' ops) as [[xs l''] |]; cbn in *.
      * destruct IH as (v'' & -> & ?). by exists v''.
      * intros a Hc. destruct (sv_run v' ops) as [[xs v''] | | |]; try done. by apply (IH (xs, v'')).
    + intros a Hc. destruct (sv_step v op) as [p | | |]; try done. by apply (Hs p).
Qed.

(** C28: A [SwappedVector] opened on new files is a list: whatever items are pushed, popped and read, and
    however often the files are closed and opened again with a pool of any size, every answer is that of
    the list of items, and the operations that do not return are those without an answer (a read past
    the end, a pop or a read of the last item of an empty vector, a pool of size zero). *)
Theorem swapped_vector_refines_list items poolSize ops :
  0 < poolSize -> run_in_range [] ops ->
  exists v, sv_open (items, None) poolSize = inr v /\ agrees (sv_run v ops) (list_run [] ops).
Proof.
  intros Hp Hops. destruct (sv_open_new poolSize items Hp) as (v & Ho & Hv). exists v. split; [done |].
  apply sv_run_rep; [split; [constructor | done | cbn; lia] | done | done].
Qed.

End Refinement.

Arguments VPush {T}.
Arguments VPop {T}.
Arguments VAt {T}.
Arguments VBack {T}.
Arguments VClear {T}.
Arguments VReopen {T}.

(** A pool of two items and a third one pushed: the first is read from the file, the last one is replaced,
    and all of it is read again after the node has been restarted. *)
Definition vector_demo : list (@VectorOp Z) :=
  [VPush 7; VPush 300; VPush 70000; VAt 0; VPop; VPush 8; VReopen 1; VAt 1; VBack; VAt 0].

Lemma swapped_vector_refines_list_witness :
  run_in_range (varint 64) (is_uint 64) [] vector_demo /\
  exists v, sv_open (@None bytes, None) 2 = inr v /\
    agrees (varint 64) (sv_run (varint 64) v vector_demo)
      (Some ([None; None; None; Some 7; None; None; None; Some 300; Some 8; Some 7], [7; 300; 8])).
Proof.
  assert (Hr : run_in_range (varint 64) (is_uint 64) [] vector_demo).
  { cbn. repeat split; try (repeat (constructor; [split; [unfold is_uint; lia | vm_compute; reflexivity] |]); constructor);
      try (vm_compute; reflexivity); lia. }
  split; [exact Hr |]. exact (swapped_vector_refines_list (varint 64) (is_uint 64) None 2 vector_demo ltac:(lia) Hr).
Defined.
