(* ===== verification/Emission.v ===== *)
(** Emission: the size penalty ([CryptoNoteBasicImpl.cpp]), the block reward and
    the coinbase transaction ([Currency.cpp]), the median ([Common/Math.h]) and the
    per-block split of the Elderfier fees ([CommitmentIndex.cpp]). *)

From S2P Require Import Prelude Config IntUtil Keccak Currency Types Amounts TransactionExtra.

(** * The code *)

Definition getPenalizedAmount (amount medianSize currentBlockSize blockMajorVersion : Z) : outcome Z :=
  _ ← assert_ (currentBlockSize <=? u64 (2 * medianSize));
  _ ← assert_ (medianSize <=? UINT32_MAX);
  _ ← assert_ (currentBlockSize <=? UINT32_MAX);
  if amount =? 0 then Ret 0
  else if currentBlockSize <=? medianSize then Ret amount
  else
    '(productLo, productHi) ←
      (if BLOCK_MAJOR_VERSION_10 <=? blockMajorVersion then
         let multiplicand := u64 (u64 (2 * medianSize) - currentBlockSize) in
         let multiplicand := u64 (multiplicand * currentBlockSize) in
         mul128 amount multiplicand
       else
         mul128 amount (u64 (currentBlockSize * u64 (u64 (2 * medianSize) - currentBlockSize))));
    '(_, hi, lo) ← div128_32 productHi productLo (u32 medianSize);
    '(_, hi, lo) ← div128_32 hi lo (u32 medianSize);
    _ ← assert_ (0 =? hi);
    _ ← assert_ (lo <? amount);
    Ret lo.

(** [Common::medianValue]. *)
Definition medianValue (v : list Z) : outcome Z :=
  match v with
  | [] => Ret 0
  | [x] => Ret x
  | _ =>
      let n := Z.of_nat (length v) / 2 in
      let v := sort v in
      if Z.of_nat (length v) mod 2 =? 0 then
        a ← vec_at v (n - 1); b ← vec_at v n; Ret (u64 (a + b) / 2)
      else vec_at v n
  end.

Section Reward.
Context (c : Currency).

(** [Currency::getBlockReward]: [None] is [false]; the pair is [(reward,
    emissionChange)].  [burnedCoinsOverride] is [UINT64_MAX] to use
    [getEternalFlame()], the member [m_ethereal_xfg]. *)
Definition getBlockReward (blockMajorVersion medianSize currentBlockSize alreadyGeneratedCoins fee : Z)
    (burnedCoinsOverride : Z) : outcome (option (Z * Z)) :=
  let selectedEmissionSpeedFactor := emissionSpeedFactor c blockMajorVersion in
  _ ← assert_ ((0 <? selectedEmissionSpeedFactor) && (selectedEmissionSpeedFactor <=? 8 * 8));
  let eternalFlame := if burnedCoinsOverride =? UINT64_MAX then m_ethereal_xfg c
                      else burnedCoinsOverride in
  baseReward ←
    (if (BLOCK_MAJOR_VERSION_10 <=? blockMajorVersion) && (0 <? eternalFlame) then
       let Osavvirsak := if eternalFlame <? alreadyGeneratedCoins
                         then alreadyGeneratedCoins - eternalFlame else 0 in
       _ ← assert_ (Osavvirsak <=? m_moneySupply c);
       Ret (Z.shiftr (u64 (m_moneySupply c - Osavvirsak)) selectedEmissionSpeedFactor)
     else
       _ ← assert_ (alreadyGeneratedCoins <=? m_moneySupply c);
       Ret (Z.shiftr (u64 (m_moneySupply c - alreadyGeneratedCoins)) selectedEmissionSpeedFactor));
  let medianSize := Z.max medianSize (blockGrantedFullRewardZoneByBlockVersion c blockMajorVersion) in
  if u64 (2 * medianSize) <? currentBlockSize then Ret None
  else
    penalizedBaseReward ← getPenalizedAmount baseReward medianSize currentBlockSize blockMajorVersion;
    penalizedFee ← (if BLOCK_MAJOR_VERSION_2 <=? blockMajorVersion
                    then getPenalizedAmount fee medianSize currentBlockSize blockMajorVersion
                    else Ret fee);
    penalizedFee ← (if m_cryptonoteCoinVersion c =? 1
                    then getPenalizedAmount fee medianSize currentBlockSize blockMajorVersion
                    else Ret penalizedFee);
    let emissionChange := i64 (u64 (penalizedBaseReward - u64 (fee - penalizedFee))) in
    let reward := u64 (penalizedBaseReward + penalizedFee) in
    Ret (Some (reward, emissionChange)).

(** [Currency::syncEternalFlame]: the new value of [m_ethereal_xfg]. *)
Definition syncEternalFlame (authoritativeTotal : Z) : Z := Z.min authoritativeTotal (m_moneySupply c).

End Reward.

(** ** The Elderfier split *)

Inductive ElderfierStatus := VOID | ACTIVE | UNSTAKING.

#[export] Instance ElderfierStatus_eq_dec : EqDecision ElderfierStatus.
Proof. solve_decision. Defined.

Record ElderfierRegistration := mkRegistration {
  reg_address : bytes;
  reg_ceremony_alias : bytes;
  reg_elderfier_id : Z;
  reg_signing_pubkey : bytes;
  reg_status : ElderfierStatus;
  reg_unstaking_start_block : Z;
  reg_unstaking_review_window : Z
}.

Definition ActiveEfier : Type := Z * AccountPublicAddress.

(** The canonical order before the shuffle. *)
Definition efid_le (a b : ActiveEfier) : Prop := a.1 <= b.1.

#[export] Instance efid_le_dec : RelDecision efid_le := fun a b => Z_le_dec a.1 b.1.

Section Efiers.
Context (c : Currency).
(** [m_currency.parseAccountAddressString], whose last step is a curve check. *)
Context (parseAccountAddressString : bytes -> option AccountPublicAddress).

(** The loop over [m_elderfierRegistrations]; [addresses] is [m_elderfierAddresses]. *)
Definition activeEfiers (registrations : list ElderfierRegistration) (addresses : gmap Z bytes)
    : list ActiveEfier :=
  omap (fun reg =>
    if decide (reg_status reg = ACTIVE) then
      str ← addresses !! reg_elderfier_id reg;
      addr ← parseAccountAddressString str;
      Some (reg_elderfier_id reg, addr)
    else None) registrations.

(** [std::swap(v[i], v[j])]. *)
Definition swap {A} (i j : nat) (v : list A) : list A :=
  match v !! i, v !! j with
  | Some x, Some y => <[i := y]> (<[j := x]> v)
  | _, _ => v
  end.

(** The shuffle: for [i] from [size - 1] down to 1, swap with [r % (i + 1)], where
    [r] is the first 8 bytes of the running hash. *)
Fixpoint shuffle {A} (i : nat) (rng : Hash) (v : list A) : list A :=
  match i with
  | O => v
  | S i' =>
      let r := le_value (take 8 rng) in
      let j := Z.to_nat (r mod (Z.of_nat i + 1)) in
      shuffle i' (cn_fast_hash rng) (swap i j v)
  end.

Definition computePerBlockEfierRewards (registrations : list ElderfierRegistration)
    (addresses : gmap Z bytes) (bankingFees : Z) (previousBlockHash : Hash)
    : list (AccountPublicAddress * Z) :=
  if bankingFees =? 0 then []
  else
    match activeEfiers registrations addresses with
    | [] => []
    | efiers =>
        let efiers := merge_sort efid_le efiers in
        let size := Z.of_nat (length efiers) in
        let perEfier := bankingFees / size in
        let remainder := bankingFees mod size in
        if perEfier <? m_defaultDustThreshold c then []
        else
          let rewards := omap (fun '(i, e) =>
            let share := u64 (perEfier + (if Z.of_nat i <? remainder then 1 else 0)) in
            if 0 <? share then Some (snd e, share) else None)
            (zip (seq 0 (length efiers)) efiers) in
          if (1 <? length rewards)%nat
          then shuffle (length rewards - 1) (cn_fast_hash previousBlockHash) rewards
          else rewards
    end.

End Efiers.

(** ** The coinbase transaction *)

(** [while (maxOuts < outAmounts.size()) { outAmounts[size - 2] += outAmounts.back();
    outAmounts.resize(size - 1); }], on the reversed vector. *)
Fixpoint merge_tail (fuel : nat) (maxOuts : nat) (rev : list Z) : list Z :=
  match fuel with
  | O => rev
  | S fuel =>
      if (maxOuts <? length rev)%nat then
        match rev with
        | last :: prev :: rest => merge_tail fuel maxOuts (u64 (prev + last) :: rest)
        | _ => rev
        end
      else rev
  end.

Definition limitOuts (maxOuts : nat) (outAmounts : list Z) : list Z :=
  reverse (merge_tail (length outAmounts) maxOuts (reverse outAmounts)).

Section MinerTx.
Context (c : Currency).
(** The key derivations of [Crypto], on curve points. *)
Context (generate_key_derivation : bytes -> bytes -> option bytes).
Context (derive_public_key : bytes -> Z -> bytes -> option bytes).

(** One output to an address: [None] when a derivation fails. *)
Definition derive_output (address : AccountPublicAddress) (txSecretKey : bytes) (outputIndex amount : Z)
    : option TransactionOutput :=
  derivation ← generate_key_derivation (viewPublicKey address) txSecretKey;
  key ← derive_public_key derivation outputIndex (spendPublicKey address);
  Some (mkTransactionOutput amount (OutKey (mkKeyOutput key))).

(** Both output loops: the outputs, the running [summaryAmounts] and [outputIndex]. *)
Fixpoint derive_outputs (txSecretKey : bytes) (rewards : list (AccountPublicAddress * Z))
    (outputIndex summaryAmounts : Z) (outputs : list TransactionOutput)
    : option (Z * Z * list TransactionOutput) :=
  match rewards with
  | [] => Some (outputIndex, summaryAmounts, outputs)
  | (address, amount) :: rest =>
      out ← derive_output address txSecretKey outputIndex amount;
      derive_outputs txSecretKey rest (outputIndex + 1) (u64 (summaryAmounts + amount)) (outputs ++ [out])
  end.

(** [Currency::constructMinerTx]; [txkey] is the result of [generateKeyPair()] and
    [tx] the transaction passed by reference.  The parameter [bankingFeesInBlock] of
    the C++ function is not used by its body. *)
Definition constructMinerTx (txPublicKey txSecretKey : bytes)
    (blockMajorVersion height medianSize alreadyGeneratedCoins currentBlockSize fee : Z)
    (minerAddress : AccountPublicAddress) (tx : Transaction) (extraNonce : bytes) (maxOuts : nat)
    (burnedCoinsOverride : Z) (efierRewards : list (AccountPublicAddress * Z))
    : outcome (option Transaction) :=
  let extra := addTransactionPublicKeyToExtra [] txPublicKey in
  match (match extraNonce with
         | [] => Some extra
         | _ => addExtraNonceToTransactionExtra extra extraNonce
         end) with
  | None => Ret None
  | Some extra =>
    reward ← getBlockReward c blockMajorVersion medianSize currentBlockSize alreadyGeneratedCoins fee
               burnedCoinsOverride;
    match reward with
    | None => Ret None
    | Some (blockReward, emissionChange) =>
        let efierTotal := foldl (fun acc r => u64 (acc + snd r)) 0 efierRewards in
        let minerReward :=
          if (BLOCK_MAJOR_VERSION_10 <=? blockMajorVersion) && (0 <? efierTotal)
             && (efierTotal <=? blockReward)
          then blockReward - efierTotal else blockReward in
        outAmounts ←
          (if BLOCK_MAJOR_VERSION_11 <=? blockMajorVersion
           then Ret (decompose_amount_uniform minerReward (m_defaultDustThreshold c))
           else decomposeAmount minerReward (m_defaultDustThreshold c));
        if (maxOuts <? 1)%nat then Ret None
        else
          let outAmounts := limitOuts maxOuts outAmounts in
          Ret (
            '(outputIndex, summaryAmounts, outputs) ←
              derive_outputs txSecretKey (map (fun a => (minerAddress, a)) outAmounts) 0 0 [];
            '(_, summaryAmounts, outputs) ←
              derive_outputs txSecretKey efierRewards outputIndex summaryAmounts outputs;
            if summaryAmounts =? u64 (minerReward + efierTotal) then
              Some {| tx_version := TRANSACTION_VERSION_1;
                      tx_unlockTime := u64 (height + m_minedMoneyUnlockWindow c);
                      tx_inputs := [InBase (mkBaseInput height)];
                      tx_outputs := outputs;
                      tx_extra := extra;
                      tx_signatures := tx_signatures tx |}
            else None)
    end
  end.

End MinerTx.

(** * The penalty *)

(** The reference value: [amount * (2 * median - size) * size / median^2] above the median. *)
Definition penalized (amount median size : Z) : Z :=
  if size <=? median then amount else amount * ((2 * median - size) * size) / (median * median).

Lemma penalty_square median size :
  median < size <= 2 * median -> 0 <= (2 * median - size) * size < median * median.
Proof. intros H. split; nia. Qed.

Lemma div_twice n d : 0 < d -> 0 <= n -> n / d / d = n / (d * d).
Proof. intros Hd Hn. by rewrite Z.div_div by lia. Qed.

Lemma penalized_range amount median size :
  0 <= amount -> 0 <= size <= 2 * median -> 0 <= penalized amount median size <= amount.
Proof.
  intros Ha Hs. unfold penalized. destruct (Z.leb_spec size median) as [| Hgt]; [lia |].
  pose proof (penalty_square median size ltac:(lia)).
  split; [apply Z.div_pos; nia | apply Z.div_le_upper_bound; nia].
Qed.

Lemma penalized_strict amount median size :
  0 < amount -> median < size <= 2 * median -> 0 <= penalized amount median size < amount.
Proof.
  intros Ha Hs. unfold penalized. destruct (Z.leb_spec size median) as [| Hgt]; [lia |].
  pose proof (penalty_square median size ltac:(lia)).
  split; [apply Z.div_pos; nia | apply Z.div_lt_upper_bound; nia].
Qed.

Lemma mul128_div2_exact amount f median :
  is_u64 amount -> is_u64 f -> 0 < median < 2 ^ 32 -> amount * f / (median * median) < 2 ^ 64 ->
  ('(productLo, productHi) ← mul128 amount f;
   '(_, hi, lo) ← div128_32 productHi productLo (u32 median);
   div128_32 hi lo (u32 median)) ≫= (fun '(_, hi, lo) => Ret (hi, lo))
  = Ret (0, amount * f / (median * median)).
Proof.
  unfold is_u64. intros Ha Hf Hm Hq.
  assert (Hp : 0 <= amount * f < 2 ^ 128).
  { split; [nia |]. change (2 ^ 128) with (2 ^ 64 * 2 ^ 64). nia. }
  rewrite mul128_exact, outcome_bind_ret by (unfold is_u64; lia). rewrite u32_small by lia.
  pose proof (Z.div_mod (amount * f) (2 ^ 64) ltac:(lia)) as Hdm.
  pose proof (Z.mod_pos_bound (amount * f) (2 ^ 64) ltac:(lia)) as Hmb.
  assert (Hhi : 0 <= amount * f / 2 ^ 64 < 2 ^ 64)
    by (split; [apply Z.div_pos; lia | apply Z.div_lt_upper_bound; lia]).
  rewrite div128_32_exact, outcome_bind_ret by (unfold is_u64; lia).
  replace (amount * f / 2 ^ 64 * 2 ^ 64 + (amount * f) mod 2 ^ 64) with (amount * f) by lia.
  set (n := amount * f) in *. clearbody n.
  assert (Hnm : 0 <= n / median <= n)
    by (split; [apply Z.div_pos; lia | apply Z.div_le_upper_bound; nia]).
  pose proof (Z.div_mod (n / median) (2 ^ 64) ltac:(lia)) as Hdm2.
  pose proof (Z.mod_pos_bound (n / median) (2 ^ 64) ltac:(lia)) as Hmb2.
  assert (Hhi2 : 0 <= n / median / 2 ^ 64 < 2 ^ 64)
    by (split; [apply Z.div_pos; lia | apply Z.div_lt_upper_bound; lia]).
  rewrite div128_32_exact by (unfold is_u64; lia).
  replace (n / median / 2 ^ 64 * 2 ^ 64 + (n / median) mod 2 ^ 64) with (n / median) by lia.
  rewrite outcome_bind_ret, div_twice by lia.
  assert (0 <= n / (median * median)) by (apply Z.div_pos; nia).
  rewrite Z.div_small, Z.mod_small by lia. done.
Qed.

Lemma getPenalizedAmount_exact amount median size version :
  is_u64 amount -> 0 <= size <= 2 * median -> median <= UINT32_MAX -> size <= UINT32_MAX ->
  getPenalizedAmount amount median size version = Ret (penalized amount median size).
Proof.
  unfold is_u64, UINT32_MAX. intros Ha Hs Hm Hs2. unfold getPenalizedAmount, UINT32_MAX.
  rewrite (u64_small (2 * median)) by lia.
  rewrite !assert_true, !outcome_bind_ret by (apply Z.leb_le; lia).
  destruct (Z.eqb_spec amount 0) as [-> | Hne].
  { unfold penalized. by destruct (size <=? median). }
  destruct (Z.leb_spec size median) as [Hle | Hgt].
  { unfold penalized. destruct (Z.leb_spec size median); [done | lia]. }
  pose proof (penalty_square median size ltac:(lia)) as Hsq.
  assert (Hsq64 : (2 * median - size) * size < 2 ^ 64) by nia.
  rewrite (u64_small (2 * median - size)) by lia.
  rewrite !(u64_small (_ * _)), (Z.mul_comm size) by (rewrite ?(Z.mul_comm size); lia).
  replace (if BLOCK_MAJOR_VERSION_10 <=? version then mul128 amount ((2 * median - size) * size)
           else mul128 amount ((2 * median - size) * size))
    with (mul128 amount ((2 * median - size) * size)) by (by destruct (_ <=? version)).
  pose proof (penalized_strict amount median size ltac:(lia) ltac:(lia)) as Hlt.
  unfold penalized in *. destruct (Z.leb_spec size median); [lia |].
  pose proof (mul128_div2_exact amount ((2 * median - size) * size) median) as Hex.
  specialize (Hex ltac:(unfold is_u64; lia) ltac:(unfold is_u64; lia) ltac:(lia) ltac:(lia)).
  destruct (mul128 amount ((2 * median - size) * size)) as [[pl ph] | | |]; try discriminate Hex.
  rewrite !outcome_bind_ret in *.
  destruct (div128_32 ph pl (u32 median)) as [[[r hi] lo] | | |]; try discriminate Hex.
  rewrite !outcome_bind_ret in *.
  destruct (div128_32 hi lo (u32 median)) as [[[r2 hi2] lo2] | | |]; try discriminate Hex.
  rewrite !outcome_bind_ret in *. injection Hex as -> ->.
  rewrite (assert_true (0 =? 0)), outcome_bind_ret by done.
  rewrite assert_true, outcome_bind_ret by (apply Z.ltb_lt; lia). done.
Qed.

(** For every 64-bit amount and every block size up to twice the median, both
    at most [UINT32_MAX], [getPenalizedAmount] fails none of its assertions and
    returns the exact penalised amount
    [amount * (2 * median - size) * size / median^2] (or the amount itself up to the
    median), whichever of its two formulas the block version selects; the
    result never exceeds the amount. *)
Theorem penalized_amount_correct amount medianSize currentBlockSize version :
  is_u64 amount -> 0 <= currentBlockSize <= 2 * medianSize ->
  medianSize <= UINT32_MAX -> currentBlockSize <= UINT32_MAX ->
  getPenalizedAmount amount medianSize currentBlockSize version
    = Ret (penalized amount medianSize currentBlockSize)
  /\ 0 <= penalized amount medianSize currentBlockSize <= amount.
Proof.
  intros Ha Hs Hm Hs2. split; [by apply getPenalizedAmount_exact |].
  unfold is_u64 in Ha. apply penalized_range; lia.
Qed.

Lemma penalized_amount_correct_witness :
  getPenalizedAmount 1000000 430080 600000 BLOCK_MAJOR_VERSION_10
    = Ret (penalized 1000000 430080 600000)
  /\ 0 <= penalized 1000000 430080 600000 <= 1000000.
Proof.
  apply (penalized_amount_correct 1000000 430080 600000 BLOCK_MAJOR_VERSION_10);
    unfold is_u64, UINT32_MAX; lia.
Defined.

(** * The block reward and the supply cap *)

(** Coins in circulation as the reward formula counts them. *)
Definition circulating (blockMajorVersion alreadyGenerated burned : Z) : Z :=
  if (BLOCK_MAJOR_VERSION_10 <=? blockMajorVersion) && (0 <? burned)
  then Z.max 0 (alreadyGenerated - burned) else alreadyGenerated.

Definition base_reward (c : Currency) (blockMajorVersion alreadyGenerated burned : Z) : Z :=
  (m_moneySupply c - circulating blockMajorVersion alreadyGenerated burned)
    / 2 ^ emissionSpeedFactor c blockMajorVersion.

(** The members of a [Currency] that the reward relies on. *)
Record reward_params (c : Currency) : Prop := {
  rp_supply : 0 <= m_moneySupply c < 2 ^ 62;
  rp_speed : forall v, 0 < emissionSpeedFactor c v <= 64;
  rp_zone : forall v, 0 <= blockGrantedFullRewardZoneByBlockVersion c v < 2 ^ 31;
  rp_coin : m_cryptonoteCoinVersion c = 1
}.

Lemma mainnet_reward_params : reward_params mainnet.
Proof.
  constructor.
  - vm_compute. intuition congruence.
  - intros v. unfold emissionSpeedFactor. repeat case_match; vm_compute; intuition congruence.
  - intros v. unfold blockGrantedFullRewardZoneByBlockVersion.
    repeat case_match; vm_compute; intuition congruence.
  - reflexivity.
Qed.

Lemma base_reward_range c v already burned :
  reward_params c -> 0 <= circulating v already burned <= m_moneySupply c ->
  0 <= base_reward c v already burned
  /\ circulating v already burned + base_reward c v already burned <= m_moneySupply c.
Proof.
  intros Hp Hc. unfold base_reward. pose proof (rp_speed c Hp v) as Hs.
  assert (1 <= 2 ^ emissionSpeedFactor c v)
    by (apply (Z.pow_le_mono_r 2 0); lia).
  set (x := m_moneySupply c - circulating v already burned).
  assert (0 <= x / 2 ^ emissionSpeedFactor c v <= x).
  { split; [apply Z.div_pos; lia | apply Z.div_le_upper_bound; nia]. }
  lia.
Qed.

Lemma getBlockReward_exact c v median size already fee burned :
  reward_params c -> 0 <= median < 2 ^ 31 -> 0 <= size ->
  is_u64 already -> 0 <= burned < UINT64_MAX -> 0 <= fee < 2 ^ 62 ->
  0 <= circulating v already burned <= m_moneySupply c ->
  let m := Z.max median (blockGrantedFullRewardZoneByBlockVersion c v) in
  let pb := penalized (base_reward c v already burned) m size in
  let pf := penalized fee m size in
  getBlockReward c v median size already fee burned
  = Ret (if 2 * m <? size then None else Some (pb + pf, pb - (fee - pf))).
Proof.
  intros Hp Hmed Hsz Hal Hb Hf Hc m pb pf.
  pose proof (rp_speed c Hp v) as Hsp. pose proof (rp_zone c Hp v) as Hz.
  pose proof (rp_supply c Hp) as Hsup.
  pose proof (base_reward_range c v already burned Hp Hc) as [Hb0 Hbs].
  unfold getBlockReward.
  rewrite (assert_true (_ && _)), outcome_bind_ret
    by (apply andb_true_iff; split; [apply Z.ltb_lt | apply Z.leb_le]; lia).
  destruct (Z.eqb_spec burned UINT64_MAX) as [| _]; [lia |].
  match goal with |- (?e ≫= _) = _ => assert (Hbase : e = Ret (base_reward c v already burned)) end.
  { unfold base_reward, circulating in *. unfold is_u64 in Hal.
    destruct ((BLOCK_MAJOR_VERSION_10 <=? v) && (0 <? burned)).
    - destruct (Z.ltb_spec burned already);
        (rewrite assert_true, outcome_bind_ret by (apply Z.leb_le; lia));
        rewrite u64_small, Z.shiftr_div_pow2 by lia; do 2 f_equal; lia.
    - rewrite assert_true, outcome_bind_ret by (apply Z.leb_le; lia).
      by rewrite u64_small, Z.shiftr_div_pow2 by lia. }
  rewrite Hbase, outcome_bind_ret. cbv zeta. fold m. rewrite (u64_small (2 * m)) by lia.
  destruct (Z.ltb_spec (2 * m) size) as [| Hle]; [done |].
  assert (Hm : m <= UINT32_MAX /\ size <= UINT32_MAX) by (unfold UINT32_MAX; lia).
  assert (Hbl : base_reward c v already burned <= m_moneySupply c) by lia.
  rewrite !getPenalizedAmount_exact by (unfold is_u64 in *; lia).
  rewrite outcome_bind_ret, (rp_coin c Hp). fold pb pf.
  assert (Hpb : 0 <= pb <= base_reward c v already burned) by (apply penalized_range; lia).
  assert (Hpf : 0 <= pf <= fee) by (apply penalized_range; lia).
  assert (Hswap : forall A (x : A) (b : bool) (k : Z -> outcome A),
            (if b then Ret pf else Ret fee) ≫= (fun _ => k pf) = k pf) by (by intros ? ? []).
  replace (1 =? 1) with true by done.
  transitivity (Ret (Some (u64 (pb + pf), i64 (u64 (pb - u64 (fee - pf)))))).
  { by destruct (BLOCK_MAJOR_VERSION_2 <=? v). }
  rewrite (u64_small (pb + pf)), (u64_small (fee - pf)) by lia.
  do 3 f_equal. unfold i64, u64. rewrite Zplus_mod_idemp_l.
  change ((pb - (fee - pf) + 2 ^ 63) mod 2 ^ 64 - 2 ^ 63) with (i64 (pb - (fee - pf))).
  apply i64_small. lia.
Qed.

(** C5: With the parameters of a network, a median below [2^31] and a circulating
    amount within the supply, [getBlockReward] fails no assertion: it refuses a block
    of more than twice the effective median and otherwise returns exactly
    [penalised base + penalised fee] as reward and
    [penalised base - (fee - penalised fee)] as emission, without wrap-around. *)
Theorem block_reward_correct c v median size already fee burned :
  reward_params c -> 0 <= median < 2 ^ 31 -> 0 <= size ->
  is_u64 already -> 0 <= burned < UINT64_MAX -> 0 <= fee < 2 ^ 62 ->
  0 <= circulating v already burned <= m_moneySupply c ->
  let m := Z.max median (blockGrantedFullRewardZoneByBlockVersion c v) in
  let pb := penalized (base_reward c v already burned) m size in
  let pf := penalized fee m size in
  getBlockReward c v median size already fee burned
  = Ret (if 2 * m <? size then None else Some (pb + pf, pb - (fee - pf))).
Proof. apply getBlockReward_exact. Qed.

Lemma block_reward_correct_witness :
  let m := Z.max 0 (blockGrantedFullRewardZoneByBlockVersion mainnet 10) in
  let pb := penalized (base_reward mainnet 10 40000000000000 9000000) m 500000 in
  let pf := penalized 800000 m 500000 in
  getBlockReward mainnet 10 0 500000 40000000000000 800000 9000000
  = Ret (if 2 * m <? 500000 then None else Some (pb + pf, pb - (800000 - pf))).
Proof.
  apply (block_reward_correct mainnet 10 0 500000 40000000000000 800000 9000000).
  - exact mainnet_reward_params.
  - lia.
  - lia.
  - unfold is_u64. lia.
  - unfold UINT64_MAX. lia.
  - lia.
  - vm_compute. intuition congruence.
Defined.

(** * The Elderfier split conserves the fees *)

Lemma insert_cons_Permutation {A} (l : list A) i x y :
  l !! i = Some x -> x :: <[i := y]> l ≡ₚ y :: l.
Proof.
  revert i. induction l as [| a l IH]; intros [| i] H; try discriminate H.
  - injection H as ->. apply perm_swap.
  - cbn. rewrite perm_swap, (perm_swap a y). apply perm_skip. by apply IH.
Qed.

Lemma swap_Permutation {A} i j (v : list A) : swap i j v ≡ₚ v.
Proof.
  unfold swap. destruct (v !! i) as [x |] eqn:Hi; [| done].
  destruct (v !! j) as [y |] eqn:Hj; [| done].
  apply (Permutation_cons_inv (a := x)).
  rewrite insert_cons_Permutation; [by apply insert_cons_Permutation |].
  destruct (decide (i = j)) as [-> | Hne].
  - rewrite Hi in Hj. injection Hj as ->. apply list_lookup_insert_eq. by apply lookup_lt_Some in Hi.
  - by rewrite list_lookup_insert_ne.
Qed.

Lemma shuffle_Permutation {A} i rng (v : list A) : shuffle i rng v ≡ₚ v.
Proof.
  revert rng v. induction i as [| i IH]; intros rng v; cbn [shuffle]; [done |].
  by rewrite IH, swap_Permutation.
Qed.

(** The list built before the shuffle. *)
Definition shares_from (k : nat) (perEfier remainder : Z) (efiers : list ActiveEfier)
    : list (AccountPublicAddress * Z) :=
  omap (fun '(i, e) =>
    let share := u64 (perEfier + (if Z.of_nat i <? remainder then 1 else 0)) in
    if 0 <? share then Some (snd e, share) else None) (zip (seq k (length efiers)) efiers).

Lemma shares_from_spec k per rem efiers :
  0 < per -> per + 1 < 2 ^ 64 ->
  map fst (shares_from k per rem efiers) = map snd efiers
  /\ Forall (fun r => r.2 = per \/ r.2 = per + 1) (shares_from k per rem efiers)
  /\ sumZ (map snd (shares_from k per rem efiers))
     = Z.of_nat (length efiers) * per + Z.max 0 (Z.min (Z.of_nat (length efiers)) (rem - Z.of_nat k)).
Proof.
  intros Hp Hb. revert k. induction efiers as [| e efiers IH]; intros k.
  - unfold shares_from. cbn. repeat split; [constructor | lia].
  - destruct (IH (S k)) as (IH1 & IH2 & IH3).
    assert (Hstep : shares_from k per rem (e :: efiers)
      = (e.2, per + (if Z.of_nat k <? rem then 1 else 0)) :: shares_from (S k) per rem efiers).
    { unfold shares_from. cbn [length seq zip zip_with omap list_omap].
      rewrite u64_small by (destruct (_ <? rem); lia).
      destruct (Z.ltb_spec 0 (per + (if Z.of_nat k <? rem then 1 else 0))); [done |].
      destruct (_ <? rem); lia. }
    rewrite Hstep. cbn [map fst snd]. rewrite IH1. split; [done |]. split.
    + constructor; [| done]. cbn. destruct (_ <? rem); [right | left]; lia.
    + change (sumZ (?x :: ?l)) with (x + sumZ l).
      unfold sumZ in *. cbn [foldr]. rewrite IH3. cbn [length].
      destruct (Z.ltb_spec (Z.of_nat k) rem); lia.
Qed.

Lemma split_arith fees n :
  0 < n -> 0 <= fees < 2 ^ 64 -> 0 < fees / n ->
  n * (fees / n) + Z.max 0 (Z.min n (fees mod n - 0)) = fees.
Proof.
  intros Hn Hf Hp. pose proof (Z.div_mod fees n ltac:(lia)).
  pose proof (Z.mod_pos_bound fees n Hn). lia.
Qed.

Lemma efier_rewards_split c parse registrations addresses fees prevHash :
  is_u64 fees -> fees < UINT64_MAX -> 0 < m_defaultDustThreshold c ->
  let active := activeEfiers parse registrations addresses in
  let n := Z.of_nat (length active) in
  let rewards := computePerBlockEfierRewards c parse registrations addresses fees prevHash in
  if (fees =? 0) || (n =? 0) || (fees / n <? m_defaultDustThreshold c) then rewards = []
  else map fst rewards ≡ₚ map snd active
       /\ sumZ (map snd rewards) = fees
       /\ Forall (fun r => r.2 = fees / n \/ r.2 = fees / n + 1) rewards.
Proof.
  intros Hf Hmax Hd. cbv zeta. unfold is_u64, UINT64_MAX in *.
  unfold computePerBlockEfierRewards. generalize (activeEfiers parse registrations addresses).
  intros active. destruct (Z.eqb_spec fees 0) as [| Hfees]; cbn [orb]; [done |].
  destruct active as [| e0 es]; [done |].
  set (active := e0 :: es). set (n := Z.of_nat (length active)).
  assert (Hn : 0 < n) by (unfold n, active; cbn; lia).
  destruct (Z.eqb_spec n 0) as [| _]; [lia |]. cbn [orb].
  assert (Hlen : length (merge_sort efid_le active) = length active)
    by (apply Permutation_length, merge_sort_Permutation).
  rewrite Hlen. fold n.
  destruct (Z.ltb_spec (fees / n) (m_defaultDustThreshold c)); [done |].
  set (sorted := merge_sort efid_le active) in *.
  rewrite <- Hlen.
  fold (shares_from 0 (fees / n) (fees mod n) sorted).
  set (shares := shares_from 0 (fees / n) (fees mod n) sorted).
  assert (Hdiv : fees / n <= fees) by (apply Z.div_le_upper_bound; nia).
  destruct (shares_from_spec 0 (fees / n) (fees mod n) sorted) as (H1 & H2 & H3); [lia | lia |].
  fold shares in H1, H2, H3. rewrite Hlen in H3. fold n in H3.
  rewrite split_arith in H3 by lia.
  set (result := if (1 <? length shares)%nat then _ else shares).
  assert (Hperm : result ≡ₚ shares)
    by (unfold result; destruct (_ <? _)%nat; [apply shuffle_Permutation | done]).
  split; [| split].
  - rewrite Hperm, H1. unfold sorted. by rewrite merge_sort_Permutation.
  - rewrite (sumZ_perm _ (map snd shares)); [done | by rewrite Hperm].
  - by rewrite Hperm.
Qed.

(** [computePerBlockEfierRewards] either pays nobody, exactly when there are no
    fees, no active Elderfier with a valid address, or a share would fall below the
    dust threshold; or it pays every active Elderfier exactly once, with shares that
    differ by at most one unit and add up to the fees: the shuffle loses and
    invents nothing. *)
Theorem efier_rewards_conserve c parse registrations addresses fees prevHash :
  is_u64 fees -> fees < UINT64_MAX -> 0 < m_defaultDustThreshold c ->
  let active := activeEfiers parse registrations addresses in
  let n := Z.of_nat (length active) in
  let rewards := computePerBlockEfierRewards c parse registrations addresses fees prevHash in
  if (fees =? 0) || (n =? 0) || (fees / n <? m_defaultDustThreshold c) then rewards = []
  else map fst rewards ≡ₚ map snd active
       /\ sumZ (map snd rewards) = fees
       /\ Forall (fun r => r.2 = fees / n \/ r.2 = fees / n + 1) rewards.
Proof. apply efier_rewards_split. Qed.

Lemma efier_rewards_conserve_witness :
  let parse := fun s : bytes => Some (mkAddress [Z.of_nat (length s)] [0]) in
  let registration id status := mkRegistration [] [] id [] status 0 0 in
  let registrations := [registration 2 ACTIVE; registration 1 ACTIVE; registration 3 VOID] in
  let addresses : gmap Z bytes := <[1 := [97]]> (<[2 := [98; 98]]> ∅) in
  let active := activeEfiers parse registrations addresses in
  let n := Z.of_nat (length active) in
  let rewards := computePerBlockEfierRewards mainnet parse registrations addresses 8001 NULL_HASH in
  if (8001 =? 0) || (n =? 0) || (8001 / n <? m_defaultDustThreshold mainnet) then rewards = []
  else map fst rewards ≡ₚ map snd active
       /\ sumZ (map snd rewards) = 8001
       /\ Forall (fun r => r.2 = 8001 / n \/ r.2 = 8001 / n + 1) rewards.
Proof.
  intros parse registration registrations addresses.
  apply (efier_rewards_conserve mainnet parse registrations addresses 8001 NULL_HASH);
    [unfold is_u64; lia | unfold UINT64_MAX; lia | reflexivity].
Defined.

(** * The coinbase transaction pays exactly the reward *)

Lemma merge_tail_spec fuel maxOuts rev :
  (1 <= maxOuts)%nat -> (length rev <= fuel)%nat -> Forall (Z.le 0) rev -> sumZ rev < 2 ^ 64 ->
  sumZ (merge_tail fuel maxOuts rev) = sumZ rev
  /\ Forall (Z.le 0) (merge_tail fuel maxOuts rev)
  /\ (length (merge_tail fuel maxOuts rev) <= maxOuts)%nat.
Proof.
  intros Hm. revert rev. induction fuel as [| fuel IH]; intros rev Hl Hnn Hs; cbn [merge_tail].
  - destruct rev; [cbn; repeat split; [constructor | lia] | simpl in Hl; lia].
  - destruct (Nat.ltb_spec maxOuts (length rev)); [| by repeat split].
    destruct rev as [| x [| y rest]]; [simpl in *; lia | simpl in *; lia |].
    apply Forall_cons in Hnn as [Hx Hnn]. apply Forall_cons in Hnn as [Hy Hnn].
    pose proof (sumZ_nonneg rest Hnn). unfold sumZ in Hs. cbn [foldr] in Hs. fold (sumZ rest) in Hs.
    rewrite u64_small by lia.
    destruct (IH ((y + x) :: rest)) as (H1 & H2 & H3).
    + cbn [length] in *. lia.
    + constructor; [lia | done].
    + unfold sumZ. cbn [foldr]. fold (sumZ rest). lia.
    + split; [| done]. rewrite H1. unfold sumZ. cbn [foldr]. lia.
Qed.

Lemma limitOuts_spec maxOuts l :
  (1 <= maxOuts)%nat -> Forall (Z.le 0) l -> sumZ l < 2 ^ 64 ->
  sumZ (limitOuts maxOuts l) = sumZ l /\ (length (limitOuts maxOuts l) <= maxOuts)%nat.
Proof.
  intros Hm Hnn Hs. unfold limitOuts.
  assert (Hr : sumZ (reverse l) = sumZ l) by (apply sumZ_perm, reverse_Permutation).
  destruct (merge_tail_spec (length l) maxOuts (reverse l)) as (H1 & _ & H3); try done.
  - by rewrite length_reverse.
  - by rewrite reverse_Permutation.
  - by rewrite Hr.
  - rewrite length_reverse. split; [| done].
    rewrite (sumZ_perm _ _ (reverse_Permutation _)). by rewrite H1.
Qed.

Section MinerTxSpec.
Context (c : Currency).
Context (generate_key_derivation : bytes -> bytes -> option bytes).
Context (derive_public_key : bytes -> Z -> bytes -> option bytes).

Definition derivable (txSecretKey : bytes) (address : AccountPublicAddress) : Prop :=
  forall outputIndex amount, exists out,
    derive_output generate_key_derivation derive_public_key address txSecretKey outputIndex amount
    = Some out.

Lemma derive_output_amount address sk i a out :
  derive_output generate_key_derivation derive_public_key address sk i a = Some out ->
  out_amount out = a.
Proof.
  unfold derive_output. intros H.
  destruct (generate_key_derivation _ _); [| done]. cbn in H.
  destruct (derive_public_key _ _ _); [| done]. cbn in H. by injection H as <-.
Qed.

Lemma derive_outputs_spec sk rewards idx summary outs :
  Forall (derivable sk) (map fst rewards) ->
  exists new,
    derive_outputs generate_key_derivation derive_public_key sk rewards idx (u64 summary) outs
      = Some (idx + Z.of_nat (length rewards), u64 (summary + sumZ (map snd rewards)), outs ++ new)
    /\ map out_amount new = map snd rewards.
Proof.
  revert idx summary outs. induction rewards as [| [addr a] rewards IH]; intros idx summary outs Hd.
  - exists []. cbn [derive_outputs map length sumZ foldr]. rewrite app_nil_r, !Z.add_0_r. done.
  - apply Forall_cons in Hd as [Hd0 Hd]. cbn [derive_outputs].
    destruct (Hd0 idx a) as [out Hout]. cbn [fst] in Hout. rewrite Hout. cbn [mbind option_bind].
    rewrite u64_add_idemp.
    destruct (IH (idx + 1) (summary + a) (outs ++ [out]) Hd) as (new & Heq & Hnew).
    exists (out :: new). rewrite Heq. split.
    + rewrite <- app_assoc. cbn [app map snd length]. f_equal. f_equal. f_equal; [lia |].
      unfold sumZ. cbn [foldr]. f_equal. lia.
    + cbn [map snd]. rewrite Hnew. by rewrite (derive_output_amount _ _ _ _ _ Hout).
Qed.

End MinerTxSpec.

Lemma minerReward_outputs c version reward :
  is_u64 reward -> 0 <= m_defaultDustThreshold c ->
  exists l,
    (if BLOCK_MAJOR_VERSION_11 <=? version
     then Ret (decompose_amount_uniform reward (m_defaultDustThreshold c))
     else decomposeAmount reward (m_defaultDustThreshold c)) = Ret l
    /\ sumZ l = reward /\ Forall (Z.le 0) l.
Proof.
  intros Hr Hd. destruct (BLOCK_MAJOR_VERSION_11 <=? version).
  - eexists. split; [done |]. split; [by apply decompose_uniform_spec | by apply decompose_uniform_nonneg].
  - by apply decomposeAmount_sum.
Qed.

Lemma efierTotal_sum (rewards : list (AccountPublicAddress * Z)) :
  foldl (fun acc r => u64 (acc + snd r)) 0 rewards = u64 (sumZ (map snd rewards)).
Proof.
  enough (H : forall m, foldl (fun acc r => u64 (acc + snd r)) (u64 m) rewards
                        = u64 (m + sumZ (map snd rewards))) by apply (H 0).
  induction rewards as [| r rewards IH]; intros m; cbn [foldl map].
  - cbn [sumZ foldr]. by rewrite Z.add_0_r.
  - rewrite u64_add_idemp, IH. unfold sumZ. cbn [foldr]. f_equal. lia.
Qed.

Lemma outs_total_map outs : outs_total outs = sumZ (map out_amount outs).
Proof. unfold outs_total, sumZ. induction outs; cbn [foldr map]; [done | lia]. Qed.

Lemma constructMinerTx_spec c gkd dpk txPub txSec version height median already size fee
    minerAddress tx nonce maxOuts burned efierRewards blockReward emissionChange :
  getBlockReward c version median size already fee burned = Ret (Some (blockReward, emissionChange)) ->
  is_u64 blockReward -> 0 <= m_defaultDustThreshold c ->
  Z.of_nat (length nonce) <= TX_EXTRA_NONCE_MAX_COUNT -> (1 <= maxOuts)%nat ->
  derivable gkd dpk txSec minerAddress -> Forall (derivable gkd dpk txSec) (map fst efierRewards) ->
  Forall (Z.le 0) (map snd efierRewards) -> sumZ (map snd efierRewards) <= blockReward ->
  (version < BLOCK_MAJOR_VERSION_10 -> efierRewards = []) ->
  exists tx',
    constructMinerTx c gkd dpk txPub txSec version height median already size fee minerAddress tx
      nonce maxOuts burned efierRewards = Ret (Some tx')
    /\ outs_total (tx_outputs tx') = blockReward
    /\ (length (tx_outputs tx') <= maxOuts + length efierRewards)%nat
    /\ tx_inputs tx' = [InBase (mkBaseInput height)]
    /\ tx_unlockTime tx' = u64 (height + m_minedMoneyUnlockWindow c).
Proof.
  intros Hrew Hu Hd Hnonce Hmax Hmd Hed Henn Hesum Hver. unfold constructMinerTx.
  assert (exists extra, match nonce with
    | [] => Some (addTransactionPublicKeyToExtra [] txPub)
    | _ => addExtraNonceToTransactionExtra (addTransactionPublicKeyToExtra [] txPub) nonce end
    = Some extra) as [extra ->].
  { destruct nonce as [| b nonce]; [by eexists |]. unfold addExtraNonceToTransactionExtra.
    destruct (Z.ltb_spec TX_EXTRA_NONCE_MAX_COUNT (Z.of_nat (length (b :: nonce)))); [lia | by eexists]. }
  rewrite Hrew, outcome_bind_ret, efierTotal_sum.
  set (T := sumZ (map snd efierRewards)) in *. assert (HT : 0 <= T) by (by apply sumZ_nonneg).
  unfold is_u64 in Hu. rewrite (u64_small T) by lia.
  set (minerReward := if (BLOCK_MAJOR_VERSION_10 <=? version) && (0 <? T) && (T <=? blockReward)
                      then blockReward - T else blockReward).
  assert (Hmr : minerReward + T = blockReward).
  { unfold minerReward. destruct (Z.leb_spec BLOCK_MAJOR_VERSION_10 version) as [| Hlt]; cbn [andb].
    - destruct (Z.ltb_spec 0 T); [destruct (Z.leb_spec T blockReward); cbn [andb]; lia | cbn [andb]; lia].
    - unfold T. rewrite (Hver Hlt). cbn. lia. }
  destruct (minerReward_outputs c version minerReward) as (l & -> & Hl & Hnn); [unfold is_u64; lia | done |].
  rewrite outcome_bind_ret. destruct (Nat.ltb_spec maxOuts 1); [lia |].
  destruct (limitOuts_spec maxOuts l) as [Hls Hll]; [done | done | lia |].
  set (outAmounts := limitOuts maxOuts l) in *.
  destruct (derive_outputs_spec gkd dpk txSec (map (fun a => (minerAddress, a)) outAmounts) 0 0 [])
    as (new1 & Heq1 & Hnew1).
  { rewrite map_map. cbn [fst]. apply Forall_map, Forall_true. intros a. exact Hmd. }
  rewrite map_map in Heq1, Hnew1. cbn [snd] in Heq1, Hnew1. rewrite map_id in Heq1, Hnew1.
  change (u64 0) with 0 in Heq1. rewrite Heq1. cbn [mbind option_bind].
  destruct (derive_outputs_spec gkd dpk txSec efierRewards
    (0 + Z.of_nat (length (map (fun a => (minerAddress, a)) outAmounts))) (0 + sumZ outAmounts)
    ([] ++ new1) Hed) as (new2 & -> & Hnew2).
  cbn [mbind option_bind]. fold T. rewrite Hls, Hl, Z.add_0_l, Hmr, Z.eqb_refl.
  eexists. split; [done |]. cbn [tx_outputs tx_inputs tx_unlockTime app].
  split; [| split; [| done]].
  - rewrite outs_total_map, map_app, sumZ_app, Hnew1, Hnew2. fold T. lia.
  - rewrite length_app. rewrite <- (length_map out_amount new1), Hnew1.
    rewrite <- (length_map out_amount new2), Hnew2, length_map. lia.
Qed.

(** When the block reward exists, the nonce fits, the key derivations succeed
    and the Elderfier rewards fit in the block reward, [constructMinerTx] succeeds:
    its own consistency check never fires, the outputs (miner chunks plus Elderfier
    shares) add up to exactly the block reward, there are at most [maxOuts] miner
    outputs, and the single input and the unlock time are those that
    [prevalidate_miner_transaction] asks for. *)
Theorem constructMinerTx_pays_reward c gkd dpk txPub txSec version height median already size fee
    minerAddress tx nonce maxOuts burned efierRewards blockReward emissionChange :
  getBlockReward c version median size already fee burned = Ret (Some (blockReward, emissionChange)) ->
  is_u64 blockReward -> 0 <= m_defaultDustThreshold c ->
  Z.of_nat (length nonce) <= TX_EXTRA_NONCE_MAX_COUNT -> (1 <= maxOuts)%nat ->
  derivable gkd dpk txSec minerAddress -> Forall (derivable gkd dpk txSec) (map fst efierRewards) ->
  Forall (Z.le 0) (map snd efierRewards) -> sumZ (map snd efierRewards) <= blockReward ->
  (version < BLOCK_MAJOR_VERSION_10 -> efierRewards = []) ->
  exists tx',
    constructMinerTx c gkd dpk txPub txSec version height median already size fee minerAddress tx
      nonce maxOuts burned efierRewards = Ret (Some tx')
    /\ outs_total (tx_outputs tx') = blockReward
    /\ (length (tx_outputs tx') <= maxOuts + length efierRewards)%nat
    /\ tx_inputs tx' = [InBase (mkBaseInput height)]
    /\ tx_unlockTime tx' = u64 (height + m_minedMoneyUnlockWindow c).
Proof. apply constructMinerTx_spec. Qed.

Lemma constructMinerTx_pays_reward_witness :
  let gkd := fun view sec : bytes => Some (view ++ sec) in
  let dpk := fun (d : bytes) (i : Z) (spend : bytes) => Some (d ++ i :: spend) in
  let tx0 := mkTransaction 0 0 [] [] [] [] in
  exists tx',
    constructMinerTx mainnet gkd dpk [7] [8] 10 1000000 0 40000000000000 500 800000
      (mkAddress [1] [2]) tx0 [] 11 9000000 [(mkAddress [3] [4], 1500)] = Ret (Some tx')
    /\ outs_total (tx_outputs tx') = 38947065
    /\ (length (tx_outputs tx') <= 11 + 1)%nat
    /\ tx_inputs tx' = [InBase (mkBaseInput 1000000)]
    /\ tx_unlockTime tx' = u64 (1000000 + m_minedMoneyUnlockWindow mainnet).
Proof.
  intros gkd dpk tx0.
  apply (constructMinerTx_pays_reward mainnet gkd dpk [7] [8] 10 1000000 0 40000000000000 500 800000
           (mkAddress [1] [2]) tx0 [] 11 9000000 [(mkAddress [3] [4], 1500)] 38947065 38147065).
  - vm_compute. reflexivity.
  - unfold is_u64. lia.
  - vm_compute. discriminate.
  - vm_compute. discriminate.
  - lia.
  - intros i a. eexists. reflexivity.
  - repeat constructor. intros i a. eexists. reflexivity.
  - constructor; [cbn; lia | constructor].
  - cbn. lia.
  - intros H. vm_compute in H. discriminate.
Defined.
