(* ===== verification/DifficultyAlgo.v ===== *)
(** The difficulty adjustment of [src/src/CryptoNoteCore/Currency.cpp]:
    [nextDifficultyV1], [V2], [V4], [V5], [calculateLWMA] and [V6], on 64-bit
    values, and the dispatch on the block version.  [nextDifficultyV3] computes in
    floating point and is a parameter of the dispatch. *)

From S2P Require Import Prelude Config IntUtil Currency Amounts.

(** * The code *)

(** [std::vector::resize]. *)
Definition resize (n : nat) (v : list Z) : list Z := take n v ++ replicate (n - length v) 0.

Section Algorithms.
Context (c : Currency).

Definition nextDifficultyV1 (timestamps cumulativeDifficulties : list Z) : outcome Z :=
  let window := m_difficultyWindow c in
  _ ← assert_ (2 <=? window);
  let '(timestamps, cumulativeDifficulties) :=
    if window <? Z.of_nat (length timestamps)
    then (resize (Z.to_nat window) timestamps, resize (Z.to_nat window) cumulativeDifficulties)
    else (timestamps, cumulativeDifficulties) in
  let len := Z.of_nat (length timestamps) in
  _ ← assert_ (len =? Z.of_nat (length cumulativeDifficulties));
  _ ← assert_ (len <=? window);
  if len <=? 1 then Ret 1
  else
    let timestamps := sort timestamps in
    _ ← assert_ (u64 (2 * m_difficultyCut c) <=? u64 (window - 2));
    let kept := u64 (window - u64 (2 * m_difficultyCut c)) in
    let '(cutBegin, cutEnd) :=
      if len <=? kept then (0, len)
      else let cutBegin := u64 (u64 (len - kept) + 1) / 2 in (cutBegin, u64 (cutBegin + kept)) in
    _ ← assert_ ((cutBegin + 2 <=? cutEnd) && (cutEnd <=? len));
    tEnd ← vec_at timestamps (cutEnd - 1);
    tBegin ← vec_at timestamps cutBegin;
    let timeSpan := u64 (tEnd - tBegin) in
    let timeSpan := if timeSpan =? 0 then 1 else timeSpan in
    dEnd ← vec_at cumulativeDifficulties (cutEnd - 1);
    dBegin ← vec_at cumulativeDifficulties cutBegin;
    let totalWork := u64 (dEnd - dBegin) in
    _ ← assert_ (0 <? totalWork);
    '(low, high) ← mul128 totalWork (m_difficultyTarget_DRGL c);
    if negb (high =? 0) || (u64 (u64 (low + timeSpan) - 1) <? low) then Ret 0
    else udiv (u64 (u64 (low + timeSpan) - 1)) timeSpan.

Definition nextDifficultyV2 (timestamps cumulativeDifficulties : list Z) : outcome Z :=
  let window := DIFFICULTY_WINDOW_V2 in
  _ ← assert_ (2 <=? window);
  let '(timestamps, cumulativeDifficulties) :=
    if window <? Z.of_nat (length timestamps)
    then (resize (Z.to_nat window) timestamps, resize (Z.to_nat window) cumulativeDifficulties)
    else (timestamps, cumulativeDifficulties) in
  let len := Z.of_nat (length timestamps) in
  _ ← assert_ (len =? Z.of_nat (length cumulativeDifficulties));
  _ ← assert_ (len <=? window);
  if len <=? 1 then Ret 1
  else
    let timestamps := sort timestamps in
    tBack ← vec_at timestamps (len - 1);
    tFront ← vec_at timestamps 0;
    let timeSpan := u64 (tBack - tFront) in
    let timeSpan := if timeSpan =? 0 then 1 else timeSpan in
    dBack ← vec_at cumulativeDifficulties (Z.of_nat (length cumulativeDifficulties) - 1);
    dFront ← vec_at cumulativeDifficulties 0;
    let totalWork := u64 (dBack - dFront) in
    _ ← assert_ (0 <? totalWork);
    '(low, high) ← mul128 totalWork (m_difficultyTarget_DRGL c);
    if negb (high =? 0) then Ret 0
    else
      nextDiffZ ← udiv low timeSpan;
      Ret (if negb (m_testnet c) && (nextDiffZ <? 10000) then 10000 else nextDiffZ).

(** The weighted sum of V4 and V5: [L += i * std::min(6 * T, this - previous)]. *)
Fixpoint lwma_sum (n : nat) (i T previous_timestamp L : Z) (timestamps : list Z) : outcome Z :=
  match n with
  | O => Ret L
  | S n =>
      ti ← vec_at timestamps i;
      let this_timestamp := if previous_timestamp <? ti then ti else previous_timestamp in
      let L := u64 (L + u64 (i * Z.min (6 * T) (u64 (this_timestamp - previous_timestamp)))) in
      lwma_sum n (i + 1) T this_timestamp L timestamps
  end.

(** [next_D] from the average difficulty and [L], with the weight 97. *)
Definition lwma_next (avg_D N T L weight : Z) : outcome Z :=
  if u64 (u64 (u64 (2000000 * N) * N) * T) <? avg_D then
    q ← udiv avg_D (u64 (200 * L));
    Ret (u64 (q * u64 (u64 (u64 (N * (N + 1)) * T) * weight)))
  else
    udiv (u64 (u64 (u64 (u64 (avg_D * N) * (N + 1)) * T) * weight)) (u64 (200 * L)).

(** [while (i > 1) { if (next_D > i*100) { next_D = ((next_D+i/2)/i)*i; break; } else i /= 10; }]
    from [i = 1000000000], ten rounds at most. *)
Fixpoint round_digits (fuel : nat) (i next_D : Z) : Z :=
  match fuel with
  | O => next_D
  | S fuel =>
      if 1 <? i then
        if i * 100 <? next_D then u64 (u64 (next_D + i / 2) / i * i)
        else round_digits fuel (i / 10) next_D
      else next_D
  end.

Definition round_next (next_D : Z) : Z := round_digits 10 1000000000 next_D.

(** The last two digits of V4 and V5. *)
Definition hashrate_digits (timestamps : list Z) (N T next_D : Z) : outcome Z :=
  if 10000 <? next_D then
    tN ← vec_at timestamps N;
    tM ← vec_at timestamps (N - 11);
    let span := u64 (tN - tM) in
    est_HR ← udiv (u64 (10 * u64 (11 * T + span / 2))) (u64 (span + 1));
    let est_HR := if (5 <? est_HR) && (est_HR <? 22) then 0 else est_HR in
    let est_HR := Z.min 99 est_HR in
    Ret (u64 (u64 (u64 (next_D + 50) / 100 * 100) + est_HR))
  else Ret next_D.

Definition nextDifficultyV4 (height : Z) (timestamps cumulativeDifficulties : list Z) : outcome Z :=
  let T := DIFFICULTY_TARGET_DRGL in
  let N := DIFFICULTY_WINDOW_V3 in
  _ ← assert_ ((length timestamps =? length cumulativeDifficulties)%nat
               && (Z.of_nat (length timestamps) <=? N + 1));
  if height <=? UPGRADE_HEIGHT_V4 + 1 + N then Ret 10000
  else
    t0 ← vec_at timestamps 0;
    L ← lwma_sum (Z.to_nat N) 1 T t0 0 timestamps;
    let L := if L <? N * N * T / 20 then N * N * T / 20 else L in
    dN ← vec_at cumulativeDifficulties N;
    d0 ← vec_at cumulativeDifficulties 0;
    let avg_D := u64 (dN - d0) / N in
    next_D ← lwma_next avg_D N T L 97;
    let next_D := round_next next_D in
    next_D ← hashrate_digits timestamps N T next_D;
    Ret (if negb (m_testnet c) && (next_D <? 10000) then 10000 else next_D).

Definition nextDifficultyV5 (height : Z) (timestamps cumulativeDifficulties : list Z) : outcome Z :=
  let T := DIFFICULTY_TARGET in
  let N := DIFFICULTY_WINDOW_V4 in
  let difficulty_plate := if m_testnet c then 10000 else 100000 in
  _ ← assert_ ((length timestamps =? length cumulativeDifficulties)%nat
               && (Z.of_nat (length timestamps) <=? N + 1));
  if height <=? UPGRADE_HEIGHT_V7 + 1 + N then Ret difficulty_plate
  else
    t0 ← vec_at timestamps 0;
    L ← lwma_sum (Z.to_nat N) 1 T t0 0 timestamps;
    let L := if L <? N * N * T / 20 then N * N * T / 20 else L in
    avg_D ←
      (if N <? Z.of_nat (length cumulativeDifficulties) then
         dN ← vec_at cumulativeDifficulties N;
         d0 ← vec_at cumulativeDifficulties 0;
         Ret (u64 (dN - d0) / N)
       else if 0 <? Z.of_nat (length cumulativeDifficulties) then
         vec_at cumulativeDifficulties (Z.of_nat (length cumulativeDifficulties) - 1)
       else Ret 10000);
    next_D ← lwma_next avg_D N T L 97;
    let next_D := if L <? N * T / 100 then Z.min next_D (u64 (avg_D * 1000)) else next_D in
    let next_D := round_next next_D in
    next_D ← hashrate_digits timestamps N T next_D;
    Ret (if negb (m_testnet c) && (next_D <? 10000) then 10000 else next_D).

(** The weighted sum of [calculateLWMA]. *)
Fixpoint lwma_clamped_sum (n : nat) (i T minSolveTime previous_timestamp L : Z) (timestamps : list Z)
    : outcome Z :=
  match n with
  | O => Ret L
  | S n =>
      ti ← vec_at timestamps i;
      let this_timestamp := if ti <=? previous_timestamp then u64 (previous_timestamp + 1) else ti in
      let solveTime := u64 (this_timestamp - previous_timestamp) in
      let solveTime := if 6 * T <? solveTime then 6 * T else solveTime in
      let solveTime := if (0 <? minSolveTime) && (solveTime <? minSolveTime)
                       then minSolveTime else solveTime in
      lwma_clamped_sum n (i + 1) T minSolveTime this_timestamp (u64 (L + u64 (i * solveTime))) timestamps
  end.

Definition calculateLWMA (timestamps cumulativeDifficulties : list Z) (N T minDifficulty minSolveTime : Z)
    : outcome Z :=
  if Z.of_nat (length timestamps) <? 2 then Ret minDifficulty
  else
    let effectiveN := Z.min N (Z.of_nat (length timestamps) - 1) in
    if effectiveN <? 2 then Ret minDifficulty
    else
      t0 ← vec_at timestamps 0;
      L ← lwma_clamped_sum (Z.to_nat effectiveN) 1 T minSolveTime t0 0 timestamps;
      let minL := u64 (u64 (effectiveN * effectiveN) * T) / 20 in
      let L := if L <? minL then minL else L in
      avgD ←
        (if (effectiveN <? Z.of_nat (length cumulativeDifficulties)) && (0 <? effectiveN) then
           dN ← vec_at cumulativeDifficulties effectiveN;
           d0 ← vec_at cumulativeDifficulties 0;
           udiv (u64 (dN - d0)) effectiveN
         else Ret minDifficulty);
      let avgD := if avgD <? minDifficulty then minDifficulty else avgD in
      next_D ← lwma_next avgD effectiveN T L 99;
      Ret (Z.max minDifficulty next_D).

(** The weighted sum of V6, with solve times clamped to [[T / 3, 6 * T]]. *)
Fixpoint lwma_sum_v6 (n : nat) (i T previous_timestamp L : Z) (timestamps : list Z) : outcome Z :=
  match n with
  | O => Ret L
  | S n =>
      ti ← vec_at timestamps i;
      let this_timestamp := if previous_timestamp <? ti then ti else previous_timestamp in
      let solveTime := u64 (this_timestamp - previous_timestamp) in
      let solveTime := Z.max (T / 3) (Z.min (6 * T) solveTime) in
      lwma_sum_v6 n (i + 1) T this_timestamp (u64 (L + u64 (i * solveTime))) timestamps
  end.

Definition minDifficultyV6 : Z := if m_testnet c then 10000 else 1000000.

Definition nextDifficultyV6 (timestamps cumulativeDifficulties : list Z) : outcome Z :=
  let T := DIFFICULTY_TARGET in
  let N := 39 in
  if negb (length timestamps =? length cumulativeDifficulties)%nat
     || (Z.of_nat (length timestamps) <=? N) then Ret minDifficultyV6
  else
    t0 ← vec_at timestamps 0;
    L ← lwma_sum_v6 (Z.to_nat N) 1 T t0 0 timestamps;
    let L := if L <? N * N * T / 20 then N * N * T / 20 else L in
    dN ← vec_at cumulativeDifficulties N;
    d0 ← vec_at cumulativeDifficulties 0;
    let avg_D := u64 (dN - d0) / N in
    let avg_D := if avg_D <? minDifficultyV6 then minDifficultyV6 else avg_D in
    next_D ← lwma_next avg_D N T L 97;
    let next_D := if L <? N * T / 100 then Z.min next_D (u64 (avg_D * 1000)) else next_D in
    Ret (Z.max minDifficultyV6 (round_next next_D)).

(** The dispatch; V3 is the floating-point algorithm. *)
Definition nextDifficulty (nextDifficultyV3 : list Z -> list Z -> outcome Z)
    (height blockMajorVersion : Z) (timestamps cumulativeDifficulties : list Z) : outcome Z :=
  if BLOCK_MAJOR_VERSION_10 <=? blockMajorVersion then
    nextDifficultyV6 timestamps cumulativeDifficulties
  else if BLOCK_MAJOR_VERSION_7 <=? blockMajorVersion then
    nextDifficultyV5 height timestamps cumulativeDifficulties
  else if BLOCK_MAJOR_VERSION_4 <=? blockMajorVersion then
    nextDifficultyV4 height timestamps cumulativeDifficulties
  else if BLOCK_MAJOR_VERSION_3 <=? blockMajorVersion then
    nextDifficultyV3 timestamps cumulativeDifficulties
  else if blockMajorVersion =? BLOCK_MAJOR_VERSION_2 then
    nextDifficultyV2 timestamps cumulativeDifficulties
  else nextDifficultyV1 timestamps cumulativeDifficulties.

End Algorithms.

(** * Version 6: total, and stable *)

(** [i + (i + 1) + ...], [n] terms. *)
Fixpoint wsum (i : Z) (n : nat) : Z :=
  match n with O => 0 | S n => i + wsum (i + 1) n end.

Lemma wsum_nonneg i n : 0 <= i -> 0 <= wsum i n.
Proof. revert i. induction n as [| n IH]; intros i Hi; cbn [wsum]; [lia |]. specialize (IH (i + 1)). lia. Qed.

Lemma lwma_sum_v6_bounds n i prev L timestamps :
  Forall is_u64 timestamps -> is_u64 prev -> 1 <= i -> i + Z.of_nat n <= Z.of_nat (length timestamps) ->
  0 <= L -> L + 2880 * wsum i n < 2 ^ 62 ->
  exists L', lwma_sum_v6 n i DIFFICULTY_TARGET prev L timestamps = Ret L'
    /\ L + 160 * wsum i n <= L' <= L + 2880 * wsum i n.
Proof.
  intros Hts. revert i prev L. induction n as [| n IH]; intros i prev L Hp Hi Hlen HL Hb;
    cbn [lwma_sum_v6].
  - exists L. split; [done |]. cbn [wsum]. lia.
  - destruct (vec_at_in_range timestamps i) as [ti Hti]; [lia |].
    rewrite Hti, outcome_bind_ret.
    apply vec_at_Ret in Hti as [_ Hti]. apply list_elem_of_lookup_2 in Hti.
    rewrite Forall_forall in Hts. pose proof (Hts ti Hti) as Htu. rewrite <- Forall_forall in Hts.
    unfold is_u64 in *. cbn [wsum] in Hb. pose proof (wsum_nonneg (i + 1) n ltac:(lia)) as Hw.
    set (this := if prev <? ti then ti else prev).
    assert (Hthis : prev <= this < 2 ^ 64) by (unfold this; destruct (Z.ltb_spec prev ti); lia).
    rewrite (u64_small (this - prev)) by lia.
    change (DIFFICULTY_TARGET / 3) with 160. change (6 * DIFFICULTY_TARGET) with 2880.
    set (solve := Z.max 160 (Z.min 2880 (this - prev))).
    assert (Hs : 160 <= solve <= 2880) by lia.
    assert (Hprod : 160 * i <= i * solve <= 2880 * i) by nia.
    rewrite (u64_small (i * solve)), (u64_small (L + i * solve)) by lia.
    destruct (IH (i + 1) this (L + i * solve)) as (L' & HL' & Hbound); try (unfold is_u64; lia).
    exists L'. split; [done |]. cbn [wsum]. lia.
Qed.

Lemma round_digits_close fuel i d :
  0 <= i <= 1000000000 -> 0 <= d < 2 ^ 62 ->
  199 * d <= 200 * round_digits fuel i d <= 201 * d.
Proof.
  revert i. induction fuel as [| fuel IH]; intros i Hi Hd; cbn [round_digits]; [lia |].
  destruct (Z.ltb_spec 1 i); [| lia].
  destruct (Z.ltb_spec (i * 100) d).
  - pose proof (Z.div_mod i 2 ltac:(lia)). pose proof (Z.mod_pos_bound i 2 ltac:(lia)).
    set (h := i / 2) in *. rewrite (u64_small (d + h)) by lia.
    pose proof (Z.div_mod (d + h) i ltac:(lia)). pose proof (Z.mod_pos_bound (d + h) i ltac:(lia)).
    set (q := (d + h) / i) in *. rewrite u64_small by nia. lia.
  - apply IH; [| done].
    split; [apply Z.div_pos; lia | apply Z.div_le_upper_bound; lia].
Qed.

Lemma round_digits_nonneg fuel i d : 0 <= i -> 0 <= d -> 0 <= round_digits fuel i d.
Proof.
  revert i. induction fuel as [| fuel IH]; intros i Hi Hd; cbn [round_digits]; [done |].
  destruct (1 <? i); [| done]. destruct (_ <? d); [apply u64_range |].
  apply IH; [apply Z.div_pos; lia | done].
Qed.

(** The part of V6 up to [L]: with enough samples it succeeds and [L] is between
    [160 * 780] and [2880 * 780], so that neither lower limit on [L] applies. *)
Lemma v6_weighted_sum timestamps :
  Forall is_u64 timestamps -> 39 < Z.of_nat (length timestamps) ->
  exists t0 L,
    vec_at timestamps 0 = Ret t0
    /\ lwma_sum_v6 (Z.to_nat 39) 1 DIFFICULTY_TARGET t0 0 timestamps = Ret L
    /\ 124800 <= L <= 2246400.
Proof.
  intros Hts Hlen. destruct (vec_at_in_range timestamps 0) as [t0 Ht0]; [lia |].
  exists t0. pose proof Ht0 as Hin. apply vec_at_Ret in Hin as [_ Hin].
  apply list_elem_of_lookup_2 in Hin. pose proof Hts as Hall. rewrite Forall_forall in Hall.
  destruct (lwma_sum_v6_bounds (Z.to_nat 39) 1 t0 0 timestamps) as (L & HL & Hb);
    [done | by apply Hall | lia | lia | lia | vm_compute; reflexivity |].
  exists L. split; [done |]. split; [done |].
  change (wsum 1 (Z.to_nat 39)) with 780 in Hb. lia.
Qed.

Lemma lwma_next_returns avg N T L w : 0 < L < 2 ^ 32 -> exists x, lwma_next avg N T L w = Ret x.
Proof.
  intros HL. unfold lwma_next. rewrite (u64_small (200 * L)), !udiv_pos by lia.
  destruct (_ <? avg); rewrite ?outcome_bind_ret; by eexists.
Qed.

(** [nextDifficultyV6] returns a difficulty for every two vectors of 64-bit
    values, whatever their lengths and the order of the timestamps, and never one
    below the network minimum (in particular never 0, which the chain treats as an
    overflow). *)
Theorem difficultyV6_total c timestamps cumulativeDifficulties :
  Forall is_u64 timestamps -> Forall is_u64 cumulativeDifficulties ->
  exists d, nextDifficultyV6 c timestamps cumulativeDifficulties = Ret d /\ minDifficultyV6 c <= d.
Proof.
  intros Hts Hcd. unfold nextDifficultyV6.
  destruct (Nat.eqb_spec (length timestamps) (length cumulativeDifficulties)) as [Hlen | _]; cbn [negb orb];
    [| by eexists].
  destruct (Z.leb_spec (Z.of_nat (length timestamps)) 39); [by eexists |].
  destruct (v6_weighted_sum timestamps Hts) as (t0 & L & -> & HL & Hb); [lia |].
  rewrite outcome_bind_ret, HL, outcome_bind_ret. change (39 * 39 * DIFFICULTY_TARGET / 20) with 36504.
  destruct (Z.ltb_spec L 36504); [lia |].
  destruct (vec_at_in_range cumulativeDifficulties 39) as [dN ->]; [lia |].
  destruct (vec_at_in_range cumulativeDifficulties 0) as [d0 ->]; [lia |].
  rewrite !outcome_bind_ret.
  match goal with |- context [lwma_next ?avg 39 DIFFICULTY_TARGET L 97] =>
    destruct (lwma_next_returns avg 39 DIFFICULTY_TARGET L 97) as [x ->]; [lia |] end.
  rewrite outcome_bind_ret. eexists. split; [done | lia].
Qed.

Definition average_difficulty_v6 (c : Currency) (cumulativeDifficulties : list Z) : Z :=
  Z.max (minDifficultyV6 c)
    (u64 (nth 39 cumulativeDifficulties 0 - nth 0 cumulativeDifficulties 0) / 39).

Lemma lwma_next_v6_exact avg L :
  0 <= avg -> avg * 72633600 < 2 ^ 64 -> 0 < L < 2 ^ 32 ->
  lwma_next avg 39 DIFFICULTY_TARGET L 97 = Ret (avg * 72633600 / (200 * L)).
Proof.
  intros Ha Hb HL. unfold lwma_next.
  change (u64 (u64 (u64 (2000000 * 39) * 39) * DIFFICULTY_TARGET)) with 1460160000000.
  destruct (Z.ltb_spec 1460160000000 avg); [lia |].
  rewrite (u64_small (200 * L)), udiv_pos by lia.
  unfold DIFFICULTY_TARGET.
  rewrite (u64_small (avg * 39)), (u64_small (avg * 39 * (39 + 1))) by lia.
  rewrite (u64_small (avg * 39 * (39 + 1) * 480)), u64_small by lia.
  do 2 f_equal. lia.
Qed.

Lemma lwma_ratio avg L :
  10000 <= avg -> 124800 <= L <= 2246400 ->
  let d := avg * 72633600 / (200 * L) in
  1616 * avg <= 10000 * d + 10000 /\ 100 * d <= 291 * avg.
Proof.
  intros Ha HL d. assert (Hd : 200 * L * d <= avg * 72633600 < 200 * L * (d + 1)).
  { unfold d. pose proof (Z.div_mod (avg * 72633600) (200 * L) ltac:(lia)).
    pose proof (Z.mod_pos_bound (avg * 72633600) (200 * L) ltac:(lia)). lia. }
  clearbody d. assert (0 <= d) by nia. nia.
Qed.

(** As long as the average difficulty stays below [2^64 / 72633600] (about
    254 billion), version 6 never overflows and one adjustment keeps the
    difficulty between 16% and 300% of the average of the window, for any
    timestamps. *)
Theorem difficultyV6_stable c timestamps cumulativeDifficulties :
  Forall is_u64 timestamps -> length timestamps = length cumulativeDifficulties ->
  39 < Z.of_nat (length timestamps) ->
  let avg := average_difficulty_v6 c cumulativeDifficulties in
  avg * 72633600 < 2 ^ 64 ->
  exists d, nextDifficultyV6 c timestamps cumulativeDifficulties = Ret d
    /\ 16 * avg <= 100 * d /\ d <= 3 * avg.
Proof.
  intros Hts Hlen Hn avg Hb. unfold nextDifficultyV6.
  rewrite (proj2 (Nat.eqb_eq _ _) Hlen). cbn [negb orb].
  destruct (Z.leb_spec (Z.of_nat (length timestamps)) 39); [lia |].
  destruct (v6_weighted_sum timestamps Hts) as (t0 & L & -> & HL & HLb); [lia |].
  rewrite outcome_bind_ret, HL, outcome_bind_ret. change (39 * 39 * DIFFICULTY_TARGET / 20) with 36504.
  destruct (Z.ltb_spec L 36504); [lia |].
  change (39 * DIFFICULTY_TARGET / 100) with 187.
  destruct (nth_lookup_or_length cumulativeDifficulties 39 0) as [HN |]; [| lia].
  destruct (nth_lookup_or_length cumulativeDifficulties 0 0) as [HF |]; [| lia].
  rewrite (vec_at_lookup _ 39 _ ltac:(lia) HN), (vec_at_lookup _ 0 _ ltac:(lia) HF), !outcome_bind_ret.
  set (raw := u64 (nth 39 cumulativeDifficulties 0 - nth 0 cumulativeDifficulties 0) / 39) in *.
  assert (Havg : (if raw <? minDifficultyV6 c then minDifficultyV6 c else raw) = avg).
  { unfold avg, average_difficulty_v6. fold raw. destruct (Z.ltb_spec raw (minDifficultyV6 c)); lia. }
  rewrite Havg. assert (Hmin : 10000 <= minDifficultyV6 c <= avg).
  { unfold avg, average_difficulty_v6, minDifficultyV6. destruct (m_testnet c); lia. }
  rewrite lwma_next_v6_exact, outcome_bind_ret by lia.
  destruct (Z.ltb_spec L 187); [lia |].
  destruct (lwma_ratio avg L) as [Hlo Hhi]; [lia | lia |].
  set (d := avg * 72633600 / (200 * L)) in *. clearbody d. cbv zeta in *.
  pose proof (round_digits_close 10 1000000000 d ltac:(lia) ltac:(lia)) as Hr.
  fold (round_next d) in Hr. eexists. split; [done |]. lia.
Qed.

(** A steady chain: one block per target interval, constant difficulty [d]. *)
Definition steady_timestamps (n : nat) : list Z :=
  map (fun k => 1700000000 + 480 * Z.of_nat k) (seq 0 n).
Definition steady_difficulties (d : Z) (n : nat) : list Z := map (fun k => d * Z.of_nat k) (seq 0 n).

Lemma Forall_u64_dec l : forallb (fun x => (0 <=? x) && (x <? 2 ^ 64)) l = true -> Forall is_u64 l.
Proof.
  intros H. apply Forall_forall. intros x Hx. rewrite forallb_forall in H.
  specialize (H x). rewrite <- list_elem_of_In in H. apply H in Hx.
  apply andb_true_iff in Hx as [H1 H2]. apply Z.leb_le in H1. apply Z.ltb_lt in H2. done.
Qed.

Lemma difficultyV6_total_witness :
  exists d, nextDifficultyV6 mainnet (steady_timestamps 40) (steady_difficulties 5000000 40) = Ret d
    /\ minDifficultyV6 mainnet <= d.
Proof.
  apply (difficultyV6_total mainnet (steady_timestamps 40) (steady_difficulties 5000000 40));
    apply Forall_u64_dec; vm_compute; reflexivity.
Defined.

Lemma difficultyV6_stable_witness :
  let avg := average_difficulty_v6 mainnet (steady_difficulties 5000000 40) in
  exists d, nextDifficultyV6 mainnet (steady_timestamps 40) (steady_difficulties 5000000 40) = Ret d
    /\ 16 * avg <= 100 * d /\ d <= 3 * avg.
Proof.
  apply (difficultyV6_stable mainnet (steady_timestamps 40) (steady_difficulties 5000000 40)).
  - apply Forall_u64_dec. vm_compute. reflexivity.
  - reflexivity.
  - reflexivity.
  - vm_compute. reflexivity.
Defined.

(** Above that bound the guard meant to prevent overflow does not: on a steady
    chain of constant difficulty 300 billion (below the threshold
    [2000000 * N * N * T] of the overflow branch) the 64-bit product wraps and
    version 6 lowers the difficulty to less than a sixth in one block, while at 250
    billion it keeps 97% of it. *)
Theorem difficultyV6_overflow :
  (exists d, nextDifficultyV6 mainnet (steady_timestamps 40) (steady_difficulties 300000000000 40)
             = Ret d /\ 6 * d < 300000000000)
  /\ nextDifficultyV6 mainnet (steady_timestamps 40) (steady_difficulties 250000000000 40)
     = Ret 243000000000
  /\ 300000000000 < 2000000 * 39 * 39 * DIFFICULTY_TARGET.
Proof.
  split; [eexists; split; [vm_compute; reflexivity | lia] |].
  split; [vm_compute; reflexivity | vm_compute; reflexivity].
Qed.

(** * Version 5: the division by the last eleven solve times *)

Lemma lwma_sum_bounds n i prev L timestamps :
  Forall is_u64 timestamps -> is_u64 prev -> 1 <= i -> i + Z.of_nat n <= Z.of_nat (length timestamps) ->
  0 <= L -> L + 2880 * wsum i n < 2 ^ 62 ->
  exists L', lwma_sum n i DIFFICULTY_TARGET prev L timestamps = Ret L'
    /\ L <= L' <= L + 2880 * wsum i n.
Proof.
  intros Hts. revert i prev L. induction n as [| n IH]; intros i prev L Hp Hi Hlen HL Hb;
    cbn [lwma_sum].
  - exists L. split; [done |]. cbn [wsum]. lia.
  - destruct (vec_at_in_range timestamps i) as [ti Hti]; [lia |].
    rewrite Hti, outcome_bind_ret.
    apply vec_at_Ret in Hti as [_ Hti]. apply list_elem_of_lookup_2 in Hti.
    rewrite Forall_forall in Hts. pose proof (Hts ti Hti) as Htu. rewrite <- Forall_forall in Hts.
    unfold is_u64 in *. cbn [wsum] in Hb. pose proof (wsum_nonneg (i + 1) n ltac:(lia)) as Hw.
    set (this := if prev <? ti then ti else prev).
    assert (Hthis : prev <= this < 2 ^ 64) by (unfold this; destruct (Z.ltb_spec prev ti); lia).
    rewrite (u64_small (this - prev)) by lia. change (6 * DIFFICULTY_TARGET) with 2880.
    assert (Hprod : 0 <= i * Z.min 2880 (this - prev) <= 2880 * i) by nia.
    rewrite (u64_small (i * _)), (u64_small (L + _)) by lia.
    destruct (IH (i + 1) this (L + i * Z.min 2880 (this - prev))) as (L' & HL' & Hbound);
      try (unfold is_u64; lia).
    exists L'. split; [done |]. cbn [wsum]. lia.
Qed.

(** The last step of V4 and V5 fails only by dividing by zero. *)
Lemma hashrate_digits_cases timestamps d tN tM :
  vec_at timestamps 45 = Ret tN -> vec_at timestamps 34 = Ret tM ->
  hashrate_digits timestamps 45 DIFFICULTY_TARGET d = Undefined
    /\ u64 (tN - tM) = UINT64_MAX
  \/ exists d', hashrate_digits timestamps 45 DIFFICULTY_TARGET d = Ret d'.
Proof.
  intros HN HM. unfold hashrate_digits. change (45 - 11) with 34. rewrite HN, HM, !outcome_bind_ret.
  destruct (10000 <? d); [| by right; eexists]. unfold udiv.
  destruct (Z.eqb_spec (u64 (u64 (tN - tM) + 1)) 0) as [E | E]; [left | by right; eexists].
  split; [done |]. pose proof (u64_range (tN - tM)) as Hr. unfold UINT64_MAX.
  destruct (u64_add_cases (u64 (tN - tM)) 1) as [[? He] | [? He]]; try (unfold is_u64; lia).
Qed.

(** With the 46 samples the chain passes, timestamps below [2^63], [nextDifficultyV5] returns at least
    10000 on the main network, except when the newest timestamp is exactly one second
    before the one eleven blocks earlier: then [timestamps[N] - timestamps[N-11] + 1]
    wraps to 0 and the estimate of the hash rate divides by zero. *)
Theorem difficultyV5_result height timestamps cumulativeDifficulties :
  Forall (fun t => 0 <= t < 2 ^ 63) timestamps -> Forall is_u64 cumulativeDifficulties ->
  length timestamps = 46%nat -> length cumulativeDifficulties = 46%nat ->
  (exists d, nextDifficultyV5 mainnet height timestamps cumulativeDifficulties = Ret d /\ 10000 <= d)
  \/ nextDifficultyV5 mainnet height timestamps cumulativeDifficulties = Undefined
     /\ exists tN tM, vec_at timestamps 45 = Ret tN /\ vec_at timestamps 34 = Ret tM /\ tN = tM - 1.
Proof.
  intros Hts0 Hcd Hlt Hld.
  assert (Hts : Forall is_u64 timestamps)
    by (eapply Forall_impl; [exact Hts0 |]; unfold is_u64; simpl; lia).
  unfold nextDifficultyV5. rewrite Hlt, Hld.
  change DIFFICULTY_WINDOW_V4 with 45. cbn [Nat.eqb]. change (46%nat =? 46%nat)%nat with true.
  cbn [andb]. rewrite assert_true, outcome_bind_ret by reflexivity.
  change (m_testnet mainnet) with false. cbn [negb andb].
  destruct (_ <=? _); [left; eexists; split; [done | vm_compute; discriminate] |].
  destruct (vec_at_in_range timestamps 0) as [t0 Ht0]; [rewrite Hlt; lia |].
  destruct (vec_at_in_range timestamps 45) as [tN HN]; [rewrite Hlt; lia |].
  destruct (vec_at_in_range timestamps 34) as [tM HM]; [rewrite Hlt; lia |].
  assert (Hu : forall i t, vec_at timestamps i = Ret t -> 0 <= t < 2 ^ 63).
  { intros i t Hi. apply vec_at_Ret in Hi as [_ Hi]. apply list_elem_of_lookup_2 in Hi.
    rewrite Forall_forall in Hts0. by apply Hts0. }
  rewrite Ht0, outcome_bind_ret.
  destruct (lwma_sum_bounds (Z.to_nat 45) 1 t0 0 timestamps) as (L & -> & HL);
    [done | apply Hu in Ht0; unfold is_u64; lia | lia | rewrite Hlt; lia | lia
    | vm_compute; reflexivity |].
  change (wsum 1 (Z.to_nat 45)) with 1035 in HL.
  rewrite outcome_bind_ret. change (45 * 45 * DIFFICULTY_TARGET / 20) with 48600.
  set (L' := if L <? 48600 then 48600 else L).
  assert (HL' : 48600 <= L' < 2 ^ 32) by (unfold L'; destruct (Z.ltb_spec L 48600); lia).
  change (45 <? Z.of_nat 46) with true. cbn match.
  destruct (vec_at_in_range cumulativeDifficulties 45) as [dN ->]; [rewrite Hld; lia |].
  destruct (vec_at_in_range cumulativeDifficulties 0) as [d0 ->]; [rewrite Hld; lia |].
  rewrite !outcome_bind_ret.
  destruct (lwma_next_returns (u64 (dN - d0) / 45) 45 DIFFICULTY_TARGET L' 97) as [x ->]; [lia |].
  rewrite outcome_bind_ret.
  match goal with |- context [hashrate_digits _ _ _ ?d] =>
    destruct (hashrate_digits_cases timestamps d tN tM HN HM) as [[-> Hspan] | [d' ->]] end.
  - right. split; [done |]. exists tN, tM. split; [done |]. split; [done |].
    pose proof (Hu _ _ HN) as HuN. pose proof (Hu _ _ HM) as HuM. unfold is_u64, UINT64_MAX, u64 in *.
    pose proof (Z.div_mod (tN - tM) (2 ^ 64) ltac:(lia)). rewrite Hspan in H. lia.
  - left. rewrite outcome_bind_ret. eexists. split; [done |].
    destruct (Z.ltb_spec d' 10000); cbn [andb]; lia.
Qed.

Lemma difficultyV5_result_witness :
  (exists d, nextDifficultyV5 mainnet 700000 (steady_timestamps 46) (steady_difficulties 5000000 46)
             = Ret d /\ 10000 <= d)
  \/ nextDifficultyV5 mainnet 700000 (steady_timestamps 46) (steady_difficulties 5000000 46) = Undefined
     /\ exists tN tM, vec_at (steady_timestamps 46) 45 = Ret tN
                      /\ vec_at (steady_timestamps 46) 34 = Ret tM /\ tN = tM - 1.
Proof.
  apply (difficultyV5_result 700000 (steady_timestamps 46) (steady_difficulties 5000000 46));
    try reflexivity.
  - apply Forall_forall. intros t Ht. apply list_elem_of_In, in_map_iff in Ht as (k & <- & Hk).
    apply in_seq in Hk. lia.
  - apply Forall_u64_dec. vm_compute. reflexivity.
Defined.

(** Timestamps within the limits of the chain: one miner is 900 seconds ahead, the
    next eleven blocks come every 80 seconds. *)
Definition hasty_timestamps : list Z :=
  map (fun k => 480 * k) (seqZ 0 34) ++ [480 * 34 + 900]
  ++ map (fun k => 480 * 34 + 19 + 80 * k) (seqZ 1 11).

(** The division by zero is reachable: on a chain with regular timestamps, one
    block 900 seconds in the future (the limit is 960) and eleven quick blocks after
    it, [nextDifficultyV5] has no result. *)
Theorem difficultyV5_division_by_zero :
  length hasty_timestamps = 46%nat
  /\ Forall (fun t => t <= 480 * 34 + 80 * 11 + 20) hasty_timestamps
  /\ nextDifficultyV5 mainnet 700000 hasty_timestamps (steady_difficulties 5000000 46) = Undefined.
Proof.
  split; [reflexivity |]. split; [| vm_compute; reflexivity].
  apply Forall_forall. intros t Ht.
  assert (Hall : forallb (fun t => t <=? 480 * 34 + 80 * 11 + 20) hasty_timestamps = true)
    by (vm_compute; reflexivity).
  rewrite forallb_forall in Hall. apply Z.leb_le, Hall. by apply list_elem_of_In.
Qed.
