(* ===== verification/Base58.v ===== *)
(** Base58 and account addresses: [src/src/Common/Base58.cpp] and the address
    functions of [src/src/CryptoNoteCore/CryptoNoteBasicImpl.cpp] and
    [Currency.cpp].  Strings are byte lists. *)

From S2P Require Import Prelude IntUtil Keccak Config Currency Types Varint.

(** * The code *)

(** The characters of the alphabet ["123456789ABCDEFGHJKLMNPQRSTUVWXYZabcdefghijkmnopqrstuvwxyz"]. *)
Definition alphabet : list Z :=
  map (fun c => Z.of_nat (Ascii.nat_of_ascii c))
    (String.list_ascii_of_string "123456789ABCDEFGHJKLMNPQRSTUVWXYZabcdefghijkmnopqrstuvwxyz").

Definition alphabet_size : Z := 58.
Definition encoded_block_sizes : list nat := [0; 2; 3; 5; 6; 7; 9; 10; 11]%nat.
Definition full_block_size : nat := 8.
Definition full_encoded_block_size : nat := 11.
Definition addr_checksum_size : nat := 4.

(** [reverse_alphabet]: the table built by the constructor, and the lookup. *)
Definition reverse_table : list Z :=
  foldl (fun t i => <[Z.to_nat (nth i alphabet 0 - nth 0 alphabet 0) := Z.of_nat i]> t)
    (replicate (Z.to_nat (nth 57 alphabet 0 - nth 0 alphabet 0 + 1)) (-1)) (seq 0 58).

Definition reverse_alphabet (letter : Z) : Z :=
  let idx := u64 (letter - nth 0 alphabet 0) in
  if idx <? Z.of_nat (length reverse_table) then nth (Z.to_nat idx) reverse_table (-1) else -1.

(** [decoded_block_sizes]. *)
Definition decoded_table : list Z :=
  foldl (fun t i => <[nth i encoded_block_sizes 0%nat := Z.of_nat i]> t) (replicate 12 (-1)) (seq 0 9).

Definition decoded_block_sizes (encoded_block_size : nat) : outcome Z :=
  _ ← assert_ (encoded_block_size <=? full_encoded_block_size)%nat;
  vec_at decoded_table (Z.of_nat encoded_block_size).

(** [uint_8be_to_64]: shift the bytes in, most significant first. *)
Definition uint_8be_to_64 (data : bytes) : outcome Z :=
  _ ← assert_ ((1 <=? length data) && (length data <=? 8))%nat;
  Ret (foldl (fun res b => Z.lor (u64 (Z.shiftl res 8)) b) 0 data).

(** [uint_64_to_8be]: the last [size] bytes of the big-endian representation. *)
Definition uint_64_to_8be (num : Z) (size : nat) : outcome bytes :=
  _ ← assert_ ((1 <=? size) && (size <=? 8))%nat;
  Ret (map (fun k => u8 (Z.shiftr num (8 * Z.of_nat (size - 1 - k)))) (seq 0 size)).

(** [while (0 < num) { ...; res[i] = alphabet[remainder]; --i; }]. *)
Fixpoint encode_digits (fuel : nat) (num i : Z) (res : bytes) : outcome bytes :=
  if 0 <? num then
    match fuel with
    | O => Undefined
    | S fuel =>
        let remainder := num mod alphabet_size in
        ch ← vec_at alphabet remainder;
        res ← vec_set res i ch;
        encode_digits fuel (num / alphabet_size) (i - 1) res
    end
  else Ret res.

(** [encode_block], with the part of the result it writes, filled with ['1'] by the caller. *)
Definition encode_block (block res : bytes) : outcome bytes :=
  _ ← assert_ ((1 <=? length block) && (length block <=? full_block_size))%nat;
  num ← uint_8be_to_64 block;
  encode_digits 11 num (Z.of_nat (nth (length block) encoded_block_sizes 0%nat) - 1) res.

(** The loop of [decode_block] from the last character to the first, on the
    reversed block: [None] is [return false]. *)
Fixpoint decode_digits (rev : bytes) (res_num order : Z) : outcome (option Z) :=
  match rev with
  | [] => Ret (Some res_num)
  | ch :: rev =>
      let digit := reverse_alphabet ch in
      if digit <? 0 then Ret None
      else
        '(product_lo, product_hi) ← mul128 order digit;
        let tmp := u64 (res_num + product_lo) in
        if (tmp <? res_num) || negb (0 =? product_hi) then Ret None
        else decode_digits rev tmp (u64 (order * alphabet_size))
  end.

Definition decode_block (block : bytes) : outcome (option bytes) :=
  _ ← assert_ ((1 <=? length block) && (length block <=? full_encoded_block_size))%nat;
  res_size ← decoded_block_sizes (length block);
  if res_size <=? 0 then Ret None
  else
    r ← decode_digits (reverse block) 0 1;
    match r with
    | None => Ret None
    | Some res_num =>
        if (res_size <? Z.of_nat full_block_size) && (Z.shiftl 1 (8 * res_size) <=? res_num)
        then Ret None
        else data ← uint_64_to_8be res_num (Z.to_nat res_size); Ret (Some data)
    end.

(** The block loops of [encode] and [decode]. *)
Definition block_at (size i : nat) (data : bytes) : bytes := take size (drop (i * size) data).

Fixpoint encode_full (n i : nat) (data : bytes) : outcome bytes :=
  match n with
  | O => Ret []
  | S n =>
      b ← encode_block (block_at full_block_size i data)
            (replicate full_encoded_block_size (nth 0 alphabet 0));
      rest ← encode_full n (S i) data;
      Ret (b ++ rest)
  end.

Definition encode (data : bytes) : outcome bytes :=
  match data with
  | [] => Ret []
  | _ =>
      let full_block_count := (length data / full_block_size)%nat in
      let last_block_size := (length data mod full_block_size)%nat in
      full ← encode_full full_block_count 0 data;
      last ← (if (0 <? last_block_size)%nat then
                encode_block (take last_block_size (drop (full_block_count * full_block_size) data))
                  (replicate (nth last_block_size encoded_block_sizes 0%nat) (nth 0 alphabet 0))
              else Ret []);
      Ret (full ++ last)
  end.

Fixpoint decode_full (n i : nat) (enc : bytes) : outcome (option bytes) :=
  match n with
  | O => Ret (Some [])
  | S n =>
      r ← decode_block (block_at full_encoded_block_size i enc);
      match r with
      | None => Ret None
      | Some b =>
          rest ← decode_full n (S i) enc;
          Ret (option_map (app b) rest)
      end
  end.

Definition decode (enc : bytes) : outcome (option bytes) :=
  match enc with
  | [] => Ret (Some [])
  | _ =>
      let full_block_count := (length enc / full_encoded_block_size)%nat in
      let last_block_size := (length enc mod full_encoded_block_size)%nat in
      last_block_decoded_size ← decoded_block_sizes last_block_size;
      if last_block_decoded_size <? 0 then Ret None
      else
        full ← decode_full full_block_count 0 enc;
        match full with
        | None => Ret None
        | Some data =>
            if (0 <? last_block_size)%nat then
              r ← decode_block (take last_block_size
                     (drop (full_block_count * full_encoded_block_size) enc));
              Ret (option_map (app data) r)
            else Ret (Some data)
        end
  end.

Definition encode_addr (tag : Z) (data : bytes) : outcome bytes :=
  let buf := write_varint tag ++ data in
  let hash := cn_fast_hash buf in
  encode (buf ++ take addr_checksum_size hash).

Definition decode_addr (addr : bytes) : outcome (option (Z * bytes)) :=
  r ← decode addr;
  match r with
  | None => Ret None
  | Some addr_data =>
      if (length addr_data <=? addr_checksum_size)%nat then Ret None
      else
        let checksum := drop (length addr_data - addr_checksum_size) addr_data in
        let addr_data := take (length addr_data - addr_checksum_size) addr_data in
        let expected_checksum := take addr_checksum_size (cn_fast_hash addr_data) in
        if negb (bool_decide (expected_checksum = checksum)) then Ret None
        else
          '(read, tag) ← read_varint addr_data;
          if read <=? 0 then Ret None
          else Ret (Some (tag, drop (Z.to_nat read) addr_data))
  end.

(** [toBinaryArray] and [fromBinaryArray] on [AccountPublicAddress]: the two keys in
    their 32 bytes, and nothing left over. *)
Definition addressToBinaryArray (adr : AccountPublicAddress) : bytes :=
  spendPublicKey adr ++ viewPublicKey adr.

Definition addressFromBinaryArray (ba : bytes) : option AccountPublicAddress :=
  if (length ba =? 64)%nat then Some (mkAddress (take 32 ba) (drop 32 ba)) else None.

Definition getAccountAddressAsStr (prefix : Z) (adr : AccountPublicAddress) : outcome bytes :=
  encode_addr prefix (addressToBinaryArray adr).

Section Parse.
(** [Crypto::check_key]. *)
Context (check_key : bytes -> bool).

Definition parseAccountAddressString (str : bytes) : outcome (option (Z * AccountPublicAddress)) :=
  r ← decode_addr str;
  Ret (
    '(prefix, data) ← r;
    adr ← addressFromBinaryArray data;
    if check_key (spendPublicKey adr) && check_key (viewPublicKey adr) then Some (prefix, adr)
    else None).

(** [Currency::parseAccountAddressString]: the prefix must be one of the network's. *)
Definition currencyParseAddress (c : Currency) (str : bytes) : outcome (option AccountPublicAddress) :=
  r ← parseAccountAddressString str;
  Ret (
    '(prefix, adr) ← r;
    if negb (prefix =? m_publicAddressBase58Prefix c) && negb (prefix =? m_subAddressBase58Prefix c)
    then None else Some adr).

End Parse.

Definition accountAddressAsString (c : Currency) (adr : AccountPublicAddress) : outcome bytes :=
  getAccountAddressAsStr (m_publicAddressBase58Prefix c) adr.

Definition isSubAddressStr (str : bytes) (subaddrPrefix : Z) : outcome bool :=
  r ← decode_addr str;
  Ret (match r with Some (prefix, _) => prefix =? subaddrPrefix | None => false end).

(** * Blocks *)

Definition be_value (bs : bytes) : Z := foldl (fun r b => r * 256 + b) 0 bs.

Lemma be_value_snoc bs b : be_value (bs ++ [b]) = be_value bs * 256 + b.
Proof. unfold be_value. by rewrite foldl_app. Qed.

Lemma be_value_range bs : Forall is_byte bs -> 0 <= be_value bs < 256 ^ Z.of_nat (length bs).
Proof.
  induction bs as [| b bs IH] using rev_ind; intros H.
  - cbn. lia.
  - apply Forall_app in H as [H Hb]. apply Forall_cons in Hb as [Hb _]. unfold is_byte in Hb.
    rewrite be_value_snoc, length_app, Nat.add_1_r, Nat2Z.inj_succ, Z.pow_succ_r by lia.
    specialize (IH H). lia.
Qed.

Lemma pow256_le_64 n : (n <= 8)%nat -> 256 ^ Z.of_nat n <= 2 ^ 64.
Proof. intros H. change (2 ^ 64) with (256 ^ 8). apply Z.pow_le_mono_r; lia. Qed.

Lemma uint_8be_to_64_value bs :
  Forall is_byte bs -> (1 <= length bs <= 8)%nat -> uint_8be_to_64 bs = Ret (be_value bs).
Proof.
  intros Hb Hl. unfold uint_8be_to_64.
  rewrite assert_true, outcome_bind_ret by (apply andb_true_iff; split; apply Nat.leb_le; lia).
  f_equal. unfold be_value. assert (Hl8 : (length bs <= 8)%nat) by lia. clear Hl. revert Hb Hl8.
  induction bs as [| b bs IH] using rev_ind; intros Hb Hl8; [done |].
  rewrite length_app, Nat.add_1_r in Hl8.
  apply Forall_app in Hb as [Hb Hx]. apply Forall_cons in Hx as [Hx _]. unfold is_byte in Hx.
  rewrite !foldl_app. cbn [foldl]. rewrite IH by (done || lia).
  pose proof (be_value_range bs Hb) as Hr. unfold be_value in Hr.
  assert (256 ^ Z.of_nat (length bs) <= 256 ^ 7) by (apply Z.pow_le_mono_r; lia).
  change (256 ^ 7) with (2 ^ 56) in *.
  rewrite u64_small by (rewrite Z.shiftl_mul_pow2 by lia; lia).
  rewrite lor_shiftl_add by lia. done.
Qed.

Lemma to_be_step n num :
  map (fun k => u8 (Z.shiftr num (8 * Z.of_nat (S n - 1 - k)))) (seq 0 (S n))
  = map (fun k => u8 (Z.shiftr (num / 256) (8 * Z.of_nat (n - 1 - k)))) (seq 0 n) ++ [u8 num].
Proof.
  rewrite seq_S, map_app. f_equal.
  - apply map_ext_in. intros k Hk. apply in_seq in Hk.
    change 256 with (2 ^ 8). rewrite <- Z.shiftr_div_pow2, Z.shiftr_shiftr by lia.
    do 2 f_equal. lia.
  - cbn [map]. replace (S n - 1 - (0 + n))%nat with 0%nat by lia.
    change (8 * Z.of_nat 0) with 0. by rewrite Z.shiftr_0_r.
Qed.

Lemma uint_64_to_8be_value bs :
  Forall is_byte bs -> (1 <= length bs <= 8)%nat ->
  uint_64_to_8be (be_value bs) (length bs) = Ret bs.
Proof.
  intros Hb Hl. unfold uint_64_to_8be.
  rewrite assert_true, outcome_bind_ret by (apply andb_true_iff; split; apply Nat.leb_le; lia).
  f_equal. clear Hl. revert Hb. induction bs as [| b bs IH] using rev_ind; intros Hb; [done |].
  apply Forall_app in Hb as [Hb Hx]. apply Forall_cons in Hx as [Hx _]. unfold is_byte in Hx.
  rewrite length_app, Nat.add_1_r, to_be_step, be_value_snoc.
  rewrite Z.div_add_l, Z.div_small, Z.add_0_r, IH by (done || lia). do 2 f_equal.
  unfold u8. change (2 ^ 8) with 256. rewrite Z.add_comm, Z.mod_add, Z.mod_small; lia.
Qed.

(** The [n] base-58 digits of a number, most significant first. *)
Fixpoint digits58 (n : nat) (num : Z) : list Z :=
  match n with O => [] | S n => digits58 n (num / 58) ++ [num mod 58] end.

Definition letter (d : Z) : Z := nth (Z.to_nat d) alphabet 0.

Lemma length_digits58 n num : length (digits58 n num) = n.
Proof. revert num. induction n; intros; cbn [digits58]; [done |]. rewrite length_app, IHn. cbn. lia. Qed.

Lemma digits58_zero n : digits58 n 0 = replicate n 0.
Proof.
  induction n as [| n IH]; [done |]. cbn [digits58]. change (0 / 58) with 0. change (0 mod 58) with 0.
  rewrite IH. symmetry. apply replicate_S_end.
Qed.

Lemma encode_digits_letters fuel n num written :
  0 <= num < 58 ^ Z.of_nat n -> (n <= fuel)%nat ->
  encode_digits fuel num (Z.of_nat n - 1) (replicate n (nth 0 alphabet 0) ++ written)
  = Ret (map letter (digits58 n num) ++ written).
Proof.
  revert n num written. induction fuel as [| fuel IH]; intros n num written Hn Hf.
  - destruct n; [| lia]. change (58 ^ Z.of_nat 0) with 1 in Hn. assert (num = 0) as -> by lia. done.
  - cbn [encode_digits]. destruct (Z.ltb_spec 0 num) as [Hpos | H0].
    + destruct n as [| n]; [change (58 ^ Z.of_nat 0) with 1 in Hn; lia |].
      unfold alphabet_size. pose proof (Z.mod_pos_bound num 58 ltac:(lia)) as Hm.
      destruct (nth_lookup_or_length alphabet (Z.to_nat (num mod 58)) 0) as [Hch | Hbad];
        [| change (length alphabet) with 58%nat in Hbad; lia].
      rewrite (vec_at_lookup alphabet (num mod 58) (letter (num mod 58))), outcome_bind_ret
        by (done || lia).
      rewrite replicate_S_end, <- app_assoc. cbn [app].
      rewrite vec_set_app, outcome_bind_ret by (rewrite length_replicate; lia).
      replace (Z.of_nat (S n) - 1 - 1) with (Z.of_nat n - 1) by lia.
      rewrite IH; [| | lia].
      * cbn [digits58]. rewrite map_app, <- app_assoc. done.
      * rewrite Nat2Z.inj_succ, Z.pow_succ_r in Hn by lia.
        split; [apply Z.div_pos; lia | apply Z.div_lt_upper_bound; lia].
    + assert (num = 0) as -> by lia. rewrite digits58_zero. do 2 f_equal.
      clear. induction n as [| n IHn]; [done |]. cbn [replicate map]. by rewrite <- IHn.
Qed.

Lemma reverse_alphabet_letters :
  forallb (fun d => reverse_alphabet (letter d) =? d) (seqZ 0 58) = true.
Proof. vm_compute. reflexivity. Qed.

Lemma reverse_alphabet_letter d : 0 <= d < 58 -> reverse_alphabet (letter d) = d.
Proof.
  intros Hd. pose proof reverse_alphabet_letters as H. rewrite forallb_forall in H.
  apply Z.eqb_eq, H, list_elem_of_In, elem_of_seqZ. lia.
Qed.

Lemma decode_digits_letters n num acc k :
  0 <= num < 58 ^ Z.of_nat n -> 0 <= acc -> 0 <= k -> acc + num * 58 ^ k < 2 ^ 64 ->
  decode_digits (reverse (map letter (digits58 n num))) acc (u64 (58 ^ k))
  = Ret (Some (acc + num * 58 ^ k)).
Proof.
  revert num acc k. induction n as [| n IH]; intros num acc k Hn Ha Hk Hb.
  - change (58 ^ Z.of_nat 0) with 1 in Hn. assert (num = 0) as -> by lia.
    cbn [digits58 map reverse decode_digits]. change (reverse (A:=Z) []) with (@nil Z).
    cbn [decode_digits]. do 2 f_equal. lia.
  - cbn [digits58]. rewrite map_app, reverse_app. cbn [map].
    change (reverse [letter (num mod 58)]) with [letter (num mod 58)]. cbn [app decode_digits].
    pose proof (Z.mod_pos_bound num 58 ltac:(lia)) as Hm.
    pose proof (Z.div_mod num 58 ltac:(lia)) as Hdm.
    pose proof (Z.pow_pos_nonneg 58 k ltac:(lia) Hk) as Hp.
    assert (Hq : 0 <= num / 58) by (apply Z.div_pos; lia).
    rewrite reverse_alphabet_letter by lia.
    destruct (Z.ltb_spec (num mod 58) 0); [lia |].
    assert (Hprod : u64 (58 ^ k) * (num mod 58) = 58 ^ k * (num mod 58)).
    { destruct (Z.eq_dec (num mod 58) 0) as [-> |]; [lia |]. rewrite u64_small by nia. done. }
    rewrite mul128_exact, Hprod by (unfold is_u64; pose proof (u64_range (58 ^ k)); lia).
    assert (Hrange : 0 <= 58 ^ k * (num mod 58) <= num * 58 ^ k) by nia.
    rewrite outcome_bind_ret, Z.mod_small, Z.div_small, u64_small by lia.
    destruct (Z.ltb_spec (acc + 58 ^ k * (num mod 58)) acc); [lia |]. cbn [orb negb Z.eqb].
    unfold alphabet_size. replace (u64 (u64 (58 ^ k) * 58)) with (u64 (58 ^ (k + 1))).
    2: { unfold u64. rewrite Z.mul_mod_idemp_l, Z.pow_add_r by lia. done. }
    rewrite Nat2Z.inj_succ, Z.pow_succ_r in Hn by lia.
    assert (Hpow : 58 ^ (k + 1) = 58 ^ k * 58) by (rewrite Z.pow_add_r by lia; done).
    rewrite IH; rewrite ?Hpow.
    + do 2 f_equal. nia.
    + split; [done | apply Z.div_lt_upper_bound; lia].
    + lia.
    + lia.
    + nia.
Qed.

(** Eight bytes fit in eleven digits, and so on down to one byte in two. *)
Lemma block_capacity s :
  (1 <= s <= 8)%nat ->
  let n := nth s encoded_block_sizes 0%nat in
  256 ^ Z.of_nat s <= 58 ^ Z.of_nat n /\ (1 <= n <= 11)%nat
  /\ decoded_block_sizes n = Ret (Z.of_nat s).
Proof.
  intros Hs. destruct s as [| s]; [lia |].
  do 8 (destruct s as [| s]; [split; [vm_compute; discriminate | split; [cbn; lia | reflexivity]] |]).
  lia.
Qed.

Lemma block_roundtrip block :
  Forall is_byte block -> (1 <= length block <= 8)%nat ->
  let n := nth (length block) encoded_block_sizes 0%nat in
  exists enc, encode_block block (replicate n (nth 0 alphabet 0)) = Ret enc
    /\ length enc = n /\ decode_block enc = Ret (Some block).
Proof.
  intros Hb Hl n. destruct (block_capacity (length block) Hl) as (Hcap & Hn & Hdec). fold n in Hcap, Hn, Hdec.
  pose proof (be_value_range block Hb) as Hv.
  pose proof (pow256_le_64 (length block) ltac:(lia)) as H64.
  unfold encode_block.
  rewrite assert_true, outcome_bind_ret
    by (apply andb_true_iff; split; apply Nat.leb_le; unfold full_block_size; lia).
  rewrite uint_8be_to_64_value, outcome_bind_ret by done. fold n.
  exists (map letter (digits58 n (be_value block))).
  pose proof (encode_digits_letters 11 n (be_value block) [] ltac:(lia) ltac:(lia)) as He.
  rewrite !app_nil_r in He. split; [done |].
  assert (Hlen : length (map letter (digits58 n (be_value block))) = n)
    by (rewrite length_map; apply length_digits58).
  split; [done |]. unfold decode_block. rewrite Hlen.
  rewrite assert_true, outcome_bind_ret
    by (apply andb_true_iff; split; apply Nat.leb_le; unfold full_encoded_block_size; lia).
  rewrite Hdec, outcome_bind_ret. destruct (Z.leb_spec (Z.of_nat (length block)) 0); [lia |].
  pose proof (decode_digits_letters n (be_value block) 0 0) as Hd.
  change (u64 (58 ^ 0)) with 1 in Hd. rewrite Hd, outcome_bind_ret by lia.
  replace (0 + be_value block * 58 ^ 0) with (be_value block) by lia.
  rewrite Z.shiftl_1_l, Z.pow_mul_r by lia. change (2 ^ 8) with 256.
  destruct (Z.leb_spec (256 ^ Z.of_nat (length block)) (be_value block)); [lia |].
  rewrite andb_false_r, Nat2Z.id, uint_64_to_8be_value by done. done.
Qed.

(** * Whole strings *)

Lemma encode_full_shift n i data : encode_full n i data = encode_full n 0 (drop (i * 8) data).
Proof.
  revert i data. induction n as [| n IH]; intros i data; [done |]. cbn [encode_full].
  rewrite (IH (S i)), (IH 1%nat). unfold block_at, full_block_size.
  rewrite !drop_drop.
  replace (i * 8 + 0 * 8)%nat with (i * 8)%nat by lia.
  replace (i * 8 + 1 * 8)%nat with (S i * 8)%nat by lia. done.
Qed.

Lemma decode_full_shift n i enc : decode_full n i enc = decode_full n 0 (drop (i * 11) enc).
Proof.
  revert i enc. induction n as [| n IH]; intros i enc; [done |]. cbn [decode_full].
  rewrite (IH (S i)), (IH 1%nat). unfold block_at, full_encoded_block_size.
  rewrite !drop_drop. replace (i * 11 + 0 * 11)%nat with (i * 11)%nat by lia.
  replace (i * 11 + 1 * 11)%nat with (S i * 11)%nat by lia. done.
Qed.

Lemma full_roundtrip n data :
  Forall is_byte data -> (8 * n <= length data)%nat ->
  exists enc, encode_full n 0 data = Ret enc /\ length enc = (11 * n)%nat
    /\ forall tail, decode_full n 0 (enc ++ tail) = Ret (Some (take (8 * n) data)).
Proof.
  revert data. induction n as [| n IH]; intros data Hb Hl.
  - exists []. split; [done |]. split; [done |]. intros tail. cbn [decode_full]. by rewrite take_0.
  - cbn [encode_full]. rewrite encode_full_shift. unfold block_at, full_block_size.
    rewrite Nat.mul_0_l, drop_0, Nat.mul_1_l.
    assert (Hl8 : length (take 8 data) = 8%nat) by (rewrite length_take; lia).
    destruct (block_roundtrip (take 8 data)) as (e1 & He1 & Hle1 & Hd1);
      [by apply Forall_take | lia |].
    rewrite Hl8 in He1, Hle1. unfold full_encoded_block_size.
    change (nth 8 encoded_block_sizes 0%nat) with 11%nat in He1, Hle1.
    rewrite He1, outcome_bind_ret.
    destruct (IH (drop 8 data)) as (e2 & He2 & Hle2 & Hd2);
      [by apply Forall_drop | rewrite length_drop; lia |].
    rewrite He2, outcome_bind_ret. exists (e1 ++ e2). split; [done |].
    split; [rewrite length_app; lia |]. intros tail. rewrite <- app_assoc.
    cbn [decode_full]. rewrite decode_full_shift. unfold block_at, full_encoded_block_size.
    rewrite Nat.mul_0_l, drop_0, Nat.mul_1_l, take_app_length', drop_app_length' by lia.
    rewrite Hd1, outcome_bind_ret, Hd2, outcome_bind_ret. cbn [option_map]. do 2 f_equal.
    replace (8 * S n)%nat with (8 + 8 * n)%nat by lia. by rewrite take_take_drop.
Qed.

Lemma encode_decode data :
  Forall is_byte data -> exists enc, encode data = Ret enc /\ decode enc = Ret (Some data).
Proof.
  intros Hb. destruct data as [| b0 data0]; [by exists [] |].
  unfold encode. set (data := b0 :: data0) in *. unfold full_block_size in *.
  assert (Hd0 : (0 < length data)%nat) by (unfold data; cbn; lia).
  set (f := (length data / 8)%nat). set (l := (length data mod 8)%nat).
  pose proof (Nat.div_mod_eq (length data) 8) as Hdm. fold f l in Hdm.
  assert (Hl : (l < 8)%nat) by (apply Nat.mod_upper_bound; lia).
  destruct (full_roundtrip f data Hb) as (e1 & -> & Hle1 & Hd1); [lia |].
  rewrite outcome_bind_ret.
  assert (Hlast : exists e2,
    (if (0 <? l)%nat then encode_block (take l (drop (f * 8) data))
       (replicate (nth l encoded_block_sizes 0%nat) (nth 0 alphabet 0)) else Ret []) = Ret e2
    /\ length e2 = nth l encoded_block_sizes 0%nat
    /\ ((0 < l)%nat -> decode_block e2 = Ret (Some (drop (f * 8) data)))).
  { destruct (Nat.ltb_spec 0 l) as [Hpos | Hz].
    - rewrite take_ge by (rewrite length_drop; lia).
      assert (Hld : length (drop (f * 8) data) = l) by (rewrite length_drop; lia).
      destruct (block_roundtrip (drop (f * 8) data)) as (e2 & He2 & Hle2 & Hd2);
        [by apply Forall_drop | lia |].
      rewrite Hld in He2, Hle2. by exists e2.
    - exists []. assert (l = 0%nat) as -> by lia. split; [done |]. split; [done | lia]. }
  destruct Hlast as (e2 & -> & Hle2 & Hd2). rewrite outcome_bind_ret.
  exists (e1 ++ e2). split; [done |].
  assert (Hn : (nth l encoded_block_sizes 0 < 11)%nat).
  { clear -Hl. do 8 (destruct l as [| l]; [cbn; lia |]). lia. }
  assert (Hlen : length (e1 ++ e2) = (11 * f + nth l encoded_block_sizes 0)%nat)
    by (rewrite length_app; lia).
  unfold decode, full_encoded_block_size. destruct (e1 ++ e2) as [| x xs] eqn:E.
  { exfalso. cbn [length] in Hlen. assert (f = 0%nat) by lia. assert (0 < l)%nat by lia.
    destruct (block_capacity l) as (_ & ? & _); lia. }
  rewrite <- E in *. clear E x xs. rewrite Hlen.
  replace ((11 * f + nth l encoded_block_sizes 0) / 11)%nat with f
    by (rewrite Nat.mul_comm, Nat.div_add_l, Nat.div_small; lia).
  replace ((11 * f + nth l encoded_block_sizes 0) mod 11)%nat with (nth l encoded_block_sizes 0)%nat
    by (rewrite Nat.add_comm, Nat.mul_comm, Nat.Div0.mod_add, Nat.mod_small; lia).
  assert (Hds : decoded_block_sizes (nth l encoded_block_sizes 0%nat) = Ret (Z.of_nat l)).
  { destruct l as [| l]; [done |]. apply block_capacity. lia. }
  rewrite Hds, outcome_bind_ret. destruct (Z.ltb_spec (Z.of_nat l) 0); [lia |].
  rewrite Hd1, outcome_bind_ret.
  destruct (Nat.ltb_spec 0 (nth l encoded_block_sizes 0)%nat) as [Hpos | Hz].
  - assert (Hlpos : (0 < l)%nat) by (destruct l; [cbn in Hpos; lia | lia]).
    rewrite drop_app_length', (take_ge e2) by lia. rewrite Hd2, outcome_bind_ret by done.
    cbn [option_map]. do 2 f_equal. rewrite (Nat.mul_comm f). apply take_drop.
  - assert (l = 0%nat) as Hl0.
    { destruct l as [| l']; [done |]. destruct (block_capacity (S l')) as (_ & ? & _); lia. }
    do 2 f_equal. apply take_ge. lia.
Qed.

(** [Base58::encode] fails no assertion and writes nothing out of range on any
    byte string, and [Base58::decode] reads back exactly that string. *)
Theorem base58_roundtrip data :
  Forall is_byte data -> exists enc, encode data = Ret enc /\ decode enc = Ret (Some data).
Proof. apply encode_decode. Qed.

Lemma base58_roundtrip_witness :
  exists enc, encode [0; 1; 2; 3; 4; 5; 6; 7; 8; 255] = Ret enc
    /\ decode enc = Ret (Some [0; 1; 2; 3; 4; 5; 6; 7; 8; 255]).
Proof.
  apply (base58_roundtrip [0; 1; 2; 3; 4; 5; 6; 7; 8; 255]).
  repeat constructor; unfold is_byte; lia.
Defined.

(** * Addresses *)

Lemma encode_decode_addr tag data :
  is_u64 tag -> Forall is_byte data ->
  exists str, encode_addr tag data = Ret str /\ decode_addr str = Ret (Some (tag, data)).
Proof.
  intros Ht Hb. unfold encode_addr. set (buf := write_varint tag ++ data).
  assert (Hvb : Forall is_byte (write_varint tag)).
  { unfold write_varint. rewrite write_varint_loop_eq. apply write_loop_bytes.
    unfold is_u64 in Ht. lia. }
  assert (Hvl : (0 < length (write_varint tag))%nat)
    by (unfold write_varint; rewrite write_varint_loop_eq; apply length_write_loop_pos).
  set (sum := take addr_checksum_size (cn_fast_hash buf)).
  assert (Hsum : length sum = 4%nat)
    by (unfold sum; rewrite length_take, cn_fast_hash_length; reflexivity).
  destruct (encode_decode (buf ++ sum)) as (str & Hstr & Hdec).
  { apply Forall_app. split; [by apply Forall_app |]. apply Forall_take, cn_fast_hash_bytes. }
  exists str. split; [done |]. unfold decode_addr. rewrite Hdec, outcome_bind_ret.
  rewrite length_app, Hsum. change addr_checksum_size with 4%nat in *.
  destruct (Nat.leb_spec (length buf + 4) 4) as [H | _];
    [unfold buf in H; rewrite length_app in H; lia |].
  replace (length buf + 4 - 4)%nat with (length buf) by lia.
  rewrite take_app_length, drop_app_length. fold sum.
  rewrite bool_decide_eq_true_2 by done. cbn [negb]. unfold buf.
  rewrite read_write_varint, outcome_bind_ret by done.
  destruct (Z.leb_spec (Z.of_nat (length (write_varint tag))) 0); [lia |].
  rewrite Nat2Z.id. by rewrite drop_app_length.
Qed.

(** The address string of every account whose two 32-byte keys are valid curve
    points parses back, on the same network, to exactly that account; the printed
    prefix is the network's. *)
Theorem address_roundtrip check_key c adr :
  is_u64 (m_publicAddressBase58Prefix c) ->
  Forall is_byte (spendPublicKey adr) -> Forall is_byte (viewPublicKey adr) ->
  length (spendPublicKey adr) = 32%nat -> length (viewPublicKey adr) = 32%nat ->
  check_key (spendPublicKey adr) = true -> check_key (viewPublicKey adr) = true ->
  exists str, accountAddressAsString c adr = Ret str
    /\ parseAccountAddressString check_key str = Ret (Some (m_publicAddressBase58Prefix c, adr))
    /\ currencyParseAddress check_key c str = Ret (Some adr).
Proof.
  intros Hp Hs Hv Hls Hlv Hcs Hcv.
  destruct (encode_decode_addr (m_publicAddressBase58Prefix c) (addressToBinaryArray adr))
    as (str & Hstr & Hdec); [done | by apply Forall_app |].
  exists str. split; [done |].
  assert (Hparse : parseAccountAddressString check_key str
                   = Ret (Some (m_publicAddressBase58Prefix c, adr))).
  { unfold parseAccountAddressString. rewrite Hdec, outcome_bind_ret. cbn [mbind option_bind].
    unfold addressFromBinaryArray, addressToBinaryArray.
    rewrite length_app, Hls, Hlv, take_app_length', drop_app_length' by done.
    cbn [Nat.add Nat.eqb]. cbn [mbind option_bind spendPublicKey viewPublicKey].
    rewrite Hcs, Hcv. by destruct adr. }
  split; [done |]. unfold currencyParseAddress. rewrite Hparse, outcome_bind_ret.
  cbn [mbind option_bind]. by rewrite Z.eqb_refl.
Qed.

Lemma address_roundtrip_witness :
  exists str, accountAddressAsString mainnet (mkAddress (replicate 32 7) (replicate 32 9)) = Ret str
    /\ parseAccountAddressString (fun _ => true) str
       = Ret (Some (m_publicAddressBase58Prefix mainnet, mkAddress (replicate 32 7) (replicate 32 9)))
    /\ currencyParseAddress (fun _ => true) mainnet str
       = Ret (Some (mkAddress (replicate 32 7) (replicate 32 9))).
Proof.
  apply (address_roundtrip (fun _ => true) mainnet (mkAddress (replicate 32 7) (replicate 32 9)));
    try reflexivity.
  - vm_compute. intuition congruence.
  - apply Forall_replicate. unfold is_byte. lia.
  - apply Forall_replicate. unfold is_byte. lia.
Defined.
