(* ===== verification/BankingIndex.v ===== *)
(** The deposit indexes: [src/src/CryptoNoteCore/BankingIndex.cpp] (deposits and
    burned coins) and [InvestmentIndex.cpp] (deposits only).  Both keep one entry per block
    that changes the deposited amount, with cumulative totals; the reference is
    the plain list of what each block brought. *)

From S2P Require Import Prelude Amounts.

(** * The code shared by the two classes *)

Record IndexEntry := mkEntry { e_height : Z; e_amount : Z; e_interest : Z }.

Definition sumWillOverflow_i64 (x y : Z) : bool :=
  ((0 <? y) && (INT64_MAX - y <? x)) || ((y <? 0) && (x <? INT64_MIN - y)).

Definition sumWillOverflow_u64 (x y : Z) : bool := UINT64_MAX - y <? x.

(** The members [index] and [blockCount]. *)
Record DepositIndex := mkDepositIndex { di_index : list IndexEntry; di_blockCount : Z }.

Definition di_empty : DepositIndex := mkDepositIndex [] 0.

Definition fullDepositAmount (d : DepositIndex) : Z :=
  match last (di_index d) with None => 0 | Some e => e_amount e end.

Definition fullInterestAmount (d : DepositIndex) : Z :=
  match last (di_index d) with None => 0 | Some e => e_interest e end.

Definition di_pushBlock (d : DepositIndex) (amount interest : Z) : outcome DepositIndex :=
  let '(lastAmount, lastInterest) :=
    match last (di_index d) with
    | None => (0, 0)
    | Some e => (e_amount e, e_interest e)
    end in
  _ ← assert_ (negb (sumWillOverflow_i64 amount lastAmount));
  _ ← assert_ (negb (sumWillOverflow_u64 interest lastInterest));
  _ ← assert_ (0 <=? i64 (amount + lastAmount));
  let index :=
    if amount =? 0 then di_index d
    else di_index d ++ [mkEntry (di_blockCount d) (i64 (amount + lastAmount)) (u64 (interest + lastInterest))] in
  Ret (mkDepositIndex index (u32 (di_blockCount d + 1))).

Definition pop_back {A} (l : list A) : list A := take (length l - 1) l.

Definition di_popBlock (d : DepositIndex) : outcome DepositIndex :=
  _ ← assert_ (0 <? di_blockCount d);
  let blockCount := u32 (di_blockCount d - 1) in
  Ret (mkDepositIndex
         (match last (di_index d) with
          | Some e => if e_height e =? blockCount then pop_back (di_index d) else di_index d
          | None => di_index d
          end) blockCount).

(** [std::upper_bound]: the first position whose height exceeds [height]. *)
Fixpoint upper_bound {A} (key : A -> Z) (height : Z) (l : list A) : nat :=
  match l with
  | [] => 0%nat
  | e :: l => if height <? key e then 0%nat else S (upper_bound key height l)
  end.

Definition upperBound (d : DepositIndex) (height : Z) : nat := upper_bound e_height height (di_index d).

(** [popBlocks]: the number of blocks removed and the new index. *)
Definition di_popBlocks (d : DepositIndex) (from : Z) : Z * DepositIndex :=
  if di_blockCount d <=? from then (0, d)
  else
    let it := upperBound d from in
    let it :=
      match it with
      | O => O
      | S prev => match di_index d !! prev with
                  | Some e => if e_height e =? from then prev else it
                  | None => it
                  end
      end in
    let diff := u32 (di_blockCount d - from) in
    (diff, mkDepositIndex (take it (di_index d)) (u32 (di_blockCount d - diff))).

(** The entry before the upper bound. *)
Definition entry_at (d : DepositIndex) (height : Z) : option IndexEntry :=
  match upperBound d height with O => None | S prev => di_index d !! prev end.

Definition depositAmountAtHeight (d : DepositIndex) (height : Z) : Z :=
  if di_blockCount d =? 0 then 0
  else match entry_at d height with None => 0 | Some e => e_amount e end.

Definition depositInterestAtHeight (d : DepositIndex) (height : Z) : Z :=
  if di_blockCount d =? 0 then 0
  else match entry_at d height with None => 0 | Some e => e_interest e end.

(** * Burned coins, [BankingIndex] only *)

Record BurnedXfgEntry := mkBurned { bu_height : Z; bu_amount : Z; bu_cumulative : Z }.

Record BankingIndex := mkBankingIndex {
  bi_deposits : DepositIndex;
  bi_burned : list BurnedXfgEntry;
  bi_ethereal_xfg : Z
}.

Definition bi_empty : BankingIndex := mkBankingIndex di_empty [] 0.

Definition pushBlock (b : BankingIndex) (amount interest : Z) : outcome BankingIndex :=
  d ← di_pushBlock (bi_deposits b) amount interest;
  Ret (mkBankingIndex d (bi_burned b) (bi_ethereal_xfg b)).

Definition popBlock (b : BankingIndex) : outcome BankingIndex :=
  _ ← assert_ (0 <? di_blockCount (bi_deposits b));
  let '(burned, ethereal) :=
    match last (bi_burned b) with
    | Some e =>
        if bu_height e =? di_blockCount (bi_deposits b) then
          let currentTotal := bi_ethereal_xfg b in
          let previousTotal :=
            match last (pop_back (bi_burned b)) with Some p => bu_cumulative p | None => 0 end in
          let burnedInBlock := u64 (currentTotal - previousTotal) in
          (pop_back (bi_burned b), u64 (bi_ethereal_xfg b - burnedInBlock))
        else (bi_burned b, bi_ethereal_xfg b)
    | None => (bi_burned b, bi_ethereal_xfg b)
    end in
  d ← di_popBlock (bi_deposits b);
  Ret (mkBankingIndex d burned ethereal).

(** [while (burnedIt != end && burnedIt->height >= from) ++burnedIt;] then
    [erase(burnedIt, end)]. *)
Fixpoint burned_prefix (from : Z) (l : list BurnedXfgEntry) : list BurnedXfgEntry :=
  match l with
  | [] => []
  | e :: l => if from <=? bu_height e then e :: burned_prefix from l else []
  end.

Definition popBlocks (b : BankingIndex) (from : Z) : Z * BankingIndex :=
  if di_blockCount (bi_deposits b) <=? from then (0, b)
  else
    let '(diff, d) := di_popBlocks (bi_deposits b) from in
    (diff, mkBankingIndex d (burned_prefix from (bi_burned b)) (bi_ethereal_xfg b)).

Definition getBurnedXfgAmount (b : BankingIndex) : Z := bi_ethereal_xfg b.

Definition getBurnedXfgAtHeight (b : BankingIndex) (height : Z) : Z :=
  match bi_burned b with
  | [] => 0
  | _ =>
      match upper_bound bu_height height (bi_burned b) with
      | O => 0
      | S prev => match bi_burned b !! prev with Some e => bu_cumulative e | None => 0 end
      end
  end.

Definition addForeverDeposit (b : BankingIndex) (amount height : Z) : outcome BankingIndex :=
  if amount =? 0 then Ret b
  else
    _ ← assert_ (amount <=? UINT64_MAX - bi_ethereal_xfg b);
    let total := u64 (bi_ethereal_xfg b + amount) in
    match last (bi_burned b) with
    | Some e =>
        if bu_height e =? height then
          _ ← assert_ (amount <=? UINT64_MAX - bu_amount e);
          Ret (mkBankingIndex (bi_deposits b)
                 (pop_back (bi_burned b) ++ [mkBurned height (u64 (bu_amount e + amount)) total]) total)
        else Ret (mkBankingIndex (bi_deposits b) (bi_burned b ++ [mkBurned height amount total]) total)
    | None => Ret (mkBankingIndex (bi_deposits b) (bi_burned b ++ [mkBurned height amount total]) total)
    end.

(** [getStats]: total deposits, burned coins, regular deposits. *)
Definition getStats (b : BankingIndex) : Z * Z * Z :=
  let totalDeposits := u64 (fullDepositAmount (bi_deposits b)) in
  (totalDeposits, bi_ethereal_xfg b,
   if bi_ethereal_xfg b <? totalDeposits then totalDeposits - bi_ethereal_xfg b else 0).

(** * Reference: the history of blocks

    A history lists, block by block, the change of the deposited amount and the
    interest.  A block that leaves the amount unchanged does not count (its interest
    is not recorded either). *)

Definition history : Type := list (Z * Z).

Definition add_block (t : Z * Z) (b : Z * Z) : Z * Z :=
  if b.1 =? 0 then t else (t.1 + b.1, t.2 + b.2).

Definition totals (t : Z * Z) (h : history) : Z * Z := foldl add_block t h.

(** The totals after the block of a height. *)
Definition totals_at (h : history) (height : Z) : Z * Z := totals (0, 0) (take (Z.to_nat (height + 1)) h).

(** The entries that the index should hold. *)
Fixpoint entries_from (height : Z) (t : Z * Z) (h : history) : list IndexEntry :=
  match h with
  | [] => []
  | b :: h =>
      if b.1 =? 0 then entries_from (height + 1) t h
      else mkEntry height (t.1 + b.1) (t.2 + b.2)
           :: entries_from (height + 1) (t.1 + b.1, t.2 + b.2) h
  end.

Record represents (d : DepositIndex) (h : history) : Prop := {
  rep_count : di_blockCount d = Z.of_nat (length h);
  rep_index : di_index d = entries_from 0 (0, 0) h;
  rep_small : Z.of_nat (length h) < 2 ^ 32
}.

Lemma entries_from_app k t h1 h2 :
  entries_from k t (h1 ++ h2)
  = entries_from k t h1 ++ entries_from (k + Z.of_nat (length h1)) (totals t h1) h2.
Proof.
  revert k t. induction h1 as [| b h1 IH]; intros k t; cbn [app entries_from length].
  - by rewrite Z.add_0_r.
  - unfold totals. cbn [foldl]. unfold add_block at 2. rewrite Nat2Z.inj_succ.
    replace (k + Z.succ (Z.of_nat (length h1))) with (k + 1 + Z.of_nat (length h1)) by lia.
    destruct (b.1 =? 0); rewrite IH; done.
Qed.

Lemma entries_from_heights k t h :
  Forall (fun e => k <= e_height e < k + Z.of_nat (length h)) (entries_from k t h).
Proof.
  revert k t. induction h as [| b h IH]; intros k t; cbn [entries_from length]; [constructor |].
  assert (Hrest : forall t', Forall (fun e => k <= e_height e < k + Z.of_nat (S (length h)))
                    (entries_from (k + 1) t' h)).
  { intros t'. eapply Forall_impl; [apply IH |]. simpl. lia. }
  destruct (b.1 =? 0); [apply Hrest |]. constructor; [simpl; lia | apply Hrest].
Qed.

Lemma entries_from_last k t h :
  match last (entries_from k t h) with
  | None => t = totals t h
  | Some e => (e_amount e, e_interest e) = totals t h
  end.
Proof.
  induction h as [| b h IH] using rev_ind; [done |].
  rewrite entries_from_app. unfold totals. rewrite foldl_app. fold (totals t h). cbn [foldl entries_from].
  unfold add_block. destruct (b.1 =? 0); [by rewrite app_nil_r | by rewrite last_snoc].
Qed.

Lemma di_last_totals d h :
  represents d h ->
  match last (di_index d) with None => (0, 0) | Some e => (e_amount e, e_interest e) end = totals (0, 0) h.
Proof.
  intros H. rewrite (rep_index d h H). pose proof (entries_from_last 0 (0, 0) h) as Hl.
  by destruct (last _).
Qed.

(** ** The operations follow the history *)

Lemma push_represents d h amount interest :
  represents d h -> Z.of_nat (length h) + 1 < 2 ^ 32 ->
  0 <= (totals (0, 0) h).1 <= INT64_MAX -> 0 <= (totals (0, 0) h).1 + amount <= INT64_MAX ->
  0 <= (totals (0, 0) h).2 -> 0 <= interest -> (totals (0, 0) h).2 + interest <= UINT64_MAX ->
  exists d', di_pushBlock d amount interest = Ret d' /\ represents d' (h ++ [(amount, interest)]).
Proof.
  intros Hr Hsmall Ha Ha' Hi Hi0 Hi'. unfold di_pushBlock.
  rewrite (di_last_totals d h Hr). destruct (totals (0, 0) h) as [la li] eqn:Et. cbn [fst snd] in *.
  unfold INT64_MAX, UINT64_MAX in *.
  assert (Hno1 : sumWillOverflow_i64 amount la = false)
    by (unfold sumWillOverflow_i64, INT64_MAX, INT64_MIN; lia).
  assert (Hno2 : sumWillOverflow_u64 interest li = false)
    by (unfold sumWillOverflow_u64, UINT64_MAX; lia).
  rewrite Hno1, Hno2, i64_small, u64_small by lia. cbn [negb].
  rewrite !assert_true, !outcome_bind_ret by (done || apply Z.leb_le; lia).
  eexists. split; [done |]. constructor; cbn [di_blockCount di_index].
  - rewrite (rep_count d h Hr), length_app, u32_small by lia. cbn [length]. lia.
  - rewrite entries_from_app, Et, <- (rep_index d h Hr), (rep_count d h Hr). cbn [entries_from fst snd].
    destruct (amount =? 0); [by rewrite app_nil_r |].
    rewrite Z.add_0_l, (Z.add_comm amount), (Z.add_comm interest). done.
  - rewrite length_app. cbn [length]. lia.
Qed.

Lemma pop_back_snoc {A} (l : list A) x : pop_back (l ++ [x]) = l.
Proof.
  unfold pop_back. rewrite length_app. cbn [length].
  replace (length l + 1 - 1)%nat with (length l) by lia. apply take_app_length.
Qed.

Lemma pop_represents d h b :
  represents d (h ++ [b]) -> exists d', di_popBlock d = Ret d' /\ represents d' h.
Proof.
  intros Hr. pose proof (rep_count _ _ Hr) as Hc. pose proof (rep_index _ _ Hr) as Hi.
  pose proof (rep_small _ _ Hr) as Hs. rewrite length_app in Hc, Hs. cbn [length] in Hc, Hs.
  unfold di_popBlock. rewrite assert_true, outcome_bind_ret by (apply Z.ltb_lt; lia).
  rewrite u32_small by lia. eexists. split; [done |].
  rewrite entries_from_app in Hi. cbn [entries_from] in Hi. rewrite Z.add_0_l in Hi.
  constructor; cbn [di_blockCount di_index]; [lia | | lia].
  replace (di_blockCount d - 1) with (Z.of_nat (length h)) by lia.
  destruct (b.1 =? 0).
  - rewrite app_nil_r in Hi. rewrite Hi. pose proof (entries_from_heights 0 (0, 0) h) as Hh.
    destruct (last (entries_from 0 (0, 0) h)) as [e |] eqn:El; [| done].
    apply last_Some_elem_of in El. rewrite Forall_forall in Hh. apply Hh in El.
    destruct (Z.eqb_spec (e_height e) (Z.of_nat (length h))); [lia | done].
  - rewrite Hi, last_snoc. cbn [e_height]. by rewrite Z.eqb_refl, pop_back_snoc.
Qed.

Lemma upper_bound_app {A} (key : A -> Z) k l1 l2 :
  Forall (fun e => key e <= k) l1 -> Forall (fun e => k < key e) l2 ->
  upper_bound key k (l1 ++ l2) = length l1.
Proof.
  intros H1 H2. induction H1 as [| e l1 He _ IH]; cbn [app upper_bound length].
  - destruct H2 as [| e l2 He _]; cbn [upper_bound]; [done |].
    destruct (Z.ltb_spec k (key e)); [done | lia].
  - destruct (Z.ltb_spec k (key e)); [lia |]. by rewrite IH.
Qed.

(** The entries up to a height and those after it. *)
Lemma entries_split h k :
  0 <= k ->
  let h1 := take (Z.to_nat (k + 1)) h in
  exists later, entries_from 0 (0, 0) h = entries_from 0 (0, 0) h1 ++ later
    /\ Forall (fun e => e_height e <= k) (entries_from 0 (0, 0) h1)
    /\ Forall (fun e => k < e_height e) later.
Proof.
  intros Hk h1. exists (entries_from (0 + Z.of_nat (length h1)) (totals (0, 0) h1) (drop (Z.to_nat (k + 1)) h)).
  split; [unfold h1; by rewrite <- entries_from_app, take_drop |].
  assert (Hl : Z.of_nat (length h1) <= k + 1) by (unfold h1; rewrite length_take; lia).
  split.
  - eapply Forall_impl; [apply entries_from_heights |]. simpl. lia.
  - destruct (Nat.le_gt_cases (length h) (Z.to_nat (k + 1))) as [Hle | Hgt].
    + rewrite drop_ge by done. constructor.
    + assert (Z.of_nat (length h1) = k + 1) by (unfold h1; rewrite length_take; lia).
      eapply Forall_impl; [apply entries_from_heights |]. simpl. lia.
Qed.

Lemma lookup_before_end {A} (l1 l2 : list A) :
  match length l1 with O => None | S prev => (l1 ++ l2) !! prev end = last l1.
Proof.
  destruct l1 as [| x l1 _] using rev_ind; [done |]. rewrite length_app, Nat.add_1_r, last_snoc.
  rewrite <- app_assoc, lookup_app_r, Nat.sub_diag by lia. done.
Qed.

Lemma entry_at_totals d h k :
  represents d h -> 0 <= k ->
  match entry_at d k with None => (0, 0) | Some e => (e_amount e, e_interest e) end = totals_at h k.
Proof.
  intros Hr Hk. destruct (entries_split h k Hk) as (later & He & H1 & H2).
  unfold entry_at, upperBound. rewrite (rep_index d h Hr), He, upper_bound_app by done.
  rewrite lookup_before_end. unfold totals_at.
  pose proof (entries_from_last 0 (0, 0) (take (Z.to_nat (k + 1)) h)) as Hl. by destruct (last _).
Qed.

Lemma depositAmountAtHeight_totals d h k :
  represents d h -> 0 <= k -> depositAmountAtHeight d k = (totals_at h k).1.
Proof.
  intros Hr Hk. unfold depositAmountAtHeight. rewrite (rep_count d h Hr).
  pose proof (entry_at_totals d h k Hr Hk) as He.
  destruct (Z.eqb_spec (Z.of_nat (length h)) 0) as [E | _].
  - destruct h; [| simpl in E; lia]. unfold totals_at. by rewrite take_nil.
  - rewrite <- He. by destruct (entry_at d k).
Qed.

Lemma depositInterestAtHeight_totals d h k :
  represents d h -> 0 <= k -> depositInterestAtHeight d k = (totals_at h k).2.
Proof.
  intros Hr Hk. unfold depositInterestAtHeight. rewrite (rep_count d h Hr).
  pose proof (entry_at_totals d h k Hr Hk) as He.
  destruct (Z.eqb_spec (Z.of_nat (length h)) 0) as [E | _].
  - destruct h; [| simpl in E; lia]. unfold totals_at. by rewrite take_nil.
  - rewrite <- He. by destruct (entry_at d k).
Qed.

Lemma popBlocks_represents d h from :
  represents d h -> 0 <= from < Z.of_nat (length h) ->
  exists d', di_popBlocks d from = (Z.of_nat (length h) - from, d')
    /\ represents d' (take (Z.to_nat from) h).
Proof.
  intros Hr Hf. unfold di_popBlocks. rewrite (rep_count d h Hr). pose proof (rep_small d h Hr) as Hs.
  destruct (Z.leb_spec (Z.of_nat (length h)) from); [lia |].
  rewrite !u32_small by lia.
  replace (Z.of_nat (length h) - (Z.of_nat (length h) - from)) with from by lia.
  eexists. split; [done |].
  destruct (entries_split h from ltac:(lia)) as (later & He & H1 & H2).
  unfold upperBound. rewrite (rep_index d h Hr), He, upper_bound_app by done.
  destruct (lookup_lt_is_Some_2 h (Z.to_nat from)) as [b Hb]; [lia |].
  assert (Htake : take (Z.to_nat (from + 1)) h = take (Z.to_nat from) h ++ [b]).
  { replace (Z.to_nat (from + 1)) with (S (Z.to_nat from)) by lia. by apply take_S_r. }
  rewrite Htake in *. set (h0 := take (Z.to_nat from) h) in *.
  assert (Hl0 : length h0 = Z.to_nat from) by (unfold h0; rewrite length_take; lia).
  constructor; cbn [di_blockCount di_index]; [rewrite Hl0; lia | | rewrite Hl0; lia].
  rewrite entries_from_app, Hl0, Z.add_0_l, Z2Nat.id by lia. cbn [entries_from].
  pose proof (entries_from_heights 0 (0, 0) h0) as Hh. rewrite Hl0 in Hh.
  destruct (b.1 =? 0).
  - rewrite app_nil_r. set (es := entries_from 0 (0, 0) h0) in *.
    assert (Hlen : match length es with O => O | S prev =>
              match (es ++ later) !! prev with
              | Some e => if e_height e =? from then prev else length es
              | None => length es end end = length es).
    { destruct (length es) as [| prev] eqn:El; [done |].
      destruct (lookup_lt_is_Some_2 es prev) as [e Hlk]; [lia |].
      rewrite (lookup_app_l_Some _ _ _ _ Hlk). apply list_elem_of_lookup_2 in Hlk.
      rewrite Forall_forall in Hh. apply Hh in Hlk.
      destruct (Z.eqb_spec (e_height e) from); [lia | done]. }
    destruct (length es) as [| prev] eqn:El; [by destruct es |].
    rewrite Hlen, <- El. apply take_app_length.
  - set (es := entries_from 0 (0, 0) h0) in *. rewrite length_app, Nat.add_1_r.
    rewrite <- app_assoc, lookup_app_r, Nat.sub_diag by lia. cbn [app lookup list_lookup].
    cbn [e_height]. rewrite Z.eqb_refl. apply take_app_length.
Qed.

(** * The interface of a deposit ledger

    What the blockchain asks of the index: an empty ledger, one operation per block pushed
    or popped, the removal of every block from a height on, and two queries by height.
    The specification is the history. *)

Inductive ledger_op := OpPush (amount interest : Z) | OpPop | OpPopBlocks (from : Z).

Definition totals_ok (t : Z * Z) : bool :=
  (0 <=? t.1) && (t.1 <=? INT64_MAX) && (0 <=? t.2) && (t.2 <=? UINT64_MAX).

Definition history_step (h : history) (op : ledger_op) : option history :=
  match op with
  | OpPush amount interest =>
      let t := totals (0, 0) h in
      if (Z.of_nat (length h) + 1 <? 2 ^ 32) && totals_ok (t.1 + amount, t.2 + interest) && (0 <=? interest)
      then Some (h ++ [(amount, interest)]) else None
  | OpPop => match h with [] => None | _ => Some (pop_back h) end
  | OpPopBlocks from => if 0 <=? from then Some (take (Z.to_nat from) h) else None
  end.

Fixpoint history_run (h : history) (ops : list ledger_op) : option history :=
  match ops with
  | [] => Some h
  | op :: ops => match history_step h op with Some h' => history_run h' ops | None => None end
  end.

(** Every prefix of the history has totals in range. *)
Definition history_ok (h : history) : Prop := forall k, totals_ok (totals (0, 0) (take k h)) = true.

Class DepositLedger (I : Type) := {
  dl_empty : I;
  dl_push : I -> Z -> Z -> outcome I;
  dl_pop : I -> outcome I;
  dl_popBlocks : I -> Z -> Z * I;
  dl_amountAt : I -> Z -> Z;
  dl_interestAt : I -> Z -> Z;
  dl_rep : I -> history -> Prop;
  dl_empty_rep : dl_rep dl_empty [];
  dl_push_rep i h h' amount interest :
    dl_rep i h -> history_ok h -> history_step h (OpPush amount interest) = Some h' ->
    exists i', dl_push i amount interest = Ret i' /\ dl_rep i' h';
  dl_pop_rep i h h' :
    dl_rep i h -> history_step h OpPop = Some h' -> exists i', dl_pop i = Ret i' /\ dl_rep i' h';
  dl_popBlocks_rep i h h' from :
    dl_rep i h -> history_step h (OpPopBlocks from) = Some h' -> dl_rep (dl_popBlocks i from).2 h';
  dl_amountAt_rep i h k : dl_rep i h -> 0 <= k -> dl_amountAt i k = (totals_at h k).1;
  dl_interestAt_rep i h k : dl_rep i h -> 0 <= k -> dl_interestAt i k = (totals_at h k).2
}.

Section DepositLedgerClient.

Context {I : Type} `{DepositLedger I}.

Definition ledger_step (i : I) (op : ledger_op) : outcome I :=
  match op with
  | OpPush amount interest => dl_push i amount interest
  | OpPop => dl_pop i
  | OpPopBlocks from => Ret (dl_popBlocks i from).2
  end.

Fixpoint ledger_run (i : I) (ops : list ledger_op) : outcome I :=
  match ops with [] => Ret i | op :: ops => i' ← ledger_step i op; ledger_run i' ops end.

Lemma history_step_ok h op h' : history_ok h -> history_step h op = Some h' -> history_ok h'.
Proof.
  intros Hok Hs. destruct op as [a b | | from]; cbn [history_step] in Hs.
  - destruct (_ && _) eqn:E in Hs; [| done]. injection Hs as <-.
    apply andb_prop in E as [E Hb]. apply andb_prop in E as [_ E].
    intros k. destruct (Nat.le_gt_cases k (length h)) as [Hk | Hk].
    + rewrite take_app_le by done. apply Hok.
    + rewrite take_ge by (rewrite length_app; cbn; lia). unfold totals. rewrite foldl_app.
      fold (totals (0, 0) h). cbn [foldl]. unfold add_block. cbn [fst snd].
      destruct (a =? 0); [| done]. specialize (Hok (length h)). by rewrite take_ge in Hok.
  - destruct h as [| b h]; [done |]. injection Hs as <-. intros k. unfold pop_back.
    rewrite take_take. apply Hok.
  - destruct (0 <=? from); [| done]. injection Hs as <-. intros k. rewrite take_take. apply Hok.
Qed.

Lemma ledger_step_rep i h op h' :
  dl_rep i h -> history_ok h -> history_step h op = Some h' ->
  exists i', ledger_step i op = Ret i' /\ dl_rep i' h'.
Proof.
  intros Hr Hok Hs. destruct op as [a b | | from]; cbn [ledger_step].
  - by eapply dl_push_rep.
  - by eapply dl_pop_rep.
  - eexists. split; [done |]. by eapply dl_popBlocks_rep.
Qed.

Lemma ledger_run_rep ops i h h' :
  dl_rep i h -> history_ok h -> history_run h ops = Some h' ->
  exists i', ledger_run i ops = Ret i' /\ dl_rep i' h'.
Proof.
  revert i h. induction ops as [| op ops IH]; intros i h Hr Hok Hs; cbn [history_run ledger_run] in *.
  - injection Hs as <-. eauto.
  - destruct (history_step h op) as [h1 |] eqn:E; [| done].
    destruct (ledger_step_rep i h op h1 Hr Hok E) as (i1 & -> & Hr1). rewrite outcome_bind_ret.
    eapply IH; [done | | done]. by eapply history_step_ok.
Qed.

End DepositLedgerClient.

Lemma history_ok_nil : history_ok [].
Proof. intros k. by rewrite take_nil. Qed.

(** ** The two implementations *)

Lemma di_empty_rep : represents di_empty [].
Proof. by constructor. Qed.

Lemma di_push_rep d h h' amount interest :
  represents d h -> history_ok h -> history_step h (OpPush amount interest) = Some h' ->
  exists d', di_pushBlock d amount interest = Ret d' /\ represents d' h'.
Proof.
  intros Hr Hok Hs. cbn [history_step] in Hs. destruct (_ && _) eqn:E in Hs; [| done].
  injection Hs as <-. specialize (Hok (length h)). rewrite take_ge in Hok by done.
  unfold totals_ok in *. cbn [fst snd] in E. apply push_represents; [done | lia..].
Qed.

Lemma di_pop_rep d h h' :
  represents d h -> history_step h OpPop = Some h' -> exists d', di_popBlock d = Ret d' /\ represents d' h'.
Proof.
  intros Hr Hs. destruct h as [| b h _] using rev_ind; [done |].
  cbn [history_step] in Hs. destruct (h ++ [b]) eqn:E; [by destruct h |]. injection Hs as <-.
  rewrite <- E in *. rewrite pop_back_snoc. by eapply pop_represents.
Qed.

Lemma di_popBlocks_rep d h h' from :
  represents d h -> history_step h (OpPopBlocks from) = Some h' -> represents (di_popBlocks d from).2 h'.
Proof.
  intros Hr Hs. cbn [history_step] in Hs. destruct (Z.leb_spec 0 from) as [Hf |]; [| done].
  injection Hs as <-. destruct (Z.lt_ge_cases from (Z.of_nat (length h))) as [Hl | Hl].
  - by destruct (popBlocks_represents d h from Hr (conj Hf Hl)) as (d' & -> & Hd').
  - unfold di_popBlocks. rewrite (rep_count d h Hr). destruct (Z.leb_spec (Z.of_nat (length h)) from); [| lia].
    by rewrite take_ge by lia.
Qed.

#[export] Instance DepositIndex_ledger : DepositLedger DepositIndex := {|
  dl_empty := di_empty;
  dl_push := di_pushBlock;
  dl_pop := di_popBlock;
  dl_popBlocks := di_popBlocks;
  dl_amountAt := depositAmountAtHeight;
  dl_interestAt := depositInterestAtHeight;
  dl_rep := represents;
  dl_empty_rep := di_empty_rep;
  dl_push_rep := di_push_rep;
  dl_pop_rep := di_pop_rep;
  dl_popBlocks_rep := di_popBlocks_rep;
  dl_amountAt_rep := depositAmountAtHeight_totals;
  dl_interestAt_rep := depositInterestAtHeight_totals
|}.

Lemma bi_push_rep b h h' amount interest :
  represents (bi_deposits b) h -> history_ok h -> history_step h (OpPush amount interest) = Some h' ->
  exists b', pushBlock b amount interest = Ret b' /\ represents (bi_deposits b') h'.
Proof.
  intros Hr Hok Hs. destruct (di_push_rep _ _ _ _ _ Hr Hok Hs) as (d' & Hd & Hr').
  unfold pushBlock. rewrite Hd, outcome_bind_ret. eauto.
Qed.

Lemma bi_pop_rep b h h' :
  represents (bi_deposits b) h -> history_step h OpPop = Some h' ->
  exists b', popBlock b = Ret b' /\ represents (bi_deposits b') h'.
Proof.
  intros Hr Hs. destruct (di_pop_rep _ _ _ Hr Hs) as (d' & Hd & Hr'). unfold popBlock.
  rewrite Hd. unfold di_popBlock in Hd. apply outcome_bind_inv in Hd as (u & -> & _).
  rewrite outcome_bind_ret. cbv zeta.
  destruct (last (bi_burned b)) as [e |]; [destruct (bu_height e =? _) |]; rewrite outcome_bind_ret; eauto.
Qed.

Lemma bi_popBlocks_rep b h h' from :
  represents (bi_deposits b) h -> history_step h (OpPopBlocks from) = Some h' ->
  represents (bi_deposits (popBlocks b from).2) h'.
Proof.
  intros Hr Hs. pose proof (di_popBlocks_rep _ _ _ _ Hr Hs) as Hd. unfold popBlocks.
  destruct (Z.leb_spec (di_blockCount (bi_deposits b)) from) as [Hle | Hgt].
  - unfold di_popBlocks in Hd. by rewrite (proj2 (Z.leb_le _ _) Hle) in Hd.
  - by destruct (di_popBlocks (bi_deposits b) from).
Qed.

#[export] Instance BankingIndex_ledger : DepositLedger BankingIndex := {|
  dl_empty := bi_empty;
  dl_push := pushBlock;
  dl_pop := popBlock;
  dl_popBlocks := popBlocks;
  dl_amountAt b := depositAmountAtHeight (bi_deposits b);
  dl_interestAt b := depositInterestAtHeight (bi_deposits b);
  dl_rep b := represents (bi_deposits b);
  dl_empty_rep := di_empty_rep;
  dl_push_rep := bi_push_rep;
  dl_pop_rep := bi_pop_rep;
  dl_popBlocks_rep := bi_popBlocks_rep;
  dl_amountAt_rep b := depositAmountAtHeight_totals (bi_deposits b);
  dl_interestAt_rep b := depositInterestAtHeight_totals (bi_deposits b)
|}.

Lemma full_totals d h :
  represents d h -> (fullDepositAmount d, fullInterestAmount d) = totals (0, 0) h.
Proof.
  intros Hr. pose proof (di_last_totals d h Hr) as Hl. unfold fullDepositAmount, fullInterestAmount.
  by destruct (last (di_index d)).
Qed.

(** C24: Refinement of the deposit ledger: any sequence of block pushes, pops and
    [popBlocks] that keeps the running totals in range is executed by [BankingIndex] without a
    failed assertion, and afterwards every query by height answers the totals of the blocks up
    to that height of the chain that is left, whatever was pushed and undone before. *)
Theorem banking_ledger_refines (ops : list ledger_op) (h : history) :
  history_run [] ops = Some h ->
  exists b : BankingIndex, ledger_run bi_empty ops = Ret b
    /\ (forall k, 0 <= k -> depositAmountAtHeight (bi_deposits b) k = (totals_at h k).1
                            /\ depositInterestAtHeight (bi_deposits b) k = (totals_at h k).2)
    /\ fullDepositAmount (bi_deposits b) = (totals (0, 0) h).1
    /\ fullInterestAmount (bi_deposits b) = (totals (0, 0) h).2.
Proof.
  intros Hs. assert (H0 : dl_rep bi_empty []) by apply di_empty_rep.
  destruct (ledger_run_rep ops bi_empty [] h H0 history_ok_nil Hs) as (b & Hb & Hr).
  exists b. pose proof (full_totals _ _ Hr) as Hf. split; [done |].
  split; [| split; [by rewrite <- Hf | by rewrite <- Hf]].
  intros k Hk. split; [by apply depositAmountAtHeight_totals | by apply depositInterestAtHeight_totals].
Qed.

Definition example_ops : list ledger_op :=
  [OpPush 50 1; OpPush 0 0; OpPush 30 2; OpPush (-50) 0; OpPop; OpPush 7 1; OpPopBlocks 3; OpPush (-20) 4].

Lemma banking_ledger_refines_witness :
  exists b : BankingIndex, ledger_run bi_empty example_ops = Ret b
    /\ (forall k, 0 <= k ->
          depositAmountAtHeight (bi_deposits b) k = (totals_at [(50, 1); (0, 0); (30, 2); (-20, 4)] k).1
          /\ depositInterestAtHeight (bi_deposits b) k = (totals_at [(50, 1); (0, 0); (30, 2); (-20, 4)] k).2)
    /\ fullDepositAmount (bi_deposits b) = 60
    /\ fullInterestAmount (bi_deposits b) = 7.
Proof. apply (banking_ledger_refines example_ops). vm_compute. reflexivity. Defined.

(** * Burned coins

    The reference is the list of burns, a height and an amount each. *)

Definition burn_sum (bs : list (Z * Z)) : Z := foldr (fun b s => b.2 + s) 0 bs.

Definition burned_upto (k : Z) (bs : list (Z * Z)) : Z :=
  foldr (fun b s => if b.1 <=? k then b.2 + s else s) 0 bs.

Fixpoint add_burns (b : BankingIndex) (bs : list (Z * Z)) : outcome BankingIndex :=
  match bs with [] => Ret b | (h, a) :: bs => b' ← addForeverDeposit b a h; add_burns b' bs end.

(** The value that [getBurnedXfgAtHeight] reads. *)
Definition burned_at (l : list BurnedXfgEntry) (k : Z) : Z :=
  match upper_bound bu_height k l with
  | O => 0
  | S prev => match l !! prev with Some e => bu_cumulative e | None => 0 end
  end.

Lemma getBurnedXfgAtHeight_at b k : getBurnedXfgAtHeight b k = burned_at (bi_burned b) k.
Proof. unfold getBurnedXfgAtHeight, burned_at. by destruct (bi_burned b). Qed.

Lemma upper_bound_le {A} (key : A -> Z) k l : (upper_bound key k l <= length l)%nat.
Proof. induction l as [| e l IH]; cbn [upper_bound length]; [lia |]. destruct (k <? key e); lia. Qed.

Lemma upper_bound_before {A} (key : A -> Z) k l e :
  k < key e -> upper_bound key k (l ++ [e]) = upper_bound key k l.
Proof.
  intros Hk. induction l as [| x l IH]; cbn [app upper_bound].
  - by rewrite (proj2 (Z.ltb_lt _ _) Hk).
  - by rewrite IH.
Qed.

Lemma burned_at_snoc l e k :
  Forall (fun x => bu_height x < bu_height e) l ->
  burned_at (l ++ [e]) k = if bu_height e <=? k then bu_cumulative e else burned_at l k.
Proof.
  intros Hl. unfold burned_at. destruct (Z.leb_spec (bu_height e) k) as [Hk | Hk].
  - rewrite <- (app_nil_r (l ++ [e])), (upper_bound_app bu_height k (l ++ [e]) []);
      [| apply Forall_app; split; [eapply Forall_impl; [exact Hl | simpl; lia] | by constructor]
       | constructor].
    rewrite app_nil_r, length_app, Nat.add_1_r, lookup_app_r, Nat.sub_diag by lia. done.
  - rewrite upper_bound_before by done. destruct (upper_bound bu_height k l) as [| prev] eqn:E; [done |].
    pose proof (upper_bound_le bu_height k l). by rewrite lookup_app_l by lia.
Qed.

(** The entries of an index that received the burns [bs]. *)
Record burns_rep (b : BankingIndex) (bs : list (Z * Z)) : Prop := {
  br_total : bi_ethereal_xfg b = burn_sum bs;
  br_sorted : StronglySorted (fun x y => bu_height x < bu_height y) (bi_burned b);
  br_at : forall k, burned_at (bi_burned b) k = burned_upto k bs;
  br_last : forall e, last (bi_burned b) = Some e -> 0 <= bu_amount e <= burn_sum bs;
  br_heights : Forall (fun e => exists x, x ∈ bs /\ bu_height e = x.1) (bi_burned b);
  br_range : 0 <= burn_sum bs <= UINT64_MAX
}.

Lemma burn_sum_snoc bs x : burn_sum (bs ++ [x]) = burn_sum bs + x.2.
Proof. induction bs as [| y bs IH]; cbn [app burn_sum foldr] in *; [lia |]. unfold burn_sum in IH. lia. Qed.

Lemma burned_upto_snoc k bs x :
  burned_upto k (bs ++ [x]) = burned_upto k bs + (if x.1 <=? k then x.2 else 0).
Proof.
  induction bs as [| y bs IH]; cbn [app burned_upto foldr] in *; [destruct (x.1 <=? k); lia |].
  unfold burned_upto in IH. rewrite IH. destruct (y.1 <=? k); lia.
Qed.

Lemma burned_upto_all k bs : Forall (fun x => x.1 <= k) bs -> burned_upto k bs = burn_sum bs.
Proof.
  induction 1 as [| y bs Hy _ IH]; cbn [burned_upto burn_sum foldr]; [done |].
  unfold burned_upto, burn_sum in IH. rewrite IH. by rewrite (proj2 (Z.leb_le _ _) Hy).
Qed.

Lemma StronglySorted_snoc {A} (R : A -> A -> Prop) l x :
  StronglySorted R (l ++ [x]) <-> StronglySorted R l /\ Forall (fun y => R y x) l.
Proof.
  induction l as [| y l IH]; cbn [app].
  - split; [intros _; split; constructor | intros _; constructor; constructor].
  - split.
    + intros Hs. apply StronglySorted_inv in Hs as [Hs Hy]. apply IH in Hs as [Hs Hx].
      apply Forall_app in Hy as [Hy1 Hy2]. split; [by constructor |].
      constructor; [by inversion Hy2 | done].
    + intros [Hs Hx]. apply StronglySorted_inv in Hs as [Hs Hy].
      apply Forall_cons in Hx as [Hx1 Hx2]. constructor; [by apply IH |].
      apply Forall_app. split; [done | by apply Forall_singleton].
Qed.

Lemma burn_value_step l e bs h a :
  Forall (fun x => bu_height x < h) l -> bu_height e = h -> bu_cumulative e = burn_sum bs + a ->
  Forall (fun x => x.1 <= h) bs ->
  (forall k, k < h -> burned_at l k = burned_upto k bs) ->
  forall k, burned_at (l ++ [e]) k = burned_upto k (bs ++ [(h, a)]).
Proof.
  intros Hl He Hc Hbs Hk k. rewrite burned_at_snoc, burned_upto_snoc by (by rewrite He). cbn [fst snd].
  rewrite He. destruct (Z.leb_spec h k) as [H | H].
  - rewrite Hc, burned_upto_all; [done |]. eapply Forall_impl; [exact Hbs | simpl; lia].
  - rewrite Hk by done. lia.
Qed.

(** A new last entry for the burn [(h, a)], after the entries [l] below the height [h]. *)
Lemma burns_rep_snoc d l e bs h a :
  Forall (fun x => bu_height x < h) l -> StronglySorted (fun x y => bu_height x < bu_height y) l ->
  Forall (fun e => exists x, x ∈ bs /\ bu_height e = x.1) l ->
  (forall k, k < h -> burned_at l k = burned_upto k bs) ->
  Forall (fun x => x.1 <= h) bs -> 0 <= burn_sum bs + a <= UINT64_MAX ->
  bu_height e = h -> bu_cumulative e = burn_sum bs + a -> 0 <= bu_amount e <= burn_sum bs + a ->
  burns_rep (mkBankingIndex d (l ++ [e]) (burn_sum bs + a)) (bs ++ [(h, a)]).
Proof.
  intros Hl Hsort Hh Hk Hbs Hr He Hc Ha.
  constructor; cbn [bi_ethereal_xfg bi_burned]; rewrite ?burn_sum_snoc; cbn [snd]; try done.
  - apply StronglySorted_snoc. by rewrite He.
  - by apply burn_value_step.
  - intros e'. rewrite last_snoc. by intros [= <-].
  - apply Forall_app. split.
    + eapply Forall_impl; [exact Hh |]. intros e' (x & Hx & Hx'). exists x. split; [| done]. apply elem_of_app. by left.
    + constructor; [| constructor]. exists (h, a). split; [| done]. apply elem_of_app. right. by constructor.
Qed.

Lemma add_burn_rep b bs h a :
  burns_rep b bs -> Forall (fun x => x.1 <= h) bs -> 0 < a -> burn_sum bs + a <= UINT64_MAX ->
  exists b', addForeverDeposit b a h = Ret b' /\ burns_rep b' (bs ++ [(h, a)]).
Proof.
  intros [Ht Hsort Hat Hlast Hh Hrange] Hbs Ha Hmax. unfold UINT64_MAX in Hrange, Hmax.
  assert (Hle : Forall (fun e => bu_height e <= h) (bi_burned b)).
  { eapply Forall_impl; [exact Hh |]. intros e (x & Hx & ->). rewrite Forall_forall in Hbs. by apply Hbs. }
  unfold addForeverDeposit. destruct (Z.eqb_spec a 0); [lia |].
  rewrite assert_true by (apply Z.leb_le; unfold UINT64_MAX; lia). rewrite outcome_bind_ret, Ht.
  rewrite (u64_small (burn_sum bs + a)) by lia.
  destruct (bi_burned b) as [| e l _] using rev_ind.
  - eexists. split; [done |]. apply (burns_rep_snoc _ []); try done; unfold UINT64_MAX; cbn; auto; lia.
  - rewrite last_snoc in *. specialize (Hlast e eq_refl).
    pose proof (proj1 (StronglySorted_snoc _ _ _) Hsort) as [Hsort' Hsl].
    pose proof (proj1 (Forall_app _ _ _) Hle) as [_ He]. apply Forall_inv in He.
    destruct (Z.eqb_spec (bu_height e) h) as [Heq | Hne].
    + rewrite assert_true, outcome_bind_ret by (apply Z.leb_le; unfold UINT64_MAX; lia).
      rewrite u64_small, pop_back_snoc by lia. eexists. split; [done |]. rewrite Heq in Hsl.
      apply Forall_app in Hh as [Hh _].
      apply burns_rep_snoc; try done; unfold UINT64_MAX; cbn; try lia.
      intros k Hk. rewrite <- Hat, burned_at_snoc by (by rewrite Heq).
      destruct (Z.leb_spec (bu_height e) k); [lia | done].
    + eexists. split; [done |].
      apply burns_rep_snoc; try done; unfold UINT64_MAX; cbn; try lia.
      apply Forall_app. split; [| constructor; [lia | constructor]].
      eapply Forall_impl; [exact Hsl | simpl; lia].
Qed.

Lemma add_burns_rep bs b done :
  burns_rep b done ->
  StronglySorted (fun x y => x.1 <= y.1) (done ++ bs) -> Forall (fun x => 0 < x.2) bs ->
  burn_sum (done ++ bs) <= UINT64_MAX ->
  exists b', add_burns b bs = Ret b' /\ burns_rep b' (done ++ bs).
Proof.
  revert b done. induction bs as [| [h a] bs IH]; intros b dn Hr Hs Hp Hm; cbn [add_burns].
  - rewrite app_nil_r. eauto.
  - apply Forall_cons in Hp as [Ha Hp]. rewrite cons_middle, app_assoc in *.
    assert (Hnn : 0 <= burn_sum bs).
    { clear -Hp. induction Hp as [| x l Hx _ IHl]; cbn; [lia |]. unfold burn_sum in IHl. lia. }
    assert (Happ : burn_sum ((dn ++ [(h, a)]) ++ bs) = burn_sum dn + a + burn_sum bs).
    { clear. induction dn as [| x dn IHd]; cbn in *; unfold burn_sum in *; lia. }
    destruct (add_burn_rep b dn h a Hr) as (b' & -> & Hr').
    + assert (Hs' : StronglySorted (fun x y : Z * Z => x.1 <= y.1) (dn ++ [(h, a)])).
      { clear -Hs. generalize dependent (dn ++ [(h, a)]). intros l Hs.
        induction l as [| x l IHl]; [constructor |]. cbn [app] in Hs.
        apply StronglySorted_inv in Hs as [Hs Hx]. apply Forall_app in Hx as [Hx _].
        constructor; [by apply IHl | done]. }
      by apply StronglySorted_snoc in Hs' as [_ ?].
    + done.
    + lia.
    + rewrite outcome_bind_ret. by apply IH.
Qed.

(** Burned coins: burns recorded in the order of the chain (heights never decrease, several
    per block allowed) are all accepted while their sum fits 64 bits, and
    [getBurnedXfgAtHeight] then answers, for every height, the exact sum burned up to it: the
    figure that the block reward of the next height depends on. *)
Theorem burned_at_height_correct (bs : list (Z * Z)) :
  StronglySorted (fun x y => x.1 <= y.1) bs -> Forall (fun x => 0 < x.2) bs -> burn_sum bs <= UINT64_MAX ->
  exists b, add_burns bi_empty bs = Ret b
    /\ getBurnedXfgAmount b = burn_sum bs
    /\ forall k, getBurnedXfgAtHeight b k = burned_upto k bs.
Proof.
  intros Hs Hp Hm. assert (H0 : burns_rep bi_empty []).
  { constructor; cbn; try done; constructor. }
  destruct (add_burns_rep bs bi_empty [] H0 Hs Hp Hm) as (b & Hb & Hr). exists b.
  split; [done |]. split; [apply (br_total b bs Hr) |]. intros k.
  rewrite getBurnedXfgAtHeight_at. apply (br_at b bs Hr).
Qed.

Lemma burned_at_height_correct_witness :
  exists b, add_burns bi_empty [(3, 100); (3, 50); (9, 7)] = Ret b
    /\ getBurnedXfgAmount b = 157
    /\ forall k, getBurnedXfgAtHeight b k = burned_upto k [(3, 100); (3, 50); (9, 7)].
Proof.
  apply (burned_at_height_correct [(3, 100); (3, 50); (9, 7)]);
    repeat constructor; cbn; unfold UINT64_MAX; lia.
Defined.

Lemma di_pushBlock_count d amount interest d' :
  di_pushBlock d amount interest = Ret d' -> exists idx, d' = mkDepositIndex idx (u32 (di_blockCount d + 1)).
Proof.
  unfold di_pushBlock. intros H. destruct (last (di_index d)) as [e |]; outcome_inv; by eexists.
Qed.

(** A popped block does not give its burned coins back.  The chain pushes the block and then
    records its burn under the height of the block, one less than the block count;
    [popBlock] compares that height with the block count itself, so the burn stays and a chain
    reorganisation counts it again.  The deposits are restored. *)
Theorem popBlock_keeps_burn (b b1 b2 b3 : BankingIndex) (amount interest burn : Z) :
  Forall (fun e => bu_height e < di_blockCount (bi_deposits b)) (bi_burned b) ->
  0 <= di_blockCount (bi_deposits b) -> di_blockCount (bi_deposits b) + 1 < 2 ^ 32 ->
  0 <= bi_ethereal_xfg b -> 0 < burn ->
  pushBlock b amount interest = Ret b1 ->
  addForeverDeposit b1 burn (di_blockCount (bi_deposits b)) = Ret b2 ->
  popBlock b2 = Ret b3 ->
  getBurnedXfgAmount b3 = getBurnedXfgAmount b + burn
  /\ bi_burned b3 = bi_burned b2
  /\ di_blockCount (bi_deposits b3) = di_blockCount (bi_deposits b).
Proof.
  intros Hh Hc0 Hcnt He Hb Hpush Hadd Hpop.
  unfold pushBlock in Hpush. apply outcome_bind_inv in Hpush as (d & Hd & Hpush). injection Hpush as <-.
  apply di_pushBlock_count in Hd as [idx ->].
  unfold addForeverDeposit in Hadd. cbn [bi_deposits bi_burned bi_ethereal_xfg] in Hadd.
  destruct (Z.eqb_spec burn 0); [lia |]. apply outcome_bind_inv in Hadd as (u & Hu & Hadd).
  assert (Hmax : burn <= UINT64_MAX - bi_ethereal_xfg b).
  { unfold assert_ in Hu. destruct (Z.leb_spec burn (UINT64_MAX - bi_ethereal_xfg b)); [done |]. discriminate. }
  unfold UINT64_MAX in Hmax. rewrite u64_small in Hadd by lia.
  set (c := di_blockCount (bi_deposits b)) in *.
  assert (Hb2 : exists l e, b2 = mkBankingIndex (mkDepositIndex idx (u32 (c + 1))) (l ++ [e])
                                   (bi_ethereal_xfg b + burn) /\ bu_height e = c).
  { destruct (last (bi_burned b)) as [e |] eqn:El.
    - destruct (Z.eqb_spec (bu_height e) c) as [Heq |].
      + apply last_Some_elem_of in El. rewrite Forall_forall in Hh. apply Hh in El. lia.
      + injection Hadd as <-. eauto.
    - injection Hadd as <-. eauto. }
  destruct Hb2 as (l & e & -> & Hel). unfold popBlock in Hpop.
  cbn [bi_deposits di_blockCount bi_burned bi_ethereal_xfg] in Hpop.
  rewrite (u32_small (c + 1)) in Hpop by lia.
  apply outcome_bind_inv in Hpop as (u' & _ & Hpop). rewrite last_snoc, Hel in Hpop.
  destruct (Z.eqb_spec c (c + 1)); [lia |]. apply outcome_bind_inv in Hpop as (d' & Hd' & Hpop).
  injection Hpop as <-. unfold di_popBlock in Hd'. cbn [di_blockCount] in Hd'.
  apply outcome_bind_inv in Hd' as (u'' & _ & Hd'). injection Hd' as <-.
  cbn [di_blockCount bi_deposits getBurnedXfgAmount bi_ethereal_xfg bi_burned].
  split; [done |]. split; [done |]. rewrite u32_small by lia. lia.
Qed.

Definition pushed_index : BankingIndex := mkBankingIndex (mkDepositIndex [] 1) [] 0.
Definition burned_index : BankingIndex :=
  mkBankingIndex (mkDepositIndex [] 1) [mkBurned 0 80000000 80000000] 80000000.
Definition popped_index : BankingIndex :=
  mkBankingIndex (mkDepositIndex [] 0) [mkBurned 0 80000000 80000000] 80000000.

Lemma popBlock_keeps_burn_witness :
  pushBlock bi_empty 0 0 = Ret pushed_index
  /\ addForeverDeposit pushed_index 80000000 0 = Ret burned_index
  /\ getBurnedXfgAmount popped_index = getBurnedXfgAmount bi_empty + 80000000
  /\ bi_burned popped_index = bi_burned burned_index
  /\ di_blockCount (bi_deposits popped_index) = di_blockCount (bi_deposits bi_empty).
Proof.
  assert (H1 : pushBlock bi_empty 0 0 = Ret pushed_index) by (vm_compute; reflexivity).
  assert (H2 : addForeverDeposit pushed_index 80000000 0 = Ret burned_index) by (vm_compute; reflexivity).
  assert (H3 : popBlock burned_index = Ret popped_index) by (vm_compute; reflexivity).
  split; [exact H1 |]. split; [exact H2 |].
  refine (popBlock_keeps_burn bi_empty pushed_index burned_index popped_index 0 0 80000000 _ _ _ _ _ H1 H2 H3);
    [constructor | cbn; lia..].
Defined.

(** ** A push that returns *)

(** What the asserts of [di_pushBlock] leave. *)
Lemma di_push_inv d h amount interest d' :
  represents d h -> history_ok h -> Z.of_nat (length h) + 1 < 2 ^ 32 -> is_i64 amount -> is_u64 interest ->
  di_pushBlock d amount interest = Ret d' ->
  represents d' (h ++ [(amount, interest)]) /\ history_ok (h ++ [(amount, interest)]).
Proof.
  intros Hr Hok Hlen Ha Hi H. pose proof (Hok (length h)) as Ht. rewrite take_ge in Ht by done.
  assert (Hs : history_step h (OpPush amount interest) = Some (h ++ [(amount, interest)])).
  { pose proof H as Hp. unfold di_pushBlock in Hp. rewrite (di_last_totals d h Hr) in Hp.
    cbn [history_step]. unfold totals_ok in *. destruct (totals (0, 0) h) as [la li]. cbn [fst snd] in *.
    apply outcome_bind_inv in Hp as ([] & H1 & Hp). apply outcome_bind_inv in Hp as ([] & H2 & Hp).
    apply outcome_bind_inv in Hp as ([] & H3 & _). unfold assert_ in *.
    unfold sumWillOverflow_i64, sumWillOverflow_u64, INT64_MAX, INT64_MIN, UINT64_MAX, is_i64, is_u64 in *.
    destruct (negb ((0 <? la) && (2 ^ 63 - 1 - la <? amount) || (la <? 0) && (amount <? - 2 ^ 63 - la))) eqn:E1; [| done].
    destruct (negb (2 ^ 64 - 1 - li <? interest)) eqn:E2; [| done].
    rewrite i64_small in H3 by lia. destruct (0 <=? amount + la) eqn:E3; [| done].
    rewrite (proj2 (Z.ltb_lt _ _) Hlen). replace ((_ && _ && _ && _) : bool) with true by lia. cbn. by rewrite (proj2 (Z.leb_le 0 interest)) by lia. }
  split; [| by eapply history_step_ok]. destruct (di_push_rep _ _ _ _ _ Hr Hok Hs) as (d1 & Hd1 & Hrep). congruence.
Qed.

(** A push and a pop. *)
Lemma di_push_pop d h amount interest d' :
  represents d h -> history_ok h -> Z.of_nat (length h) + 1 < 2 ^ 32 -> is_i64 amount -> is_u64 interest ->
  di_pushBlock d amount interest = Ret d' -> di_popBlock d' = Ret d.
Proof.
  intros Hr Hok Hlen Ha Hi H. destruct (di_push_inv _ _ _ _ _ Hr Hok Hlen Ha Hi H) as [Hr' _].
  destruct (pop_represents d' h _ Hr') as (d1 & Hd1 & Hr1). rewrite Hd1. f_equal.
  destruct Hr as [Hc Hx _], Hr1 as [Hc1 Hx1 _]. destruct d, d1; cbn in *. congruence.
Qed.
