(* ===== verification/ChainStore.v ===== *)
(** The transaction store of the blockchain: [Blockchain::pushTransaction] and
    [Blockchain::popTransaction] of [src/src/CryptoNoteCore/Blockchain.cpp] with the containers
    of [Blockchain.h] they change, and the payment id index of
    [BlockchainIndices.cpp]. *)

From stdpp Require Import gmultiset.
From S2P Require Import Prelude Types Amounts TxChecks BankingIndex.

(** * Data *)

Record TransactionIndex := mkTxIndex { ti_block : Z; ti_transaction : Z }.

Record MultisignatureOutputUsage := mkUsage {
  mu_transactionIndex : TransactionIndex;
  mu_outputIndex : Z;
  mu_isUsed : bool
}.

Record CommitmentOutputRef := mkCommitmentRef {
  cr_transactionIndex : TransactionIndex;
  cr_outputInTransaction : Z;
  cr_commitKey : bytes;
  cr_term : Z;
  cr_isSlashed : bool
}.

Record TransactionEntry := mkTxEntry { te_tx : Transaction; te_global_output_indexes : list Z }.

#[export] Instance TransactionIndex_eq_dec : EqDecision TransactionIndex.
Proof. solve_decision. Defined.

(** The members of [Blockchain] that transactions change.  The unordered multimap of the payment
    id index is a multiset of pairs. *)
Record Store := mkStore {
  m_transactionMap : gmap Hash TransactionIndex;
  m_spent_keys : gmap bytes Z;
  m_outputs : gmap Z (list (TransactionIndex * Z));
  m_multisignatureOutputs : gmap Z (list MultisignatureOutputUsage);
  m_commitmentOutputs : gmap Z (list CommitmentOutputRef);
  m_totalCdLocked : Z;
  m_feePoolBalance : Z;
  m_totalCdInterestPaid : Z;
  m_paymentIdIndex : gmultiset (Hash * Hash)
}.

Definition empty_store : Store := mkStore ∅ ∅ ∅ ∅ ∅ 0 0 0 ∅.

Definition with_map (f : gmap Hash TransactionIndex -> gmap Hash TransactionIndex) (s : Store) : Store :=
  mkStore (f (m_transactionMap s)) (m_spent_keys s) (m_outputs s) (m_multisignatureOutputs s)
    (m_commitmentOutputs s) (m_totalCdLocked s) (m_feePoolBalance s) (m_totalCdInterestPaid s)
    (m_paymentIdIndex s).

Definition with_spent (f : gmap bytes Z -> gmap bytes Z) (s : Store) : Store :=
  mkStore (m_transactionMap s) (f (m_spent_keys s)) (m_outputs s) (m_multisignatureOutputs s)
    (m_commitmentOutputs s) (m_totalCdLocked s) (m_feePoolBalance s) (m_totalCdInterestPaid s)
    (m_paymentIdIndex s).

Definition with_outputs (m : gmap Z (list (TransactionIndex * Z))) (s : Store) : Store :=
  mkStore (m_transactionMap s) (m_spent_keys s) m (m_multisignatureOutputs s)
    (m_commitmentOutputs s) (m_totalCdLocked s) (m_feePoolBalance s) (m_totalCdInterestPaid s)
    (m_paymentIdIndex s).

Definition with_multisig (m : gmap Z (list MultisignatureOutputUsage)) (s : Store) : Store :=
  mkStore (m_transactionMap s) (m_spent_keys s) (m_outputs s) m
    (m_commitmentOutputs s) (m_totalCdLocked s) (m_feePoolBalance s) (m_totalCdInterestPaid s)
    (m_paymentIdIndex s).

Definition with_commitments (m : gmap Z (list CommitmentOutputRef)) (locked : Z) (s : Store) : Store :=
  mkStore (m_transactionMap s) (m_spent_keys s) (m_outputs s) (m_multisignatureOutputs s)
    m locked (m_feePoolBalance s) (m_totalCdInterestPaid s) (m_paymentIdIndex s).

Definition with_deposits (locked pool paid : Z) (s : Store) : Store :=
  mkStore (m_transactionMap s) (m_spent_keys s) (m_outputs s) (m_multisignatureOutputs s)
    (m_commitmentOutputs s) locked pool paid (m_paymentIdIndex s).

Definition with_payment (f : gmultiset (Hash * Hash) -> gmultiset (Hash * Hash)) (s : Store) : Store :=
  mkStore (m_transactionMap s) (m_spent_keys s) (m_outputs s) (m_multisignatureOutputs s)
    (m_commitmentOutputs s) (m_totalCdLocked s) (m_feePoolBalance s) (m_totalCdInterestPaid s)
    (f (m_paymentIdIndex s)).

(** [container[amount].push_back(x)] on a map of vectors: a missing vector is created. *)
Definition map_push {A} (m : gmap Z (list A)) (amount : Z) (x : A) : gmap Z (list A) :=
  <[amount := default [] (m !! amount) ++ [x]]> m.

(** [pop_back] on the vector of an amount, the vector erased when it becomes empty. *)
Definition map_pop {A} (m : gmap Z (list A)) (amount : Z) (v : list A) : gmap Z (list A) :=
  match pop_back v with [] => delete amount m | v' => <[amount := v']> m end.

(** [vector::resize]: shortened, or filled with zeros. *)
Definition vec_resize (l : list Z) (n : nat) : list Z := take n l ++ replicate (n - length l) 0.

(** * The payment id index *)

Definition payment_add (paymentId : option Hash) (transactionHash : Hash) (s : gmultiset (Hash * Hash))
    : bool * gmultiset (Hash * Hash) :=
  match paymentId with
  | None => (false, s)
  | Some p => (true, s ⊎ {[+ (p, transactionHash) +]})
  end.

Definition payment_remove (paymentId : option Hash) (transactionHash : Hash) (s : gmultiset (Hash * Hash))
    : bool * gmultiset (Hash * Hash) :=
  match paymentId with
  | None => (false, s)
  | Some p =>
      if decide ((p, transactionHash) ∈ s) then (true, s ∖ {[+ (p, transactionHash) +]}) else (false, s)
  end.

(** * [pushTransaction] *)

(** Undo of the first loop after a double spend: the inputs before it, newest first.
    [boost::get<KeyInput>] throws on any other input. *)
Fixpoint erase_key_images (earlier : list TransactionInput) (spent : gmap bytes Z) : outcome (gmap bytes Z) :=
  match earlier with
  | [] => Ret spent
  | InKey k :: rest => erase_key_images rest (delete (ki_keyImage k) spent)
  | _ :: _ => Throw "boost::bad_get"
  end.

(** First loop: the key images of the key inputs; [earlier] are the inputs already seen. *)
Fixpoint push_key_inputs (height : Z) (earlier ins : list TransactionInput) (spent : gmap bytes Z)
    : outcome (bool * gmap bytes Z) :=
  match ins with
  | [] => Ret (true, spent)
  | InKey k :: rest =>
      match spent !! ki_keyImage k with
      | Some _ => spent' ← erase_key_images earlier spent; Ret (false, spent')
      | None => push_key_inputs height (InKey k :: earlier) rest (<[ki_keyImage k := height]> spent)
      end
  | i :: rest => push_key_inputs height (i :: earlier) rest spent
  end.

(** [m_multisignatureOutputs[amount][outputIndex].isUsed = used]. *)
Definition set_used (m : gmap Z (list MultisignatureOutputUsage)) (amount outputIndex : Z) (used : bool)
    : outcome (gmap Z (list MultisignatureOutputUsage)) :=
  let v := default [] (m !! amount) in
  u ← vec_at v outputIndex;
  v' ← vec_set v outputIndex (mkUsage (mu_transactionIndex u) (mu_outputIndex u) used);
  Ret (<[amount := v']> m).

(** CD redemption: the locked supply shrinks, claimed interest is paid from the fee pool if
    it can be. *)
Definition redeem (i : TransactionInputCommitmentSpend) (s : Store) : Store :=
  let locked := u64 (m_totalCdLocked s - cs_amount i) in
  if (0 <? cs_claimedInterest i) && (cs_claimedInterest i <=? m_feePoolBalance s)
  then with_deposits locked (u64 (m_feePoolBalance s - cs_claimedInterest i))
         (u64 (m_totalCdInterestPaid s + cs_claimedInterest i)) s
  else with_deposits locked (m_feePoolBalance s) (m_totalCdInterestPaid s) s.

(** Second loop: the other inputs.  On a double spend the loop returns at once and keeps what
    the earlier inputs changed. *)
Fixpoint push_other_inputs (height : Z) (ins : list TransactionInput) (s : Store) : outcome (bool * Store) :=
  match ins with
  | [] => Ret (true, s)
  | InMultisignature i :: rest =>
      m ← set_used (m_multisignatureOutputs s) (mi_amount i) (mi_outputIndex i) true;
      push_other_inputs height rest (with_multisig m s)
  | InCommitmentSpend i :: rest =>
      match m_spent_keys s !! cs_keyImage i with
      | Some _ => Ret (false, s)
      | None =>
          push_other_inputs height rest (redeem i (with_spent <[cs_keyImage i := height]> s))
      end
  | InCommitmentTransfer i :: rest =>
      match m_spent_keys s !! ct_keyImage i with
      | Some _ => Ret (false, s)
      | None => push_other_inputs height rest (with_spent <[ct_keyImage i := height]> s)
      end
  | _ :: rest => push_other_inputs height rest s
  end.

(** One round of the output loop: the new store and the global index of the output, if it has
    one. *)
Definition push_output (ti : TransactionIndex) (output : Z) (o : TransactionOutput) (s : Store)
    : Store * option Z :=
  let amount := out_amount o in
  match out_target o with
  | OutKey _ =>
      (with_outputs (map_push (m_outputs s) amount (ti, output)) s,
       Some (u32 (Z.of_nat (length (default [] (m_outputs s !! amount))))))
  | OutMultisignature _ =>
      (with_multisig (map_push (m_multisignatureOutputs s) amount (mkUsage ti output false)) s,
       Some (u32 (Z.of_nat (length (default [] (m_multisignatureOutputs s !! amount))))))
  | OutCommitment c =>
      (with_commitments
         (map_push (m_commitmentOutputs s) amount (mkCommitmentRef ti output (oc_commitKey c) (oc_term c) false))
         (u64 (m_totalCdLocked s + amount)) s,
       Some (u32 (Z.of_nat (length (default [] (m_commitmentOutputs s !! amount))))))
  | OutUnified _ => (s, None)
  end.

Fixpoint push_outputs (ti : TransactionIndex) (output : nat) (outs : list TransactionOutput) (s : Store)
    (indexes : list Z) : Store * list Z :=
  match outs with
  | [] => (s, indexes)
  | o :: rest =>
      let '(s', g) := push_output ti (Z.of_nat output) o s in
      push_outputs ti (S output) rest s'
        (match g with Some i => <[output := i]> indexes | None => indexes end)
  end.

Section TransactionStore.

(** The payment id in the extra field, and the hash of the serialised transaction. *)
Context (getPaymentId : Transaction -> option Hash) (getObjectHash : Transaction -> Hash).

(** The loop over the outputs counts in 16 bits, so it does not end for 65536 outputs or
    more. *)
Definition pushTransaction (s : Store) (height : Z) (transaction : TransactionEntry)
    (transactionHash : Hash) (transactionIndex : TransactionIndex) : outcome (bool * Store * TransactionEntry) :=
  match m_transactionMap s !! transactionHash with
  | Some _ => Ret (false, s, transaction)
  | None =>
      let s := with_map <[transactionHash := transactionIndex]> s in
      let tx := te_tx transaction in
      if negb (checkMultisignatureInputsDiff tx)
      then Ret (false, with_map (delete transactionHash) s, transaction)
      else
        '(ok, spent) ← push_key_inputs height [] (tx_inputs tx) (m_spent_keys s);
        let s := with_spent (fun _ => spent) s in
        if negb ok then Ret (false, with_map (delete transactionHash) s, transaction)
        else
          '(ok, s) ← push_other_inputs height (tx_inputs tx) s;
          if negb ok then Ret (false, with_map (delete transactionHash) s, transaction)
          else if 65536 <=? Z.of_nat (length (tx_outputs tx)) then Undefined
          else
            let '(s, indexes) :=
              push_outputs transactionIndex 0 (tx_outputs tx) s
                (vec_resize (te_global_output_indexes transaction) (length (tx_outputs tx))) in
            let s := with_payment (fun p => (payment_add (getPaymentId tx) (getObjectHash tx) p).2) s in
            Ret (true, s, mkTxEntry tx indexes)
  end.

(** * [popTransaction] *)

Definition same_index (a b : TransactionIndex) : bool :=
  (ti_block a =? ti_block b) && (ti_transaction a =? ti_transaction b).

(** One round of the output loop; every consistency error is logged and skipped. *)
Definition pop_output (ti : TransactionIndex) (output : Z) (o : TransactionOutput) (s : Store) : Store :=
  let amount := out_amount o in
  match out_target o with
  | OutKey _ =>
      match m_outputs s !! amount with
      | None => s
      | Some v =>
          match last v with
          | None => s
          | Some b =>
              if negb (same_index b.1 ti) then s
              else if negb (b.2 =? output) then s
              else with_outputs (map_pop (m_outputs s) amount v) s
          end
      end
  | OutMultisignature _ =>
      match m_multisignatureOutputs s !! amount with
      | None => s
      | Some v =>
          match last v with
          | None => s
          | Some b =>
              if mu_isUsed b then s
              else if negb (same_index (mu_transactionIndex b) ti) then s
              else if negb (mu_outputIndex b =? output) then s
              else with_multisig (map_pop (m_multisignatureOutputs s) amount v) s
          end
      end
  | OutCommitment _ =>
      match m_commitmentOutputs s !! amount with
      | None => s
      | Some v =>
          match v with
          | [] => s
          | _ =>
              with_commitments (map_pop (m_commitmentOutputs s) amount v)
                (if amount <=? m_totalCdLocked s then u64 (m_totalCdLocked s - amount) else m_totalCdLocked s) s
          end
      end
  | OutUnified _ => s
  end.

(** The outputs, last first. *)
Fixpoint pop_outputs (ti : TransactionIndex) (output : nat) (outs : list TransactionOutput) (s : Store) : Store :=
  match outs with
  | [] => s
  | o :: rest => pop_output ti (Z.of_nat output) o (pop_outputs ti (S output) rest s)
  end.

(** The reverse of [redeem]. *)
Definition unredeem (i : TransactionInputCommitmentSpend) (s : Store) : Store :=
  let locked := u64 (m_totalCdLocked s + cs_amount i) in
  if 0 <? cs_claimedInterest i
  then with_deposits locked (u64 (m_feePoolBalance s + cs_claimedInterest i))
         (if cs_claimedInterest i <=? m_totalCdInterestPaid s
          then u64 (m_totalCdInterestPaid s - cs_claimedInterest i) else m_totalCdInterestPaid s) s
  else with_deposits locked (m_feePoolBalance s) (m_totalCdInterestPaid s) s.

Fixpoint pop_inputs (ins : list TransactionInput) (s : Store) : outcome Store :=
  match ins with
  | [] => Ret s
  | InKey k :: rest => pop_inputs rest (with_spent (delete (ki_keyImage k)) s)
  | InMultisignature i :: rest =>
      m ← set_used (m_multisignatureOutputs s) (mi_amount i) (mi_outputIndex i) false;
      pop_inputs rest (with_multisig m s)
  | InCommitmentSpend i :: rest =>
      pop_inputs rest (unredeem i (with_spent (delete (cs_keyImage i)) s))
  | InCommitmentTransfer i :: rest => pop_inputs rest (with_spent (delete (ct_keyImage i)) s)
  | _ :: rest => pop_inputs rest s
  end.

Definition popTransaction (s : Store) (transaction : Transaction) (transactionHash : Hash) : outcome Store :=
  match m_transactionMap s !! transactionHash with
  | None => Throw "std::out_of_range"
  | Some transactionIndex =>
      let s := pop_outputs transactionIndex 0 (tx_outputs transaction) s in
      s ← pop_inputs (tx_inputs transaction) s;
      let s := with_payment (fun p => (payment_remove (getPaymentId transaction) (getObjectHash transaction) p).2) s in
      Ret (with_map (delete transactionHash) s)
  end.

End TransactionStore.

(** * What the loops do, field by field *)

(** The key images that a transaction spends: those of the first loop, those of the second. *)
Definition ring_image (i : TransactionInput) : list bytes :=
  match i with InKey k => [ki_keyImage k] | _ => [] end.
Definition commitment_image (i : TransactionInput) : list bytes :=
  match i with
  | InCommitmentSpend c => [cs_keyImage c]
  | InCommitmentTransfer c => [ct_keyImage c]
  | _ => []
  end.
Definition ring_images (ins : list TransactionInput) : list bytes := ins ≫= ring_image.
Definition commitment_images (ins : list TransactionInput) : list bytes := ins ≫= commitment_image.

Definition cd_spent (i : TransactionInput) : Z := match i with InCommitmentSpend c => cs_amount c | _ => 0 end.
Definition cd_claimed (i : TransactionInput) : Z :=
  match i with InCommitmentSpend c => cs_claimedInterest c | _ => 0 end.
Definition cd_created (o : TransactionOutput) : Z :=
  match out_target o with OutCommitment _ => out_amount o | _ => 0 end.

Definition multisig_pair (i : TransactionInput) : list (Z * Z) :=
  match i with InMultisignature m => [(mi_amount m, mi_outputIndex m)] | _ => [] end.
Definition multisig_pairs (ins : list TransactionInput) : list (Z * Z) := ins ≫= multisig_pair.

Definition insert_all (height : Z) (ks : list bytes) (m : gmap bytes Z) : gmap bytes Z :=
  foldr (fun k => <[k := height]>) m ks.

Definition delete_all (ks : list bytes) (m : gmap bytes Z) : gmap bytes Z := foldr delete m ks.

Definition with_used (u : bool) (x : MultisignatureOutputUsage) : MultisignatureOutputUsage :=
  mkUsage (mu_transactionIndex x) (mu_outputIndex x) u.

Definition mark (ps : list (Z * Z)) (u : bool) (m : gmap Z (list MultisignatureOutputUsage))
    : gmap Z (list MultisignatureOutputUsage) :=
  map_imap (fun a v => Some (imap (fun i x => if decide ((a, Z.of_nat i) ∈ ps) then with_used u x else x) v)) m.

Lemma insert_all_lookup h ks m k :
  insert_all h ks m !! k = if decide (k ∈ ks) then Some h else m !! k.
Proof.
  induction ks as [| x ks IH]; cbn [insert_all foldr].
  - by rewrite decide_False by (apply not_elem_of_nil).
  - destruct (decide (k = x)) as [-> | Hne].
    + rewrite lookup_insert_eq, decide_True by (apply elem_of_cons; by left). done.
    + rewrite lookup_insert_ne by done. fold (insert_all h ks m). rewrite IH.
      destruct (decide (k ∈ ks)) as [Hin | Hin].
      * by rewrite decide_True by (apply elem_of_cons; by right).
      * by rewrite decide_False by (rewrite elem_of_cons; intros [? | ?]; done).
Qed.

Lemma delete_all_lookup ks m k : delete_all ks m !! k = if decide (k ∈ ks) then None else m !! k.
Proof.
  induction ks as [| x ks IH]; cbn [delete_all foldr].
  - by rewrite decide_False by (apply not_elem_of_nil).
  - destruct (decide (k = x)) as [-> | Hne].
    + rewrite lookup_delete_eq, decide_True by (apply elem_of_cons; by left). done.
    + rewrite lookup_delete_ne by done. fold (delete_all ks m). rewrite IH.
      destruct (decide (k ∈ ks)) as [Hin | Hin].
      * by rewrite decide_True by (apply elem_of_cons; by right).
      * by rewrite decide_False by (rewrite elem_of_cons; intros [? | ?]; done).
Qed.

(** Deleting fresh keys undoes their insertion, whatever the order. *)
Lemma delete_insert_all h ks ds m :
  (forall k, k ∈ ks <-> k ∈ ds) -> (forall k, k ∈ ks -> m !! k = None) ->
  delete_all ds (insert_all h ks m) = m.
Proof.
  intros Hp Hf. apply map_eq. intros k. rewrite delete_all_lookup, insert_all_lookup.
  destruct (decide (k ∈ ds)) as [Hin | Hin].
  - symmetry. apply Hf, Hp, Hin.
  - rewrite decide_False; [done |]. by rewrite Hp.
Qed.

Lemma insert_all_app h ks1 ks2 m : insert_all h (ks1 ++ ks2) m = insert_all h ks1 (insert_all h ks2 m).
Proof. apply foldr_app. Qed.

Lemma insert_all_comm h k ks m : insert_all h ks (<[k := h]> m) = <[k := h]> (insert_all h ks m).
Proof.
  apply map_eq. intros x. rewrite insert_all_lookup. destruct (decide (x = k)) as [-> | Hne].
  - rewrite !lookup_insert_eq. by destruct (decide _).
  - rewrite !lookup_insert_ne, insert_all_lookup by done. done.
Qed.

(** ** Marking multisignature outputs *)

Lemma mark_lookup ps u m a :
  mark ps u m !! a
  = imap (fun i x => if decide ((a, Z.of_nat i) ∈ ps) then with_used u x else x) <$> m !! a.
Proof. unfold mark. rewrite map_lookup_imap. by destruct (m !! a). Qed.

Lemma mark_ext ps1 u1 ps2 u2 m :
  (forall a i x, (m !! a) ≫= (.!! i) = Some x ->
     (if decide ((a, Z.of_nat i) ∈ ps1) then with_used u1 x else x)
     = (if decide ((a, Z.of_nat i) ∈ ps2) then with_used u2 x else x)) ->
  mark ps1 u1 m = mark ps2 u2 m.
Proof.
  intros H. apply map_eq. intros a. rewrite !mark_lookup. destruct (m !! a) as [v |] eqn:E; [| done].
  cbn. f_equal. apply list_eq. intros i. rewrite !list_lookup_imap.
  destruct (v !! i) as [x |] eqn:Ex; [| done]. cbn. f_equal. apply (H a i x). rewrite E. done.
Qed.

Lemma mark_nil u m : mark [] u m = m.
Proof.
  apply map_eq. intros a. rewrite mark_lookup. destruct (m !! a) as [v |]; [| done]. cbn. f_equal.
  apply list_eq. intros i. rewrite list_lookup_imap. destruct (v !! i); [| done]. cbn.
  by rewrite decide_False by apply not_elem_of_nil.
Qed.

Lemma mark_mark ps1 u1 ps2 u2 m :
  mark ps2 u2 (mark ps1 u1 m)
  = map_imap (fun a v => Some (imap (fun i x =>
      if decide ((a, Z.of_nat i) ∈ ps2) then with_used u2 x
      else if decide ((a, Z.of_nat i) ∈ ps1) then with_used u1 x else x) v)) m.
Proof.
  apply map_eq. intros a. rewrite map_lookup_imap, !mark_lookup. destruct (m !! a) as [v |]; [| done].
  cbn. f_equal. apply list_eq. intros i. rewrite !list_lookup_imap. destruct (v !! i) as [x |]; [| done].
  cbn. f_equal. by destruct (decide ((a, Z.of_nat i) ∈ ps1)), (decide ((a, Z.of_nat i) ∈ ps2)).
Qed.

Lemma mark_cons p ps u m : mark ps u (mark [p] u m) = mark (p :: ps) u m.
Proof.
  rewrite mark_mark. apply map_eq. intros a. rewrite mark_lookup, map_lookup_imap.
  destruct (m !! a) as [v |]; [| done]. cbn. f_equal. apply list_eq. intros i. rewrite !list_lookup_imap.
  destruct (v !! i) as [x |]; [| done]. cbn. f_equal.
  destruct (decide ((a, Z.of_nat i) ∈ ps)) as [H1 | H1].
  - by rewrite decide_True by (apply elem_of_cons; by right).
  - destruct (decide ((a, Z.of_nat i) = p)) as [-> | Hne].
    + by rewrite !decide_True by (apply elem_of_cons; by left).
    + rewrite !decide_False; [done | |]; rewrite elem_of_cons; intros [? | Hn]; try done.
      by apply elem_of_nil in Hn.
Qed.

(** The usage record that a multisignature input points to. *)
Definition usage_at (m : gmap Z (list MultisignatureOutputUsage)) (p : Z * Z) : option MultisignatureOutputUsage :=
  if p.2 <? 0 then None else (m !! p.1) ≫= (.!! Z.to_nat p.2).

Lemma set_used_some m a i u x :
  usage_at m (a, i) = Some x -> set_used m a i u = Ret (mark [(a, i)] u m).
Proof.
  unfold usage_at, set_used. cbn [fst snd]. destruct (Z.ltb_spec i 0) as [| Hi]; [done |].
  destruct (m !! a) as [v |] eqn:E; [| done]. intros Hx. cbn in Hx.
  change (default [] (Some v)) with v. cbv zeta.
  rewrite (vec_at_lookup v i x Hi Hx), outcome_bind_ret. unfold vec_set.
  pose proof (lookup_lt_Some _ _ _ Hx). destruct (Z.leb_spec 0 i); [| lia].
  destruct (Z.ltb_spec i (Z.of_nat (length v))); [| lia]. cbn [andb]. rewrite outcome_bind_ret.
  f_equal. apply map_eq. intros b. rewrite mark_lookup. destruct (decide (b = a)) as [-> | Hne].
  - rewrite lookup_insert_eq, E. cbn. f_equal. apply list_eq. intros j. rewrite list_lookup_imap.
    destruct (decide (j = Z.to_nat i)) as [-> | Hj].
    + rewrite list_lookup_insert_eq, Hx by done. cbn.
      rewrite decide_True; [done |]. rewrite Z2Nat.id by done. by constructor.
    + rewrite list_lookup_insert_ne by done. destruct (v !! j); [| done]. cbn.
      rewrite decide_False; [done |]. intros [= Hj']%list_elem_of_singleton. lia.
  - rewrite lookup_insert_ne by done. destruct (m !! b) as [w |]; [| done]. cbn. f_equal.
    apply list_eq. intros j. rewrite list_lookup_imap. destruct (w !! j); [| done]. cbn.
    rewrite decide_False; [done |]. intros [= Hj' _]%list_elem_of_singleton. done.
Qed.

Lemma set_used_inv m a i u m' :
  set_used m a i u = Ret m' -> is_Some (usage_at m (a, i)) /\ m' = mark [(a, i)] u m.
Proof.
  intros H. assert (Hx : is_Some (usage_at m (a, i))).
  { unfold set_used in H. apply outcome_bind_inv in H as (x & Hx & _). apply vec_at_Ret in Hx as [Hi Hx].
    unfold usage_at. cbn [fst snd]. destruct (Z.ltb_spec i 0); [lia |]. destruct (m !! a); [by eexists | done]. }
  split; [done |]. destruct Hx as [x Hx]. rewrite (set_used_some _ _ _ _ _ Hx) in H. by injection H.
Qed.

Lemma usage_at_mark m ps u p :
  usage_at (mark ps u m) p = (fun x => if decide (p ∈ ps) then with_used u x else x) <$> usage_at m p.
Proof.
  destruct p as [a i]. unfold usage_at. cbn [fst snd]. destruct (Z.ltb_spec i 0); [done |].
  rewrite mark_lookup. destruct (m !! a) as [v |]; [| done]. cbn. rewrite list_lookup_imap.
  destruct (v !! Z.to_nat i); [| done]. cbn. by rewrite Z2Nat.id by done.
Qed.

Lemma mark_unmark ps m :
  Forall (fun p => forall x, usage_at m p = Some x -> mu_isUsed x = false) ps ->
  mark ps false (mark ps true m) = m.
Proof.
  intros Hu. rewrite mark_mark. rewrite <- (mark_nil true m) at 2. unfold mark. apply map_eq. intros a.
  rewrite !map_lookup_imap. destruct (m !! a) as [v |] eqn:E; [| done]. cbn. f_equal. apply list_eq.
  intros i. rewrite !list_lookup_imap. destruct (v !! i) as [x |] eqn:Ex; [| done]. cbn. f_equal.
  rewrite (decide_False (P := _ ∈ [])) by apply not_elem_of_nil.
  destruct (decide ((a, Z.of_nat i) ∈ ps)) as [Hin |]; [| done].
  rewrite Forall_forall in Hu. specialize (Hu _ Hin x). unfold usage_at in Hu. cbn [fst snd] in Hu.
  rewrite E, Nat2Z.id in Hu. destruct (Z.ltb_spec (Z.of_nat i) 0); [lia |]. cbn in Hu.
  specialize (Hu Ex). destruct x as [t o b]. cbn in Hu. by rewrite Hu.
Qed.

(** ** The input loops *)

Lemma fresh_step (h : Z) (k : bytes) (ks : list bytes) (spent : gmap bytes Z) :
  spent !! k = None -> NoDup ks -> Forall (fun x => <[k := h]> spent !! x = None) ks ->
  NoDup (k :: ks) /\ Forall (fun x => spent !! x = None) (k :: ks).
Proof.
  intros Hk Hnd Hf. assert (Hf' : forall x, x ∈ ks -> x <> k /\ spent !! x = None).
  { intros x Hx. rewrite Forall_forall in Hf. specialize (Hf x Hx).
    destruct (decide (x = k)) as [-> | Hne]; [by rewrite lookup_insert_eq in Hf |].
    split; [done |]. by rewrite lookup_insert_ne in Hf. }
  split; (constructor; [| try done]).
  - intros Hin. by destruct (Hf' _ Hin).
  - done.
  - apply Forall_forall. intros x Hx. by apply Hf'.
Qed.

Lemma push_key_inputs_inv h ins earlier spent spent' :
  push_key_inputs h earlier ins spent = Ret (true, spent') ->
  spent' = insert_all h (ring_images ins) spent
  /\ NoDup (ring_images ins) /\ Forall (fun k => spent !! k = None) (ring_images ins).
Proof.
  revert earlier spent. induction ins as [| i ins IH]; intros earlier spent H; cbn [push_key_inputs] in H.
  - injection H as <-. split; [done |]. split; constructor.
  - destruct i as [b | k | m | c | c | u]; try (eapply IH; exact H).
    change (ring_images (InKey k :: ins)) with (ki_keyImage k :: ring_images ins).
    destruct (spent !! ki_keyImage k) as [h0 |] eqn:E.
    + apply outcome_bind_inv in H as (sp & _ & H). done.
    + apply IH in H as (-> & Hnd & Hf). split; [by rewrite insert_all_comm | by eapply fresh_step].
Qed.

Lemma redeem_spent i s : m_spent_keys (redeem i s) = m_spent_keys s.
Proof. unfold redeem. by destruct (_ && _). Qed.

Lemma push_other_inputs_images h ins s s' :
  push_other_inputs h ins s = Ret (true, s') ->
  m_spent_keys s' = insert_all h (commitment_images ins) (m_spent_keys s)
  /\ NoDup (commitment_images ins) /\ Forall (fun k => m_spent_keys s !! k = None) (commitment_images ins).
Proof.
  revert s. induction ins as [| i ins IH]; intros s H; cbn [push_other_inputs] in H.
  - injection H as <-. split; [done |]. split; constructor.
  - destruct i as [b | k | m | c | c | u]; try (eapply IH; exact H).
    + apply outcome_bind_inv in H as (ms & _ & H). apply IH in H. exact H.
    + change (commitment_images (InCommitmentSpend c :: ins)) with (cs_keyImage c :: commitment_images ins).
      destruct (m_spent_keys s !! cs_keyImage c) eqn:E; [done |].
      apply IH in H. rewrite redeem_spent in H. cbn [with_spent m_spent_keys] in H. destruct H as (-> & Hnd & Hf).
      split; [by rewrite insert_all_comm | by eapply fresh_step].
    + change (commitment_images (InCommitmentTransfer c :: ins)) with (ct_keyImage c :: commitment_images ins).
      destruct (m_spent_keys s !! ct_keyImage c) eqn:E; [done |].
      apply IH in H as (-> & Hnd & Hf). cbn [with_spent m_spent_keys] in *.
      split; [by rewrite insert_all_comm | by eapply fresh_step].
Qed.

(** The store with the fields that inputs change replaced. *)
Definition with_inputs (spent : gmap bytes Z) (ms : gmap Z (list MultisignatureOutputUsage))
    (locked pool paid : Z) (s : Store) : Store :=
  mkStore (m_transactionMap s) spent (m_outputs s) ms (m_commitmentOutputs s) locked pool paid
    (m_paymentIdIndex s).

(** Room for the deposits that the inputs redeem: they are locked, and the pool can pay what they
    claim. *)
Record redeemable (ins : list TransactionInput) (s : Store) : Prop := {
  rd_locked : sumZ (map cd_spent ins) <= m_totalCdLocked s < 2 ^ 64;
  rd_pool : sumZ (map cd_claimed ins) <= m_feePoolBalance s < 2 ^ 64;
  rd_paid : 0 <= m_totalCdInterestPaid s /\ m_totalCdInterestPaid s + sumZ (map cd_claimed ins) < 2 ^ 64
}.

Lemma inputs_nonneg ins :
  Forall input_wf ins -> 0 <= sumZ (map cd_spent ins) /\ 0 <= sumZ (map cd_claimed ins).
Proof.
  intros H. split; apply sumZ_nonneg, Forall_map; (eapply Forall_impl; [exact H |]);
    intros [] Hi; cbn in *; unfold is_u64 in *; lia.
Qed.

Lemma redeem_exact i s :
  is_u64 (cs_amount i) -> is_u64 (cs_claimedInterest i) ->
  cs_amount i <= m_totalCdLocked s < 2 ^ 64 -> cs_claimedInterest i <= m_feePoolBalance s < 2 ^ 64 ->
  0 <= m_totalCdInterestPaid s -> m_totalCdInterestPaid s + cs_claimedInterest i < 2 ^ 64 ->
  redeem i s = with_deposits (m_totalCdLocked s - cs_amount i) (m_feePoolBalance s - cs_claimedInterest i)
                 (m_totalCdInterestPaid s + cs_claimedInterest i) s.
Proof.
  unfold is_u64. intros. unfold redeem. rewrite (u64_small (m_totalCdLocked s - _)) by lia.
  destruct (Z.ltb_spec 0 (cs_claimedInterest i)) as [Hp | Hp]; cbn [andb].
  - destruct (Z.leb_spec (cs_claimedInterest i) (m_feePoolBalance s)); [| lia].
    by rewrite !u64_small by lia.
  - f_equal; lia.
Qed.

Lemma unredeem_exact i s :
  is_u64 (cs_amount i) -> is_u64 (cs_claimedInterest i) ->
  0 <= m_totalCdLocked s -> m_totalCdLocked s + cs_amount i < 2 ^ 64 ->
  0 <= m_feePoolBalance s -> m_feePoolBalance s + cs_claimedInterest i < 2 ^ 64 ->
  cs_claimedInterest i <= m_totalCdInterestPaid s < 2 ^ 64 ->
  unredeem i s = with_deposits (m_totalCdLocked s + cs_amount i) (m_feePoolBalance s + cs_claimedInterest i)
                   (m_totalCdInterestPaid s - cs_claimedInterest i) s.
Proof.
  unfold is_u64. intros. unfold unredeem. rewrite (u64_small (m_totalCdLocked s + _)) by lia.
  destruct (Z.ltb_spec 0 (cs_claimedInterest i)) as [Hp | Hp].
  - destruct (Z.leb_spec (cs_claimedInterest i) (m_totalCdInterestPaid s)); [| lia].
    by rewrite !u64_small by lia.
  - f_equal; lia.
Qed.

Lemma push_other_inputs_inv h ins s s' :
  Forall input_wf ins -> redeemable ins s -> push_other_inputs h ins s = Ret (true, s') ->
  s' = with_inputs (m_spent_keys s') (mark (multisig_pairs ins) true (m_multisignatureOutputs s))
         (m_totalCdLocked s - sumZ (map cd_spent ins)) (m_feePoolBalance s - sumZ (map cd_claimed ins))
         (m_totalCdInterestPaid s + sumZ (map cd_claimed ins)) s
  /\ Forall (fun p => is_Some (usage_at (m_multisignatureOutputs s) p)) (multisig_pairs ins).
Proof.
  revert s. induction ins as [| i ins IH]; intros s Hwf [Hl Hp Hi] H; cbn [push_other_inputs] in H.
  - injection H as <-. cbn. rewrite mark_nil, !Z.sub_0_r, Z.add_0_r. split; [by destruct s | constructor].
  - apply Forall_cons in Hwf as [Hi0 Hwf]. pose proof (inputs_nonneg ins Hwf) as [Hn1 Hn2].
    cbn [map sumZ foldr] in Hl, Hp, Hi. fold (sumZ (map cd_spent ins)) in Hl.
    fold (sumZ (map cd_claimed ins)) in Hp, Hi.
    change (sumZ (map cd_spent (i :: ins))) with (cd_spent i + sumZ (map cd_spent ins)).
    change (sumZ (map cd_claimed (i :: ins))) with (cd_claimed i + sumZ (map cd_claimed ins)).
    destruct i as [b | k | m | c | c | u]; cbn [cd_spent cd_claimed] in *;
      try (rewrite !Z.add_0_l; apply IH; [done | by constructor | exact H]).
    + apply outcome_bind_inv in H as (ms & Hms & H). apply set_used_inv in Hms as [Hs ->].
      apply IH in H; [| done | by constructor].
      change (multisig_pairs (InMultisignature m :: ins)) with ((mi_amount m, mi_outputIndex m) :: multisig_pairs ins).
      cbn [with_multisig m_multisignatureOutputs m_totalCdLocked m_feePoolBalance m_totalCdInterestPaid] in H.
      rewrite mark_cons in H. rewrite !Z.add_0_l. destruct H as [H Hf]. split; [exact H |].
      constructor; [done |]. eapply Forall_impl; [exact Hf |]. intros p [x Hx].
      rewrite usage_at_mark in Hx. destruct (usage_at (m_multisignatureOutputs s) p); [by eexists | done].
    + destruct (m_spent_keys s !! cs_keyImage c); [done |]. destruct Hi0 as (Ha & _ & Hc).
      unfold is_u64 in Ha, Hc. rewrite redeem_exact in H by (cbn; unfold is_u64; lia).
      apply IH in H; [| done | constructor; cbn; lia]. cbn in H |- *. destruct H as [H Hf].
      split; [| exact Hf]. rewrite H. unfold with_inputs. cbn. f_equal; lia.
    + destruct (m_spent_keys s !! ct_keyImage c); [done |].
      apply IH in H; [| done | by constructor]. rewrite !Z.add_0_l. exact H.
Qed.

Definition spent_image (i : TransactionInput) : list bytes := ring_image i ++ commitment_image i.
Definition spent_images (ins : list TransactionInput) : list bytes := ins ≫= spent_image.

Lemma spent_images_split ins k :
  k ∈ ring_images ins ++ commitment_images ins <-> k ∈ spent_images ins.
Proof.
  rewrite elem_of_app. unfold ring_images, commitment_images, spent_images. rewrite !list_elem_of_bind.
  unfold spent_image. split.
  - intros [(i & Hk & Hi) | (i & Hk & Hi)]; exists i; (split; [apply elem_of_app; auto | done]).
  - intros (i & [Hk | Hk]%elem_of_app & Hi); [left | right]; by exists i.
Qed.

Lemma delete_all_comm k ks m : delete_all ks (delete k m) = delete k (delete_all ks m).
Proof.
  apply map_eq. intros x. rewrite delete_all_lookup. destruct (decide (x = k)) as [-> | Hne].
  - rewrite !lookup_delete_eq. by destruct (decide _).
  - rewrite !lookup_delete_ne, delete_all_lookup by done. done.
Qed.

Lemma pop_inputs_exact ins s :
  Forall input_wf ins ->
  0 <= m_totalCdLocked s -> m_totalCdLocked s + sumZ (map cd_spent ins) < 2 ^ 64 ->
  0 <= m_feePoolBalance s -> m_feePoolBalance s + sumZ (map cd_claimed ins) < 2 ^ 64 ->
  sumZ (map cd_claimed ins) <= m_totalCdInterestPaid s < 2 ^ 64 ->
  Forall (fun p => is_Some (usage_at (m_multisignatureOutputs s) p)) (multisig_pairs ins) ->
  pop_inputs ins s
  = Ret (with_inputs (delete_all (spent_images ins) (m_spent_keys s))
           (mark (multisig_pairs ins) false (m_multisignatureOutputs s))
           (m_totalCdLocked s + sumZ (map cd_spent ins)) (m_feePoolBalance s + sumZ (map cd_claimed ins))
           (m_totalCdInterestPaid s - sumZ (map cd_claimed ins)) s).
Proof.
  revert s. induction ins as [| i ins IH]; intros s Hwf Hl Hl' Hp Hp' Hi Hu; cbn [pop_inputs].
  - cbn. rewrite mark_nil, !Z.sub_0_r, !Z.add_0_r. by destruct s.
  - apply Forall_cons in Hwf as [Hi0 Hwf]. pose proof (inputs_nonneg ins Hwf) as [Hn1 Hn2].
    change (sumZ (map cd_spent (i :: ins))) with (cd_spent i + sumZ (map cd_spent ins)) in *.
    change (sumZ (map cd_claimed (i :: ins))) with (cd_claimed i + sumZ (map cd_claimed ins)) in *.
    destruct i as [b | k | m | c | c | u]; cbn [cd_spent cd_claimed] in *; rewrite ?Z.add_0_l in *.
    + by apply IH.
    + change (spent_images (InKey k :: ins)) with (ki_keyImage k :: spent_images ins).
      rewrite IH by done. cbn [with_spent m_spent_keys]. by rewrite delete_all_comm.
    + change (multisig_pairs (InMultisignature m :: ins)) with ((mi_amount m, mi_outputIndex m) :: multisig_pairs ins) in *.
      apply Forall_cons in Hu as [[x Hx] Hu]. rewrite (set_used_some _ _ _ _ _ Hx), outcome_bind_ret.
      rewrite IH; try done.
      * cbn [with_multisig m_multisignatureOutputs]. by rewrite mark_cons.
      * cbn [with_multisig m_multisignatureOutputs]. eapply Forall_impl; [exact Hu |]. intros p [y Hy].
        rewrite usage_at_mark, Hy. by eexists.
    + destruct Hi0 as (Ha & _ & Hc). unfold is_u64 in Ha, Hc.
      rewrite unredeem_exact by (cbn; unfold is_u64; lia). rewrite IH; cbn; try done; try lia.
      change (spent_images (InCommitmentSpend c :: ins)) with (cs_keyImage c :: spent_images ins).
      rewrite delete_all_comm. unfold with_inputs. cbn. do 2 f_equal; lia.
    + change (spent_images (InCommitmentTransfer c :: ins)) with (ct_keyImage c :: spent_images ins).
      rewrite IH by done. cbn [with_spent m_spent_keys]. by rewrite delete_all_comm.
    + by apply IH.
Qed.

(** ** The output loops *)

(** No amount has an empty vector. *)
Definition no_empty {A} (m : gmap Z (list A)) : Prop := map_Forall (fun _ v => v <> []) m.

Record store_wf (s : Store) : Prop := {
  sw_outputs : no_empty (m_outputs s);
  sw_multisig : no_empty (m_multisignatureOutputs s);
  sw_commitments : no_empty (m_commitmentOutputs s)
}.

Lemma map_push_no_empty {A} (m : gmap Z (list A)) a x : no_empty m -> no_empty (map_push m a x).
Proof. intros H. apply map_Forall_insert_2; [| done]. by destruct (default [] (m !! a)). Qed.

Lemma map_push_lookup {A} (m : gmap Z (list A)) a x :
  map_push m a x !! a = Some (default [] (m !! a) ++ [x]).
Proof. apply lookup_insert_eq. Qed.

Lemma map_pop_push {A} (m : gmap Z (list A)) a x :
  no_empty m -> map_pop (map_push m a x) a (default [] (m !! a) ++ [x]) = m.
Proof.
  intros Hne. unfold map_pop, map_push. rewrite pop_back_snoc. destruct (m !! a) as [v |] eqn:E.
  - cbn. pose proof (Hne a v E). destruct v as [| y v]; [done |].
    rewrite insert_insert_eq. by apply insert_id.
  - cbn. by rewrite delete_insert_id.
Qed.

Lemma push_output_wf ti k o s : store_wf s -> store_wf (push_output ti k o s).1.
Proof.
  intros [H1 H2 H3]. unfold push_output. destruct (out_target o); constructor; cbn; try done;
    by apply map_push_no_empty.
Qed.

Lemma same_index_refl t : same_index t t = true.
Proof. unfold same_index. by rewrite !Z.eqb_refl. Qed.

Lemma pop_push_output ti k o s :
  store_wf s -> 0 <= out_amount o -> 0 <= m_totalCdLocked s -> m_totalCdLocked s + cd_created o < 2 ^ 64 ->
  pop_output ti k o (push_output ti k o s).1 = s.
Proof.
  intros [Ho Hm Hc] Ha Hl Hl'. unfold push_output, pop_output, cd_created in *.
  destruct (out_target o) as [ko | mo | co | uo]; cbn [fst].
  - cbn [with_outputs m_outputs]. rewrite map_push_lookup, last_snoc. cbn [fst snd].
    rewrite same_index_refl, Z.eqb_refl. cbn [negb]. rewrite map_pop_push by done. by destruct s.
  - cbn [with_multisig m_multisignatureOutputs]. rewrite map_push_lookup, last_snoc. cbn [mu_isUsed mu_transactionIndex mu_outputIndex].
    rewrite same_index_refl, Z.eqb_refl. cbn [negb]. rewrite map_pop_push by done. by destruct s.
  - cbn [with_commitments m_commitmentOutputs m_totalCdLocked]. rewrite map_push_lookup.
    destruct (default [] (m_commitmentOutputs s !! out_amount o) ++ _) as [| y v] eqn:Ev;
      [by destruct (default [] (m_commitmentOutputs s !! out_amount o)) |].
    rewrite <- Ev, map_pop_push by done. rewrite (u64_small (_ + _)) by lia.
    destruct (Z.leb_spec (out_amount o) (m_totalCdLocked s + out_amount o)); [| lia].
    rewrite u64_small by lia. replace (m_totalCdLocked s + out_amount o - out_amount o) with (m_totalCdLocked s) by lia.
    by destruct s.
  - done.
Qed.

Lemma push_output_locked ti k o s :
  0 <= out_amount o -> 0 <= m_totalCdLocked s -> m_totalCdLocked s + cd_created o < 2 ^ 64 ->
  m_totalCdLocked (push_output ti k o s).1 = m_totalCdLocked s + cd_created o.
Proof.
  intros. unfold push_output, cd_created in *. destruct (out_target o); cbn; try lia.
  apply u64_small. lia.
Qed.

Lemma cd_created_nonneg outs :
  Forall (fun o => 0 <= out_amount o) outs -> 0 <= sumZ (map cd_created outs).
Proof.
  intros H. apply sumZ_nonneg, Forall_map. eapply Forall_impl; [exact H |]. intros o Ho.
  cbn beta in Ho. unfold cd_created. destruct (out_target o); lia.
Qed.

Lemma pop_push_outputs ti outs n s indexes :
  store_wf s -> Forall (fun o => 0 <= out_amount o) outs -> 0 <= m_totalCdLocked s ->
  m_totalCdLocked s + sumZ (map cd_created outs) < 2 ^ 64 ->
  pop_outputs ti n outs (push_outputs ti n outs s indexes).1 = s.
Proof.
  revert n s indexes. induction outs as [| o outs IH]; intros n s indexes Hwf Ha Hl Hl'; [done |].
  apply Forall_cons in Ha as [Ha Has]. pose proof (cd_created_nonneg outs Has) as Hn.
  change (sumZ (map cd_created (o :: outs))) with (cd_created o + sumZ (map cd_created outs)) in Hl'.
  assert (Hco : 0 <= cd_created o) by (unfold cd_created; destruct (out_target o); lia).
  cbn [push_outputs pop_outputs]. destruct (push_output ti (Z.of_nat n) o s) as [s1 g] eqn:E.
  assert (Hs1 : s1 = (push_output ti (Z.of_nat n) o s).1) by (by rewrite E).
  rewrite IH.
  - rewrite Hs1. apply pop_push_output; [done.. | lia].
  - rewrite Hs1. by apply push_output_wf.
  - done.
  - rewrite Hs1, push_output_locked; lia.
  - rewrite Hs1, push_output_locked; lia.
Qed.

(** The output loop leaves the fields of the other loops alone. *)
Lemma push_output_frame ti k o s :
  let s' := (push_output ti k o s).1 in
  m_transactionMap s' = m_transactionMap s /\ m_spent_keys s' = m_spent_keys s
  /\ m_paymentIdIndex s' = m_paymentIdIndex s.
Proof. unfold push_output. by destruct (out_target o). Qed.

Lemma push_outputs_frame ti outs n s indexes :
  let s' := (push_outputs ti n outs s indexes).1 in
  m_transactionMap s' = m_transactionMap s /\ m_spent_keys s' = m_spent_keys s
  /\ m_paymentIdIndex s' = m_paymentIdIndex s.
Proof.
  revert n s indexes. induction outs as [| o outs IH]; intros n s indexes; [done |]. cbn [push_outputs].
  pose proof (push_output_frame ti (Z.of_nat n) o s) as Hf.
  destruct (push_output ti (Z.of_nat n) o s) as [s1 g]. cbn [fst] in Hf. destruct Hf as (<- & <- & <-). apply IH.
Qed.

(** [popTransaction] of the outputs does not look at the payment index or the map. *)
Lemma pop_output_payment ti k o f s : pop_output ti k o (with_payment f s) = with_payment f (pop_output ti k o s).
Proof.
  unfold pop_output. destruct (out_target o); cbn [with_payment m_outputs m_multisignatureOutputs m_commitmentOutputs m_totalCdLocked];
    repeat case_match; done.
Qed.

Lemma pop_outputs_payment ti outs n f s : pop_outputs ti n outs (with_payment f s) = with_payment f (pop_outputs ti n outs s).
Proof.
  revert n. induction outs as [| o outs IH]; intros n; [done |]. cbn [pop_outputs]. by rewrite IH, pop_output_payment.
Qed.

Lemma with_inputs_wf spent ms locked pool paid s :
  store_wf s -> no_empty ms -> store_wf (with_inputs spent ms locked pool paid s).
Proof. intros [H1 H2 H3] Hm. by constructor. Qed.

Lemma mark_no_empty ps u m : no_empty m -> no_empty (mark ps u m).
Proof.
  intros H a v Hv. rewrite mark_lookup in Hv. destruct (m !! a) as [w |] eqn:E; [| done].
  injection Hv as <-. pose proof (H a w E). by destruct w.
Qed.

Lemma payment_remove_add p h s : (payment_remove p h (payment_add p h s).2).2 = s.
Proof.
  destruct p as [p |]; [| done]. unfold payment_add. cbn. rewrite decide_True by multiset_solver.
  cbn. multiset_solver.
Qed.

(** Room for a transaction: what it redeems is locked and payable, what it creates fits. *)
Record admissible (tx : Transaction) (s : Store) : Prop := {
  ad_wf : tx_wf tx;
  ad_redeemable : redeemable (tx_inputs tx) s;
  ad_created : m_totalCdLocked s + sumZ (map cd_created (tx_outputs tx)) < 2 ^ 64;
  ad_unused : Forall (fun p => forall x, usage_at (m_multisignatureOutputs s) p = Some x -> mu_isUsed x = false)
                (multisig_pairs (tx_inputs tx))
}.

Lemma pushTransaction_inv pid oh s h e hash ti s' e' :
  pushTransaction pid oh s h e hash ti = Ret (true, s', e') ->
  exists s1, m_transactionMap s !! hash = None
    /\ NoDup (ring_images (tx_inputs (te_tx e)))
    /\ Forall (fun k => m_spent_keys s !! k = None) (ring_images (tx_inputs (te_tx e)))
    /\ push_other_inputs h (tx_inputs (te_tx e))
         (with_spent (insert_all h (ring_images (tx_inputs (te_tx e)))) (with_map <[hash := ti]> s)) = Ret (true, s1)
    /\ s' = with_payment (fun p => (payment_add (pid (te_tx e)) (oh (te_tx e)) p).2)
              (push_outputs ti 0 (tx_outputs (te_tx e)) s1
                 (vec_resize (te_global_output_indexes e) (length (tx_outputs (te_tx e))))).1.
Proof.
  unfold pushTransaction. destruct (m_transactionMap s !! hash) eqn:Em; [done |].
  destruct (checkMultisignatureInputsDiff (te_tx e)); [| done]. cbn [negb]. intros H.
  apply outcome_bind_inv in H as ([ok spent] & Hk & H). cbn [with_map m_spent_keys] in Hk.
  destruct ok; [| done]. apply push_key_inputs_inv in Hk as (-> & Hnd & Hf). cbn [negb] in H.
  apply outcome_bind_inv in H as ([ok s1] & Ho & H). destruct ok; [| done]. cbn [negb] in H.
  destruct (65536 <=? _); [done |]. destruct (push_outputs _ _ _ _ _) as [s2 idx] eqn:E.
  injection H as <- <-. exists s1. by rewrite E.
Qed.

Lemma pop_push_transaction pid oh s h e hash ti s' e' :
  store_wf s -> admissible (te_tx e) s ->
  pushTransaction pid oh s h e hash ti = Ret (true, s', e') ->
  popTransaction pid oh s' (te_tx e) hash = Ret s.
Proof.
  intros Hwf [Htx Hred Hcr Hun] H. apply pushTransaction_inv in H as (s1 & Hm & Hnd & Hf & Ho & ->).
  set (tx := te_tx e) in *. pose proof (tx_wf_inputs tx Htx) as Hins. pose proof Hred as [Hrl Hrp Hri].
  pose proof (inputs_nonneg (tx_inputs tx) Hins) as [Hn1 Hn2].
  pose proof (push_other_inputs_images _ _ _ _ Ho) as (Himg & Hnd2 & Hf2).
  cbn [with_spent with_map m_spent_keys] in Himg, Hf2.
  apply push_other_inputs_inv in Ho as [Ho Hus]; [| done | by constructor].
  cbn [with_spent with_map m_multisignatureOutputs m_totalCdLocked m_feePoolBalance m_totalCdInterestPaid] in Ho, Hus.
  generalize dependent (m_spent_keys s1). intros sp Ho Himg. subst s1.
  set (s1 := with_inputs _ _ _ _ _ _) in *.
  set (idx := vec_resize _ _). pose proof (push_outputs_frame ti (tx_outputs tx) 0 s1 idx) as (Hpm & _ & _).
  unfold popTransaction. cbn [with_payment m_transactionMap]. rewrite Hpm.
  unfold s1 at 1. cbn [with_inputs with_spent with_map m_transactionMap]. rewrite lookup_insert_eq.
  rewrite pop_outputs_payment, pop_push_outputs.
  - rewrite pop_inputs_exact; cbn; [| done | try lia..].
    + unfold with_payment, with_inputs, with_map. cbn.
      rewrite payment_remove_add, Himg, mark_unmark by done.
      rewrite <- insert_all_app, delete_insert_all.
      * rewrite delete_insert_id by done. f_equal. destruct s; cbn in *. f_equal; lia.
      * intros k. rewrite <- spent_images_split, !elem_of_app. tauto.
      * intros k. rewrite Forall_forall in Hf, Hf2. intros [Hk | Hk]%elem_of_app; [| by apply Hf].
        specialize (Hf2 k Hk). rewrite insert_all_lookup in Hf2. by destruct (decide _).
    + eapply Forall_impl; [exact Hus |]. intros p [x Hx]. rewrite usage_at_mark, Hx. by eexists.
  - apply with_inputs_wf; [by destruct Hwf |]. apply mark_no_empty, Hwf.
  - eapply Forall_impl; [apply (tx_wf_outputs tx Htx) |]. intros o [Hoa _]. unfold is_u64 in Hoa. lia.
  - cbn. lia.
  - cbn. lia.
Qed.

(** * Double spending *)

Lemma spent_images_perm ins : spent_images ins ≡ₚ ring_images ins ++ commitment_images ins.
Proof.
  induction ins as [| i ins IH]; [done |].
  change (spent_images (i :: ins)) with ((ring_image i ++ commitment_image i) ++ spent_images ins).
  change (ring_images (i :: ins)) with (ring_image i ++ ring_images ins).
  change (commitment_images (i :: ins)) with (commitment_image i ++ commitment_images ins).
  rewrite IH. solve_Permutation.
Qed.

(** What an accepted transaction spends was unspent, and is spent afterwards. *)
Lemma push_accepted_images pid oh s h e hash ti s' e' :
  pushTransaction pid oh s h e hash ti = Ret (true, s', e') ->
  NoDup (spent_images (tx_inputs (te_tx e)))
  /\ Forall (fun k => m_spent_keys s !! k = None) (spent_images (tx_inputs (te_tx e)))
  /\ forall k, m_spent_keys s' !! k
       = if decide (k ∈ spent_images (tx_inputs (te_tx e))) then Some h else m_spent_keys s !! k.
Proof.
  intros H. apply pushTransaction_inv in H as (s1 & _ & Hnd & Hf & Ho & ->).
  apply push_other_inputs_images in Ho as (Himg & Hnd2 & Hf2). cbn [with_spent with_map m_spent_keys] in *.
  rewrite Forall_forall in Hf, Hf2.
  assert (Hfresh : forall k, k ∈ commitment_images (tx_inputs (te_tx e)) ->
            (k ∉ ring_images (tx_inputs (te_tx e))) /\ m_spent_keys s !! k = None).
  { intros k Hk. specialize (Hf2 k Hk). rewrite insert_all_lookup in Hf2. by destruct (decide _). }
  split; [| split].
  - rewrite spent_images_perm. apply NoDup_app. split; [done |]. split; [| done].
    intros k Hk Hk2. by destruct (Hfresh k Hk2).
  - apply Forall_forall. intros k. rewrite spent_images_perm, elem_of_app. intros [Hk | Hk]; [by apply Hf |].
    by apply Hfresh.
  - intros k. cbn [with_payment m_spent_keys]. edestruct push_outputs_frame as (_ & -> & _).
    rewrite Himg, <- insert_all_app, insert_all_lookup. f_equal. apply decide_ext.
    rewrite spent_images_perm, !elem_of_app. tauto.
Qed.

Lemma erase_key_images_keeps earlier spent spent' k v :
  erase_key_images earlier spent = Ret spent' -> k ∉ ring_images earlier ->
  spent !! k = Some v -> spent' !! k = Some v.
Proof.
  revert spent. induction earlier as [| i earlier IH]; intros spent H Hk Hv; cbn [erase_key_images] in H.
  - by injection H as <-.
  - destruct i as [b | x | m | c | c | u]; try discriminate.
    change (ring_images (InKey x :: earlier)) with (ki_keyImage x :: ring_images earlier) in Hk.
    apply not_elem_of_cons in Hk as [Hne Hk]. eapply IH; [exact H | done |]. by rewrite lookup_delete_ne.
Qed.

Lemma push_key_inputs_rejected h ins earlier spent spent' k v :
  push_key_inputs h earlier ins spent = Ret (false, spent') -> k ∉ ring_images earlier ->
  spent !! k = Some v -> spent' !! k = Some v.
Proof.
  revert earlier spent. induction ins as [| i ins IH]; intros earlier spent H Hk Hv; cbn [push_key_inputs] in H;
    [discriminate |].
  destruct i as [b | x | m | c | c | u]; try (eapply IH; [exact H | exact Hk | exact Hv]).
  destruct (spent !! ki_keyImage x) as [h0 |] eqn:E.
  - apply outcome_bind_inv in H as (sp & He & H). injection H as <-. by eapply erase_key_images_keeps.
  - assert (Hne : ki_keyImage x <> k) by (intros <-; congruence).
    eapply IH; [exact H | |].
    + change (ring_images (InKey x :: earlier)) with (ki_keyImage x :: ring_images earlier).
      apply not_elem_of_cons. by split; [apply not_eq_sym |].
    + by rewrite lookup_insert_ne.
Qed.

Lemma push_other_inputs_keeps h ins s ok s' k v :
  push_other_inputs h ins s = Ret (ok, s') -> m_spent_keys s !! k = Some v -> m_spent_keys s' !! k = Some v.
Proof.
  revert s. induction ins as [| i ins IH]; intros s H Hv; cbn [push_other_inputs] in H.
  - by injection H as <- <-.
  - destruct i as [b | x | m | c | c | u]; try (eapply IH; [exact H | exact Hv]).
    + apply outcome_bind_inv in H as (ms & _ & H). eapply IH; [exact H | done].
    + destruct (m_spent_keys s !! cs_keyImage c) eqn:E; [by injection H as <- <- |].
      eapply IH; [exact H |]. rewrite redeem_spent. cbn [with_spent m_spent_keys].
      rewrite lookup_insert_ne; [done |]. congruence.
    + destruct (m_spent_keys s !! ct_keyImage c) eqn:E; [by injection H as <- <- |].
      eapply IH; [exact H |]. cbn [with_spent m_spent_keys]. rewrite lookup_insert_ne; [done |]. congruence.
Qed.

(** Nothing that was spent becomes unspent, also when the transaction is rejected. *)
Lemma push_keeps_spent pid oh s h e hash ti ok s' e' k v :
  pushTransaction pid oh s h e hash ti = Ret (ok, s', e') ->
  m_spent_keys s !! k = Some v -> is_Some (m_spent_keys s' !! k).
Proof.
  intros H Hv. destruct ok.
  - apply push_accepted_images in H as (_ & _ & ->). destruct (decide _); [by eexists | by rewrite Hv].
  - unfold pushTransaction in H. destruct (m_transactionMap s !! hash); [injection H as <- <-; by rewrite Hv |].
    destruct (checkMultisignatureInputsDiff (te_tx e)); cbn [negb] in H; [| injection H as <- <-; cbn; by rewrite Hv].
    apply outcome_bind_inv in H as ([ok spent] & Hk & H). destruct ok; cbn [negb] in H.
    + apply outcome_bind_inv in H as ([ok s1] & Ho & H). apply push_key_inputs_inv in Hk as (-> & _ & Hf).
      destruct ok; cbn [negb] in H.
      * destruct (65536 <=? _); [done |]. by destruct (push_outputs _ _ _ _ _).
      * injection H as <- <-. cbn [with_map m_spent_keys]. eapply push_other_inputs_keeps in Ho; [by eexists |].
        cbn [with_spent with_map m_spent_keys]. rewrite insert_all_lookup. destruct (decide _) as [Hin |]; [| exact Hv].
        rewrite Forall_forall in Hf. apply Hf in Hin. cbn [with_map m_spent_keys] in Hin. congruence.
    + injection H as <- <-. cbn [with_map with_spent m_spent_keys].
      eapply push_key_inputs_rejected in Hk; [by eexists | apply not_elem_of_nil | exact Hv].
Qed.

(** A push: the height of the block, the transaction, its hash and its place. *)
Record push_request := mkPush {
  pr_height : Z;
  pr_entry : TransactionEntry;
  pr_hash : Hash;
  pr_index : TransactionIndex
}.

(** A run of pushes, with the transactions that were accepted; the blockchain goes on after a
    rejected one. *)
Fixpoint push_run (pid : Transaction -> option Hash) (oh : Transaction -> Hash) (s : Store)
    (reqs : list push_request) : outcome (Store * list Transaction) :=
  match reqs with
  | [] => Ret (s, [])
  | r :: reqs =>
      '(ok, s', _) ← pushTransaction pid oh s (pr_height r) (pr_entry r) (pr_hash r) (pr_index r);
      '(s'', accepted) ← push_run pid oh s' reqs;
      Ret (s'', if ok : bool then te_tx (pr_entry r) :: accepted else accepted)
  end.

Definition images_of (txs : list Transaction) : list bytes := txs ≫= (fun tx => spent_images (tx_inputs tx)).

Lemma push_run_images pid oh reqs s s' accepted :
  push_run pid oh s reqs = Ret (s', accepted) ->
  NoDup (images_of accepted)
  /\ Forall (fun k => m_spent_keys s !! k = None) (images_of accepted)
  /\ (forall k, is_Some (m_spent_keys s !! k) \/ k ∈ images_of accepted -> is_Some (m_spent_keys s' !! k)).
Proof.
  revert s accepted. induction reqs as [| r reqs IH]; intros s accepted H; cbn [push_run] in H.
  - injection H as <- <-. split; [constructor |]. split; [constructor |].
    intros k [Hk | Hk]; [done | by apply elem_of_nil in Hk].
  - apply outcome_bind_inv in H as ([[ok s1] e1] & Hp & H).
    apply outcome_bind_inv in H as ([s2 acc] & Hr & H). injection H as <- <-.
    apply IH in Hr as (Hnd & Hf & Hs).
    assert (Hmono : forall k, is_Some (m_spent_keys s !! k) -> is_Some (m_spent_keys s1 !! k)).
    { intros k [v Hv]. by eapply push_keeps_spent. }
    assert (Hf' : forall k, k ∈ images_of acc -> m_spent_keys s !! k = None).
    { intros k Hk. rewrite Forall_forall in Hf. specialize (Hf k Hk).
      destruct (m_spent_keys s !! k) as [v |] eqn:E; [| done].
      destruct (Hmono k) as [w Hw]; [by rewrite E |]. congruence. }
    destruct ok.
    + apply push_accepted_images in Hp as (Hnd1 & Hf1 & Hs1).
      change (images_of (te_tx (pr_entry r) :: acc))
        with (spent_images (tx_inputs (te_tx (pr_entry r))) ++ images_of acc).
      split; [| split].
      * apply NoDup_app. split; [done |]. split; [| done]. intros k Hk Hk2.
        rewrite Forall_forall in Hf. specialize (Hf k Hk2). by rewrite Hs1, decide_True in Hf.
      * apply Forall_app. split; [done |]. by apply Forall_forall.
      * intros k Hk. rewrite elem_of_app in Hk. apply Hs. destruct Hk as [Hk | [Hk | Hk]]; [left; by apply Hmono | | by right].
        left. rewrite Hs1, decide_True by done. by eexists.
    + split; [done |]. split; [by apply Forall_forall |]. intros k [Hk | Hk]; apply Hs; [left; by apply Hmono | by right].
Qed.

(** C3: No double spending: whatever transactions are pushed, in whatever order, with whatever
    rejections, the key images of the accepted ones are pairwise distinct (those of ring inputs,
    CD redemptions and CD transfers together), none of them was spent before, and all of them
    are recorded as spent. *)
Theorem chain_never_spends_twice (pid : Transaction -> option Hash) (oh : Transaction -> Hash)
    (s s' : Store) (reqs : list push_request) (accepted : list Transaction) :
  push_run pid oh s reqs = Ret (s', accepted) ->
  NoDup (images_of accepted)
  /\ Forall (fun k => m_spent_keys s !! k = None) (images_of accepted)
  /\ Forall (fun k => is_Some (m_spent_keys s' !! k)) (images_of accepted).
Proof.
  intros H. apply push_run_images in H as (Hnd & Hf & Hs). split; [done |]. split; [done |].
  apply Forall_forall. intros k Hk. apply Hs. by right.
Qed.

(** * Blocks of transactions *)

(** The parts of a [BlockEntry] that [popTransactions] reads. *)
Record BlockEntry := mkBlockEntry {
  be_bl : Block;
  be_height : Z;
  be_block_cumulative_size : Z;
  be_cumulative_difficulty : Z;
  be_already_generated_coins : Z;
  be_transactions : list TransactionEntry
}.

Section BlockTransactions.

Context (pid : Transaction -> option Hash) (oh : Transaction -> Hash).

(** The loop of [popTransactions], from the last transaction down to number 1. *)
Fixpoint pop_transactions_loop (transactions : list TransactionEntry) (hashes : list Hash) (n : nat) (s : Store)
    : outcome Store :=
  match n with
  | O => Ret s
  | S n' =>
      e ← vec_at transactions (Z.of_nat n);
      h ← vec_at hashes (Z.of_nat n');
      s' ← popTransaction pid oh s (te_tx e) h;
      pop_transactions_loop transactions hashes n' s'
  end.

Definition popTransactions (s : Store) (block : BlockEntry) (minerTransactionHash : Hash) : outcome Store :=
  match be_transactions block with
  | [] => Undefined
  | _ :: _ =>
      s ← pop_transactions_loop (be_transactions block) (b_transactionHashes (be_bl block))
            (length (be_transactions block) - 1) s;
      popTransaction pid oh s (b_baseTransaction (be_bl block)) minerTransactionHash
  end.

(** The transactions of a block pushed one after the other from place [k] on, each accepted
    by a store that has room for it. *)
Inductive pushes (height : Z) : Z -> Store -> list (TransactionEntry * Hash) -> Store -> Prop :=
| pushes_nil k s : pushes height k s [] s
| pushes_cons k s e hash l s1 e1 s2 :
    admissible (te_tx e) s ->
    pushTransaction pid oh s height e hash (mkTxIndex height k) = Ret (true, s1, e1) ->
    pushes height (k + 1) s1 l s2 ->
    pushes height k s ((e, hash) :: l) s2.

Lemma pushes_snoc_inv height l k s x s' :
  pushes height k s (l ++ [x]) s' ->
  exists s1 e1, pushes height k s l s1 /\ admissible (te_tx x.1) s1
    /\ pushTransaction pid oh s1 height x.1 x.2 (mkTxIndex height (k + Z.of_nat (length l))) = Ret (true, s', e1).
Proof.
  revert k s. induction l as [| y l IH]; intros k s H; cbn [app] in H.
  - inversion H as [| ? ? ? ? ? ? ? ? Ha Hp Hr]; subst. inversion Hr; subst.
    eexists _, _. split; [constructor |]. split; [done |]. rewrite Z.add_0_r. exact Hp.
  - inversion H as [| ? ? ? ? ? ? ? ? Ha Hp Hr]; subst. apply IH in Hr as (s3 & e3 & Hl & Ha3 & Hp3).
    eexists _, _. split; [by econstructor |]. split; [done |].
    replace (k + Z.of_nat (length ((e, hash) :: l))) with (k + 1 + Z.of_nat (length l)) by (cbn [length]; lia).
    exact Hp3.
Qed.

Lemma push_outputs_wf ti outs n s indexes : store_wf s -> store_wf (push_outputs ti n outs s indexes).1.
Proof.
  revert n s indexes. induction outs as [| o outs IH]; intros n s indexes Hwf; [done |]. cbn [push_outputs].
  pose proof (push_output_wf ti (Z.of_nat n) o s Hwf) as Hw. destruct (push_output ti (Z.of_nat n) o s). by apply IH.
Qed.

Lemma pushTransaction_wf s h e hash ti s' e' :
  store_wf s -> admissible (te_tx e) s ->
  pushTransaction pid oh s h e hash ti = Ret (true, s', e') -> store_wf s'.
Proof.
  intros Hwf [Htx Hred _ _] H. apply pushTransaction_inv in H as (s1 & _ & _ & _ & Ho & ->).
  apply push_other_inputs_inv in Ho as [Ho _]; [| apply (tx_wf_inputs _ Htx) | by destruct Hred].
  assert (Hw1 : store_wf s1).
  { rewrite Ho. apply with_inputs_wf; [by destruct Hwf | by apply mark_no_empty, Hwf]. }
  by destruct (push_outputs_wf ti (tx_outputs (te_tx e)) 0 s1
                 (vec_resize (te_global_output_indexes e) (length (tx_outputs (te_tx e)))) Hw1).
Qed.

Lemma pushes_wf height k s l s' : store_wf s -> pushes height k s l s' -> store_wf s'.
Proof. intros Hwf H. induction H; [done |]. apply IHpushes. by eapply pushTransaction_wf. Qed.

Lemma pop_loop_app n ts ts' hs hs' s :
  (n < length ts)%nat -> (n <= length hs)%nat ->
  pop_transactions_loop (ts ++ ts') (hs ++ hs') n s = pop_transactions_loop ts hs n s.
Proof.
  revert s. induction n as [| n IH]; intros s Ht Hh; [done |]. cbn [pop_transactions_loop].
  unfold vec_at. rewrite !Nat2Z.id, !lookup_app_l by lia.
  destruct (Z.of_nat (S n) <? 0); [done |]. destruct (ts !! S n); [| done]. rewrite !outcome_bind_ret.
  destruct (Z.of_nat n <? 0); [done |]. destruct (hs !! n); [| done]. rewrite !outcome_bind_ret.
  destruct (popTransaction _ _ _ _ _); try done. rewrite !outcome_bind_ret. apply IH; lia.
Qed.

Lemma pop_loop_restores height b l s s' :
  store_wf s -> pushes height 1 s l s' ->
  pop_transactions_loop (b :: (fst <$> l)) (snd <$> l) (length l) s' = Ret s.
Proof.
  revert s'. induction l as [| x l IH] using rev_ind; intros s' Hwf H.
  - inversion H; subst. done.
  - apply pushes_snoc_inv in H as (s1 & e1 & Hl & Ha & Hp).
    rewrite length_app, Nat.add_1_r. cbn [pop_transactions_loop].
    rewrite !fmap_app, app_comm_cons. cbn [fmap list_fmap].
    rewrite (vec_at_app (b :: (fst <$> l)) [] x.1) by (cbn [length]; rewrite length_fmap; lia).
    rewrite outcome_bind_ret, (vec_at_app (snd <$> l) [] x.2) by (rewrite length_fmap; lia).
    rewrite outcome_bind_ret.
    rewrite (pop_push_transaction _ _ _ _ _ _ _ _ _ (pushes_wf _ _ _ _ _ Hwf Hl) Ha Hp), outcome_bind_ret.
    rewrite pop_loop_app; [by apply IH | cbn [length]; rewrite length_fmap; lia | rewrite length_fmap; lia].
Qed.

End BlockTransactions.

(** C4: rolling a block back restores the transaction store exactly: after the base transaction
    and the other transactions of a block were pushed in order on a well-formed store, each of them being [admissible] there (its fields are
    in range, what it redeems is locked and the fee pool holds its interest, what it creates fits 64 bits, the multisignature outputs that it uses are unused), [popTransactions] returns
    without an exception to the very store before the block (transaction map, spent keys, all
    three output indexes with their usage marks, the locked supply, the fee pool accounts and
    the payment ids). *)
Theorem popTransactions_restores (pid : Transaction -> option Hash) (oh : Transaction -> Hash)
    (s s' : Store) (block : BlockEntry) (minerTransactionHash : Hash) (e0 : TransactionEntry)
    (txs : list (TransactionEntry * Hash)) :
  store_wf s ->
  be_transactions block = e0 :: (fst <$> txs) -> te_tx e0 = b_baseTransaction (be_bl block) ->
  b_transactionHashes (be_bl block) = snd <$> txs ->
  pushes pid oh (be_height block) 0 s ((e0, minerTransactionHash) :: txs) s' ->
  popTransactions pid oh s' block minerTransactionHash = Ret s.
Proof.
  intros Hwf Ht Hb Hh Hp. unfold popTransactions. rewrite Ht, Hh. cbn [length].
  inversion Hp as [| ? ? ? ? ? s1 e1 ? Ha Hp0 Hr]; subst.
  replace (S (length (fst <$> txs)) - 1)%nat with (length txs) by (rewrite length_fmap; lia).
  rewrite (pop_loop_restores pid oh (be_height block) e0 txs s1 s').
  - rewrite outcome_bind_ret, <- Hb. by eapply pop_push_transaction.
  - by eapply pushTransaction_wf.
  - exact Hr.
Qed.

(** ** A block with every kind of input and output *)

(** Short stand-ins for 32-byte keys and hashes. *)
Definition key_of (n : Z) : bytes := [n].

Definition empty_proof : MembershipProof := mkMembershipProof [] [].

Definition base_tx : Transaction :=
  mkTransaction 1 70 [InBase (mkBaseInput 10)] [mkTransactionOutput 500 (OutKey (mkKeyOutput (key_of 1)))] [] [].

Definition rich_tx : Transaction :=
  mkTransaction 2 0
    [InKey (mkKeyInput 100 [0; 1] (key_of 2));
     InMultisignature (mkMultisignatureInput 300 1 0 20);
     InCommitmentSpend (mkCommitmentSpend 800 [0] (key_of 3) 5);
     InCommitmentTransfer (mkCommitmentTransfer 800 [0] (key_of 4) 9)]
    [mkTransactionOutput 100 (OutKey (mkKeyOutput (key_of 5)));
     mkTransactionOutput 300 (OutMultisignature (mkMultisignatureOutput [key_of 6] 1 0));
     mkTransactionOutput 800 (OutCommitment (mkOutputCommitment (key_of 7) 9 (key_of 8) empty_proof))] [] [].

Definition old_index : TransactionIndex := mkTxIndex 3 0.

Definition rich_store : Store :=
  mkStore {[ key_of 9 := old_index ]} {[ key_of 10 := 3 ]} {[ 100 := [(old_index, 0); (old_index, 1)] ]}
    {[ 300 := [mkUsage old_index 2 false] ]} {[ 800 := [mkCommitmentRef old_index 3 (key_of 11) 9 false] ]}
    1600 12 7 ∅.

Definition rich_pid (tx : Transaction) : option Hash := Some (key_of (tx_version tx)).
Definition rich_hash (tx : Transaction) : Hash := key_of (100 + tx_version tx).

Definition rich_block : BlockEntry :=
  mkBlockEntry
    (mkBlock 1 0 0 0 (key_of 0) (mkParentBlock 1 0 (key_of 0) 1 [] base_tx []) base_tx [key_of 102])
    10 0 0 0 [mkTxEntry base_tx []; mkTxEntry rich_tx []].

Definition push_store (s : Store) (height : Z) (e : TransactionEntry) (hash : Hash) (k : Z) : Store :=
  match pushTransaction rich_pid rich_hash s height e hash (mkTxIndex height k) with
  | Ret (_, s', _) => s'
  | _ => s
  end.

Definition push_entry (s : Store) (height : Z) (e : TransactionEntry) (hash : Hash) (k : Z) : TransactionEntry :=
  match pushTransaction rich_pid rich_hash s height e hash (mkTxIndex height k) with
  | Ret (_, _, e') => e'
  | _ => e
  end.

Definition rich_store1 : Store := push_store rich_store 10 (mkTxEntry base_tx []) (key_of 101) 0.
Definition rich_store2 : Store := push_store rich_store1 10 (mkTxEntry rich_tx []) (key_of 102) 1.

Lemma rich_pushes :
  pushes rich_pid rich_hash 10 0 rich_store
    [(mkTxEntry base_tx [], key_of 101); (mkTxEntry rich_tx [], key_of 102)] rich_store2.
Proof.
  apply (pushes_cons _ _ _ _ _ _ _ _ rich_store1 (push_entry rich_store 10 (mkTxEntry base_tx []) (key_of 101) 0)).
  - constructor.
    + constructor; [cbn; unfold is_u8; lia | cbn; unfold is_u64; lia | |];
        repeat constructor; cbn; unfold is_u32, is_u64; lia.
    + constructor; cbn; lia.
    + cbn. lia.
    + constructor.
  - vm_compute. reflexivity.
  - apply (pushes_cons _ _ _ _ _ _ _ _ rich_store2 (push_entry rich_store1 10 (mkTxEntry rich_tx []) (key_of 102) 1)).
    + assert (E : m_totalCdLocked rich_store1 = 1600 /\ m_feePoolBalance rich_store1 = 12
                  /\ m_totalCdInterestPaid rich_store1 = 7) by (vm_compute; done).
      destruct E as (E1 & E2 & E3). constructor.
      * constructor; [cbn; unfold is_u8; lia | cbn; unfold is_u64; lia | |];
          repeat constructor; cbn; unfold is_u32, is_u64, is_u8; lia.
      * constructor; rewrite ?E1, ?E2, ?E3; cbn; lia.
      * rewrite E1. cbn. lia.
      * constructor; [| constructor]. intros x. vm_compute. intros [= <-]. reflexivity.
    + vm_compute. reflexivity.
    + constructor.
Qed.

Lemma popTransactions_restores_witness :
  popTransactions rich_pid rich_hash rich_store2 rich_block (key_of 101) = Ret rich_store.
Proof.
  apply (popTransactions_restores rich_pid rich_hash rich_store rich_store2 rich_block (key_of 101)
           (mkTxEntry base_tx []) [(mkTxEntry rich_tx [], key_of 102)]).
  - constructor; cbn [rich_store m_outputs m_multisignatureOutputs m_commitmentOutputs]; intros a v Hv;
      apply lookup_singleton_Some in Hv as [_ <-]; discriminate.
  - reflexivity.
  - reflexivity.
  - reflexivity.
  - exact rich_pushes.
Defined.

Lemma chain_never_spends_twice_witness :
  NoDup (images_of [base_tx; rich_tx])
  /\ Forall (fun k => m_spent_keys rich_store !! k = None) (images_of [base_tx; rich_tx])
  /\ Forall (fun k => is_Some (m_spent_keys rich_store2 !! k)) (images_of [base_tx; rich_tx]).
Proof.
  pose (r1 := mkPush 10 (mkTxEntry base_tx []) (key_of 101) (mkTxIndex 10 0)).
  pose (r2 := mkPush 10 (mkTxEntry rich_tx []) (key_of 102) (mkTxIndex 10 1)).
  pose (r3 := mkPush 11 (mkTxEntry rich_tx []) (key_of 102) (mkTxIndex 11 1)).
  apply (chain_never_spends_twice rich_pid rich_hash rich_store rich_store2 [r1; r2; r3] [base_tx; rich_tx]).
  vm_compute. reflexivity.
Defined.

(** * What the code does not undo *)

(** Two redemptions of one transaction overdraw the fee pool.  Each claim is compared with the
    whole pool, so two claims that fit one by one and not together are both accepted; only the
    first is deducted, and undoing the transaction adds both back: the pool gains the second
    claim. *)
Theorem fee_pool_overdraft (a b : TransactionInputCommitmentSpend) (s : Store) :
  0 < cs_claimedInterest a -> 0 < cs_claimedInterest b ->
  cs_claimedInterest a <= m_feePoolBalance s -> cs_claimedInterest b <= m_feePoolBalance s ->
  m_feePoolBalance s < cs_claimedInterest a + cs_claimedInterest b ->
  m_feePoolBalance s + cs_claimedInterest b < 2 ^ 64 ->
  m_feePoolBalance (redeem b (redeem a s)) = m_feePoolBalance s - cs_claimedInterest a
  /\ m_feePoolBalance (unredeem b (unredeem a (redeem b (redeem a s))))
     = m_feePoolBalance s + cs_claimedInterest b.
Proof.
  intros Ha Hb Hap Hbp Hsum Hmax.
  assert (E1 : m_feePoolBalance (redeem a s) = m_feePoolBalance s - cs_claimedInterest a).
  { unfold redeem. rewrite (proj2 (Z.ltb_lt _ _) Ha), (proj2 (Z.leb_le _ _) Hap). cbn. apply u64_small. lia. }
  assert (E2 : m_feePoolBalance (redeem b (redeem a s)) = m_feePoolBalance s - cs_claimedInterest a).
  { rewrite <- E1. unfold redeem at 1. destruct (Z.leb_spec (cs_claimedInterest b) (m_feePoolBalance (redeem a s)));
      [lia |]. by rewrite andb_false_r. }
  split; [done |]. unfold unredeem at 1. rewrite (proj2 (Z.ltb_lt _ _) Hb). cbn [with_deposits m_feePoolBalance].
  unfold unredeem at 1. rewrite (proj2 (Z.ltb_lt _ _) Ha). cbn [with_deposits m_feePoolBalance].
  rewrite E2, !u64_small by (rewrite ?u64_small; lia). lia.
Qed.

Lemma fee_pool_overdraft_witness :
  m_feePoolBalance (redeem (mkCommitmentSpend 800 [0] (key_of 4) 8) (redeem (mkCommitmentSpend 800 [0] (key_of 3) 7) rich_store))
    = 5
  /\ m_feePoolBalance (unredeem (mkCommitmentSpend 800 [0] (key_of 4) 8) (unredeem (mkCommitmentSpend 800 [0] (key_of 3) 7)
       (redeem (mkCommitmentSpend 800 [0] (key_of 4) 8) (redeem (mkCommitmentSpend 800 [0] (key_of 3) 7) rich_store))))
    = 20.
Proof.
  refine (fee_pool_overdraft (mkCommitmentSpend 800 [0] (key_of 3) 7) (mkCommitmentSpend 800 [0] (key_of 4) 8)
            rich_store _ _ _ _ _ _); cbn; lia.
Defined.

(** A rejected transaction is not undone.  When the second loop finds the key image of a CD
    redemption already spent, [pushTransaction] forgets the transaction but leaves the key
    images of the earlier ring inputs marked as spent. *)
Theorem rejected_push_leaks_key_image (pid : Transaction -> option Hash) (oh : Transaction -> Hash) (s : Store)
    (height : Z) (tx : Transaction) (indexes : list Z) (hash : Hash) (ti : TransactionIndex)
    (k : KeyInput) (c : TransactionInputCommitmentSpend) :
  tx_inputs tx = [InKey k; InCommitmentSpend c] ->
  m_transactionMap s !! hash = None -> m_spent_keys s !! ki_keyImage k = None ->
  is_Some (m_spent_keys s !! cs_keyImage c) ->
  exists s', pushTransaction pid oh s height (mkTxEntry tx indexes) hash ti = Ret (false, s', mkTxEntry tx indexes)
    /\ m_transactionMap s' !! hash = None
    /\ m_spent_keys s' !! ki_keyImage k = Some height.
Proof.
  intros Hins Hm Hk [v Hc]. unfold pushTransaction. rewrite Hm. cbn [te_tx].
  unfold checkMultisignatureInputsDiff. rewrite Hins. cbn [multisignature_diff_loop negb push_key_inputs].
  cbn [with_map m_spent_keys]. rewrite Hk, outcome_bind_ret.
  assert (Hne : ki_keyImage k <> cs_keyImage c) by (intros E; rewrite E in Hk; congruence).
  cbn [negb with_spent with_map push_other_inputs m_spent_keys]. rewrite (lookup_insert_ne _ _ _ _ Hne), Hc.
  rewrite outcome_bind_ret. cbn [negb]. eexists. split; [reflexivity |]. cbn [with_map m_transactionMap m_spent_keys].
  split; [apply lookup_delete_eq | apply lookup_insert_eq].
Qed.

Lemma rejected_push_leaks_key_image_witness :
  exists s',
    pushTransaction rich_pid rich_hash rich_store 10
      (mkTxEntry (mkTransaction 2 0 [InKey (mkKeyInput 100 [0] (key_of 2));
                                     InCommitmentSpend (mkCommitmentSpend 800 [0] (key_of 10) 0)] [] [] []) [])
      (key_of 50) (mkTxIndex 10 1)
    = Ret (false, s', mkTxEntry (mkTransaction 2 0 [InKey (mkKeyInput 100 [0] (key_of 2));
                                     InCommitmentSpend (mkCommitmentSpend 800 [0] (key_of 10) 0)] [] [] []) [])
    /\ m_transactionMap s' !! key_of 50 = None
    /\ m_spent_keys s' !! key_of 2 = Some 10.
Proof.
  apply (rejected_push_leaks_key_image rich_pid rich_hash rich_store 10
           (mkTransaction 2 0 [InKey (mkKeyInput 100 [0] (key_of 2));
                               InCommitmentSpend (mkCommitmentSpend 800 [0] (key_of 10) 0)] [] [] []) []
           (key_of 50) (mkTxIndex 10 1) (mkKeyInput 100 [0] (key_of 2)) (mkCommitmentSpend 800 [0] (key_of 10) 0));
    [reflexivity | vm_compute; reflexivity | vm_compute; reflexivity | exists 3; vm_compute; reflexivity].
Defined.
