(* ===== verification/UpgradeDetector.v ===== *)
(** Votes for a protocol upgrade: [BasicUpgradeDetector] of
    [src/src/CryptoNoteCore/UpgradeDetector.h].  The detector reads the major and minor version
    of the blocks, so the blockchain is a list of such pairs. *)

From S2P Require Import Prelude Config Currency BankingIndex.

(** * The code *)

Definition UNDEF_HEIGHT : Z := 0xFFFFFFFF.

Record BlockVersion := mkVersion { bv_major : Z; bv_minor : Z }.

Section Detector.
Context (c : Currency) (m_targetVersion : Z).

(** [for (i = start; i <= height; ++i)], [n] rounds from index [i] on. *)
Fixpoint count_votes (n : nat) (i : Z) (m_blockchain : list BlockVersion) (voteCounter : Z) : outcome Z :=
  match n with
  | O => Ret voteCounter
  | S n =>
      b ← vec_at m_blockchain i;
      let vote := (bv_major b =? m_targetVersion - 1) && (bv_minor b =? BLOCK_MINOR_VERSION_1) in
      count_votes n (i + 1) m_blockchain (voteCounter + (if vote then 1 else 0))
  end.

Definition getNumberOfVotes (m_blockchain : list BlockVersion) (height : Z) : outcome Z :=
  if height <? u32 (m_upgradeVotingWindow c - 1) then Ret 0
  else
    let i := u32 (u32 (height + 1) - m_upgradeVotingWindow c) in
    count_votes (Z.to_nat (height + 1 - i)) i m_blockchain 0.

Definition isVotingComplete (m_blockchain : list BlockVersion) (height : Z) : outcome bool :=
  _ ← assert_ (upgradeHeight c m_targetVersion =? UNDEF_HEIGHT);
  _ ← assert_ (1 <? m_upgradeVotingWindow c);
  _ ← assert_ ((0 <? m_upgradeVotingThreshold c) && (m_upgradeVotingThreshold c <=? 100));
  voteCounter ← getNumberOfVotes m_blockchain height;
  Ret (u32 (m_upgradeVotingThreshold c * m_upgradeVotingWindow c) <=? 100 * voteCounter).

Fixpoint find_loop (n : nat) (i : Z) (m_blockchain : list BlockVersion) : outcome Z :=
  match n with
  | O => Ret UNDEF_HEIGHT
  | S n =>
      done ← isVotingComplete m_blockchain i;
      if done : bool then Ret i else find_loop n (i + 1) m_blockchain
  end.

Definition findVotingCompleteHeight (m_blockchain : list BlockVersion) (probableUpgradeHeight : Z) : outcome Z :=
  _ ← assert_ (upgradeHeight c m_targetVersion =? UNDEF_HEIGHT);
  let probableVotingCompleteHeight :=
    if maxUpgradeDistance c <? probableUpgradeHeight then probableUpgradeHeight - maxUpgradeDistance c else 0 in
  find_loop (Z.to_nat (probableUpgradeHeight - probableVotingCompleteHeight + 1)) probableVotingCompleteHeight
    m_blockchain.

(** [std::lower_bound] on the major version, on a chain whose versions never decrease. *)
Fixpoint version_lower_bound (m_blockchain : list BlockVersion) : nat :=
  match m_blockchain with
  | [] => 0%nat
  | b :: rest => if bv_major b <? m_targetVersion then S (version_lower_bound rest) else 0%nat
  end.

(** [init]: the answer and the new [m_votingCompleteHeight]. *)
Definition init (m_blockchain : list BlockVersion) (m_votingCompleteHeight : Z) : outcome (bool * Z) :=
  let height := upgradeHeight c m_targetVersion in
  let size := Z.of_nat (length m_blockchain) in
  if height =? UNDEF_HEIGHT then
    match last m_blockchain with
    | None => Ret (true, UNDEF_HEIGHT)
    | Some b =>
        if m_targetVersion - 1 =? bv_major b then
          v ← findVotingCompleteHeight m_blockchain (u32 (size - 1));
          Ret (true, v)
        else if m_targetVersion <=? bv_major b then
          match m_blockchain !! version_lower_bound m_blockchain with
          | None => Ret (false, m_votingCompleteHeight)
          | Some b =>
              if negb (bv_major b =? m_targetVersion) then Ret (false, m_votingCompleteHeight)
              else
                v ← findVotingCompleteHeight m_blockchain (u32 (Z.of_nat (version_lower_bound m_blockchain)));
                Ret (negb (v =? UNDEF_HEIGHT), v)
          end
        else Ret (true, UNDEF_HEIGHT)
    end
  else
    match last m_blockchain with
    | None => Ret (true, m_votingCompleteHeight)
    | Some b =>
        if size <=? u32 (height + 1) then Ret (negb (m_targetVersion <=? bv_major b), m_votingCompleteHeight)
        else
          b0 ← vec_at m_blockchain height;
          if negb (bv_major b0 =? m_targetVersion - 1) then Ret (false, m_votingCompleteHeight)
          else
            b1 ← vec_at m_blockchain (u32 (height + 1));
            Ret (bv_major b1 =? m_targetVersion, m_votingCompleteHeight)
    end.

(** The member function [upgradeHeight]. *)
Definition detectorUpgradeHeight (m_votingCompleteHeight : Z) : Z :=
  if upgradeHeight c m_targetVersion =? UNDEF_HEIGHT then
    if m_votingCompleteHeight =? UNDEF_HEIGHT then UNDEF_HEIGHT
    else calculateUpgradeHeight c m_votingCompleteHeight
  else upgradeHeight c m_targetVersion.

(** [blockPushed], without the log lines; the chain already has the new block. *)
Definition blockPushed (m_blockchain : list BlockVersion) (m_votingCompleteHeight : Z) : outcome Z :=
  match last m_blockchain with
  | None => AssertFail
  | Some b =>
      let size := Z.of_nat (length m_blockchain) in
      let height := upgradeHeight c m_targetVersion in
      if negb (height =? UNDEF_HEIGHT) then
        _ ← (if size <=? u32 (height + 1) then assert_ (bv_major b <=? m_targetVersion - 1)
             else assert_ (m_targetVersion <=? bv_major b));
        Ret m_votingCompleteHeight
      else if negb (m_votingCompleteHeight =? UNDEF_HEIGHT) then
        _ ← assert_ (m_votingCompleteHeight <? size);
        let uh := detectorUpgradeHeight m_votingCompleteHeight in
        _ ← (if size <=? uh then assert_ (bv_major b =? m_targetVersion - 1)
             else if size =? u32 (uh + 1) then assert_ (bv_major b =? m_targetVersion - 1)
             else assert_ (bv_major b =? m_targetVersion));
        Ret m_votingCompleteHeight
      else
        let lastBlockHeight := u32 (size - 1) in
        done ← isVotingComplete m_blockchain lastBlockHeight;
        Ret (if done : bool then lastBlockHeight else m_votingCompleteHeight)
  end.

(** [blockPopped]; the chain has already lost the block. *)
Definition blockPopped (m_blockchain : list BlockVersion) (m_votingCompleteHeight : Z) : outcome Z :=
  if negb (m_votingCompleteHeight =? UNDEF_HEIGHT) then
    _ ← assert_ (upgradeHeight c m_targetVersion =? UNDEF_HEIGHT);
    if Z.of_nat (length m_blockchain) =? m_votingCompleteHeight then Ret UNDEF_HEIGHT
    else
      _ ← assert_ (m_votingCompleteHeight <? Z.of_nat (length m_blockchain));
      Ret m_votingCompleteHeight
  else Ret m_votingCompleteHeight.

End Detector.

(** * Reference: the first height whose window has enough votes *)

Section Votes.
Context (c : Currency) (target : Z).

Definition is_vote (b : BlockVersion) : bool := (bv_major b =? target - 1) && (bv_minor b =? BLOCK_MINOR_VERSION_1).

Definition votes_in (l : list BlockVersion) : Z := Z.of_nat (length (filter is_vote l)).

Definition window : nat := Z.to_nat (m_upgradeVotingWindow c).

(** The votes among the [window] blocks that end at a height. *)
Definition window_votes (chain : list BlockVersion) (h : nat) : Z :=
  if (window <=? S h)%nat then votes_in (take window (drop (S h - window) chain)) else 0.

Definition complete_at (chain : list BlockVersion) (h : nat) : bool :=
  m_upgradeVotingThreshold c * m_upgradeVotingWindow c <=? 100 * window_votes chain h.

Definition first_complete (chain : list BlockVersion) (v : Z) : Prop :=
  (v = UNDEF_HEIGHT /\ forall h, (h < length chain)%nat -> complete_at chain h = false)
  \/ exists h, v = Z.of_nat h /\ (h < length chain)%nat /\ complete_at chain h = true
       /\ forall h', (h' < h)%nat -> complete_at chain h' = false.

(** The vote is open (no fixed height for the version) and its parameters are those that
    the code asserts. *)
Record voting_open : Prop := {
  vo_undef : upgradeHeight c target = UNDEF_HEIGHT;
  vo_window : 1 < m_upgradeVotingWindow c;
  vo_threshold : 0 < m_upgradeVotingThreshold c <= 100;
  vo_product : m_upgradeVotingThreshold c * m_upgradeVotingWindow c < 2 ^ 32
}.

Lemma votes_in_cons b l : votes_in (b :: l) = (if is_vote b then 1 else 0) + votes_in l.
Proof.
  unfold votes_in. rewrite filter_cons. destruct (is_vote b) eqn:E.
  - rewrite decide_True by done. cbn [length]. lia.
  - rewrite decide_False by (intros []). lia.
Qed.

Lemma count_votes_spec n i chain acc :
  (i + n <= length chain)%nat ->
  count_votes target n (Z.of_nat i) chain acc = Ret (acc + votes_in (take n (drop i chain))).
Proof.
  revert i acc. induction n as [| n IH]; intros i acc Hl; cbn [count_votes].
  - rewrite take_0. unfold votes_in. cbn. f_equal. lia.
  - destruct (lookup_lt_is_Some_2 chain i) as [b Hb]; [lia |].
    rewrite (vec_at_lookup chain _ b), outcome_bind_ret by (rewrite ?Nat2Z.id; lia || done).
    replace (Z.of_nat i + 1) with (Z.of_nat (S i)) by lia. rewrite IH by lia.
    rewrite (drop_S chain b i Hb). cbn [take]. rewrite votes_in_cons. unfold is_vote. f_equal. lia.
Qed.

Lemma getNumberOfVotes_spec chain h :
  voting_open -> (h < length chain)%nat -> Z.of_nat (length chain) < 2 ^ 32 - 1 ->
  getNumberOfVotes c target chain (Z.of_nat h) = Ret (window_votes chain h).
Proof.
  intros [_ Hw Ht Hp] Hh Hlen. assert (Hw32 : m_upgradeVotingWindow c < 2 ^ 32) by nia.
  unfold getNumberOfVotes, window_votes, window. rewrite (u32_small (m_upgradeVotingWindow c - 1)) by lia.
  destruct (Nat.leb_spec (Z.to_nat (m_upgradeVotingWindow c)) (S h)) as [Hle | Hgt].
  - destruct (Z.ltb_spec (Z.of_nat h) (m_upgradeVotingWindow c - 1)); [lia |].
    rewrite (u32_small (Z.of_nat h + 1)), u32_small by lia.
    replace (Z.of_nat h + 1 - m_upgradeVotingWindow c) with (Z.of_nat (S h - Z.to_nat (m_upgradeVotingWindow c))) by lia.
    rewrite count_votes_spec by lia. f_equal. rewrite Z.add_0_l. do 2 f_equal. lia.
  - destruct (Z.ltb_spec (Z.of_nat h) (m_upgradeVotingWindow c - 1)); [done | lia].
Qed.

Lemma isVotingComplete_spec chain h :
  voting_open -> (h < length chain)%nat -> Z.of_nat (length chain) < 2 ^ 32 - 1 ->
  isVotingComplete c target chain (Z.of_nat h) = Ret (complete_at chain h).
Proof.
  intros Ho Hh Hlen. pose proof Ho as [Hu Hw Ht Hp]. unfold isVotingComplete.
  rewrite Hu, Z.eqb_refl. change (assert_ true) with (Ret tt). rewrite outcome_bind_ret.
  rewrite (assert_true (1 <? _)), outcome_bind_ret by (apply Z.ltb_lt; lia).
  rewrite (assert_true (_ && _)), outcome_bind_ret by (apply andb_true_intro; split; [apply Z.ltb_lt | apply Z.leb_le]; lia).
  rewrite getNumberOfVotes_spec, outcome_bind_ret by done. rewrite u32_small by nia. done.
Qed.

(** A new block changes no earlier window. *)
Lemma complete_at_app chain b h : (h < length chain)%nat -> complete_at (chain ++ b) h = complete_at chain h.
Proof.
  intros Hh. unfold complete_at, window_votes. destruct (Nat.leb_spec window (S h)) as [Hle |]; [| done].
  rewrite drop_app_le, take_app_le by (rewrite ?length_drop; lia). done.
Qed.

Lemma first_complete_snoc chain b v :
  voting_open -> first_complete chain v -> v <> UNDEF_HEIGHT -> first_complete (chain ++ [b]) v.
Proof.
  intros Ho [[-> _] | (h & -> & Hh & Hc & Hf)] Hne; [done |]. right. exists h.
  rewrite length_app, complete_at_app by done. cbn [length]. split; [done |]. split; [lia |]. split; [done |].
  intros h' Hh'. rewrite complete_at_app by lia. by apply Hf.
Qed.

Lemma first_complete_take chain b v :
  first_complete (chain ++ [b]) v -> v <> Z.of_nat (length chain) -> first_complete chain v.
Proof.
  unfold first_complete. rewrite length_app. cbn [length].
  intros [[-> Hf] | (h & -> & Hh & Hc & Hf)] Hne; [left | right].
  - split; [done |]. intros h Hh. specialize (Hf h ltac:(lia)). by rewrite complete_at_app in Hf.
  - assert (Hlt : (h < length chain)%nat) by lia. exists h. rewrite complete_at_app in Hc by done.
    repeat split; try done. intros h' Hh'. specialize (Hf h' Hh'). by rewrite complete_at_app in Hf by lia.
Qed.

(** ** The detector follows the chain *)

(** The states of a detector that saw every block pushed and popped since the first. *)
Inductive detector_reach : list BlockVersion -> Z -> Prop :=
| reach_start : detector_reach [] UNDEF_HEIGHT
| reach_push chain b v v' :
    detector_reach chain v -> Z.of_nat (length chain) + 1 < 2 ^ 32 - 1 ->
    blockPushed c target (chain ++ [b]) v = Ret v' -> detector_reach (chain ++ [b]) v'
| reach_pop chain b v v' :
    detector_reach (chain ++ [b]) v -> blockPopped c target chain v = Ret v' -> detector_reach chain v'.

Lemma reach_small chain v : detector_reach chain v -> Z.of_nat (length chain) < 2 ^ 32 - 1.
Proof.
  induction 1 as [| chain b v v' _ IH Hs _ | chain b v v' _ IH _].
  - cbn. lia.
  - rewrite length_app. cbn [length]. lia.
  - rewrite length_app in IH. cbn [length] in IH. lia.
Qed.

Lemma undef_not_height (h : nat) : Z.of_nat h < 2 ^ 32 - 1 -> Z.of_nat h <> UNDEF_HEIGHT.
Proof. unfold UNDEF_HEIGHT. lia. Qed.

Lemma blockPushed_first chain b v v' :
  voting_open -> Z.of_nat (length chain) + 1 < 2 ^ 32 - 1 -> first_complete chain v ->
  blockPushed c target (chain ++ [b]) v = Ret v' -> first_complete (chain ++ [b]) v'.
Proof.
  intros Ho Hs Hf H. pose proof Ho as [Hu _ _ _]. unfold blockPushed in H. rewrite last_snoc, Hu in H.
  rewrite Z.eqb_refl in H. cbn [negb] in H. destruct (Z.eqb_spec v UNDEF_HEIGHT) as [-> | Hne]; cbn [negb] in H.
  - rewrite length_app in H. cbn [length] in H.
    replace (Z.of_nat (length chain + 1) - 1) with (Z.of_nat (length chain)) in H by lia.
    rewrite u32_small, isVotingComplete_spec, outcome_bind_ret in H
      by (rewrite ?length_app; cbn [length]; done || lia).
    assert (Hno : forall h, (h < length chain)%nat -> complete_at (chain ++ [b]) h = false).
    { intros h Hh. rewrite complete_at_app by done. destruct Hf as [[_ Hf] | (h0 & E & Hh0 & _)]; [by apply Hf |].
      exfalso. eapply undef_not_height; [| symmetry; exact E]. lia. }
    destruct (complete_at (chain ++ [b]) (length chain)) eqn:E; injection H as <-.
    + right. exists (length chain). rewrite length_app. cbn [length]. repeat split; [lia | done | done].
    + left. split; [done |]. intros h. rewrite length_app. cbn [length]. intros Hh.
      destruct (decide (h = length chain)) as [-> | Hn]; [done |]. apply Hno. lia.
  - apply outcome_bind_inv in H as (u & _ & H). apply outcome_bind_inv in H as (u' & _ & H). injection H as <-.
    by apply first_complete_snoc.
Qed.

Lemma blockPopped_first chain b v :
  voting_open -> Z.of_nat (length chain) + 1 < 2 ^ 32 - 1 -> first_complete (chain ++ [b]) v ->
  exists v', blockPopped c target chain v = Ret v' /\ first_complete chain v'.
Proof.
  intros Ho Hs Hf. pose proof Ho as [Hu _ _ _]. unfold blockPopped. rewrite Hu, Z.eqb_refl.
  change (assert_ true) with (Ret tt). rewrite outcome_bind_ret.
  destruct (Z.eqb_spec v UNDEF_HEIGHT) as [-> | Hne]; cbn [negb].
  - eexists. split; [done |]. eapply first_complete_take; [exact Hf |].
    apply not_eq_sym, undef_not_height. lia.
  - destruct (Z.eqb_spec (Z.of_nat (length chain)) v) as [<- | Hnl].
    + eexists. split; [done |]. left. split; [done |]. intros h Hh.
      destruct Hf as [[Hf _] | (h0 & E & _ & _ & Hf)]; [done |]. apply Nat2Z.inj in E. subst h0.
      specialize (Hf h Hh). by rewrite complete_at_app in Hf.
    + apply first_complete_take in Hf; [| done].
      rewrite assert_true, outcome_bind_ret; [by eexists |].
      destruct Hf as [[Hf _] | (h0 & -> & Hh0 & _)]; [done |]. apply Z.ltb_lt. lia.
Qed.

Lemma reach_first chain v : voting_open -> detector_reach chain v -> first_complete chain v.
Proof.
  intros Ho. induction 1 as [| chain b v v' Hr IH Hs Hp | chain b v v' Hr IH Hp].
  - left. split; [done |]. intros h Hh. cbn in Hh. lia.
  - by eapply blockPushed_first.
  - pose proof (reach_small _ _ Hr) as Hs. rewrite length_app in Hs. cbn [length] in Hs.
    destruct (blockPopped_first chain b v Ho ltac:(lia) IH) as (v'' & Hv & Hf). rewrite Hv in Hp. by injection Hp as <-.
Qed.

Lemma find_loop_spec chain n i v :
  voting_open -> Z.of_nat (length chain) < 2 ^ 32 - 1 -> (i + n <= length chain)%nat ->
  first_complete chain v -> (forall h, (h < i)%nat -> complete_at chain h = false) -> (forall h, v = Z.of_nat h -> v <> UNDEF_HEIGHT -> (h < i + n)%nat) ->
  find_loop c target n (Z.of_nat i) chain = Ret v.
Proof.
  intros Ho Hs. revert i. induction n as [| n IH]; intros i Hi Hf Hno Hv; cbn [find_loop].
  - destruct Hf as [[-> _] | (h & -> & Hh & Hc & _)]; [done |]. specialize (Hv h eq_refl (undef_not_height h ltac:(lia))).
    by rewrite Hno in Hc by lia.
  - rewrite isVotingComplete_spec, outcome_bind_ret by (done || lia).
    destruct (complete_at chain i) eqn:E.
    + destruct Hf as [[_ Hf] | (h & -> & Hh & Hc & Hf)]; [by rewrite Hf in E by lia |].
      destruct (Nat.lt_trichotomy h i) as [Hlt | [-> | Hgt]]; [by rewrite Hno in Hc | done | by rewrite Hf in E].
    + replace (Z.of_nat i + 1) with (Z.of_nat (S i)) by lia. apply IH; [lia | done | |].
      * intros h Hh. destruct (decide (h = i)) as [-> |]; [done |]. apply Hno. lia.
      * intros h Hh Hu. specialize (Hv h Hh Hu). lia.
Qed.

(** ** Restart *)

(** What the checks of a block's version leave: versions never decrease, and a block of the new version is above the upgrade height. *)
Record versions_follow (chain : list BlockVersion) (v : Z) : Prop := {
  vf_sorted : forall i j a b, (i <= j)%nat -> chain !! i = Some a -> chain !! j = Some b -> bv_major a <= bv_major b;
  vf_upgrade : forall i b, chain !! i = Some b -> target <= bv_major b -> detectorUpgradeHeight c target v < Z.of_nat i
}.

(** The upgrade window, counted seven times, fits into 32 bits with the heights. *)
Definition window_fits (chain : list BlockVersion) : Prop :=
  0 < m_upgradeWindow c /\ Z.of_nat (length chain) + 7 * m_upgradeWindow c < 2 ^ 32.

(** The detector has seen that blocks above the upgrade height are of the new version. *)
Definition upgraded (chain : list BlockVersion) (v : Z) : Prop :=
  v <> UNDEF_HEIGHT -> forall i b, chain !! i = Some b -> v < Z.of_nat i -> detectorUpgradeHeight c target v < Z.of_nat i -> bv_major b = target.

Lemma reach_upgraded chain v : voting_open -> detector_reach chain v -> upgraded chain v.
Proof.
  intros [Hu _ _ _]. induction 1 as [| chain b v v' Hr IH Hs Hp | chain b v v' Hr IH Hp]; intros Hne i x Hx Hv Hi.
  - by rewrite lookup_nil in Hx.
  - unfold blockPushed in Hp. rewrite last_snoc, length_app in Hp. cbn [length] in Hp. rewrite Hu, Z.eqb_refl in Hp. cbn [negb] in Hp.
    destruct (Z.eqb_spec v UNDEF_HEIGHT) as [-> | Hv0]; cbn [negb] in Hp.
    + apply outcome_bind_inv in Hp as (d & _ & Hp). injection Hp as <-. apply lookup_lt_Some in Hx. rewrite length_app in Hx. cbn [length] in Hx.
      destruct d; [| done]. rewrite u32_small in Hv; lia.
    + apply outcome_bind_inv in Hp as (u & _ & Hp). apply outcome_bind_inv in Hp as (u' & Ha & Hp). injection Hp as <-.
      apply lookup_app_Some in Hx as [Hx | [Hle Hx]]; [by apply (IH Hv0 i x) |].
      apply list_lookup_singleton_Some in Hx as [Hi0 <-].
      assert (Huh : 0 <= detectorUpgradeHeight c target v < 2 ^ 32).
      { unfold detectorUpgradeHeight, calculateUpgradeHeight. rewrite Hu, Z.eqb_refl. destruct (Z.eqb_spec v UNDEF_HEIGHT); [done |]. apply Z.mod_pos_bound. lia. }
      destruct (Z.leb_spec (Z.of_nat (length chain + 1)) (detectorUpgradeHeight c target v)); [lia |].
      rewrite u32_small in Ha by lia.
      destruct (Z.eqb_spec (Z.of_nat (length chain + 1)) (detectorUpgradeHeight c target v + 1)); [lia |].
      unfold assert_ in Ha. destruct (Z.eqb_spec (bv_major b) target); done.
  - unfold blockPopped in Hp. destruct (Z.eqb_spec v UNDEF_HEIGHT) as [-> | Hv0]; cbn [negb] in Hp; [by injection Hp as <- |].
    apply outcome_bind_inv in Hp as (u & _ & Hp). destruct (_ =? v); [by injection Hp as <- |].
    apply outcome_bind_inv in Hp as (u' & _ & Hp). injection Hp as <-. apply (IH Hne i x); [by apply lookup_app_l_Some | done | done].
Qed.

(** A complete vote has a voter. *)
Lemma complete_vote chain h : voting_open -> complete_at chain h = true -> exists i b, (i <= h)%nat /\ chain !! i = Some b /\ bv_major b = target - 1.
Proof.
  intros [_ Hw Ht _] Hc. unfold complete_at in Hc. apply Z.leb_le in Hc. unfold window_votes in Hc.
  destruct (Nat.leb_spec window (S h)) as [Hle | _]; [| nia]. unfold votes_in in Hc.
  destruct (filter _ _) as [| b l] eqn:E; [cbn in Hc; nia |].
  assert (Hb : b ∈ filter is_vote (take window (drop (S h - window) chain))) by (rewrite E; by left).
  apply list_elem_of_filter in Hb as [Hv Hb]. apply list_elem_of_lookup in Hb as [j Hj]. apply lookup_take_Some in Hj as [Hj Hlt].
  rewrite lookup_drop in Hj. exists (S h - window + j)%nat, b. split; [lia |]. split; [done |].
  apply Is_true_true in Hv. unfold is_vote in Hv. by apply andb_true_iff in Hv as [Hv%Z.eqb_eq _].
Qed.

Lemma version_bound_at chain n b :
  (forall i x, (i < n)%nat -> chain !! i = Some x -> bv_major x < target) -> chain !! n = Some b -> target <= bv_major b -> version_lower_bound target chain = n.
Proof.
  revert n. induction chain as [| x chain IH]; intros n Hlow Hn Hb; [by rewrite lookup_nil in Hn |]. cbn [version_lower_bound].
  destruct n as [| n]; cbn [lookup list_lookup] in Hn.
  - injection Hn as ->. by destruct (Z.ltb_spec (bv_major b) target); [lia |].
  - rewrite (proj2 (Z.ltb_lt _ _) (Hlow 0%nat x ltac:(lia) eq_refl)). f_equal. apply IH; [| done | done]. intros i y Hi Hy. by apply (Hlow (S i) y); [lia |].
Qed.

(** The search from a height that is at most the largest distance above the vote. *)
Lemma find_voting chain v (top : nat) :
  voting_open -> Z.of_nat (length chain) < 2 ^ 32 - 1 -> window_fits chain -> first_complete chain v -> (top < length chain)%nat ->
  (v <> UNDEF_HEIGHT -> v <= Z.of_nat top <= v + maxUpgradeDistance c) ->
  findVotingCompleteHeight c target chain (Z.of_nat top) = Ret v.
Proof.
  intros Ho Hs [Hw Hfit] Hf Htop Hv. pose proof Ho as [Hu _ _ _]. unfold findVotingCompleteHeight. rewrite Hu, Z.eqb_refl.
  change (assert_ true) with (Ret tt). rewrite outcome_bind_ret.
  assert (Hmax : 0 <= maxUpgradeDistance c) by (apply Z.mod_pos_bound; lia).
  set (p := if _ <? _ then _ else _). assert (Hp : 0 <= p <= Z.of_nat top /\ (v <> UNDEF_HEIGHT -> p <= v \/ p = 0)).
  { unfold p. destruct (Z.ltb_spec (maxUpgradeDistance c) (Z.of_nat top)); (split; [lia |]); intros Hne; [left; specialize (Hv Hne); lia | by right]. }
  destruct Hp as [Hp Hpv]. clearbody p.
  assert (Hloop : find_loop c target (Z.to_nat (Z.of_nat top - p + 1)) (Z.of_nat (Z.to_nat p)) chain = Ret v); [| by rewrite Z2Nat.id in Hloop by lia].
  apply find_loop_spec; [done | done | lia | done | |].
  - intros h Hh. destruct Hf as [[_ Hf] | (h0 & -> & Hh0 & _ & Hf)]; [apply Hf; lia |]. apply Hf.
    destruct (Hpv (undef_not_height h0 ltac:(lia))); lia.
  - intros h -> Hne. specialize (Hv Hne). lia.
Qed.

Lemma init_finds chain v m :
  voting_open -> detector_reach chain v -> versions_follow chain v -> window_fits chain -> init c target chain m = Ret (true, v).
Proof.
  intros Ho Hr [Hsorted Hup] Hw. pose proof (reach_first _ _ Ho Hr) as Hf. pose proof (reach_small _ _ Hr) as Hs.
  pose proof (reach_upgraded _ _ Ho Hr) as Hnew. pose proof Ho as [Hu _ _ _]. destruct Hw as [Hw Hfit].
  assert (Hmax : maxUpgradeDistance c = 7 * m_upgradeWindow c) by (unfold maxUpgradeDistance; rewrite u32_small; lia).
  unfold init. rewrite Hu, Z.eqb_refl. destruct chain as [| b0 rest _] using rev_ind.
  { destruct Hf as [[-> _] | (h & _ & Hh & _)]; [done | cbn in Hh; lia]. }
  rename b0 into b. set (chain := rest ++ [b]) in *. assert (Hlen : length chain = S (length rest)) by (unfold chain; rewrite length_app; cbn; lia).
  assert (Hlast : chain !! length rest = Some b) by (unfold chain; by rewrite lookup_app_r, Nat.sub_diag by lia).
  replace (last chain) with (Some b) by (unfold chain; by rewrite last_snoc).
  assert (Huh : v <> UNDEF_HEIGHT -> detectorUpgradeHeight c target v = v + m_upgradeWindow c /\ 0 <= v < Z.of_nat (length chain) /\ target - 1 <= bv_major b).
  { intros Hne. destruct Hf as [[? _] | (h & -> & Hh & Hc & _)]; [done |]. unfold detectorUpgradeHeight, calculateUpgradeHeight.
    rewrite Hu, Z.eqb_refl. destruct (Z.eqb_spec (Z.of_nat h) UNDEF_HEIGHT); [done |]. rewrite u32_small by lia. split; [done |]. split; [lia |].
    destruct (complete_vote _ _ Ho Hc) as (i & x & Hi & Hx & Hm). rewrite <- Hm. apply (Hsorted i (length rest) x b); [lia | done | done]. }
  assert (Hundef : target <= bv_major b -> v <> UNDEF_HEIGHT).
  { intros Hb ->. specialize (Hup _ _ Hlast Hb). unfold detectorUpgradeHeight, UNDEF_HEIGHT in Hup. rewrite Hu, Z.eqb_refl in Hup. cbn in Hup. lia. }
  destruct (Z.eqb_spec (target - 1) (bv_major b)) as [Hold | Hold]; [| destruct (Z.leb_spec target (bv_major b)) as [Hge | Hlt]].
  - replace (u32 (Z.of_nat (length chain) - 1)) with (Z.of_nat (length rest)) by (rewrite u32_small; lia).
    rewrite (find_voting chain v); [done | done | done | by split | done | lia |]. intros Hne. destruct (Huh Hne) as (Ed & Hv & _). split; [lia |].
    destruct (Z.le_gt_cases (Z.of_nat (length rest)) (v + m_upgradeWindow c)); [lia |].
    specialize (Hnew Hne _ _ Hlast ltac:(lia) ltac:(lia)). lia.
  - pose proof (Hundef Hge) as Hne. destruct (Huh Hne) as (Ed & Hv & _). pose proof (Hup _ _ Hlast Hge) as Habove. rewrite Ed in Habove.
    set (u := Z.to_nat (v + m_upgradeWindow c + 1)). destruct (lookup_lt_is_Some_2 chain u) as [x Hx]; [unfold u; lia |].
    pose proof (Hnew Hne u x Hx ltac:(unfold u; lia) ltac:(unfold u; lia)) as Hxm.
    rewrite (version_bound_at chain u x); [| | done | lia].
    + rewrite Hx, Hxm, Z.eqb_refl. cbn [negb]. rewrite u32_small by (unfold u; lia). rewrite (find_voting chain v); [| done | done | by split | done | unfold u; lia | unfold u; lia].
      rewrite outcome_bind_ret. by destruct (Z.eqb_spec v UNDEF_HEIGHT).
    + intros i y Hi Hy. destruct (Z.lt_ge_cases (bv_major y) target) as [| Hy']; [done |]. specialize (Hup _ _ Hy Hy'). unfold u in Hi. lia.
  - destruct (Z.eq_dec v UNDEF_HEIGHT) as [-> | Hne]; [done |]. destruct (Huh Hne) as (_ & _ & ?). lia.
Qed.

End Votes.

(** C30: The upgrade detector is exact under reorganisations: after any sequence of pushed and popped
    blocks (the calls return, so the assertions on pushed blocks hold) its voting height is the first height whose window of blocks reaches the
    threshold (and undefined if there is none); popping a block never trips an
    assertion; and a restart ([init]) finds the same height again from the blocks alone, before and after the upgrade, when versions never
    decrease along the chain and blocks of the new version are above the upgrade height, as [Chain.checkBlockVersion] demands. *)
Theorem detector_tracks_first_vote (c : Currency) (target : Z) (chain : list BlockVersion) (v : Z) :
  voting_open c target -> detector_reach c target chain v ->
  first_complete c target chain v
  /\ (forall chain' b, chain = chain' ++ [b] ->
        exists v', blockPopped c target chain' v = Ret v' /\ first_complete c target chain' v')
  /\ (versions_follow c target chain v -> window_fits c chain -> forall m, init c target chain m = Ret (true, v)).
Proof.
  intros Ho Hr. pose proof (reach_first c target chain v Ho Hr) as Hf. pose proof (reach_small _ _ _ _ Hr) as Hs.
  split; [done |]. split.
  - intros chain' b ->. rewrite length_app in Hs. cbn [length] in Hs.
    eapply blockPopped_first; [done | lia | exact Hf].
  - intros Hv Hw m. by apply init_finds.
Qed.

(** A run of pushes. *)
Fixpoint push_blocks (c : Currency) (target : Z) (chain : list BlockVersion) (v : Z) (bs : list BlockVersion)
    : outcome Z :=
  match bs with
  | [] => Ret v
  | b :: bs => v' ← blockPushed c target (chain ++ [b]) v; push_blocks c target (chain ++ [b]) v' bs
  end.

Lemma push_blocks_reach c target bs chain v v' :
  detector_reach c target chain v -> Z.of_nat (length chain + length bs) < 2 ^ 32 - 1 ->
  push_blocks c target chain v bs = Ret v' -> detector_reach c target (chain ++ bs) v'.
Proof.
  revert chain v. induction bs as [| b bs IH]; intros chain v Hr Hs H; cbn [push_blocks length] in *.
  - injection H as <-. by rewrite app_nil_r.
  - apply outcome_bind_inv in H as (v1 & H1 & H). rewrite cons_middle, app_assoc.
    eapply IH; [| rewrite length_app; cbn [length]; lia | exact H]. eapply reach_push; [exact Hr | lia | exact H1].
Qed.

(** On the main network, 18 blocks without a vote, a full window of votes and one more window, and the first blocks of the new version. *)
Definition voting_chain : list BlockVersion := replicate 18 (mkVersion 10 0) ++ replicate 342 (mkVersion 10 1) ++ replicate 3 (mkVersion 11 0).

Lemma voting_chain_versions i b : voting_chain !! i = Some b -> bv_major b = if (i <? 360)%nat then 10 else 11.
Proof.
  unfold voting_chain. intros [H | [Hi [H | [Hi2 H]]%lookup_app_Some]]%lookup_app_Some; apply lookup_replicate in H as [-> H];
    rewrite ?length_replicate in *; destruct (Nat.ltb_spec i 360); cbn [bv_major]; lia.
Qed.

Lemma voting_chain_follows : versions_follow mainnet 11 voting_chain 179.
Proof.
  split.
  - intros i j a b Hij ->%voting_chain_versions ->%voting_chain_versions. destruct (Nat.ltb_spec i 360), (Nat.ltb_spec j 360); lia.
  - intros i b Hb. rewrite (voting_chain_versions i b Hb). change (detectorUpgradeHeight mainnet 11 179) with 359. destruct (Nat.ltb_spec i 360); lia.
Qed.

Lemma detector_tracks_first_vote_witness :
  first_complete mainnet 11 voting_chain 179
  /\ (forall chain' b, voting_chain = chain' ++ [b] ->
        exists v', blockPopped mainnet 11 chain' 179 = Ret v' /\ first_complete mainnet 11 chain' v')
  /\ init mainnet 11 voting_chain UNDEF_HEIGHT = Ret (true, 179).
Proof.
  destruct (detector_tracks_first_vote mainnet 11 voting_chain 179) as (H1 & H2 & H3).
  - constructor; vm_compute; try reflexivity; split; reflexivity || (intros ?; discriminate).
  - apply (push_blocks_reach mainnet 11 voting_chain [] UNDEF_HEIGHT 179); [constructor | vm_compute; reflexivity |].
    vm_compute. reflexivity.
  - split; [exact H1 |]. split; [exact H2 |]. apply H3; [exact voting_chain_follows |]. split; vm_compute; reflexivity.
Defined.
