(* ===== verification/Sync.v ===== *)
(** Block synchronisation.  The node side: [BlockIndex] ([src/src/CryptoNoteCore/BlockIndex.h],
    [BlockIndex.cpp]) and [Blockchain::findBlockchainSupplement].  The wallet side:
    [SynchronizationState] ([src/src/Transfers/SynchronizationState.cpp]) and
    the update of one consumer in [BlockchainSynchronizer::updateConsumers]. *)

From S2P Require Import Prelude BankingIndex.

(** * [BlockIndex]

    The multi-index container keeps the hashes by height, each one once. *)

Record BlockIndex := mkBlockIndex { m_container : list Hash }.

(** The height of a hash in a chain. *)
Fixpoint height_of (h : Hash) (l : list Hash) : option nat :=
  match l with
  | [] => None
  | x :: l => if decide (x = h) then Some 0%nat else S <$> height_of h l
  end.

Definition hasBlock (b : BlockIndex) (h : Hash) : bool := match height_of h (m_container b) with Some _ => true | None => false end.

Definition push (b : BlockIndex) (h : Hash) : bool * BlockIndex :=
  if hasBlock b h then (false, b) else (true, mkBlockIndex (m_container b ++ [h])).

Definition pop (b : BlockIndex) : outcome BlockIndex :=
  match m_container b with [] => Undefined | l => Ret (mkBlockIndex (pop_back l)) end.

Definition getBlockHeight (b : BlockIndex) (h : Hash) : option Z :=
  (fun n => u32 (Z.of_nat n)) <$> height_of h (m_container b).

Definition size (b : BlockIndex) : Z := u32 (Z.of_nat (length (m_container b))).

Definition getBlockId (b : BlockIndex) (height : Z) : outcome Hash :=
  _ ← assert_ (height <? Z.of_nat (length (m_container b)));
  vec_at (m_container b) height.

Definition getBlockIds (b : BlockIndex) (startBlockIndex maxCount : Z) : list Hash :=
  let n := Z.of_nat (length (m_container b)) in
  if n <=? startBlockIndex then []
  else take (Z.to_nat (Z.min maxCount (n - startBlockIndex))) (drop (Z.to_nat startBlockIndex) (m_container b)).

(** The height of the first known hash. *)
Fixpoint findSupplement (b : BlockIndex) (ids : list Hash) : option Z :=
  match ids with
  | [] => None
  | id :: ids => match getBlockHeight b id with Some offset => Some offset | None => findSupplement b ids end
  end.

(** [for (i = 1; i <= sparseChainEnd; i *= 2)]; [fuel] bounds the rounds. *)
Fixpoint sparse_loop (fuel : nat) (b : BlockIndex) (sparseChainEnd i : Z) : outcome (list Hash) :=
  match fuel with
  | O => Undefined
  | S fuel =>
      if i <=? sparseChainEnd then
        h ← vec_at (m_container b) (sparseChainEnd - i);
        rest ← sparse_loop fuel b sparseChainEnd (u64 (i * 2));
        Ret (h :: rest)
      else Ret []
  end.

Definition buildSparseChain (b : BlockIndex) (startBlockId : Hash) : outcome (list Hash) :=
  match getBlockHeight b startBlockId with
  | None => AssertFail
  | Some startBlockHeight =>
      result ← sparse_loop 65 b (u32 (startBlockHeight + 1)) 1;
      genesis ← vec_at (m_container b) 0;
      match last result with
      | None => Undefined
      | Some h => Ret (if decide (h = genesis) then result else result ++ [genesis])
      end
  end.

Definition getTailId (b : BlockIndex) : outcome Hash :=
  match last (m_container b) with None => AssertFail | Some h => Ret h end.

(** [Blockchain::findBlockchainSupplement], both forms. *)
Definition findBlockchainSupplement (b : BlockIndex) (qblock_ids : list Hash) : outcome Z :=
  match last qblock_ids with
  | None => AssertFail
  | Some h =>
      g ← getBlockId b 0;
      _ ← assert_ (bool_decide (h = g));
      match findSupplement b qblock_ids with Some blockIndex => Ret blockIndex | None => Undefined end
  end.

(** The ids, the total block count and the start index. *)
Definition findBlockchainSupplementIds (b : BlockIndex) (remoteBlockIds : list Hash) (maxCount : Z)
    : outcome (list Hash * Z * Z) :=
  startBlockIndex ← findBlockchainSupplement b remoteBlockIds;
  Ret (getBlockIds b startBlockIndex (u32 maxCount), size b, startBlockIndex).

(** * [SynchronizationState] *)

Record SynchronizationState := mkSync { m_blockchain : list Hash }.

Record BlockchainInterval := mkInterval { startHeight : Z; interval_blocks : list Hash }.

Record CheckResult := mkCheck { detachRequired : bool; detachHeight : Z; hasNewBlocks : bool; newBlockHeight : Z }.

Fixpoint history_loop (fuel : nat) (l : list Hash) (sz i current_multiplier current_back_offset : Z)
    : outcome (list Hash) :=
  match fuel with
  | O => Undefined
  | S fuel =>
      if current_back_offset <? sz then
        h ← vec_at l (sz - current_back_offset);
        rest ←
          (if i <? 10 then history_loop fuel l sz (i + 1) current_multiplier (u32 (current_back_offset + 1))
           else
             let current_multiplier := u32 (current_multiplier * 2) in
             history_loop fuel l sz (i + 1) current_multiplier (u32 (current_back_offset + current_multiplier)));
        Ret (h :: rest)
      else Ret []
  end.

(** [genesis_included] stays false: the loop stops before offset [sz]. *)
Definition getShortHistory (s : SynchronizationState) (localHeight : Z) : outcome (list Hash) :=
  let sz := Z.min (u32 (Z.of_nat (length (m_blockchain s)))) (u32 (localHeight + 1)) in
  if sz =? 0 then Ret []
  else
    history ← history_loop (S (Z.to_nat sz)) (m_blockchain s) sz 0 1 1;
    genesis ← vec_at (m_blockchain s) 0;
    Ret (history ++ [genesis]).

(** The first index from [i] on, for [n] rounds, where the chain and the interval differ. *)
Fixpoint mismatch (n : nat) (i : Z) (l : list Hash) (interval : BlockchainInterval) : outcome (option Z) :=
  match n with
  | O => Ret None
  | S n =>
      a ← vec_at l i;
      b ← vec_at (interval_blocks interval) (i - startHeight interval);
      if decide (a = b) then mismatch n (i + 1) l interval else Ret (Some i)
  end.

Definition checkInterval (s : SynchronizationState) (interval : BlockchainInterval) : outcome CheckResult :=
  let size := Z.of_nat (length (m_blockchain s)) in
  _ ← assert_ (startHeight interval <=? size);
  let intervalEnd := u32 (startHeight interval + u32 (Z.of_nat (length (interval_blocks interval)))) in
  let iterationEnd := Z.min (u32 size) intervalEnd in
  m ← mismatch (Z.to_nat (iterationEnd - startHeight interval)) (startHeight interval) (m_blockchain s) interval;
  match m with
  | Some i => Ret (mkCheck true i true i)
  | None => if size <? intervalEnd then Ret (mkCheck false 0 true (u32 size)) else Ret (mkCheck false 0 false 0)
  end.

Definition detach (s : SynchronizationState) (height : Z) : outcome SynchronizationState :=
  _ ← assert_ (height <? Z.of_nat (length (m_blockchain s)));
  Ret (mkSync (take (Z.to_nat height) (m_blockchain s))).

Definition addBlocks (s : SynchronizationState) (blockHashes : list Hash) (height : Z) : outcome SynchronizationState :=
  _ ← assert_ (Z.of_nat (length (m_blockchain s)) =? height);
  Ret (mkSync (m_blockchain s ++ blockHashes)).

Definition getHeight (s : SynchronizationState) : Z := u32 (Z.of_nat (length (m_blockchain s))).

(** [BlockchainSynchronizer::updateConsumers], one consumer; [onNewBlocks] is its answer.
    The result is [None] when the consumer fails, else whether something changed. *)
Definition updateConsumer (s : SynchronizationState) (interval : BlockchainInterval) (onNewBlocks : bool)
    : outcome (option bool * SynchronizationState) :=
  result ← checkInterval s interval;
  s ← (if detachRequired result then detach s (detachHeight result) else Ret s);
  if hasNewBlocks result then
    let startOffset := u32 (newBlockHeight result - startHeight interval) in
    if onNewBlocks then
      s ← addBlocks s (drop (Z.to_nat startOffset) (interval_blocks interval)) (newBlockHeight result);
      Ret (Some true, s)
    else Ret (None, s)
  else Ret (Some false, s).

(** * Heights *)

Lemma height_of_lookup h l n : height_of h l = Some n -> l !! n = Some h.
Proof.
  revert n. induction l as [| x l IH]; intros n H; cbn [height_of] in H; [done |].
  destruct (decide (x = h)) as [-> |]; [by injection H as <- |].
  destruct (height_of h l) as [k |]; [| done]. injection H as <-. cbn. by apply IH.
Qed.

Lemma height_of_none h l : height_of h l = None <-> h ∉ l.
Proof.
  induction l as [| x l IH]; cbn [height_of]; [split; [intros _; apply not_elem_of_nil | done] |].
  rewrite not_elem_of_cons. destruct (decide (x = h)) as [-> | Hne]; [split; [done | intros [? _]; done] |].
  destruct (height_of h l); cbn; rewrite <- IH; split; try done. by intros [_ ?].
Qed.

Lemma height_of_nodup h l n : NoDup l -> l !! n = Some h -> height_of h l = Some n.
Proof.
  intros Hnd Hl. destruct (height_of h l) as [k |] eqn:E.
  - apply height_of_lookup in E. f_equal. by eapply NoDup_lookup.
  - apply height_of_none in E. exfalso. apply E. by eapply list_elem_of_lookup_2.
Qed.

(** [push] keeps the hashes distinct, and [pop] undoes it. *)
Lemma push_nodup b h : NoDup (m_container b) -> NoDup (m_container (push b h).2).
Proof.
  intros Hnd. unfold push, hasBlock. destruct (height_of h (m_container b)) eqn:E; [done |].
  apply height_of_none in E. cbn. apply NoDup_app. split; [done |]. split; [| by apply NoDup_singleton].
  intros x Hx ->%list_elem_of_singleton. done.
Qed.

Lemma push_pop b h : (push b h).1 = true -> pop (push b h).2 = Ret b.
Proof.
  unfold push. destruct (hasBlock b h); [done |]. intros _. unfold pop. cbn [m_container snd].
  destruct (m_container b ++ [h]) eqn:E; [by destruct (m_container b) |]. rewrite <- E, pop_back_snoc. by destruct b.
Qed.

(** * Sparse histories

    A history of a chain lists some of its blocks from the newest to the first one, at the
    heights [js]. *)
Record history_of (chain : list Hash) (hist : list Hash) (js : list nat) : Prop := {
  ho_blocks : Forall2 (fun h j => chain !! j = Some h) hist js;
  ho_decreasing : StronglySorted (fun a b => (b < a)%nat) js;
  ho_genesis : last js = Some 0%nat
}.

(** What the node's sparse chain and the wallet's short history promise to the node that
    receives them. *)
Class HistoryBuilder (S : Type) := {
  hb_chain : S -> list Hash;
  hb_valid : S -> Prop;
  hb_history : S -> outcome (list Hash);
  hb_spec s : hb_valid s -> exists hist js, hb_history s = Ret hist /\ history_of (hb_chain s) hist js
}.

Lemma history_of_genesis chain hist js : history_of chain hist js -> last hist = chain !! 0%nat.
Proof.
  intros [Hb _ Hg]. destruct js as [| j js _] using rev_ind; [done |]. rewrite last_snoc in Hg. injection Hg as ->.
  apply Forall2_app_inv_r in Hb as (h1 & h2 & _ & Hb & ->). apply Forall2_cons_inv_r in Hb as (h & h3 & Hh & Hb & ->).
  apply Forall2_nil_inv_r in Hb as ->. by rewrite last_snoc.
Qed.

Lemma history_loop_spec fuel l sz i mult cbo :
  0 <= i -> 1 <= mult <= cbo -> sz <= 2 ^ 30 -> sz <= Z.of_nat (length l) ->
  (0 < fuel)%nat -> sz < cbo + Z.of_nat fuel ->
  exists hist js, history_loop fuel l sz i mult cbo = Ret hist
    /\ Forall2 (fun h j => l !! j = Some h) hist js
    /\ StronglySorted (fun a b => (b < a)%nat) js
    /\ Forall (fun j => 0 < Z.of_nat j <= sz - cbo) js.
Proof.
  revert i mult cbo. induction fuel as [| fuel IH]; intros i mult cbo Hi Hm Hsz Hl Hf0 Hf;
    cbn [history_loop]; [lia |].
  destruct (Z.ltb_spec cbo sz) as [Hlt | Hge]; [| exists [], []; repeat split; constructor].
  destruct (lookup_lt_is_Some_2 l (Z.to_nat (sz - cbo))) as [h Hh]; [lia |].
  rewrite (vec_at_lookup l _ h), outcome_bind_ret by (done || lia).
  assert (Hrest : exists hist js d, (if i <? 10 then history_loop fuel l sz (i + 1) mult (u32 (cbo + 1))
      else history_loop fuel l sz (i + 1) (u32 (mult * 2)) (u32 (cbo + u32 (mult * 2)))) = Ret hist
      /\ 1 <= d /\ Forall2 (fun h j => l !! j = Some h) hist js /\ StronglySorted (fun a b => (b < a)%nat) js
      /\ Forall (fun j => 0 < Z.of_nat j <= sz - (cbo + d)) js).
  { destruct (Z.ltb_spec i 10).
    - rewrite u32_small by lia. destruct (IH (i + 1) mult (cbo + 1)) as (hist & js & H1 & H2 & H3 & H4); [lia.. |].
      exists hist, js, 1. repeat split; done || lia.
    - rewrite (u32_small (mult * 2)), u32_small by lia.
      destruct (IH (i + 1) (mult * 2) (cbo + mult * 2)) as (hist & js & H1 & H2 & H3 & H4); [lia.. |].
      exists hist, js, (mult * 2). repeat split; done || lia. }
  destruct Hrest as (hist & js & d & -> & Hd & H2 & H3 & H4). rewrite outcome_bind_ret.
  exists (h :: hist), (Z.to_nat (sz - cbo) :: js). split; [done |]. split; [by constructor |]. split.
  - constructor; [done |]. eapply Forall_impl; [exact H4 |]. simpl. lia.
  - constructor; [lia |]. eapply Forall_impl; [exact H4 |]. simpl. lia.
Qed.

Lemma history_snoc_genesis l hist js g :
  l !! 0%nat = Some g -> Forall2 (fun h j => l !! j = Some h) hist js ->
  StronglySorted (fun a b => (b < a)%nat) js -> Forall (fun j => (0 < j)%nat) js ->
  history_of l (hist ++ [g]) (js ++ [0%nat]).
Proof.
  intros Hg Hb Hs Hp. constructor.
  - apply Forall2_app; [done |]. by constructor.
  - apply StronglySorted_snoc. by split.
  - apply last_snoc.
Qed.

Lemma getShortHistory_spec s localHeight :
  m_blockchain s <> [] -> Z.of_nat (length (m_blockchain s)) <= 2 ^ 30 -> 0 <= localHeight < 2 ^ 32 - 1 ->
  exists hist js, getShortHistory s localHeight = Ret hist /\ history_of (m_blockchain s) hist js.
Proof.
  intros Hne Hl Hh. unfold getShortHistory. assert (0 < Z.of_nat (length (m_blockchain s))).
  { destruct (m_blockchain s); [done |]. cbn [length]. lia. }
  rewrite !u32_small by lia. set (sz := Z.min _ _).
  destruct (Z.eqb_spec sz 0); [lia |].
  destruct (history_loop_spec (S (Z.to_nat sz)) (m_blockchain s) sz 0 1 1) as (hist & js & -> & Hb & Hs & Hp); [lia.. |].
  rewrite outcome_bind_ret. destruct (lookup_lt_is_Some_2 (m_blockchain s) 0) as [g Hg]; [lia |].
  rewrite (vec_at_lookup _ _ g), outcome_bind_ret by (done || lia).
  exists (hist ++ [g]), (js ++ [0%nat]). split; [done |]. apply history_snoc_genesis; try done.
  eapply Forall_impl; [exact Hp |]. simpl. lia.
Qed.

Lemma sparse_loop_spec fuel b e i :
  1 <= i -> e <= Z.of_nat (length (m_container b)) -> e < 2 ^ 32 -> (0 < fuel)%nat ->
  e < i * 2 ^ (Z.of_nat fuel - 1) ->
  exists hist js, sparse_loop fuel b e i = Ret hist
    /\ Forall2 (fun h j => m_container b !! j = Some h) hist js
    /\ StronglySorted (fun a b => (b < a)%nat) js
    /\ Forall (fun j => 0 <= Z.of_nat j <= e - i) js
    /\ (i <= e -> hist <> []).
Proof.
  revert i. induction fuel as [| fuel IH]; intros i Hi Hl He Hf0 Hf; cbn [sparse_loop]; [lia |].
  destruct (Z.leb_spec i e) as [Hle | Hgt];
    [| exists [], []; split; [done |]; repeat split; try constructor; lia].
  destruct (lookup_lt_is_Some_2 (m_container b) (Z.to_nat (e - i))) as [h Hh]; [lia |].
  rewrite (vec_at_lookup _ _ h), outcome_bind_ret by (done || lia). rewrite u64_small by lia.
  assert (Hfuel : (0 < fuel)%nat).
  { destruct fuel; [| lia]. change (2 ^ (Z.of_nat 1 - 1)) with 1 in Hf. lia. }
  destruct (IH (i * 2)) as (hist & js & -> & H2 & H3 & H4 & _); [lia | done | done | done | |].
  { replace (Z.of_nat (S fuel) - 1) with (Z.succ (Z.of_nat fuel - 1)) in Hf by lia.
    rewrite Z.pow_succ_r in Hf by lia. lia. }
  rewrite outcome_bind_ret. exists (h :: hist), (Z.to_nat (e - i) :: js). split; [done |].
  split; [by constructor |]. split; [| split; [| done]].
  - constructor; [done |]. eapply Forall_impl; [exact H4 |]. simpl. lia.
  - constructor; [lia |]. eapply Forall_impl; [exact H4 |]. simpl. lia.
Qed.

Lemma sorted_last_zero js j :
  StronglySorted (fun a b => (b < a)%nat) (js ++ [j]) -> (0 < j)%nat -> Forall (fun x => (0 < x)%nat) (js ++ [j]).
Proof.
  intros Hs Hj. apply StronglySorted_snoc in Hs as [_ Hs]. apply Forall_app. split; [| by constructor].
  eapply Forall_impl; [exact Hs |]. simpl. lia.
Qed.

Lemma buildSparseChain_spec b h :
  NoDup (m_container b) -> Z.of_nat (length (m_container b)) < 2 ^ 32 -> h ∈ m_container b ->
  exists hist js, buildSparseChain b h = Ret hist /\ history_of (m_container b) hist js.
Proof.
  intros Hnd Hl Hin. apply list_elem_of_lookup_1 in Hin as [n Hn]. pose proof (lookup_lt_Some _ _ _ Hn) as Hlt.
  unfold buildSparseChain, getBlockHeight. rewrite (height_of_nodup _ _ _ Hnd Hn). cbn [fmap option_fmap option_map].
  rewrite (u32_small (Z.of_nat n)), u32_small by lia.
  destruct (sparse_loop_spec 65 b (Z.of_nat n + 1) 1) as (hist & js & -> & Hb & Hs & _ & Hne); [lia.. |].
  rewrite outcome_bind_ret. destruct (lookup_lt_is_Some_2 (m_container b) 0) as [g Hg]; [lia |].
  rewrite (vec_at_lookup _ _ g), outcome_bind_ret by (done || lia).
  destruct hist as [| x hist _] using rev_ind; [by destruct (Hne ltac:(lia)) |]. rewrite last_snoc.
  pose proof Hb as Hb'. apply Forall2_app_inv_l in Hb' as (j1 & j2 & Hb1 & Hb2 & ->).
  apply Forall2_cons_inv_l in Hb2 as (j & j3 & Hx & Hb3 & ->). apply Forall2_nil_inv_l in Hb3 as ->.
  destruct (decide (x = g)) as [-> | Hxg].
  - exists (hist ++ [g]), (j1 ++ [j]). split; [done |]. constructor; [done | done |].
    rewrite last_snoc. f_equal. by eapply NoDup_lookup.
  - exists ((hist ++ [x]) ++ [g]), ((j1 ++ [j]) ++ [0%nat]). split; [done |].
    apply history_snoc_genesis; [done | done | done |]. apply sorted_last_zero; [done |].
    destruct j; [congruence | lia].
Qed.

(** The two builders: the tail of a node, and a wallet that knows the height of its node. *)

Definition tailHistory (b : BlockIndex) : outcome (list Hash) := h ← getTailId b; buildSparseChain b h.

Lemma tailHistory_spec b :
  NoDup (m_container b) /\ Z.of_nat (length (m_container b)) < 2 ^ 32 /\ m_container b <> [] ->
  exists hist js, tailHistory b = Ret hist /\ history_of (m_container b) hist js.
Proof.
  intros (Hnd & Hl & Hne). unfold tailHistory, getTailId. destruct (last (m_container b)) as [h |] eqn:E.
  - rewrite outcome_bind_ret. apply buildSparseChain_spec; [done | done |]. by apply last_Some_elem_of.
  - by apply last_None in E.
Qed.

#[export] Instance BlockIndex_history : HistoryBuilder BlockIndex := {|
  hb_chain := m_container;
  hb_valid b := NoDup (m_container b) /\ Z.of_nat (length (m_container b)) < 2 ^ 32 /\ m_container b <> [];
  hb_history := tailHistory;
  hb_spec := tailHistory_spec
|}.

Record wallet := mkWallet { wl_state : SynchronizationState; wl_localHeight : Z }.

Lemma wallet_history_spec w :
  m_blockchain (wl_state w) <> [] /\ Z.of_nat (length (m_blockchain (wl_state w))) <= 2 ^ 30
    /\ 0 <= wl_localHeight w < 2 ^ 32 - 1 ->
  exists hist js, getShortHistory (wl_state w) (wl_localHeight w) = Ret hist
    /\ history_of (m_blockchain (wl_state w)) hist js.
Proof. intros (H1 & H2 & H3). by apply getShortHistory_spec. Qed.

#[export] Instance wallet_history : HistoryBuilder wallet := {|
  hb_chain w := m_blockchain (wl_state w);
  hb_valid w := m_blockchain (wl_state w) <> [] /\ Z.of_nat (length (m_blockchain (wl_state w))) <= 2 ^ 30
                /\ 0 <= wl_localHeight w < 2 ^ 32 - 1;
  hb_history w := getShortHistory (wl_state w) (wl_localHeight w);
  hb_spec := wallet_history_spec
|}.

(** * The node answers a history *)

(** Equal hashes stand for equal chains up to them: a block hash covers the hash of the block
    before it. *)
Definition hash_linked (n w : list Hash) : Prop :=
  forall i j h, n !! i = Some h -> w !! j = Some h -> i = j /\ take i n = take i w.

Lemma findSupplement_spec b chain hist js :
  NoDup (m_container b) -> Z.of_nat (length (m_container b)) < 2 ^ 32 -> history_of chain hist js ->
  m_container b !! 0%nat = chain !! 0%nat ->
  exists off j h, findSupplement b hist = Some (Z.of_nat off) /\ j ∈ js
    /\ m_container b !! off = Some h /\ chain !! j = Some h
    /\ forall j' h', j' ∈ js -> (j < j')%nat -> chain !! j' = Some h' -> h' ∉ m_container b.
Proof.
  intros Hnd Hl [Hb Hs Hg] H0. revert Hs Hg. induction Hb as [| h j hist js Hj Hb IH]; intros Hs Hg; [done |].
  cbn [findSupplement]. unfold getBlockHeight. destruct (height_of h (m_container b)) as [off |] eqn:E.
  - cbn [fmap option_fmap option_map]. apply height_of_lookup in E. pose proof (lookup_lt_Some _ _ _ E).
    rewrite u32_small by lia. exists off, j, h. split; [done |]. split; [by constructor |]. split; [done |].
    split; [done |]. intros j' h' Hj' Hlt. apply elem_of_cons in Hj' as [-> | Hj']; [lia |].
    apply StronglySorted_inv in Hs as [_ Hs]. rewrite Forall_forall in Hs. specialize (Hs _ Hj'). lia.
  - cbn [fmap option_fmap option_map]. apply height_of_none in E. destruct js as [| j1 js].
    + cbn in Hg. injection Hg as ->. rewrite Hj in H0. exfalso. apply E. by eapply list_elem_of_lookup_2.
    + apply StronglySorted_inv in Hs as [Hs Hlt]. rewrite last_cons_cons in Hg.
      destruct (IH Hs Hg) as (off & k & x & Hf & Hk & Hn & Hc & Hmax). exists off, k, x. split; [done |].
      split; [by constructor |]. split; [done |]. split; [done |]. intros j' h' Hj' Hkj Hh'.
      apply elem_of_cons in Hj' as [-> | Hj']; [| by eapply Hmax]. congruence.
Qed.

Lemma supplement_ids_spec b w hist js maxCount :
  NoDup (m_container b) -> Z.of_nat (length (m_container b)) < 2 ^ 32 -> history_of w hist js ->
  m_container b <> [] -> m_container b !! 0%nat = w !! 0%nat -> hash_linked (m_container b) w ->
  0 <= maxCount < 2 ^ 32 ->
  exists off h, m_container b !! off = Some h /\ w !! off = Some h
    /\ take off (m_container b) = take off w
    /\ (forall k x, (off < k)%nat -> w !! k = Some x -> x ∈ hist -> x ∉ m_container b)
    /\ findBlockchainSupplementIds b hist maxCount
       = Ret (take (Z.to_nat maxCount) (drop off (m_container b)), Z.of_nat (length (m_container b)), Z.of_nat off).
Proof.
  intros Hnd Hl Hh Hne H0 Hlink Hmax.
  destruct (findSupplement_spec b w hist js Hnd Hl Hh H0) as (off & j & h & Hf & _ & Hn & Hw & Hnewest).
  destruct (Hlink off j h Hn Hw) as [-> Htake]. exists j, h. split; [done |]. split; [done |]. split; [done |]. split.
  { intros k x Hk Hx Hin Hxn. apply list_elem_of_lookup_1 in Hxn as [i Hi]. destruct (Hlink i k x Hi Hx) as [-> _].
    apply list_elem_of_lookup_1 in Hin as [p Hp]. destruct (Forall2_lookup_l _ _ _ _ _ (ho_blocks _ _ _ Hh) Hp) as (q & Hq & Hqx).
    assert (q = k) as -> by (destruct (Hlink k q x Hi Hqx); done).
    apply (Hnewest k x); [by eapply list_elem_of_lookup_2 | done | done |]. by eapply list_elem_of_lookup_2. }
  assert (Hpos : (0 < length (m_container b))%nat) by (destruct (m_container b); [done | cbn [length]; lia]).
  destruct (lookup_lt_is_Some_2 (m_container b) 0) as [g Hg]; [done |].
  unfold findBlockchainSupplementIds, findBlockchainSupplement.
  rewrite (history_of_genesis _ _ _ Hh), <- H0, Hg. unfold getBlockId.
  rewrite (assert_true (0 <? _)), outcome_bind_ret by (apply Z.ltb_lt; lia).
  rewrite (vec_at_lookup _ _ g), outcome_bind_ret by (done || lia).
  rewrite assert_true, outcome_bind_ret by (by apply bool_decide_eq_true).
  rewrite Hf, outcome_bind_ret, (u32_small maxCount) by done. unfold getBlockIds, size.
  pose proof (lookup_lt_Some _ _ _ Hn). rewrite (u32_small (Z.of_nat _)) by lia.
  destruct (Z.leb_spec (Z.of_nat (length (m_container b))) (Z.of_nat j)); [lia |].
  rewrite Nat2Z.id. do 3 f_equal. rewrite Z2Nat.inj_min.
  replace (Z.to_nat (Z.of_nat (length (m_container b)) - Z.of_nat j)) with (length (drop j (m_container b)))
    by (rewrite length_drop; lia).
  destruct (Nat.le_ge_cases (Z.to_nat maxCount) (length (drop j (m_container b)))).
  - by rewrite Nat.min_l.
  - rewrite Nat.min_r by done. by rewrite !take_ge by done.
Qed.

(** * The wallet takes the answer *)

Lemma mismatch_spec k i n w off ids :
  (off <= i)%nat -> ids = take (length ids) (drop off n) -> (i + k <= off + length ids)%nat -> (i + k <= length w)%nat ->
  (mismatch k (Z.of_nat i) w (mkInterval (Z.of_nat off) ids) = Ret None
   /\ forall x, (i <= x < i + k)%nat -> w !! x = n !! x)
  \/ (exists j, mismatch k (Z.of_nat i) w (mkInterval (Z.of_nat off) ids) = Ret (Some (Z.of_nat j))
      /\ (i <= j < i + k)%nat /\ w !! j <> n !! j /\ forall x, (i <= x < j)%nat -> w !! x = n !! x).
Proof.
  intros Hoff Hids. revert i Hoff. induction k as [| k IH]; intros i Hoff Hk1 Hk2; cbn [mismatch].
  - left. split; [done |]. intros x Hx. lia.
  - destruct (lookup_lt_is_Some_2 w i) as [a Ha]; [lia |].
    destruct (lookup_lt_is_Some_2 ids (i - off)) as [c Hc]; [lia |].
    rewrite (vec_at_lookup w _ a), outcome_bind_ret by (rewrite ?Nat2Z.id; done || lia).
    cbn [interval_blocks startHeight].
    rewrite (vec_at_lookup ids _ c), outcome_bind_ret by (try lia; rewrite <- Hc; f_equal; lia).
    assert (Hn : n !! i = Some c).
    { rewrite Hids, lookup_take, lookup_drop in Hc.
      destruct (decide _); [| done]. rewrite <- Hc. f_equal. lia. }
    destruct (decide (a = c)) as [-> | Hne].
    + replace (Z.of_nat i + 1) with (Z.of_nat (S i)) by lia.
      destruct (IH (S i)) as [[-> Hag] | (j & -> & Hj & Hne & Hag)]; [lia | lia | lia | left | right].
      * split; [done |]. intros x Hx. destruct (decide (x = i)) as [-> |]; [congruence |]. apply Hag. lia.
      * exists j. split; [done |]. split; [lia |]. split; [done |]. intros x Hx.
        destruct (decide (x = i)) as [-> |]; [congruence |]. apply Hag. lia.
    + right. exists i. split; [done |]. split; [lia |]. split; [congruence |]. intros x Hx. lia.
Qed.

Lemma agree_take (n w : list Hash) off j :
  take off w = take off n -> (forall x, (off <= x < j)%nat -> w !! x = n !! x) -> (off <= j)%nat ->
  take j w = take j n.
Proof.
  intros Ht Ha Hj. apply list_eq. intros x. destruct (decide (x < j)%nat) as [Hx |].
  - rewrite !lookup_take_lt by done. destruct (decide (x < off)%nat).
    + assert (take off w !! x = take off n !! x) by (by rewrite Ht). by rewrite !lookup_take_lt in * by done.
    + apply Ha. lia.
  - rewrite !lookup_take_ge by lia. done.
Qed.

Lemma update_joins (n w : list Hash) off ids j :
  ids = take (length ids) (drop off n) -> (off <= j)%nat -> take j w = take j n -> (j <= off + length ids)%nat ->
  take j w ++ drop (j - off) ids = take (off + length ids) n.
Proof.
  intros Hids Hj Ht Hle. rewrite Ht, Hids at 1. rewrite skipn_firstn_comm, drop_drop.
  replace (off + (j - off))%nat with j by lia.
  replace (length ids - (j - off))%nat with (off + length ids - j)%nat by lia.
  rewrite take_take_drop. f_equal. lia.
Qed.

(** [checkInterval] on the blocks of a node that agrees with the wallet below them: they are known, they go on where the wallet's chain ends, or they
    depart from it at [j]. *)
Lemma checkInterval_cases n w off ids :
  ids = take (length ids) (drop off n) -> (off <= length w)%nat -> take off w = take off n ->
  (off + length ids <= length n)%nat -> Z.of_nat (length n) < 2 ^ 32 -> Z.of_nat (length w) < 2 ^ 32 ->
  let m := (off + length ids)%nat in
  let check := checkInterval (mkSync w) (mkInterval (Z.of_nat off) ids) in
  (check = Ret (mkCheck false 0 false 0) /\ (m <= length w)%nat /\ take m w = take m n)
  \/ (check = Ret (mkCheck false 0 true (Z.of_nat (length w))) /\ (length w < m)%nat /\ w = take (length w) n)
  \/ (exists j, check = Ret (mkCheck true (Z.of_nat j) true (Z.of_nat j)) /\ (off <= j < m)%nat /\ (j < length w)%nat
        /\ w !! j <> n !! j /\ take j w = take j n).
Proof.
  intros Hids Hoff Ht Hm Hn Hw. unfold checkInterval. cbn [m_blockchain startHeight interval_blocks]. cbv zeta.
  rewrite (assert_true (_ <=? _)), outcome_bind_ret by (apply Z.leb_le; lia).
  rewrite (u32_small (Z.of_nat (length ids))), (u32_small (Z.of_nat off + _)), (u32_small (Z.of_nat (length w))) by lia.
  set (e := Z.min _ _).
  destruct (mismatch_spec (Z.to_nat (e - Z.of_nat off)) off n w off ids) as [[-> Hag] | (j & -> & Hj & Hne & Hag)];
    [done | done | lia | lia | |]; rewrite outcome_bind_ret.
  - destruct (Z.ltb_spec (Z.of_nat (length w)) (Z.of_nat off + Z.of_nat (length ids))) as [Hlt | Hge].
    + right. left. split; [done |]. split; [lia |]. transitivity (take (length w) w); [by rewrite take_ge |].
      apply (agree_take n w off); [done | | lia]. intros x Hx. apply Hag. lia.
    + left. split; [done |]. split; [lia |]. apply (agree_take n w off); [done | | lia]. intros x Hx. apply Hag. lia.
  - right. right. exists j. split; [done |]. split; [lia |]. split; [lia |]. split; [done |].
    apply (agree_take n w off); [done | exact Hag | lia].
Qed.

(** What a wallet that was detached to [j] blocks then adds. *)
Lemma add_interval n w off ids j :
  ids = take (length ids) (drop off n) -> (off <= j <= off + length ids)%nat -> (j <= length w)%nat -> take j w = take j n ->
  Z.of_nat j < 2 ^ 32 ->
  addBlocks (mkSync (take j w)) (drop (Z.to_nat (u32 (Z.of_nat j - Z.of_nat off))) ids) (Z.of_nat j) = Ret (mkSync (take (off + length ids) n)).
Proof.
  intros Hids Hj Hw Ht Hb. unfold addBlocks. cbn [m_blockchain]. rewrite length_take, u32_small by lia.
  rewrite assert_true, outcome_bind_ret by (apply Z.eqb_eq; lia).
  replace (Z.to_nat (Z.of_nat j - Z.of_nat off)) with (j - off)%nat by lia. by rewrite (update_joins n w off ids j Hids) by (done || lia).
Qed.

Lemma updateConsumer_spec n w off ids :
  ids = take (length ids) (drop off n) -> (off <= length w)%nat -> take off w = take off n ->
  (off + length ids <= length n)%nat -> Z.of_nat (length n) < 2 ^ 32 -> Z.of_nat (length w) < 2 ^ 32 ->
  exists changed w',
    updateConsumer (mkSync w) (mkInterval (Z.of_nat off) ids) true = Ret (Some changed, mkSync w')
    /\ take (off + length ids) w' = take (off + length ids) n
    /\ w' = if changed then take (off + length ids) n else w.
Proof.
  intros Hids Hoff Ht Hm Hn Hw. unfold updateConsumer.
  destruct (checkInterval_cases n w off ids Hids Hoff Ht Hm Hn Hw) as [(-> & Hle & Hag) | [(-> & Hlt & Hag) | (j & -> & Hj & Hjw & _ & Hag)]];
    rewrite !outcome_bind_ret; cbn [detachRequired detachHeight hasNewBlocks newBlockHeight startHeight interval_blocks]; rewrite ?outcome_bind_ret.
  - by exists false, w.
  - pose proof (add_interval n w off ids (length w) Hids ltac:(lia) ltac:(lia)) as Ha. rewrite (take_ge w) in Ha by done.
    rewrite Ha, outcome_bind_ret by (done || lia).
    exists true, (take (off + length ids) n). split; [done |]. split; [| done]. rewrite take_take. f_equal. lia.
  - unfold detach. cbn [m_blockchain]. rewrite assert_true, !outcome_bind_ret, Nat2Z.id by (apply Z.ltb_lt; lia).
    rewrite (add_interval n w off ids j Hids), outcome_bind_ret by (done || lia).
    exists true, (take (off + length ids) n). split; [done |]. split; [| done]. rewrite take_take. f_equal. lia.
Qed.

Lemma take_drop_ids (n : list Hash) c off :
  take c (drop off n) = take (length (take c (drop off n))) (drop off n).
Proof.
  rewrite length_take. destruct (Nat.le_ge_cases c (length (drop off n))).
  - by rewrite Nat.min_l.
  - rewrite Nat.min_r by done. by rewrite !take_ge.
Qed.

(** A synchronisation round is correct, whatever the reorganisation between wallet and node.  The
    wallet's sparse history is accepted by the node (same first block), the node answers with
    the blocks after the newest common block of the history, and the
    wallet's update trips no assertion and ends with the node's chain up to the end of the
    answer (or with its own chain, if that already agrees so far).  With an answer
    that reaches the node's tip the wallet holds the node's chain. *)
Theorem sync_round_correct (s : SynchronizationState) (localHeight : Z) (node : BlockIndex) (maxCount : Z) :
  m_blockchain s <> [] -> Z.of_nat (length (m_blockchain s)) <= 2 ^ 30 -> 0 <= localHeight < 2 ^ 32 - 1 ->
  NoDup (m_container node) -> Z.of_nat (length (m_container node)) < 2 ^ 32 -> m_container node <> [] ->
  m_container node !! 0%nat = m_blockchain s !! 0%nat -> hash_linked (m_container node) (m_blockchain s) ->
  0 <= maxCount < 2 ^ 32 ->
  exists hist ids off changed s' (m : nat),
    getShortHistory s localHeight = Ret hist
    /\ findBlockchainSupplementIds node hist maxCount = Ret (ids, Z.of_nat (length (m_container node)), off)
    /\ updateConsumer s (mkInterval off ids) true = Ret (Some changed, s')
    /\ Z.of_nat m = Z.min (off + maxCount) (Z.of_nat (length (m_container node)))
    /\ take m (m_blockchain s') = take m (m_container node)
    /\ m_blockchain s' = (if changed then take m (m_container node) else m_blockchain s)
    /\ (Z.of_nat (length (m_container node)) <= off + maxCount -> changed = true ->
        m_blockchain s' = m_container node).
Proof.
  intros Hne Hl Hlh Hnd Hln Hnne H0 Hlink Hmax.
  destruct (getShortHistory_spec s localHeight Hne Hl Hlh) as (hist & js & Hh & Hho).
  destruct (supplement_ids_spec node _ hist js maxCount Hnd Hln Hho Hnne H0 Hlink Hmax)
    as (off & h & Hn & Hw & Ht & _ & Hs).
  set (ids := take (Z.to_nat maxCount) (drop off (m_container node))) in *.
  pose proof (lookup_lt_Some _ _ _ Hn) as Hoffn. pose proof (lookup_lt_Some _ _ _ Hw) as Hoffw.
  assert (Hlen : length ids = Nat.min (Z.to_nat maxCount) (length (m_container node) - off))
    by (unfold ids; by rewrite length_take, length_drop).
  destruct (updateConsumer_spec (m_container node) (m_blockchain s) off ids) as (changed & w' & Hu & Htm & Hw');
    [apply take_drop_ids | lia | done | lia | done | lia |].
  exists hist, ids, (Z.of_nat off), changed, (mkSync w'), (off + length ids)%nat.
  split; [done |]. split; [done |]. split; [by destruct s |]. split; [lia |]. split; [done |]. split; [done |].
  intros Hreach ->. cbn [m_blockchain]. rewrite Hw'. rewrite take_ge by lia. done.
Qed.

(** A wallet on a branch of two blocks meets a node with another branch of four. *)
Definition fork_wallet : SynchronizationState := mkSync [[0]; [1]; [2]; [30]; [31]].
Definition fork_node : BlockIndex := mkBlockIndex [[0]; [1]; [2]; [3]; [4]; [5]; [6]].

Lemma fork_linked : hash_linked (m_container fork_node) (m_blockchain fork_wallet).
Proof.
  intros i j h Hi Hj. cbn in *.
  do 7 (destruct i as [| i]; [cbn in Hi; injection Hi as <-; do 5 (destruct j as [| j]; [cbn in Hj; try discriminate; by split |]); done |]).
  done.
Qed.

Lemma sync_round_correct_witness :
  exists hist ids off changed s' (m : nat),
    getShortHistory fork_wallet 4 = Ret hist
    /\ findBlockchainSupplementIds fork_node hist 100 = Ret (ids, 7, off)
    /\ updateConsumer fork_wallet (mkInterval off ids) true = Ret (Some changed, s')
    /\ Z.of_nat m = Z.min (off + 100) 7
    /\ take m (m_blockchain s') = take m (m_container fork_node)
    /\ m_blockchain s' = (if changed then take m (m_container fork_node) else m_blockchain fork_wallet)
    /\ (7 <= off + 100 -> changed = true -> m_blockchain s' = m_container fork_node).
Proof.
  apply (sync_round_correct fork_wallet 4 fork_node 100);
    [done | cbn; lia | lia | | cbn; lia | done | reflexivity | exact fork_linked | lia].
  refine (bool_decide_unpack (NoDup (m_container fork_node)) _). vm_compute. exact I.
Defined.

(** The interface between the two ends: any sparse history that keeps the promise of
    [HistoryBuilder] (the short history of a wallet, the sparse chain of a peer) makes a node
    with the same first block answer from a block common to both chains, below which
    the chains agree; no newer block of the history is known to the node. *)
Theorem supplement_correct {S : Type} {HB : HistoryBuilder S} (peer : S) (node : BlockIndex) :
  hb_valid peer -> NoDup (m_container node) -> Z.of_nat (length (m_container node)) < 2 ^ 32 ->
  m_container node <> [] -> m_container node !! 0%nat = hb_chain peer !! 0%nat ->
  hash_linked (m_container node) (hb_chain peer) ->
  exists hist off h, hb_history peer = Ret hist
    /\ findBlockchainSupplement node hist = Ret (Z.of_nat off)
    /\ m_container node !! off = Some h /\ hb_chain peer !! off = Some h
    /\ take off (m_container node) = take off (hb_chain peer)
    /\ (forall k x, (off < k)%nat -> hb_chain peer !! k = Some x -> x ∈ hist -> x ∉ m_container node).
Proof.
  intros Hv Hnd Hl Hne H0 Hlink. destruct (hb_spec peer Hv) as (hist & js & Hh & Hho).
  destruct (supplement_ids_spec node _ hist js 0 Hnd Hl Hho Hne H0 Hlink ltac:(lia)) as (off & h & Hn & Hp & Ht & Hnewest & Hs).
  unfold findBlockchainSupplementIds in Hs. apply outcome_bind_inv in Hs as (o & Hs & E). injection E as _ _ ->.
  exists hist, off, h. split; [done |]. split; [done |]. split; [done |]. split; [done |]. split; [done |]. exact Hnewest.
Qed.

Lemma supplement_correct_witness :
  exists hist off h, getShortHistory fork_wallet 4 = Ret hist
    /\ findBlockchainSupplement fork_node hist = Ret (Z.of_nat off)
    /\ m_container fork_node !! off = Some h /\ m_blockchain fork_wallet !! off = Some h
    /\ take off (m_container fork_node) = take off (m_blockchain fork_wallet)
    /\ (forall k x, (off < k)%nat -> m_blockchain fork_wallet !! k = Some x -> x ∈ hist -> x ∉ m_container fork_node).
Proof.
  apply (supplement_correct (HB := wallet_history) (mkWallet fork_wallet 4) fork_node).
  - split; [done |]. cbn. lia.
  - refine (bool_decide_unpack (NoDup (m_container fork_node)) _). vm_compute. exact I.
  - cbn. lia.
  - done.
  - reflexivity.
  - exact fork_linked.
Defined.
