(* ===== verification/SyncLiveness.v ===== *)
(** Repeated rounds of synchronisation between a wallet and a node that does not change: how far back the
    sparse history of the wallet leaves the node's answer, and when the wallet arrives at the node's chain. *)

From S2P Require Import Prelude BankingIndex Sync.

(** One round: the wallet asks with its history, limited to the height of the node, and takes the answer. *)
Definition sync_round (node : BlockIndex) (maxCount : Z) (s : SynchronizationState) : outcome SynchronizationState :=
  hist ← getShortHistory s (u32 (size node - 1));
  '(ids, _, off) ← findBlockchainSupplementIds node hist maxCount;
  '(_, s) ← updateConsumer s (mkInterval off ids) true;
  Ret s.

Fixpoint sync_rounds (k : nat) (node : BlockIndex) (maxCount : Z) (s : SynchronizationState) : outcome SynchronizationState :=
  match k with O => Ret s | S k => s ← sync_round node maxCount s; sync_rounds k node maxCount s end.

(** The steps of the history double at most: between [D] and [2 D] blocks below the top there is always one. *)
Lemma history_loop_dense fuel l sz i mult cbo D hist :
  0 <= i -> (i < 10 -> mult = 1 /\ cbo = i + 1) -> (10 <= i -> 2 * mult <= cbo) -> 1 <= mult <= cbo -> sz <= 2 ^ 30 ->
  cbo < 2 * D -> history_loop fuel l sz i mult cbo = Ret hist ->
  sz < 2 * D \/ exists j x, l !! j = Some x /\ x ∈ hist /\ Z.of_nat j <= sz - D /\ sz - Z.of_nat j < 2 * D.
Proof.
  revert i mult cbo hist. induction fuel as [| fuel IH]; intros i mult cbo hist Hi Hlow Hhigh Hm Hsz HD Hh; cbn [history_loop] in Hh; [done |].
  destruct (Z.ltb_spec cbo sz) as [Hlt | Hge]; [| left; lia].
  apply outcome_bind_inv in Hh as (h & Hv & Hh). apply outcome_bind_inv in Hh as (rest & Hr & Hh). injection Hh as <-.
  destruct (Z.le_gt_cases D cbo) as [Hle | Hgt].
  - right. exists (Z.to_nat (sz - cbo)), h. apply vec_at_Ret in Hv as [_ Hv]. split; [done |]. split; [by constructor |]. lia.
  - assert (Hrest : sz < 2 * D \/ exists j x, l !! j = Some x /\ x ∈ rest /\ Z.of_nat j <= sz - D /\ sz - Z.of_nat j < 2 * D).
    { destruct (Z.ltb_spec i 10) as [Hten | Hten].
      - destruct (Hlow Hten) as [-> ->]. rewrite u32_small in Hr by lia. eapply IH, Hr; lia.
      - specialize (Hhigh Hten). rewrite (u32_small (mult * 2)), u32_small in Hr by lia. eapply IH, Hr; lia. }
    destruct Hrest as [| (j & x & Hj & Hx & Hb)]; [by left | right]. exists j, x. split; [done |]. split; [by constructor |]. done.
Qed.

Lemma short_history_dense s localHeight hist D :
  Z.of_nat (length (m_blockchain s)) <= 2 ^ 30 -> 0 <= localHeight < 2 ^ 32 - 1 ->
  let sz := Z.min (Z.of_nat (length (m_blockchain s))) (localHeight + 1) in
  1 <= D <= sz -> getShortHistory s localHeight = Ret hist ->
  exists j x, m_blockchain s !! j = Some x /\ x ∈ hist /\ Z.of_nat j <= sz - D /\ sz - Z.of_nat j < 2 * D.
Proof.
  intros Hl Hh sz HD Hs. unfold getShortHistory in Hs. rewrite !u32_small in Hs by lia. fold sz in Hs.
  destruct (Z.eqb_spec sz 0); [lia |]. apply outcome_bind_inv in Hs as (history & Hhist & Hs).
  apply outcome_bind_inv in Hs as (genesis & Hg & Hs). injection Hs as <-.
  assert (Hzero : m_blockchain s !! 0%nat = Some genesis) by (by apply vec_at_Ret in Hg as [_ Hg]).
  destruct (history_loop_dense (S (Z.to_nat sz)) (m_blockchain s) sz 0 1 1 D history ltac:(lia) ltac:(lia) ltac:(lia) ltac:(lia) ltac:(lia) ltac:(lia) Hhist)
    as [Hall | (j & x & Hj & Hx & Hb)].
  - exists 0%nat, genesis. split; [done |]. split; [apply elem_of_app; right; by constructor | lia].
  - exists j, x. split; [done |]. split; [apply elem_of_app; by left | done].
Qed.

Section Rounds.
Context (node : BlockIndex) (maxCount : Z).
Abbreviation n := (m_container node).
Context (Hnd : NoDup n) (Hne : n <> []) (Hn : Z.of_nat (length n) <= 2 ^ 30) (Hmax : 0 <= maxCount < 2 ^ 32).

(** The part of a wallet's chain that the node looks at. *)
Definition visible (w : list Hash) : Z := Z.min (Z.of_nat (length w)) (Z.of_nat (length n)).

Lemma node_pos : (0 < length n)%nat.
Proof. destruct n; [done | cbn; lia]. Qed.

(** A round on chains that agree on their first [k] blocks: the answer starts no more below [k] than the wallet's own
    blocks are above it. *)
Lemma sync_round_spec w k :
  Z.of_nat (length w) <= 2 ^ 30 -> hash_linked n w -> (1 <= k <= length w)%nat -> (k <= length n)%nat -> take k w = take k n ->
  exists (off m : nat) changed w', sync_round node maxCount (mkSync w) = Ret (mkSync w')
    /\ 2 * Z.of_nat k - 1 - visible w <= Z.of_nat off /\ Z.of_nat m = Z.min (Z.of_nat off + maxCount) (Z.of_nat (length n))
    /\ take m w' = take m n /\ w' = if changed : bool then take m n else w.
Proof.
  intros Hw Hlink Hk Hkn Hkw. pose proof node_pos as Hpos.
  assert (H0 : n !! 0%nat = w !! 0%nat) by (rewrite <- (lookup_take_lt n k 0), <- (lookup_take_lt w k 0) by lia; by rewrite Hkw).
  assert (Hwne : m_blockchain (mkSync w) <> []) by (destruct w; [cbn in Hk; lia | done]).
  unfold sync_round, size. rewrite u32_small, u32_small by (rewrite ?u32_small; lia).
  destruct (getShortHistory_spec (mkSync w) (Z.of_nat (length n) - 1) Hwne Hw ltac:(lia)) as (hist & js & Hh & Hho).
  pose proof (short_history_dense (mkSync w) (Z.of_nat (length n) - 1) hist (visible w - Z.of_nat k + 1) Hw ltac:(lia)) as Hdense.
  cbv zeta in Hdense. cbn [m_blockchain] in Hdense, Hho. rewrite Z.sub_add in Hdense. fold (visible w) in Hdense.
  destruct Hdense as (j & x & Hj & Hx & Hj1 & Hj2); [unfold visible; lia | done |].
  destruct (supplement_ids_spec node w hist js maxCount Hnd ltac:(lia) Hho Hne H0 Hlink Hmax) as (off & h & Hno & Hwo & Ht & Hnewest & Hs).
  pose proof (lookup_lt_Some _ _ _ Hno). pose proof (lookup_lt_Some _ _ _ Hwo).
  assert (Hoff : (j <= off)%nat).
  { destruct (Nat.le_gt_cases j off) as [| Hlt]; [done |]. exfalso. apply (Hnewest j x Hlt Hj Hx).
    apply (list_elem_of_lookup_2 _ j). rewrite <- (lookup_take_lt _ k) by lia. rewrite <- Hkw. by rewrite lookup_take_lt by lia. }
  set (ids := take (Z.to_nat maxCount) (drop off n)) in *.
  assert (Hids : length ids = Nat.min (Z.to_nat maxCount) (length n - off)) by (unfold ids; by rewrite length_take, length_drop).
  destruct (updateConsumer_spec n w off ids) as (changed & w' & Hu & Htm & Hw'); [apply take_drop_ids | lia | done | lia | lia | lia |].
  exists off, (off + length ids)%nat, changed, w'. rewrite Hh, outcome_bind_ret, Hs, outcome_bind_ret, Hu, outcome_bind_ret.
  split_and!; [done | lia | lia | done | done].
Qed.

Lemma prefix_linked m : hash_linked n (take m n).
Proof.
  intros i j h Hi Hj. apply lookup_take_Some in Hj as [Hj Hlt]. assert (i = j) as -> by (by eapply NoDup_lookup).
  split; [done |]. by rewrite take_take, Nat.min_l by lia.
Qed.

(** From a prefix of the node's chain on. *)
Lemma sync_rounds_prefix r m :
  2 <= maxCount -> (1 <= m <= length n)%nat -> Z.of_nat (length n) <= Z.of_nat m + Z.of_nat r * (maxCount - 1) ->
  sync_rounds r node maxCount (mkSync (take m n)) = Ret (mkSync n).
Proof.
  intros Hc. revert m. induction r as [| r IH]; intros m Hm Hr; cbn [sync_rounds]; [by rewrite take_ge by lia |].
  destruct (sync_round_spec (take m n) m) as (off & m' & changed & w' & Hround & Hoff & Hm' & Ht & Hw');
    [rewrite length_take; lia | apply prefix_linked | rewrite length_take; lia | lia | by rewrite take_take, Nat.min_id |].
  unfold visible in Hoff. rewrite length_take in Hoff. rewrite Hround, outcome_bind_ret.
  assert (Hgain : exists p, (m <= p <= length n)%nat /\ Z.min (Z.of_nat (length n)) (Z.of_nat m + (maxCount - 1)) <= Z.of_nat p /\ w' = take p n).
  { destruct changed; [exists m'; split; [lia |]; split; [lia | done] |]. exists m. split; [lia |]. split; [| done].
    subst w'. apply (f_equal length) in Ht. rewrite !length_take in Ht. lia. }
  destruct Hgain as (p & Hp & Hgain & ->). apply IH; [lia |].
  rewrite Nat2Z.inj_succ, Z.mul_succ_l in Hr. pose proof (Z.mul_nonneg_nonneg (Z.of_nat r) (maxCount - 1)). lia.
Qed.

(** C13: the wallet arrives.  A wallet with one consumer that takes every answer, whose chain agrees with the node's on the first [k] blocks ([k] less than the node has) and not on the
    next, and that asks again and again, holds exactly the node's chain after [r] rounds, without a
    failed assertion, as soon as [r] answers of [maxCount] blocks, each overlapping by one, cover the node's chain beyond
    [k] and the wallet's own blocks.  It needs answers that are longer by two than the branch that it must
    leave: the sparse history doubles its steps, so that the node may start that far below the fork. *)
Theorem sync_converges w k r :
  Z.of_nat (length w) <= 2 ^ 30 -> hash_linked n w ->
  (1 <= k <= length w)%nat -> (k < length n)%nat -> take k w = take k n -> w !! k <> n !! k ->
  visible w - Z.of_nat k + 2 <= maxCount -> (1 <= r)%nat ->
  Z.of_nat (length n) + (visible w - Z.of_nat k) <= Z.of_nat k + Z.of_nat r * (maxCount - 1) ->
  sync_rounds r node maxCount (mkSync w) = Ret (mkSync n).
Proof.
  intros Hw Hlink Hk Hkn Hkw Hfork Hc Hr1 Hr. destruct r as [| r]; [lia |]. cbn [sync_rounds].
  destruct (sync_round_spec w k) as (off & m & changed & w' & Hround & Hoff & Hm & Ht & Hw'); [done.. | lia | done |].
  rewrite Hround, outcome_bind_ret. assert (Hvis : visible w <= Z.of_nat (length n) /\ Z.of_nat k <= visible w) by (unfold visible; lia).
  destruct changed; subst w'; cycle 1.
  - exfalso. apply Hfork. rewrite <- (lookup_take_lt w m), <- (lookup_take_lt n m) by lia. by rewrite Ht.
  - rewrite Nat2Z.inj_succ, Z.mul_succ_l in Hr. pose proof (Z.mul_nonneg_nonneg (Z.of_nat r) (maxCount - 1)). apply sync_rounds_prefix; lia.
Qed.

End Rounds.

Lemma sync_converges_witness :
  sync_rounds 3 fork_node 4 fork_wallet = Ret (mkSync (m_container fork_node)).
Proof.
  apply (sync_converges fork_node 4) with (k := 3%nat).
  - refine (bool_decide_unpack (NoDup (m_container fork_node)) _). vm_compute. exact I.
  - done.
  - cbn. lia.
  - lia.
  - cbn. lia.
  - exact fork_linked.
  - cbn. lia.
  - cbn. lia.
  - reflexivity.
  - cbn. congruence.
  - unfold visible. cbn. lia.
  - lia.
  - unfold visible. cbn. lia.
Defined.
