(* ===== verification/Transfers.v ===== *)
(** The wallet's container of transfers, [src/src/Transfers/TransfersContainer.cpp]: the outputs that belong to a
    wallet, sorted into unconfirmed, available and spent ones, with their transactions and the jobs that report
    outputs as they become spendable.

    A hashed multi-index container with a unique index by [TransactionOutputKey] is a map from that key; the
    order of its iteration, which the code leaves to the hash table, is that of the map, and where two outputs are equal for
    [lessTIterator] the encoding of the key decides.  The two ordered indices (transactions by height, jobs by unlock height)
    are lists; an element is inserted behind those with the same key, as Boost does.  [time(NULL)] is a
    parameter.  An exception ends an operation; what it leaves of the container is in [TransfersExceptions.v].  Locking and [save] and
    [load] are left out. *)

From S2P Require Import Prelude Config Currency Types.

(** * Data *)

Definition UNCONFIRMED_TRANSACTION_GLOBAL_OUTPUT_INDEX : Z := UINT32_MAX.
Definition WALLET_LEGACY_UNCONFIRMED_TRANSACTION_HEIGHT : Z := UINT32_MAX.

Inductive InputType := InputInvalid | InputKey | InputMultisignature | InputGenerating | InputCommitmentSpend | InputCommitmentTransfer.
Inductive OutputType := OutputInvalid | OutputKey | OutputMultisignature | OutputCommitment.

#[export] Instance InputType_eq_dec : EqDecision InputType.
Proof. solve_decision. Defined.
#[export] Instance OutputType_eq_dec : EqDecision OutputType.
Proof. solve_decision. Defined.

Definition getTransactionInputType (i : TransactionInput) : InputType :=
  match i with
  | InKey _ => InputKey
  | InMultisignature _ => InputMultisignature
  | InBase _ => InputGenerating
  | InCommitmentSpend _ => InputCommitmentSpend
  | InCommitmentTransfer _ => InputCommitmentTransfer
  | InUnified _ => InputInvalid
  end.

Definition getTransactionOutputType (o : TransactionOutputTarget) : OutputType :=
  match o with
  | OutKey _ => OutputKey
  | OutMultisignature _ => OutputMultisignature
  | OutCommitment _ => OutputCommitment
  | OutUnified _ => OutputInvalid
  end.

(** What a container asks an [ITransactionReader]. *)
Record TransactionReader := mkReader {
  r_transactionHash : Hash;
  r_transactionPublicKey : bytes;
  r_unlockTime : Z;
  r_paymentId : option Hash;
  r_extra : bytes;
  r_inputs : list TransactionInput;
  r_inputTotalAmount : Z;
  r_outputs : list TransactionOutput;
  r_outputTotalAmount : Z
}.

(** Type and union of a [TransactionOutputInformation]. *)
Inductive OutputTarget :=
| KeyTarget (outputKey : bytes)
| MultisignatureTarget (requiredSignatures term : Z)
| CommitmentTarget (term : Z).

Definition target_type (t : OutputTarget) : OutputType :=
  match t with KeyTarget _ => OutputKey | MultisignatureTarget _ _ => OutputMultisignature | CommitmentTarget _ => OutputCommitment end.

Record TransactionOutputInformationIn := mkOutputIn {
  o_target : OutputTarget;
  o_amount : Z;
  o_globalOutputIndex : Z;
  o_outputInTransaction : Z;
  o_transactionPublicKey : bytes;
  o_keyImage : bytes
}.

Abbreviation TransactionOutputKey := (Hash * Z)%type.

Record TransactionOutputInformationEx := mkOutputEx {
  x_info : TransactionOutputInformationIn;
  x_transactionHash : Hash;
  x_unlockTime : Z;
  x_blockHeight : Z;
  x_transactionIndex : Z;
  x_visible : bool
}.

Record TransactionBlockInfo := mkBlockInfo { bi_height : Z; bi_timestamp : Z; bi_transactionIndex : Z }.

Record SpentTransactionOutput := mkSpentOutput {
  sp_output : TransactionOutputInformationEx;
  sp_spendingBlock : TransactionBlockInfo;
  sp_spendingTransactionHash : Hash;
  sp_inputInTransaction : Z
}.

Record TransferUnlockJob := mkUnlockJob { j_unlockHeight : Z; j_transactionOutputKey : TransactionOutputKey }.

(** [firstDepositId] and [depositCount] are for the wallet above. *)
Record TransactionInformation := mkTransactionInformation {
  ti_transactionHash : Hash;
  ti_publicKey : bytes;
  ti_blockHeight : Z;
  ti_timestamp : Z;
  ti_unlockTime : Z;
  ti_totalAmountIn : Z;
  ti_totalAmountOut : Z;
  ti_extra : bytes;
  ti_paymentId : Hash;
  ti_messages : list bytes
}.

(** [SpentOutputDescriptor]: equality compares the types first. *)
Inductive SpentOutputDescriptor :=
| ByKeyImage (keyImage : bytes)
| ByGlobalIndex (amount globalOutputIndex : Z)
| ByCommitment (keyImage : bytes).

#[export] Instance OutputTarget_eq_dec : EqDecision OutputTarget.
Proof. solve_decision. Defined.
#[export] Instance TransactionOutputInformationIn_eq_dec : EqDecision TransactionOutputInformationIn.
Proof. solve_decision. Defined.
#[export] Instance TransactionOutputInformationEx_eq_dec : EqDecision TransactionOutputInformationEx.
Proof. solve_decision. Defined.
#[export] Instance SpentOutputDescriptor_eq_dec : EqDecision SpentOutputDescriptor.
Proof. solve_decision. Defined.

Record TransfersContainer := mkContainer {
  m_transactions : list TransactionInformation;
  m_unconfirmedTransfers : gmap TransactionOutputKey TransactionOutputInformationEx;
  m_availableTransfers : gmap TransactionOutputKey TransactionOutputInformationEx;
  m_spentTransfers : gmap TransactionOutputKey SpentTransactionOutput;
  m_transfersUnlockJobs : list TransferUnlockJob;
  m_currentHeight : Z
}.

Definition newTransfersContainer : TransfersContainer := mkContainer [] ∅ ∅ ∅ [] 0.

Definition with_transactions (l : list TransactionInformation) (s : TransfersContainer) : TransfersContainer :=
  mkContainer l (m_unconfirmedTransfers s) (m_availableTransfers s) (m_spentTransfers s) (m_transfersUnlockJobs s) (m_currentHeight s).
Definition with_unconfirmed (m : gmap TransactionOutputKey TransactionOutputInformationEx) (s : TransfersContainer) : TransfersContainer :=
  mkContainer (m_transactions s) m (m_availableTransfers s) (m_spentTransfers s) (m_transfersUnlockJobs s) (m_currentHeight s).
Definition with_available (m : gmap TransactionOutputKey TransactionOutputInformationEx) (s : TransfersContainer) : TransfersContainer :=
  mkContainer (m_transactions s) (m_unconfirmedTransfers s) m (m_spentTransfers s) (m_transfersUnlockJobs s) (m_currentHeight s).
Definition with_spent (m : gmap TransactionOutputKey SpentTransactionOutput) (s : TransfersContainer) : TransfersContainer :=
  mkContainer (m_transactions s) (m_unconfirmedTransfers s) (m_availableTransfers s) m (m_transfersUnlockJobs s) (m_currentHeight s).
Definition with_jobs (l : list TransferUnlockJob) (s : TransfersContainer) : TransfersContainer :=
  mkContainer (m_transactions s) (m_unconfirmedTransfers s) (m_availableTransfers s) (m_spentTransfers s) l (m_currentHeight s).
Definition with_height (h : Z) (s : TransfersContainer) : TransfersContainer :=
  mkContainer (m_transactions s) (m_unconfirmedTransfers s) (m_availableTransfers s) (m_spentTransfers s) (m_transfersUnlockJobs s) h.

(** * Keys and indices *)

Definition getTransactionOutputKey (x : TransactionOutputInformationEx) : TransactionOutputKey :=
  (x_transactionHash x, o_outputInTransaction (x_info x)).

Definition getSpentOutputDescriptor (i : TransactionOutputInformationIn) : SpentOutputDescriptor :=
  match o_target i with
  | KeyTarget _ => ByKeyImage (o_keyImage i)
  | MultisignatureTarget _ _ => ByGlobalIndex (o_amount i) (o_globalOutputIndex i)
  | CommitmentTarget _ => ByCommitment (o_keyImage i)
  end.

Abbreviation descriptor x := (getSpentOutputDescriptor (x_info x)).

(** [equal_range] of the index by descriptor, of the index by transaction, of the index by spending transaction. *)
Definition with_descriptor (d : SpentOutputDescriptor) (m : gmap TransactionOutputKey TransactionOutputInformationEx)
    : list TransactionOutputInformationEx :=
  filter (fun x => descriptor x = d) (map_to_list m).*2.
Definition spent_with_descriptor (d : SpentOutputDescriptor) (m : gmap TransactionOutputKey SpentTransactionOutput) : list SpentTransactionOutput :=
  filter (fun y => descriptor (sp_output y) = d) (map_to_list m).*2.
Definition of_transaction (h : Hash) (m : gmap TransactionOutputKey TransactionOutputInformationEx) : list TransactionOutputInformationEx :=
  filter (fun x => x_transactionHash x = h) (map_to_list m).*2.
Definition spent_by (h : Hash) (m : gmap TransactionOutputKey SpentTransactionOutput) : list SpentTransactionOutput :=
  filter (fun y => sp_spendingTransactionHash y = h) (map_to_list m).*2.

(** Insertion into an ordered index that is not unique: behind the elements with a key up to that of the new one. *)
Fixpoint insert_by {A} (key : A -> Z) (x : A) (l : list A) : list A :=
  match l with
  | [] => [x]
  | y :: l' => if key x <? key y then x :: l else y :: insert_by key x l'
  end.

(** [lessTIterator], and between equals the key. *)
Definition earlier (a b : TransactionOutputInformationEx) : bool :=
  (x_blockHeight a <? x_blockHeight b)
  || ((x_blockHeight a =? x_blockHeight b)
      && ((x_transactionIndex a <? x_transactionIndex b)
          || ((x_transactionIndex a =? x_transactionIndex b)
              && Pos.ltb (encode (getTransactionOutputKey a)) (encode (getTransactionOutputKey b))))).

(** [std::min_element]; the first of a sorted list. *)
Fixpoint minElement (l : list TransactionOutputInformationEx) : option TransactionOutputInformationEx :=
  match l with
  | [] => None
  | x :: l => match minElement l with Some y => Some (if earlier y x then y else x) | None => Some x end
  end.

(** [sort] and [findFirstByAmount]. *)
Definition findFirstByAmount (amount : Z) (l : list TransactionOutputInformationEx) : option TransactionOutputInformationEx :=
  minElement (filter (fun x => o_amount (x_info x) = amount) l).

(** [emplace] into the three containers of transfers, with the [assert] on its result. *)
Definition emplace_unconfirmed (x : TransactionOutputInformationEx) (s : TransfersContainer) : outcome TransfersContainer :=
  _ ← assert_ (bool_decide (m_unconfirmedTransfers s !! getTransactionOutputKey x = None));
  Ret (with_unconfirmed (<[getTransactionOutputKey x := x]> (m_unconfirmedTransfers s)) s).
Definition emplace_available (x : TransactionOutputInformationEx) (s : TransfersContainer) : outcome TransfersContainer :=
  _ ← assert_ (bool_decide (m_availableTransfers s !! getTransactionOutputKey x = None));
  Ret (with_available (<[getTransactionOutputKey x := x]> (m_availableTransfers s)) s).
Definition emplace_spent (y : SpentTransactionOutput) (s : TransfersContainer) : outcome TransfersContainer :=
  _ ← assert_ (bool_decide (m_spentTransfers s !! getTransactionOutputKey (sp_output y) = None)
               && bool_decide (spent_with_descriptor (descriptor (sp_output y)) (m_spentTransfers s) = []));
  Ret (with_spent (<[getTransactionOutputKey (sp_output y) := y]> (m_spentTransfers s)) s).

Definition erase_unconfirmed (x : TransactionOutputInformationEx) (s : TransfersContainer) : TransfersContainer :=
  with_unconfirmed (delete (getTransactionOutputKey x) (m_unconfirmedTransfers s)) s.
Definition erase_available (x : TransactionOutputInformationEx) (s : TransfersContainer) : TransfersContainer :=
  with_available (delete (getTransactionOutputKey x) (m_availableTransfers s)) s.
Definition erase_spent (y : SpentTransactionOutput) (s : TransfersContainer) : TransfersContainer :=
  with_spent (delete (getTransactionOutputKey (sp_output y)) (m_spentTransfers s)) s.

(** * Visibility

    Of the outputs with one key image only one is shown: the spent one, else the earliest available one, else the
    unconfirmed one when there is a single one. *)

Definition set_visible (v : bool) (x : TransactionOutputInformationEx) : TransactionOutputInformationEx :=
  mkOutputEx (x_info x) (x_transactionHash x) (x_unlockTime x) (x_blockHeight x) (x_transactionIndex x) v.

Definition updateVisibility (d : SpentOutputDescriptor) (v : bool) (m : gmap TransactionOutputKey TransactionOutputInformationEx)
    : gmap TransactionOutputKey TransactionOutputInformationEx :=
  (fun x => if decide (descriptor x = d) then set_visible v x else x) <$> m.

Definition updateSpentVisibility (d : SpentOutputDescriptor) (v : bool) (m : gmap TransactionOutputKey SpentTransactionOutput)
    : gmap TransactionOutputKey SpentTransactionOutput :=
  (fun y => if decide (descriptor (sp_output y) = d)
            then mkSpentOutput (set_visible v (sp_output y)) (sp_spendingBlock y) (sp_spendingTransactionHash y) (sp_inputInTransaction y)
            else y) <$> m.

Definition updateTransfersVisibility (keyImage : bytes) (s : TransfersContainer) : outcome TransfersContainer :=
  let d := ByKeyImage keyImage in
  let unconfirmedCount := Z.of_nat (length (with_descriptor d (m_unconfirmedTransfers s))) in
  let availableCount := Z.of_nat (length (with_descriptor d (m_availableTransfers s))) in
  let spentCount := Z.of_nat (length (spent_with_descriptor d (m_spentTransfers s))) in
  _ ← assert_ ((spentCount =? 0) || (spentCount =? 1));
  if 0 <? spentCount then
    let s := with_unconfirmed (updateVisibility d false (m_unconfirmedTransfers s)) s in
    let s := with_available (updateVisibility d false (m_availableTransfers s)) s in
    Ret (with_spent (updateSpentVisibility d true (m_spentTransfers s)) s)
  else if 0 <? availableCount then
    let s := with_unconfirmed (updateVisibility d false (m_unconfirmedTransfers s)) s in
    let s := with_available (updateVisibility d false (m_availableTransfers s)) s in
    match minElement (with_descriptor d (m_availableTransfers s)) with
    | None => AssertFail
    | Some x => Ret (with_available (<[getTransactionOutputKey x := set_visible true x]> (m_availableTransfers s)) s)
    end
  else Ret (with_unconfirmed (updateVisibility d (unconfirmedCount =? 1) (m_unconfirmedTransfers s)) s).

Section Container.
Context (c : Currency) (m_transactionSpendableAge : Z).
(** [time(NULL)]. *)
Context (now : Z).

(** * Unlock jobs *)

Definition has_term (x : TransactionOutputInformationEx) : option Z :=
  match o_target (x_info x) with
  | KeyTarget _ => None
  | MultisignatureTarget _ term | CommitmentTarget term => if term =? 0 then None else Some term
  end.

Definition makeTransferUnlockJob (x : TransactionOutputInformationEx) (transactionSpendableAge : Z) : TransferUnlockJob :=
  let unlockTime := u32 (if x_unlockTime x =? 0 then x_blockHeight x else x_unlockTime x) in
  let aged := u32 (x_blockHeight x + transactionSpendableAge + 1) in
  mkUnlockJob
    (match has_term x with
     | Some term => Z.max (Z.max unlockTime (u32 (x_blockHeight x + term))) aged
     | None => Z.max unlockTime aged
     end) (getTransactionOutputKey x).

Definition addUnlockJob (x : TransactionOutputInformationEx) (s : TransfersContainer) : outcome TransfersContainer :=
  let job := makeTransferUnlockJob x (u32 m_transactionSpendableAge) in
  _ ← assert_ (bool_decide (j_transactionOutputKey job ∉ map j_transactionOutputKey (m_transfersUnlockJobs s)));
  Ret (with_jobs (insert_by j_unlockHeight job (m_transfersUnlockJobs s)) s).

Definition deleteUnlockJob (x : TransactionOutputInformationEx) (s : TransfersContainer) : TransfersContainer :=
  with_jobs (filter (fun j => j_transactionOutputKey j <> getTransactionOutputKey x) (m_transfersUnlockJobs s)) s.

Definition getAvailableOutput (k : TransactionOutputKey) (s : TransfersContainer) : outcome TransactionOutputInformationEx :=
  match m_availableTransfers s !! k with Some x => Ret x | None => AssertFail end.

Fixpoint available_outputs (jobs : list TransferUnlockJob) (s : TransfersContainer) : outcome (list TransactionOutputInformationEx) :=
  match jobs with
  | [] => Ret []
  | j :: jobs => x ← getAvailableOutput (j_transactionOutputKey j) s; rest ← available_outputs jobs s; Ret (x :: rest)
  end.

(** From [upper_bound(a)] to [upper_bound(b)] in the index by height; from the start with [None]. *)
Definition jobs_between (a : option Z) (b : Z) (jobs : list TransferUnlockJob) : list TransferUnlockJob :=
  filter (fun j => default (-1) a < j_unlockHeight j /\ j_unlockHeight j <= b) jobs.

Definition getUnlockingTransfers (prevHeight currentHeight : Z) (s : TransfersContainer) : outcome (list TransactionOutputInformationEx) :=
  if currentHeight <? prevHeight then AssertFail
  else available_outputs (jobs_between (if prevHeight =? 0 then None else Some (u32 (prevHeight + 1))) (u32 (currentHeight + 1))
                            (m_transfersUnlockJobs s)) s.

Definition getLockingTransfers (prevHeight currentHeight : Z) (s : TransfersContainer) : outcome (list TransactionOutputInformationEx) :=
  if prevHeight <? currentHeight then Ret []
  else available_outputs (jobs_between (Some (u32 (currentHeight + 1))) (u32 (prevHeight + 1)) (m_transfersUnlockJobs s)) s.

Definition doAdvanceHeight (height : Z) (s : TransfersContainer) : outcome (list TransactionOutputInformationEx * TransfersContainer) :=
  if height <? m_currentHeight s then Throw "New height is less then current while advancing height"
  else
    let s' := with_height height s in
    unlocking ← getUnlockingTransfers (m_currentHeight s) height s';
    Ret (unlocking, s').

Definition advanceHeight := doAdvanceHeight.

(** * Adding a transaction *)

Definition copyToSpent (block : TransactionBlockInfo) (tx : TransactionReader) (inputIndex : Z) (output : TransactionOutputInformationEx)
    (s : TransfersContainer) : outcome TransfersContainer :=
  _ ← assert_ (negb (x_blockHeight output =? WALLET_LEGACY_UNCONFIRMED_TRANSACTION_HEIGHT));
  _ ← assert_ (negb (o_globalOutputIndex (x_info output) =? UNCONFIRMED_TRANSACTION_GLOBAL_OUTPUT_INDEX));
  emplace_spent (mkSpentOutput output block (r_transactionHash tx) (u32 inputIndex)) s.

(** The transaction's own record. *)
Definition transaction_information (block : TransactionBlockInfo) (tx : TransactionReader) (messages : list bytes) : TransactionInformation :=
  mkTransactionInformation (r_transactionHash tx) (r_transactionPublicKey tx) (bi_height block) (bi_timestamp block) (r_unlockTime tx)
    (r_inputTotalAmount tx) (r_outputTotalAmount tx) (r_extra tx) (default NULL_HASH (r_paymentId tx)) messages.

Definition find_transaction (h : Hash) (s : TransfersContainer) : option TransactionInformation :=
  list_find (fun t => ti_transactionHash t = h) (m_transactions s) ≫= fun p => Some p.2.

Definition addTransactionInfo (block : TransactionBlockInfo) (tx : TransactionReader) (messages : list bytes) (s : TransfersContainer)
    : outcome TransfersContainer :=
  let txInfo := transaction_information block tx messages in
  _ ← assert_ (bool_decide (find_transaction (ti_transactionHash txInfo) s = None));
  Ret (with_transactions (insert_by ti_blockHeight txInfo (m_transactions s)) s).

Definition output_info (block : TransactionBlockInfo) (tx : TransactionReader) (transfer : TransactionOutputInformationIn) : TransactionOutputInformationEx :=
  mkOutputEx transfer (r_transactionHash tx) (r_unlockTime tx) (bi_height block) (bi_transactionIndex block) true.

(** Does a container know an output with the descriptor, available or spent? *)
Definition descriptor_known (d : SpentOutputDescriptor) (s : TransfersContainer) : bool :=
  negb (bool_decide (with_descriptor d (m_availableTransfers s) = [] /\ spent_with_descriptor d (m_spentTransfers s) = [])).

Definition update_if_key (x : TransactionOutputInformationEx) (s : TransfersContainer) : outcome TransfersContainer :=
  if decide (target_type (o_target (x_info x)) = OutputKey) then updateTransfersVisibility (o_keyImage (x_info x)) s else Ret s.

Definition addTransactionOutput (block : TransactionBlockInfo) (tx : TransactionReader) (transfer : TransactionOutputInformationIn)
    (s : TransfersContainer) : outcome TransfersContainer :=
  let transactionIsUnconfirmed := bi_height block =? WALLET_LEGACY_UNCONFIRMED_TRANSACTION_HEIGHT in
  _ ← assert_ (o_outputInTransaction transfer <? Z.of_nat (length (r_outputs tx)));
  out ← vec_at (r_outputs tx) (o_outputInTransaction transfer);
  _ ← assert_ (bool_decide (target_type (o_target transfer) = getTransactionOutputType (out_target out)));
  _ ← assert_ (0 <? o_amount transfer);
  let transferIsUnconfirmed := o_globalOutputIndex transfer =? UNCONFIRMED_TRANSACTION_GLOBAL_OUTPUT_INDEX in
  if negb (Bool.eqb transactionIsUnconfirmed transferIsUnconfirmed) then Throw "Bad transfer's globalOutputIndex"
  else
    let info := output_info block tx transfer in
    s ← (if transferIsUnconfirmed then emplace_unconfirmed info s
         else if negb (bool_decide (target_type (o_target transfer) = OutputKey)) && descriptor_known (getSpentOutputDescriptor transfer) s
         then Throw "Transfer already exists"
         else s ← addUnlockJob info s; emplace_available info s);
    update_if_key info s.

Fixpoint addTransactionOutputs (block : TransactionBlockInfo) (tx : TransactionReader) (transfers : list TransactionOutputInformationIn)
    (s : TransfersContainer) : outcome (bool * TransfersContainer) :=
  match transfers with
  | [] => Ret (false, s)
  | transfer :: transfers =>
      s ← addTransactionOutput block tx transfer s;
      '(_, s) ← addTransactionOutputs block tx transfers s;
      Ret (true, s)
  end.

(** An available output becomes a spent one. *)
Definition spend (block : TransactionBlockInfo) (tx : TransactionReader) (i : Z) (x : TransactionOutputInformationEx) (s : TransfersContainer)
    : outcome TransfersContainer :=
  s ← copyToSpent block tx i x (deleteUnlockJob x s);
  Ret (erase_available x s).

(** The branch of an input with a key image, and that of a commitment spend. *)
Definition spend_key_image (block : TransactionBlockInfo) (tx : TransactionReader) (i : Z) (keyImage : bytes) (amount : Z) (s : TransfersContainer)
    : outcome (bool * TransfersContainer) :=
  let d := ByKeyImage keyImage in
  if negb (bool_decide (spent_with_descriptor d (m_spentTransfers s) = [])) then Throw "Spending already spent transfer"
  else if bool_decide (with_descriptor d (m_availableTransfers s) = []) then
    if negb (bool_decide (with_descriptor d (m_unconfirmedTransfers s) = [])) then Throw "Spending unconfirmed transfer" else Ret (false, s)
  else
    match findFirstByAmount amount (with_descriptor d (m_availableTransfers s)) with
    | None => Throw "Input has invalid amount, corresponding output isn't found"
    | Some x =>
        s ← spend block tx i x s;
        s ← updateTransfersVisibility keyImage s;
        Ret (true, s)
    end.

Definition addTransactionInput (block : TransactionBlockInfo) (tx : TransactionReader) (i : Z) (input : TransactionInput) (s : TransfersContainer)
    : outcome (bool * TransfersContainer) :=
  match input with
  | InKey k => spend_key_image block tx i (ki_keyImage k) (ki_amount k) s
  | InMultisignature m =>
      match minElement (with_descriptor (ByGlobalIndex (mi_amount m) (mi_outputIndex m)) (m_availableTransfers s)) with
      | Some x => s ← spend block tx i x s; Ret (true, s)
      | None => Ret (false, s)
      end
  | InCommitmentSpend k => spend_key_image block tx i (cs_keyImage k) (cs_amount k) s
  | _ => _ ← assert_ (bool_decide (getTransactionInputType input = InputGenerating)); Ret (false, s)
  end.

Fixpoint addTransactionInputs (block : TransactionBlockInfo) (tx : TransactionReader) (i : Z) (inputs : list TransactionInput) (s : TransfersContainer)
    : outcome (bool * TransfersContainer) :=
  match inputs with
  | [] => Ret (false, s)
  | input :: inputs =>
      '(added, s) ← addTransactionInput block tx i input s;
      '(added', s) ← addTransactionInputs block tx (i + 1) inputs s;
      Ret (added || added', s)
  end.

(** Whether the transaction is the wallet's, and the outputs that became spendable. *)
Definition addTransaction (block : TransactionBlockInfo) (tx : TransactionReader) (transfers : list TransactionOutputInformationIn)
    (messages : list bytes) (s : TransfersContainer) : outcome (bool * list TransactionOutputInformationEx * TransfersContainer) :=
  if bi_height block <? m_currentHeight s then Throw "Cannot add transaction from block < m_currentHeight"
  else if negb (bool_decide (find_transaction (r_transactionHash tx) s = None)) then Throw "Transaction is already added"
  else
    '(added_outputs, s) ← addTransactionOutputs block tx transfers s;
    '(added_inputs, s) ← addTransactionInputs block tx 0 (r_inputs tx) s;
    let added := added_outputs || added_inputs in
    s ← (if added then addTransactionInfo block tx messages s else Ret s);
    '(unlocking, s) ← (if negb (bi_height block =? WALLET_LEGACY_UNCONFIRMED_TRANSACTION_HEIGHT)
                       then doAdvanceHeight (bi_height block) s else Ret ([], s));
    Ret (added, unlocking, s).

(** * Removing and confirming *)

(** The three loops of [deleteTransactionTransfers], over the ranges as they are before the loop. *)
Fixpoint unspend_all (l : list SpentTransactionOutput) (s : TransfersContainer) : outcome TransfersContainer :=
  match l with
  | [] => Ret s
  | y :: l =>
      let x := sp_output y in
      _ ← assert_ (negb (x_blockHeight x =? WALLET_LEGACY_UNCONFIRMED_TRANSACTION_HEIGHT));
      _ ← assert_ (negb (o_globalOutputIndex (x_info x) =? UNCONFIRMED_TRANSACTION_GLOBAL_OUTPUT_INDEX));
      s ← addUnlockJob x s;
      s ← emplace_available x s;
      s ← update_if_key x (erase_spent y s);
      unspend_all l s
  end.

Fixpoint erase_all_unconfirmed (l : list TransactionOutputInformationEx) (s : TransfersContainer) : outcome TransfersContainer :=
  match l with
  | [] => Ret s
  | x :: l => s ← update_if_key x (erase_unconfirmed x s); erase_all_unconfirmed l s
  end.

Fixpoint erase_all_available (l : list TransactionOutputInformationEx) (s : TransfersContainer) : outcome TransfersContainer :=
  match l with
  | [] => Ret s
  | x :: l => s ← update_if_key x (erase_available x (deleteUnlockJob x s)); erase_all_available l s
  end.

Definition deleteTransactionTransfers (h : Hash) (s : TransfersContainer) : outcome TransfersContainer :=
  s ← unspend_all (spent_by h (m_spentTransfers s)) s;
  s ← erase_all_unconfirmed (of_transaction h (m_unconfirmedTransfers s)) s;
  erase_all_available (of_transaction h (m_availableTransfers s)) s.

Definition erase_transaction (h : Hash) (s : TransfersContainer) : TransfersContainer :=
  with_transactions (filter (fun t => ti_transactionHash t <> h) (m_transactions s)) s.

Definition deleteUnconfirmedTransaction (h : Hash) (s : TransfersContainer) : outcome (bool * TransfersContainer) :=
  match find_transaction h s with
  | None => Ret (false, s)
  | Some t =>
      if negb (ti_blockHeight t =? WALLET_LEGACY_UNCONFIRMED_TRANSACTION_HEIGHT) then Ret (false, s)
      else s ← deleteTransactionTransfers h s; Ret (true, erase_transaction h s)
  end.

Definition confirmed_output (block : TransactionBlockInfo) (globalIndex : Z) (x : TransactionOutputInformationEx) : TransactionOutputInformationEx :=
  let i := x_info x in
  mkOutputEx (mkOutputIn (o_target i) (o_amount i) globalIndex (o_outputInTransaction i) (o_transactionPublicKey i) (o_keyImage i))
    (x_transactionHash x) (x_unlockTime x) (bi_height block) (bi_transactionIndex block) (x_visible x).

(** The flags in the list are those from before the loop; [updateTransfersVisibility] sets those of the outputs with a key image again. *)
Fixpoint confirm_all (block : TransactionBlockInfo) (globalIndices : list Z) (l : list TransactionOutputInformationEx) (s : TransfersContainer)
    : outcome TransfersContainer :=
  match l with
  | [] => Ret s
  | x :: l =>
      _ ← assert_ (x_blockHeight x =? WALLET_LEGACY_UNCONFIRMED_TRANSACTION_HEIGHT);
      _ ← assert_ (o_globalOutputIndex (x_info x) =? UNCONFIRMED_TRANSACTION_GLOBAL_OUTPUT_INDEX);
      if Z.of_nat (length globalIndices) <=? o_outputInTransaction (x_info x) then Throw "Not enough elements in globalIndices"
      else
        globalIndex ← vec_at globalIndices (o_outputInTransaction (x_info x));
        let transfer := confirmed_output block globalIndex x in
        if bool_decide (target_type (o_target (x_info x)) = OutputMultisignature) && descriptor_known (descriptor transfer) s
        then Throw "Transfer already exists"
        else
          s ← addUnlockJob transfer s;
          s ← emplace_available transfer s;
          s ← update_if_key transfer (erase_unconfirmed x s);
          confirm_all block globalIndices l s
  end.

(** The loop over the outputs that the transaction spends. *)
Definition confirm_spendings (block : TransactionBlockInfo) (h : Hash) (s : TransfersContainer) : outcome TransfersContainer :=
  _ ← assert_ (forallb (fun y => bi_height (sp_spendingBlock y) =? WALLET_LEGACY_UNCONFIRMED_TRANSACTION_HEIGHT) (spent_by h (m_spentTransfers s)));
  Ret (with_spent ((fun y => if decide (sp_spendingTransactionHash y = h)
                             then mkSpentOutput (sp_output y) block (sp_spendingTransactionHash y) (sp_inputInTransaction y)
                             else y) <$> m_spentTransfers s) s).

Definition confirmed_information (block : TransactionBlockInfo) (t : TransactionInformation) : TransactionInformation :=
  mkTransactionInformation (ti_transactionHash t) (ti_publicKey t) (bi_height block) (bi_timestamp block) (ti_unlockTime t)
    (ti_totalAmountIn t) (ti_totalAmountOut t) (ti_extra t) (ti_paymentId t) (ti_messages t).

Definition markTransactionConfirmed (block : TransactionBlockInfo) (h : Hash) (globalIndices : list Z) (s : TransfersContainer)
    : outcome (bool * TransfersContainer) :=
  if bi_height block =? WALLET_LEGACY_UNCONFIRMED_TRANSACTION_HEIGHT
  then Throw "Block height equals WALLET_LEGACY_UNCONFIRMED_TRANSACTION_HEIGHT"
  else
    match find_transaction h s with
    | None => Ret (false, s)
    | Some t =>
        if negb (ti_blockHeight t =? WALLET_LEGACY_UNCONFIRMED_TRANSACTION_HEIGHT) then Ret (false, s)
        else
          let s := with_transactions (insert_by ti_blockHeight (confirmed_information block t) (m_transactions (erase_transaction h s))) s in
          s ← confirm_all block globalIndices (of_transaction h (m_unconfirmedTransfers s)) s;
          s ← confirm_spendings block h s;
          Ret (true, s)
    end.

(** * Detaching *)

(** The loop over the transactions from the last one down. *)
Fixpoint detach_loop (height : Z) (l : list TransactionInformation) (deleted : list Hash) (s : TransfersContainer)
    : outcome (list Hash * TransfersContainer) :=
  match l with
  | [] => Ret (deleted, s)
  | t :: l =>
      let h := ti_transactionHash t in
      let remove :=
        s ← deleteTransactionTransfers h s;
        detach_loop height l (deleted ++ [h]) (erase_transaction h s) in
      if ti_blockHeight t =? WALLET_LEGACY_UNCONFIRMED_TRANSACTION_HEIGHT then
        if existsb (fun y => height <=? x_blockHeight (sp_output y)) (spent_by h (m_spentTransfers s)) then remove
        else detach_loop height l deleted s
      else if height <=? ti_blockHeight t then remove
      else Ret (deleted, s)
  end.

(** The transactions that are deleted and the outputs that are locked again. *)
Definition detach (height : Z) (s : TransfersContainer) : outcome (list Hash * list TransactionOutputInformationEx * TransfersContainer) :=
  _ ← assert_ (height <? WALLET_LEGACY_UNCONFIRMED_TRANSACTION_HEIGHT);
  '(deleted, s') ← detach_loop height (rev (m_transactions s)) [] s;
  let s' := with_height (if height =? 0 then 0 else height - 1) s' in
  locked ← getLockingTransfers (m_currentHeight s) (m_currentHeight s') s';
  Ret (deleted, locked, s').

(** * Queries *)

Definition isSpendTimeUnlocked (s : TransfersContainer) (x : TransactionOutputInformationEx) : bool :=
  if x_unlockTime x <? m_maxBlockHeight c then
    (x_unlockTime x <=? u64 (m_currentHeight s + m_lockedTxAllowedDeltaBlocks c))
    && match has_term x with
       | Some term => u32 (x_blockHeight x + term) <=? u32 (m_currentHeight s + 1)
       | None => true
       end
  else x_unlockTime x <=? u64 (now + m_lockedTxAllowedDeltaSeconds_v2 c).

(** [ITransfersContainer::Flags]. *)
Definition IncludeStateUnlocked : Z := 0x01.
Definition IncludeStateLocked : Z := 0x02.
Definition IncludeStateSoftLocked : Z := 0x04.
Definition IncludeStateSpent : Z := 0x24.
Definition IncludeTypeKey : Z := 0x100.
Definition IncludeTypeMultisignature : Z := 0x200.
Definition IncludeTypeDeposit : Z := 0x400.
Definition IncludeStateAll : Z := 0xff.
Definition IncludeTypeAll : Z := 0xff00.

Definition has_flag (flags flag : Z) : bool := negb (Z.land flags flag =? 0).

Definition included_as (x : TransactionOutputInformationEx) (state flags : Z) : bool :=
  (match o_target (x_info x) with
   | KeyTarget _ => has_flag flags IncludeTypeKey
   | MultisignatureTarget _ term =>
       (has_flag flags IncludeTypeMultisignature && (term =? 0)) || (has_flag flags IncludeTypeDeposit && (0 <? term))
   | CommitmentTarget term => has_flag flags IncludeTypeDeposit && (0 <? term)
   end) && has_flag flags state.

Definition state_of (s : TransfersContainer) (x : TransactionOutputInformationEx) : Z :=
  if (x_blockHeight x =? WALLET_LEGACY_UNCONFIRMED_TRANSACTION_HEIGHT) || negb (isSpendTimeUnlocked s x) then IncludeStateLocked
  else if m_currentHeight s <? u64 (x_blockHeight x + m_transactionSpendableAge) then IncludeStateSoftLocked
  else IncludeStateUnlocked.

Definition isIncluded (s : TransfersContainer) (x : TransactionOutputInformationEx) (flags : Z) : bool := included_as x (state_of s x) flags.

Definition transfersCount (s : TransfersContainer) : Z :=
  Z.of_nat (size (m_unconfirmedTransfers s) + size (m_availableTransfers s) + size (m_spentTransfers s)).
Definition transactionsCount (s : TransfersContainer) : Z := Z.of_nat (length (m_transactions s)).

Definition getOutputs (flags : Z) (s : TransfersContainer) : list TransactionOutputInformationEx :=
  filter (fun x => x_visible x && isIncluded s x flags) (map_to_list (m_availableTransfers s)).*2
  ++ (if has_flag flags IncludeStateLocked
      then filter (fun x => x_visible x && included_as x IncludeStateLocked flags) (map_to_list (m_unconfirmedTransfers s)).*2
      else []).

Definition add_amount (x : TransactionOutputInformationEx) (amount : Z) : Z := u64 (amount + o_amount (x_info x)).

Definition balance (flags : Z) (s : TransfersContainer) : Z :=
  let amount :=
    fold_left (fun amount x => if x_visible x && isIncluded s x flags then add_amount x amount else amount)
      (map_to_list (m_availableTransfers s)).*2 0 in
  if has_flag flags IncludeStateLocked then
    fold_left (fun amount x => if x_visible x && included_as x IncludeStateLocked flags then add_amount x amount else amount)
      (map_to_list (m_unconfirmedTransfers s)).*2 amount
  else amount.

(** The record of a transaction with [amountIn] and [amountOut]. *)
Definition getTransactionInformation (h : Hash) (s : TransfersContainer) : option (TransactionInformation * Z * Z) :=
  t ← find_transaction h s;
  let outputs :=
    if ti_blockHeight t =? WALLET_LEGACY_UNCONFIRMED_TRANSACTION_HEIGHT then of_transaction h (m_unconfirmedTransfers s)
    else of_transaction h (m_availableTransfers s)
         ++ filter (fun x => x_transactionHash x = h) (map sp_output (map_to_list (m_spentTransfers s)).*2) in
  let inputs := map sp_output (spent_by h (m_spentTransfers s)) in
  Some (t, foldr add_amount 0 inputs, foldr add_amount 0 outputs).

Definition getTransactionOutputs (h : Hash) (flags : Z) (s : TransfersContainer) : list TransactionOutputInformationEx :=
  filter (fun x => isIncluded s x flags) (of_transaction h (m_availableTransfers s))
  ++ (if has_flag flags IncludeStateLocked
      then filter (fun x => included_as x IncludeStateLocked flags) (of_transaction h (m_unconfirmedTransfers s)) else [])
  ++ (if has_flag flags IncludeStateSpent
      then filter (fun x => included_as x IncludeStateAll flags)
             (filter (fun x => x_transactionHash x = h) (map sp_output (map_to_list (m_spentTransfers s)).*2)) else []).

Definition getTransactionInputs (h : Hash) (flags : Z) (s : TransfersContainer) : outcome (list TransactionOutputInformationEx) :=
  _ ← assert_ (Z.land flags IncludeStateAll =? 0);
  let flags := Z.lor flags IncludeStateUnlocked in
  Ret (filter (fun x => included_as x IncludeStateUnlocked flags) (map sp_output (spent_by h (m_spentTransfers s)))).

Definition getUnconfirmedTransactions (s : TransfersContainer) : list Hash :=
  map ti_transactionHash (filter (fun t => ti_blockHeight t = WALLET_LEGACY_UNCONFIRMED_TRANSACTION_HEIGHT) (m_transactions s)).

Definition getSpentOutputs (s : TransfersContainer) : list SpentTransactionOutput := (map_to_list (m_spentTransfers s)).*2.

Inductive TransferState := TransferUnconfirmed | TransferLocked | TransferAvailable | TransferSpent.

(** For a spent output the code reads [*unconfirmedIt], which is the end of its index there. *)
Definition getTransfer (h : Hash) (outputInTransaction : Z) (s : TransfersContainer)
    : outcome (option (TransactionOutputInformationEx * TransferState)) :=
  let k := (h, outputInTransaction) in
  match m_availableTransfers s !! k with
  | Some x =>
      Ret (Some (x, if negb (isSpendTimeUnlocked s x) || (m_currentHeight s <? u64 (x_blockHeight x + m_transactionSpendableAge))
                    then TransferLocked else TransferAvailable))
  | None =>
      match m_unconfirmedTransfers s !! k with
      | Some x => Ret (Some (x, TransferUnconfirmed))
      | None => match m_spentTransfers s !! k with Some _ => Undefined | None => Ret None end
      end
  end.

End Container.
