(* ===== verification/TransfersVisibility.v ===== *)
(** Which outputs the container of transfers shows: of the outputs with one key image the spent one, else the
    earliest available one, else an unconfirmed one that is alone.  [updateTransfersVisibility] restores this
    for a key image whatever happened to its outputs, and it determines the flags. *)

From S2P Require Import Prelude Config Currency Types Transfers.

Abbreviation outputs := (gmap TransactionOutputKey TransactionOutputInformationEx).
Abbreviation spent_outputs := (gmap TransactionOutputKey SpentTransactionOutput).

(** * The order of outputs *)

Lemma earlier_spec a b :
  earlier a b = true <->
  x_blockHeight a < x_blockHeight b
  \/ (x_blockHeight a = x_blockHeight b
      /\ (x_transactionIndex a < x_transactionIndex b
          \/ (x_transactionIndex a = x_transactionIndex b
              /\ (encode (getTransactionOutputKey a) < encode (getTransactionOutputKey b))%positive))).
Proof. unfold earlier. rewrite !orb_true_iff, !andb_true_iff, orb_true_iff, andb_true_iff, !Z.ltb_lt, !Z.eqb_eq, Pos.ltb_lt. done. Qed.

Lemma earlier_trans a b d : earlier a b = true -> earlier b d = true -> earlier a d = true.
Proof. rewrite !earlier_spec. lia. Qed.

Lemma earlier_total a b : getTransactionOutputKey a = getTransactionOutputKey b \/ earlier a b = true \/ earlier b a = true.
Proof.
  rewrite !earlier_spec. destruct (Pos.eq_dec (encode (getTransactionOutputKey a)) (encode (getTransactionOutputKey b))) as [He | He].
  - left. by apply encode_inj in He.
  - right. lia.
Qed.

Lemma minElement_elem l x : minElement l = Some x -> x ∈ l.
Proof.
  revert x. induction l as [| z l IH]; [done |]. intros x. cbn [minElement]. destruct (minElement l) as [m |].
  - destruct (earlier m z); intros [= <-]; [right; by apply IH | by left].
  - intros [= <-]. by left.
Qed.

Lemma minElement_None l : minElement l = None <-> l = [].
Proof. destruct l as [| x l]; cbn; [done |]. split; [by destruct (minElement l) | done]. Qed.

Lemma minElement_least l x :
  (forall y z, y ∈ l -> z ∈ l -> getTransactionOutputKey y = getTransactionOutputKey z -> y = z) ->
  minElement l = Some x -> forall y, y ∈ l -> y = x \/ earlier x y = true.
Proof.
  revert x. induction l as [| z l IH]; [done |]. intros x Hkey. cbn [minElement]. destruct (minElement l) as [m |] eqn:Em.
  - assert (Hle : forall y, y ∈ l -> y = m \/ earlier m y = true) by (apply IH; [| done]; intros; apply Hkey; [by right | by right | done]).
    pose proof (minElement_elem _ _ Em) as Hm. destruct (earlier m z) eqn:Emz; intros [= <-] y [-> | Hy]%elem_of_cons; [by right | by apply Hle | by left |].
    destruct (earlier_total m z) as [Hk | [? | Hzm]]; [| congruence |].
    + assert (m = z) as <- by (apply Hkey; [by right | by left | done]). by apply Hle.
    + destruct (Hle y Hy) as [-> | Hmy]; [by right | right; by eapply earlier_trans].
  - intros [= <-] y [-> | Hy]%elem_of_cons; [by left |]. apply minElement_None in Em. subst l. by apply not_elem_of_nil in Hy.
Qed.

(** * Outputs with a descriptor *)

Definition keyed (m : outputs) : Prop := forall k x, m !! k = Some x -> getTransactionOutputKey x = k.
Definition keyed_spent (m : spent_outputs) : Prop := forall k y, m !! k = Some y -> getTransactionOutputKey (sp_output y) = k.

Lemma elem_of_values {A} (m : gmap TransactionOutputKey A) (x : A) : x ∈ (map_to_list m).*2 <-> exists k, m !! k = Some x.
Proof.
  rewrite list_elem_of_fmap. split.
  - intros ([k y] & -> & Hin%elem_of_map_to_list). by exists k.
  - intros [k Hk]. exists (k, x). by rewrite elem_of_map_to_list.
Qed.

Lemma elem_with_descriptor d m x : x ∈ with_descriptor d m <-> exists k, m !! k = Some x /\ descriptor x = d.
Proof. unfold with_descriptor. rewrite list_elem_of_filter, elem_of_values. firstorder. Qed.
Lemma elem_spent_with_descriptor d m y : y ∈ spent_with_descriptor d m <-> exists k, m !! k = Some y /\ descriptor (sp_output y) = d.
Proof. unfold spent_with_descriptor. rewrite list_elem_of_filter, elem_of_values. firstorder. Qed.

Lemma none_with_descriptor d m : with_descriptor d m = [] <-> forall k x, m !! k = Some x -> descriptor x <> d.
Proof.
  split.
  - intros Hnil k x Hk Hd. apply (not_elem_of_nil x). rewrite <- Hnil. apply elem_with_descriptor. eauto.
  - intros Hno. destruct (with_descriptor d m) as [| x l] eqn:E; [done |].
    assert (x ∈ with_descriptor d m) as (k & Hk & Hd)%elem_with_descriptor by (rewrite E; by left). by destruct (Hno k x Hk).
Qed.
Lemma none_spent_with_descriptor d m : spent_with_descriptor d m = [] <-> forall k y, m !! k = Some y -> descriptor (sp_output y) <> d.
Proof.
  split.
  - intros Hnil k y Hk Hd. apply (not_elem_of_nil y). rewrite <- Hnil. apply elem_spent_with_descriptor. eauto.
  - intros Hno. destruct (spent_with_descriptor d m) as [| y l] eqn:E; [done |].
    assert (y ∈ spent_with_descriptor d m) as (k & Hk & Hd)%elem_spent_with_descriptor by (rewrite E; by left). by destruct (Hno k y Hk).
Qed.

Lemma NoDup_values {A} (key : A -> TransactionOutputKey) (m : gmap TransactionOutputKey A) (P : A -> Prop) `{!forall x, Decision (P x)} :
  (forall k x, m !! k = Some x -> key x = k) -> NoDup (map key (filter P (map_to_list m).*2)).
Proof.
  intros Hkey. assert (map key (map_to_list m).*2 = (map_to_list m).*1) as Heq.
  { change (key <$> (snd <$> map_to_list m) = fst <$> map_to_list m). rewrite <- list_fmap_compose. apply list_fmap_ext.
    intros i [k x] Hin%list_elem_of_lookup_2%elem_of_map_to_list. by apply Hkey. }
  pose proof (NoDup_fst_map_to_list m) as Hnd. rewrite <- Heq in Hnd. revert Hnd. generalize ((map_to_list m).*2) as l.
  induction l as [| x l IH]; [done |]. cbn [map]. intros [Hx Hl]%NoDup_cons. rewrite filter_cons.
  destruct (decide (P x)); [| by apply IH]. cbn [map]. apply NoDup_cons. split; [| by apply IH].
  intros Hin. apply Hx. apply list_elem_of_fmap in Hin as (y & -> & Hy). apply list_elem_of_filter in Hy as [_ Hy]. by apply list_elem_of_fmap_2.
Qed.

Lemma single_with_descriptor d m k x :
  keyed m -> m !! k = Some x -> descriptor x = d ->
  length (with_descriptor d m) = 1%nat <-> (forall k' x', m !! k' = Some x' -> descriptor x' = d -> k' = k).
Proof.
  intros Hkey Hk Hd. assert (Hin : x ∈ with_descriptor d m) by (apply elem_with_descriptor; eauto). split.
  - intros H1 k' x' Hk' Hd'. assert (Hin' : x' ∈ with_descriptor d m) by (apply elem_with_descriptor; eauto).
    destruct (with_descriptor d m) as [| y [| z l]]; try done. apply list_elem_of_singleton in Hin as ->, Hin' as ->.
    by rewrite <- (Hkey k y Hk), <- (Hkey k' y Hk').
  - intros Hone. pose proof (NoDup_values getTransactionOutputKey m (fun x => descriptor x = d) Hkey) as Hnd.
    fold (with_descriptor d m) in Hnd. destruct (with_descriptor d m) as [| y [| z l]] eqn:E; [by apply not_elem_of_nil in Hin | done |].
    exfalso. cbn [map] in Hnd. apply NoDup_cons in Hnd as [Hy _]. apply Hy.
    assert (y ∈ with_descriptor d m) as (ky & Hky & Hdy)%elem_with_descriptor by (rewrite E; by left).
    assert (z ∈ with_descriptor d m) as (kz & Hkz & Hdz)%elem_with_descriptor by (rewrite E; by right; left).
    rewrite (Hkey _ _ Hky), (Hone _ _ Hky Hdy), <- (Hone _ _ Hkz Hdz), <- (Hkey _ _ Hkz). by left.
Qed.

(** * A container without its flags *)

Definition bare : outputs -> outputs := fmap (set_visible true).
Definition bare_output (y : SpentTransactionOutput) : SpentTransactionOutput :=
  mkSpentOutput (set_visible true (sp_output y)) (sp_spendingBlock y) (sp_spendingTransactionHash y) (sp_inputInTransaction y).
Definition bare_spent : spent_outputs -> spent_outputs := fmap bare_output.
Definition plain (s : TransfersContainer) : TransfersContainer :=
  mkContainer (m_transactions s) (bare (m_unconfirmedTransfers s)) (bare (m_availableTransfers s)) (bare_spent (m_spentTransfers s))
    (m_transfersUnlockJobs s) (m_currentHeight s).

Lemma set_visible_twice v w x : set_visible v (set_visible w x) = set_visible v x.
Proof. done. Qed.
Lemma set_visible_same x : set_visible (x_visible x) x = x.
Proof. by destruct x. Qed.
Lemma earlier_plain v w x y : earlier (set_visible v x) (set_visible w y) = earlier x y.
Proof. done. Qed.

Lemma bare_lookup m k x : bare m !! k = Some x <-> exists y, m !! k = Some y /\ x = set_visible true y.
Proof. unfold bare. rewrite lookup_fmap_Some. split; intros (y & ? & ?); eauto. Qed.
Lemma bare_spent_lookup m k x : bare_spent m !! k = Some x <-> exists y, m !! k = Some y /\ x = bare_output y.
Proof. unfold bare_spent. rewrite lookup_fmap_Some. split; intros (y & ? & ?); eauto. Qed.

Lemma bare_update d v m : bare (updateVisibility d v m) = bare m.
Proof.
  unfold bare, updateVisibility. rewrite <- map_fmap_compose. apply map_fmap_ext. intros k x _. unfold compose. by case_decide.
Qed.
Lemma bare_spent_update d v m : bare_spent (updateSpentVisibility d v m) = bare_spent m.
Proof.
  unfold bare_spent, updateSpentVisibility. rewrite <- map_fmap_compose. apply map_fmap_ext. intros k x _. unfold compose. by case_decide.
Qed.
Lemma bare_insert k x m : bare (<[k := x]> m) = <[k := set_visible true x]> (bare m).
Proof. apply fmap_insert. Qed.
Lemma bare_delete k m : bare (delete k m) = delete k (bare m).
Proof. apply fmap_delete. Qed.

Lemma update_lookup d v m k x :
  updateVisibility d v m !! k = Some x <-> exists y, m !! k = Some y /\ x = if decide (descriptor y = d) then set_visible v y else y.
Proof. unfold updateVisibility. rewrite lookup_fmap_Some. split; intros (y & ? & ?); eauto. Qed.
Lemma update_spent_lookup d v m k x :
  updateSpentVisibility d v m !! k = Some x <->
  exists y, m !! k = Some y
       /\ x = if decide (descriptor (sp_output y) = d)
              then mkSpentOutput (set_visible v (sp_output y)) (sp_spendingBlock y) (sp_spendingTransactionHash y) (sp_inputInTransaction y) else y.
Proof. unfold updateSpentVisibility. rewrite lookup_fmap_Some. split; intros (y & ? & ?); eauto. Qed.

(** * What is shown *)

Definition not_spent (s : TransfersContainer) (d : SpentOutputDescriptor) : Prop :=
  forall k y, m_spentTransfers s !! k = Some y -> descriptor (sp_output y) <> d.
Definition not_available (s : TransfersContainer) (d : SpentOutputDescriptor) : Prop :=
  forall k x, m_availableTransfers s !! k = Some x -> descriptor x <> d.

Definition first_available (s : TransfersContainer) (d : SpentOutputDescriptor) (k : TransactionOutputKey) : Prop :=
  not_spent s d
  /\ forall x k' x', m_availableTransfers s !! k = Some x -> descriptor x = d ->
     m_availableTransfers s !! k' = Some x' -> descriptor x' = d -> k' = k \/ earlier x x' = true.
Definition only_unconfirmed (s : TransfersContainer) (d : SpentOutputDescriptor) (k : TransactionOutputKey) : Prop :=
  not_spent s d /\ not_available s d
  /\ forall k' x', m_unconfirmedTransfers s !! k' = Some x' -> descriptor x' = d -> k' = k.

(** What a flag says: for key outputs the property, for the others that they are always shown. *)
Definition flag (d : SpentOutputDescriptor) (b : bool) (P : Prop) : Prop :=
  match d with ByKeyImage _ => b = true <-> P | _ => b = true end.

Definition shown (s : TransfersContainer) (d : SpentOutputDescriptor) : Prop :=
  (forall k y, m_spentTransfers s !! k = Some y -> descriptor (sp_output y) = d -> x_visible (sp_output y) = true)
  /\ (forall k x, m_availableTransfers s !! k = Some x -> descriptor x = d -> flag d (x_visible x) (first_available (plain s) d k))
  /\ (forall k x, m_unconfirmedTransfers s !! k = Some x -> descriptor x = d -> flag d (x_visible x) (only_unconfirmed (plain s) d k)).

Lemma flag_agree d P a b : flag d a P -> flag d b P -> a = b.
Proof. destruct d, a, b; cbn; intuition congruence. Qed.

Lemma set_visible_inj x y : set_visible true x = set_visible true y -> x_visible x = x_visible y -> x = y.
Proof. destruct x, y. intros [=] ?. cbn in *. by subst. Qed.

Lemma bare_eq m m' :
  bare m = bare m' ->
  (forall k x x', m !! k = Some x -> m' !! k = Some x' -> x_info x = x_info x' -> x_visible x = x_visible x') -> m = m'.
Proof.
  intros Hb Hv. apply map_eq. intros k. pose proof (f_equal (lookup k) Hb) as Hk. unfold bare in Hk. rewrite !lookup_fmap in Hk.
  destruct (m !! k) as [x |] eqn:E, (m' !! k) as [x' |] eqn:E'; [| done..]. cbn in Hk. injection Hk as Hi Hh Hu Hbh Ht.
  f_equal. apply set_visible_inj; [unfold set_visible; congruence | by apply (Hv k)].
Qed.

(** The flags are determined by the rest. *)
Lemma shown_unique s s' : plain s = plain s' -> (forall d, shown s d) -> (forall d, shown s' d) -> s = s'.
Proof.
  intros Hp Hs Hs'. pose proof Hp as Hp0. unfold plain in Hp. injection Hp as Htx Hu Ha Hsp Hj Hh.
  assert (Heq_u : m_unconfirmedTransfers s = m_unconfirmedTransfers s').
  { apply bare_eq; [done |]. intros k x x' E E' Hi. destruct (Hs (descriptor x)) as (_ & _ & F), (Hs' (descriptor x')) as (_ & _ & F').
    specialize (F k x E eq_refl). specialize (F' k x' E' eq_refl). rewrite <- Hi, <- Hp0 in F'. by eapply flag_agree. }
  assert (Heq_a : m_availableTransfers s = m_availableTransfers s').
  { apply bare_eq; [done |]. intros k x x' E E' Hi. destruct (Hs (descriptor x)) as (_ & F & _), (Hs' (descriptor x')) as (_ & F' & _).
    specialize (F k x E eq_refl). specialize (F' k x' E' eq_refl). rewrite <- Hi, <- Hp0 in F'. by eapply flag_agree. }
  assert (Heq_s : m_spentTransfers s = m_spentTransfers s').
  { apply map_eq. intros k. pose proof (f_equal (lookup k) Hsp) as Hk. unfold bare_spent in Hk. rewrite !lookup_fmap in Hk.
    destruct (m_spentTransfers s !! k) as [[x b h i] |] eqn:E, (m_spentTransfers s' !! k) as [[x' b' h' i'] |] eqn:E'; [| done..].
    cbn in Hk. unfold bare_output in Hk. cbn in Hk. injection Hk as Hi Hth Hut Hbh Hti -> -> ->. do 2 f_equal.
    apply set_visible_inj; [unfold set_visible; congruence |].
    rewrite (proj1 (Hs _) k _ E eq_refl : x_visible x = true). symmetry. by apply (proj1 (Hs' _) k _ E' eq_refl). }
  destruct s, s'. cbn in *. by subst.
Qed.

(** * Only the outputs of the descriptor count *)

Definition agree_on (d : SpentOutputDescriptor) (s s' : TransfersContainer) : Prop :=
  (forall k x, descriptor x = d -> m_unconfirmedTransfers s !! k = Some x <-> m_unconfirmedTransfers s' !! k = Some x)
  /\ (forall k x, descriptor x = d -> m_availableTransfers s !! k = Some x <-> m_availableTransfers s' !! k = Some x)
  /\ (forall k y, descriptor (sp_output y) = d -> m_spentTransfers s !! k = Some y <-> m_spentTransfers s' !! k = Some y).

Lemma agree_plain d s s' : agree_on d s s' -> agree_on d (plain s) (plain s').
Proof.
  intros (Hu & Ha & Hs). split; [| split]; intros k x Hd; cbn; rewrite ?bare_lookup, ?bare_spent_lookup;
    (split; intros (y & Hy & ->); exists y; (split; [| done])); revert Hy; cbn in Hd; first [apply Hu | apply Ha | apply Hs]; done.
Qed.

Lemma agree_sym d s s' : agree_on d s s' -> agree_on d s' s.
Proof. intros (Hu & Ha & Hs). split; [| split]; intros k x Hd; symmetry; auto. Qed.

Lemma agree_not_spent d s s' : agree_on d s s' -> not_spent s d -> not_spent s' d.
Proof. intros (_ & _ & Hs) H k y Hk Hd. by apply (H k y); [apply Hs |]. Qed.
Lemma agree_not_available d s s' : agree_on d s s' -> not_available s d -> not_available s' d.
Proof. intros (_ & Ha & _) H k y Hk Hd. by apply (H k y); [apply Ha |]. Qed.
Lemma agree_first d s s' k : agree_on d s s' -> first_available s d k -> first_available s' d k.
Proof.
  intros Hag [Hn H]. split; [by eapply agree_not_spent |]. destruct Hag as (_ & Ha & _). intros x k' x' Hk Hd Hk' Hd'.
  by apply (H x k' x'); [apply Ha | | apply Ha |].
Qed.
Lemma agree_only d s s' k : agree_on d s s' -> only_unconfirmed s d k -> only_unconfirmed s' d k.
Proof.
  intros Hag (Hn & Hm & H). split; [by eapply agree_not_spent |]. split; [by eapply agree_not_available |].
  destruct Hag as (Hu & _ & _). intros k' x' Hk' Hd'. by apply (H k' x'); [apply Hu |].
Qed.

Lemma flag_iff d b P Q : (P <-> Q) -> flag d b P -> flag d b Q.
Proof. destruct d; cbn; intuition. Qed.

Lemma agree_shown d s s' : agree_on d s s' -> shown s d -> shown s' d.
Proof.
  intros Hag (Hs & Ha & Hu). pose proof (agree_plain _ _ _ Hag) as Hp. pose proof (agree_sym _ _ _ Hp) as Hp'.
  pose proof Hag as (Gu & Ga & Gs). split; [| split].
  - intros k y Hk Hd. apply (Hs k); [by apply Gs | done].
  - intros k x Hk Hd. eapply flag_iff, (Ha k); [split; by apply agree_first | by apply Ga | done].
  - intros k x Hk Hd. eapply flag_iff, (Hu k); [split; by apply agree_only | by apply Gu | done].
Qed.

(** * The update *)

Lemma update_agree d d' v m k x : descriptor x = d' -> d' <> d -> m !! k = Some x <-> updateVisibility d v m !! k = Some x.
Proof.
  intros Hx Hne. rewrite update_lookup. split.
  - intros Hk. exists x. split; [done |]. rewrite decide_False; [done | congruence].
  - intros (y & Hy & ->). destruct (decide (descriptor y = d)) as [E | E]; [| done]. cbn in Hx. congruence.
Qed.
Lemma update_spent_agree d d' v m k y : descriptor (sp_output y) = d' -> d' <> d -> m !! k = Some y <-> updateSpentVisibility d v m !! k = Some y.
Proof.
  intros Hx Hne. rewrite update_spent_lookup. split.
  - intros Hk. exists y. split; [done |]. rewrite decide_False; [done | congruence].
  - intros (z & Hz & ->). destruct (decide (descriptor (sp_output z) = d)) as [E | E]; [| done]. cbn in Hx. congruence.
Qed.

Lemma update_flag d v m k x : updateVisibility d v m !! k = Some x -> descriptor x = d -> x_visible x = v.
Proof. rewrite update_lookup. intros (y & _ & ->) Hd. case_decide; [done | by destruct Hd]. Qed.
Lemma update_spent_flag d v m k y : updateSpentVisibility d v m !! k = Some y -> descriptor (sp_output y) = d -> x_visible (sp_output y) = v.
Proof. rewrite update_spent_lookup. intros (z & _ & ->) Hd. case_decide; [done | by destruct Hd]. Qed.

Lemma keyed_update d v m : keyed m -> keyed (updateVisibility d v m).
Proof. intros H k x. rewrite update_lookup. intros (y & Hy & ->). case_decide; by rewrite <- (H _ _ Hy). Qed.

Lemma count_nil {A} (l : list A) : (0 <? Z.of_nat (length l)) = false <-> l = [].
Proof. destruct l; cbn; split; try done. Qed.
Lemma not_spent_count d s : (0 <? Z.of_nat (length (spent_with_descriptor d (m_spentTransfers s)))) = false <-> not_spent s d.
Proof. rewrite count_nil. apply none_spent_with_descriptor. Qed.
Lemma not_available_count d s : (0 <? Z.of_nat (length (with_descriptor d (m_availableTransfers s)))) = false <-> not_available s d.
Proof. rewrite count_nil. apply none_with_descriptor. Qed.

Lemma plain_not_spent s d : not_spent (plain s) d <-> not_spent s d.
Proof.
  split; intros H k y Hk.
  - change (descriptor (sp_output (bare_output y)) <> d). apply (H k). cbn. apply bare_spent_lookup. eauto.
  - cbn in Hk. apply bare_spent_lookup in Hk as (z & Hz & ->). apply (H k z Hz).
Qed.
Lemma plain_not_available s d : not_available (plain s) d <-> not_available s d.
Proof.
  split; intros H k y Hk.
  - change (descriptor (set_visible true y) <> d). apply (H k). cbn. apply bare_lookup. eauto.
  - cbn in Hk. apply bare_lookup in Hk as (z & Hz & ->). apply (H k z Hz).
Qed.

(** Every branch shows what [shown] asks for, given that at most one output with the key image is spent. *)
Lemma update_spent_case ki s :
  let d := ByKeyImage ki in
  let s' := with_spent (updateSpentVisibility d true (m_spentTransfers s))
              (with_available (updateVisibility d false (m_availableTransfers s)) (with_unconfirmed (updateVisibility d false (m_unconfirmedTransfers s)) s)) in
  ~ not_spent s d -> plain s' = plain s /\ shown s' d.
Proof.
  intros d s' Hn. assert (Hp : plain s' = plain s) by (unfold plain, s'; cbn; by rewrite !bare_update, bare_spent_update).
  split; [done |]. rewrite <- plain_not_spent in Hn. unfold shown. rewrite Hp. split; [| split].
  - intros k y Hk Hd. exact (update_spent_flag _ _ _ _ _ Hk Hd).
  - intros k x Hk Hd. cbn in Hk. rewrite (update_flag _ _ _ _ _ Hk Hd). split; [done | intros [? _]; done].
  - intros k x Hk Hd. cbn in Hk. rewrite (update_flag _ _ _ _ _ Hk Hd). split; [done | intros [? _]; done].
Qed.

Lemma update_available_case ki s x :
  let d := ByKeyImage ki in
  let m := updateVisibility d false (m_availableTransfers s) in
  let s' := with_available (<[getTransactionOutputKey x := set_visible true x]> m)
              (with_available m (with_unconfirmed (updateVisibility d false (m_unconfirmedTransfers s)) s)) in
  keyed (m_availableTransfers s) -> not_spent s d -> minElement (with_descriptor d m) = Some x -> plain s' = plain s /\ shown s' d.
Proof.
  intros d m s' Hkey Hn Hx. assert (Hkm : keyed m) by by apply keyed_update.
  pose proof (minElement_elem _ _ Hx) as (k0 & Hk0 & Hd0)%elem_with_descriptor. pose proof (Hkm _ _ Hk0) as Hxk.
  assert (Hb : bare (<[getTransactionOutputKey x := set_visible true x]> m) = bare (m_availableTransfers s)).
  { rewrite bare_insert, set_visible_twice, insert_id; [apply bare_update |]. rewrite Hxk. apply bare_lookup. eauto. }
  assert (Hp : plain s' = plain s) by (unfold plain, s'; cbn; by rewrite Hb, bare_update).
  split; [done |]. assert (Hna : ~ not_available s d).
  { intros Hna. apply plain_not_available in Hna. apply (Hna k0 (set_visible true x)); [| done].
    cbn. rewrite <- bare_update with (d := d) (v := false). apply bare_lookup. eauto. }
  unfold shown. rewrite Hp. split; [| split].
  - intros k y Hk Hd. exfalso. by apply (Hn k y).
  - intros k y Hk Hd. cbn in Hk. apply lookup_insert_Some in Hk as [[<- <-] | [Hne Hk]].
    + split; [intros _ | done]. split; [by apply plain_not_spent |]. intros a k' a' Ha _ Ha' Hd'. cbn in Ha, Ha'.
      rewrite Hxk in Ha. rewrite <- bare_update with (d := d) (v := false) in Ha, Ha'. apply bare_lookup in Ha as (b & Hb1 & ->), Ha' as (b' & Hb' & ->).
      assert (b = x) as -> by (fold m in Hb1; congruence). rewrite earlier_plain.
      destruct (minElement_least _ _ ltac:(intros y z (ky & Hy & _)%elem_with_descriptor (kz & Hz & _)%elem_with_descriptor Hyz;
        rewrite (Hkm _ _ Hy), (Hkm _ _ Hz) in Hyz; congruence) Hx b') as [-> | ?]; [by apply elem_with_descriptor; eauto | | by right].
      left. by rewrite <- (Hkm _ _ Hb').
    + rewrite (update_flag _ _ _ _ _ Hk Hd). split; [done |]. intros [_ Hfirst]. exfalso.
      assert (Hy : bare (m_availableTransfers s) !! k = Some (set_visible true y)) by (rewrite <- bare_update with (d := d) (v := false); apply bare_lookup; eauto).
      assert (Hxb : bare (m_availableTransfers s) !! k0 = Some (set_visible true x)) by (rewrite <- bare_update with (d := d) (v := false); apply bare_lookup; eauto).
      destruct (Hfirst _ _ _ Hy Hd Hxb Hd0) as [<- | He]; [done |]. rewrite earlier_plain in He.
      destruct (minElement_least _ _ ltac:(intros a z (ka & Ha & _)%elem_with_descriptor (kz & Hz & _)%elem_with_descriptor Haz;
        rewrite (Hkm _ _ Ha), (Hkm _ _ Hz) in Haz; congruence) Hx y) as [-> | He']; [by apply elem_with_descriptor; eauto | |].
      * apply Hne. by rewrite (Hkm _ _ Hk).
      * rewrite earlier_spec in He, He'. lia.
  - intros k y Hk Hd. cbn in Hk. rewrite (update_flag _ _ _ _ _ Hk Hd). split; [done |]. intros (_ & H & _). exfalso. apply Hna. by apply plain_not_available.
Qed.

Lemma update_unconfirmed_case ki s :
  let d := ByKeyImage ki in
  let s' := with_unconfirmed (updateVisibility d (Z.of_nat (length (with_descriptor d (m_unconfirmedTransfers s))) =? 1) (m_unconfirmedTransfers s)) s in
  keyed (m_unconfirmedTransfers s) -> not_spent s d -> not_available s d -> plain s' = plain s /\ shown s' d.
Proof.
  intros d s' Hkey Hn Hna. assert (Hp : plain s' = plain s) by (unfold plain, s'; cbn; by rewrite bare_update).
  split; [done |]. unfold shown. rewrite Hp. split; [| split].
  - intros k y Hk Hd. exfalso. by apply (Hn k y).
  - intros k y Hk Hd. exfalso. by apply (Hna k y).
  - intros k y Hk Hd. cbn in Hk. rewrite (update_flag _ _ _ _ _ Hk Hd). apply update_lookup in Hk as (x & Hk & ->).
    assert (Hdx : descriptor x = d) by (case_decide; done). change ((Z.of_nat (length (with_descriptor d (m_unconfirmedTransfers s))) =? 1) = true <-> only_unconfirmed (plain s) d k). rewrite Z.eqb_eq.
    transitivity (length (with_descriptor d (m_unconfirmedTransfers s)) = 1%nat); [lia |]. rewrite (single_with_descriptor d _ k x); [| done..].
    split.
    + intros Hone. split; [by apply plain_not_spent |]. split; [by apply plain_not_available |].
      intros k' x' (z & Hz & ->)%bare_lookup Hd'. by apply (Hone k' z).
    + intros (_ & _ & Hone) k' x' Hk' Hd'. apply (Hone k' (set_visible true x')); [| done]. cbn. apply bare_lookup. eauto.
Qed.

Definition spent_once (m : spent_outputs) : Prop :=
  forall k k' y y', m !! k = Some y -> m !! k' = Some y' -> descriptor (sp_output y) = descriptor (sp_output y') -> k = k'.

Lemma spent_at_most_one d m : keyed_spent m -> spent_once m -> (length (spent_with_descriptor d m) <= 1)%nat.
Proof.
  intros Hkey Honce. pose proof (NoDup_values (fun y => getTransactionOutputKey (sp_output y)) m (fun y => descriptor (sp_output y) = d) Hkey) as Hnd.
  fold (spent_with_descriptor d m) in Hnd. destruct (spent_with_descriptor d m) as [| y [| z l]] eqn:E; cbn; [lia.. |].
  exfalso. cbn [map] in Hnd. apply NoDup_cons in Hnd as [Hy _]. apply Hy.
  assert (y ∈ spent_with_descriptor d m) as (ky & Hky & Hdy)%elem_spent_with_descriptor by (rewrite E; by left).
  assert (z ∈ spent_with_descriptor d m) as (kz & Hkz & Hdz)%elem_spent_with_descriptor by (rewrite E; by right; left).
  rewrite (Hkey _ _ Hky), (Honce ky kz y z) by congruence. rewrite <- (Hkey _ _ Hkz). by left.
Qed.

(** [updateTransfersVisibility] ends, changes nothing but flags and sets them right for its key image. *)
Lemma update_shown ki s :
  keyed (m_unconfirmedTransfers s) -> keyed (m_availableTransfers s) -> keyed_spent (m_spentTransfers s) -> spent_once (m_spentTransfers s) ->
  (forall d, d <> ByKeyImage ki -> shown s d) ->
  exists s', updateTransfersVisibility ki s = Ret s' /\ plain s' = plain s /\ forall d, shown s' d.
Proof.
  intros Hku Hka Hks Honce Hothers. pose proof (spent_at_most_one (ByKeyImage ki) _ Hks Honce) as Hle.
  assert (Hall : forall s', plain s' = plain s /\ shown s' (ByKeyImage ki) -> (forall d, d <> ByKeyImage ki -> agree_on d s s') ->
            exists s'', Ret s' = Ret s'' /\ plain s'' = plain s /\ forall d, shown s'' d).
  { intros s' [Hp Hs] Hag. exists s'. split; [done |]. split; [done |]. intros d. destruct (decide (d = ByKeyImage ki)) as [-> | Hne]; [done |].
    eapply agree_shown; [by apply Hag | by apply Hothers]. }
  unfold updateTransfersVisibility. rewrite assert_true by (apply orb_true_iff; rewrite !Z.eqb_eq; lia). rewrite outcome_bind_ret.
  destruct (0 <? Z.of_nat (length (spent_with_descriptor (ByKeyImage ki) (m_spentTransfers s)))) eqn:Es.
  - assert (Hn : ~ not_spent s (ByKeyImage ki)) by (rewrite <- not_spent_count; congruence).
    refine (Hall _ (update_spent_case ki s Hn) _). intros d Hne.
    split; [| split]; intros k x Hd; [by eapply update_agree.. | by eapply update_spent_agree].
  - apply not_spent_count in Es. destruct (0 <? Z.of_nat (length (with_descriptor (ByKeyImage ki) (m_availableTransfers s)))) eqn:Ea.
    + destruct (minElement _) as [x |] eqn:Ex.
      * refine (Hall _ (update_available_case ki s x Hka Es Ex) _). intros d Hne.
        pose proof (minElement_elem _ _ Ex) as (k0 & Hk0 & Hd0)%elem_with_descriptor.
        change (updateVisibility (ByKeyImage ki) false (m_availableTransfers s) !! k0 = Some x) in Hk0.
        split; [| split]; intros k y Hd; cbn; [by eapply update_agree | | done].
        rewrite (update_agree (ByKeyImage ki) d false _ k y Hd Hne), lookup_insert_Some.
        assert (Hkx : getTransactionOutputKey x = k0) by by eapply (keyed_update _ _ _ Hka). rewrite Hkx. split.
        -- intros Hk. right. split; [| done]. intros ->. congruence.
        -- intros [[_ <-] | [_ Hk]]; [cbn in Hd; congruence | done].
      * exfalso. apply minElement_None in Ex. pose proof (proj1 (none_with_descriptor _ _) Ex) as Hnone.
        assert (~ not_available s (ByKeyImage ki)) as Hna by (rewrite <- not_available_count; congruence). apply Hna. intros k x Hk Hd.
        apply (Hnone k (set_visible false x)); [| done]. apply update_lookup. exists x. split; [done |]. by rewrite decide_True.
    + apply not_available_count in Ea. refine (Hall _ (update_unconfirmed_case ki s Hku Es Ea) _). intros d Hne.
      split; [| split]; intros k x Hd; cbn; [by eapply update_agree | done..].
Qed.
