(* ===== verification/TransfersInvariant.v ===== *)
(** The invariant of the container of transfers: every output is in one place, belongs to a transaction of the
    container and, when spent, is spent by a later one; the jobs are those of the available outputs; and what is
    shown is what [TransfersVisibility.v] says. *)

From S2P Require Import Prelude Config Currency Types Transfers TransfersVisibility.

Abbreviation UNCONFIRMED := WALLET_LEGACY_UNCONFIRMED_TRANSACTION_HEIGHT.
Abbreviation hashes l := (ti_transactionHash <$> l).

(** * The list of transactions *)

Lemma elem_of_insert_by {A} (key : A -> Z) x l y : y ∈ insert_by key x l <-> y = x \/ y ∈ l.
Proof.
  induction l as [| z l IH]; cbn [insert_by]; [rewrite list_elem_of_singleton, elem_of_nil; tauto |].
  destruct (key x <? key z); rewrite !elem_of_cons; [done |]. rewrite IH. tauto.
Qed.

Lemma insert_by_perm {A} (key : A -> Z) x l : insert_by key x l ≡ₚ x :: l.
Proof.
  induction l as [| z l IH]; cbn [insert_by]; [done |]. destruct (key x <? key z); [done |]. rewrite IH. apply Permutation_swap.
Qed.

Lemma insert_by_app {A} (key : A -> Z) x l1 l2 :
  insert_by key x (l1 ++ l2) = insert_by key x l1 ++ l2 \/ insert_by key x (l1 ++ l2) = l1 ++ insert_by key x l2.
Proof.
  induction l1 as [| z l1 IH]; cbn [insert_by app]; [by right |]. destruct (key x <? key z); [by left |].
  destruct IH as [-> | ->]; [by left | by right].
Qed.

Lemma NoDup_fmap_filter {A B} (f : A -> B) (P : A -> Prop) `{!forall x, Decision (P x)} (l : list A) : NoDup (f <$> l) -> NoDup (f <$> filter P l).
Proof.
  induction l as [| x l IH]; [done |]. rewrite fmap_cons. intros [Hx Hl]%NoDup_cons. rewrite filter_cons. case_decide; [| by apply IH].
  rewrite fmap_cons. apply NoDup_cons. split; [| by apply IH]. intros (y & Hxy & [_ Hy]%list_elem_of_filter)%list_elem_of_fmap. apply Hx.
  rewrite Hxy. by apply list_elem_of_fmap_2.
Qed.

Definition by_key {A} (key : A -> Z) (l : list A) : Prop := StronglySorted (fun x y => key x <= key y) l.

Lemma insert_by_split {A} (key : A -> Z) x l :
  by_key key l -> exists l1 l2, l = l1 ++ l2 /\ insert_by key x l = l1 ++ x :: l2
                    /\ Forall (fun y => key y <= key x) l1 /\ Forall (fun y => key x < key y) l2.
Proof.
  induction 1 as [| z l Hl IH Hz]; cbn [insert_by]; [by exists [], [] |]. destruct (Z.ltb_spec (key x) (key z)).
  - exists [], (z :: l). repeat split; [constructor |]. constructor; [done |]. eapply Forall_impl; [exact Hz | cbn; lia].
  - destruct IH as (l1 & l2 & -> & -> & H1 & H2). exists (z :: l1), l2. repeat split; [constructor; [lia | done] | done].
Qed.

Lemma insert_by_sorted {A} (key : A -> Z) x l : by_key key l -> by_key key (insert_by key x l).
Proof.
  induction 1 as [| z l Hl IH Hz]; cbn [insert_by]; [by repeat constructor |]. destruct (Z.ltb_spec (key x) (key z)).
  - constructor; [by constructor |]. constructor; [lia |]. eapply Forall_impl; [exact Hz | cbn; lia].
  - constructor; [done |]. apply Forall_forall. intros y [-> | Hy]%elem_of_insert_by; [lia |]. rewrite Forall_forall in Hz. by apply Hz.
Qed.

Lemma filter_by_key {A} (key : A -> Z) (P : A -> Prop) `{!forall x, Decision (P x)} l : by_key key l -> by_key key (filter P l).
Proof.
  induction 1 as [| z l Hl IH Hz]; [constructor |]. rewrite filter_cons. case_decide; [| done]. constructor; [done |].
  apply Forall_forall. intros y [_ Hy]%list_elem_of_filter. rewrite Forall_forall in Hz. by apply Hz.
Qed.

Record log_ok (txs : list TransactionInformation) : Prop := {
  lo_distinct : NoDup (hashes txs);
  lo_sorted : by_key ti_blockHeight txs;
  lo_heights : forall t, t ∈ txs -> ti_blockHeight t <= UNCONFIRMED
}.

(** A transaction of the container and its height; one transaction stands before another. *)
Definition recorded (txs : list TransactionInformation) (h : Hash) (height : Z) : Prop :=
  exists t, t ∈ txs /\ ti_transactionHash t = h /\ ti_blockHeight t = height.
Definition precedes (txs : list TransactionInformation) (h h' : Hash) : Prop :=
  exists l l', txs = l ++ l' /\ h ∈ hashes l /\ h' ∈ hashes l'.

Lemma recorded_elem txs h height : recorded txs h height -> h ∈ hashes txs.
Proof. intros (t & Ht & <- & _). by apply list_elem_of_fmap_2. Qed.

Lemma recorded_unique txs h a b : NoDup (hashes txs) -> recorded txs h a -> recorded txs h b -> a = b.
Proof.
  intros Hnd (t & Ht & <- & <-) (t' & Ht' & Hh & <-). f_equal. induction txs as [| u txs IH]; [by apply not_elem_of_nil in Ht |].
  rewrite fmap_cons in Hnd. apply NoDup_cons in Hnd as [Hu Hnd].
  apply elem_of_cons in Ht as [-> | Ht], Ht' as [-> | Ht']; [done | | | by apply IH].
  - destruct Hu. rewrite <- Hh. by apply list_elem_of_fmap_2.
  - destruct Hu. rewrite Hh. by apply list_elem_of_fmap_2.
Qed.

Lemma recorded_insert x txs h height : recorded txs h height -> recorded (insert_by ti_blockHeight x txs) h height.
Proof. intros (t & Ht & Hh). exists t. split; [| done]. apply elem_of_insert_by. by right. Qed.
Lemma recorded_new x txs : recorded (insert_by ti_blockHeight x txs) (ti_transactionHash x) (ti_blockHeight x).
Proof. exists x. split; [| done]. apply elem_of_insert_by. by left. Qed.
Lemma recorded_filter txs g h height :
  recorded txs h height -> h <> g -> recorded (filter (fun t => ti_transactionHash t <> g) txs) h height.
Proof. intros (t & Ht & Hh & Hb) Hne. exists t. split; [| done]. apply list_elem_of_filter. by rewrite Hh. Qed.

Lemma precedes_insert x txs h h' : precedes txs h h' -> precedes (insert_by ti_blockHeight x txs) h h'.
Proof.
  intros (l & l' & -> & Hh & Hh'). destruct (insert_by_app ti_blockHeight x l l') as [-> | ->].
  - exists (insert_by ti_blockHeight x l), l'. split; [done |]. split; [| done]. rewrite insert_by_perm. by right.
  - exists l, (insert_by ti_blockHeight x l'). split; [done |]. split; [done |]. rewrite insert_by_perm. by right.
Qed.
Lemma precedes_new x txs h height :
  by_key ti_blockHeight txs -> recorded txs h height -> height <= ti_blockHeight x -> precedes (insert_by ti_blockHeight x txs) h (ti_transactionHash x).
Proof.
  intros Hs (t & Ht & <- & <-) Hle. destruct (insert_by_split ti_blockHeight x txs Hs) as (l1 & l2 & -> & -> & H1 & H2).
  exists l1, (x :: l2). split; [done |]. split; [| by left]. apply list_elem_of_fmap_2. apply elem_of_app in Ht as [Ht | Ht]; [done |].
  rewrite Forall_forall in H2. specialize (H2 t Ht). lia.
Qed.
Lemma precedes_filter g txs h h' :
  precedes txs h h' -> h <> g -> h' <> g -> precedes (filter (fun t => ti_transactionHash t <> g) txs) h h'.
Proof.
  intros (l & l' & -> & (t & -> & Ht)%list_elem_of_fmap & (t' & -> & Ht')%list_elem_of_fmap) Hh Hh'.
  exists (filter (fun t => ti_transactionHash t <> g) l), (filter (fun t => ti_transactionHash t <> g) l'). rewrite filter_app.
  split; [done |]. split; apply list_elem_of_fmap_2, list_elem_of_filter; done.
Qed.
Lemma precedes_elem txs h h' : precedes txs h h' -> h ∈ hashes txs /\ h' ∈ hashes txs.
Proof. intros (l & l' & -> & Hh & Hh'). rewrite fmap_app, !elem_of_app. tauto. Qed.

Lemma log_insert x txs : log_ok txs -> ti_transactionHash x ∉ hashes txs -> ti_blockHeight x <= UNCONFIRMED -> log_ok (insert_by ti_blockHeight x txs).
Proof.
  intros [Hd Hs Hh] Hx Hle. split.
  - rewrite insert_by_perm, fmap_cons. by apply NoDup_cons.
  - by apply insert_by_sorted.
  - intros t [-> | Ht]%elem_of_insert_by; [done | by apply Hh].
Qed.
Lemma log_filter g txs : log_ok txs -> log_ok (filter (fun t => ti_transactionHash t <> g) txs).
Proof.
  intros [Hd Hs Hh]. split.
  - by apply NoDup_fmap_filter.
  - by apply filter_by_key.
  - intros t [_ Ht]%list_elem_of_filter. by apply Hh.
Qed.

Lemma find_transaction_Some h s t :
  find_transaction h s = Some t -> t ∈ m_transactions s /\ ti_transactionHash t = h.
Proof.
  unfold find_transaction. destruct (list_find _ _) as [[i u] |] eqn:E; [| done]. cbn. intros [= <-].
  apply list_find_Some in E as (Hi & Hu & _). split; [by eapply list_elem_of_lookup_2 | done].
Qed.
Lemma find_transaction_None h s : find_transaction h s = None <-> h ∉ hashes (m_transactions s).
Proof.
  unfold find_transaction. split.
  - destruct (list_find _ _) eqn:E; [done |]. intros _ (t & -> & Ht)%list_elem_of_fmap. apply list_find_None in E.
    rewrite Forall_forall in E. by apply (E t).
  - intros Hn. destruct (list_find _ _) as [[i t] |] eqn:E; [| done]. apply list_find_Some in E as (Hi & <- & _). destruct Hn.
    apply list_elem_of_fmap_2. by eapply list_elem_of_lookup_2.
Qed.

(** * The invariant *)

Section Core.
Context (age : Z).

Abbreviation job_of x := (makeTransferUnlockJob x (u32 age)).
Abbreviation gidx x := (o_globalOutputIndex (x_info x)).

Definition held (s : TransfersContainer) (k : TransactionOutputKey) (x : TransactionOutputInformationEx) : Prop :=
  m_availableTransfers s !! k = Some x \/ exists y, m_spentTransfers s !! k = Some y /\ sp_output y = x.

(** [txs] is the list of transactions that the outputs refer to, which an operation brings up to date at its own time;
    [pend] is a transaction that is being confirmed. *)
Record core (pend : option Hash) (txs : list TransactionInformation) (s : TransfersContainer) : Prop := {
  co_unconfirmed : forall k x, m_unconfirmedTransfers s !! k = Some x ->
    getTransactionOutputKey x = k /\ x_blockHeight x = UNCONFIRMED /\ gidx x = UNCONFIRMED_TRANSACTION_GLOBAL_OUTPUT_INDEX
    /\ (Some k.1 <> pend -> recorded txs k.1 UNCONFIRMED);
  co_available : forall k x, m_availableTransfers s !! k = Some x ->
    getTransactionOutputKey x = k /\ x_blockHeight x <> UNCONFIRMED /\ gidx x <> UNCONFIRMED_TRANSACTION_GLOBAL_OUTPUT_INDEX
    /\ recorded txs k.1 (x_blockHeight x);
  co_spent : forall k y, m_spentTransfers s !! k = Some y ->
    getTransactionOutputKey (sp_output y) = k /\ x_blockHeight (sp_output y) <> UNCONFIRMED
    /\ gidx (sp_output y) <> UNCONFIRMED_TRANSACTION_GLOBAL_OUTPUT_INDEX
    /\ recorded txs k.1 (x_blockHeight (sp_output y)) /\ precedes txs k.1 (sp_spendingTransactionHash y)
    /\ (Some (sp_spendingTransactionHash y) <> pend -> recorded txs (sp_spendingTransactionHash y) (bi_height (sp_spendingBlock y)));
  co_apart : forall k,
    (m_unconfirmedTransfers s !! k = None \/ m_availableTransfers s !! k = None)
    /\ (m_unconfirmedTransfers s !! k = None \/ m_spentTransfers s !! k = None)
    /\ (m_availableTransfers s !! k = None \/ m_spentTransfers s !! k = None);
  co_once : spent_once (m_spentTransfers s);
  co_jobs_distinct : NoDup (j_transactionOutputKey <$> m_transfersUnlockJobs s);
  co_jobs : forall j, j ∈ m_transfersUnlockJobs s <-> exists k x, m_availableTransfers s !! k = Some x /\ j = job_of x;
  co_multi : forall k k' x x' a i, held s k x -> held s k' x' ->
    descriptor x = ByGlobalIndex a i -> descriptor x' = ByGlobalIndex a i -> k = k'
}.

Lemma job_key x : j_transactionOutputKey (job_of x) = getTransactionOutputKey x.
Proof. done. Qed.

(** Flags do not matter. *)
Lemma core_plain pend txs s : core pend txs s <-> core pend txs (plain s).
Proof.
  split; intros [Hu Ha Hs Hap Ho Hjd Hj Hm]; split; cbn in *.
  - intros k x (y & Hy & ->)%bare_lookup. apply (Hu k y Hy).
  - intros k x (y & Hy & ->)%bare_lookup. apply (Ha k y Hy).
  - intros k x (y & Hy & ->)%bare_spent_lookup. apply (Hs k y Hy).
  - intros k. unfold bare, bare_spent. rewrite !lookup_fmap, !fmap_None. apply Hap.
  - intros k k' y y' (z & Hz & ->)%bare_spent_lookup (z' & Hz' & ->)%bare_spent_lookup. exact (Ho k k' z z' Hz Hz').
  - done.
  - intros j. rewrite Hj. split; intros (k & x & Hk & ->).
    + exists k, (set_visible true x). split; [| done]. apply bare_lookup. eauto.
    + apply bare_lookup in Hk as (y & Hy & ->). by exists k, y.
  - intros k k' x x' a i H H'. assert (Hheld : forall k x, held (plain s) k x -> exists y, held s k y /\ x = set_visible true y).
    { intros k0 x0 [(y & Hy & ->)%bare_lookup | (z & (y & Hy & ->)%bare_spent_lookup & <-)].
      - exists y. split; [by left | done].
      - exists (sp_output y). split; [right; eauto | done]. }
    apply Hheld in H as (y & Hy & ->), H' as (y' & Hy' & ->). exact (Hm k k' y y' a i Hy Hy').
  - intros k x Hk. apply (Hu k (set_visible true x)). apply bare_lookup. eauto.
  - intros k x Hk. apply (Ha k (set_visible true x)). apply bare_lookup. eauto.
  - intros k y Hk. apply (Hs k (bare_output y)). apply bare_spent_lookup. eauto.
  - intros k. specialize (Hap k). unfold bare, bare_spent in Hap. rewrite !lookup_fmap, !fmap_None in Hap. done.
  - intros k k' y y' Hy Hy'. apply (Ho k k' (bare_output y) (bare_output y')); apply bare_spent_lookup; eauto.
  - done.
  - intros j. rewrite Hj. split; intros (k & x & Hk & ->).
    + apply bare_lookup in Hk as (y & Hy & ->). by exists k, y.
    + exists k, (set_visible true x). split; [| done]. apply bare_lookup. eauto.
  - intros k k' x x' a i H H'. assert (Hheld : forall k x, held s k x -> held (plain s) k (set_visible true x)).
    { intros k0 x0 [Hk | (y & Hy & <-)]; [left; apply bare_lookup; eauto | right; exists (bare_output y); split; [apply bare_spent_lookup; eauto | done]]. }
    apply Hheld in H, H'. intros Hd Hd'. by apply (Hm k k' _ _ a i H H').
Qed.

Lemma core_same pend txs s s' : plain s = plain s' -> core pend txs s -> core pend txs s'.
Proof. intros Hp Hc. apply core_plain. rewrite <- Hp. exact (proj1 (core_plain pend txs s) Hc). Qed.

Lemma core_keyed pend txs s :
  core pend txs s -> keyed (m_unconfirmedTransfers s) /\ keyed (m_availableTransfers s) /\ keyed_spent (m_spentTransfers s).
Proof. intros [Hu Ha Hs _ _ _ _ _]. split; [| split]; intros k x Hk; [apply (Hu k x Hk) | apply (Ha k x Hk) | apply (Hs k x Hk)]. Qed.

(** * Steps *)

Definition put_available (x : TransactionOutputInformationEx) (s : TransfersContainer) : TransfersContainer :=
  with_available (<[getTransactionOutputKey x := x]> (m_availableTransfers s)) (with_jobs (insert_by j_unlockHeight (job_of x) (m_transfersUnlockJobs s)) s).
Definition put_unconfirmed (x : TransactionOutputInformationEx) (s : TransfersContainer) : TransfersContainer :=
  with_unconfirmed (<[getTransactionOutputKey x := x]> (m_unconfirmedTransfers s)) s.
Definition put_spent (y : SpentTransactionOutput) (s : TransfersContainer) : TransfersContainer :=
  with_spent (<[getTransactionOutputKey (sp_output y) := y]> (m_spentTransfers s)) s.
Definition drop_available (x : TransactionOutputInformationEx) (s : TransfersContainer) : TransfersContainer := erase_available x (deleteUnlockJob x s).

Lemma put_available_lookup x s k y :
  m_availableTransfers (put_available x s) !! k = Some y <->
  (getTransactionOutputKey x = k /\ x = y) \/ (getTransactionOutputKey x <> k /\ m_availableTransfers s !! k = Some y).
Proof. apply lookup_insert_Some. Qed.
Lemma drop_available_lookup x s k y :
  m_availableTransfers (drop_available x s) !! k = Some y <-> getTransactionOutputKey x <> k /\ m_availableTransfers s !! k = Some y.
Proof. apply lookup_delete_Some. Qed.

Lemma put_spent_lookup y s k z :
  m_spentTransfers (put_spent y s) !! k = Some z <->
  (getTransactionOutputKey (sp_output y) = k /\ y = z) \/ (getTransactionOutputKey (sp_output y) <> k /\ m_spentTransfers s !! k = Some z).
Proof. apply lookup_insert_Some. Qed.

Lemma put_unconfirmed_lookup x s k y :
  m_unconfirmedTransfers (put_unconfirmed x s) !! k = Some y <->
  (getTransactionOutputKey x = k /\ x = y) \/ (getTransactionOutputKey x <> k /\ m_unconfirmedTransfers s !! k = Some y).
Proof. apply lookup_insert_Some. Qed.
Lemma erase_unconfirmed_lookup x s k y :
  m_unconfirmedTransfers (erase_unconfirmed x s) !! k = Some y <-> getTransactionOutputKey x <> k /\ m_unconfirmedTransfers s !! k = Some y.
Proof. apply lookup_delete_Some. Qed.
Lemma erase_spent_lookup y s k z :
  m_spentTransfers (erase_spent y s) !! k = Some z <-> getTransactionOutputKey (sp_output y) <> k /\ m_spentTransfers s !! k = Some z.
Proof. apply lookup_delete_Some. Qed.

Definition absent (k : TransactionOutputKey) (s : TransfersContainer) : Prop :=
  m_unconfirmedTransfers s !! k = None /\ m_availableTransfers s !! k = None /\ m_spentTransfers s !! k = None.

Lemma core_put_unconfirmed pend txs s x :
  core pend txs s -> absent (getTransactionOutputKey x) s -> x_blockHeight x = UNCONFIRMED -> gidx x = UNCONFIRMED_TRANSACTION_GLOBAL_OUTPUT_INDEX ->
  recorded txs (x_transactionHash x) UNCONFIRMED -> core pend txs (put_unconfirmed x s).
Proof.
  intros [Hu Ha Hs Hap Ho Hjd Hj Hm] (Nu & Na & Ns) Hh Hg Hr. split; cbn; try done.
  - intros k y [[<- <-] | [_ Hk]]%lookup_insert_Some; [done | by apply Hu].
  - intros k. destruct (decide (getTransactionOutputKey x = k)) as [<- | Hne]; [rewrite Na, Ns; tauto |]. rewrite lookup_insert_ne by done. apply Hap.
Qed.

Lemma jobs_of_available pend txs s x :
  core pend txs s -> m_availableTransfers s !! getTransactionOutputKey x = None ->
  getTransactionOutputKey x ∉ j_transactionOutputKey <$> m_transfersUnlockJobs s.
Proof.
  intros Hc Hn (j & Hk & Hj)%list_elem_of_fmap. apply (co_jobs _ _ _ Hc) in Hj as (k & y & Hy & ->). rewrite job_key in Hk.
  rewrite Hk, (proj1 (co_available _ _ _ Hc _ _ Hy)) in Hn. congruence.
Qed.

Lemma core_put_available pend txs s x :
  core pend txs s -> absent (getTransactionOutputKey x) s -> x_blockHeight x <> UNCONFIRMED -> gidx x <> UNCONFIRMED_TRANSACTION_GLOBAL_OUTPUT_INDEX ->
  recorded txs (x_transactionHash x) (x_blockHeight x) ->
  (forall k y a i, held s k y -> descriptor x = ByGlobalIndex a i -> descriptor y <> ByGlobalIndex a i) ->
  core pend txs (put_available x s).
Proof.
  intros Hc (Nu & Na & Ns) Hh Hg Hr Hnew. pose proof (jobs_of_available _ _ _ _ Hc Na) as Hfresh. destruct Hc as [Hu Ha Hs Hap Ho Hjd Hj Hm].
  split; cbn; try done.
  - intros k y [[<- <-] | [_ Hk]]%lookup_insert_Some; [done | by apply Ha].
  - intros k. destruct (decide (getTransactionOutputKey x = k)) as [<- | Hne]; [rewrite Nu, Ns; tauto |]. rewrite lookup_insert_ne by done. apply Hap.
  - rewrite insert_by_perm, fmap_cons. apply NoDup_cons. by rewrite job_key.
  - intros j. rewrite elem_of_insert_by, Hj. split.
    + intros [-> | (k & y & Hy & ->)]; [exists (getTransactionOutputKey x), x; by rewrite lookup_insert_eq |].
      exists k, y. split; [| done]. rewrite lookup_insert_ne; [done |]. intros <-. congruence.
    + intros (k & y & [[<- <-] | [_ Hk]]%lookup_insert_Some & ->); [by left | right; eauto].
  - assert (Hheld : forall k y, held (put_available x s) k y -> held s k y \/ (k = getTransactionOutputKey x /\ y = x)).
    { intros k y [[[<- <-] | [_ Hk]]%put_available_lookup | Hk]; [by right | by left; left | by left; right]. }
    intros k k' y y' a i [H | [-> ->]]%Hheld [H' | [-> ->]]%Hheld Hd Hd'; [by eapply Hm | | | done].
    + by destruct (Hnew k y a i H Hd').
    + by destruct (Hnew k' y' a i H' Hd).
Qed.

Lemma core_drop_unconfirmed pend txs s x : core pend txs s -> core pend txs (erase_unconfirmed x s).
Proof.
  intros [Hu Ha Hs Hap Ho Hjd Hj Hm]. split; cbn; try done.
  - intros k y [_ Hk]%lookup_delete_Some. by apply Hu.
  - intros k. specialize (Hap k). destruct (decide (getTransactionOutputKey x = k)) as [<- | Hne]; [rewrite lookup_delete_eq; tauto | by rewrite lookup_delete_ne].
Qed.

Lemma held_fewer s s' : (forall k x, m_availableTransfers s' !! k = Some x -> m_availableTransfers s !! k = Some x) ->
  (forall k x, m_spentTransfers s' !! k = Some x -> m_spentTransfers s !! k = Some x) -> forall k x, held s' k x -> held s k x.
Proof. intros Ha Hs k x [Hk | (y & Hy & <-)]; [left; by apply Ha | right; exists y; split; [by apply Hs | done]]. Qed.

Lemma delete_job_elem x s j : j ∈ m_transfersUnlockJobs (deleteUnlockJob x s) <-> j ∈ m_transfersUnlockJobs s /\ j_transactionOutputKey j <> getTransactionOutputKey x.
Proof. cbn. rewrite list_elem_of_filter. tauto. Qed.

Lemma core_drop_available pend txs s x : core pend txs s -> core pend txs (drop_available x s).
Proof.
  intros [Hu Ha Hs Hap Ho Hjd Hj Hm]. split; try done.
  - intros k y [_ Hk]%drop_available_lookup. by apply Ha.
  - intros k. specialize (Hap k). cbn. destruct (decide (getTransactionOutputKey x = k)) as [<- | Hne]; [rewrite lookup_delete_eq; tauto | by rewrite lookup_delete_ne].
  - by apply (NoDup_fmap_filter j_transactionOutputKey).
  - intros j. change (m_transfersUnlockJobs (drop_available x s)) with (m_transfersUnlockJobs (deleteUnlockJob x s)). rewrite delete_job_elem, Hj. split.
    + intros [(k & y & Hk & ->) Hne]. rewrite job_key, (proj1 (Ha _ _ Hk)) in Hne. exists k, y. split; [| done]. apply drop_available_lookup. split; [congruence | done].
    + intros (k & y & [Hne Hk]%drop_available_lookup & ->). split; [eauto |]. rewrite job_key, (proj1 (Ha _ _ Hk)). done.
  - intros k k' y y' a i H H'. apply (Hm k k' y y' a i); (eapply held_fewer; [by intros ? ? [_ ?]%drop_available_lookup | done | eassumption]).
Qed.

Lemma core_put_spent pend txs s y :
  let x := sp_output y in
  core pend txs s -> absent (getTransactionOutputKey x) s -> x_blockHeight x <> UNCONFIRMED -> gidx x <> UNCONFIRMED_TRANSACTION_GLOBAL_OUTPUT_INDEX ->
  recorded txs (x_transactionHash x) (x_blockHeight x) -> precedes txs (x_transactionHash x) (sp_spendingTransactionHash y) ->
  (Some (sp_spendingTransactionHash y) <> pend -> recorded txs (sp_spendingTransactionHash y) (bi_height (sp_spendingBlock y))) ->
  not_spent s (descriptor x) ->
  (forall k z a i, held s k z -> descriptor x = ByGlobalIndex a i -> descriptor z <> ByGlobalIndex a i) ->
  core pend txs (put_spent y s).
Proof.
  cbv zeta. intros [Hu Ha Hs Hap Ho Hjd Hj Hm] (Nu & Na & Ns) Hh Hg Hr Hp Hsp Hn Hnew. split; cbn; try done.
  - intros k z [[<- <-] | [_ Hk]]%lookup_insert_Some; [done | by apply Hs].
  - intros k. destruct (decide (getTransactionOutputKey (sp_output y) = k)) as [<- | Hne]; [rewrite Nu, Na; tauto |]. rewrite lookup_insert_ne by done. apply Hap.
  - intros k k' z z' [[<- <-] | [_ Hk]]%lookup_insert_Some [[<- <-] | [_ Hk']]%lookup_insert_Some Hd; [done | | | by eapply Ho].
    + by destruct (Hn k' z' Hk').
    + by destruct (Hn k z Hk).
  - assert (Hheld : forall k z, held (put_spent y s) k z -> held s k z \/ (k = getTransactionOutputKey (sp_output y) /\ z = sp_output y)).
    { intros k z [Hk | (w & [[<- <-] | [_ Hk]]%put_spent_lookup & <-)]; [by left; left | by right | left; right; eauto]. }
    intros k k' z z' a i [H | [-> ->]]%Hheld [H' | [-> ->]]%Hheld Hd Hd'; [by eapply Hm | | | done].
    + by destruct (Hnew k z a i H Hd').
    + by destruct (Hnew k' z' a i H' Hd).
Qed.

Lemma core_erase_spent pend txs s y : core pend txs s -> core pend txs (erase_spent y s).
Proof.
  intros [Hu Ha Hs Hap Ho Hjd Hj Hm]. split; cbn; try done.
  - intros k z [_ Hk]%lookup_delete_Some. by apply Hs.
  - intros k. specialize (Hap k). destruct (decide (getTransactionOutputKey (sp_output y) = k)) as [<- | Hne]; [rewrite lookup_delete_eq; tauto | by rewrite lookup_delete_ne].
  - intros k k' z z' [_ Hk]%lookup_delete_Some [_ Hk']%lookup_delete_Some. by apply Ho.
  - intros k k' z z' a i H H'. apply (Hm k k' z z' a i); (eapply held_fewer; [| | eassumption]); cbn; try done; by intros ? ? [_ ?]%lookup_delete_Some.
Qed.

(** From available to spent, and back. *)
Definition spent_now (y : SpentTransactionOutput) (s : TransfersContainer) : TransfersContainer := put_spent y (drop_available (sp_output y) s).
Definition unspent_now (y : SpentTransactionOutput) (s : TransfersContainer) : TransfersContainer := put_available (sp_output y) (erase_spent y s).

Lemma core_spent_now pend txs s y :
  let x := sp_output y in
  core pend txs s -> m_availableTransfers s !! getTransactionOutputKey x = Some x ->
  precedes txs (x_transactionHash x) (sp_spendingTransactionHash y) ->
  (Some (sp_spendingTransactionHash y) <> pend -> recorded txs (sp_spendingTransactionHash y) (bi_height (sp_spendingBlock y))) ->
  not_spent s (descriptor x) -> core pend txs (spent_now y s).
Proof.
  cbv zeta. set (x := sp_output y). intros Hc Hx Hp Hr Hn. destruct (co_available _ _ _ Hc _ _ Hx) as (_ & Hh & Hg & Hrx). apply core_put_spent; try done.
  - by apply core_drop_available.
  - destruct (co_apart _ _ _ Hc (getTransactionOutputKey x)) as (Hua & _ & Has). rewrite Hx in Hua, Has.
    split; [by destruct Hua |]. split; [apply lookup_delete_eq | by destruct Has].
  - intros k z a i Hz Hd Hdz.
    assert (k = getTransactionOutputKey x) as ->.
    { eapply (co_multi _ _ _ Hc k _ z x a i); [| by left | done | done]. eapply held_fewer; [| | exact Hz]; [by intros ? ? [_ ?]%drop_available_lookup | done]. }
    destruct Hz as [[? _]%drop_available_lookup | (w & Hw & _)]; [done |].
    destruct (co_apart _ _ _ Hc (getTransactionOutputKey x)) as (_ & _ & [Hno | Hno]); [congruence |]. cbn in Hw. congruence.
Qed.

Lemma core_unspent_now pend txs s y :
  core pend txs s -> m_spentTransfers s !! getTransactionOutputKey (sp_output y) = Some y -> core pend txs (unspent_now y s).
Proof.
  intros Hc Hy. destruct (co_spent _ _ _ Hc _ _ Hy) as (_ & Hh & Hg & Hrx & _). apply core_put_available; try done.
  - by apply core_erase_spent.
  - destruct (co_apart _ _ _ Hc (getTransactionOutputKey (sp_output y))) as (_ & Hus & Has). rewrite Hy in Hus, Has.
    split; [by destruct Hus |]. split; [by destruct Has | apply lookup_delete_eq].
  - intros k z a i Hz Hd Hdz. assert (k = getTransactionOutputKey (sp_output y)) as ->.
    { eapply (co_multi _ _ _ Hc k _ z (sp_output y) a i); [| right; eauto | done | done].
      eapply held_fewer; [| | exact Hz]; cbn; [done | by intros ? ? [_ ?]%lookup_delete_Some]. }
    destruct Hz as [Hk | (w & Hw & _)]; cbn in *; [| by rewrite lookup_delete_eq in Hw].
    destruct (co_apart _ _ _ Hc (getTransactionOutputKey (sp_output y))) as (_ & _ & [Hno | Hno]); congruence.
Qed.

Definition confirmed_now (x x' : TransactionOutputInformationEx) (s : TransfersContainer) : TransfersContainer := put_available x' (erase_unconfirmed x s).

Lemma core_confirmed_now pend txs s x x' :
  core pend txs s -> m_unconfirmedTransfers s !! getTransactionOutputKey x = Some x -> getTransactionOutputKey x' = getTransactionOutputKey x ->
  x_blockHeight x' <> UNCONFIRMED -> gidx x' <> UNCONFIRMED_TRANSACTION_GLOBAL_OUTPUT_INDEX -> recorded txs (x_transactionHash x') (x_blockHeight x') ->
  (forall k y a i, held s k y -> descriptor x' = ByGlobalIndex a i -> descriptor y <> ByGlobalIndex a i) ->
  core pend txs (confirmed_now x x' s).
Proof.
  intros Hc Hx Hkey Hh Hg Hr Hnew. apply core_put_available; try done; [by apply core_drop_unconfirmed |].
  rewrite Hkey. destruct (co_apart _ _ _ Hc (getTransactionOutputKey x)) as (Hua & Hus & _). rewrite Hx in Hua, Hus.
  split; [apply lookup_delete_eq |]. split; [by destruct Hua | by destruct Hus].
Qed.

(** * Changes of the list of transactions *)

Lemma core_log_insert pend txs s x : core pend txs s -> core pend (insert_by ti_blockHeight x txs) s.
Proof.
  intros [Hu Ha Hs Hap Ho Hjd Hj Hm]. split; try done.
  - intros k z Hk. destruct (Hu k z Hk) as (? & ? & ? & Hr). repeat split; try done. intros Hp. by apply recorded_insert, Hr.
  - intros k z Hk. destruct (Ha k z Hk) as (? & ? & ? & Hr). repeat split; try done. by apply recorded_insert.
  - intros k z Hk. destruct (Hs k z Hk) as (? & ? & ? & Hr & Hp & Hsp). repeat split; try done; [by apply recorded_insert | by apply precedes_insert |].
    intros Hpe. by apply recorded_insert, Hsp.
Qed.

Lemma core_with_transactions pend txs l s : core pend txs s <-> core pend txs (with_transactions l s).
Proof. split; intros []; by split. Qed.
Lemma core_with_height pend txs h s : core pend txs s <-> core pend txs (with_height h s).
Proof. split; intros []; by split. Qed.

Definition no_output_of (g : Hash) (s : TransfersContainer) : Prop :=
  (forall k, k.1 = g -> absent k s) /\ (forall k y, m_spentTransfers s !! k = Some y -> sp_spendingTransactionHash y <> g).

Lemma core_log_remove g txs s : core None txs s -> no_output_of g s -> core None (filter (fun t => ti_transactionHash t <> g) txs) s.
Proof.
  intros [Hu Ha Hs Hap Ho Hjd Hj Hm] [Hno Hnosp].
  assert (Hne : forall k, ~ absent k s -> k.1 <> g) by (intros k Hk Hg; by apply Hk, Hno). split; try done.
  - intros k z Hk. destruct (Hu k z Hk) as (? & ? & ? & Hr). repeat split; try done. intros Hp. apply recorded_filter; [by apply Hr |].
    apply Hne. intros (Hn & _). congruence.
  - intros k z Hk. destruct (Ha k z Hk) as (? & ? & ? & Hr). repeat split; try done. apply recorded_filter; [done |]. apply Hne. intros (_ & Hn & _). congruence.
  - intros k z Hk. destruct (Hs k z Hk) as (? & ? & ? & Hr & Hp & Hsp). assert (k.1 <> g) by (apply Hne; intros (_ & _ & Hn); congruence).
    repeat split; try done; [by apply recorded_filter | apply precedes_filter; [done.. | by eapply Hnosp] |].
    intros Hpe. apply recorded_filter; [by apply Hsp | by eapply Hnosp].
Qed.

Lemma core_log_confirm txs s t t' :
  log_ok txs -> core None txs s -> t ∈ txs -> ti_blockHeight t = UNCONFIRMED -> ti_transactionHash t' = ti_transactionHash t ->
  (forall u, u ∈ txs -> ti_blockHeight u <> UNCONFIRMED -> ti_blockHeight u <= ti_blockHeight t') ->
  core (Some (ti_transactionHash t)) (insert_by ti_blockHeight t' (filter (fun u => ti_transactionHash u <> ti_transactionHash t) txs)) s.
Proof.
  intros [Hd Hso Hhe] [Hu Ha Hs Hap Ho Hjd Hj Hm] Ht Hth Hhash Hle.
  assert (Hconf : forall h height, recorded txs h height -> height <> UNCONFIRMED -> h <> ti_transactionHash t).
  { intros h height Hr Hne ->. apply Hne. eapply recorded_unique; [done | exact Hr |]. by exists t. }
  split; try done.
  - intros k z Hk. destruct (Hu k z Hk) as (? & ? & ? & Hr). repeat split; try done. intros Hp. apply recorded_insert, recorded_filter; [by apply Hr | congruence].
  - intros k z Hk. destruct (Ha k z Hk) as (? & Hne & ? & Hr). repeat split; try done. by eapply recorded_insert, recorded_filter, Hconf.
  - intros k z Hk. destruct (Hs k z Hk) as (? & Hne & ? & Hr & Hp & Hsp). pose proof (Hconf _ _ Hr Hne) as Hkt.
    repeat split; try done; [by apply recorded_insert, recorded_filter | |].
    + destruct (decide (sp_spendingTransactionHash z = ti_transactionHash t)) as [-> | Hnt].
      * rewrite <- Hhash. eapply precedes_new; [by apply filter_by_key | by apply recorded_filter; rewrite ?Hhash |].
        destruct Hr as (u & Hu' & _ & Hub). rewrite <- Hub in Hne |- *. by apply Hle.
      * by apply precedes_insert, precedes_filter.
    + intros Hpe. apply recorded_insert, recorded_filter; [by apply Hsp | congruence].
Qed.

Lemma core_confirm_spendings g txs s block :
  core (Some g) txs s -> (forall k, k.1 = g -> m_unconfirmedTransfers s !! k = None) -> recorded txs g (bi_height block) ->
  core None txs (with_spent ((fun y => if decide (sp_spendingTransactionHash y = g)
    then mkSpentOutput (sp_output y) block (sp_spendingTransactionHash y) (sp_inputInTransaction y) else y) <$> m_spentTransfers s) s).
Proof.
  intros [Hu Ha Hs Hap Ho Hjd Hj Hm] Hno Hg. split; cbn; try done.
  - intros k z Hk. destruct (Hu k z Hk) as (? & ? & ? & Hr). repeat split; try done. intros _. apply Hr. intros [= Hk1]. rewrite (Hno k Hk1) in Hk. done.
  - intros k z (y & Hz & Hk)%lookup_fmap_Some. destruct (Hs k y Hk) as (? & ? & ? & Hr & Hp & Hsp). subst z. case_decide as Hd; cbn; repeat split; try done.
    + intros _. by rewrite Hd.
    + intros _. apply Hsp. congruence.
  - intros k. rewrite lookup_fmap, fmap_None. apply Hap.
  - intros k k' z z' (y & <- & Hk)%lookup_fmap_Some (y' & <- & Hk')%lookup_fmap_Some. intros Hd. apply (Ho k k' y y' Hk Hk'). by do 2 case_decide.
  - intros k k' x x' a i H H'. apply (Hm k k' x x' a i); [revert H | revert H'];
      (intros [Hk | (z & (y & <- & Hk)%lookup_fmap_Some & <-)]; [by left | right; exists y; split; [done | by case_decide]]).
Qed.

(** * Steps and what is shown *)

Lemma agree_trans d s1 s2 s3 : agree_on d s1 s2 -> agree_on d s2 s3 -> agree_on d s1 s3.
Proof. intros (Hu & Ha & Hs) (Hu' & Ha' & Hs'). split; [| split]; intros k x Hd; [rewrite Hu, Hu' | rewrite Ha, Ha' | rewrite Hs, Hs']; done. Qed.

Lemma agree_insert {A} (d : SpentOutputDescriptor) (desc : A -> SpentOutputDescriptor) (m : gmap TransactionOutputKey A) k0 x0 k x :
  m !! k0 = None -> desc x0 <> d -> desc x = d -> m !! k = Some x <-> <[k0 := x0]> m !! k = Some x.
Proof.
  intros Hn Hd0 Hd. rewrite lookup_insert_Some. split.
  - intros Hk. right. split; [intros <-; congruence | done].
  - intros [[_ <-] | [_ Hk]]; congruence.
Qed.
Lemma agree_delete {A} (d : SpentOutputDescriptor) (desc : A -> SpentOutputDescriptor) (m : gmap TransactionOutputKey A) k0 x0 k x :
  m !! k0 = Some x0 -> desc x0 <> d -> desc x = d -> m !! k = Some x <-> delete k0 m !! k = Some x.
Proof.
  intros Hn Hd0 Hd. rewrite lookup_delete_Some. split; [| by intros [_ ?]]. intros Hk. split; [intros <-; congruence | done].
Qed.

Lemma agree_put_unconfirmed d s x : m_unconfirmedTransfers s !! getTransactionOutputKey x = None -> descriptor x <> d -> agree_on d s (put_unconfirmed x s).
Proof. intros Hn Hd. split; [| done]. intros k y Hy. by apply (agree_insert d (fun x => descriptor x)). Qed.
Lemma agree_put_available d s x : m_availableTransfers s !! getTransactionOutputKey x = None -> descriptor x <> d -> agree_on d s (put_available x s).
Proof. intros Hn Hd. split; [done |]. split; [| done]. intros k y Hy. by apply (agree_insert d (fun x => descriptor x)). Qed.
Lemma agree_put_spent d s y :
  m_spentTransfers s !! getTransactionOutputKey (sp_output y) = None -> descriptor (sp_output y) <> d -> agree_on d s (put_spent y s).
Proof. intros Hn Hd. split; [done |]. split; [done |]. intros k z Hz. by apply (agree_insert d (fun y => descriptor (sp_output y))). Qed.
Lemma agree_erase_unconfirmed d s x :
  m_unconfirmedTransfers s !! getTransactionOutputKey x = Some x -> descriptor x <> d -> agree_on d s (erase_unconfirmed x s).
Proof. intros Hn Hd. split; [| done]. intros k y Hy. by apply (agree_delete d (fun x => descriptor x) _ _ x). Qed.
Lemma agree_drop_available d s x :
  m_availableTransfers s !! getTransactionOutputKey x = Some x -> descriptor x <> d -> agree_on d s (drop_available x s).
Proof. intros Hn Hd. split; [done |]. split; [| done]. intros k y Hy. by apply (agree_delete d (fun x => descriptor x) _ _ x). Qed.
Lemma agree_erase_spent d s y :
  m_spentTransfers s !! getTransactionOutputKey (sp_output y) = Some y -> descriptor (sp_output y) <> d -> agree_on d s (erase_spent y s).
Proof. intros Hn Hd. split; [done |]. split; [done |]. intros k z Hz. by apply (agree_delete d (fun y => descriptor (sp_output y)) _ _ y). Qed.

(** The state between two operations of a loop. *)
Definition run (pend : option Hash) (txs : list TransactionInformation) (s : TransfersContainer) : Prop :=
  core pend txs s /\ forall d, shown s d.

Definition is_key (x : TransactionOutputInformationEx) : bool := match o_target (x_info x) with KeyTarget _ => true | _ => false end.

Lemma is_key_descriptor x : is_key x = true -> descriptor x = ByKeyImage (o_keyImage (x_info x)).
Proof. unfold is_key, getSpentOutputDescriptor. by destruct (o_target (x_info x)). Qed.
Lemma not_key_descriptor x ki : is_key x = false -> descriptor x <> ByKeyImage ki.
Proof. unfold is_key, getSpentOutputDescriptor. by destruct (o_target (x_info x)). Qed.
Lemma key_by_descriptor x ki : descriptor x = ByKeyImage ki -> is_key x = true /\ o_keyImage (x_info x) = ki.
Proof. unfold is_key, getSpentOutputDescriptor. destruct (o_target (x_info x)); [by intros [= ->] | done..]. Qed.

Lemma update_if_key_alt x s : update_if_key x s = if is_key x then updateTransfersVisibility (o_keyImage (x_info x)) s else Ret s.
Proof. unfold update_if_key, is_key. by destruct (o_target (x_info x)). Qed.

(** Outputs without a key are always shown. *)
Definition all_visible (d : SpentOutputDescriptor) (s : TransfersContainer) : Prop :=
  (forall k y, m_spentTransfers s !! k = Some y -> descriptor (sp_output y) = d -> x_visible (sp_output y) = true)
  /\ (forall k x, m_availableTransfers s !! k = Some x -> descriptor x = d -> x_visible x = true)
  /\ (forall k x, m_unconfirmedTransfers s !! k = Some x -> descriptor x = d -> x_visible x = true).

Lemma shown_without_key d s : (forall ki, d <> ByKeyImage ki) -> shown s d <-> all_visible d s.
Proof. intros Hd. unfold shown, all_visible, flag. destruct d; [by destruct (Hd keyImage) | done..]. Qed.

(** The update at the end of a step: from the state before ([s]) to that after ([s']). *)
Lemma finish_step pend txs s s1 x :
  core pend txs s1 -> (forall d, shown s d) -> (forall d, d <> descriptor x -> agree_on d s s1) ->
  (is_key x = false -> all_visible (descriptor x) s1) ->
  exists s', update_if_key x s1 = Ret s' /\ plain s' = plain s1 /\ run pend txs s'.
Proof.
  intros Hc Hs Hag Hnk. destruct (core_keyed _ _ _ Hc) as (Hku & Hka & Hks).
  assert (Hothers : forall d, d <> descriptor x -> shown s1 d) by (intros d Hd; eapply agree_shown; [by apply Hag | done]).
  rewrite update_if_key_alt. destruct (is_key x) eqn:Ek.
  - rewrite (is_key_descriptor x Ek) in Hothers. destruct (update_shown _ s1 Hku Hka Hks (co_once _ _ _ Hc) Hothers) as (s' & Heq & Hp & Hsh).
    exists s'. split; [done |]. split; [done |]. split; [by apply (core_same _ _ s1) | done].
  - exists s1. split; [done |]. split; [done |]. split; [done |]. intros d. destruct (decide (d = descriptor x)) as [-> | Hd]; [| by apply Hothers].
    apply shown_without_key; [intros ki; by apply not_key_descriptor | by apply Hnk].
Qed.

Lemma visible_without_key s x : (forall d, shown s d) -> is_key x = false -> all_visible (descriptor x) s.
Proof. intros Hs Hk. apply shown_without_key; [intros ki; by apply not_key_descriptor | done]. Qed.

(** Each step with its update, on a state that satisfies the invariant. *)
Lemma step_put_unconfirmed pend txs s x :
  run pend txs s -> absent (getTransactionOutputKey x) s -> x_blockHeight x = UNCONFIRMED -> gidx x = UNCONFIRMED_TRANSACTION_GLOBAL_OUTPUT_INDEX ->
  recorded txs (x_transactionHash x) UNCONFIRMED -> x_visible x = true ->
  exists s', (s1 ← emplace_unconfirmed x s; update_if_key x s1) = Ret s' /\ plain s' = plain (put_unconfirmed x s) /\ run pend txs s'.
Proof.
  intros [Hc Hs] Habs Hh Hg Hr Hv. unfold emplace_unconfirmed. rewrite assert_true by (apply bool_decide_eq_true_2; apply Habs). rewrite !outcome_bind_ret.
  apply (finish_step pend txs s (put_unconfirmed x s) x); [by apply core_put_unconfirmed | done | intros d Hd; apply agree_put_unconfirmed; [apply Habs | done] |].
  intros Hk. destruct (visible_without_key s x Hs Hk) as (Vs & Va & Vu). split; [done |]. split; [done |].
  intros k y [[_ <-] | [_ Hy]]%put_unconfirmed_lookup; [done | by eapply Vu].
Qed.

Lemma add_available_Ret pend txs s x :
  core pend txs s -> m_availableTransfers s !! getTransactionOutputKey x = None ->
  (s1 ← addUnlockJob age x s; emplace_available x s1) = Ret (put_available x s).
Proof.
  intros Hc Hn. unfold addUnlockJob. rewrite assert_true by (apply bool_decide_eq_true_2; by eapply jobs_of_available). rewrite !outcome_bind_ret.
  unfold emplace_available. rewrite assert_true by (by apply bool_decide_eq_true_2). done.
Qed.

Lemma step_put_available pend txs s x :
  run pend txs s -> absent (getTransactionOutputKey x) s -> x_blockHeight x <> UNCONFIRMED -> gidx x <> UNCONFIRMED_TRANSACTION_GLOBAL_OUTPUT_INDEX ->
  recorded txs (x_transactionHash x) (x_blockHeight x) -> x_visible x = true ->
  (forall k y a i, held s k y -> descriptor x = ByGlobalIndex a i -> descriptor y <> ByGlobalIndex a i) ->
  exists s', (s1 ← addUnlockJob age x s; s1 ← emplace_available x s1; update_if_key x s1) = Ret s' /\ plain s' = plain (put_available x s) /\ run pend txs s'.
Proof.
  intros [Hc Hs] Habs Hh Hg Hr Hv Hm. pose proof (add_available_Ret pend txs s x Hc (proj1 (proj2 Habs))) as Hadd.
  destruct (addUnlockJob age x s) as [s1 | | |]; try done. cbn in Hadd |- *. rewrite Hadd, outcome_bind_ret.
  apply (finish_step pend txs s (put_available x s) x); [by apply core_put_available | done | intros d Hd; apply agree_put_available; [apply Habs | done] |].
  intros Hk. destruct (visible_without_key s x Hs Hk) as (Vs & Va & Vu). split; [done |]. split; [| done].
  intros k y [[_ <-] | [_ Hy]]%put_available_lookup; [done | by eapply Va].
Qed.

Lemma step_drop_unconfirmed pend txs s x :
  run pend txs s -> m_unconfirmedTransfers s !! getTransactionOutputKey x = Some x ->
  exists s', update_if_key x (erase_unconfirmed x s) = Ret s' /\ plain s' = plain (erase_unconfirmed x s) /\ run pend txs s'.
Proof.
  intros [Hc Hs] Hx.
  apply (finish_step pend txs s _ x); [by apply core_drop_unconfirmed | done | intros d Hd; by apply agree_erase_unconfirmed |].
  intros Hk. destruct (visible_without_key s x Hs Hk) as (Vs & Va & Vu). split; [done |]. split; [done |].
  intros k y [_ Hy]%erase_unconfirmed_lookup. by eapply Vu.
Qed.

Lemma step_drop_available pend txs s x :
  run pend txs s -> m_availableTransfers s !! getTransactionOutputKey x = Some x ->
  exists s', update_if_key x (drop_available x s) = Ret s' /\ plain s' = plain (drop_available x s) /\ run pend txs s'.
Proof.
  intros [Hc Hs] Hx.
  apply (finish_step pend txs s _ x); [by apply core_drop_available | done | intros d Hd; by apply agree_drop_available |].
  intros Hk. destruct (visible_without_key s x Hs Hk) as (Vs & Va & Vu). split; [done |]. split; [| done].
  intros k y [_ Hy]%drop_available_lookup. by eapply Va.
Qed.

Lemma step_spent pend txs s y :
  let x := sp_output y in
  run pend txs s -> m_availableTransfers s !! getTransactionOutputKey x = Some x ->
  precedes txs (x_transactionHash x) (sp_spendingTransactionHash y) ->
  (Some (sp_spendingTransactionHash y) <> pend -> recorded txs (sp_spendingTransactionHash y) (bi_height (sp_spendingBlock y))) ->
  not_spent s (descriptor x) ->
  exists s', update_if_key x (spent_now y s) = Ret s' /\ plain s' = plain (spent_now y s) /\ run pend txs s'.
Proof.
  cbv zeta. intros [Hc Hs] Hx Hp Hr Hn.
  assert (Hns : m_spentTransfers s !! getTransactionOutputKey (sp_output y) = None).
  { destruct (co_apart _ _ _ Hc (getTransactionOutputKey (sp_output y))) as (_ & _ & [? | ?]); [congruence | done]. }
  apply (finish_step pend txs s _ (sp_output y)); [by apply core_spent_now | done | |].
  - intros d Hd. eapply agree_trans; [by apply agree_drop_available | by apply agree_put_spent].
  - intros Hk. destruct (visible_without_key s _ Hs Hk) as (Vs & Va & Vu). split; [| split; [| done]].
    + intros k z [[_ <-] | [_ Hz]]%put_spent_lookup; [| by eapply Vs]. intros _. by apply (Va (getTransactionOutputKey (sp_output y))).
    + intros k z [_ Hz]%drop_available_lookup. by eapply Va.
Qed.

Lemma step_unspent pend txs s y :
  let x := sp_output y in
  run pend txs s -> m_spentTransfers s !! getTransactionOutputKey x = Some y ->
  exists s', (s1 ← addUnlockJob age x s; s1 ← emplace_available x s1; update_if_key x (erase_spent y s1)) = Ret s'
             /\ plain s' = plain (unspent_now y s) /\ run pend txs s'.
Proof.
  cbv zeta. intros [Hc Hs] Hy.
  assert (Hna : m_availableTransfers s !! getTransactionOutputKey (sp_output y) = None).
  { destruct (co_apart _ _ _ Hc (getTransactionOutputKey (sp_output y))) as (_ & _ & [? | ?]); [done | congruence]. }
  pose proof (add_available_Ret pend txs s _ Hc Hna) as Hadd. destruct (addUnlockJob age (sp_output y) s) as [s1 | | |]; try done.
  cbn in Hadd |- *. rewrite Hadd, outcome_bind_ret.
  change (erase_spent y (put_available (sp_output y) s)) with (unspent_now y s).
  apply (finish_step pend txs s _ (sp_output y)); [by apply core_unspent_now | done | |].
  - intros d Hd. eapply agree_trans; [by apply agree_erase_spent | by apply agree_put_available].
  - intros Hk. destruct (visible_without_key s _ Hs Hk) as (Vs & Va & Vu). split; [| split; [| done]].
    + intros k z [_ Hz]%erase_spent_lookup. by eapply Vs.
    + intros k z [[_ <-] | [_ Hz]]%put_available_lookup; [| by eapply Va]. intros _. by apply (Vs (getTransactionOutputKey (sp_output y))).
Qed.

(** The flag of a key output does not survive its confirmation, so only its property counts. *)
Lemma step_confirmed pend txs s x x' :
  run pend txs s -> m_unconfirmedTransfers s !! getTransactionOutputKey x = Some x -> getTransactionOutputKey x' = getTransactionOutputKey x ->
  is_key x' = is_key x -> (is_key x = true -> descriptor x' = descriptor x) -> (is_key x = false -> x_visible x' = true) ->
  x_blockHeight x' <> UNCONFIRMED -> gidx x' <> UNCONFIRMED_TRANSACTION_GLOBAL_OUTPUT_INDEX -> recorded txs (x_transactionHash x') (x_blockHeight x') ->
  (forall k y a i, held s k y -> descriptor x' = ByGlobalIndex a i -> descriptor y <> ByGlobalIndex a i) ->
  exists s', (s1 ← addUnlockJob age x' s; s1 ← emplace_available x' s1; update_if_key x' (erase_unconfirmed x s1)) = Ret s'
             /\ plain s' = plain (confirmed_now x x' s) /\ run pend txs s'.
Proof.
  intros [Hc Hs] Hx Hkey Hik Hdk Hv Hh Hg Hr Hm.
  assert (Hna : m_availableTransfers s !! getTransactionOutputKey x' = None).
  { rewrite Hkey. destruct (co_apart _ _ _ Hc (getTransactionOutputKey x)) as ([? | ?] & _); [congruence | done]. }
  pose proof (add_available_Ret pend txs s _ Hc Hna) as Hadd. destruct (addUnlockJob age x' s) as [s1 | | |]; try done.
  cbn in Hadd |- *. rewrite Hadd, outcome_bind_ret. change (erase_unconfirmed x (put_available x' s)) with (confirmed_now x x' s).
  assert (Hcc : core pend txs (confirmed_now x x' s)) by by apply core_confirmed_now.
  destruct (is_key x) eqn:Ek.
  - apply (finish_step pend txs s _ x'); [done | done | | congruence]. intros d Hd.
    eapply agree_trans; [apply agree_erase_unconfirmed; [done | rewrite <- Hdk; done] | apply agree_put_available; [exact Hna | done]].
  - exists (confirmed_now x x' s). rewrite update_if_key_alt, Hik. split; [done |]. split; [done |]. split; [done |].
    intros d. destruct (decide (d = descriptor x \/ d = descriptor x')) as [Hor | Hno].
    + assert (Hnk : forall ki, d <> ByKeyImage ki) by (intros ki; destruct Hor as [-> | ->]; apply not_key_descriptor; congruence).
      apply shown_without_key; [done |]. pose proof (proj1 (shown_without_key d s Hnk) (Hs d)) as (Vs & Va & Vu). split; [done |]. split.
      * intros k y [[_ <-] | [_ Hy]]%put_available_lookup; [by rewrite Hv | by eapply Va].
      * intros k y [_ Hy]%erase_unconfirmed_lookup. by eapply Vu.
    + eapply agree_shown; [| apply Hs]. eapply agree_trans; [apply agree_erase_unconfirmed; [done | naive_solver] | apply agree_put_available; [exact Hna | naive_solver]].
Qed.

(** * The loops *)

(** The live element behind one that was read before the flags changed. *)
Lemma bare_live m x : bare m !! getTransactionOutputKey x = Some (set_visible true x) ->
  exists x0, m !! getTransactionOutputKey x = Some x0 /\ getTransactionOutputKey x0 = getTransactionOutputKey x /\ x_info x0 = x_info x.
Proof. intros (x0 & H0 & Heq)%bare_lookup. exists x0. destruct x, x0. unfold getTransactionOutputKey, set_visible in *. cbn in *. injection Heq as -> -> -> -> ->. done. Qed.

Lemma spent_live pend txs s k y : run pend txs s -> bare_spent (m_spentTransfers s) !! k = Some y -> m_spentTransfers s !! k = Some y.
Proof.
  intros [_ Hs] (z & Hz & ->)%bare_spent_lookup. rewrite Hz. f_equal. pose proof (proj1 (Hs _) k z Hz eq_refl) as Hv.
  destruct z as [[] ? ? ?]. unfold bare_output, set_visible. cbn in *. by subst.
Qed.

Abbreviation spent_key := (fun y => getTransactionOutputKey (sp_output y)).

(** What a loop leaves alone. *)
Definition same_log (s s' : TransfersContainer) : Prop := m_transactions s' = m_transactions s /\ m_currentHeight s' = m_currentHeight s.

Lemma same_log_plain s s1 s' : plain s' = plain s1 -> same_log s s1 -> same_log s s'.
Proof. unfold plain. intros [= Ht _ _ _ _ Hh] [Ht1 Hh1]. split; congruence. Qed.
Lemma same_log_trans s s1 s' : same_log s s1 -> same_log s1 s' -> same_log s s'.
Proof. intros [] []. split; congruence. Qed.

Lemma unspend_all_spec pend txs l s :
  run pend txs s -> NoDup (spent_key <$> l) -> (forall y, y ∈ l -> m_spentTransfers (plain s) !! spent_key y = Some y) ->
  exists s', unspend_all age l s = Ret s' /\ run pend txs s' /\ same_log s s'
    /\ m_unconfirmedTransfers (plain s') = m_unconfirmedTransfers (plain s)
    /\ (forall k, m_spentTransfers (plain s') !! k = if decide (k ∈ spent_key <$> l) then None else m_spentTransfers (plain s) !! k)
    /\ (forall k, m_availableTransfers (plain s') !! k =
                  if decide (k ∈ spent_key <$> l) then sp_output <$> m_spentTransfers (plain s) !! k else m_availableTransfers (plain s) !! k).
Proof.
  revert s. induction l as [| y l IH]; intros s Hrun Hnd Hin.
  { exists s. split; [done |]. split; [done |]. split; [done |]. split; [done |].
    by split; intros k; rewrite decide_False by apply not_elem_of_nil. }
  rewrite fmap_cons in Hnd. apply NoDup_cons in Hnd as [Hy Hnd].
  pose proof (spent_live _ _ _ _ _ Hrun (Hin y ltac:(by left))) as Hys. destruct (co_spent _ _ _ (proj1 Hrun) _ _ Hys) as (_ & Hh & Hg & _).
  destruct (step_unspent _ _ _ _ Hrun Hys) as (s1 & Hstep & Hp1 & Hrun1).
  assert (Hps : m_spentTransfers (plain s1) = delete (spent_key y) (m_spentTransfers (plain s))) by (rewrite Hp1; apply fmap_delete).
  assert (Hpa : m_availableTransfers (plain s1) = <[spent_key y := set_visible true (sp_output y)]> (m_availableTransfers (plain s))) by (rewrite Hp1; apply fmap_insert).
  destruct (IH s1 Hrun1 Hnd) as (s' & Heq & Hrun' & Hlog & Hu & Hsp & Ha).
  { intros z Hz. rewrite Hps, lookup_delete_ne; [apply Hin; by right |]. intros Hk. apply Hy. apply list_elem_of_fmap. by exists z. }
  exists s'. split; [| split; [done |]].
  - cbn [unspend_all]. rewrite !assert_true by (by apply negb_true_iff, Z.eqb_neq). rewrite !outcome_bind_ret.
    destruct (addUnlockJob age (sp_output y) s) as [s2 | | |]; try done. cbn in Hstep |- *. destruct (emplace_available (sp_output y) s2) as [s3 | | |]; try done.
    cbn in Hstep |- *. by rewrite Hstep.
  - assert (Hyv : set_visible true (sp_output y) = sp_output y).
    { pose proof (Hin y ltac:(by left)) as Hb. apply bare_spent_lookup in Hb as (z & _ & ->). done. }
    split; [eapply same_log_trans; [| exact Hlog]; by apply (same_log_plain _ (unspent_now y s)) |]. split; [rewrite Hu, Hp1; done |].
    split; intros k; [rewrite Hsp, Hps | rewrite Ha, Hps, Hpa]; rewrite fmap_cons.
    + destruct (decide (k ∈ spent_key <$> l)) as [Hk | Hk], (decide (k ∈ spent_key y :: (spent_key <$> l))) as [Hk' | Hk']; try done.
      * by destruct Hk'; right.
      * apply elem_of_cons in Hk' as [-> | ?]; [by rewrite lookup_delete_eq | done].
      * rewrite lookup_delete_ne; [done |]. intros <-. apply Hk'. by left.
    + destruct (decide (k ∈ spent_key <$> l)) as [Hk | Hk], (decide (k ∈ spent_key y :: (spent_key <$> l))) as [Hk' | Hk']; try done.
      * rewrite lookup_delete_ne; [done |]. by intros <-.
      * by destruct Hk'; right.
      * apply elem_of_cons in Hk' as [-> | ?]; [| done]. rewrite lookup_insert_eq, (Hin y) by (by left). cbn. by rewrite Hyv.
      * rewrite lookup_insert_ne; [done |]. intros <-. apply Hk'. by left.
Qed.

Lemma lookup_deleted {A} (m m1 : gmap TransactionOutputKey A) k0 keys k (o : option A) :
  k0 ∉ keys -> m1 = delete k0 m -> o = (if decide (k ∈ keys) then None else m1 !! k) -> o = if decide (k ∈ k0 :: keys) then None else m !! k.
Proof.
  intros Hk0 -> ->. destruct (decide (k ∈ keys)) as [Hk | Hk], (decide (k ∈ k0 :: keys)) as [Hk' | Hk']; try done.
  - by destruct Hk'; right.
  - apply elem_of_cons in Hk' as [-> | ?]; [by rewrite lookup_delete_eq | done].
  - rewrite lookup_delete_ne; [done |]. intros <-. apply Hk'. by left.
Qed.

Lemma erase_all_unconfirmed_spec pend txs l s :
  run pend txs s -> NoDup (getTransactionOutputKey <$> l) ->
  (forall x, x ∈ l -> m_unconfirmedTransfers (plain s) !! getTransactionOutputKey x = Some (set_visible true x)) ->
  exists s', erase_all_unconfirmed l s = Ret s' /\ run pend txs s' /\ same_log s s'
    /\ (forall k, m_unconfirmedTransfers (plain s') !! k =
                  if decide (k ∈ getTransactionOutputKey <$> l) then None else m_unconfirmedTransfers (plain s) !! k)
    /\ m_spentTransfers (plain s') = m_spentTransfers (plain s) /\ m_availableTransfers (plain s') = m_availableTransfers (plain s).
Proof.
  revert s. induction l as [| x l IH]; intros s Hrun Hnd Hin.
  { exists s. split; [done |]. split; [done |]. split; [done |]. split; [| done]. by intros k; rewrite decide_False by apply not_elem_of_nil. }
  rewrite fmap_cons in Hnd. apply NoDup_cons in Hnd as [Hx Hnd].
  destruct (bare_live _ _ (Hin x ltac:(by left))) as (x0 & Hx0 & Hk0 & Hi0). rewrite <- Hk0 in Hx0.
  destruct (step_drop_unconfirmed _ _ _ _ Hrun Hx0) as (s1 & Hstep & Hp1 & Hrun1).
  assert (Hpu : m_unconfirmedTransfers (plain s1) = delete (getTransactionOutputKey x) (m_unconfirmedTransfers (plain s))).
  { rewrite Hp1, <- Hk0. apply fmap_delete. }
  destruct (IH s1 Hrun1 Hnd) as (s' & Heq & Hrun' & Hlog & Hu & Hsp & Ha).
  { intros z Hz. rewrite Hpu, lookup_delete_ne; [apply Hin; by right |]. intros Hk. apply Hx. apply list_elem_of_fmap. by exists z. }
  exists s'. split; [| split; [done |]].
  - cbn [erase_all_unconfirmed]. unfold erase_unconfirmed in Hstep |- *. rewrite Hk0, update_if_key_alt in Hstep. unfold is_key in Hstep. rewrite Hi0 in Hstep.
    fold (is_key x) in Hstep. by rewrite update_if_key_alt, Hstep.
  - split; [eapply same_log_trans; [| exact Hlog]; by apply (same_log_plain _ (erase_unconfirmed x0 s)) |].
    split; [| by rewrite Hsp, Ha, Hp1]. intros k. rewrite fmap_cons. by eapply lookup_deleted.
Qed.

Lemma erase_all_available_spec pend txs l s :
  run pend txs s -> NoDup (getTransactionOutputKey <$> l) ->
  (forall x, x ∈ l -> m_availableTransfers (plain s) !! getTransactionOutputKey x = Some (set_visible true x)) ->
  exists s', erase_all_available l s = Ret s' /\ run pend txs s' /\ same_log s s'
    /\ (forall k, m_availableTransfers (plain s') !! k =
                  if decide (k ∈ getTransactionOutputKey <$> l) then None else m_availableTransfers (plain s) !! k)
    /\ m_spentTransfers (plain s') = m_spentTransfers (plain s) /\ m_unconfirmedTransfers (plain s') = m_unconfirmedTransfers (plain s).
Proof.
  revert s. induction l as [| x l IH]; intros s Hrun Hnd Hin.
  { exists s. split; [done |]. split; [done |]. split; [done |]. split; [| done]. by intros k; rewrite decide_False by apply not_elem_of_nil. }
  rewrite fmap_cons in Hnd. apply NoDup_cons in Hnd as [Hx Hnd].
  destruct (bare_live _ _ (Hin x ltac:(by left))) as (x0 & Hx0 & Hk0 & Hi0). rewrite <- Hk0 in Hx0.
  destruct (step_drop_available _ _ _ _ Hrun Hx0) as (s1 & Hstep & Hp1 & Hrun1).
  assert (Hpa : m_availableTransfers (plain s1) = delete (getTransactionOutputKey x) (m_availableTransfers (plain s))).
  { rewrite Hp1, <- Hk0. apply fmap_delete. }
  destruct (IH s1 Hrun1 Hnd) as (s' & Heq & Hrun' & Hlog & Ha & Hsp & Hu).
  { intros z Hz. rewrite Hpa, lookup_delete_ne; [apply Hin; by right |]. intros Hk. apply Hx. apply list_elem_of_fmap. by exists z. }
  exists s'. split; [| split; [done |]].
  - cbn [erase_all_available]. unfold drop_available, erase_available, deleteUnlockJob in Hstep |- *. rewrite Hk0, update_if_key_alt in Hstep.
    unfold is_key in Hstep. rewrite Hi0 in Hstep. fold (is_key x) in Hstep. by rewrite update_if_key_alt, Hstep.
  - split; [eapply same_log_trans; [| exact Hlog]; by apply (same_log_plain _ (drop_available x0 s)) |].
    split; [| by rewrite Hsp, Hu, Hp1]. intros k. rewrite fmap_cons. by eapply lookup_deleted.
Qed.

(** * Deleting the transfers of a transaction *)

Lemma keys_of_transaction h m k : keyed m -> k ∈ getTransactionOutputKey <$> of_transaction h m <-> is_Some (m !! k) /\ k.1 = h.
Proof.
  intros Hk. rewrite list_elem_of_fmap. unfold of_transaction. split.
  - intros (x & -> & [Hh (k' & Hx)%elem_of_values]%list_elem_of_filter). rewrite (Hk _ _ Hx). split; [by eexists |]. by rewrite <- (Hk _ _ Hx).
  - intros [[x Hx] Hh]. exists x. split; [by rewrite (Hk _ _ Hx) |]. apply list_elem_of_filter. split; [| apply elem_of_values; by eexists].
    by rewrite <- Hh, <- (Hk _ _ Hx).
Qed.
Lemma of_transaction_live h m x : keyed m -> x ∈ of_transaction h m -> bare m !! getTransactionOutputKey x = Some (set_visible true x).
Proof.
  intros Hk [_ (k & Hx)%elem_of_values]%list_elem_of_filter. rewrite (Hk _ _ Hx). apply bare_lookup. eauto.
Qed.
Lemma keys_spent_by h m k : keyed_spent m -> k ∈ spent_key <$> spent_by h m <-> exists y, m !! k = Some y /\ sp_spendingTransactionHash y = h.
Proof.
  intros Hk. rewrite list_elem_of_fmap. unfold spent_by. split.
  - intros (y & -> & [Hh (k' & Hy)%elem_of_values]%list_elem_of_filter). exists y. by rewrite (Hk _ _ Hy).
  - intros (y & Hy & Hh). exists y. split; [by rewrite (Hk _ _ Hy) |]. apply list_elem_of_filter. split; [done | apply elem_of_values; by eexists].
Qed.

(** The container [p'] is [p] without the outputs of the transaction and its spendings (flags aside). *)
Record without (h : Hash) (p p' : TransfersContainer) : Prop := {
  wo_log : same_log p p';
  wo_unconfirmed : forall k, m_unconfirmedTransfers p' !! k = if decide (k.1 = h) then None else m_unconfirmedTransfers p !! k;
  wo_spent : forall k, m_spentTransfers p' !! k =
    y ← m_spentTransfers p !! k; if decide (sp_spendingTransactionHash y = h) then None else Some y;
  wo_available : forall k, m_availableTransfers p' !! k =
    if decide (k.1 = h) then None
    else match m_availableTransfers p !! k with
         | Some x => Some x
         | None => y ← m_spentTransfers p !! k; if decide (sp_spendingTransactionHash y = h) then Some (sp_output y) else None
         end
}.

Lemma deleteTransactionTransfers_spec pend txs h s :
  run pend txs s -> exists s', deleteTransactionTransfers age h s = Ret s' /\ run pend txs s' /\ without h (plain s) (plain s').
Proof.
  intros Hrun. destruct (core_keyed _ _ _ (proj1 Hrun)) as (Hku & Hka & Hks). unfold deleteTransactionTransfers.
  destruct (unspend_all_spec pend txs (spent_by h (m_spentTransfers s)) s Hrun) as (s1 & E1 & Hrun1 & Hlog1 & Hu1 & Hs1 & Ha1).
  { exact (NoDup_values spent_key (m_spentTransfers s) (fun y => sp_spendingTransactionHash y = h) Hks). }
  { intros y [_ (k & Hy)%elem_of_values]%list_elem_of_filter. rewrite (Hks _ _ Hy). apply bare_spent_lookup. exists y. split; [done |].
    pose proof (proj1 (proj2 Hrun _) k y Hy eq_refl) as Hv. destruct y as [[] ? ? ?]. unfold bare_output, set_visible. cbn in *. by subst. }
  rewrite E1, outcome_bind_ret. destruct (core_keyed _ _ _ (proj1 Hrun1)) as (Hku1 & _ & _).
  destruct (erase_all_unconfirmed_spec pend txs (of_transaction h (m_unconfirmedTransfers s1)) s1 Hrun1) as (s2 & E2 & Hrun2 & Hlog2 & Hu2 & Hs2 & Ha2).
  { exact (NoDup_values getTransactionOutputKey _ (fun x => x_transactionHash x = h) Hku1). }
  { intros x Hx. by eapply of_transaction_live. }
  rewrite E2, outcome_bind_ret. destruct (core_keyed _ _ _ (proj1 Hrun2)) as (_ & Hka2 & _).
  destruct (erase_all_available_spec pend txs (of_transaction h (m_availableTransfers s2)) s2 Hrun2) as (s3 & E3 & Hrun3 & Hlog3 & Ha3 & Hs3 & Hu3).
  { exact (NoDup_values getTransactionOutputKey _ (fun x => x_transactionHash x = h) Hka2). }
  { intros x Hx. by eapply of_transaction_live. }
  exists s3. split; [done |]. split; [done |].
  assert (Hsome : forall (m : outputs) k, is_Some (bare m !! k) <-> is_Some (m !! k)) by (intros m k; unfold bare; by rewrite lookup_fmap, fmap_is_Some).
  split.
  - apply (same_log_trans _ s1); [exact Hlog1 |]. apply (same_log_trans _ s2); [exact Hlog2 | exact Hlog3].
  - intros k. rewrite Hu3, Hu2, <- Hu1. destruct (decide (k.1 = h)) as [Hk | Hk], (decide (k ∈ _)) as [Hin | Hin]; try done.
    + rewrite keys_of_transaction in Hin by done. destruct (m_unconfirmedTransfers (plain s1) !! k) eqn:E; [| done]. destruct Hin. split; [| done].
      apply Hsome. by eexists.
    + rewrite keys_of_transaction in Hin by done. by destruct Hin.
  - intros k. rewrite Hs3, Hs2, Hs1. cbn. unfold bare_spent. rewrite lookup_fmap. destruct (decide (k ∈ _)) as [Hin | Hin]; rewrite keys_spent_by in Hin by done.
    + destruct Hin as (y & Hy & Hh). rewrite Hy. cbn. by rewrite decide_True.
    + destruct (m_spentTransfers s !! k) as [y |] eqn:E; [| done]. cbn. rewrite decide_False; [done |]. intros Hh. apply Hin. by exists y.
  - intros k. rewrite Ha3, Ha2, Ha1. destruct (decide (k.1 = h)) as [Hk | Hk].
    + destruct (decide (k ∈ getTransactionOutputKey <$> _)) as [Hin | Hin]; [done |]. rewrite keys_of_transaction in Hin by done.
      rewrite <- Ha1, <- Ha2. destruct (m_availableTransfers (plain s2) !! k) eqn:E; [| done]. destruct Hin. split; [| done]. apply Hsome. by eexists.
    + rewrite (decide_False (P := k ∈ getTransactionOutputKey <$> _)) by (rewrite keys_of_transaction by done; by intros [_ ?]).
      cbn. unfold bare_spent, bare. rewrite !lookup_fmap. destruct (decide (k ∈ _)) as [Hin | Hin]; rewrite keys_spent_by in Hin by done.
      * destruct Hin as (y & Hy & Hh). rewrite Hy. destruct (co_apart _ _ _ (proj1 Hrun) k) as (_ & _ & [Hn | Hn]); [| congruence].
        rewrite Hn. cbn. by rewrite decide_True.
      * destruct (m_availableTransfers s !! k) as [x |]; [done |]. cbn. destruct (m_spentTransfers s !! k) as [y |] eqn:E; [| done].
        cbn. rewrite decide_False; [done |]. intros Hh. apply Hin. by exists y.
Qed.

Definition ok (s : TransfersContainer) : Prop := log_ok (m_transactions s) /\ run None (m_transactions s) s.

(** The transaction itself is taken from the list once nothing refers to it. *)
Lemma erase_transaction_ok h s s' :
  ok s -> run None (m_transactions s) s' -> without h (plain s) (plain s') ->
  (forall k y, m_spentTransfers s !! k = Some y -> k.1 = h -> sp_spendingTransactionHash y = h) -> ok (erase_transaction h s').
Proof.
  intros [Hlog [Hc _]] [Hc' Hs'] [[Ht _] Hu Hsp Ha] Hown. cbn in Ht.
  assert (Hplain : forall (m : outputs) k, bare m !! k = None -> m !! k = None) by (intros m k; unfold bare; by rewrite lookup_fmap, fmap_None).
  split; [cbn; rewrite Ht; by apply log_filter |]. split; [| exact Hs'].
  apply core_with_transactions. change (core None (filter (fun t => ti_transactionHash t <> h) (m_transactions s')) s').
  rewrite Ht. apply core_log_remove; [done |].
  split.
  - intros k Hk. split; [| split].
    + apply Hplain. change (bare (m_unconfirmedTransfers s')) with (m_unconfirmedTransfers (plain s')). by rewrite Hu, decide_True.
    + apply Hplain. change (bare (m_availableTransfers s')) with (m_availableTransfers (plain s')). by rewrite Ha, decide_True.
    + assert (m_spentTransfers (plain s') !! k = None) as Hn; [| cbn in Hn; unfold bare_spent in Hn; by rewrite lookup_fmap, fmap_None in Hn].
      rewrite Hsp. cbn. unfold bare_spent. rewrite lookup_fmap. destruct (m_spentTransfers s !! k) as [y |] eqn:E; [| done]. cbn. rewrite decide_True; [done |]. by apply (Hown k).
  - intros k y Hk Hy. assert (m_spentTransfers (plain s') !! k = Some (bare_output y)) as Hb by (apply bare_spent_lookup; eauto).
    rewrite Hsp in Hb. destruct (m_spentTransfers (plain s) !! k) as [z |]; [| done]. cbn in Hb. case_decide as Hd; [done |]. injection Hb as ->. by apply Hd.
Qed.

(** An unconfirmed transaction has no spent outputs. *)
Lemma unconfirmed_unspent s t k y :
  ok s -> t ∈ m_transactions s -> ti_blockHeight t = UNCONFIRMED -> m_spentTransfers s !! k = Some y -> k.1 <> ti_transactionHash t.
Proof.
  intros [[Hd _ _] [Hc _]] Ht Hh Hy Hk. destruct (co_spent _ _ _ Hc _ _ Hy) as (_ & Hne & _ & Hr & _). apply Hne.
  eapply recorded_unique; [done | exact Hr |]. by exists t.
Qed.

Lemma deleteUnconfirmedTransaction_spec h s :
  ok s -> exists b s', deleteUnconfirmedTransaction age h s = Ret (b, s') /\ ok s'
    /\ m_currentHeight s' = m_currentHeight s /\ (forall t, t ∈ m_transactions s' -> t ∈ m_transactions s).
Proof.
  intros Hok. unfold deleteUnconfirmedTransaction. destruct (find_transaction h s) as [t |] eqn:Ef; [| by exists false, s].
  destruct (Z.eqb_spec (ti_blockHeight t) UNCONFIRMED) as [Hh | _]; [| by exists false, s]. cbn [negb].
  apply find_transaction_Some in Ef as [Ht <-].
  destruct (deleteTransactionTransfers_spec _ _ (ti_transactionHash t) s (proj2 Hok)) as (s' & -> & Hrun & Hw). rewrite outcome_bind_ret.
  exists true, (erase_transaction (ti_transactionHash t) s'). split; [done |]. split; [| split].
  - apply (erase_transaction_ok _ s); [done.. |]. intros k y Hy Hk. by destruct (unconfirmed_unspent s t k y Hok Ht Hh Hy).
  - exact (proj2 (wo_log _ _ _ Hw)).
  - intros u [_ Hu]%list_elem_of_filter. pose proof (proj1 (wo_log _ _ _ Hw)) as Heq. cbn in Heq. by rewrite <- Heq.
Qed.

(** * Detaching *)

Record without_all (D : list Hash) (p p' : TransfersContainer) : Prop := {
  wa_unconfirmed : forall k, m_unconfirmedTransfers p' !! k = if decide (k.1 ∈ D) then None else m_unconfirmedTransfers p !! k;
  wa_spent : forall k, m_spentTransfers p' !! k =
    y ← m_spentTransfers p !! k; if decide (sp_spendingTransactionHash y ∈ D) then None else Some y;
  wa_available : forall k, m_availableTransfers p' !! k =
    if decide (k.1 ∈ D) then None
    else match m_availableTransfers p !! k with
         | Some x => Some x
         | None => y ← m_spentTransfers p !! k; if decide (sp_spendingTransactionHash y ∈ D) then Some (sp_output y) else None
         end
}.

Lemma without_none p : without_all [] p p.
Proof.
  split; intros k.
  - by rewrite decide_False by apply not_elem_of_nil.
  - destruct (m_spentTransfers p !! k); [| done]. cbn. by rewrite decide_False by apply not_elem_of_nil.
  - rewrite decide_False by apply not_elem_of_nil. destruct (m_availableTransfers p !! k); [done |]. destruct (m_spentTransfers p !! k); [| done].
    cbn. by rewrite decide_False by apply not_elem_of_nil.
Qed.

Lemma decide_snoc {A} (D : list Hash) h k (a b : A) :
  (if decide (k ∈ D ++ [h]) then a else b) = if decide (k ∈ D) then a else if decide (k = h) then a else b.
Proof.
  pose proof (elem_of_app D [h] k) as Hin. rewrite list_elem_of_singleton in Hin.
  destruct (decide (k ∈ D)), (decide (k = h)), (decide (k ∈ D ++ [h])); try done; tauto.
Qed.

Lemma without_snoc D h p p1 p2 :
  without_all D p p1 -> without h p1 p2 -> (forall k y, m_spentTransfers p1 !! k = Some y -> k.1 ∉ D) -> without_all (D ++ [h]) p p2.
Proof.
  intros [Hu Hs Ha] [_ Hu' Hs' Ha'] Hno. split; intros k.
  - rewrite Hu', Hu, decide_snoc. by repeat case_decide.
  - rewrite Hs', Hs. destruct (m_spentTransfers p !! k) as [y |]; [| done]. cbn. rewrite decide_snoc. by repeat (case_decide; cbn).
  - specialize (Hno k). rewrite Ha', Ha, Hs, decide_snoc. rewrite Hs in Hno. destruct (decide (k.1 ∈ D)) as [Hk | Hk].
    + case_decide; [done |]. destruct (m_spentTransfers p !! k) as [y |]; [| done]. cbn in *. case_decide; [done |]. cbn. by destruct (Hno y eq_refl).
    + case_decide; [done |]. destruct (m_availableTransfers p !! k); [done |]. destruct (m_spentTransfers p !! k) as [y |]; [| done]. cbn.
      rewrite decide_snoc. by repeat (case_decide; cbn).
Qed.

Lemma existsb_spent_by s height h :
  existsb (fun y => height <=? x_blockHeight (sp_output y)) (spent_by h (m_spentTransfers s)) = true
  <-> exists k y, m_spentTransfers s !! k = Some y /\ sp_spendingTransactionHash y = h /\ height <= x_blockHeight (sp_output y).
Proof.
  rewrite existsb_exists. split.
  - intros (y & Hin & Hle). apply list_elem_of_In in Hin. unfold spent_by in Hin. apply list_elem_of_filter in Hin as [Hh (k & Hk)%elem_of_values].
    exists k, y. split; [done |]. split; [done | by apply Z.leb_le].
  - intros (k & y & Hk & Hh & Hle). exists y. split; [| by apply Z.leb_le]. apply list_elem_of_In. unfold spent_by. apply list_elem_of_filter.
    split; [done | apply elem_of_values; by eexists].
Qed.

(** The transactions that a detach takes: those from the height on, and the unconfirmed ones that spend their outputs. *)
Definition goes (height : Z) (s : TransfersContainer) (t : TransactionInformation) : Prop :=
  if decide (ti_blockHeight t = UNCONFIRMED)
  then exists k y, m_spentTransfers s !! k = Some y /\ sp_spendingTransactionHash y = ti_transactionHash t /\ height <= x_blockHeight (sp_output y)
  else height <= ti_blockHeight t.

Lemma spent_before D s0 s k y :
  without_all D (plain s0) (plain s) -> m_spentTransfers s !! k = Some y -> exists y0, m_spentTransfers s0 !! k = Some y0 /\ bare_output y0 = bare_output y.
Proof.
  intros [_ Hs _] Hk. assert (m_spentTransfers (plain s) !! k = Some (bare_output y)) as Hb by (apply bare_spent_lookup; eauto).
  rewrite Hs in Hb. cbn in Hb. unfold bare_spent in Hb. rewrite lookup_fmap in Hb. destruct (m_spentTransfers s0 !! k) as [y0 |]; [| done].
  cbn in Hb. case_decide; [done |]. exists y0. split; [done | congruence].
Qed.
Lemma spent_after D s0 s k y :
  without_all D (plain s0) (plain s) -> m_spentTransfers s0 !! k = Some y -> sp_spendingTransactionHash y ∉ D ->
  exists y', m_spentTransfers s !! k = Some y' /\ bare_output y' = bare_output y.
Proof.
  intros [_ Hs _] Hk Hn. assert (m_spentTransfers (plain s) !! k = Some (bare_output y)) as Hb.
  { rewrite Hs. cbn. unfold bare_spent. rewrite lookup_fmap, Hk. cbn. by rewrite decide_False. }
  apply bare_spent_lookup in Hb as (y' & Hy' & Heq). by exists y'.
Qed.

Lemma precedes_after l1 t l2 h' :
  NoDup (hashes (l1 ++ t :: l2)) -> precedes (l1 ++ t :: l2) (ti_transactionHash t) h' -> h' ∈ hashes l2.
Proof.
  intros Hnd (L & L' & Heq & Ht & Hh'). revert L Heq Ht. induction l1 as [| a l1 IH]; intros [| b L] Heq Ht; try by apply not_elem_of_nil in Ht.
  - cbn in Heq. injection Heq as _ Heq. rewrite Heq, fmap_app, elem_of_app. by right.
  - cbn in Heq, Hnd. injection Heq as <- Heq. apply NoDup_cons in Hnd as [Hn Hnd]. apply (IH Hnd L Heq).
    rewrite fmap_cons in Ht. apply elem_of_cons in Ht as [Ht | Ht]; [| done]. destruct Hn. rewrite <- Ht, fmap_app, fmap_cons, elem_of_app, elem_of_cons. tauto.
Qed.

Lemma filter_one l1 t l2 :
  NoDup (hashes (l1 ++ t :: l2)) -> filter (fun u => ti_transactionHash u <> ti_transactionHash t) (l1 ++ t :: l2) = l1 ++ l2.
Proof.
  assert (Hall : forall l : list TransactionInformation, ti_transactionHash t ∉ hashes l -> filter (fun u => ti_transactionHash u <> ti_transactionHash t) l = l).
  { induction l as [| a l IH]; [done |]. rewrite fmap_cons, not_elem_of_cons, filter_cons. intros [Ha Hl]. rewrite decide_True by done. by rewrite IH. }
  rewrite fmap_app, fmap_cons, NoDup_app, NoDup_cons. intros (Hnd1 & Hdisj & Hn2 & Hnd2).
  rewrite filter_app, filter_cons, decide_False by (intros H; by apply H). rewrite !Hall; [done.. |]. intros Hin. apply (Hdisj _ Hin). by left.
Qed.

Definition remaining (D : list Hash) (txs : list TransactionInformation) : list TransactionInformation :=
  filter (fun t => ti_transactionHash t ∉ D) txs.

Lemma remaining_snoc D h txs : remaining (D ++ [h]) txs = filter (fun t => ti_transactionHash t <> h) (remaining D txs).
Proof.
  unfold remaining. rewrite list_filter_filter. apply list_filter_iff. intros t. rewrite elem_of_app, list_elem_of_singleton. tauto.
Qed.

(** What the loop has done when it has gone through the transactions [kept] and those in [D]. *)
Record detaching (height : Z) (s0 : TransfersContainer) (D : list Hash) (kept : list TransactionInformation) (s : TransfersContainer) : Prop := {
  dt_ok : ok s;
  dt_remaining : m_transactions s = remaining D (m_transactions s0);
  dt_without : without_all D (plain s0) (plain s);
  dt_height : m_currentHeight s = m_currentHeight s0;
  dt_kept : forall t, t ∈ kept -> ti_blockHeight t = UNCONFIRMED /\ ~ goes height s0 t;
  dt_spent : forall k y, m_spentTransfers s !! k = Some y -> sp_spendingTransactionHash y ∈ hashes kept -> x_blockHeight (sp_output y) < height;
  dt_gone : forall t, t ∈ m_transactions s0 -> ti_transactionHash t ∈ D -> goes height s0 t
}.

Lemma detach_one height s0 D l t kept s :
  ok s0 -> detaching height s0 D kept s -> m_transactions s = l ++ t :: kept -> goes height s0 t ->
  (ti_blockHeight t <> UNCONFIRMED -> height <= ti_blockHeight t) ->
  exists s', deleteTransactionTransfers age (ti_transactionHash t) s = Ret s'
             /\ detaching height s0 (D ++ [ti_transactionHash t]) kept (erase_transaction (ti_transactionHash t) s')
             /\ m_transactions (erase_transaction (ti_transactionHash t) s') = l ++ kept.
Proof.
  intros Hok0 [Hok Hrem Hw Hh Hkept Hspent Hgone] Htx Hgoes Hconf. pose proof (lo_distinct _ (proj1 Hok)) as Hnd. rewrite Htx in Hnd.
  assert (Ht : t ∈ m_transactions s) by (rewrite Htx, elem_of_app, elem_of_cons; tauto).
  destruct (deleteTransactionTransfers_spec _ _ (ti_transactionHash t) s (proj2 Hok)) as (s' & Heq & Hrun & Hwo).
  assert (Hown : forall k y, m_spentTransfers s !! k = Some y -> k.1 = ti_transactionHash t -> sp_spendingTransactionHash y = ti_transactionHash t).
  { intros k y Hy Hk. exfalso. destruct (Z.eq_dec (ti_blockHeight t) UNCONFIRMED) as [Hu | Hu].
    - by apply (unconfirmed_unspent s t k y Hok Ht Hu Hy).
    - destruct (co_spent _ _ _ (proj1 (proj2 Hok)) _ _ Hy) as (_ & _ & _ & Hr & Hp & _). rewrite Hk, Htx in Hp, Hr.
      apply precedes_after in Hp; [| done]. specialize (Hspent k y Hy Hp). specialize (Hconf Hu).
      assert (x_blockHeight (sp_output y) = ti_blockHeight t); [| lia]. eapply recorded_unique; [exact Hnd | exact Hr |].
      exists t. split; [rewrite elem_of_app, elem_of_cons; tauto | done]. }
  pose proof (erase_transaction_ok _ s s' Hok Hrun Hwo Hown) as Hok'. pose proof (wo_log _ _ _ Hwo) as [Ht' Hh']. cbn in Ht', Hh'.
  assert (Hnew : m_transactions (erase_transaction (ti_transactionHash t) s') = l ++ kept) by (cbn; rewrite Ht', Htx; by apply filter_one).
  assert (Hwall : without_all (D ++ [ti_transactionHash t]) (plain s0) (plain s')).
  { eapply without_snoc; [exact Hw | exact Hwo |]. intros k y (z & Hz & _)%bare_spent_lookup HD.
    destruct (co_spent _ _ _ (proj1 (proj2 Hok)) _ _ Hz) as (_ & _ & _ & (u & Hu & Huh & _) & _).
    rewrite Hrem in Hu. unfold remaining in Hu. apply list_elem_of_filter in Hu as [Hu _]. by rewrite Huh in Hu. }
  exists s'. split; [done |]. split; [| done]. split; try done.
  - rewrite remaining_snoc, <- Hrem, <- Ht'. done.
  - destruct Hwall. by split.
  - change (m_currentHeight s' = m_currentHeight s0). by rewrite Hh'.
  - intros k y Hk Hin. destruct (spent_before [ti_transactionHash t] s s' k y) as (y0 & Hy0 & Hb); [| exact Hk |].
    { pose proof (without_snoc [] _ _ _ _ (without_none (plain s)) Hwo) as Hw1. apply Hw1. intros. apply not_elem_of_nil. }
    assert (sp_spendingTransactionHash y0 = sp_spendingTransactionHash y /\ x_blockHeight (sp_output y0) = x_blockHeight (sp_output y)) as [E1 E2] by (by injection Hb).
    rewrite <- E2. apply (Hspent k y0 Hy0). by rewrite E1.
  - intros u Hu [HuD | Hut%list_elem_of_singleton]%elem_of_app; [by apply Hgone |].
    assert (u = t) as ->; [| done].
    assert (Ht0 : t ∈ m_transactions s0) by (rewrite Hrem in Ht; unfold remaining in Ht; by apply list_elem_of_filter in Ht as [_ ?]).
    pose proof (lo_distinct _ (proj1 Hok0)) as Hnd0. apply list_elem_of_lookup in Hu as [i Hi], Ht0 as [j Hj].
    assert (i = j) as ->; [| congruence]. eapply (NoDup_lookup (hashes (m_transactions s0)) i j (ti_transactionHash t)); [done | |];
      rewrite list_lookup_fmap; [rewrite Hi | rewrite Hj]; cbn; congruence.
Qed.

Lemma sorted_before l t l' u : by_key ti_blockHeight (l ++ t :: l') -> u ∈ l -> ti_blockHeight u <= ti_blockHeight t.
Proof.
  induction l as [| a l IH]; intros Hs Hu; [by apply not_elem_of_nil in Hu |]. cbn in Hs. apply StronglySorted_inv in Hs as [Hs Ha].
  apply elem_of_cons in Hu as [-> | Hu]; [| by apply IH]. rewrite Forall_forall in Ha. apply Ha. rewrite elem_of_app, elem_of_cons. tauto.
Qed.

Lemma detach_loop_spec height s0 l :
  ok s0 -> height < UNCONFIRMED -> forall D kept s, detaching height s0 D kept s -> m_transactions s = rev l ++ kept ->
  exists D' kept' s', detach_loop age height l D s = Ret (D', s') /\ detaching height s0 D' kept' s'
    /\ forall t, t ∈ m_transactions s0 -> goes height s0 t -> ti_transactionHash t ∈ D'.
Proof.
  intros Hok0 Hheight. induction l as [| t l IH]; intros D kept s Hdt Htx; cbn [detach_loop].
  - exists D, kept, s. split; [done |]. split; [done |]. intros t Ht Hgoes. destruct (decide (ti_transactionHash t ∈ D)) as [| Hn]; [done |].
    exfalso. assert (Hin : t ∈ m_transactions s) by (rewrite (dt_remaining _ _ _ _ _ Hdt); by apply list_elem_of_filter).
    rewrite Htx in Hin. by apply (dt_kept _ _ _ _ _ Hdt) in Hin as [_ ?].
  - cbn [rev] in Htx. rewrite <- app_assoc in Htx. cbn [app] in Htx.
    assert (Hin : t ∈ m_transactions s) by (rewrite Htx, elem_of_app, elem_of_cons; tauto).
    assert (HtD : ti_transactionHash t ∉ D) by (rewrite (dt_remaining _ _ _ _ _ Hdt) in Hin; by apply list_elem_of_filter in Hin as [? _]).
    assert (Hremove : goes height s0 t -> (ti_blockHeight t <> UNCONFIRMED -> height <= ti_blockHeight t) ->
      exists D' kept' s', (s1 ← deleteTransactionTransfers age (ti_transactionHash t) s;
                           detach_loop age height l (D ++ [ti_transactionHash t]) (erase_transaction (ti_transactionHash t) s1)) = Ret (D', s')
        /\ detaching height s0 D' kept' s' /\ forall t, t ∈ m_transactions s0 -> goes height s0 t -> ti_transactionHash t ∈ D').
    { intros Hg Hc. destruct (detach_one height s0 D (rev l) t kept s Hok0 Hdt Htx Hg Hc) as (s1 & -> & Hdt1 & Htx1). rewrite outcome_bind_ret.
      by apply (IH _ kept). }
    destruct (Z.eqb_spec (ti_blockHeight t) UNCONFIRMED) as [Hu | Hu].
    + destruct (existsb _ _) eqn:Ee.
      * apply existsb_spent_by in Ee as (k & y & Hk & Hh & Hle). apply Hremove; [| done]. unfold goes. rewrite decide_True by done.
        destruct (spent_before _ _ _ _ _ (dt_without _ _ _ _ _ Hdt) Hk) as (y0 & Hy0 & Hb). exists k, y0.
        assert (sp_spendingTransactionHash y0 = sp_spendingTransactionHash y /\ x_blockHeight (sp_output y0) = x_blockHeight (sp_output y)) as [-> ->] by (by injection Hb).
        done.
      * apply (IH D (t :: kept)); [| done]. assert (Hno : forall k y, m_spentTransfers s !! k = Some y -> sp_spendingTransactionHash y = ti_transactionHash t -> x_blockHeight (sp_output y) < height).
        { intros k y Hk Hh. destruct (Z.lt_ge_cases (x_blockHeight (sp_output y)) height) as [| Hge]; [done |].
          rewrite <- not_true_iff_false, existsb_spent_by in Ee. destruct Ee. by exists k, y. }
        destruct Hdt as [? ? Hw ? Hkept Hspent ?]. split; try done.
        -- intros u [-> | Hu']%elem_of_cons; [| by apply Hkept]. split; [done |]. unfold goes. rewrite decide_True by done. intros (k & y0 & Hk & Hh & Hle).
           destruct (spent_after _ _ _ _ _ Hw Hk) as (y & Hy & Hb); [by rewrite Hh |].
           assert (sp_spendingTransactionHash y = sp_spendingTransactionHash y0 /\ x_blockHeight (sp_output y) = x_blockHeight (sp_output y0)) as [E1 E2] by (by injection Hb).
           specialize (Hno k y Hy). rewrite E1, E2 in Hno. specialize (Hno Hh). lia.
        -- intros k y Hk Hsp. rewrite fmap_cons in Hsp. apply elem_of_cons in Hsp as [Hsp | Hsp]; [by apply (Hno k) | by apply (Hspent k)].
    + destruct (Z.leb_spec height (ti_blockHeight t)) as [Hge | Hlt].
      * apply Hremove; [| done]. unfold goes. by rewrite decide_False.
      * exists D, kept, s. split; [done |]. split; [done |]. intros u Hu' Hgoes. destruct (decide (ti_transactionHash u ∈ D)) as [| Hn]; [done |].
        exfalso. assert (Hins : u ∈ m_transactions s) by (rewrite (dt_remaining _ _ _ _ _ Hdt); by apply list_elem_of_filter).
        pose proof (lo_sorted _ (proj1 (dt_ok _ _ _ _ _ Hdt))) as Hsort. rewrite Htx in Hins, Hsort. apply elem_of_app in Hins as [Hins | Hins].
        -- pose proof (sorted_before _ _ _ _ Hsort Hins) as Hle. unfold goes in Hgoes. rewrite decide_False in Hgoes by lia. lia.
        -- apply elem_of_cons in Hins as [-> | Hins]; [| by apply (dt_kept _ _ _ _ _ Hdt) in Hins as [_ ?]].
           unfold goes in Hgoes. rewrite decide_False in Hgoes by done. lia.
Qed.

(** Every job belongs to an available output, so that reports never fail. *)
Lemma available_outputs_total pend txs s jobs :
  core pend txs s -> (forall j, j ∈ jobs -> j ∈ m_transfersUnlockJobs s) ->
  exists xs, available_outputs jobs s = Ret xs
    /\ Forall2 (fun j x => m_availableTransfers s !! j_transactionOutputKey j = Some x /\ j_unlockHeight j = j_unlockHeight (job_of x)) jobs xs.
Proof.
  intros Hc. induction jobs as [| j jobs IH]; intros Hin; cbn [available_outputs]; [by exists [] |].
  destruct (proj1 (co_jobs _ _ _ Hc j) (Hin j ltac:(by left))) as (k & x & Hk & ->).
  destruct IH as (xs & Hxs & Hall); [intros i Hi; apply Hin; by right |]. exists (x :: xs).
  assert (Hx : m_availableTransfers s !! getTransactionOutputKey x = Some x) by (by rewrite (proj1 (co_available _ _ _ Hc _ _ Hk))).
  unfold getAvailableOutput. rewrite job_key, Hx, outcome_bind_ret, Hxs, outcome_bind_ret. split; [done |]. by constructor.
Qed.

Lemma jobs_between_elem a b jobs j : j ∈ jobs_between a b jobs <-> (default (-1) a < j_unlockHeight j /\ j_unlockHeight j <= b) /\ j ∈ jobs.
Proof. unfold jobs_between. by rewrite list_elem_of_filter. Qed.

Lemma getLockingTransfers_total pend txs a b s : core pend txs s -> exists xs, getLockingTransfers a b s = Ret xs.
Proof.
  intros Hc. unfold getLockingTransfers. destruct (a <? b); [by exists [] |].
  destruct (available_outputs_total _ _ _ (jobs_between (Some (u32 (b + 1))) (u32 (a + 1)) (m_transfersUnlockJobs s)) Hc) as (xs & -> & _); [| by exists xs].
  by intros j [_ ?]%jobs_between_elem.
Qed.

Lemma ok_with_height h s : ok s -> ok (with_height h s).
Proof. intros (Hl & Hc & Hs). split; [done |]. split; [by apply core_with_height | done]. Qed.

Lemma detach_spec height s :
  ok s -> height < UNCONFIRMED -> exists D locked s', detach age height s = Ret (D, locked, s') /\ ok s'
    /\ m_currentHeight s' = (if height =? 0 then 0 else height - 1)
    /\ m_transactions s' = remaining D (m_transactions s) /\ without_all D (plain s) (plain s')
    /\ forall t, t ∈ m_transactions s -> ti_transactionHash t ∈ D <-> goes height s t.
Proof.
  intros Hok Hh. unfold detach. rewrite assert_true by (by apply Z.ltb_lt). rewrite outcome_bind_ret.
  destruct (detach_loop_spec height s (rev (m_transactions s)) Hok Hh [] [] s) as (D & kept & s' & -> & Hdt & Hall).
  { split; try done.
    - unfold remaining. symmetry. induction (m_transactions s) as [| t l IH]; [done |]. rewrite filter_cons, decide_True by apply not_elem_of_nil. by rewrite IH.
    - apply without_none.
    - intros t Ht. by apply not_elem_of_nil in Ht.
    - intros k y _ Ht. by apply not_elem_of_nil in Ht.
    - intros t _ Ht. by apply not_elem_of_nil in Ht. }
  { by rewrite rev_involutive, app_nil_r. }
  rewrite outcome_bind_ret. cbv iota beta zeta. set (h' := if height =? 0 then 0 else height - 1).
  pose proof (ok_with_height h' s' (dt_ok _ _ _ _ _ Hdt)) as Hok'.
  destruct (getLockingTransfers_total None _ (m_currentHeight s) h' _ (proj1 (proj2 Hok'))) as (xs & Hxs).
  change (m_currentHeight (with_height h' s')) with h'. rewrite Hxs, outcome_bind_ret. exists D, xs, (with_height h' s'). split; [done |]. split; [done |].
  split; [done |]. split; [apply (dt_remaining _ _ _ _ _ Hdt) |]. split; [destruct (dt_without _ _ _ _ _ Hdt); by split |].
  intros t Ht. split; [by apply (dt_gone _ _ _ _ _ Hdt) | by apply Hall].
Qed.

(** * Adding a transaction *)

Lemma assert_inv {A} b (f : unit -> outcome A) r : (u ← assert_ b; f u) = Ret r -> b = true /\ f tt = Ret r.
Proof. destruct b; [by split | done]. Qed.

Lemma unknown_descriptor d s : descriptor_known d s = false -> forall k x, held s k x -> descriptor x <> d.
Proof.
  unfold descriptor_known. rewrite negb_false_iff, bool_decide_eq_true. intros [Ha Hs] k x [Hk | (y & Hk & <-)].
  - by apply (proj1 (none_with_descriptor _ _) Ha k).
  - by apply (proj1 (none_spent_with_descriptor _ _) Hs k).
Qed.

(** No output of a new transaction is in a place where its own outputs do not go. *)
Definition fresh (block : TransactionBlockInfo) (h : Hash) (s : TransfersContainer) : Prop :=
  forall k, k.1 = h -> m_spentTransfers s !! k = None
    /\ if bi_height block =? UNCONFIRMED then m_availableTransfers s !! k = None else m_unconfirmedTransfers s !! k = None.

Lemma plain_none_unconfirmed s k : m_unconfirmedTransfers (plain s) !! k = None <-> m_unconfirmedTransfers s !! k = None.
Proof. cbn. unfold bare. by rewrite lookup_fmap, fmap_None. Qed.
Lemma plain_none_available s k : m_availableTransfers (plain s) !! k = None <-> m_availableTransfers s !! k = None.
Proof. cbn. unfold bare. by rewrite lookup_fmap, fmap_None. Qed.
Lemma plain_none_spent s k : m_spentTransfers (plain s) !! k = None <-> m_spentTransfers s !! k = None.
Proof. cbn. unfold bare_spent. by rewrite lookup_fmap, fmap_None. Qed.

Lemma fresh_plain block h s s' : plain s = plain s' -> fresh block h s -> fresh block h s'.
Proof.
  intros Hp Hf k Hk. specialize (Hf k Hk). rewrite <- plain_none_spent, <- Hp, plain_none_spent. destruct (bi_height block =? UNCONFIRMED).
  - by rewrite <- plain_none_available, <- Hp, plain_none_available.
  - by rewrite <- plain_none_unconfirmed, <- Hp, plain_none_unconfirmed.
Qed.

(** Where an output of a new transaction goes. *)
Definition put_output (block : TransactionBlockInfo) (tx : TransactionReader) (transfer : TransactionOutputInformationIn) (s : TransfersContainer) : TransfersContainer :=
  let x := output_info block tx transfer in if bi_height block =? UNCONFIRMED then put_unconfirmed x s else put_available x s.

Lemma addTransactionOutput_spec block tx transfer txs s s' :
  run None txs s -> recorded txs (r_transactionHash tx) (bi_height block) -> fresh block (r_transactionHash tx) s ->
  addTransactionOutput age block tx transfer s = Ret s' ->
  run None txs s' /\ fresh block (r_transactionHash tx) s' /\ plain s' = plain (put_output block tx transfer s)
  /\ absent (r_transactionHash tx, o_outputInTransaction transfer) s.
Proof.
  intros Hrun Hrec Hf. unfold addTransactionOutput. intros Hret. apply assert_inv in Hret as [_ Hret]. apply outcome_bind_inv in Hret as (out & _ & Hret).
  apply assert_inv in Hret as [_ Hret]. apply assert_inv in Hret as [_ Hret]. destruct (Bool.eqb _ _) eqn:Eq; [| done]. cbn [negb] in Hret.
  apply Bool.eqb_prop in Eq. set (x := output_info block tx transfer) in *. rewrite <- Eq in Hret.
  destruct (Hf (getTransactionOutputKey x) eq_refl) as [Hsp Hside]. unfold put_output. fold x.
  destruct (Z.eqb_spec (bi_height block) WALLET_LEGACY_UNCONFIRMED_TRANSACTION_HEIGHT) as [Hu | Hu].
  - symmetry in Eq. apply Z.eqb_eq in Eq. assert (Habs : absent (getTransactionOutputKey x) s).
    { unfold emplace_unconfirmed in Hret. apply outcome_bind_inv in Hret as (s1 & H1 & _). apply assert_inv in H1 as [H1 _].
      apply bool_decide_eq_true in H1. by split. }
    destruct (step_put_unconfirmed None txs s x Hrun Habs) as (s2 & H2 & Hp & Hrun2); [done | done | by rewrite <- Hu | done |].
    rewrite Hret in H2. injection H2 as ->. split; [done |]. split; [| by split].
    apply (fresh_plain _ _ (put_unconfirmed x s)); [by symmetry |]. intros k Hk. destruct (Hf k Hk). by rewrite Hu, Z.eqb_refl in *.
  - destruct (negb _ && _) eqn:Ek in Hret; [done |]. assert (Hna : m_availableTransfers s !! getTransactionOutputKey x = None).
    { apply outcome_bind_inv in Hret as (s1 & H1 & _). apply outcome_bind_inv in H1 as (s0 & H0 & H1). unfold addUnlockJob in H0. apply assert_inv in H0 as [_ [= <-]].
      unfold emplace_available in H1. apply assert_inv in H1 as [H1 _]. by apply bool_decide_eq_true in H1. }
    symmetry in Eq. apply Z.eqb_neq in Eq. destruct (step_put_available None txs s x Hrun) as (s2 & H2 & Hp & Hrun2); [by split | done | done | done | done | |].
    { intros k y a i Hheld Hd. destruct (target_type (o_target transfer)) eqn:Et; cbn in Ek, Hd; unfold getSpentOutputDescriptor in Hd;
        try (by destruct (o_target transfer)). rewrite bool_decide_eq_false_2 in Ek by done. cbn in Ek.
      rewrite <- Hd. by apply (unknown_descriptor (getSpentOutputDescriptor transfer) s Ek k). }
    destruct (addUnlockJob age x s) as [s0 | | |]; try done. cbn in Hret, H2. destruct (emplace_available x s0) as [s1 | | |]; try done. cbn in Hret, H2.
    rewrite Hret in H2. injection H2 as ->. split; [done |]. split; [| by split].
    apply (fresh_plain _ _ (put_available x s)); [by symmetry |]. intros k Hk. destruct (Hf k Hk) as [? Hs]. rewrite (proj2 (Z.eqb_neq _ _) Hu) in *. by split.
Qed.

Lemma addTransactionOutputs_spec block tx transfers txs s added s' :
  run None txs s -> recorded txs (r_transactionHash tx) (bi_height block) -> fresh block (r_transactionHash tx) s ->
  addTransactionOutputs age block tx transfers s = Ret (added, s') ->
  run None txs s' /\ fresh block (r_transactionHash tx) s' /\ added = negb (bool_decide (transfers = []))
  /\ plain s' = foldl (fun p transfer => put_output block tx transfer p) (plain s) transfers
  /\ (forall transfer, transfer ∈ transfers -> absent (r_transactionHash tx, o_outputInTransaction transfer) s).
Proof.
  revert s added. induction transfers as [| transfer transfers IH]; intros s added Hrun Hrec Hf; cbn [addTransactionOutputs].
  - intros [= <- <-]. split; [done |]. split; [done |]. split; [done |]. split; [done |]. intros t Ht. by apply not_elem_of_nil in Ht.
  - intros Hret. apply outcome_bind_inv in Hret as (s1 & H1 & Hret). apply outcome_bind_inv in Hret as ([b s2] & H2 & [= <- <-]).
    destruct (addTransactionOutput_spec _ _ _ _ _ _ Hrun Hrec Hf H1) as (Hrun1 & Hf1 & Hp1 & Habs).
    destruct (IH _ _ Hrun1 Hrec Hf1 H2) as (Hrun2 & Hf2 & _ & Hp2 & Hall).
    assert (Hputs : plain (put_output block tx transfer s) = put_output block tx transfer (plain s)).
    { unfold put_output. destruct (bi_height block =? UNCONFIRMED); unfold plain; cbn; unfold bare; by rewrite fmap_insert. }
    split; [done |]. split; [done |]. split; [done |]. split; [cbn [foldl]; by rewrite Hp2, Hp1, Hputs |].
    intros t [-> | Ht]%elem_of_cons; [done |]. destruct (Hall t Ht) as (Hu & Ha & Hsp).
    rewrite <- plain_none_unconfirmed, Hp1 in Hu. rewrite <- plain_none_available, Hp1 in Ha. rewrite <- plain_none_spent, Hp1 in Hsp.
    unfold put_output in Hu, Ha, Hsp. split; [| split].
    + rewrite plain_none_unconfirmed in Hu. destruct (bi_height block =? UNCONFIRMED); [| exact Hu]. cbn in Hu. by apply lookup_insert_None in Hu as [? _].
    + rewrite plain_none_available in Ha. destruct (bi_height block =? UNCONFIRMED); [exact Ha |]. cbn in Ha. by apply lookup_insert_None in Ha as [? _].
    + rewrite plain_none_spent in Hsp. destruct (bi_height block =? UNCONFIRMED); exact Hsp.
Qed.

(** * The inputs of a transaction *)

(** The descriptor under which an input looks for its output. *)
Definition input_descriptor (i : TransactionInput) : option SpentOutputDescriptor :=
  match i with
  | InKey k => Some (ByKeyImage (ki_keyImage k))
  | InMultisignature m => Some (ByGlobalIndex (mi_amount m) (mi_outputIndex m))
  | InCommitmentSpend k => Some (ByKeyImage (cs_keyImage k))
  | _ => None
  end.

(** Every available output that the transaction can spend is of an earlier transaction. *)
Definition spendable (txs : list TransactionInformation) (tx : TransactionReader) (s : TransfersContainer) : Prop :=
  forall k x i, m_availableTransfers s !! k = Some x -> i ∈ r_inputs tx -> input_descriptor i = Some (descriptor x) ->
  precedes txs k.1 (r_transactionHash tx).

Definition spent_record (block : TransactionBlockInfo) (tx : TransactionReader) (i : Z) (x : TransactionOutputInformationEx) : SpentTransactionOutput :=
  mkSpentOutput x block (r_transactionHash tx) (u32 i).

Lemma spend_spec block tx i x s s' :
  spend block tx i x s = Ret s' -> s' = spent_now (spent_record block tx i x) s /\ not_spent s (descriptor x).
Proof.
  unfold spend, copyToSpent, emplace_spent. intros Hret. apply outcome_bind_inv in Hret as (s1 & H1 & [= <-]).
  apply assert_inv in H1 as [_ H1]. apply assert_inv in H1 as [_ H1]. apply assert_inv in H1 as [Hb [= <-]].
  apply andb_true_iff in Hb as [_ Hb]. apply bool_decide_eq_true in Hb. split; [done |].
  exact (proj1 (none_spent_with_descriptor _ _) Hb).
Qed.

(** An input spends one available output with its descriptor, or changes nothing. *)
Definition input_effect (block : TransactionBlockInfo) (tx : TransactionReader) (i : Z) (input : TransactionInput) (added : bool) (s s' : TransfersContainer) : Prop :=
  if added then exists x, m_availableTransfers s !! getTransactionOutputKey x = Some x /\ input_descriptor input = Some (descriptor x)
                          /\ plain s' = plain (spent_now (spent_record block tx i x) s)
  else s' = s.

Lemma spend_found txs block tx i input x s s1 :
  run None txs s -> recorded txs (r_transactionHash tx) (bi_height block) -> spendable txs tx s -> input ∈ r_inputs tx ->
  x ∈ (map_to_list (m_availableTransfers s)).*2 -> input_descriptor input = Some (descriptor x) -> spend block tx i x s = Ret s1 ->
  exists s', update_if_key x s1 = Ret s' /\ run None txs s' /\ input_effect block tx i input true s s'.
Proof.
  intros Hrun Hrec Hsp Hin (k & Hk)%elem_of_values Hd (-> & Hn)%spend_spec.
  destruct (core_keyed _ _ _ (proj1 Hrun)) as (_ & Hka & _). pose proof (Hka _ _ Hk) as <-.
  destruct (step_spent None txs s (spent_record block tx i x) Hrun Hk) as (s' & Heq & Hp & Hrun'); [by apply (Hsp _ _ input Hk) | done | done |].
  exists s'. split; [done |]. split; [done |]. by exists x.
Qed.

Lemma findFirstByAmount_elem a l x : findFirstByAmount a l = Some x -> x ∈ l.
Proof. intros Hx%minElement_elem. by apply list_elem_of_filter in Hx as [_ ?]. Qed.

Lemma spend_key_image_spec txs block tx i ki a input s added s' :
  run None txs s -> recorded txs (r_transactionHash tx) (bi_height block) -> spendable txs tx s -> input ∈ r_inputs tx ->
  input_descriptor input = Some (ByKeyImage ki) -> spend_key_image block tx i ki a s = Ret (added, s') ->
  run None txs s' /\ input_effect block tx i input added s s'.
Proof.
  intros Hrun Hrec Hsp Hin Hd. unfold spend_key_image. destruct (negb (bool_decide (spent_with_descriptor _ _ = []))); [done |].
  destruct (bool_decide (with_descriptor _ _ = [])).
  { destruct (negb _); [done |]. intros [= <- <-]. done. }
  destruct (findFirstByAmount _ _) as [x |] eqn:Ef; [| done]. intros Hret. apply outcome_bind_inv in Hret as (s1 & H1 & Hret).
  apply findFirstByAmount_elem in Ef. unfold with_descriptor in Ef. apply list_elem_of_filter in Ef as [Hdx Hx].
  destruct (spend_found txs block tx i input x s s1 Hrun Hrec Hsp Hin Hx) as (s2 & Hup & Hrun2 & Heff); [by rewrite Hdx | done |].
  destruct (key_by_descriptor _ _ Hdx) as [Hkey <-]. rewrite update_if_key_alt, Hkey in Hup. rewrite Hup in Hret. cbn in Hret. by injection Hret as <- <-.
Qed.

Lemma addTransactionInput_spec txs block tx i input s added s' :
  run None txs s -> recorded txs (r_transactionHash tx) (bi_height block) -> spendable txs tx s -> input ∈ r_inputs tx ->
  addTransactionInput block tx i input s = Ret (added, s') -> run None txs s' /\ input_effect block tx i input added s s'.
Proof.
  intros Hrun Hrec Hsp Hin. destruct input as [| k | m | k | |]; cbn [addTransactionInput getTransactionInputType];
    try (rewrite bool_decide_eq_true_2 by done; by intros [= <- <-]); try (rewrite bool_decide_eq_false_2 by done; done).
  - by apply spend_key_image_spec.
  - destruct (minElement _) as [x |] eqn:Em; [| by intros [= <- <-]]. intros Hret. apply outcome_bind_inv in Hret as (s1 & H1 & [= <- <-]).
    apply minElement_elem in Em. unfold with_descriptor in Em. apply list_elem_of_filter in Em as [Hdx Hx].
    destruct (spend_found txs block tx i (InMultisignature m) x s s1 Hrun Hrec Hsp Hin Hx) as (s2 & Hup & Hrun2 & Heff); [by rewrite Hdx | done |].
    rewrite update_if_key_alt in Hup. destruct (is_key x) eqn:Ek; [apply is_key_descriptor in Ek; congruence |]. by injection Hup as <-.
  - by apply spend_key_image_spec.
Qed.

Lemma effect_available block tx i input added s s' k x :
  input_effect block tx i input added s s' -> m_availableTransfers (plain s') !! k = Some x -> m_availableTransfers (plain s) !! k = Some x.
Proof.
  destruct added; [| by intros ->]. intros (z & _ & _ & ->). cbn. unfold bare. rewrite fmap_delete. by intros [_ ?]%lookup_delete_Some.
Qed.

Lemma spendable_less txs tx s s' :
  (forall k x, m_availableTransfers (plain s') !! k = Some x -> m_availableTransfers (plain s) !! k = Some x) -> spendable txs tx s -> spendable txs tx s'.
Proof.
  intros Hle Hsp k x i Hk Hi Hd. assert (m_availableTransfers (plain s') !! k = Some (set_visible true x)) as Hb by (apply bare_lookup; eauto).
  apply Hle in Hb. apply bare_lookup in Hb as (y & Hy & Heq). apply (Hsp k y i Hy Hi). rewrite Hd. change (descriptor x) with (descriptor (set_visible true x)). by rewrite Heq.
Qed.

Lemma effect_log block tx i input added s s' : input_effect block tx i input added s s' -> same_log s s'.
Proof. destruct added; [| by intros ->]. intros (z & _ & _ & Hp). by apply (same_log_plain _ (spent_now (spent_record block tx i z) s)). Qed.

(** From [p] to [p'], outputs of [p] became spent ones, by the transaction [h]; the rest stayed where it was. *)
Definition moved (h : Hash) (p p' : TransfersContainer) : Prop :=
  m_unconfirmedTransfers p' = m_unconfirmedTransfers p
  /\ forall k, (m_availableTransfers p' !! k = m_availableTransfers p !! k /\ m_spentTransfers p' !! k = m_spentTransfers p !! k)
       \/ exists y, m_availableTransfers p !! k = Some (sp_output y) /\ m_availableTransfers p' !! k = None
                 /\ m_spentTransfers p !! k = None /\ m_spentTransfers p' !! k = Some y /\ sp_spendingTransactionHash y = h.

Lemma moved_refl h p : moved h p p.
Proof. split; [done |]. intros k. by left. Qed.

Lemma moved_trans h p1 p2 p3 : moved h p1 p2 -> moved h p2 p3 -> moved h p1 p3.
Proof.
  intros [Hu H12] [Hu' H23]. split; [congruence |]. intros k.
  destruct (H12 k) as [[Ha Hs] | (y & Ha & Ha' & Hs & Hs' & Hh)], (H23 k) as [[Hb Ht] | (z & Hb & Hb' & Ht & Ht' & Hh')].
  - left. split; congruence.
  - right. exists z. repeat split; congruence.
  - right. exists y. repeat split; congruence.
  - congruence.
Qed.

Lemma effect_moved txs block tx i input added s s' :
  core None txs s -> input_effect block tx i input added s s' -> moved (r_transactionHash tx) (plain s) (plain s').
Proof.
  intros Hc. destruct added; [| intros ->; apply moved_refl]. intros (x & Hx & _ & ->).
  split; [done |]. intros k. cbn. unfold bare, bare_spent. rewrite fmap_delete, fmap_insert.
  destruct (decide (getTransactionOutputKey x = k)) as [<- | Hne].
  - right. exists (bare_output (spent_record block tx i x)). rewrite lookup_delete_eq, lookup_insert_eq, !lookup_fmap, Hx.
    destruct (co_apart _ _ _ Hc (getTransactionOutputKey x)) as (_ & _ & [? | Hn]); [congruence |]. by rewrite Hn.
  - left. by rewrite lookup_delete_ne, lookup_insert_ne.
Qed.

(** The outputs that a transaction does not spend stay where they are. *)
Lemma addTransactionInputs_spec txs block tx i inputs s added s' :
  run None txs s -> recorded txs (r_transactionHash tx) (bi_height block) -> spendable txs tx s -> (forall x, x ∈ inputs -> x ∈ r_inputs tx) ->
  addTransactionInputs block tx i inputs s = Ret (added, s') ->
  run None txs s' /\ same_log s s' /\ (added = false -> s' = s) /\ moved (r_transactionHash tx) (plain s) (plain s')
  /\ (forall k x, m_availableTransfers (plain s) !! k = Some x -> (forall input, input ∈ inputs -> input_descriptor input <> Some (descriptor x)) ->
      m_availableTransfers (plain s') !! k = Some x).
Proof.
  revert i s added. induction inputs as [| input inputs IH]; intros i s added Hrun Hrec Hsp Hin; cbn [addTransactionInputs].
  - intros [= <- <-]. split; [done |]. split; [done |]. split; [done |]. split; [apply moved_refl | done].
  - intros Hret. apply outcome_bind_inv in Hret as ([b s1] & H1 & Hret). apply outcome_bind_inv in Hret as ([b' s2] & H2 & [= <- <-]).
    destruct (addTransactionInput_spec txs block tx i input s b s1 Hrun Hrec Hsp (Hin _ ltac:(by left)) H1) as (Hrun1 & Heff).
    assert (Hsp1 : spendable txs tx s1) by (eapply spendable_less; [| exact Hsp]; intros k x; by eapply effect_available).
    destruct (IH _ _ _ Hrun1 Hrec Hsp1 ltac:(intros x Hx; apply Hin; by right) H2) as (Hrun2 & Hlog & Hno & Hmoved & Hkeep).
    split; [done |]. split; [eapply same_log_trans; [by eapply effect_log | done] |]. split; [| split].
    + intros [-> ->]%orb_false_iff. rewrite Hno by done. exact Heff.
    + eapply moved_trans; [eapply effect_moved; [apply Hrun | exact Heff] | done].
    + intros k x Hk Hd. apply Hkeep; [| intros z Hz; apply Hd; by right]. destruct b; [| by rewrite Heff].
      destruct Heff as (z & Hz & Hdz & ->). cbn. unfold bare. rewrite fmap_delete. apply lookup_delete_Some. split; [| exact Hk].
      intros <-. apply (Hd input ltac:(by left)). rewrite Hdz. f_equal. cbn in Hk. apply bare_lookup in Hk as (w & Hw & ->). cbn in Hw. rewrite Hz in Hw. by injection Hw as <-.
Qed.

(** * Whole operations *)

(** What the callers promise: blocks come in order, and a transaction does not spend its own outputs. *)
Definition in_turn (block : TransactionBlockInfo) (s : TransfersContainer) : Prop :=
  bi_height block <= UNCONFIRMED
  /\ forall t, t ∈ m_transactions s -> ti_blockHeight t <> UNCONFIRMED -> ti_blockHeight t <= bi_height block.
Definition own_unspent (tx : TransactionReader) (transfers : list TransactionOutputInformationIn) : Prop :=
  forall transfer i, transfer ∈ transfers -> i ∈ r_inputs tx -> input_descriptor i <> Some (getSpentOutputDescriptor transfer).

Lemma put_outputs_available block tx transfers p k x :
  m_availableTransfers (foldl (fun p transfer => put_output block tx transfer p) p transfers) !! k = Some x ->
  m_availableTransfers p !! k = Some x \/ exists transfer, transfer ∈ transfers /\ x = output_info block tx transfer.
Proof.
  revert p. induction transfers as [| transfer transfers IH]; intros p; cbn [foldl]; [by left |]. intros [Hk | (t & Ht & ->)]%IH.
  - unfold put_output in Hk. destruct (bi_height block =? UNCONFIRMED); [by left |]. apply put_available_lookup in Hk as [[_ <-] | [_ Hk]]; [| by left].
    right. exists transfer. split; [by left | done].
  - right. exists t. split; [by right | done].
Qed.

Lemma put_outputs_keep block tx transfers p k :
  k.1 <> r_transactionHash tx ->
  m_availableTransfers (foldl (fun p transfer => put_output block tx transfer p) p transfers) !! k = m_availableTransfers p !! k
  /\ m_unconfirmedTransfers (foldl (fun p transfer => put_output block tx transfer p) p transfers) !! k = m_unconfirmedTransfers p !! k.
Proof.
  intros Hk. revert p. induction transfers as [| transfer transfers IH]; intros p; cbn [foldl]; [done |].
  destruct (IH (put_output block tx transfer p)) as [-> ->].
  assert (Hne : getTransactionOutputKey (output_info block tx transfer) <> k) by (intros <-; by apply Hk).
  unfold put_output. destruct (bi_height block =? UNCONFIRMED); cbn; by rewrite lookup_insert_ne.
Qed.

Lemma put_outputs_log block tx transfers p : same_log p (foldl (fun p transfer => put_output block tx transfer p) p transfers).
Proof.
  revert p. induction transfers as [| transfer transfers IH]; intros p; cbn [foldl]; [done |]. eapply same_log_trans; [| apply IH].
  unfold put_output. by destruct (bi_height block =? UNCONFIRMED).
Qed.

Lemma new_hash_absent s h : ok s -> h ∉ hashes (m_transactions s) -> (forall k, k.1 = h -> absent k s) /\ forall k y, m_spentTransfers s !! k = Some y -> sp_spendingTransactionHash y <> h.
Proof.
  intros [_ [Hc _]] Hn. split.
  - intros k <-. split; [| split].
    + destruct (m_unconfirmedTransfers s !! k) as [x |] eqn:E; [| done]. destruct (co_unconfirmed _ _ _ Hc _ _ E) as (_ & _ & _ & Hr). by destruct Hn; eapply recorded_elem, Hr.
    + destruct (m_availableTransfers s !! k) as [x |] eqn:E; [| done]. destruct (co_available _ _ _ Hc _ _ E) as (_ & _ & _ & Hr). by destruct Hn; eapply recorded_elem.
    + destruct (m_spentTransfers s !! k) as [x |] eqn:E; [| done]. destruct (co_spent _ _ _ Hc _ _ E) as (_ & _ & _ & Hr & _). by destruct Hn; eapply recorded_elem.
  - intros k y Hk <-. destruct (co_spent _ _ _ Hc _ _ Hk) as (_ & _ & _ & _ & Hp & _). by apply Hn, (precedes_elem _ _ _ Hp).
Qed.

(** The outputs and the inputs of a new transaction, before it is entered into the list. *)
Lemma add_transfers_spec block tx transfers messages s added s1 added' s2 :
  ok s -> in_turn block s -> own_unspent tx transfers -> r_transactionHash tx ∉ hashes (m_transactions s) ->
  addTransactionOutputs age block tx transfers s = Ret (added, s1) -> addTransactionInputs block tx 0 (r_inputs tx) s1 = Ret (added', s2) ->
  let txs := insert_by ti_blockHeight (transaction_information block tx messages) (m_transactions s) in
  log_ok txs /\ run None txs s2 /\ same_log s s2 /\ (added || added' = false -> s2 = s)
  /\ plain s1 = foldl (fun p transfer => put_output block tx transfer p) (plain s) transfers
  /\ moved (r_transactionHash tx) (plain s1) (plain s2)
  /\ (forall k x, m_availableTransfers (plain s1) !! k = Some x -> (forall input, input ∈ r_inputs tx -> input_descriptor input <> Some (descriptor x)) ->
      m_availableTransfers (plain s2) !! k = Some x).
Proof.
  intros Hok [Hmax Hord] Hown Hnew H1 H2 txs. destruct (new_hash_absent _ _ Hok Hnew) as [Habs _]. destruct Hok as [Hlog [Hc Hs]].
  assert (Hrec : recorded txs (r_transactionHash tx) (bi_height block)) by apply (recorded_new (transaction_information block tx messages)).
  assert (Hrun : run None txs s) by (split; [by apply core_log_insert | done]).
  assert (Hf : fresh block (r_transactionHash tx) s).
  { intros k Hk. destruct (Habs k Hk) as (? & ? & ?). by destruct (bi_height block =? UNCONFIRMED). }
  destruct (addTransactionOutputs_spec _ _ _ _ _ _ _ Hrun Hrec Hf H1) as (Hrun1 & _ & Hadded & Hp1 & _).
  assert (Hsp : spendable txs tx s1).
  { intros k x i Hk Hi Hd. assert (m_availableTransfers (plain s1) !! k = Some (set_visible true x)) as Hb by (apply bare_lookup; eauto).
    rewrite Hp1 in Hb. apply put_outputs_available in Hb as [Hb | (transfer & Ht & Heq)].
    - apply bare_lookup in Hb as (y & Hy & _). destruct (co_available _ _ _ Hc _ _ Hy) as (_ & Hne & _ & Hr).
      apply (precedes_new (transaction_information block tx messages) (m_transactions s) k.1 (x_blockHeight y)); [apply Hlog | done |].
      destruct Hr as (t & Ht & _ & Hh). cbn. rewrite <- Hh in Hne |- *. by apply Hord.
    - exfalso. apply (Hown transfer i Ht Hi). rewrite Hd. change (descriptor x) with (descriptor (set_visible true x)). by rewrite Heq. }
  destruct (addTransactionInputs_spec txs block tx 0 (r_inputs tx) s1 added' s2 Hrun1 Hrec Hsp ltac:(done) H2) as (Hrun2 & Hlog2 & Hno & Hmoved & Hkeep).
  split; [by apply log_insert |]. split; [done |]. split; [| split; [| done]].
  - eapply same_log_trans; [| exact Hlog2]. change (same_log (plain s) (plain s1)). rewrite Hp1. apply put_outputs_log.
  - intros [-> ->]%orb_false_iff. rewrite Hno by done. destruct transfers; [| done]. cbn in H1. by injection H1.
Qed.

Lemma doAdvanceHeight_spec height s xs s' : doAdvanceHeight height s = Ret (xs, s') -> m_currentHeight s <= height /\ s' = with_height height s.
Proof.
  unfold doAdvanceHeight. destruct (Z.ltb_spec height (m_currentHeight s)); [done |]. intros Hret. apply outcome_bind_inv in Hret as (a & _ & [= _ <-]). done.
Qed.

Lemma add_transaction_spec block tx transfers messages s added unlocking s' :
  ok s -> in_turn block s -> own_unspent tx transfers -> addTransaction age block tx transfers messages s = Ret (added, unlocking, s') ->
  ok s' /\ (r_transactionHash tx ∉ hashes (m_transactions s))
  /\ m_transactions s' = (if added then insert_by ti_blockHeight (transaction_information block tx messages) (m_transactions s) else m_transactions s)
  /\ m_currentHeight s' = (if bi_height block =? UNCONFIRMED then m_currentHeight s else bi_height block)
  /\ (exists p, p = foldl (fun p transfer => put_output block tx transfer p) (plain s) transfers /\ moved (r_transactionHash tx) p (plain s'))
  /\ (forall k x, m_availableTransfers (plain s) !! k = Some x -> (forall input, input ∈ r_inputs tx -> input_descriptor input <> Some (descriptor x)) ->
      m_availableTransfers (plain s') !! k = Some x).
Proof.
  intros Hok Hord Hown. unfold addTransaction. destruct (bi_height block <? m_currentHeight s); [done |].
  destruct (bool_decide (find_transaction (r_transactionHash tx) s = None)) eqn:Ef; [| done]. cbn [negb].
  apply bool_decide_eq_true, find_transaction_None in Ef. intros Hret.
  apply outcome_bind_inv in Hret as ([added1 s1] & H1 & Hret). apply outcome_bind_inv in Hret as ([added2 s2] & H2 & Hret).
  destruct (add_transfers_spec block tx transfers messages s _ _ _ _ Hok Hord Hown Ef H1 H2) as (Hlog & Hrun & [Htx Hh] & Hno & Hp1 & Hmoved & Hkeep).
  apply outcome_bind_inv in Hret as (s3 & H3 & Hret). apply outcome_bind_inv in Hret as ([xs s4] & H4 & [= <- <- <-]).
  assert (H43 : s4 = with_height (if bi_height block =? UNCONFIRMED then m_currentHeight s3 else bi_height block) s3).
  { destruct (bi_height block =? UNCONFIRMED); cbn [negb] in H4; [injection H4 as _ <-; by destruct s3 | by apply doAdvanceHeight_spec in H4 as [_ ->]]. }
  assert (Hok3 : ok s3 /\ m_transactions s3 = (if added1 || added2 then insert_by ti_blockHeight (transaction_information block tx messages) (m_transactions s) else m_transactions s)
                 /\ m_currentHeight s3 = m_currentHeight s /\ s3 = with_transactions (m_transactions s3) s2).
  { destruct (added1 || added2); [| injection H3 as <-; rewrite (Hno eq_refl); by destruct s].
    unfold addTransactionInfo in H3. apply assert_inv in H3 as [_ [= <-]]. cbn. rewrite Htx. split; [| done].
    split; [done |]. destruct Hrun as [Hc Hs]. split; [by apply core_with_transactions | exact Hs]. }
  destruct Hok3 as (Hok3 & Htx3 & Hh3 & Heq3). rewrite H43. split; [by apply ok_with_height |]. split; [done |]. split; [done |].
  split; [cbn; by rewrite Hh3 |]. rewrite Heq3. split.
  - exists (plain s1). split; [done | exact Hmoved].
  - intros k x Hk Hd. apply Hkeep; [| done]. rewrite Hp1.
    rewrite (proj1 (put_outputs_keep block tx transfers (plain s) k ltac:(intros Heq; apply Ef; rewrite <- Heq;
      destruct Hok as [_ [Hc _]]; apply bare_lookup in Hk as (y & Hy & _); by eapply recorded_elem, (co_available _ _ _ Hc)))). done.
Qed.

(** * Confirming a transaction *)

Lemma confirm_all_spec block h gs txs l s s' :
  run (Some h) txs s -> NoDup (getTransactionOutputKey <$> l) -> recorded txs h (bi_height block) -> bi_height block <> UNCONFIRMED ->
  Forall (fun g => g <> UNCONFIRMED_TRANSACTION_GLOBAL_OUTPUT_INDEX) gs ->
  (forall x, x ∈ l -> m_unconfirmedTransfers (plain s) !! getTransactionOutputKey x = Some (set_visible true x)
                      /\ x_transactionHash x = h /\ (is_key x = false -> x_visible x = true)) ->
  confirm_all age block gs l s = Ret s' ->
  run (Some h) txs s' /\ same_log s s'
  /\ (forall k, m_unconfirmedTransfers (plain s') !! k = if decide (k ∈ getTransactionOutputKey <$> l) then None else m_unconfirmedTransfers (plain s) !! k).
Proof.
  intros Hrun Hnd Hrec Hh Hgs. revert s Hrun. induction l as [| x l IH]; intros s Hrun Hin; cbn [confirm_all].
  - intros [= <-]. split; [done |]. split; [done |]. intros k. by rewrite decide_False by apply not_elem_of_nil.
  - rewrite fmap_cons in Hnd. apply NoDup_cons in Hnd as [Hx Hnd]. intros Hret. apply assert_inv in Hret as [_ Hret]. apply assert_inv in Hret as [_ Hret].
    destruct (_ <=? _); [done |]. apply outcome_bind_inv in Hret as (g & Hg & Hret). destruct (_ && _) eqn:Eknown; [done |].
    destruct (Hin x ltac:(by left)) as (Hux & Hhx & Hvx). destruct (bare_live _ _ Hux) as (x0 & Hx0 & Hk0 & Hi0). rewrite <- Hk0 in Hx0.
    set (x' := confirmed_output block g x) in *.
    assert (Hgne : g <> UNCONFIRMED_TRANSACTION_GLOBAL_OUTPUT_INDEX).
    { apply vec_at_Ret in Hg as [_ Hg]. rewrite Forall_forall in Hgs. apply Hgs. by eapply list_elem_of_lookup_2. }
    destruct (step_confirmed (Some h) txs s x0 x' Hrun Hx0) as (s1 & Hstep & Hp1 & Hrun1); try done.
    + unfold is_key. by rewrite Hi0.
    + unfold is_key, getSpentOutputDescriptor. rewrite Hi0. cbn. by destruct (o_target (x_info x)).
    + unfold is_key. rewrite Hi0. exact Hvx.
    + cbn. by rewrite Hhx.
    + intros k y a i Hheld Hd Hy. assert (Et : target_type (o_target (x_info x)) = OutputMultisignature).
      { unfold getSpentOutputDescriptor in Hd. cbn in Hd. by destruct (o_target (x_info x)). }
      rewrite (bool_decide_eq_true_2 _ Et) in Eknown. cbn in Eknown. apply (unknown_descriptor _ _ Eknown k y Hheld).
      etransitivity; [exact Hy | symmetry; exact Hd].
    + assert (Hret1 : confirm_all age block gs l s1 = Ret s').
      { destruct (addUnlockJob age x' s) as [s2 | | |]; try done. cbn in Hret, Hstep. destruct (emplace_available x' s2) as [s3 | | |]; try done. cbn in Hret, Hstep.
        assert (He : erase_unconfirmed x s3 = erase_unconfirmed x0 s3) by (unfold erase_unconfirmed; by rewrite Hk0). rewrite He, Hstep in Hret. exact Hret. }
      assert (Hpu : m_unconfirmedTransfers (plain s1) = delete (getTransactionOutputKey x) (m_unconfirmedTransfers (plain s))).
      { rewrite Hp1, <- Hk0. apply fmap_delete. }
      destruct (IH Hnd s1 Hrun1) as (Hrun' & Hlog & Hu); [| exact Hret1 |].
      { intros z Hz. destruct (Hin z ltac:(by right)) as (Hz1 & Hz2). split; [| done]. rewrite Hpu, lookup_delete_ne; [done |].
        intros Hk. apply Hx. apply list_elem_of_fmap. by exists z. }
      split; [done |]. split; [eapply same_log_trans; [| exact Hlog]; by apply (same_log_plain _ (confirmed_now x0 x' s)) |].
      intros k. rewrite fmap_cons. by eapply lookup_deleted.
Qed.

Lemma confirm_log txs block t :
  log_ok txs -> t ∈ txs -> bi_height block <= UNCONFIRMED ->
  log_ok (insert_by ti_blockHeight (confirmed_information block t) (filter (fun u => ti_transactionHash u <> ti_transactionHash t) txs)).
Proof.
  intros Hlog Ht Hle. apply log_insert; [by apply log_filter | | done].
  intros (u & Hu & [Hne _]%list_elem_of_filter)%list_elem_of_fmap. by apply Hne.
Qed.

Lemma shown_with_spent block g s d :
  shown s d -> shown (with_spent ((fun y => if decide (sp_spendingTransactionHash y = g)
    then mkSpentOutput (sp_output y) block (sp_spendingTransactionHash y) (sp_inputInTransaction y) else y) <$> m_spentTransfers s) s) d.
Proof.
  intros (Hs & Ha & Hu). set (s' := with_spent _ s).
  assert (Hback : forall k z, m_spentTransfers s' !! k = Some z -> exists y, m_spentTransfers s !! k = Some y /\ sp_output z = sp_output y).
  { intros k z (y & <- & Hk)%lookup_fmap_Some. exists y. split; [done | by case_decide]. }
  assert (Hns : not_spent (plain s) d <-> not_spent (plain s') d).
  { rewrite !plain_not_spent. split; intros H k z Hk Hd.
    - apply Hback in Hk as (y & Hy & Heq). rewrite Heq in Hd. by apply (H k y).
    - destruct (m_spentTransfers s' !! k) as [z' |] eqn:E.
      + pose proof (Hback k z' E) as (y & Hy & Heq). rewrite Hk in Hy. injection Hy as <-. apply (H k z' E). by rewrite Heq.
      + cbn in E. by rewrite lookup_fmap, Hk in E. }
  split; [| split].
  - intros k z Hk Hd. apply Hback in Hk as (y & Hy & Heq). rewrite Heq in *. by apply (Hs k y).
  - intros k x Hk Hd. eapply flag_iff, (Ha k x Hk Hd). unfold first_available. by rewrite Hns.
  - intros k x Hk Hd. eapply flag_iff, (Hu k x Hk Hd). unfold only_unconfirmed. by rewrite Hns.
Qed.

Lemma markTransactionConfirmed_spec block h gs s b s' :
  ok s -> in_turn block s -> Forall (fun g => g <> UNCONFIRMED_TRANSACTION_GLOBAL_OUTPUT_INDEX) gs ->
  markTransactionConfirmed age block h gs s = Ret (b, s') -> ok s' /\ m_currentHeight s' = m_currentHeight s
    /\ (forall t, t ∈ m_transactions s' -> t ∈ m_transactions s \/ (ti_blockHeight t = bi_height block /\ ti_transactionHash t = h)).
Proof.
  intros Hok [Hmax Hord] Hgs. unfold markTransactionConfirmed. destruct (Z.eqb_spec (bi_height block) WALLET_LEGACY_UNCONFIRMED_TRANSACTION_HEIGHT) as [| Hne]; [done |].
  destruct (find_transaction h s) as [t |] eqn:Ef; [| by intros [= <- <-]; eauto].
  destruct (Z.eqb_spec (ti_blockHeight t) WALLET_LEGACY_UNCONFIRMED_TRANSACTION_HEIGHT) as [Htu |]; [| by intros [= <- <-]; eauto]. cbn [negb].
  apply find_transaction_Some in Ef as [Ht <-]. destruct Hok as [Hlog [Hc Hs]].
  set (txs := insert_by ti_blockHeight (confirmed_information block t) (filter (fun u => ti_transactionHash u <> ti_transactionHash t) (m_transactions s))).
  change (m_transactions (erase_transaction (ti_transactionHash t) s)) with (filter (fun u => ti_transactionHash u <> ti_transactionHash t) (m_transactions s)).
  fold txs. intros Hret. apply outcome_bind_inv in Hret as (s1 & H1 & Hret). apply outcome_bind_inv in Hret as (s2 & H2 & [= <- <-]).
  assert (Hrun : run (Some (ti_transactionHash t)) txs (with_transactions txs s)).
  { split; [| exact Hs]. apply core_with_transactions. by apply core_log_confirm. }
  assert (Hrec : recorded txs (ti_transactionHash t) (bi_height block)) by apply (recorded_new (confirmed_information block t)).
  destruct (core_keyed _ _ _ Hc) as (Hku & _ & _). change (m_unconfirmedTransfers (with_transactions txs s)) with (m_unconfirmedTransfers s) in H1.
  assert (Hlist : forall x, x ∈ of_transaction (ti_transactionHash t) (m_unconfirmedTransfers s) ->
    m_unconfirmedTransfers (plain (with_transactions txs s)) !! getTransactionOutputKey x = Some (set_visible true x)
    /\ x_transactionHash x = ti_transactionHash t /\ (is_key x = false -> x_visible x = true)).
  { intros x Hx. split; [by apply (of_transaction_live (ti_transactionHash t)) |]. pose proof Hx as [Hh (k & Hk)%elem_of_values]%list_elem_of_filter. split; [done |].
    intros Hkey. by apply (proj2 (proj2 (visible_without_key s x Hs Hkey)) k). }
  destruct (confirm_all_spec _ _ _ _ _ _ _ Hrun (NoDup_values getTransactionOutputKey _ (fun x => x_transactionHash x = ti_transactionHash t) Hku)
    Hrec Hne Hgs Hlist H1) as (Hrun1 & [Htx1 Hh1] & Hu1).
  unfold confirm_spendings in H2. apply assert_inv in H2 as [_ [= <-]]. split; [| split; [exact Hh1 |]].
  2: { intros u Hu. change (u ∈ m_transactions s1) in Hu. rewrite Htx1 in Hu. change (u ∈ txs) in Hu.
       apply elem_of_insert_by in Hu as [-> | [_ Hu]%list_elem_of_filter]; [by right | by left]. }
  split; [cbn; rewrite Htx1; by apply confirm_log |].
  destruct Hrun1 as [Hc1 Hs1]. split; [| intros d; apply shown_with_spent, Hs1].
  change (m_transactions (with_spent _ s1)) with (m_transactions s1). rewrite Htx1. apply core_confirm_spendings; [exact Hc1 | | exact Hrec].
  intros k Hk. apply plain_none_unconfirmed. rewrite Hu1. destruct (decide _) as [| Hn]; [done |].
  change (k ∉ getTransactionOutputKey <$> of_transaction (ti_transactionHash t) (m_unconfirmedTransfers s)) in Hn. rewrite keys_of_transaction in Hn by done.
  apply plain_none_unconfirmed. change (m_unconfirmedTransfers (with_transactions txs s) !! k) with (m_unconfirmedTransfers s !! k).
  destruct (m_unconfirmedTransfers s !! k) eqn:E; [| done]. destruct Hn. split; [by eexists | done].
Qed.

End Core.
