(* ===== verification/TransfersReach.v ===== *)
(** Containers that the wallet's operations reach, and what their answers are worth: the invariant, detaching,
    the balance, the reports of unlocked outputs, and the deposits whose withdrawal goes unnoticed. *)

From S2P Require Import Prelude Config Currency Types Amounts Transfers TransfersVisibility TransfersInvariant.

Section Reach.
Context (c : Currency) (age now : Z).

Inductive container_reach : TransfersContainer -> Prop :=
| container_new : container_reach newTransfersContainer
| container_add block tx transfers messages s added unlocking s' :
    container_reach s -> in_turn block s -> own_unspent tx transfers ->
    addTransaction age block tx transfers messages s = Ret (added, unlocking, s') -> container_reach s'
| container_delete h s b s' :
    container_reach s -> deleteUnconfirmedTransaction age h s = Ret (b, s') -> container_reach s'
| container_confirm block h globalIndices s b s' :
    container_reach s -> in_turn block s -> Forall (fun g => g <> UNCONFIRMED_TRANSACTION_GLOBAL_OUTPUT_INDEX) globalIndices ->
    markTransactionConfirmed age block h globalIndices s = Ret (b, s') -> container_reach s'
| container_detach height s D locked s' :
    container_reach s -> detach age height s = Ret (D, locked, s') -> container_reach s'
| container_advance height s unlocking s' :
    container_reach s -> advanceHeight height s = Ret (unlocking, s') -> container_reach s'.

Lemma new_container_ok : ok age newTransfersContainer.
Proof.
  assert (Hno : forall {A} (k : TransactionOutputKey) (x : A), ~ (∅ : gmap TransactionOutputKey A) !! k = Some x) by (intros A k x Hk; by rewrite lookup_empty in Hk).
  split; [split; [constructor | constructor | intros t Ht; by apply not_elem_of_nil in Ht] |].
  split; [| intros d; split; [| split]; intros k x Hk; by destruct (Hno _ _ _ Hk)].
  split; try (intros k x Hk; by destruct (Hno _ _ _ Hk)).
  - intros k. split; [| split]; left; apply lookup_empty.
  - intros k k' y y' Hk. by destruct (Hno _ _ _ Hk).
  - constructor.
  - intros j. split; [intros Hj; by apply not_elem_of_nil in Hj | intros (k & x & Hk & _); by destruct (Hno _ _ _ Hk)].
  - intros k k' x x' a i [Hk | (y & Hk & _)]; by destruct (Hno _ _ _ Hk).
Qed.

Lemma detach_inv height s r : detach age height s = Ret r -> height < UNCONFIRMED.
Proof. unfold detach. intros [Hb _]%assert_inv. by apply Z.ltb_lt. Qed.

(** The wallet's container of transfers is consistent, whatever transactions it is given, confirms, drops
    and detaches (blocks come in order, no transaction spends its own outputs).  Its transactions are distinct and ordered by height;
    every output is in one of the three places under its own key and belongs to a transaction of the container
    with its height; a spent output is spent by a later transaction and shares its key image or its global index with no other spent one;
    there is one unlock job for each available output; and the flags show one output per key image: the
    spent one, else the earliest available one, else an unconfirmed one that is alone. *)
Lemma container_reach_ok s : container_reach s -> ok age s.
Proof.
  induction 1 as [| block tx transfers messages s added unlocking s' _ IH Hord Hown Ha | h s b s' _ IH Hd | block h gs s b s' _ IH Hord Hgs Hm
                 | height s D locked s' _ IH Hd | height s xs s' _ IH Ha].
  - apply new_container_ok.
  - by apply add_transaction_spec in Ha as [? _].
  - destruct (deleteUnconfirmedTransaction_spec age h s IH) as (b' & s'' & Hd' & Hok & _). rewrite Hd in Hd'. by injection Hd' as _ ->.
  - by apply markTransactionConfirmed_spec in Hm as [? _].
  - destruct (detach_spec age height s IH (detach_inv _ _ _ Hd)) as (D' & l' & s'' & Hd' & Hok & _). rewrite Hd in Hd'. by injection Hd' as _ _ ->.
  - apply doAdvanceHeight_spec in Ha as [_ ->]. by apply ok_with_height.
Qed.

(** * Detaching *)

Lemma held_bare s k x : held s k x -> held (plain s) k (set_visible true x).
Proof. intros [Hk | (y & Hy & <-)]; [left; apply bare_lookup; eauto | right; exists (bare_output y); split; [apply bare_spent_lookup; eauto | done]]. Qed.

Lemma held_recorded s k x : ok age s -> held (plain s) k x -> recorded (m_transactions s) k.1 (x_blockHeight x) /\ x_blockHeight x <> UNCONFIRMED.
Proof.
  intros [_ [Hc _]] [(y & Hy & ->)%bare_lookup | (y & (z & Hz & ->)%bare_spent_lookup & <-)].
  - by destruct (co_available _ _ _ _ Hc _ _ Hy) as (_ & ? & _ & ?).
  - by destruct (co_spent _ _ _ _ Hc _ _ Hz) as (_ & ? & _ & ? & _).
Qed.

Lemma without_held s D s' k x :
  ok age s -> ok age s' -> m_transactions s' = remaining D (m_transactions s) -> without_all D (plain s) (plain s') ->
  held (plain s') k x <-> held (plain s) k x /\ k.1 ∉ D.
Proof.
  intros Hok Hok' Hrem [_ Hs Ha]. split.
  - intros Hh. assert (Hk : k.1 ∉ D).
    { destruct (held_recorded s' k x Hok' Hh) as [(t & Ht & Hth & _) _]. rewrite Hrem in Ht. apply list_elem_of_filter in Ht as [Ht _]. by rewrite <- Hth. }
    split; [| done]. destruct Hh as [Hh | (y & Hh & <-)].
    + rewrite Ha, decide_False in Hh by done. destruct (m_availableTransfers (plain s) !! k) as [z |] eqn:E; [left; congruence |].
      destruct (m_spentTransfers (plain s) !! k) as [y |] eqn:Es; [| done]. cbn in Hh. case_decide; [| done]. right. exists y. split; [done | congruence].
    + rewrite Hs in Hh. destruct (m_spentTransfers (plain s) !! k) as [z |] eqn:Es; [| done]. cbn in Hh. case_decide; [done |]. right. exists z. split; [done | congruence].
  - intros [[Hh | (y & Hy & <-)] Hk].
    + left. by rewrite Ha, decide_False, Hh.
    + destruct (decide (sp_spendingTransactionHash y ∈ D)) as [HD | HD].
      * destruct (m_availableTransfers (plain s) !! k) as [z |] eqn:E; [| left; rewrite Ha, decide_False, E, Hy by done; cbn; by rewrite decide_True].
        exfalso. destruct Hok as [_ [Hc _]]. destruct (co_apart _ _ _ _ (proj1 (core_plain _ _ _ _) Hc) k) as (_ & _ & [? | ?]); congruence.
      * right. exists y. split; [| done]. rewrite Hs, Hy. cbn. by rewrite decide_False.
Qed.

(** C16: Detaching forgets exactly the blocks from the height on.  On every container that can be reached [detach] ends without a failed
    assertion; the outputs that the wallet has afterwards, available or spent, are those that it had before
    with a height below; what is spent is spent by a transaction that is left; and of the transactions
    those are deleted that are at the height or above, and the unconfirmed ones that spend an output from there. *)
Theorem detach_forgets_exactly height s :
  container_reach s -> height < UNCONFIRMED ->
  exists D locked s', detach age height s = Ret (D, locked, s') /\ ok age s'
    /\ m_currentHeight s' = (if height =? 0 then 0 else height - 1)
    /\ (forall k x, held (plain s') k x <-> held (plain s) k x /\ x_blockHeight x < height)
    /\ (forall k y, m_spentTransfers (plain s') !! k = Some y -> m_spentTransfers (plain s) !! k = Some y /\ sp_spendingTransactionHash y ∈ hashes (m_transactions s'))
    /\ m_transactions s' = remaining D (m_transactions s)
    /\ (forall t, t ∈ m_transactions s -> ti_transactionHash t ∈ D <-> goes height s t).
Proof.
  intros Hok%container_reach_ok Hh. destruct (detach_spec age height s Hok Hh) as (D & locked & s' & Hd & Hok' & Hcur & Hrem & Hw & Hgoes).
  exists D, locked, s'. split; [done |]. split; [done |]. split; [done |]. split; [| split; [| done]].
  - intros k x. rewrite (without_held s D s' k x Hok Hok' Hrem Hw). split; intros [Hheld Hk]; (split; [done |]);
      destruct (held_recorded s k x Hok Hheld) as [(t & Ht & Hth & Htb) Hne].
    + rewrite <- Hth, (Hgoes t Ht) in Hk. unfold goes in Hk. rewrite decide_False in Hk by congruence. lia.
    + rewrite <- Hth, (Hgoes t Ht). unfold goes. rewrite decide_False by congruence. lia.
  - intros k y Hk. split.
    + rewrite (wa_spent _ _ _ Hw) in Hk. destruct (m_spentTransfers (plain s) !! k); [| done]. cbn in Hk. by case_decide.
    + cbn in Hk. apply bare_spent_lookup in Hk as (z & Hz & ->). destruct Hok' as [_ [Hc _]].
      destruct (co_spent _ _ _ _ Hc _ _ Hz) as (_ & _ & _ & _ & Hp & _). by apply (precedes_elem _ _ _ Hp).
Qed.

(** * Receiving and dropping *)

Lemma filter_insert_by x l : ti_transactionHash x ∉ hashes l ->
  filter (fun t => ti_transactionHash t <> ti_transactionHash x) (insert_by ti_blockHeight x l) = l.
Proof.
  induction l as [| t l IH]; cbn [insert_by]; intros Hn.
  - rewrite filter_cons, decide_False by (intros H; by apply H). done.
  - rewrite fmap_cons, not_elem_of_cons in Hn. destruct Hn as [Ht Hn].
    assert (Hl : filter (fun t => ti_transactionHash t <> ti_transactionHash x) l = l).
    { clear IH. induction l as [| u l IH]; [done |]. rewrite fmap_cons, not_elem_of_cons in Hn. destruct Hn as [Hu Hn].
      rewrite filter_cons, decide_True by done. by rewrite IH. }
    destruct (_ <? _); rewrite filter_cons.
    + rewrite decide_False by (intros H; by apply H). rewrite filter_cons, decide_True by done. by rewrite Hl.
    + rewrite decide_True by done. by rewrite IH.
Qed.

Lemma jobs_determined s s' :
  ok age s -> ok age s' -> m_availableTransfers s = m_availableTransfers s' -> m_transfersUnlockJobs s ≡ₚ m_transfersUnlockJobs s'.
Proof.
  intros [_ [Hc _]] [_ [Hc' _]] Heq. apply NoDup_Permutation.
  - eapply NoDup_fmap_1, (co_jobs_distinct _ _ _ _ Hc).
  - eapply NoDup_fmap_1, (co_jobs_distinct _ _ _ _ Hc').
  - intros j. rewrite (co_jobs _ _ _ _ Hc), (co_jobs _ _ _ _ Hc'), Heq. done.
Qed.

Lemma put_outputs_unconfirmed block tx transfers p :
  bi_height block = UNCONFIRMED ->
  let p' := foldl (fun p transfer => put_output age block tx transfer p) p transfers in
  m_availableTransfers p' = m_availableTransfers p /\ m_spentTransfers p' = m_spentTransfers p.
Proof.
  intros Hu. cbv zeta. revert p. induction transfers as [| transfer transfers IH]; intros p; cbn [foldl]; [done |].
  destruct (IH (put_output age block tx transfer p)) as [-> ->]. unfold put_output. by rewrite Hu.
Qed.

(** A transaction that is received from the pool and dropped again leaves no trace.  When an unconfirmed transaction
    was added, whatever it spent and whatever it paid to the wallet, [deleteUnconfirmedTransaction] brings back the
    container as it was: the transactions, the outputs in their three places with their flags, the height, and
    the unlock jobs up to their order. *)
Theorem received_and_dropped block tx transfers messages s unlocking s1 :
  container_reach s -> in_turn block s -> own_unspent tx transfers -> bi_height block = UNCONFIRMED ->
  addTransaction age block tx transfers messages s = Ret (true, unlocking, s1) ->
  exists s2, deleteUnconfirmedTransaction age (r_transactionHash tx) s1 = Ret (true, s2)
    /\ m_transfersUnlockJobs s2 ≡ₚ m_transfersUnlockJobs s /\ with_jobs (m_transfersUnlockJobs s) s2 = s.
Proof.
  intros Hok%container_reach_ok Hord Hown Hu Hadd. set (h := r_transactionHash tx).
  destruct (add_transaction_spec _ _ _ _ _ _ _ _ _ Hok Hord Hown Hadd) as (Hok1 & Hnew & Htx1 & Hh1 & (p & Hp & Hmu & Hmoved) & _).
  set (info := transaction_information block tx messages) in *. destruct (new_hash_absent age s h Hok Hnew) as [Habs Hnosp].
  destruct (put_outputs_unconfirmed block tx transfers (plain s) Hu) as [Hpa Hps]. rewrite <- Hp in Hpa, Hps.
  assert (Ht : info ∈ m_transactions s1) by (rewrite Htx1; apply elem_of_insert_by; by left).
  assert (Hfind : find_transaction h s1 = Some info).
  { destruct (find_transaction h s1) as [t |] eqn:E; [| by apply find_transaction_None in E; destruct E; apply (list_elem_of_fmap_2 ti_transactionHash) in Ht].
    apply find_transaction_Some in E as [Ht' Hth]. f_equal. pose proof (lo_distinct _ (proj1 Hok1)) as Hnd.
    apply list_elem_of_lookup in Ht as [i Hi], Ht' as [j Hj]. assert (i = j) as <-; [| congruence].
    apply (NoDup_lookup (hashes (m_transactions s1)) i j h); [done | |]; rewrite list_lookup_fmap; [by rewrite Hi | by rewrite Hj; cbn; rewrite Hth]. }
  unfold deleteUnconfirmedTransaction. rewrite Hfind. change (ti_blockHeight info) with (bi_height block). rewrite Hu, Z.eqb_refl. cbn [negb].
  destruct (deleteTransactionTransfers_spec age None _ h s1 (proj2 Hok1)) as (s2 & Hdel & Hrun2 & Hw). rewrite Hdel, outcome_bind_ret.
  assert (Hok2 : ok age (erase_transaction h s2)).
  { apply (erase_transaction_ok age h s1 s2 Hok1 Hrun2 Hw). intros k y Hy Hk. by destruct (unconfirmed_unspent age s1 info k y Hok1 Ht Hu Hy). }
  exists (erase_transaction h s2). split; [done |].
  assert (Ha : m_availableTransfers (plain s2) = m_availableTransfers (plain s)).
  { apply map_eq. intros k. rewrite (wo_available _ _ _ Hw), <- Hpa. destruct (decide (k.1 = h)) as [Hk | Hk].
    - rewrite Hpa. symmetry. apply plain_none_available. by apply Habs.
    - destruct (Hmoved k) as [[-> Hs] | (y & Hy & -> & Hns & -> & Hsp)]; [| cbn; by rewrite decide_True, Hy].
      destruct (m_availableTransfers p !! k); [done |]. rewrite Hs, Hps. destruct (m_spentTransfers (plain s) !! k) as [y |] eqn:Ey; [| done].
      cbn. cbn in Ey. apply bare_spent_lookup in Ey as (z & Hz & ->). by rewrite decide_False by apply (Hnosp k z Hz). }
  assert (Hs : m_spentTransfers (plain s2) = m_spentTransfers (plain s)).
  { apply map_eq. intros k. rewrite (wo_spent _ _ _ Hw), <- Hps. destruct (Hmoved k) as [[_ ->] | (y & Hy & _ & -> & -> & Hsp)]; [| cbn; by rewrite decide_True].
    rewrite Hps. destruct (m_spentTransfers (plain s) !! k) as [y |] eqn:Ey; [| done].
    cbn. cbn in Ey. apply bare_spent_lookup in Ey as (z & Hz & ->). by rewrite decide_False by apply (Hnosp k z Hz). }
  assert (Huc : m_unconfirmedTransfers (plain s2) = m_unconfirmedTransfers (plain s)).
  { apply map_eq. intros k. rewrite (wo_unconfirmed _ _ _ Hw). destruct (decide (k.1 = h)) as [Hk | Hk].
    - symmetry. apply plain_none_unconfirmed. by apply Habs.
    - rewrite Hmu, Hp. by apply put_outputs_keep. }
  destruct (wo_log _ _ _ Hw) as [Htx2 Hh2]. change (m_transactions s2 = m_transactions s1) in Htx2. change (m_currentHeight s2 = m_currentHeight s1) in Hh2.
  assert (Htx : m_transactions (erase_transaction h s2) = m_transactions s).
  { change (filter (fun t => ti_transactionHash t <> h) (m_transactions s2) = m_transactions s). rewrite Htx2, Htx1. by apply (filter_insert_by info). }
  rewrite Hu, Z.eqb_refl in Hh1.
  assert (Heq : with_jobs (m_transfersUnlockJobs s) (erase_transaction h s2) = s).
  { apply shown_unique; [| exact (proj2 (proj2 Hok2)) | exact (proj2 (proj2 Hok))]. unfold plain. f_equal; [exact Htx | exact Huc | exact Ha | exact Hs | by rewrite <- Hh1, <- Hh2]. }
  split; [| done]. apply jobs_determined; [done.. |]. exact (f_equal m_availableTransfers Heq).
Qed.

(** * Reports of unlocked outputs *)

Abbreviation unlock_height x := (j_unlockHeight (makeTransferUnlockJob x (u32 age))).

(** An output locked by height (not by time), whose heights fit in 32 bits. *)
Definition locked_by_height (x : TransactionOutputInformationEx) : Prop :=
  0 <= x_unlockTime x < m_maxBlockHeight c /\ 0 <= x_blockHeight x /\ x_blockHeight x + age + 1 < 2 ^ 32
  /\ match has_term x with Some term => 0 <= term /\ x_blockHeight x + term < 2 ^ 32 | None => True end.

(** The job of an output says the same as the balance. *)
Lemma unlock_height_spec s x :
  m_lockedTxAllowedDeltaBlocks c = 1 -> m_maxBlockHeight c <= 2 ^ 32 -> 0 <= age -> 0 <= m_currentHeight s -> m_currentHeight s + 1 < 2 ^ 32 ->
  x_blockHeight x <> UNCONFIRMED -> locked_by_height x ->
  state_of c age now s x = IncludeStateUnlocked <-> unlock_height x <= m_currentHeight s + 1.
Proof.
  intros Hdelta Hmax Hage Hh Hh' Hne (Hut & Hbh & Hfit & Hterm). unfold state_of, isSpendTimeUnlocked, makeTransferUnlockJob.
  rewrite (proj2 (Z.eqb_neq _ _) Hne), Hdelta. cbn [orb j_unlockHeight]. destruct (Z.ltb_spec (x_unlockTime x) (m_maxBlockHeight c)); [| lia].
  rewrite (u64_small (m_currentHeight s + 1)), (u64_small (x_blockHeight x + age)), (u32_small (m_currentHeight s + 1)), (u32_small age) by lia.
  rewrite (u32_small (x_blockHeight x + age + 1)) by lia.
  assert (Hun : u32 (if x_unlockTime x =? 0 then x_blockHeight x else x_unlockTime x) = if x_unlockTime x =? 0 then x_blockHeight x else x_unlockTime x)
    by (apply u32_small; destruct (x_unlockTime x =? 0); lia). rewrite Hun. clear Hun.
  assert (Hdistinct : IncludeStateLocked <> IncludeStateUnlocked /\ IncludeStateSoftLocked <> IncludeStateUnlocked) by done.
  destruct (has_term x) as [term |]; [rewrite (u32_small (x_blockHeight x + term)) by lia |];
    destruct (Z.eqb_spec (x_unlockTime x) 0), (Z.leb_spec (x_unlockTime x) (m_currentHeight s + 1)); cbn [andb negb];
    try (destruct (Z.leb_spec (x_blockHeight x + term) (m_currentHeight s + 1)); cbn [negb]);
    try (destruct (Z.ltb_spec (m_currentHeight s) (x_blockHeight x + age))); split; intros; try tauto; lia.
Qed.

Lemma reported_outputs jobs s xs :
  core age None (m_transactions s) s -> (forall j, j ∈ jobs -> j ∈ m_transfersUnlockJobs s) -> NoDup (j_transactionOutputKey <$> jobs) ->
  available_outputs jobs s = Ret xs ->
  NoDup xs /\ forall x, x ∈ xs <-> m_availableTransfers s !! getTransactionOutputKey x = Some x /\ makeTransferUnlockJob x (u32 age) ∈ jobs.
Proof.
  intros Hc Hin Hnd Hxs. destruct (available_outputs_total age None _ s jobs Hc Hin) as (xs' & Hxs' & Hall). rewrite Hxs in Hxs'. injection Hxs' as <-.
  assert (Hkeys : getTransactionOutputKey <$> xs = j_transactionOutputKey <$> jobs).
  { clear Hxs Hnd Hin. induction Hall as [| j x jobs xs [Hk _] _ IH]; [done |]. rewrite !fmap_cons, IH. f_equal. by apply (co_available _ _ _ _ Hc) in Hk as [? _]. }
  split; [eapply (NoDup_fmap_1 getTransactionOutputKey); by rewrite Hkeys |]. intros x. split.
  - intros Hx. apply list_elem_of_lookup in Hx as [i Hi]. destruct (Forall2_lookup_r _ _ _ _ _ Hall Hi) as (j & Hj & Hk & Hu).
    pose proof (proj1 (co_available _ _ _ _ Hc _ _ Hk)) as Hkey. rewrite Hkey. split; [done |].
    assert (j = makeTransferUnlockJob x (u32 age)) as <-; [| by eapply list_elem_of_lookup_2].
    destruct j as [u k]. cbn in *. unfold makeTransferUnlockJob in *. cbn in Hu. by rewrite Hu, Hkey.
  - intros [Hx Hj]. apply list_elem_of_lookup in Hj as [i Hi]. destruct (Forall2_lookup_l _ _ _ _ _ Hall Hi) as (y & Hy & Hk & _).
    rewrite job_key in Hk. assert (x = y) as -> by congruence. by eapply list_elem_of_lookup_2.
Qed.

(** C18: [advanceHeight] reports exactly what becomes spendable by height.  When a container goes on to a height, the outputs that
    are returned are distinct and available, and an available output that is locked by a height, without wrap-around at 32 bits, is
    among them exactly when the balance did not count it as unlocked before and does afterwards.  The parameters are those of the
    main network: locked transactions are allowed one block early, and an output is spendable after one block or more. *)
Theorem advance_reports_unlocked height s unlocking s' :
  container_reach s -> m_lockedTxAllowedDeltaBlocks c = 1 -> m_maxBlockHeight c <= 2 ^ 32 -> 1 <= age ->
  0 <= m_currentHeight s -> height + 1 < 2 ^ 32 -> advanceHeight height s = Ret (unlocking, s') ->
  NoDup unlocking
  /\ (forall x, x ∈ unlocking -> m_availableTransfers s !! getTransactionOutputKey x = Some x)
  /\ (forall k x, m_availableTransfers s !! k = Some x -> locked_by_height x ->
      x ∈ unlocking <-> state_of c age now s x <> IncludeStateUnlocked /\ state_of c age now s' x = IncludeStateUnlocked).
Proof.
  intros [_ [Hc _]]%container_reach_ok Hdelta Hmax Hage Hcur Hh Hadv. pose proof (doAdvanceHeight_spec _ _ _ _ Hadv) as [Hle ->].
  unfold advanceHeight, doAdvanceHeight, getUnlockingTransfers in Hadv. rewrite (proj2 (Z.ltb_ge _ _) Hle) in Hadv.
  apply outcome_bind_inv in Hadv as (xs & Hxs & [= <-]). set (lo := if m_currentHeight s =? 0 then _ else _) in Hxs.
  assert (Hlo : default (-1) lo = if m_currentHeight s =? 0 then -1 else m_currentHeight s + 1).
  { unfold lo. destruct (m_currentHeight s =? 0); [done |]. cbn. rewrite u32_small; lia. }
  rewrite (u32_small (height + 1)) in Hxs by lia. change (m_transfersUnlockJobs (with_height height s)) with (m_transfersUnlockJobs s) in Hxs.
  apply reported_outputs in Hxs as [Hnd Hel]; [| by apply core_with_height | by intros j [_ ?]%jobs_between_elem |].
  - split; [done |]. split; [intros x Hx; by apply Hel |]. intros k x Hk Hlock. destruct (co_available _ _ _ _ Hc _ _ Hk) as (Hkey & Hne & _).
    rewrite (unlock_height_spec s x), (unlock_height_spec (with_height height s) x), Hel, jobs_between_elem, Hlo by (done || cbn; lia).
    change (m_availableTransfers (with_height height s)) with (m_availableTransfers s). rewrite Hkey, (co_jobs _ _ _ _ Hc). cbn [m_currentHeight with_height].
    assert (Haged : x_blockHeight x + age + 1 <= unlock_height x).
    { destruct Hlock as (_ & Hbh & Hfit & _). unfold makeTransferUnlockJob. cbn. rewrite (u32_small age), (u32_small (x_blockHeight x + age + 1)) by lia. destruct (has_term x); lia. }
    destruct Hlock as (_ & Hbh & _). destruct (Z.eqb_spec (m_currentHeight s) 0); split; intros Hx; (split; [| try split]); try lia; try (by exists k, x); done || lia.
  - apply NoDup_fmap_filter, (co_jobs_distinct _ _ _ _ Hc).
Qed.

(** * The balance *)

Lemma elem_getOutputs flags s x :
  x ∈ getOutputs c age now flags s ->
  x_visible x = true /\ ((exists k, m_availableTransfers s !! k = Some x) \/ (exists k, m_unconfirmedTransfers s !! k = Some x)).
Proof.
  unfold getOutputs. rewrite elem_of_app. intros [[Hv Hx]%list_elem_of_filter | Hx].
  - apply elem_of_values in Hx. apply Is_true_true, andb_true_iff in Hv as [Hv _]. tauto.
  - destruct (has_flag _ _); [| by apply not_elem_of_nil in Hx]. apply list_elem_of_filter in Hx as [Hv Hx]. apply elem_of_values in Hx.
    apply Is_true_true, andb_true_iff in Hv as [Hv _]. tauto.
Qed.

Lemma fold_balance (P : TransactionOutputInformationEx -> bool) l a :
  fold_left (fun amount x => if P x then add_amount x amount else amount) l (u64 a)
  = u64 (a + sumZ (map (fun x => o_amount (x_info x)) (filter P l))).
Proof.
  revert a. induction l as [| x l IH]; intros a; cbn [fold_left]; [by rewrite Z.add_0_r |]. rewrite filter_cons.
  destruct (P x) eqn:E.
  - rewrite decide_True by done. assert (Hadd : add_amount x (u64 a) = u64 (a + o_amount (x_info x))) by (unfold add_amount, u64; apply Zplus_mod_idemp_l).
    rewrite Hadd, IH. cbn [map sumZ foldr]. f_equal. unfold sumZ. lia.
  - rewrite decide_False by (intros []). by rewrite IH.
Qed.

(** C17: the balance counts every key image once.  In every container that can be reached [balance] is the sum
    (at 64 bits) of the outputs that [getOutputs] returns for the same flags; two outputs that are known by key image never share it,
    even when outputs with one key image were received several times; and none that is known by key image has that of a
    spent output.  (Multisignature and commitment outputs are not known by key image; a withdrawn commitment stays in the balance: [commitment_withdrawal_unnoticed].) *)
Theorem balance_counts_once flags s :
  container_reach s ->
  balance c age now flags s = u64 (sumZ (map (fun x => o_amount (x_info x)) (getOutputs c age now flags s)))
  /\ (forall x y ki, x ∈ getOutputs c age now flags s -> y ∈ getOutputs c age now flags s ->
      descriptor x = ByKeyImage ki -> descriptor y = ByKeyImage ki -> x = y)
  /\ (forall x ki k z, x ∈ getOutputs c age now flags s -> descriptor x = ByKeyImage ki ->
      m_spentTransfers s !! k = Some z -> descriptor (sp_output z) <> ByKeyImage ki).
Proof.
  intros [_ [Hc Hs]]%container_reach_ok.
  assert (Havail : forall k x ki, m_availableTransfers s !! k = Some x -> x_visible x = true -> descriptor x = ByKeyImage ki -> first_available (plain s) (ByKeyImage ki) k).
  { intros k x ki Hk Hv Hd. destruct (Hs (ByKeyImage ki)) as (_ & Ha & _). by apply (Ha k x Hk Hd). }
  assert (Hunc : forall k x ki, m_unconfirmedTransfers s !! k = Some x -> x_visible x = true -> descriptor x = ByKeyImage ki -> only_unconfirmed (plain s) (ByKeyImage ki) k).
  { intros k x ki Hk Hv Hd. destruct (Hs (ByKeyImage ki)) as (_ & _ & Hu). by apply (Hu k x Hk Hd). }
  assert (Hbare : forall (m : outputs) k x, m !! k = Some x -> bare m !! k = Some (set_visible true x)) by (intros m k x Hk; apply bare_lookup; eauto).
  split; [| split].
  - unfold balance, getOutputs. change 0 with (u64 0) at 1 2. rewrite fold_balance. destruct (has_flag flags IncludeStateLocked).
    + rewrite fold_balance, map_app. f_equal. rewrite sumZ_app. lia.
    + by rewrite app_nil_r.
  - intros x y ki (Hvx & Hx)%elem_getOutputs (Hvy & Hy)%elem_getOutputs Hdx Hdy.
    destruct Hx as [[k Hx] | [k Hx]], Hy as [[k' Hy] | [k' Hy]].
    + destruct (Havail k x ki Hx Hvx Hdx) as [_ H1], (Havail k' y ki Hy Hvy Hdy) as [_ H2].
      destruct (H1 _ _ _ (Hbare _ _ _ Hx) Hdx (Hbare _ _ _ Hy) Hdy) as [<- | He1]; [congruence |].
      destruct (H2 _ _ _ (Hbare _ _ _ Hy) Hdy (Hbare _ _ _ Hx) Hdx) as [-> | He2]; [congruence |].
      rewrite earlier_plain, earlier_spec in He1, He2. lia.
    + destruct (Hunc k' y ki Hy Hvy Hdy) as (_ & Hna & _). by destruct (Hna k _ (Hbare _ _ _ Hx)).
    + destruct (Hunc k x ki Hx Hvx Hdx) as (_ & Hna & _). by destruct (Hna k' _ (Hbare _ _ _ Hy)).
    + destruct (Hunc k x ki Hx Hvx Hdx) as (_ & _ & Hone). assert (k' = k) as -> by (by apply (Hone k' _ (Hbare _ _ _ Hy))). congruence.
  - intros x ki k z (Hv & Hx)%elem_getOutputs Hd Hz. assert (Hns : not_spent (plain s) (ByKeyImage ki)).
    { destruct Hx as [[k' Hx] | [k' Hx]]; [apply (Havail k' x ki Hx Hv Hd) | apply (Hunc k' x ki Hx Hv Hd)]. }
    exact (proj1 (plain_not_spent _ _) Hns k z Hz).
Qed.

(** * Commitment deposits *)

(** The withdrawal of a commitment deposit goes unnoticed.  An available commitment output stays available,
    unchanged, whatever transaction is added to the container, also one whose input spends the commitment by its key image: the input
    looks for a key output with that image.  The wallet goes on counting the deposit that it has withdrawn. *)
Theorem commitment_withdrawal_unnoticed block tx transfers messages s added unlocking s' k x term :
  container_reach s -> in_turn block s -> own_unspent tx transfers ->
  m_availableTransfers s !! k = Some x -> o_target (x_info x) = CommitmentTarget term ->
  addTransaction age block tx transfers messages s = Ret (added, unlocking, s') ->
  m_availableTransfers s' !! k = Some x /\ m_spentTransfers s' !! k = None.
Proof.
  intros Hok%container_reach_ok Hord Hown Hk Ht Hadd. destruct (add_transaction_spec _ _ _ _ _ _ _ _ _ Hok Hord Hown Hadd) as (Hok' & _ & _ & _ & _ & Hkeep).
  assert (Hkey : is_key x = false) by (unfold is_key; by rewrite Ht).
  assert (Hkept : m_availableTransfers (plain s') !! k = Some (set_visible true x)).
  { apply Hkeep; [apply bare_lookup; eauto |]. intros input _ Hd. unfold getSpentOutputDescriptor in Hd. cbn in Hd. rewrite Ht in Hd. by destruct input. }
  apply bare_lookup in Hkept as (y & Hy & Heq). assert (x = y) as <-.
  { apply set_visible_inj; [done |]. assert (Hi : x_info x = x_info y) by (by injection Heq).
    rewrite (proj1 (proj2 (visible_without_key s x (proj2 (proj2 Hok)) Hkey)) k x Hk eq_refl).
    symmetry. apply (proj1 (proj2 (visible_without_key s' x (proj2 (proj2 Hok')) Hkey)) k y Hy). by rewrite Hi. }
  split; [done |]. destruct (co_apart _ _ _ _ (proj1 (proj2 Hok')) k) as (_ & _ & [? | ?]); [congruence | done].
Qed.

(** A spent output cannot be asked for: the code reads behind the end of another index. *)
Lemma getTransfer_of_spent s k y :
  container_reach s -> m_spentTransfers s !! k = Some y -> getTransfer c age now k.1 k.2 s = Undefined.
Proof.
  intros [_ [Hc _]]%container_reach_ok Hy. destruct (co_apart _ _ _ _ Hc k) as (_ & [Hu | ?] & [Ha | ?]); [| congruence..].
  unfold getTransfer. destruct k as [h i]. cbn [fst snd]. by rewrite Ha, Hu, Hy.
Qed.

End Reach.

(** * A wallet *)

Module WalletDemo.
Definition age : Z := 10.
Definition key_transfer (index gidx amount : Z) (image : Z) : TransactionOutputInformationIn :=
  mkOutputIn (KeyTarget (replicate 32 image)) amount gidx index (replicate 32 7) (replicate 32 image).
Definition commitment_transfer (index gidx amount term image : Z) : TransactionOutputInformationIn :=
  mkOutputIn (CommitmentTarget term) amount gidx index (replicate 32 7) (replicate 32 image).
Definition key_output (amount : Z) : TransactionOutput := mkTransactionOutput amount (OutKey (mkKeyOutput (replicate 32 9))).
Definition commitment_output (amount term : Z) : TransactionOutput :=
  mkTransactionOutput amount (OutCommitment (mkOutputCommitment (replicate 32 8) term (replicate 32 0) (mkMembershipProof [] []))).
Definition reader (hash : Z) (inputs : list TransactionInput) (outs : list TransactionOutput) : TransactionReader :=
  mkReader (replicate 32 hash) (replicate 32 7) 0 None [] inputs 0 outs 0.

(** It receives a coin and makes a deposit of term 7 at height 5. *)
Definition received := reader 1 [InBase (mkBaseInput 5)] [key_output 100; commitment_output 50 7].
Definition its_transfers := [key_transfer 0 40 100 1; commitment_transfer 1 3 50 7 2].
Definition block5 := mkBlockInfo 5 1000 0.
(** Then it spends the coin in a transaction that is still in the pool, *)
Definition spending := reader 2 [InKey (mkKeyInput 100 [40] (replicate 32 1))] [key_output 30].
Definition change := [key_transfer 0 UNCONFIRMED_TRANSACTION_GLOBAL_OUTPUT_INDEX 30 3].
Definition pool := mkBlockInfo UNCONFIRMED 0 0.
(** or withdraws the deposit at height 20. *)
Definition withdrawal := reader 3 [InCommitmentSpend (mkCommitmentSpend 50 [3] (replicate 32 2) 0)] [key_output 50].
Definition paid_back := [key_transfer 0 90 50 4].
Definition block20 := mkBlockInfo 20 2000 1.

Abbreviation added := (outcome (bool * list TransactionOutputInformationEx * TransfersContainer)).
Definition answer (o : added) : option bool := match o with Ret (b, _, _) => Some b | _ => None end.
Definition after (o : added) : TransfersContainer := match o with Ret (_, _, s) => s | _ => newTransfersContainer end.
Definition reported (o : added) : list TransactionOutputInformationEx := match o with Ret (_, xs, _) => xs | _ => [] end.
Lemma added_Ret o b : answer o = Some b -> o = Ret (b, reported o, after o).
Proof. destruct o as [[[b' xs] s] | | |]; cbn; [by intros [= ->] | done..]. Qed.

Definition w1 : TransfersContainer := after (addTransaction age block5 received its_transfers [] newTransfersContainer).
Definition pool_result : added := addTransaction age pool spending change [] w1.
Definition withdrawal_result : added := addTransaction age block20 withdrawal paid_back [] w1.

Lemma distinct_descriptors tx transfers :
  forallb (fun t => forallb (fun i => negb (bool_decide (input_descriptor i = Some (getSpentOutputDescriptor t)))) (r_inputs tx)) transfers = true ->
  own_unspent tx transfers.
Proof.
  rewrite forallb_forall. intros Hall t i Ht Hi Heq. apply list_elem_of_In in Ht, Hi. specialize (Hall t Ht). rewrite forallb_forall in Hall.
  specialize (Hall i Hi). by rewrite bool_decide_eq_true_2 in Hall.
Qed.

Definition order_test (height : Z) (s : TransfersContainer) : bool :=
  forallb (fun t => (ti_blockHeight t =? UNCONFIRMED) || (ti_blockHeight t <=? height)) (m_transactions s).
Lemma in_turn_test block s : bi_height block <= UNCONFIRMED -> order_test (bi_height block) s = true -> in_turn block s.
Proof.
  intros Hle Ht. split; [done |]. intros t Hin Hne. unfold order_test in Ht. rewrite forallb_forall in Ht. apply list_elem_of_In in Hin.
  specialize (Ht t Hin). apply orb_true_iff in Ht as [Ht%Z.eqb_eq | Ht%Z.leb_le]; [done | done].
Qed.

Lemma w1_reached : container_reach age w1.
Proof.
  unfold w1. eapply container_add; [apply container_new | | | apply (added_Ret _ true); vm_compute; reflexivity].
  - apply in_turn_test; [done | reflexivity].
  - apply distinct_descriptors. vm_compute. reflexivity.
Qed.
Lemma pool_order : in_turn pool w1.
Proof. apply in_turn_test; [done | vm_compute; reflexivity]. Qed.
Lemma block20_order : in_turn block20 w1.
Proof. apply in_turn_test; [done | vm_compute; reflexivity]. Qed.
Lemma pool_added : addTransaction age pool spending change [] w1 = Ret (true, reported pool_result, after pool_result).
Proof. apply (added_Ret pool_result true). vm_compute. reflexivity. Qed.
Lemma withdrawal_added : addTransaction age block20 withdrawal paid_back [] w1 = Ret (true, reported withdrawal_result, after withdrawal_result).
Proof. apply (added_Ret withdrawal_result true). vm_compute. reflexivity. Qed.

(** The deposit, as the container holds it. *)
Definition deposit : TransactionOutputInformationEx := output_info block5 received (commitment_transfer 1 3 50 7 2).
Lemma deposit_available : m_availableTransfers w1 !! (replicate 32 1, 1) = Some deposit.
Proof. refine (bool_decide_unpack (m_availableTransfers w1 !! (replicate 32 1, 1) = Some deposit) _). vm_compute. exact I. Qed.
End WalletDemo.

Lemma detach_forgets_exactly_witness :
  size (m_availableTransfers WalletDemo.w1) = 2%nat
  /\ exists D locked s', detach WalletDemo.age 5 WalletDemo.w1 = Ret (D, locked, s') /\ m_currentHeight s' = 4
       /\ (forall k x, held (plain s') k x <-> held (plain WalletDemo.w1) k x /\ x_blockHeight x < 5).
Proof.
  split; [vm_compute; reflexivity |].
  destruct (detach_forgets_exactly WalletDemo.age 5 WalletDemo.w1 WalletDemo.w1_reached) as (D & locked & s' & H1 & _ & H2 & H3 & _); [reflexivity |].
  exists D, locked, s'. split; [exact H1 |]. split; [exact H2 | exact H3].
Defined.

Lemma received_and_dropped_witness :
  size (m_spentTransfers (WalletDemo.after WalletDemo.pool_result)) = 1%nat
  /\ exists s2, deleteUnconfirmedTransaction WalletDemo.age (replicate 32 2) (WalletDemo.after WalletDemo.pool_result) = Ret (true, s2)
       /\ m_transfersUnlockJobs s2 ≡ₚ m_transfersUnlockJobs WalletDemo.w1 /\ with_jobs (m_transfersUnlockJobs WalletDemo.w1) s2 = WalletDemo.w1.
Proof.
  split; [vm_compute; reflexivity |].
  refine (received_and_dropped WalletDemo.age WalletDemo.pool WalletDemo.spending WalletDemo.change [] WalletDemo.w1 _ _ WalletDemo.w1_reached WalletDemo.pool_order
            (WalletDemo.distinct_descriptors _ _ _) _ WalletDemo.pool_added); vm_compute; reflexivity.
Defined.

Lemma commitment_withdrawal_unnoticed_witness :
  m_availableTransfers (WalletDemo.after WalletDemo.withdrawal_result) !! (replicate 32 1, 1) = Some WalletDemo.deposit
  /\ m_spentTransfers (WalletDemo.after WalletDemo.withdrawal_result) !! (replicate 32 1, 1) = None.
Proof.
  refine (commitment_withdrawal_unnoticed WalletDemo.age WalletDemo.block20 WalletDemo.withdrawal WalletDemo.paid_back [] WalletDemo.w1 _ _ _ _ _ 7
            WalletDemo.w1_reached WalletDemo.block20_order (WalletDemo.distinct_descriptors _ _ _) WalletDemo.deposit_available _ WalletDemo.withdrawal_added);
    vm_compute; reflexivity.
Defined.

Lemma balance_counts_once_witness :
  balance mainnet WalletDemo.age 0 (Z.lor IncludeTypeAll IncludeStateAll) WalletDemo.w1 = 150
  /\ balance mainnet WalletDemo.age 0 (Z.lor IncludeTypeAll IncludeStateAll) WalletDemo.w1
     = u64 (sumZ (map (fun x => o_amount (x_info x)) (getOutputs mainnet WalletDemo.age 0 (Z.lor IncludeTypeAll IncludeStateAll) WalletDemo.w1))).
Proof.
  split; [vm_compute; reflexivity |].
  exact (proj1 (balance_counts_once mainnet WalletDemo.age 0 (Z.lor IncludeTypeAll IncludeStateAll) WalletDemo.w1 WalletDemo.w1_reached)).
Defined.

(** At height 15 the coin (and the deposit) can be spent. *)
Lemma advance_reports_unlocked_witness :
  exists unlocking, advanceHeight 15 WalletDemo.w1 = Ret (unlocking, with_height 15 WalletDemo.w1) /\ length unlocking = 2%nat
    /\ (WalletDemo.deposit ∈ unlocking <->
        state_of mainnet WalletDemo.age 0 WalletDemo.w1 WalletDemo.deposit <> IncludeStateUnlocked
        /\ state_of mainnet WalletDemo.age 0 (with_height 15 WalletDemo.w1) WalletDemo.deposit = IncludeStateUnlocked).
Proof.
  destruct (advanceHeight 15 WalletDemo.w1) as [[xs s'] | | |] eqn:E.
  2-4: exfalso; assert (Hr : match advanceHeight 15 WalletDemo.w1 with Ret _ => true | _ => false end = true) by (vm_compute; reflexivity); rewrite E in Hr; discriminate.
  pose proof (doAdvanceHeight_spec _ _ _ _ E) as [_ Hs']. exists xs. split; [by rewrite Hs' |]. split.
  - assert (Hl : match advanceHeight 15 WalletDemo.w1 with Ret (l, _) => length l | _ => 0%nat end = 2%nat) by (vm_compute; reflexivity). by rewrite E in Hl.
  - rewrite <- Hs'. refine (proj2 (proj2 (advance_reports_unlocked mainnet WalletDemo.age 0 15 WalletDemo.w1 xs s' WalletDemo.w1_reached _ _ _ _ _ E)) _ _ WalletDemo.deposit_available _).
    + vm_compute. reflexivity.
    + vm_compute. discriminate.
    + vm_compute. discriminate.
    + vm_compute. discriminate.
    + vm_compute. reflexivity.
    + unfold locked_by_height. repeat split; vm_compute; try reflexivity; discriminate.
Defined.
