(* ===== verification/TransfersConsumer.v ===== *)
(** The consumer of blocks that feeds the wallet's containers, [src/src/Transfers/TransfersConsumer.cpp], with
    [TransfersSubscription.cpp] and the part of [BlockchainSynchronizer.cpp] that drives it: which outputs are the wallet's, what is
    made of them, and in which order transactions reach the containers.

    Elliptic curves and the node's answers are parameters.  The worker threads of [onNewBlocks] look at the
    transactions in any order: a parameter ([schedule]) permutes them.  An [unordered_map] is iterated in the order of the model's map.
    Notifications to observers and log lines are left out; the two global sets of what was seen are part of the state.
    An exception ends an operation; the state that it leaves is in [TransfersExceptions.v]. *)

From S2P Require Import Prelude Config Currency Types Keccak Transfers.
From S2P Require Sync.

(** * Data *)

Record AccountKeys := mkAccountKeys { ak_address : AccountPublicAddress; ak_spendSecretKey : bytes; ak_viewSecretKey : bytes }.
Record SynchronizationStart := mkSyncStart { ss_timestamp : Z; ss_height : Z }.
Record AccountSubscription := mkSubscription { as_keys : AccountKeys; as_syncStart : SynchronizationStart; as_transactionSpendableAge : Z }.
Record TransfersSubscription := mkTransfersSubscription { subscription : AccountSubscription; transfers : TransfersContainer }.

(** The globals [transactions_hash_seen] and [public_keys_seen]. *)
Record Seen := mkSeen { transactions_hash_seen : gset Hash; public_keys_seen : gset bytes }.

Record TransfersConsumer := mkConsumer {
  m_syncStart : SynchronizationStart;
  m_viewSecret : bytes;
  m_subscriptions : gmap bytes TransfersSubscription;
  m_spendKeys : gset bytes;
  m_poolTxs : gset Hash
}.

Record CompleteBlock := mkCompleteBlock { cb_blockHash : Hash; cb_block : option Block; cb_transactions : list TransactionReader }.

Record PreprocessInfo := mkPreprocessInfo { pi_outputs : gmap bytes (list TransactionOutputInformationIn); pi_globalIdxs : list Z }.

Definition WALLET_UNCONFIRMED_TRANSACTION_HEIGHT : Z := UINT32_MAX.
Definition NULL_PUBLIC_KEY : bytes := replicate 32 0.

Definition with_subscriptions (m : gmap bytes TransfersSubscription) (s : TransfersConsumer) : TransfersConsumer :=
  mkConsumer (m_syncStart s) (m_viewSecret s) m (m_spendKeys s) (m_poolTxs s).
Definition with_poolTxs (m : gset Hash) (s : TransfersConsumer) : TransfersConsumer :=
  mkConsumer (m_syncStart s) (m_viewSecret s) (m_subscriptions s) (m_spendKeys s) m.
Definition with_transfers (t : TransfersContainer) (sub : TransfersSubscription) : TransfersSubscription := mkTransfersSubscription (subscription sub) t.

(** * Subscriptions *)

Definition updateSyncStart (s : TransfersConsumer) : TransfersConsumer :=
  let starts := map (fun sub => as_syncStart (subscription sub)) (map_to_list (m_subscriptions s)).*2 in
  mkConsumer (mkSyncStart (foldr (fun x acc => Z.min (ss_timestamp x) acc) UINT64_MAX starts) (foldr (fun x acc => Z.min (ss_height x) acc) UINT64_MAX starts))
    (m_viewSecret s) (m_subscriptions s) (m_spendKeys s) (m_poolTxs s).

Definition newTransfersConsumer (viewSecret : bytes) : TransfersConsumer := updateSyncStart (mkConsumer (mkSyncStart 0 0) viewSecret ∅ ∅ ∅).

Definition addSubscription (sub : AccountSubscription) (s : TransfersConsumer) : outcome TransfersConsumer :=
  if negb (bool_decide (ak_viewSecretKey (as_keys sub) = m_viewSecret s)) then Throw "TransfersConsumer: view secret key mismatch"
  else
    let k := spendPublicKey (ak_address (as_keys sub)) in
    match m_subscriptions s !! k with
    | Some _ => Ret s
    | None =>
        Ret (updateSyncStart
               (mkConsumer (m_syncStart s) (m_viewSecret s) (<[k := mkTransfersSubscription sub newTransfersContainer]> (m_subscriptions s))
                  ({[k]} ∪ m_spendKeys s) (m_poolTxs s)))
    end.

Definition removeSubscription (address : AccountPublicAddress) (s : TransfersConsumer) : bool * TransfersConsumer :=
  let k := spendPublicKey address in
  let s := updateSyncStart (mkConsumer (m_syncStart s) (m_viewSecret s) (delete k (m_subscriptions s)) (m_spendKeys s ∖ {[k]}) (m_poolTxs s)) in
  (bool_decide (m_subscriptions s = ∅), s).

Definition initTransactionPool (uncommitedTransactions : gset Hash) (s : TransfersConsumer) : TransfersConsumer :=
  let unconfirmed := concat (map (fun sub => getUnconfirmedTransactions (transfers sub)) (map_to_list (m_subscriptions s)).*2) in
  with_poolTxs (m_poolTxs s ∪ list_to_set (filter (fun h => h ∉ uncommitedTransactions) unconfirmed)) s.

(** [for (auto& kv : m_subscriptions)] with an action that may change the subscription. *)
Fixpoint for_each (keys : list bytes) (action : bytes -> TransfersSubscription -> outcome TransfersSubscription) (m : gmap bytes TransfersSubscription)
    : outcome (gmap bytes TransfersSubscription) :=
  match keys with
  | [] => Ret m
  | k :: keys =>
      match m !! k with
      | None => for_each keys action m
      | Some sub => sub ← action k sub; for_each keys action (<[k := sub]> m)
      end
  end.

Definition forEachSubscription (action : bytes -> TransfersSubscription -> outcome TransfersSubscription) (s : TransfersConsumer) : outcome TransfersConsumer :=
  m ← for_each (map_to_list (m_subscriptions s)).*1 action (m_subscriptions s);
  Ret (with_subscriptions m s).

Definition age_of (sub : TransfersSubscription) : Z := as_transactionSpendableAge (subscription sub).

(** [TransfersSubscription::onBlockchainDetach], [onError], [advanceHeight] and [deleteUnconfirmedTransaction]. *)
Definition sub_onBlockchainDetach (height : Z) (sub : TransfersSubscription) : outcome TransfersSubscription :=
  '(_, _, t) ← detach (age_of sub) height (transfers sub);
  Ret (with_transfers t sub).
Definition sub_onError (height : Z) (sub : TransfersSubscription) : outcome TransfersSubscription :=
  if negb (height =? WALLET_LEGACY_UNCONFIRMED_TRANSACTION_HEIGHT) then sub_onBlockchainDetach height sub else Ret sub.
Definition sub_advanceHeight (height : Z) (sub : TransfersSubscription) : outcome TransfersSubscription :=
  '(_, t) ← advanceHeight height (transfers sub);
  Ret (with_transfers t sub).
Definition sub_deleteUnconfirmedTransaction (h : Hash) (sub : TransfersSubscription) : outcome TransfersSubscription :=
  '(_, t) ← deleteUnconfirmedTransaction (age_of sub) h (transfers sub);
  Ret (with_transfers t sub).

Definition onBlockchainDetach (height : Z) (s : TransfersConsumer) : outcome TransfersConsumer :=
  forEachSubscription (fun _ => sub_onBlockchainDetach height) s.

(** What is not the consumer's: the curve, the node, the threads. *)
Class Environment := {
  underive_public_key : bytes -> Z -> bytes -> bytes;
  generate_key_derivation : bytes -> bytes -> option bytes;
  (** The key and its image. *)
  deriveCommitmentKeys : bytes -> bytes * bytes;
  (** The one-time public key and the key image. *)
  generate_key_image_helper : AccountKeys -> bytes -> Z -> bytes * bytes;
  (** The node's [getTransactionOutsGlobalIndices]. *)
  getGlobalIndices : Hash -> option (list Z);
  get_messages_from_extra : bytes -> bytes -> bytes -> list bytes;
  (** The order in which the workers take the transactions. *)
  schedule : list (TransactionBlockInfo * TransactionReader) -> list (TransactionBlockInfo * TransactionReader);
  (** What an uninitialised integer holds. *)
  uninitialised : Z
}.

(** What the code relies on: the node gives no index that stands for "unconfirmed", and the workers take what is queued. *)
Class LawfulEnvironment (E : Environment) : Prop := {
  global_indices_confirmed h globalIdxs : getGlobalIndices h = Some globalIdxs -> Forall (fun g => g <> UNCONFIRMED_TRANSACTION_GLOBAL_OUTPUT_INDEX) globalIdxs;
  schedule_permutation items : schedule items ≡ₚ items
}.

Section Consumer.
Context {E : Environment}.

(** * The wallet's outputs *)

(** [depositSecret] from the derivation and the index of the output. *)
Definition le32 (i : Z) : bytes := map (fun n => Z.land (Z.shiftr (u32 i) (8 * n)) 0xff) [0; 1; 2; 3].
Definition depositSecret (derivation : bytes) (idx : Z) : bytes := cn_fast_hash (derivation ++ le32 idx).

Definition push_output (key : bytes) (idx : Z) (outputs : gmap bytes (list Z)) : gmap bytes (list Z) :=
  <[key := default [] (outputs !! key) ++ [u32 idx]]> outputs.

Definition checkOutputKey (derivation key : bytes) (keyIndex outputIndex : Z) (spendKeys : gset bytes) (outputs : gmap bytes (list Z)) : gmap bytes (list Z) :=
  let spendKey := underive_public_key derivation keyIndex key in
  if decide (spendKey ∈ spendKeys) then push_output spendKey outputIndex outputs else outputs.

(** A commitment output goes to the first spend key of the set. *)
Definition find_output (derivation : bytes) (spendKeys : gset bytes) (idx : Z) (out : TransactionOutput) (outputs : gmap bytes (list Z)) : gmap bytes (list Z) :=
  match out_target out with
  | OutKey o => checkOutputKey derivation (ko_key o) idx idx spendKeys outputs
  | OutMultisignature o => fold_left (fun outputs key => checkOutputKey derivation key idx idx spendKeys outputs) (mo_keys o) outputs
  | OutCommitment o =>
      if decide ((deriveCommitmentKeys (depositSecret derivation idx)).1 = oc_commitKey o) then
        match elements spendKeys with [] => outputs | spendKey :: _ => push_output spendKey idx outputs end
      else outputs
  | OutUnified _ => outputs
  end.

Fixpoint find_outputs (derivation : bytes) (spendKeys : gset bytes) (idx : Z) (outs : list TransactionOutput) (outputs : gmap bytes (list Z)) : gmap bytes (list Z) :=
  match outs with
  | [] => outputs
  | out :: outs => find_outputs derivation spendKeys (idx + 1) outs (find_output derivation spendKeys idx out outputs)
  end.

Definition findMyOutputs (tx : TransactionReader) (viewSecretKey : bytes) (spendKeys : gset bytes) : gmap bytes (list Z) :=
  match generate_key_derivation (r_transactionPublicKey tx) viewSecretKey with
  | None => ∅
  | Some derivation => find_outputs derivation spendKeys 0 (r_outputs tx) ∅
  end.

(** * What is made of them *)

(** How [createTransfers] stops before the last output: by an early [return], with an error, or by an exception. *)
Inductive Stop := Returned | OutOfDomain | DuplicateKey.

(** A key of a transaction that was not seen must be new. *)
Definition key_seen (txHash : Hash) (key : bytes) (seen : Seen) : bool :=
  bool_decide (txHash ∉ transactions_hash_seen seen) && bool_decide (key ∈ public_keys_seen seen).
Definition remember (txHash : Hash) (key : bytes) (seen : Seen) (temp_keys : list bytes) : list bytes :=
  if decide (txHash ∈ transactions_hash_seen seen) then temp_keys else temp_keys ++ [key].

(** The loop over the keys of a multisignature output; [None] for the early [return]. *)
Fixpoint multisignature_keys (txHash : Hash) (seen : Seen) (keys temp_keys : list bytes) : option (list bytes) :=
  match keys with
  | [] => Some temp_keys
  | key :: keys =>
      if key_seen txHash key seen then None
      else if bool_decide (txHash ∉ transactions_hash_seen seen) && bool_decide (key ∈ temp_keys) then None
      else multisignature_keys txHash seen keys (remember txHash key seen temp_keys)
  end.

(** One round: the end of the loop, or the transfer (unless the output is skipped) and the keys so far. *)
Definition createTransfer (account : AccountKeys) (block : TransactionBlockInfo) (tx : TransactionReader) (seen : Seen) (globalIdxs : list Z)
    (idx : Z) (temp_keys : list bytes) : outcome (Stop + option TransactionOutputInformationIn * list bytes) :=
  let txHash := r_transactionHash tx in
  let txPubKey := r_transactionPublicKey tx in
  if Z.of_nat (length (r_outputs tx)) <=? idx then Ret (inl OutOfDomain)
  else
    out ← vec_at (r_outputs tx) idx;
    if decide (getTransactionOutputType (out_target out) = OutputInvalid) then Ret (inr (None, temp_keys))
    else
      index ← (if bi_height block =? WALLET_UNCONFIRMED_TRANSACTION_HEIGHT then Ret UNCONFIRMED_TRANSACTION_GLOBAL_OUTPUT_INDEX
               else vec_at globalIdxs idx);
      let info target keyImage := mkOutputIn target (out_amount out) index idx txPubKey keyImage in
      match out_target out with
      | OutKey o =>
          let '(publicKey, keyImage) := generate_key_image_helper account txPubKey idx in
          _ ← assert_ (bool_decide (ko_key o = publicKey));
          if key_seen txHash (ko_key o) seen then Ret (inl DuplicateKey)
          else Ret (inr (Some (info (KeyTarget (ko_key o)) keyImage), remember txHash (ko_key o) seen temp_keys))
      | OutMultisignature o =>
          match multisignature_keys txHash seen (mo_keys o) temp_keys with
          | None => Ret (inl Returned)
          | Some temp_keys => Ret (inr (Some (info (MultisignatureTarget (mo_requiredSignatureCount o) (mo_term o)) []), temp_keys))
          end
      | OutCommitment o =>
          match generate_key_derivation txPubKey (ak_viewSecretKey account) with
          | None => Undefined
          | Some derivation => Ret (inr (Some (info (CommitmentTarget (oc_term o)) (deriveCommitmentKeys (depositSecret derivation idx)).2), temp_keys))
          end
      | OutUnified _ => Ret (inr (None, temp_keys))
      end.

(** [inr] with the keys to remember after the last output. *)
Fixpoint create_loop (account : AccountKeys) (block : TransactionBlockInfo) (tx : TransactionReader) (seen : Seen) (globalIdxs outputs : list Z)
    (temp_keys : list bytes) (transfers : list TransactionOutputInformationIn) : outcome ((Stop + list bytes) * list TransactionOutputInformationIn) :=
  match outputs with
  | [] => Ret (inr temp_keys, transfers)
  | idx :: outputs =>
      r ← createTransfer account block tx seen globalIdxs idx temp_keys;
      match r with
      | inl stop => Ret (inl stop, transfers)
      | inr (info, temp_keys) => create_loop account block tx seen globalIdxs outputs temp_keys (transfers ++ option_list info)
      end
  end.

(** The transfers made are kept however the loop ends; what was seen changes only after the last output. *)
Definition createTransfers (account : AccountKeys) (block : TransactionBlockInfo) (tx : TransactionReader) (globalIdxs outputs : list Z) (seen : Seen)
    : outcome ((Stop + list bytes) * list TransactionOutputInformationIn * Seen) :=
  '(stop, transfers) ← create_loop account block tx seen globalIdxs outputs [] [];
  Ret (stop, transfers,
       match stop with
       | inr temp_keys => mkSeen ({[r_transactionHash tx]} ∪ transactions_hash_seen seen) (list_to_set temp_keys ∪ public_keys_seen seen)
       | inl _ => seen
       end).

(** The loop over the wallet's outputs by spend key; the flag is an error. *)
Fixpoint preprocess_loop (block : TransactionBlockInfo) (tx : TransactionReader) (globalIdxs : list Z) (subscriptions : gmap bytes TransfersSubscription)
    (outputs : list (bytes * list Z)) (info : gmap bytes (list TransactionOutputInformationIn)) (seen : Seen)
    : outcome (bool * gmap bytes (list TransactionOutputInformationIn) * Seen) :=
  match outputs with
  | [] => Ret (false, info, seen)
  | (k, idxs) :: outputs =>
      match subscriptions !! k with
      | None => preprocess_loop block tx globalIdxs subscriptions outputs info seen
      | Some sub =>
          '(stop, transfers, seen) ← createTransfers (as_keys (subscription sub)) block tx globalIdxs idxs seen;
          let info := <[k := transfers]> info in
          match stop with
          | inl OutOfDomain => Ret (true, info, seen)
          | inl DuplicateKey => Ret (false, info, seen)
          | _ => preprocess_loop block tx globalIdxs subscriptions outputs info seen
          end
      end
  end.

Definition preprocessOutputs (block : TransactionBlockInfo) (tx : TransactionReader) (s : TransfersConsumer) (seen : Seen)
    : outcome (bool * PreprocessInfo * Seen) :=
  let outputs := findMyOutputs tx (m_viewSecret s) (m_spendKeys s) in
  if bool_decide (outputs = ∅) then Ret (false, mkPreprocessInfo ∅ [], seen)
  else
    match (if bi_height block =? WALLET_UNCONFIRMED_TRANSACTION_HEIGHT then Some [] else getGlobalIndices (r_transactionHash tx)) with
    | None => Ret (true, mkPreprocessInfo ∅ [], seen)
    | Some globalIdxs =>
        '(failed, info, seen) ← preprocess_loop block tx globalIdxs (m_subscriptions s) (map_to_list outputs) ∅ seen;
        Ret (failed, mkPreprocessInfo info globalIdxs, seen)
    end.

(** * The containers *)

Definition processOutputs (block : TransactionBlockInfo) (tx : TransactionReader) (transfersList : list TransactionOutputInformationIn) (globalIdxs : list Z)
    (sub : TransfersSubscription) : outcome TransfersSubscription :=
  match getTransactionInformation (r_transactionHash tx) (transfers sub) with
  | Some (t, _, _) =>
      if (ti_blockHeight t =? WALLET_UNCONFIRMED_TRANSACTION_HEIGHT) && negb (bi_height block =? WALLET_UNCONFIRMED_TRANSACTION_HEIGHT) then
        '(_, c) ← markTransactionConfirmed (age_of sub) block (r_transactionHash tx) globalIdxs (transfers sub);
        Ret (with_transfers c sub)
      else _ ← assert_ (ti_blockHeight t =? bi_height block); Ret sub
  | None =>
      let messages := get_messages_from_extra (r_extra tx) (r_transactionPublicKey tx) (ak_spendSecretKey (as_keys (subscription sub))) in
      '(_, _, c) ← addTransaction (age_of sub) block tx transfersList messages (transfers sub);
      Ret (with_transfers c sub)
  end.

(** [processTransaction] with the result of [preprocessOutputs], and without it; the flag is an error. *)
Definition process_preprocessed (block : TransactionBlockInfo) (tx : TransactionReader) (info : PreprocessInfo) (s : TransfersConsumer) : outcome TransfersConsumer :=
  forEachSubscription (fun k => processOutputs block tx (default [] (pi_outputs info !! k)) (pi_globalIdxs info)) s.

Definition processTransaction (block : TransactionBlockInfo) (tx : TransactionReader) (s : TransfersConsumer) (seen : Seen) : outcome (bool * TransfersConsumer * Seen) :=
  '(failed, info, seen) ← preprocessOutputs block tx s seen;
  if (failed : bool) then Ret (true, s, seen)
  else s ← process_preprocessed block tx info s; Ret (false, s, seen).

(** * Blocks *)

(** The transactions of a block that are looked at, with their places. *)
Fixpoint block_items (height timestamp index : Z) (txs : list TransactionReader) : list (TransactionBlockInfo * TransactionReader) :=
  match txs with
  | [] => []
  | tx :: txs =>
      let rest := block_items height timestamp (index + 1) txs in
      if decide (r_transactionPublicKey tx = NULL_PUBLIC_KEY) then rest else (mkBlockInfo height timestamp (u32 index), tx) :: rest
  end.

(** What the first thread queues. *)
Fixpoint queued (syncTimestamp startHeight i : Z) (blocks : list CompleteBlock) : list (TransactionBlockInfo * TransactionReader) :=
  match blocks with
  | [] => []
  | b :: blocks =>
      match cb_block b with
      | Some block =>
          if negb (syncTimestamp =? 0) && (b_timestamp block <? syncTimestamp) then []
          else block_items (u32 (startHeight + i)) (b_timestamp block) 0 (cb_transactions b)
      | None => []
      end ++ queued syncTimestamp startHeight (i + 1) blocks
  end.

Abbreviation PreprocessedTx := (TransactionBlockInfo * TransactionReader * PreprocessInfo)%type.

(** The workers; the flag is an error, after which what was preprocessed is not used.  (What those that are still busy then
    add to what was seen is left out.) *)
Fixpoint preprocess_all (items : list (TransactionBlockInfo * TransactionReader)) (s : TransfersConsumer) (seen : Seen)
    : outcome (bool * list PreprocessedTx * Seen) :=
  match items with
  | [] => Ret (false, [], seen)
  | (block, tx) :: items =>
      '(failed, info, seen) ← preprocessOutputs block tx s seen;
      if (failed : bool) then Ret (true, [], seen)
      else '(failed, rest, seen) ← preprocess_all items s seen; Ret (failed, (block, tx, info) :: rest, seen)
  end.

(** The order of [std::sort]: by block height and index in the block. *)
Definition placed_before (a b : PreprocessedTx) : Prop :=
  bi_height a.1.1 < bi_height b.1.1 \/ (bi_height a.1.1 = bi_height b.1.1 /\ bi_transactionIndex a.1.1 <= bi_transactionIndex b.1.1).

#[export] Instance placed_before_dec a b : Decision (placed_before a b).
Proof. unfold placed_before. apply _. Defined.

Fixpoint process_all (l : list PreprocessedTx) (s : TransfersConsumer) : outcome TransfersConsumer :=
  match l with
  | [] => Ret s
  | (block, tx, info) :: l => s ← process_preprocessed block tx info s; process_all l s
  end.

Definition onNewBlocks (blocks : list CompleteBlock) (startHeight : Z) (s : TransfersConsumer) (seen : Seen) : outcome (bool * TransfersConsumer * Seen) :=
  _ ← assert_ (negb (bool_decide (length blocks = 0%nat)));
  '(failed, preprocessed, seen) ← preprocess_all (schedule (queued (ss_timestamp (m_syncStart s)) startHeight 0 blocks)) s seen;
  if (failed : bool) then
    s ← forEachSubscription (fun _ => sub_onError startHeight) s;
    Ret (false, s, seen)
  else
    s ← process_all (merge_sort placed_before preprocessed) s;
    s ← forEachSubscription (fun _ => sub_advanceHeight (u32 (startHeight + Z.of_nat (length blocks) - 1))) s;
    Ret (true, s, seen).

(** * The pool *)

(** The index in the block is never set. *)
Definition unconfirmedBlockInfo : TransactionBlockInfo := mkBlockInfo WALLET_UNCONFIRMED_TRANSACTION_HEIGHT 0 uninitialised.

Fixpoint pool_added (addedTransactions : list TransactionReader) (s : TransfersConsumer) (seen : Seen) : outcome (bool * TransfersConsumer * Seen) :=
  match addedTransactions with
  | [] => Ret (false, s, seen)
  | tx :: addedTransactions =>
      let s := with_poolTxs ({[r_transactionHash tx]} ∪ m_poolTxs s) s in
      '(failed, s, seen) ← processTransaction unconfirmedBlockInfo tx s seen;
      if (failed : bool) then
        s ← forEachSubscription (fun _ => sub_onError WALLET_UNCONFIRMED_TRANSACTION_HEIGHT) s;
        Ret (true, s, seen)
      else pool_added addedTransactions s seen
  end.

Fixpoint pool_deleted (deletedTransactions : list Hash) (s : TransfersConsumer) : outcome TransfersConsumer :=
  match deletedTransactions with
  | [] => Ret s
  | h :: deletedTransactions =>
      s ← forEachSubscription (fun _ => sub_deleteUnconfirmedTransaction h) (with_poolTxs (m_poolTxs s ∖ {[h]}) s);
      pool_deleted deletedTransactions s
  end.

Definition onPoolUpdated (addedTransactions : list TransactionReader) (deletedTransactions : list Hash) (s : TransfersConsumer) (seen : Seen)
    : outcome (bool * TransfersConsumer * Seen) :=
  '(failed, s, seen) ← pool_added addedTransactions s seen;
  if (failed : bool) then Ret (true, s, seen)
  else s ← pool_deleted deletedTransactions s; Ret (false, s, seen).

Definition addUnconfirmedTransaction (tx : TransactionReader) (s : TransfersConsumer) (seen : Seen) : outcome (bool * TransfersConsumer * Seen) :=
  processTransaction (mkBlockInfo WALLET_UNCONFIRMED_TRANSACTION_HEIGHT 0 0) tx s seen.

Definition removeUnconfirmedTransaction (h : Hash) (s : TransfersConsumer) : outcome TransfersConsumer :=
  forEachSubscription (fun _ => sub_deleteUnconfirmedTransaction h) s.

Definition addPublicKeysSeen (transactionHash : Hash) (outputKey : bytes) (seen : Seen) : Seen :=
  mkSeen ({[transactionHash]} ∪ transactions_hash_seen seen) ({[outputKey]} ∪ public_keys_seen seen).

(** * A wallet that follows the node *)

Record Wallet := mkWallet { w_consumer : TransfersConsumer; w_seen : Seen; w_state : Sync.SynchronizationState }.

(** [BlockchainSynchronizer::updateConsumers] with one consumer; [None] is [errorOccurred]. *)
Definition updateConsumers (interval : Sync.BlockchainInterval) (blocks : list CompleteBlock) (w : Wallet) : outcome (option bool * Wallet) :=
  result ← Sync.checkInterval (w_state w) interval;
  w ← (if Sync.detachRequired result then
         s ← onBlockchainDetach (Sync.detachHeight result) (w_consumer w);
         state ← Sync.detach (w_state w) (Sync.detachHeight result);
         Ret (mkWallet s (w_seen w) state)
       else Ret w);
  if Sync.hasNewBlocks result then
    let startOffset := u32 (Sync.newBlockHeight result - Sync.startHeight interval) in
    '(accepted, s, seen) ← onNewBlocks (drop (Z.to_nat startOffset) blocks) (Sync.newBlockHeight result) (w_consumer w) (w_seen w);
    if (accepted : bool) then
      state ← Sync.addBlocks (w_state w) (drop (Z.to_nat startOffset) (Sync.interval_blocks interval)) (Sync.newBlockHeight result);
      Ret (Some true, mkWallet s seen state)
    else Ret (None, mkWallet s seen (w_state w))
  else Ret (Some false, w).

End Consumer.
