(* ===== verification/TransfersWallet.v ===== *)
(** The consumer keeps its containers consistent with each other and with the chain that the synchroniser has followed,
    and what it remembers of output keys it has seen protects those that it remembers. *)

From S2P Require Import Prelude Config Currency Types Keccak Transfers TransfersVisibility TransfersInvariant TransfersReach TransfersConsumer.
From S2P Require Sync.

(** * Going through the subscriptions *)

Lemma for_each_spec keys action m m' k :
  NoDup keys -> for_each keys action m = Ret m' ->
  match m !! k with
  | None => m' !! k = None
  | Some sub => exists sub', m' !! k = Some sub' /\ (if decide (k ∈ keys) then action k sub = Ret sub' else sub' = sub)
  end.
Proof.
  revert m. induction keys as [| key keys IH]; intros m Hnd; cbn [for_each].
  - intros [= <-]. destruct (m !! k) as [sub |]; [| done]. exists sub. by rewrite decide_False by apply not_elem_of_nil.
  - apply NoDup_cons in Hnd as [Hkey Hnd]. destruct (m !! key) as [sub |] eqn:Ekey; intros Hret.
    + apply outcome_bind_inv in Hret as (sub' & Hact & Hret%IH); [| done]. destruct (decide (key = k)) as [<- | Hne].
      * rewrite Ekey. rewrite lookup_insert_eq in Hret. destruct Hret as (sub'' & Hk & Hd). exists sub''. split; [done |].
        rewrite decide_True by apply list_elem_of_here. rewrite decide_False in Hd by done. by rewrite Hd.
      * rewrite lookup_insert_ne in Hret by done. destruct (m !! k) as [sub2 |]; [| done]. destruct Hret as (sub'' & Hk & Hd). exists sub''. split; [done |].
        destruct (decide (k ∈ keys)); [rewrite decide_True by by right | rewrite decide_False by by intros [-> |]%elem_of_cons]; done.
    + apply IH in Hret; [| done]. destruct (m !! k) as [sub2 |] eqn:E; [| done]. destruct Hret as (sub'' & Hk & Hd). exists sub''. split; [done |].
      assert (k <> key) by congruence. destruct (decide (k ∈ keys)); [rewrite decide_True by by right | rewrite decide_False by by intros [-> |]%elem_of_cons]; done.
Qed.

(** Every subscription is given to the action, and nothing else changes. *)
Lemma forEachSubscription_spec action s s' :
  forEachSubscription action s = Ret s' ->
  m_spendKeys s' = m_spendKeys s /\ m_viewSecret s' = m_viewSecret s /\ m_syncStart s' = m_syncStart s /\ m_poolTxs s' = m_poolTxs s
  /\ dom (m_subscriptions s') = dom (m_subscriptions s)
  /\ forall k sub', m_subscriptions s' !! k = Some sub' -> exists sub, m_subscriptions s !! k = Some sub /\ action k sub = Ret sub'.
Proof.
  unfold forEachSubscription. intros (m & Hm & [= <-])%outcome_bind_inv. do 4 (split; [done |]). cbn [m_subscriptions with_subscriptions].
  assert (Hspec : forall k, match m_subscriptions s !! k with
    | None => m !! k = None
    | Some sub => exists sub', m !! k = Some sub' /\ action k sub = Ret sub'
    end).
  { intros k. pose proof (for_each_spec _ _ _ _ k (NoDup_fst_map_to_list (m_subscriptions s)) Hm) as Hk. destruct (m_subscriptions s !! k) as [sub |] eqn:E; [| done].
    destruct Hk as (sub' & Hk & Hd). exists sub'. split; [done |]. rewrite decide_True in Hd; [done |].
    apply list_elem_of_fmap. exists (k, sub). split; [done | by apply elem_of_map_to_list]. }
  split.
  - apply set_eq. intros k. rewrite !elem_of_dom. specialize (Hspec k). destruct (m_subscriptions s !! k).
    + destruct Hspec as (? & -> & _). split; by intros _.
    + by rewrite Hspec.
  - intros k sub' Hk. specialize (Hspec k). destruct (m_subscriptions s !! k) as [sub |]; [| congruence].
    destruct Hspec as (sub'' & Hk' & Ha). exists sub. split; [done |]. rewrite Hk in Hk'. by injection Hk' as ->.
Qed.

(** * The invariant *)

(** The container is consistent and knows blocks below the height only; its confirmed transactions are where [P] says. *)
Record below (P : Hash -> Z -> Prop) (n : Z) (sub : TransfersSubscription) : Prop := {
  be_ok : ok (age_of sub) (transfers sub);
  be_transactions t : t ∈ m_transactions (transfers sub) -> ti_blockHeight t <> UNCONFIRMED ->
    ti_blockHeight t < n /\ P (ti_transactionHash t) (ti_blockHeight t);
  be_current : m_currentHeight (transfers sub) <= Z.max 0 (n - 1)
}.

(** Every subscription has its own key, shares the view key, and is [below] the height. *)
Record consumer_ok (P : Hash -> Z -> Prop) (n : Z) (s : TransfersConsumer) : Prop := {
  cok_keys : m_spendKeys s = dom (m_subscriptions s);
  cok_subscription k sub : m_subscriptions s !! k = Some sub ->
    spendPublicKey (ak_address (as_keys (subscription sub))) = k /\ ak_viewSecretKey (as_keys (subscription sub)) = m_viewSecret s /\ below P n sub
}.

Lemma below_mono (P P' : Hash -> Z -> Prop) n n' sub : n <= n' -> (forall h height, height < n -> P h height -> P' h height) -> below P n sub -> below P' n' sub.
Proof. intros Hn HP [Ho Ht Hc]. split; [done | | lia]. intros t H1 H2. destruct (Ht t H1 H2). split; [lia | by apply HP]. Qed.

Lemma consumer_ok_mono (P P' : Hash -> Z -> Prop) n n' s : n <= n' -> (forall h height, height < n -> P h height -> P' h height) -> consumer_ok P n s -> consumer_ok P' n' s.
Proof. intros Hn HP [Hk Hs]. split; [done |]. intros k sub (? & ? & ?)%Hs. do 2 (split; [done |]). by eapply below_mono. Qed.

Lemma consumer_ok_each P P' n n' action s s' :
  (forall k sub sub', below P n sub -> action k sub = Ret sub' -> below P' n' sub' /\ subscription sub' = subscription sub) ->
  consumer_ok P n s -> forEachSubscription action s = Ret s' -> consumer_ok P' n' s'.
Proof.
  intros Hact [Hk Hs] (Hk' & Hv & _ & _ & Hdom & Hsub)%forEachSubscription_spec. split; [by rewrite Hk', Hk, Hdom |].
  intros k sub' (sub & H1 & H2)%Hsub. destruct (Hs k sub H1) as (? & ? & Hb). destruct (Hact k sub sub' Hb H2) as [? ->]. by rewrite Hv.
Qed.

(** * The operations on one container *)

Section Operations.
Context (P : Hash -> Z -> Prop).

Lemma onBlockchainDetach_below n height sub sub' :
  0 <= height -> below P n sub -> sub_onBlockchainDetach height sub = Ret sub' -> below P height sub' /\ subscription sub' = subscription sub.
Proof.
  intros Hh [Ho Ht _]. unfold sub_onBlockchainDetach. intros ([[D locked] t] & Hd & [= <-])%outcome_bind_inv. split; [| done].
  assert (Hlt : height < UNCONFIRMED) by (unfold detach in Hd; apply assert_inv in Hd as [Hb _]; by apply Z.ltb_lt).
  destruct (detach_spec _ height _ Ho Hlt) as (D' & l' & t' & Hd' & Hok & Hcur & Hrem & _ & Hgoes). rewrite Hd in Hd'. injection Hd' as <- <- <-.
  split; [done | | cbn; rewrite Hcur; zcases].
  cbn. rewrite Hrem. intros u [Hu Hin]%list_elem_of_filter Hne. split; [| by apply Ht].
  rewrite Hgoes in Hu by done. unfold goes in Hu. rewrite decide_False in Hu by done. lia.
Qed.

Lemma advanceHeight_below n height sub sub' :
  n <= height + 1 -> below P n sub -> sub_advanceHeight height sub = Ret sub' -> 0 <= height -> below P (height + 1) sub' /\ subscription sub' = subscription sub.
Proof.
  intros Hn [Ho Ht _]. unfold sub_advanceHeight. intros ([xs t] & Hd & [= <-])%outcome_bind_inv Hh. split; [| done].
  apply doAdvanceHeight_spec in Hd as [_ ->]. split; [by apply ok_with_height | | cbn; lia]. intros u Hu Hne. destruct (Ht u Hu Hne). cbn. split; [lia | done].
Qed.

Lemma deleteUnconfirmed_below n h sub sub' :
  below P n sub -> sub_deleteUnconfirmedTransaction h sub = Ret sub' -> below P n sub' /\ subscription sub' = subscription sub.
Proof.
  intros [Ho Ht Hc]. unfold sub_deleteUnconfirmedTransaction. intros ([b t] & Hd & [= <-])%outcome_bind_inv. split; [| done].
  destruct (deleteUnconfirmedTransaction_spec _ h _ Ho) as (b' & t' & Hd' & Hok & Hcur & Hin). rewrite Hd in Hd'. injection Hd' as <- <-.
  split; [done | | cbn; by rewrite Hcur]. intros u Hu Hne. apply (Ht u); [by apply Hin | done].
Qed.

Lemma onError_below n height sub sub' :
  0 <= height -> n <= height -> below P n sub -> sub_onError height sub = Ret sub' -> below P height sub' /\ subscription sub' = subscription sub.
Proof.
  intros Hh Hn Hb. unfold sub_onError. destruct (negb _); [by apply (onBlockchainDetach_below n) |]. intros [= <-]. split; [by eapply below_mono | done].
Qed.

(** Where a block may stand: in the pool, or not under the blocks that are known. *)
Definition placed (n : Z) (block : TransactionBlockInfo) : Prop :=
  bi_height block = UNCONFIRMED \/ (0 <= bi_height block < UNCONFIRMED /\ n <= bi_height block + 1).
Definition known_after (n : Z) (block : TransactionBlockInfo) : Z := if bi_height block =? UNCONFIRMED then n else bi_height block + 1.

Lemma placed_after n block : placed n block -> n <= known_after n block.
Proof. unfold placed, known_after. intros [-> | [? ?]]; zcases. Qed.

Lemma placed_in_turn n block sub : placed n block -> below P n sub -> in_turn block (transfers sub).
Proof.
  intros Hp [[Hlog _] Ht _]. split; [destruct Hp as [-> | ?]; lia |]. intros t Hin Hne. destruct (Ht t Hin Hne).
  destruct Hp as [-> | Hp]; [by apply Hlog | lia].
Qed.

(** * The operations of the consumer *)

Context `{HE : LawfulEnvironment}.

(** A transaction whose outputs, as they would be credited, are not among those that it spends. *)
Definition spends_others (tx : TransactionReader) : Prop :=
  forall account block globalIdxs outputs seen stop transfers seen',
    createTransfers account block tx globalIdxs outputs seen = Ret (stop, transfers, seen') -> own_unspent tx transfers.

Definition prepared (tx : TransactionReader) (info : PreprocessInfo) : Prop :=
  map_Forall (fun _ => own_unspent tx) (pi_outputs info) /\ Forall (fun g => g <> UNCONFIRMED_TRANSACTION_GLOBAL_OUTPUT_INDEX) (pi_globalIdxs info).

Lemma own_unspent_nil tx : own_unspent tx [].
Proof. intros transfer i Hin. by apply not_elem_of_nil in Hin. Qed.

Lemma preprocess_loop_own block tx globalIdxs subs outputs info seen failed info' seen' :
  spends_others tx -> map_Forall (fun _ => own_unspent tx) info ->
  preprocess_loop block tx globalIdxs subs outputs info seen = Ret (failed, info', seen') -> map_Forall (fun _ => own_unspent tx) info'.
Proof.
  intros Hown. revert info seen. induction outputs as [| [k idxs] outputs IH]; intros info seen Hinfo; cbn [preprocess_loop]; [by intros [= _ <- _] |].
  destruct (subs !! k) as [sub |]; [| by apply IH]. intros ([[stop ts] seen1] & Hc & Hret)%outcome_bind_inv.
  assert (Hinfo' : map_Forall (fun _ => own_unspent tx) (<[k:=ts]> info)) by (apply map_Forall_insert_2; [by eapply Hown | done]).
  destruct stop as [[] |]; [by eapply IH | by injection Hret as _ <- _ | by injection Hret as _ <- _ | by eapply IH].
Qed.

Lemma preprocessOutputs_prepared block tx s seen failed info seen' :
  spends_others tx -> preprocessOutputs block tx s seen = Ret (failed, info, seen') -> prepared tx info.
Proof.
  intros Hown. unfold preprocessOutputs. destruct (bool_decide _); [intros [= _ <- _]; by split; [apply map_Forall_empty |] |].
  destruct (if bi_height block =? _ then Some [] else _) as [globalIdxs |] eqn:Eg; [| intros [= _ <- _]; by split; [apply map_Forall_empty |]].
  intros ([[f i] seen1] & Hl & [= _ <- _])%outcome_bind_inv. split; [by eapply preprocess_loop_own; [| apply map_Forall_empty | exact Hl] |].
  destruct (bi_height block =? _); [by injection Eg as <- | by apply global_indices_confirmed in Eg].
Qed.

Lemma preprocess_all_prepared items s seen failed l seen' :
  Forall (fun item => spends_others item.2) items -> preprocess_all items s seen = Ret (failed, l, seen') ->
  Forall (fun p => prepared p.1.2 p.2 /\ p.1 ∈ items) l.
Proof.
  revert seen failed l seen'. induction items as [| [block tx] items IH]; intros seen failed l seen' Hall; cbn [preprocess_all]; [by intros [= _ <- _] |].
  apply Forall_cons in Hall as [Htx Hall]. intros ([[f info] seen1] & Hp & Hret)%outcome_bind_inv. apply preprocessOutputs_prepared in Hp; [| done].
  destruct f; [by injection Hret as _ <- _ |]. apply outcome_bind_inv in Hret as ([[f rest] seen2] & Hrest & [= _ <- _]). constructor; [split; [done | by left] |].
  eapply Forall_impl; [by eapply IH |]. intros p [? ?]. split; [done | by right].
Qed.

Lemma processOutputs_below n block tx ts globalIdxs sub sub' :
  placed n block -> (bi_height block <> UNCONFIRMED -> P (r_transactionHash tx) (bi_height block)) -> own_unspent tx ts -> Forall (fun g => g <> UNCONFIRMED_TRANSACTION_GLOBAL_OUTPUT_INDEX) globalIdxs ->
  below P n sub -> processOutputs block tx ts globalIdxs sub = Ret sub' -> below P (known_after n block) sub' /\ subscription sub' = subscription sub.
Proof.
  intros Hp HP Hown Hgs Hb. pose proof (placed_in_turn _ _ _ Hp Hb) as Hord. pose proof (placed_after _ _ Hp) as Hle.
  unfold processOutputs. destruct (getTransactionInformation _ _) as [[[t a] b] |]; [destruct (_ && _) eqn:Em |].
  - intros ([f c] & Hm & [= <-])%outcome_bind_inv. split; [| done]. apply andb_true_iff in Em as [_ Hne%negb_true_iff].
    destruct Hb as [Ho Ht Hc]. apply markTransactionConfirmed_spec in Hm as (Hok & Hcur & Hin); [| done..].
    unfold known_after in *. change WALLET_UNCONFIRMED_TRANSACTION_HEIGHT with UNCONFIRMED in Hne. rewrite Hne in *. split; [done | | cbn; lia].
    intros u [Hu | [Hu Huh]]%Hin Hun; [destruct (Ht u Hu Hun); split; [lia | done] |]. rewrite Huh, Hu. split; [lia | apply HP; congruence].
  - intros (_ & _ & [= <-])%outcome_bind_inv. split; [by eapply below_mono | done].
  - intros ([[added unlocking] c] & Ha & [= <-])%outcome_bind_inv. split; [| done]. destruct Hb as [Ho Ht Hc].
    apply add_transaction_spec in Ha as (Hok & _ & Htx & Hcur & _); [| done..]. split; [done | |].
    + cbn. rewrite Htx. intros u Hu Hun. assert (Hcase : u ∈ m_transactions (transfers sub) \/ (ti_blockHeight u = bi_height block /\ ti_transactionHash u = r_transactionHash tx)).
      { destruct added; [| by left]. apply elem_of_insert_by in Hu as [-> | Hu]; [by right | by left]. }
      destruct Hcase as [Hin | [Hh Huh]]; [destruct (Ht u Hin Hun); split; [lia | done] |]. unfold known_after. rewrite Huh, Hh in *. split; [zcases | by apply HP].
    + cbn. rewrite Hcur. unfold known_after. destruct Hp as [-> | Hp]; zcases.
Qed.

Lemma process_preprocessed_ok n block tx info s s' :
  placed n block -> (bi_height block <> UNCONFIRMED -> P (r_transactionHash tx) (bi_height block)) -> prepared tx info ->
  consumer_ok P n s -> process_preprocessed block tx info s = Ret s' -> consumer_ok P (known_after n block) s'.
Proof.
  intros Hp HP [Hi Hg]. apply consumer_ok_each. intros k sub sub' Hb. apply processOutputs_below; [done | done | | done..].
  destruct (pi_outputs info !! k) as [ts |] eqn:Ek; [by apply (Hi k) | apply own_unspent_nil].
Qed.

Lemma process_all_ok n N l s s' :
  Sorted placed_before l -> Forall (fun p => (prepared p.1.2 p.2 /\ P (r_transactionHash p.1.2) (bi_height p.1.1)) /\ 0 <= bi_height p.1.1 < UNCONFIRMED /\ n <= bi_height p.1.1 + 1 <= N) l -> n <= N ->
  consumer_ok P n s -> process_all l s = Ret s' -> exists m, m <= N /\ consumer_ok P m s'.
Proof.
  revert n s. induction l as [| [[block tx] info] l IH]; intros n s Hsort Hall Hn Hs; cbn [process_all]; [intros [= <-]; by exists n |].
  intros (s1 & H1 & H2)%outcome_bind_inv. apply Forall_cons in Hall as [([Hprep HP] & Hh & Hr) Hall]. cbn [fst snd] in *.
  apply (process_preprocessed_ok n) in H1; [| right; lia | done..].
  assert (Hk : known_after n block = bi_height block + 1) by (unfold known_after; zcases). rewrite Hk in H1.
  apply Sorted_StronglySorted in Hsort; [| intros a b c; unfold placed_before; lia].
  inversion Hsort as [| ? ? Hsort' Hfirst]. subst. apply (IH (bi_height block + 1) s1); [by apply StronglySorted_Sorted | | lia | done..].
  apply Forall_and. split; [by eapply Forall_impl; [exact Hall |]; intros p (? & _) |].
  rewrite Forall_forall in Hfirst |- *. intros p Hpin. rewrite Forall_forall in Hall. destruct (Hall p Hpin) as (_ & Hb & Hr').
  specialize (Hfirst p Hpin). unfold placed_before in Hfirst. cbn in Hfirst. lia.
Qed.

Lemma block_items_spec height timestamp index txs block tx :
  (block, tx) ∈ block_items height timestamp index txs -> bi_height block = height /\ tx ∈ txs.
Proof.
  revert index. induction txs as [| t txs IH]; intros index; cbn [block_items]; [by intros ?%not_elem_of_nil |].
  case_decide; [intros [? ?]%IH; split; [done | by right] |].
  intros [[= -> ->] | [? ?]%IH]%elem_of_cons; split; [done | by left | done | by right].
Qed.

Lemma queued_spec syncTimestamp start i blocks block tx :
  0 <= start + i -> start + i + Z.of_nat (length blocks) <= UNCONFIRMED -> (block, tx) ∈ queued syncTimestamp start i blocks ->
  start + i <= bi_height block < start + i + Z.of_nat (length blocks)
  /\ exists b, blocks !! Z.to_nat (bi_height block - (start + i)) = Some b /\ tx ∈ cb_transactions b.
Proof.
  assert (Hmax : UNCONFIRMED = 2 ^ 32 - 1) by reflexivity. revert i. induction blocks as [| b blocks IH]; intros i H0 H1; cbn [queued length] in *;
    [by intros ?%not_elem_of_nil |].
  intros [Hin | Hin]%elem_of_app.
  - destruct (cb_block b) as [bl |]; [| by apply not_elem_of_nil in Hin]. destruct (_ && _); [by apply not_elem_of_nil in Hin |].
    apply block_items_spec in Hin as [-> Hin]. rewrite u32_small by lia. split; [lia |]. exists b. by rewrite Z.sub_diag.
  - apply IH in Hin as [Hh (b' & Hb & Ht)]; [| lia..]. split; [lia |]. exists b'. split; [| done].
    by replace (Z.to_nat (bi_height block - (start + i))) with (S (Z.to_nat (bi_height block - (start + (i + 1))))) by lia.
Qed.

Lemma onNewBlocks_ok blocks start s seen accepted s' seen' :
  0 <= start -> start + Z.of_nat (length blocks) <= UNCONFIRMED -> Forall (fun b => Forall spends_others (cb_transactions b)) blocks ->
  (forall i b tx, blocks !! i = Some b -> tx ∈ cb_transactions b -> P (r_transactionHash tx) (start + Z.of_nat i)) ->
  consumer_ok P start s -> onNewBlocks blocks start s seen = Ret (accepted, s', seen') ->
  consumer_ok P (if (accepted : bool) then start + Z.of_nat (length blocks) else start) s'.
Proof.
  intros H0 Hlen Hblocks HP Hs. unfold onNewBlocks. intros Hret. apply assert_inv in Hret as [Hne Hret].
  assert (Hpos : 0 < Z.of_nat (length blocks)) by (destruct blocks; [done | cbn [length]; lia]). clear Hne.
  apply outcome_bind_inv in Hret as ([[failed l] seen1] & Hp & Hret).
  assert (Hitems : forall item, item ∈ schedule (queued (ss_timestamp (m_syncStart s)) start 0 blocks) ->
    start <= bi_height item.1 < start + Z.of_nat (length blocks) /\ P (r_transactionHash item.2) (bi_height item.1) /\ spends_others item.2).
  { intros [block tx] Hin. rewrite schedule_permutation in Hin. apply queued_spec in Hin as [Hh (b & Hb & Htx)]; [| lia..]. split; [cbn; lia |].
    cbn. split.
    - replace (bi_height block) with (start + Z.of_nat (Z.to_nat (bi_height block - (start + 0)))) by lia. by eapply HP.
    - apply list_elem_of_lookup_2 in Hb. rewrite Forall_forall in Hblocks. specialize (Hblocks b Hb). rewrite Forall_forall in Hblocks. by apply Hblocks. }
  apply preprocess_all_prepared in Hp; [| apply Forall_forall; intros item Hin; by apply Hitems].
  destruct failed.
  - apply outcome_bind_inv in Hret as (s1 & H1 & [= <- <- <-]). revert Hs H1. apply consumer_ok_each. intros _ sub sub' Hb. by apply (onError_below start).
  - apply outcome_bind_inv in Hret as (s1 & H1 & Hret). apply outcome_bind_inv in Hret as (s2 & H2 & [= <- <- <-]).
    apply (process_all_ok start (start + Z.of_nat (length blocks))) in H1 as (m & Hm & H1);
      [| apply Sorted_merge_sort; intros a b; unfold placed_before; lia | | lia | done].
    + assert (Hmax : UNCONFIRMED = 2 ^ 32 - 1) by reflexivity. rewrite u32_small in H2 by lia. revert H1 H2. apply consumer_ok_each. intros _ sub sub' Hb Ha.
      replace (start + Z.of_nat (length blocks)) with (start + Z.of_nat (length blocks) - 1 + 1) by lia. apply (advanceHeight_below m); [lia | done | done | lia].
    + rewrite merge_sort_Permutation. eapply Forall_impl; [exact Hp |]. intros p [Hprep Hin]. destruct (Hitems p.1 Hin) as (Hh & HPp & _). split; [done | lia].
Qed.

Lemma onBlockchainDetach_ok n height s s' : 0 <= height -> consumer_ok P n s -> onBlockchainDetach height s = Ret s' -> consumer_ok P height s'.
Proof. intros Hh. apply consumer_ok_each. intros _ sub sub' Hb. by apply (onBlockchainDetach_below n). Qed.

Lemma with_poolTxs_ok n txs s : consumer_ok P n s -> consumer_ok P n (with_poolTxs txs s).
Proof. by intros [? ?]. Qed.

Lemma processTransaction_ok n block tx s seen failed s' seen' :
  bi_height block = UNCONFIRMED -> spends_others tx -> consumer_ok P n s -> processTransaction block tx s seen = Ret (failed, s', seen') -> consumer_ok P n s'.
Proof.
  intros Hu Hown Hs. unfold processTransaction. intros ([[f info] seen1] & Hp%preprocessOutputs_prepared & Hret)%outcome_bind_inv; [| done].
  destruct f; [by injection Hret as _ <- _ |]. apply outcome_bind_inv in Hret as (s1 & H1 & [= _ <- _]).
  apply (process_preprocessed_ok n) in H1; [| by left | done | done | done]. unfold known_after in H1. by rewrite Hu, Z.eqb_refl in H1.
Qed.

Lemma pool_deleted_ok n hs s s' : consumer_ok P n s -> pool_deleted hs s = Ret s' -> consumer_ok P n s'.
Proof.
  revert s. induction hs as [| h hs IH]; intros s Hs; cbn [pool_deleted]; [by intros [= <-] |].
  intros (s1 & H1 & H2)%outcome_bind_inv. eapply IH, H2. revert H1. apply (consumer_ok_each P P n n); [| by apply with_poolTxs_ok]. intros _ sub sub' Hb. by apply deleteUnconfirmed_below.
Qed.

Lemma pool_added_ok n txs s seen failed s' seen' :
  Forall spends_others txs -> consumer_ok P n s -> pool_added txs s seen = Ret (failed, s', seen') -> consumer_ok P n s'.
Proof.
  intros Hall. revert s seen. induction Hall as [| tx txs Htx _ IH]; intros s seen Hs; cbn [pool_added]; [by intros [= _ <- _] |].
  intros ([[f s1] seen1] & H1 & H2)%outcome_bind_inv. apply (processTransaction_ok n) in H1; [| done | done | by apply with_poolTxs_ok].
  destruct f; [| by eapply IH]. apply outcome_bind_inv in H2 as (s2 & H2 & [= _ <- _]). revert H2. apply (consumer_ok_each P P n n); [| done]. intros _ sub sub' Hb.
  unfold sub_onError. rewrite Z.eqb_refl. cbn [negb]. by intros [= <-].
Qed.

Lemma onPoolUpdated_ok n txs hs s seen failed s' seen' :
  Forall spends_others txs -> consumer_ok P n s -> onPoolUpdated txs hs s seen = Ret (failed, s', seen') -> consumer_ok P n s'.
Proof.
  intros Hall Hs. unfold onPoolUpdated. intros ([[f s1] seen1] & H1%(pool_added_ok n) & H2)%outcome_bind_inv; [| done..].
  destruct f; [by injection H2 as _ <- _ |]. apply outcome_bind_inv in H2 as (s2 & H2 & [= _ <- _]). by eapply pool_deleted_ok.
Qed.

(** * Subscribing *)

Lemma updateSyncStart_ok n s : consumer_ok P n s -> consumer_ok P n (updateSyncStart s).
Proof. by intros [? ?]. Qed.

Lemma new_below n sub : below P n (mkTransfersSubscription sub newTransfersContainer).
Proof. split; [apply new_container_ok | intros t Ht; by apply not_elem_of_nil in Ht | cbn; lia]. Qed.

Lemma newTransfersConsumer_ok n viewSecret : consumer_ok P n (newTransfersConsumer viewSecret).
Proof. split; cbn; [by rewrite dom_empty_L | intros k sub Hk; by rewrite lookup_empty in Hk]. Qed.

Lemma addSubscription_ok n sub s s' : consumer_ok P n s -> addSubscription sub s = Ret s' -> consumer_ok P n s'.
Proof.
  intros [Hk Hs]. unfold addSubscription. destruct (bool_decide _) eqn:Ev; [| done]. apply bool_decide_eq_true in Ev. cbn [negb].
  destruct (m_subscriptions s !! _); [by intros [= <-] |]. intros [= <-]. apply updateSyncStart_ok. split; cbn.
  - by rewrite dom_insert_L, Hk.
  - intros k sub' [[<- <-] | [_ Hl]]%lookup_insert_Some; [| by apply Hs]. split; [done |]. split; [done | apply new_below].
Qed.

Lemma removeSubscription_ok n address s : consumer_ok P n s -> consumer_ok P n (removeSubscription address s).2.
Proof.
  intros [Hk Hs]. cbn [removeSubscription snd]. apply updateSyncStart_ok. split; cbn.
  - by rewrite dom_delete_L, Hk.
  - intros k sub' [_ Hl]%lookup_delete_Some. by apply Hs.
Qed.

End Operations.

(** * Following the node *)

Lemma mismatch_range n i l interval j : Sync.mismatch n i l interval = Ret (Some j) -> i <= j < i + Z.of_nat n.
Proof.
  revert i. induction n as [| n IH]; intros i; cbn [Sync.mismatch]; [done |]. intros (a & _ & (b & _ & Hret)%outcome_bind_inv)%outcome_bind_inv.
  case_decide; [apply IH in Hret; lia | injection Hret as <-; lia].
Qed.

(** The part of an interval that is new. *)
Definition new_part (interval : Sync.BlockchainInterval) (blocks : list CompleteBlock) : Prop :=
  length blocks = length (Sync.interval_blocks interval) /\ 0 <= Sync.startHeight interval
  /\ Sync.startHeight interval + Z.of_nat (length blocks) <= UNCONFIRMED.

Lemma checkInterval_range state interval blocks result :
  new_part interval blocks -> Sync.checkInterval state interval = Ret result ->
  (Sync.detachRequired result = true -> Sync.detachHeight result = Sync.newBlockHeight result /\ Sync.hasNewBlocks result = true)
  /\ (Sync.detachRequired result = false -> Sync.hasNewBlocks result = true -> Sync.newBlockHeight result = Z.of_nat (length (Sync.m_blockchain state)))
  /\ (Sync.hasNewBlocks result = true ->
      Sync.startHeight interval <= Sync.newBlockHeight result < Sync.startHeight interval + Z.of_nat (length blocks)).
Proof.
  intros (Hl & H0 & Hmax). assert (HU : UNCONFIRMED = 2 ^ 32 - 1) by reflexivity. unfold Sync.checkInterval. intros Hret. apply assert_inv in Hret as [Hs%Z.leb_le Hret].
  rewrite <- Hl in Hret. rewrite (u32_small (Z.of_nat (length blocks))) in Hret by lia. rewrite (u32_small (Sync.startHeight interval + _)) in Hret by lia.
  apply outcome_bind_inv in Hret as ([j |] & Hm & Hret).
  - injection Hret as <-. cbn. apply mismatch_range in Hm. split; [done |]. split; [done |]. intros _. lia.
  - destruct (Z.ltb_spec (Z.of_nat (length (Sync.m_blockchain state))) (Sync.startHeight interval + Z.of_nat (length blocks))) as [Hlt | _]; injection Hret as <-; cbn; [| done].
    rewrite u32_small by lia. split; [done |]. split; [done |]. intros _. lia.
Qed.

(** Where a transaction with the hash can be confirmed: [contents] gives the transactions of a block. *)
Definition on_chain (contents : Hash -> list Hash) (chain : list Hash) (h : Hash) (height : Z) : Prop :=
  0 <= height /\ exists b, chain !! Z.to_nat height = Some b /\ h ∈ contents b.

(** The blocks of an answer are those of the interval. *)
Definition faithful (contents : Hash -> list Hash) (interval : Sync.BlockchainInterval) (blocks : list CompleteBlock) : Prop :=
  Forall2 (fun h b => forall tx, tx ∈ cb_transactions b -> r_transactionHash tx ∈ contents h) (Sync.interval_blocks interval) blocks.

Lemma on_chain_take contents chain n h height : height < Z.of_nat n -> on_chain contents chain h height -> on_chain contents (take n chain) h height.
Proof. intros Hlt [H0 (b & Hb & Hh)]. split; [done |]. exists b. split; [| done]. rewrite lookup_take_lt by lia. done. Qed.
Lemma on_chain_app contents chain chain' h height : on_chain contents chain h height -> on_chain contents (chain ++ chain') h height.
Proof. intros [H0 (b & Hb & Hh)]. split; [done |]. exists b. split; [| done]. by apply lookup_app_l_Some. Qed.

Section Following.
Context `{HE : LawfulEnvironment} (contents : Hash -> list Hash).

Definition chain_ok (chain : list Hash) (s : TransfersConsumer) : Prop := consumer_ok (on_chain contents chain) (Z.of_nat (length chain)) s.
Definition wallet_ok (w : Wallet) : Prop := chain_ok (Sync.m_blockchain (w_state w)) (w_consumer w).

(** The detaching, in both forms of the update. *)
Lemma detached_ok result w w' :
  0 <= Sync.detachHeight result -> wallet_ok w ->
  (s ← onBlockchainDetach (Sync.detachHeight result) (w_consumer w);
   state ← Sync.detach (w_state w) (Sync.detachHeight result);
   Ret (mkWallet s (w_seen w) state)) = Ret w' ->
  wallet_ok w' /\ Z.of_nat (length (Sync.m_blockchain (w_state w'))) = Sync.detachHeight result
  /\ Sync.detach (w_state w) (Sync.detachHeight result) = Ret (w_state w').
Proof.
  intros H0 Hw (s & H1 & (state & H2 & [= <-])%outcome_bind_inv)%outcome_bind_inv. pose proof H2 as H3. unfold Sync.detach in H2.
  apply assert_inv in H2 as [Hlt%Z.ltb_lt [= <-]].
  assert (Hlen : Z.of_nat (length (take (Z.to_nat (Sync.detachHeight result)) (Sync.m_blockchain (w_state w)))) = Sync.detachHeight result) by (rewrite length_take; lia).
  split; [| done]. unfold wallet_ok, chain_ok. cbn. rewrite Hlen.
  apply (consumer_ok_mono (on_chain contents (Sync.m_blockchain (w_state w))) _ (Sync.detachHeight result)); [done | | by eapply onBlockchainDetach_ok].
  intros h height Hh. apply on_chain_take. lia.
Qed.

(** The blocks of the answer, on top of the chain. *)
Lemma onNewBlocks_on_chain interval blocks off chain s seen accepted s' seen' :
  Forall2 (fun h b => forall tx, tx ∈ cb_transactions b -> r_transactionHash tx ∈ contents h) (drop off (Sync.interval_blocks interval)) (drop off blocks) ->
  Forall (fun b => Forall spends_others (cb_transactions b)) blocks -> Z.of_nat (length chain) + Z.of_nat (length (drop off blocks)) <= UNCONFIRMED ->
  chain_ok chain s -> onNewBlocks (drop off blocks) (Z.of_nat (length chain)) s seen = Ret (accepted, s', seen') ->
  chain_ok (if (accepted : bool) then chain ++ drop off (Sync.interval_blocks interval) else chain) s'.
Proof.
  intros Hfaith Hown Hmax Hs Hn. pose proof (Forall2_length _ _ _ Hfaith) as Hl.
  apply (onNewBlocks_ok (on_chain contents (chain ++ drop off (Sync.interval_blocks interval)))) in Hn; [| lia | done | by apply Forall_drop | |].
  - unfold chain_ok. destruct accepted; [rewrite length_app, Hl; by replace (Z.of_nat (_ + _)) with (Z.of_nat (length chain) + Z.of_nat (length (drop off blocks))) by lia |].
    eapply consumer_ok_mono; [| | exact Hn]; [done |]. intros h height Hh Hc. rewrite <- (take_app_length chain (drop off (Sync.interval_blocks interval))). apply on_chain_take; [lia | done].
  - intros i b tx Hb Htx. destruct (Forall2_lookup_r _ _ _ _ _ Hfaith Hb) as (h & Hh & Hin). split; [lia |]. exists h. split; [| by apply Hin].
    rewrite lookup_app_r by lia. by replace (Z.to_nat (Z.of_nat (length chain) + Z.of_nat i) - length chain)%nat with i by lia.
  - eapply consumer_ok_mono; [| | exact Hs]; [done |]. intros h height _. apply on_chain_app.
Qed.

Lemma updateConsumers_ok interval blocks w r w' :
  new_part interval blocks -> faithful contents interval blocks -> Forall (fun b => Forall spends_others (cb_transactions b)) blocks ->
  wallet_ok w -> updateConsumers interval blocks w = Ret (r, w') ->
  wallet_ok w' /\ exists answer, Sync.updateConsumer (w_state w) interval answer = Ret (r, w_state w').
Proof.
  intros Hpart Hfaith Hblocks Hw. unfold updateConsumers. intros (result & Hc & (w1 & H1 & Hret)%outcome_bind_inv)%outcome_bind_inv.
  destruct (checkInterval_range _ _ _ _ Hpart Hc) as (Hdet & Hkeep & Hrange). unfold Sync.updateConsumer. rewrite Hc. setoid_rewrite outcome_bind_ret.
  assert (Hstep : wallet_ok w1 /\ (if Sync.detachRequired result then Sync.detach (w_state w) (Sync.detachHeight result) else Ret (w_state w)) = Ret (w_state w1)
                  /\ (Sync.hasNewBlocks result = true -> Sync.newBlockHeight result = Z.of_nat (length (Sync.m_blockchain (w_state w1))))).
  { destruct Hpart as (_ & Hs0 & _). destruct (Sync.detachRequired result).
    - destruct (Hdet eq_refl) as [Heq Hnew]. destruct (Hrange Hnew). apply detached_ok in H1 as (Hok & Hlen & Hd); [| lia | done]. split; [done |]. split; [done |]. intros _. by rewrite Hlen.
    - injection H1 as <-. split; [done |]. split; [done | by apply Hkeep]. }
  destruct Hstep as (Hw1 & -> & Hnew). setoid_rewrite outcome_bind_ret. destruct (Sync.hasNewBlocks result) eqn:En; [| injection Hret as <- <-; split; [done | by exists true]].
  specialize (Hnew eq_refl). specialize (Hrange eq_refl). destruct Hpart as (Hl & Hs0 & Hmax). assert (HU : UNCONFIRMED = 2 ^ 32 - 1) by reflexivity.
  apply outcome_bind_inv in Hret as ([[accepted s] seen] & Hn & Hret). rewrite u32_small in * by lia. rewrite Hnew in Hn at 2.
  apply (onNewBlocks_on_chain interval) in Hn; [| by apply Forall2_drop | done | rewrite length_drop; lia | done].
  destruct accepted.
  - apply outcome_bind_inv in Hret as (state & Ha & [= <- <-]). split; [| exists true; by rewrite Ha].
    unfold Sync.addBlocks in Ha. by apply assert_inv in Ha as [_ [= <-]].
  - injection Hret as <- <-. split; [done | by exists false].
Qed.

(** * Wallets that can be reached

    Other consumers of the process share what was seen: it may change at any time. *)

Inductive wallet_reach : Wallet -> Prop :=
| wallet_new viewSecret genesis seen : wallet_reach (mkWallet (newTransfersConsumer viewSecret) seen (Sync.mkSync [genesis]))
| wallet_seen w seen : wallet_reach w -> wallet_reach (mkWallet (w_consumer w) seen (w_state w))
| wallet_subscribe w sub s : wallet_reach w -> addSubscription sub (w_consumer w) = Ret s -> wallet_reach (mkWallet s (w_seen w) (w_state w))
| wallet_unsubscribe w address : wallet_reach w -> wallet_reach (mkWallet (removeSubscription address (w_consumer w)).2 (w_seen w) (w_state w))
| wallet_update w interval blocks r w' :
    wallet_reach w -> new_part interval blocks -> faithful contents interval blocks -> Forall (fun b => Forall spends_others (cb_transactions b)) blocks ->
    updateConsumers interval blocks w = Ret (r, w') -> wallet_reach w'
| wallet_init_pool w known : wallet_reach w -> wallet_reach (mkWallet (initTransactionPool known (w_consumer w)) (w_seen w) (w_state w))
| wallet_pool w added deleted failed s seen :
    wallet_reach w -> Forall spends_others added -> onPoolUpdated added deleted (w_consumer w) (w_seen w) = Ret (failed, s, seen) ->
    wallet_reach (mkWallet s seen (w_state w))
| wallet_sent w tx failed s seen :
    wallet_reach w -> spends_others tx -> addUnconfirmedTransaction tx (w_consumer w) (w_seen w) = Ret (failed, s, seen) ->
    wallet_reach (mkWallet s seen (w_state w))
| wallet_withdrawn w h s :
    wallet_reach w -> removeUnconfirmedTransaction h (w_consumer w) = Ret s -> wallet_reach (mkWallet s (w_seen w) (w_state w)).

Lemma wallet_reach_ok w : wallet_reach w -> wallet_ok w.
Proof.
  induction 1 as [viewSecret genesis seen | | w sub s _ IH Hs | w address _ IH | w interval blocks r w' _ IH Hp Hf Hb Hu | | w added deleted failed s seen _ IH Hown Hp
                 | w tx failed s seen _ IH Hown Hp | w h s _ IH Hr].
  - apply newTransfersConsumer_ok.
  - done.
  - by eapply addSubscription_ok.
  - by apply removeSubscription_ok.
  - by eapply updateConsumers_ok.
  - by apply with_poolTxs_ok.
  - by eapply onPoolUpdated_ok.
  - eapply processTransaction_ok; [done | | exact Hown | exact IH | exact Hp]. done.
  - unfold wallet_ok, chain_ok. revert IH Hr. apply consumer_ok_each. intros _ sub sub' Hb. by apply deleteUnconfirmed_below.
Qed.

(** C15: A wallet that follows its node shows what its copy of the chain holds, and no more.  Whatever blocks, reorganisations and transactions of the
    pool it is given (by a node that answers for the blocks it names, about transactions that do not spend their own outputs),
    the consumer listens for the spend keys of its subscriptions; each of their containers is consistent; each confirmed
    transaction of a container is one of those of the block that stands at its height in the chain that the synchroniser keeps; and no container has
    advanced past the last block of that chain, so that a next block is never refused for its height. *)
Theorem wallet_shows_chain w :
  wallet_reach w ->
  m_spendKeys (w_consumer w) = dom (m_subscriptions (w_consumer w))
  /\ forall k sub, m_subscriptions (w_consumer w) !! k = Some sub ->
       ok (age_of sub) (transfers sub)
       /\ (forall t, t ∈ m_transactions (transfers sub) -> ti_blockHeight t <> UNCONFIRMED ->
            on_chain contents (Sync.m_blockchain (w_state w)) (ti_transactionHash t) (ti_blockHeight t))
       /\ m_currentHeight (transfers sub) <= Z.max 0 (Z.of_nat (length (Sync.m_blockchain (w_state w))) - 1).
Proof.
  intros [Hk Hs]%wallet_reach_ok. split; [done |]. intros k sub (_ & _ & [Ho Ht Hc])%Hs. split; [done |]. split; [| done].
  intros t Hin Hne. by apply Ht.
Qed.

End Following.

(** * Output keys are credited once

    Two transactions with the same public key can pay to the same one-time key; only one of the two outputs can ever be spent. *)

Section Once.
Context {E : Environment}.

Definition credits (key : bytes) (transfers : list TransactionOutputInformationIn) : Prop :=
  exists transfer, transfer ∈ transfers /\ o_target transfer = KeyTarget key.

Lemma credits_snoc key transfers info :
  credits key (transfers ++ option_list info) <-> credits key transfers \/ exists transfer, info = Some transfer /\ o_target transfer = KeyTarget key.
Proof.
  unfold credits. setoid_rewrite elem_of_app. split.
  - intros (t & [Ht | Ht] & Hk); [left; eauto |]. right. exists t. split; [| done]. destruct info; [| by apply not_elem_of_nil in Ht].
    by apply list_elem_of_singleton in Ht as ->.
  - intros [(t & Ht & Hk) | (t & -> & Hk)]; exists t; (split; [| done]); [by left | right; by apply list_elem_of_singleton].
Qed.

Lemma multisignature_keys_grow h seen keys temp temp' k : multisignature_keys h seen keys temp = Some temp' -> k ∈ temp -> k ∈ temp'.
Proof.
  revert temp. induction keys as [| key keys IH]; intros temp; cbn [multisignature_keys]; [by intros [= <-] |].
  destruct (key_seen h key seen); [done |]. destruct (_ && _); [done |]. intros Hk Hin. apply (IH _ Hk). unfold remember. case_decide; [done |]. apply elem_of_app. by left.
Qed.
Lemma multisignature_keys_known h seen keys temp temp' :
  h ∈ transactions_hash_seen seen -> multisignature_keys h seen keys temp = Some temp' -> temp' = temp.
Proof.
  intros Hh. revert temp. induction keys as [| key keys IH]; intros temp; cbn [multisignature_keys]; [by intros [= <-] |].
  destruct (key_seen h key seen); [done |]. destruct (_ && _); [done |]. intros Hk%IH. rewrite Hk. unfold remember. by rewrite decide_True.
Qed.

(** One round, for a transaction that was not seen and for one that was. *)
Lemma createTransfer_unseen account block tx seen globalIdxs idx temp info temp' :
  r_transactionHash tx ∉ transactions_hash_seen seen -> createTransfer account block tx seen globalIdxs idx temp = Ret (inr (info, temp')) ->
  (forall k, k ∈ temp -> k ∈ temp') /\ (forall transfer key, info = Some transfer -> o_target transfer = KeyTarget key -> (key ∉ public_keys_seen seen) /\ key ∈ temp').
Proof.
  intros Hh. unfold createTransfer. destruct (_ <=? idx); [done |]. intros (out & _ & Hret)%outcome_bind_inv. case_decide; [by injection Hret as <- <- |].
  apply outcome_bind_inv in Hret as (index & _ & Hret). destruct (out_target out) as [o | o | o | o].
  - destruct (generate_key_image_helper _ _ _) as [publicKey keyImage]. apply assert_inv in Hret as [_ Hret]. unfold key_seen, remember in Hret.
    rewrite (bool_decide_eq_true_2 _ Hh) in Hret. case_bool_decide as Hk; [done |]. injection Hret as <- <-. rewrite decide_False by done. split.
    + intros k Hin. apply elem_of_app. by left.
    + intros transfer key [= <-] [= <-]. split; [done |]. apply elem_of_app. right. by apply list_elem_of_singleton.
  - destruct (multisignature_keys _ _ _ _) as [temp2 |] eqn:Em; [| done]. injection Hret as <- <-. split; [intros k; by apply (multisignature_keys_grow _ _ _ _ _ k Em) |]. by intros transfer key [= <-].
  - destruct (generate_key_derivation _ _); [| done]. injection Hret as <- <-. split; [done |]. by intros transfer key [= <-].
  - by injection Hret as <- <-.
Qed.

Lemma createTransfer_seen account block tx seen globalIdxs idx temp info temp' :
  r_transactionHash tx ∈ transactions_hash_seen seen -> createTransfer account block tx seen globalIdxs idx temp = Ret (inr (info, temp')) -> temp' = temp.
Proof.
  intros Hh. unfold createTransfer. destruct (_ <=? idx); [done |]. intros (out & _ & Hret)%outcome_bind_inv. case_decide; [by injection Hret as _ <- |].
  apply outcome_bind_inv in Hret as (index & _ & Hret). destruct (out_target out) as [o | o | o | o].
  - destruct (generate_key_image_helper _ _ _) as [publicKey keyImage]. apply assert_inv in Hret as [_ Hret]. destruct (key_seen _ _ _); [done |]. injection Hret as _ <-.
    unfold remember. by rewrite decide_True.
  - destruct (multisignature_keys _ _ _ _) as [temp2 |] eqn:Em; [| done]. injection Hret as _ <-. by eapply multisignature_keys_known.
  - destruct (generate_key_derivation _ _); [| done]. by injection Hret as _ <-.
  - by injection Hret as _ <-.
Qed.

Lemma create_loop_unseen account block tx seen globalIdxs outputs temp transfers stop transfers' :
  r_transactionHash tx ∉ transactions_hash_seen seen -> create_loop account block tx seen globalIdxs outputs temp transfers = Ret (stop, transfers') ->
  (forall key, credits key transfers' -> credits key transfers \/ key ∉ public_keys_seen seen)
  /\ forall keys, stop = inr keys -> (forall k, k ∈ temp -> k ∈ keys) /\ forall key, credits key transfers' -> credits key transfers \/ key ∈ keys.
Proof.
  intros Hh. revert temp transfers. induction outputs as [| idx outputs IH]; intros temp transfers; cbn [create_loop].
  - intros [= <- <-]. split; [by left |]. intros keys [= <-]. split; [done | by left].
  - intros ([st | [info temp1]] & Hc & Hret)%outcome_bind_inv; [injection Hret as <- <-; split; [by left | done] |].
    apply createTransfer_unseen in Hc as [Hgrow Hinfo]; [| done]. apply IH in Hret as [Hnew Hfin]. split.
    + intros key [[Hk | (t & Ht & Hk)]%credits_snoc | Hk]%Hnew; [by left | right; by apply (Hinfo t) | by right].
    + intros keys Hst. destruct (Hfin keys Hst) as [Hg Hk]. split; [intros k Hin; by apply Hg, Hgrow |].
      intros key [[Hc | (t & Ht & Hc)]%credits_snoc | Hc]%Hk; [by left | right; apply Hg; by apply (Hinfo t) | by right].
Qed.

Lemma create_loop_seen account block tx seen globalIdxs outputs temp transfers keys transfers' :
  r_transactionHash tx ∈ transactions_hash_seen seen -> create_loop account block tx seen globalIdxs outputs temp transfers = Ret (inr keys, transfers') -> keys = temp.
Proof.
  intros Hh. revert temp transfers. induction outputs as [| idx outputs IH]; intros temp transfers; cbn [create_loop]; [by intros [= <- _] |].
  intros ([st | [info temp1]] & Hc & Hret)%outcome_bind_inv; [done |]. apply IH in Hret as ->. by eapply createTransfer_seen.
Qed.

Lemma not_credits_nil key : ~ credits key [].
Proof. intros (t & Ht & _). by apply not_elem_of_nil in Ht. Qed.

(** C19: an output key is credited in one transaction only, as far as it was remembered.  When the outputs to one account of a transaction that was not seen have all been turned
    into transfers, no other transaction that was not seen, whenever it comes and for whatever account, as long as what was seen is not forgotten, is credited with an
    output of the same one-time key.  (Nothing is remembered for a second account of the same transaction: [second_account_unprotected].) *)
Theorem output_key_credited_once account block tx globalIdxs outputs seen keys transfers seen1
    account2 block2 tx2 globalIdxs2 outputs2 seen2 stop2 transfers2 seen3 key :
  (r_transactionHash tx ∉ transactions_hash_seen seen) ->
  createTransfers account block tx globalIdxs outputs seen = Ret (inr keys, transfers, seen1) ->
  public_keys_seen seen1 ⊆ public_keys_seen seen2 -> (r_transactionHash tx2 ∉ transactions_hash_seen seen2) ->
  createTransfers account2 block2 tx2 globalIdxs2 outputs2 seen2 = Ret (stop2, transfers2, seen3) ->
  credits key transfers -> ~ credits key transfers2.
Proof.
  intros Hh ([stop ts] & H1 & [= -> -> <-])%outcome_bind_inv Hle Hh2 ([stop' ts'] & H2 & [= -> -> _])%outcome_bind_inv Hc Hc2.
  apply create_loop_unseen in H1 as [_ Hfin]; [| done]. apply create_loop_unseen in H2 as [Hnew _]; [| done].
  destruct (Hfin keys eq_refl) as [_ Hkeys]. destruct (Hkeys key Hc) as [?%not_credits_nil | Hin]; [done |].
  destruct (Hnew key Hc2) as [?%not_credits_nil | Hno]; [done |]. apply Hno, Hle. cbn. apply elem_of_union_l, elem_of_list_to_set, Hin.
Qed.

(** The protection stops at the first subscription.  When a transaction pays to two subscriptions of the wallet, the keys of its outputs to the one
    that is looked at first are remembered; those of the outputs to the second one are not, since by then the
    transaction counts as seen: another transaction can reuse them. *)
Theorem second_account_unprotected account block tx globalIdxs outputs seen keys transfers seen1 account2 outputs2 keys2 transfers2 seen2 :
  createTransfers account block tx globalIdxs outputs seen = Ret (inr keys, transfers, seen1) ->
  createTransfers account2 block tx globalIdxs outputs2 seen1 = Ret (inr keys2, transfers2, seen2) ->
  public_keys_seen seen2 = public_keys_seen seen1.
Proof.
  intros ([stop ts] & _ & [= -> -> <-])%outcome_bind_inv ([stop' ts'] & H2 & [= -> -> <-])%outcome_bind_inv.
  apply create_loop_seen in H2 as ->; [| cbn; by apply elem_of_union_l, elem_of_singleton]. cbn. by rewrite union_empty_l_L.
Qed.
End Once.

(** * A wallet *)

Module ConsumerDemo.
(** Toy keys: an output key is the spend key with the transaction's public key behind it. *)
#[export] Instance demo : Environment := {|
  underive_public_key derivation idx key := take 1 key;
  generate_key_derivation pub sec := Some pub;
  deriveCommitmentKeys secret := (secret, secret);
  generate_key_image_helper account pub idx := (spendPublicKey (ak_address account) ++ pub, [99] ++ pub);
  getGlobalIndices h := Some [10; 11; 12];
  get_messages_from_extra extra pub sec := [];
  schedule items := rev items;
  uninitialised := 77
|}.
#[export] Instance demo_lawful : LawfulEnvironment demo.
Proof.
  split.
  - intros h gs [= <-]. repeat constructor; discriminate.
  - intros items. exact (Permutation_sym (Permutation_rev items)).
Qed.

Definition account : AccountKeys := mkAccountKeys (mkAddress [1] [2]) [3] [4].
Definition other : AccountKeys := mkAccountKeys (mkAddress [5] [2]) [6] [4].
Definition its_subscription : AccountSubscription := mkSubscription account (mkSyncStart 0 0) 6.

Definition pay (key pub : bytes) (amount : Z) : TransactionOutput := mkTransactionOutput amount (OutKey (mkKeyOutput (key ++ pub))).
Definition coinbase (n height : Z) : TransactionReader :=
  mkReader (replicate 32 n) [n] 0 None [] [InBase (mkBaseInput height)] 0 [pay [1] [n] 100; pay [5] [n] 30] 130.
Definition empty_transaction : Transaction := mkTransaction 1 0 [] [] [] [].
Definition header (n : Z) : Block :=
  mkBlock 1 0 0 (1000 + n) [] (mkParentBlock 0 0 [] 0 [] empty_transaction []) empty_transaction [].
Definition block (n height : Z) : CompleteBlock := mkCompleteBlock [n] (Some (header n)) [coinbase n height].
Definition contents (h : Hash) : list Hash := match h with [n] => [replicate 32 n] | _ => [] end.

Definition w0 : Wallet := mkWallet (newTransfersConsumer [4]) (mkSeen ∅ ∅) (Sync.mkSync [[0]]).
Definition w1 : Wallet := mkWallet (match addSubscription its_subscription (w_consumer w0) with Ret s => s | _ => w_consumer w0 end) (w_seen w0) (w_state w0).
(** Two blocks, then another block instead of the second one. *)
Definition first_blocks := [block 7 1; block 8 2].
Definition first_interval := Sync.mkInterval 1 [[7]; [8]].
Definition fork := [block 9 2; block 10 3].
Definition fork_interval := Sync.mkInterval 2 [[9]; [10]].

Definition wallet_of (o : outcome (option bool * Wallet)) : Wallet := match o with Ret (_, w) => w | _ => w0 end.
Definition answer_of (o : outcome (option bool * Wallet)) : option bool := match o with Ret (Some b, _) => Some b | _ => None end.
Lemma update_answered o b : answer_of o = Some b -> o = Ret (Some b, wallet_of o).
Proof. destruct o as [[[b' |] w] | | |]; cbn; [by intros [= ->] | done..]. Qed.
Definition w2 : Wallet := wallet_of (updateConsumers first_interval first_blocks w1).
Definition w3 : Wallet := wallet_of (updateConsumers fork_interval fork w2).

Lemma coinbase_spends_others n height : spends_others (coinbase n height).
Proof. intros a b gs idxs seen stop ts seen' _ t i _ Hi. apply list_elem_of_singleton in Hi as ->. discriminate. Qed.
Lemma blocks_fine a b c d : Forall (fun bl => Forall spends_others (cb_transactions bl)) [block a b; block c d].
Proof. repeat constructor; apply coinbase_spends_others. Qed.
Lemma blocks_faithful a b c d start : faithful contents (Sync.mkInterval start [[a]; [c]]) [block a b; block c d].
Proof. constructor; [| constructor; [| constructor]]; intros tx ->%list_elem_of_singleton; apply list_elem_of_singleton; reflexivity. Qed.

Lemma first_update : updateConsumers first_interval first_blocks w1 = Ret (Some true, w2).
Proof. apply update_answered. vm_compute. reflexivity. Qed.
Lemma second_update : updateConsumers fork_interval fork w2 = Ret (Some true, w3).
Proof. apply update_answered. vm_compute. reflexivity. Qed.

Lemma w2_reached : wallet_reach contents w2.
Proof.
  refine (wallet_update _ w1 first_interval first_blocks _ _ _ _ (blocks_faithful _ _ _ _ _) (blocks_fine _ _ _ _) first_update).
  - refine (wallet_subscribe _ w0 its_subscription _ _ _); [apply wallet_new |]. unfold w1. by destruct (addSubscription _ _) eqn:E.
  - split; [reflexivity |]. split; [discriminate | vm_compute; discriminate].
Qed.
Lemma fork_new : new_part fork_interval fork.
Proof. split; [reflexivity |]. split; [discriminate | vm_compute; discriminate]. Qed.
Lemma w3_reached : wallet_reach contents w3.
Proof. exact (wallet_update _ w2 fork_interval fork _ _ w2_reached fork_new (blocks_faithful _ _ _ _ _) (blocks_fine _ _ _ _) second_update). Qed.

(** What the container of the subscription knows after the fork. *)
Definition confirmed (w : Wallet) : list (Z * Z) :=
  match m_subscriptions (w_consumer w) !! [1] with
  | Some sub => map (fun t => (ti_blockHeight t, default 0 (head (ti_transactionHash t)))) (m_transactions (transfers sub))
  | None => []
  end.

(** Two transactions with one public key, which pay to the same one-time key; the first one pays to two accounts. *)
Definition reused : TransactionReader := mkReader (replicate 32 8) [7] 0 None [] [InBase (mkBaseInput 2)] 0 [pay [1] [7] 5] 5.
Definition place1 := mkBlockInfo 1 1000 0.
Definition place2 := mkBlockInfo 2 1000 0.

Abbreviation created := (outcome ((Stop + list bytes) * list TransactionOutputInformationIn * Seen)).
Definition keys_of (o : created) : list bytes := match o with Ret (inr keys, _, _) => keys | _ => [] end.
Definition transfers_of (o : created) : list TransactionOutputInformationIn := match o with Ret (_, ts, _) => ts | _ => [] end.
Definition seen_of (o : created) : Seen := match o with Ret (_, _, seen) => seen | _ => mkSeen ∅ ∅ end.
Definition stop_of (o : created) : option (option Stop) := match o with Ret (inl st, _, _) => Some (Some st) | Ret (inr _, _, _) => Some None | _ => None end.
Lemma created_all o : stop_of o = Some None -> o = Ret (inr (keys_of o), transfers_of o, seen_of o).
Proof. destruct o as [[[[st | keys] ts] seen] | | |]; cbn; done. Qed.
Lemma created_stopped o st : stop_of o = Some (Some st) -> o = Ret (inl st, transfers_of o, seen_of o).
Proof. destruct o as [[[[st' | keys] ts] seen] | | |]; cbn; try done. by intros [= ->]. Qed.

Definition created1 : created := createTransfers account place1 (coinbase 7 1) [10; 11] [0] (mkSeen ∅ ∅).
Definition created2 : created := createTransfers account place2 reused [12] [0] (seen_of created1).
Definition created3 : created := createTransfers other place1 (coinbase 7 1) [10; 11] [1] (seen_of created1).
Lemma created1_Ret : created1 = Ret (inr (keys_of created1), transfers_of created1, seen_of created1).
Proof. apply created_all. vm_compute. reflexivity. Qed.
Lemma created2_Ret : created2 = Ret (inl DuplicateKey, transfers_of created2, seen_of created2).
Proof. apply created_stopped. vm_compute. reflexivity. Qed.
Lemma created3_Ret : created3 = Ret (inr (keys_of created3), transfers_of created3, seen_of created3).
Proof. apply created_all. vm_compute. reflexivity. Qed.
End ConsumerDemo.

#[local] Existing Instances ConsumerDemo.demo ConsumerDemo.demo_lawful.

Lemma wallet_shows_chain_witness :
  ConsumerDemo.confirmed ConsumerDemo.w3 = [(1, 7); (2, 9); (3, 10)] /\ Sync.m_blockchain (w_state ConsumerDemo.w3) = [[0]; [7]; [9]; [10]]
  /\ m_spendKeys (w_consumer ConsumerDemo.w3) = dom (m_subscriptions (w_consumer ConsumerDemo.w3)).
Proof.
  split; [vm_compute; reflexivity |]. split; [vm_compute; reflexivity |].
  exact (proj1 (wallet_shows_chain ConsumerDemo.contents ConsumerDemo.w3 ConsumerDemo.w3_reached)).
Defined.

Lemma output_key_credited_once_witness :
  length (ConsumerDemo.transfers_of ConsumerDemo.created1) = 1%nat /\ ~ credits [1; 7] (ConsumerDemo.transfers_of ConsumerDemo.created2).
Proof.
  split; [vm_compute; reflexivity |].
  refine (output_key_credited_once ConsumerDemo.account ConsumerDemo.place1 (ConsumerDemo.coinbase 7 1) [10; 11] [0] (mkSeen ∅ ∅) _ _ _
            ConsumerDemo.account ConsumerDemo.place2 ConsumerDemo.reused [12] [0] (ConsumerDemo.seen_of ConsumerDemo.created1) _ _ _ [1; 7]
            _ ConsumerDemo.created1_Ret _ _ ConsumerDemo.created2_Ret _).
  - apply not_elem_of_empty.
  - reflexivity.
  - refine (bool_decide_unpack (_ ∉ _) _). vm_compute. exact I.
  - exists (mkOutputIn (KeyTarget [1; 7]) 100 10 0 [7] [99; 7]). split; [| reflexivity]. refine (bool_decide_unpack (_ ∈ _) _). vm_compute. exact I.
Defined.

(** The key of the second account is not among those that were seen. *)
Lemma second_account_unprotected_witness :
  public_keys_seen (ConsumerDemo.seen_of ConsumerDemo.created3) = public_keys_seen (ConsumerDemo.seen_of ConsumerDemo.created1)
  /\ bool_decide ([5; 7] ∈ public_keys_seen (ConsumerDemo.seen_of ConsumerDemo.created3)) = false.
Proof.
  split; [| vm_compute; reflexivity].
  exact (second_account_unprotected _ _ _ _ _ _ _ _ _ _ _ _ _ _ ConsumerDemo.created1_Ret ConsumerDemo.created3_Ret).
Defined.
