(* ===== verification/Checkpoints.v ===== *)
(** Checkpoints: [src/src/CryptoNoteCore/Checkpoints.cpp].  [std::map] is a list sorted by key. *)

From S2P Require Import Prelude Hex Config Currency BankingIndex.

(** * [Checkpoints] *)

Definition points : Type := list (Z * Hash).

Fixpoint points_find (m : points) (height : Z) : option Hash :=
  match m with
  | [] => None
  | p :: m => if p.1 =? height then Some p.2 else points_find m height
  end.

(** [m_points[height] = h] for a new key. *)
Fixpoint points_insert (m : points) (height : Z) (h : Hash) : points :=
  match m with
  | [] => [(height, h)]
  | p :: m => if height <? p.1 then (height, h) :: p :: m else p :: points_insert m height h
  end.

Definition add_checkpoint (m : points) (height : Z) (hash_str : bytes) : bool * points :=
  match podFromHex hash_str with
  | None => (false, m)
  | Some h =>
      match points_find m height with
      | Some _ => (false, m)
      | None => (true, points_insert m height h)
      end
  end.

Definition is_in_checkpoint_zone (m : points) (height : Z) : bool :=
  match last m with None => false | Some p => height <=? p.1 end.

(** The answer and [is_a_checkpoint]; [currency] may be a null pointer. *)
Definition check_block (currency : option Currency) (m : points) (height : Z) (h : Hash) : bool * bool :=
  if match currency with Some c => m_testnet c | None => false end then (true, false)
  else
    match points_find m height with
    | None => (true, false)
    | Some x => (bool_decide (x = h), true)
    end.

(** The point before [m_points.upper_bound(height)]. *)
Definition last_point (m : points) (height : Z) : option (Z * Hash) :=
  match upper_bound fst height m with O => None | S prev => m !! prev end.

Definition is_alternative_block_allowed (m : points) (blockchain_height block_height : Z) : bool :=
  if 0 =? block_height then false
  else if (block_height <? u64 (blockchain_height - CRYPTONOTE_MINED_MONEY_UNLOCK_WINDOW))
          && negb (is_in_checkpoint_zone m block_height) then false
  else
    match last_point m blockchain_height with
    | None => true
    | Some p => p.1 <? block_height
    end.

Definition getCheckpointHeights (m : points) : list Z := map fst m.

(** [load_checkpoints]: the built-in table, an argument here; a failed line is skipped. *)
Definition load_checkpoints (table : list (Z * bytes)) (m : points) : points :=
  foldl (fun m cp => (add_checkpoint m cp.1 cp.2).2) m table.

(** * Properties *)

Definition points_wf (m : points) : Prop := StronglySorted (fun p q => p.1 < q.1) m.

Lemma points_insert_elem m height h p : p ∈ points_insert m height h <-> p = (height, h) \/ p ∈ m.
Proof.
  induction m as [| q m IH]; cbn [points_insert].
  - rewrite list_elem_of_singleton. split; [by left | intros [-> | Hp]; [done | by apply elem_of_nil in Hp]].
  - destruct (height <? q.1); rewrite !elem_of_cons; [tauto |]. rewrite IH. tauto.
Qed.

Lemma points_find_none m height : points_find m height = None <-> Forall (fun p => p.1 <> height) m.
Proof.
  induction m as [| p m IH]; cbn [points_find]; [split; [constructor | done] |].
  rewrite Forall_cons. destruct (Z.eqb_spec p.1 height); [split; [done | intros [? _]; done] |]. rewrite IH. tauto.
Qed.

Lemma points_insert_wf m height h :
  points_wf m -> Forall (fun p => p.1 <> height) m -> points_wf (points_insert m height h).
Proof.
  intros Hs. induction Hs as [| p m Hs IH Hp]; intros Hne; cbn [points_insert]; [constructor; constructor |].
  apply Forall_cons in Hne as [Hnp Hne]. destruct (Z.ltb_spec height p.1) as [Hlt | Hge].
  - constructor; [by constructor |]. constructor; [done |]. eapply Forall_impl; [exact Hp |]. cbn. lia.
  - constructor; [by apply IH |]. apply Forall_forall. intros q [-> | Hq]%points_insert_elem; [cbn; lia |].
    rewrite Forall_forall in Hp. by apply Hp.
Qed.

Lemma points_find_insert m height h k :
  Forall (fun p => p.1 <> height) m ->
  points_find (points_insert m height h) k = if height =? k then Some h else points_find m k.
Proof.
  induction m as [| p m IH]; intros Hne; cbn [points_insert points_find]; [done |].
  apply Forall_cons in Hne as [Hnp Hne].
  destruct (height <? p.1); cbn [points_find]; [done |]. rewrite (IH Hne).
  destruct (Z.eqb_spec p.1 k), (Z.eqb_spec height k); congruence.
Qed.

Lemma add_checkpoint_wf m height text : points_wf m -> points_wf (add_checkpoint m height text).2.
Proof.
  intros Hwf. unfold add_checkpoint. destruct (podFromHex text) as [h |]; [| done].
  destruct (points_find m height) eqn:E; [done |]. apply points_insert_wf; [done |]. by apply points_find_none.
Qed.

Lemma load_checkpoints_wf table m : points_wf m -> points_wf (load_checkpoints table m).
Proof.
  unfold load_checkpoints. revert m. induction table as [| cp table IH]; intros m Hwf; [done |].
  cbn [foldl]. apply IH. by apply add_checkpoint_wf.
Qed.

(** ** Hexadecimal round trip *)

(** A checkpoint added from text: from then on exactly its hash passes at its height, and
    nothing changes at other heights. *)
Lemma add_checkpoint_check m height h :
  points_find m height = None -> length h = 32%nat -> Forall is_byte h ->
  (add_checkpoint m height (toHex h)).1 = true
  /\ (forall h', check_block None (add_checkpoint m height (toHex h)).2 height h' = (bool_decide (h = h'), true))
  /\ (forall k h', k <> height ->
        check_block None (add_checkpoint m height (toHex h)).2 k h' = check_block None m k h').
Proof.
  intros Hf Hl Hb. assert (Hpod : podFromHex (toHex h) = Some h).
  { unfold podFromHex. assert (Hlen : length (toHex h) = (2 * length h)%nat).
    { clear. unfold toHex. induction h as [| b h IH]; [done |]. cbn [mbind list_bind app length] in *. lia. }
    rewrite Hlen, Hl, fromHex_toHex by done. cbn. by rewrite Hl. }
  unfold add_checkpoint. rewrite Hpod, Hf. cbn [fst snd]. apply points_find_none in Hf.
  split; [done |]. unfold check_block. split.
  - intros h'. by rewrite points_find_insert, Z.eqb_refl.
  - intros k h' Hk. rewrite points_find_insert by done. by destruct (Z.eqb_spec height k).
Qed.

Lemma last_point_spec m bh :
  points_wf m ->
  match last_point m bh with
  | None => Forall (fun p => bh < p.1) m
  | Some p => p ∈ m /\ p.1 <= bh /\ Forall (fun q => q.1 <= bh -> q.1 <= p.1) m
  end.
Proof.
  intros Hwf. assert (Hsplit : exists l1 l2, m = l1 ++ l2 /\ Forall (fun p => p.1 <= bh) l1 /\ Forall (fun p => bh < p.1) l2).
  { induction Hwf as [| p m Hs IH Hp]; [by exists [], [] |].
    destruct (Z.le_gt_cases p.1 bh) as [Hle | Hgt].
    - destruct IH as (l1 & l2 & -> & H1 & H2). exists (p :: l1), l2. split; [done |]. split; [by constructor | done].
    - exists [], (p :: m). split; [done |]. split; [constructor |]. constructor; [done |].
      eapply Forall_impl; [exact Hp |]. simpl. lia. }
  destruct Hsplit as (l1 & l2 & -> & H1 & H2). assert (E : last_point (l1 ++ l2) bh = last l1).
  { unfold last_point. rewrite upper_bound_app by done. apply lookup_before_end. }
  rewrite E. clear E. destruct l1 as [| p l1 _] using rev_ind; [done |]. rewrite last_snoc.
  apply Forall_app in H1 as [H1 Hp]. apply Forall_inv in Hp.
  split; [| split; [done |]].
  - rewrite !elem_of_app. left. right. by constructor.
  - apply Forall_app. split; [apply Forall_app; split |].
    + apply Forall_forall. intros q Hq _. unfold points_wf in Hwf. rewrite <- app_assoc in Hwf.
      clear -Hwf Hq. induction l1 as [| x l1 IH]; [by apply elem_of_nil in Hq |].
      apply StronglySorted_inv in Hwf as [Hwf Hx]. apply elem_of_cons in Hq as [-> | Hq]; [| by apply IH].
      rewrite Forall_app in Hx. destruct Hx as [_ Hx]. apply Forall_inv in Hx. lia.
    + constructor; [lia | constructor].
    + eapply Forall_impl; [exact H2 |]. simpl. lia.
Qed.

(** The reorganisation rule, exactly: an alternative block at a height is allowed if and only if
    it is not the first block, it is above every checkpoint the chain has passed, and it is
    either inside the checkpoint zone or at most 60 blocks deep in a chain of at least 60
    blocks (the subtraction is unsigned, so outside the zone a chain shorter than 60 blocks
    allows none). *)
Theorem alternative_block_rule (table : list (Z * bytes)) (blockchain_height block_height : Z) :
  let m := load_checkpoints table [] in
  is_u32 blockchain_height -> is_u32 block_height ->
  is_alternative_block_allowed m blockchain_height block_height = true
  <-> (0 < block_height
       /\ (forall p, p ∈ m -> p.1 <= blockchain_height -> p.1 < block_height)
       /\ (is_in_checkpoint_zone m block_height = true
           \/ (60 <= blockchain_height /\ blockchain_height - block_height <= 60))).
Proof.
  intros m Hb Hh. unfold is_u32 in *.
  assert (Hwf : points_wf m) by (apply load_checkpoints_wf; constructor).
  pose proof (last_point_spec m blockchain_height Hwf) as Hlp.
  unfold is_alternative_block_allowed, CRYPTONOTE_MINED_MONEY_UNLOCK_WINDOW.
  assert (Hsub : (block_height <? u64 (blockchain_height - 60)) = false
                 <-> 60 <= blockchain_height /\ blockchain_height - block_height <= 60).
  { destruct (Z.le_gt_cases 60 blockchain_height).
    - rewrite u64_small by lia. rewrite Z.ltb_ge. lia.
    - assert (E : u64 (blockchain_height - 60) = blockchain_height - 60 + 2 ^ 64).
      { unfold u64. rewrite <- (Z.mod_small (blockchain_height - 60 + 2 ^ 64) (2 ^ 64)) by lia.
        rewrite <- (Z_mod_plus_full (blockchain_height - 60) 1 (2 ^ 64)). f_equal. }
      rewrite E, Z.ltb_ge. lia. }
  destruct (Z.eqb_spec 0 block_height); [split; [done | lia] |].
  destruct (block_height <? u64 (blockchain_height - 60)) eqn:Ed, (is_in_checkpoint_zone m block_height) eqn:Ez;
    cbn [andb negb].
  2: { split; [done |]. intros (_ & _ & [? | Hd]); [done |]. apply Hsub in Hd. done. }
  all: destruct (last_point m blockchain_height) as [p |];
    [destruct Hlp as (Hin & Hple & Hmax); rewrite Forall_forall in Hmax; rewrite Z.ltb_lt;
     split; [intros Hlt; split; [lia |]; split; [intros q Hq Hqb; specialize (Hmax q Hq Hqb); lia | try (by left); right; by apply Hsub]
            | intros (_ & Hall & _); by apply Hall]
    | rewrite Forall_forall in Hlp;
      split; [intros _; split; [lia |]; split; [intros q Hq Hqb; specialize (Hlp q Hq); simpl in Hlp; lia | try (by left); right; by apply Hsub] | done]].
Qed.

Definition example_table : list (Z * bytes) :=
  [(100, toHex (replicate 32 171)); (10, toHex (replicate 32 16)); (100, toHex (replicate 32 1)); (50, [48; 49])].

Lemma alternative_block_rule_witness :
  is_alternative_block_allowed (load_checkpoints example_table []) 150 120 = true
  <-> (0 < 120
       /\ (forall p, p ∈ load_checkpoints example_table [] -> p.1 <= 150 -> p.1 < 120)
       /\ (is_in_checkpoint_zone (load_checkpoints example_table []) 120 = true
           \/ (60 <= 150 /\ 150 - 120 <= 60))).
Proof. apply (alternative_block_rule example_table 150 120); unfold is_u32; lia. Defined.
