(* ===== verification/InputChecks.v ===== *)
(** The verification of the inputs of a transaction against the chain, from
    [src/src/CryptoNoteCore/Blockchain.cpp] and [Blockchain.h]: [checkTransactionInputs] with the rings of
    key inputs, multisignature inputs and the rings of commitments, [check_tx_outputs], and how an
    accepted transaction meets [pushTransaction] of [ChainStore.v].

    The members that the checks read are the variables of the section: [m_blocks], the transaction
    store, the checkpoints and the fee rates of the commitment index.  [m_is_in_checkpoint_zone] and
    [blockMajorVersion] are members that the code reads without having set them.  The clock and the
    curve operations are parameters too. *)

From S2P Require Import Prelude Config Currency Types TxChecks ChainStore Checkpoints.

(** [m_blocks[i]] on a [SwappedVector]. *)
Definition block_at (blocks : list BlockEntry) (i : Z) : outcome BlockEntry :=
  if i <? 0 then Throw "SwappedVector::operator[]"
  else match blocks !! Z.to_nat i with Some b => Ret b | None => Throw "SwappedVector::operator[]" end.

Definition transactionByIndex (blocks : list BlockEntry) (index : TransactionIndex) : outcome TransactionEntry :=
  b ← block_at blocks (ti_block index); vec_at (be_transactions b) (ti_transaction index).

Definition currentHeight (blocks : list BlockEntry) : Z := u32 (Z.of_nat (length blocks)).

(** [if (pmax && *pmax < height) *pmax = height]. *)
Definition raise (pmax : option Z) (height : Z) : option Z :=
  match pmax with Some m => Some (if m <? height then height else m) | None => None end.

(** The absolute offsets of a ring of commitments, at 64 bits. *)
Fixpoint absolute_indexes (absoluteIndex : Z) (relative : list Z) : list Z :=
  match relative with
  | [] => []
  | relIdx :: rest => let i := u64 (absoluteIndex + relIdx) in i :: absolute_indexes i rest
  end.

Section InputChecks.
Context (c : Currency).
Context (m_blocks : list BlockEntry) (s : Store) (m_checkpoints : points) (epochFeeRates : list Z).
Context (m_is_in_checkpoint_zone : bool) (blockMajorVersion : Z).
Context (now : Z).
Context (key_image_in_domain : bytes -> bool).
Context (check_ring_signature : Hash -> bytes -> list bytes -> list bytes -> bool).
Context (check_signature : Hash -> bytes -> bytes -> bool).

Definition getCurrentBlockchainHeight : Z := currentHeight m_blocks.

Definition have_tx_keyimg_as_spent (key_im : bytes) : bool := bool_decide (is_Some (m_spent_keys s !! key_im)).

Definition haveTransactionKeyImagesAsSpent (tx : Transaction) : bool :=
  existsb (fun i => match i with InKey k => have_tx_keyimg_as_spent (ki_keyImage k) | _ => false end) (tx_inputs tx).

Definition isInCheckpointZone (height : Z) : bool := is_in_checkpoint_zone m_checkpoints height.

(** Below the largest block number the time is a height, above it is a clock time. *)
Definition is_tx_spendtime_unlocked (unlock_time : Z) : bool :=
  if unlock_time <? m_maxBlockHeight c
  then unlock_time <=? u64 (u32 (getCurrentBlockchainHeight - 1) + m_lockedTxAllowedDeltaBlocks c)
  else unlock_time <=? u64 (now + lockedTxAllowedDeltaSeconds c blockMajorVersion).

(** * Key inputs *)

(** [outputs_visitor::handle_output]: [None] is [false], otherwise the key that is collected. *)
Definition handle_output (tx : Transaction) (out : TransactionOutput) : option bytes :=
  if negb (is_tx_spendtime_unlocked (tx_unlockTime tx)) then None
  else match out_target out with OutKey k => Some (ko_key k) | _ => None end.

(** The loop of [scanOutputKeysForIndexes]; the height of the last ring member raises [pmax]. *)
Fixpoint scan_loop (offsets : list Z) (outs : list (TransactionIndex * Z)) (keys : list bytes) (pmax : option Z)
    : outcome (option (list bytes) * option Z) :=
  match offsets with
  | [] => Ret (Some keys, pmax)
  | i :: rest =>
      if Z.of_nat (length outs) <=? i then Ret (None, pmax)
      else
        p ← vec_at outs i;
        tx ← transactionByIndex m_blocks p.1;
        if negb (p.2 <? Z.of_nat (length (tx_outputs (te_tx tx)))) then Ret (None, pmax)
        else
          out ← vec_at (tx_outputs (te_tx tx)) p.2;
          match handle_output (te_tx tx) out with
          | None => Ret (None, pmax)
          | Some key =>
              scan_loop rest outs (keys ++ [key]) (if bool_decide (rest = []) then raise pmax (ti_block p.1) else pmax)
          end
  end.

Definition scanOutputKeysForIndexes (txin : KeyInput) (pmax : option Z) : outcome (option (list bytes) * option Z) :=
  match m_outputs s !! ki_amount txin with
  | None => Ret (None, pmax)
  | Some outs =>
      if bool_decide (ki_outputIndexes txin = []) then Ret (None, pmax)
      else scan_loop (relative_output_offsets_to_absolute (ki_outputIndexes txin)) outs [] pmax
  end.

Definition check_tx_input (txin : KeyInput) (tx_prefix_hash : Hash) (sig : list bytes) (pmax : option Z) : outcome (bool * option Z) :=
  if negb (key_image_in_domain (ki_keyImage txin)) then Ret (false, pmax)
  else
    '(keys, pmax) ← scanOutputKeysForIndexes txin pmax;
    match keys with
    | None => Ret (false, pmax)
    | Some output_keys =>
        if negb (length (ki_outputIndexes txin) =? length output_keys)%nat then Ret (false, pmax)
        else if negb (length sig =? length output_keys)%nat then Ret (false, pmax)
        else if m_is_in_checkpoint_zone then Ret (true, pmax)
        else Ret (check_ring_signature tx_prefix_hash (ki_keyImage txin) output_keys sig, pmax)
    end.

(** * Multisignature inputs *)

(** Each signature is looked for among the keys that are left, from number [k] on. *)
Fixpoint signatures_match (prefixHash : Hash) (count : Z) (sigs : list bytes) (keys : list bytes) (k : Z) : outcome bool :=
  if count <=? k then Ret true
  else
    match keys with
    | [] => Ret false
    | key :: keys =>
        sig ← vec_at sigs k;
        signatures_match prefixHash count sigs keys (if check_signature prefixHash key sig then k + 1 else k)
    end.

(** The sum of the height and the term is at 32 bits. *)
Definition validateInput (input : MultisignatureInput) (prefixHash : Hash) (sigs : list bytes) : outcome bool :=
  _ ← assert_ (mi_signatureCount input =? Z.of_nat (length sigs));
  match m_multisignatureOutputs s !! mi_amount input with
  | None => Ret false
  | Some usages =>
      if Z.of_nat (length usages) <=? mi_outputIndex input then Ret false
      else
        usage ← vec_at usages (mi_outputIndex input);
        if mu_isUsed usage then Ret false
        else
          e ← transactionByIndex m_blocks (mu_transactionIndex usage);
          let outputTransaction := te_tx e in
          if negb (is_tx_spendtime_unlocked (tx_unlockTime outputTransaction)) then Ret false
          else
            out ← vec_at (tx_outputs outputTransaction) (mu_outputIndex usage);
            _ ← assert_ (out_amount out =? mi_amount input);
            match out_target out with
            | OutMultisignature output =>
                if negb (mi_signatureCount input =? mo_requiredSignatureCount output) then Ret false
                else if negb (mi_term input =? mo_term output) then Ret false
                else if negb (mo_term output =? 0)
                        && (getCurrentBlockchainHeight <? u32 (ti_block (mu_transactionIndex usage) + mo_term output)) then Ret false
                else signatures_match prefixHash (mi_signatureCount input) sigs (mo_keys output) 0
            | _ => AssertFail
            end
  end.

(** * Rings of commitments *)

(** The ring so far: the keys, whether one of them can be withdrawn, the oldest height. *)
Record Ring := mkRing { ring_keys : list bytes; ring_hasNonForever : bool; ring_oldest : Z; ring_pmax : option Z }.

(** Deposits mature at the height plus the term, unless the sum wraps. *)
Definition immature (ref : CommitmentOutputRef) : bool :=
  let creationHeight := ti_block (cr_transactionIndex ref) in
  let maturityHeight := u32 (creationHeight + cr_term ref) in
  (0 <? cr_term ref) && ((maturityHeight <? creationHeight) || (getCurrentBlockchainHeight <? maturityHeight)).

(** One round of the loop of [checkCommitmentSpendInput]; [None] is [false], with what it leaves in [pmax]. *)
Fixpoint spend_ring (indexes : list Z) (refs : list CommitmentOutputRef) (r : Ring) : outcome (option Ring * option Z) :=
  match indexes with
  | [] => Ret (Some r, ring_pmax r)
  | absIdx :: rest =>
      if Z.of_nat (length refs) <=? absIdx then Ret (None, ring_pmax r)
      else
        ref ← vec_at refs absIdx;
        let forever := cr_term ref =? DEPOSIT_TERM_FOREVER in
        if negb forever && immature ref then Ret (None, ring_pmax r)
        else if cr_isSlashed ref then Ret (None, ring_pmax r)
        else
          let height := ti_block (cr_transactionIndex ref) in
          spend_ring rest refs
            (mkRing (ring_keys r ++ [cr_commitKey ref]) (ring_hasNonForever r || negb forever)
               (if height <? ring_oldest r then height else ring_oldest r) (raise (ring_pmax r) height))
  end.

(** What is checked after the ring was collected; the interest is bounded by what the oldest member
    could have earned and by the fee pool. *)
Definition claim_allowed (txin : TransactionInputCommitmentSpend) (oldest : Z) : outcome bool :=
  if 0 <? cs_claimedInterest txin then
    maxInterest ← calculateCdInterest c (cs_amount txin) oldest getCurrentBlockchainHeight epochFeeRates;
    let maxInterest := if m_feePoolBalance s <? maxInterest then m_feePoolBalance s else maxInterest in
    Ret (negb (maxInterest <? cs_claimedInterest txin))
  else Ret true.

Definition checkCommitmentSpendInput (txin : TransactionInputCommitmentSpend) (tx_prefix_hash : Hash) (sig : list bytes)
    (pmax : option Z) : outcome (bool * option Z) :=
  if negb (key_image_in_domain (cs_keyImage txin)) then Ret (false, pmax)
  else
    match m_commitmentOutputs s !! cs_amount txin with
    | None => Ret (false, pmax)
    | Some refs =>
        '(ring, pmax) ← spend_ring (absolute_indexes 0 (cs_outputIndexes txin)) refs (mkRing [] false getCurrentBlockchainHeight pmax);
        match ring with
        | None => Ret (false, pmax)
        | Some r =>
            if negb (ring_hasNonForever r) then Ret (false, pmax)
            else if negb (length (ring_keys r) =? length sig)%nat then Ret (false, pmax)
            else if negb (check_ring_signature tx_prefix_hash (cs_keyImage txin) (ring_keys r) sig) then Ret (false, pmax)
            else ok ← claim_allowed txin (ring_oldest r); Ret (ok, pmax)
        end
    end.

(** The loop of [checkCommitmentTransferInput]: no maturity, no oldest member. *)
Fixpoint transfer_ring (indexes : list Z) (refs : list CommitmentOutputRef) (r : Ring) : outcome (option Ring * option Z) :=
  match indexes with
  | [] => Ret (Some r, ring_pmax r)
  | absIdx :: rest =>
      if Z.of_nat (length refs) <=? absIdx then Ret (None, ring_pmax r)
      else
        ref ← vec_at refs absIdx;
        if cr_isSlashed ref then Ret (None, ring_pmax r)
        else
          transfer_ring rest refs
            (mkRing (ring_keys r ++ [cr_commitKey ref]) (ring_hasNonForever r || negb (cr_term ref =? DEPOSIT_TERM_FOREVER))
               (ring_oldest r) (raise (ring_pmax r) (ti_block (cr_transactionIndex ref))))
  end.

Definition checkCommitmentTransferInput (txin : TransactionInputCommitmentTransfer) (tx_prefix_hash : Hash) (sig : list bytes)
    (pmax : option Z) : outcome (bool * option Z) :=
  if negb (key_image_in_domain (ct_keyImage txin)) then Ret (false, pmax)
  else if ct_newTerm txin <? CD_TRANSFER_MIN_REMAINING_TERM then Ret (false, pmax)
  else
    match m_commitmentOutputs s !! ct_amount txin with
    | None => Ret (false, pmax)
    | Some refs =>
        '(ring, pmax) ← transfer_ring (absolute_indexes 0 (ct_outputIndexes txin)) refs (mkRing [] false 0 pmax);
        match ring with
        | None => Ret (false, pmax)
        | Some r =>
            if negb (ring_hasNonForever r) then Ret (false, pmax)
            else if negb (length (ring_keys r) =? length sig)%nat then Ret (false, pmax)
            else Ret (check_ring_signature tx_prefix_hash (ct_keyImage txin) (ring_keys r) sig, pmax)
        end
    end.

(** * All inputs *)

(** One input; outside the checkpoint zone the ring of a key input is checked twice. *)
Definition check_input (tx_prefix_hash : Hash) (i : TransactionInput) (sig : list bytes) (pmax : option Z) : outcome (bool * option Z) :=
  let zone := isInCheckpointZone getCurrentBlockchainHeight in
  match i with
  | InKey k =>
      if bool_decide (ki_outputIndexes k = []) then Ret (false, pmax)
      else if have_tx_keyimg_as_spent (ki_keyImage k) then Ret (false, pmax)
      else
        '(ok, pmax) ← check_tx_input k tx_prefix_hash sig pmax;
        if negb ok then Ret (false, pmax)
        else if zone then Ret (true, pmax) else check_tx_input k tx_prefix_hash sig pmax
  | InMultisignature m =>
      if zone then Ret (true, pmax) else ok ← validateInput m tx_prefix_hash sig; Ret (ok, pmax)
  | InCommitmentSpend cin =>
      if bool_decide (cs_outputIndexes cin = []) then Ret (false, pmax)
      else if have_tx_keyimg_as_spent (cs_keyImage cin) then Ret (false, pmax)
      else if zone then Ret (true, pmax) else checkCommitmentSpendInput cin tx_prefix_hash sig pmax
  | InCommitmentTransfer xfer =>
      if bool_decide (ct_outputIndexes xfer = []) then Ret (false, pmax)
      else if have_tx_keyimg_as_spent (ct_keyImage xfer) then Ret (false, pmax)
      else if zone then Ret (true, pmax) else checkCommitmentTransferInput xfer tx_prefix_hash sig pmax
  | _ => Ret (false, pmax)
  end.

(** [assert(inputIndex < tx.signatures.size())] before each input. *)
Fixpoint check_inputs (tx_prefix_hash : Hash) (ins : list TransactionInput) (sigs : list (list bytes)) (pmax : option Z)
    : outcome (bool * option Z) :=
  match ins with
  | [] => Ret (true, pmax)
  | i :: ins =>
      match sigs with
      | [] => AssertFail
      | sig :: sigs =>
          '(ok, pmax) ← check_input tx_prefix_hash i sig pmax;
          if negb ok then Ret (false, pmax) else check_inputs tx_prefix_hash ins sigs pmax
      end
  end.

Definition checkTransactionInputs (tx : Transaction) (tx_prefix_hash : Hash) (pmax : option Z) : outcome (bool * option Z) :=
  check_inputs tx_prefix_hash (tx_inputs tx) (tx_signatures tx) ((fun _ => 0) <$> pmax).

(** * Outputs *)

(** Deposit terms and amounts from height 821000 on. *)
Definition check_tx_output (version height : Z) (out : TransactionOutput) : bool :=
  match out_target out with
  | OutMultisignature o =>
      if version <? TRANSACTION_VERSION_2 then false
      else if negb (mo_term o =? 0) && (821000 <=? height) then
        if negb (mo_term o =? DEPOSIT_TERM_FOREVER) && ((mo_term o <? m_depositMinTerm c) || (m_depositMaxTerm c <? mo_term o)) then false
        else negb (out_amount out <? m_depositMinAmount c)
      else true
  | _ => true
  end.

Definition check_tx_outputs (tx : Transaction) (height : Z) : bool := forallb (check_tx_output (tx_version tx) height) (tx_outputs tx).

(** * What an accepted input satisfies *)

(** The output [key] is member number [off] of the key outputs of an amount, and its transaction is unlocked. *)
Definition ring_member (outs : list (TransactionIndex * Z)) (off : Z) (key : bytes) : Prop :=
  exists p e out, vec_at outs off = Ret p /\ transactionByIndex m_blocks p.1 = Ret e
    /\ vec_at (tx_outputs (te_tx e)) p.2 = Ret out /\ out_target out = OutKey (mkKeyOutput key)
    /\ is_tx_spendtime_unlocked (tx_unlockTime (te_tx e)) = true.

Definition key_input_ok (ph : Hash) (k : KeyInput) (sig : list bytes) : Prop :=
  ki_outputIndexes k <> [] /\ m_spent_keys s !! ki_keyImage k = None /\ key_image_in_domain (ki_keyImage k) = true
  /\ exists outs keys, m_outputs s !! ki_amount k = Some outs
       /\ Forall2 (ring_member outs) (relative_output_offsets_to_absolute (ki_outputIndexes k)) keys
       /\ length sig = length keys
       /\ (m_is_in_checkpoint_zone = true \/ check_ring_signature ph (ki_keyImage k) keys sig = true).

(** Some of the keys of the output, in order, verify the first signatures one by one. *)
Definition signed_by (ph : Hash) (count : Z) (keys sigs : list bytes) : Prop :=
  exists signers, signers `sublist_of` keys /\ Forall2 (fun key sig => check_signature ph key sig = true) signers (take (Z.to_nat count) sigs).

Definition multisignature_input_ok (ph : Hash) (m : MultisignatureInput) (sig : list bytes) : Prop :=
  mi_signatureCount m = Z.of_nat (length sig)
  /\ exists usages usage e out o, m_multisignatureOutputs s !! mi_amount m = Some usages
       /\ vec_at usages (mi_outputIndex m) = Ret usage /\ mu_isUsed usage = false
       /\ transactionByIndex m_blocks (mu_transactionIndex usage) = Ret e
       /\ is_tx_spendtime_unlocked (tx_unlockTime (te_tx e)) = true
       /\ vec_at (tx_outputs (te_tx e)) (mu_outputIndex usage) = Ret out
       /\ out_amount out = mi_amount m /\ out_target out = OutMultisignature o
       /\ mi_signatureCount m = mo_requiredSignatureCount o /\ mi_term m = mo_term o
       /\ (mo_term o = 0 \/ u32 (ti_block (mu_transactionIndex usage) + mo_term o) <= getCurrentBlockchainHeight)
       /\ signed_by ph (mi_signatureCount m) (mo_keys o) sig.

(** A ring of commitments without slashed members, one of which is not burned. *)
Definition commitment_ring (amount : Z) (relative : list Z) (members : list CommitmentOutputRef) : Prop :=
  exists refs, m_commitmentOutputs s !! amount = Some refs
    /\ Forall2 (fun i ref => vec_at refs i = Ret ref /\ cr_isSlashed ref = false) (absolute_indexes 0 relative) members
    /\ Exists (fun ref => cr_term ref <> DEPOSIT_TERM_FOREVER) members.

Definition ring_signed (ph image : bytes) (members : list CommitmentOutputRef) (sig : list bytes) : Prop :=
  key_image_in_domain image = true /\ m_spent_keys s !! image = None /\ length sig = length members
  /\ check_ring_signature ph image (map cr_commitKey members) sig = true.

(** The block of the oldest member. *)
Definition oldest_block (members : list CommitmentOutputRef) : Z :=
  foldl (fun o ref => Z.min o (ti_block (cr_transactionIndex ref))) getCurrentBlockchainHeight members.

Definition mature (ref : CommitmentOutputRef) : Prop :=
  cr_term ref = DEPOSIT_TERM_FOREVER \/ cr_term ref = 0
  \/ ti_block (cr_transactionIndex ref) + cr_term ref <= getCurrentBlockchainHeight.

Definition commitment_spend_ok (ph : Hash) (i : TransactionInputCommitmentSpend) (sig : list bytes) : Prop :=
  cs_outputIndexes i <> []
  /\ exists members, commitment_ring (cs_amount i) (cs_outputIndexes i) members /\ ring_signed ph (cs_keyImage i) members sig
       /\ Forall mature members
       /\ (0 < cs_claimedInterest i ->
            cs_claimedInterest i <= m_feePoolBalance s
            /\ exists earned, calculateCdInterest c (cs_amount i) (oldest_block members) getCurrentBlockchainHeight epochFeeRates = Ret earned
                 /\ cs_claimedInterest i <= earned).

Definition commitment_transfer_ok (ph : Hash) (i : TransactionInputCommitmentTransfer) (sig : list bytes) : Prop :=
  ct_outputIndexes i <> [] /\ CD_TRANSFER_MIN_REMAINING_TERM <= ct_newTerm i
  /\ exists members, commitment_ring (ct_amount i) (ct_outputIndexes i) members /\ ring_signed ph (ct_keyImage i) members sig.

Definition input_ok (ph : Hash) (i : TransactionInput) (sig : list bytes) : Prop :=
  match i with
  | InKey k => key_input_ok ph k sig
  | InMultisignature m => multisignature_input_ok ph m sig
  | InCommitmentSpend i => commitment_spend_ok ph i sig
  | InCommitmentTransfer i => commitment_transfer_ok ph i sig
  | _ => False
  end.

(** The references to commitment outputs hold 32-bit heights and terms. *)
Definition refs_ok : Prop :=
  map_Forall (fun _ refs => Forall (fun r => is_u32 (ti_block (cr_transactionIndex r)) /\ is_u32 (cr_term r)) refs) (m_commitmentOutputs s).

(** ** Rings of keys *)

Lemma spent_false k : have_tx_keyimg_as_spent k = false <-> m_spent_keys s !! k = None.
Proof. unfold have_tx_keyimg_as_spent. rewrite bool_decide_eq_false. by rewrite <- eq_None_not_Some. Qed.

Lemma handle_output_spec tx out key :
  handle_output tx out = Some key <->
  out_target out = OutKey (mkKeyOutput key) /\ is_tx_spendtime_unlocked (tx_unlockTime tx) = true.
Proof.
  unfold handle_output. destruct (is_tx_spendtime_unlocked _); cbn [negb]; [| by split; [| intros [_ ?]]].
  destruct (out_target out) as [[k] | | |]; split; try done; try (by intros [? _]); [by intros [= ->] | by intros [[= ->] _]].
Qed.

Lemma scan_loop_spec offsets outs keys pmax ks :
  (exists p', scan_loop offsets outs keys pmax = Ret (Some ks, p'))
  <-> exists new, ks = keys ++ new /\ Forall2 (ring_member outs) offsets new.
Proof.
  revert keys pmax. induction offsets as [| i rest IH]; intros keys pmax; cbn [scan_loop].
  - split.
    + intros [p' [= -> _]]. exists []. by rewrite app_nil_r.
    + intros (new & -> & ->%Forall2_nil_inv_l). rewrite app_nil_r. by eexists.
  - destruct (Z.leb_spec (Z.of_nat (length outs)) i) as [Hi | Hi].
    { split; [by intros [? ?] |]. intros (new & _ & (k & l & (p & ? & ? & Hp & _) & _ & _)%Forall2_cons_inv_l).
      apply vec_at_Ret in Hp as [? ?%lookup_lt_Some]. lia. }
    split.
    + intros [p' H]. apply outcome_bind_inv in H as (p & Hp & H). apply outcome_bind_inv in H as (e & He & H).
      destruct (_ <? _) eqn:Hn; [| done]. apply outcome_bind_inv in H as (out & Ho & H).
      destruct (handle_output (te_tx e) out) as [key |] eqn:Hh; [| done]. apply handle_output_spec in Hh as [Hk Hu].
      destruct (proj1 (IH _ _) (ex_intro _ p' H)) as (new & -> & Hf).
      exists (key :: new). rewrite <- app_assoc. split; [done |]. constructor; [by exists p, e, out | done].
    + intros (new & -> & (key & l & (p & e & out & Hp & He & Ho & Hk & Hu) & Hf & ->)%Forall2_cons_inv_l).
      rewrite Hp, outcome_bind_ret, He, outcome_bind_ret.
      pose proof (proj1 (vec_at_Ret _ _ _) Ho) as [? ?%lookup_lt_Some].
      destruct (Z.ltb_spec p.2 (Z.of_nat (length (tx_outputs (te_tx e))))); [| lia]. cbn [negb].
      rewrite Ho, outcome_bind_ret. rewrite (proj2 (handle_output_spec _ _ _) (conj Hk Hu)).
      apply IH. exists l. by rewrite <- app_assoc.
Qed.

Lemma length_to_absolute prev off : length (to_absolute prev off) = length off.
Proof. revert prev. induction off as [| x off IH]; intros prev; cbn; [done | by rewrite IH]. Qed.

Lemma length_absolute off : length (relative_output_offsets_to_absolute off) = length off.
Proof. destruct off; cbn; [done | by rewrite length_to_absolute]. Qed.

(** A key input that was not spent passes the check exactly when it is in order. *)
Lemma check_tx_input_spec ph k sig pmax :
  ki_outputIndexes k <> [] -> m_spent_keys s !! ki_keyImage k = None ->
  (exists p', check_tx_input k ph sig pmax = Ret (true, p')) <-> key_input_ok ph k sig.
Proof.
  intros Hne Hs. unfold check_tx_input, scanOutputKeysForIndexes, key_input_ok.
  destruct (key_image_in_domain (ki_keyImage k)); cbn [negb]; [| split; [by intros [? ?] | by intros (_ & _ & ? & _)]].
  destruct (m_outputs s !! ki_amount k) as [outs |]; [| split; [by intros [? ?] | by intros (_ & _ & _ & ? & ? & ? & _)]].
  rewrite bool_decide_eq_false_2 by done. split.
  - intros [p' H]. apply outcome_bind_inv in H as ([[ks |] p1] & Hsc & H); [| done].
    destruct (proj1 (scan_loop_spec _ _ _ _ _) (ex_intro _ p1 Hsc)) as (new & -> & Hf). cbn [app] in *.
    destruct (Nat.eqb_spec (length (ki_outputIndexes k)) (length new)); [| done]. cbn [negb] in H.
    destruct (Nat.eqb_spec (length sig) (length new)); [| done]. cbn [negb] in H.
    split_and!; try done. exists outs, new. split_and!; try done.
    destruct m_is_in_checkpoint_zone; [by left | right]. by injection H.
  - intros (_ & _ & _ & outs' & keys & [= <-] & Hf & Hl & Hr).
    destruct (proj2 (scan_loop_spec (relative_output_offsets_to_absolute (ki_outputIndexes k)) outs [] pmax keys)) as [p1 ->]; [by exists keys |].
    rewrite outcome_bind_ret. apply Forall2_length in Hf. rewrite length_absolute in Hf.
    rewrite Hf, Nat.eqb_refl, Hl, Nat.eqb_refl. cbn [negb]. destruct Hr as [-> | ->]; [by eexists |].
    destruct m_is_in_checkpoint_zone; by eexists.
Qed.

(** ** Multisignatures *)

Lemma signatures_match_spec ph count sigs keys k :
  0 <= k <= count -> count <= Z.of_nat (length sigs) ->
  exists b, signatures_match ph count sigs keys k = Ret b
    /\ (b = true <-> exists signers, signers `sublist_of` keys
          /\ Forall2 (fun key sig => check_signature ph key sig = true) signers (take (Z.to_nat (count - k)) (drop (Z.to_nat k) sigs))).
Proof.
  revert k. induction keys as [| key keys IH]; intros k Hk Hl; cbn [signatures_match].
  - destruct (Z.leb_spec count k) as [Hc | Hc]; eexists; (split; [reflexivity |]).
    + split; [intros _ | done]. exists []. replace (Z.to_nat (count - k)) with 0%nat by lia. rewrite take_0. by split.
    + split; [done |]. intros (signers & ->%sublist_nil_r & Hf%Forall2_length). rewrite length_take, length_drop in Hf. cbn in Hf. lia.
  - destruct (Z.leb_spec count k) as [Hc | Hc].
    { eexists; split; [reflexivity |]. split; [intros _ | done]. exists []. replace (Z.to_nat (count - k)) with 0%nat by lia.
      rewrite take_0. split; [apply sublist_nil_l | constructor]. }
    destruct (vec_at_in_range sigs k) as [sig Hsig]; [lia |]. rewrite Hsig, outcome_bind_ret.
    apply vec_at_Ret in Hsig as [_ Hsig]. pose proof (drop_S _ _ _ Hsig) as Hd.
    replace (Z.to_nat (count - k)) with (S (Z.to_nat (count - (k + 1)))) by lia.
    assert (Hk1 : Z.to_nat (k + 1) = S (Z.to_nat k)) by lia.
    destruct (check_signature ph key sig) eqn:Hch.
    + destruct (IH (k + 1) ltac:(lia) Hl) as (b & -> & Hb). exists b. split; [done |]. rewrite Hb, Hk1, Hd. cbn [take].
      clear Hb. split.
      * intros (signers & Hs & Hf). exists (key :: signers). split; [by constructor | by constructor].
      * intros (signers & Hs & (x & l & Hx & Hf & ->)%Forall2_cons_inv_r).
        apply sublist_cons_l in Hs as (k1 & k2 & Heq & Hs).
        exists l. split; [| done]. destruct k1 as [| y k1]; cbn in Heq; injection Heq as -> ->; [done |].
        transitivity k2; [done |]. apply sublist_inserts_l. by apply sublist_cons.
    + destruct (IH k Hk Hl) as (b & -> & Hb). exists b. split; [done |]. rewrite Hb.
      replace (Z.to_nat (count - k)) with (S (Z.to_nat (count - (k + 1)))) by lia. rewrite Hd. cbn [take]. clear Hb. split.
      * intros (signers & Hs & Hf). exists signers. split; [by apply sublist_cons | done].
      * intros (signers & Hs & Hf). exists signers. split; [| done]. inversion Hs as [| ? ? ? Hs' | ? ? ? Hs']; subst; [| done].
        inversion Hf; subst. congruence.
Qed.

Lemma validateInput_spec ph m sig : validateInput m ph sig = Ret true <-> multisignature_input_ok ph m sig.
Proof.
  unfold validateInput, multisignature_input_ok. split.
  - intros H. apply outcome_bind_inv in H as (u & Hu & H). unfold assert_ in Hu.
    destruct (Z.eqb_spec (mi_signatureCount m) (Z.of_nat (length sig))) as [Hc |]; [clear u Hu | done]. split; [done |].
    destruct (m_multisignatureOutputs s !! mi_amount m) as [usages |]; [| done].
    destruct (_ <=? _); [done |]. apply outcome_bind_inv in H as (usage & Husage & H).
    destruct (mu_isUsed usage) eqn:Huse; [done |]. apply outcome_bind_inv in H as (e & He & H).
    destruct (is_tx_spendtime_unlocked _) eqn:Hun; cbn [negb] in H; [| done].
    apply outcome_bind_inv in H as (out & Ho & H). apply outcome_bind_inv in H as (u & Hu & H). unfold assert_ in Hu.
    destruct (Z.eqb_spec (out_amount out) (mi_amount m)); [clear u Hu | done]. destruct (out_target out) as [| o | |] eqn:Ht; try done.
    destruct (Z.eqb_spec (mi_signatureCount m) (mo_requiredSignatureCount o)); cbn [negb] in H; [| done].
    destruct (Z.eqb_spec (mi_term m) (mo_term o)); cbn [negb] in H; [| done].
    destruct (_ && _) eqn:Hlock; [done |].
    destruct (signatures_match_spec ph (mi_signatureCount m) sig (mo_keys o) 0) as (b & Hb & Hiff); [lia | lia |].
    rewrite Hb in H. injection H as ->. destruct (proj1 Hiff eq_refl) as (signers & Hs & Hf).
    exists usages, usage, e, out, o. split_and!; try done.
    + apply andb_false_iff in Hlock as [Hz%negb_false_iff%Z.eqb_eq | Hz%Z.ltb_ge]; [by left | by right].
    + exists signers. by rewrite Z.sub_0_r, drop_0 in Hf.
  - intros (Hc & usages & usage & e & out & o & Hus & Husage & Huse & He & Hun & Ho & Ham & Ht & Hreq & Hterm & Hlock & signers & Hs & Hf).
    unfold assert_. destruct (Z.eqb_spec (mi_signatureCount m) (Z.of_nat (length sig))); [| done]. rewrite outcome_bind_ret, Hus.
    pose proof (proj1 (vec_at_Ret _ _ _) Husage) as [? ?%lookup_lt_Some].
    destruct (Z.leb_spec (Z.of_nat (length usages)) (mi_outputIndex m)); [lia |].
    rewrite Husage, outcome_bind_ret, Huse, He, outcome_bind_ret, Hun. cbn [negb]. rewrite Ho, outcome_bind_ret, Ham, Z.eqb_refl, outcome_bind_ret, Ht.
    rewrite <- Hreq, Z.eqb_refl, Hterm, Z.eqb_refl. cbn [negb].
    assert (negb (mo_term o =? 0) && (getCurrentBlockchainHeight <? u32 (ti_block (mu_transactionIndex usage) + mo_term o)) = false) as ->.
    { destruct Hlock as [-> | Hlock]; [done |]. apply andb_false_iff. right. by apply Z.ltb_ge. }
    destruct (signatures_match_spec ph (mi_signatureCount m) sig (mo_keys o) 0) as (b & -> & Hiff); [lia | lia |].
    f_equal. apply Hiff. exists signers. by rewrite Z.sub_0_r, drop_0.
Qed.

(** ** Rings of commitments *)

Definition non_forever (ref : CommitmentOutputRef) : bool := negb (cr_term ref =? DEPOSIT_TERM_FOREVER).

(** What a loop over a ring has collected after [members]. *)
Definition collected (r r' : Ring) (members : list CommitmentOutputRef) : Prop :=
  ring_keys r' = ring_keys r ++ map cr_commitKey members
  /\ ring_hasNonForever r' = ring_hasNonForever r || existsb non_forever members.

Definition collected_oldest (r r' : Ring) (members : list CommitmentOutputRef) : Prop :=
  ring_oldest r' = foldl (fun o ref => Z.min o (ti_block (cr_transactionIndex ref))) (ring_oldest r) members.

Lemma collected_nil r : collected r r [].
Proof. split; cbn; [by rewrite app_nil_r | by rewrite orb_false_r]. Qed.

Lemma collected_cons r r1 r' ref members :
  ring_keys r1 = ring_keys r ++ [cr_commitKey ref] -> ring_hasNonForever r1 = ring_hasNonForever r || non_forever ref ->
  collected r1 r' members -> collected r r' (ref :: members).
Proof. intros Hk Hn [H1 H2]. split; cbn; [by rewrite H1, Hk, <- app_assoc | by rewrite H2, Hn, orb_assoc]. Qed.

Lemma min_if a b : (if a <? b then a else b) = Z.min b a.
Proof. destruct (Z.ltb_spec a b); lia. Qed.

Lemma spend_ring_spec indexes refs r :
  (forall r' p', spend_ring indexes refs r = Ret (Some r', p') ->
     exists members, Forall2 (fun i ref => vec_at refs i = Ret ref /\ cr_isSlashed ref = false) indexes members
       /\ Forall (fun ref => cr_term ref = DEPOSIT_TERM_FOREVER \/ immature ref = false) members
       /\ collected r r' members /\ collected_oldest r r' members)
  /\ (forall members, Forall2 (fun i ref => vec_at refs i = Ret ref /\ cr_isSlashed ref = false) indexes members ->
       Forall (fun ref => cr_term ref = DEPOSIT_TERM_FOREVER \/ immature ref = false) members ->
       exists r' p', spend_ring indexes refs r = Ret (Some r', p') /\ collected r r' members /\ collected_oldest r r' members).
Proof.
  revert r. induction indexes as [| i rest IH]; intros r; cbn [spend_ring]; split.
  - intros r' p' [= <- _]. exists []. split_and!; [constructor | constructor | apply collected_nil | done].
  - intros members ->%Forall2_nil_inv_l _. eexists _, _. split_and!; [reflexivity | apply collected_nil | done].
  - intros r' p' H. destruct (_ <=? _); [done |]. apply outcome_bind_inv in H as (ref & Href & H).
    destruct (negb (cr_term ref =? DEPOSIT_TERM_FOREVER) && immature ref) eqn:Him; [done |].
    destruct (cr_isSlashed ref) eqn:Hsl; [done |]. apply (IH _) in H as (members & Hf & Hm & Hc & Ho).
    exists (ref :: members). split_and!; [by constructor | constructor; [| done] | eapply collected_cons; [| | exact Hc]; done | ].
    + apply andb_false_iff in Him as [Hz%negb_false_iff%Z.eqb_eq | Hz]; [by left | by right].
    + unfold collected_oldest in *. cbn in *. by rewrite Ho, min_if.
  - intros members (ref & l & [Href Hsl] & Hf & ->)%Forall2_cons_inv_l [Hm Hms]%Forall_cons.
    pose proof (proj1 (vec_at_Ret _ _ _) Href) as [? ?%lookup_lt_Some].
    destruct (Z.leb_spec (Z.of_nat (length refs)) i); [lia |]. rewrite Href, outcome_bind_ret.
    assert (negb (cr_term ref =? DEPOSIT_TERM_FOREVER) && immature ref = false) as ->.
    { destruct Hm as [-> | ->]; [by rewrite Z.eqb_refl | apply andb_false_r]. }
    rewrite Hsl. match goal with |- context [spend_ring rest refs ?x] => destruct (proj2 (IH x) l Hf Hms) as (r' & p' & -> & Hc & Ho) end.
    eexists _, _. split_and!; [reflexivity | eapply collected_cons; [| | exact Hc]; done |]. unfold collected_oldest in *. cbn in *. by rewrite Ho, min_if.
Qed.

Lemma transfer_ring_spec indexes refs r :
  (forall r' p', transfer_ring indexes refs r = Ret (Some r', p') ->
     exists members, Forall2 (fun i ref => vec_at refs i = Ret ref /\ cr_isSlashed ref = false) indexes members
       /\ collected r r' members)
  /\ (forall members, Forall2 (fun i ref => vec_at refs i = Ret ref /\ cr_isSlashed ref = false) indexes members ->
       exists r' p', transfer_ring indexes refs r = Ret (Some r', p') /\ collected r r' members).
Proof.
  revert r. induction indexes as [| i rest IH]; intros r; cbn [transfer_ring]; split.
  - intros r' p' [= <- _]. exists []. split; [constructor | apply collected_nil].
  - intros members ->%Forall2_nil_inv_l. eexists _, _. split; [reflexivity | apply collected_nil].
  - intros r' p' H. destruct (_ <=? _); [done |]. apply outcome_bind_inv in H as (ref & Href & H).
    destruct (cr_isSlashed ref) eqn:Hsl; [done |]. apply (IH _) in H as (members & Hf & Hc).
    exists (ref :: members). split; [by constructor | eapply collected_cons; [| | exact Hc]; done].
  - intros members (ref & l & [Href Hsl] & Hf & ->)%Forall2_cons_inv_l.
    pose proof (proj1 (vec_at_Ret _ _ _) Href) as [? ?%lookup_lt_Some].
    destruct (Z.leb_spec (Z.of_nat (length refs)) i); [lia |]. rewrite Href, outcome_bind_ret, Hsl.
    match goal with |- context [transfer_ring rest refs ?x] => destruct (proj2 (IH x) l Hf) as (r' & p' & -> & Hc) end.
    eexists _, _. split; [reflexivity | eapply collected_cons; [| | exact Hc]; done].
Qed.

Lemma non_forever_exists members :
  existsb non_forever members = true <-> Exists (fun ref => cr_term ref <> DEPOSIT_TERM_FOREVER) members.
Proof.
  rewrite existsb_exists, Exists_exists. unfold non_forever. setoid_rewrite negb_true_iff. setoid_rewrite Z.eqb_neq.
  by setoid_rewrite list_elem_of_In.
Qed.

(** The 32-bit maturity test decides the maturity over the integers: a sum that wraps is immature. *)
Lemma immature_spec ref :
  is_u32 (ti_block (cr_transactionIndex ref)) -> is_u32 (cr_term ref) ->
  (cr_term ref = DEPOSIT_TERM_FOREVER \/ immature ref = false) <-> mature ref.
Proof.
  intros Hb Ht. unfold mature, immature, is_u32 in *.
  assert (Hh : 0 <= getCurrentBlockchainHeight < 2 ^ 32) by apply Z.mod_pos_bound, eq_refl.
  set (b := ti_block _) in *. set (t := cr_term ref) in *. set (h := getCurrentBlockchainHeight) in *.
  assert (Hm : (0 <? t) && ((u32 (b + t) <? b) || (h <? u32 (b + t))) = false <-> t = 0 \/ b + t <= h); [| tauto].
  rewrite andb_false_iff, orb_false_iff, !Z.ltb_ge. unfold u32 in *.
  destruct (Z.lt_ge_cases (b + t) (2 ^ 32)) as [Hlt | Hge].
  - rewrite Z.mod_small by lia. lia.
  - replace ((b + t) mod 2 ^ 32) with (b + t - 2 ^ 32) by (rewrite <- (Z.mod_add _ (-1)) by done; rewrite Z.mod_small; lia). lia.
Qed.

Lemma claim_allowed_spec i oldest :
  claim_allowed i oldest = Ret true
  <-> (0 < cs_claimedInterest i -> cs_claimedInterest i <= m_feePoolBalance s
       /\ exists earned, calculateCdInterest c (cs_amount i) oldest getCurrentBlockchainHeight epochFeeRates = Ret earned
            /\ cs_claimedInterest i <= earned).
Proof.
  unfold claim_allowed. destruct (Z.ltb_spec 0 (cs_claimedInterest i)) as [Hp | Hp]; [| split; [lia | done]].
  split.
  - intros H _. apply outcome_bind_inv in H as (earned & Hc & H). injection H as H.
    apply negb_true_iff, Z.ltb_ge in H. destruct (Z.ltb_spec (m_feePoolBalance s) earned); (split; [lia |]; exists earned; split; [done | lia]).
  - intros H. destruct (H Hp) as (Hf & earned & -> & He). rewrite outcome_bind_ret. f_equal. apply negb_true_iff, Z.ltb_ge.
    destruct (Z.ltb_spec (m_feePoolBalance s) earned); lia.
Qed.

Lemma refs_ok_members amount refs indexes members :
  refs_ok -> m_commitmentOutputs s !! amount = Some refs ->
  Forall2 (fun i ref => vec_at refs i = Ret ref /\ cr_isSlashed ref = false) indexes members ->
  Forall (fun ref => cr_term ref = DEPOSIT_TERM_FOREVER \/ immature ref = false) members <-> Forall mature members.
Proof.
  intros Hok Hrefs Hf. assert (Hu : Forall (fun r => is_u32 (ti_block (cr_transactionIndex r)) /\ is_u32 (cr_term r)) members).
  { apply Forall_forall. intros ref Href. apply list_elem_of_lookup in Href as [j Hj].
    apply Forall2_flip in Hf. destruct (Forall2_lookup_l _ _ _ _ _ Hf Hj) as (i & _ & Hi & _).
    apply vec_at_Ret in Hi as [_ Hi]. specialize (Hok _ _ Hrefs). cbn in Hok. exact (Forall_lookup_1 _ _ _ _ Hok Hi). }
  rewrite !Forall_forall. rewrite Forall_forall in Hu. split; intros H ref Href; destruct (Hu ref Href); apply immature_spec; auto.
Qed.

Lemma spend_check_spec ph i sig pmax :
  refs_ok -> cs_outputIndexes i <> [] -> m_spent_keys s !! cs_keyImage i = None ->
  (exists p', checkCommitmentSpendInput i ph sig pmax = Ret (true, p')) <-> commitment_spend_ok ph i sig.
Proof.
  intros Hok Hne Hs. unfold checkCommitmentSpendInput, commitment_spend_ok, commitment_ring, ring_signed.
  destruct (key_image_in_domain (cs_keyImage i)); cbn [negb]; [| split; [by intros [? ?] | by intros (_ & ? & _ & (? & _) & _)]].
  destruct (m_commitmentOutputs s !! cs_amount i) as [refs |] eqn:Hrefs; [| split; [by intros [? ?] | by intros (_ & ? & (? & ? & _) & _)]].
  match goal with |- context [spend_ring ?l refs ?x] => destruct (spend_ring_spec l refs x) as [Hsound Hcomplete] end. split.
  - intros [p' H]. apply outcome_bind_inv in H as ([[r |] p1] & Hsp & H); [| done].
    destruct (Hsound _ _ Hsp) as (members & Hf & Hm & [Hk Hn] & Ho). cbn in Hk, Hn. unfold collected_oldest in Ho. cbn in Ho.
    destruct (ring_hasNonForever r) eqn:Hnf; [| done]. cbn [negb] in H. symmetry in Hn.
    destruct (Nat.eqb_spec (length (ring_keys r)) (length sig)) as [Hl |]; [| done]. cbn [negb] in H.
    destruct (check_ring_signature ph (cs_keyImage i) (ring_keys r) sig) eqn:Hsig; [| done]. cbn [negb] in H.
    apply outcome_bind_inv in H as (ok & Hcl & H). injection H as -> _. rewrite Hk in Hl, Hsig. rewrite length_map in Hl.
    split; [done |]. exists members. split_and!.
    + exists refs. split_and!; [done | done | by apply non_forever_exists].
    + done.
    + done.
    + by symmetry.
    + done.
    + by eapply refs_ok_members.
    + apply claim_allowed_spec. by rewrite Ho in Hcl.
  - intros (_ & members & (refs' & [= <-] & Hf & Hn) & (_ & _ & Hl & Hsig) & Hm & Hcl).
    destruct (Hcomplete members Hf) as (r' & p' & -> & [Hk Hn'] & Ho); [by eapply refs_ok_members |].
    cbn in Hk, Hn'. unfold collected_oldest in Ho. cbn in Ho.
    rewrite outcome_bind_ret, Hn', (proj2 (non_forever_exists _) Hn), Hk, length_map, Hl, Nat.eqb_refl, Hsig. cbn [negb].
    exists p'. fold (oldest_block members) in Ho. rewrite Ho. by rewrite (proj2 (claim_allowed_spec i _) Hcl).
Qed.

Lemma transfer_check_spec ph i sig pmax :
  ct_outputIndexes i <> [] -> m_spent_keys s !! ct_keyImage i = None ->
  (exists p', checkCommitmentTransferInput i ph sig pmax = Ret (true, p')) <-> commitment_transfer_ok ph i sig.
Proof.
  intros Hne Hs. unfold checkCommitmentTransferInput, commitment_transfer_ok, commitment_ring, ring_signed.
  destruct (key_image_in_domain (ct_keyImage i)); cbn [negb]; [| split; [by intros [? ?] | by intros (_ & _ & ? & _ & (? & _))]].
  destruct (Z.ltb_spec (ct_newTerm i) CD_TRANSFER_MIN_REMAINING_TERM); [split; [by intros [? ?] | by intros (_ & ? & _); lia] |].
  destruct (m_commitmentOutputs s !! ct_amount i) as [refs |] eqn:Hrefs; [| split; [by intros [? ?] | by intros (_ & _ & ? & (? & ? & _) & _)]].
  match goal with |- context [transfer_ring ?l refs ?x] => destruct (transfer_ring_spec l refs x) as [Hsound Hcomplete] end. split.
  - intros [p' H']. apply outcome_bind_inv in H' as ([[r |] p1] & Hsp & H'); [| done].
    destruct (Hsound _ _ Hsp) as (members & Hf & [Hk Hn]). cbn in Hk, Hn.
    destruct (ring_hasNonForever r) eqn:Hnf; [| done]. cbn [negb] in H'. symmetry in Hn.
    destruct (Nat.eqb_spec (length (ring_keys r)) (length sig)) as [Hl |]; [| done]. cbn [negb] in H'.
    injection H' as Hsig _. rewrite Hk in Hl, Hsig. rewrite length_map in Hl.
    split_and!; [done | done |]. exists members. split.
    + exists refs. split_and!; [done | done | by apply non_forever_exists].
    + split_and!; try done; by symmetry.
  - intros (_ & _ & members & (refs' & [= <-] & Hf & Hn) & (_ & _ & Hl & Hsig)).
    destruct (Hcomplete members Hf) as (r' & p' & -> & [Hk Hn']). cbn in Hk, Hn'.
    rewrite outcome_bind_ret, Hn', (proj2 (non_forever_exists _) Hn), Hk, length_map, Hl, Nat.eqb_refl, Hsig. cbn [negb]. by eexists.
Qed.

(** ** All inputs *)

Lemma check_input_spec ph i sig pmax :
  refs_ok -> isInCheckpointZone getCurrentBlockchainHeight = false ->
  (exists p', check_input ph i sig pmax = Ret (true, p')) <-> input_ok ph i sig.
Proof.
  intros Hok Hz. unfold check_input, input_ok. rewrite Hz.
  destruct i as [b | k | m | i | i | u]; [split; [by intros [? ?] | done] | | | | | split; [by intros [? ?] | done]].
  - case_bool_decide as Hne; [split; [by intros [? ?] | by intros [? _]] |].
    destruct (have_tx_keyimg_as_spent _) eqn:Hs.
    { split; [by intros [? ?] |]. intros (_ & Hn & _). apply spent_false in Hn. congruence. }
    apply spent_false in Hs. split.
    + intros [p' H]. apply outcome_bind_inv in H as ([ok p1] & _ & H). destruct ok; [| done].
      apply (check_tx_input_spec ph k sig p1); [done | done | by exists p'].
    + intros H. destruct (proj2 (check_tx_input_spec ph k sig pmax Hne Hs) H) as [p1 ->]. rewrite outcome_bind_ret.
      exact (proj2 (check_tx_input_spec ph k sig p1 Hne Hs) H).
  - rewrite <- validateInput_spec. split.
    + intros [p' H]. apply outcome_bind_inv in H as (ok & Hv & H). injection H as -> _. done.
    + intros ->. by eexists.
  - case_bool_decide as Hne; [split; [by intros [? ?] | by intros [? _]] |].
    destruct (have_tx_keyimg_as_spent _) eqn:Hs.
    { split; [by intros [? ?] |]. intros (_ & ? & _ & (_ & Hn & _) & _). apply spent_false in Hn. congruence. }
    apply spent_false in Hs. by apply spend_check_spec.
  - case_bool_decide as Hne; [split; [by intros [? ?] | by intros [? _]] |].
    destruct (have_tx_keyimg_as_spent _) eqn:Hs.
    { split; [by intros [? ?] |]. intros (_ & _ & ? & _ & (_ & Hn & _)). apply spent_false in Hn. congruence. }
    apply spent_false in Hs. by apply transfer_check_spec.
Qed.

Lemma check_inputs_spec ph ins sigs pmax :
  refs_ok -> isInCheckpointZone getCurrentBlockchainHeight = false ->
  (exists p', check_inputs ph ins sigs pmax = Ret (true, p'))
  <-> exists used rest, sigs = used ++ rest /\ Forall2 (input_ok ph) ins used.
Proof.
  intros Hok Hz. revert sigs pmax. induction ins as [| i ins IH]; intros sigs pmax; cbn [check_inputs].
  - split; [intros _; by exists [], sigs | intros _; by eexists].
  - destruct sigs as [| sig sigs]; [split; [by intros [? ?] |]|].
    { intros (used & rest & Heq & Hf). symmetry in Heq. apply app_nil in Heq as [-> _]. inversion Hf. }
    split.
    + intros [p' H]. apply outcome_bind_inv in H as ([ok p1] & Hi & H). destruct ok; [| done].
      destruct (proj1 (IH sigs p1) (ex_intro _ p' H)) as (used & rest & -> & Hf).
      exists (sig :: used), rest. split; [done |]. constructor; [| done]. eapply check_input_spec; [done | done | by exists p1].
    + intros (used & rest & Heq & (x & l & Hx & Hf & ->)%Forall2_cons_inv_l). injection Heq as <- ->.
      destruct (proj2 (check_input_spec ph i sig pmax Hok Hz) Hx) as [p1 ->]. rewrite outcome_bind_ret. cbn [negb].
      apply IH. by exists l, rest.
Qed.

(** C6: the inputs of a transaction are accepted exactly when each of them may be spent, as the code understands it.  Outside the
    checkpoint zone (inside it no signature is checked) [checkTransactionInputs] answers true if and only if every input has its signatures and:
    a key input is unspent and its ring of unlocked key outputs of the amount verifies (unless the flag [m_is_in_checkpoint_zone] is still set, which spares the signatures); a multisignature
    input names an unused, unlocked output with the same amount, term and number of signatures, whose block and term add up
    at 32 bits to no more than the current height (so that a deposit for ever counts as over), and enough of its keys signed in order; a commitment is unspent, its ring
    verifies, contains no slashed member, only mature ones and not only burned ones, and claims at most
    what its oldest member can have earned and what the fee pool holds; a transfer likewise, without
    maturity. *)
Theorem inputs_accepted_iff tx ph pmax :
  refs_ok -> isInCheckpointZone getCurrentBlockchainHeight = false ->
  (exists p', checkTransactionInputs tx ph pmax = Ret (true, p'))
  <-> exists used rest, tx_signatures tx = used ++ rest /\ Forall2 (input_ok ph) (tx_inputs tx) used.
Proof. apply check_inputs_spec. Qed.

(** ** A deposit for ever *)

(** A multisignature deposit for ever can be withdrawn at once.  The outputs of a burn are accepted at any
    height, and as soon as its block is in the chain (past the genesis block) and its keys sign, the input that spends it
    is valid, although the term is far from over: the 32-bit sum of height and term wraps to the height before. *)
Theorem forever_deposit_is_spendable ph m sig usages usage e out o version height :
  mi_signatureCount m = Z.of_nat (length sig) ->
  m_multisignatureOutputs s !! mi_amount m = Some usages -> vec_at usages (mi_outputIndex m) = Ret usage -> mu_isUsed usage = false ->
  transactionByIndex m_blocks (mu_transactionIndex usage) = Ret e -> is_tx_spendtime_unlocked (tx_unlockTime (te_tx e)) = true ->
  vec_at (tx_outputs (te_tx e)) (mu_outputIndex usage) = Ret out -> out_amount out = mi_amount m -> out_target out = OutMultisignature o ->
  mi_signatureCount m = mo_requiredSignatureCount o -> mi_term m = mo_term o -> signed_by ph (mi_signatureCount m) (mo_keys o) sig ->
  mo_term o = DEPOSIT_TERM_FOREVER -> 1 <= ti_block (mu_transactionIndex usage) <= getCurrentBlockchainHeight ->
  TRANSACTION_VERSION_2 <= version -> m_depositMinAmount c <= out_amount out ->
  check_tx_output version height out = true
  /\ getCurrentBlockchainHeight < ti_block (mu_transactionIndex usage) + mo_term o
  /\ validateInput m ph sig = Ret true.
Proof.
  intros Hc Hus Husage Huse He Hun Ho Ham Ht Hreq Hterm Hsig Hf Hb Hv Hmin.
  assert (Hh : 0 <= getCurrentBlockchainHeight < 2 ^ 32) by apply Z.mod_pos_bound, eq_refl.
  change DEPOSIT_TERM_FOREVER with (2 ^ 32 - 1) in Hf. split_and!; [| lia |].
  - unfold check_tx_output. rewrite Ht. destruct (Z.ltb_spec version TRANSACTION_VERSION_2); [lia |].
    destruct (_ && _); [| done]. rewrite Hf. cbn. apply negb_true_iff, Z.ltb_ge. done.
  - apply validateInput_spec. split; [done |]. exists usages, usage, e, out, o. split_and!; try done. right.
    unfold u32. replace ((ti_block (mu_transactionIndex usage) + mo_term o) mod 2 ^ 32) with (ti_block (mu_transactionIndex usage) - 1); [lia |].
    rewrite Hf, <- (Z.mod_add _ (-1)) by done. rewrite Z.mod_small; lia.
Qed.

End InputChecks.

(** * Pushing an accepted transaction *)

Lemma push_key_inputs_fresh h ins earlier spent :
  NoDup (ring_images ins) -> Forall (fun k => spent !! k = None) (ring_images ins) ->
  push_key_inputs h earlier ins spent = Ret (true, insert_all h (ring_images ins) spent).
Proof.
  revert earlier spent. induction ins as [| i ins IH]; intros earlier spent Hnd Hf; [done |].
  cbn [push_key_inputs]. destruct i as [b | k | m | i | i | u]; try exact (IH _ _ Hnd Hf).
  change (ring_images (InKey k :: ins)) with (ki_keyImage k :: ring_images ins) in *.
  apply NoDup_cons in Hnd as [Hk Hnd]. apply Forall_cons in Hf as [Hfr Hf]; cbn in Hfr; rewrite Hfr. rewrite IH; [| done |].
  - by rewrite insert_all_comm.
  - rewrite Forall_forall in Hf |- *. intros x Hx. cbn. rewrite lookup_insert_ne by (intros Heq; subst x; done). by apply Hf.
Qed.

(** The multisignature inputs name outputs that exist. *)
Definition usages_exist (ins : list TransactionInput) (m : gmap Z (list MultisignatureOutputUsage)) : Prop :=
  Forall (fun p => is_Some (usage_at m p)) (multisig_pairs ins).

Lemma push_other_inputs_fresh h ins s :
  NoDup (commitment_images ins) -> Forall (fun k => m_spent_keys s !! k = None) (commitment_images ins) ->
  usages_exist ins (m_multisignatureOutputs s) -> exists s', push_other_inputs h ins s = Ret (true, s').
Proof.
  revert s. induction ins as [| i ins IH]; intros s Hnd Hf Hu; cbn [push_other_inputs]; [by eexists |].
  destruct i as [b | k | m | i | i | u]; try exact (IH _ Hnd Hf Hu).
  - apply Forall_cons in Hu as [[x Hx] Hu]. rewrite (set_used_some _ _ _ _ _ Hx), outcome_bind_ret.
    apply IH; [done | done |]. unfold usages_exist in *. rewrite Forall_forall in Hu |- *. intros p Hp. cbn.
    rewrite usage_at_mark. by apply fmap_is_Some, Hu.
  - change (commitment_images (InCommitmentSpend i :: ins)) with (cs_keyImage i :: commitment_images ins) in *.
    apply NoDup_cons in Hnd as [Hk Hnd]. apply Forall_cons in Hf as [Hfr Hf]; cbn in Hfr; rewrite Hfr. apply IH; [done | | unfold redeem; by destruct (_ && _)].
    rewrite redeem_spent. cbn. rewrite Forall_forall in Hf |- *. intros x Hx. cbn. rewrite lookup_insert_ne by (intros Heq; subst x; done). by apply Hf.
  - change (commitment_images (InCommitmentTransfer i :: ins)) with (ct_keyImage i :: commitment_images ins) in *.
    apply NoDup_cons in Hnd as [Hk Hnd]. apply Forall_cons in Hf as [Hfr Hf]; cbn in Hfr; rewrite Hfr. apply IH; [done | | done].
    cbn. rewrite Forall_forall in Hf |- *. intros x Hx. cbn. rewrite lookup_insert_ne by (intros Heq; subst x; done). by apply Hf.
Qed.

Section Pushing.
Context (c : Currency).
Context (m_blocks : list BlockEntry) (s : Store) (m_checkpoints : points) (epochFeeRates : list Z).
Context (m_is_in_checkpoint_zone : bool) (blockMajorVersion : Z) (now : Z).
Context (key_image_in_domain : bytes -> bool).
Context (check_ring_signature : Hash -> bytes -> list bytes -> list bytes -> bool).
Context (check_signature : Hash -> bytes -> bytes -> bool).
Context (pid : Transaction -> option Hash) (oh : Transaction -> Hash).

Abbreviation ok := (input_ok c m_blocks s epochFeeRates m_is_in_checkpoint_zone blockMajorVersion now
  key_image_in_domain check_ring_signature check_signature).
Abbreviation check := (checkTransactionInputs c m_blocks s m_checkpoints epochFeeRates m_is_in_checkpoint_zone blockMajorVersion now
  key_image_in_domain check_ring_signature check_signature).

(** What accepted inputs leave to [pushTransaction]: fresh images and outputs that exist. *)
Lemma accepted_inputs_fresh ph ins sigs :
  Forall2 (ok ph) ins sigs ->
  Forall (fun k => m_spent_keys s !! k = None) (ring_images ins) /\ Forall (fun k => m_spent_keys s !! k = None) (commitment_images ins)
  /\ usages_exist ins (m_multisignatureOutputs s).
Proof.
  unfold usages_exist. induction 1 as [| i sig ins sigs Hi Hf (IHr & IHc & IHm)]; [by repeat constructor |].
  destruct i as [b | k | m | i | i | u]; cbn [input_ok] in Hi; [done | | | | | done].
  - destruct Hi as (_ & Hs & _). split_and!; [by constructor | done | done].
  - destruct Hi as (_ & usages & usage & _ & _ & _ & Hus & Hu & _). split_and!; [done | done | constructor; [| done]].
    apply vec_at_Ret in Hu as [Hi Hu]. unfold usage_at. cbn. destruct (Z.ltb_spec (mi_outputIndex m) 0); [lia |]. rewrite Hus. by exists usage.
  - destruct Hi as (_ & members & _ & (_ & Hs & _) & _). split_and!; [done | by constructor | done].
  - destruct Hi as (_ & _ & members & _ & (_ & Hs & _)). split_and!; [done | by constructor | done].
Qed.

(** A transaction that the node accepts can be pushed.  If [checkTransactionInputs] accepts a transaction
    outside the checkpoint zone, no key image and no multisignature output occurs twice in it, its hash
    is new and it has fewer than 65536 outputs, then [pushTransaction] succeeds: ignoring its result, as
    [pushBlock] does, loses nothing. *)
Theorem accepted_transaction_is_pushed ph e pmax p' hash ti height :
  refs_ok s -> is_in_checkpoint_zone m_checkpoints (currentHeight m_blocks) = false ->
  check (te_tx e) ph pmax = Ret (true, p') ->
  NoDup (spent_images (tx_inputs (te_tx e))) -> checkMultisignatureInputsDiff (te_tx e) = true ->
  m_transactionMap s !! hash = None -> Z.of_nat (length (tx_outputs (te_tx e))) < 65536 ->
  exists s' e', pushTransaction pid oh s height e hash ti = Ret (true, s', e').
Proof.
  intros Hrefs Hz Hc Hnd Hms Hh Hl.
  destruct (proj1 (inputs_accepted_iff _ _ _ _ _ _ _ _ _ _ _ _ _ _ Hrefs Hz) (ex_intro _ p' Hc)) as (used & rest & _ & Hf).
  destruct (accepted_inputs_fresh _ _ _ Hf) as (Hr & Hci & Hu). clear Hf Hc.
  rewrite (spent_images_perm (tx_inputs (te_tx e))) in Hnd. apply NoDup_app in Hnd as (Hnr & Hdis & Hnc).
  unfold pushTransaction. rewrite Hh, Hms. cbn [negb]. rewrite push_key_inputs_fresh, outcome_bind_ret by done. cbn [negb].
  match goal with |- context [push_other_inputs height ?ins ?st] => destruct (push_other_inputs_fresh height ins st) as [s1 ->] end; [done | | done |].
  - cbn. rewrite Forall_forall in Hci |- *. intros k Hk. cbn. rewrite insert_all_lookup. case_decide as Hin; [| by apply Hci].
    by destruct (Hdis k).
  - rewrite outcome_bind_ret. cbn [negb]. destruct (Z.leb_spec 65536 (Z.of_nat (length (tx_outputs (te_tx e))))); [lia |].
    destruct (push_outputs _ _ _ _ _). by eexists _, _.
Qed.

(** A commitment that is spent twice by one transaction counts twice.  [check_tx_inputs_keyimages_diff] looks
    at key inputs only, and [checkTransactionInputs] at the images of earlier blocks only: a transaction with the same
    commitment input two times is accepted, and its fee, which the miner of its block is paid, contains the
    amount and the interest twice.  [pushTransaction] then answers false, which [pushBlock] does not look at; the image stays
    spent and the outputs are never created. *)
Theorem repeated_commitment_counts_twice ph e i sig1 sig2 pmax hash ti height :
  refs_ok s -> is_in_checkpoint_zone m_checkpoints (currentHeight m_blocks) = false ->
  tx_inputs (te_tx e) = [InCommitmentSpend i; InCommitmentSpend i] -> tx_signatures (te_tx e) = [sig1; sig2] ->
  ok ph (InCommitmentSpend i) sig1 -> ok ph (InCommitmentSpend i) sig2 ->
  0 <= cs_amount i -> 0 <= cs_claimedInterest i -> 2 * (cs_amount i + cs_claimedInterest i) < 2 ^ 64 ->
  0 <= get_outs_money_amount (te_tx e) <= 2 * (cs_amount i + cs_claimedInterest i) -> m_transactionMap s !! hash = None ->
  (exists p', check (te_tx e) ph pmax = Ret (true, p'))
  /\ check_tx_inputs_keyimages_diff key_image_in_domain (te_tx e) = true /\ checkMultisignatureInputsDiff (te_tx e) = true
  /\ getTransactionFee c (te_tx e) height = Ret (Some (2 * (cs_amount i + cs_claimedInterest i) - get_outs_money_amount (te_tx e)))
  /\ exists s', pushTransaction pid oh s height e hash ti = Ret (false, s', e)
       /\ m_spent_keys s' = <[cs_keyImage i := height]> (m_spent_keys s) /\ m_transactionMap s' = m_transactionMap s
       /\ m_outputs s' = m_outputs s /\ m_commitmentOutputs s' = m_commitmentOutputs s.
Proof.
  intros Hrefs Hz Hins Hsigs Hok1 Hok2 Ha Hi Hsum Hout Hh. split_and!.
  - apply inputs_accepted_iff; [done | done |]. exists [sig1; sig2], []. rewrite Hsigs, Hins. split; [done | by constructor; [| constructor; [| constructor]]].
  - unfold check_tx_inputs_keyimages_diff. by rewrite Hins.
  - unfold checkMultisignatureInputsDiff. by rewrite Hins.
  - unfold getTransactionFee. rewrite Hins. cbn [sum_inputs getTransactionInputAmount]. rewrite !outcome_bind_ret.
    set (x := cs_amount i + cs_claimedInterest i) in *. pose proof u64_small as E.
    rewrite Z.add_0_l, !(E x), (E (x + x)) by lia. destruct (Z.ltb_spec (x + x) (get_outs_money_amount (te_tx e))); [lia |].
    rewrite E by lia. do 2 f_equal. lia.
  - destruct Hok1 as (_ & members & _ & (_ & Hs & _) & _).
    unfold pushTransaction, checkMultisignatureInputsDiff. rewrite Hh, Hins. cbn [multisignature_diff_loop negb push_key_inputs].
    rewrite outcome_bind_ret. cbn [negb push_other_inputs with_spent m_spent_keys with_map]. rewrite Hs.
    rewrite redeem_spent. cbn [with_spent m_spent_keys]. rewrite lookup_insert_eq, outcome_bind_ret. cbn [negb].
    eexists. split; [reflexivity |]. unfold redeem.
    destruct (_ && _); cbn; (split_and!; [done | | done | done]); rewrite delete_insert_id; done.
Qed.

End Pushing.

(** * A chain and a transaction that spends from it *)

Module InputDemo.
(** Two key outputs, a deposit of 20 blocks, a commitment of 9 blocks and a deposit for ever, in block 3 of 26. *)
Definition old_tx : Transaction :=
  mkTransaction 2 0 []
    [mkTransactionOutput 100 (OutKey (mkKeyOutput (key_of 21))); mkTransactionOutput 100 (OutKey (mkKeyOutput (key_of 22)));
     mkTransactionOutput 300 (OutMultisignature (mkMultisignatureOutput [key_of 5; key_of 6] 1 20));
     mkTransactionOutput 800 (OutCommitment (mkOutputCommitment (key_of 11) 9 (key_of 8) empty_proof));
     mkTransactionOutput 8000000 (OutMultisignature (mkMultisignatureOutput [key_of 6] 1 DEPOSIT_TERM_FOREVER))] [] [].
Definition block_of (txs : list Transaction) : BlockEntry :=
  mkBlockEntry (be_bl rich_block) 0 0 0 0 (map (fun tx => mkTxEntry tx []) txs).
Definition blocks : list BlockEntry := replicate 3 (block_of []) ++ block_of [old_tx] :: replicate 22 (block_of []).
Definition store : Store :=
  mkStore ∅ {[ key_of 10 := 3 ]} {[ 100 := [(old_index, 0); (old_index, 1)] ]}
    (<[300 := [mkUsage old_index 2 false]]> {[ 8000000 := [mkUsage old_index 4 false] ]})
    {[ 800 := [mkCommitmentRef old_index 3 (key_of 11) 9 false] ]} 1600 12 7 ∅.
Definition rates : list Z := [1000; 10000; 0].
Definition check_ring (_ : Hash) (_ : bytes) (keys sig : list bytes) : bool := bool_decide (keys = sig).
Definition check_sig (_ : Hash) (key sig : bytes) : bool := bool_decide (key = sig).
Definition signed (tx : Transaction) (sigs : list (list bytes)) : Transaction :=
  mkTransaction (tx_version tx) (tx_unlockTime tx) (tx_inputs tx) (tx_outputs tx) (tx_extra tx) sigs.
Definition spending_tx : Transaction := signed rich_tx [[key_of 21; key_of 22]; [key_of 6]; [key_of 11]; [key_of 11]].
(** The same commitment two times. *)
Definition twice : TransactionInputCommitmentSpend := mkCommitmentSpend 800 [0] (key_of 3) 5.
Definition doubled_tx : Transaction :=
  mkTransaction 2 0 [InCommitmentSpend twice; InCommitmentSpend twice]
    [mkTransactionOutput 10 (OutKey (mkKeyOutput (key_of 30)))] [] [[key_of 11]; [key_of 11]].
Lemma store_refs : refs_ok store.
Proof. intros a refs H. cbn in H. apply lookup_singleton_Some in H as [<- <-]. repeat constructor; cbn; lia. Qed.
Lemma twice_ok : input_ok testnet blocks store rates false 10 0 (fun _ => true) check_ring check_sig [] (InCommitmentSpend twice) [key_of 11].
Proof.
  apply (check_input_spec testnet blocks store [] rates false 10 0 (fun _ => true) check_ring check_sig [] _ _ None); [apply store_refs | done |].
  eexists. vm_compute. reflexivity.
Qed.
End InputDemo.

Import InputDemo.

Lemma inputs_accepted_iff_witness :
  exists used rest, tx_signatures spending_tx = used ++ rest
    /\ Forall2 (input_ok testnet blocks store rates false 10 0 (fun _ => true) check_ring check_sig []) (tx_inputs spending_tx) used.
Proof.
  apply (inputs_accepted_iff testnet blocks store [] rates false 10 0 (fun _ => true) check_ring check_sig spending_tx [] (Some 0));
    [apply store_refs | reflexivity |]. exists (Some 3). vm_compute. reflexivity.
Defined.

Lemma forever_deposit_is_spendable_witness :
  validateInput testnet blocks store 10 0 check_sig (mkMultisignatureInput 8000000 1 0 DEPOSIT_TERM_FOREVER) [] [key_of 6] = Ret true.
Proof.
  apply (forever_deposit_is_spendable testnet blocks store 10 0 check_sig [] (mkMultisignatureInput 8000000 1 0 DEPOSIT_TERM_FOREVER)
    [key_of 6] [mkUsage old_index 4 false] (mkUsage old_index 4 false) (mkTxEntry old_tx [])
    (mkTransactionOutput 8000000 (OutMultisignature (mkMultisignatureOutput [key_of 6] 1 DEPOSIT_TERM_FOREVER)))
    (mkMultisignatureOutput [key_of 6] 1 DEPOSIT_TERM_FOREVER) 2 900000); try reflexivity.
  - exists [key_of 6]. split; [reflexivity |]. repeat constructor.
  - vm_compute. split; discriminate.
Defined.

Lemma accepted_transaction_is_pushed_witness :
  exists s' e', pushTransaction rich_pid rich_hash store 26 (mkTxEntry spending_tx []) (key_of 99) (mkTxIndex 26 1) = Ret (true, s', e').
Proof.
  apply (accepted_transaction_is_pushed testnet blocks store [] rates false 10 0 (fun _ => true) check_ring check_sig rich_pid rich_hash
    [] (mkTxEntry spending_tx []) None None); [apply store_refs | reflexivity | vm_compute; reflexivity | | reflexivity | reflexivity | cbn; lia].
  apply (bool_decide_unpack _). vm_compute. exact I.
Defined.

Lemma repeated_commitment_counts_twice_witness :
  getTransactionFee testnet doubled_tx 26 = Ret (Some (2 * (800 + 5) - get_outs_money_amount doubled_tx))
  /\ exists s', pushTransaction rich_pid rich_hash store 26 (mkTxEntry doubled_tx []) (key_of 99) (mkTxIndex 26 1)
       = Ret (false, s', mkTxEntry doubled_tx []) /\ m_outputs s' = m_outputs store.
Proof.
  destruct (repeated_commitment_counts_twice testnet blocks store [] rates false 10 0 (fun _ => true) check_ring check_sig rich_pid rich_hash
    [] (mkTxEntry doubled_tx []) twice [key_of 11] [key_of 11] None (key_of 99) (mkTxIndex 26 1) 26)
    as (_ & _ & _ & Hfee & s' & Hs & _ & _ & Ho & _);
    [apply store_refs | reflexivity | reflexivity | reflexivity | exact twice_ok | exact twice_ok | cbn; lia | cbn; lia | cbn; lia
    | vm_compute; split; discriminate | reflexivity |].
  split; [exact Hfee |]. exists s'. split; [exact Hs | exact Ho].
Defined.
