(* ===== verification/AliasIndex.v ===== *)
(** The registry of names: [src/src/CryptoNoteCore/AliasIndex.cpp] and [AliasIndex.h].  An alias belongs
    to the hash of an address; every address has at most one, the fund of the developers excepted,
    which owns four from the start. *)

From S2P Require Import Prelude Hex Keccak.

Record AliasEntry := mkAliasEntry {
  ae_alias : bytes;
  ae_ownerAddress : bytes;
  ae_aliasHash : Hash;
  ae_addressHash : Hash;
  ae_aliasType : Z;
  ae_registeredBlock : Z
}.

(** [m_addrHashToAlias] is keyed by the hexadecimal text of the address hash. *)
Record AliasIndex := mkAliasIndex {
  m_aliases : gmap bytes AliasEntry;
  m_addrHashToAlias : gmap bytes bytes
}.

(** * Construction *)

Definition FUEGO_DEV_FUND_ADDRESS : bytes :=
  str "fireVHx639SLMhzmBoJ8drTXbVyv2eRG6A8aMLc1taTiRNwk8pnwXpBDUSjH1dT5fg7yVVZrKkvm31CmigAMdVDg7sgxJmAUNp".

Definition reserved : list (bytes * Z) :=
  [(str "FUEGOXFG", 0); (str "fuegoxfg", 1); (str "FUEGODEV", 0); (str "fuegodev", 1)].

(** One turn of the loop over the reserved names. *)
Definition reserve (x : AliasIndex) (r : bytes * Z) : AliasIndex :=
  let entry := mkAliasEntry r.1 [] (cn_fast_hash r.1) (cn_fast_hash FUEGO_DEV_FUND_ADDRESS) r.2 0 in
  let addrHashHex := toHex (ae_addressHash entry) in
  mkAliasIndex (<[ae_alias entry := entry]> (m_aliases x))
    (match m_addrHashToAlias x !! addrHashHex with
     | None => <[addrHashHex := ae_alias entry]> (m_addrHashToAlias x)
     | Some _ => m_addrHashToAlias x
     end).

Definition reserveDevTeamAliases (x : AliasIndex) : AliasIndex := foldl reserve x reserved.

Definition newAliasIndex : AliasIndex := reserveDevTeamAliases (mkAliasIndex ∅ ∅).

(** * The form of names *)

Definition isValidElderfierAlias (alias : bytes) : bool :=
  if bool_decide (alias = str "GALAPAGOS") then true
  else if bool_decide (alias = str "WINSLAYER") then true
  else if bool_decide (alias = str "LOUDMINING") then true
  else if negb (length alias =? 8)%nat then false
  else forallb (fun c => ((65 <=? c) && (c <=? 90)) || ((48 <=? c) && (c <=? 57)) || (c =? 38)) alias.

Definition isValidRegularAlias (alias : bytes) : bool :=
  if bool_decide (alias = str "winslayer") then true
  else if bool_decide (alias = str "galapagos") then true
  else if negb (length alias =? 8)%nat then false
  else forallb (fun c => ((97 <=? c) && (c <=? 122)) || ((48 <=? c) && (c <=? 57)) || (c =? 38)) alias.

(** * Registration *)

(** The names that exclude each other. *)
Definition opposite_case (alias : bytes) : option bytes :=
  if bool_decide (alias = str "winslayer") then Some (str "WINSLAYER")
  else if bool_decide (alias = str "WINSLAYER") then Some (str "winslayer")
  else if bool_decide (alias = str "galapagos") then Some (str "GALAPAGOS")
  else if bool_decide (alias = str "GALAPAGOS") then Some (str "galapagos")
  else None.

Definition aliasExists (x : AliasIndex) (alias : bytes) : bool := bool_decide (is_Some (m_aliases x !! alias)).

Definition name_taken (x : AliasIndex) (alias : bytes) : bool :=
  match opposite_case alias with
  | Some opposite => aliasExists x opposite || aliasExists x alias
  | None => aliasExists x alias
  end.

Definition registerAlias (x : AliasIndex) (entry : AliasEntry) : bool * AliasIndex :=
  if name_taken x (ae_alias entry) then (false, x)
  else
    let addrHashHex := toHex (ae_addressHash entry) in
    if bool_decide (is_Some (m_addrHashToAlias x !! addrHashHex)) then (false, x)
    else if negb (if ae_aliasType entry =? 0 then isValidElderfierAlias (ae_alias entry)
                  else if ae_aliasType entry =? 1 then isValidRegularAlias (ae_alias entry)
                  else false) then (false, x)
    else (true, mkAliasIndex (<[ae_alias entry := entry]> (m_aliases x))
                  (<[addrHashHex := ae_alias entry]> (m_addrHashToAlias x))).

Definition voidAlias (x : AliasIndex) (ownerAddress : bytes) : bool * AliasIndex :=
  let addrHashHex := toHex (cn_fast_hash ownerAddress) in
  match m_addrHashToAlias x !! addrHashHex with
  | None => (false, x)
  | Some aliasName =>
      (true, mkAliasIndex (delete aliasName (m_aliases x)) (delete addrHashHex (m_addrHashToAlias x)))
  end.

(** * Queries *)

Definition addressHasAlias (x : AliasIndex) (address : bytes) : bool :=
  bool_decide (is_Some (m_addrHashToAlias x !! toHex (cn_fast_hash address))).

Definition getAliasByName (x : AliasIndex) (alias : bytes) : option AliasEntry := m_aliases x !! alias.

Definition getAliasByAddress (x : AliasIndex) (address : bytes) : option AliasEntry :=
  alias ← m_addrHashToAlias x !! toHex (cn_fast_hash address); m_aliases x !! alias.

(** The entries, in the order of their names; the order does not matter to what is said here. *)
Definition getAllAliases (x : AliasIndex) : list AliasEntry := (map_to_list (m_aliases x)).*2.

Definition alias_size (x : AliasIndex) : Z := Z.of_nat (size (m_aliases x)).

(** * The registry is consistent *)

(** A valid name for its type. *)
Definition valid_alias (aliasType : Z) (alias : bytes) : bool :=
  if aliasType =? 0 then isValidElderfierAlias alias
  else if aliasType =? 1 then isValidRegularAlias alias else false.

Definition dev_hash : Hash := cn_fast_hash FUEGO_DEV_FUND_ADDRESS.

Record alias_ok (x : AliasIndex) : Prop := {
  ok_name a e : m_aliases x !! a = Some e -> ae_alias e = a /\ valid_alias (ae_aliasType e) a = true;
  ok_target h a : m_addrHashToAlias x !! h = Some a ->
    exists e, m_aliases x !! a = Some e /\ toHex (ae_addressHash e) = h;
  ok_owner a e : m_aliases x !! a = Some e -> toHex (ae_addressHash e) <> toHex dev_hash ->
    m_addrHashToAlias x !! toHex (ae_addressHash e) = Some a;
  ok_case a b : opposite_case a = Some b -> is_Some (m_aliases x !! a) -> m_aliases x !! b = None
}.

#[local] Opaque cn_fast_hash toHex.

Lemma opposite_case_sym a b : opposite_case a = Some b -> opposite_case b = Some a.
Proof.
  unfold opposite_case at 1. repeat case_bool_decide; intros [= <-]; subst; reflexivity.
Qed.

Lemma opposite_case_ne a b : opposite_case a = Some b -> a <> b.
Proof. unfold opposite_case. repeat case_bool_decide; intros [= <-]; subst; discriminate. Qed.

Lemma aliasExists_false x a : aliasExists x a = false <-> m_aliases x !! a = None.
Proof. unfold aliasExists. by rewrite bool_decide_eq_false, eq_None_not_Some. Qed.

Lemma name_taken_false x a :
  name_taken x a = false <-> m_aliases x !! a = None /\ forall b, opposite_case a = Some b -> m_aliases x !! b = None.
Proof.
  unfold name_taken. destruct (opposite_case a) as [o |].
  - rewrite orb_false_iff, !aliasExists_false. split; [intros [? ?]; split; [done | by intros b [= <-]] |].
    intros [? Hb]. split; [by apply Hb | done].
  - rewrite aliasExists_false. split; [done | by intros [? _]].
Qed.

(** When a registration goes through, and what it changes. *)
Lemma registerAlias_true x e x' :
  registerAlias x e = (true, x') <->
    (m_aliases x !! ae_alias e = None /\ (forall b, opposite_case (ae_alias e) = Some b -> m_aliases x !! b = None)
     /\ m_addrHashToAlias x !! toHex (ae_addressHash e) = None /\ valid_alias (ae_aliasType e) (ae_alias e) = true)
    /\ x' = mkAliasIndex (<[ae_alias e := e]> (m_aliases x))
              (<[toHex (ae_addressHash e) := ae_alias e]> (m_addrHashToAlias x)).
Proof.
  pose proof (name_taken_false x (ae_alias e)) as Ht. unfold registerAlias.
  destruct (name_taken x (ae_alias e)).
  - split; [done |]. intros [(Ha & Hb & _) _]. destruct Ht as [_ Ht]. discriminate Ht. done.
  - destruct Ht as [Ht _]. destruct (Ht eq_refl) as [Ha Hb]. clear Ht. case_bool_decide as Hs.
    + split; [done |]. intros [(_ & _ & Hn & _) _]. rewrite Hn in Hs. by destruct Hs.
    + apply eq_None_not_Some in Hs. unfold valid_alias. destruct (if ae_aliasType e =? 0 then _ else _); cbn [negb].
      * split; [intros [= <-]; done | by intros [_ ->]].
      * split; [done | by intros [(_ & _ & _ & ?) _]].
Qed.

Lemma registerAlias_ok x e x' : alias_ok x -> registerAlias x e = (true, x') -> alias_ok x'.
Proof.
  intros [Hn Ht Ho Hc] [(Ha & Hopp & Hh & Hv) ->]%registerAlias_true.
  split; cbn [m_aliases m_addrHashToAlias].
  - intros a f [[<- <-] | [Hne Hf]]%lookup_insert_Some; [done | by apply Hn].
  - intros h a [[<- <-] | [Hne Hf]]%lookup_insert_Some; [exists e; by rewrite lookup_insert_eq |].
    destruct (Ht _ _ Hf) as (f & Hf1 & Hf2). exists f. rewrite lookup_insert_ne; [done |]. congruence.
  - intros a f [[<- <-] | [Hne Hf]]%lookup_insert_Some Hd; [by rewrite lookup_insert_eq |].
    pose proof (Ho _ _ Hf Hd) as Hm. rewrite lookup_insert_ne; [done |]. congruence.
  - intros a b Hab Hs. rewrite lookup_insert_None. rewrite lookup_insert_is_Some in Hs.
    destruct Hs as [<- | [Hne Hs]].
    + split; [by apply Hopp |]. intros <-. by apply (opposite_case_ne (ae_alias e) (ae_alias e)).
    + split; [by apply Hc with a |]. intros <-. apply opposite_case_sym in Hab. rewrite (Hopp _ Hab) in Hs. by destruct Hs.
Qed.

Lemma voidAlias_ok x addr x' : alias_ok x -> voidAlias x addr = (true, x') -> alias_ok x'.
Proof.
  intros [Hn Ht Ho Hc]. unfold voidAlias.
  destruct (m_addrHashToAlias x !! _) as [name |] eqn:E; [| done]. intros [= <-].
  destruct (Ht _ _ E) as (f & Hf1 & Hf2).
  split; cbn [m_aliases m_addrHashToAlias].
  - intros a e [_ He]%lookup_delete_Some. by apply Hn.
  - intros h a [Hne Hh]%lookup_delete_Some. destruct (Ht _ _ Hh) as (e & He1 & He2).
    exists e. rewrite lookup_delete_ne; [done |]. intros <-. congruence.
  - intros a e [Hne He]%lookup_delete_Some Hd. rewrite lookup_delete_ne; [by apply Ho |].
    intros Heq. pose proof (Ho _ _ He Hd). congruence.
  - intros a b Hab [e [_ He]%lookup_delete_Some]. apply lookup_delete_None. right. by apply Hc with a.
Qed.

Lemma newAliasIndex_eq :
  let entry r := mkAliasEntry r.1 [] (cn_fast_hash r.1) dev_hash r.2 0 in
  newAliasIndex = mkAliasIndex (foldl (fun m r => <[r.1 := entry r]> m) ∅ reserved) {[toHex dev_hash := str "FUEGOXFG"]}.
Proof.
  intros entry. unfold newAliasIndex, reserveDevTeamAliases, reserve, reserved. cbn [foldl m_addrHashToAlias m_aliases ae_addressHash ae_alias].
  fold dev_hash. generalize (toHex dev_hash). intros h. rewrite lookup_empty, !lookup_insert_eq. done.
Qed.

Lemma reserved_lookup (entry : bytes * Z -> AliasEntry) r :
  r ∈ reserved -> foldl (fun m r => <[r.1 := entry r]> m) (∅ : gmap bytes AliasEntry) reserved !! r.1 = Some (entry r).
Proof.
  unfold reserved at 1. rewrite !elem_of_cons, elem_of_nil. intros Hr.
  repeat (destruct Hr as [-> | Hr]; [vm_compute; reflexivity |]). done.
Qed.

Lemma newAliasIndex_lookup a e :
  m_aliases newAliasIndex !! a = Some e ->
  exists r, r ∈ reserved /\ a = r.1 /\ e = mkAliasEntry r.1 [] (cn_fast_hash r.1) dev_hash r.2 0.
Proof.
  rewrite newAliasIndex_eq. cbn [m_aliases]. unfold reserved at 1. cbn [foldl].
  rewrite !lookup_insert_Some, lookup_empty. intros H.
  repeat (destruct H as [[<- <-] | [_ H]]; [eexists; split; [| split; reflexivity]; unfold reserved; set_solver |]). done.
Qed.

Lemma newAliasIndex_ok : alias_ok newAliasIndex.
Proof.
  split.
  - intros a e (r & Hr & -> & ->)%newAliasIndex_lookup. cbn. split; [done |].
    revert Hr. unfold reserved. rewrite !elem_of_cons, elem_of_nil. intros Hr.
    repeat (destruct Hr as [-> | Hr]; [reflexivity |]). done.
  - rewrite newAliasIndex_eq. cbn [m_addrHashToAlias m_aliases]. intros h a [<- <-]%lookup_singleton_Some.
    eexists. split; [apply (reserved_lookup _ (str "FUEGOXFG", 0)); unfold reserved; set_solver | done].
  - intros a e (r & Hr & -> & ->)%newAliasIndex_lookup Hd. by destruct (Hd eq_refl).
  - intros a b Hab [e (r & Hr & -> & ->)%newAliasIndex_lookup]. exfalso. revert Hr Hab. unfold reserved.
    rewrite !elem_of_cons, elem_of_nil. intros Hr. repeat (destruct Hr as [-> | Hr]; [discriminate |]). done.
Qed.

(** ** Runs of the registry *)

Inductive AliasOp := Register (e : AliasEntry) | VoidAlias (ownerAddress : bytes).

Definition alias_step (x : AliasIndex) (op : AliasOp) : AliasIndex :=
  match op with
  | Register e => (registerAlias x e).2
  | VoidAlias addr => (voidAlias x addr).2
  end.

Definition alias_run (ops : list AliasOp) : AliasIndex := foldl alias_step newAliasIndex ops.

Lemma registerAlias_false x e x' : registerAlias x e = (false, x') -> x' = x.
Proof.
  unfold registerAlias. destruct (name_taken _ _); [by intros [= ->] |]. case_bool_decide; [by intros [= ->] |].
  destruct (negb _); [by intros [= ->] | done].
Qed.

Lemma voidAlias_false x addr x' : voidAlias x addr = (false, x') -> x' = x.
Proof. unfold voidAlias. destruct (_ !! _); [done | by intros [= ->]]. Qed.

Lemma alias_step_ok x op : alias_ok x -> alias_ok (alias_step x op).
Proof.
  intros Hx. destruct op as [e | addr]; cbn [alias_step].
  - destruct (registerAlias x e) as [[] x'] eqn:E; [by eapply registerAlias_ok | by apply registerAlias_false in E as ->].
  - destruct (voidAlias x addr) as [[] x'] eqn:E; [by eapply voidAlias_ok | by apply voidAlias_false in E as ->].
Qed.

Lemma alias_run_ok ops : alias_ok (alias_run ops).
Proof.
  unfold alias_run. generalize newAliasIndex_ok. generalize newAliasIndex.
  induction ops as [| op ops IH]; intros x Hx; [done |]. by apply IH, alias_step_ok.
Qed.

(** The four names of the fund, as long as nobody voids the alias of its address. *)
Definition keeps_reserved (x : AliasIndex) : Prop :=
  m_addrHashToAlias x !! toHex dev_hash = Some (str "FUEGOXFG")
  /\ forall r, r ∈ reserved -> m_aliases x !! r.1 = Some (mkAliasEntry r.1 [] (cn_fast_hash r.1) dev_hash r.2 0).

Lemma newAliasIndex_reserved : keeps_reserved newAliasIndex.
Proof.
  rewrite newAliasIndex_eq. split; cbn [m_addrHashToAlias m_aliases]; [apply lookup_singleton_eq |]. intros r Hr. by apply reserved_lookup.
Qed.

Lemma alias_step_reserved x op :
  alias_ok x -> (match op with VoidAlias addr => toHex (cn_fast_hash addr) <> toHex dev_hash | Register _ => True end) ->
  keeps_reserved x -> keeps_reserved (alias_step x op).
Proof.
  intros Hx Hop [Hd Hr]. destruct op as [e | addr]; cbn [alias_step].
  - destruct (registerAlias x e) as [[] x'] eqn:E; [| by apply registerAlias_false in E as ->].
    apply registerAlias_true in E as [(Ha & _ & Hh & _) ->]. split; cbn [snd m_aliases m_addrHashToAlias].
    + rewrite lookup_insert_ne; [done |]. congruence.
    + intros r Hin. rewrite lookup_insert_ne; [by apply Hr |]. intros Heq. rewrite Heq, (Hr r Hin) in Ha. done.
  - unfold voidAlias. destruct (m_addrHashToAlias x !! toHex (cn_fast_hash addr)) as [name |] eqn:E; [| done].
    destruct (ok_target _ Hx _ _ E) as (f & Hf1 & Hf2). split; cbn [snd m_aliases m_addrHashToAlias].
    + by rewrite lookup_delete_ne.
    + intros r Hin. rewrite lookup_delete_ne; [by apply Hr |]. intros Heq. rewrite Heq, (Hr r Hin) in Hf1.
      injection Hf1 as <-. cbn [ae_addressHash] in Hf2. exact (Hop (eq_sym Hf2)).
Qed.

(** The registry of names is consistent whatever is registered and voided.  Every stored name has the
    form of its type, no two names that differ in case exclude each other are both taken, and two names
    of one address are the same name unless they belong to the developers' fund.  A lookup by address
    finds an entry of that address which the lookup by name finds as well, and an entry that is not
    the fund's is found by its address hash.  As long as no voided address has the hash of the fund's,
    the four reserved names stay the fund's. *)
Theorem alias_registry_consistent ops :
  let x := alias_run ops in
  (forall a e, getAliasByName x a = Some e ->
     ae_alias e = a /\ valid_alias (ae_aliasType e) a = true
     /\ (forall b, opposite_case a = Some b -> getAliasByName x b = None)
     /\ (forall b f, getAliasByName x b = Some f -> toHex (ae_addressHash f) = toHex (ae_addressHash e) ->
           toHex (ae_addressHash e) <> toHex dev_hash -> a = b)
     /\ (forall addr, cn_fast_hash addr = ae_addressHash e -> toHex (ae_addressHash e) <> toHex dev_hash ->
           getAliasByAddress x addr = Some e))
  /\ (forall addr, addressHasAlias x addr = true ->
        exists e, getAliasByAddress x addr = Some e /\ getAliasByName x (ae_alias e) = Some e
          /\ toHex (ae_addressHash e) = toHex (cn_fast_hash addr))
  /\ (Forall (fun op => match op with VoidAlias addr => toHex (cn_fast_hash addr) <> toHex dev_hash | _ => True end) ops ->
      forall r, r ∈ reserved -> exists e, getAliasByName x r.1 = Some e /\ ae_addressHash e = dev_hash).
Proof.
  intros x. pose proof (alias_run_ok ops) as [Hn Ht Ho Hc]. fold x in Hn, Ht, Ho, Hc.
  unfold getAliasByName, getAliasByAddress, addressHasAlias. split_and!.
  - intros a e He. destruct (Hn _ _ He) as [H1 H2]. split_and!; try done.
    + intros b Hb. by apply (Hc a).
    + intros b f Hf Heq Hd. pose proof (Ho _ _ He Hd) as Hea. rewrite <- Heq in Hea, Hd.
      pose proof (Ho _ _ Hf Hd). congruence.
    + intros addr -> Hd. rewrite (Ho _ _ He Hd). done.
  - intros addr [a Ha]%bool_decide_eq_true. destruct (Ht _ _ Ha) as (e & He1 & He2). exists e. rewrite Ha. cbn.
    destruct (Hn _ _ He1) as [-> _]. done.
  - intros Hops r Hr.
    assert (keeps_reserved x) as [_ Hk].
    { subst x. clear -Hops. unfold alias_run. generalize newAliasIndex_ok newAliasIndex_reserved. generalize newAliasIndex.
      induction Hops as [| op ops Hop _ IH]; intros y Hy Hk; [done |].
      by apply IH; [apply alias_step_ok | apply alias_step_reserved]. }
    eexists. by split; [apply Hk |].
Qed.

(** Voiding the alias of the fund frees the first reserved name for anybody. *)
Lemma reserved_name_can_be_lost owner :
  toHex (cn_fast_hash owner) <> toHex dev_hash ->
  let x := alias_run [VoidAlias FUEGO_DEV_FUND_ADDRESS] in
  let e := mkAliasEntry (str "FUEGOXFG") [] (cn_fast_hash (str "FUEGOXFG")) (cn_fast_hash owner) 0 7 in
  (registerAlias x e).1 = true.
Proof.
  intros Ho x e. subst x. unfold alias_run. cbn [foldl alias_step]. rewrite newAliasIndex_eq. unfold voidAlias.
  cbn [m_addrHashToAlias m_aliases]. fold dev_hash. rewrite lookup_singleton_eq. cbn [snd].
  match goal with |- (registerAlias ?x e).1 = true => assert (exists x', registerAlias x e = (true, x')) as [x' ->] end; [| done].
  eexists. apply registerAlias_true. split; [| reflexivity]. subst e. cbn [ae_alias m_aliases m_addrHashToAlias ae_addressHash ae_aliasType].
  split_and!; [apply lookup_delete_eq | done | | reflexivity].
  rewrite lookup_delete_ne by done. by apply lookup_singleton_ne.
Qed.

(** Two users; the second name of the first user, the second user's attempt at a taken name and the
    counterpart of a special name are refused. *)
Definition alias_demo : list AliasOp :=
  let entry a addr := mkAliasEntry (str a) [] (cn_fast_hash (str a)) (cn_fast_hash (str addr)) 1 5 in
  [Register (entry "winslayer" "alice"); Register (entry "alice123" "alice"); Register (entry "fuegodev" "bob");
   Register (mkAliasEntry (str "WINSLAYER") [] NULL_HASH (cn_fast_hash (str "bob")) 0 6); Register (entry "bob&bob0" "bob");
   VoidAlias (str "carol")].

Lemma alias_registry_consistent_witness :
  let x := alias_run alias_demo in
  alias_size x = 6 /\ getAliasByName x (str "WINSLAYER") = None
  /\ (exists e, getAliasByAddress x (str "bob") = Some e /\ getAliasByName x (ae_alias e) = Some e
        /\ toHex (ae_addressHash e) = toHex (cn_fast_hash (str "bob")))
  /\ exists e, getAliasByName x (str "fuegodev") = Some e /\ ae_addressHash e = dev_hash.
Proof.
  intros x. destruct (alias_registry_consistent alias_demo) as (Hn & Ha & Hr). split_and!.
  - vm_compute. reflexivity.
  - assert (exists e, getAliasByName x (str "winslayer") = Some e) as [e He] by (eexists; vm_compute; reflexivity).
    destruct (Hn _ _ He) as (_ & _ & Hc & _). apply Hc. vm_compute. reflexivity.
  - apply Ha. vm_compute. reflexivity.
  - assert (Hin : (str "fuegodev", 1) ∈ reserved) by (apply list_elem_of_lookup_2 with 3%nat; reflexivity).
    refine (Hr _ _ Hin). repeat apply Forall_cons_2; try exact I; [| apply Forall_nil_2].
    intros E. vm_compute in E. discriminate E.
Defined.
