(* ===== verification/CommitmentStore.v ===== *)
(** The commitments of [src/src/CryptoNoteCore/CommitmentIndex.cpp] and their Merkle tree.

    [CommitmentStore] groups the members of [CommitmentIndex] that hold the commitments and what is
    derived from them; the Elderfiers, their signatures and the epochs are in [Elderfiers.v].  Keys of
    [std::map<std::string, _>] are the hexadecimal text of hashes; maps are walked in the order of
    their keys. *)

From S2P Require Import Prelude Hex Keccak MerkleTree.

(** * Data *)

Inductive CommitmentType := HEAT | COLD | ELDERFIER_STAKING.

#[export] Instance CommitmentType_eq_dec : EqDecision CommitmentType.
Proof. solve_decision. Defined.

Record CommitmentEntry := mkCommitmentEntry {
  ce_commitment : Hash;
  ce_txHash : Hash;
  ce_blockHeight : Z;
  ce_amount : Z;
  ce_term : Z;
  ce_type : CommitmentType;
  ce_targetChainId : Z;
  ce_isLegacyMigration : bool;
  ce_senderAddress : bytes;
  ce_ceremonyAlias : bytes;
  ce_signingPubKey : bytes;
  ce_isSlashed : bool
}.

#[export] Instance CommitmentEntry_eq_dec : EqDecision CommitmentEntry.
Proof. solve_decision. Defined.

Record CommitmentStore := mkCommitmentStore {
  m_commitments : gmap bytes CommitmentEntry;
  m_merkle_leaves : list Hash;
  m_heightIndex : gmap Z (list bytes);
  m_txHashToCommitHash : gmap bytes bytes;
  m_heat_count : Z;
  m_cold_count : Z;
  m_elderfier_stake_count : Z;
  m_current_merkle_root : Hash;
  m_current_block_height : Z
}.

Definition emptyStore : CommitmentStore := mkCommitmentStore ∅ [] ∅ ∅ 0 0 0 NULL_HASH 0.

(** * The order of [std::map] *)

(** Lexicographic order of texts. *)
Fixpoint text_le (a b : bytes) : bool :=
  match a, b with
  | [], _ => true
  | _ :: _, [] => false
  | x :: a, y :: b => if x <? y then true else if y <? x then false else text_le a b
  end.

Definition key_le {A} (a b : bytes * A) : Prop := text_le a.1 b.1 = true.
#[export] Instance key_le_dec {A} : RelDecision (@key_le A) := fun a b => bool_eq_dec _ _.

Definition height_le {A} (a b : Z * A) : Prop := a.1 <= b.1.
#[export] Instance height_le_dec {A} : RelDecision (@height_le A) := fun a b => Z_le_dec _ _.

(** The entries of a map keyed by texts, and of one keyed by heights. *)
Definition in_order {A} (m : gmap bytes A) : list (bytes * A) := merge_sort key_le (map_to_list m).
Definition by_height {A} (m : gmap Z A) : list (Z * A) := merge_sort height_le (map_to_list m).

(** * The Merkle tree *)

(** One level: pairs are hashed, a single last leaf with itself. *)
Fixpoint next_level (level : list Hash) : list Hash :=
  match level with
  | a :: b :: rest => hash2 a b :: next_level rest
  | [a] => [hash2 a a]
  | [] => []
  end.

(** [while (level.size() > 1)]; a level is at most half as long rounded up, so that the length is enough fuel. *)
Fixpoint merkle_loop (fuel : nat) (level : list Hash) : outcome Hash :=
  match fuel, level with
  | _, [] => Undefined
  | _, [a] => Ret a
  | O, _ => Undefined
  | S fuel, _ => merkle_loop fuel (next_level level)
  end.

Definition computeMerkleRootInternal (leaves : list Hash) : outcome Hash :=
  if bool_decide (leaves = []) then Ret NULL_HASH else merkle_loop (length leaves) leaves.

Definition computeMerkleRoot (s : CommitmentStore) : Hash := m_current_merkle_root s.

Definition SIZE_MAX : Z := UINT64_MAX.

(** The position of the first leaf equal to [commitment]. *)
Definition find_leaf (leaves : list Hash) (commitment : Hash) : option nat :=
  p ← list_find (fun x => x = commitment) leaves; Some p.1.

Definition getLeafIndex (s : CommitmentStore) (commitment : Hash) : Z :=
  match find_leaf (m_merkle_leaves s) commitment with Some i => Z.of_nat i | None => SIZE_MAX end.

Definition sibling_idx (idx size : nat) : nat :=
  if Nat.even idx then if (idx + 1 <? size)%nat then idx + 1 else idx else idx - 1.

Fixpoint proof_loop (fuel : nat) (level : list Hash) (idx : nat) : outcome (list Hash) :=
  if (length level <=? 1)%nat then Ret []
  else match fuel with
       | O => Undefined
       | S fuel =>
           sibling ← vec_at level (Z.of_nat (sibling_idx idx (length level)));
           proof ← proof_loop fuel (next_level level) (idx / 2);
           Ret (sibling :: proof)
       end.

Definition getMerkleProof (s : CommitmentStore) (commitment : Hash) : outcome (list Hash) :=
  match find_leaf (m_merkle_leaves s) commitment with
  | None => Ret []
  | Some leaf_idx => proof_loop (length (m_merkle_leaves s)) (m_merkle_leaves s) leaf_idx
  end.

(** * Changing the store *)

(** The switch over the type, with [d] added to the counter. *)
Definition count_type (t : CommitmentType) (d : Z) (s : CommitmentStore) : CommitmentStore :=
  mkCommitmentStore (m_commitments s) (m_merkle_leaves s) (m_heightIndex s) (m_txHashToCommitHash s)
    (match t with HEAT => u64 (m_heat_count s + d) | _ => m_heat_count s end)
    (match t with COLD => u64 (m_cold_count s + d) | _ => m_cold_count s end)
    (match t with ELDERFIER_STAKING => u64 (m_elderfier_stake_count s + d) | _ => m_elderfier_stake_count s end)
    (m_current_merkle_root s) (m_current_block_height s).

Definition with_commitments (f : gmap bytes CommitmentEntry -> gmap bytes CommitmentEntry) (s : CommitmentStore) : CommitmentStore :=
  mkCommitmentStore (f (m_commitments s)) (m_merkle_leaves s) (m_heightIndex s) (m_txHashToCommitHash s)
    (m_heat_count s) (m_cold_count s) (m_elderfier_stake_count s) (m_current_merkle_root s) (m_current_block_height s).

(** The part of [addCommitment] that concerns the commitments; [false] for a duplicate. *)
Definition addToStore (s : CommitmentStore) (entry : CommitmentEntry) : outcome (bool * CommitmentStore) :=
  let commitHex := toHex (ce_commitment entry) in
  if bool_decide (is_Some (m_commitments s !! commitHex)) then Ret (false, s)
  else
    let leaves := m_merkle_leaves s ++ [ce_commitment entry] in
    root ← computeMerkleRootInternal leaves;
    let s := count_type (ce_type entry) 1 s in
    Ret (true, mkCommitmentStore
      (<[commitHex := entry]> (m_commitments s)) leaves
      (<[ce_blockHeight entry := default [] (m_heightIndex s !! ce_blockHeight entry) ++ [commitHex]]> (m_heightIndex s))
      (<[toHex (ce_txHash entry) := commitHex]> (m_txHashToCommitHash s))
      (m_heat_count s) (m_cold_count s) (m_elderfier_stake_count s)
      root
      (if m_current_block_height s <? ce_blockHeight entry then ce_blockHeight entry else m_current_block_height s)).

(** The inner loop of [rollbackToHeight]: the commitments of one height, with the number removed. *)
Fixpoint remove_commitments (hexes : list bytes) (s : CommitmentStore) (removed : Z) : CommitmentStore * Z :=
  match hexes with
  | [] => (s, removed)
  | commitHex :: rest =>
      match m_commitments s !! commitHex with
      | None => remove_commitments rest s removed
      | Some e =>
          remove_commitments rest (with_commitments (delete commitHex) (count_type (ce_type e) (-1) s)) (u64 (removed + 1))
      end
  end.

(** The outer loop, from [upper_bound(h)] on. *)
Fixpoint remove_heights (l : list (Z * list bytes)) (s : CommitmentStore) (removed : Z) : CommitmentStore * Z :=
  match l with
  | [] => (s, removed)
  | (h, hexes) :: rest =>
      let '(s, removed) := remove_commitments hexes s removed in
      remove_heights rest
        (mkCommitmentStore (m_commitments s) (m_merkle_leaves s) (delete h (m_heightIndex s)) (m_txHashToCommitHash s)
           (m_heat_count s) (m_cold_count s) (m_elderfier_stake_count s) (m_current_merkle_root s) (m_current_block_height s))
        removed
  end.

(** The leaves rebuilt from the height index. *)
Definition rebuilt_leaves (s : CommitmentStore) : list Hash :=
  by_height (m_heightIndex s) ≫= fun p => omap (fun hex => ce_commitment <$> m_commitments s !! hex) p.2.

Definition rollbackToHeight (s : CommitmentStore) (h : Z) : outcome (Z * CommitmentStore) :=
  let '(s, removed) := remove_heights (filter (fun p => h < p.1) (by_height (m_heightIndex s))) s 0 in
  let leaves := rebuilt_leaves s in
  root ← computeMerkleRootInternal leaves;
  Ret (removed, mkCommitmentStore (m_commitments s) leaves (m_heightIndex s) (m_txHashToCommitHash s)
    (m_heat_count s) (m_cold_count s) (m_elderfier_stake_count s) root
    (match last (by_height (m_heightIndex s)) with Some p => p.1 | None => 0 end)).

(** One turn of the loop that rebuilds the derived data after loading. *)
Definition load_entry (s : CommitmentStore) (kv : bytes * CommitmentEntry) : CommitmentStore :=
  let entry := kv.2 in
  let s := count_type (ce_type entry) 1 s in
  mkCommitmentStore (m_commitments s) (m_merkle_leaves s ++ [ce_commitment entry])
    (<[ce_blockHeight entry := default [] (m_heightIndex s !! ce_blockHeight entry) ++ [kv.1]]> (m_heightIndex s))
    (<[toHex (ce_txHash entry) := kv.1]> (m_txHashToCommitHash s))
    (m_heat_count s) (m_cold_count s) (m_elderfier_stake_count s) (m_current_merkle_root s)
    (if m_current_block_height s <? ce_blockHeight entry then ce_blockHeight entry else m_current_block_height s).

(** [serialize] on the input serializer: [commitments] is what was read. *)
Definition loadStore (commitments : gmap bytes CommitmentEntry) : outcome CommitmentStore :=
  let s := foldl load_entry (with_commitments (fun _ => commitments) emptyStore) (in_order commitments) in
  root ← computeMerkleRootInternal (m_merkle_leaves s);
  Ret (mkCommitmentStore (m_commitments s) (m_merkle_leaves s) (m_heightIndex s) (m_txHashToCommitHash s)
    (m_heat_count s) (m_cold_count s) (m_elderfier_stake_count s) root (m_current_block_height s)).

(** [updateCurrentMerkleRoot], without the note of the first block. *)
Definition overrideRoot (s : CommitmentStore) (new_root : Hash) : CommitmentStore :=
  mkCommitmentStore (m_commitments s) (m_merkle_leaves s) (m_heightIndex s) (m_txHashToCommitHash s)
    (m_heat_count s) (m_cold_count s) (m_elderfier_stake_count s) new_root 0.

(** [clear]: everything but the index by transaction. *)
Definition clearStore (s : CommitmentStore) : CommitmentStore :=
  mkCommitmentStore ∅ [] ∅ (m_txHashToCommitHash s) 0 0 0 NULL_HASH 0.

(** * Queries *)

Definition hasCommitment (s : CommitmentStore) (commitment : Hash) : bool :=
  bool_decide (is_Some (m_commitments s !! toHex commitment)).

Definition getByCommitment (s : CommitmentStore) (commitment : Hash) : option CommitmentEntry :=
  m_commitments s !! toHex commitment.

Definition store_size (s : CommitmentStore) : Z := Z.of_nat (size (m_commitments s)).

Definition getCommitmentEntryByTxHash (s : CommitmentStore) (txHash : Hash) : option CommitmentEntry :=
  hex ← m_txHashToCommitHash s !! toHex txHash; m_commitments s !! hex.

(** [markCommitmentSlashed]. *)
Definition slashed (e : CommitmentEntry) : CommitmentEntry :=
  mkCommitmentEntry (ce_commitment e) (ce_txHash e) (ce_blockHeight e) (ce_amount e) (ce_term e) (ce_type e)
    (ce_targetChainId e) (ce_isLegacyMigration e) (ce_senderAddress e) (ce_ceremonyAlias e) (ce_signingPubKey e) true.

Definition markCommitmentSlashed (s : CommitmentStore) (depositTxHash : Hash) : bool * CommitmentStore :=
  match m_txHashToCommitHash s !! toHex depositTxHash with
  | None => (false, s)
  | Some hex =>
      match m_commitments s !! hex with
      | None => (false, s)
      | Some e => (true, with_commitments (<[hex := slashed e]>) s)
      end
  end.

Definition isCommitmentSlashed (s : CommitmentStore) (commitHashHex : bytes) : bool :=
  match m_commitments s !! commitHashHex with Some e => ce_isSlashed e | None => false end.

(** * The Merkle tree is sound *)

#[local] Opaque cn_fast_hash toHex.

Lemma list_pair_ind {A} (P : list A -> Prop) :
  P [] -> (forall a, P [a]) -> (forall a b l, P l -> P (a :: b :: l)) -> forall l, P l.
Proof.
  intros H0 H1 H2. fix IH 1. intros [| a [| b l]]; [done | apply H1 | apply H2, IH].
Qed.

Lemma length_next_level l : length (next_level l) = ((length l + 1) / 2)%nat.
Proof.
  induction l as [| a | a b l IH] using list_pair_ind; [done | done |]. cbn [next_level length]. rewrite IH.
  replace (S (S (length l)) + 1)%nat with (length l + 1 + 1 * 2)%nat by lia. rewrite Nat.div_add by lia. lia.
Qed.

Lemma next_level_shorter l : (2 <= length l)%nat -> (1 <= length (next_level l) < length l)%nat.
Proof.
  intros Hl. rewrite length_next_level. pose proof (Nat.div_mod (length l + 1) 2 ltac:(lia)).
  pose proof (Nat.mod_upper_bound (length l + 1) 2 ltac:(lia)). lia.
Qed.

Lemma log2_up_next_level l : (2 <= length l)%nat -> Nat.log2_up (length l) = S (Nat.log2_up (length (next_level l))).
Proof.
  intros Hl. rewrite length_next_level. set (n := length l) in *.
  pose proof (Nat.div_mod (n + 1) 2 ltac:(lia)). pose proof (Nat.mod_upper_bound (n + 1) 2 ltac:(lia)).
  set (m := ((n + 1) / 2)%nat) in *. destruct (Nat.eq_dec m 1) as [-> | Hm].
  - change (Nat.log2_up 1) with 0%nat. assert (n = 2)%nat as -> by lia. done.
  - pose proof (Nat.log2_up_spec m ltac:(lia)) as Hs. apply Nat.log2_up_unique; [lia |].
    rewrite <- pred_Sn. rewrite Nat.pow_succ_r'. destruct (Nat.log2_up m) as [| k] eqn:E.
    + apply Nat.log2_up_null in E. lia.
    + rewrite <- pred_Sn in Hs. rewrite !Nat.pow_succ_r' in *. lia.
Qed.

(** What a leaf and its sibling become. *)
Lemma next_level_lookup l i x :
  l !! i = Some x ->
  exists y, l !! sibling_idx i (length l) = Some y
    /\ next_level l !! (i / 2)%nat = Some (if Nat.even i then hash2 x y else hash2 y x).
Proof.
  revert i. induction l as [| a | a b l IH] using list_pair_ind; intros i Hi; [done | |].
  - destruct i as [| i]; [| done]. injection Hi as ->. exists x. done.
  - destruct i as [| [| i]]; cbn in Hi.
    + injection Hi as ->. exists b. done.
    + injection Hi as ->. exists a. done.
    + destruct (IH i Hi) as (y & Hy & Hn). exists y. change (S (S i)) with (2 + i)%nat.
      replace ((2 + i) / 2)%nat with (S (i / 2)) by (rewrite Nat.add_comm; change 2%nat with (1 * 2)%nat at 2; rewrite Nat.div_add by lia; lia).
      cbn [next_level]. split; [| exact Hn]. rewrite <- Hy. unfold sibling_idx. cbn [Nat.even Nat.add length].
      destruct (Nat.even i) eqn:Ev.
      * repeat match goal with |- context [(?a <? ?b)%nat] => destruct (Nat.ltb_spec a b) end; try lia; done.
      * destruct i as [| i]; [done |]. cbn. by rewrite Nat.sub_0_r.
Qed.

(** The reader of a proof: hash upwards, on the side that the bits of the index say. *)
Fixpoint climb (idx : nat) (current : Hash) (proof : list Hash) : Hash :=
  match proof with
  | [] => current
  | sibling :: rest => climb (idx / 2) (if Nat.even idx then hash2 current sibling else hash2 sibling current) rest
  end.

Lemma proof_loop_spec fuel l i x :
  (length l <= S fuel)%nat -> l !! i = Some x ->
  exists p r, proof_loop fuel l i = Ret p /\ merkle_loop fuel l = Ret r /\ climb i x p = r
    /\ length p = Nat.log2_up (length l).
Proof.
  revert l i x. induction fuel as [| fuel IH]; intros l i x Hl Hi.
  - destruct l as [| a [| b l]]; cbn in *; [done | | lia]. destruct i; [| done]. injection Hi as ->. by exists [], x.
  - destruct l as [| a [| b l]]; [done | |].
    + destruct i; [| done]. injection Hi as ->. by exists [], x.
    + set (l' := a :: b :: l) in *. destruct (next_level_lookup l' i x Hi) as (y & Hy & Hn).
      destruct (next_level_shorter l') as [H1 H2]; [cbn; lia |].
      destruct (IH (next_level l') (i / 2)%nat _ ltac:(lia) Hn) as (p & r & Hp & Hr & Hc & Hlen).
      exists (y :: p), r. assert (Hlog : Nat.log2_up (length l') = S (length p)) by (rewrite log2_up_next_level, Hlen; [done | cbn; lia]).
      split_and!; [| exact Hr | exact Hc | by rewrite Hlog].
      cbn [proof_loop]. unfold l' at 1. cbn [length Nat.leb]. rewrite (vec_at_lookup l' _ y), outcome_bind_ret by
        (first [lia | by rewrite Nat2Z.id]). by rewrite Hp.
Qed.

Lemma merkle_loop_total fuel l : l <> [] -> (length l <= S fuel)%nat -> exists r, merkle_loop fuel l = Ret r.
Proof.
  intros Hne Hl. destruct l as [| a l]; [done |]. destruct (proof_loop_spec fuel (a :: l) 0 a Hl eq_refl) as (_ & r & _ & Hr & _).
  by exists r.
Qed.

Lemma merkle_root_total leaves : exists r, computeMerkleRootInternal leaves = Ret r.
Proof.
  unfold computeMerkleRootInternal. case_bool_decide; [by eexists |]. apply merkle_loop_total; [done | lia].
Qed.

Lemma find_leaf_Some leaves c i : find_leaf leaves c = Some i -> leaves !! i = Some c.
Proof.
  unfold find_leaf. destruct (list_find _ leaves) as [[j x] |] eqn:E; [| done]. intros [= <-].
  apply list_find_Some in E as (? & -> & _). done.
Qed.

(** Merkle proofs verify against the root.  For every leaf
    of the tree [getMerkleProof] returns a proof with one hash per level from which, with
    the leaf's index, the root is recomputed; and a commitment without a leaf has no index and an
    empty proof. *)
Theorem merkle_proof_correct s c :
  exists root proof, computeMerkleRootInternal (m_merkle_leaves s) = Ret root /\ getMerkleProof s c = Ret proof
    /\ (if decide (c ∈ m_merkle_leaves s) then
          0 <= getLeafIndex s c < Z.of_nat (length (m_merkle_leaves s))
          /\ m_merkle_leaves s !! Z.to_nat (getLeafIndex s c) = Some c
          /\ climb (Z.to_nat (getLeafIndex s c)) c proof = root
          /\ length proof = Nat.log2_up (length (m_merkle_leaves s))
        else getLeafIndex s c = SIZE_MAX /\ proof = []).
Proof.
  unfold getMerkleProof, getLeafIndex, computeMerkleRootInternal. set (l := m_merkle_leaves s).
  case_decide as Hc.
  - assert (exists i, find_leaf l c = Some i) as [i Hf].
    { unfold find_leaf. destruct (list_find_elem_of (fun x => x = c) l c Hc eq_refl) as [[j x] ->]. by eexists. }
    rewrite Hf. pose proof (find_leaf_Some _ _ _ Hf) as Hi. pose proof (lookup_lt_Some _ _ _ Hi) as Hlt.
    destruct (proof_loop_spec (length l) l i c ltac:(lia) Hi) as (p & r & Hp & Hr & Hcl & Hlen).
    exists r, p. rewrite bool_decide_eq_false_2 by (destruct l; [cbn in Hlt; lia | done]). rewrite Nat2Z.id.
    split_and!; try done; lia.
  - assert (find_leaf l c = None) as ->.
    { destruct (find_leaf l c) as [i |] eqn:E; [| done]. apply find_leaf_Some in E.
      destruct Hc. by eapply list_elem_of_lookup_2. }
    destruct (merkle_root_total l) as [r Hr]. exists r, []. done.
Qed.

(** The texts that are hashed to get from a level to the next, and to get from the leaves to the root. *)
Fixpoint level_texts (level : list Hash) : list bytes :=
  match level with
  | a :: b :: rest => (a ++ b) :: level_texts rest
  | [a] => [a ++ a]
  | [] => []
  end.

Fixpoint tree_texts (fuel : nat) (level : list Hash) : list bytes :=
  match level, fuel with
  | [], _ | [_], _ | _, O => []
  | _, S fuel => level_texts level ++ tree_texts fuel (next_level level)
  end.

Lemma next_level_hashes l : Forall is_hash (next_level l).
Proof.
  induction l as [| a | a b l IH] using list_pair_ind; cbn [next_level]; repeat constructor; try done.
  all: apply cn_fast_hash_length.
Qed.

(** The first nodes of two levels with one hash hold the same leaves. *)
Ltac same_node T Fl Fk He :=
  let H := fresh in
  assert (H := fun A B => hash2_inj T _ _ _ _ A B (Forall_inv Fl) (Forall_inv Fk) He);
  destruct H as [| [? ?]]; [set_solver | set_solver | by left | subst].

(** Distinct leaves have one next level only. *)
Lemma next_level_inj T l k :
  level_texts l ⊆ T -> level_texts k ⊆ T ->
  NoDup l -> NoDup k -> Forall is_hash l -> Forall is_hash k -> next_level l = next_level k -> collision T \/ l = k.
Proof.
  revert k. induction l as [| a | a b l IH] using list_pair_ind; intros k Tl Tk Hl Hk Fl Fk He.
  - right. destruct k as [| c [| d k]]; done.
  - destruct k as [| c [| d k]]; cbn [next_level level_texts] in He, Tl, Tk; [done | |]; injection He as He; same_node T Fl Fk He.
    + by right.
    + apply NoDup_cons in Hk as [Hk _]. set_solver.
  - destruct k as [| c [| d k]]; cbn [next_level level_texts] in He, Tl, Tk; [done | |]; injection He as He Hr; same_node T Fl Fk He.
    + apply NoDup_cons in Hl as [Hl _]. set_solver.
    + destruct (IH k) as [| ->]; [set_solver | set_solver | by apply NoDup_cons in Hl as [_ [_ ?]%NoDup_cons]
        | by apply NoDup_cons in Hk as [_ [_ ?]%NoDup_cons] | by inversion Fl as [| ? ? ? F]; inversion F
        | by inversion Fk as [| ? ? ? F]; inversion F | done | by left | by right].
Qed.

Lemma next_level_elem l x :
  x ∈ next_level l -> exists a b, a ∈ l /\ a ++ b ∈ level_texts l /\ x = hash2 a b.
Proof.
  induction l as [| a | a b l IH] using list_pair_ind; cbn [next_level level_texts]; [by intros ?%elem_of_nil | |].
  - intros ->%list_elem_of_singleton. exists a, a. set_solver.
  - rewrite elem_of_cons. intros [-> | (c & d & ? & ? & ->)%IH]; [exists a, b | exists c, d]; set_solver.
Qed.

Lemma next_level_NoDup T l : level_texts l ⊆ T -> NoDup l -> Forall is_hash l -> collision T \/ NoDup (next_level l).
Proof.
  induction l as [| a | a b l IH] using list_pair_ind; cbn [next_level level_texts]; intros Ht Hn Hf;
    [right; constructor | right; apply NoDup_singleton |].
  apply NoDup_cons in Hn as [Ha Hn]. apply NoDup_cons in Hn as [Hb Hn]. inversion Hf as [| ? ? Hah Hf']; subst.
  inversion Hf' as [| ? ? Hbh Hfl]; subst. destruct (IH ltac:(set_solver) Hn Hfl) as [| Hnext]; [by left |].
  destruct (decide (hash2 a b ∈ next_level l)) as [(c & d & Hc & Hd & He)%next_level_elem | Hni].
  - destruct (hash2_inj T a b c d) as [| [-> _]]; [set_solver | set_solver | done | by eapply Forall_forall | done | by left |].
    clear IH. set_solver.
  - right. by constructor.
Qed.

Lemma merkle_loop_binding T d f g l k r :
  tree_texts f l ⊆ T -> tree_texts g k ⊆ T ->
  Nat.log2_up (length l) = d -> Nat.log2_up (length k) = d -> NoDup l -> NoDup k -> Forall is_hash l -> Forall is_hash k ->
  merkle_loop f l = Ret r -> merkle_loop g k = Ret r -> collision T \/ l = k.
Proof.
  revert f g l k. induction d as [| d IH]; intros f g l k Tl Tk Dl Dk Nl Nk Fl Fk Hl Hk.
  - apply Nat.log2_up_null in Dl, Dk. destruct l as [| a [| ? ?]], k as [| b [| ? ?]], f, g; cbn in *; try done; try lia; right; congruence.
  - assert (forall m : list Hash, Nat.log2_up (length m) = S d -> (2 <= length m)%nat) as Hlen.
    { intros m Hm. destruct (le_lt_dec (length m) 1) as [Hle | ?]; [| lia]. apply Nat.log2_up_null in Hle. lia. }
    pose proof (Hlen l Dl) as Ll. pose proof (Hlen k Dk) as Lk.
    rewrite log2_up_next_level in Dl, Dk by done. injection Dl as Dl. injection Dk as Dk.
    destruct l as [| a [| b l]]; [cbn in Ll; lia | cbn in Ll; lia |]. destruct k as [| c [| e k]]; [cbn in Lk; lia | cbn in Lk; lia |].
    destruct f as [| f]; [done |]. destruct g as [| g]; [done |]. cbn [merkle_loop tree_texts] in Hl, Hk, Tl, Tk.
    apply list_subseteq_app_iff_l in Tl as [Tl Tl'], Tk as [Tk Tk'].
    destruct (next_level_NoDup T _ Tl Nl Fl) as [| Nl']; [by left |].
    destruct (next_level_NoDup T _ Tk Nk Fk) as [| Nk']; [by left |].
    destruct (IH f g _ _ Tl' Tk' Dl Dk Nl' Nk' (next_level_hashes _) (next_level_hashes _) Hl Hk) as [| Heq]; [by left |].
    by apply (next_level_inj T).
Qed.

(** The root commits to the leaves.  Two lists of distinct 32-byte commitments with trees of the same
    height that have one root are the same list, unless two different ones of the texts that were hashed
    to compute the two roots have one Keccak hash: hashing a single last leaf with itself admits
    no second list. *)
Theorem merkle_root_binding l k root :
  NoDup l -> NoDup k -> Forall is_hash l -> Forall is_hash k -> l <> [] -> k <> [] ->
  Nat.log2_up (length l) = Nat.log2_up (length k) ->
  computeMerkleRootInternal l = Ret root -> computeMerkleRootInternal k = Ret root ->
  l = k \/ collision (tree_texts (length l) l ++ tree_texts (length k) k).
Proof.
  intros Nl Nk Fl Fk Hl Hk Hd. unfold computeMerkleRootInternal. rewrite !bool_decide_eq_false_2 by done.
  intros Rl Rk. destruct (merkle_loop_binding (tree_texts (length l) l ++ tree_texts (length k) k) _ (length l) (length k) l k root
    ltac:(set_solver) ltac:(set_solver) eq_refl (eq_sym Hd) Nl Nk Fl Fk Rl Rk); [by right | by left].
Qed.

(** * The store is a log of commitments *)

Abbreviation key e := (toHex (ce_commitment e)).

(** The commitments by height, each height in the order of arrival. *)
Definition index_add (m : gmap Z (list CommitmentEntry)) (e : CommitmentEntry) : gmap Z (list CommitmentEntry) :=
  <[ce_blockHeight e := default [] (m !! ce_blockHeight e) ++ [e]]> m.
Definition index_of (log : list CommitmentEntry) : gmap Z (list CommitmentEntry) := foldl index_add ∅ log.
Definition groups (log : list CommitmentEntry) : list (Z * list CommitmentEntry) := by_height (index_of log).

Definition of_type (t : CommitmentType) (log : list CommitmentEntry) : Z := Z.of_nat (length (filter (fun e => ce_type e = t) log)).
Definition max_height (log : list CommitmentEntry) : Z := foldr Z.max 0 (map ce_blockHeight log).

(** The map and the counters, which do not depend on the order. *)
Record holds (log : list CommitmentEntry) (s : CommitmentStore) : Prop := {
  holds_distinct : NoDup (map (fun e => key e) log);
  holds_lookup k e : m_commitments s !! k = Some e <-> e ∈ log /\ key e = k;
  holds_heat : m_heat_count s = u64 (of_type HEAT log);
  holds_cold : m_cold_count s = u64 (of_type COLD log);
  holds_stake : m_elderfier_stake_count s = u64 (of_type ELDERFIER_STAKING log)
}.

Record store_rep (log : list CommitmentEntry) (s : CommitmentStore) : Prop := {
  rep_holds : holds log s;
  rep_leaves : m_merkle_leaves s = map ce_commitment log;
  rep_index : m_heightIndex s = map (fun e => key e) <$> index_of log;
  rep_root : computeMerkleRootInternal (m_merkle_leaves s) = Ret (m_current_merkle_root s);
  rep_height : m_current_block_height s = max_height log
}.

(** ** Sorted maps *)

#[export] Instance height_le_trans {A} : Transitive (@height_le A).
Proof. intros a b c. unfold height_le. lia. Qed.
#[export] Instance height_le_total {A} : Total (@height_le A).
Proof. intros a b. unfold height_le. lia. Qed.

Lemma by_height_perm {A} (m : gmap Z A) : by_height m ≡ₚ map_to_list m.
Proof. apply merge_sort_Permutation. Qed.

Lemma by_height_elem {A} (m : gmap Z A) h x : (h, x) ∈ by_height m <-> m !! h = Some x.
Proof. by rewrite by_height_perm, elem_of_map_to_list. Qed.

Lemma by_height_sorted {A} (m : gmap Z A) : StronglySorted height_le (by_height m).
Proof. apply StronglySorted_merge_sort; typeclasses eauto. Qed.

(** A sorted list of the entries of a map is the walk over the map. *)
Lemma by_height_unique {A} (m : gmap Z A) l : StronglySorted height_le l -> l ≡ₚ map_to_list m -> by_height m = l.
Proof.
  intros Hs Hp. apply (StronglySorted_unique_strong height_le); [| apply by_height_sorted | done | by rewrite by_height_perm, Hp].
  intros [h x] [h' x'] H1 H2 Hle Hge. unfold height_le in *. cbn in *. assert (h = h') as <- by lia.
  rewrite by_height_elem in H1. rewrite Hp, elem_of_map_to_list in H2. congruence.
Qed.

Lemma by_height_fmap {A B} (f : A -> B) (m : gmap Z A) : by_height (f <$> m) = prod_map id f <$> by_height m.
Proof.
  apply by_height_unique.
  - generalize (by_height_sorted m). induction 1 as [| p l Hs IH Hf]; [constructor |]. rewrite fmap_cons. constructor; [done |].
    apply Forall_fmap. eapply Forall_impl; [exact Hf |]. intros [] Hp. destruct p. exact Hp.
  - rewrite map_to_list_fmap. by rewrite by_height_perm.
Qed.

Lemma StronglySorted_filter {A} (R : A -> A -> Prop) (P : A -> Prop) `{!forall x, Decision (P x)} l :
  StronglySorted R l -> StronglySorted R (filter P l).
Proof.
  induction 1 as [| p l Hs IH Hf]; [constructor |]. rewrite filter_cons. case_decide; [| done]. constructor; [done |].
  rewrite Forall_forall in *. intros x [_ Hx]%list_elem_of_filter. by apply Hf.
Qed.

Lemma by_height_filter {A} (P : Z -> Prop) `{!forall h, Decision (P h)} (m : gmap Z A) :
  by_height (filter (fun p => P p.1) m) = filter (fun p => P p.1) (by_height m).
Proof.
  apply by_height_unique.
  - apply StronglySorted_filter, by_height_sorted.
  - rewrite by_height_perm. apply NoDup_Permutation; [apply NoDup_filter, NoDup_map_to_list | apply NoDup_map_to_list |].
    intros [h x]. rewrite list_elem_of_filter, !elem_of_map_to_list, map_lookup_filter_Some. cbn; tauto.
Qed.

(** ** The index by height *)

Lemma index_of_snoc log e : index_of (log ++ [e]) = index_add (index_of log) e.
Proof. unfold index_of. by rewrite foldl_app. Qed.

Lemma index_of_lookup log h :
  index_of log !! h = match filter (fun e => ce_blockHeight e = h) log with [] => None | l => Some l end.
Proof.
  induction log as [| e log IH] using rev_ind; [apply lookup_empty |].
  rewrite index_of_snoc, filter_app, filter_cons, filter_nil. unfold index_add.
  destruct (decide (ce_blockHeight e = h)) as [<- | Hne].
  - rewrite lookup_insert_eq, IH. by destruct (filter _ log).
  - rewrite lookup_insert_ne, app_nil_r by done. exact IH.
Qed.

Lemma index_of_Some log h l :
  index_of log !! h = Some l <-> l = filter (fun e => ce_blockHeight e = h) log /\ l <> [].
Proof. rewrite index_of_lookup. destruct (filter _ log) as [| e k]; split; intros; destruct_and?; simplify_eq; done. Qed.

Lemma filter_ext_in {A} (P Q : A -> Prop) `{!forall x, Decision (P x), !forall x, Decision (Q x)} (l : list A) :
  (forall x, x ∈ l -> P x <-> Q x) -> filter P l = filter Q l.
Proof.
  induction l as [| x l IH]; intros Hpq; [done |]. rewrite !filter_cons, IH by (intros; apply Hpq; by right).
  destruct (Hpq x ltac:(by left)) as [H1 H2]. repeat case_decide; tauto || done.
Qed.

(** The groups of some heights hold the entries of these heights. *)
Lemma concat_heights log (l : list (Z * list CommitmentEntry)) :
  NoDup l.*1 -> (forall h es, (h, es) ∈ l -> es = filter (fun e => ce_blockHeight e = h) log) ->
  concat l.*2 ≡ₚ filter (fun e => ce_blockHeight e ∈ l.*1) log.
Proof.
  induction l as [| [h es] l IH]; intros Hn Hf; rewrite ?fmap_cons, ?fmap_nil; cbn [concat fst snd].
  - rewrite (filter_ext_in _ (fun _ => False)) by (intros x _; split; [by intros ?%elem_of_nil | done]).
    clear. induction log as [| e log IHl]; [done |]. rewrite filter_cons. by case_decide.
  - rewrite fmap_cons in Hn. apply NoDup_cons in Hn as [Hh Hn]. rewrite (Hf h es) by (by left).
    rewrite IH by (done || (intros; apply Hf; by right)). cbn [fst] in Hh. clear -Hh.
    induction log as [| e log IHl]; [done |]. rewrite !filter_cons. destruct (decide (ce_blockHeight e = h)) as [<- | Hne].
    + rewrite (decide_False (P := _ ∈ l.*1)), (decide_True (P := _ ∈ _ :: _)) by (done || by left). cbn [app]. by rewrite IHl.
    + destruct (decide (ce_blockHeight e ∈ l.*1)).
      * rewrite decide_True by (by right). rewrite <- Permutation_middle. by rewrite IHl.
      * rewrite decide_False by (rewrite elem_of_cons; tauto). done.
Qed.

Lemma groups_spec log h es : (h, es) ∈ groups log <-> es = filter (fun e => ce_blockHeight e = h) log /\ es <> [].
Proof. unfold groups. by rewrite by_height_elem, index_of_Some. Qed.

Lemma groups_keys log : NoDup (groups log).*1.
Proof. unfold groups. rewrite by_height_perm. apply NoDup_fst_map_to_list. Qed.

Lemma groups_heights log h : h ∈ (groups log).*1 <-> exists e, e ∈ log /\ ce_blockHeight e = h.
Proof.
  rewrite list_elem_of_fmap. split.
  - intros ([h' es] & -> & [Hes Hne]%groups_spec). cbn [fst]. destruct es as [| e es]; [done |].
    exists e. assert (He : e ∈ e :: es) by (by left). rewrite Hes in He. by apply list_elem_of_filter in He as [? ?].
  - intros (e & He & <-). exists (ce_blockHeight e, filter (fun e' => ce_blockHeight e' = ce_blockHeight e) log).
    split; [done |]. apply groups_spec. split; [done |]. intros Hn.
    assert (Hin : e ∈ filter (fun e' => ce_blockHeight e' = ce_blockHeight e) log) by (by apply list_elem_of_filter).
    rewrite Hn in Hin. by apply elem_of_nil in Hin.
Qed.

Lemma filter_keys {A} (P : Z -> Prop) `{!forall h, Decision (P h)} (l : list (Z * A)) :
  (filter (fun p => P p.1) l).*1 = filter P l.*1.
Proof. induction l as [| [h x] l IH]; [done |]. rewrite fmap_cons, !filter_cons. cbn [fst]. case_decide; rewrite ?fmap_cons, IH; done. Qed.

Lemma concat_groups (P : Z -> Prop) `{!forall h, Decision (P h)} log :
  concat (filter (fun p => P p.1) (groups log)).*2 ≡ₚ filter (fun e => P (ce_blockHeight e)) log.
Proof.
  rewrite (concat_heights log).
  - erewrite filter_ext_in; [done |]. intros e He. cbn. rewrite filter_keys, list_elem_of_filter, groups_heights. split; [by intros [? _] | intros ?; split; [done | by exists e]].
  - rewrite filter_keys. apply NoDup_filter, groups_keys.
  - intros h es [_ [? _]%groups_spec]%list_elem_of_filter. done.
Qed.

(** ** Removing commitments *)

Lemma of_type_perm t l k : l ≡ₚ k -> of_type t l = of_type t k.
Proof. intros Hp. unfold of_type. by rewrite Hp. Qed.

Lemma of_type_cons t e l : of_type t (e :: l) = (if decide (ce_type e = t) then 1 else 0) + of_type t l.
Proof. unfold of_type. rewrite filter_cons. case_decide; cbn [length]; lia. Qed.

Lemma of_type_snoc t e l : of_type t (l ++ [e]) = (if decide (ce_type e = t) then 1 else 0) + of_type t l.
Proof. rewrite <- of_type_cons. apply of_type_perm. by rewrite Permutation_app_comm. Qed.

Lemma holds_perm l k s : l ≡ₚ k -> holds l s -> holds k s.
Proof.
  intros Hp [Hd Hl H1 H2 H3]. split; [by rewrite <- Hp | | | |]; rewrite <- ?(of_type_perm _ _ _ Hp); try done.
  intros x e. by rewrite Hl, Hp.
Qed.

Lemma u64_count n d : u64 (u64 n + d) = u64 (n + d).
Proof. unfold u64. by rewrite Zplus_mod_idemp_l. Qed.

(** The counter of one type after the type of [e] was counted up or down. *)
Ltac solve_count e := clear; destruct (ce_type e); case_decide; try done; rewrite ?u64_count; f_equal; lia.

(** The fields that removing commitments leaves alone. *)
Definition rest_of (s : CommitmentStore) := (m_merkle_leaves s, m_heightIndex s, m_txHashToCommitHash s,
  m_current_merkle_root s, m_current_block_height s).

Lemma holds_remove e l s :
  holds (e :: l) s ->
  let s' := with_commitments (delete (key e)) (count_type (ce_type e) (-1) s) in
  holds l s' /\ rest_of s' = rest_of s.
Proof.
  intros [Hd Hl H1 H2 H3] s'. subst s'. split; [| done]. rewrite map_cons in Hd. apply NoDup_cons in Hd as [Hni Hd].
  rewrite of_type_cons in H1, H2, H3. split; [done | | | |]; cbn [m_commitments m_heat_count m_cold_count m_elderfier_stake_count with_commitments count_type].
  - intros k f. rewrite lookup_delete_Some, Hl, elem_of_cons. split.
    + intros (Hne & [-> | Hf] & <-); done.
    + intros [Hf <-]. split; [| by auto]. intros Heq. apply Hni. rewrite Heq. apply list_elem_of_fmap. by exists f.
  - rewrite H1. solve_count e.
  - rewrite H2. solve_count e.
  - rewrite H3. solve_count e.
Qed.

Lemma remove_commitments_spec sub l s r :
  holds (sub ++ l) s -> exists s' r', remove_commitments (map (fun e => key e) sub) s r = (s', r') /\ holds l s' /\ rest_of s' = rest_of s
    /\ (is_u64 r -> r' = u64 (r + Z.of_nat (length sub)) /\ is_u64 r').
Proof.
  revert s r. induction sub as [| e sub IH]; intros s r Hs; cbn [map remove_commitments app].
  - exists s, r. split_and!; try done. intros Hr. cbn [length]. rewrite Z.add_0_r, u64_small by done. done.
  - rewrite (proj2 (holds_lookup _ _ Hs (key e) e)) by (split; [by left | done]).
    destruct (holds_remove _ _ _ Hs) as [H1 H2]. destruct (IH _ (u64 (r + 1)) H1) as (s' & r' & -> & Hh & Hr & Hc).
    exists s', r'. split_and!; try done. intros _. destruct (Hc (u64_range _)) as [-> ?]. split; [| done].
    rewrite u64_count. cbn [length]. f_equal. lia.
Qed.

Lemma rest_of_inj s s' : rest_of s' = rest_of s ->
  m_merkle_leaves s' = m_merkle_leaves s /\ m_heightIndex s' = m_heightIndex s /\ m_txHashToCommitHash s' = m_txHashToCommitHash s.
Proof. unfold rest_of. intros H. by injection H. Qed.

Definition keyed (gs : list (Z * list CommitmentEntry)) : list (Z * list bytes) := prod_map id (map (fun e => key e)) <$> gs.

Lemma remove_heights_spec gs l s r :
  holds (concat gs.*2 ++ l) s -> exists s' r', remove_heights (keyed gs) s r = (s', r') /\ holds l s'
    /\ m_txHashToCommitHash s' = m_txHashToCommitHash s
    /\ (forall h, m_heightIndex s' !! h = if decide (h ∈ gs.*1) then None else m_heightIndex s !! h)
    /\ (is_u64 r -> r' = u64 (r + Z.of_nat (length (concat gs.*2)))).
Proof.
  revert s r. induction gs as [| [h es] gs IH]; intros s r Hs.
  - exists s, r. cbn. split_and!; try done. intros Hr. by rewrite Z.add_0_r, u64_small.
  - rewrite fmap_cons in Hs. cbn [snd concat] in Hs. rewrite <- app_assoc in Hs.
    destruct (remove_commitments_spec es _ _ r Hs) as (s1 & r1 & Hrem & Hh1 & Hrest & Hc).
    unfold keyed. rewrite fmap_cons. cbn [prod_map remove_heights fst snd]. rewrite Hrem. fold (keyed gs).
    apply rest_of_inj in Hrest as (_ & Hi & Ht).
    match goal with |- context [remove_heights (keyed gs) ?x r1] => set (s2 := x) end.
    assert (Hh2 : holds (concat gs.*2 ++ l) s2) by (destruct Hh1; split; done).
    destruct (IH s2 r1 Hh2) as (s' & r' & -> & Hh & Htx & Hidx & Hcount). exists s', r'. split_and!; try done.
    + by rewrite Htx.
    + intros h'. rewrite Hidx, fmap_cons. cbn [fst m_heightIndex s2]. rewrite Hi.
      destruct (decide (h' ∈ gs.*1)); [by rewrite decide_True by (by right) |]. destruct (decide (h = h')) as [<- | Hne].
      * rewrite decide_True by (by left). apply lookup_delete_eq.
      * rewrite decide_False by (rewrite elem_of_cons; intros [?|?]; congruence || done). by apply lookup_delete_ne.
    + intros Hr. destruct (Hc Hr) as [-> Hu]. rewrite (Hcount Hu), u64_count, fmap_cons. cbn [snd concat]. rewrite length_app. f_equal. lia.
Qed.

(** ** The log of a run *)

Inductive StoreOp := Add (e : CommitmentEntry) | Rollback (h : Z).

Definition store_step (s : CommitmentStore) (op : StoreOp) : outcome CommitmentStore :=
  match op with
  | Add e => '(_, s) ← addToStore s e; Ret s
  | Rollback h => '(_, s) ← rollbackToHeight s h; Ret s
  end.

Fixpoint store_run (s : CommitmentStore) (ops : list StoreOp) : outcome CommitmentStore :=
  match ops with
  | [] => Ret s
  | op :: ops => s ← store_step s op; store_run s ops
  end.

(** A rollback keeps the entries up to the height, ordered by height. *)
Definition log_rollback (h : Z) (log : list CommitmentEntry) : list CommitmentEntry :=
  concat (filter (fun p => p.1 <= h) (groups log)).*2.

Definition log_step (log : list CommitmentEntry) (op : StoreOp) : list CommitmentEntry :=
  match op with
  | Add e => if decide (key e ∈ map (fun e => key e) log) then log else log ++ [e]
  | Rollback h => log_rollback h log
  end.

(** Heights are unsigned. *)
Definition op_ok (op : StoreOp) : Prop := match op with Add e => 0 <= ce_blockHeight e | Rollback _ => True end.
Definition heights_ok (log : list CommitmentEntry) : Prop := Forall (fun e => 0 <= ce_blockHeight e) log.

Lemma max_height_snoc log e : 0 <= ce_blockHeight e -> max_height (log ++ [e]) = Z.max (max_height log) (ce_blockHeight e).
Proof. intros He. unfold max_height. induction log as [| x log IH]; cbn in *; lia. Qed.

Lemma max_height_spec log :
  (forall e, e ∈ log -> ce_blockHeight e <= max_height log)
  /\ (max_height log = 0 \/ exists e, e ∈ log /\ ce_blockHeight e = max_height log).
Proof.
  unfold max_height. induction log as [| x log [IH1 IH2]]; cbn [map foldr].
  - split; [by intros e ?%elem_of_nil | by left].
  - split.
    + intros e [-> | He]%elem_of_cons; [lia |]. specialize (IH1 e He). lia.
    + destruct (Z.max_spec (ce_blockHeight x) (foldr Z.max 0 (map ce_blockHeight log))) as [[_ ->] | [_ ->]].
      * destruct IH2 as [-> | (e & He & Heq)]; [by left | right; exists e; split; [by right | done]].
      * right. exists x. split; [by left | done].
Qed.

Lemma addToStore_rep log s e :
  store_rep log s -> 0 <= ce_blockHeight e ->
  exists s', addToStore s e = Ret (negb (bool_decide (key e ∈ map (fun e => key e) log)), s') /\ store_rep (log_step log (Add e)) s'.
Proof.
  intros [Hh Hl Hi Hr Hb] He. unfold addToStore, log_step.
  assert (is_Some (m_commitments s !! key e) <-> key e ∈ map (fun e => key e) log) as Hdup.
  { change (map (fun e => key e) log) with ((fun e => key e) <$> log). rewrite list_elem_of_fmap. split.
    - intros [f [Hf <-]%(holds_lookup _ _ Hh)]. by exists f.
    - intros (f & Heq & Hf). exists f. by apply (holds_lookup _ _ Hh). }
  rewrite (bool_decide_ext _ _ Hdup). case_bool_decide as Hin; [rewrite decide_True by done; exists s; done |].
  rewrite decide_False by done. destruct (merkle_root_total (m_merkle_leaves s ++ [ce_commitment e])) as [root Hroot].
  rewrite Hroot, outcome_bind_ret. eexists. split; [reflexivity |]. split.
  - destruct Hh as [Hd Hlk H1 H2 H3]. split; cbn [m_commitments m_heat_count m_cold_count m_elderfier_stake_count count_type].
    + rewrite map_app. apply NoDup_app. split_and!; [done | | apply NoDup_singleton]. intros x Hx ->%list_elem_of_singleton. done.
    + intros k f. rewrite lookup_insert_Some, Hlk, elem_of_app, list_elem_of_singleton. split.
      * intros [[<- <-] | [_ [? ?]]]; auto.
      * intros [[Hf | ->] <-]; [| by left]. right. split; [| done]. intros Heq. apply Hin. rewrite Heq. apply list_elem_of_fmap. by exists f.
    + rewrite H1, of_type_snoc. solve_count e.
    + rewrite H2, of_type_snoc. solve_count e.
    + rewrite H3, of_type_snoc. solve_count e.
  - cbn [m_merkle_leaves]. by rewrite Hl, map_app.
  - cbn [m_heightIndex count_type]. rewrite index_of_snoc. unfold index_add. rewrite fmap_insert, Hi, lookup_fmap.
    destruct (index_of log !! ce_blockHeight e); cbn [fmap option_fmap option_map default]; by rewrite ?map_app.
  - exact Hroot.
  - cbn [m_current_block_height count_type]. rewrite max_height_snoc, <- Hb by done.
    destruct (Z.ltb_spec (m_current_block_height s) (ce_blockHeight e)); lia.
Qed.

(** ** Rolling back *)

Lemma filter_partition {A} (P Q : A -> Prop) `{!forall x, Decision (P x), !forall x, Decision (Q x)} (l : list A) :
  (forall x, Q x <-> ~ P x) -> filter P l ++ filter Q l ≡ₚ l.
Proof.
  intros HQ. induction l as [| x l IH]; [done |]. rewrite !filter_cons. specialize (HQ x).
  destruct (decide (P x)), (decide (Q x)); try tauto; cbn [app]; [by rewrite IH | by rewrite <- Permutation_middle, IH].
Qed.

Lemma filter_keyed (P : Z -> Prop) `{!forall h, Decision (P h)} gs :
  filter (fun p => P p.1) (keyed gs) = keyed (filter (fun p => P p.1) gs).
Proof.
  unfold keyed. induction gs as [| [h es] gs IH]; [done |]. rewrite fmap_cons, !filter_cons. cbn [prod_map fst id].
  case_decide; rewrite ?fmap_cons, IH; done.
Qed.

Lemma log_rollback_perm h log : log_rollback h log ≡ₚ filter (fun e => ce_blockHeight e <= h) log.
Proof. unfold log_rollback. exact (concat_groups (fun x => x <= h) log). Qed.

(** The entries of one height among the groups of some heights. *)
Lemma filter_concat_heights log (l : list (Z * list CommitmentEntry)) h :
  NoDup l.*1 -> (forall h es, (h, es) ∈ l -> es = filter (fun e => ce_blockHeight e = h) log) ->
  filter (fun e => ce_blockHeight e = h) (concat l.*2)
    = if decide (h ∈ l.*1) then filter (fun e => ce_blockHeight e = h) log else [].
Proof.
  induction l as [| [h' es] l IH]; intros Hn Hf; [by rewrite decide_False by (by intros ?%elem_of_nil) |].
  rewrite fmap_cons in Hn. apply NoDup_cons in Hn as [Hh Hn]. cbn [fst] in Hh.
  rewrite !fmap_cons. cbn [snd fst concat]. rewrite filter_app, (IH Hn) by (intros; apply Hf; by right).
  rewrite (Hf h' es) by (by left). destruct (decide (h = h')) as [<- | Hne].
  - rewrite (decide_False (P := _ ∈ l.*1)), app_nil_r, decide_True by (done || by left).
    rewrite list_filter_filter. apply filter_ext_in. tauto.
  - rewrite list_filter_filter, (filter_ext_in _ (fun _ => False)) by (intros x _; split; [intros []; congruence | done]).
    replace (filter (fun _ => False) log) with (@nil CommitmentEntry) by
      (symmetry; clear; induction log as [| e log IHl]; [done | rewrite filter_cons; by case_decide]).
    cbn [app]. destruct (decide (h ∈ l.*1)); [rewrite decide_True by (by right) | rewrite decide_False by (rewrite elem_of_cons; tauto)]; done.
Qed.

Lemma kept_heights h log : (filter (fun p => p.1 <= h) (groups log)).*1 = filter (fun x => x <= h) (groups log).*1.
Proof. exact (filter_keys (fun x => x <= h) (groups log)). Qed.

Lemma index_log_rollback h log : index_of (log_rollback h log) = filter (fun p => p.1 <= h) (index_of log).
Proof.
  apply map_eq. intros h'. rewrite index_of_lookup. unfold log_rollback.
  rewrite (filter_concat_heights log).
  - rewrite kept_heights, (decide_ext _ (h' <= h /\ h' ∈ (groups log).*1)) by (by rewrite list_elem_of_filter).
    apply option_eq. intros es. rewrite map_lookup_filter_Some, index_of_Some. cbn [fst].
    case_decide as Hd.
    + destruct Hd as [Hle Hin]. destruct (filter _ log) as [| e k] eqn:E; [split; [done | intros [[-> ?] _]; done] |].
      split; [intros [= <-]; done | by intros [[-> _] _]].
    + split; [done |]. intros [[-> Hne] Hle]. destruct Hd. split; [done |]. apply groups_heights.
      destruct (filter _ log) as [| e k] eqn:E; [done |]. exists e.
      assert (He : e ∈ e :: k) by (by left). rewrite <- E in He. by apply list_elem_of_filter in He as [? ?].
  - rewrite kept_heights. apply NoDup_filter, groups_keys.
  - intros h0 es [_ [? _]%groups_spec]%list_elem_of_filter. done.
Qed.

Lemma groups_log_rollback h log : groups (log_rollback h log) = filter (fun p => p.1 <= h) (groups log).
Proof. unfold groups at 1. rewrite index_log_rollback. exact (by_height_filter (fun x => x <= h) (index_of log)). Qed.

Lemma last_group log :
  heights_ok log -> match last (keyed (groups log)) with Some p => p.1 | None => 0 end = max_height log.
Proof.
  intros Hok. unfold keyed. rewrite fmap_last. destruct (max_height_spec log) as [Hmax Hex].
  destruct (last (groups log)) as [[h es] |] eqn:E; cbn [fmap option_fmap option_map prod_map fst id].
  - apply last_Some in E as [l Hl]. pose proof (by_height_sorted (index_of log)) as Hs. fold (groups log) in Hs. rewrite Hl in Hs.
    assert (Hh : h ∈ (groups log).*1) by (rewrite Hl, fmap_app, elem_of_app; right; by left).
    apply groups_heights in Hh as (e & He & Heh). pose proof (Hmax e He). destruct Hex as [H0 | (f & Hf & Hfh)].
    + pose proof (proj1 (Forall_forall _ _) Hok e He) as Hpos. cbn in Hpos. lia.
    + assert (Hin : ce_blockHeight f ∈ (groups log).*1) by (apply groups_heights; by exists f).
      rewrite Hl, fmap_app, elem_of_app in Hin. destruct Hin as [Hin | Hin].
      * apply list_elem_of_fmap in Hin as (p & Hp & Hpl). 
        pose proof (StronglySorted_app_1_elem_of _ _ _ p (h, es) Hs Hpl ltac:(by left)) as Hle. unfold height_le in Hle. cbn in Hle. lia.
      * apply list_elem_of_singleton in Hin. cbn in Hin. lia.
  - apply last_None in E. destruct Hex as [-> | (f & Hf & _)]; [done |].
    assert (Hin : ce_blockHeight f ∈ (groups log).*1) by (apply groups_heights; by exists f).
    rewrite E in Hin. by apply elem_of_nil in Hin.
Qed.

Lemma rebuilt_leaves_rep log s :
  holds log s -> m_heightIndex s = map (fun e => key e) <$> index_of log -> rebuilt_leaves s = map ce_commitment (concat (groups log).*2).
Proof.
  intros Hh Hi. unfold rebuilt_leaves. rewrite Hi, by_height_fmap. fold (groups log).
  assert (forall p, p ∈ groups log -> Forall (fun e => e ∈ log) p.2) as Hin.
  { intros [h es] [-> _]%groups_spec. apply Forall_forall. intros e He. cbn [snd] in He. by apply list_elem_of_filter in He as [_ ?]. }
  revert Hin. generalize (groups log). intros gs Hin. induction gs as [| [h es] gs IH]; [done |].
  rewrite !fmap_cons, bind_cons. cbn [concat snd prod_map]. rewrite map_app, IH by (intros; apply Hin; by right). f_equal.
  specialize (Hin (h, es) ltac:(by left)). cbn [snd] in Hin. clear -Hh Hin.
  induction Hin as [| e es He _ IH]; [done |]. cbn [map omap list_omap].
  rewrite (proj2 (holds_lookup _ _ Hh (key e) e)) by done. cbn. by rewrite IH.
Qed.

Lemma heights_ok_rollback h log : heights_ok log -> heights_ok (log_rollback h log).
Proof.
  unfold heights_ok. rewrite !Forall_forall. intros Hok e He. rewrite log_rollback_perm in He.
  apply list_elem_of_filter in He as [_ He]. by apply Hok.
Qed.

(** The number of removed commitments, and the store of what is left. *)
Lemma rollback_rep log s h :
  store_rep log s -> heights_ok log ->
  exists s', rollbackToHeight s h = Ret (u64 (Z.of_nat (length (filter (fun e => h < ce_blockHeight e) log))), s')
    /\ store_rep (log_rollback h log) s'.
Proof.
  intros [Hh Hl Hi Hr Hb] Hok. unfold rollbackToHeight.
  assert (Hg : by_height (m_heightIndex s) = keyed (groups log)) by (rewrite Hi; apply by_height_fmap).
  rewrite Hg, (filter_keyed (fun x => h < x)). set (gone := filter (fun p => h < p.1) (groups log)).
  assert (Hgone : concat gone.*2 ≡ₚ filter (fun e => h < ce_blockHeight e) log) by exact (concat_groups (fun x => h < x) log).
  assert (Hall : holds (concat gone.*2 ++ log_rollback h log) s).
  { apply (holds_perm log); [| done]. rewrite Hgone, log_rollback_perm. symmetry. apply filter_partition. intros x. lia. }
  destruct (remove_heights_spec gone _ s 0 Hall) as (s1 & r & -> & Hh1 & Htx & Hidx & Hcount).
  assert (Hi1 : m_heightIndex s1 = map (fun e => key e) <$> index_of (log_rollback h log)).
  { apply map_eq. intros x. rewrite Hidx, Hi, !lookup_fmap, index_log_rollback, map_lookup_filter.
    unfold gone. rewrite (filter_keys (fun x => h < x)).
    destruct (index_of log !! x) as [es |] eqn:E; cbn.
    - assert (x ∈ (groups log).*1) by (apply list_elem_of_fmap; exists (x, es); split; [done | by apply by_height_elem]).
      case_decide as Hd; rewrite list_elem_of_filter in Hd; [rewrite option_guard_False by lia | rewrite option_guard_True by (cbn; apply Z.nlt_ge; tauto)]; done.
    - by case_decide. }
  destruct (merkle_root_total (rebuilt_leaves s1)) as [root Hroot]. rewrite Hroot, outcome_bind_ret.
  assert (r = u64 (Z.of_nat (length (filter (fun e => h < ce_blockHeight e) log)))) as ->.
  { rewrite Hcount by (unfold is_u64; lia). by rewrite Hgone. }
  eexists. split; [reflexivity |].
  assert (Hleaves : rebuilt_leaves s1 = map ce_commitment (log_rollback h log)).
  { rewrite (rebuilt_leaves_rep _ _ Hh1 Hi1). by rewrite groups_log_rollback. }
  split; cbn [m_merkle_leaves m_heightIndex m_current_merkle_root m_current_block_height]; try done.
  - destruct Hh1. by split.
  - rewrite Hi1, by_height_fmap. by apply last_group, heights_ok_rollback.
Qed.

Lemma empty_rep : store_rep [] emptyStore.
Proof.
  split; [| done | unfold index_of; cbn [foldl]; by rewrite fmap_empty | done | done].
  split; [constructor | | done | done | done]. intros k e. cbn. rewrite lookup_empty, elem_of_nil. by split; [| intros [[] _]].
Qed.

Lemma store_step_rep log s op :
  store_rep log s -> heights_ok log -> op_ok op ->
  exists s', store_step s op = Ret s' /\ store_rep (log_step log op) s' /\ heights_ok (log_step log op).
Proof.
  intros Hs Hok Hop. destruct op as [e | h]; cbn [store_step].
  - destruct (addToStore_rep log s e Hs Hop) as (s' & -> & Hr). exists s'. split_and!; [done | done |]. cbn [log_step].
    case_decide; [done |]. apply Forall_app. split; [done | by constructor].
  - destruct (rollback_rep log s h Hs Hok) as (s' & -> & Hr). exists s'. split_and!; [done | done |]. by apply heights_ok_rollback.
Qed.

Lemma store_run_rep ops log s :
  store_rep log s -> heights_ok log -> Forall op_ok ops ->
  exists s', store_run s ops = Ret s' /\ store_rep (foldl log_step log ops) s'.
Proof.
  revert log s. induction ops as [| op ops IH]; intros log s Hs Hok Hops; [by exists s |].
  inversion Hops as [| ? ? Hop Hops']; subst. destruct (store_step_rep log s op Hs Hok Hop) as (s1 & Hst & H1 & H2).
  cbn [store_run foldl]. rewrite Hst, outcome_bind_ret. by apply IH.
Qed.

(** ** In chain order a rollback undoes exactly the later blocks *)

Definition before (a b : CommitmentEntry) : Prop := ce_blockHeight a <= ce_blockHeight b.

Lemma sorted_filter_eq l k :
  StronglySorted before l -> StronglySorted before k ->
  (forall h, filter (fun e => ce_blockHeight e = h) l = filter (fun e => ce_blockHeight e = h) k) -> l = k.
Proof.
  assert (forall a l x, StronglySorted before (a :: l) -> x ∈ filter (fun e => ce_blockHeight e = ce_blockHeight x) (a :: l) ->
    ce_blockHeight a <= ce_blockHeight x) as Hmin.
  { intros a l' x Hs [_ Hx]%list_elem_of_filter. apply StronglySorted_inv in Hs as [_ Hf].
    apply elem_of_cons in Hx as [-> | Hx]; [lia |]. exact (proj1 (Forall_forall _ _) Hf x Hx). }
  assert (forall x (l' : list CommitmentEntry), x ∈ filter (fun e => ce_blockHeight e = ce_blockHeight x) (x :: l')) as Hself.
  { intros x l'. apply list_elem_of_filter. split; [done | by left]. }
  revert k. induction l as [| a l IH]; intros [| b k] Hl Hk Hf; [done | | |].
  - pose proof (Hself b k) as Hb. rewrite <- Hf in Hb. by apply elem_of_nil in Hb.
  - pose proof (Hself a l) as Ha. rewrite Hf in Ha. by apply elem_of_nil in Ha.
  - pose proof (Hself a l) as Ha. rewrite Hf in Ha. apply Hmin in Ha; [| done].
    pose proof (Hself b k) as Hb. rewrite <- Hf in Hb. apply Hmin in Hb; [| done].
    assert (Heq : ce_blockHeight b = ce_blockHeight a) by lia.
    assert (a = b) as <-.
    { specialize (Hf (ce_blockHeight a)). rewrite !filter_cons, decide_True, decide_True in Hf by (exact Heq || exact eq_refl). congruence. }
    f_equal. apply IH; [by apply StronglySorted_inv in Hl as [? _] | by apply StronglySorted_inv in Hk as [? _] |].
    intros h. specialize (Hf h). rewrite !filter_cons in Hf. case_decide; congruence.
Qed.

Lemma concat_groups_sorted log : StronglySorted before (concat (groups log).*2).
Proof.
  pose proof (by_height_sorted (index_of log)) as Hs. fold (groups log) in Hs.
  assert (forall p e, p ∈ groups log -> e ∈ p.2 -> ce_blockHeight e = p.1) as Hk.
  { intros [h es] e [-> _]%groups_spec He. by apply list_elem_of_filter in He as [? _]. }
  revert Hs Hk. generalize (groups log). induction 1 as [| p gs Hs IH Hf]; intros Hk; [constructor |].
  rewrite fmap_cons. cbn [concat]. apply StronglySorted_app; split_and!.
  - intros x y Hx Hy. apply list_elem_of_In, in_concat in Hy as (es & Hes & Hy). apply list_elem_of_In in Hy.
    apply list_elem_of_In, list_elem_of_fmap in Hes as (q & -> & Hq). unfold before.
    rewrite (Hk p x) by (by left || done). rewrite (Hk q y) by (by right || done). exact (proj1 (Forall_forall _ _) Hf q Hq).
  - specialize (Hk p). clear -Hk. assert (Hp : forall e, e ∈ p.2 -> ce_blockHeight e = p.1) by (intros; apply Hk; [by left | done]).
    clear Hk. induction (p.2) as [| e es IHe]; [constructor |]. constructor; [apply IHe; intros; apply Hp; by right |].
    apply Forall_forall. intros x Hx. unfold before. rewrite (Hp e), (Hp x); [done | by right | by left].
  - apply IH. intros q e Hq. apply Hk. by right.
Qed.

Lemma rollback_sorted h log : StronglySorted before log -> log_rollback h log = filter (fun e => ce_blockHeight e <= h) log.
Proof.
  intros Hs. pose proof (concat_groups_sorted (log_rollback h log)) as Hc. rewrite groups_log_rollback in Hc. fold (log_rollback h log) in Hc.
  apply sorted_filter_eq; [exact Hc | |].
  - by apply StronglySorted_filter.
  - intros x. pose proof (index_log_rollback h log) as Hi. apply (f_equal (lookup x)) in Hi.
    rewrite index_of_lookup, map_lookup_filter, index_of_lookup in Hi. rewrite list_filter_filter.
    destruct (decide (x <= h)) as [Hle | Hgt].
    + rewrite (filter_ext_in _ (fun e => ce_blockHeight e = x) log) by (intros; split; [by intros [? _] | intros <-; done]).
      destruct (filter _ (log_rollback h log)), (filter _ log); cbn in Hi; rewrite ?option_guard_True in Hi by done; congruence || done.
    + rewrite (filter_ext_in _ (fun _ => False) log) by (intros; split; [intros [<- ?]; done | done]).
      assert (filter (fun e => ce_blockHeight e = x) (log_rollback h log) = []) as ->.
      { destruct (filter _ (log_rollback h log)); [done |]. destruct (filter _ log); cbn in Hi; rewrite ?option_guard_False in Hi by done; done. }
      clear. induction log as [| e log IHl]; [done |]. rewrite filter_cons. by case_decide.
Qed.

(** What pushing and popping blocks means: an entry is appended, the entries above a height go. *)
Definition plain_step (log : list CommitmentEntry) (op : StoreOp) : list CommitmentEntry :=
  match op with
  | Add e => if decide (key e ∈ map (fun e => key e) log) then log else log ++ [e]
  | Rollback h => filter (fun e => ce_blockHeight e <= h) log
  end.

(** No entry is older than one that is already there. *)
Fixpoint chain_ordered (log : list CommitmentEntry) (ops : list StoreOp) : Prop :=
  match ops with
  | [] => True
  | op :: ops =>
      match op with Add e => Forall (fun f => before f e) log | Rollback _ => True end /\ chain_ordered (plain_step log op) ops
  end.

Lemma log_run_plain ops log :
  StronglySorted before log -> chain_ordered log ops -> foldl log_step log ops = foldl plain_step log ops.
Proof.
  revert log. induction ops as [| op ops IH]; intros log Hs Ho; [done |]. destruct Ho as [Hop Ho]. cbn [foldl].
  assert (log_step log op = plain_step log op) as -> by (destruct op; [done | by apply rollback_sorted]).
  apply IH; [| done]. destruct op as [e | h]; cbn [plain_step].
  - case_decide; [done |]. apply StronglySorted_app. split_and!; [| done | repeat constructor].
    intros x y Hx ->%list_elem_of_singleton. exact (proj1 (Forall_forall _ _) Hop x Hx).
  - by apply StronglySorted_filter.
Qed.

(** C35: the commitment index is a log of distinct commitments.  Any sequence of additions and rollbacks
    terminates, and the index then holds exactly the entries of the log: the map answers by
    commitment, the leaves are the commitments in the order of the log with the current root over
    them, the index by height and the counters agree and the current height is the highest.  If the
    entries arrive in the order of their heights, the log is the plain one, where a duplicate
    changes nothing and a rollback drops the entries above the height and nothing else. *)
Theorem commitment_log_refines ops :
  Forall op_ok ops ->
  exists s, store_run emptyStore ops = Ret s /\ store_rep (foldl log_step [] ops) s
    /\ (chain_ordered [] ops -> foldl log_step [] ops = foldl plain_step [] ops).
Proof.
  intros Hops. destruct (store_run_rep ops [] emptyStore empty_rep) as (s & Hr & Hs); [constructor | done |].
  exists s. split_and!; [done | done |]. apply log_run_plain. constructor.
Qed.

(** ** Loading *)

Lemma load_entries_spec l s :
  let s' := foldl load_entry s l in
  forall log, m_merkle_leaves s = map ce_commitment log -> m_heightIndex s = map (fun e => key e) <$> index_of log ->
  m_heat_count s = u64 (of_type HEAT log) -> m_cold_count s = u64 (of_type COLD log) ->
  m_elderfier_stake_count s = u64 (of_type ELDERFIER_STAKING log) -> m_current_block_height s = max_height log ->
  Forall (fun kv => kv.1 = key kv.2 /\ 0 <= ce_blockHeight kv.2) l ->
  let log' := log ++ l.*2 in
  m_commitments s' = m_commitments s /\ m_merkle_leaves s' = map ce_commitment log'
  /\ m_heightIndex s' = map (fun e => key e) <$> index_of log' /\ m_heat_count s' = u64 (of_type HEAT log')
  /\ m_cold_count s' = u64 (of_type COLD log') /\ m_elderfier_stake_count s' = u64 (of_type ELDERFIER_STAKING log')
  /\ m_current_block_height s' = max_height log'.
Proof.
  revert s. induction l as [| [k e] l IH]; intros s s' log Hl Hi H1 H2 H3 Hb Hf; subst s'.
  - cbn. by rewrite app_nil_r.
  - inversion Hf as [| ? ? [Hk He] Hf']; subst. cbn [fst snd] in Hk, He. subst k.
    specialize (IH (load_entry s (key e, e)) (log ++ [e])). cbn [foldl]. cbv zeta in IH.
    rewrite fmap_cons. cbn [snd]. rewrite <- app_assoc in IH. apply IH; [| | | | | | done]; clear IH;
      cbn [load_entry m_merkle_leaves m_heightIndex m_heat_count m_cold_count m_elderfier_stake_count m_current_block_height count_type fst snd].
    + by rewrite Hl, map_app.
    + rewrite index_of_snoc. unfold index_add. rewrite fmap_insert, Hi, lookup_fmap.
      destruct (index_of log !! ce_blockHeight e); cbn [fmap option_fmap option_map default]; by rewrite ?map_app.
    + rewrite H1, of_type_snoc. solve_count e.
    + rewrite H2, of_type_snoc. solve_count e.
    + rewrite H3, of_type_snoc. solve_count e.
    + rewrite max_height_snoc, <- Hb by done. destruct (Z.ltb_spec (m_current_block_height s) (ce_blockHeight e)); lia.
Qed.

(** Reading the map back gives a store of the same entries in the order of their keys. *)
Lemma loadStore_rep log s :
  store_rep log s -> heights_ok log ->
  exists s', loadStore (m_commitments s) = Ret s' /\ store_rep (in_order (m_commitments s)).*2 s'
    /\ (in_order (m_commitments s)).*2 ≡ₚ log.
Proof.
  intros [Hh _ _ _ _] Hok. unfold loadStore. set (m := m_commitments s). set (l := in_order m).
  assert (Hp : l ≡ₚ map_to_list m) by apply merge_sort_Permutation.
  assert (Hin : forall k e, (k, e) ∈ l <-> e ∈ log /\ key e = k).
  { intros k e. rewrite Hp, elem_of_map_to_list. apply (holds_lookup _ _ Hh). }
  assert (Hf : Forall (fun kv => kv.1 = key kv.2 /\ 0 <= ce_blockHeight kv.2) l).
  { apply Forall_forall. intros [k e] [He <-]%Hin. split; [done |]. exact (proj1 (Forall_forall _ _) Hok e He). }
  assert (Hkeys : map (fun e => key e) l.*2 = l.*1).
  { clear -Hf. induction Hf as [| [k e] l [Hk _] _ IH]; [done |]. rewrite !fmap_cons. cbn [map fst snd] in *. f_equal; [by rewrite Hk | exact IH]. }
  assert (Hnd : NoDup (map (fun e => key e) l.*2)) by (rewrite Hkeys, Hp; apply NoDup_fst_map_to_list).
  assert (Hval : forall e, e ∈ l.*2 <-> e ∈ log).
  { intros e. rewrite list_elem_of_fmap. split; [intros ([k f] & -> & [? _]%Hin); done |].
    intros He. exists (key e, e). split; [done |]. by apply Hin. }
  destruct (load_entries_spec l (with_commitments (fun _ => m) emptyStore) [] eq_refl) as (Hm & Hl & Hi & H1 & H2 & H3 & Hb);
    [unfold index_of; cbn [foldl]; by rewrite fmap_empty | done | done | done | done | done |].
  set (s1 := foldl load_entry _ l) in *. destruct (merkle_root_total (m_merkle_leaves s1)) as [root Hroot].
  rewrite Hroot, outcome_bind_ret. eexists. split; [reflexivity |]. split.
  - split; cbn [m_merkle_leaves m_heightIndex m_current_merkle_root m_current_block_height]; try done.
    split; cbn [m_commitments m_heat_count m_cold_count m_elderfier_stake_count]; try done.
    intros k e. rewrite Hm. cbn [with_commitments m_commitments]. fold m. rewrite Hval. apply (holds_lookup _ _ Hh).
  - apply NoDup_Permutation; [by apply NoDup_fmap_1 in Hnd | by eapply NoDup_fmap_1, holds_distinct | done].
Qed.

(** * Concrete stores *)

Module StoreDemo.
Definition entry (c height : Z) (t : CommitmentType) (migrated : bool) : CommitmentEntry :=
  mkCommitmentEntry (replicate 32 c) (replicate 32 (c + 100)) height 1000 8 t 0 migrated [] [] [] false.
(** A deposit of block 10, the migration in the same block of a deposit of block 5, a burn of block 11. *)
Definition deposit := entry 7 10 COLD false.
Definition migration := entry 9 5 COLD true.
Definition burn := entry 8 11 HEAT false.
Definition root_of (r : outcome CommitmentStore) : option Hash :=
  match r with Ret s => Some (computeMerkleRoot s) | _ => None end.
Definition restarted (ops : list StoreOp) : outcome CommitmentStore :=
  s ← store_run emptyStore ops; loadStore (m_commitments s).
End StoreDemo.
Import StoreDemo.

(** Two runs that can be compared by evaluation. *)
Lemma compare_runs (f : CommitmentStore -> outcome CommitmentStore) r :
  match r with
  | Ret s => match f s with
             | Ret s' => bool_decide (m_commitments s' = m_commitments s)
                         && bool_decide (m_merkle_leaves s' ≡ₚ m_merkle_leaves s)
                         && bool_decide (computeMerkleRoot s' <> computeMerkleRoot s)
             | _ => false
             end
  | _ => false
  end ->
  exists s s', r = Ret s /\ f s = Ret s' /\ m_commitments s' = m_commitments s /\ m_merkle_leaves s' ≡ₚ m_merkle_leaves s
    /\ computeMerkleRoot s' <> computeMerkleRoot s.
Proof.
  destruct r as [s | | |]; try done. destruct (f s) as [s' | | |] eqn:E; try done. intros H.
  apply Is_true_true, andb_true_iff in H as [[H1%bool_decide_eq_true H2%bool_decide_eq_true]%andb_true_iff H3%bool_decide_eq_true].
  by exists s, s'.
Qed.

(** The root over the commitments depends on the history of the node, not only on the chain.  A block
    that is added and rolled back again leaves the same commitments under a different root if a
    migrated deposit was indexed before, because its entry carries the height of the
    original deposit; and a restart puts the leaves in the order of their hashes. *)
Theorem merkle_root_depends_on_history :
  let base := [Add deposit; Add migration] in
  (exists s s', store_run emptyStore base = Ret s /\ store_run emptyStore (base ++ [Add burn; Rollback 10]) = Ret s'
     /\ m_commitments s' = m_commitments s /\ m_merkle_leaves s' ≡ₚ m_merkle_leaves s
     /\ computeMerkleRoot s' <> computeMerkleRoot s)
  /\ (chain_ordered [] [Add migration; Add deposit]
      /\ exists s s', store_run emptyStore [Add migration; Add deposit] = Ret s /\ loadStore (m_commitments s) = Ret s'
           /\ m_commitments s' = m_commitments s /\ m_merkle_leaves s' ≡ₚ m_merkle_leaves s
           /\ computeMerkleRoot s' <> computeMerkleRoot s).
Proof.
  split; [| split; [split_and!; cbn; repeat constructor; vm_compute; congruence |]].
  - apply (compare_runs (fun _ => _)). vm_compute. exact I.
  - apply (compare_runs (fun s => loadStore (m_commitments s))). vm_compute. exact I.
Qed.

Definition store_demo : list StoreOp := [Add deposit; Add burn; Add burn; Rollback 10; Add burn].

Lemma commitment_log_refines_witness :
  exists s, store_run emptyStore store_demo = Ret s /\ store_rep (foldl log_step [] store_demo) s
    /\ foldl log_step [] store_demo = [deposit; burn].
Proof.
  destruct (commitment_log_refines store_demo) as (s & Hr & Hs & Hp); [repeat constructor; cbn; lia |].
  exists s. split_and!; [exact Hr | exact Hs |]. rewrite Hp.
  - vm_compute. reflexivity.
  - vm_compute. repeat (split || constructor); discriminate.
Defined.

Lemma merkle_root_binding_witness :
  let l := [replicate 32 7; replicate 32 8; replicate 32 9] in
  exists root, computeMerkleRootInternal l = Ret root
    /\ (l = l \/ collision (tree_texts (length l) l ++ tree_texts (length l) l)).
Proof.
  intros l. destruct (merkle_root_total l) as [root E]. exists root. split; [exact E |]. 
  assert (NoDup l) by (apply (bool_decide_unpack _); vm_compute; exact I).
  assert (Forall is_hash l) by (repeat constructor).
  apply (merkle_root_binding l l root); [assumption | assumption | assumption | assumption | discriminate | discriminate | reflexivity | exact E | exact E].
Defined.

Lemma merkle_proof_correct_witness :
  exists s proof root, store_run emptyStore [Add deposit; Add migration; Add burn] = Ret s
    /\ getMerkleProof s (replicate 32 8) = Ret proof /\ computeMerkleRootInternal (m_merkle_leaves s) = Ret root
    /\ climb 2 (replicate 32 8) proof = root /\ length proof = 2%nat.
Proof.
  assert (Hl : match store_run emptyStore [Add deposit; Add migration; Add burn] with Ret s => m_merkle_leaves s | _ => [] end
    = [replicate 32 7; replicate 32 9; replicate 32 8]) by (vm_compute; reflexivity).
  destruct (store_run emptyStore [Add deposit; Add migration; Add burn]) as [s | | |]; try discriminate Hl.
  destruct (merkle_proof_correct s (replicate 32 8)) as (root & proof & Hroot & Hproof & Hspec).
  exists s, proof, root. unfold getLeafIndex in Hspec. rewrite Hl in Hspec.
  rewrite decide_True in Hspec by (apply (bool_decide_unpack _); vm_compute; exact I).
  replace (find_leaf _ _) with (Some 2%nat) in Hspec by (vm_compute; reflexivity).
  destruct Hspec as (_ & _ & Hc & Hlen). split_and!; [reflexivity | exact Hproof | exact Hroot | exact Hc | exact Hlen].
Defined.
