(* ===== verification/Elderfiers.v ===== *)
(** The Elderfiers of [src/src/CryptoNoteCore/CommitmentIndex.cpp]: registration by staking deposits, the
    unstaking lifecycle, slash votes, the cache of signatures over the Merkle root, the reports of an
    epoch and the review notices, over the commitments of [CommitmentStore.v] and the names of
    [AliasIndex.v].

    The members of [CommitmentIndex] are grouped by what they are about: [ci_store], [ci_registry],
    [ci_cache], [ci_epochs] and [ci_reviews].  [m_aliasIndex] is the object behind the pointer.  The
    clock and [Crypto::check_signature] are parameters.  A restart writes the index ([save]) and reads it into a new one ([load]);
    [clear] comes before the index is rebuilt from the chain. *)

From S2P Require Import Prelude Hex Config Currency Types Keccak Amounts TxChecks Emission AliasIndex CommitmentStore.

#[export] Instance ElderfierRegistration_eq_dec : EqDecision ElderfierRegistration.
Proof. solve_decision. Defined.

(** * Data *)

(** [Crypto::PublicKey()]. *)
Definition NULL_KEY : bytes := replicate 32 0.

Record CachedElderfierSignature := mkCachedSignature {
  sg_merkle_root : Hash;
  sg_signature : bytes;
  sg_elderfier_id : Z;
  sg_block_height : Z;
  sg_timestamp : Z;
  sg_received_block_height : Z;
  sg_is_valid : bool;
  sg_sig_algorithm : Z;
  sg_pq_signature : bytes;
  sg_pq_public_key : bytes
}.

Record DoubleSignEvent := mkDoubleSign {
  ds_elderfier_id : Z;
  ds_root_a : Hash;
  ds_root_b : Hash;
  ds_block_height : Z;
  ds_detected_at_block : Z;
  ds_ceremony_alias : bytes
}.

Record EFierActivity := mkActivity {
  ea_elderfier_id : Z;
  ea_address : bytes;
  ea_ceremonyAlias : bytes;
  ea_signedThisEpoch : bool;
  ea_signaturesSubmitted : Z;
  ea_feesEarned : Z;
  ea_isSlashed : bool;
  ea_isUnstaking : bool;
  ea_consecutiveMissedEpochs : Z
}.

Record EpochReport := mkEpochReport {
  er_epochNumber : Z;
  er_epochStartBlock : Z;
  er_epochEndBlock : Z;
  er_generatedAtBlock : Z;
  er_efierActivity : list EFierActivity;
  er_signingEfierIds : list Z;
  er_missingEfierIds : list Z;
  er_doubleSignEvents : list DoubleSignEvent;
  er_totalFeesDistributed : Z;
  er_activeEfierCount : Z;
  er_participatingEfierCount : Z;
  er_swapFeesCollected : Z;
  er_totalCdLockedAtStart : Z;
  er_feeRateFixedPoint : Z;
  er_slash_advisory : list bytes
}.

Record UnstakingNotice := mkUnstakingNotice {
  un_elderfier_id : Z;
  un_ceremony_alias : bytes;
  un_unstaking_start_block : Z;
  un_review_window_blocks : Z;
  un_total_epochs_active : Z;
  un_epochs_participated : Z;
  un_epochs_missed : Z;
  un_consecutive_missed : Z;
  un_double_sign_count : Z;
  un_total_fees_earned : Z;
  un_broadcast_height : Z;
  un_received_at : Z
}.

Record FullReviewRequest := mkFullReviewRequest {
  fr_target_efid : Z;
  fr_requester_efid : Z;
  fr_reason : bytes;
  fr_evidence_summary : bytes;
  fr_requester_sig : bytes;
  fr_requester_pubkey : bytes;
  fr_broadcast_height : Z;
  fr_received_at : Z
}.

Record PendingElderfierStake := mkPendingStake {
  ps_deposit_count : Z;
  ps_total_amount : Z;
  ps_signing_pubkey : bytes;
  ps_alias : bytes
}.

Record SlashProposal := mkSlashProposal {
  sp_votingEfids : gset Z;
  sp_reason : bytes;
  sp_firstVoteBlock : Z;
  sp_executed : bool
}.

Record ElderfierRegistry := mkRegistry {
  m_pendingElderfierStakes : gmap bytes PendingElderfierStake;
  m_elderfier_ids : list Z;
  m_elderfierAddresses : gmap Z bytes;
  m_elderfierRegistrations : gmap bytes ElderfierRegistration;
  m_voidRegistrations : gset (bytes * Z)
}.

Record SignatureCache := mkSignatureCache {
  m_signatures : gmap (Z * bytes) CachedElderfierSignature;
  m_root_first_seen_block : gmap bytes Z;
  m_doubleSignEvents : list DoubleSignEvent
}.

Record Epochs := mkEpochs {
  m_epochFeeRates : list Z;
  m_epochReports : list EpochReport;
  m_consecutiveMissedEpochs : gmap Z Z;
  m_blockBankingFees : gmap Z Z
}.

Record Reviews := mkReviews {
  m_unstakingNotices : gmap Z UnstakingNotice;
  m_fullReviewRequests : gmap (Z * Z) FullReviewRequest;
  m_slashProposals : gmap bytes SlashProposal
}.

Record CommitmentIndex := mkCommitmentIndex {
  ci_store : CommitmentStore;
  ci_registry : ElderfierRegistry;
  ci_cache : SignatureCache;
  ci_epochs : Epochs;
  ci_reviews : Reviews;
  m_aliasIndex : option AliasIndex
}.

Definition emptyIndex : CommitmentIndex :=
  mkCommitmentIndex emptyStore (mkRegistry ∅ [] ∅ ∅ ∅) (mkSignatureCache ∅ ∅ []) (mkEpochs [] [] ∅ ∅) (mkReviews ∅ ∅ ∅) None.

Definition with_store (s : CommitmentStore) (x : CommitmentIndex) : CommitmentIndex :=
  mkCommitmentIndex s (ci_registry x) (ci_cache x) (ci_epochs x) (ci_reviews x) (m_aliasIndex x).
Definition with_registry (r : ElderfierRegistry) (x : CommitmentIndex) : CommitmentIndex :=
  mkCommitmentIndex (ci_store x) r (ci_cache x) (ci_epochs x) (ci_reviews x) (m_aliasIndex x).
Definition with_cache (c : SignatureCache) (x : CommitmentIndex) : CommitmentIndex :=
  mkCommitmentIndex (ci_store x) (ci_registry x) c (ci_epochs x) (ci_reviews x) (m_aliasIndex x).
Definition with_epochs (e : Epochs) (x : CommitmentIndex) : CommitmentIndex :=
  mkCommitmentIndex (ci_store x) (ci_registry x) (ci_cache x) e (ci_reviews x) (m_aliasIndex x).
Definition with_reviews (r : Reviews) (x : CommitmentIndex) : CommitmentIndex :=
  mkCommitmentIndex (ci_store x) (ci_registry x) (ci_cache x) (ci_epochs x) r (m_aliasIndex x).
Definition setAliasIndex (a : option AliasIndex) (x : CommitmentIndex) : CommitmentIndex :=
  mkCommitmentIndex (ci_store x) (ci_registry x) (ci_cache x) (ci_epochs x) (ci_reviews x) a.

(** * Registration *)

(** The registrations in the order of their addresses. *)
Definition registrations (r : ElderfierRegistry) : list ElderfierRegistration := (in_order (m_elderfierRegistrations r)).*2.

Definition find_reg (P : ElderfierRegistration -> bool) (r : ElderfierRegistry) : option ElderfierRegistration :=
  p ← list_find (fun x => P x = true) (registrations r); Some p.2.

Definition is_active (x : ElderfierRegistration) : bool := bool_decide (reg_status x = ACTIVE).

Definition getActiveElderfierCount (r : ElderfierRegistry) : Z := Z.of_nat (length (filter (fun x => is_active x = true) (registrations r))).

Definition is_void (r : ElderfierRegistry) (address : bytes) : bool :=
  existsb (fun p => bool_decide (p.1 = address)) (elements (m_voidRegistrations r)).

Definition canAddressRegisterNewElderfier (r : ElderfierRegistry) (address : bytes) : bool :=
  if bool_decide (is_Some (m_elderfierRegistrations r !! address)) then false else negb (is_void r address).

(** [while (used_ids.count(efid) > 0 && efid < 255) efid++;] from [efid], with [fuel] values left below 255. *)
Fixpoint next_efid (fuel : nat) (used : list Z) (efid : Z) : Z :=
  match fuel with
  | O => efid
  | S fuel => if bool_decide (efid ∈ used) && (efid <? 255) then next_efid fuel used (efid + 1) else efid
  end.

(** The names that the registration passes on to the alias index. *)
Definition ceremony_alias_ok (alias : bytes) : bool :=
  negb (bool_decide (alias = []))
  && ((length alias =? 8)%nat || bool_decide (alias = str "GALAPAGOS") || bool_decide (alias = str "WINSLAYER")
      || bool_decide (alias = str "LOUDMINING")).

Definition tryRegisterElderfier (x : CommitmentIndex) (wallet pubkey alias : bytes) : bool * CommitmentIndex :=
  let r := ci_registry x in
  if bool_decide (is_Some (m_elderfierRegistrations r !! wallet)) then (false, x)
  else if is_void r wallet then (false, x)
  else if 8 <=? getActiveElderfierCount r then (false, x)
  else
    let efid := next_efid 255 (m_elderfier_ids r) 0 in
    if bool_decide (efid ∈ m_elderfier_ids r) then (false, x)
    else
      let reg := mkRegistration wallet alias efid pubkey ACTIVE 0 0 in
      let x := with_registry (mkRegistry (m_pendingElderfierStakes r) (m_elderfier_ids r ++ [efid])
                 (<[efid := wallet]> (m_elderfierAddresses r)) (<[wallet := reg]> (m_elderfierRegistrations r))
                 (m_voidRegistrations r)) x in
      (true, setAliasIndex (match m_aliasIndex x with
                            | Some a =>
                                if ceremony_alias_ok alias then
                                  Some (registerAlias a (mkAliasEntry alias [] (cn_fast_hash alias) (cn_fast_hash wallet) 0
                                          (u32 (m_current_block_height (ci_store x))))).2
                                else Some a
                            | None => None
                            end) x).

Section Index.
Context (c : Currency).
Context (check_signature : Hash -> bytes -> bytes -> bool).

Definition REGISTRATION_AMOUNT : Z := if m_testnet c then TESTIFIER_CEREMONY_AMOUNT else ELDERKING_CEREMONY_AMOUNT.
Definition REGISTRATION_COUNT : Z := if m_testnet c then TESTIFIER_TOTAL_DEPOSITS else ELDERKING_TOTAL_DEPOSITS.

Definition isElderfierRegistrationDeposit (e : CommitmentEntry) : bool := bool_decide (ce_type e = ELDERFIER_STAKING).

(** The stake of a wallet after one more deposit. *)
Definition add_stake (p : PendingElderfierStake) (e : CommitmentEntry) : PendingElderfierStake :=
  mkPendingStake (ps_deposit_count p + 1) (u64 (ps_total_amount p + ce_amount e))
    (if bool_decide (ce_signingPubKey e = NULL_KEY) then ps_signing_pubkey p else ce_signingPubKey e)
    (if negb (bool_decide (ce_ceremonyAlias e = [])) && bool_decide (ps_alias p = []) then ce_ceremonyAlias e else ps_alias p).

Definition with_pending (f : gmap bytes PendingElderfierStake -> gmap bytes PendingElderfierStake) (x : CommitmentIndex) : CommitmentIndex :=
  let r := ci_registry x in
  with_registry (mkRegistry (f (m_pendingElderfierStakes r)) (m_elderfier_ids r) (m_elderfierAddresses r)
    (m_elderfierRegistrations r) (m_voidRegistrations r)) x.

(** The second half of [addCommitment]. *)
Definition track_stake (x : CommitmentIndex) (e : CommitmentEntry) : CommitmentIndex :=
  let wallet := ce_senderAddress e in
  if negb (isElderfierRegistrationDeposit e) || bool_decide (wallet = []) then x
  else
    let pending := add_stake (default (mkPendingStake 0 0 NULL_KEY []) (m_pendingElderfierStakes (ci_registry x) !! wallet)) e in
    let x := with_pending (<[wallet := pending]>) x in
    if (REGISTRATION_COUNT <=? ps_deposit_count pending) && (REGISTRATION_AMOUNT <=? ps_total_amount pending) then
      with_pending (delete wallet) (tryRegisterElderfier x wallet (ps_signing_pubkey pending) (ps_alias pending)).2
    else x.

Definition addCommitment (x : CommitmentIndex) (e : CommitmentEntry) : outcome CommitmentIndex :=
  '(added, s) ← addToStore (ci_store x) e;
  Ret (if added : bool then track_stake (with_store s x) e else x).

Definition registerElderfierAddress (x : CommitmentIndex) (elderfier_id : Z) (address : bytes) : CommitmentIndex :=
  let r := ci_registry x in
  with_registry (mkRegistry (m_pendingElderfierStakes r) (m_elderfier_ids r) (<[elderfier_id := address]> (m_elderfierAddresses r))
    (m_elderfierRegistrations r) (m_voidRegistrations r)) x.

Definition rollbackIndex (x : CommitmentIndex) (h : Z) : outcome (Z * CommitmentIndex) :=
  '(removed, s) ← rollbackToHeight (ci_store x) h;
  Ret (removed, with_store s x).

(** * The unstaking lifecycle *)

Definition with_registrations (f : gmap bytes ElderfierRegistration -> gmap bytes ElderfierRegistration) (x : CommitmentIndex) : CommitmentIndex :=
  let r := ci_registry x in
  with_registry (mkRegistry (m_pendingElderfierStakes r) (m_elderfier_ids r) (m_elderfierAddresses r)
    (f (m_elderfierRegistrations r)) (m_voidRegistrations r)) x.

Definition isInReviewWindow (reg : ElderfierRegistration) (currentBlock : Z) : bool :=
  if negb (bool_decide (reg_status reg = UNSTAKING)) then false
  else currentBlock <? u32 (reg_unstaking_start_block reg + reg_unstaking_review_window reg).

Definition canCompleteUnstaking (reg : ElderfierRegistration) (currentBlock : Z) : bool :=
  if negb (bool_decide (reg_status reg = UNSTAKING)) then false
  else u32 (reg_unstaking_start_block reg + reg_unstaking_review_window reg) <=? currentBlock.

Definition isAddressRegisteredAsElderfier (r : ElderfierRegistry) (address : bytes) (efid : Z) : bool :=
  match m_elderfierRegistrations r !! address with
  | None => false
  | Some reg => (reg_elderfier_id reg =? efid) && is_active reg
  end.

Definition initiateElderfierUnstaking (x : CommitmentIndex) (address : bytes) (efid currentBlock reviewWindow : Z) : bool * CommitmentIndex :=
  match m_elderfierRegistrations (ci_registry x) !! address with
  | None => (false, x)
  | Some reg =>
      if negb (reg_elderfier_id reg =? efid) then (false, x)
      else if negb (is_active reg) then (false, x)
      else (true, with_registrations (<[address := mkRegistration (reg_address reg) (reg_ceremony_alias reg) (reg_elderfier_id reg)
                    (reg_signing_pubkey reg) UNSTAKING currentBlock reviewWindow]>) x)
  end.

(** [std::find] and [erase]: the first occurrence. *)
Fixpoint erase_first (efid : Z) (l : list Z) : list Z :=
  match l with
  | [] => []
  | x :: l => if x =? efid then l else x :: erase_first efid l
  end.

Definition completeElderfierUnstaking (x : CommitmentIndex) (address : bytes) (efid currentBlock : Z) : bool * CommitmentIndex :=
  let r := ci_registry x in
  match m_elderfierRegistrations r !! address with
  | None => (false, x)
  | Some reg =>
      if negb (reg_elderfier_id reg =? efid) then (false, x)
      else if negb (canCompleteUnstaking reg currentBlock) then (false, x)
      else
        let r := mkRegistry (m_pendingElderfierStakes r) (erase_first efid (m_elderfier_ids r)) (m_elderfierAddresses r)
                   (delete address (m_elderfierRegistrations r)) (m_voidRegistrations r ∪ {[(address, efid)]}) in
        (true, setAliasIndex ((fun a => (voidAlias a address).2) <$> m_aliasIndex x) (with_registry r x))
  end.

Definition getElderfierStatus (r : ElderfierRegistry) (address : bytes) (efid : Z) : ElderfierStatus :=
  match m_elderfierRegistrations r !! address with
  | Some reg => if reg_elderfier_id reg =? efid then reg_status reg else VOID
  | None => VOID
  end.

Definition isElderfierInReviewWindow (r : ElderfierRegistry) (address : bytes) (efid currentBlock : Z) : bool :=
  match m_elderfierRegistrations r !! address with
  | Some reg => if negb (reg_elderfier_id reg =? efid) then false else isInReviewWindow reg currentBlock
  | None => false
  end.

Definition isAddressBlacklisted (r : ElderfierRegistry) (address : bytes) (efid : Z) : bool :=
  bool_decide ((address, efid) ∈ m_voidRegistrations r).

Definition getElderfierRegistrationsByAddress (r : ElderfierRegistry) (address : bytes) : list ElderfierRegistration :=
  match m_elderfierRegistrations r !! address with Some reg => [reg] | None => [] end.

(** [None] is [false]. *)
Definition getElderfierSigningPubkey (r : ElderfierRegistry) (efid : Z) : option bytes :=
  reg ← find_reg (fun reg => (reg_elderfier_id reg =? efid) && is_active reg) r;
  if bool_decide (reg_signing_pubkey reg = NULL_KEY) then None else Some (reg_signing_pubkey reg).

Definition getElderfierBySigningPubkey (r : ElderfierRegistry) (pubkey : bytes) : option ElderfierRegistration :=
  find_reg (fun reg => bool_decide (reg_signing_pubkey reg = pubkey)) r.

(** * Signatures over the root *)

(** The order of [std::map<std::pair<uint8_t, std::string>, _>]. *)
Definition sig_le {A} (a b : (Z * bytes) * A) : Prop :=
  (if a.1.1 <? b.1.1 then true else if b.1.1 <? a.1.1 then false else text_le a.1.2 b.1.2) = true.
#[local] Instance sig_le_dec {A} : RelDecision (@sig_le A) := fun a b => bool_eq_dec _ _.

Definition signatures (s : SignatureCache) : list ((Z * bytes) * CachedElderfierSignature) := merge_sort sig_le (map_to_list (m_signatures s)).

(** The list of events is cut to the last 10000. *)
Definition recordDoubleSign (s : SignatureCache) (event : DoubleSignEvent) : SignatureCache :=
  let events := m_doubleSignEvents s ++ [event] in
  mkSignatureCache (m_signatures s) (m_root_first_seen_block s)
    (if 10000 <? Z.of_nat (length events) then drop 1 events else events).

(** Whether the signature is by the registered key of an active Elderfier. *)
Definition verify_cached (r : ElderfierRegistry) (sig : CachedElderfierSignature) : bool :=
  if sg_sig_algorithm sig =? 0 then
    match find_reg (fun reg => (reg_elderfier_id reg =? sg_elderfier_id sig) && is_active reg) r with
    | Some reg =>
        if bool_decide (reg_signing_pubkey reg = NULL_KEY) then false
        else check_signature (sg_merkle_root sig) (reg_signing_pubkey reg) (sg_signature sig)
    | None => false
    end
  else false.

Definition addSignatureToCache (x : CommitmentIndex) (sig : CachedElderfierSignature) : CommitmentIndex :=
  let valid := verify_cached (ci_registry x) sig in
  let verified_sig := mkCachedSignature (sg_merkle_root sig) (sg_signature sig) (sg_elderfier_id sig) (sg_block_height sig)
    (sg_timestamp sig) (sg_received_block_height sig) valid (sg_sig_algorithm sig) (sg_pq_signature sig) (sg_pq_public_key sig) in
  let merkle_root_hex := toHex (sg_merkle_root sig) in
  let s := ci_cache x in
  let s :=
    if valid then
      match list_find (fun p => (p.1.1 =? sg_elderfier_id sig) && negb (bool_decide (p.1.2 = merkle_root_hex))
                                && (sg_block_height p.2 =? sg_block_height sig) && sg_is_valid p.2 = true) (signatures s) with
      | Some (_, p) =>
          recordDoubleSign s (mkDoubleSign (sg_elderfier_id sig) (sg_merkle_root p.2) (sg_merkle_root sig) (sg_block_height sig)
            (sg_received_block_height sig) [])
      | None => s
      end
    else s in
  let first_seen :=
    match m_root_first_seen_block s !! merkle_root_hex with
    | None => <[merkle_root_hex := sg_received_block_height sig]> (m_root_first_seen_block s)
    | Some _ => m_root_first_seen_block s
    end in
  with_cache (mkSignatureCache (<[(sg_elderfier_id sig, merkle_root_hex) := verified_sig]> (m_signatures s)) first_seen
    (m_doubleSignEvents s)) x.

(** The valid signatures over the current root. *)
Definition current_signatures (x : CommitmentIndex) : list ((Z * bytes) * CachedElderfierSignature) :=
  filter (fun p => p.1.2 = toHex (m_current_merkle_root (ci_store x)) /\ sg_is_valid p.2 = true) (signatures (ci_cache x)).

Definition getConsensusPercentageForCurrentRoot (x : CommitmentIndex) : Z :=
  if bool_decide (m_elderfier_ids (ci_registry x) = []) then 0
  else u64 (Z.of_nat (length (current_signatures x)) * 100) / Z.of_nat (length (m_elderfier_ids (ci_registry x))).

Definition checkAndFlushThreshold (x : CommitmentIndex) : CommitmentIndex :=
  if bool_decide (m_elderfier_ids (ci_registry x) = []) then x
  else if 69 <=? getConsensusPercentageForCurrentRoot x then
    let s := ci_cache x in
    with_cache (mkSignatureCache (filter (fun p => p.1.2 = toHex (m_current_merkle_root (ci_store x))) (m_signatures s))
      (m_root_first_seen_block s) (m_doubleSignEvents s)) x
  else x.

Definition updateCurrentMerkleRoot (x : CommitmentIndex) (new_root : Hash) : CommitmentIndex :=
  let s := ci_cache x in
  let first_seen :=
    match m_root_first_seen_block s !! toHex new_root with
    | None => <[toHex new_root := 0]> (m_root_first_seen_block s)
    | Some _ => m_root_first_seen_block s
    end in
  with_cache (mkSignatureCache (m_signatures s) first_seen (m_doubleSignEvents s)) (with_store (overrideRoot (ci_store x) new_root) x).

(** The Elderfiers that signed the current root, in the order of their numbers, and the others. *)
Definition getSignedElderfierIds (x : CommitmentIndex) : list Z := remove_dups (map (fun p => p.1.1) (current_signatures x)).

Definition getPendingElderfierIds (x : CommitmentIndex) : list Z :=
  filter (fun efid => efid ∉ map (fun p => p.1.1) (current_signatures x)) (m_elderfier_ids (ci_registry x)).

Record ElderfierSignatureBundle := mkBundle {
  sb_elderfier_id : Z;
  sb_signing_pubkey : bytes;
  sb_signature : bytes;
  sb_block_height : Z;
  sb_timestamp : Z
}.

(** The current root has one signature per Elderfier, so that the set of seen numbers never matters. *)
Definition getSignaturesForCurrentRoot (x : CommitmentIndex) : list ElderfierSignatureBundle :=
  map (fun p =>
    let pubkey :=
      match find_reg (fun reg => (reg_elderfier_id reg =? p.1.1) && is_active reg) (ci_registry x) with
      | Some reg => reg_signing_pubkey reg
      | None => NULL_KEY
      end in
    mkBundle p.1.1 pubkey (sg_signature p.2) (sg_block_height p.2) (sg_timestamp p.2)) (current_signatures x).

(** * Slashing *)

(** Whether the voter owns the deposit. *)
Definition votes_on_own (x : CommitmentIndex) (depositTxHash : Hash) (efid : Z) : bool :=
  match getCommitmentEntryByTxHash (ci_store x) depositTxHash with
  | Some entry =>
      match getElderfierBySigningPubkey (ci_registry x) (ce_signingPubKey entry) with
      | Some reg => reg_elderfier_id reg =? efid
      | None => false
      end
  | None => false
  end.

Definition with_proposals (f : gmap bytes SlashProposal -> gmap bytes SlashProposal) (x : CommitmentIndex) : CommitmentIndex :=
  let r := ci_reviews x in with_reviews (mkReviews (m_unstakingNotices r) (m_fullReviewRequests r) (f (m_slashProposals r))) x.

Definition addSlashVote (x : CommitmentIndex) (depositTxHash : Hash) (efid : Z) (reason : bytes) (blockHeight requiredThresholdPct : Z)
    : bool * CommitmentIndex :=
  let key := toHex depositTxHash in
  let found := m_slashProposals (ci_reviews x) !! key in
  if match found with Some p => sp_executed p | None => false end then (false, x)
  else if votes_on_own x depositTxHash efid then (false, x)
  else
    let p := default (mkSlashProposal ∅ [] 0 false) found in
    let p := mkSlashProposal (sp_votingEfids p ∪ {[efid]}) reason
               (if sp_firstVoteBlock p =? 0 then blockHeight else sp_firstVoteBlock p) (sp_executed p) in
    let x := with_proposals (<[key := p]>) x in
    let activeCount := getActiveElderfierCount (ci_registry x) in
    if activeCount =? 0 then (false, x)
    else (requiredThresholdPct <=? u64 (Z.of_nat (size (sp_votingEfids p)) * 100) / activeCount, x).

Definition getSlashVoteCount (x : CommitmentIndex) (depositTxHash : Hash) : Z :=
  match m_slashProposals (ci_reviews x) !! toHex depositTxHash with
  | Some p => Z.of_nat (size (sp_votingEfids p))
  | None => 0
  end.

Definition markSlashProposalExecuted (x : CommitmentIndex) (depositTxHash : Hash) : CommitmentIndex :=
  let key := toHex depositTxHash in
  match m_slashProposals (ci_reviews x) !! key with
  | Some p => with_proposals (<[key := mkSlashProposal (sp_votingEfids p) (sp_reason p) (sp_firstVoteBlock p) true]>) x
  | None => x
  end.

Definition markSlashed (x : CommitmentIndex) (depositTxHash : Hash) : bool * CommitmentIndex :=
  let '(b, s) := markCommitmentSlashed (ci_store x) depositTxHash in (b, with_store s x).

(** * Epochs *)

Definition addBlockBankingFee (x : CommitmentIndex) (height fee : Z) : CommitmentIndex :=
  let e := ci_epochs x in
  with_epochs (mkEpochs (m_epochFeeRates e) (m_epochReports e) (m_consecutiveMissedEpochs e) (<[height := fee]> (m_blockBankingFees e))) x.

Definition getBlockBankingFee (x : CommitmentIndex) (height : Z) : Z := default 0 (m_blockBankingFees (ci_epochs x) !! height).

(** [resize(epochNumber + 1, 0)] and the assignment. *)
Definition recordEpochFeeRate (x : CommitmentIndex) (epochNumber feeRate : Z) : CommitmentIndex :=
  let e := ci_epochs x in
  let n := Z.to_nat epochNumber in
  let rates := m_epochFeeRates e ++ replicate (S n - length (m_epochFeeRates e)) 0 in
  with_epochs (mkEpochs (<[n := feeRate]> rates) (m_epochReports e) (m_consecutiveMissedEpochs e) (m_blockBankingFees e)) x.

(** The numbers of a [std::set<uint8_t>], in order. *)
Definition sorted_ids (s : gset Z) : list Z := merge_sort Z.le (elements s).

Definition signers_of_epoch (x : CommitmentIndex) (startBlock endBlock : Z) : gset Z :=
  let cache := signatures (ci_cache x) in
  list_to_set (map (fun p => p.1.1) (filter (fun p => sg_is_valid p.2 = true /\ startBlock <= sg_received_block_height p.2 <= endBlock) cache))
  ∪ (if bool_decide (m_current_merkle_root (ci_store x) = NULL_HASH) then ∅
     else list_to_set (map (fun p => p.1.1) (current_signatures x))).

Definition active_efids (x : CommitmentIndex) : gset Z :=
  list_to_set (map reg_elderfier_id (filter (fun reg => reg_status reg = ACTIVE \/ reg_status reg = UNSTAKING) (registrations (ci_registry x)))).

(** The key of a registration is its address. *)
Definition reg_by_id (x : CommitmentIndex) (efid : Z) : option ElderfierRegistration :=
  find_reg (fun reg => reg_elderfier_id reg =? efid) (ci_registry x).

(** The staking commitments, in the order of their keys, whose signing key belongs to the Elderfier. *)
Definition staked_by (x : CommitmentIndex) (efid : Z) : list CommitmentEntry :=
  filter (fun e => ce_type e = ELDERFIER_STAKING
    /\ existsb (fun reg => (reg_elderfier_id reg =? efid) && bool_decide (ce_signingPubKey e = reg_signing_pubkey reg))
         (registrations (ci_registry x)) = true) (in_order (m_commitments (ci_store x))).*2.

Definition epoch_fee_total (x : CommitmentIndex) (startBlock endBlock : Z) : Z :=
  foldl (fun acc p => u64 (acc + p.2)) 0
    (filter (fun p => startBlock <= p.1 <= endBlock) (by_height (m_blockBankingFees (ci_epochs x)))).

Definition activity_of (x : CommitmentIndex) (startBlock endBlock : Z) (efid : Z) : EFierActivity :=
  let signed := bool_decide (efid ∈ signers_of_epoch x startBlock endBlock) in
  mkActivity efid
    (match reg_by_id x efid with Some reg => reg_address reg | None => [] end)
    (match filter (fun e => ce_ceremonyAlias e <> []) (staked_by x efid) with e :: _ => ce_ceremonyAlias e | [] => [] end)
    signed
    (Z.of_nat (length (filter (fun p => p.1.1 = efid /\ sg_is_valid p.2 = true) (signatures (ci_cache x)))))
    (if signed then epoch_fee_total x startBlock endBlock / Z.of_nat (size (active_efids x)) else 0)
    (existsb ce_isSlashed (staked_by x efid))
    (match reg_by_id x efid with Some reg => bool_decide (reg_status reg = UNSTAKING) | None => false end)
    (default 0 (m_consecutiveMissedEpochs (ci_epochs x) !! efid)).

Definition generateEpochReport (x : CommitmentIndex) (epochNumber startBlock endBlock generatedAtBlock : Z) : EpochReport :=
  let ids := sorted_ids (active_efids x) in
  let activity := map (activity_of x startBlock endBlock) ids in
  let events := filter (fun ev => startBlock <= ds_detected_at_block ev <= endBlock) (m_doubleSignEvents (ci_cache x)) in
  mkEpochReport epochNumber startBlock endBlock generatedAtBlock activity
    (map ea_elderfier_id (filter (fun a => ea_signedThisEpoch a = true) activity))
    (map ea_elderfier_id (filter (fun a => ea_signedThisEpoch a = false) activity))
    events
    (if bool_decide (ids = []) then 0 else epoch_fee_total x startBlock endBlock)
    (Z.of_nat (size (active_efids x))) (Z.of_nat (size (signers_of_epoch x startBlock endBlock))) 0 0 0
    (map (fun a => str "INACTIVE:" ++ to_string (ea_elderfier_id a) ++ str ":" ++ to_string (ea_consecutiveMissedEpochs a)
                   ++ str "_epochs_missed")
       (filter (fun a => ea_signedThisEpoch a = false /\ ea_isSlashed a = false /\ 3 <= ea_consecutiveMissedEpochs a) activity)
     ++ map (fun ev => str "DOUBLE_SIGN:" ++ to_string (ds_elderfier_id ev) ++ str ":height=" ++ to_string (ds_block_height ev)) events).

(** The streaks of missed epochs, and the last ten reports. *)
Definition storeEpochReport (x : CommitmentIndex) (report : EpochReport) : CommitmentIndex :=
  let e := ci_epochs x in
  let missed := foldl (fun m efid => <[efid := u32 (default 0 (m !! efid) + 1)]> m) (m_consecutiveMissedEpochs e) (er_missingEfierIds report) in
  let missed := foldl (fun m efid => <[efid := 0]> m) missed (er_signingEfierIds report) in
  let reports := m_epochReports e ++ [report] in
  with_epochs (mkEpochs (m_epochFeeRates e) (if (10 <? length reports)%nat then drop 1 reports else reports) missed (m_blockBankingFees e)) x.

(** From the newest back. *)
Definition getEpochReport (x : CommitmentIndex) (epochNumber : Z) : option EpochReport :=
  p ← list_find (fun r => er_epochNumber r = epochNumber) (rev (m_epochReports (ci_epochs x))); Some p.2.

Definition getLatestEpochReport (x : CommitmentIndex) : option EpochReport := last (m_epochReports (ci_epochs x)).

(** * Reviews *)

Definition addUnstakingNotice (x : CommitmentIndex) (notice : UnstakingNotice) : CommitmentIndex :=
  let r := ci_reviews x in
  with_reviews (mkReviews (<[un_elderfier_id notice := notice]> (m_unstakingNotices r)) (m_fullReviewRequests r) (m_slashProposals r)) x.

Definition getUnstakingNotices (x : CommitmentIndex) : list UnstakingNotice := (by_height (m_unstakingNotices (ci_reviews x))).*2.

Definition validReasons : list bytes := [str "double_sign"; str "missed_epochs"; str "invalid_sig"; str "duty_abuse"].

Definition addFullReviewRequest (x : CommitmentIndex) (req : FullReviewRequest) : CommitmentIndex :=
  if negb (bool_decide (fr_reason req ∈ validReasons)) then x
  else if bool_decide (find_reg (fun reg => (reg_elderfier_id reg =? fr_requester_efid req) && is_active reg) (ci_registry x) = None) then x
  else if fr_requester_efid req =? fr_target_efid req then x
  else
    let r := ci_reviews x in
    with_reviews (mkReviews (m_unstakingNotices r) (<[(fr_target_efid req, fr_requester_efid req) := req]> (m_fullReviewRequests r))
      (m_slashProposals r)) x.

Definition getFullReviewRequests (x : CommitmentIndex) (target_efid : Z) : list FullReviewRequest :=
  (merge_sort height_le (map (fun p => (p.1.2, p.2))
    (filter (fun p => p.1.1 = target_efid) (map_to_list (m_fullReviewRequests (ci_reviews x)))))).*2.

(** The tally of one report: participated, missed, consecutive misses, fees. *)
Definition tally_report (efid : Z) (acc : Z * Z * Z * Z) (report : EpochReport) : Z * Z * Z * Z :=
  let '(participated, missed, consecutive, fees) := acc in
  let activity := p ← list_find (fun a => ea_elderfier_id a = efid) (er_efierActivity report); Some p.2 in
  let fees := match activity with Some a => u64 (fees + ea_feesEarned a) | None => fees end in
  if match activity with Some a => ea_signedThisEpoch a | None => false end
  then (participated + 1, missed, 0, fees) else (participated, missed + 1, u32 (consecutive + 1), fees).

(** [now] is the clock; [None] is [false]. *)
Definition buildUnstakingNotice (x : CommitmentIndex) (efid currentBlock now : Z) : option UnstakingNotice :=
  reg ← reg_by_id x efid;
  let '(participated, missed, consecutive, fees) := foldl (tally_report efid) (0, 0, 0, 0) (m_epochReports (ci_epochs x)) in
  Some (mkUnstakingNotice efid
    (match staked_by x efid with e :: _ => ce_ceremonyAlias e | [] => [] end)
    currentBlock
    (if 0 <? reg_unstaking_review_window reg then reg_unstaking_review_window reg else ELDERFIER_STAKING_REVIEW_WINDOW)
    (Z.of_nat (length (m_epochReports (ci_epochs x)))) participated missed
    (default consecutive (m_consecutiveMissedEpochs (ci_epochs x) !! efid))
    (Z.of_nat (length (filter (fun ev => ds_elderfier_id ev = efid) (m_doubleSignEvents (ci_cache x)))))
    fees currentBlock now).

(** * The whole index *)

(** [clear]: the members that it names. *)
Definition clear (x : CommitmentIndex) : CommitmentIndex :=
  mkCommitmentIndex (clearStore (ci_store x)) (mkRegistry ∅ [] (m_elderfierAddresses (ci_registry x)) ∅ ∅)
    (mkSignatureCache ∅ ∅ (m_doubleSignEvents (ci_cache x))) (ci_epochs x) (ci_reviews x) (m_aliasIndex x).

(** What [serialize] writes. *)
Record SavedIndex := mkSaved {
  sv_commitments : gmap bytes CommitmentEntry;
  sv_registrations : gmap bytes ElderfierRegistration;
  sv_addresses : gmap Z bytes;
  sv_epochReports : list EpochReport;
  sv_epochFeeRates : list Z
}.

Definition save (x : CommitmentIndex) : SavedIndex :=
  mkSaved (m_commitments (ci_store x)) (m_elderfierRegistrations (ci_registry x)) (m_elderfierAddresses (ci_registry x))
    (m_epochReports (ci_epochs x)) (m_epochFeeRates (ci_epochs x)).

(** [serialize] on the input serializer, into the index [x]. *)
Definition load (x : CommitmentIndex) (v : SavedIndex) : outcome CommitmentIndex :=
  s ← loadStore (sv_commitments v);
  let r := ci_registry x in
  Ret (mkCommitmentIndex s
    (mkRegistry (m_pendingElderfierStakes r) (map reg_elderfier_id (in_order (sv_registrations v)).*2) (sv_addresses v)
       (sv_registrations v) (m_voidRegistrations r))
    (ci_cache x)
    (mkEpochs (sv_epochFeeRates v) (sv_epochReports v) (m_consecutiveMissedEpochs (ci_epochs x)) (m_blockBankingFees (ci_epochs x)))
    (ci_reviews x) (m_aliasIndex x)).

End Index.

(** * The registry of Elderfiers *)

#[local] Opaque cn_fast_hash toHex.

Lemma in_order_perm {A} (m : gmap bytes A) : in_order m ≡ₚ map_to_list m.
Proof. apply merge_sort_Permutation. Qed.

Lemma in_order_delete {A} (m : gmap bytes A) a g : m !! a = Some g -> (in_order m).*2 ≡ₚ g :: (in_order (delete a m)).*2.
Proof. intros Hg. rewrite !in_order_perm. rewrite <- (map_to_list_delete m a g Hg). done. Qed.

Lemma in_order_insert {A} (m : gmap bytes A) a g : m !! a = None -> (in_order (<[a := g]> m)).*2 ≡ₚ g :: (in_order m).*2.
Proof. intros Hg. rewrite !in_order_perm, map_to_list_insert by done. done. Qed.

Lemma in_order_elem {A} (m : gmap bytes A) g : g ∈ (in_order m).*2 <-> exists a, m !! a = Some g.
Proof.
  rewrite in_order_perm, list_elem_of_fmap. split.
  - intros ([a h] & -> & Ha). exists a. by apply elem_of_map_to_list.
  - intros [a Ha]. exists (a, g). split; [done |]. by apply elem_of_map_to_list.
Qed.

(** The invariant of the registry. *)
Record registry_ok (r : ElderfierRegistry) : Prop := {
  reg_fields a g : m_elderfierRegistrations r !! a = Some g ->
    reg_address g = a /\ reg_status g <> VOID /\ 0 <= reg_elderfier_id g <= 255 /\ is_Some (m_elderfierAddresses r !! reg_elderfier_id g);
  reg_ids : m_elderfier_ids r ≡ₚ map reg_elderfier_id (registrations r);
  reg_distinct : NoDup (m_elderfier_ids r);
  reg_council : getActiveElderfierCount r <= 8;
  reg_void a i : (a, i) ∈ m_voidRegistrations r -> m_elderfierRegistrations r !! a = None
}.

Lemma is_void_false r a : is_void r a = false <-> forall i, (a, i) ∉ m_voidRegistrations r.
Proof.
  unfold is_void. rewrite <- not_true_iff_false, existsb_exists. split.
  - intros Hn i Hi. apply Hn. exists (a, i). split; [by apply list_elem_of_In, elem_of_elements | by apply bool_decide_eq_true].
  - intros Hn ([b i] & Hi%list_elem_of_In%elem_of_elements & Heq%bool_decide_eq_true). cbn in Heq. subst b. by apply (Hn i).
Qed.

Lemma next_efid_range fuel used e : e <= next_efid fuel used e <= e + Z.of_nat fuel.
Proof.
  revert e. induction fuel as [| fuel IH]; intros e; cbn [next_efid]; [lia |].
  destruct (_ && _); [specialize (IH (e + 1)); lia | lia].
Qed.

(** A number is found unless all are taken. *)
Lemma next_efid_taken fuel used e :
  e + Z.of_nat fuel = 255 -> next_efid fuel used e ∈ used -> forall j, e <= j <= 255 -> j ∈ used.
Proof.
  revert e. induction fuel as [| fuel IH]; intros e He Hin j Hj; cbn [next_efid] in Hin.
  - by replace j with e by lia.
  - case_bool_decide as Hu; cbn [andb] in Hin; [| done]. destruct (Z.ltb_spec e 255); [| lia].
    destruct (decide (j = e)) as [-> | Hne]; [done |]. apply (IH (e + 1)); [lia | done | lia].
Qed.

Lemma active_count_perm l k : l ≡ₚ k ->
  length (filter (fun x => is_active x = true) l) = length (filter (fun x => is_active x = true) k).
Proof. intros Hp. by rewrite Hp. Qed.

(** When the registration of a wallet succeeds, and what it changes. *)
Definition can_register (r : ElderfierRegistry) (wallet : bytes) : Prop :=
  m_elderfierRegistrations r !! wallet = None /\ is_void r wallet = false /\ getActiveElderfierCount r < 8
  /\ exists j, 0 <= j <= 255 /\ j ∉ m_elderfier_ids r.

Definition registered (r : ElderfierRegistry) (wallet pubkey alias : bytes) (efid : Z) : ElderfierRegistry :=
  mkRegistry (m_pendingElderfierStakes r) (m_elderfier_ids r ++ [efid]) (<[efid := wallet]> (m_elderfierAddresses r))
    (<[wallet := mkRegistration wallet alias efid pubkey ACTIVE 0 0]> (m_elderfierRegistrations r)) (m_voidRegistrations r).

Lemma tryRegister_spec x wallet pubkey alias ok x' :
  tryRegisterElderfier x wallet pubkey alias = (ok, x') ->
  ci_store x' = ci_store x
  /\ (if ok then can_register (ci_registry x) wallet
        /\ exists efid, 0 <= efid <= 255 /\ (efid ∉ m_elderfier_ids (ci_registry x))
             /\ ci_registry x' = registered (ci_registry x) wallet pubkey alias efid
      else ~ can_register (ci_registry x) wallet /\ x' = x).
Proof.
  unfold tryRegisterElderfier, can_register. set (r := ci_registry x). case_bool_decide as Hs.
  { intros [= <- <-]. split; [done |]. split; [| done]. intros [Hn _]. rewrite Hn in Hs. by destruct Hs. }
  apply eq_None_not_Some in Hs. destruct (is_void r wallet) eqn:Hv; [intros [= <- <-]; split; [done |]; by split; [intros (_ & ? & _) |] |].
  destruct (Z.leb_spec 8 (getActiveElderfierCount r)); [intros [= <- <-]; split; [done |]; split; [intros (_ & _ & ? & _); lia | done] |].
  pose proof (next_efid_range 255 (m_elderfier_ids r) 0) as Hr. change (Z.of_nat 255) with 255 in Hr.
  pose proof (next_efid_taken 255 (m_elderfier_ids r) 0 eq_refl) as Ht. revert Hr Ht.
  generalize (next_efid 255 (m_elderfier_ids r) 0). intros efid Hr Ht. case_bool_decide as Hin.
  - intros [= <- <-]. split; [done |]. split; [| done]. intros (_ & _ & _ & j & Hj & Hnj). apply Hnj. by apply Ht.
  - intros [= <- <-]. split; [done |]. split; [split_and!; try done; exists efid; split; [lia | done] |].
    exists efid. split_and!; try done; lia.
Qed.

(** ** Every operation keeps the invariant *)

Lemma registered_ok r wallet pubkey alias efid :
  registry_ok r -> can_register r wallet -> 0 <= efid <= 255 -> efid ∉ m_elderfier_ids r -> registry_ok (registered r wallet pubkey alias efid).
Proof.
  intros [Hf Hi Hd Hc Hv] (Hn & Hnv & Hlt & _) He Hni. set (g := mkRegistration wallet alias efid pubkey ACTIVE 0 0).
  assert (Hp : registrations (registered r wallet pubkey alias efid) ≡ₚ g :: registrations r) by (by apply in_order_insert).
  split; cbn [registered m_elderfierRegistrations m_elderfier_ids m_elderfierAddresses m_voidRegistrations].
  - intros a h [[<- <-] | [Hne Hh]]%lookup_insert_Some; [cbn; split_and!; [done | done | lia | lia |] |].
    + rewrite lookup_insert_eq. by eexists.
    + destruct (Hf _ _ Hh) as (? & ? & ? & ?). split_and!; try done; [lia | lia |]. apply lookup_insert_is_Some'. by right.
  - rewrite Hp. cbn [map]. rewrite Hi. by rewrite <- Permutation_cons_append.
  - apply NoDup_app. split_and!; [done | | apply NoDup_singleton]. intros y Hy ->%list_elem_of_singleton. done.
  - unfold getActiveElderfierCount in *. rewrite (active_count_perm _ _ Hp). rewrite filter_cons, decide_True by done. cbn [length]. lia.
  - intros a i Hai. rewrite lookup_insert_None. split; [by apply (Hv a i) |]. intros <-. apply is_void_false with (i := i) in Hnv. done.
Qed.

Lemma with_pending_ok f x : registry_ok (ci_registry x) -> registry_ok (ci_registry (with_pending f x)).
Proof. intros [Hf Hi Hd Hc Hv]. by split. Qed.

Lemma address_ok x i a : registry_ok (ci_registry x) -> registry_ok (ci_registry (registerElderfierAddress x i a)).
Proof.
  intros [Hf Hi Hd Hc Hv]. split; try done. cbn. intros b g Hg. destruct (Hf _ _ Hg) as (? & ? & ? & ?).
  split_and!; try done; try lia. apply lookup_insert_is_Some'. by right.
Qed.

Lemma initiate_spec x a i b w ok x' :
  initiateElderfierUnstaking x a i b w = (ok, x') ->
  if ok then exists g, m_elderfierRegistrations (ci_registry x) !! a = Some g /\ reg_elderfier_id g = i /\ reg_status g = ACTIVE
    /\ x' = with_registrations (<[a := mkRegistration (reg_address g) (reg_ceremony_alias g) i (reg_signing_pubkey g) UNSTAKING b w]>) x
  else x' = x.
Proof.
  unfold initiateElderfierUnstaking. destruct (_ !! a) as [g |]; [| by intros [= <- <-]].
  destruct (Z.eqb_spec (reg_elderfier_id g) i) as [<- |]; cbn [negb]; [| by intros [= <- <-]].
  unfold is_active. case_bool_decide; cbn [negb]; intros [= <- <-]; [by exists g | done].
Qed.

Lemma initiate_ok x a i b w ok x' :
  initiateElderfierUnstaking x a i b w = (ok, x') -> registry_ok (ci_registry x) -> registry_ok (ci_registry x').
Proof.
  intros H%initiate_spec Hok. destruct ok; [| by subst]. destruct H as (g & Hg & <- & Hst & ->).
  destruct Hok as [Hf Hi Hd Hc Hv]. set (h := mkRegistration _ _ _ _ _ _ _). set (r := ci_registry x) in *.
  assert (Hp : (in_order (<[a := h]> (m_elderfierRegistrations r))).*2 ≡ₚ h :: (in_order (delete a (m_elderfierRegistrations r))).*2).
  { rewrite <- insert_delete_eq. apply in_order_insert, lookup_delete_eq. }
  assert (Hq : registrations r ≡ₚ g :: (in_order (delete a (m_elderfierRegistrations r))).*2) by (by apply in_order_delete).
  destruct (Hf _ _ Hg) as (H1 & H2 & H3 & H4).
  split; cbn [ci_registry with_registrations with_registry m_elderfierRegistrations m_elderfier_ids m_elderfierAddresses m_voidRegistrations]; fold r.
  - intros b' k [[<- <-] | [Hne Hk]]%lookup_insert_Some; [done | by apply Hf].
  - unfold registrations. cbn [m_elderfierRegistrations]. fold r. rewrite Hp. cbn [map]. rewrite Hi, Hq. done.
  - done.
  - unfold getActiveElderfierCount, registrations in *. cbn [m_elderfierRegistrations]. fold r. rewrite (active_count_perm _ _ Hp).
    rewrite (active_count_perm _ _ Hq) in Hc. rewrite filter_cons in Hc |- *. rewrite decide_False by done. case_decide; cbn [length] in Hc; lia.
  - intros b' j Hj. rewrite lookup_insert_None. split; [by apply (Hv b' j) |]. intros <-. pose proof (Hv a j Hj). congruence.
Qed.

Lemma erase_first_perm e l : e ∈ l -> l ≡ₚ e :: erase_first e l.
Proof.
  induction l as [| x l IH]; intros He; [by apply elem_of_nil in He |]. cbn [erase_first].
  destruct (Z.eqb_spec x e) as [-> | Hne]; [done |]. apply elem_of_cons in He as [-> | He]; [done |].
  rewrite Permutation_swap. constructor. by apply IH.
Qed.

Lemma complete_spec x a i b ok x' :
  completeElderfierUnstaking x a i b = (ok, x') ->
  if ok then exists g, m_elderfierRegistrations (ci_registry x) !! a = Some g /\ reg_elderfier_id g = i /\ reg_status g = UNSTAKING
    /\ u32 (reg_unstaking_start_block g + reg_unstaking_review_window g) <= b /\ ci_store x' = ci_store x
    /\ ci_registry x' = let r := ci_registry x in mkRegistry (m_pendingElderfierStakes r) (erase_first i (m_elderfier_ids r))
         (m_elderfierAddresses r) (delete a (m_elderfierRegistrations r)) (m_voidRegistrations r ∪ {[(a, i)]})
  else x' = x.
Proof.
  unfold completeElderfierUnstaking. destruct (_ !! a) as [g |]; [| by intros [= <- <-]].
  destruct (Z.eqb_spec (reg_elderfier_id g) i) as [<- |]; cbn [negb]; [| by intros [= <- <-]].
  unfold canCompleteUnstaking. case_bool_decide; cbn [negb]; [| by intros [= <- <-]].
  destruct (Z.leb_spec (u32 (reg_unstaking_start_block g + reg_unstaking_review_window g)) b); cbn [negb]; intros [= <- <-]; [by exists g | done].
Qed.

Lemma complete_ok x a i b ok x' :
  completeElderfierUnstaking x a i b = (ok, x') -> registry_ok (ci_registry x) -> registry_ok (ci_registry x').
Proof.
  intros H%complete_spec Hok. destruct ok; [| by subst]. destruct H as (g & Hg & <- & Hst & _ & _ & ->).
  destruct Hok as [Hf Hi Hd Hc Hv]. set (r := ci_registry x) in *.
  assert (Hq : registrations r ≡ₚ g :: (in_order (delete a (m_elderfierRegistrations r))).*2) by (by apply in_order_delete).
  assert (He : m_elderfier_ids r ≡ₚ reg_elderfier_id g :: erase_first (reg_elderfier_id g) (m_elderfier_ids r)).
  { apply erase_first_perm. rewrite Hi, Hq. by left. }
  split; cbn [m_elderfierRegistrations m_elderfier_ids m_elderfierAddresses m_voidRegistrations].
  - intros b' k [_ Hk]%lookup_delete_Some. by apply Hf.
  - unfold registrations. cbn [m_elderfierRegistrations]. apply (Permutation_cons_inv (a := reg_elderfier_id g)).
    rewrite <- He, Hi, Hq. done.
  - rewrite He in Hd. by apply NoDup_cons in Hd as [_ ?].
  - unfold getActiveElderfierCount, registrations in *. cbn [m_elderfierRegistrations]. fold r. rewrite (active_count_perm _ _ Hq) in Hc.
    rewrite filter_cons in Hc. case_decide; cbn [length] in Hc; lia.
  - intros b' j [Hj | [= -> ->]%elem_of_singleton]%elem_of_union; [| apply lookup_delete_eq].
    apply lookup_delete_None. right. by apply (Hv b' j).
Qed.

(** ** Runs of the index *)

Inductive IndexOp :=
| OpCommit (e : CommitmentEntry)
| OpRollback (h : Z)
| OpInitiate (address : bytes) (efid currentBlock reviewWindow : Z)
| OpComplete (address : bytes) (efid currentBlock : Z)
| OpAddress (efid : Z) (address : bytes)
| OpSignature (sig : CachedElderfierSignature)
| OpFlush
| OpRoot (root : Hash)
| OpSlashVote (deposit : Hash) (efid : Z) (reason : bytes) (height threshold : Z)
| OpSlash (deposit : Hash)
| OpExecuted (deposit : Hash)
| OpFee (height fee : Z)
| OpRate (epoch rate : Z)
| OpReport (report : EpochReport)
| OpNotice (notice : UnstakingNotice)
| OpReview (req : FullReviewRequest)
| OpClear
(** The node ends and starts again: a new index, with its alias index, reads what the old one wrote. *)
| OpRestart (aliases : option AliasIndex).

(** Operations of one process that does not rebuild its index. *)
Definition in_process (op : IndexOp) : bool := match op with OpClear | OpRestart _ => false | _ => true end.

Section Runs.
Context (c : Currency) (check_signature : Hash -> bytes -> bytes -> bool).

Definition index_step (x : CommitmentIndex) (op : IndexOp) : outcome CommitmentIndex :=
  match op with
  | OpCommit e => addCommitment c x e
  | OpRollback h => '(_, x) ← rollbackIndex x h; Ret x
  | OpInitiate a i b w => Ret (initiateElderfierUnstaking x a i b w).2
  | OpComplete a i b => Ret (completeElderfierUnstaking x a i b).2
  | OpAddress i a => Ret (registerElderfierAddress x i a)
  | OpSignature sig => Ret (addSignatureToCache check_signature x sig)
  | OpFlush => Ret (checkAndFlushThreshold x)
  | OpRoot root => Ret (updateCurrentMerkleRoot x root)
  | OpSlashVote d i reason h t => Ret (addSlashVote x d i reason h t).2
  | OpSlash d => Ret (markSlashed x d).2
  | OpExecuted d => Ret (markSlashProposalExecuted x d)
  | OpFee h f => Ret (addBlockBankingFee x h f)
  | OpRate n f => Ret (recordEpochFeeRate x n f)
  | OpReport report => Ret (storeEpochReport x report)
  | OpNotice n => Ret (addUnstakingNotice x n)
  | OpReview q => Ret (addFullReviewRequest x q)
  | OpClear => Ret (clear x)
  | OpRestart aliases => load (setAliasIndex aliases emptyIndex) (save x)
  end.

Fixpoint index_run (x : CommitmentIndex) (ops : list IndexOp) : outcome CommitmentIndex :=
  match ops with
  | [] => Ret x
  | op :: ops => x ← index_step x op; index_run x ops
  end.

(** What a step can do to the registration of an address. *)
Inductive lifecycle (op : IndexOp) (x x' : CommitmentIndex) (a : bytes) : Prop :=
| life_same :
    m_elderfierRegistrations (ci_registry x') !! a = m_elderfierRegistrations (ci_registry x) !! a ->
    (forall i, (a, i) ∈ m_voidRegistrations (ci_registry x') <-> (a, i) ∈ m_voidRegistrations (ci_registry x)) -> lifecycle op x x' a
| life_registered e efid pubkey alias :
    op = OpCommit e -> ce_type e = ELDERFIER_STAKING -> ce_senderAddress e = a ->
    (let p := add_stake (default (mkPendingStake 0 0 NULL_KEY []) (m_pendingElderfierStakes (ci_registry x) !! a)) e in
     REGISTRATION_COUNT c <= ps_deposit_count p /\ REGISTRATION_AMOUNT c <= ps_total_amount p) ->
    can_register (ci_registry x) a ->
    m_elderfierRegistrations (ci_registry x') !! a = Some (mkRegistration a alias efid pubkey ACTIVE 0 0) ->
    m_voidRegistrations (ci_registry x') = m_voidRegistrations (ci_registry x) -> lifecycle op x x' a
| life_unstaking g b w :
    op = OpInitiate a (reg_elderfier_id g) b w -> m_elderfierRegistrations (ci_registry x) !! a = Some g -> reg_status g = ACTIVE ->
    m_elderfierRegistrations (ci_registry x') !! a
      = Some (mkRegistration (reg_address g) (reg_ceremony_alias g) (reg_elderfier_id g) (reg_signing_pubkey g) UNSTAKING b w) ->
    m_voidRegistrations (ci_registry x') = m_voidRegistrations (ci_registry x) -> lifecycle op x x' a
| life_void g b :
    op = OpComplete a (reg_elderfier_id g) b -> m_elderfierRegistrations (ci_registry x) !! a = Some g -> reg_status g = UNSTAKING ->
    u32 (reg_unstaking_start_block g + reg_unstaking_review_window g) <= b ->
    m_elderfierRegistrations (ci_registry x') !! a = None ->
    m_voidRegistrations (ci_registry x') = m_voidRegistrations (ci_registry x) ∪ {[(a, reg_elderfier_id g)]} -> lifecycle op x x' a
| life_forgotten :
    in_process op = false ->
    m_elderfierRegistrations (ci_registry x') !! a
      = (match op with OpClear => None | _ => m_elderfierRegistrations (ci_registry x) !! a end) ->
    m_voidRegistrations (ci_registry x') = ∅ -> lifecycle op x x' a.

Lemma addToStore_total s e : exists b s', addToStore s e = Ret (b, s').
Proof.
  unfold addToStore. case_bool_decide; [by eexists _, _ |].
  destruct (merkle_root_total (m_merkle_leaves s ++ [ce_commitment e])) as [root ->]. by eexists _, _.
Qed.

Lemma rollbackToHeight_total s h : exists n s', rollbackToHeight s h = Ret (n, s').
Proof.
  unfold rollbackToHeight. destruct (remove_heights _ s 0) as [s1 n].
  destruct (merkle_root_total (rebuilt_leaves s1)) as [root ->]. by eexists _, _.
Qed.

Lemma life_registry op x x' a :
  m_elderfierRegistrations (ci_registry x') = m_elderfierRegistrations (ci_registry x) ->
  m_voidRegistrations (ci_registry x') = m_voidRegistrations (ci_registry x) -> lifecycle op x x' a.
Proof. intros H1 H2. apply life_same; [by rewrite H1 | by rewrite H2]. Qed.

Lemma track_stake_spec x e x0 :
  ci_registry x0 = ci_registry x ->
  let x' := track_stake c x0 e in
  (registry_ok (ci_registry x) -> registry_ok (ci_registry x')) /\ forall a, lifecycle (OpCommit e) x x' a.
Proof.
  intros Hx. unfold track_stake, isElderfierRegistrationDeposit. set (wallet := ce_senderAddress e).
  case_bool_decide as Ht; cbn [negb orb]; [| by split; [rewrite Hx | intros a; apply life_registry; rewrite Hx]].
  case_bool_decide as Hw; [by split; [rewrite Hx | intros a; apply life_registry; rewrite Hx] |].
  rewrite Hx. set (p := add_stake _ e). set (x1 := with_pending (<[wallet := p]>) x0).
  assert (H1 : m_elderfierRegistrations (ci_registry x1) = m_elderfierRegistrations (ci_registry x)
    /\ m_voidRegistrations (ci_registry x1) = m_voidRegistrations (ci_registry x)) by (unfold x1; cbn; by rewrite Hx).
  assert (H2 : registry_ok (ci_registry x) -> registry_ok (ci_registry x1)) by (intros; apply with_pending_ok; by rewrite Hx).
  destruct (_ && _) eqn:Hc; [| split; [done | intros a; apply life_registry; apply H1]].
  apply andb_true_iff in Hc as [Hn%Z.leb_le Ha%Z.leb_le].
  destruct (tryRegisterElderfier x1 wallet (ps_signing_pubkey p) (ps_alias p)) as [ok x2] eqn:Er. cbn [snd].
  apply tryRegister_spec in Er as [_ Er]. destruct ok.
  - destruct Er as (Hcan & efid & Hr & Hni & Hreg). split.
    + intros Hok. apply with_pending_ok. rewrite Hreg. by apply registered_ok; [apply H2 | | |].
    + intros a. destruct (decide (a = wallet)) as [-> | Hne].
      * eapply (life_registered _ _ _ _ e); [done | done | done | done | | |].
        { unfold can_register, x1 in Hcan |- *. cbn in Hcan. by rewrite Hx in Hcan. }
        { cbn. rewrite Hreg. apply lookup_insert_eq. }
        { cbn. rewrite Hreg. apply H1. }
      * apply life_same; cbn; rewrite Hreg; cbn; [rewrite lookup_insert_ne by done; by rewrite Hx | by rewrite Hx].
  - destruct Er as [_ ->]. split; [intros Hok; by apply with_pending_ok, H2 |]. intros a. apply life_registry; apply H1.
Qed.

Lemma addCommitment_spec x e :
  exists x', addCommitment c x e = Ret x' /\ (registry_ok (ci_registry x) -> registry_ok (ci_registry x')) /\ forall a, lifecycle (OpCommit e) x x' a.
Proof.
  unfold addCommitment. destruct (addToStore_total (ci_store x) e) as (b & s & ->). eexists. split; [reflexivity |].
  destruct b; [exact (track_stake_spec x e (with_store s x) eq_refl) | split; [done | intros a; by apply life_registry]].
Qed.

Lemma initiate_life x a i b w x' ok :
  initiateElderfierUnstaking x a i b w = (ok, x') -> forall a', lifecycle (OpInitiate a i b w) x x' a'.
Proof.
  intros H%initiate_spec a'. destruct ok; [| subst; by apply life_registry]. destruct H as (g & Hg & <- & Hs & ->).
  destruct (decide (a' = a)) as [-> | Hne].
  - eapply life_unstaking; [done | done | done | cbn; apply lookup_insert_eq | done].
  - apply life_same; [cbn; by rewrite lookup_insert_ne | done].
Qed.

Lemma complete_life x a i b x' ok :
  completeElderfierUnstaking x a i b = (ok, x') -> forall a', lifecycle (OpComplete a i b) x x' a'.
Proof.
  intros H%complete_spec a'. destruct ok; [| subst; by apply life_registry]. destruct H as (g & Hg & <- & Hs & Hb & _ & Hr).
  destruct (decide (a' = a)) as [-> | Hne].
  - eapply life_void; [done | done | done | done | rewrite Hr; cbn; apply lookup_delete_eq | by rewrite Hr].
  - apply life_same; rewrite Hr; cbn; [by rewrite lookup_delete_ne |]. intros j.
    rewrite elem_of_union, elem_of_singleton. split; [intros [? | [= <- _]]; done | by left].
Qed.

(** A step that leaves the registry alone. *)
Ltac registry_unchanged := split; [done | intros; by apply life_registry].

Lemma clear_ok x : registry_ok (ci_registry (clear x)).
Proof. split; cbn; [by intros ? ? ?%lookup_empty_Some | done | constructor | by vm_compute | by intros ? ? ?%not_elem_of_empty]. Qed.

(** What is read has the registrations, the numbers and the payout addresses, but no stakes and no bans. *)
Definition loaded (r : ElderfierRegistry) : ElderfierRegistry :=
  mkRegistry ∅ (map reg_elderfier_id (registrations r)) (m_elderfierAddresses r) (m_elderfierRegistrations r) ∅.

Lemma load_ok aliases x : exists x', load (setAliasIndex aliases emptyIndex) (save x) = Ret x' /\ ci_registry x' = loaded (ci_registry x).
Proof.
  unfold load, save. cbn [sv_commitments]. unfold loadStore. destruct (merkle_root_total (m_merkle_leaves (foldl load_entry
    (with_commitments (fun _ => m_commitments (ci_store x)) emptyStore) (in_order (m_commitments (ci_store x)))))) as [root ->].
  rewrite !outcome_bind_ret. eexists. split; reflexivity.
Qed.

Lemma loaded_ok r : registry_ok r -> registry_ok (loaded r).
Proof. intros [H1 H2 H3 H4 _]. split; cbn; try done. by rewrite H2 in H3. Qed.

(** Every step returns, keeps the invariant and moves each address along its lifecycle. *)
Lemma index_step_spec x op :
  exists x', index_step x op = Ret x' /\ (registry_ok (ci_registry x) -> registry_ok (ci_registry x')) /\ forall a, lifecycle op x x' a.
Proof.
  destruct op as [e | h | a i b w | a i b | i a | sig | | root | d i reason h t | d | d | h f | n f | report | n | q | | aliases]; cbn [index_step].
  - apply addCommitment_spec.
  - unfold rollbackIndex. destruct (rollbackToHeight_total (ci_store x) h) as (n & s & ->). eexists. split; [reflexivity |].
    registry_unchanged.
  - destruct (initiateElderfierUnstaking x a i b w) as [ok x'] eqn:E. eexists. split; [reflexivity |].
    split; [by eapply initiate_ok | by eapply initiate_life].
  - destruct (completeElderfierUnstaking x a i b) as [ok x'] eqn:E. eexists. split; [reflexivity |].
    split; [by eapply complete_ok | by eapply complete_life].
  - eexists. split; [reflexivity |]. split; [apply address_ok | intros a'; by apply life_registry].
  - eexists. split; [reflexivity |]. registry_unchanged.
  - eexists. split; [reflexivity |]. unfold checkAndFlushThreshold.
    case_bool_decide; [registry_unchanged |]. destruct (_ <=? _); registry_unchanged.
  - eexists. split; [reflexivity |]. registry_unchanged.
  - eexists. split; [reflexivity |]. unfold addSlashVote. destruct (match _ with Some _ => _ | None => _ end); [registry_unchanged |].
    destruct (votes_on_own _ _ _); [registry_unchanged |]. destruct (_ =? 0); registry_unchanged.
  - eexists. split; [reflexivity |]. unfold markSlashed. destruct (markCommitmentSlashed _ d). registry_unchanged.
  - eexists. split; [reflexivity |]. unfold markSlashProposalExecuted. destruct (_ !! _); registry_unchanged.
  - eexists. split; [reflexivity |]. registry_unchanged.
  - eexists. split; [reflexivity |]. registry_unchanged.
  - eexists. split; [reflexivity |]. registry_unchanged.
  - eexists. split; [reflexivity |]. registry_unchanged.
  - eexists. split; [reflexivity |]. unfold addFullReviewRequest.
    destruct (negb _); [registry_unchanged |]. case_bool_decide; [registry_unchanged |].
    destruct (_ =? _); registry_unchanged.
  - eexists. split; [reflexivity |]. split; [intros _; apply clear_ok | intros b; by apply life_forgotten].
  - destruct (load_ok aliases x) as (x' & E & Hr). exists x'. split; [exact E |]. rewrite Hr. split; [apply loaded_ok |].
    intros b. apply life_forgotten; [done | by rewrite Hr | by rewrite Hr].
Qed.

Lemma index_run_spec ops x :
  exists x', index_run x ops = Ret x' /\ (registry_ok (ci_registry x) -> registry_ok (ci_registry x'))
    /\ (forallb in_process ops = true -> m_voidRegistrations (ci_registry x) ⊆ m_voidRegistrations (ci_registry x')).
Proof.
  revert x. induction ops as [| op ops IH]; intros x; cbn [index_run]; [by exists x |].
  destruct (index_step_spec x op) as (x1 & -> & Hok & Hl). rewrite outcome_bind_ret.
  destruct (IH x1) as (x' & -> & Hok' & Hv). exists x'. split_and!; [done | by auto |]. cbn [forallb]. intros [Hop Hops]%andb_true_iff.
  transitivity (m_voidRegistrations (ci_registry x1)); [| by apply Hv]. intros [a i] Hai.
  destruct (Hl a) as [_ Hs | ? ? ? ? _ _ _ _ _ _ -> | ? ? ? _ _ _ _ -> | ? ? _ _ _ _ _ -> | Hf];
    [by apply Hs | done | done | by apply elem_of_union_l | congruence].
Qed.

Lemma emptyIndex_ok a : registry_ok (ci_registry (setAliasIndex a emptyIndex)).
Proof.
  split; cbn; [by intros ? ? ?%lookup_empty_Some | done | constructor | by vm_compute | by intros ? ? ?%not_elem_of_empty].
Qed.

(** C37: the registry of Elderfiers in every reachable state of the index, whatever deposits, rollbacks,
    unstakings, signatures, votes and reports it processed, over restarts and rebuildings.  At most eight Elderfiers are active; every
    registered address has one number between 0 and 255 that no other address has, the list of
    numbers is exactly theirs, and each has a payout entry.  An address whose unstaking is completed is banned with its number and no longer
    registered, and as long as the process does not restart or rebuild the index it stays so. *)
Theorem elderfier_registry_invariant a ops :
  exists x, index_run (setAliasIndex a emptyIndex) ops = Ret x
  /\ (let r := ci_registry x in
      getActiveElderfierCount r <= 8
      /\ (forall b g, m_elderfierRegistrations r !! b = Some g ->
            reg_address g = b /\ (reg_status g = ACTIVE \/ reg_status g = UNSTAKING) /\ 0 <= reg_elderfier_id g <= 255
            /\ is_Some (m_elderfierAddresses r !! reg_elderfier_id g)
            /\ forall b' g', m_elderfierRegistrations r !! b' = Some g' -> reg_elderfier_id g' = reg_elderfier_id g -> b' = b)
      /\ (forall i, i ∈ m_elderfier_ids r <-> exists b g, m_elderfierRegistrations r !! b = Some g /\ reg_elderfier_id g = i)
      /\ NoDup (m_elderfier_ids r))
  /\ forall later b i, forallb in_process later = true ->
        (b, i) ∈ m_voidRegistrations (ci_registry x) \/ (exists height, (completeElderfierUnstaking x b i height).1 = true /\ head later = Some (OpComplete b i height)) ->
        exists x', index_run x later = Ret x' /\ isAddressBlacklisted (ci_registry x') b i = true
          /\ m_elderfierRegistrations (ci_registry x') !! b = None.
Proof.
  destruct (index_run_spec ops (setAliasIndex a emptyIndex)) as (x & Hx & Hok & _). exists x.
  specialize (Hok (emptyIndex_ok a)). split; [done |]. split.
  - destruct Hok as [Hf Hi Hd Hc Hv]. cbn zeta. split_and!; [done | | | done].
    + intros b g Hg. destruct (Hf _ _ Hg) as (H1 & H2 & H3 & H4). split_and!; try done; try lia; [destruct (reg_status g); tauto |].
      intros b' g' Hg' Heq. destruct (decide (b' = b)) as [| Hne]; [done |]. exfalso.
      rewrite Hi in Hd. unfold registrations in Hd. rewrite (in_order_delete _ b g Hg) in Hd. cbn [map] in Hd. apply NoDup_cons in Hd as [Hni _].
      apply Hni. rewrite <- Heq. apply list_elem_of_fmap. exists g'. split; [done |]. apply in_order_elem. exists b'. by rewrite lookup_delete_ne.
    + intros i. rewrite Hi. change (map reg_elderfier_id (registrations (ci_registry x))) with (reg_elderfier_id <$> registrations (ci_registry x)).
      rewrite list_elem_of_fmap. split.
      * intros (g & -> & [b Hb]%in_order_elem). by exists b, g.
      * intros (b & g & Hg & <-). exists g. split; [done |]. apply in_order_elem. by exists b.
  - intros later b i Hin Hb. assert (Hend : exists x', index_run x later = Ret x' /\ registry_ok (ci_registry x') /\ (b, i) ∈ m_voidRegistrations (ci_registry x')).
    { destruct Hb as [Hb | (h & Hc & Hh)].
      - destruct (index_run_spec later x) as (x' & Hx' & Hok' & Hsub). exists x'. split; [done |]. split; [by apply Hok' |]. by apply Hsub.
      - destruct later as [| op later]; [done |]. injection Hh as ->. cbn [index_run index_step]. rewrite outcome_bind_ret.
        destruct (completeElderfierUnstaking x b i h) as [ok x1] eqn:E. cbn [fst snd] in *. subst ok.
        destruct (index_run_spec later x1) as (x' & Hx' & Hok' & Hsub). exists x'. split; [done |]. split; [by apply Hok'; eapply complete_ok |].
        apply Hsub; [done |]. apply complete_spec in E as (g & _ & <- & _ & _ & _ & ->). by apply elem_of_union_r, elem_of_singleton. }
    destruct Hend as (x' & Hx' & Hok' & Hv). exists x'. split_and!; [done | by apply bool_decide_eq_true | by apply (reg_void _ Hok' b i)].
Qed.

(** The lifecycle of an Elderfier.  In every reachable state, one more operation either leaves the
    registration of an address and its ban alone; or registers it as active, and then the operation
    added a staking deposit of this address that completes the required number and
    amount, the address was neither registered nor banned and fewer than eight were active; or turns an
    active registration into an unstaking one; or removes an unstaking registration after the end
    of its review window and bans the address; a rebuilding forgets all registrations and bans, a restart the bans.
    Rollbacks never register or remove anyone. *)
Theorem elderfier_lifecycle a ops op address :
  exists x x', index_run (setAliasIndex a emptyIndex) ops = Ret x /\ index_step x op = Ret x' /\ lifecycle op x x' address.
Proof.
  destruct (index_run_spec ops (setAliasIndex a emptyIndex)) as (x & Hx & _ & _).
  destruct (index_step_spec x op) as (x' & Hs & _ & Hl). by exists x, x'.
Qed.

End Runs.

(** * Slashing needs a quorum *)

(** A vote of [i] against the deposit [k] is among the operations; every recorded vote is. *)
Definition cast (ops : list IndexOp) (k : bytes) (i : Z) : Prop :=
  exists d reason h t, OpSlashVote d i reason h t ∈ ops /\ toHex d = k.

Definition votes_cast (ops : list IndexOp) (x : CommitmentIndex) : Prop :=
  forall k p i, m_slashProposals (ci_reviews x) !! k = Some p -> i ∈ sp_votingEfids p -> cast ops k i.

Lemma cast_app ops ops' k i : cast ops k i -> cast (ops ++ ops') k i.
Proof. intros (d & r & h & t & Hin & Hd). exists d, r, h, t. split; [by apply elem_of_app; left | done]. Qed.

Lemma addSlashVote_spec x d i reason h t ok x' :
  addSlashVote x d i reason h t = (ok, x') ->
  let k := toHex d in
  (x' = x /\ ok = false)
  \/ votes_on_own x d i = false /\ (forall p, m_slashProposals (ci_reviews x) !! k = Some p -> sp_executed p = false)
     /\ exists p, let old := default (mkSlashProposal ∅ [] 0 false) (m_slashProposals (ci_reviews x) !! k) in
          sp_votingEfids p = sp_votingEfids old ∪ {[i]} /\ x' = with_proposals (<[k := p]>) x
          /\ (ok = true -> 0 < getActiveElderfierCount (ci_registry x)
               /\ t * getActiveElderfierCount (ci_registry x) <= 100 * Z.of_nat (size (sp_votingEfids p))).
Proof.
  intros H k. unfold addSlashVote in H. fold k in H.
  destruct (match m_slashProposals (ci_reviews x) !! k with Some p => sp_executed p | None => false end) eqn:Ex;
    [injection H as <- <-; by left |].
  destruct (votes_on_own x d i) eqn:Ev; [injection H as <- <-; by left |]. right. split; [done |].
  split; [intros p Hp; by rewrite Hp in Ex |]. set (p := mkSlashProposal _ _ _ _) in H.
  cbn [with_proposals with_reviews ci_registry] in H. set (n := getActiveElderfierCount (ci_registry x)) in *.
  exists p. assert (0 <= n) by apply Nat2Z.is_nonneg.
  destruct (Z.eqb_spec n 0); injection H as <- <-; split_and!; try done. intros Ht%Z.leb_le. split; [lia |].
  set (v := Z.of_nat (size (sp_votingEfids p))) in *. assert (Hv : 0 <= v) by apply Nat2Z.is_nonneg.
  change (t <= u64 (v * 100) / n) in Ht.
  assert (u64 (v * 100) <= v * 100) by (apply Z.mod_le; [nia | lia]). pose proof (u64_range (v * 100)).
  pose proof (Z.mul_div_le (u64 (v * 100)) n ltac:(lia)) as Hq.
  pose proof (Z.mul_le_mono_nonneg_r _ _ n ltac:(lia) Ht) as Hm. rewrite (Z.mul_comm n) in Hq.
  lia.
Qed.

Lemma with_proposals_lookup f x : m_slashProposals (ci_reviews (with_proposals f x)) = f (m_slashProposals (ci_reviews x)).
Proof. done. Qed.

Section Slash.
Context (c : Currency) (check_signature : Hash -> bytes -> bytes -> bool).

Lemma tryRegister_reviews x w k al : ci_reviews (tryRegisterElderfier x w k al).2 = ci_reviews x.
Proof.
  unfold tryRegisterElderfier. case_bool_decide; [done |]. destruct (is_void _ _); [done |]. destruct (_ <=? _); [done |].
  generalize (next_efid 255 (m_elderfier_ids (ci_registry x)) 0). intros efid. by case_bool_decide.
Qed.

Lemma track_stake_reviews x e : ci_reviews (track_stake c x e) = ci_reviews x.
Proof.
  unfold track_stake. destruct (negb _ || _); [done |]. destruct (_ && _); [| done].
  exact (tryRegister_reviews (with_pending _ x) _ _ _).
Qed.

(** Only the operations of slashing touch the proposals. *)
Lemma step_proposals x op x' :
  index_step c check_signature x op = Ret x' ->
  match op with
  | OpSlashVote _ _ _ _ _ | OpExecuted _ => True
  | OpRestart _ => m_slashProposals (ci_reviews x') = ∅
  | _ => m_slashProposals (ci_reviews x') = m_slashProposals (ci_reviews x)
  end.
Proof.
  destruct op; cbn [index_step]; try (intros [= <-]; done); try (intros [= <-]).
  - unfold addCommitment. destruct (addToStore_total (ci_store x) e) as (b & s & ->). rewrite outcome_bind_ret.
    intros [= <-]. destruct b; [by rewrite track_stake_reviews | done].
  - unfold rollbackIndex. destruct (rollbackToHeight_total (ci_store x) h) as (n & s & ->). by intros [= <-].
  - destruct (initiateElderfierUnstaking x address efid currentBlock reviewWindow) as [ok y] eqn:E. apply initiate_spec in E.
    destruct ok; [by destruct E as (g & _ & _ & _ & ->) | by subst].
  - unfold completeElderfierUnstaking. destruct (_ !! _); [| done]. destruct (negb _); [done |]. by destruct (negb _).
  - unfold checkAndFlushThreshold. case_bool_decide; [done |]. by destruct (_ <=? _).
  - unfold markSlashed. by destruct (markCommitmentSlashed _ _).
  - unfold addFullReviewRequest. destruct (negb _); [done |]. case_bool_decide; [done |]. by destruct (_ =? _).
  - unfold load. by intros (st & _ & [= <-])%outcome_bind_inv.
Qed.

Lemma step_votes ops x op x' :
  votes_cast ops x -> index_step c check_signature x op = Ret x' -> votes_cast (ops ++ [op]) x'.
Proof.
  intros Hv Hs. pose proof (step_proposals x op x' Hs) as Hp.
  assert (Hkeep : m_slashProposals (ci_reviews x') = m_slashProposals (ci_reviews x) -> votes_cast (ops ++ [op]) x').
  { intros Heq k p i Hk Hi. rewrite Heq in Hk. by eapply cast_app, Hv. }
  destruct op as [| | | | | | | | d i reason h t | | d | | | | | | | aliases]; try (apply Hkeep; exact Hp); cbn [index_step] in Hs;
    [injection Hs as Hs | injection Hs as Hs | intros k p i Hk; rewrite Hp in Hk; by apply lookup_empty_Some in Hk].
  - destruct (addSlashVote x d i reason h t) as [ok y] eqn:E. cbn [snd] in Hs. subst y.
    apply addSlashVote_spec in E as [[-> _] | (_ & _ & p & Hpv & -> & _)]; [by apply Hkeep |].
    intros k q j. rewrite with_proposals_lookup. intros [[<- <-] | [Hne Hq]]%lookup_insert_Some Hj; [| by eapply cast_app, Hv].
    rewrite Hpv in Hj. apply elem_of_union in Hj as [Hj | ->%elem_of_singleton].
    + destruct (m_slashProposals (ci_reviews x) !! toHex d) as [old |] eqn:Eo; [by eapply cast_app, Hv | by apply not_elem_of_empty in Hj].
    + exists d, reason, h, t. split; [apply elem_of_app; right; by left | done].
  - unfold markSlashProposalExecuted in Hs. destruct (m_slashProposals (ci_reviews x) !! toHex d) as [old |] eqn:Eo; subst x'; [| by apply Hkeep].
    intros k q j. rewrite with_proposals_lookup. intros [[<- <-] | [Hne Hq]]%lookup_insert_Some Hj; by eapply cast_app, Hv.
Qed.

Lemma run_votes ops done x x' :
  votes_cast done x -> index_run c check_signature x ops = Ret x' -> votes_cast (done ++ ops) x'.
Proof.
  revert done x. induction ops as [| op ops IH]; intros done x Hv Hr; cbn [index_run] in Hr.
  - injection Hr as <-. by rewrite app_nil_r.
  - apply outcome_bind_inv in Hr as (x1 & Hs & Hr). change (done ++ op :: ops) with (done ++ [op] ++ ops). rewrite app_assoc.
    apply (IH _ x1); [by eapply step_votes | done].
Qed.

(** No deposit is slashed without a quorum.  If, after any history of the index, a vote reports that
    the threshold is reached, then the voter is not the owner of the deposit, the proposal
    was not executed before, there are active Elderfiers, and the distinct Elderfiers that
    have cast a vote against this deposit are at least the required percentage of them. *)
Theorem slash_needs_quorum a ops x d i reason h t x' :
  index_run c check_signature (setAliasIndex a emptyIndex) ops = Ret x -> addSlashVote x d i reason h t = (true, x') ->
  votes_on_own x d i = false /\ 0 < getActiveElderfierCount (ci_registry x)
  /\ (forall p, m_slashProposals (ci_reviews x) !! toHex d = Some p -> sp_executed p = false)
  /\ exists voters : gset Z,
       t * getActiveElderfierCount (ci_registry x) <= 100 * Z.of_nat (size voters) /\ getSlashVoteCount x' d = Z.of_nat (size voters)
       /\ forall j, j ∈ voters -> j = i \/ cast ops (toHex d) j.
Proof.
  intros Hr Hv. assert (Hc : votes_cast ops x) by (apply (run_votes ops [] (setAliasIndex a emptyIndex) x); [intros k p j Hk; cbn in Hk; by apply lookup_empty_Some in Hk | done]).
  apply addSlashVote_spec in Hv as [[_ [=]] | (Ho & He & p & Hp & -> & Hok)]. destruct (Hok eq_refl) as [Hpos Ht].
  split_and!; [done | done | done |]. exists (sp_votingEfids p). split_and!; [done | |].
  - unfold getSlashVoteCount. rewrite with_proposals_lookup, lookup_insert_eq. done.
  - intros j Hj. rewrite Hp in Hj. apply elem_of_union in Hj as [Hj | ->%elem_of_singleton]; [| by left]. right.
    destruct (m_slashProposals (ci_reviews x) !! toHex d) as [old |] eqn:Eo; [| by apply not_elem_of_empty in Hj].
    exact (Hc _ _ _ Eo Hj).
Qed.
End Slash.

(** * Epoch reports *)

Lemma sorted_ids_spec s : sorted_ids s ≡ₚ elements s /\ NoDup (sorted_ids s) /\ StronglySorted Z.le (sorted_ids s).
Proof.
  unfold sorted_ids. assert (Hp : merge_sort Z.le (elements s) ≡ₚ elements s) by apply merge_sort_Permutation.
  split_and!; [done | rewrite Hp; apply NoDup_elements | apply StronglySorted_merge_sort; typeclasses eauto].
Qed.

Lemma activity_ids x b e ids : map ea_elderfier_id (map (activity_of x b e) ids) = ids.
Proof. induction ids as [| i ids IH]; [done |]. cbn [map]. by rewrite IH. Qed.

(** The signers of the report among all activities. *)
Lemma activity_split x b e ids (v : bool) :
  map ea_elderfier_id (filter (fun a => ea_signedThisEpoch a = v) (map (activity_of x b e) ids))
  = filter (fun i => bool_decide (i ∈ signers_of_epoch x b e) = v) ids.
Proof.
  induction ids as [| i ids IH]; [done |]. cbn [map]. rewrite !filter_cons. cbn [activity_of ea_signedThisEpoch].
  case_decide; cbn [map]; by rewrite IH.
Qed.

Lemma fees_bound x b e ids per :
  0 <= per -> (forall i, ea_feesEarned (activity_of x b e i) <= per) ->
  sumZ (map ea_feesEarned (map (activity_of x b e) ids)) <= Z.of_nat (length ids) * per.
Proof. intros Hp Hb. induction ids as [| i ids IH]; cbn [map length sumZ foldr]; [lia |]. specialize (Hb i). unfold sumZ in *. lia. Qed.

Lemma foldl_u64_nonneg (l : list (Z * Z)) z : 0 <= z -> 0 <= foldl (fun acc p => u64 (acc + p.2)) z l.
Proof.
  revert z. induction l as [| p l IH]; intros z Hz; cbn [foldl]; [done |]. apply IH. pose proof (u64_range (z + p.2)). lia.
Qed.

Lemma epoch_fee_total_range x b e : 0 <= epoch_fee_total x b e.
Proof. by apply foldl_u64_nonneg. Qed.

(** The streak of missed epochs of an Elderfier after a report. *)
Lemma streak_missing (l : list Z) (m : gmap Z Z) i :
  NoDup l -> foldl (fun m efid => <[efid := u32 (default 0 (m !! efid) + 1)]> m) m l !! i
    = if decide (i ∈ l) then Some (u32 (default 0 (m !! i) + 1)) else m !! i.
Proof.
  revert m. induction l as [| j l IH]; intros m Hn; cbn [foldl]; [by rewrite decide_False by (by intros ?%elem_of_nil) |].
  apply NoDup_cons in Hn as [Hj Hn]. rewrite (IH _ Hn). destruct (decide (i = j)) as [-> | Hne].
  - rewrite (decide_False (P := j ∈ l)), lookup_insert_eq, decide_True by (done || by left). done.
  - rewrite lookup_insert_ne by done. destruct (decide (i ∈ l)); [rewrite decide_True by (by right) | rewrite decide_False by (rewrite elem_of_cons; tauto)]; done.
Qed.

Lemma streak_signing (l : list Z) (m : gmap Z Z) i :
  foldl (fun m efid => <[efid := 0]> m) m l !! i = if decide (i ∈ l) then Some 0 else m !! i.
Proof.
  revert m. induction l as [| j l IH]; intros m; cbn [foldl]; [by rewrite decide_False by (by intros ?%elem_of_nil) |].
  rewrite IH. destruct (decide (i ∈ l)); [by rewrite decide_True by (by right) |]. destruct (decide (i = j)) as [-> | Hne].
  - rewrite lookup_insert_eq, decide_True by (by left). done.
  - rewrite lookup_insert_ne, decide_False by (done || (rewrite elem_of_cons; tauto)). done.
Qed.

(** The report of an epoch accounts for every Elderfier.  It lists the numbers of the active and
    unstaking Elderfiers once each in increasing order, and splits them into those with a valid
    signature for the epoch and the others; only signers earn, and what they earn together is at most
    the fees of the epoch's blocks.  Storing the report resets the streak of the signers, adds
    one to that of the others, touches no other streak and keeps the report as the latest of at most ten. *)
Theorem epoch_report_accounts x n b e g :
  (length (m_epochReports (ci_epochs x)) <= 10)%nat ->
  let report := generateEpochReport x n b e g in
  let ids := map ea_elderfier_id (er_efierActivity report) in
  let x' := storeEpochReport x report in
  (forall i, i ∈ ids <-> i ∈ active_efids x) /\ StronglySorted Z.lt ids
  /\ er_signingEfierIds report = filter (fun i => i ∈ signers_of_epoch x b e) ids
  /\ er_missingEfierIds report = filter (fun i => i ∉ signers_of_epoch x b e) ids
  /\ Forall (fun a => ea_signedThisEpoch a = false -> ea_feesEarned a = 0) (er_efierActivity report)
  /\ sumZ (map ea_feesEarned (er_efierActivity report)) <= er_totalFeesDistributed report
  /\ (forall i, m_consecutiveMissedEpochs (ci_epochs x') !! i
        = if decide (i ∈ er_signingEfierIds report) then Some 0
          else if decide (i ∈ er_missingEfierIds report) then Some (u32 (default 0 (m_consecutiveMissedEpochs (ci_epochs x) !! i) + 1))
          else m_consecutiveMissedEpochs (ci_epochs x) !! i)
  /\ getLatestEpochReport x' = Some report /\ (length (m_epochReports (ci_epochs x')) <= 10)%nat.
Proof.
  intros Hlen report ids x'. destruct (sorted_ids_spec (active_efids x)) as (Hp & Hnd & Hs).
  assert (Hids : ids = sorted_ids (active_efids x)) by apply activity_ids.
  assert (Hsign : er_signingEfierIds report = filter (fun i => i ∈ signers_of_epoch x b e) ids).
  { rewrite Hids. unfold report. cbn [generateEpochReport er_signingEfierIds]. rewrite activity_split.
    apply filter_ext_in. intros i _. by rewrite bool_decide_eq_true. }
  assert (Hmiss : er_missingEfierIds report = filter (fun i => i ∉ signers_of_epoch x b e) ids).
  { rewrite Hids. unfold report. cbn [generateEpochReport er_missingEfierIds]. rewrite activity_split.
    apply filter_ext_in. intros i _. by rewrite bool_decide_eq_false. }
  rewrite <- Hids in Hp, Hnd, Hs. pose proof (epoch_fee_total_range x b e) as Hf.
  split_and!; [| | done | done | | | | |].
  - intros i. by rewrite Hp, elem_of_elements.
  - clear -Hs Hnd. induction Hs as [| i l Hs IH Hle]; [constructor |]. apply NoDup_cons in Hnd as [Hi Hnd].
    constructor; [by apply IH |]. rewrite Forall_forall in *. intros j Hj. specialize (Hle j Hj). destruct (decide (i = j)); [by subst | lia].
  - apply Forall_forall. intros a Ha. unfold report in Ha. cbn [generateEpochReport er_efierActivity] in Ha.
    apply list_elem_of_fmap in Ha as (i & -> & _). cbn [activity_of ea_signedThisEpoch ea_feesEarned]. by intros ->.
  - unfold report. cbn [generateEpochReport er_efierActivity er_totalFeesDistributed]. rewrite <- Hids.
    case_bool_decide as He; [by rewrite He |]. set (k := Z.of_nat (size (active_efids x))).
    assert (Hk : Z.of_nat (length ids) = k) by (unfold k; by rewrite Hp).
    assert (0 < k) by (rewrite <- Hk; destruct ids; [done | cbn; lia]).
    etransitivity; [apply (fees_bound x b e ids (epoch_fee_total x b e / k)) |].
    + by apply Z.div_pos.
    + intros i. cbn [activity_of ea_feesEarned]. fold k. case_bool_decide; [done | by apply Z.div_pos].
    + rewrite Hk. apply Z.mul_div_le. lia.
  - intros i. unfold x', storeEpochReport. cbn [ci_epochs with_epochs m_consecutiveMissedEpochs]. rewrite streak_signing.
    rewrite streak_missing; [done |]. rewrite Hmiss. by apply NoDup_filter.
  - unfold getLatestEpochReport, x', storeEpochReport. cbn [ci_epochs with_epochs m_epochReports]. rewrite length_app. cbn [length].
    destruct (Nat.ltb_spec 10 (length (m_epochReports (ci_epochs x)) + 1)); [| apply last_snoc].
    destruct (m_epochReports (ci_epochs x)) as [| r0 l]; [cbn in *; lia |]. cbn [app drop]. apply last_snoc.
  - unfold x', storeEpochReport. cbn [ci_epochs with_epochs m_epochReports]. rewrite length_app. cbn [length].
    destruct (Nat.ltb_spec 10 (length (m_epochReports (ci_epochs x)) + 1)); [rewrite length_drop |]; rewrite length_app; cbn [length]; lia.
Qed.

(** * Where the index departs from what it means to do *)

(** The signatures of an Elderfier that left still count, while it no longer counts itself. *)
Theorem departed_signatures_count x a i b x' :
  registry_ok (ci_registry x) -> completeElderfierUnstaking x a i b = (true, x') ->
  let n := Z.of_nat (length (current_signatures x)) in
  let k := Z.of_nat (length (m_elderfier_ids (ci_registry x))) in
  current_signatures x' = current_signatures x
  /\ (1 < k -> getConsensusPercentageForCurrentRoot x' = u64 (n * 100) / (k - 1)).
Proof.
  intros Hok H n k. assert (Hcache : ci_cache x' = ci_cache x).
  { revert H. unfold completeElderfierUnstaking. destruct (_ !! _); [| done]. destruct (negb _); [done |].
    destruct (negb _); [done |]. by intros [= <-]. }
  apply complete_spec in H as (g & Hg & <- & Hst & _ & Hstore & Hr).
  assert (Hsig : current_signatures x' = current_signatures x) by (unfold current_signatures; by rewrite Hcache, Hstore).
  split; [done |]. intros Hk.
  assert (Hl : S (length (m_elderfier_ids (ci_registry x'))) = length (m_elderfier_ids (ci_registry x))).
  { rewrite Hr. cbn [m_elderfier_ids]. rewrite (erase_first_perm (reg_elderfier_id g) (m_elderfier_ids (ci_registry x))) at 2; [done |].
    rewrite (reg_ids _ Hok). change (map ?f ?l) with (f <$> l). apply list_elem_of_fmap. exists g. split; [done |]. apply in_order_elem. by exists a. }
  unfold getConsensusPercentageForCurrentRoot. rewrite Hsig, bool_decide_eq_false_2 by (intros E; rewrite E in Hl; cbn in Hl; lia).
  fold n. f_equal. lia.
Qed.

(** A wallet that completes its deposits while eight Elderfiers are active loses them: it is not
    registered and its stake is forgotten. *)
Theorem full_council_forgets_stake c x e x' :
  addCommitment c x e = Ret x' -> m_commitments (ci_store x) !! toHex (ce_commitment e) = None ->
  ce_type e = ELDERFIER_STAKING -> ce_senderAddress e <> [] -> 8 <= getActiveElderfierCount (ci_registry x) ->
  (let p := add_stake (default (mkPendingStake 0 0 NULL_KEY []) (m_pendingElderfierStakes (ci_registry x) !! ce_senderAddress e)) e in
   REGISTRATION_COUNT c <= ps_deposit_count p /\ REGISTRATION_AMOUNT c <= ps_total_amount p) ->
  m_elderfierRegistrations (ci_registry x') = m_elderfierRegistrations (ci_registry x)
  /\ m_pendingElderfierStakes (ci_registry x') !! ce_senderAddress e = None.
Proof.
  intros H Hnew Ht Hs Hact Hp. unfold addCommitment, addToStore in H. rewrite bool_decide_eq_false_2 in H by (rewrite Hnew; by intros []).
  destruct (merkle_root_total (m_merkle_leaves (ci_store x) ++ [ce_commitment e])) as [root Hroot]. rewrite Hroot in H.
  rewrite !outcome_bind_ret in H. injection H as <-. unfold track_stake, isElderfierRegistrationDeposit.
  rewrite bool_decide_eq_true_2, bool_decide_eq_false_2 by done. cbn [negb orb]. cbn [with_store ci_registry].
  destruct Hp as [H1%Z.leb_le H2%Z.leb_le]. rewrite H1, H2. cbn [andb].
  match goal with |- context [tryRegisterElderfier ?y ?w ?k ?al] => destruct (tryRegisterElderfier y w k al) as [ok y'] eqn:E end.
  apply tryRegister_spec in E as [_ E]. destruct ok.
  - destruct E as [(_ & _ & Hlt & _) _]. unfold getActiveElderfierCount, registrations in *. cbn in Hlt. lia.
  - destruct E as [_ ->]. cbn. split; [done | apply lookup_delete_eq].
Qed.

(** A restart keeps the registrations but forgets the bans, the stakes and the slash proposals: an
    address that left may register again. *)
Theorem restart_forgets x log fresh :
  store_rep log (ci_store x) -> heights_ok log -> registry_ok (ci_registry x) -> ci_registry fresh = mkRegistry ∅ [] ∅ ∅ ∅ ->
  ci_reviews fresh = mkReviews ∅ ∅ ∅ ->
  exists y, load fresh (save x) = Ret y /\ registry_ok (ci_registry y)
    /\ m_elderfierRegistrations (ci_registry y) = m_elderfierRegistrations (ci_registry x)
    /\ m_pendingElderfierStakes (ci_registry y) = ∅ /\ m_slashProposals (ci_reviews y) = ∅
    /\ forall a, is_void (ci_registry y) a = false.
Proof.
  intros Hs Hh Hok Hf Hrev. unfold load, save. cbn [sv_commitments]. destruct (loadStore_rep log (ci_store x) Hs Hh) as (s & -> & _).
  rewrite outcome_bind_ret. eexists. split; [reflexivity |]. cbn [ci_registry ci_reviews sv_registrations sv_addresses]. rewrite Hf, Hrev.
  destruct Hok as [H1 H2 H3 H4 H5]. split_and!; try done.
  - split; cbn; try done. by rewrite H2 in H3.
Qed.

(** ** Concrete indexes *)

Module ElderfierDemo.
Definition stake (n : Z) (key amount : Z) : CommitmentEntry :=
  mkCommitmentEntry (replicate 32 n) (replicate 32 n) 100 amount 0 ELDERFIER_STAKING 0 false (str "CEREMONY:ALIAS" ++ [n])
    (str "ALIAS" ++ [n; n; n]) (replicate 32 key) false.
(** A block with the deposit is pushed and popped [n] times. *)
Definition replay (n : nat) (e : CommitmentEntry) : list IndexOp := concat (replicate n [OpCommit e; OpRollback 99]).
Definition no_signature (h : Hash) (k s : bytes) : bool := true.
Definition index_of (r : outcome CommitmentIndex) : CommitmentIndex := match r with Ret x => x | _ => emptyIndex end.
End ElderfierDemo.
Import ElderfierDemo.

(** One deposit is enough to become an Elderfier if the chain is reorganised.  Popping the block of a
    staking deposit leaves it counted, so that mining the same deposit twenty times registers the
    wallet although the index holds no commitment at all in the end. *)
Theorem reorganisation_replays_stake :
  let e := stake 65 7 ELDERKING_CEREMONY_AMOUNT in
  exists x, index_run mainnet no_signature emptyIndex (replay 20 e) = Ret x
    /\ m_commitments (ci_store x) = ∅ /\ isAddressRegisteredAsElderfier (ci_registry x) (ce_senderAddress e) 0 = true.
Proof.
  intros e. destruct (index_run_spec mainnet no_signature (replay 20 e) emptyIndex) as (x & Hx & _). exists x. split; [exact Hx |].
  assert (Hc : match index_run mainnet no_signature emptyIndex (replay 20 e) with
    | Ret x => bool_decide (m_commitments (ci_store x) = ∅) && isAddressRegisteredAsElderfier (ci_registry x) (ce_senderAddress e) 0
    | _ => false end = true) by (vm_compute; reflexivity).
  rewrite Hx in Hc. apply andb_true_iff in Hc as [H1%bool_decide_eq_true H2]. by split.
Qed.

(** Two Elderfiers, one of which leaves; the deposit of the first is in the index at the end. *)
Module CouncilDemo.
Definition first := stake 65 7 ELDERKING_CEREMONY_AMOUNT.
Definition second := stake 66 8 ELDERKING_CEREMONY_AMOUNT.
Definition council : list IndexOp := replay 20 first ++ replay 20 second ++ [OpCommit first].
Definition leave : list IndexOp :=
  [OpInitiate (ce_senderAddress second) 1 200 50; OpComplete (ce_senderAddress second) 1 240].
Definition run (ops : list IndexOp) : outcome CommitmentIndex := index_run mainnet no_signature (setAliasIndex None emptyIndex) ops.
End CouncilDemo.
Import CouncilDemo.

Lemma elderfier_registry_invariant_witness :
  exists x, run (council ++ leave) = Ret x /\ NoDup (m_elderfier_ids (ci_registry x)) /\ m_elderfier_ids (ci_registry x) = [0; 1]
    /\ exists x', index_run mainnet no_signature x (OpComplete (ce_senderAddress second) 1 250 :: replay 20 second) = Ret x'
         /\ isAddressBlacklisted (ci_registry x') (ce_senderAddress second) 1 = true
         /\ m_elderfierRegistrations (ci_registry x') !! ce_senderAddress second = None.
Proof.
  destruct (elderfier_registry_invariant mainnet no_signature None (council ++ leave)) as (x & Hx & (_ & _ & _ & Hd) & Hv).
  exists x. split; [exact Hx |]. split; [exact Hd |].
  assert (Hc : match run (council ++ leave) with
    | Ret x => bool_decide (m_elderfier_ids (ci_registry x) = [0; 1])
               && (completeElderfierUnstaking x (ce_senderAddress second) 1 250).1
    | _ => false end = true) by (vm_compute; reflexivity).
  unfold run in Hc. rewrite Hx in Hc. apply andb_true_iff in Hc as [H1%bool_decide_eq_true H2]. split; [exact H1 |].
  apply (Hv (OpComplete (ce_senderAddress second) 1 250 :: replay 20 second) (ce_senderAddress second) 1); [vm_compute; reflexivity |].
  right. exists 250. split; [exact H2 | reflexivity].
Defined.

Lemma slash_needs_quorum_witness :
  exists x x', run council = Ret x /\ addSlashVote x (ce_txHash first) 1 [] 300 50 = (true, x')
    /\ exists voters : gset Z, 50 * getActiveElderfierCount (ci_registry x) <= 100 * Z.of_nat (size voters).
Proof.
  assert (Hc : match run council with Ret x => (addSlashVote x (ce_txHash first) 1 [] 300 50).1 | _ => false end = true)
    by (vm_compute; reflexivity).
  destruct (run council) as [x | | |] eqn:Hx; try discriminate Hc. exists x.
  destruct (addSlashVote x (ce_txHash first) 1 [] 300 50) as [ok x'] eqn:Hv. cbn in Hc. subst ok. exists x'.
  split; [reflexivity |]. split; [reflexivity |].
  destruct (slash_needs_quorum mainnet no_signature None council x (ce_txHash first) 1 [] 300 50 x' Hx Hv) as (_ & _ & _ & voters & Hq & _).
  exists voters. exact Hq.
Defined.

Lemma epoch_report_accounts_witness :
  exists x, run council = Ret x /\ (length (m_epochReports (ci_epochs x)) <= 10)%nat
    /\ (let report := generateEpochReport x 1 0 900 900 in
        er_missingEfierIds report = [0; 1] /\ getLatestEpochReport (storeEpochReport x report) = Some report).
Proof.
  assert (Hc : match run council with
    | Ret x => (length (m_epochReports (ci_epochs x)) <=? 10)%nat && bool_decide (er_missingEfierIds (generateEpochReport x 1 0 900 900) = [0; 1])
    | _ => false end = true) by (vm_compute; reflexivity).
  destruct (run council) as [x | | |]; try discriminate Hc. apply andb_true_iff in Hc as [Hl%Nat.leb_le Hm%bool_decide_eq_true].
  exists x. split; [reflexivity |]. split; [exact Hl |]. split; [exact Hm |].
  destruct (epoch_report_accounts x 1 0 900 900 Hl) as (_ & _ & _ & _ & _ & _ & _ & H & _). exact H.
Defined.
