(* ===== verification/BlockEffects.v ===== *)
(** What the node records of a block besides its transactions: [Blockchain::pushToBankingIndex] of
    [src/src/CryptoNoteCore/Blockchain.cpp], which reads the extra fields of every transaction and updates
    the commitment index, the alias index behind it, the slash marks of the commitment outputs, the deposit
    ledger and the burned coins.

    [TransactionExtraElderfierMessage] has four members that neither its serializer nor the parser sets; the
    code reads them, so that their values are a parameter ([consensus]).  Signature verification is one too. *)

From S2P Require Import Prelude Config Hex Keccak Currency Types Amounts Emission TransactionExtra BankingIndex ChainStore.
From S2P Require Import AliasIndex CommitmentStore Elderfiers InputChecks.

(** The members [consensusRequired], [consensusType == QUORUM], [requiredThreshold] and [targetDepositHash]. *)
Record Consensus := mkConsensus {
  consensusRequired : bool;
  consensusType_quorum : bool;
  requiredThreshold : Z;
  targetDepositHash : Hash
}.

(** What the fields of a block change: the commitment index, the commitment outputs, [permanentBurns]. *)
Record Effects := mkEffects {
  ef_index : CommitmentIndex;
  ef_outputs : gmap Z (list CommitmentOutputRef);
  ef_burns : Z
}.

(** * Elderfier deposits *)

(** The alias and the signing key in the metadata: a tag, eight letters and a key, or a tag and an alias. *)
Definition ceremony_alias (metadata : bytes) : bytes :=
  match metadata with
  | 0xEA :: _ :: _ => if (41 <=? length metadata)%nat then take 8 (drop 1 metadata) else drop 1 metadata
  | _ => []
  end.

Definition signing_pub_key (metadata : bytes) : bytes :=
  match metadata with
  | 0xEA :: _ :: _ => if (41 <=? length metadata)%nat then take 32 (drop 9 metadata) else NULL_KEY
  | _ => NULL_KEY
  end.

Definition elderfier_entry (d : TransactionExtraElderfierDeposit) (txHash : Hash) (height : Z) : CommitmentEntry :=
  let ceremonyAlias := ceremony_alias (ed_metadata d) in
  mkCommitmentEntry (ed_depositHash d) txHash height (ed_depositAmount d) 0xFFFFFFFF ELDERFIER_STAKING 0 false
    (if bool_decide (ceremonyAlias = []) then toHex (ed_elderfierCommitment d) else str "CEREMONY:" ++ ceremonyAlias)
    ceremonyAlias (signing_pub_key (ed_metadata d)) false.

Definition heat_entry (h : TransactionExtraHeatCommitment) (txHash : Hash) (height : Z) : CommitmentEntry :=
  mkCommitmentEntry (hc_commitment h) txHash height (hc_amount h) DEPOSIT_TERM_FOREVER HEAT
    (match hc_metadata h with [] => 1 | m :: _ => m end) false [] [] NULL_KEY false.

Definition cold_entry (d : TransactionExtraColdCommitment) (txHash : Hash) (height : Z) : CommitmentEntry :=
  mkCommitmentEntry (cc_commitment d) txHash height (cc_amount d) (cc_term d) COLD (cc_claimChainCode d) false [] [] NULL_KEY false.

Definition migration_entry (m : TransactionExtraColdMigration) (originalBlockHeight : Z) : CommitmentEntry :=
  mkCommitmentEntry (cm_commitment m) (cm_originalTxHash m) originalBlockHeight (cm_amount m) (cm_term m) COLD (cm_claimChainCode m)
    true [] [] NULL_KEY false.

Definition alias_entry (a : TransactionExtraAliasRegistration) (height : Z) : AliasEntry :=
  mkAliasEntry (ar_alias a) (ar_ownerAddress a) (ar_aliasHash a) (ar_addressHash a) (ar_aliasType a) height.

(** An output that a migration may stand for. *)
Definition legacy_output (amount : Z) (o : TransactionOutput) : bool :=
  match out_target o with OutMultisignature _ => out_amount o =? amount | _ => false end.

Section BlockEffects.
Context (c : Currency).
Context (check_signature : Hash -> bytes -> bytes -> bool).
Context (consensus : TransactionExtraElderfierMessage -> Consensus).
Context (getObjectHash : Transaction -> Hash).
(** [m_blocks] with the new block, [m_transactionMap] and the height of the block. *)
Context (m_blocks : list BlockEntry) (transactionMap : gmap Hash TransactionIndex) (height : Z).

Definition with_commitment (e : CommitmentEntry) (f : Effects) : outcome Effects :=
  x ← addCommitment c (ef_index f) e; Ret (mkEffects x (ef_outputs f) (ef_burns f)).

Definition with_burn (amount : Z) (f : Effects) : Effects := mkEffects (ef_index f) (ef_outputs f) (u64 (ef_burns f + amount)).

(** A migrated deposit keeps the height of the deposit. *)
Definition migrate (m : TransactionExtraColdMigration) (f : Effects) : outcome Effects :=
  match transactionMap !! cm_originalTxHash m with
  | None => Ret f
  | Some index =>
      origTx ← transactionByIndex m_blocks index;
      if existsb (legacy_output (cm_amount m)) (tx_outputs (te_tx origTx)) && negb (hasCommitment (ci_store (ef_index f)) (cm_commitment m))
      then with_commitment (migration_entry m (ti_block index)) f
      else Ret f
  end.

(** * Slash votes *)

(** The number of the active Elderfier whose key signed the message: the first of 0 to 254. *)
Definition sender_efid (r : ElderfierRegistry) (senderKey : bytes) : Z :=
  match list_find (fun id => getElderfierSigningPubkey r id = Some senderKey) (seqZ 0 255) with Some (_, id) => id | None => 255 end.

(** [check_signature] on the hash of the target and the data; the signature must have 64 bytes. *)
Definition slash_signature_valid (m : TransactionExtraElderfierMessage) (target : Hash) : bool :=
  (length (em_signature m) =? 64)%nat
  && check_signature (cn_fast_hash (target ++ em_messageData m)) (em_senderKey m) (em_signature m).

(** The three gates: an active sender, a target that is known and not slashed, a valid signature. *)
Definition slash_gates (m : TransactionExtraElderfierMessage) (target : Hash) (x : CommitmentIndex) : option Z :=
  let senderEfid := sender_efid (ci_registry x) (em_senderKey m) in
  if senderEfid =? 255 then None
  else
    match getCommitmentEntryByTxHash (ci_store x) target with
    | None => None
    | Some e => if ce_isSlashed e then None else if slash_signature_valid m target then Some senderEfid else None
    end.

(** The text after the nine bytes of the header, up to a zero. *)
Fixpoint until_zero (bs : bytes) : bytes :=
  match bs with [] => [] | b :: bs => if b =? 0 then [] else b :: until_zero bs end.
Definition slash_reason (data : bytes) : bytes := if (9 <? length data)%nat then until_zero (drop 9 data) else [].

Definition slashed_amount (data : bytes) : Z := if (9 <=? length data)%nat then le_value (take 8 (drop 1 data)) else 0.

Definition mark_slashed_output (index : TransactionIndex) (ref : CommitmentOutputRef) : CommitmentOutputRef :=
  if same_index (cr_transactionIndex ref) index
  then mkCommitmentRef (cr_transactionIndex ref) (cr_outputInTransaction ref) (cr_commitKey ref) (cr_term ref) true
  else ref.

(** The outputs of the slashed transaction with the amount of its commitment. *)
Definition mark_outputs (target : Hash) (x : CommitmentIndex) (outputs : gmap Z (list CommitmentOutputRef)) : gmap Z (list CommitmentOutputRef) :=
  match getCommitmentEntryByTxHash (ci_store x) target, transactionMap !! target with
  | Some slashedEntry, Some index =>
      match outputs !! ce_amount slashedEntry with
      | Some refs => <[ce_amount slashedEntry := map (mark_slashed_output index) refs]> outputs
      | None => outputs
      end
  | _, _ => outputs
  end.

Definition execute_slash (target : Hash) (data : bytes) (f : Effects) : Effects :=
  let '(markedInIndex, x) := markSlashed (ef_index f) target in
  let x := markSlashProposalExecuted x target in
  let f := mkEffects x (if markedInIndex : bool then mark_outputs target x (ef_outputs f) else ef_outputs f) (ef_burns f) in
  if 0 <? slashed_amount data then with_burn (slashed_amount data) f else f.

Definition elderfier_message (m : TransactionExtraElderfierMessage) (f : Effects) : Effects :=
  let k := consensus m in
  let target := targetDepositHash k in
  if consensusRequired k && consensusType_quorum k && negb (bool_decide (target = NULL_HASH)) then
    match slash_gates m target (ef_index f) with
    | None => f
    | Some senderEfid =>
        let blockHeight := u32 (Z.of_nat (length m_blocks) - 1) in
        let '(quorumReached, x) := addSlashVote (ef_index f) target senderEfid (slash_reason (em_messageData m))
                                     (if bool_decide (m_blocks = []) then 0 else blockHeight) (u8 (requiredThreshold k)) in
        let f := mkEffects x (ef_outputs f) (ef_burns f) in
        if quorumReached : bool then execute_slash target (em_messageData m) f else f
    end
  else f.

(** * The fields of a transaction *)

Definition field_effect (txHash : Hash) (field : TransactionExtraField) (f : Effects) : outcome Effects :=
  match field with
  | ExtraHeatCommitment h => with_commitment (heat_entry h txHash height) (with_burn (hc_amount h) f)
  | ExtraColdCommitment d => with_commitment (cold_entry d txHash height) f
  | ExtraColdMigration m => migrate m f
  | ExtraElderfierDeposit d => with_commitment (elderfier_entry d txHash height) f
  | ExtraElderfierMessage m => Ret (elderfier_message m f)
  | ExtraAliasRegistration a =>
      Ret (if alias_isValid a
           then mkEffects (setAliasIndex ((fun x => (registerAlias x (alias_entry a height)).2) <$> m_aliasIndex (ef_index f)) (ef_index f))
                  (ef_outputs f) (ef_burns f)
           else f)
  | _ => Ret f
  end.

Fixpoint fields_effect (txHash : Hash) (fields : list TransactionExtraField) (f : Effects) : outcome Effects :=
  match fields with [] => Ret f | field :: fields => f ← field_effect txHash field f; fields_effect txHash fields f end.

(** [deposit] is an [int64_t], the amounts are unsigned. *)
Definition input_deposit (i : TransactionInput) : Z :=
  match i with
  | InMultisignature m => if 0 <? mi_term m then - mi_amount m else 0
  | InCommitmentSpend s => - cs_amount s
  | _ => 0
  end.

Definition output_deposit (o : TransactionOutput) : Z :=
  match out_target o with
  | OutMultisignature m => if 0 <? mo_term m then out_amount o else 0
  | OutCommitment t => if oc_term t =? DEPOSIT_TERM_FOREVER then 0 else out_amount o
  | _ => 0
  end.

Definition transaction_deposit (deposit : Z) (tx : Transaction) : Z :=
  foldl (fun d x => i64 (d + x)) deposit (map input_deposit (tx_inputs tx) ++ map output_deposit (tx_outputs tx)).

Fixpoint transactions_effect (txs : list TransactionEntry) (deposit : Z) (f : Effects) : outcome (Z * Effects) :=
  match txs with
  | [] => Ret (deposit, f)
  | e :: txs =>
      let tx := te_tx e in
      f ← (match parseTransactionExtra (tx_extra tx) with
           | (true, fields) => fields_effect (getObjectHash tx) fields f
           | (false, _) => Ret f
           end);
      transactions_effect txs (transaction_deposit deposit tx) f
  end.

(** The new commitment index, commitment outputs and banking index, and the total for the eternal flame of the
    currency when coins were burned. *)
Definition pushToBankingIndex (transactions : list TransactionEntry) (interest : Z) (x : CommitmentIndex)
    (outputs : gmap Z (list CommitmentOutputRef)) (banking : BankingIndex)
    : outcome (CommitmentIndex * gmap Z (list CommitmentOutputRef) * BankingIndex * option Z) :=
  '(deposit, f) ← transactions_effect transactions 0 (mkEffects x outputs 0);
  banking ← pushBlock banking deposit interest;
  if 0 <? ef_burns f then
    banking ← addForeverDeposit banking (ef_burns f) height;
    Ret (ef_index f, ef_outputs f, banking, Some (syncEternalFlame c (getBurnedXfgAmount banking)))
  else Ret (ef_index f, ef_outputs f, banking, None).

End BlockEffects.

(** * What the effects add up to *)

Lemma i64_idem_add a b : i64 (i64 a + b) = i64 (a + b).
Proof.
  unfold i64. f_equal. replace ((a + 2 ^ 63) mod 2 ^ 64 - 2 ^ 63 + b + 2 ^ 63) with ((a + 2 ^ 63) mod 2 ^ 64 + b) by lia.
  rewrite Zplus_mod_idemp_l. f_equal. lia.
Qed.

Lemma fold_i64 l d : is_i64 d -> foldl (fun d x => i64 (d + x)) d l = i64 (d + sumZ l).
Proof.
  intros Hd. rewrite <- (i64_small d Hd) at 1. clear Hd. revert d. induction l as [| x l IH]; intros d; cbn [foldl].
  - by rewrite Z.add_0_r.
  - rewrite i64_idem_add, IH. unfold sumZ. cbn [foldr]. f_equal. lia.
Qed.

Section Accounts.
Context (c : Currency) (check_signature : Hash -> bytes -> bytes -> bool).
Context (consensus : TransactionExtraElderfierMessage -> Consensus) (getObjectHash : Transaction -> Hash).
Context (m_blocks : list BlockEntry) (transactionMap : gmap Hash TransactionIndex) (height : Z).

Definition fields_of (tx : Transaction) : list TransactionExtraField :=
  match parseTransactionExtra (tx_extra tx) with (true, fields) => fields | (false, _) => [] end.

Definition declared_burn (field : TransactionExtraField) : Z := match field with ExtraHeatCommitment h => hc_amount h | _ => 0 end.
Definition declared_burns (txs : list TransactionEntry) : Z := sumZ (map declared_burn (txs ≫= fun e => fields_of (te_tx e))).

(** The change of the deposits that the inputs and outputs of the transactions make. *)
Definition deposit_changes (tx : Transaction) : list Z := map input_deposit (tx_inputs tx) ++ map output_deposit (tx_outputs tx).
Definition deposit_change (txs : list TransactionEntry) : Z := sumZ (txs ≫= fun e => deposit_changes (te_tx e)).

(** A field that is no verdict of the council. *)
Definition no_verdict (field : TransactionExtraField) : Prop :=
  match field with ExtraElderfierMessage m => consensusRequired (consensus m) = false | _ => True end.

Abbreviation field_effect' := (field_effect c check_signature consensus m_blocks transactionMap height).
Abbreviation fields_effect' := (fields_effect c check_signature consensus m_blocks transactionMap height).
Abbreviation transactions_effect' := (transactions_effect c check_signature consensus getObjectHash m_blocks transactionMap height).

Lemma with_commitment_inv e f f' : with_commitment c e f = Ret f' -> ef_outputs f' = ef_outputs f /\ ef_burns f' = ef_burns f.
Proof. intros H. unfold with_commitment in H. outcome_inv. done. Qed.

Lemma field_effect_burns txHash field f f' :
  no_verdict field -> is_u64 (ef_burns f) -> field_effect' txHash field f = Ret f' ->
  ef_outputs f' = ef_outputs f /\ ef_burns f' = u64 (ef_burns f + declared_burn field).
Proof.
  intros Hq Hb H. assert (Hsame : u64 (ef_burns f + 0) = ef_burns f) by (rewrite Z.add_0_r; by apply u64_small).
  destruct field as [| | | | | | d | m | a | h | | d | m | |]; cbn [field_effect declared_burn no_verdict] in *;
    try (by injection H as <-; rewrite Hsame); rewrite ?Hsame.
  - by apply with_commitment_inv in H.
  - unfold elderfier_message in H. rewrite Hq in H. by injection H as <-.
  - destruct (alias_isValid a); by injection H as <-.
  - by apply with_commitment_inv in H.
  - by apply with_commitment_inv in H.
  - unfold migrate in H. destruct (transactionMap !! _); [| by injection H as <-]. outcome_inv.
    destruct (_ && _); [by apply with_commitment_inv in H | by injection H as <-].
Qed.

Lemma fields_effect_burns txHash fields f f' :
  Forall no_verdict fields -> is_u64 (ef_burns f) -> fields_effect' txHash fields f = Ret f' ->
  ef_outputs f' = ef_outputs f /\ ef_burns f' = u64 (ef_burns f + sumZ (map declared_burn fields)).
Proof.
  revert f. induction fields as [| field fields IH]; intros f Hq Hb H; cbn [fields_effect] in H.
  - injection H as <-. cbn. rewrite Z.add_0_r. split; [done |]. symmetry. by apply u64_small.
  - apply Forall_cons in Hq as [Hf Hq]. apply outcome_bind_inv in H as (f1 & H1 & H).
    apply field_effect_burns in H1 as [Ho1 Hb1]; [| done | done].
    apply IH in H as [Ho Hb2]; [| done | rewrite Hb1; apply u64_range]. rewrite Ho, Ho1, Hb2, Hb1. split; [done |].
    unfold u64. rewrite Zplus_mod_idemp_l. f_equal. unfold sumZ. cbn [map foldr]. lia.
Qed.

Lemma transactions_effect_sums txs deposit f deposit' f' :
  Forall (fun e => Forall no_verdict (fields_of (te_tx e))) txs -> is_u64 (ef_burns f) -> is_i64 deposit ->
  transactions_effect' txs deposit f = Ret (deposit', f') ->
  ef_outputs f' = ef_outputs f /\ ef_burns f' = u64 (ef_burns f + declared_burns txs)
  /\ deposit' = i64 (deposit + deposit_change txs).
Proof.
  revert deposit f. induction txs as [| e txs IH]; intros deposit f Hq Hb Hd H; cbn [transactions_effect] in H.
  - injection H as <- <-. unfold declared_burns, deposit_change. cbn. rewrite !Z.add_0_r. unfold is_u64, is_i64 in *.
    by rewrite u64_small, i64_small.
  - apply Forall_cons in Hq as [He Hq]. apply outcome_bind_inv in H as (f1 & H1 & H).
    assert (Hf1 : ef_outputs f1 = ef_outputs f /\ ef_burns f1 = u64 (ef_burns f + sumZ (map declared_burn (fields_of (te_tx e))))).
    { unfold fields_of in *. destruct (parseTransactionExtra _) as [[] fields]; [by eapply fields_effect_burns |].
      injection H1 as <-. cbn. rewrite Z.add_0_r. split; [done |]. symmetry. by apply u64_small. }
    destruct Hf1 as [Ho1 Hb1]. unfold transaction_deposit in H. rewrite fold_i64 in H by done.
    apply IH in H as (Ho & Hb2 & ->); [| done | rewrite Hb1; apply u64_range | unfold is_i64, i64; pose proof (Z.mod_pos_bound (deposit + sumZ (map input_deposit (tx_inputs (te_tx e)) ++ map output_deposit (tx_outputs (te_tx e))) + 2 ^ 63) (2 ^ 64)); lia].
    rewrite Ho, Ho1, Hb2, Hb1. split; [done |]. unfold declared_burns, deposit_change. rewrite !bind_cons, map_app, !sumZ_app. split.
    + unfold u64. rewrite Zplus_mod_idemp_l. f_equal. lia.
    + rewrite i64_idem_add. f_equal. unfold deposit_changes. rewrite !sumZ_app. lia.
Qed.

End Accounts.

(** What a block changes in the ledgers, when none of its messages is a verdict of the council: the
    deposit ledger gets the deposits that its outputs make less those that its inputs withdraw, at 64
    bits; the burned coins grow by exactly the amounts that its extra fields declare as burned (as a
    64-bit sum, whatever the transactions spend or pay), the currency is told the new total, and no
    commitment output is marked as slashed. *)
Theorem block_effects_account (c : Currency) (check_signature : Hash -> bytes -> bytes -> bool)
    (consensus : TransactionExtraElderfierMessage -> Consensus) (getObjectHash : Transaction -> Hash)
    (m_blocks : list BlockEntry) (transactionMap : gmap Hash TransactionIndex) (height : Z)
    (txs : list TransactionEntry) (interest : Z) (x x' : CommitmentIndex) (outputs outputs' : gmap Z (list CommitmentOutputRef))
    (banking banking' : BankingIndex) (flame : option Z) :
  Forall (fun e => Forall (no_verdict consensus) (fields_of (te_tx e))) txs -> is_u64 (bi_ethereal_xfg banking) ->
  pushToBankingIndex c check_signature consensus getObjectHash m_blocks transactionMap height txs interest x outputs banking
    = Ret (x', outputs', banking', flame) ->
  let burned := bi_ethereal_xfg banking + u64 (declared_burns txs) in
  outputs' = outputs
  /\ di_pushBlock (bi_deposits banking) (i64 (deposit_change txs)) interest = Ret (bi_deposits banking')
  /\ bi_ethereal_xfg banking' = burned /\ burned < 2 ^ 64
  /\ flame = (if 0 <? u64 (declared_burns txs) then Some (Z.min burned (m_moneySupply c)) else None).
Proof.
  intros Hq He H. cbv zeta. unfold pushToBankingIndex in H. apply outcome_bind_inv in H as ([deposit f] & Ht & H).
  apply transactions_effect_sums in Ht as (Ho & Hb & Hd); [| done | done | done]. cbn [ef_outputs ef_burns] in Ho, Hb.
  rewrite Z.add_0_l in Hb, Hd. apply outcome_bind_inv in H as (b1 & Hp & H). unfold pushBlock in Hp.
  apply outcome_bind_inv in Hp as (d & Hdi & Hp). injection Hp as <-. subst deposit. rewrite <- Hb.
  pose proof (u64_range (declared_burns txs)) as Hr. rewrite <- Hb in Hr. unfold is_u64 in He.
  destruct (Z.ltb_spec 0 (ef_burns f)) as [Hpos | Hz]; cycle 1.
  - injection H as <- <- <- <-. cbn. split_and!; try done; lia.
  - apply outcome_bind_inv in H as (b2 & Ha & H). injection H as <- <- <- <-. unfold addForeverDeposit in Ha.
    destruct (Z.eqb_spec (ef_burns f) 0); [lia |]. apply outcome_bind_inv in Ha as ([] & Has & Ha).
    unfold assert_ in Has. cbn [bi_ethereal_xfg bi_burned bi_deposits] in *.
    destruct (Z.leb_spec (ef_burns f) (UINT64_MAX - bi_ethereal_xfg banking)) as [Hle |]; [| done]. unfold UINT64_MAX in Hle.
    rewrite u64_small in Ha by lia.
    assert (Hb2 : bi_deposits b2 = d /\ bi_ethereal_xfg b2 = bi_ethereal_xfg banking + ef_burns f).
    { destruct (last (bi_burned banking)) as [e |]; [| by injection Ha as <-].
      destruct (bu_height e =? height); [| by injection Ha as <-]. outcome_inv. done. }
    destruct Hb2 as [Hd2 He2]. unfold getBurnedXfgAmount, syncEternalFlame. rewrite Hd2, He2. split_and!; try done. lia.
Qed.

Module EffectsDemo.
Definition burn_tx : Transaction :=
  mkTransaction 1 0 [] [] (addHeatCommitmentToExtra [] (mkHeat (replicate 32 1) 5000000000 [])) [].
Definition withdrawal : Transaction :=
  mkTransaction 2 0 [InMultisignature (mkMultisignatureInput 800 1 0 4320)] [mkTransactionOutput 300 (OutCommitment (mkOutputCommitment (replicate 32 2) 4320 [] empty_proof))] [] [].
Definition txs : list TransactionEntry := [mkTxEntry burn_tx []; mkTxEntry withdrawal []].
Definition check_sig (_ : Hash) (_ _ : bytes) : bool := true.
Definition no_consensus (_ : TransactionExtraElderfierMessage) : Consensus := mkConsensus false false 0 NULL_HASH.
Definition ledger : BankingIndex := mkBankingIndex (mkDepositIndex [mkEntry 3 1000 0] 10) [] 7.
Definition effect : outcome (CommitmentIndex * gmap Z (list CommitmentOutputRef) * BankingIndex * option Z) :=
  pushToBankingIndex mainnet check_sig no_consensus (fun tx => tx_extra tx) [] ∅ 10 txs 0 emptyIndex ∅ ledger.
End EffectsDemo.

Lemma block_effects_account_witness :
  exists x' outputs' banking' flame, EffectsDemo.effect = Ret (x', outputs', banking', flame)
    /\ bi_ethereal_xfg banking' = 5000000007 /\ flame = Some 5000000007
    /\ di_pushBlock (bi_deposits EffectsDemo.ledger) (-500) 0 = Ret (bi_deposits banking').
Proof.
  assert (Hret : match EffectsDemo.effect with Ret _ => true | _ => false end = true) by (vm_compute; reflexivity).
  destruct EffectsDemo.effect as [[[[x' outputs'] banking'] flame] | | |] eqn:E; [| discriminate Hret ..].
  exists x', outputs', banking', flame. split; [reflexivity |]. unfold EffectsDemo.effect in E.
  assert (Hburn : u64 (declared_burns EffectsDemo.txs) = 5000000000) by (vm_compute; reflexivity).
  assert (Hdep : i64 (deposit_change EffectsDemo.txs) = -500) by (vm_compute; reflexivity).
  assert (Hmin : Z.min 5000000007 (m_moneySupply mainnet) = 5000000007) by (vm_compute; reflexivity).
  apply block_effects_account in E as (_ & Hd & Hb & _ & Hf); [| repeat constructor | cbn; unfold is_u64; lia].
  rewrite Hburn in Hb, Hf. rewrite Hdep in Hd. cbn [bi_ethereal_xfg EffectsDemo.ledger] in Hb, Hf.
  split; [exact Hb |]. split; [| exact Hd]. rewrite Hf. change (7 + 5000000000) with 5000000007. rewrite Hmin. reflexivity.
Defined.
