(* ===== verification/SwapStateMachine.v ===== *)
(** The state machine of an atomic swap: [src/src/SwapDaemon/SwapStateMachine.cpp] and
    [SwapTypes.h].  Each successful transition stamps the time, which is an argument. *)

From S2P Require Import Prelude.

(** * The code *)

Inductive SwapState :=
| INITIATED | XFG_LOCKED | CTR_LOCKED | XFG_CLAIMED | CTR_CLAIMED | XFG_REFUNDED | CTR_REFUNDED | FAILED
| ADAPTOR_KEYS_EXCHANGED | ADAPTOR_ESCROW_FUNDED | ADAPTOR_PRESIGS_READY | ADAPTOR_CTR_LOCKED
| ADAPTOR_SECRET_REVEALED | ADAPTOR_XFG_SPENT | ADAPTOR_REFUNDED.

#[export] Instance SwapState_eq_dec : EqDecision SwapState.
Proof. solve_decision. Defined.

(** The members that change. *)
Record SwapMachine := mkSwap { m_state : SwapState; m_createdAt : Z; m_updatedAt : Z }.

Definition newSwap (now : Z) : SwapMachine := mkSwap INITIATED now now.

Definition isValidTransition (m : SwapMachine) (newState : SwapState) : bool :=
  if decide (newState = FAILED) then true
  else
    match m_state m with
    | INITIATED => bool_decide (newState = ADAPTOR_KEYS_EXCHANGED)
    | ADAPTOR_KEYS_EXCHANGED => bool_decide (newState = ADAPTOR_ESCROW_FUNDED)
    | ADAPTOR_ESCROW_FUNDED =>
        bool_decide (newState = ADAPTOR_PRESIGS_READY) || bool_decide (newState = ADAPTOR_REFUNDED)
    | ADAPTOR_PRESIGS_READY =>
        bool_decide (newState = ADAPTOR_CTR_LOCKED) || bool_decide (newState = ADAPTOR_REFUNDED)
    | ADAPTOR_CTR_LOCKED =>
        bool_decide (newState = ADAPTOR_SECRET_REVEALED) || bool_decide (newState = ADAPTOR_REFUNDED)
    | ADAPTOR_SECRET_REVEALED => bool_decide (newState = ADAPTOR_XFG_SPENT)
    | ADAPTOR_XFG_SPENT | ADAPTOR_REFUNDED | FAILED => false
    | _ => false
    end.

Definition transition (m : SwapMachine) (now : Z) (newState : SwapState) : bool * SwapMachine :=
  if isValidTransition m newState then (true, mkSwap newState (m_createdAt m) now) else (false, m).

Definition isTerminal (m : SwapMachine) : bool :=
  bool_decide (m_state m = ADAPTOR_XFG_SPENT) || bool_decide (m_state m = ADAPTOR_REFUNDED)
  || bool_decide (m_state m = FAILED).

(** * Traces *)

(** A run of requests with their times: the machine at the end and the states it accepted. *)
Fixpoint swap_run (m : SwapMachine) (reqs : list (Z * SwapState)) : SwapMachine * list SwapState :=
  match reqs with
  | [] => (m, [])
  | (now, s) :: reqs =>
      let '(ok, m') := transition m now s in
      let '(m'', accepted) := swap_run m' reqs in
      (m'', if ok then s :: accepted else accepted)
  end.

(** The protocol: keys, escrow, pre-signatures, counterparty lock, secret, spend. *)
Definition protocol : list SwapState :=
  [ADAPTOR_KEYS_EXCHANGED; ADAPTOR_ESCROW_FUNDED; ADAPTOR_PRESIGS_READY; ADAPTOR_CTR_LOCKED;
   ADAPTOR_SECRET_REVEALED; ADAPTOR_XFG_SPENT].

(** What a machine can still go through from a state: the rest of the protocol, a refund
    between the escrow and the secret, and failures at the end. *)
Inductive swap_trace : SwapState -> list SwapState -> Prop :=
| trace_stop s : swap_trace s []
| trace_fail s n : swap_trace s (FAILED :: replicate n FAILED)
| trace_refund s n :
    s ∈ [ADAPTOR_ESCROW_FUNDED; ADAPTOR_PRESIGS_READY; ADAPTOR_CTR_LOCKED] ->
    swap_trace s (ADAPTOR_REFUNDED :: replicate n FAILED)
| trace_next s s' l :
    (exists k, (INITIATED :: protocol) !! k = Some s /\ protocol !! k = Some s') ->
    swap_trace s' l -> swap_trace s (s' :: l).

Lemma failed_trace l : swap_trace FAILED l -> exists n, l = replicate n FAILED.
Proof.
  intros H. inversion H as [| ? n | ? n Hin | ? s' l' [k [Hk _]] _]; subst.
  - by exists 0%nat.
  - by exists (S n).
  - exfalso. by repeat (apply elem_of_cons in Hin as [? | Hin]; [done |]); apply elem_of_nil in Hin.
  - exfalso. by do 7 (destruct k as [| k]; [done |]).
Qed.

Lemma refunded_trace l : swap_trace ADAPTOR_REFUNDED l -> exists n, l = replicate n FAILED.
Proof.
  intros H. inversion H as [| ? n | ? n Hin | ? s' l' [k [Hk _]] _]; subst.
  - by exists 0%nat.
  - by exists (S n).
  - exfalso. by repeat (apply elem_of_cons in Hin as [? | Hin]; [done |]); apply elem_of_nil in Hin.
  - exfalso. by do 7 (destruct k as [| k]; [done |]).
Qed.

Lemma transition_trace m s l :
  isValidTransition m s = true -> swap_trace s l -> swap_trace (m_state m) (s :: l).
Proof.
  intros Hv Hl. unfold isValidTransition in Hv. destruct (decide (s = FAILED)) as [-> | Hne].
  - apply failed_trace in Hl as [n ->]. apply trace_fail.
  - destruct (m_state m); try done;
      repeat match goal with
      | H : _ || _ = true |- _ => apply orb_prop in H as [H | H]
      | H : bool_decide _ = true |- _ => apply bool_decide_eq_true in H; subst
      end;
      try (apply refunded_trace in Hl as [n ->]; apply trace_refund; set_solver);
      (apply trace_next; [| done]);
      first [by exists 0%nat | by exists 1%nat | by exists 2%nat | by exists 3%nat | by exists 4%nat | by exists 5%nat].
Qed.

Lemma swap_run_trace reqs m m' accepted :
  swap_run m reqs = (m', accepted) ->
  swap_trace (m_state m) accepted /\ m_state m' = default (m_state m) (last accepted) /\ m_createdAt m' = m_createdAt m.
Proof.
  revert m accepted. induction reqs as [| [now s] reqs IH]; intros m accepted H; cbn [swap_run] in H.
  - injection H as <- <-. split; [constructor | done].
  - unfold transition in H. destruct (isValidTransition m s) eqn:Hv.
    + destruct (swap_run (mkSwap s (m_createdAt m) now) reqs) as [m2 acc] eqn:E. injection H as <- <-.
      apply IH in E as (Ht & Hs & Hc). cbn in Ht, Hs, Hc. split; [by apply transition_trace |].
      split; [| done]. rewrite Hs. destruct acc as [| a acc]; [done |]. rewrite last_cons_cons.
      by destruct (last (a :: acc)) eqn:El; [| apply last_None in El].
    + destruct (swap_run m reqs) as [m2 acc] eqn:E. injection H as <- <-. by apply IH in E.
Qed.

(** The shape of a trace that starts after [k] steps of the protocol. *)
Definition swap_shape (k : nat) (l : list SwapState) : Prop :=
  exists j n (refund : bool), (k <= j <= 6)%nat
    /\ l = drop k (take j protocol) ++ (if refund then [ADAPTOR_REFUNDED] else []) ++ replicate n FAILED
    /\ (refund = true -> 2 <= j <= 4)%nat.

Lemma trace_shape k s l : swap_trace s l -> (INITIATED :: protocol) !! k = Some s -> swap_shape k l.
Proof.
  intros H. revert k. induction H as [s | s n | s n Hin | s s' l (k' & Hk' & Hs') Hl IH]; intros k Hk.
  - exists k, 0%nat, false. apply lookup_lt_Some in Hk. cbn in Hk. split; [lia |].
    split; [| done]. rewrite drop_ge; [done |]. rewrite length_take. lia.
  - exists k, (S n), false. apply lookup_lt_Some in Hk. cbn in Hk. split; [lia |].
    split; [| done]. rewrite drop_ge; [done |]. rewrite length_take. lia.
  - exists k, n, true. pose proof (lookup_lt_Some _ _ _ Hk) as Hlt. cbn in Hlt. split; [lia |]. split.
    + rewrite drop_ge; [done |]. rewrite length_take. lia.
    + intros _. repeat (apply elem_of_cons in Hin as [-> | Hin]; [by do 7 (destruct k as [| k]; [done || lia |]) |]).
      by apply elem_of_nil in Hin.
  - assert (k' = k) as ->.
    { assert (Hnd : NoDup (INITIATED :: protocol)) by (refine (bool_decide_unpack _ _); vm_compute; exact I).
      by eapply NoDup_lookup. }
    destruct (IH (S k)) as (j & n & r & Hj & -> & Hr); [done |]. exists j, n, r. split; [lia |]. split; [| done].
    rewrite app_comm_cons. f_equal. symmetry. apply drop_S. by rewrite lookup_take_lt by lia.
Qed.

(** Every swap follows the protocol: whatever transitions are requested, the accepted ones are the
    steps of the protocol in order and without gaps, possibly cut short, then possibly one refund
    (only after the escrow was funded and before the secret was revealed), then only
    failures.  A swap that spent the escrow went through every step, and no swap both refunds
    and reveals the secret.  The creation time never changes. *)
Theorem swap_follows_protocol (now : Z) (reqs : list (Z * SwapState)) (m : SwapMachine) (accepted : list SwapState) :
  swap_run (newSwap now) reqs = (m, accepted) ->
  (exists j n (refund : bool), (j <= 6)%nat
     /\ accepted = take j protocol ++ (if refund then [ADAPTOR_REFUNDED] else []) ++ replicate n FAILED
     /\ (refund = true -> 2 <= j <= 4)%nat)
  /\ (m_state m = ADAPTOR_XFG_SPENT -> accepted = protocol)
  /\ (ADAPTOR_REFUNDED ∈ accepted -> ADAPTOR_SECRET_REVEALED ∉ accepted)
  /\ m_createdAt m = now.
Proof.
  intros H. apply swap_run_trace in H as (Ht & Hs & Hc). apply (trace_shape 0) in Ht; [| done].
  destruct Ht as (j & n & r & Hj & Hacc & Hr). rewrite drop_0 in Hacc. split; [| split; [| split]].
  - exists j, n, r. split; [lia | done].
  - intros E. rewrite E in Hs. destruct n as [| n].
    + rewrite app_nil_r in Hacc. destruct r.
      * rewrite Hacc, last_snoc in Hs. done.
      * rewrite app_nil_r in Hacc. rewrite Hacc in Hs |- *. by do 7 (destruct j as [| j]; [done |]).
    + rewrite replicate_S_end, !app_assoc in Hacc. rewrite Hacc, last_snoc in Hs. done.
  - intros Hin Hsec. destruct r.
    + destruct (Hr eq_refl) as [_ Hj4]. rewrite Hacc in Hsec.
      rewrite !elem_of_app in Hsec. destruct Hsec as [Hsec | [Hsec | Hsec]].
      * apply list_elem_of_lookup_1 in Hsec as [i Hi]. apply lookup_take_Some in Hi as [Hi Hlt].
        by do 4 (destruct i as [| i]; [done |]); lia.
      * by apply list_elem_of_singleton in Hsec.
      * by apply elem_of_replicate in Hsec as [? _].
    + rewrite Hacc in Hin. rewrite !elem_of_app in Hin. destruct Hin as [Hin | [Hin | Hin]].
      * apply list_elem_of_lookup_1 in Hin as [i Hi]. apply lookup_take_Some in Hi as [Hi _].
        by do 7 (destruct i as [| i]; [done |]).
      * by apply elem_of_nil in Hin.
      * by apply elem_of_replicate in Hin as [? _].
  - exact Hc.
Qed.

Definition example_requests : list (Z * SwapState) :=
  [(11, ADAPTOR_KEYS_EXCHANGED); (12, ADAPTOR_XFG_SPENT); (13, ADAPTOR_ESCROW_FUNDED); (14, ADAPTOR_PRESIGS_READY);
   (15, ADAPTOR_REFUNDED); (16, ADAPTOR_CTR_LOCKED)].

Lemma swap_follows_protocol_witness :
  (exists j n (refund : bool), (j <= 6)%nat
     /\ [ADAPTOR_KEYS_EXCHANGED; ADAPTOR_ESCROW_FUNDED; ADAPTOR_PRESIGS_READY; ADAPTOR_REFUNDED]
        = take j protocol ++ (if refund then [ADAPTOR_REFUNDED] else []) ++ replicate n FAILED
     /\ (refund = true -> 2 <= j <= 4)%nat)
  /\ (ADAPTOR_REFUNDED = ADAPTOR_XFG_SPENT ->
      [ADAPTOR_KEYS_EXCHANGED; ADAPTOR_ESCROW_FUNDED; ADAPTOR_PRESIGS_READY; ADAPTOR_REFUNDED] = protocol)
  /\ (ADAPTOR_REFUNDED ∈ [ADAPTOR_KEYS_EXCHANGED; ADAPTOR_ESCROW_FUNDED; ADAPTOR_PRESIGS_READY; ADAPTOR_REFUNDED] ->
      ADAPTOR_SECRET_REVEALED
        ∉ [ADAPTOR_KEYS_EXCHANGED; ADAPTOR_ESCROW_FUNDED; ADAPTOR_PRESIGS_READY; ADAPTOR_REFUNDED])
  /\ 10 = 10.
Proof.
  apply (swap_follows_protocol 10 example_requests (mkSwap ADAPTOR_REFUNDED 10 15)
           [ADAPTOR_KEYS_EXCHANGED; ADAPTOR_ESCROW_FUNDED; ADAPTOR_PRESIGS_READY; ADAPTOR_REFUNDED]).
  reflexivity.
Defined.

(** A terminal state is not final: a swap whose escrow was spent can still be marked as
    failed. *)
Lemma terminal_not_final created updated now :
  isTerminal (mkSwap ADAPTOR_XFG_SPENT created updated) = true
  /\ transition (mkSwap ADAPTOR_XFG_SPENT created updated) now FAILED = (true, mkSwap FAILED created now).
Proof. done. Qed.
