(* ===== verification/Serialization.v ===== *)
(** The binary format of transactions and blocks:
    [src/src/CryptoNoteCore/CryptoNoteSerialization.cpp], [toBinaryArray], [fromBinaryArray] and
    [getObjectHash] of [CryptoNoteTools.h], and the blobs that are hashed for a block in
    [CryptoNoteFormatUtils.cpp].  A [serialize] function that works in both directions is a codec;
    those that can throw while writing have a writer and a reader. *)

From S2P Require Import Prelude Config IntUtil Varint TransactionExtra Codec Types Keccak MerkleTree.

(** * Inputs *)

Definition serialize_BaseInput : codec BaseInput := mkCodec
  (fun gen => put (varint 32) (bi_blockIndex gen))
  (fun inp =>
    '(height, inp) ← get (varint 32) inp;
    Ret (mkBaseInput height, inp)).

(** [serializeVarintVector]. *)
Definition varint_vector : codec (list Z) := vector (varint 32).

Definition serialize_KeyInput : codec KeyInput := mkCodec
  (fun key => put (varint 64) (ki_amount key) ++ put varint_vector (ki_outputIndexes key) ++ put (pod 32) (ki_keyImage key))
  (fun inp =>
    '(amount, inp) ← get (varint 64) inp;
    '(key_offsets, inp) ← get varint_vector inp;
    '(k_image, inp) ← get (pod 32) inp;
    Ret (mkKeyInput amount key_offsets k_image, inp)).

Definition serialize_MultisignatureInput : codec MultisignatureInput := mkCodec
  (fun m => put (varint 64) (mi_amount m) ++ put (varint 8) (mi_signatureCount m) ++ put (varint 32) (mi_outputIndex m)
            ++ put (varint 32) (mi_term m))
  (fun inp =>
    '(amount, inp) ← get (varint 64) inp;
    '(signatures, inp) ← get (varint 8) inp;
    '(outputIndex, inp) ← get (varint 32) inp;
    '(term, inp) ← get (varint 32) inp;
    Ret (mkMultisignatureInput amount signatures outputIndex term, inp)).

Definition serialize_CommitmentSpend : codec TransactionInputCommitmentSpend := mkCodec
  (fun i => put (varint 64) (cs_amount i) ++ put varint_vector (cs_outputIndexes i) ++ put (pod 32) (cs_keyImage i)
            ++ put (varint 64) (cs_claimedInterest i))
  (fun inp =>
    '(amount, inp) ← get (varint 64) inp;
    '(key_offsets, inp) ← get varint_vector inp;
    '(k_image, inp) ← get (pod 32) inp;
    '(claimed_interest, inp) ← get (varint 64) inp;
    Ret (mkCommitmentSpend amount key_offsets k_image claimed_interest, inp)).

Definition serialize_CommitmentTransfer : codec TransactionInputCommitmentTransfer := mkCodec
  (fun i => put (varint 64) (ct_amount i) ++ put varint_vector (ct_outputIndexes i) ++ put (pod 32) (ct_keyImage i)
            ++ put (varint 32) (ct_newTerm i))
  (fun inp =>
    '(amount, inp) ← get (varint 64) inp;
    '(key_offsets, inp) ← get varint_vector inp;
    '(k_image, inp) ← get (pod 32) inp;
    '(new_term, inp) ← get (varint 32) inp;
    Ret (mkCommitmentTransfer amount key_offsets k_image new_term, inp)).

Definition serialize_InputUnified : codec TransactionInputUnified := mkCodec
  (fun i => put varint_vector (iu_outputIndexes i) ++ put (pod 32) (iu_keyImage i) ++ put (pod 32) (iu_pseudoCommitment i)
            ++ put (pod 32) (iu_sigC0 i))
  (fun inp =>
    '(key_offsets, inp) ← get varint_vector inp;
    '(k_image, inp) ← get (pod 32) inp;
    '(pseudo_commitment, inp) ← get (pod 32) inp;
    '(sig_c0, inp) ← get (pod 32) inp;
    Ret (mkInputUnified key_offsets k_image pseudo_commitment sig_c0, inp)).

(** [BinaryVariantTagGetter] and [getVariantValue]: the tag byte and the value. *)
Definition serialize_TransactionInput : codec TransactionInput := mkCodec
  (fun i =>
    match i with
    | InBase v => 0xff :: put serialize_BaseInput v
    | InKey v => 0x2 :: put serialize_KeyInput v
    | InMultisignature v => 0x3 :: put serialize_MultisignatureInput v
    | InCommitmentSpend v => 0x4 :: put serialize_CommitmentSpend v
    | InCommitmentTransfer v => 0x8 :: put serialize_CommitmentTransfer v
    | InUnified v => 0x5 :: put serialize_InputUnified v
    end)
  (fun inp =>
    '(tag, inp) ← read_u8 inp;
    if tag =? 0xff then '(v, inp) ← get serialize_BaseInput inp; Ret (InBase v, inp)
    else if tag =? 0x2 then '(v, inp) ← get serialize_KeyInput inp; Ret (InKey v, inp)
    else if tag =? 0x3 then '(v, inp) ← get serialize_MultisignatureInput inp; Ret (InMultisignature v, inp)
    else if tag =? 0x4 then '(v, inp) ← get serialize_CommitmentSpend inp; Ret (InCommitmentSpend v, inp)
    else if tag =? 0x5 then '(v, inp) ← get serialize_InputUnified inp; Ret (InUnified v, inp)
    else if tag =? 0x8 then '(v, inp) ← get serialize_CommitmentTransfer inp; Ret (InCommitmentTransfer v, inp)
    else Throw "Unknown variant tag").

(** * Outputs *)

Definition serialize_KeyOutput : codec KeyOutput := mkCodec
  (fun o => put (pod 32) (ko_key o))
  (fun inp => '(key, inp) ← get (pod 32) inp; Ret (mkKeyOutput key, inp)).

Definition serialize_MultisignatureOutput : codec MultisignatureOutput := mkCodec
  (fun o => put (vector (pod 32)) (mo_keys o) ++ put (varint 8) (mo_requiredSignatureCount o) ++ put (varint 32) (mo_term o))
  (fun inp =>
    '(keys, inp) ← get (vector (pod 32)) inp;
    '(required_signatures, inp) ← get (varint 8) inp;
    '(term, inp) ← get (varint 32) inp;
    Ret (mkMultisignatureOutput keys required_signatures term, inp)).

(** The eight scalars of a [MembershipProof], written as one object of 256 bytes. *)
Definition FUEGO_MEMBERSHIP_N : nat := 4.
Definition pod_MembershipProof : codec MembershipProof := mkCodec
  (fun p => put (array (pod 32) FUEGO_MEMBERSHIP_N) (mp_e p) ++ put (array (pod 32) FUEGO_MEMBERSHIP_N) (mp_s p))
  (fun inp =>
    '(e, inp) ← get (array (pod 32) FUEGO_MEMBERSHIP_N) inp;
    '(s, inp) ← get (array (pod 32) FUEGO_MEMBERSHIP_N) inp;
    Ret (mkMembershipProof e s, inp)).

Definition serialize_OutputCommitment : codec TransactionOutputCommitment := mkCodec
  (fun o => put (pod 32) (oc_commitKey o) ++ put (varint 32) (oc_term o) ++ put (pod 32) (oc_amountCommitment o)
            ++ put pod_MembershipProof (oc_amountProof o))
  (fun inp =>
    '(key, inp) ← get (pod 32) inp;
    '(term, inp) ← get (varint 32) inp;
    '(amount_commitment, inp) ← get (pod 32) inp;
    '(amount_proof, inp) ← get pod_MembershipProof inp;
    Ret (mkOutputCommitment key term amount_commitment amount_proof, inp)).

Definition serialize_OutputUnified : codec TransactionOutputUnified := mkCodec
  (fun o => put (pod 32) (ou_key o) ++ put (varint 32) (ou_term o) ++ put (pod 32) (ou_commitment o)
            ++ put pod_MembershipProof (ou_proof o))
  (fun inp =>
    '(key, inp) ← get (pod 32) inp;
    '(term, inp) ← get (varint 32) inp;
    '(commitment, inp) ← get (pod 32) inp;
    '(proof, inp) ← get pod_MembershipProof inp;
    Ret (mkOutputUnified key term commitment proof, inp)).

Definition serialize_OutputTarget : codec TransactionOutputTarget := mkCodec
  (fun o =>
    match o with
    | OutKey v => 0x2 :: put serialize_KeyOutput v
    | OutMultisignature v => 0x3 :: put serialize_MultisignatureOutput v
    | OutCommitment v => 0x4 :: put serialize_OutputCommitment v
    | OutUnified v => 0x5 :: put serialize_OutputUnified v
    end)
  (fun inp =>
    '(tag, inp) ← read_u8 inp;
    if tag =? 0x2 then '(v, inp) ← get serialize_KeyOutput inp; Ret (OutKey v, inp)
    else if tag =? 0x3 then '(v, inp) ← get serialize_MultisignatureOutput inp; Ret (OutMultisignature v, inp)
    else if tag =? 0x4 then '(v, inp) ← get serialize_OutputCommitment inp; Ret (OutCommitment v, inp)
    else if tag =? 0x5 then '(v, inp) ← get serialize_OutputUnified inp; Ret (OutUnified v, inp)
    else Throw "Unknown variant tag").

Definition serialize_TransactionOutput : codec TransactionOutput := mkCodec
  (fun o => put (varint 64) (out_amount o) ++ put serialize_OutputTarget (out_target o))
  (fun inp =>
    '(amount, inp) ← get (varint 64) inp;
    '(target, inp) ← get serialize_OutputTarget inp;
    Ret (mkTransactionOutput amount target, inp)).

(** * Transactions *)

Definition getSignaturesCount (i : TransactionInput) : Z :=
  match i with
  | InBase _ => 0
  | InKey k => Z.of_nat (length (ki_outputIndexes k))
  | InMultisignature m => mi_signatureCount m
  | InCommitmentSpend s => Z.of_nat (length (cs_outputIndexes s))
  | InCommitmentTransfer s => Z.of_nat (length (ct_outputIndexes s))
  | InUnified u => Z.of_nat (length (iu_outputIndexes u))
  end.

(** The version is checked after it was written or read. *)
Definition check_version (version : Z) : outcome unit :=
  if TRANSACTION_VERSION_2 <? version then Throw "Wrong transaction version" else Ret tt.

Definition write_prefix (tx : Transaction) : outcome bytes :=
  _ ← check_version (tx_version tx);
  Ret (put (varint 8) (tx_version tx) ++ put (varint 64) (tx_unlockTime tx)
       ++ put (vector serialize_TransactionInput) (tx_inputs tx) ++ put (vector serialize_TransactionOutput) (tx_outputs tx)
       ++ put blob (tx_extra tx)).

(** The prefix of a transaction, without signatures. *)
Definition read_prefix (inp : bytes) : outcome (Transaction * bytes) :=
  '(version, inp) ← get (varint 8) inp;
  _ ← check_version version;
  '(unlock_time, inp) ← get (varint 64) inp;
  '(vin, inp) ← get (vector serialize_TransactionInput) inp;
  '(vout, inp) ← get (vector serialize_TransactionOutput) inp;
  '(extra, inp) ← get blob inp;
  Ret (mkTransaction version unlock_time vin vout extra [], inp).

(** The loop over the inputs when signatures are expected. *)
Fixpoint write_signatures (inputs : list TransactionInput) (signatures : list (list bytes)) : outcome bytes :=
  match inputs, signatures with
  | i :: inputs, s :: signatures =>
      if negb (getSignaturesCount i =? Z.of_nat (length s)) then Throw "Serialization error: unexpected signatures size"
      else rest ← write_signatures inputs signatures; Ret (put_items (pod 64) s ++ rest)
  | _, _ => Ret []
  end.

(** ... and when there are none. *)
Fixpoint no_signatures (inputs : list TransactionInput) : outcome bytes :=
  match inputs with
  | [] => Ret []
  | i :: inputs =>
      if getSignaturesCount i =? 0 then no_signatures inputs else Throw "Serialization error: signatures are not expected"
  end.

Definition write_transaction (tx : Transaction) : outcome bytes :=
  prefix ← write_prefix tx;
  sigs ←
    (if bool_decide (tx_signatures tx = []) then no_signatures (tx_inputs tx)
     else if negb (length (tx_inputs tx) =? length (tx_signatures tx))%nat then
       Throw "Serialization error: unexpected signatures size"
     else write_signatures (tx_inputs tx) (tx_signatures tx));
  Ret (prefix ++ sigs).

Fixpoint read_signatures (inputs : list TransactionInput) (inp : bytes) : outcome (list (list bytes) * bytes) :=
  match inputs with
  | [] => Ret ([], inp)
  | i :: inputs =>
      '(s, inp) ← get (array (pod 64) (Z.to_nat (getSignaturesCount i))) inp;
      '(signatures, inp) ← read_signatures inputs inp;
      Ret (s :: signatures, inp)
  end.

(** [signatures] has one entry per input, so that they are expected unless there is no input. *)
Definition read_transaction (inp : bytes) : outcome (Transaction * bytes) :=
  '(tx, inp) ← read_prefix inp;
  '(signatures, inp) ← read_signatures (tx_inputs tx) inp;
  Ret (mkTransaction (tx_version tx) (tx_unlockTime tx) (tx_inputs tx) (tx_outputs tx) (tx_extra tx) signatures, inp).

(** [toBinaryArray] and [fromBinaryArray]: [None] is [false]. *)
Definition toBinaryArray (tx : Transaction) : option bytes := catch (write_transaction tx).

Definition fromBinaryArray (ba : bytes) : option Transaction :=
  match catch (read_transaction ba) with Some (tx, []) => Some tx | _ => None end.

Definition getBinaryArrayHash (ba : bytes) : Hash := cn_fast_hash ba.

Definition getObjectHash (tx : Transaction) : Hash :=
  match toBinaryArray tx with Some ba => getBinaryArrayHash ba | None => NULL_HASH end.

Definition getObjectBinarySize (tx : Transaction) : Z :=
  match toBinaryArray tx with Some ba => Z.of_nat (length ba) | None => UINT64_MAX end.

(** * Blocks *)

Definition u16 (x : Z) : Z := x mod 2 ^ 16.

(** [binary(&nonce, sizeof(nonce))] on a little-endian machine. *)
Definition nonce_pod : codec Z := mkCodec (write_le 4) (read_le 4 0 0).

Definition with_header (b : Block) (majorVersion minorVersion nonce timestamp : Z) (previousBlockHash : Hash) : Block :=
  mkBlock majorVersion minorVersion nonce timestamp previousBlockHash (b_parentBlock b) (b_baseTransaction b) (b_transactionHashes b).

(** [serializeBlockHeader]. *)
Definition write_header (b : Block) : outcome bytes :=
  if BLOCK_MAJOR_VERSION_10 <? b_majorVersion b then Throw "Wrong major version"
  else if b_majorVersion b =? BLOCK_MAJOR_VERSION_1 then
    Ret (put (varint 8) (b_majorVersion b) ++ put (varint 8) (b_minorVersion b) ++ put (varint 64) (b_timestamp b)
         ++ put (pod 32) (b_previousBlockHash b) ++ put nonce_pod (b_nonce b))
  else if BLOCK_MAJOR_VERSION_2 <=? b_majorVersion b then
    Ret (put (varint 8) (b_majorVersion b) ++ put (varint 8) (b_minorVersion b) ++ put (pod 32) (b_previousBlockHash b))
  else Throw "Wrong major version".

(** What is not read keeps its value in the object. *)
Definition read_header (b : Block) (inp : bytes) : outcome (Block * bytes) :=
  '(major_version, inp) ← get (varint 8) inp;
  if BLOCK_MAJOR_VERSION_10 <? major_version then Throw "Wrong major version"
  else
    '(minor_version, inp) ← get (varint 8) inp;
    if major_version =? BLOCK_MAJOR_VERSION_1 then
      '(timestamp, inp) ← get (varint 64) inp;
      '(prev_id, inp) ← get (pod 32) inp;
      '(nonce, inp) ← get nonce_pod inp;
      Ret (with_header b major_version minor_version nonce timestamp prev_id, inp)
    else if BLOCK_MAJOR_VERSION_2 <=? major_version then
      '(prev_id, inp) ← get (pod 32) inp;
      Ret (with_header b major_version minor_version (b_nonce b) (b_timestamp b) prev_id, inp)
    else Throw "Wrong major version".

Definition getMergeMiningTagFromExtra (tx_extra : bytes) : option (Z * Hash) :=
  head (omap (fun f => match f with ExtraMergeMiningTag depth root => Some (depth, root) | _ => None end)
          (parseTransactionExtra tx_extra).2).

(** The depth of the merge mining tag of the parent's miner transaction. *)
Definition mm_depth (tx : Transaction) : outcome Z :=
  match getMergeMiningTagFromExtra (tx_extra tx) with
  | None => Throw "Can't get extra merge mining tag"
  | Some (depth, _) => if 8 * 32 <? depth then Throw "Wrong merge mining tag depth" else Ret depth
  end.

(** [ParentBlockSerializer] on the output serializer; [txNum] is the number of transactions as it is
    written, which the code takes from the parent block. *)
Definition write_parent (hashingSerialization headerOnly : bool) (txNum : Z) (b : Block) : outcome bytes :=
  let p := b_parentBlock b in
  merkleRoot ←
    (if hashingSerialization then
       match toBinaryArray (pb_baseTransaction p) with
       | None => Throw "Get transaction hash error"
       | Some ba => tree_hash_from_branch (pb_baseTransactionBranch p) (length (pb_baseTransactionBranch p)) (getBinaryArrayHash ba) None
       end
     else Ret []);
  let head := put (varint 8) (pb_majorVersion p) ++ put (varint 8) (pb_minorVersion p) ++ put (varint 64) (b_timestamp b)
              ++ put (pod 32) (pb_previousBlockHash p) ++ put nonce_pod (b_nonce b) ++ merkleRoot ++ put (varint 64) txNum in
  if pb_transactionCount p <? 1 then Throw "Wrong transactions number"
  else if headerOnly then Ret head
  else
    branchSize ← tree_depth (pb_transactionCount p);
    if negb (Z.of_nat (length (pb_baseTransactionBranch p)) =? branchSize) then Throw "Wrong miner transaction branch size"
    else
      minerTx ← write_transaction (pb_baseTransaction p);
      depth ← mm_depth (pb_baseTransaction p);
      if negb (depth =? Z.of_nat (length (pb_blockchainBranch p))) then
        Throw "Blockchain branch size must be equal to merge mining tag depth"
      else Ret (head ++ put_items (pod 32) (pb_baseTransactionBranch p) ++ minerTx ++ put_items (pod 32) (pb_blockchainBranch p)).

(** ... and on the input serializer, which is only used for whole blocks. *)
Definition read_parent (b : Block) (inp : bytes) : outcome (Block * bytes) :=
  '(majorVersion, inp) ← get (varint 8) inp;
  '(minorVersion, inp) ← get (varint 8) inp;
  '(timestamp, inp) ← get (varint 64) inp;
  '(prevId, inp) ← get (pod 32) inp;
  '(nonce, inp) ← get nonce_pod inp;
  '(txNum, inp) ← get (varint 64) inp;
  let transactionCount := u16 txNum in
  if transactionCount <? 1 then Throw "Wrong transactions number"
  else
    branchSize ← tree_depth transactionCount;
    '(branch, inp) ← get (array (pod 32) (Z.to_nat branchSize)) inp;
    '(minerTx, inp) ← read_transaction inp;
    depth ← mm_depth minerTx;
    '(blockchainBranch, inp) ← get (array (pod 32) (Z.to_nat depth)) inp;
    Ret (mkBlock (b_majorVersion b) (b_minorVersion b) nonce timestamp (b_previousBlockHash b)
           (mkParentBlock majorVersion minorVersion prevId transactionCount branch minerTx blockchainBranch)
           (b_baseTransaction b) (b_transactionHashes b), inp).

(** [serialize(Block&)]. *)
Definition write_block_as (txNum : Z) (b : Block) : outcome bytes :=
  header ← write_header b;
  parent ← (if BLOCK_MAJOR_VERSION_2 <=? b_majorVersion b then write_parent false false txNum b else Ret []);
  minerTx ← write_transaction (b_baseTransaction b);
  Ret (header ++ parent ++ minerTx ++ put (vector (pod 32)) (b_transactionHashes b)).

Definition write_block (b : Block) : outcome bytes := write_block_as (pb_transactionCount (b_parentBlock b)) b.

Definition read_block (b : Block) (inp : bytes) : outcome (Block * bytes) :=
  '(b, inp) ← read_header b inp;
  '(b, inp) ← (if BLOCK_MAJOR_VERSION_2 <=? b_majorVersion b then read_parent b inp else Ret (b, inp));
  '(minerTx, inp) ← read_transaction inp;
  '(tx_hashes, inp) ← get (vector (pod 32)) inp;
  Ret (mkBlock (b_majorVersion b) (b_minorVersion b) (b_nonce b) (b_timestamp b) (b_previousBlockHash b) (b_parentBlock b)
         minerTx tx_hashes, inp).

(** [fromBinaryArray] into the block [b]. *)
Definition blockFromBinaryArray (b : Block) (ba : bytes) : option Block :=
  match catch (read_block b ba) with Some (b, []) => Some b | _ => None end.

(** * Block hashes *)

Definition get_tx_tree_hash (b : Block) : outcome Hash := tree_hash (getObjectHash (b_baseTransaction b) :: b_transactionHashes b).

(** [None] is [false]. *)
Definition get_block_hashing_blob (b : Block) : outcome (option bytes) :=
  match catch (write_header b) with
  | None => Ret None
  | Some ba =>
      treeRootHash ← get_tx_tree_hash b;
      Ret (Some (ba ++ treeRootHash ++ write_varint (Z.of_nat (length (b_transactionHashes b)) + 1)))
  end.

Definition get_parent_block_hashing_blob (b : Block) : option bytes :=
  catch (write_parent true true (pb_transactionCount (b_parentBlock b)) b).

(** [getObjectHash] of a byte array hashes it with its length in front. *)
Definition blob_hash (ba : bytes) : Hash := getBinaryArrayHash (write_string ba).

Definition get_block_hash (b : Block) : outcome (option Hash) :=
  r ← get_block_hashing_blob b;
  match r with
  | None => Ret None
  | Some ba =>
      if BLOCK_MAJOR_VERSION_2 <=? b_majorVersion b then
        Ret (match catch (write_parent true false (pb_transactionCount (b_parentBlock b)) b) with
             | None => None
             | Some parent_blob => Some (blob_hash (ba ++ parent_blob))
             end)
      else Ret (Some (blob_hash ba))
  end.

Definition get_aux_block_header_hash (b : Block) : outcome (option Hash) :=
  r ← get_block_hashing_blob b; Ret (match r with None => None | Some blob => Some (blob_hash blob) end).

(** * Every value has one encoding *)

Definition wf_BaseInput (g : BaseInput) : Prop := is_uint 32 (bi_blockIndex g).
Definition wf_ring (offsets : list Z) : Prop := is_vector (is_uint 32) offsets.
Definition wf_KeyInput (k : KeyInput) : Prop :=
  is_uint 64 (ki_amount k) /\ wf_ring (ki_outputIndexes k) /\ is_pod 32 (ki_keyImage k).
Definition wf_MultisignatureInput (m : MultisignatureInput) : Prop :=
  is_uint 64 (mi_amount m) /\ is_uint 8 (mi_signatureCount m) /\ is_uint 32 (mi_outputIndex m) /\ is_uint 32 (mi_term m).
Definition wf_CommitmentSpend (i : TransactionInputCommitmentSpend) : Prop :=
  is_uint 64 (cs_amount i) /\ wf_ring (cs_outputIndexes i) /\ is_pod 32 (cs_keyImage i) /\ is_uint 64 (cs_claimedInterest i).
Definition wf_CommitmentTransfer (i : TransactionInputCommitmentTransfer) : Prop :=
  is_uint 64 (ct_amount i) /\ wf_ring (ct_outputIndexes i) /\ is_pod 32 (ct_keyImage i) /\ is_uint 32 (ct_newTerm i).
Definition wf_InputUnified (i : TransactionInputUnified) : Prop :=
  wf_ring (iu_outputIndexes i) /\ is_pod 32 (iu_keyImage i) /\ is_pod 32 (iu_pseudoCommitment i) /\ is_pod 32 (iu_sigC0 i).
Definition wf_TransactionInput (i : TransactionInput) : Prop :=
  match i with
  | InBase v => wf_BaseInput v
  | InKey v => wf_KeyInput v
  | InMultisignature v => wf_MultisignatureInput v
  | InCommitmentSpend v => wf_CommitmentSpend v
  | InCommitmentTransfer v => wf_CommitmentTransfer v
  | InUnified v => wf_InputUnified v
  end.

Definition wf_KeyOutput (o : KeyOutput) : Prop := is_pod 32 (ko_key o).
Definition wf_MultisignatureOutput (o : MultisignatureOutput) : Prop :=
  is_vector (is_pod 32) (mo_keys o) /\ is_uint 8 (mo_requiredSignatureCount o) /\ is_uint 32 (mo_term o).
Definition wf_MembershipProof (p : MembershipProof) : Prop :=
  is_array (is_pod 32) FUEGO_MEMBERSHIP_N (mp_e p) /\ is_array (is_pod 32) FUEGO_MEMBERSHIP_N (mp_s p).
Definition wf_OutputCommitment (o : TransactionOutputCommitment) : Prop :=
  is_pod 32 (oc_commitKey o) /\ is_uint 32 (oc_term o) /\ is_pod 32 (oc_amountCommitment o) /\ wf_MembershipProof (oc_amountProof o).
Definition wf_OutputUnified (o : TransactionOutputUnified) : Prop :=
  is_pod 32 (ou_key o) /\ is_uint 32 (ou_term o) /\ is_pod 32 (ou_commitment o) /\ wf_MembershipProof (ou_proof o).
Definition wf_OutputTarget (o : TransactionOutputTarget) : Prop :=
  match o with
  | OutKey v => wf_KeyOutput v
  | OutMultisignature v => wf_MultisignatureOutput v
  | OutCommitment v => wf_OutputCommitment v
  | OutUnified v => wf_OutputUnified v
  end.
Definition wf_TransactionOutput (o : TransactionOutput) : Prop := is_uint 64 (out_amount o) /\ wf_OutputTarget (out_target o).

(** Read the fields back one after another; and take the equation of a reader apart field by field. *)
Ltac fields_back := rewrite <- ?app_assoc; repeat (rewrite get_put by eassumption; rewrite outcome_bind_ret).

Ltac fields_read :=
  repeat match goal with
  | H : (get ?c ?inp ≫= _) = Ret _ |- _ =>
      let x := fresh "x" in let i := fresh "i" in let E := fresh "E" in let Hw := fresh "Hw" in
      apply outcome_bind_inv in H as ([x i] & E & H); apply put_get in E as (Hw & -> & ?); [| assumption]
  | H : Ret _ = Ret _ |- _ => injection H as <- <-
  end.

(** A codec of a struct: both laws follow from those of the fields. *)
Ltac struct_lawful :=
  match goal with |- Lawful ?c ?w => unfold c, w end; split; cbn [put get];
  [ let Hwf := fresh in intros [] ? Hwf; cbn in Hwf |- *; destruct_and?; by fields_back
  | let H := fresh in let Hb := fresh in intros ? ? ? Hb H; fields_read; cbn; rewrite <- ?app_assoc; by split_and! ].

#[export] Instance varint_vector_lawful : Lawful varint_vector wf_ring.
Proof. apply vector_lawful; apply _. Qed.

#[local] Arguments varint : simpl never.
#[local] Arguments varint_vector : simpl never.
#[local] Arguments vector : simpl never.
#[local] Arguments array : simpl never.
#[local] Arguments pod : simpl never.
#[local] Arguments blob : simpl never.
#[local] Arguments is_uint : simpl never.
#[local] Arguments is_pod : simpl never.
#[local] Arguments is_array : simpl never.
#[local] Arguments is_vector : simpl never.
#[local] Arguments wf_ring : simpl never.

#[export] Instance BaseInput_lawful : Lawful serialize_BaseInput wf_BaseInput.
Proof. struct_lawful. Qed.

#[export] Instance KeyInput_lawful : Lawful serialize_KeyInput wf_KeyInput.
Proof. struct_lawful. Qed.

#[export] Instance MultisignatureInput_lawful : Lawful serialize_MultisignatureInput wf_MultisignatureInput.
Proof. struct_lawful. Qed.

#[export] Instance CommitmentSpend_lawful : Lawful serialize_CommitmentSpend wf_CommitmentSpend.
Proof. struct_lawful. Qed.

#[export] Instance CommitmentTransfer_lawful : Lawful serialize_CommitmentTransfer wf_CommitmentTransfer.
Proof. struct_lawful. Qed.

#[export] Instance InputUnified_lawful : Lawful serialize_InputUnified wf_InputUnified.
Proof. struct_lawful. Qed.

#[export] Instance KeyOutput_lawful : Lawful serialize_KeyOutput wf_KeyOutput.
Proof. struct_lawful. Qed.

#[export] Instance MultisignatureOutput_lawful : Lawful serialize_MultisignatureOutput wf_MultisignatureOutput.
Proof. struct_lawful. Qed.

#[export] Instance MembershipProof_lawful : Lawful pod_MembershipProof wf_MembershipProof.
Proof. struct_lawful. Qed.

#[local] Arguments pod_MembershipProof : simpl never.
#[local] Arguments wf_MembershipProof : simpl never.

#[export] Instance OutputCommitment_lawful : Lawful serialize_OutputCommitment wf_OutputCommitment.
Proof. struct_lawful. Qed.

#[export] Instance OutputUnified_lawful : Lawful serialize_OutputUnified wf_OutputUnified.
Proof. struct_lawful. Qed.

(** The codec of a variant: the tag selects the alternative. *)
Ltac variant_read :=
  repeat match goal with
  | H : (if ?tag =? ?n then _ else _) = Ret _ |- _ => destruct (Z.eqb_spec tag n); [subst tag; fields_read; by split_and! |]
  | H : Throw _ = Ret _ |- _ => discriminate H
  end.

Ltac variant_lawful :=
  match goal with |- Lawful ?c _ => unfold c end; split; cbn [put get];
  [ intros [] ? ?; cbn [app read_u8]; rewrite outcome_bind_ret;
    repeat match goal with |- context [?m =? ?n] => change (m =? n) with false || change (m =? n) with true end;
    cbv iota; by rewrite get_put
  | intros ? ? ? Hb H; apply outcome_bind_inv in H as ([tag i] & E & H);
    match goal with E : read_u8 ?inp = _ |- _ => destruct inp; cbn [read_u8] in E; [discriminate E | injection E as -> ->] end;
    apply Forall_cons in Hb as [_ Hb]; variant_read ].

#[export] Instance TransactionInput_lawful : Lawful serialize_TransactionInput wf_TransactionInput.
Proof. variant_lawful. Qed.

#[export] Instance OutputTarget_lawful : Lawful serialize_OutputTarget wf_OutputTarget.
Proof. variant_lawful. Qed.

#[local] Arguments serialize_OutputTarget : simpl never.

#[export] Instance TransactionOutput_lawful : Lawful serialize_TransactionOutput wf_TransactionOutput.
Proof. struct_lawful. Qed.

#[export] Instance TransactionInput_consuming : Consuming serialize_TransactionInput wf_TransactionInput.
Proof. split; [by intros [] | done]. Qed.

#[export] Instance TransactionOutput_consuming : Consuming serialize_TransactionOutput wf_TransactionOutput.
Proof.
  split; [| done]. intros o _. cbn [put serialize_TransactionOutput]. intros [Hn _]%app_eq_nil. by apply writeVarint_pos in Hn.
Qed.

#[export] Instance inputs_lawful : Lawful (vector serialize_TransactionInput) (is_vector wf_TransactionInput).
Proof. apply vector_lawful; apply _. Qed.

#[export] Instance outputs_lawful : Lawful (vector serialize_TransactionOutput) (is_vector wf_TransactionOutput).
Proof. apply vector_lawful; apply _. Qed.

Definition wf_prefix (tx : Transaction) : Prop :=
  0 <= tx_version tx <= TRANSACTION_VERSION_2 /\ is_uint 64 (tx_unlockTime tx)
  /\ is_vector wf_TransactionInput (tx_inputs tx) /\ is_vector wf_TransactionOutput (tx_outputs tx) /\ is_blob (tx_extra tx).

(** One list of signatures per input, as many as the input asks for. *)
Definition signed (inputs : list TransactionInput) (signatures : list (list bytes)) : Prop :=
  Forall2 (fun i s => is_array (is_pod 64) (Z.to_nat (getSignaturesCount i)) s) inputs signatures.

Definition wf_Transaction (tx : Transaction) : Prop :=
  wf_prefix tx /\ (signed (tx_inputs tx) (tx_signatures tx)
                   \/ tx_signatures tx = [] /\ Forall (fun i => getSignaturesCount i = 0) (tx_inputs tx)).

(** No list at all stands for one empty list per input. *)
Definition with_signatures (tx : Transaction) (signatures : list (list bytes)) : Transaction :=
  mkTransaction (tx_version tx) (tx_unlockTime tx) (tx_inputs tx) (tx_outputs tx) (tx_extra tx) signatures.

Definition normal (tx : Transaction) : Transaction :=
  with_signatures tx (if decide (tx_signatures tx = []) then replicate (length (tx_inputs tx)) [] else tx_signatures tx).

Lemma signatures_count_nonneg i : wf_TransactionInput i -> 0 <= getSignaturesCount i.
Proof. destruct i as [b | k | m | s | s | u]; cbn; try lia. intros (_ & Hc & _). unfold is_uint in Hc. lia. Qed.

Lemma read_write_prefix tx :
  wf_prefix tx -> exists ba, write_prefix tx = Ret ba
    /\ forall rest, read_prefix (ba ++ rest) = Ret (with_signatures tx [], rest).
Proof.
  intros (Hv & Hu & Hi & Ho & He). unfold write_prefix, check_version.
  assert (Hver : (TRANSACTION_VERSION_2 <? tx_version tx) = false) by (apply Z.ltb_ge; lia). rewrite Hver, outcome_bind_ret.
  eexists. split; [done |]. intros rest. unfold read_prefix, check_version.
  assert (is_uint 8 (tx_version tx)) by (unfold is_uint, TRANSACTION_VERSION_2 in *; lia).
  rewrite <- ?app_assoc, get_put by done. rewrite outcome_bind_ret, Hver, outcome_bind_ret. by fields_back.
Qed.

Lemma read_prefix_unique inp tx rest :
  Forall is_byte inp -> read_prefix inp = Ret (tx, rest) ->
  wf_prefix tx /\ tx_signatures tx = [] /\ (exists ba, write_prefix tx = Ret ba /\ inp = ba ++ rest) /\ Forall is_byte rest.
Proof.
  intros Hb H. unfold read_prefix in H. apply outcome_bind_inv in H as ([v i] & E & H).
  apply put_get in E as (Hv & -> & Hb1); [| done]. apply outcome_bind_inv in H as ([] & Hver & H). fields_read.
  unfold check_version in Hver. destruct (Z.ltb_spec TRANSACTION_VERSION_2 v); [done |]. unfold is_uint in Hv.
  split; [by split_and!; cbn; try lia |]. split; [done |]. split; [| done].
  unfold write_prefix, check_version. cbn [tx_version]. rewrite (proj2 (Z.ltb_ge _ _)), outcome_bind_ret by done.
  eexists. split; [done |]. cbn. by rewrite <- !app_assoc.
Qed.

Lemma read_write_signatures ins sigs :
  Forall wf_TransactionInput ins -> signed ins sigs ->
  exists ba, write_signatures ins sigs = Ret ba /\ forall rest, read_signatures ins (ba ++ rest) = Ret (sigs, rest).
Proof.
  intros Hw Hs. induction Hs as [| i s ins sigs [Hn Hp] _ IH]; [by exists [] |]. cbn [write_signatures read_signatures].
  apply Forall_cons in Hw as [Hi Hw]. pose proof (signatures_count_nonneg i Hi). destruct (IH Hw) as (ba & -> & Hr).
  rewrite (proj2 (Z.eqb_eq _ _)) by lia. cbn [negb]. rewrite outcome_bind_ret. eexists. split; [done |]. intros rest.
  rewrite <- app_assoc. change (put_items (pod 64) s) with (put (array (pod 64) (Z.to_nat (getSignaturesCount i))) s).
  rewrite get_put by done. by rewrite outcome_bind_ret, Hr, outcome_bind_ret.
Qed.

Lemma read_signatures_unique ins inp sigs rest :
  Forall wf_TransactionInput ins -> Forall is_byte inp -> read_signatures ins inp = Ret (sigs, rest) ->
  signed ins sigs /\ (exists ba, write_signatures ins sigs = Ret ba /\ inp = ba ++ rest) /\ Forall is_byte rest.
Proof.
  intros Hw. revert inp sigs. induction Hw as [| i ins Hi Hw IH]; intros inp sigs Hb H; cbn [read_signatures] in H.
  { injection H as <- <-. split; [constructor |]. split; [by exists [] | done]. }
  apply outcome_bind_inv in H as ([s i1] & E & H). apply put_get in E as ([Hn Hp] & -> & Hb1); [| done].
  apply outcome_bind_inv in H as ([l i2] & E & H). injection H as <- <-.
  apply IH in E as (Hs & (ba & Hba & ->) & Hb2); [| done]. pose proof (signatures_count_nonneg i Hi).
  split; [by constructor |]. split; [| done]. cbn [write_signatures]. rewrite (proj2 (Z.eqb_eq _ _)) by lia.
  cbn [negb]. rewrite Hba, outcome_bind_ret. eexists. split; [done |]. by rewrite <- app_assoc.
Qed.

Lemma no_signatures_zero ins :
  Forall (fun i => getSignaturesCount i = 0) ins ->
  no_signatures ins = Ret [] /\ forall rest, read_signatures ins rest = Ret (replicate (length ins) [], rest).
Proof.
  induction 1 as [| i ins Hi _ [IH1 IH2]]; [done |]. cbn [no_signatures read_signatures length replicate]. rewrite Hi.
  split; [done |]. intros rest. change (get (array (pod 64) (Z.to_nat 0)) rest) with (Ret ([] : list bytes, rest)).
  by rewrite outcome_bind_ret, IH2.
Qed.

Lemma signed_length ins sigs : signed ins sigs -> length ins = length sigs.
Proof. apply Forall2_length. Qed.

Lemma read_write_transaction tx :
  wf_Transaction tx -> exists ba, write_transaction tx = Ret ba
    /\ forall rest, read_transaction (ba ++ rest) = Ret (normal tx, rest).
Proof.
  intros [Hp Hs]. destruct (read_write_prefix tx Hp) as (ba & Hw & Hr). destruct Hp as (_ & _ & [_ Hi] & _).
  assert (Hsigs : exists bs,
    (if bool_decide (tx_signatures tx = []) then no_signatures (tx_inputs tx)
     else if negb (length (tx_inputs tx) =? length (tx_signatures tx))%nat then
       Throw "Serialization error: unexpected signatures size"
     else write_signatures (tx_inputs tx) (tx_signatures tx)) = Ret bs
    /\ forall rest, read_signatures (tx_inputs tx) (bs ++ rest) = Ret (tx_signatures (normal tx), rest)).
  { unfold normal. cbn [tx_signatures with_signatures]. destruct (decide (tx_signatures tx = [])) as [He | Hne].
    - rewrite bool_decide_true by done. assert (Hz : Forall (fun i => getSignaturesCount i = 0) (tx_inputs tx)).
      { destruct Hs as [Hs | [_ ?]]; [| done]. rewrite He in Hs. apply signed_length in Hs. by destruct (tx_inputs tx). }
      apply no_signatures_zero in Hz as [-> Hz]. by exists [].
    - rewrite bool_decide_false by done. destruct Hs as [Hs | [? _]]; [| done].
      rewrite (signed_length _ _ Hs), Nat.eqb_refl. cbn [negb]. by apply read_write_signatures. }
  destruct Hsigs as (bs & Hwb & Hrb). exists (ba ++ bs). unfold write_transaction, read_transaction.
  rewrite Hw, outcome_bind_ret, Hwb, outcome_bind_ret. split; [done |]. intros rest.
  rewrite <- app_assoc, Hr, outcome_bind_ret. cbn [tx_inputs with_signatures]. by rewrite Hrb, outcome_bind_ret.
Qed.

Lemma read_transaction_unique inp tx rest :
  Forall is_byte inp -> read_transaction inp = Ret (tx, rest) ->
  wf_Transaction tx /\ normal tx = tx /\ (exists ba, write_transaction tx = Ret ba /\ inp = ba ++ rest) /\ Forall is_byte rest.
Proof.
  intros Hb H. unfold read_transaction in H. apply outcome_bind_inv in H as ([p i] & E & H).
  apply read_prefix_unique in E as (Hp & _ & (ba & Hba & ->) & Hb1); [| done].
  apply outcome_bind_inv in H as ([s i2] & E & H). injection H as <- <-.
  apply read_signatures_unique in E as (Hs & (bs & Hbs & ->) & Hb2); [| apply Hp | done].
  pose proof (signed_length _ _ Hs) as Hl. split; [split; [done | by left] |]. split; [| split; [| done]].
  - unfold normal, with_signatures. cbn. destruct (decide (s = [])) as [-> |]; [| done]. cbn in Hl. by rewrite Hl.
  - exists (ba ++ bs). split; [| by rewrite <- app_assoc]. unfold write_transaction. cbn [tx_signatures tx_inputs].
    change (write_prefix _) with (write_prefix p). rewrite Hba, outcome_bind_ret. case_bool_decide as He.
    + subst s. destruct (tx_inputs p); [| done]. cbn in Hbs. injection Hbs as <-. done.
    + by rewrite Hl, Nat.eqb_refl, Hbs.
Qed.

(** C31: the binary format of transactions is unambiguous.  A transaction whose fields fit their types,
    with the signatures its inputs ask for (or none at all when they ask for none), is written, and
    reading the blob gives it back, with an empty list of signatures per input where there was no
    list.  Conversely whatever byte string is accepted is the one that the transaction read from it
    is written to: no other blob gives the same transaction, so that the hash of the transaction is
    the hash of the bytes received. *)
Theorem transaction_codec :
  (forall tx, wf_Transaction tx -> exists ba, toBinaryArray tx = Some ba /\ fromBinaryArray ba = Some (normal tx))
  /\ (forall ba tx, Forall is_byte ba -> fromBinaryArray ba = Some tx ->
      wf_Transaction tx /\ toBinaryArray tx = Some ba /\ getObjectHash tx = getBinaryArrayHash ba).
Proof.
  split.
  - intros tx (ba & Hw & Hr)%read_write_transaction. exists ba. unfold toBinaryArray, fromBinaryArray. rewrite Hw.
    split; [done |]. specialize (Hr []). rewrite app_nil_r in Hr. by rewrite Hr.
  - intros ba tx Hb. unfold fromBinaryArray. destruct (read_transaction ba) as [[t rest] | | |] eqn:E; try done.
    cbn [catch]. destruct rest; [| done]. intros [= ->].
    apply read_transaction_unique in E as (Hw & _ & (b & Hba & ->) & _); [| done]. rewrite app_nil_r.
    unfold getObjectHash, toBinaryArray. by rewrite Hba.
Qed.

(** * Blocks: the same up to the number of transactions of the parent *)

Lemma read_le_unique n i value inp v rest :
  0 <= i -> 0 <= value < 2 ^ (i * 8) -> Forall is_byte inp -> read_le n i value inp = Ret (v, rest) ->
  exists x, v = value + x * 2 ^ (i * 8) /\ 0 <= x < 2 ^ (8 * Z.of_nat n) /\ inp = write_le n x ++ rest.
Proof.
  revert i value inp. induction n as [| n IH]; intros i value inp Hi Hv Hb H; cbn [read_le write_le] in *.
  - injection H as <- <-. exists 0. split; [lia |]. split; [change (2 ^ (8 * Z.of_nat 0)) with 1; lia | done].
  - destruct inp as [| b inp]; [done |]. cbn [read_u8] in H. rewrite outcome_bind_ret in H.
    apply Forall_cons in Hb as [Hb Hbs]. unfold is_byte in Hb. rewrite lor_piece in H by lia.
    assert (Hp : 2 ^ ((i + 1) * 8) = 256 * 2 ^ (i * 8)) by (replace ((i + 1) * 8) with (8 + i * 8) by lia; rewrite Z.pow_add_r by lia; done).
    apply IH in H as (x & -> & Hx & ->); [| lia | rewrite Hp; nia | done].
    exists (b + 256 * x). change 0xFF with (Z.ones 8). rewrite Z.land_ones, Z.shiftr_div_pow2 by lia. change (2 ^ 8) with 256.
    replace ((b + 256 * x) mod 256) with b by (rewrite Z.mul_comm, Z_mod_plus_full; symmetry; apply Z.mod_small; lia).
    replace ((b + 256 * x) / 256) with x by (rewrite Z.mul_comm, Z_div_plus_full, Z.div_small by lia; lia).
    rewrite Hp, Nat2Z.inj_succ. replace (8 * Z.succ (Z.of_nat n)) with (8 + 8 * Z.of_nat n) by lia.
    rewrite Z.pow_add_r by lia. change (2 ^ 8) with 256. split; [nia |]. split; [lia | done].
Qed.

#[export] Instance nonce_lawful : Lawful nonce_pod (is_uint 32).
Proof.
  split; cbn [put get nonce_pod].
  - intros a rest Ha. rewrite read_le_app by (lia || done). do 2 f_equal. change (2 ^ (0 * 8)) with 1. lia.
  - intros inp a rest Hb H. apply read_le_unique in H as (x & -> & Hx & ->); [| lia | lia | done].
    apply Forall_app in Hb as [_ ?]. replace (0 + x * 2 ^ (0 * 8)) with x by (change (2 ^ (0 * 8)) with 1; lia). done.
Qed.

#[export] Instance hashes_lawful : Lawful (vector (pod 32)) (is_vector (is_pod 32)).
Proof. apply vector_lawful; apply _. Qed.

#[local] Arguments nonce_pod : simpl never.

Definition wf_header (b : Block) : Prop :=
  1 <= b_majorVersion b <= BLOCK_MAJOR_VERSION_10 /\ is_uint 8 (b_minorVersion b) /\ is_uint 32 (b_nonce b)
  /\ is_uint 64 (b_timestamp b) /\ is_pod 32 (b_previousBlockHash b).

(** A parent block that can be written: the branches have the lengths that the number of transactions
    and the merge mining tag give. *)
Definition wf_parent (p : ParentBlock) : Prop :=
  is_uint 8 (pb_majorVersion p) /\ is_uint 8 (pb_minorVersion p) /\ is_pod 32 (pb_previousBlockHash p)
  /\ 1 <= pb_transactionCount p < 2 ^ 16
  /\ tree_depth (pb_transactionCount p) = Ret (Z.of_nat (length (pb_baseTransactionBranch p)))
  /\ Forall (is_pod 32) (pb_baseTransactionBranch p)
  /\ wf_Transaction (pb_baseTransaction p) /\ normal (pb_baseTransaction p) = pb_baseTransaction p
  /\ mm_depth (pb_baseTransaction p) = Ret (Z.of_nat (length (pb_blockchainBranch p)))
  /\ Forall (is_pod 32) (pb_blockchainBranch p).

Definition wf_Block (b : Block) : Prop :=
  wf_header b /\ (BLOCK_MAJOR_VERSION_2 <= b_majorVersion b -> wf_parent (b_parentBlock b))
  /\ wf_Transaction (b_baseTransaction b) /\ normal (b_baseTransaction b) = b_baseTransaction b
  /\ is_vector (is_pod 32) (b_transactionHashes b).

(** The versions that carry a parent block. *)
Lemma version_cases v :
  1 <= v <= BLOCK_MAJOR_VERSION_10 ->
  (BLOCK_MAJOR_VERSION_10 <? v) = false
  /\ (v = 1 /\ (v =? BLOCK_MAJOR_VERSION_1) = true /\ (BLOCK_MAJOR_VERSION_2 <=? v) = false
      \/ 2 <= v /\ (v =? BLOCK_MAJOR_VERSION_1) = false /\ (BLOCK_MAJOR_VERSION_2 <=? v) = true).
Proof. unfold BLOCK_MAJOR_VERSION_10, BLOCK_MAJOR_VERSION_2, BLOCK_MAJOR_VERSION_1. intros Hv. lia. Qed.

(** The parent block and what belongs to the block in its place. *)
Definition with_parent (b0 b : Block) : Block :=
  mkBlock (b_majorVersion b0) (b_minorVersion b0) (b_nonce b) (b_timestamp b) (b_previousBlockHash b0) (b_parentBlock b)
    (b_baseTransaction b0) (b_transactionHashes b0).

Lemma read_write_parent txNum b :
  wf_header b -> wf_parent (b_parentBlock b) -> is_uint 64 txNum -> u16 txNum = pb_transactionCount (b_parentBlock b) ->
  exists ba, write_parent false false txNum b = Ret ba
    /\ forall b0 rest, read_parent b0 (ba ++ rest) = Ret (with_parent b0 b, rest).
Proof.
  intros (_ & _ & Hno & Hts & _) (Hma & Hmi & Hpr & Hc & Hd & Hbr & Hw & Hnm & Hmm & Hbb) Hn Hu.
  destruct (read_write_transaction _ Hw) as (ba & Hwt & Hrt). rewrite Hnm in Hrt.
  unfold write_parent. rewrite outcome_bind_ret. rewrite (proj2 (Z.ltb_ge _ _)) by lia.
  rewrite Hd, outcome_bind_ret, Z.eqb_refl. cbn [negb]. rewrite Hwt, outcome_bind_ret, Hmm, outcome_bind_ret, Z.eqb_refl.
  cbn [negb app]. eexists. split; [done |]. intros b0 rest. unfold read_parent. fields_back. rewrite Hu.
  rewrite (proj2 (Z.ltb_ge _ _)) by lia. rewrite Hd, outcome_bind_ret, Nat2Z.id.
  change (put_items (pod 32) (pb_baseTransactionBranch (b_parentBlock b)))
    with (put (array (pod 32) (length (pb_baseTransactionBranch (b_parentBlock b)))) (pb_baseTransactionBranch (b_parentBlock b))).
  rewrite get_put, outcome_bind_ret by done. rewrite Hrt, outcome_bind_ret, Hmm, outcome_bind_ret, Nat2Z.id.
  change (put_items (pod 32) (pb_blockchainBranch (b_parentBlock b)))
    with (put (array (pod 32) (length (pb_blockchainBranch (b_parentBlock b)))) (pb_blockchainBranch (b_parentBlock b))).
  rewrite get_put, outcome_bind_ret by done. unfold with_parent. do 3 f_equal. by destruct (b_parentBlock b).
Qed.

(** The depth of a merge mining tag is not negative. *)
Definition depth_ok (f : TransactionExtraField) : Prop :=
  match f with ExtraMergeMiningTag depth _ => 0 <= depth | _ => True end.

Lemma parse_field_depth whole c inp new rest :
  Forall is_byte inp -> parse_field whole c inp = Ret (Some new, rest) -> Forall depth_ok new.
Proof.
  intros Hb H. unfold parse_field in H.
  repeat match type of H with (if ?b then _ else _) = _ => destruct b end;
    try (repeat (apply outcome_bind_inv in H as ([? ?] & ? & H)); injection H as <- <-; by repeat constructor).
  - destruct (padding_loop 1 inp) as [[size i] |]; [destruct (_ <? size) |]; try done. injection H as <- <-. constructor; [done | constructor].
  - apply outcome_bind_inv in H as ([f i] & Hf & H). injection H as <- <-. unfold read_mm_tag in Hf.
    pose proof (reads_string (length inp) inp Hb (le_n _)) as Hs.
    apply outcome_bind_inv in Hf as ([field i2] & E & Hf). rewrite E in Hs. destruct Hs as (Hfb & _).
    apply outcome_bind_inv in Hf as ([depth f2] & E2 & Hf). apply outcome_bind_inv in Hf as ([root f3] & E3 & Hf).
    injection Hf as <- <-. apply (proj2 (varint_roundtrip 64 ltac:(lia))) in E2 as [? _]; [| done].
    constructor; [cbn; lia | constructor].
  - apply outcome_bind_inv in H as ([size i] & _ & H). destruct (_ && _); [| done].
    apply outcome_bind_inv in H as ([ba i2] & _ & H). destruct (alias_fromBinaryArray ba); [| done].
    injection H as <- <-. by repeat constructor.
  - destruct (getBurnReceiptFromExtra whole); [| done]. injection H as <- <-. by repeat constructor.
  - destruct (getDepositReceiptFromExtra whole); [| done]. injection H as <- <-. by repeat constructor.
Qed.

Lemma parse_loop_depth fuel whole inp fields :
  Forall is_byte inp -> Forall depth_ok fields -> Forall depth_ok (parse_loop fuel whole inp fields).2.
Proof.
  revert inp fields. induction fuel as [| fuel IH]; intros inp fields Hb Hf; destruct Hb as [| c inp Hc Hi]; try done.
  cbn [parse_loop]. pose proof (parse_field_throws whole c inp Hi) as Hp.
  destruct (parse_field whole c inp) as [[[new |] rest] | | |] eqn:E; try done. cbn [catch]. destruct Hp as (_ & Hr & _).
  apply IH; [done |]. apply Forall_app. split; [done | exact (parse_field_depth whole c inp new rest Hi E)].
Qed.

Lemma mm_depth_nonneg tx depth : Forall is_byte (tx_extra tx) -> mm_depth tx = Ret depth -> 0 <= depth.
Proof.
  intros Hb. unfold mm_depth, getMergeMiningTagFromExtra.
  pose proof (parse_loop_depth (length (tx_extra tx)) (tx_extra tx) (tx_extra tx) [] Hb ltac:(constructor)) as Hf.
  fold (parseTransactionExtra (tx_extra tx)) in Hf.
  induction Hf as [| f l Hf _ IH]; [done |]. cbn [omap list_omap]. destruct f; cbn [head]; try exact IH.
  destruct (_ <? depth0); [done |]. by intros [= <-].
Qed.

Lemma read_parent_unique b0 inp b rest :
  Forall is_byte inp -> read_parent b0 inp = Ret (b, rest) ->
  wf_parent (b_parentBlock b) /\ is_uint 32 (b_nonce b) /\ is_uint 64 (b_timestamp b) /\ b = with_parent b0 b
  /\ Forall is_byte rest
  /\ exists txNum ba, is_uint 64 txNum /\ u16 txNum = pb_transactionCount (b_parentBlock b)
       /\ write_parent false false txNum b = Ret ba /\ inp = ba ++ rest.
Proof.
  intros Hb H. unfold read_parent in H. fields_read. destruct (Z.ltb_spec (u16 x4) 1) as [| Hc]; [done |].
  assert (Hu : u16 x4 < 2 ^ 16) by (apply Z.mod_pos_bound; lia).
  rewrite tree_depth_log2, outcome_bind_ret in H by lia. pose proof (Z.log2_nonneg (u16 x4)) as Hlog.
  apply outcome_bind_inv in H as ([branch i5] & E & H). apply put_get in E as ([Hlb Hfb] & -> & Hb5); [| done].
  apply outcome_bind_inv in H as ([tx i6] & E & H).
  apply read_transaction_unique in E as (Hwtx & Hnm & (ba & Hba & ->) & Hb6); [| done].
  apply outcome_bind_inv in H as (depth & Hd & H). pose proof (mm_depth_nonneg tx depth ltac:(apply Hwtx) Hd) as Hd0.
  apply outcome_bind_inv in H as ([bb i7] & E & H). apply put_get in E as ([Hlbb Hfbb] & -> & Hb7); [| done].
  injection H as <- <-. cbn [b_parentBlock b_nonce b_timestamp pb_transactionCount].
  assert (Hbr : tree_depth (u16 x4) = Ret (Z.of_nat (length branch))) by (rewrite tree_depth_log2 by lia; f_equal; lia).
  assert (Hdd : mm_depth tx = Ret (Z.of_nat (length bb))) by (rewrite Hd; f_equal; lia).
  split; [unfold wf_parent; cbn; split_and!; try done; lia |]. split_and!; try done.
  exists x4. eexists. split; [done |]. split; [done |]. unfold write_parent. rewrite outcome_bind_ret.
  cbn [b_parentBlock pb_transactionCount pb_baseTransactionBranch pb_baseTransaction pb_blockchainBranch].
  rewrite (proj2 (Z.ltb_ge _ _)) by lia. rewrite Hbr, outcome_bind_ret, Z.eqb_refl. cbn [negb].
  rewrite Hba, outcome_bind_ret, Hdd, outcome_bind_ret, Z.eqb_refl. cbn [negb]. split; [done |]. by rewrite <- !app_assoc.
Qed.

Lemma read_write_header b :
  wf_header b -> exists ba, write_header b = Ret ba /\ forall b0 rest, exists b1,
    read_header b0 (ba ++ rest) = Ret (b1, rest)
    /\ b1 = with_header b0 (b_majorVersion b) (b_minorVersion b) (b_nonce b1) (b_timestamp b1) (b_previousBlockHash b)
    /\ (b_majorVersion b = 1 -> b_nonce b1 = b_nonce b /\ b_timestamp b1 = b_timestamp b).
Proof.
  intros (Hv & Hmi & Hno & Hts & Hpr). destruct (version_cases _ Hv) as [H10 Hcase]. unfold write_header. rewrite H10.
  assert (Hu : is_uint 8 (b_majorVersion b)) by (unfold is_uint, BLOCK_MAJOR_VERSION_10 in *; lia).
  destruct Hcase as [(H1 & -> & _) | (H1 & -> & ->)]; (eexists; split; [done |]; intros b0 rest);
    unfold read_header; rewrite <- ?app_assoc, get_put, outcome_bind_ret, H10, get_put, outcome_bind_ret by done.
  - rewrite (proj2 (Z.eqb_eq _ _)) by done. fields_back. by eexists.
  - rewrite (proj2 (Z.eqb_neq _ _)), (proj2 (Z.leb_le _ _)) by (unfold BLOCK_MAJOR_VERSION_1, BLOCK_MAJOR_VERSION_2; lia).
    fields_back. eexists. split; [done |]. split; [done |]. lia.
Qed.

Lemma read_header_unique b0 inp b rest :
  Forall is_byte inp -> read_header b0 inp = Ret (b, rest) ->
  1 <= b_majorVersion b <= BLOCK_MAJOR_VERSION_10 /\ is_uint 8 (b_minorVersion b) /\ is_pod 32 (b_previousBlockHash b)
  /\ b = with_header b0 (b_majorVersion b) (b_minorVersion b) (b_nonce b) (b_timestamp b) (b_previousBlockHash b)
  /\ (b_majorVersion b = 1 -> is_uint 32 (b_nonce b) /\ is_uint 64 (b_timestamp b))
  /\ Forall is_byte rest
  /\ forall b', b_majorVersion b' = b_majorVersion b -> b_minorVersion b' = b_minorVersion b ->
       b_previousBlockHash b' = b_previousBlockHash b ->
       (b_majorVersion b = 1 -> b_nonce b' = b_nonce b /\ b_timestamp b' = b_timestamp b) ->
       exists ba, write_header b' = Ret ba /\ inp = ba ++ rest.
Proof.
  intros Hb H. unfold read_header in H. apply outcome_bind_inv in H as ([v i] & E & H).
  apply put_get in E as (Hv & -> & Hb1); [| done]. destruct (Z.ltb_spec BLOCK_MAJOR_VERSION_10 v) as [| H10]; [done |].
  apply outcome_bind_inv in H as ([m i2] & E & H). apply put_get in E as (Hm & -> & Hb2); [| done]. unfold is_uint in Hv.
  destruct (Z.eqb_spec v BLOCK_MAJOR_VERSION_1) as [-> | H1]; [| destruct (Z.leb_spec BLOCK_MAJOR_VERSION_2 v) as [H2 |]; [| done]];
    fields_read; unfold BLOCK_MAJOR_VERSION_1, BLOCK_MAJOR_VERSION_2 in *; cbn [with_header b_majorVersion b_minorVersion
      b_previousBlockHash b_nonce b_timestamp]; (split_and!; [lia.. | done | done | done | | done |]).
  - done.
  - intros b' Hma Hmi Hpr Hrest. destruct (Hrest eq_refl) as [Hno Hts]. unfold write_header. rewrite Hma, Hmi, Hpr, Hno, Hts.
    eexists. split; [done |]. by rewrite <- !app_assoc.
  - lia.
  - intros b' Hma Hmi Hpr _. unfold write_header, BLOCK_MAJOR_VERSION_1, BLOCK_MAJOR_VERSION_2. rewrite Hma, Hmi, Hpr.
    rewrite (proj2 (Z.ltb_ge _ _)), (proj2 (Z.eqb_neq _ _)), (proj2 (Z.leb_le _ _)) by lia.
    eexists. split; [done |]. by rewrite <- !app_assoc.
Qed.

(** What a blob may say about the number of transactions of the parent block. *)
Definition count_as (txNum : Z) (b : Block) : Prop :=
  is_u64 txNum /\ (BLOCK_MAJOR_VERSION_2 <= b_majorVersion b -> u16 txNum = pb_transactionCount (b_parentBlock b)).

Lemma read_write_block txNum b b0 rest :
  wf_Block b -> count_as txNum b -> (b_majorVersion b = 1 -> b_parentBlock b0 = b_parentBlock b) ->
  exists ba, write_block_as txNum b = Ret ba /\ read_block b0 (ba ++ rest) = Ret (b, rest).
Proof.
  intros (Hh & Hp & Hw & Hn & Hv) [Htx Hcount] Hb0. pose proof Hh as (Hver & Hmi & Hno & Hts & Hpr).
  destruct (version_cases _ Hver) as [H10 Hcase]. destruct (read_write_header b Hh) as (hb & Hwh & Hrh).
  destruct (read_write_transaction _ Hw) as (tb & Hwt & Hrt). rewrite Hn in Hrt.
  unfold write_block_as, read_block. rewrite Hwh, outcome_bind_ret. destruct Hcase as [(H1 & _ & H2) | (H1 & _ & H2)]; rewrite H2.
  - rewrite outcome_bind_ret, Hwt, outcome_bind_ret. eexists. split; [done |]. rewrite <- !app_assoc, app_nil_l.
    destruct (Hrh b0 (tb ++ put (vector (pod 32)) (b_transactionHashes b) ++ rest)) as (b1 & -> & Hb1 & Heq).
    rewrite outcome_bind_ret, Hb1. cbn [with_header b_majorVersion]. rewrite H2, outcome_bind_ret, Hrt, outcome_bind_ret.
    rewrite get_put, outcome_bind_ret by done. destruct (Heq H1) as [-> ->]. cbn. rewrite (Hb0 H1). by destruct b.
  - destruct (read_write_parent txNum b Hh (Hp ltac:(done)) Htx (Hcount ltac:(done))) as (pb & Hwp & Hrp).
    rewrite Hwp, outcome_bind_ret, Hwt, outcome_bind_ret. eexists. split; [done |]. rewrite <- !app_assoc.
    destruct (Hrh b0 (pb ++ tb ++ put (vector (pod 32)) (b_transactionHashes b) ++ rest)) as (b1 & -> & Hb1 & _).
    rewrite outcome_bind_ret, Hb1. cbn [with_header b_majorVersion]. rewrite H2, Hrp, outcome_bind_ret, Hrt, outcome_bind_ret.
    rewrite get_put, outcome_bind_ret by done. cbn. by destruct b.
Qed.

Lemma read_block_unique b0 inp b rest :
  Forall is_byte inp -> read_block b0 inp = Ret (b, rest) ->
  wf_Block b /\ (b_majorVersion b = 1 -> b_parentBlock b0 = b_parentBlock b)
  /\ exists txNum ba, count_as txNum b /\ write_block_as txNum b = Ret ba /\ inp = ba ++ rest.
Proof.
  intros Hb E. unfold read_block in E. apply outcome_bind_inv in E as ([b1 i1] & E1 & E).
  apply read_header_unique in E1 as (Hver & Hmi & Hpr & Hb1 & H1 & Hi1 & Hwh); [| done].
  apply outcome_bind_inv in E as ([b2 i2] & E2 & E). apply outcome_bind_inv in E as ([tx i3] & E3 & E).
  apply outcome_bind_inv in E as ([hs i4] & E4 & E). injection E as <- <-.
  destruct (version_cases _ Hver) as [H10 [(Hv1 & _ & H2) | (Hv1 & _ & H2)]]; rewrite H2 in E2.
  - injection E2 as <- <-. destruct (H1 Hv1) as [Hno Hts].
    apply read_transaction_unique in E3 as (Hwt & Hn & (tb & Htb & ->) & Hi3); [| done].
    apply put_get in E4 as (Hhs & -> & Hi4); [| done]. split; [| split; [intros _; by rewrite Hb1 |]].
    + split; [done |]. cbn. unfold BLOCK_MAJOR_VERSION_2. split; [lia | done].
    + destruct (Hwh (mkBlock (b_majorVersion b1) (b_minorVersion b1) (b_nonce b1) (b_timestamp b1) (b_previousBlockHash b1)
        (b_parentBlock b1) tx hs)) as (hb & Hhb & ->); [done.. |].
      exists 0, (hb ++ [] ++ tb ++ put (vector (pod 32)) hs). split; [split; [done | cbn; unfold BLOCK_MAJOR_VERSION_2; lia] |].
      unfold write_block_as. rewrite Hhb, outcome_bind_ret. cbn [b_majorVersion b_baseTransaction b_transactionHashes].
      rewrite H2, outcome_bind_ret, Htb, outcome_bind_ret. split; [done |]. by rewrite <- !app_assoc.
  - apply read_parent_unique in E2 as (Hwp & Hno & Hts & Hb2 & Hi2 & txNum & pb & Hu & Hc & Hpb & ->); [| done].
    apply read_transaction_unique in E3 as (Hwt & Hn & (tb & Htb & ->) & Hi3); [| done].
    apply put_get in E4 as (Hhs & -> & Hi4); [| done]. rewrite Hb2. cbn. split; [| split; [lia |]].
    + split; [done |]. done.
    + set (b := mkBlock _ _ _ _ _ _ _ _). destruct (Hwh b) as (hb & Hhb & ->); [done | done | done | lia |].
      exists txNum, (hb ++ pb ++ tb ++ put (vector (pod 32)) hs). split; [by split |].
      unfold write_block_as. rewrite Hhb, outcome_bind_ret. cbn [b b_majorVersion b_baseTransaction b_transactionHashes].
      rewrite H2. change (write_parent false false txNum b) with (write_parent false false txNum b2).
      rewrite Hpb, outcome_bind_ret, Htb, outcome_bind_ret. split; [done |]. by rewrite <- !app_assoc.
Qed.

(** The accepted encodings of a block, exactly.  A well-formed block with a parent block is read
    from every blob in which the number of the parent's transactions is written as any 64-bit value
    congruent to it modulo 2^16, since the count is truncated to 16 bits after it was read; what is
    accepted is well formed and has one of these forms.  So the blob that the node writes is read
    back, and 2^48 other blobs are accepted as the same block; a version 1 block has one encoding,
    read into an object that keeps its parent block. *)
Theorem block_codec b0 b :
  (forall txNum, wf_Block b -> count_as txNum b -> (b_majorVersion b = 1 -> b_parentBlock b0 = b_parentBlock b) ->
     exists ba, write_block_as txNum b = Ret ba /\ blockFromBinaryArray b0 ba = Some b)
  /\ (forall ba, Forall is_byte ba -> blockFromBinaryArray b0 ba = Some b ->
      wf_Block b /\ exists txNum, count_as txNum b /\ write_block_as txNum b = Ret ba).
Proof.
  unfold blockFromBinaryArray. split.
  - intros txNum Hw Hc Hb0. destruct (read_write_block txNum b b0 [] Hw Hc Hb0) as (ba & Hba & Hr). rewrite app_nil_r in Hr.
    exists ba. split; [done |]. by rewrite Hr.
  - intros ba Hba. destruct (read_block b0 ba) as [[b' rest] | | |] eqn:E; try done. cbn [catch]. destruct rest; [| done].
    intros [= ->]. apply read_block_unique in E as (Hw & _ & txNum & bytes & Hc & Hwb & ->); [| done].
    split; [done |]. exists txNum. by rewrite app_nil_r.
Qed.

(** ** Concrete blobs *)

Lemma bytes_checked l : forallb (fun b => (0 <=? b) && (b <? 256)) l = true -> Forall is_byte l.
Proof.
  intros Hl. apply Forall_forall. intros b Hb%list_elem_of_In. rewrite forallb_forall in Hl. specialize (Hl b Hb). unfold is_byte. lia.
Qed.

Module SerializationDemo.
Definition tx : Transaction :=
  mkTransaction 1 0 [InKey (mkKeyInput 5 [1; 300] (replicate 32 7)); InBase (mkBaseInput 99)]
    [mkTransactionOutput 700 (OutKey (mkKeyOutput (replicate 32 9)))] [1; 2]
    [[replicate 64 1; replicate 64 2]; []].
Definition tx_blob : bytes := default [] (toBinaryArray tx).
Definition coinbase (extra : bytes) : Transaction := mkTransaction 1 0 [InBase (mkBaseInput 99)] [] extra [[]].
Definition parent : ParentBlock :=
  mkParentBlock 1 0 (replicate 32 5) 1 [] (coinbase (appendMergeMiningTagToExtra [] 0 (replicate 32 3))) [].
Definition block : Block := mkBlock 2 0 77 1000 (replicate 32 4) parent (coinbase []) [].
Definition block_blob (txNum : Z) : bytes := match write_block_as txNum block with Ret ba => ba | _ => [] end.
End SerializationDemo.

Lemma transaction_codec_witness :
  wf_Transaction SerializationDemo.tx /\ toBinaryArray SerializationDemo.tx = Some SerializationDemo.tx_blob
  /\ exists ba, toBinaryArray SerializationDemo.tx = Some ba /\ fromBinaryArray ba = Some (normal SerializationDemo.tx).
Proof.
  destruct transaction_codec as [Hback Hread].
  destruct (Hread SerializationDemo.tx_blob SerializationDemo.tx) as (Hwf & Hw & _);
    [apply bytes_checked; vm_compute; reflexivity | vm_compute; reflexivity |].
  exact (conj Hwf (conj Hw (Hback SerializationDemo.tx Hwf))).
Defined.

Lemma block_codec_witness :
  SerializationDemo.block_blob 1 <> SerializationDemo.block_blob (1 + 5 * 2 ^ 16)
  /\ blockFromBinaryArray SerializationDemo.block (SerializationDemo.block_blob (1 + 5 * 2 ^ 16)) = Some SerializationDemo.block
  /\ wf_Block SerializationDemo.block
  /\ exists ba, write_block_as 1 SerializationDemo.block = Ret ba
       /\ blockFromBinaryArray SerializationDemo.block ba = Some SerializationDemo.block.
Proof.
  destruct (block_codec SerializationDemo.block SerializationDemo.block) as [Hback Hread].
  split; [vm_compute; discriminate |]. split; [vm_compute; reflexivity |].
  destruct (Hread (SerializationDemo.block_blob (1 + 5 * 2 ^ 16))) as [Hwf _];
    [apply bytes_checked; vm_compute; reflexivity | vm_compute; reflexivity |].
  split; [exact Hwf |]. apply (Hback 1 Hwf).
  - split; [unfold is_u64; lia | intros _; vm_compute; reflexivity].
  - intros _. reflexivity.
Defined.
