(* ===== verification/BlockIndices.v ===== *)
(** The indices of [src/src/CryptoNoteCore/BlockchainIndices.cpp] over blocks and their times:
    [TimestampBlocksIndex] and [TimestampTransactionsIndex] (whose code is the same),
    [GeneratedTransactionsIndex] and [OrphanBlocksIndex].  The payment id index is with the transactions
    in [ChainStore.v]. *)

From stdpp Require Import gmultiset.
From S2P Require Import Prelude Types Serialization.

(** * [TimestampBlocksIndex] and [TimestampTransactionsIndex] *)
(** [multimap::emplace] puts the new entry after those with the same key. *)
Fixpoint timestamp_add (timestamp : Z) (hash : Hash) (index : list (Z * Hash)) : list (Z * Hash) :=
  match index with
  | [] => [(timestamp, hash)]
  | e :: rest => if timestamp <? e.1 then (timestamp, hash) :: e :: rest else e :: timestamp_add timestamp hash rest
  end.

Fixpoint timestamp_remove (timestamp : Z) (hash : Hash) (index : list (Z * Hash)) : bool * list (Z * Hash) :=
  match index with
  | [] => (false, [])
  | e :: rest =>
      if decide (e = (timestamp, hash)) then (true, rest)
      else let '(found, rest') := timestamp_remove timestamp hash rest in (found, e :: rest')
  end.

(** [None] when the interval is empty; else the answer, the hashes and the number within the interval. *)
Definition timestamp_find (timestampBegin timestampEnd hashesNumberLimit : Z) (index : list (Z * Hash))
    : option (bool * list Hash * Z) :=
  if timestampEnd <? timestampBegin then None
  else
    let within := filter (fun e => timestampBegin <= e.1 <= timestampEnd) index in
    let hashes := take (Z.to_nat hashesNumberLimit) (map snd within) in
    Some (bool_decide (hashes <> []), hashes, u32 (Z.of_nat (length within))).

Lemma timestamp_add_perm t h l : timestamp_add t h l ≡ₚ (t, h) :: l.
Proof.
  induction l as [| e l IH]; cbn [timestamp_add]; [done |]. destruct (_ <? _); [done |]. rewrite IH. constructor.
Qed.

Lemma timestamp_remove_perm t h l : (t, h) ∈ l -> l ≡ₚ (t, h) :: (timestamp_remove t h l).2.
Proof.
  induction l as [| e l IH]; intros Hin; [by apply elem_of_nil in Hin |]. cbn [timestamp_remove].
  destruct (decide (e = (t, h))) as [-> | Hne]; [done |].
  apply elem_of_cons in Hin as [Heq | Hin]; [by symmetry in Heq |]. specialize (IH Hin).
  destruct (timestamp_remove t h l) as [found rest]. cbn in *. rewrite IH at 1. constructor.
Qed.

(** * [GeneratedTransactionsIndex] *)

Record GeneratedTransactionsIndex := mkGenerated { gi_index : gmap Z Z; lastGeneratedTxNumber : Z }.

Definition emptyGenerated : GeneratedTransactionsIndex := mkGenerated ∅ 0.

(** [boost::get<BaseInput>(block.baseTransaction.inputs.front()).blockIndex]. *)
Definition base_height (b : Block) : outcome Z :=
  match tx_inputs (b_baseTransaction b) with
  | [] => Undefined
  | InBase i :: _ => Ret (bi_blockIndex i)
  | _ :: _ => Throw "boost::bad_get"
  end.

Definition index_size (g : GeneratedTransactionsIndex) : Z := Z.of_nat (size (gi_index g)).

(** A new height is free when the index holds the heights below it. *)
Definition generated_add (g : GeneratedTransactionsIndex) (b : Block) : outcome (bool * GeneratedTransactionsIndex) :=
  blockHeight ← base_height b;
  if negb (index_size g =? blockHeight) then Ret (false, g)
  else
    let total := u64 (lastGeneratedTxNumber g + Z.of_nat (length (b_transactionHashes b)) + 1) in
    match gi_index g !! blockHeight with
    | Some _ => Ret (false, g)
    | None => Ret (true, mkGenerated (<[blockHeight := total]> (gi_index g)) total)
    end.

Definition generated_remove (g : GeneratedTransactionsIndex) (b : Block) : outcome (bool * GeneratedTransactionsIndex) :=
  blockHeight ← base_height b;
  if negb (blockHeight =? u64 (index_size g - 1)) then Ret (false, g)
  else
    _ ← assert_ (bool_decide (is_Some (gi_index g !! blockHeight)));
    let index := delete blockHeight (gi_index g) in
    if negb (blockHeight =? 0) then
      match index !! (blockHeight - 1) with
      | None => AssertFail
      | Some n => Ret (true, mkGenerated index n)
      end
    else Ret (true, mkGenerated index 0).

Definition generated_find (g : GeneratedTransactionsIndex) (height : Z) : option Z := gi_index g !! height.

(** * [OrphanBlocksIndex] *)

Definition orphan_add (index : gmultiset (Z * Hash)) (b : Block) : outcome (gmultiset (Z * Hash)) :=
  r ← get_block_hash b;
  blockHeight ← base_height b;
  Ret (index ⊎ {[+ (blockHeight, default NULL_HASH r) +]}).

Definition orphan_remove (index : gmultiset (Z * Hash)) (b : Block) : outcome (bool * gmultiset (Z * Hash)) :=
  r ← get_block_hash b;
  blockHeight ← base_height b;
  let e := (blockHeight, default NULL_HASH r) in
  if decide (e ∈ index) then Ret (true, index ∖ {[+ e +]}) else Ret (false, index).

Definition orphan_find (index : gmultiset (Z * Hash)) (height : Z) : list Hash :=
  map snd (filter (fun e => e.1 = height) (elements index)).

(** * The counts of a chain *)

(** The number of transactions of a block with its coinbase. *)
Definition block_txs (b : Block) : Z := Z.of_nat (length (b_transactionHashes b)) + 1.

Definition txs_upto (n : nat) (chain : list Block) : Z := foldr (fun b acc => block_txs b + acc) 0 (take n chain).

(** The index of a chain: every height with the number of transactions up to and with it. *)
Record generated_rep (chain : list Block) (g : GeneratedTransactionsIndex) : Prop := {
  gen_lookup h : gi_index g !! h = (if decide (0 <= h < Z.of_nat (length chain)) then Some (u64 (txs_upto (S (Z.to_nat h)) chain)) else None);
  gen_size : index_size g = Z.of_nat (length chain);
  gen_last : lastGeneratedTxNumber g = u64 (txs_upto (length chain) chain)
}.

Lemma txs_upto_app n chain b : (n <= length chain)%nat -> txs_upto n (chain ++ [b]) = txs_upto n chain.
Proof. intros Hn. unfold txs_upto. by rewrite take_app_le. Qed.

Lemma txs_upto_snoc chain b : txs_upto (S (length chain)) (chain ++ [b]) = txs_upto (length chain) chain + block_txs b.
Proof.
  unfold txs_upto. rewrite (take_ge (chain ++ [b])), firstn_all by (rewrite length_app; cbn; lia).
  induction chain as [| x chain IH]; cbn; [lia |]. cbn in IH. rewrite IH. lia.
Qed.

Lemma generated_rep_nil : generated_rep [] emptyGenerated.
Proof. split; [| done | done]. intros h. cbn [emptyGenerated gi_index length]. rewrite lookup_empty, decide_False; [done | lia]. Qed.

Lemma generated_add_rep chain g b :
  generated_rep chain g -> base_height b = Ret (Z.of_nat (length chain)) ->
  exists g', generated_add g b = Ret (true, g') /\ generated_rep (chain ++ [b]) g'.
Proof.
  intros [Hl Hs Ht] Hb. unfold generated_add. rewrite Hb, outcome_bind_ret, Hs, Z.eqb_refl. cbn [negb].
  assert (Hnone : gi_index g !! Z.of_nat (length chain) = None) by (rewrite Hl; case_decide; [lia | done]).
  rewrite Hnone. eexists. split; [reflexivity |].
  assert (Hlast : u64 (lastGeneratedTxNumber g + Z.of_nat (length (b_transactionHashes b)) + 1) = u64 (txs_upto (S (length chain)) (chain ++ [b]))).
  { rewrite txs_upto_snoc, Ht. unfold block_txs, u64. rewrite <- Z.add_assoc, Zplus_mod_idemp_l. done. }
  rewrite Hlast. split; cbn [gi_index lastGeneratedTxNumber].
  - intros h. rewrite length_app. cbn [length]. destruct (decide (h = Z.of_nat (length chain))) as [-> | Hne].
    + rewrite lookup_insert_eq. rewrite decide_True by lia. by rewrite Nat2Z.id.
    + rewrite lookup_insert_ne by done. rewrite Hl. repeat case_decide; try lia; [| done]. rewrite txs_upto_app by lia. done.
  - unfold index_size in *. cbn [gi_index]. rewrite map_size_insert_None by done. rewrite length_app. cbn [length]. lia.
  - rewrite length_app. cbn [length]. by rewrite Nat.add_1_r.
Qed.

Lemma generated_remove_rep chain b g :
  generated_rep (chain ++ [b]) g -> base_height b = Ret (Z.of_nat (length chain)) -> Z.of_nat (length chain) < 2 ^ 64 ->
  exists g', generated_remove g b = Ret (true, g') /\ generated_rep chain g'.
Proof.
  intros [Hl Hs Ht] Hb Hlen. rewrite length_app in Hs. cbn [length] in Hs.
  unfold generated_remove. rewrite Hb, outcome_bind_ret, Hs.
  replace (Z.of_nat (length chain + 1) - 1) with (Z.of_nat (length chain)) by lia. rewrite u64_small, Z.eqb_refl by lia. cbn [negb].
  assert (Hat : is_Some (gi_index g !! Z.of_nat (length chain))) by (rewrite Hl, length_app; cbn [length]; rewrite decide_True by lia; by eexists).
  rewrite bool_decide_eq_true_2 by done. unfold assert_. rewrite outcome_bind_ret.
  assert (Hrep : forall n, n = u64 (txs_upto (length chain) chain) -> generated_rep chain (mkGenerated (delete (Z.of_nat (length chain)) (gi_index g)) n)).
  { intros n ->. split; [| | done]; cbn [gi_index].
    - intros h. destruct (decide (h = Z.of_nat (length chain))) as [-> | Hne].
      + rewrite lookup_delete_eq. by rewrite decide_False by lia.
      + rewrite lookup_delete_ne, Hl, length_app by done. cbn [length]. repeat case_decide; try lia; [| done]. by rewrite txs_upto_app by lia.
    - unfold index_size in *. cbn [gi_index]. rewrite map_size_delete_Some by done. lia. }
  destruct (Z.eqb_spec (Z.of_nat (length chain)) 0) as [H0 | H0]; cbn [negb].
  - eexists. split; [reflexivity |]. apply Hrep. destruct chain; [done | cbn in H0; lia].
  - rewrite lookup_delete_ne by lia. rewrite Hl, length_app. cbn [length]. rewrite decide_True by lia.
    eexists. split; [reflexivity |]. apply Hrep. f_equal. rewrite txs_upto_app by lia. f_equal. lia.
Qed.
