(* ===== verification/ProofOfWork.v ===== *)
(** Proof of work: [checkProofOfWork] of [src/src/CryptoNoteCore/Currency.cpp] with [get_block_longhash] of
    [CryptoNoteFormatUtils.cpp].  From version 2 on the work is done on the header of a parent block, whose
    miner transaction commits to the block through a Merkle branch.  The slow hash is a parameter. *)

From S2P Require Import Prelude Config IntUtil Varint Keccak MerkleTree Currency Types TransactionExtra Codec Serialization.

Section ProofOfWork.
(** [cn_slow_hash] with its flags [light] and [variant], and [m_genesisBlockHash]. *)
Context (cn_slow_hash : bytes -> Z -> Z -> Hash) (m_genesisBlockHash : Hash).

(** [None] is [false]. *)
Definition get_block_longhash (b : Block) : outcome (option Hash) :=
  bd ← (if b_majorVersion b =? BLOCK_MAJOR_VERSION_1 then get_block_hashing_blob b
        else if BLOCK_MAJOR_VERSION_2 <=? b_majorVersion b then Ret (get_parent_block_hashing_blob b)
        else Ret None);
  match bd with
  | None => Ret None
  | Some bd =>
      let cn_variant := if b_majorVersion b <? 5 then 0 else if BLOCK_MAJOR_VERSION_6 <=? b_majorVersion b then 2 else 1 in
      let light := if BLOCK_MAJOR_VERSION_9 <=? b_majorVersion b then 1 else 0 in
      Ret (Some (cn_slow_hash bd light cn_variant))
  end.

Definition checkProofOfWorkV1 (block : Block) (currentDiffic : Z) : outcome bool :=
  if negb (BLOCK_MAJOR_VERSION_1 =? b_majorVersion block) then Ret false
  else
    r ← get_block_longhash block;
    match r with None => Ret false | Some proofOfWork => Ret (check_hash proofOfWork currentDiffic) end.

Definition checkProofOfWorkV2 (block : Block) (currentDiffic : Z) : outcome bool :=
  if b_majorVersion block <? BLOCK_MAJOR_VERSION_2 then Ret false
  else
    r ← get_block_longhash block;
    match r with
    | None => Ret false
    | Some proofOfWork =>
        if negb (check_hash proofOfWork currentDiffic) then Ret false
        else
          match getMergeMiningTagFromExtra (tx_extra (pb_baseTransaction (b_parentBlock block))) with
          | None => Ret false
          | Some (_, merkleRoot) =>
              let branch := pb_blockchainBranch (b_parentBlock block) in
              if 8 * 32 <? Z.of_nat (length branch) then Ret false
              else
                a ← get_aux_block_header_hash block;
                match a with
                | None => Ret false
                | Some auxBlockHeaderHash =>
                    auxBlocksMerkleRoot ← tree_hash_from_branch branch (length branch) auxBlockHeaderHash (Some m_genesisBlockHash);
                    Ret (bool_decide (auxBlocksMerkleRoot = merkleRoot))
                end
          end
    end.

Definition checkProofOfWork (block : Block) (currentDiffic : Z) : outcome bool :=
  if b_majorVersion block =? BLOCK_MAJOR_VERSION_1 then checkProofOfWorkV1 block currentDiffic
  else if (BLOCK_MAJOR_VERSION_2 <=? b_majorVersion block) && (b_majorVersion block <=? BLOCK_MAJOR_VERSION_10)
  then checkProofOfWorkV2 block currentDiffic
  else Ret false.

(** * One proof of work, one block *)

(** A string is determined by its encoding: a longer one has no shorter length in front. *)
Lemma write_loop_length_mono fuel m n : m <= n -> (length (write_loop fuel m) <= length (write_loop fuel n))%nat.
Proof.
  revert m n. induction fuel as [| fuel IH]; intros m n Hmn; cbn [write_loop]; [done |].
  destruct (Z.leb_spec 128 m), (Z.leb_spec 128 n); cbn [length]; [| lia | lia | lia].
  apply le_n_S, IH. rewrite !Z.shiftr_div_pow2 by lia. apply Z.div_le_mono; lia.
Qed.

Lemma write_string_inj a b : write_string a = write_string b -> a = b.
Proof.
  unfold write_string, writeVarint. intros H. pose proof (f_equal length H) as Hl. rewrite !length_app in Hl.
  assert (length a = length b) as Hab.
  { destruct (Nat.le_gt_cases (length a) (length b)) as [Hle | Hlt].
    - pose proof (write_loop_length_mono 9 (Z.of_nat (length a)) (Z.of_nat (length b)) ltac:(lia)). lia.
    - pose proof (write_loop_length_mono 9 (Z.of_nat (length b)) (Z.of_nat (length a)) ltac:(lia)). lia. }
  rewrite Hab in H. by apply app_inv_head in H.
Qed.

(** The pair of hashes at a node of the branch, and the texts that are hashed from a leaf to the root. *)
Definition node_text (path : bytes) (depth : nat) (sibling current : Hash) : Hash * Hash :=
  if path_bit (Some path) depth then (sibling, current) else (current, sibling).

Fixpoint branch_texts (depth : nat) (branch : list Hash) (path : bytes) (current : Hash) : list bytes :=
  match depth with
  | O => []
  | S depth =>
      let p := node_text path depth (nth depth branch []) current in
      (p.1 ++ p.2) :: branch_texts depth branch path (hash2 p.1 p.2)
  end.

(** What is hashed to check the place of a block in its parent. *)
Definition header_texts (block : Block) : list bytes :=
  match get_block_hashing_blob block with
  | Ret (Some blob) =>
      let branch := pb_blockchainBranch (b_parentBlock block) in
      write_string blob :: branch_texts (length branch) branch m_genesisBlockHash (blob_hash blob)
  | _ => []
  end.

Lemma nth_vec_at (branch : list Hash) d x : vec_at branch (Z.of_nat d) = Ret x -> nth d branch [] = x /\ branch !! d = Some x.
Proof. intros [_ H]%vec_at_Ret. rewrite Nat2Z.id in H. split; [by apply nth_lookup_Some | done]. Qed.

Lemma cons_subseteq (x : bytes) l T : x :: l ⊆ T -> x ∈ T /\ l ⊆ T.
Proof. set_solver. Qed.

(** A node of the branch determines what was below it. *)
Lemma node_inj T path d x c1 c2 :
  (node_text path d x c1).1 ++ (node_text path d x c1).2 ∈ T -> (node_text path d x c2).1 ++ (node_text path d x c2).2 ∈ T ->
  is_hash x -> is_hash c1 -> is_hash c2 ->
  hash2 (node_text path d x c1).1 (node_text path d x c1).2 = hash2 (node_text path d x c2).1 (node_text path d x c2).2 ->
  collision T \/ c1 = c2.
Proof.
  intros H1 H2 Hx Hc1 Hc2 He. apply (hash2_inj T) in He as [| [Hf Hs]]; [by left | | done | done | |].
  - right. revert Hf Hs. unfold node_text. by destruct (path_bit _ _).
  - unfold node_text. by destruct (path_bit _ _).
  - unfold node_text. by destruct (path_bit _ _).
Qed.

Lemma branch_loop_binding T d branch path p1 p2 leaf1 leaf2 root :
  branch_texts d branch path (hash2 p1.1 p1.2) ⊆ T -> branch_texts d branch path (hash2 p2.1 p2.2) ⊆ T -> Forall is_hash branch ->
  from_branch_loop d branch leaf1 (Some path) (Some p1) = Ret root -> from_branch_loop d branch leaf2 (Some path) (Some p2) = Ret root ->
  collision T \/ hash2 p1.1 p1.2 = hash2 p2.1 p2.2.
Proof.
  revert p1 p2. induction d as [| d IH]; intros [a1 b1] [a2 b2] H1 H2 Hb R1 R2; cbn [from_branch_loop fst snd] in *; [right; congruence |].
  apply outcome_bind_inv in R1 as (x & Hx & R1). rewrite Hx, outcome_bind_ret in R2. apply nth_vec_at in Hx as [Hn Hl].
  assert (Hxh : is_hash x) by (eapply (proj1 (Forall_forall _ _) Hb), list_elem_of_lookup_2; exact Hl).
  cbn [branch_texts] in H1, H2. rewrite Hn in H1, H2. apply cons_subseteq in H1 as [N1 H1], H2 as [N2 H2].
  destruct (IH _ _ H1 H2 Hb R1 R2) as [| He]; [by left |].
  eapply node_inj; [exact N1 | exact N2 | done | apply cn_fast_hash_length | apply cn_fast_hash_length | exact He].
Qed.

Lemma branch_binding T branch path leaf1 leaf2 root :
  branch_texts (length branch) branch path leaf1 ⊆ T -> branch_texts (length branch) branch path leaf2 ⊆ T ->
  Forall is_hash branch -> is_hash leaf1 -> is_hash leaf2 ->
  tree_hash_from_branch branch (length branch) leaf1 (Some path) = Ret root ->
  tree_hash_from_branch branch (length branch) leaf2 (Some path) = Ret root -> collision T \/ leaf1 = leaf2.
Proof.
  generalize (length branch) as d. intros d H1 H2 Hb L1 L2 R1 R2. destruct d as [| d]; cbn [tree_hash_from_branch] in R1, R2; [right; congruence |].
  cbn [from_branch_loop] in R1, R2. apply outcome_bind_inv in R1 as (x & Hx & R1). rewrite Hx, outcome_bind_ret in R2.
  apply nth_vec_at in Hx as [Hn Hl]. cbn [branch_texts] in H1, H2. rewrite Hn in H1, H2.
  assert (Hxh : is_hash x) by (eapply (proj1 (Forall_forall _ _) Hb), list_elem_of_lookup_2; exact Hl).
  apply cons_subseteq in H1 as [N1 H1], H2 as [N2 H2].
  destruct (branch_loop_binding T _ _ _ _ _ _ _ _ H1 H2 Hb R1 R2) as [| He]; [by left |].
  eapply node_inj; [exact N1 | exact N2 | done | done | done | exact He].
Qed.

(** What [checkProofOfWork] asks of a block of version 2 or more. *)
Lemma checkProofOfWork_merge_mined block d :
  BLOCK_MAJOR_VERSION_2 <= b_majorVersion block -> checkProofOfWork block d = Ret true ->
  exists proof depth root blob,
    get_block_longhash block = Ret (Some proof) /\ check_hash proof d = true
    /\ getMergeMiningTagFromExtra (tx_extra (pb_baseTransaction (b_parentBlock block))) = Some (depth, root)
    /\ get_block_hashing_blob block = Ret (Some blob)
    /\ tree_hash_from_branch (pb_blockchainBranch (b_parentBlock block)) (length (pb_blockchainBranch (b_parentBlock block)))
         (blob_hash blob) (Some m_genesisBlockHash) = Ret root.
Proof.
  intros Hv H. unfold checkProofOfWork in H. destruct (Z.eqb_spec (b_majorVersion block) BLOCK_MAJOR_VERSION_1) as [Hv1 | _];
    [unfold BLOCK_MAJOR_VERSION_1, BLOCK_MAJOR_VERSION_2 in *; lia |].
  destruct (_ && _); [| done]. unfold checkProofOfWorkV2 in H. destruct (_ <? _); [done |].
  apply outcome_bind_inv in H as ([proof |] & Hp & H); [| done]. destruct (check_hash proof d) eqn:Hc; cbn [negb] in H; [| done].
  destruct (getMergeMiningTagFromExtra _) as [[depth root] |] eqn:Ht; [| done]. destruct (8 * 32 <? _); [done |].
  apply outcome_bind_inv in H as ([aux |] & Ha & H); [| done]. apply outcome_bind_inv in H as (root' & Hr & H).
  injection H as H. apply bool_decide_eq_true in H as ->. unfold get_aux_block_header_hash in Ha.
  apply outcome_bind_inv in Ha as ([blob |] & Hb & Ha); [| done]. injection Ha as <-. exists proof, depth, root, blob. done.
Qed.

(** C29: One proof of work serves one block.  Two blocks of version 2 or more that are accepted with the
    same parent block have the same hashing blob (header, previous block, root of the transactions and
    their number), or two different ones of the texts that are hashed to check their places in the
    parent have one Keccak hash; and each of them has a slow hash that, times the difficulty, is
    below [2^256]. *)
Theorem parent_work_binds_block block1 block2 d1 d2 :
  BLOCK_MAJOR_VERSION_2 <= b_majorVersion block1 -> BLOCK_MAJOR_VERSION_2 <= b_majorVersion block2 ->
  b_parentBlock block1 = b_parentBlock block2 -> Forall is_hash (pb_blockchainBranch (b_parentBlock block1)) ->
  checkProofOfWork block1 d1 = Ret true -> checkProofOfWork block2 d2 = Ret true ->
  (exists proof, get_block_longhash block1 = Ret (Some proof) /\ check_hash proof d1 = true)
  /\ (get_block_hashing_blob block1 = get_block_hashing_blob block2 \/ collision (header_texts block1 ++ header_texts block2)).
Proof.
  intros Hv1 Hv2 Hp Hb (proof & depth & root & blob1 & Hproof & Hc & Ht1 & Hb1 & Hr1)%checkProofOfWork_merge_mined
    (proof2 & depth2 & root2 & blob2 & _ & _ & Ht2 & Hb2 & Hr2)%checkProofOfWork_merge_mined; try done.
  split; [by exists proof |]. rewrite <- Hp in Ht2, Hr2. rewrite Ht1 in Ht2. injection Ht2 as <- <-. rewrite Hb1, Hb2.
  unfold header_texts. rewrite Hb1, Hb2, <- Hp. set (branch := pb_blockchainBranch (b_parentBlock block1)) in *.
  match goal with |- _ \/ collision ?T => set (texts := T) end.
  destruct (branch_binding texts branch m_genesisBlockHash (blob_hash blob1) (blob_hash blob2) root) as [| He]; try done.
  - unfold texts. set_solver.
  - unfold texts. set_solver.
  - apply cn_fast_hash_length.
  - apply cn_fast_hash_length.
  - by right.
  - destruct (decide (blob1 = blob2)) as [-> | Hne]; [by left |]. right. exists (write_string blob1), (write_string blob2).
    split_and!; [unfold texts; set_solver | unfold texts; set_solver | | exact He].
    intros Heq%write_string_inj. done.
Qed.

End ProofOfWork.

Module WorkDemo.
(** The parent's miner transaction carries the hash of the block's hashing blob. *)
Definition parent (root : Hash) : ParentBlock :=
  mkParentBlock 1 0 (replicate 32 5) 1 [] (SerializationDemo.coinbase (appendMergeMiningTagToExtra [] 0 root)) [].
Definition block_with (root : Hash) : Block :=
  mkBlock 10 0 77 1000 (replicate 32 4) (parent root) (SerializationDemo.coinbase []) [replicate 32 6].
Definition aux_hash : Hash :=
  match get_aux_block_header_hash (block_with NULL_HASH) with Ret (Some h) => h | _ => [] end.
Definition block : Block := block_with aux_hash.
Definition slow_hash (data : bytes) (light variant : Z) : Hash := replicate 31 0 ++ [light + variant].
End WorkDemo.

Lemma parent_work_binds_block_witness :
  checkProofOfWork WorkDemo.slow_hash NULL_HASH WorkDemo.block 5 = Ret true /\
  ((exists proof, get_block_longhash WorkDemo.slow_hash WorkDemo.block = Ret (Some proof) /\ check_hash proof 5 = true)
   /\ (get_block_hashing_blob WorkDemo.block = get_block_hashing_blob WorkDemo.block
       \/ collision (header_texts NULL_HASH WorkDemo.block ++ header_texts NULL_HASH WorkDemo.block))).
Proof.
  assert (Hw : checkProofOfWork WorkDemo.slow_hash NULL_HASH WorkDemo.block 5 = Ret true) by (vm_compute; reflexivity).
  split; [exact Hw |].
  exact (parent_work_binds_block WorkDemo.slow_hash NULL_HASH WorkDemo.block WorkDemo.block 5 5 ltac:(vm_compute; discriminate)
    ltac:(vm_compute; discriminate) eq_refl (Forall_nil_2 _) Hw Hw).
Defined.
