(* ===== verification/MinerTx.v ===== *)
(** Validation of the coinbase transaction of a block: [prevalidate_miner_transaction] and
    [validate_miner_transaction] of [src/src/CryptoNoteCore/Blockchain.cpp], with the block
    version at a height, the window of block sizes and the banking fees of a block. *)

From S2P Require Import Prelude Config IntUtil Currency Types Amounts TxChecks Emission BankingIndex.
From S2P Require Import TransactionExtra UpgradeDetector Checkpoints.

(** * The code *)

(** The members of [Blockchain] that the validation reads: the cumulative sizes of [m_blocks], the
    voting heights of the nine upgrade detectors (versions 2 to 10), the checkpoints, the
    banking index, the Elderfier registry and the fee state. *)
Record ChainView := mkChainView {
  cv_sizes : list Z;
  cv_votingCompleteHeight : Z -> Z;
  cv_checkpoints : points;
  cv_bankingIndex : BankingIndex;
  cv_registrations : list ElderfierRegistration;
  cv_addresses : gmap Z bytes;
  cv_activeEfierCount : Z;
  cv_efierSwapRewardPerBlock : Z
}.

Section Validation.
Context (c : Currency).
(** The point check of [Crypto] and the address parser. *)
Context (check_key : bytes -> bool).
Context (parseAccountAddressString : bytes -> option AccountPublicAddress).

Definition getBlockMajorVersionForHeight (cv : ChainView) (height : Z) : Z :=
  let above version := detectorUpgradeHeight c version (cv_votingCompleteHeight cv version) <? height in
  if above 10 then 10
  else if above 9 then 9
  else if above 8 then 8
  else if above 7 then 7
  else if above 6 then 6
  else if above 5 then 5
  else if above 4 then 4
  else if above 3 then 3
  else if above 2 then 2
  else BLOCK_MAJOR_VERSION_1.

(** [None] is the error; the sizes are appended to an empty vector. *)
Definition getBackwardBlocksSize (sizes : list Z) (from_height count : Z) : option (list Z) :=
  if negb (from_height <? Z.of_nat (length sizes)) then None
  else
    let start_offset := from_height + 1 - Z.min (from_height + 1) count in
    Some (take (Z.to_nat (from_height + 1 - start_offset)) (drop (Z.to_nat start_offset) sizes)).

Definition get_last_n_blocks_sizes (sizes : list Z) (count : Z) : list Z :=
  match sizes with
  | [] => []
  | _ => default [] (getBackwardBlocksSize sizes (Z.of_nat (length sizes) - 1) count)
  end.

Definition field_banking_fee (activeEfierCount : Z) (field : TransactionExtraField) : Z :=
  match field with
  | ExtraHeatCommitment heat => u64 (hc_amount heat * activeEfierCount) / 1000
  | ExtraColdCommitment cold => u64 (cc_amount cold * activeEfierCount) / 1000
  | ExtraElderfierDeposit ef => u64 (ed_depositAmount ef * activeEfierCount) / 1000
  | _ => 0
  end.

Definition computeBankingFeesFromTransactions (txs : list Transaction) (activeEfierCount : Z) : Z :=
  if activeEfierCount =? 0 then 0
  else
    foldl (fun total tx =>
      match parseTransactionExtra (tx_extra tx) with
      | (false, _) => total
      | (true, fields) => foldl (fun total f => u64 (total + field_banking_fee activeEfierCount f)) total fields
      end) 0 txs.

Definition prevalidate_miner_transaction (b : Block) (height : Z) : outcome bool :=
  let tx := b_baseTransaction b in
  match tx_inputs tx with
  | [InBase i] =>
      if negb (bi_blockIndex i =? height) then Ret false
      else if negb (tx_unlockTime tx =? u64 (height + m_minedMoneyUnlockWindow c)) then Ret false
      else
        valid ← check_outs_valid check_key tx false;
        if negb (fst valid) then Ret false
        else Ret (check_outs_overflow tx)
  | _ => Ret false
  end.

Definition coinbase_total (b : Block) : Z :=
  foldl (fun total o => u64 (total + out_amount o)) 0 (tx_outputs (b_baseTransaction b)).

(** [None] is [false]; the pair is [(reward, emissionChange)]. *)
Definition validate_miner_transaction (cv : ChainView) (b : Block) (height cumulativeBlockSize alreadyGeneratedCoins fee : Z)
    (blockTransactions : list Transaction) : outcome (option (Z * Z)) :=
  let coinbaseTotal := coinbase_total b in
  if is_in_checkpoint_zone (cv_checkpoints cv) height then
    Ret (Some (coinbaseTotal, i64 (u64 (coinbaseTotal - fee))))
  else
    blocksSizeMedian ← medianValue (get_last_n_blocks_sizes (cv_sizes cv) (m_rewardBlocksWindow c));
    let blockMajorVersion := getBlockMajorVersionForHeight cv height in
    let burnedAtPrevHeight := if 0 <? height then getBurnedXfgAtHeight (cv_bankingIndex cv) (height - 1) else 0 in
    r ← getBlockReward c blockMajorVersion blocksSizeMedian cumulativeBlockSize alreadyGeneratedCoins fee burnedAtPrevHeight;
    match r with
    | None => Ret None
    | Some (reward, emissionChange) =>
        if BLOCK_MAJOR_VERSION_10 <=? blockMajorVersion then
          let bankingFeesInBlock := computeBankingFeesFromTransactions blockTransactions (cv_activeEfierCount cv) in
          let totalEfierInput := u64 (bankingFeesInBlock + cv_efierSwapRewardPerBlock cv) in
          let expectedEfierRewards :=
            computePerBlockEfierRewards c parseAccountAddressString (cv_registrations cv) (cv_addresses cv)
              totalEfierInput (b_previousBlockHash b) in
          let efierTotal := foldl (fun total r => u64 (total + snd r)) 0 expectedEfierRewards in
          let effectiveBankingFees := Z.min bankingFeesInBlock reward in
          let expectedCoinbase := u64 (u64 (reward - effectiveBankingFees) + efierTotal) in
          if coinbaseTotal =? expectedCoinbase then Ret (Some (reward, emissionChange)) else Ret None
        else if reward <? coinbaseTotal then Ret None
        else if coinbaseTotal =? reward then Ret (Some (reward, emissionChange))
        else Ret (Some (coinbaseTotal, i64 (u64 (coinbaseTotal - fee))))
    end.

End Validation.

(** * Proofs *)

Lemma coinbase_total_exact b :
  Forall is_u64 (map out_amount (tx_outputs (b_baseTransaction b))) ->
  check_outs_overflow (b_baseTransaction b) = true ->
  coinbase_total b = outs_total (tx_outputs (b_baseTransaction b))
  /\ is_u64 (outs_total (tx_outputs (b_baseTransaction b))).
Proof.
  intros Hu Ho. unfold check_outs_overflow in Ho. rewrite check_overflow_loop_exact, Z.add_0_l, Z.ltb_lt in Ho
    by (done || (unfold is_u64; lia)).
  pose proof (sumZ_u64_nonneg _ Hu) as Hn. rewrite <- outs_total_sum in Ho, Hn.
  unfold coinbase_total. change 0 with (u64 0) at 1. rewrite fold_u64_sum, <- outs_total_sum, Z.add_0_l.
  unfold is_u64. rewrite u64_small by lia. lia.
Qed.

Lemma prevalidate_overflow c check_key b height :
  prevalidate_miner_transaction c check_key b height = Ret true -> check_outs_overflow (b_baseTransaction b) = true.
Proof.
  unfold prevalidate_miner_transaction. intros H. destruct (tx_inputs _) as [| [i | | | | |] [|]]; try done.
  destruct (negb _); [done |]. destruct (negb _); [done |]. apply outcome_bind_inv in H as (v & _ & H).
  destruct (negb _); [done |]. by injection H.
Qed.

(** The Elderfier outputs add up to what they share, or to nothing. *)
Lemma efier_total c parse regs addrs fees prev :
  is_u64 fees -> fees < UINT64_MAX -> 0 < m_defaultDustThreshold c ->
  let total := foldl (fun t r => u64 (t + snd r)) 0 (computePerBlockEfierRewards c parse regs addrs fees prev) in
  total = sumZ (map snd (computePerBlockEfierRewards c parse regs addrs fees prev)) /\ (total = 0 \/ total = fees).
Proof.
  intros Hf Hm Hd. cbv zeta. rewrite efierTotal_sum.
  pose proof (efier_rewards_split c parse regs addrs fees prev Hf Hm Hd) as Hs. cbv zeta in Hs.
  destruct (_ || _ || _) in Hs.
  - rewrite Hs. cbn. split; [done | by left].
  - destruct Hs as (_ & -> & _). unfold is_u64 in Hf. rewrite u64_small by lia. split; [done | by right].
Qed.

Lemma efier_shares_nonneg c parse regs addrs fees prev :
  Forall (Z.le 0) (map snd (computePerBlockEfierRewards c parse regs addrs fees prev)).
Proof.
  unfold computePerBlockEfierRewards. destruct (fees =? 0); [constructor |].
  destruct (activeEfiers parse regs addrs) as [| e0 es]; [constructor |]. cbv zeta. destruct (_ <? _); [constructor |].
  set (efiers := merge_sort efid_le (e0 :: es)).
  match goal with |- context [omap ?f ?l] => set (g := f); set (z := l) end.
  assert (Hz : Forall (Z.le 0) (map snd (omap g z))).
  { clearbody z. induction z as [| [i e] z IH]; [constructor |]. cbn [omap list_omap]. unfold g at 1.
    destruct (0 <? _) eqn:E; [| done]. cbn [map snd]. constructor; [| done]. apply u64_range. }
  destruct (1 <? length (omap g z))%nat; [| done]. by rewrite shuffle_Permutation.
Qed.

Section Claims.
Context (c : Currency) (check_key : bytes -> bool).
Context (parse_address : bytes -> option AccountPublicAddress).
Context (cv : ChainView) (b : Block) (height size already fee : Z) (txs : list Transaction).

Definition block_version : Z := getBlockMajorVersionForHeight c cv height.
Definition burned_before : Z := if 0 <? height then getBurnedXfgAtHeight (cv_bankingIndex cv) (height - 1) else 0.
Definition banking_fees : Z := computeBankingFeesFromTransactions txs (cv_activeEfierCount cv).
Definition efier_rewards : list (AccountPublicAddress * Z) :=
  computePerBlockEfierRewards c parse_address (cv_registrations cv) (cv_addresses cv)
    (u64 (banking_fees + cv_efierSwapRewardPerBlock cv)) (b_previousBlockHash b).

(** The fees and the drip of swap rewards fit. *)
Record fees_fit : Prop := {
  ff_banking : 0 <= banking_fees;
  ff_drip : 0 <= cv_efierSwapRewardPerBlock cv;
  ff_sum : banking_fees + cv_efierSwapRewardPerBlock cv < UINT64_MAX;
  ff_dust : 0 < m_defaultDustThreshold c
}.

Lemma efier_rewards_total :
  fees_fit ->
  foldl (fun t r => u64 (t + snd r)) 0 efier_rewards = sumZ (map snd efier_rewards)
  /\ (sumZ (map snd efier_rewards) = 0
      \/ sumZ (map snd efier_rewards) = banking_fees + cv_efierSwapRewardPerBlock cv).
Proof.
  intros [Hb Hd Hs Ht]. unfold UINT64_MAX in Hs. unfold efier_rewards. rewrite u64_small by lia.
  destruct (efier_total c parse_address (cv_registrations cv) (cv_addresses cv)
    (banking_fees + cv_efierSwapRewardPerBlock cv) (b_previousBlockHash b)) as [<- Hc];
    [unfold is_u64; lia | unfold UINT64_MAX; lia | done | done].
Qed.

Lemma efier_rewards_nonneg : Forall (Z.le 0) (map snd efier_rewards).
Proof. apply efier_shares_nonneg. Qed.

(** What the validation computes outside the checkpoint zone. *)
Lemma validate_cases med r e :
  is_in_checkpoint_zone (cv_checkpoints cv) height = false ->
  medianValue (get_last_n_blocks_sizes (cv_sizes cv) (m_rewardBlocksWindow c)) = Ret med ->
  getBlockReward c block_version med size already fee burned_before = Ret (Some (r, e)) ->
  validate_miner_transaction c parse_address cv b height size already fee txs
  = Ret (if BLOCK_MAJOR_VERSION_10 <=? block_version then
           if coinbase_total b
              =? u64 (u64 (r - Z.min banking_fees r) + foldl (fun t r => u64 (t + snd r)) 0 efier_rewards)
           then Some (r, e) else None
         else if r <? coinbase_total b then None
         else if coinbase_total b =? r then Some (r, e)
         else Some (coinbase_total b, i64 (u64 (coinbase_total b - fee)))).
Proof.
  intros Hz Hm Hr. unfold validate_miner_transaction. rewrite Hz, Hm, outcome_bind_ret. cbv zeta.
  fold burned_before. fold block_version. rewrite Hr, outcome_bind_ret. fold banking_fees. fold efier_rewards.
  destruct (_ <=? _); [by destruct (_ =? _) |]. destruct (_ <? _); [done |]. by destruct (_ =? _).
Qed.

End Claims.

(** C7: No block can pay itself too much.  Outside the checkpoint zone, a block whose coinbase passes
    both checks pays at most the block reward for its version, size, height and fees
    (before version 10), or exactly the reward less the banking fees plus the Elderfier shares
    (from version 10), which is at most the larger of reward and banking fees, plus the swap
    drip.  The sum is the true sum of the outputs, without wrap-around, and the reward
    recorded for emission is what was paid, respectively the computed one. *)
Theorem coinbase_bounded (c : Currency)
    (check_key : bytes -> bool) (parse_address : bytes -> option AccountPublicAddress)
    (cv : ChainView) (b : Block) (height size already fee : Z) (txs : list Transaction) (reward emission : Z)
    (med r e : Z) :
  Forall is_u64 (map out_amount (tx_outputs (b_baseTransaction b))) ->
  is_in_checkpoint_zone (cv_checkpoints cv) height = false ->
  fees_fit c cv txs -> is_u64 r ->
  medianValue (get_last_n_blocks_sizes (cv_sizes cv) (m_rewardBlocksWindow c)) = Ret med ->
  getBlockReward c (block_version c cv height) med size already fee (burned_before cv height) = Ret (Some (r, e)) ->
  r + banking_fees cv txs + cv_efierSwapRewardPerBlock cv < 2 ^ 64 ->
  prevalidate_miner_transaction c check_key b height = Ret true ->
  validate_miner_transaction c parse_address cv b height size already fee txs = Ret (Some (reward, emission)) ->
  let paid := outs_total (tx_outputs (b_baseTransaction b)) in
  let efiers := sumZ (map snd (efier_rewards c parse_address cv b txs)) in
  if block_version c cv height <? BLOCK_MAJOR_VERSION_10 then paid <= r /\ reward = paid
  else paid = r - Z.min (banking_fees cv txs) r + efiers
       /\ paid <= Z.max r (banking_fees cv txs) + cv_efierSwapRewardPerBlock cv
       /\ reward = r /\ emission = e.
Proof.
  intros Hu Hz Hff Hr Hm Hrew Hfit Hpre Hval. cbv zeta.
  destruct (coinbase_total_exact b Hu (prevalidate_overflow _ _ _ _ Hpre)) as [Hct Hpu].
  rewrite (validate_cases c parse_address cv b height size already fee txs med r e Hz Hm Hrew), Hct in Hval.
  destruct (efier_rewards_total c parse_address cv b txs Hff) as [Hsum Hcase]. rewrite Hsum in Hval.
  destruct Hff as [Hb Hd Hs _]. unfold is_u64 in *.
  set (paid := outs_total _) in *. set (eft := sumZ (map snd _)) in *.
  rewrite Z.leb_antisym in Hval. destruct (block_version c cv height <? BLOCK_MAJOR_VERSION_10); cbn [negb] in Hval.
  - destruct (Z.ltb_spec r paid); [done |]. destruct (Z.eqb_spec paid r); injection Hval as <- <-; lia.
  - rewrite (u64_small (r - _)), u64_small in Hval by lia.
    destruct (Z.eqb_spec paid (r - Z.min (banking_fees cv txs) r + eft)) as [E |]; [| done].
    injection Hval as <- <-. split; [done |]. split; [lia | done].
Qed.

(** When a node accepts its own template.  From version 10 on the template splits the Elderfier
    shares out of the block reward while the validation subtracts the banking fees: a block that
    is built by [constructMinerTx] for exactly the reward passes [validate_miner_transaction] if
    and only if the shares paid equal the banking fees.  It is rejected when there
    is a swap drip to pay, and when the fees are too small to be shared. *)
Theorem template_accepted_iff (c : Currency) (gkd : bytes -> bytes -> option bytes) (dpk : bytes -> Z -> bytes -> option bytes)
    (parse_address : bytes -> option AccountPublicAddress)
    (cv : ChainView) (b : Block) (height size already fee : Z) (txs : list Transaction) (med r e : Z)
    (txPub txSec : bytes) (minerAddress : AccountPublicAddress) (tx : Transaction) (nonce : bytes) (maxOuts : nat) :
  let rewards := efier_rewards c parse_address cv b txs in
  BLOCK_MAJOR_VERSION_10 <= block_version c cv height ->
  is_in_checkpoint_zone (cv_checkpoints cv) height = false ->
  fees_fit c cv txs -> is_u64 r ->
  medianValue (get_last_n_blocks_sizes (cv_sizes cv) (m_rewardBlocksWindow c)) = Ret med ->
  getBlockReward c (block_version c cv height) med size already fee (burned_before cv height) = Ret (Some (r, e)) ->
  Z.of_nat (length nonce) <= TX_EXTRA_NONCE_MAX_COUNT -> (1 <= maxOuts)%nat ->
  derivable gkd dpk txSec minerAddress -> Forall (derivable gkd dpk txSec) (map fst rewards) ->
  sumZ (map snd rewards) <= r -> banking_fees cv txs <= r ->
  constructMinerTx c gkd dpk txPub txSec (block_version c cv height) height med already size fee minerAddress tx
    nonce maxOuts (burned_before cv height) rewards = Ret (Some (b_baseTransaction b)) ->
  validate_miner_transaction c parse_address cv b height size already fee txs = Ret (Some (r, e))
  <-> sumZ (map snd rewards) = banking_fees cv txs.
Proof.
  intros rewards Hver Hz Hff Hr Hm Hrew Hn Hmo Hmd Hed Hsum Hbf Hcons.
  assert (Hnn : Forall (Z.le 0) (map snd rewards)) by (apply efier_rewards_nonneg).
  destruct (constructMinerTx_spec c gkd dpk txPub txSec (block_version c cv height) height med already size fee
    minerAddress tx nonce maxOuts (burned_before cv height) rewards r e) as (tx' & Htx & Htot & _);
    [done | done | destruct Hff; lia | done | done | done | done | done | done | lia |].
  rewrite Hcons in Htx. injection Htx as <-.
  assert (Hct : coinbase_total b = r).
  { unfold coinbase_total. change 0 with (u64 0) at 1. rewrite fold_u64_sum, <- outs_total_sum, Htot.
    by apply u64_small. }
  rewrite (validate_cases c parse_address cv b height size already fee txs med r e Hz Hm Hrew), Hct.
  destruct (efier_rewards_total c parse_address cv b txs Hff) as [Heq Hcase].
  fold rewards. fold rewards in Heq, Hcase. rewrite Heq. destruct Hff as [Hb Hd _ _]. unfold is_u64 in Hr.
  apply sumZ_nonneg in Hnn. destruct (Z.leb_spec BLOCK_MAJOR_VERSION_10 (block_version c cv height)); [| lia].
  rewrite Z.min_l, (u64_small (r - _)) by lia.
  destruct (u64_add_cases (r - banking_fees cv txs) (sumZ (map snd rewards))) as [[Hlt ->] | [Hge ->]];
    [unfold is_u64; lia | unfold is_u64; lia | |].
  - destruct (Z.eqb_spec r (r - banking_fees cv txs + sumZ (map snd rewards))); split; try done; lia.
  - destruct (Z.eqb_spec r (r - banking_fees cv txs + sumZ (map snd rewards) - 2 ^ 64)); split; try done; lia.
Qed.

(** ** A concrete block at version 10 *)

Module Demo.
Definition chain : ChainView :=
  mkChainView [3000; 4000] (fun _ => UNDEF_HEIGHT) [] bi_empty [mkRegistration [] [] 1 [] ACTIVE 0 0; mkRegistration [] [] 2 [] ACTIVE 0 0]
    (<[1 := [97]]> (<[2 := [98; 98]]> ∅)) 2 0.
Definition parse_address (s : bytes) : option AccountPublicAddress :=
  Some (mkAddress [Z.of_nat (length s)] [7]).
Definition gkd (view sec : bytes) : option bytes := Some (view ++ sec).
Definition dpk (d : bytes) (i : Z) (spend : bytes) : option bytes := Some (d ++ i :: spend).
Definition deposit_tx : Transaction := 
  mkTransaction 2 0 [] [] (addColdCommitmentToExtra [] (mkCold (replicate 32 7) 800000000 16440 1 [] [])) [].
Definition empty_tx : Transaction := mkTransaction 0 0 [] [] [] [].
Definition block_of (tx : Transaction) : Block :=
  mkBlock 10 0 0 0 NULL_HASH (mkParentBlock 0 0 NULL_HASH 0 [] empty_tx []) tx [].
Definition template : outcome (option Transaction) :=
  constructMinerTx testnet gkd dpk [7] [8] 10 30 3500 40000000000000 5000 2000000 (mkAddress [1] [2]) empty_tx [] 11 0
    (efier_rewards testnet parse_address chain (block_of empty_tx) [deposit_tx]).
Definition block : Block :=
  block_of (match template with Ret (Some tx) => tx | _ => empty_tx end).
Lemma fees : fees_fit testnet chain [deposit_tx].
Proof. split; vm_compute; congruence. Qed.
End Demo.

Lemma coinbase_bounded_witness :
  let paid := outs_total (tx_outputs (b_baseTransaction Demo.block)) in
  let efiers := sumZ (map snd (efier_rewards testnet Demo.parse_address Demo.chain Demo.block
                                 [Demo.deposit_tx])) in
  paid = 40147056 - Z.min 1600000 40147056 + efiers /\ paid <= Z.max 40147056 1600000 + 0
  /\ 40147056 = 40147056 /\ 38147056 = 38147056.
Proof.
  refine (coinbase_bounded testnet (fun _ => true) Demo.parse_address Demo.chain Demo.block
    30 5000 40000000000000 2000000 [Demo.deposit_tx] 40147056 38147056 3500 40147056 38147056 _ _ Demo.fees _ _ _ _ _ _).
  - replace (map out_amount _) with [56; 7000; 40000; 500000; 8000000; 30000000; 800000; 800000]
      by (vm_compute; reflexivity).
    repeat constructor; lia.
  - vm_compute. reflexivity.
  - unfold is_u64. lia.
  - vm_compute. reflexivity.
  - vm_compute. reflexivity.
  - vm_compute. reflexivity.
  - vm_compute. reflexivity.
  - vm_compute. reflexivity.
Defined.

Lemma template_accepted_iff_witness :
  let rewards := efier_rewards testnet Demo.parse_address Demo.chain Demo.block [Demo.deposit_tx] in
  validate_miner_transaction testnet Demo.parse_address Demo.chain Demo.block 30 5000 40000000000000
    2000000 [Demo.deposit_tx] = Ret (Some (40147056, 38147056))
  <-> sumZ (map snd rewards) = banking_fees Demo.chain [Demo.deposit_tx].
Proof.
  refine (template_accepted_iff testnet Demo.gkd Demo.dpk Demo.parse_address Demo.chain Demo.block
    30 5000 40000000000000 2000000 [Demo.deposit_tx] 3500 40147056 38147056 [7] [8] (mkAddress [1] [2]) Demo.empty_tx
    [] 11 _ _ Demo.fees _ _ _ _ _ _ _ _ _ _).
  - vm_compute. discriminate.
  - vm_compute. reflexivity.
  - unfold is_u64. lia.
  - vm_compute. reflexivity.
  - vm_compute. reflexivity.
  - vm_compute. discriminate.
  - lia.
  - intros i a. eexists. reflexivity.
  - apply Forall_forall. intros ad _ i a. eexists. reflexivity.
  - vm_compute. discriminate.
  - vm_compute. discriminate.
  - vm_compute. reflexivity.
Defined.
