(* ===== verification/Chain.v ===== *)
(** The chain of blocks: [pushBlock], [popBlock] and [removeLastBlock] of
    [src/src/CryptoNoteCore/Blockchain.cpp] with the checks of a block, on top of the components that model the
    members of [Blockchain].

    [m_blocks] is the list that [SwappedVector.v] refines; a read out of range throws.  The transaction pool
    is behind the class [TxPool].  The clock, the curve, the slow hash, the floating-point difficulty of
    version 3 and the members that the code reads without having set them are parameters. *)

From S2P Require Import Prelude Config Currency Types Amounts TxChecks TransactionExtra Codec Emission DifficultyAlgo BankingIndex ChainStore.
From S2P Require Import UpgradeDetector Checkpoints InputChecks CommitmentStore Elderfiers BlockEffects Serialization BlockIndices ProofOfWork MinerTx.
From S2P Require Sync.

(** What the chain asks of the pool: a look at a transaction, [take_tx], and [add_tx] with [keptByBlock] and a height. *)
Class TxPool (P : Type) := {
  pool_get : P -> Hash -> option Transaction;
  pool_take : P -> Hash -> outcome (option Transaction * P);
  pool_add : P -> Transaction -> Z -> outcome (bool * P)
}.

(** The accounts of the swap fees, which belong to no other component. *)
Record EpochFees := mkFees {
  m_currentEpochSwapFees : Z;
  m_activeEfierCount : Z;
  m_efierSwapRewardPerBlock : Z;
  m_efierSwapRewardRemaining : Z;
  m_treasuryBalance : Z;
  m_totalSwapFeesCollected : Z;
  m_totalTreasuryAccrued : Z;
  m_totalEfierSwapPaid : Z
}.

Definition no_fees : EpochFees := mkFees 0 0 0 0 0 0 0 0.

Record Blockchain (P : Type) := mkChain {
  m_blocks : list BlockEntry;
  m_blockIndex : Sync.BlockIndex;
  m_timestampIndex : list (Z * Hash);
  m_generatedTransactionsIndex : GeneratedTransactionsIndex;
  m_store : Store;
  m_bankingIndex : BankingIndex;
  m_commitmentIndex : CommitmentIndex;
  m_fees : EpochFees;
  m_detectors : list Z;  (* [m_votingCompleteHeight] of [m_upgradeDetectorV2] to [V10] *)
  m_current_block_cumul_sz_limit : Z;
  m_eternalFlame : Z;
  m_tx_pool : P
}.
Arguments mkChain {P}.
Arguments m_blocks {P}.
Arguments m_blockIndex {P}.
Arguments m_timestampIndex {P}.
Arguments m_generatedTransactionsIndex {P}.
Arguments m_store {P}.
Arguments m_bankingIndex {P}.
Arguments m_commitmentIndex {P}.
Arguments m_fees {P}.
Arguments m_detectors {P}.
Arguments m_current_block_cumul_sz_limit {P}.
Arguments m_eternalFlame {P}.
Arguments m_tx_pool {P}.

(** [get_block_hash(b)]: the null hash when it fails. *)
Definition block_hash (b : Block) : outcome Hash := r ← get_block_hash b; Ret (default NULL_HASH r).

(** [getObjectHash] of the prefix of a transaction. *)
Definition tx_prefix_hash (tx : Transaction) : Hash :=
  match catch (write_prefix tx) with Some ba => getBinaryArrayHash ba | None => NULL_HASH end.

Definition payment_id (tx : Transaction) : option Hash := explorerPaymentId (tx_extra tx).

(** [getOutputAmount] of [CryptoNoteTools.cpp]. *)
Definition getOutputAmount (tx : Transaction) : Z := foldl (fun amount o => u64 (amount + out_amount o)) 0 (tx_outputs tx).

(** What the detectors read of the blocks. *)
Definition versions (blocks : list BlockEntry) : list BlockVersion :=
  map (fun e => mkVersion (b_majorVersion (be_bl e)) (b_minorVersion (be_bl e))) blocks.

(** The target versions of the nine detectors. *)
Definition targets : list Z := [2; 3; 4; 5; 6; 7; 8; 9; 10].

Section Transactions.
Context {P : Type} `{TxPool P}.

(** * The pool *)

(** Back into the pool, last taken first. *)
Fixpoint add_back (taken : list Transaction) (height : Z) (p : P) : outcome P :=
  match taken with
  | [] => Ret p
  | tx :: taken =>
      '(ok, p) ← pool_add p tx height;
      if negb ok then Throw "Blockchain::loadTransactions, failed to add transaction to pool" else add_back taken height p
  end.

(** [taken] holds the transactions so far, last first. *)
Fixpoint take_loop (hashes : list Hash) (taken : list Transaction) (height : Z) (p : P) : outcome (option (list Transaction) * P) :=
  match hashes with
  | [] => Ret (Some (rev taken), p)
  | h :: hashes =>
      '(r, p) ← pool_take p h;
      match r with
      | Some tx => take_loop hashes (tx :: taken) height p
      | None => p ← add_back taken height p; Ret (None, p)
      end
  end.

Definition loadTransactions (block : Block) (height : Z) (p : P) : outcome (option (list Transaction) * P) :=
  take_loop (b_transactionHashes block) [] height p.

(** A transaction that the pool refuses is lost. *)
Fixpoint save_loop (txs : list Transaction) (height : Z) (p : P) : outcome P :=
  match txs with
  | [] => Ret p
  | tx :: txs => '(_, p) ← pool_add p tx height; save_loop txs height p
  end.

Definition saveTransactions (transactions : list Transaction) (height : Z) (p : P) : outcome P := save_loop (rev transactions) height p.

End Transactions.

Section Chain.
Context {P : Type} `{TxPool P}.
Context (c : Currency).
Context (check_key : bytes -> bool) (parseAccountAddressString : bytes -> option AccountPublicAddress).
Context (key_image_in_domain : bytes -> bool).
Context (check_ring_signature : Hash -> bytes -> list bytes -> list bytes -> bool).
Context (check_signature : Hash -> bytes -> bytes -> bool).
Context (cn_slow_hash : bytes -> Z -> Z -> Hash) (m_genesisBlockHash : Hash).
Context (nextDifficultyV3 : list Z -> list Z -> outcome Z).
Context (m_checkpoints : points).
Context (m_is_in_checkpoint_zone : bool) (blockMajorVersion : Z).
Context (consensus : TransactionExtraElderfierMessage -> Consensus).
(** [get_adjusted_time()]. *)
Context (now : Z).

Abbreviation Chain := (Blockchain P).

Definition with_pool (p : P) (bc : Chain) : Chain :=
  mkChain (m_blocks bc) (m_blockIndex bc) (m_timestampIndex bc) (m_generatedTransactionsIndex bc) (m_store bc) (m_bankingIndex bc)
    (m_commitmentIndex bc) (m_fees bc) (m_detectors bc) (m_current_block_cumul_sz_limit bc) (m_eternalFlame bc) p.

Definition with_store (s : Store) (bc : Chain) : Chain :=
  mkChain (m_blocks bc) (m_blockIndex bc) (m_timestampIndex bc) (m_generatedTransactionsIndex bc) s (m_bankingIndex bc)
    (m_commitmentIndex bc) (m_fees bc) (m_detectors bc) (m_current_block_cumul_sz_limit bc) (m_eternalFlame bc) (m_tx_pool bc).

(** The members that the blocks of the chain are read from. *)
Definition with_blocks (blocks : list BlockEntry) (index : Sync.BlockIndex) (timestamps : list (Z * Hash)) (generated : GeneratedTransactionsIndex)
    (bc : Chain) : Chain :=
  mkChain blocks index timestamps generated (m_store bc) (m_bankingIndex bc)
    (m_commitmentIndex bc) (m_fees bc) (m_detectors bc) (m_current_block_cumul_sz_limit bc) (m_eternalFlame bc) (m_tx_pool bc).

Definition with_ledgers (s : Store) (b : BankingIndex) (x : CommitmentIndex) (f : EpochFees) (flame : Z) (bc : Chain) : Chain :=
  mkChain (m_blocks bc) (m_blockIndex bc) (m_timestampIndex bc) (m_generatedTransactionsIndex bc) s b x f (m_detectors bc)
    (m_current_block_cumul_sz_limit bc) flame (m_tx_pool bc).

Definition with_detectors (v : list Z) (bc : Chain) : Chain :=
  mkChain (m_blocks bc) (m_blockIndex bc) (m_timestampIndex bc) (m_generatedTransactionsIndex bc) (m_store bc) (m_bankingIndex bc)
    (m_commitmentIndex bc) (m_fees bc) v (m_current_block_cumul_sz_limit bc) (m_eternalFlame bc) (m_tx_pool bc).

Definition with_limit (limit : Z) (bc : Chain) : Chain :=
  mkChain (m_blocks bc) (m_blockIndex bc) (m_timestampIndex bc) (m_generatedTransactionsIndex bc) (m_store bc) (m_bankingIndex bc)
    (m_commitmentIndex bc) (m_fees bc) (m_detectors bc) limit (m_eternalFlame bc) (m_tx_pool bc).

(** * The checks of a block *)

(** The members that the coinbase validation reads. *)
Definition view (bc : Chain) : ChainView :=
  mkChainView (map be_block_cumulative_size (m_blocks bc)) (fun version => nth (Z.to_nat (version - 2)) (m_detectors bc) UNDEF_HEIGHT)
    m_checkpoints (m_bankingIndex bc) (registrations (ci_registry (m_commitmentIndex bc)))
    (m_elderfierAddresses (ci_registry (m_commitmentIndex bc))) (m_activeEfierCount (m_fees bc)) (m_efierSwapRewardPerBlock (m_fees bc)).

Definition majorVersionForHeight (bc : Chain) (height : Z) : Z := getBlockMajorVersionForHeight c (view bc) height.

Definition getTailId (bc : Chain) : outcome Hash :=
  match m_blocks bc with [] => Ret NULL_HASH | _ => Sync.getTailId (m_blockIndex bc) end.

Definition getBlockIdByHeight (bc : Chain) (height : Z) : outcome Hash :=
  _ ← assert_ (height <? Sync.size (m_blockIndex bc)); Sync.getBlockId (m_blockIndex bc) height.

Definition checkBlockVersion (bc : Chain) (b : Block) : bool :=
  let expectedBlockVersion := majorVersionForHeight bc (get_block_height b) in
  if negb (b_majorVersion b =? expectedBlockVersion) then false
  else negb ((b_majorVersion b =? BLOCK_MAJOR_VERSION_2) && (BLOCK_MAJOR_VERSION_1 <? pb_majorVersion (b_parentBlock b))).

Definition checkParentBlockSize (b : Block) : bool :=
  if BLOCK_MAJOR_VERSION_2 <=? b_majorVersion b then
    match catch (write_parent false false (pb_transactionCount (b_parentBlock b)) b) with
    | None => false
    | Some parent => Z.of_nat (length parent) <=? 2 * 1024
    end
  else true.

Definition check_block_timestamp (timestamps : list Z) (b : Block) : outcome bool :=
  if Z.of_nat (length timestamps) <? timestampCheckWindow c (b_majorVersion b) then Ret true
  else median_ts ← medianValue timestamps; Ret (negb (b_timestamp b <? median_ts)).

(** The times of the last blocks, as many as the window takes. *)
Definition last_timestamps (bc : Chain) (window : Z) : list Z :=
  let size := Z.of_nat (length (m_blocks bc)) in
  let offset := if size <=? window then 0 else size - window in
  map (fun e => b_timestamp (be_bl e)) (drop (Z.to_nat offset) (m_blocks bc)).

Definition check_block_timestamp_main (bc : Chain) (b : Block) : outcome bool :=
  if u64 (now + blockFutureTimeLimit c (b_majorVersion b)) <? b_timestamp b then Ret false
  else check_block_timestamp (last_timestamps bc (timestampCheckWindow c (b_majorVersion b))) b.

(** The difficulty after the checkpoints is fixed for a while. *)
Definition getDifficultyForNextBlock (bc : Chain) : outcome Z :=
  let currentHeight := u32 (Z.of_nat (length (m_blocks bc))) in
  let version := majorVersionForHeight bc currentHeight in
  let difficultyWindow := difficultyBlocksCountByBlockVersion c version in
  let lastCheckpointHeight := default 0 (last (getCheckpointHeights m_checkpoints)) in
  if (0 <? lastCheckpointHeight) && (lastCheckpointHeight <? currentHeight)
     && (currentHeight <=? lastCheckpointHeight + difficultyWindow + 10) then Ret 500000
  else
    let size := Z.of_nat (length (m_blocks bc)) in
    let offset := size - Z.min size difficultyWindow in
    let offset := if offset =? 0 then 1 else offset in
    let window := drop (Z.to_nat offset) (m_blocks bc) in
    nextDifficulty c nextDifficultyV3 currentHeight version (map (fun e => b_timestamp (be_bl e)) window) (map be_cumulative_difficulty window).

Definition checkCumulativeBlockSize (cumulativeBlockSize height : Z) : outcome bool :=
  maxBlockCumulativeSize ← Currency.maxBlockCumulativeSize c height; Ret (cumulativeBlockSize <=? maxBlockCumulativeSize).

Definition update_next_comulative_size_limit (bc : Chain) : outcome Chain :=
  let nextBlockGrantedFullRewardZone :=
    blockGrantedFullRewardZoneByBlockVersion c (majorVersionForHeight bc (u32 (Z.of_nat (length (m_blocks bc))))) in
  median ← medianValue (get_last_n_blocks_sizes (map be_block_cumulative_size (m_blocks bc)) (m_rewardBlocksWindow c));
  let median := if median <=? nextBlockGrantedFullRewardZone then nextBlockGrantedFullRewardZone else median in
  Ret (with_limit (u64 (median * 2)) bc).

(** Checkpoints inside their zone, proof of work outside. *)
Definition check_work (bc : Chain) (b : Block) (blockHash : Hash) (currentDifficulty : Z) : outcome bool :=
  if is_in_checkpoint_zone m_checkpoints (currentHeight (m_blocks bc))
  then Ret (check_block (Some c) m_checkpoints (currentHeight (m_blocks bc)) blockHash).1
  else checkProofOfWork cn_slow_hash m_genesisBlockHash b currentDifficulty.

(** * The transactions of a block *)

Definition entry_of (b : Block) (height : Z) (transactions : list TransactionEntry) : BlockEntry :=
  mkBlockEntry b height 0 0 0 transactions.

(** [pushTransaction(block, hash, index)]: the entry of the block at the index gets its output indexes. *)
Definition push_at (s : Store) (height : Z) (transactions : list TransactionEntry) (hash : Hash) (index : TransactionIndex)
    : outcome (bool * Store * list TransactionEntry) :=
  e ← vec_at transactions (ti_transaction index);
  '(ok, s, e) ← pushTransaction payment_id getObjectHash s height e hash index;
  Ret (ok, s, <[Z.to_nat (ti_transaction index) := e]> transactions).

Definition inputs_accepted (bc : Chain) (s : Store) (tx : Transaction) : outcome bool :=
  '(ok, _) ← checkTransactionInputs c (m_blocks bc) s m_checkpoints (m_epochFeeRates (ci_epochs (m_commitmentIndex bc)))
               m_is_in_checkpoint_zone blockMajorVersion now key_image_in_domain check_ring_signature check_signature
               tx (tx_prefix_hash tx) None;
  Ret ok.

Definition transaction_fee (b : Block) (height : Z) (tx : Transaction) : outcome Z :=
  in_amount ← getTransactionAllInputsAmount c tx height;
  let out_amount := getOutputAmount tx in
  Ret (if in_amount <? out_amount then minimumFee c (b_majorVersion b) else in_amount - out_amount).

(** The loop over the transactions: what [pushTransaction] answers is not looked at; [None] in the answer is
    a transaction that was refused, with the entries before it.  The number of the transaction has 16 bits. *)
Fixpoint push_txs (bc : Chain) (b : Block) (height : Z) (txs : list Transaction) (hashes : list Hash) (k : Z)
    (s : Store) (entries : list TransactionEntry) (size fees : Z) : outcome (option (Z * Z) * Store * list TransactionEntry) :=
  match txs with
  | [] => Ret (Some (size, fees), s, entries)
  | tx :: txs =>
      match hashes with
      | [] => Undefined
      | hash :: hashes =>
          fee ← transaction_fee b height tx;
          let versionOk := negb ((b_majorVersion b <? BLOCK_MAJOR_VERSION_8) && (TRANSACTION_VERSION_1 <? tx_version tx)) in
          inputsOk ← inputs_accepted bc s tx;
          if negb (versionOk && inputsOk && check_tx_outputs c tx height) then Ret (None, s, entries)
          else
            let k := u16 (k + 1) in
            '(_, s, entries) ← push_at s height (entries ++ [mkTxEntry tx []]) hash (mkTxIndex height k);
            push_txs bc b height txs hashes k s entries (size + Z.of_nat (length (default [] (toBinaryArray tx)))) (u64 (fees + fee))
      end
  end.

(** * Epochs *)

Definition epochDuration : Z := if m_testnet c then TESTNET_EPOCH_DURATION_BLOCKS else EPOCH_DURATION_BLOCKS.

(** The members of the report that the chain fills in. *)
Definition filled_report (r : EpochReport) (swapFees cdLocked rate : Z) : EpochReport :=
  mkEpochReport (er_epochNumber r) (er_epochStartBlock r) (er_epochEndBlock r) (er_generatedAtBlock r) (er_efierActivity r)
    (er_signingEfierIds r) (er_missingEfierIds r) (er_doubleSignEvents r) (er_totalFeesDistributed r) (er_activeEfierCount r)
    (er_participatingEfierCount r) swapFees cdLocked rate (er_slash_advisory r).

(** The swap fees of an epoch: the shares of the Elderfiers and of the treasury leave the fee pool. *)
Definition close_epoch (epochNumber newHeight : Z) (s : Store) (x : CommitmentIndex) (f : EpochFees) : Store * CommitmentIndex * EpochFees :=
  let epochStart := u64 (u64 (epochNumber - 1) * epochDuration) in
  let epochEnd := u64 (epochStart + epochDuration - 1) in
  let epochSwapFees := m_currentEpochSwapFees f in
  let epochCdLocked := m_totalCdLocked s in
  let efierSwapShare := u64 (epochSwapFees * SWAP_FEE_EFIER_SHARE_PCT) / 100 in
  let treasuryShare := u64 (epochSwapFees * SWAP_FEE_TREASURY_SHARE_PCT) / 100 in
  let cdSwapShare := u64 (epochSwapFees - efierSwapShare - treasuryShare) in
  let epochFeeRate :=
    if (0 <? epochCdLocked) && (0 <? cdSwapShare) then u64 (cdSwapShare * FEE_POOL_RATE_PRECISION) / epochCdLocked else 0 in
  let x := recordEpochFeeRate x epochNumber epochFeeRate in
  let totalNonCdShare := u64 (efierSwapShare + treasuryShare) in
  let paid := (0 <? totalNonCdShare) && (totalNonCdShare <=? m_feePoolBalance s) in
  let s := if paid then with_deposits (m_totalCdLocked s) (m_feePoolBalance s - totalNonCdShare) (m_totalCdInterestPaid s) s else s in
  let report := generateEpochReport x epochNumber epochStart epochEnd newHeight in
  let f := mkFees 0 (er_activeEfierCount report)
             (if paid then efierSwapShare / epochDuration else 0) (if paid then efierSwapShare else 0)
             (if paid then u64 (m_treasuryBalance f + treasuryShare) else m_treasuryBalance f)
             (u64 (m_totalSwapFeesCollected f + epochSwapFees))
             (if paid then u64 (m_totalTreasuryAccrued f + treasuryShare) else m_totalTreasuryAccrued f)
             (m_totalEfierSwapPaid f) in
  (s, storeEpochReport x (filled_report report epochSwapFees epochCdLocked epochFeeRate), f).

(** * Pushing a block *)

(** [pushBlock(BlockEntry&)]: what [add] of the indices answers is not looked at. *)
Definition append_block (block : BlockEntry) (bc : Chain) : outcome Chain :=
  blockHash ← block_hash (be_bl block);
  '(_, generated) ← generated_add (m_generatedTransactionsIndex bc) (be_bl block);
  let blocks := m_blocks bc ++ [block] in
  let bc := with_blocks blocks (Sync.push (m_blockIndex bc) blockHash).2 (timestamp_add (b_timestamp (be_bl block)) blockHash (m_timestampIndex bc))
              generated bc in
  _ ← assert_ (Sync.size (m_blockIndex bc) =? Z.of_nat (length blocks));
  let x := checkAndFlushThreshold (m_commitmentIndex bc) in
  let newHeight := u32 (u32 (Z.of_nat (length blocks)) - 1) in
  let '(s, x, f) :=
    if (0 <? newHeight) && (newHeight mod epochDuration =? 0)
    then close_epoch (newHeight / epochDuration) newHeight (m_store bc) x (m_fees bc)
    else (m_store bc, x, m_fees bc) in
  Ret (with_ledgers s (m_bankingIndex bc) x f (m_eternalFlame bc) bc).

Definition push_detectors (bc : Chain) : outcome Chain :=
  v ← mapM (fun tv => blockPushed c tv.1 (versions (m_blocks bc)) tv.2) (zip targets (m_detectors bc)); Ret (with_detectors v bc).

(** The ledgers after a block: commitments and burns, the banking fee of the block, the drip of the swap rewards. *)
Definition record_effects (block : BlockEntry) (bc : Chain) : outcome Chain :=
  '(x, outputs, banking, flame) ←
    pushToBankingIndex c check_signature consensus getObjectHash (m_blocks bc) (m_transactionMap (m_store bc)) (be_height block)
      (be_transactions block) 0 (m_commitmentIndex bc) (m_commitmentOutputs (m_store bc)) (m_bankingIndex bc);
  let s := ChainStore.with_commitments outputs (m_totalCdLocked (m_store bc)) (m_store bc) in
  let blockHeight := u32 (u32 (Z.of_nat (length (m_blocks bc))) - 1) in
  let f := m_fees bc in
  let blockBankingFee := computeBankingFeesFromTransactions (map te_tx (drop 1 (be_transactions block))) (m_activeEfierCount f) in
  let x := if 0 <? blockBankingFee then addBlockBankingFee x blockHeight blockBankingFee else x in
  let f := if (0 <? m_efierSwapRewardPerBlock f) && (m_efierSwapRewardPerBlock f <=? m_efierSwapRewardRemaining f)
           then mkFees (m_currentEpochSwapFees f) (m_activeEfierCount f) (m_efierSwapRewardPerBlock f)
                  (m_efierSwapRewardRemaining f - m_efierSwapRewardPerBlock f) (m_treasuryBalance f) (m_totalSwapFeesCollected f)
                  (m_totalTreasuryAccrued f) (u64 (m_totalEfierSwapPaid f + m_efierSwapRewardPerBlock f))
           else f in
  Ret (with_ledgers s banking x f (default (m_eternalFlame bc) flame) bc).

(** The checks that come before the chain is touched; the difficulty of the block. *)
Definition check_header (b : Block) (blockHash : Hash) (bc : Chain) : outcome (option Z) :=
  if Sync.hasBlock (m_blockIndex bc) blockHash then Ret None
  else if negb (checkBlockVersion bc b) then Ret None
  else if negb (checkParentBlockSize b) then Ret None
  else
    tail ← getTailId bc;
    if negb (bool_decide (b_previousBlockHash b = tail)) then Ret None
    else
      timeOk ← check_block_timestamp_main bc b;
      if negb timeOk then Ret None
      else
        currentDifficulty ← getDifficultyForNextBlock bc;
        if currentDifficulty =? 0 then Ret None
        else
          workOk ← check_work bc b blockHash currentDifficulty;
          if negb workOk then Ret None
          else
            coinbaseOk ← prevalidate_miner_transaction c check_key b (u32 (Z.of_nat (length (m_blocks bc))));
            Ret (if coinbaseOk : bool then Some currentDifficulty else None).

(** [pushBlock(blockData, transactions, id, bvc)]; a block that is too big is refused with its transactions
    left in the store. *)
Definition pushBlock (b : Block) (transactions : list Transaction) (bc : Chain) : outcome (bool * Chain) :=
  blockHash ← block_hash b;
  header ← check_header b blockHash bc;
  match header with
  | None => Ret (false, bc)
  | Some currentDifficulty =>
      let minerTransactionHash := getObjectHash (b_baseTransaction b) in
      let height := u32 (Z.of_nat (length (m_blocks bc))) in
      '(_, s, entries) ← push_at (m_store bc) height [mkTxEntry (b_baseTransaction b) []] minerTransactionHash (mkTxIndex height 0);
      '(r, s, entries) ← push_txs bc b height transactions (b_transactionHashes b) 0 s entries (getObjectBinarySize (b_baseTransaction b)) 0;
      let pop := popTransactions payment_id getObjectHash s (entry_of b height entries) minerTransactionHash in
      match r with
      | None => s ← pop; Ret (false, with_store s bc)
      | Some (cumulative_block_size, fee_summary) =>
          sizeOk ← checkCumulativeBlockSize cumulative_block_size (Z.of_nat (length (m_blocks bc)));
          if negb sizeOk then Ret (false, with_store s bc)
          else
            let already_generated_coins := match last (m_blocks bc) with Some e => be_already_generated_coins e | None => 0 end in
            m ← validate_miner_transaction c parseAccountAddressString (view bc) b height cumulative_block_size
                  already_generated_coins fee_summary transactions;
            match m with
            | None => s ← pop; Ret (false, with_store s bc)
            | Some (_, emissionChange) =>
                let block :=
                  mkBlockEntry b height cumulative_block_size
                    (u64 (currentDifficulty + match last (m_blocks bc) with Some e => be_cumulative_difficulty e | None => 0 end))
                    (u64 (already_generated_coins + emissionChange)) entries in
                bc ← append_block block (with_store s bc);
                bc ← record_effects block bc;
                bc ← push_detectors bc;
                bc ← update_next_comulative_size_limit bc;
                Ret (true, bc)
            end
      end
  end.

(** [pushBlock(blockData, id, bvc, height)]: the transactions come from the pool and go back when the block is refused. *)
Definition pushBlockFromPool (b : Block) (height : Z) (bc : Chain) : outcome (bool * Chain) :=
  '(txs, p) ← loadTransactions b height (m_tx_pool bc);
  let bc := with_pool p bc in
  match txs with
  | None => Ret (false, bc)
  | Some txs =>
      '(ok, bc) ← pushBlock b txs bc;
      if ok : bool then Ret (true, bc)
      else p ← saveTransactions txs height (m_tx_pool bc); Ret (false, with_pool p bc)
  end.

(** * Popping a block *)

Definition removeLastBlock (bc : Chain) : outcome (bool * Chain) :=
  match last (m_blocks bc) with
  | None => Ret (false, bc)
  | Some e =>
      s ← popTransactions payment_id getObjectHash (m_store bc) e (getObjectHash (b_baseTransaction (be_bl e)));
      banking ← BankingIndex.popBlock (m_bankingIndex bc);
      let flame := syncEternalFlame c (getBurnedXfgAmount banking) in
      blockHash ← getBlockIdByHeight bc (be_height e);
      '(_, generated) ← generated_remove (m_generatedTransactionsIndex bc) (be_bl e);
      index ← Sync.pop (m_blockIndex bc);
      let blocks := pop_back (m_blocks bc) in
      let timestamps := (timestamp_remove (b_timestamp (be_bl e)) blockHash (m_timestampIndex bc)).2 in
      _ ← assert_ (Sync.size index =? Z.of_nat (length blocks));
      Ret (true, with_blocks blocks index timestamps generated
                   (with_ledgers s banking (m_commitmentIndex bc) (m_fees bc) flame bc))
  end.

Definition pop_detectors (bc : Chain) : outcome Chain :=
  v ← mapM (fun tv => blockPopped c tv.1 (versions (m_blocks bc)) tv.2) (zip targets (m_detectors bc)); Ret (with_detectors v bc).

(** [popBlock] pops the last block and then calls [removeLastBlock]. *)
Definition popBlock (blockHash : Hash) (bc : Chain) : outcome Chain :=
  match last (m_blocks bc) with
  | None => Ret bc
  | Some e =>
      p ← saveTransactions (map te_tx (drop 1 (be_transactions e))) (u32 (Z.of_nat (length (m_blocks bc)))) (m_tx_pool bc);
      s ← popTransactions payment_id getObjectHash (m_store bc) e (getObjectHash (b_baseTransaction (be_bl e)));
      '(_, generated) ← generated_remove (m_generatedTransactionsIndex bc) (be_bl e);
      '(_, x) ← rollbackIndex (m_commitmentIndex bc) (be_height e);
      banking ← BankingIndex.popBlock (m_bankingIndex bc);
      index ← Sync.pop (m_blockIndex bc);
      let blocks := pop_back (m_blocks bc) in
      let timestamps := (timestamp_remove (b_timestamp (be_bl e)) blockHash (m_timestampIndex bc)).2 in
      _ ← assert_ (Sync.size index =? Z.of_nat (length blocks));
      let bc := with_pool p (with_blocks blocks index timestamps generated (with_ledgers s banking x (m_fees bc) (m_eternalFlame bc) bc)) in
      '(_, bc) ← removeLastBlock bc;
      pop_detectors bc
  end.

(** [while (height + 1 < m_blocks.size()) removeLastBlock();]: every round removes a block.  The sum has 32 bits. *)
Fixpoint rollback_loop (fuel : nat) (height : Z) (bc : Chain) : outcome Chain :=
  if u32 (height + 1) <? Z.of_nat (length (m_blocks bc)) then
    match fuel with
    | O => Undefined
    | S fuel => '(_, bc) ← removeLastBlock bc; rollback_loop fuel height bc
    end
  else Ret bc.

Definition rollbackBlockchainTo (height : Z) (bc : Chain) : outcome Chain := rollback_loop (length (m_blocks bc)) height bc.

End Chain.
