(* ===== verification/ChainInvariant.v ===== *)
(** What holds in every state that pushes, pops and rollbacks of [Chain.v] reach: the indices of the chain agree
    with its blocks, blocks link to each other, and no swap fee is ever collected or shared. *)

From S2P Require Import Prelude Config Currency Types Amounts TxChecks TransactionExtra Codec Emission DifficultyAlgo BankingIndex ChainStore.
From S2P Require Import UpgradeDetector Checkpoints InputChecks CommitmentStore Elderfiers BlockEffects Serialization BlockIndices ProofOfWork MinerTx Chain.
From S2P Require Sync.

(** What a block adds to the deposits: its deposits less its withdrawals, at the width of the code; interest is never recorded. *)
Definition block_deposit (e : BlockEntry) : Z * Z := (i64 (deposit_change (be_transactions e)), 0).

(** The deposit index represents the deposits of these blocks, and the totals never leave their types. *)
Definition ledger_ok (blocks : list BlockEntry) (d : DepositIndex) : Prop :=
  represents d (map block_deposit blocks) /\ history_ok (map block_deposit blocks).

Lemma zero_u64 : is_u64 0.
Proof. unfold is_u64. lia. Qed.

Lemma pop_snoc b hs h : Sync.m_container b = hs ++ [h] -> Sync.pop b = Ret (Sync.mkBlockIndex hs).
Proof. intros E. unfold Sync.pop. rewrite E. destruct (hs ++ [h]) eqn:E'; [by destruct hs |]. by rewrite <- E', pop_back_snoc. Qed.

Section Blocks.
Context {P : Type}.

Definition hashes (bc : Blockchain P) : list Hash := Sync.m_container (m_blockIndex bc).
Definition times (bc : Blockchain P) : list Z := map (fun e => b_timestamp (be_bl e)) (m_blocks bc).

(** The block of a height names the hash of the one before. *)
Definition linked (hs : list Hash) (i : nat) (e : BlockEntry) : Prop :=
  match i with O => b_previousBlockHash (be_bl e) = NULL_HASH | S i => hs !! i = Some (b_previousBlockHash (be_bl e)) end.

Definition at_height (i : nat) (e : BlockEntry) : Prop := be_height e = Z.of_nat i /\ base_height (be_bl e) = Ret (Z.of_nat i).

Record chain_ok (bc : Blockchain P) : Prop := {
  ok_hashes : Forall2 (fun e h => block_hash (be_bl e) = Ret h) (m_blocks bc) (hashes bc);
  ok_distinct : NoDup (hashes bc);
  ok_heights i e : m_blocks bc !! i = Some e -> at_height i e;
  ok_linked i e : m_blocks bc !! i = Some e -> linked (hashes bc) i e;
  ok_generated : generated_rep (map be_bl (m_blocks bc)) (m_generatedTransactionsIndex bc);
  ok_times : m_timestampIndex bc ≡ₚ zip (times bc) (hashes bc);
  ok_deposits : ledger_ok (m_blocks bc) (bi_deposits (m_bankingIndex bc));
  ok_length : Z.of_nat (length (m_blocks bc)) < 2 ^ 32
}.

Lemma length_hashes bc : chain_ok bc -> length (hashes bc) = length (m_blocks bc).
Proof. intros H. symmetry. eapply Forall2_length, ok_hashes, H. Qed.

(** The members that [chain_ok] speaks of. *)
Definition same_chain (bc bc' : Blockchain P) : Prop :=
  m_blocks bc' = m_blocks bc /\ m_blockIndex bc' = m_blockIndex bc /\ m_timestampIndex bc' = m_timestampIndex bc
  /\ m_generatedTransactionsIndex bc' = m_generatedTransactionsIndex bc.

Lemma same_chain_ok bc bc' :
  chain_ok bc -> same_chain bc bc' -> bi_deposits (m_bankingIndex bc') = bi_deposits (m_bankingIndex bc) -> chain_ok bc'.
Proof.
  intros [H1 H2 H3 H4 H5 H6 H7 H8] (Eb & Ei & Et & Eg) Ed.
  split; unfold hashes, times in *; rewrite ?Eb, ?Ei, ?Et, ?Eg, ?Ed; done.
Qed.

(** ** A block more, a block less *)

Lemma zip_snoc {A B} (l : list A) (k : list B) a b : length l = length k -> zip (l ++ [a]) (k ++ [b]) = zip l k ++ [(a, b)].
Proof. intros Hl. rewrite zip_with_app by done. done. Qed.

Lemma chain_ok_snoc bc bc' e h :
  chain_ok bc -> Z.of_nat (length (m_blocks bc)) + 1 < 2 ^ 32 ->
  block_hash (be_bl e) = Ret h -> h ∉ hashes bc -> at_height (length (m_blocks bc)) e ->
  b_previousBlockHash (be_bl e) = default NULL_HASH (last (hashes bc)) ->
  m_blocks bc' = m_blocks bc ++ [e] -> hashes bc' = hashes bc ++ [h] ->
  m_timestampIndex bc' ≡ₚ (b_timestamp (be_bl e), h) :: m_timestampIndex bc ->
  generated_rep (map be_bl (m_blocks bc ++ [e])) (m_generatedTransactionsIndex bc') ->
  ledger_ok (m_blocks bc ++ [e]) (bi_deposits (m_bankingIndex bc')) -> chain_ok bc'.
Proof.
  intros Hok Hlen Hh Hnew Hat Hprev Eb Eh Et Hg Hd. pose proof (length_hashes bc Hok) as Hl. destruct Hok as [H1 H2 H3 H4 H5 H6 H7 H8].
  split; rewrite ?Eb, ?Eh, ?length_app, ?Nat.add_1_r; try done.
  - by apply Forall2_app; [| constructor].
  - apply NoDup_app. split_and!; [done | | apply NoDup_singleton]. by intros x Hx ->%list_elem_of_singleton.
  - intros i x Hx. apply lookup_app_Some in Hx as [Hx | [Hge Hx]]; [by apply H3 |].
    destruct (i - length (m_blocks bc))%nat eqn:Ei; [| done]. injection Hx as ->. by replace i with (length (m_blocks bc)) by lia.
  - intros i x Hx. apply lookup_app_Some in Hx as [Hx | [Hge Hx]].
    + specialize (H4 i x Hx). destruct i as [| i]; [done |]. cbn in *. by apply lookup_app_l_Some.
    + destruct (i - length (m_blocks bc))%nat eqn:Ei; [| done]. injection Hx as ->.
      replace i with (length (m_blocks bc)) by lia. rewrite last_lookup in Hprev. unfold linked. rewrite Hprev.
      destruct (m_blocks bc) as [| e0 bs] eqn:E0.
      * cbn in Hl. apply nil_length_inv in Hl. by rewrite Hl.
      * cbn [length]. rewrite Hl. cbn [length pred]. destruct (lookup_lt_is_Some_2 (hashes bc) (length bs)) as [y Hy]; [rewrite Hl; cbn; lia |].
        rewrite lookup_app_l by (rewrite Hl; cbn; lia). by rewrite Hy.
  - unfold times. rewrite Eb, ?Eh, map_app. cbn [map]. rewrite zip_snoc by (rewrite length_map; lia).
    rewrite Et, H6. by rewrite Permutation_app_comm.
  - lia.
Qed.

Lemma chain_ok_init bc bc' e h blocks hs :
  chain_ok bc -> m_blocks bc = blocks ++ [e] -> hashes bc = hs ++ [h] ->
  m_blocks bc' = blocks -> hashes bc' = hs ->
  m_timestampIndex bc ≡ₚ (b_timestamp (be_bl e), h) :: m_timestampIndex bc' ->
  generated_rep (map be_bl blocks) (m_generatedTransactionsIndex bc') ->
  ledger_ok blocks (bi_deposits (m_bankingIndex bc')) -> chain_ok bc'.
Proof.
  intros [H1 H2 H3 H4 H5 H6 H7 H8] Eb Eh Eb' Eh' Et Hg Hd. rewrite Eb in *. rewrite Eh in *.
  rewrite length_app in H8. cbn [length] in H8. pose proof (Forall2_length _ _ _ H1) as Hl. rewrite !length_app in Hl. cbn [length] in Hl.
  split; rewrite ?Eb', ?Eh'; try done.
  - apply Forall2_app_inv in H1 as [? _]; [done | lia].
  - by apply NoDup_app in H2 as [? _].
  - intros i x Hx. apply H3. by apply lookup_app_l_Some.
  - intros i x Hx. pose proof (lookup_lt_Some _ _ _ Hx). specialize (H4 i x ltac:(by apply lookup_app_l_Some)).
    destruct i as [| i]; [done |]. cbn in *. by rewrite lookup_app_l in H4 by lia.
  - unfold times in *. rewrite Eb'. rewrite Eb, map_app in H6. cbn [map] in H6.
    rewrite zip_snoc in H6 by (rewrite length_map; lia). rewrite Permutation_app_comm in H6. cbn in H6.
    rewrite Et in H6. by apply Permutation_cons_inv in H6.
  - lia.
Qed.

End Blocks.

(** * The steps *)

Section Steps.
Context {P : Type} `{TxPool P}.
Context (c : Currency).
Context (check_key : bytes -> bool) (parseAccountAddressString : bytes -> option AccountPublicAddress).
Context (key_image_in_domain : bytes -> bool).
Context (check_ring_signature : Hash -> bytes -> list bytes -> list bytes -> bool).
Context (check_signature : Hash -> bytes -> bytes -> bool).
Context (cn_slow_hash : bytes -> Z -> Z -> Hash) (m_genesisBlockHash : Hash).
Context (nextDifficultyV3 : list Z -> list Z -> outcome Z).
Context (m_checkpoints : points).
Context (m_is_in_checkpoint_zone : bool) (blockMajorVersion : Z).
Context (consensus : TransactionExtraElderfierMessage -> Consensus).

Abbreviation check_header' now := (check_header c check_key cn_slow_hash m_genesisBlockHash nextDifficultyV3 m_checkpoints now).
Abbreviation pushBlock' now := (pushBlock c check_key parseAccountAddressString key_image_in_domain check_ring_signature check_signature
  cn_slow_hash m_genesisBlockHash nextDifficultyV3 m_checkpoints m_is_in_checkpoint_zone blockMajorVersion consensus now).
Abbreviation push_txs' now := (push_txs c key_image_in_domain check_ring_signature check_signature m_checkpoints m_is_in_checkpoint_zone
  blockMajorVersion now).
Abbreviation record_effects' := (record_effects c check_signature consensus).
Abbreviation validate' := (validate_miner_transaction c parseAccountAddressString).

(** ** Pushing *)

Lemma prevalidate_height b height :
  prevalidate_miner_transaction c check_key b height = Ret true -> base_height b = Ret height.
Proof.
  unfold prevalidate_miner_transaction, base_height. intros H1. destruct (tx_inputs _) as [| [i | | | | |] [|]]; try done.
  destruct (Z.eqb_spec (bi_blockIndex i) height) as [-> |]; [done | done].
Qed.

Lemma check_header_inv now b h (bc : Blockchain P) d :
  check_header' now b h bc = Ret (Some d) ->
  Sync.hasBlock (m_blockIndex bc) h = false /\ getTailId bc = Ret (b_previousBlockHash b)
  /\ checkBlockVersion c m_checkpoints bc b = true /\ checkParentBlockSize b = true
  /\ check_block_timestamp_main c now bc b = Ret true
  /\ getDifficultyForNextBlock c nextDifficultyV3 m_checkpoints bc = Ret d /\ d <> 0
  /\ check_work c cn_slow_hash m_genesisBlockHash m_checkpoints bc b h d = Ret true
  /\ prevalidate_miner_transaction c check_key b (u32 (Z.of_nat (length (m_blocks bc)))) = Ret true.
Proof.
  unfold check_header. intros Hc. destruct (Sync.hasBlock _ _); [done |].
  destruct (checkBlockVersion _ _ _ _) eqn:Ev; cbn [negb] in Hc; [| done].
  destruct (checkParentBlockSize b) eqn:Ep; cbn [negb] in Hc; [| done].
  apply outcome_bind_inv in Hc as (tail & Ht & Hc). destruct (bool_decide_reflect (b_previousBlockHash b = tail)) as [-> |]; cbn [negb] in Hc; [| done].
  apply outcome_bind_inv in Hc as ([] & Htime & Hc); cbn [negb] in Hc; [| done].
  apply outcome_bind_inv in Hc as (d' & Hd & Hc). destruct (Z.eqb_spec d' 0) as [| Hd0]; [done |].
  apply outcome_bind_inv in Hc as ([] & Hw & Hc); cbn [negb] in Hc; [| done].
  apply outcome_bind_inv in Hc as ([] & Hp & Hc); [| done]. injection Hc as <-. done.
Qed.

(** What [append_block] leaves alone, and what the new block adds. *)
Lemma append_block_inv block (bc bc' : Blockchain P) :
  append_block c block bc = Ret bc' ->
  exists h ok g, block_hash (be_bl block) = Ret h /\ generated_add (m_generatedTransactionsIndex bc) (be_bl block) = Ret (ok, g)
    /\ m_blocks bc' = m_blocks bc ++ [block] /\ m_blockIndex bc' = (Sync.push (m_blockIndex bc) h).2
    /\ m_timestampIndex bc' = timestamp_add (b_timestamp (be_bl block)) h (m_timestampIndex bc)
    /\ m_generatedTransactionsIndex bc' = g /\ m_bankingIndex bc' = m_bankingIndex bc /\ m_detectors bc' = m_detectors bc
    /\ m_tx_pool bc' = m_tx_pool bc
    /\ (let newHeight := u32 (u32 (Z.of_nat (length (m_blocks bc ++ [block]))) - 1) in
        let x := checkAndFlushThreshold (m_commitmentIndex bc) in
        (m_store bc', m_commitmentIndex bc', m_fees bc') =
          if (0 <? newHeight) && (newHeight mod epochDuration c =? 0)
          then close_epoch c (newHeight / epochDuration c) newHeight (m_store bc) x (m_fees bc)
          else (m_store bc, x, m_fees bc)).
Proof.
  unfold append_block. intros Ha. apply outcome_bind_inv in Ha as (h & Hh & Ha).
  apply outcome_bind_inv in Ha as ([ok g] & Hg & Ha). apply outcome_bind_inv in Ha as ([] & _ & Ha).
  exists h, ok, g. cbv zeta in Ha |- *. cbn [m_store m_fees m_commitmentIndex with_blocks] in Ha.
  destruct (if _ && _ then _ else _) as [[s x] f] eqn:E. injection Ha as <-. cbn [with_ledgers with_blocks m_blocks m_blockIndex
    m_timestampIndex m_generatedTransactionsIndex m_bankingIndex m_detectors m_tx_pool m_store m_commitmentIndex m_fees].
  split_and!; try done.
Qed.

Lemma i64_range x : is_i64 (i64 x).
Proof. unfold is_i64, i64. pose proof (Z.mod_pos_bound (x + 2 ^ 63) (2 ^ 64)). lia. Qed.

Lemma transactions_effect_deposit blocks tm height txs deposit f deposit' f' :
  is_i64 deposit ->
  transactions_effect c check_signature consensus getObjectHash blocks tm height txs deposit f = Ret (deposit', f') ->
  deposit' = i64 (deposit + deposit_change txs).
Proof.
  revert deposit f. induction txs as [| e txs IH]; intros deposit f Hd Ht; cbn [transactions_effect] in Ht.
  - injection Ht as <- <-. unfold deposit_change. cbn. rewrite Z.add_0_r. symmetry. by apply i64_small.
  - apply outcome_bind_inv in Ht as (f1 & _ & Ht). unfold transaction_deposit in Ht. rewrite fold_i64 in Ht by done.
    apply IH in Ht as ->; [| apply i64_range]. rewrite i64_idem_add. f_equal. unfold deposit_change, deposit_changes.
    rewrite bind_cons, !sumZ_app. lia.
Qed.

Lemma record_effects_inv block (bc bc' : Blockchain P) :
  record_effects' block bc = Ret bc' ->
  same_chain bc bc' /\ m_detectors bc' = m_detectors bc /\ m_tx_pool bc' = m_tx_pool bc
  /\ di_pushBlock (bi_deposits (m_bankingIndex bc)) (block_deposit block).1 0 = Ret (bi_deposits (m_bankingIndex bc')).
Proof.
  unfold record_effects. intros Hr. apply outcome_bind_inv in Hr as ([[[x outputs] banking] flame] & Hp & Hr). injection Hr as <-.
  split; [done |]. split; [done |]. split; [done |]. cbn [with_ledgers m_bankingIndex].
  unfold pushToBankingIndex in Hp. apply outcome_bind_inv in Hp as ([deposit f] & Ht & Hp).
  apply outcome_bind_inv in Hp as (b1 & Hb & Hp). apply transactions_effect_deposit in Ht; [| unfold is_i64; lia].
  rewrite Z.add_0_l in Ht. cbn [block_deposit fst]. rewrite <- Ht.
  unfold BankingIndex.pushBlock in Hb. apply outcome_bind_inv in Hb as (d & Hd & Hb). injection Hb as <-. rewrite Hd. f_equal.
  destruct (0 <? ef_burns f); [| by injection Hp as _ _ <- _].
  apply outcome_bind_inv in Hp as (b2 & Ha & Hp). injection Hp as _ _ <- _. unfold addForeverDeposit in Ha.
  destruct (ef_burns f =? 0); [by injection Ha as <- |]. apply outcome_bind_inv in Ha as ([] & _ & Ha).
  destruct (last (bi_burned _)) as [e |]; [| by injection Ha as <-].
  destruct (bu_height e =? _); [apply outcome_bind_inv in Ha as ([] & _ & Ha) |]; by injection Ha as <-.
Qed.

(** The block that an accepted one becomes. *)
Definition accepted_entry (bc : Blockchain P) (b : Block) (difficulty size emission : Z) (entries : list TransactionEntry) : BlockEntry :=
  mkBlockEntry b (u32 (Z.of_nat (length (m_blocks bc)))) size
    (u64 (difficulty + match last (m_blocks bc) with Some e => be_cumulative_difficulty e | None => 0 end))
    (u64 (match last (m_blocks bc) with Some e => be_already_generated_coins e | None => 0 end + emission)) entries.

(** How [pushBlock] answers: a refused block changes the store at most; an accepted one passed every check. *)
Lemma pushBlock_inv now b txs (bc : Blockchain P) ok bc' :
  pushBlock' now b txs bc = Ret (ok, bc') ->
  exists h, block_hash b = Ret h /\
  if ok then
    exists d s0 e0 s size fees entries reward emission ok0 bc1 bc2,
      check_header' now b h bc = Ret (Some d)
      /\ push_at (m_store bc) (u32 (Z.of_nat (length (m_blocks bc)))) [mkTxEntry (b_baseTransaction b) []]
           (getObjectHash (b_baseTransaction b)) (mkTxIndex (u32 (Z.of_nat (length (m_blocks bc)))) 0) = Ret (ok0, s0, e0)
      /\ push_txs' now bc b (u32 (Z.of_nat (length (m_blocks bc)))) txs (b_transactionHashes b) 0 s0 e0
           (getObjectBinarySize (b_baseTransaction b)) 0 = Ret (Some (size, fees), s, entries)
      /\ checkCumulativeBlockSize c size (Z.of_nat (length (m_blocks bc))) = Ret true
      /\ validate' (view m_checkpoints bc) b (u32 (Z.of_nat (length (m_blocks bc)))) size
           (match last (m_blocks bc) with Some e => be_already_generated_coins e | None => 0 end) fees txs = Ret (Some (reward, emission))
      /\ append_block c (accepted_entry bc b d size emission entries) (with_store s bc) = Ret bc1
      /\ record_effects' (accepted_entry bc b d size emission entries) bc1 = Ret bc2
      /\ exists bc3, push_detectors c bc2 = Ret bc3 /\ update_next_comulative_size_limit c m_checkpoints bc3 = Ret bc'
  else exists s, bc' = with_store s bc.
Proof.
  unfold pushBlock. intros Hp. apply outcome_bind_inv in Hp as (h & Hh & Hp). exists h. split; [done |].
  assert (Hsame : bc = with_store (m_store bc) bc) by (by destruct bc).
  apply outcome_bind_inv in Hp as ([d |] & Hc & Hp); [| injection Hp as <- <-; by eexists].
  apply outcome_bind_inv in Hp as ([[ok0 s0] e0] & H0 & Hp). apply outcome_bind_inv in Hp as ([[r s] entries] & Ht & Hp).
  destruct r as [[size fees] |]; cycle 1.
  - apply outcome_bind_inv in Hp as (s' & _ & Hp). injection Hp as <- <-. by eexists.
  - apply outcome_bind_inv in Hp as ([] & Hs & Hp); cbn [negb] in Hp; [| injection Hp as <- <-; by eexists].
    apply outcome_bind_inv in Hp as ([[reward emission] |] & Hm & Hp); cycle 1.
    + apply outcome_bind_inv in Hp as (s' & _ & Hp). injection Hp as <- <-. by eexists.
    + apply outcome_bind_inv in Hp as (bc1 & H1 & Hp). apply outcome_bind_inv in Hp as (bc2 & H2 & Hp).
      apply outcome_bind_inv in Hp as (bc3 & H3 & Hp). apply outcome_bind_inv in Hp as (bc4 & H4 & Hp). injection Hp as <- <-.
      exists d, s0, e0, s, size, fees, entries, reward, emission, ok0, bc1, bc2. split_and!; try done. by exists bc3.
Qed.

Lemma push_detectors_inv (bc bc' : Blockchain P) : push_detectors c bc = Ret bc' -> exists v, bc' = with_detectors v bc.
Proof. intros Hp. unfold push_detectors in Hp. apply outcome_bind_inv in Hp as (v & _ & Hp). injection Hp as <-. by eexists. Qed.

Lemma update_limit_inv (bc bc' : Blockchain P) : update_next_comulative_size_limit c m_checkpoints bc = Ret bc' -> exists n, bc' = with_limit n bc.
Proof. intros Hp. unfold update_next_comulative_size_limit in Hp. apply outcome_bind_inv in Hp as (v & _ & Hp). injection Hp as <-. by eexists. Qed.

Lemma hashes_push (bc : Blockchain P) h : Sync.hasBlock (m_blockIndex bc) h = false ->
  (h ∉ hashes bc) /\ Sync.m_container (Sync.push (m_blockIndex bc) h).2 = hashes bc ++ [h].
Proof.
  intros Hn. unfold Sync.push. rewrite Hn. split; [| done]. apply Sync.height_of_none.
  unfold Sync.hasBlock in Hn. by destruct (Sync.height_of _ _).
Qed.

Lemma tail_hash (bc : Blockchain P) h : chain_ok bc -> getTailId bc = Ret h -> h = default NULL_HASH (last (hashes bc)).
Proof.
  intros Hok Ht. unfold getTailId in Ht. pose proof (length_hashes bc Hok) as Hl. destruct (m_blocks bc) as [| e bs].
  - injection Ht as <-. cbn in Hl. apply nil_length_inv in Hl. by rewrite Hl.
  - unfold Sync.getTailId in Ht. unfold hashes. destruct (last _); [by injection Ht as -> | done].
Qed.

(** An accepted block is one more block of a chain that keeps its invariant. *)
Lemma pushBlock_accepted now b txs (bc bc' : Blockchain P) :
  chain_ok bc -> Z.of_nat (length (m_blocks bc)) + 1 < 2 ^ 32 -> pushBlock' now b txs bc = Ret (true, bc') ->
  exists h e, be_bl e = b /\ block_hash b = Ret h /\ m_blocks bc' = m_blocks bc ++ [e] /\ hashes bc' = hashes bc ++ [h] /\ chain_ok bc'.
Proof.
  intros Hok Hlen Hp. apply pushBlock_inv in Hp as (h & Hh & d & s0 & e0 & s & size & fees & entries & reward & emission & ok0 & bc1 & bc2 & Hc & _ & _ & _ & _ & Ha & Hr & bc3 & Hd & Hu).
  apply check_header_inv in Hc as (Hnew & Htail & _ & _ & _ & _ & _ & _ & Hpre).
  apply prevalidate_height in Hpre. rewrite u32_small in Hpre by (pose proof (ok_length _ Hok); lia).
  apply append_block_inv in Ha as (h' & okg & g & Hh' & Hg & Eb & Ei & Et & Eg & Ebank & _ & _ & _).
  cbn [accepted_entry be_bl with_store m_blocks m_blockIndex m_timestampIndex m_generatedTransactionsIndex m_bankingIndex] in *.
  rewrite Hh in Hh'. injection Hh' as <-. apply record_effects_inv in Hr as ((Eb2 & Ei2 & Et2 & Eg2) & _ & _ & Hdep).
  apply push_detectors_inv in Hd as (v & ->). apply update_limit_inv in Hu as (n & ->).
  destruct (hashes_push bc h Hnew) as [Hni Hcont].
  exists h, (accepted_entry bc b d size emission entries). split; [done |]. split; [done |].
  assert (Eb' : m_blocks (with_limit n (with_detectors v bc2)) = m_blocks bc ++ [accepted_entry bc b d size emission entries]) by (cbn; congruence).
  assert (Eh' : hashes (with_limit n (with_detectors v bc2)) = hashes bc ++ [h]) by (unfold hashes in *; cbn; rewrite Ei2, Ei; done).
  split; [done |]. split; [done |]. apply (chain_ok_snoc bc _ (accepted_entry bc b d size emission entries) h); [exact Hok | exact Hlen | exact Hh | exact Hni | | by apply tail_hash | exact Eb' | exact Eh' | | |].
  - split; [| done]. cbn. apply u32_small. pose proof (ok_length _ Hok). lia.
  - cbn. rewrite Et2, Et. apply timestamp_add_perm.
  - cbn. rewrite Eg2, Eg, map_app. cbn [map be_bl accepted_entry].
    destruct (generated_add_rep _ _ b (ok_generated _ Hok)) as (g' & Hg' & Hrep); [by rewrite length_map |]. congruence.
  - cbn. rewrite Ebank in Hdep. destruct (ok_deposits _ Hok) as [Hrep Hhist].
    assert (Hbound : Z.of_nat (length (map block_deposit (m_blocks bc))) + 1 < 2 ^ 32) by (by rewrite length_map).
    destruct (di_push_inv _ _ _ _ _ Hrep Hhist Hbound (i64_range _) zero_u64 Hdep) as [Hrep' Hhist']. by split; rewrite map_app.
Qed.

Lemma pushBlock_ok now b txs (bc : Blockchain P) ok bc' :
  chain_ok bc -> Z.of_nat (length (m_blocks bc)) + 1 < 2 ^ 32 -> pushBlock' now b txs bc = Ret (ok, bc') -> chain_ok bc'.
Proof.
  intros Hok Hlen Hp. destruct ok.
  - by destruct (pushBlock_accepted now b txs bc bc' Hok Hlen Hp) as (? & ? & _ & _ & _ & _ & ?).
  - apply pushBlock_inv in Hp as (h & _ & s & ->). by apply (same_chain_ok bc).
Qed.

(** ** Popping *)

(** What is left after a block and its entries in the indices are taken away. *)
Lemma cut_ok (bc bc' : Blockchain P) e h gok g index banking :
  chain_ok bc -> last (m_blocks bc) = Some e -> block_hash (be_bl e) = Ret h ->
  generated_remove (m_generatedTransactionsIndex bc) (be_bl e) = Ret (gok, g) ->
  Sync.pop (m_blockIndex bc) = Ret index -> BankingIndex.popBlock (m_bankingIndex bc) = Ret banking ->
  m_blocks bc' = pop_back (m_blocks bc) -> m_blockIndex bc' = index ->
  m_timestampIndex bc' = (timestamp_remove (b_timestamp (be_bl e)) h (m_timestampIndex bc)).2 ->
  m_generatedTransactionsIndex bc' = g -> m_bankingIndex bc' = banking -> chain_ok bc' /\ hashes bc' = pop_back (hashes bc).
Proof.
  intros Hok Hlast Hh Hg Hi Hb Eb Ei Et Eg Ebank. pose proof Hok as [H1 H2 H3 H4 H5 H6 H7 H8].
  apply last_Some in Hlast as [blocks Hblocks]. rewrite Hblocks in *. rewrite pop_back_snoc in Eb.
  destruct (hashes bc) as [| h' hs _] eqn:Eh using rev_ind; [apply Forall2_length in H1; rewrite length_app in H1; cbn in H1; lia |].
  apply Forall2_app_inv in H1 as [H1 Hhh]; [| apply Forall2_length in H1; rewrite !length_app in H1; cbn in H1; lia].
  apply Forall2_cons in Hhh as [Hhh' _]. rewrite Hh in Hhh'. injection Hhh' as <-. pose proof (Forall2_length _ _ _ H1) as Hl.
  rewrite length_app in H8. cbn [length] in H8.
  assert (Hi' : hashes bc' = hs).
  { rewrite (pop_snoc _ hs h Eh) in Hi. injection Hi as <-. unfold hashes. by rewrite Ei. }
  split; [| by rewrite Hi', pop_back_snoc].
  apply (chain_ok_init bc _ e h blocks hs); [done.. | | |].
  - rewrite Et. apply timestamp_remove_perm. rewrite H6. unfold times. rewrite Hblocks, map_app. cbn [map].
    rewrite zip_snoc by (rewrite length_map; lia). apply elem_of_app. right. by apply list_elem_of_singleton.
  - rewrite map_app in H5. cbn [map] in H5. assert (Hat : at_height (length blocks) e) by (apply H3; by rewrite lookup_app_r, Nat.sub_diag).
    destruct (generated_remove_rep (map be_bl blocks) (be_bl e) _ H5) as (g' & Hg' & Hrep); [rewrite length_map; apply Hat | rewrite length_map; lia |].
    congruence.
  - rewrite Ebank. destruct H7 as [Hrep Hhist]. rewrite map_app in Hrep, Hhist. cbn [map] in Hrep, Hhist. set (hist := map block_deposit blocks) in *.
    destruct (bi_pop_rep _ _ hist Hrep) as (b' & Hb' & Hrep').
    { cbn [history_step]. destruct (hist ++ [_]) eqn:E; [by destruct hist |]. by rewrite <- E, pop_back_snoc. }
    rewrite Hb in Hb'. injection Hb' as <-. unfold ledger_ok. fold hist. split; [done |].
    intros k. destruct (Nat.le_gt_cases k (length hist)); [specialize (Hhist k) | specialize (Hhist (length hist))]; rewrite take_app_le in Hhist by lia; [done |].
    by rewrite take_ge in Hhist |- * by lia.
Qed.

Abbreviation removeLastBlock' := (removeLastBlock c).

Lemma last_hash (bc : Blockchain P) e :
  chain_ok bc -> last (m_blocks bc) = Some e -> exists h, block_hash (be_bl e) = Ret h /\ getBlockIdByHeight bc (be_height e) = Ret h.
Proof.
  intros Hok Hl. pose proof (length_hashes bc Hok) as Hlen. pose proof (ok_length _ Hok). rewrite last_lookup in Hl.
  destruct (ok_heights _ Hok _ _ Hl) as [-> _]. pose proof (lookup_lt_Some _ _ _ Hl) as Hlt.
  destruct (Forall2_lookup_l _ _ _ _ _ (ok_hashes _ Hok) Hl) as (h & Hh & Hb). exists h. split; [done |].
  unfold getBlockIdByHeight, Sync.getBlockId, Sync.size. fold (hashes bc). rewrite Hlen, u32_small by lia.
  rewrite (assert_true (_ <? _)) by (apply Z.ltb_lt; lia). rewrite outcome_bind_ret, (vec_at_lookup _ _ h); [done | lia |].
  by rewrite Nat2Z.id.
Qed.

(** Removing the last block keeps the chain in order, whatever is said of the pool and the detectors. *)
Lemma removeLastBlock_ok (bc : Blockchain P) ok bc' :
  chain_ok bc -> removeLastBlock' bc = Ret (ok, bc') ->
  chain_ok bc' /\ m_blocks bc' = pop_back (m_blocks bc) /\ hashes bc' = pop_back (hashes bc).
Proof.
  intros Hok Hr. unfold removeLastBlock in Hr. destruct (last (m_blocks bc)) as [e |] eqn:Hl; cycle 1.
  - injection Hr as <- <-. apply last_None in Hl. pose proof (length_hashes bc Hok) as Hlen. rewrite Hl in *.
    apply nil_length_inv in Hlen. by rewrite Hlen.
  - destruct (last_hash bc e Hok Hl) as (h & Hh & Hid). rewrite Hid in Hr. apply outcome_bind_inv in Hr as (s & _ & Hr).
    apply outcome_bind_inv in Hr as (banking & Hb & Hr). rewrite outcome_bind_ret in Hr. apply outcome_bind_inv in Hr as ([gok g] & Hg & Hr).
    apply outcome_bind_inv in Hr as (index & Hi & Hr). apply outcome_bind_inv in Hr as ([] & _ & Hr). injection Hr as _ <-.
    match goal with |- chain_ok ?x /\ _ => destruct (cut_ok bc x e h gok g index banking) as [? ?]; done end.
Qed.

Lemma rollback_loop_ok fuel height (bc bc' : Blockchain P) :
  chain_ok bc -> rollback_loop c fuel height bc = Ret bc' -> chain_ok bc'.
Proof.
  revert bc. induction fuel as [| fuel IH]; intros bc Hok Hr; cbn [rollback_loop] in Hr; (destruct (_ <? _); [| by injection Hr as <-]); [done |].
  apply outcome_bind_inv in Hr as ([ok bc1] & H1 & Hr). destruct (removeLastBlock_ok bc ok bc1 Hok H1) as [Hok1 _]. by eapply IH.
Qed.

(** [popBlock], called with the hash of the last block, takes two blocks away. *)
Lemma popBlock_ok h (bc bc' : Blockchain P) :
  chain_ok bc -> (forall e, last (m_blocks bc) = Some e -> block_hash (be_bl e) = Ret h) -> popBlock c h bc = Ret bc' ->
  chain_ok bc' /\ m_blocks bc' = pop_back (pop_back (m_blocks bc)).
Proof.
  intros Hok Hh Hp. unfold popBlock in Hp. destruct (last (m_blocks bc)) as [e |] eqn:Hl; cycle 1.
  - injection Hp as <-. apply last_None in Hl. by rewrite Hl.
  - specialize (Hh e eq_refl). apply outcome_bind_inv in Hp as (p & _ & Hp). apply outcome_bind_inv in Hp as (s & _ & Hp).
    apply outcome_bind_inv in Hp as ([gok g] & Hg & Hp). apply outcome_bind_inv in Hp as ([n x] & _ & Hp).
    apply outcome_bind_inv in Hp as (banking & Hb & Hp). apply outcome_bind_inv in Hp as (index & Hi & Hp).
    apply outcome_bind_inv in Hp as ([] & _ & Hp). apply outcome_bind_inv in Hp as ([ok bc2] & H2 & Hp).
    unfold pop_detectors in Hp. apply outcome_bind_inv in Hp as (v & _ & Hp). injection Hp as <-.
    match type of H2 with removeLastBlock _ ?x = _ => destruct (cut_ok bc x e h gok g index banking) as [Hok1 _]; try done;
      destruct (removeLastBlock_ok x ok bc2 Hok1 H2) as (Hok2 & Eb & _) end.
    split; [by apply (same_chain_ok bc2) | exact Eb].
Qed.

End Steps.
