(* ===== verification/ChainReach.v ===== *)
(** The states that the chain reaches from the empty one, by pushes, pops and rollbacks in any order: the
    indices stay in order with the blocks, no swap fee is ever collected and no deposit ever earns from one. *)

From S2P Require Import Prelude Config Currency Types Amounts TxChecks TransactionExtra Codec Emission DifficultyAlgo BankingIndex ChainStore.
From S2P Require Import UpgradeDetector Checkpoints InputChecks AliasIndex CommitmentStore Elderfiers BlockEffects Serialization BlockIndices.
From S2P Require Import ProofOfWork MinerTx Chain ChainInvariant.
From S2P Require Sync.

(** The chain of a new node; the alias index is attached by [init]. *)
Definition empty_chain {P} (p : P) : Blockchain P :=
  mkChain [] (Sync.mkBlockIndex []) [] emptyGenerated empty_store bi_empty (setAliasIndex (Some (mkAliasIndex ∅ ∅)) emptyIndex) no_fees
    (replicate 9 UNDEF_HEIGHT) 0 0 p.

Lemma empty_chain_ok {P} (p : P) : chain_ok (empty_chain p).
Proof.
  split; cbn [empty_chain m_blocks m_timestampIndex m_generatedTransactionsIndex m_bankingIndex length map].
  - constructor.
  - constructor.
  - intros i e He. by rewrite lookup_nil in He.
  - intros i e He. by rewrite lookup_nil in He.
  - apply generated_rep_nil.
  - done.
  - split; [apply di_empty_rep | intros k; cbn; by rewrite take_nil].
  - lia.
Qed.

(** * The epochs of the commitment index *)

Section Epochs.
Context (c : Currency).
Context (check_signature : Hash -> bytes -> bytes -> bool).
Context (consensus : TransactionExtraElderfierMessage -> Consensus) (getObjectHash : Transaction -> Hash).
Context (m_blocks : list BlockEntry) (transactionMap : gmap Hash TransactionIndex) (height : Z).

Lemma tryRegister_epochs x wallet pubkey alias : ci_epochs (tryRegisterElderfier x wallet pubkey alias).2 = ci_epochs x.
Proof. unfold tryRegisterElderfier. repeat case_match; done. Qed.

Lemma track_stake_epochs x e : ci_epochs (track_stake c x e) = ci_epochs x.
Proof.
  unfold track_stake. destruct (_ || _); [done |]. destruct (_ && _); [| done].
  unfold with_pending at 1. cbn [with_registry ci_epochs]. by rewrite tryRegister_epochs.
Qed.

Lemma with_commitment_epochs e f f' : with_commitment c e f = Ret f' -> ci_epochs (ef_index f') = ci_epochs (ef_index f).
Proof.
  intros H. unfold with_commitment, addCommitment in H. apply outcome_bind_inv in H as (x & Hx & H). injection H as <-.
  apply outcome_bind_inv in Hx as ([added s] & _ & Hx). injection Hx as <-. cbn [ef_index]. destruct added; [by rewrite track_stake_epochs | done].
Qed.

Lemma execute_slash_epochs target data f : ci_epochs (ef_index (execute_slash transactionMap target data f)) = ci_epochs (ef_index f).
Proof.
  unfold execute_slash, markSlashed, markSlashProposalExecuted. destruct (markCommitmentSlashed _ _) as [marked s].
  destruct (0 <? _); cbn [with_burn ef_index]; destruct (m_slashProposals _ !! _); done.
Qed.

Lemma elderfier_message_epochs m f :
  ci_epochs (ef_index (elderfier_message check_signature consensus m_blocks transactionMap m f)) = ci_epochs (ef_index f).
Proof.
  unfold elderfier_message. destruct (_ && _); [| done]. destruct (slash_gates _ _ _ _) as [efid |]; [| done].
  match goal with |- context [addSlashVote ?x ?t ?e ?r ?h ?q] =>
    assert (Hv : ci_epochs (addSlashVote x t e r h q).2 = ci_epochs x) by (unfold addSlashVote; repeat case_match; done);
    destruct (addSlashVote x t e r h q) as [quorum x'] end.
  cbn [snd] in Hv. destruct quorum; [by rewrite execute_slash_epochs | done].
Qed.

Lemma field_effect_epochs txHash field f f' :
  field_effect c check_signature consensus m_blocks transactionMap height txHash field f = Ret f' ->
  ci_epochs (ef_index f') = ci_epochs (ef_index f).
Proof.
  intros H. destruct field as [| | | | | | d | m | a | h | | d | m | |]; cbn [field_effect] in H; try by injection H as <-.
  - by apply with_commitment_epochs in H.
  - injection H as <-. apply elderfier_message_epochs.
  - injection H as <-. by destruct (alias_isValid a).
  - by apply with_commitment_epochs in H.
  - by apply with_commitment_epochs in H.
  - unfold migrate in H. destruct (transactionMap !! _); [| by injection H as <-]. apply outcome_bind_inv in H as (o & _ & H).
    destruct (_ && _); [by apply with_commitment_epochs in H | by injection H as <-].
Qed.

Lemma fields_effect_epochs txHash fields f f' :
  fields_effect c check_signature consensus m_blocks transactionMap height txHash fields f = Ret f' ->
  ci_epochs (ef_index f') = ci_epochs (ef_index f).
Proof.
  revert f. induction fields as [| field fields IH]; intros f H; cbn [fields_effect] in H; [by injection H as <- |].
  apply outcome_bind_inv in H as (f1 & H1%field_effect_epochs & H%IH). congruence.
Qed.

Lemma transactions_effect_epochs txs deposit f deposit' f' :
  transactions_effect c check_signature consensus getObjectHash m_blocks transactionMap height txs deposit f = Ret (deposit', f') ->
  ci_epochs (ef_index f') = ci_epochs (ef_index f).
Proof.
  revert deposit f. induction txs as [| e txs IH]; intros deposit f H; cbn [transactions_effect] in H; [by injection H as _ <- |].
  apply outcome_bind_inv in H as (f1 & H1 & H%IH). rewrite H.
  destruct (parseTransactionExtra _) as [[] fields]; [by apply fields_effect_epochs in H1 | by injection H1 as <-].
Qed.

Lemma pushToBankingIndex_epochs txs interest x outputs banking x' outputs' banking' flame :
  pushToBankingIndex c check_signature consensus getObjectHash m_blocks transactionMap height txs interest x outputs banking
    = Ret (x', outputs', banking', flame) -> ci_epochs x' = ci_epochs x.
Proof.
  intros H. unfold pushToBankingIndex in H. apply outcome_bind_inv in H as ([d f] & Ht%transactions_effect_epochs & H).
  apply outcome_bind_inv in H as (b1 & _ & H).
  destruct (0 <? _); [apply outcome_bind_inv in H as (b2 & _ & H) |]; by injection H as <- _ _ _.
Qed.

End Epochs.

(** * Reachable chains *)

(** The accounts of the swap fees at rest, all the rates of the past epochs zero. *)
Record quiet {P} (bc : Blockchain P) : Prop := {
  quiet_fees : m_fees bc = mkFees 0 (m_activeEfierCount (m_fees bc)) 0 0 0 0 0 0;
  quiet_rates : Forall (eq 0) (m_epochFeeRates (ci_epochs (m_commitmentIndex bc)))
}.

Lemma quiet_same {P} (bc bc' : Blockchain P) :
  quiet bc -> m_fees bc' = m_fees bc -> ci_epochs (m_commitmentIndex bc') = ci_epochs (m_commitmentIndex bc) -> quiet bc'.
Proof. intros [Hf Hr] Ef Ee. split; by rewrite ?Ef, ?Ee. Qed.

Lemma recordEpochFeeRate_zero x n :
  Forall (eq 0) (m_epochFeeRates (ci_epochs x)) -> Forall (eq 0) (m_epochFeeRates (ci_epochs (recordEpochFeeRate x n 0))).
Proof.
  intros H. unfold recordEpochFeeRate. cbn [with_epochs ci_epochs m_epochFeeRates].
  apply Forall_insert; [apply Forall_app; split; [done | by apply Forall_replicate] | done].
Qed.

(** An epoch that closes with no fees shares none. *)
Lemma close_epoch_quiet c n newHeight s x f :
  m_currentEpochSwapFees f = 0 -> m_treasuryBalance f = 0 -> m_totalSwapFeesCollected f = 0 -> m_totalTreasuryAccrued f = 0 ->
  m_totalEfierSwapPaid f = 0 -> Forall (eq 0) (m_epochFeeRates (ci_epochs x)) ->
  exists k x', close_epoch c n newHeight s x f = (s, x', mkFees 0 k 0 0 0 0 0 0) /\ Forall (eq 0) (m_epochFeeRates (ci_epochs x')).
Proof.
  intros Hf Ht Hc Ha Hp Hr. unfold close_epoch. rewrite Hf, Ht, Hc, Ha, Hp, Z.mul_0_l. cbn [Z.ltb]. change (u64 0 / 100) with 0.
  change (u64 (0 - 0 - 0)) with 0. change (u64 (0 + 0)) with 0. rewrite Z.ltb_irrefl, andb_false_r. cbn [andb].
  do 2 eexists. split; [reflexivity |]. unfold storeEpochReport. cbn [ci_epochs with_epochs m_epochFeeRates]. by apply recordEpochFeeRate_zero.
Qed.

Section Reach.
Context {P : Type} `{TxPool P}.
Context (c : Currency).
Context (check_key : bytes -> bool) (parseAccountAddressString : bytes -> option AccountPublicAddress).
Context (key_image_in_domain : bytes -> bool).
Context (check_ring_signature : Hash -> bytes -> list bytes -> list bytes -> bool).
Context (check_signature : Hash -> bytes -> bytes -> bool).
Context (cn_slow_hash : bytes -> Z -> Z -> Hash) (m_genesisBlockHash : Hash).
Context (nextDifficultyV3 : list Z -> list Z -> outcome Z).
Context (m_checkpoints : points).
Context (m_is_in_checkpoint_zone : bool) (blockMajorVersion : Z).
Context (consensus : TransactionExtraElderfierMessage -> Consensus).

Abbreviation pushBlock' now := (pushBlock c check_key parseAccountAddressString key_image_in_domain check_ring_signature check_signature
  cn_slow_hash m_genesisBlockHash nextDifficultyV3 m_checkpoints m_is_in_checkpoint_zone blockMajorVersion consensus now).
Abbreviation pushBlockFromPool' now := (pushBlockFromPool c check_key parseAccountAddressString key_image_in_domain check_ring_signature
  check_signature cn_slow_hash m_genesisBlockHash nextDifficultyV3 m_checkpoints m_is_in_checkpoint_zone blockMajorVersion consensus now).

(** One call of an operation that returns; the time, the block and the pool are anything.  [popBlock] is called with
    the hash of the last block. *)
Inductive chain_step (bc : Blockchain P) : Blockchain P -> Prop :=
| step_push now b txs ok bc' :
    Z.of_nat (length (m_blocks bc)) + 1 < 2 ^ 32 -> pushBlock' now b txs bc = Ret (ok, bc') -> chain_step bc bc'
| step_push_from_pool now b height ok bc' :
    Z.of_nat (length (m_blocks bc)) + 1 < 2 ^ 32 -> pushBlockFromPool' now b height bc = Ret (ok, bc') -> chain_step bc bc'
| step_pop h bc' :
    (forall e, last (m_blocks bc) = Some e -> block_hash (be_bl e) = Ret h) -> popBlock c h bc = Ret bc' -> chain_step bc bc'
| step_remove ok bc' : removeLastBlock c bc = Ret (ok, bc') -> chain_step bc bc'
| step_rollback height bc' : rollbackBlockchainTo c height bc = Ret bc' -> chain_step bc bc'
| step_pool p : chain_step bc (with_pool p bc).

Inductive chain_reach : Blockchain P -> Prop :=
| reach_empty p : chain_reach (empty_chain p)
| reach_step bc bc' : chain_reach bc -> chain_step bc bc' -> chain_reach bc'.

(** A push from the pool is a push between two changes of the pool, or no push. *)
Lemma pushBlockFromPool_inv now b height (bc : Blockchain P) ok bc' :
  pushBlockFromPool' now b height bc = Ret (ok, bc') ->
  exists p, bc' = with_pool p bc
  \/ exists txs ok1 bc1 p1, pushBlock' now b txs (with_pool p bc) = Ret (ok1, bc1) /\ bc' = with_pool p1 bc1.
Proof.
  intros Hp. unfold pushBlockFromPool in Hp. apply outcome_bind_inv in Hp as ([[txs |] p] & _ & Hp); exists p; cycle 1.
  - injection Hp as <- <-. by left.
  - right. apply outcome_bind_inv in Hp as ([[] bc1] & H1 & Hp).
    + injection Hp as <- <-. exists txs, true, bc1, (m_tx_pool bc1). split; [done | by destruct bc1].
    + apply outcome_bind_inv in Hp as (p1 & _ & Hp). injection Hp as <- <-. by exists txs, false, bc1, p1.
Qed.

(** ** The invariant *)

Lemma chain_step_ok bc bc' : chain_ok bc -> chain_step bc bc' -> chain_ok bc'.
Proof.
  intros Hok [now b txs ok bc1 Hlen Hp | now b height ok bc1 Hlen Hp | h bc1 Hh Hp | ok bc1 Hp | height bc1 Hp | p].
  - by eapply pushBlock_ok.
  - apply pushBlockFromPool_inv in Hp as (p & [-> | (txs & ok1 & bc2 & p1 & Hp & ->)]); [by apply (same_chain_ok bc) |].
    apply (same_chain_ok bc2); [| done | done]. eapply pushBlock_ok; [| | exact Hp]; [by apply (same_chain_ok bc) | done].
  - by eapply popBlock_ok.
  - by eapply removeLastBlock_ok.
  - by eapply rollback_loop_ok.
  - by apply (same_chain_ok bc).
Qed.

(** C1: The indices of a reachable chain agree with its blocks.  However blocks were pushed, popped and rolled
    back: the block index holds the hashes of the blocks, each once, in order; a block carries its height
    and the hash of the block before; the index of generated transactions counts the transactions up to
    every height; the timestamp index holds the pairs of time and hash of exactly these blocks; and the deposit index
    represents the deposits of exactly these blocks, each the deposits less the withdrawals of its transactions with no interest, and their
    totals never leave their types.  The steps are the calls that return. *)
Theorem chain_invariant bc : chain_reach bc -> chain_ok bc.
Proof. induction 1 as [p | bc bc' _ IH Hs]; [apply empty_chain_ok | by eapply chain_step_ok]. Qed.

(** ** Swap fees *)

Lemma append_block_quiet block (bc bc' : Blockchain P) : quiet bc -> append_block c block bc = Ret bc' -> quiet bc'.
Proof.
  intros Hq Ha. apply append_block_inv in Ha as (h & ok & g & _ & _ & _ & _ & _ & _ & _ & _ & _ & Hf). cbv zeta in Hf.
  assert (Hx : Forall (eq 0) (m_epochFeeRates (ci_epochs (checkAndFlushThreshold (m_commitmentIndex bc))))).
  { unfold checkAndFlushThreshold. repeat case_match; apply Hq. }
  pose proof (quiet_fees _ Hq) as Hfees. destruct (_ && _) in Hf.
  - edestruct close_epoch_quiet as (k & x' & He & Hr); [.. | exact Hx |]; cycle -1.
    + rewrite He in Hf. injection Hf as _ Ex Ef. split; [by rewrite Ef | by rewrite Ex].
    + by rewrite Hfees.
    + by rewrite Hfees.
    + by rewrite Hfees.
    + by rewrite Hfees.
    + by rewrite Hfees.
  - injection Hf as _ Ex Ef. split; [by rewrite Ef | by rewrite Ex].
Qed.

Lemma record_effects_quiet block (bc bc' : Blockchain P) : quiet bc -> record_effects c check_signature consensus block bc = Ret bc' -> quiet bc'.
Proof.
  intros [Hf Hr] H1. unfold record_effects in H1. apply outcome_bind_inv in H1 as ([[[x outputs] banking] flame] & Hx & H1).
  apply pushToBankingIndex_epochs in Hx. rewrite Hf in H1. cbn [m_efierSwapRewardPerBlock] in H1. change (0 <? 0) with false in H1. cbn [andb] in H1.
  injection H1 as <-. split; cbn [with_ledgers m_fees m_commitmentIndex]; [done |].
  destruct (0 <? _); unfold addBlockBankingFee; cbn [with_epochs ci_epochs m_epochFeeRates]; by rewrite Hx.
Qed.

Lemma pushBlock_quiet now b txs (bc : Blockchain P) ok bc' : quiet bc -> pushBlock' now b txs bc = Ret (ok, bc') -> quiet bc'.
Proof.
  intros Hq Hp. apply pushBlock_inv in Hp as (h & _ & Hp). destruct ok; cycle 1.
  - destruct Hp as (s & ->). by apply (quiet_same bc).
  - destruct Hp as (d & s0 & e0 & s & size & fees & entries & reward & emission & ok0 & bc1 & bc2 & _ & _ & _ & _ & _ & Ha & Hr & bc3 & Hd & Hu).
    apply push_detectors_inv in Hd as (v & ->). apply update_limit_inv in Hu as (n & ->). apply (quiet_same bc2); [| done | done].
    eapply record_effects_quiet, Hr. eapply append_block_quiet, Ha. by apply (quiet_same bc).
Qed.

Lemma removeLastBlock_quiet (bc : Blockchain P) ok bc' : quiet bc -> removeLastBlock c bc = Ret (ok, bc') -> quiet bc'.
Proof.
  intros Hq Hr. unfold removeLastBlock in Hr. destruct (last _); [| by injection Hr as <- <-].
  apply outcome_bind_inv in Hr as (s & _ & Hr). apply outcome_bind_inv in Hr as (banking & _ & Hr). apply outcome_bind_inv in Hr as (h & _ & Hr).
  apply outcome_bind_inv in Hr as ([gok g] & _ & Hr). apply outcome_bind_inv in Hr as (index & _ & Hr).
  apply outcome_bind_inv in Hr as ([] & _ & Hr). injection Hr as _ <-. by apply (quiet_same bc).
Qed.

Lemma rollback_loop_quiet fuel height (bc bc' : Blockchain P) : quiet bc -> rollback_loop c fuel height bc = Ret bc' -> quiet bc'.
Proof.
  revert bc. induction fuel as [| fuel IH]; intros bc Hq Hr; cbn [rollback_loop] in Hr; (destruct (_ <? _); [| by injection Hr as <-]); [done |].
  apply outcome_bind_inv in Hr as ([ok bc1] & H1%removeLastBlock_quiet & Hr); [| done]. by eapply IH.
Qed.

Lemma popBlock_quiet h (bc bc' : Blockchain P) : quiet bc -> popBlock c h bc = Ret bc' -> quiet bc'.
Proof.
  intros Hq Hp. unfold popBlock in Hp. destruct (last _); [| by injection Hp as <-].
  apply outcome_bind_inv in Hp as (p & _ & Hp). apply outcome_bind_inv in Hp as (s & _ & Hp).
  apply outcome_bind_inv in Hp as ([gok g] & _ & Hp). apply outcome_bind_inv in Hp as ([n x] & Hx & Hp).
  apply outcome_bind_inv in Hp as (banking & _ & Hp). apply outcome_bind_inv in Hp as (index & _ & Hp).
  apply outcome_bind_inv in Hp as ([] & _ & Hp). apply outcome_bind_inv in Hp as ([ok bc2] & H2%removeLastBlock_quiet & Hp); cycle 1.
  - unfold rollbackIndex in Hx. apply outcome_bind_inv in Hx as ([k s'] & _ & Hx). injection Hx as _ <-. by apply (quiet_same bc).
  - unfold pop_detectors in Hp. apply outcome_bind_inv in Hp as (v & _ & Hp). injection Hp as <-. by apply (quiet_same bc2).
Qed.

Lemma chain_step_quiet bc bc' : quiet bc -> chain_step bc bc' -> quiet bc'.
Proof.
  intros Hq [now b txs ok bc1 Hlen Hp | now b height ok bc1 Hlen Hp | h bc1 Hh Hp | ok bc1 Hp | height bc1 Hp | p].
  - by eapply pushBlock_quiet.
  - apply pushBlockFromPool_inv in Hp as (p & [-> | (txs & ok1 & bc2 & p1 & Hp%pushBlock_quiet & ->)]);
      [by apply (quiet_same bc) | by apply (quiet_same bc2) | by apply (quiet_same bc)].
  - by eapply popBlock_quiet.
  - by eapply removeLastBlock_quiet.
  - by eapply rollback_loop_quiet.
  - by apply (quiet_same bc).
Qed.

Lemma chain_reach_quiet bc : chain_reach bc -> quiet bc.
Proof. induction 1 as [p | bc bc' _ IH Hs]; [by split; [| constructor] | by eapply chain_step_quiet]. Qed.

Lemma cd_interest_zero fuel amount e endEpoch rates r :
  Forall (eq 0) rates -> cd_interest_loop fuel amount e endEpoch rates 0 = Ret r -> r = 0.
Proof.
  intros Hz. revert e. induction fuel as [| fuel IH]; intros e Hr; cbn [cd_interest_loop] in Hr; (destruct (_ && _); [| by injection Hr]); [done |].
  apply outcome_bind_inv in Hr as (rate & Hrate & Hr). assert (rate = 0) as ->.
  { unfold getEpochFeeRate, vec_at in Hrate. destruct (_ <=? _); [by injection Hrate |]. destruct (_ <? 0); [done |].
    destruct (rates !! _) as [x |] eqn:Hx; [| done]. injection Hrate as <-. symmetry. by eapply (Forall_lookup_1 _ rates). }
  rewrite Z.mul_0_r in Hr. change (u64 (0 + u64 0 / FEE_POOL_RATE_PRECISION)) with 0 in Hr. by eapply IH.
Qed.

Lemma zero_rates_no_claim blocks s rates txin h sig pmax pmax' :
  Forall (eq 0) rates ->
  checkCommitmentSpendInput c blocks s rates key_image_in_domain check_ring_signature txin h sig pmax = Ret (true, pmax') ->
  cs_claimedInterest txin <= 0.
Proof.
  intros Hz Hc. unfold checkCommitmentSpendInput in Hc. destruct (negb _); [done |]. destruct (m_commitmentOutputs s !! _) as [refs |]; [| done].
  apply outcome_bind_inv in Hc as ([[r |] pm] & _ & Hc); [| done].
  destruct (negb (ring_hasNonForever r)); [done |]. destruct (negb _) in Hc; [done |]. destruct (negb _) in Hc; [done |].
  apply outcome_bind_inv in Hc as (ok & Hok & Hc). injection Hc as -> _. unfold claim_allowed in Hok.
  destruct (Z.ltb_spec 0 (cs_claimedInterest txin)) as [Hpos |]; [| done].
  apply outcome_bind_inv in Hok as (m & Hm & Hok). assert (m = 0) as ->.
  { unfold calculateCdInterest in Hm. destruct (_ <=? _); [by injection Hm |]. by eapply cd_interest_zero. }
  injection Hok as Hok. apply negb_true_iff, Z.ltb_ge in Hok. destruct (Z.ltb_spec (m_feePoolBalance s) 0); lia.
Qed.

(** No deposit earns from swap fees.  In every reachable chain the fees of the epoch, the treasury,
    the rewards of the Elderfiers and all totals are zero, since nothing ever adds to the fees of the
    epoch; the rate of every past epoch is zero; so a commitment spend that claims any interest fails its
    check, whatever its ring, its age and the balance of the fee pool. *)
Theorem swap_fees_never_shared bc :
  chain_reach bc ->
  m_fees bc = mkFees 0 (m_activeEfierCount (m_fees bc)) 0 0 0 0 0 0
  /\ Forall (eq 0) (m_epochFeeRates (ci_epochs (m_commitmentIndex bc)))
  /\ forall s txin h sig pmax pmax',
       checkCommitmentSpendInput c (m_blocks bc) s (m_epochFeeRates (ci_epochs (m_commitmentIndex bc))) key_image_in_domain
         check_ring_signature txin h sig pmax = Ret (true, pmax') -> cs_claimedInterest txin <= 0.
Proof.
  intros Hr. destruct (chain_reach_quiet bc Hr) as [Hf Hz]. split; [done |]. split; [done |]. intros s txin h sig pmax pmax'. by apply zero_rates_no_claim.
Qed.

End Reach.

(** * Two blocks and back *)

Module ReachDemo.
#[export] Instance no_pool : TxPool unit := { pool_get p h := None; pool_take p h := Ret (None, p); pool_add p tx h := Ret (true, p) }.
Definition slow_hash (data : bytes) (light variant : Z) : Hash := replicate 32 0.
Definition no_verdict (m : TransactionExtraElderfierMessage) : Consensus := mkConsensus false false 0 NULL_HASH.
Definition block_at (height reward : Z) (prev : Hash) : Block :=
  mkBlock 1 0 height (1000 + 100 * height) prev (mkParentBlock 1 0 NULL_HASH 0 [] (mkTransaction 0 0 [] [] [] []) [])
    (mkTransaction 1 (height + m_minedMoneyUnlockWindow testnet) [InBase (mkBaseInput height)]
       [mkTransactionOutput reward (OutKey (mkKeyOutput (replicate 32 9)))] [] [[]]) [].
Definition demo_push (b : Block) (bc : Blockchain unit) : outcome (bool * Blockchain unit) :=
  pushBlock testnet (fun _ => true) (fun _ => None) (fun _ => true) (fun _ _ _ _ => true) (fun _ _ _ => true) slow_hash NULL_HASH (fun _ _ => Ret 1) []
    false 1 no_verdict 100000 b [] bc.
Definition reach : Blockchain unit -> Prop :=
  chain_reach testnet (fun _ => true) (fun _ => None) (fun _ => true) (fun _ _ _ _ => true) (fun _ _ _ => true) slow_hash NULL_HASH (fun _ _ => Ret 1) []
    false 1 no_verdict.
Definition chain_of (r : outcome (bool * Blockchain unit)) : Blockchain unit := match r with Ret (_, bc) => bc | _ => empty_chain tt end.
Definition accepted (r : outcome (bool * Blockchain unit)) : bool := match r with Ret (b, _) => b | _ => false end.
Definition genesis : Block := block_at 0 305176116 NULL_HASH.
Definition chain1 : Blockchain unit := chain_of (demo_push genesis (empty_chain tt)).
Definition second : Block := block_at 1 305174952 (default NULL_HASH (last (hashes chain1))).
Definition chain2 : Blockchain unit := chain_of (demo_push second chain1).

Lemma accepted_push b bc : accepted (demo_push b bc) = true -> demo_push b bc = Ret (true, chain_of (demo_push b bc)).
Proof. by destruct (demo_push b bc) as [[[] bc'] | | |]. Qed.

Lemma genesis_pushed : demo_push genesis (empty_chain tt) = Ret (true, chain1).
Proof. apply accepted_push. vm_compute. reflexivity. Qed.
Lemma second_pushed : demo_push second chain1 = Ret (true, chain2).
Proof. apply accepted_push. vm_compute. reflexivity. Qed.
Lemma chain1_length : Z.of_nat (length (m_blocks chain1)) + 1 < 2 ^ 32.
Proof. replace (length (m_blocks chain1)) with 1%nat by (vm_compute; reflexivity). lia. Qed.

Lemma chain1_reached : reach chain1.
Proof. eapply reach_step; [apply (reach_empty _ _ _ _ _ _ _ _ _ _ _ _ _ tt) |]. eapply step_push; [| exact genesis_pushed]. cbn. lia. Qed.
Lemma chain2_reached : reach chain2.
Proof. eapply reach_step; [exact chain1_reached |]. eapply step_push; [exact chain1_length | exact second_pushed]. Qed.
End ReachDemo.

Lemma chain_invariant_witness : length (m_blocks ReachDemo.chain2) = 2%nat /\ chain_ok ReachDemo.chain2.
Proof. split; [vm_compute; reflexivity | exact (chain_invariant _ _ _ _ _ _ _ _ _ _ _ _ _ _ ReachDemo.chain2_reached)]. Defined.

Lemma swap_fees_never_shared_witness :
  m_fees ReachDemo.chain2 = mkFees 0 (m_activeEfierCount (m_fees ReachDemo.chain2)) 0 0 0 0 0 0
  /\ Forall (eq 0) (m_epochFeeRates (ci_epochs (m_commitmentIndex ReachDemo.chain2))).
Proof.
  destruct (swap_fees_never_shared _ _ _ _ _ _ _ _ _ _ _ _ _ _ ReachDemo.chain2_reached) as (Hf & Hr & _). split; [exact Hf | exact Hr].
Defined.
