(* ===== verification/Reorg.v ===== *)
(** Alternative chains of [src/src/CryptoNoteCore/Blockchain.cpp]: [handle_alternative_block], the switch to a
    heavier chain with its rollback, and [addNewBlock], on top of [Chain.v].

    The member [m_is_in_checkpoint_zone] is part of the state here, since [handle_alternative_block] sets
    it.  The logarithm of the Poisson distribution, a computation on [double], is a parameter.  An iterator into
    [m_alternative_chains] is its key with its entry.  Messages to observers are left out. *)

From stdpp Require Import gmultiset.
From S2P Require Import Prelude Config Currency Types Amounts TxChecks TransactionExtra Codec Emission DifficultyAlgo BankingIndex ChainStore.
From S2P Require Import UpgradeDetector Checkpoints InputChecks CommitmentStore Elderfiers BlockEffects Serialization BlockIndices.
From S2P Require Import ProofOfWork MinerTx Chain.
From S2P Require Sync.

Record Node (P : Type) := mkNode {
  nd_chain : Blockchain P;
  m_alternative_chains : gmap Hash BlockEntry;
  m_orthanBlocksIndex : gmultiset (Z * Hash);
  m_is_in_checkpoint_zone : bool
}.
Arguments mkNode {P}.
Arguments nd_chain {P}.
Arguments m_alternative_chains {P}.
Arguments m_orthanBlocksIndex {P}.
Arguments m_is_in_checkpoint_zone {P}.

(** What becomes of a block; every answer but [Refused] and [Exists] is [true] in the code. *)
Inductive Answer := Refused | Exists | Orphaned | Alternative | Switched | Pushed.

(** [for (size_t i = first; i >= last; i--)] with 64 bits: below zero it goes on at [2^64 - 1]. *)
Fixpoint for_down {T} (fuel : nat) (i last : Z) (body : Z -> T -> outcome T) (s : T) : outcome T :=
  if last <=? i then
    match fuel with
    | O => Undefined
    | S fuel => s ← body i s; for_down fuel (u64 (i - 1)) last body s
    end
  else Ret s.

Section Reorg.
Context {P : Type} `{TxPool P}.
Context (c : Currency).
Context (check_key : bytes -> bool) (parseAccountAddressString : bytes -> option AccountPublicAddress).
Context (key_image_in_domain : bytes -> bool).
Context (check_ring_signature : Hash -> bytes -> list bytes -> list bytes -> bool).
Context (check_signature : Hash -> bytes -> bytes -> bool).
Context (cn_slow_hash : bytes -> Z -> Z -> Hash) (m_genesisBlockHash : Hash).
Context (nextDifficultyV3 : list Z -> list Z -> outcome Z).
Context (m_checkpoints : points).
Context (blockMajorVersion : Z).
Context (consensus : TransactionExtraElderfierMessage -> Consensus).
(** [calc_poisson_ln(time / DIFFICULTY_TARGET, k) < POISSON_LOG_P_REJECT]. *)
Context (poisson_reject : Z -> Z -> bool).
(** [get_adjusted_time()]. *)
Context (now : Z).

Abbreviation Chain := (Blockchain P).
Abbreviation push zone := (pushBlockFromPool c check_key parseAccountAddressString key_image_in_domain check_ring_signature check_signature
  cn_slow_hash m_genesisBlockHash nextDifficultyV3 m_checkpoints zone blockMajorVersion consensus now).
Abbreviation AltBlock := (Hash * BlockEntry)%type.

Definition with_chain (bc : Chain) (nd : Node P) : Node P :=
  mkNode bc (m_alternative_chains nd) (m_orthanBlocksIndex nd) (m_is_in_checkpoint_zone nd).

Definition chain_size (bc : Chain) : Z := Z.of_nat (length (m_blocks bc)).

(** [m_blocks.back()]. *)
Definition back (bc : Chain) : outcome BlockEntry := block_at (m_blocks bc) (u64 (chain_size bc - 1)).

(** * Lookups *)

Definition haveBlock (nd : Node P) (id : Hash) : bool :=
  Sync.hasBlock (m_blockIndex (nd_chain nd)) id || bool_decide (is_Some (m_alternative_chains nd !! id)).

Definition getBlockByHash (nd : Node P) (blockHash : Hash) : outcome (option Block) :=
  match Sync.getBlockHeight (m_blockIndex (nd_chain nd)) blockHash with
  | Some height => e ← block_at (m_blocks (nd_chain nd)) height; Ret (Some (be_bl e))
  | None => Ret (be_bl <$> m_alternative_chains nd !! blockHash)
  end.

(** The transactions that are found, and the hashes that are missed. *)
Fixpoint getBlockchainTransactions (bc : Chain) (ids : list Hash) : outcome (list Transaction * list Hash) :=
  match ids with
  | [] => Ret ([], [])
  | id :: ids =>
      '(txs, missed) ← (match m_transactionMap (m_store bc) !! id with
                        | None => Ret ([], [id])
                        | Some index => e ← transactionByIndex (m_blocks bc) index; Ret ([te_tx e], [])
                        end);
      '(txs', missed') ← getBlockchainTransactions bc ids;
      Ret (txs ++ txs', missed ++ missed')
  end.

(** The size, and whether every transaction is known. *)
Definition getBlockCumulativeSize (bc : Chain) (block : Block) : outcome (Z * bool) :=
  '(txs, poolTxIds) ← getBlockchainTransactions bc (b_transactionHashes block);
  let found := omap (pool_get (m_tx_pool bc)) poolTxIds in
  let missed := filter (fun id => pool_get (m_tx_pool bc) id = None) poolTxIds in
  Ret (sumZ (map getObjectBinarySize (b_baseTransaction block :: txs ++ found)), bool_decide (missed = [])).

(** * The chain of an alternative block *)

(** Back along [previousBlockHash] while the block is an alternative one; the chain from the front, the times from the back. *)
Fixpoint alternative_chain (fuel : nat) (blocks : gmap Hash BlockEntry) (id : Hash) (chain : list AltBlock) (timestamps : list Z)
    : outcome (list AltBlock * list Z) :=
  match blocks !! id with
  | None => Ret (chain, timestamps)
  | Some e =>
      match fuel with
      | O => Undefined
      | S fuel =>
          alternative_chain fuel blocks (b_previousBlockHash (be_bl e)) ((id, e) :: chain) (timestamps ++ [b_timestamp (be_bl e)])
      end
  end.

(** The [do] loop: the first block is always taken, the block at [stop] only when it is the first. *)
Fixpoint complete_loop (fuel : nat) (blocks : list BlockEntry) (start stop : Z) (timestamps : list Z) : outcome (list Z) :=
  match fuel with
  | O => Undefined
  | S fuel =>
      e ← block_at blocks start;
      let timestamps := timestamps ++ [b_timestamp (be_bl e)] in
      if start =? 0 then Ret timestamps
      else if start - 1 =? stop then Ret timestamps
      else complete_loop fuel blocks (start - 1) stop timestamps
  end.

(** What it answers is not looked at. *)
Definition complete_timestamps_vector (bc : Chain) (majorVersion start_top_height : Z) (timestamps : list Z) : outcome (list Z) :=
  let n := Z.of_nat (length timestamps) in
  let window := timestampCheckWindow c majorVersion in
  if bool_decide (m_blocks bc = []) || (window <=? n) || negb (start_top_height <? chain_size bc) then Ret timestamps
  else
    let need := window - n in
    let stop := if need <? start_top_height then start_top_height - need else 0 in
    complete_loop (S (Z.to_nat start_top_height)) (m_blocks bc) start_top_height stop timestamps.

Definition get_next_difficulty_for_alternative_chain (bc : Chain) (alt_chain : list AltBlock) (height : Z) : outcome Z :=
  let size := u32 (chain_size bc) in
  let version := majorVersionForHeight c m_checkpoints bc size in
  let window := difficultyBlocksCountByBlockVersion c version in
  let n := Z.of_nat (length alt_chain) in
  entries ← (if n <? window then
               let stop := match alt_chain with [] => height | (_, e) :: _ => be_height e end in
               let start := stop - Z.min (window - Z.min window n) stop in
               let start := if start =? 0 then 1 else start in
               main ← mapM (block_at (m_blocks bc)) (seqZ start (stop - start));
               Ret (main ++ map snd alt_chain)
             else Ret (map snd (drop (Z.to_nat (n - window)) alt_chain)));
  nextDifficulty c nextDifficultyV3 size version (map (fun e => b_timestamp (be_bl e)) entries) (map be_cumulative_difficulty entries).

(** * The switch *)

(** The probability of the times of a long alternative chain, against up to sixty blocks before it: the number of
    failed checks and of checks.  A block that is not found would be read without a value. *)
Fixpoint poisson_loop (nd : Node P) (n : nat) (i high_timestamp size : Z) (low_block : Hash) (failed : Z) : outcome (Z * Z) :=
  match n with
  | O => Ret (failed, i - 1)
  | S n =>
      if decide (low_block = NULL_HASH) then Ret (failed, i - 1)
      else
        r ← getBlockByHash nd low_block;
        match r with
        | None => Undefined
        | Some blk =>
            let fails := (high_timestamp <=? b_timestamp blk) || poisson_reject (high_timestamp - b_timestamp blk) (size + i) in
            poisson_loop nd n (i + 1) high_timestamp size (b_previousBlockHash blk) (if fails then failed + 1 else failed)
        end
  end.

Definition poisson_check (nd : Node P) (alt_chain : list AltBlock) : outcome bool :=
  let size := Z.of_nat (length alt_chain) in
  match alt_chain with
  | [] => Ret true
  | (_, front) :: _ =>
      if size <? POISSON_CHECK_TRIGGER then Ret true
      else
        let high_timestamp := foldr (fun b => Z.max (b_timestamp (be_bl b.2))) 0 alt_chain in
        if u64 (now + CRYPTONOTE_BLOCK_FUTURE_TIME_LIMIT) <? high_timestamp then Ret false
        else
          '(failed, checks) ← poisson_loop nd (Z.to_nat POISSON_CHECK_DEPTH) 1 high_timestamp size (b_previousBlockHash (be_bl front)) 0;
          Ret (negb (checks / 2 <? failed))
  end.

(** Every transaction of the blocks that would go is in the new chain. *)
Definition transactions_kept (bc : Chain) (alt_chain : list AltBlock) (split_height : Z) : outcome bool :=
  main ← for_down (length (m_blocks bc) + 2) (u64 (chain_size bc - 1)) split_height
           (fun i hashes => e ← block_at (m_blocks bc) i; Ret (hashes ++ b_transactionHashes (be_bl e))) [];
  let alt := alt_chain ≫= fun b => b_transactionHashes (be_bl b.2) in
  Ret (forallb (fun h => bool_decide (h ∈ alt)) main).

(** The old blocks are popped, and collected in their order. *)
Definition disconnect_block (i : Z) (s : Chain * list Block) : outcome (Chain * list Block) :=
  let '(bc, disconnected) := s in
  e ← block_at (m_blocks bc) i;
  h ← block_hash (be_bl e);
  bc ← popBlock c h bc;
  Ret (bc, be_bl e :: disconnected).

Definition disconnect (split_height : Z) (bc : Chain) : outcome (Chain * list Block) :=
  for_down (length (m_blocks bc) + 2) (u64 (chain_size bc - 1)) split_height disconnect_block (bc, []).

(** The blocks are pushed one after the other; [Some] holds those from the first refused one on. *)
Fixpoint connect {B} (bl : B -> Block) (blocks : list B) (height : Z) (zone : bool) (bc : Chain) : outcome (option (list B) * Chain) :=
  match blocks with
  | [] => Ret (None, bc)
  | b :: rest =>
      let height := u32 (height + 1) in
      '(ok, bc) ← push zone (bl b) height bc;
      if ok : bool then connect bl rest height zone bc else Ret (Some (b :: rest), bc)
  end.

Definition rollback_blockchain_switching (original_chain : list Block) (rollback_height : Z) (zone : bool) (bc : Chain) : outcome (bool * Chain) :=
  bc ← for_down (length (m_blocks bc) + 2) (u64 (chain_size bc - 1)) rollback_height
         (fun _ bc => e ← back bc; h ← block_hash (be_bl e); popBlock c h bc) bc;
  '(refused, bc) ← connect (fun b => b) original_chain (u32 (rollback_height - 1)) zone bc;
  Ret (match refused with None => true | Some _ => false end, bc).

Fixpoint erase_alternatives (blocks : list AltBlock) (nd : Node P) : outcome (Node P) :=
  match blocks with
  | [] => Ret nd
  | (id, e) :: blocks =>
      '(_, orphans) ← orphan_remove (m_orthanBlocksIndex nd) (be_bl e);
      erase_alternatives blocks (mkNode (nd_chain nd) (delete id (m_alternative_chains nd)) orphans (m_is_in_checkpoint_zone nd))
  end.

(** The old blocks become alternative ones, up to the first that is refused. *)
Fixpoint readd (handle : Block -> Hash -> Node P -> outcome (Answer * Node P)) (blocks : list Block) (nd : Node P) : outcome (Node P) :=
  match blocks with
  | [] => Ret nd
  | b :: blocks =>
      h ← block_hash b;
      '(r, nd) ← handle b h nd;
      match r with Refused => Ret nd | _ => readd handle blocks nd end
  end.

(** [handle] is [handle_alternative_block]. *)
Definition switch_to_alternative_blockchain (handle : Block -> Hash -> Node P -> outcome (Answer * Node P))
    (alt_chain : list AltBlock) (discard_disconnected_chain : bool) (nd : Node P) : outcome (bool * Node P) :=
  match alt_chain with
  | [] => Ret (false, nd)
  | (_, front) :: _ =>
      let split_height := be_height front in
      if negb (split_height <? chain_size (nd_chain nd)) then Ret (false, nd)
      else
        plausible ← poisson_check nd alt_chain;
        if negb plausible then Ret (false, nd)
        else
          kept ← transactions_kept (nd_chain nd) alt_chain split_height;
          if negb kept then Ret (false, nd)
          else
            '(bc, disconnected_chain) ← disconnect split_height (nd_chain nd);
            '(refused, bc) ← connect (fun b => be_bl b.2) alt_chain (u32 (split_height - 1)) (m_is_in_checkpoint_zone nd) bc;
            match refused with
            | Some blocks =>
                '(_, bc) ← rollback_blockchain_switching disconnected_chain split_height (m_is_in_checkpoint_zone nd) bc;
                nd ← erase_alternatives blocks (with_chain bc nd);
                Ret (false, nd)
            | None =>
                let nd := with_chain bc nd in
                nd ← (if discard_disconnected_chain then Ret nd else readd handle disconnected_chain nd);
                nd ← erase_alternatives alt_chain nd;
                Ret (true, nd)
            end
  end.

(** * Alternative blocks *)

(** A block whose parent is known, with the chain of alternative blocks up to the parent. *)
Definition add_alternative (handle : Block -> Hash -> Node P -> outcome (Answer * Node P)) (b : Block) (id : Hash)
    (alt_chain : list AltBlock) (timestamps : list Z) (mainPrevHeight : Z) (nd : Node P) : outcome (Answer * Node P) :=
  let bc := nd_chain nd in
  connected ← (match alt_chain with
               | [] => ts ← complete_timestamps_vector bc (b_majorVersion b) mainPrevHeight timestamps; Ret (Some ts)
               | (_, front) :: _ =>
                   if negb (be_height front <? chain_size bc) then Ret None
                   else
                     e ← block_at (m_blocks bc) (u32 (be_height front - 1));
                     h ← block_hash (be_bl e);
                     if negb (bool_decide (h = b_previousBlockHash (be_bl front))) then Ret None
                     else ts ← complete_timestamps_vector bc (b_majorVersion b) (u32 (be_height front - 1)) timestamps; Ret (Some ts)
               end);
  match connected with
  | None => Ret (Refused, nd)
  | Some timestamps =>
      timeOk ← check_block_timestamp c timestamps b;
      if negb timeOk then Ret (Refused, nd)
      else
        let prev := snd <$> last alt_chain in
        let height := u32 ((match prev with Some e => be_height e | None => mainPrevHeight end) + 1) in
        let '(checkpointOk, is_a_checkpoint) := check_block (Some c) m_checkpoints height id in
        if negb checkpointOk then Ret (Refused, nd)
        else
          let nd := mkNode bc (m_alternative_chains nd) (m_orthanBlocksIndex nd) false in
          current_diff ← get_next_difficulty_for_alternative_chain bc alt_chain height;
          if current_diff =? 0 then Ret (Refused, nd)
          else
            workOk ← checkProofOfWork cn_slow_hash m_genesisBlockHash b current_diff;
            if negb workOk then Ret (Refused, nd)
            else
              coinbaseOk ← prevalidate_miner_transaction c check_key b height;
              if negb coinbaseOk then Ret (Refused, nd)
              else
                before ← (match prev with
                          | Some e => Ret (be_cumulative_difficulty e)
                          | None => e ← block_at (m_blocks bc) mainPrevHeight; Ret (be_cumulative_difficulty e)
                          end);
                let bei := mkBlockEntry b height 0 (u64 (before + current_diff)) 0 [] in
                if bool_decide (is_Some (m_alternative_chains nd !! id)) then Ret (Refused, nd)
                else
                  orphans ← orphan_add (m_orthanBlocksIndex nd) b;
                  let nd := mkNode bc (<[id := bei]> (m_alternative_chains nd)) orphans false in
                  let alt_chain := alt_chain ++ [(id, bei)] in
                  heavier ← (if is_a_checkpoint then Ret true
                             else top ← back bc; Ret (be_cumulative_difficulty top <? be_cumulative_difficulty bei));
                  if heavier : bool then
                    '(ok, nd) ← switch_to_alternative_blockchain handle alt_chain is_a_checkpoint nd;
                    Ret (if ok : bool then Switched else Refused, nd)
                  else Ret (Alternative, nd)
  end.

(** A switch hands the old blocks to [handle_alternative_block] again. *)
Fixpoint handle_alternative_block (fuel : nat) (b : Block) (id : Hash) (nd : Node P) : outcome (Answer * Node P) :=
  match fuel with
  | O => Undefined
  | S fuel =>
      let bc := nd_chain nd in
      let block_height := get_block_height b in
      if block_height =? 0 then Ret (Refused, nd)
      else if negb (is_alternative_block_allowed m_checkpoints (currentHeight (m_blocks bc)) block_height) then Ret (Refused, nd)
      else if negb (checkBlockVersion c m_checkpoints bc b) then Ret (Refused, nd)
      else if negb (checkParentBlockSize b) then Ret (Refused, nd)
      else
        '(cumulativeSize, _) ← getBlockCumulativeSize bc b;
        sizeOk ← checkCumulativeBlockSize c cumulativeSize block_height;
        if negb sizeOk then Ret (Refused, nd)
        else
          let mainPrev := Sync.getBlockHeight (m_blockIndex bc) (b_previousBlockHash b) in
          '(alt_chain, timestamps) ← alternative_chain (size (m_alternative_chains nd)) (m_alternative_chains nd) (b_previousBlockHash b) [] [];
          match alt_chain, mainPrev with
          | [], None => Ret (Orphaned, nd)
          | _, _ => add_alternative (handle_alternative_block fuel) b id alt_chain timestamps (default 0 mainPrev) nd
          end
  end.

Definition addNewBlock (fuel : nat) (bl : Block) (nd : Node P) : outcome (Answer * Node P) :=
  r ← get_block_hash bl;
  match r with
  | None => Ret (Refused, nd)
  | Some id =>
      if haveBlock nd id then Ret (Exists, nd)
      else
        tail ← getTailId (nd_chain nd);
        if bool_decide (b_previousBlockHash bl = tail) then
          '(ok, bc) ← push (m_is_in_checkpoint_zone nd) bl (u32 (chain_size (nd_chain nd) + 1)) (nd_chain nd);
          Ret (if ok : bool then Pushed else Refused, with_chain bc nd)
        else handle_alternative_block fuel bl id nd
  end.

End Reorg.
