(* ===== verification/ReorgInvariant.v ===== *)
(** What the handling of alternative blocks does to the main chain: since [popBlock] takes two blocks away, no switch
    succeeds, and a switch that is tried leaves the chain two blocks shorter. *)

From stdpp Require Import gmultiset.
From S2P Require Import Prelude Config Currency Types Amounts TxChecks TransactionExtra Codec Emission DifficultyAlgo BankingIndex ChainStore.
From S2P Require Import UpgradeDetector Checkpoints InputChecks CommitmentStore Elderfiers BlockEffects Serialization BlockIndices.
From S2P Require Import ProofOfWork MinerTx Chain ChainInvariant ChainReach Reorg.
From S2P Require Sync.

(** The height of an alternative block is the one in its coinbase. *)
Definition alternative_ok (e : BlockEntry) : Prop := base_height (be_bl e) = Ret (be_height e) /\ 1 <= be_height e.

Record node_ok {P} (nd : Node P) : Prop := {
  nok_chain : chain_ok (nd_chain nd);
  nok_alternatives id e : m_alternative_chains nd !! id = Some e -> alternative_ok e
}.

Section Reorg.
Context {P : Type} `{TxPool P}.
Context (c : Currency).
Context (check_key : bytes -> bool) (parseAccountAddressString : bytes -> option AccountPublicAddress).
Context (key_image_in_domain : bytes -> bool).
Context (check_ring_signature : Hash -> bytes -> list bytes -> list bytes -> bool).
Context (check_signature : Hash -> bytes -> bytes -> bool).
Context (cn_slow_hash : bytes -> Z -> Z -> Hash) (m_genesisBlockHash : Hash).
Context (nextDifficultyV3 : list Z -> list Z -> outcome Z).
Context (m_checkpoints : points).
Context (blockMajorVersion : Z).
Context (consensus : TransactionExtraElderfierMessage -> Consensus).
Context (poisson_reject : Z -> Z -> bool).

Abbreviation pushBlock' zone now := (pushBlock c check_key parseAccountAddressString key_image_in_domain check_ring_signature check_signature
  cn_slow_hash m_genesisBlockHash nextDifficultyV3 m_checkpoints zone blockMajorVersion consensus now).
Abbreviation push' zone now := (pushBlockFromPool c check_key parseAccountAddressString key_image_in_domain check_ring_signature check_signature
  cn_slow_hash m_genesisBlockHash nextDifficultyV3 m_checkpoints zone blockMajorVersion consensus now).
Abbreviation connect' now := (connect c check_key parseAccountAddressString key_image_in_domain check_ring_signature check_signature
  cn_slow_hash m_genesisBlockHash nextDifficultyV3 m_checkpoints blockMajorVersion consensus now).
Abbreviation rollback' now := (rollback_blockchain_switching c check_key parseAccountAddressString key_image_in_domain check_ring_signature check_signature
  cn_slow_hash m_genesisBlockHash nextDifficultyV3 m_checkpoints blockMajorVersion consensus now).
Abbreviation switch' now := (switch_to_alternative_blockchain c check_key parseAccountAddressString key_image_in_domain check_ring_signature check_signature
  cn_slow_hash m_genesisBlockHash nextDifficultyV3 m_checkpoints blockMajorVersion consensus poisson_reject now).

(** ** Pushes that are refused *)

(** A push answers [true] only for a block whose coinbase has the height of the chain; a refused block leaves the blocks
    alone. *)
Lemma push_from_pool_cases zone now b height (bc : Blockchain P) ok bc' :
  chain_ok bc -> chain_size bc + 1 < 2 ^ 32 -> push' zone now b height bc = Ret (ok, bc') ->
  chain_ok bc' /\ if ok then base_height b = Ret (chain_size bc) /\ exists e, be_bl e = b /\ m_blocks bc' = m_blocks bc ++ [e]
                  else m_blocks bc' = m_blocks bc.
Proof.
  intros Hok Hlen Hp. unfold chain_size in *. unfold pushBlockFromPool in Hp. apply outcome_bind_inv in Hp as ([[txs |] p] & _ & Hp); cycle 1.
  { injection Hp as <- <-. split; [by apply (same_chain_ok bc) | done]. }
  assert (Hok1 : chain_ok (with_pool p bc)) by (by apply (same_chain_ok bc)).
  apply outcome_bind_inv in Hp as ([[] bc1] & H1 & Hp).
  - injection Hp as <- <-. pose proof H1 as Hacc. eapply pushBlock_accepted in Hacc as (h & e & He & _ & Hb & _ & Hok2); [| exact Hok1 | exact Hlen].
    split; [done |]. split; [| by exists e]. apply pushBlock_inv in H1 as (h' & _ & d & _ & _ & _ & _ & _ & _ & _ & _ & _ & _ & _ & Hc & _).
    apply check_header_inv in Hc as (_ & _ & _ & _ & _ & _ & _ & _ & Hpre). apply prevalidate_height in Hpre.
    cbn [with_pool m_blocks] in Hpre. rewrite u32_small in Hpre by lia. done.
  - apply outcome_bind_inv in Hp as (p1 & _ & Hp). injection Hp as <- <-.
    assert (Hok2 : chain_ok bc1) by (eapply pushBlock_ok; [exact Hok1 | exact Hlen | exact H1]).
    apply pushBlock_inv in H1 as (h & _ & s & ->). split; [by eapply same_chain_ok | done].
Qed.

(** A block of another height is refused at once. *)
Lemma connect_refused {B} (bl : B -> Block) b rest h height zone now (bc : Blockchain P) refused bc' :
  chain_ok bc -> chain_size bc + 1 < 2 ^ 32 -> base_height (bl b) = Ret h -> h <> chain_size bc ->
  connect' now bl (b :: rest) height zone bc = Ret (refused, bc') ->
  refused = Some (b :: rest) /\ chain_ok bc' /\ m_blocks bc' = m_blocks bc.
Proof.
  intros Hok Hlen Hh Hne Hc. cbn [connect] in Hc. apply outcome_bind_inv in Hc as ([[] bc1] & H1 & Hc).
  - exfalso. apply push_from_pool_cases in H1 as (_ & Hb & _); [| done | done]. rewrite Hh in Hb. injection Hb as ->. done.
  - injection Hc as <- <-. apply push_from_pool_cases in H1 as [? ?]; done.
Qed.

(** ** The loops over the last blocks *)

Lemma disconnect_inv split (bc bc' : Blockchain P) l :
  chain_ok bc -> 1 <= split < chain_size bc -> disconnect c split bc = Ret (bc', l) ->
  split = chain_size bc - 1 /\ chain_ok bc' /\ m_blocks bc' = pop_back (pop_back (m_blocks bc))
  /\ exists e, last (m_blocks bc) = Some e /\ l = [be_bl e].
Proof.
  intros Hok Hs Hd. pose proof (ok_length _ Hok) as Hlen. unfold disconnect, chain_size in *.
  rewrite Nat.add_comm, u64_small in Hd by lia. cbn [Nat.add for_down] in Hd. destruct (Z.leb_spec split (Z.of_nat (length (m_blocks bc)) - 1)); [| lia].
  apply outcome_bind_inv in Hd as ([bc1 l1] & H1 & Hd). unfold disconnect_block in H1. apply outcome_bind_inv in H1 as (e & He & H1).
  apply outcome_bind_inv in H1 as (h & Hh & H1). apply outcome_bind_inv in H1 as (bc2 & H2 & H1). injection H1 as <- <-.
  assert (Hlast : last (m_blocks bc) = Some e).
  { rewrite last_lookup. unfold block_at in He. destruct (_ <? 0); [done |].
    replace (pred (length (m_blocks bc))) with (Z.to_nat (Z.of_nat (length (m_blocks bc)) - 1)) by lia. destruct (m_blocks bc !! _); by simplify_eq. }
  destruct (popBlock_ok c h bc bc2 Hok) as [Hok2 Hb2]; [by intros e' He'; rewrite Hlast in He'; injection He' as <- | done |].
  rewrite u64_small in Hd by lia. destruct (Z.leb_spec split (Z.of_nat (length (m_blocks bc)) - 1 - 1)) as [Hle | Hgt].
  - exfalso. apply outcome_bind_inv in Hd as ([bc3 l3] & H3 & _). unfold disconnect_block in H3. apply outcome_bind_inv in H3 as (e3 & He3 & _).
    unfold block_at in He3. destruct (_ <? 0) in He3; [done |].
    rewrite lookup_ge_None_2 in He3; [done |]. rewrite Hb2. unfold pop_back. rewrite !length_take. lia.
  - injection Hd as <- <-. split; [lia |]. split; [done |]. split; [done |]. by exists e.
Qed.

(** The rollback pops nothing more; it fails on the empty chain, where the counter is below zero. *)
Lemma rollback_inv b split zone now (bc : Blockchain P) ok bc' :
  chain_ok bc -> chain_size bc + 1 < 2 ^ 32 -> split = chain_size bc + 1 -> base_height b = Ret split ->
  rollback' now [b] split zone bc = Ret (ok, bc') -> ok = false /\ chain_ok bc' /\ m_blocks bc' = m_blocks bc.
Proof.
  intros Hok Hlen -> Hb Hr. unfold rollback_blockchain_switching in Hr. apply outcome_bind_inv in Hr as (bc1 & H1 & Hr).
  assert (bc1 = bc) as ->.
  { rewrite Nat.add_comm in H1. cbn [Nat.add for_down] in H1. unfold back, chain_size in *.
    destruct (Z.leb_spec (Z.of_nat (length (m_blocks bc)) + 1) (u64 (Z.of_nat (length (m_blocks bc)) - 1))) as [Hle | Hgt]; [| by injection H1].
    exfalso. apply outcome_bind_inv in H1 as (bc2 & H2 & _). apply outcome_bind_inv in H2 as (e & He & _). unfold block_at in He.
    destruct (_ <? 0) in He; [done |]. rewrite lookup_ge_None_2 in He by lia. done. }
  apply outcome_bind_inv in Hr as ([refused bc2] & H2 & Hr). injection Hr as <- <-.
  apply (connect_refused _ _ _ (chain_size bc + 1)) in H2 as (-> & Hok2 & Hb2); [done | done | done | done | lia].
Qed.

Lemma erase_inv blocks (nd nd' : Node P) : erase_alternatives blocks nd = Ret nd' ->
  nd_chain nd' = nd_chain nd /\ forall id e, m_alternative_chains nd' !! id = Some e -> m_alternative_chains nd !! id = Some e.
Proof.
  revert nd. induction blocks as [| [id e] blocks IH]; intros nd He; cbn [erase_alternatives] in He; [by injection He as <- |].
  apply outcome_bind_inv in He as ([found orphans] & _ & He). apply IH in He as [Hc Ha]. cbn [nd_chain m_alternative_chains] in *.
  split; [done |]. intros id' e' He'. specialize (Ha _ _ He'). by apply lookup_delete_Some in Ha as [_ Ha].
Qed.

(** What a node may lose: no block, or the last two. *)
Definition same_or_shorter (nd nd' : Node P) : Prop :=
  m_blocks (nd_chain nd') = m_blocks (nd_chain nd) \/ m_blocks (nd_chain nd') = pop_back (pop_back (m_blocks (nd_chain nd))).

Lemma switch_fails now handle alt_chain discard (nd : Node P) ok nd' :
  node_ok nd -> Forall (fun b => alternative_ok b.2) alt_chain ->
  switch' now handle alt_chain discard nd = Ret (ok, nd') -> ok = false /\ node_ok nd' /\ same_or_shorter nd nd'.
Proof.
  intros [Hok Halt] Hal Hs. unfold switch_to_alternative_blockchain in Hs.
  destruct alt_chain as [| [id front] rest]; [injection Hs as <- <-; split; [done |]; split; [by split | by left] |].
  apply Forall_cons in Hal as [[Hfh Hf1] _]. cbn [snd] in Hfh, Hf1.
  destruct (Z.ltb_spec (be_height front) (chain_size (nd_chain nd))) as [Hlt |]; cbn [negb] in Hs;
    [| injection Hs as <- <-; split; [done |]; split; [by split | by left]].
  apply outcome_bind_inv in Hs as ([] & _ & Hs); cbn [negb] in Hs; [| injection Hs as <- <-; split; [done |]; split; [by split | by left]].
  apply outcome_bind_inv in Hs as ([] & _ & Hs); cbn [negb] in Hs; [| injection Hs as <- <-; split; [done |]; split; [by split | by left]].
  apply outcome_bind_inv in Hs as ([bc1 l] & Hd & Hs). apply disconnect_inv in Hd as (Hsp & Hok1 & Hb1 & e & Hlast & ->); [| done | lia].
  pose proof (ok_length _ Hok) as Hlen. unfold chain_size in *. set (n := length (m_blocks (nd_chain nd))) in *.
  assert (Hn1 : length (m_blocks bc1) = (n - 2)%nat) by (rewrite Hb1; unfold pop_back; rewrite !length_take; unfold n; lia).
  apply outcome_bind_inv in Hs as ([refused bc2] & Hc & Hs).
  eapply connect_refused in Hc as (-> & Hok2 & Hb2); [| exact Hok1 | unfold chain_size; lia | exact Hfh | unfold chain_size; lia].
  apply outcome_bind_inv in Hs as ([ok3 bc3] & Hr & Hs). apply outcome_bind_inv in Hs as (nd4 & He & Hs). injection Hs as <- <-.
  assert (Hle : base_height (be_bl e) = Ret (be_height front)).
  { rewrite last_lookup in Hlast. destruct (ok_heights _ Hok _ _ Hlast) as [_ Hbh]. rewrite Hbh. f_equal. fold n. lia. }
  apply rollback_inv in Hr as (_ & Hok3 & Hb3); [| done | unfold chain_size; rewrite Hb2; lia | unfold chain_size; rewrite Hb2; lia | done].
  apply erase_inv in He as [Hc4 Ha4]. cbn [with_chain nd_chain m_alternative_chains] in Hc4, Ha4. split; [done |]. split.
  - split; [by rewrite Hc4 |]. intros id' e' He'. eapply Halt, Ha4, He'.
  - right. by rewrite Hc4, Hb3, Hb2.
Qed.

(** ** Alternative blocks *)

Abbreviation add_alternative' now := (add_alternative c check_key parseAccountAddressString key_image_in_domain check_ring_signature check_signature
  cn_slow_hash m_genesisBlockHash nextDifficultyV3 m_checkpoints blockMajorVersion consensus poisson_reject now).
Abbreviation handle' now := (handle_alternative_block c check_key parseAccountAddressString key_image_in_domain check_ring_signature check_signature
  cn_slow_hash m_genesisBlockHash nextDifficultyV3 m_checkpoints blockMajorVersion consensus poisson_reject now).
Abbreviation addNewBlock' now := (addNewBlock c check_key parseAccountAddressString key_image_in_domain check_ring_signature check_signature
  cn_slow_hash m_genesisBlockHash nextDifficultyV3 m_checkpoints blockMajorVersion consensus poisson_reject now).

(** An answer about an alternative block, with what it leaves of the node. *)
Definition handled (nd : Node P) (r : Answer) (nd' : Node P) : Prop :=
  node_ok nd' /\ match r with
                | Refused => same_or_shorter nd nd'
                | Orphaned | Alternative => m_blocks (nd_chain nd') = m_blocks (nd_chain nd)
                | _ => False
                end.

Lemma handled_refused (nd nd' : Node P) : node_ok nd' -> nd_chain nd' = nd_chain nd -> handled nd Refused nd'.
Proof. intros Hok Hc. split; [done |]. left. by rewrite Hc. Qed.

Lemma prevalidate_block_height b height : prevalidate_miner_transaction c check_key b height = Ret true -> get_block_height b = height.
Proof.
  unfold prevalidate_miner_transaction, get_block_height. intros H1. destruct (tx_inputs _) as [| [i | | | | |] [|]]; try done.
  by destruct (Z.eqb_spec (bi_blockIndex i) height).
Qed.

Lemma alternative_chain_ok (fuel : nat) (blocks : gmap Hash BlockEntry) (id : Hash) chain ts chain' ts' :
  (forall id e, blocks !! id = Some e -> alternative_ok e) -> Forall (fun b => alternative_ok b.2) chain ->
  alternative_chain fuel blocks id chain ts = Ret (chain', ts') -> Forall (fun b => alternative_ok b.2) chain'.
Proof.
  intros Hb. revert id chain ts. induction fuel as [| fuel IH]; intros id chain ts Hc Ha; cbn [alternative_chain] in Ha;
    (destruct (blocks !! id) as [e |] eqn:E; [| by injection Ha as <- _]); [done |].
  eapply IH, Ha. constructor; [by eapply Hb | done].
Qed.

Lemma add_alternative_handled now handle b id alt_chain ts mainPrevHeight (nd : Node P) r nd' :
  node_ok nd -> Forall (fun b => alternative_ok b.2) alt_chain -> get_block_height b <> 0 ->
  add_alternative' now handle b id alt_chain ts mainPrevHeight nd = Ret (r, nd') -> handled nd r nd'.
Proof.
  intros Hok Hal Hb0 Ha. unfold add_alternative in Ha.
  apply outcome_bind_inv in Ha as ([ts' |] & _ & Ha); [| injection Ha as <- <-; by apply handled_refused].
  apply outcome_bind_inv in Ha as ([] & _ & Ha); cbn [negb] in Ha; [| injection Ha as <- <-; by apply handled_refused].
  destruct (check_block _ _ _ _) as [[] is_cp]; cbn [negb] in Ha; [| injection Ha as <- <-; by apply handled_refused].
  set (height := u32 _) in *. set (nd1 := mkNode (nd_chain nd) (m_alternative_chains nd) (m_orthanBlocksIndex nd) false) in *.
  assert (Hok1 : node_ok nd1) by (destruct Hok; by split).
  apply outcome_bind_inv in Ha as (d & _ & Ha). destruct (d =? 0); [injection Ha as <- <-; by apply handled_refused |].
  apply outcome_bind_inv in Ha as ([] & _ & Ha); cbn [negb] in Ha; [| injection Ha as <- <-; by apply handled_refused].
  apply outcome_bind_inv in Ha as ([] & Hpre & Ha); cbn [negb] in Ha; [| injection Ha as <- <-; by apply handled_refused].
  apply outcome_bind_inv in Ha as (before & _ & Ha). destruct (bool_decide _); [injection Ha as <- <-; by apply handled_refused |].
  apply outcome_bind_inv in Ha as (orphans & _ & Ha). set (bei := mkBlockEntry _ _ _ _ _ _) in *. set (nd2 := mkNode _ (<[id := bei]> _) _ _) in *.
  assert (Hbei : alternative_ok bei).
  { pose proof (prevalidate_block_height _ _ Hpre) as Hh. split; [by eapply prevalidate_height |].
    cbn [bei be_height]. assert (0 <= height) by (apply Z.mod_pos_bound; lia). lia. }
  assert (Hok2 : node_ok nd2).
  { split; [apply Hok |]. intros id' e' He'. unfold nd2 in He'. cbn [m_alternative_chains] in He'. apply lookup_insert_Some in He' as [[_ <-] | [_ He']]; [done | by eapply Hok]. }
  apply outcome_bind_inv in Ha as ([] & _ & Ha); cycle 1.
  - injection Ha as <- <-. by split.
  - apply outcome_bind_inv in Ha as ([ok nd3] & Hs & Ha). injection Ha as <- <-.
    apply switch_fails in Hs as (-> & Hok3 & Hsame); [| done |].
    + by split.
    + apply Forall_app. split; [done |]. by constructor.
Qed.

Lemma handle_handled now fuel b id (nd : Node P) r nd' :
  node_ok nd -> handle' now fuel b id nd = Ret (r, nd') -> handled nd r nd'.
Proof.
  intros Hok Hh. destruct fuel as [| fuel]; [done |]. cbn [handle_alternative_block] in Hh.
  destruct (Z.eqb_spec (get_block_height b) 0) as [| Hb0]; [injection Hh as <- <-; by apply handled_refused |].
  destruct (negb _) in Hh; [injection Hh as <- <-; by apply handled_refused |].
  destruct (negb _) in Hh; [injection Hh as <- <-; by apply handled_refused |].
  destruct (negb _) in Hh; [injection Hh as <- <-; by apply handled_refused |].
  apply outcome_bind_inv in Hh as ([cs known] & _ & Hh).
  apply outcome_bind_inv in Hh as ([] & _ & Hh); cbn [negb] in Hh; [| injection Hh as <- <-; by apply handled_refused].
  apply outcome_bind_inv in Hh as ([alt_chain ts] & Halt & Hh).
  apply alternative_chain_ok in Halt; [| apply Hok | constructor].
  assert (Hor : (r = Orphaned /\ nd' = nd) \/ add_alternative' now (handle' now fuel) b id alt_chain ts
                  (default 0 (Sync.getBlockHeight (m_blockIndex (nd_chain nd)) (b_previousBlockHash b))) nd = Ret (r, nd')).
  { destruct alt_chain, (Sync.getBlockHeight _ _); try by right. left. by injection Hh as <- <-. }
  destruct Hor as [[-> ->] | Ha]; [by split | by eapply add_alternative_handled].
Qed.

Lemma addNewBlock_spec now fuel b (nd : Node P) r nd' :
  node_ok nd -> chain_size (nd_chain nd) + 1 < 2 ^ 32 -> addNewBlock' now fuel b nd = Ret (r, nd') ->
  node_ok nd' /\ match r with
                | Pushed => exists e, be_bl e = b /\ m_blocks (nd_chain nd') = m_blocks (nd_chain nd) ++ [e]
                | Refused => same_or_shorter nd nd'
                | Exists | Orphaned | Alternative => m_blocks (nd_chain nd') = m_blocks (nd_chain nd)
                | Switched => False
                end.
Proof.
  intros Hok Hlen Ha. unfold addNewBlock in Ha. apply outcome_bind_inv in Ha as ([id |] & _ & Ha); cycle 1.
  { injection Ha as <- <-. split; [done | by left]. }
  destruct (haveBlock nd id); [injection Ha as <- <-; by split |].
  apply outcome_bind_inv in Ha as (tail & _ & Ha). destruct (bool_decide _).
  - apply outcome_bind_inv in Ha as ([ok bc] & Hp & Ha). injection Ha as <- <-.
    apply push_from_pool_cases in Hp as [Hok1 Hp]; [| apply Hok | done]. destruct ok; (split; [destruct Hok; by split |]).
    + by destruct Hp as [_ Hp].
    + by left.
  - apply handle_handled in Ha as [Hok1 Ha]; [| done]. split; [done |]. by destruct r.
Qed.

(** ** Reachable nodes *)

Inductive node_reach : Node P -> Prop :=
| node_empty p zone : node_reach (mkNode (empty_chain p) ∅ ∅ zone)
| node_add now fuel b nd r nd' :
    node_reach nd -> chain_size (nd_chain nd) + 1 < 2 ^ 32 -> addNewBlock' now fuel b nd = Ret (r, nd') -> node_reach nd'
| node_rollback height nd bc : node_reach nd -> rollbackBlockchainTo c height (nd_chain nd) = Ret bc -> node_reach (with_chain bc nd)
| node_pool p nd : node_reach nd -> node_reach (with_chain (with_pool p (nd_chain nd)) nd).

Lemma node_reach_ok nd : node_reach nd -> node_ok nd.
Proof.
  induction 1 as [p zone | now fuel b nd r nd' _ IH Hlen Ha | height nd bc _ IH Hr | p nd _ IH].
  - split; [apply empty_chain_ok |]. intros id e He. cbn [m_alternative_chains] in He. by rewrite lookup_empty in He.
  - by apply addNewBlock_spec in Ha as [? _].
  - destruct IH as [Hok Halt]. split; [by eapply rollback_loop_ok | exact Halt].
  - destruct IH as [Hok Halt]. split; [by eapply same_chain_ok | exact Halt].
Qed.

(** C2: no call of [addNewBlock] that returns has switched to a heavier chain.  For every node reached by calls that return: its chain keeps its
    invariant, and a new block is added on top, or is there already, or is kept aside, or is refused; a refusal leaves the chain as it was
    or takes its last two blocks.  (A switch that is tried pops one block of the main chain; as [popBlock] takes two,
    the first block of the other chain does not fit, nor does the old block when it is put back; [ReorgDemo] has such a run.  Deeper switches end with an exception; the
    state that it leaves is not modelled.) *)
Theorem reorganisation_never_succeeds now fuel b nd r nd' :
  node_reach nd -> chain_size (nd_chain nd) + 1 < 2 ^ 32 -> addNewBlock' now fuel b nd = Ret (r, nd') ->
  chain_ok (nd_chain nd')
  /\ match r with
     | Pushed => exists e, be_bl e = b /\ m_blocks (nd_chain nd') = m_blocks (nd_chain nd) ++ [e]
     | Exists | Orphaned | Alternative => m_blocks (nd_chain nd') = m_blocks (nd_chain nd)
     | Refused => m_blocks (nd_chain nd') = m_blocks (nd_chain nd)
                  \/ m_blocks (nd_chain nd') = pop_back (pop_back (m_blocks (nd_chain nd)))
     | Switched => False
     end.
Proof.
  intros Hr Hlen Ha. apply addNewBlock_spec in Ha as [Hok Ha]; [| by apply node_reach_ok | done]. split; [apply Hok | exact Ha].
Qed.

End Reorg.

(** * A heavier branch costs the node two blocks *)

#[export] Instance Answer_eq_dec : EqDecision Answer.
Proof. solve_decision. Defined.

Module ReorgDemo.
Import ReachDemo.
(** A zone without checkpoints in it: alternative blocks are allowed at any height. *)
Definition zone : points := [(100, replicate 32 1)].
Definition block_at (height reward : Z) (nonce : Z) (prev : Hash) : Block :=
  mkBlock 1 0 nonce (1000 + 100 * height) prev (mkParentBlock 1 0 NULL_HASH 0 [] (mkTransaction 0 0 [] [] [] []) [])
    (mkTransaction 1 (height + m_minedMoneyUnlockWindow mainnet) [InBase (mkBaseInput height)]
       [mkTransactionOutput reward (OutKey (mkKeyOutput (replicate 32 9)))] [] [[]]) [].
Definition add (b : Block) (nd : Node unit) : outcome (Answer * Node unit) :=
  addNewBlock mainnet (fun _ => true) (fun _ => None) (fun _ => true) (fun _ _ _ _ => true) (fun _ _ _ => true) slow_hash NULL_HASH
    (fun _ _ => Ret 1) zone 1 no_verdict (fun _ _ => false) 100000 3 b nd.
Definition hash_of (b : Block) : Hash := match block_hash b with Ret h => h | _ => [] end.
Definition b0 := block_at 0 1000 0 NULL_HASH.
Definition h0 : Hash := Eval vm_compute in hash_of b0.
Definition b1 := block_at 1 1000 1 h0.
Definition h1 : Hash := Eval vm_compute in hash_of b1.
Definition b2 := block_at 2 1000 2 h1.
Definition b2' := block_at 2 1000 3 h1.
Definition h2' : Hash := Eval vm_compute in hash_of b2'.
Definition b3' := block_at 3 1000 4 h2'.
Definition nd0 : Node unit := mkNode (empty_chain tt) ∅ ∅ false.

(** A block is added with the answer and the number of blocks that are expected, and the run goes on. *)
Definition then_add (b : Block) (answer : Answer) (n : nat) (rest : Node unit -> bool) (nd : Node unit) : bool :=
  match add b nd with
  | Ret (a, nd') => bool_decide (a = answer) && bool_decide (length (m_blocks (nd_chain nd')) = n) && rest nd'
  | _ => false
  end.

Definition reach : Node unit -> Prop :=
  node_reach mainnet (fun _ => true) (fun _ => None) (fun _ => true) (fun _ _ _ _ => true) (fun _ _ _ => true) slow_hash NULL_HASH
    (fun _ _ => Ret 1) zone 1 no_verdict (fun _ _ => false).

Lemma then_add_inv b answer n rest nd :
  then_add b answer n rest nd = true -> exists nd', add b nd = Ret (answer, nd') /\ length (m_blocks (nd_chain nd')) = n /\ rest nd' = true.
Proof.
  unfold then_add. destruct (add b nd) as [[a nd'] | | |]; [| done..]. intros [[->%bool_decide_eq_true Hn%bool_decide_eq_true]%andb_true_iff Hr]%andb_true_iff.
  by exists nd'.
Qed.

Lemma then_add_reach b answer n m rest nd :
  reach nd -> length (m_blocks (nd_chain nd)) = n -> (n <= 10)%nat -> then_add b answer m rest nd = true ->
  exists nd', reach nd' /\ length (m_blocks (nd_chain nd')) = m /\ rest nd' = true.
Proof.
  intros Hr Hn Hle (nd' & Ha & Hm & Hrest)%then_add_inv. exists nd'. split; [| done]. eapply node_add; [exact Hr | | exact Ha]. unfold chain_size. lia.
Qed.

(** Three blocks, a second branch from the second of them, and the block that makes it heavier. *)
Lemma the_run :
  then_add b0 Pushed 1 (then_add b1 Pushed 2 (then_add b2 Pushed 3 (then_add b2' Alternative 3 (then_add b3' Refused 1 (fun _ => true))))) nd0 = true.
Proof. vm_compute. reflexivity. Qed.

Lemma the_switch :
  exists nd4 nd5, reach nd4 /\ length (m_blocks (nd_chain nd4)) = 3%nat /\ add b3' nd4 = Ret (Refused, nd5) /\ length (m_blocks (nd_chain nd5)) = 1%nat.
Proof.
  destruct (then_add_reach b0 Pushed 0 1 _ nd0 ltac:(apply node_empty) eq_refl ltac:(lia) the_run) as (nd1 & R1 & L1 & H1).
  destruct (then_add_reach b1 Pushed 1 2 _ nd1 R1 L1 ltac:(lia) H1) as (nd2 & R2 & L2 & H2).
  destruct (then_add_reach b2 Pushed 2 3 _ nd2 R2 L2 ltac:(lia) H2) as (nd3 & R3 & L3 & H3).
  destruct (then_add_reach b2' Alternative 3 3 _ nd3 R3 L3 ltac:(lia) H3) as (nd4 & R4 & L4 & H4).
  apply then_add_inv in H4 as (nd5 & Ha & L5 & _). by exists nd4, nd5.
Qed.
End ReorgDemo.

Lemma reorganisation_never_succeeds_witness :
  exists nd4 nd5 : Node unit, length (m_blocks (nd_chain nd4)) = 3%nat /\ length (m_blocks (nd_chain nd5)) = 1%nat
  /\ chain_ok (nd_chain nd5)
  /\ (m_blocks (nd_chain nd5) = m_blocks (nd_chain nd4) \/ m_blocks (nd_chain nd5) = pop_back (pop_back (m_blocks (nd_chain nd4)))).
Proof.
  destruct ReorgDemo.the_switch as (nd4 & nd5 & Hreach & Hlen & Hadd & Hlen5). exists nd4, nd5. split; [exact Hlen |]. split; [exact Hlen5 |].
  refine (reorganisation_never_succeeds _ _ _ _ _ _ _ _ _ _ _ _ _ 100000 3 ReorgDemo.b3' nd4 Refused nd5 Hreach _ Hadd). unfold chain_size. lia.
Defined.
