(* ===== verification/TransactionPool.v ===== *)
(** The transaction pool: [tx_memory_pool] and [BlockTemplate] of
    [src/src/CryptoNoteCore/TransactionPool.cpp] and [TransactionPool.h], with the timestamp index of
    [BlockchainIndices.cpp].  The validator is the abstract class of [ITransactionValidator.h]; the two
    clocks of the code are arguments: [clock] is [time(nullptr)], [now] is [m_timeProvider.now()]. *)

From stdpp Require Import gmultiset.
From S2P Require Import Prelude Config IntUtil Currency Types Amounts TxChecks TransactionExtra BankingIndex ChainStore BlockIndices.

(** * Data *)

Record BlockInfo := mkBlockInfo { bk_height : Z; bk_id : Hash }.

Definition BlockInfo_clear : BlockInfo := mkBlockInfo 0 NULL_HASH.

(** [TransactionDetails] with the members of [TransactionCheckInfo]. *)
Record TransactionDetails := mkDetails {
  td_maxUsedBlock : BlockInfo;
  td_lastFailedBlock : BlockInfo;
  td_id : Hash;
  td_tx : Transaction;
  td_blobSize : Z;
  td_fee : Z;
  td_keptByBlock : bool;
  td_receiveTime : Z
}.

Record tx_verification_context := mkTvc {
  m_should_be_relayed : bool;
  m_verification_failed : bool;
  m_verification_impossible : bool;
  m_added_to_pool : bool;
  m_tx_fee_too_small : bool
}.

(** [ITransactionValidator]; the second form of [checkTransactionInputs] works on a copy of the
    check info that the pool throws away. *)
Class ITransactionValidator := {
  checkTransactionInputs : Transaction -> bool * BlockInfo;
  checkTransactionInputsAgain : Transaction -> BlockInfo -> BlockInfo -> bool;
  haveSpentKeyImages : Transaction -> bool;
  checkTransactionSize : Z -> bool
}.

(** The members of [tx_memory_pool].  [m_transactions] is listed in the order of its fee index;
    the timestamp index is a multimap, listed in its order. *)
Record Pool := mkPool {
  m_transactions : list TransactionDetails;
  m_spent_key_images : gmap bytes (gset Hash);
  m_spentOutputs : gset (Z * Z);
  m_recentlyDeletedTransactions : gmap Hash Z;
  p_paymentIdIndex : gmultiset (Hash * Hash);
  m_timestampIndex : list (Z * Hash);
  m_ttlIndex : gmap Hash Z;
  m_lastWorkedTime : Z
}.

Definition empty_pool : Pool := mkPool [] ∅ ∅ ∅ ∅ [] ∅ 0.

(** * [PaymentIdIndex] *)

(** [PaymentIdIndex::find] as a multiset of hashes: the order of an unordered multimap is not fixed. *)
Definition payment_find (paymentId : Hash) (index : gmultiset (Hash * Hash)) : list Hash :=
  map snd (filter (fun e => e.1 = paymentId) (elements index)).

(** * [TransactionPriorityComparator] *)

Definition priority_before (lhs rhs : TransactionDetails) : outcome bool :=
  '(lhs_lo, lhs_hi) ← mul128 (td_fee lhs) (td_blobSize rhs);
  '(rhs_lo, rhs_hi) ← mul128 (td_fee rhs) (td_blobSize lhs);
  Ret ((rhs_hi <? lhs_hi)
       || ((lhs_hi =? rhs_hi) && (rhs_lo <? lhs_lo))
       || ((lhs_hi =? rhs_hi) && (lhs_lo =? rhs_lo) && (td_blobSize lhs <? td_blobSize rhs))
       || ((lhs_hi =? rhs_hi) && (lhs_lo =? rhs_lo) && (td_blobSize lhs =? td_blobSize rhs)
           && (td_receiveTime lhs <? td_receiveTime rhs))).

(** Insertion into the ordered index: before the first entry of lower priority. *)
Fixpoint fee_insert (txd : TransactionDetails) (l : list TransactionDetails) : outcome (list TransactionDetails) :=
  match l with
  | [] => Ret [txd]
  | e :: rest =>
      before ← priority_before txd e;
      if before : bool then Ret (txd :: e :: rest)
      else rest' ← fee_insert txd rest; Ret (e :: rest')
  end.

Definition find_tx (id : Hash) (l : list TransactionDetails) : option TransactionDetails :=
  list_find (fun d => td_id d = id) l ≫= fun p => Some p.2.

(** * The inputs of the pool *)

Definition haveSpentInputs (p : Pool) (tx : Transaction) : bool :=
  existsb (fun i =>
    match i with
    | InKey k => bool_decide (is_Some (m_spent_key_images p !! ki_keyImage k))
    | InMultisignature m => bool_decide ((mi_amount m, mi_outputIndex m) ∈ m_spentOutputs p)
    | _ => false
    end) (tx_inputs tx).

(** [addTransactionInputs]: the answer and the two containers. *)
Fixpoint addTransactionInputs (id : Hash) (keptByBlock : bool) (ins : list TransactionInput)
    (images : gmap bytes (gset Hash)) (outputs : gset (Z * Z)) : outcome (bool * gmap bytes (gset Hash) * gset (Z * Z)) :=
  match ins with
  | [] => Ret (true, images, outputs)
  | InKey k :: rest =>
      let kei_image_set := default ∅ (images !! ki_keyImage k) in
      if negb (keptByBlock || bool_decide (kei_image_set = ∅)) then
        Ret (false, <[ki_keyImage k := kei_image_set]> images, outputs)
      else if decide (id ∈ kei_image_set) then Ret (false, <[ki_keyImage k := kei_image_set]> images, outputs)
      else addTransactionInputs id keptByBlock rest (<[ki_keyImage k := kei_image_set ∪ {[id]}]> images) outputs
  | InMultisignature m :: rest =>
      if keptByBlock then addTransactionInputs id keptByBlock rest images outputs
      else
        _ ← assert_ (bool_decide ((mi_amount m, mi_outputIndex m) ∉ outputs));
        addTransactionInputs id keptByBlock rest images (outputs ∪ {[(mi_amount m, mi_outputIndex m)]})
  | _ :: rest => addTransactionInputs id keptByBlock rest images outputs
  end.

Fixpoint removeTransactionInputs (tx_id : Hash) (keptByBlock : bool) (ins : list TransactionInput)
    (images : gmap bytes (gset Hash)) (outputs : gset (Z * Z)) : outcome (bool * gmap bytes (gset Hash) * gset (Z * Z)) :=
  match ins with
  | [] => Ret (true, images, outputs)
  | InKey k :: rest =>
      match images !! ki_keyImage k with
      | None => Ret (false, images, outputs)
      | Some key_image_set =>
          if decide (key_image_set = ∅) then Ret (false, images, outputs)
          else if decide (tx_id ∉ key_image_set) then Ret (false, images, outputs)
          else
            let key_image_set := key_image_set ∖ {[tx_id]} in
            removeTransactionInputs tx_id keptByBlock rest
              (if decide (key_image_set = ∅) then delete (ki_keyImage k) images
               else <[ki_keyImage k := key_image_set]> images) outputs
      end
  | InMultisignature m :: rest =>
      if keptByBlock then removeTransactionInputs tx_id keptByBlock rest images outputs
      else
        _ ← assert_ (bool_decide ((mi_amount m, mi_outputIndex m) ∈ outputs));
        removeTransactionInputs tx_id keptByBlock rest images (outputs ∖ {[(mi_amount m, mi_outputIndex m)]})
  | _ :: rest => removeTransactionInputs tx_id keptByBlock rest images outputs
  end.

(** * [BlockTemplate] *)

Record BlockTemplate := mkTemplate {
  bt_keyImages : gset bytes;
  bt_usedOutputs : gset (Z * Z);
  bt_txHashes : list Hash
}.

Definition empty_template : BlockTemplate := mkTemplate ∅ ∅ [].

Definition canAdd (t : BlockTemplate) (tx : Transaction) : bool :=
  forallb (fun i =>
    match i with
    | InKey k => bool_decide (ki_keyImage k ∉ bt_keyImages t)
    | InCommitmentSpend s => bool_decide (cs_keyImage s ∉ bt_keyImages t)
    | InCommitmentTransfer s => bool_decide (ct_keyImage s ∉ bt_keyImages t)
    | InMultisignature m => bool_decide ((mi_amount m, mi_outputIndex m) ∉ bt_usedOutputs t)
    | _ => true
    end) (tx_inputs tx).

Fixpoint template_inputs (ins : list TransactionInput) (t : BlockTemplate) : outcome BlockTemplate :=
  let image k rest :=
    _ ← assert_ (bool_decide (k ∉ bt_keyImages t));
    template_inputs rest (mkTemplate (bt_keyImages t ∪ {[k]}) (bt_usedOutputs t) (bt_txHashes t)) in
  match ins with
  | [] => Ret t
  | InKey k :: rest => image (ki_keyImage k) rest
  | InCommitmentSpend s :: rest => image (cs_keyImage s) rest
  | InCommitmentTransfer s :: rest => image (ct_keyImage s) rest
  | InMultisignature m :: rest =>
      _ ← assert_ (bool_decide ((mi_amount m, mi_outputIndex m) ∉ bt_usedOutputs t));
      template_inputs rest
        (mkTemplate (bt_keyImages t) (bt_usedOutputs t ∪ {[(mi_amount m, mi_outputIndex m)]}) (bt_txHashes t))
  | _ :: rest => template_inputs rest t
  end.

Definition addTransaction (t : BlockTemplate) (txid : Hash) (tx : Transaction) : outcome (bool * BlockTemplate) :=
  if negb (canAdd t tx) then Ret (false, t)
  else
    t ← template_inputs (tx_inputs tx) t;
    Ret (true, mkTemplate (bt_keyImages t) (bt_usedOutputs t) (bt_txHashes t ++ [txid])).

(** * [tx_memory_pool] *)

(** [std::unordered_map::emplace] keeps an entry that is already there. *)
Definition emplace (k : Hash) (v : Z) (m : gmap Hash Z) : gmap Hash Z :=
  match m !! k with Some _ => m | None => <[k := v]> m end.

(** The TTL and the payment id in the extra field. *)
Definition extraTTL (tx : Transaction) : Z := default 0 (find_ttl (parseTransactionExtra (tx_extra tx)).2).
Definition getPaymentId (tx : Transaction) : option Hash := explorerPaymentId (tx_extra tx).

Section TxMemoryPool.
Context (c : Currency) `{ITransactionValidator}.
(** The hash of a serialized transaction. *)
Context (getObjectHash : Transaction -> Hash).

Definition have_tx (p : Pool) (id : Hash) : bool := bool_decide (is_Some (find_tx id (m_transactions p))).

(** What is left of a transaction after [std::move]: its vectors are empty. *)
Definition moved_from (tx : Transaction) : Transaction := mkTransaction (tx_version tx) (tx_unlockTime tx) [] [] [] [].

Definition failed (tvc : tx_verification_context) : tx_verification_context :=
  mkTvc (m_should_be_relayed tvc) true (m_verification_impossible tvc) (m_added_to_pool tvc) (m_tx_fee_too_small tvc).

Definition ttl_rejected (tx : Transaction) (keptByBlock : bool) (fee clock : Z) : bool :=
  let ttl := extraTTL tx in
  negb (ttl =? 0) && negb keptByBlock
  && ((ttl <=? clock) || (u64 (m_mempoolTxLiveTime c + m_blockFutureTimeLimit c) <? u64 (ttl - clock)) || negb (fee =? 0)).

(** The last part of [add_tx], under the lock. *)
Definition insert_tx (p : Pool) (tx : Transaction) (id : Hash) (blobSize fee : Z) (isFusion inputsValid : bool)
    (maxUsedBlock : BlockInfo) (tvc : tx_verification_context) (keptByBlock : bool) (height now : Z)
    : outcome (bool * tx_verification_context * Pool) :=
  let ttl := extraTTL tx in
  let isWithdrawal := existsb (fun i => match i with InMultisignature _ => true | _ => false end) (tx_inputs tx) in
  let txd := mkDetails maxUsedBlock BlockInfo_clear id tx blobSize fee keptByBlock now in
  if have_tx p id then Ret (false, tvc, p)
  else
    txs ← fee_insert txd (m_transactions p);
    let p := mkPool txs (m_spent_key_images p) (m_spentOutputs p) (m_recentlyDeletedTransactions p)
               (payment_add (getPaymentId (moved_from tx)) (getObjectHash (moved_from tx)) (p_paymentIdIndex p)).2
               (timestamp_add (u64 now) id (m_timestampIndex p))
               (if ttl =? 0 then m_ttlIndex p else emplace id ttl (m_ttlIndex p)) (m_lastWorkedTime p) in
    let relayed :=
      if UPGRADE_HEIGHT_V8 <=? height
      then inputsValid && ((minimumFee c BLOCK_MAJOR_VERSION_10 <=? fee) || isFusion || isWithdrawal || negb (ttl =? 0))
      else inputsValid && ((0 <? fee) || isFusion || negb (ttl =? 0)) in
    let tvc := mkTvc relayed true (m_verification_impossible tvc) true (m_tx_fee_too_small tvc) in
    '(ok, images, outputs) ← addTransactionInputs id keptByBlock (tx_inputs tx) (m_spent_key_images p) (m_spentOutputs p);
    let p := mkPool (m_transactions p) images outputs (m_recentlyDeletedTransactions p) (p_paymentIdIndex p)
               (m_timestampIndex p) (m_ttlIndex p) (m_lastWorkedTime p) in
    if negb ok then Ret (false, tvc, p)
    else Ret (true, mkTvc relayed false (m_verification_impossible tvc) true (m_tx_fee_too_small tvc), p).

Definition add_tx (p : Pool) (tx : Transaction) (id : Hash) (blobSize : Z) (tvc : tx_verification_context)
    (keptByBlock : bool) (height clock now : Z) : outcome (bool * tx_verification_context * Pool) :=
  if negb (check_inputs_types_supported tx) then Ret (false, failed tvc, p)
  else
    inputs_amount ← getTransactionAllInputsAmount c tx height;
    let outputs_amount := get_outs_money_amount tx in
    if inputs_amount <? outputs_amount then Ret (false, failed tvc, p)
    else
      let fee := u64 (inputs_amount - outputs_amount) in
      isFusion ← (if fee =? 0 then isFusionTransactionTx c tx blobSize else Ret false);
      if ttl_rejected tx keptByBlock fee clock then Ret (false, failed tvc, p)
      else if negb isFusion && (fee <? minimumFee c BLOCK_MAJOR_VERSION_10) then
        Ret (false, mkTvc (m_should_be_relayed tvc) true (m_verification_impossible tvc) (m_added_to_pool tvc) true, p)
      else if negb keptByBlock && haveSpentInputs p tx then Ret (false, failed tvc, p)
      else
        let '(inputsValid, maxUsedBlock) := checkTransactionInputs tx in
        if negb inputsValid && negb keptByBlock then Ret (false, failed tvc, p)
        else
          let maxUsedBlock := if inputsValid then maxUsedBlock else BlockInfo_clear in
          let tvc := if inputsValid then tvc
                     else mkTvc (m_should_be_relayed tvc) (m_verification_failed tvc) true (m_added_to_pool tvc)
                            (m_tx_fee_too_small tvc) in
          if negb keptByBlock && negb (checkTransactionSize blobSize) then Ret (false, failed tvc, p)
          else if negb keptByBlock && bool_decide (is_Some (m_recentlyDeletedTransactions p !! id)) then
            Ret (true, mkTvc false false (m_verification_impossible tvc) false (m_tx_fee_too_small tvc), p)
          else insert_tx p tx id blobSize fee isFusion inputsValid maxUsedBlock tvc keptByBlock height now.

Definition removeTransaction (p : Pool) (d : TransactionDetails) : outcome Pool :=
  '(_, images, outputs) ←
    removeTransactionInputs (td_id d) (td_keptByBlock d) (tx_inputs (td_tx d)) (m_spent_key_images p) (m_spentOutputs p);
  Ret (mkPool (filter (fun e => td_id e <> td_id d) (m_transactions p)) images outputs (m_recentlyDeletedTransactions p)
         (payment_remove (getPaymentId (td_tx d)) (getObjectHash (td_tx d)) (p_paymentIdIndex p)).2
         (timestamp_remove (u64 (td_receiveTime d)) (td_id d) (m_timestampIndex p)).2
         (delete (td_id d) (m_ttlIndex p)) (m_lastWorkedTime p)).

(** The transaction, its size and fee, and the pool without it. *)
Definition take_tx (p : Pool) (id : Hash) : outcome (option (Transaction * Z * Z) * Pool) :=
  match find_tx id (m_transactions p) with
  | None => Ret (None, p)
  | Some d =>
      p ← removeTransaction p d;
      Ret (Some (td_tx d, td_blobSize d, td_fee d), p)
  end.

Definition is_transaction_ready_to_go (d : TransactionDetails) : bool :=
  checkTransactionInputsAgain (td_tx d) (td_maxUsedBlock d) (td_lastFailedBlock d) && negb (haveSpentKeyImages (td_tx d)).

Definition get_difference (p : Pool) (known_tx_ids : list Hash) : gset Hash * gset Hash :=
  let ready_tx_ids : gset Hash := list_to_set (map td_id (filter (fun d => is_transaction_ready_to_go d = true) (m_transactions p))) in
  let known_set : gset Hash := list_to_set known_tx_ids in
  (ready_tx_ids ∖ known_set, known_set ∖ ready_tx_ids).

(** The loop of [fill_block_template], over the fee index from its end. *)
Fixpoint template_loop (p : Pool) (median_size max_total_size height : Z) (l : list TransactionDetails)
    (t : BlockTemplate) (total_size fee : Z) : outcome (BlockTemplate * Z * Z) :=
  match l with
  | [] => Ret (t, total_size, fee)
  | txd :: rest =>
      let skip := template_loop p median_size max_total_size height rest t total_size fee in
      if bool_decide (is_Some (m_ttlIndex p !! td_id txd)) then skip
      else
        inputs_amount ← getTransactionAllInputsAmount c (td_tx txd) height;
        if inputs_amount <? get_outs_money_amount (td_tx txd) then skip
        else
          let blockSizeLimit := if td_fee txd =? 0 then median_size else max_total_size in
          if blockSizeLimit <? u64 (total_size + td_blobSize txd) then skip
          else if is_transaction_ready_to_go txd then
            '(added, t) ← addTransaction t (td_id txd) (td_tx txd);
            if added : bool then
              template_loop p median_size max_total_size height rest t (u64 (total_size + td_blobSize txd))
                (u64 (fee + td_fee txd))
            else template_loop p median_size max_total_size height rest t total_size fee
          else skip
  end.

(** The transaction hashes, the total size and the fee. *)
Definition fill_block_template (p : Pool) (median_size maxCumulativeSize height : Z) : outcome (list Hash * Z * Z) :=
  let max_total_size := u64 (u64 (125 * median_size) / 100 - m_minerTxBlobReservedSize c) in
  let max_total_size := Z.min max_total_size maxCumulativeSize in
  '(t, total_size, fee) ← template_loop p median_size max_total_size height (rev (m_transactions p)) empty_template 0 0;
  Ret (bt_txHashes t, total_size, fee).

Definition expired (p : Pool) (now : Z) (d : TransactionDetails) : bool :=
  let txAge := u64 (now - td_receiveTime d) in
  ((if td_keptByBlock d then m_mempoolTxFromAltBlockLiveTime c else m_mempoolTxLiveTime c) <? txAge)
  || match m_ttlIndex p !! td_id d with Some ttl => ttl <=? now | None => false end.

Fixpoint remove_expired_loop (now : Z) (l : list TransactionDetails) (p : Pool) : outcome Pool :=
  match l with
  | [] => Ret p
  | d :: rest =>
      if expired p now d then
        let deleted := emplace (td_id d) now (m_recentlyDeletedTransactions p) in
        p ← removeTransaction (mkPool (m_transactions p) (m_spent_key_images p) (m_spentOutputs p) deleted
                                 (p_paymentIdIndex p) (m_timestampIndex p) (m_ttlIndex p) (m_lastWorkedTime p)) d;
        remove_expired_loop now rest p
      else remove_expired_loop now rest p
  end.

Definition removeExpiredTransactions (p : Pool) (now : Z) : outcome Pool :=
  let forget := u64 (m_numberOfPeriodsToForgetTxDeletedFromPool c * m_mempoolTxLiveTime c) in
  let deleted := filter (fun e => u64 (now - e.2) <= forget) (m_recentlyDeletedTransactions p) in
  remove_expired_loop now (m_transactions p)
    (mkPool (m_transactions p) (m_spent_key_images p) (m_spentOutputs p) deleted (p_paymentIdIndex p)
       (m_timestampIndex p) (m_ttlIndex p) (m_lastWorkedTime p)).

(** [OnceInTimeInterval] with an interval of 60 seconds; both readings of the clock are [now]. *)
Definition on_idle (p : Pool) (now : Z) : outcome Pool :=
  if 60 <? now - m_lastWorkedTime p then
    p ← removeExpiredTransactions p now;
    Ret (mkPool (m_transactions p) (m_spent_key_images p) (m_spentOutputs p) (m_recentlyDeletedTransactions p)
           (p_paymentIdIndex p) (m_timestampIndex p) (m_ttlIndex p) now)
  else Ret p.

(** After a restart: the indexes that are not stored. *)
Definition buildIndices (p : Pool) : Pool :=
  foldl (fun p d =>
    mkPool (m_transactions p) (m_spent_key_images p) (m_spentOutputs p) (m_recentlyDeletedTransactions p)
      (payment_add (getPaymentId (td_tx d)) (getObjectHash (td_tx d)) (p_paymentIdIndex p)).2
      (timestamp_add (u64 (td_receiveTime d)) (td_id d) (m_timestampIndex p))
      (if extraTTL (td_tx d) =? 0 then m_ttlIndex p else emplace (td_id d) (extraTTL (td_tx d)) (m_ttlIndex p))
      (m_lastWorkedTime p)) p (m_transactions p).

Definition getTransactionIdsByPaymentId (p : Pool) (paymentId : Hash) : bool * list Hash :=
  let hashes := payment_find paymentId (p_paymentIdIndex p) in (bool_decide (hashes <> []), hashes).

End TxMemoryPool.

(** * The input containers *)

Lemma add_inputs_spec id kept ins images outputs :
  NoDup (ring_images ins) -> NoDup (multisig_pairs ins) ->
  (forall k, k ∈ ring_images ins -> (id ∉ (default ∅ (images !! k))) /\ (kept = false -> default ∅ (images !! k) = ∅)) ->
  (kept = false -> forall o, o ∈ multisig_pairs ins -> o ∉ outputs) ->
  exists images',
    addTransactionInputs id kept ins images outputs
      = Ret (true, images', (if kept then outputs else outputs ∪ list_to_set (multisig_pairs ins)))
    /\ forall k, images' !! k = if decide (k ∈ ring_images ins) then Some (default ∅ (images !! k) ∪ {[id]}) else images !! k.
Proof.
  revert images outputs. induction ins as [| i ins IH]; intros images outputs Hk Hm Hi Ho.
  - exists images. cbn. split; [| done]. destruct kept; [done |]. by rewrite union_empty_r_L.
  - unfold ring_images, multisig_pairs in *. rewrite bind_cons in *.
    destruct i as [b | k | m | s | s | u]; cbn [ring_image multisig_pair app] in *;
      cbn [addTransactionInputs]; try (by apply IH).
    + apply NoDup_cons in Hk as [Hk1 Hk2]. destruct (Hi (ki_keyImage k)) as [Hid Hem]; [by left |].
      set (S := default ∅ (images !! ki_keyImage k)) in *.
      replace (negb (kept || bool_decide (S = ∅))) with false
        by (destruct kept; [done |]; rewrite bool_decide_true by auto; done).
      destruct (decide (id ∈ S)); [done |].
      destruct (IH (<[ki_keyImage k := S ∪ {[id]}]> images) outputs) as (images' & Heq & Hl); [done | done | | done |].
      { intros x Hx. assert (x <> ki_keyImage k) by (intros ->; done).
        rewrite lookup_insert_ne by done. apply Hi. by right. }
      exists images'. split; [done |]. intros x. rewrite Hl. destruct (decide (x = ki_keyImage k)) as [-> | Hne].
      * rewrite decide_False by done. rewrite decide_True by (by left). by rewrite lookup_insert_eq.
      * rewrite lookup_insert_ne by done. destruct (decide (x ∈ ins ≫= ring_image)).
        -- by rewrite decide_True by (by right).
        -- rewrite decide_False; [done |]. intros [? | ?]%elem_of_cons; done.
    + apply NoDup_cons in Hm as [Hm1 Hm2]. destruct kept.
      * apply (IH images outputs); [done | done | done | done].
      * rewrite (assert_true (bool_decide ((mi_amount m, mi_outputIndex m) ∉ outputs)))
          by (apply bool_decide_true; apply Ho; [done | by left]).
        rewrite outcome_bind_ret.
        destruct (IH images (outputs ∪ {[(mi_amount m, mi_outputIndex m)]})) as (images' & Heq & Hl); [done | done | done | |].
        { intros _ o Hin. apply not_elem_of_union. split; [apply Ho; [done | by right] |].
          intros ->%elem_of_singleton. done. }
        exists images'. split; [| done]. rewrite Heq. cbn [list_to_set]. by rewrite assoc_L by apply _.
Qed.

Definition without (id : Hash) (s : option (gset Hash)) : option (gset Hash) :=
  let s := (default ∅ s) ∖ {[id]} in if decide (s = ∅) then None else Some s.

Lemma remove_inputs_spec id kept ins images outputs :
  NoDup (ring_images ins) -> NoDup (multisig_pairs ins) ->
  (forall k, k ∈ ring_images ins -> id ∈ (default ∅ (images !! k))) ->
  (kept = false -> forall o, o ∈ multisig_pairs ins -> o ∈ outputs) ->
  exists images',
    removeTransactionInputs id kept ins images outputs
      = Ret (true, images', (if kept then outputs else outputs ∖ list_to_set (multisig_pairs ins)))
    /\ forall k, images' !! k = if decide (k ∈ ring_images ins) then without id (images !! k) else images !! k.
Proof.
  revert images outputs. induction ins as [| i ins IH]; intros images outputs Hk Hm Hi Ho.
  - exists images. cbn. split; [| done]. destruct kept; [done |]. by rewrite difference_empty_L.
  - unfold ring_images, multisig_pairs in *. rewrite bind_cons in *.
    destruct i as [b | k | m | s | s | u]; cbn [ring_image multisig_pair app] in *;
      cbn [removeTransactionInputs]; try (by apply IH).
    + apply NoDup_cons in Hk as [Hk1 Hk2]. pose proof (Hi (ki_keyImage k) ltac:(by left)) as Hid.
      destruct (images !! ki_keyImage k) as [S |] eqn:E; cbn [default] in Hid; [| by apply elem_of_empty in Hid].
      destruct (decide (S = ∅)) as [-> |]; [by apply elem_of_empty in Hid |].
      destruct (decide (id ∉ S)); [done |].
      set (images1 := if decide _ then _ else _).
      assert (H1 : images1 !! ki_keyImage k = without id (Some S)).
      { subst images1. unfold without. cbn [default]. destruct (decide _); [apply lookup_delete_eq | apply lookup_insert_eq]. }
      assert (H2 : forall x, x <> ki_keyImage k -> images1 !! x = images !! x).
      { intros x Hx. subst images1. destruct (decide _); [by apply lookup_delete_ne | by apply lookup_insert_ne]. }
      destruct (IH images1 outputs) as (images' & Heq & Hl); [done | done | | done |].
      { intros x Hx. rewrite H2 by (intros ->; done). apply Hi. by right. }
      exists images'. split; [done |]. intros x. rewrite Hl. destruct (decide (x = ki_keyImage k)) as [-> | Hne].
      * rewrite decide_False by done. rewrite decide_True by (by left). by rewrite E, H1.
      * rewrite H2 by done. destruct (decide (x ∈ ins ≫= ring_image)).
        -- by rewrite decide_True by (by right).
        -- rewrite decide_False; [done |]. intros [? | ?]%elem_of_cons; done.
    + apply NoDup_cons in Hm as [Hm1 Hm2]. destruct kept.
      * apply (IH images outputs); [done | done | done | done].
      * rewrite (assert_true (bool_decide ((mi_amount m, mi_outputIndex m) ∈ outputs)))
          by (apply bool_decide_true; apply Ho; [done | by left]).
        rewrite outcome_bind_ret.
        destruct (IH images (outputs ∖ {[(mi_amount m, mi_outputIndex m)]})) as (images' & Heq & Hl); [done | done | done | |].
        { intros _ o Hin. apply elem_of_difference. split; [apply Ho; [done | by right] |].
          intros ->%elem_of_singleton. done. }
        exists images'. split; [| done]. rewrite Heq. cbn [list_to_set]. by rewrite difference_difference_l_L.
Qed.

(** * The priority order *)

(** Higher fee per byte, then smaller, then older. *)
Definition better (a b : TransactionDetails) : bool :=
  let pa := td_fee a * td_blobSize b in
  let pb := td_fee b * td_blobSize a in
  (pb <? pa)
  || ((pa =? pb) && ((td_blobSize a <? td_blobSize b)
                     || ((td_blobSize a =? td_blobSize b) && (td_receiveTime a <? td_receiveTime b)))).

Definition sized (d : TransactionDetails) : Prop := is_u64 (td_fee d) /\ 0 < td_blobSize d < 2 ^ 64.

Lemma words_compare x y :
  (y / 2 ^ 64 <? x / 2 ^ 64) || ((x / 2 ^ 64 =? y / 2 ^ 64) && (y mod 2 ^ 64 <? x mod 2 ^ 64)) = (y <? x)
  /\ (x / 2 ^ 64 =? y / 2 ^ 64) && (x mod 2 ^ 64 =? y mod 2 ^ 64) = (x =? y).
Proof.
  pose proof (Z.div_mod x (2 ^ 64) ltac:(lia)). pose proof (Z.div_mod y (2 ^ 64) ltac:(lia)).
  pose proof (Z.mod_pos_bound x (2 ^ 64) ltac:(lia)). pose proof (Z.mod_pos_bound y (2 ^ 64) ltac:(lia)).
  set (qx := x / 2 ^ 64) in *. set (qy := y / 2 ^ 64) in *. set (rx := x mod 2 ^ 64) in *. set (ry := y mod 2 ^ 64) in *.
  clearbody qx qy rx ry. subst x y. split.
  - destruct (Z.ltb_spec qy qx), (Z.eqb_spec qx qy), (Z.ltb_spec ry rx); cbn [orb andb]; symmetry;
      first [apply Z.ltb_lt; lia | apply Z.ltb_ge; lia].
  - destruct (Z.eqb_spec qx qy), (Z.eqb_spec rx ry); cbn [andb]; symmetry; first [apply Z.eqb_eq; lia | apply Z.eqb_neq; lia].
Qed.

Lemma priority_before_exact a b : sized a -> sized b -> priority_before a b = Ret (better a b).
Proof.
  intros [Hfa Hsa] [Hfb Hsb]. unfold priority_before.
  rewrite !mul128_exact by (done || (unfold is_u64; lia)). rewrite !outcome_bind_ret.
  destruct (words_compare (td_fee a * td_blobSize b) (td_fee b * td_blobSize a)) as [H1 H2]. f_equal.
  rewrite H1, H2. unfold better. cbv zeta.
  destruct (td_fee b * td_blobSize a <? td_fee a * td_blobSize b); cbn [orb]; [done |].
  by destruct (td_fee a * td_blobSize b =? td_fee b * td_blobSize a).
Qed.

Lemma better_true a b :
  better a b = true <->
  td_fee b * td_blobSize a < td_fee a * td_blobSize b
  \/ td_fee b * td_blobSize a = td_fee a * td_blobSize b
     /\ (td_blobSize a < td_blobSize b \/ td_blobSize a = td_blobSize b /\ td_receiveTime a < td_receiveTime b).
Proof.
  unfold better. cbv zeta. rewrite orb_true_iff, andb_true_iff, orb_true_iff, andb_true_iff, !Z.ltb_lt, !Z.eqb_eq.
  split; intros [? | [? ?]]; [by left | right; split; [lia | tauto] | by left | right; split; [lia | tauto]].
Qed.

Lemma price_trans fa sa fb sb fc sc :
  0 < sa -> 0 < sb -> 0 < sc -> fb * sa <= fa * sb -> fc * sb <= fb * sc -> fc * sa <= fa * sc.
Proof.
  intros Ha Hb Hc H1 H2. apply (Z.mul_le_mono_pos_r _ _ sb); [done |].
  apply (Z.mul_le_mono_nonneg_r _ _ sc) in H1; [| lia]. apply (Z.mul_le_mono_nonneg_r _ _ sa) in H2; [| lia]. lia.
Qed.

Lemma better_trans a b c : sized a -> sized b -> sized c -> better a b = true -> better b c = true -> better a c = true.
Proof.
  intros [_ Ha] [_ Hb] [_ Hc]. rewrite !better_true. intros H1 H2.
  assert (P1 : td_fee b * td_blobSize a <= td_fee a * td_blobSize b) by lia.
  assert (P2 : td_fee c * td_blobSize b <= td_fee b * td_blobSize c) by lia.
  pose proof (price_trans (td_fee a) (td_blobSize a) (td_fee b) (td_blobSize b) (td_fee c) (td_blobSize c)
    ltac:(lia) ltac:(lia) ltac:(lia) P1 P2) as P3.
  destruct (Z.lt_ge_cases (td_fee c * td_blobSize a) (td_fee a * td_blobSize c)) as [| P4]; [by left | right].
  assert (P5 : td_fee a * td_blobSize b <= td_fee b * td_blobSize a).
  { apply (price_trans (td_fee b) (td_blobSize b) (td_fee c) (td_blobSize c) (td_fee a) (td_blobSize a)); lia. }
  assert (P6 : td_fee b * td_blobSize c <= td_fee c * td_blobSize b).
  { apply (price_trans (td_fee c) (td_blobSize c) (td_fee a) (td_blobSize a) (td_fee b) (td_blobSize b)); lia. }
  split; [lia |]. lia.
Qed.

Lemma better_asym a b : better a b = true -> better b a = false.
Proof. intros H. apply not_true_iff_false. rewrite better_true in *. lia. Qed.

(** What the fee index promises: nothing precedes a better transaction. *)
Definition by_priority (l : list TransactionDetails) : Prop := StronglySorted (fun a b => better b a = false) l.

Lemma fee_insert_spec x l :
  sized x -> Forall sized l -> by_priority l ->
  exists l', fee_insert x l = Ret l' /\ l' ≡ₚ x :: l /\ by_priority l'.
Proof.
  intros Hx Hl. induction Hl as [| e l He Hl IH]; intros Hs; cbn [fee_insert].
  - eexists. split; [done |]. split; [done |]. by repeat constructor.
  - apply StronglySorted_inv in Hs as [Hs Hes]. rewrite priority_before_exact, outcome_bind_ret by done.
    destruct (better x e) eqn:E.
    + eexists. split; [done |]. split; [done |]. constructor; [by constructor |].
      constructor; [by apply better_asym |]. rewrite Forall_forall in Hes, Hl |- *. intros y Hy.
      apply not_true_iff_false. intros Hyx.
      pose proof (better_trans y x e (Hl y Hy) Hx He Hyx E). rewrite Hes in * by done. done.
    + destruct (IH Hs) as (l' & -> & Hp & Hs'). rewrite outcome_bind_ret. eexists. split; [done |].
      split; [rewrite Hp; constructor |]. constructor; [done |]. rewrite Hp. by constructor.
Qed.

(** * The invariant of the pool *)

Definition images_in (d : TransactionDetails) : list bytes := ring_images (tx_inputs (td_tx d)).
Definition outputs_in (d : TransactionDetails) : list (Z * Z) := multisig_pairs (tx_inputs (td_tx d)).

(** A transaction that names no input twice, as [check_tx_semantic] demands of ring and
    multisignature inputs. *)
Definition own_distinct (tx : Transaction) : Prop :=
  NoDup (ring_images (tx_inputs tx)) /\ NoDup (multisig_pairs (tx_inputs tx)).

Record pool_ok (p : Pool) : Prop := {
  ok_ids : NoDup (map td_id (m_transactions p));
  ok_own : Forall (fun d => own_distinct (td_tx d) /\ sized d) (m_transactions p);
  ok_images : forall k id, id ∈ (default ∅ (m_spent_key_images p !! k))
    <-> exists d, d ∈ m_transactions p /\ td_id d = id /\ k ∈ images_in d;
  ok_nonempty : forall k, m_spent_key_images p !! k <> Some ∅;
  ok_outputs : forall o, o ∈ m_spentOutputs p
    <-> exists d, d ∈ m_transactions p /\ td_keptByBlock d = false /\ o ∈ outputs_in d;
  ok_disjoint : forall d e, d ∈ m_transactions p -> e ∈ m_transactions p -> td_id d <> td_id e ->
    td_keptByBlock d = false -> td_keptByBlock e = false ->
    (forall k, k ∈ images_in d -> k ∉ images_in e) /\ (forall o, o ∈ outputs_in d -> o ∉ outputs_in e);
  ok_times : m_timestampIndex p ≡ₚ map (fun d => (u64 (td_receiveTime d), td_id d)) (m_transactions p);
  ok_ttl : forall id, is_Some (m_ttlIndex p !! id) -> id ∈ map td_id (m_transactions p);
  ok_sorted : by_priority (m_transactions p)
}.

Lemma empty_pool_ok : pool_ok empty_pool.
Proof.
  split; unfold empty_pool; cbn [m_transactions m_spent_key_images m_spentOutputs m_timestampIndex m_ttlIndex map].
  - constructor.
  - constructor.
  - intros k id. rewrite lookup_empty. split; [intros Hx; by apply elem_of_empty in Hx |].
    intros (d & Hd & _). by apply elem_of_nil in Hd.
  - intros k. by rewrite lookup_empty.
  - intros o. split; [intros Hx; by apply elem_of_empty in Hx |]. intros (d & Hd & _). by apply elem_of_nil in Hd.
  - intros d e Hd. by apply elem_of_nil in Hd.
  - done.
  - intros id [x Hx]. by rewrite lookup_empty in Hx.
  - constructor.
Qed.

Lemma find_tx_Some id l d : find_tx id l = Some d -> d ∈ l /\ td_id d = id.
Proof.
  unfold find_tx. destruct (list_find _ l) as [[i x] |] eqn:E; cbn; [| done]. intros [= <-].
  apply list_find_Some in E as (Hl & Hid & _). split; [by eapply list_elem_of_lookup_2 | done].
Qed.

Lemma find_tx_None id l : find_tx id l = None -> id ∉ map td_id l.
Proof.
  unfold find_tx. destruct (list_find _ l) as [[i x] |] eqn:E; cbn; [done |]. intros _ Hin.
  apply list_find_None in E. rewrite Forall_forall in E. apply list_elem_of_fmap in Hin as (d & -> & Hd). by apply (E d).
Qed.

Lemma haveSpent_false p tx :
  haveSpentInputs p tx = false ->
  (forall k, k ∈ ring_images (tx_inputs tx) -> m_spent_key_images p !! k = None)
  /\ (forall o, o ∈ multisig_pairs (tx_inputs tx) -> o ∉ m_spentOutputs p).
Proof.
  unfold haveSpentInputs. intros H. apply not_true_iff_false in H. rewrite existsb_exists in H.
  split; intros x Hx.
  - apply list_elem_of_bind in Hx as (i & Hx & Hi). destruct i as [b | k | m | s | s | u]; cbn in Hx;
      try (by apply elem_of_nil in Hx). apply list_elem_of_singleton in Hx as ->.
    destruct (m_spent_key_images p !! ki_keyImage k) eqn:E; [| done]. exfalso. apply H. exists (InKey k).
    split; [by apply list_elem_of_In |]. apply bool_decide_true. by rewrite E.
  - apply list_elem_of_bind in Hx as (i & Hx & Hi). destruct i as [b | k | m | s | s | u]; cbn in Hx;
      try (by apply elem_of_nil in Hx). apply list_elem_of_singleton in Hx as ->. intros Hin. apply H.
    exists (InMultisignature m). split; [by apply list_elem_of_In |]. by apply bool_decide_true.
Qed.

(** ** Adding *)

(** The pool with one more transaction, its input containers updated. *)
Definition pool_add (p : Pool) (d : TransactionDetails) (txs : list TransactionDetails)
    (images : gmap bytes (gset Hash)) (payment : gmultiset (Hash * Hash)) (ttl : gmap Hash Z) : Pool :=
  mkPool txs images (if td_keptByBlock d then m_spentOutputs p else m_spentOutputs p ∪ list_to_set (outputs_in d))
    (m_recentlyDeletedTransactions p) payment
    (timestamp_add (u64 (td_receiveTime d)) (td_id d) (m_timestampIndex p)) ttl (m_lastWorkedTime p).

Lemma pool_add_ok p d txs images payment ttl :
  pool_ok p -> own_distinct (td_tx d) -> sized d -> td_id d ∉ map td_id (m_transactions p) ->
  (td_keptByBlock d = false -> haveSpentInputs p (td_tx d) = false) ->
  txs ≡ₚ d :: m_transactions p -> by_priority txs ->
  (forall k, images !! k = if decide (k ∈ images_in d) then Some (default ∅ (m_spent_key_images p !! k) ∪ {[td_id d]})
                           else m_spent_key_images p !! k) ->
  (forall id, is_Some (ttl !! id) -> id = td_id d \/ is_Some (m_ttlIndex p !! id)) ->
  pool_ok (pool_add p d txs images payment ttl).
Proof.
  intros [] Hown Hsz Hid Hspent Htxs Hsort Himg Httl.
  assert (Hel : forall x, x ∈ txs <-> x = d \/ x ∈ m_transactions p) by (intros x; rewrite Htxs; apply elem_of_cons).
  split; cbn; try done.
  - rewrite Htxs. cbn [map]. by constructor.
  - rewrite Htxs. by constructor.
  - intros k id. rewrite Himg. destruct (decide (k ∈ images_in d)) as [Hk | Hk]; [change (default ∅ (Some ?x)) with x |].
    + rewrite elem_of_union, elem_of_singleton, ok_images0. split.
      * intros [(e & He & Hrest) | ->]; [exists e | exists d]; rewrite Hel; tauto.
      * intros (e & [-> | He]%Hel & <- & Hke); [by right | left; by exists e].
    + rewrite ok_images0. split.
      * intros (e & He & Hrest). exists e. rewrite Hel. tauto.
      * intros (e & [-> | He]%Hel & <- & Hke); [done | by exists e].
  - intros k. rewrite Himg. destruct (decide _); [| apply ok_nonempty0]. intros [= Hem].
    apply (not_elem_of_empty (C := gset Hash) (td_id d)). rewrite <- Hem. by apply elem_of_union_r, elem_of_singleton.
  - intros o. destruct (td_keptByBlock d) eqn:Hkb.
    + rewrite ok_outputs0. split.
      * intros (e & He & Hrest). exists e. rewrite Hel. tauto.
      * intros (e & [-> | He]%Hel & Hke & Ho); [by rewrite Hkb in Hke | by exists e].
    + rewrite elem_of_union, elem_of_list_to_set, ok_outputs0. split.
      * intros [(e & He & Hrest) | Ho]; [exists e | exists d]; rewrite Hel; tauto.
      * intros (e & [-> | He]%Hel & Hke & Ho); [by right | left; by exists e].
  - intros a b Ha Hb Hne Hka Hkb.
    assert (Hnew : forall e, e ∈ m_transactions p -> td_keptByBlock d = false -> td_keptByBlock e = false ->
      (forall k, k ∈ images_in d -> k ∉ images_in e) /\ (forall o, o ∈ outputs_in d -> o ∉ outputs_in e)).
    { intros e He Hkd Hke. destruct (haveSpent_false _ _ (Hspent Hkd)) as [Hs1 Hs2]. split.
      - intros k Hk Hke'. assert (td_id e ∈ default ∅ (m_spent_key_images p !! k)) as Hin by (apply ok_images0; by exists e).
        rewrite Hs1 in Hin by done. by apply elem_of_empty in Hin.
      - intros o Ho Hoe. apply (Hs2 o Ho), ok_outputs0. by exists e. }
    apply Hel in Ha as [-> | Ha]; apply Hel in Hb as [-> | Hb]; [done | by apply Hnew | | by apply ok_disjoint0].
    destruct (Hnew a Ha Hkb Hka) as [H1 H2]. split; intros x Hx Hx'; [by apply (H1 x) | by apply (H2 x)].
  - rewrite timestamp_add_perm, Htxs, ok_times0. done.
  - intros id Hs. rewrite Htxs. cbn [map]. apply elem_of_cons.
    destruct (Httl id Hs) as [-> | Hs']; [by left | right; by apply ok_ttl0].
Qed.

(** ** Removing *)

Lemma ids_inj p d e :
  NoDup (map td_id (m_transactions p)) -> d ∈ m_transactions p -> e ∈ m_transactions p -> td_id d = td_id e -> d = e.
Proof.
  intros Hnd Hd He Heq. apply list_elem_of_lookup_1 in Hd as [i Hi]. apply list_elem_of_lookup_1 in He as [j Hj].
  assert (i = j) as ->; [| congruence].
  eapply (NoDup_lookup _ i j (td_id d) Hnd); rewrite list_lookup_fmap; [by rewrite Hi | by rewrite Hj, Heq].
Qed.

Lemma filter_sorted {A} (R : A -> A -> Prop) (P : A -> Prop) `{!forall x, Decision (P x)} l :
  StronglySorted R l -> StronglySorted R (filter P l).
Proof.
  induction 1 as [| x l Hs IH Hx]; [constructor |]. cbn [filter list_filter]. destruct (decide (P x)); [| done].
  constructor; [done |]. rewrite Forall_forall in Hx |- *. intros y [_ Hy]%list_elem_of_filter. by apply Hx.
Qed.

Lemma filter_perm d l :
  NoDup (map td_id l) -> d ∈ l -> l ≡ₚ d :: filter (fun e => td_id e <> td_id d) l.
Proof.
  induction l as [| x l IH]; intros Hnd Hin; [by apply elem_of_nil in Hin |]. cbn [map] in Hnd.
  apply NoDup_cons in Hnd as [Hx Hnd]. cbn [filter list_filter].
  apply elem_of_cons in Hin as [<- | Hin].
  - rewrite decide_False by (intros Hf; by apply Hf). f_equiv.
    assert (Hall : Forall (fun e => td_id e <> td_id d) l).
    { apply Forall_forall. intros e He Heq. apply Hx. rewrite <- Heq. by apply list_elem_of_fmap_2. }
    clear -Hall. induction Hall as [| e l He _ IH]; [done |]. cbn [filter list_filter]. rewrite decide_True by done.
    by f_equiv.
  - rewrite decide_True by (intros Heq; apply Hx; rewrite Heq; by apply list_elem_of_fmap_2).
    rewrite (IH Hnd Hin) at 1. constructor.
Qed.

Section Removal.
Context (getObjectHash : Transaction -> Hash).

Lemma removeTransaction_ok p d :
  pool_ok p -> d ∈ m_transactions p ->
  exists p', removeTransaction getObjectHash p d = Ret p' /\ pool_ok p'
    /\ m_transactions p' = filter (fun e => td_id e <> td_id d) (m_transactions p)
    /\ m_recentlyDeletedTransactions p' = m_recentlyDeletedTransactions p
    /\ m_ttlIndex p' = delete (td_id d) (m_ttlIndex p) /\ m_lastWorkedTime p' = m_lastWorkedTime p.
Proof.
  intros Hok Hd. pose proof Hok as []. rewrite Forall_forall in ok_own0.
  destruct (ok_own0 d Hd) as [[Hn1 Hn2] _]. unfold removeTransaction.
  destruct (remove_inputs_spec (td_id d) (td_keptByBlock d) (tx_inputs (td_tx d)) (m_spent_key_images p) (m_spentOutputs p))
    as (images & -> & Himg); [done | done | | |].
  { intros k Hk. apply ok_images0. by exists d. }
  { intros Hk o Ho. apply ok_outputs0. by exists d. }
  rewrite outcome_bind_ret. eexists. split; [done |]. split; [| done].
  set (txs := filter (fun e => td_id e <> td_id d) (m_transactions p)).
  assert (Hel : forall e, e ∈ txs <-> td_id e <> td_id d /\ e ∈ m_transactions p) by (intros e; unfold txs; by rewrite list_elem_of_filter).
  pose proof (filter_perm d _ ok_ids0 Hd) as Hp. fold txs in Hp.
  split; cbn [m_transactions m_spent_key_images m_spentOutputs m_timestampIndex m_ttlIndex].
  - rewrite Hp in ok_ids0. cbn [map] in ok_ids0. by apply NoDup_cons in ok_ids0 as [_ ?].
  - apply Forall_forall. intros e [_ He]%Hel. by apply ok_own0.
  - intros k id. rewrite Himg. fold (images_in d). destruct (decide (k ∈ images_in d)) as [Hk | Hk].
    + unfold without. destruct (decide _) as [Hem | _].
      * change (default ∅ None) with (∅ : gset Hash). split; [intros Hx; by apply elem_of_empty in Hx |].
        intros (e & [Hne He]%Hel & <- & Hke). rewrite <- Hem. apply elem_of_difference. split.
        { apply ok_images0. by exists e. } by rewrite elem_of_singleton.
      * change (default ∅ (Some ?x)) with x. rewrite elem_of_difference, elem_of_singleton, ok_images0. split.
        { intros [(e & He & <- & Hke) Hne]. exists e. by rewrite Hel. }
        { intros (e & [Hne He]%Hel & <- & Hke). split; [by exists e | done]. }
    + rewrite ok_images0. split; [| intros (e & [_ He]%Hel & Hr); by exists e].
      intros (e & He & <- & Hke). exists e. split; [| done]. apply Hel. split; [| done].
      intros Heq. rewrite (ids_inj p e d) in Hke by done. done.
  - intros k. rewrite Himg. destruct (decide _); [| apply ok_nonempty0]. unfold without. destruct (decide _); [done |].
    by intros [= ?].
  - intros o. destruct (td_keptByBlock d) eqn:Hkb.
    + rewrite ok_outputs0. split; [| intros (e & [_ He]%Hel & Hr); by exists e].
      intros (e & He & Hke & Ho). exists e. split; [| done]. apply Hel. split; [| done].
      intros Heq. rewrite (ids_inj p e d) in Hke by done. by rewrite Hkb in Hke.
    + rewrite elem_of_difference, elem_of_list_to_set, ok_outputs0. fold (outputs_in d). split.
      * intros [(e & He & Hke & Ho) Hn]. exists e. split; [| done]. apply Hel. split; [| done].
        intros Heq. rewrite (ids_inj p e d) in Ho by done. done.
      * intros (e & [Hne He]%Hel & Hke & Ho). split; [by exists e |]. intros Ho'.
        by apply (proj2 (ok_disjoint0 e d He Hd Hne Hke Hkb) o).
  - intros a b [_ Ha]%Hel [_ Hb]%Hel. by apply ok_disjoint0.
  - pose proof (timestamp_remove_perm (u64 (td_receiveTime d)) (td_id d) (m_timestampIndex p)) as Ht.
    rewrite Ht in ok_times0; [| rewrite ok_times0; apply (list_elem_of_fmap_2 (fun d => (u64 (td_receiveTime d), td_id d)) _ d Hd)].
    rewrite Hp in ok_times0. cbn [map] in ok_times0. by apply Permutation_cons_inv in ok_times0.
  - intros id [t Ht]. apply lookup_delete_Some in Ht as [Hne Ht].
    assert (Hin : id ∈ map td_id (m_transactions p)) by (apply ok_ttl0; by exists t).
    rewrite Hp in Hin. cbn [map] in Hin. apply elem_of_cons in Hin as [-> | Hin]; done.
  - by apply filter_sorted.
Qed.

End Removal.

(** ** The operations *)

Section Operations.
Context (c : Currency) `{ITransactionValidator} (getObjectHash : Transaction -> Hash).
Context (Hdust : 0 <= m_defaultDustThreshold c).

Lemma emplace_some k v m k' : is_Some (emplace k v m !! k') -> k' = k \/ is_Some (m !! k').
Proof.
  unfold emplace. destruct (m !! k); [by right |]. destruct (decide (k' = k)) as [-> |]; [by left |].
  rewrite lookup_insert_ne by done. by right.
Qed.

Lemma insert_tx_ok p tx id blobSize fee isFusion inputsValid maxUsed tvc kept height now :
  pool_ok p -> own_distinct tx -> 0 < blobSize < 2 ^ 64 -> is_u64 fee ->
  (kept = false -> haveSpentInputs p tx = false) ->
  exists ok tvc' p', insert_tx c getObjectHash p tx id blobSize fee isFusion inputsValid maxUsed tvc kept height now
      = Ret (ok, tvc', p')
    /\ pool_ok p'
    /\ (ok = negb (have_tx p id))
    /\ (ok = false -> p' = p)
    /\ (ok = true -> m_transactions p' ≡ₚ mkDetails maxUsed BlockInfo_clear id tx blobSize fee kept now :: m_transactions p
                     /\ p_paymentIdIndex p' = p_paymentIdIndex p).
Proof.
  intros Hok Hown Hb Hf Hsp. unfold insert_tx. destruct (have_tx p id) eqn:Ehave.
  { eexists _, _, _. split; [done |]. split; [done |]. done. }
  assert (Hid : id ∉ map td_id (m_transactions p)).
  { apply find_tx_None. unfold have_tx in Ehave. apply bool_decide_eq_false in Ehave.
    destruct (find_tx id (m_transactions p)); [exfalso; apply Ehave; by eexists | done]. }
  set (d := mkDetails maxUsed BlockInfo_clear id tx blobSize fee kept now).
  destruct (fee_insert_spec d (m_transactions p)) as (txs & -> & Hperm & Hsort).
  { done. } { eapply Forall_impl; [apply (ok_own p Hok) | by intros x [_ ?]]. } { apply Hok. }
  rewrite outcome_bind_ret. cbn [m_spent_key_images m_spentOutputs].
  assert (Hfresh : kept = false -> (forall k, k ∈ ring_images (tx_inputs tx) -> m_spent_key_images p !! k = None)
    /\ (forall o, o ∈ multisig_pairs (tx_inputs tx) -> o ∉ m_spentOutputs p)).
  { intros Hk. by apply haveSpent_false, Hsp. }
  destruct (add_inputs_spec id kept (tx_inputs tx) (m_spent_key_images p) (m_spentOutputs p)) as (images & -> & Himg).
  { apply Hown. } { apply Hown. }
  { intros k Hk. split.
    - intros (e & He & Heid & _)%(ok_images p Hok). apply Hid. rewrite <- Heid. by apply list_elem_of_fmap_2.
    - intros Hkept. by rewrite (proj1 (Hfresh Hkept)). }
  { intros Hkept. by apply Hfresh. }
  rewrite outcome_bind_ret. cbn [negb]. eexists _, _, _. split; [done |]. split; [| done].
  cbn [m_transactions m_recentlyDeletedTransactions p_paymentIdIndex m_timestampIndex m_ttlIndex m_lastWorkedTime].
  apply (pool_add_ok p d txs images); try done.
  intros id' Hs. destruct (extraTTL tx =? 0); [by right |]. by apply emplace_some in Hs.
Qed.

(** [add_tx] always answers when the inputs can be summed, and keeps the pool consistent. *)
Lemma add_tx_ok p tx id blobSize tvc kept height clock now amount :
  pool_ok p -> own_distinct tx -> 0 < blobSize < 2 ^ 64 ->
  (check_inputs_types_supported tx = true -> getTransactionAllInputsAmount c tx height = Ret amount) ->
  exists ok tvc' p', add_tx c getObjectHash p tx id blobSize tvc kept height clock now = Ret (ok, tvc', p') /\ pool_ok p'
    /\ (p' = p \/ exists d, m_transactions p' ≡ₚ d :: m_transactions p /\ td_id d = id /\ td_tx d = tx /\ td_keptByBlock d = kept
                  /\ p_paymentIdIndex p' = p_paymentIdIndex p).
Proof.
  intros Hok Hown Hb Ham. unfold add_tx. destruct (check_inputs_types_supported tx); cbn [negb];
    [rewrite Ham, outcome_bind_ret by done | by eauto 10].
  destruct (amount <? _); [by eauto 10 |]. set (fee := u64 _).
  assert (Hfu : exists b, (if fee =? 0 then isFusionTransactionTx c tx blobSize else Ret false) = Ret b).
  { destruct (fee =? 0); [by apply fusion_answer | by eexists]. }
  destruct Hfu as [isFusion ->]. rewrite outcome_bind_ret.
  destruct (ttl_rejected _ _ _ _ _); [by eauto 10 |]. destruct (_ && (fee <? _)); [by eauto 10 |].
  destruct (negb kept && haveSpentInputs p tx) eqn:Esp; [by eauto 10 |].
  destruct (checkTransactionInputs tx) as [valid used]. destruct (negb valid && negb kept); [by eauto 10 |].
  destruct (negb kept && negb _); [by eauto 10 |]. destruct (negb kept && bool_decide _); [by eauto 10 |].
  match goal with |- context [insert_tx _ _ _ _ _ _ _ ?f ?v ?m ?t _ _ _] =>
    destruct (insert_tx_ok p tx id blobSize fee f v m t kept height now) as (ok & tvc' & p' & -> & Hok' & _ & Hf & Ht)
  end; [done | done | done | apply u64_range | by intros ->; destruct (haveSpentInputs p tx) |].
  exists ok, tvc', p'. split; [done |]. split; [done |]. destruct ok; [right | left; by apply Hf].
  destruct (Ht eq_refl) as [Hp Hpay]. eexists. by split_and!.
Qed.

Lemma take_tx_ok p id :
  pool_ok p -> exists r p', take_tx getObjectHash p id = Ret (r, p') /\ pool_ok p'
    /\ m_transactions p' = filter (fun e => td_id e <> id) (m_transactions p).
Proof.
  intros Hok. unfold take_tx. destruct (find_tx id (m_transactions p)) as [d |] eqn:E.
  - apply find_tx_Some in E as [Hd <-].
    destruct (removeTransaction_ok getObjectHash p d Hok Hd) as (p' & -> & Hok' & Ht & _). rewrite outcome_bind_ret. by eauto.
  - exists None, p. split; [done |]. split; [done |]. apply find_tx_None in E.
    symmetry. induction (m_transactions p) as [| x l IH]; [done |]. cbn [map] in E. apply not_elem_of_cons in E as [Hx E].
    cbn [filter list_filter]. rewrite decide_True by (intros Heq; by apply Hx). f_equal. by apply IH.
Qed.

(** ** Expiry *)

Lemma pool_ok_deleted p deleted :
  pool_ok p ->
  pool_ok (mkPool (m_transactions p) (m_spent_key_images p) (m_spentOutputs p) deleted (p_paymentIdIndex p)
             (m_timestampIndex p) (m_ttlIndex p) (m_lastWorkedTime p)).
Proof. by intros []. Qed.

Lemma remove_expired_ok now l p :
  pool_ok p -> NoDup (map td_id l) -> (forall d, d ∈ l -> d ∈ m_transactions p) ->
  exists p', remove_expired_loop c getObjectHash now l p = Ret p' /\ pool_ok p'
    /\ (forall d, d ∈ m_transactions p' <-> d ∈ m_transactions p /\ (d ∈ l -> expired c p now d = false))
    /\ (forall d, d ∈ l -> expired c p now d = true -> is_Some (m_recentlyDeletedTransactions p' !! td_id d))
    /\ (forall id, is_Some (m_recentlyDeletedTransactions p !! id) -> is_Some (m_recentlyDeletedTransactions p' !! id)).
Proof.
  revert p. induction l as [| d l IH]; intros p Hok Hnd Hin; cbn [remove_expired_loop].
  - exists p. split; [done |]. split; [done |]. split; [| split; [intros d Hd; by apply elem_of_nil in Hd | done]].
    intros d. split; [intros Hd; split; [done | intros Hn; by apply elem_of_nil in Hn] | by intros [? _]].
  - cbn [map] in Hnd. apply NoDup_cons in Hnd as [Hd Hnd].
    destruct (expired c p now d) eqn:Ex.
    + set (deleted := emplace (td_id d) now (m_recentlyDeletedTransactions p)).
      set (p0 := mkPool _ _ _ deleted _ _ _ _). assert (Hok0 : pool_ok p0) by (by apply pool_ok_deleted).
      destruct (removeTransaction_ok getObjectHash p0 d Hok0) as (p1 & -> & Hok1 & Ht & Hdel & Httl & _); [by apply Hin; left |].
      rewrite outcome_bind_ret. cbn [m_transactions p0] in Ht. cbn [m_ttlIndex p0] in Httl.
      assert (Hex : forall e, td_id e <> td_id d -> expired c p1 now e = expired c p now e).
      { intros e He. unfold expired. rewrite Httl, lookup_delete_ne by done. done. }
      assert (Hne : forall e, e ∈ l -> td_id e <> td_id d).
      { intros e He Heq. apply Hd. rewrite <- Heq. by apply list_elem_of_fmap_2. }
      destruct (IH p1) as (p2 & -> & Hok2 & Hel & Hrec & Hold); [done | done | |].
      { intros e He. rewrite Ht. apply list_elem_of_filter. split; [by apply Hne | by apply Hin; right]. }
      assert (Hdd : is_Some (m_recentlyDeletedTransactions p1 !! td_id d)).
      { rewrite Hdel. cbn. unfold deleted, emplace. destruct (m_recentlyDeletedTransactions p !! td_id d) eqn:E;
          [by rewrite E | by rewrite lookup_insert_eq]. }
      exists p2. split; [done |]. split; [done |]. split; [| split].
      * intros e. rewrite Hel, Ht, list_elem_of_filter. split.
        -- intros [[He1 He2] He3]. split; [done |]. intros [-> | He]%elem_of_cons; [done |]. rewrite <- Hex by done. auto.
        -- intros [He1 He2]. assert (He : td_id e <> td_id d).
           { intros Heq. assert (e = d) as ->; [| by rewrite He2 in Ex; [| left]].
             apply (ids_inj p); [apply Hok | done | apply Hin; by left | done]. }
           split; [done |]. intros Hel'. rewrite Hex by done. apply He2. by right.
      * intros e [-> | He]%elem_of_cons Hee; [by apply Hold |]. apply Hrec; [done |]. by rewrite Hex by auto.
      * intros id Hid. apply Hold. rewrite Hdel. cbn. unfold deleted, emplace.
        destruct (m_recentlyDeletedTransactions p !! td_id d); [done |].
        destruct (decide (id = td_id d)) as [-> |]; [by rewrite lookup_insert_eq | by rewrite lookup_insert_ne].
    + destruct (IH p) as (p2 & -> & Hok2 & Hel & Hrec & Hold); [done | done | by intros e He; apply Hin; right |].
      exists p2. split; [done |]. split; [done |]. split; [| split].
      * intros e. rewrite Hel. split; intros [He1 He2]; (split; [done |]).
        -- intros [-> | He]%elem_of_cons; auto.
        -- intros He. apply He2. by right.
      * intros e [-> | He]%elem_of_cons Hee; [by rewrite Hee in Ex | by apply Hrec].
      * done.
Qed.

Lemma removeExpired_ok p now :
  pool_ok p ->
  exists p', removeExpiredTransactions c getObjectHash p now = Ret p' /\ pool_ok p'
    /\ (forall d, d ∈ m_transactions p' <-> d ∈ m_transactions p /\ expired c p now d = false)
    /\ (forall d, d ∈ m_transactions p -> expired c p now d = true -> is_Some (m_recentlyDeletedTransactions p' !! td_id d)).
Proof.
  intros Hok. unfold removeExpiredTransactions. set (p0 := mkPool _ _ _ _ _ _ _ _).
  assert (Hok0 : pool_ok p0) by (by apply pool_ok_deleted).
  destruct (remove_expired_ok now (m_transactions p) p0) as (p' & -> & Hok' & Hel & Hrec & _); [done | apply Hok | done |].
  exists p'. split; [done |]. split; [done |]. split; [| done]. intros d. rewrite Hel. cbn [m_transactions p0].
  change (expired c p0 now d) with (expired c p now d). split; intros [H1 H2]; (split; [done |]); auto.
Qed.

Lemma on_idle_ok p now :
  pool_ok p -> exists p', on_idle c getObjectHash p now = Ret p' /\ pool_ok p'
    /\ (60 < now - m_lastWorkedTime p -> forall d, d ∈ m_transactions p' <-> d ∈ m_transactions p /\ expired c p now d = false).
Proof.
  intros Hok. unfold on_idle. destruct (Z.ltb_spec 60 (now - m_lastWorkedTime p)).
  - destruct (removeExpired_ok p now Hok) as (p' & -> & Hok' & Hel & _). rewrite outcome_bind_ret.
    eexists. split; [done |]. split; [by destruct Hok' |]. done.
  - exists p. split; [done |]. split; [done |]. lia.
Qed.

End Operations.

(** * Block templates *)

Definition spent_in (d : TransactionDetails) : list bytes := spent_images (tx_inputs (td_tx d)).

Lemma canAdd_true t tx :
  canAdd t tx = true <->
  (forall k, k ∈ spent_images (tx_inputs tx) -> k ∉ bt_keyImages t)
  /\ (forall o, o ∈ multisig_pairs (tx_inputs tx) -> o ∉ bt_usedOutputs t).
Proof.
  unfold canAdd, spent_images, multisig_pairs. rewrite forallb_forall. split.
  - intros Hall. split; intros x (i & Hx & Hi)%list_elem_of_bind; apply list_elem_of_In in Hi; specialize (Hall i Hi);
      destruct i as [b | k | m | s | s | u]; cbn in Hx, Hall; try (by apply elem_of_nil in Hx);
      apply list_elem_of_singleton in Hx as ->; by apply bool_decide_eq_true in Hall.
  - intros [Hk Ho] i Hi%list_elem_of_In. destruct i as [b | k | m | s | s | u]; try done; apply bool_decide_true;
      [apply Hk | apply Ho | apply Hk | apply Hk]; apply list_elem_of_bind; eexists; (split; [| done]); cbn; by left.
Qed.

Lemma template_inputs_spec ins t :
  NoDup (spent_images ins) -> NoDup (multisig_pairs ins) ->
  (forall k, k ∈ spent_images ins -> k ∉ bt_keyImages t) -> (forall o, o ∈ multisig_pairs ins -> o ∉ bt_usedOutputs t) ->
  template_inputs ins t = Ret (mkTemplate (bt_keyImages t ∪ list_to_set (spent_images ins))
                                 (bt_usedOutputs t ∪ list_to_set (multisig_pairs ins)) (bt_txHashes t)).
Proof.
  revert t. induction ins as [| i ins IH]; intros t Hk Hm Hkt Hmt.
  - cbn. rewrite !union_empty_r_L. by destruct t.
  - unfold spent_images, multisig_pairs in *. rewrite !bind_cons. rewrite bind_cons in *.
    destruct i as [b | k | m | s | s | u]; cbn [spent_image ring_image commitment_image multisig_pair app] in *;
      cbn [template_inputs]; try (by apply IH);
      try apply NoDup_cons in Hk as [Hk1 Hk]; try apply NoDup_cons in Hm as [Hm1 Hm];
      rewrite assert_true, outcome_bind_ret by (apply bool_decide_true; first [apply Hkt | apply Hmt]; by left);
      rewrite IH; cbn [bt_keyImages bt_usedOutputs bt_txHashes list_to_set]; rewrite ?assoc_L by apply _; try done;
      intros x Hx; try (rewrite not_elem_of_union, not_elem_of_singleton; split; [| by intros ->]);
      first [apply Hkt; by right | apply Hmt; by right | by apply Hkt | by apply Hmt].
Qed.

Section Template.
Context (c : Currency) `{ITransactionValidator}.

(** The template that holds the chosen transactions. *)
Definition template_of (chosen : list TransactionDetails) : BlockTemplate :=
  mkTemplate (list_to_set (chosen ≫= spent_in)) (list_to_set (chosen ≫= outputs_in)) (map td_id chosen).

Definition total_blob (l : list TransactionDetails) : Z := sumZ (map td_blobSize l).
Definition total_fee (l : list TransactionDetails) : Z := sumZ (map td_fee l).

(** A transaction that may enter a template: no TTL, inputs valid now, spending no more than it has. *)
Definition candidate (p : Pool) (height : Z) (d : TransactionDetails) : Prop :=
  m_ttlIndex p !! td_id d = None /\ is_transaction_ready_to_go d = true
  /\ exists amount, getTransactionAllInputsAmount c (td_tx d) height = Ret amount /\ get_outs_money_amount (td_tx d) <= amount.

(** What the loop needs of each transaction: no input named twice, a size, inputs that can be summed. *)
Definition well_formed (height : Z) (d : TransactionDetails) : Prop :=
  NoDup (spent_in d) /\ NoDup (outputs_in d) /\ 0 < td_blobSize d < 2 ^ 63
  /\ exists amount, getTransactionAllInputsAmount c (td_tx d) height = Ret amount.

Definition size_limit (median_size max_total_size : Z) (d : TransactionDetails) : Z :=
  if td_fee d =? 0 then median_size else max_total_size.

Definition shares_input (chosen : list TransactionDetails) (d : TransactionDetails) : Prop :=
  (exists k, k ∈ spent_in d /\ k ∈ chosen ≫= spent_in) \/ (exists o, o ∈ outputs_in d /\ o ∈ chosen ≫= outputs_in).

(** The transactions spend nothing twice and fit; and a candidate that was left out does not fit or
    spends an input of a chosen one. *)
Definition selection (p : Pool) (median_size max_total_size height : Z) (l chosen : list TransactionDetails) : Prop :=
  NoDup (chosen ≫= spent_in) /\ NoDup (chosen ≫= outputs_in)
  /\ 0 <= total_blob chosen <= Z.max median_size max_total_size
  /\ (forall d, d ∈ l -> d ∉ chosen -> candidate p height d ->
        size_limit median_size max_total_size d < total_blob chosen + td_blobSize d \/ shares_input chosen d).

Lemma total_blob_snoc l d : total_blob (l ++ [d]) = total_blob l + td_blobSize d.
Proof. unfold total_blob. rewrite map_app, sumZ_app. cbn. lia. Qed.

Lemma total_fee_snoc l d : total_fee (l ++ [d]) = total_fee l + td_fee d.
Proof. unfold total_fee. rewrite map_app, sumZ_app. cbn. lia. Qed.

Lemma addTransaction_spec chosen d :
  NoDup (spent_in d) -> NoDup (outputs_in d) -> NoDup (chosen ≫= spent_in) -> NoDup (chosen ≫= outputs_in) ->
  (addTransaction (template_of chosen) (td_id d) (td_tx d) = Ret (false, template_of chosen) /\ shares_input chosen d)
  \/ (addTransaction (template_of chosen) (td_id d) (td_tx d) = Ret (true, template_of (chosen ++ [d]))
      /\ NoDup ((chosen ++ [d]) ≫= spent_in) /\ NoDup ((chosen ++ [d]) ≫= outputs_in)).
Proof.
  intros Hs Ho Hcs Hco. unfold addTransaction. destruct (canAdd (template_of chosen) (td_tx d)) eqn:E; cbn [negb].
  - right. apply canAdd_true in E as [Hk Hm]. rewrite template_inputs_spec by done. rewrite outcome_bind_ret.
    rewrite !bind_app. cbn [mbind list_bind]. rewrite !app_nil_r. cbn in Hk, Hm.
    split; [| split; apply NoDup_app; (split; [done |]; split; [| done])].
    + unfold template_of. cbn [bt_keyImages bt_usedOutputs bt_txHashes]. rewrite !bind_app, map_app, !list_to_set_app_L.
      cbn [mbind list_bind map]. by rewrite !app_nil_r.
    + intros k Hk1 Hk2. apply (Hk k Hk2). by apply elem_of_list_to_set.
    + intros o Ho1 Ho2. apply (Hm o Ho2). by apply elem_of_list_to_set.
  - left. split; [done |]. apply not_true_iff_false in E. unfold shares_input.
    destruct (decide (Exists (fun k => k ∈ chosen ≫= spent_in) (spent_in d))) as [Hx | Hx].
    { apply Exists_exists in Hx as (k & ? & ?). left. by exists k. }
    destruct (decide (Exists (fun o => o ∈ chosen ≫= outputs_in) (outputs_in d))) as [Hy | Hy].
    { apply Exists_exists in Hy as (o & ? & ?). right. by exists o. }
    exfalso. apply E, canAdd_true. split; intros x Hin Hx'; cbn in Hx'; apply elem_of_list_to_set in Hx'.
    + apply Hx, Exists_exists. by exists x.
    + apply Hy, Exists_exists. by exists x.
Qed.

Lemma selection_skip p median max height d rest pre more :
  selection p median max height rest (pre ++ more) -> 0 <= total_blob more ->
  (candidate p height d -> size_limit median max d < total_blob pre + td_blobSize d \/ shares_input pre d) ->
  selection p median max height (d :: rest) (pre ++ more).
Proof.
  intros (Hs & Ho & Hb & Hout) Hm Hd. split; [done |]. split; [done |]. split; [done |].
  intros e [-> | He]%elem_of_cons Hne Hc; [| by apply Hout]. destruct (Hd Hc) as [Hlim | Hsh].
  - left. unfold total_blob in *. rewrite map_app, sumZ_app. lia.
  - right. unfold shares_input in *. rewrite !bind_app. destruct Hsh as [(x & ? & ?) | (x & ? & ?)]; [left | right];
      exists x; rewrite elem_of_app; auto.
Qed.

Lemma template_loop_spec p median max height l pre :
  Forall (well_formed height) l -> 0 <= median < 2 ^ 63 -> 0 <= max < 2 ^ 63 ->
  selection p median max height [] pre ->
  exists more,
    template_loop c p median max height l (template_of pre) (total_blob pre) (u64 (total_fee pre))
      = Ret (template_of (pre ++ more), total_blob (pre ++ more), u64 (total_fee (pre ++ more)))
    /\ sublist more l /\ Forall (candidate p height) more /\ 0 <= total_blob more
    /\ selection p median max height l (pre ++ more).
Proof.
  intros Hl Hmed Hmax. revert pre. induction Hl as [| d rest (Hns & Hno & Hb & amount & Ham) Hl IH]; intros pre Hpre.
  { exists []. rewrite app_nil_r. by split_and!. }
  pose proof Hpre as (Hs & Ho & Hbl & _). cbn [template_loop].
  (* leaving [d] out for a reason *)
  assert (Hskip : (candidate p height d -> size_limit median max d < total_blob pre + td_blobSize d \/ shares_input pre d) ->
    exists more,
      template_loop c p median max height rest (template_of pre) (total_blob pre) (u64 (total_fee pre))
        = Ret (template_of (pre ++ more), total_blob (pre ++ more), u64 (total_fee (pre ++ more)))
      /\ sublist more (d :: rest) /\ Forall (candidate p height) more /\ 0 <= total_blob more
      /\ selection p median max height (d :: rest) (pre ++ more)).
  { intros Hd. destruct (IH pre Hpre) as (more & Heq & Hsub & Hc & Hm & Hsel). exists more.
    split; [done |]. split; [by constructor |]. split; [done |]. split; [done |]. by apply selection_skip. }
  destruct (m_ttlIndex p !! td_id d) eqn:Ettl; [rewrite bool_decide_true by done | rewrite bool_decide_false by (by intros [? ?])].
  { apply Hskip. intros (Ht & _). congruence. }
  rewrite Ham, outcome_bind_ret. destruct (Z.ltb_spec amount (get_outs_money_amount (td_tx d))) as [Hlt | Hge].
  { apply Hskip. intros (_ & _ & a & Ha & Hle). rewrite Ham in Ha. injection Ha as <-. lia. }
  fold (size_limit median max d).
  assert (Hlim : size_limit median max d <= Z.max median max) by (unfold size_limit; destruct (_ =? 0); lia).
  rewrite (u64_small (total_blob pre + td_blobSize d)) by lia.
  destruct (Z.ltb_spec (size_limit median max d) (total_blob pre + td_blobSize d)) as [Hbig | Hfit].
  { apply Hskip. by left. }
  destruct (is_transaction_ready_to_go d) eqn:Er; [| apply Hskip; intros (_ & Hr & _); congruence].
  destruct (addTransaction_spec pre d) as [[-> Hsh] | (-> & Hs' & Ho')]; [done | done | done | done | |];
    rewrite outcome_bind_ret; [apply Hskip; by right |].
  destruct (IH (pre ++ [d])) as (more & Heq & Hsub & Hc & Hm & Hsel).
  { split; [done |]. split; [done |]. rewrite total_blob_snoc. split; [lia |]. intros e He. by apply elem_of_nil in He. }
  rewrite total_blob_snoc, total_fee_snoc in Heq.
  exists (d :: more). rewrite <- app_assoc in Heq, Hsel. cbn [app] in Heq, Hsel.
  split; [by rewrite u64_add_idemp |]. split; [by constructor |].
  split; [constructor; [by split_and!; eauto | done] |].
  split; [unfold total_blob in *; cbn [map sumZ foldr]; fold (sumZ (map td_blobSize more)); lia |].
  destruct Hsel as (H1 & H2 & H3 & H4). split; [done |]. split; [done |]. split; [done |].
  intros e [-> | He]%elem_of_cons Hne; [| by apply H4]. exfalso. apply Hne, elem_of_app. right. by left.
Qed.

End Template.

(** * The pool over its life *)

Section Life.
Context (c : Currency) `{ITransactionValidator} (getObjectHash : Transaction -> Hash).

(** The pools that a node reaches from the empty one by receiving transactions (whatever the
    answer), by moving them into blocks and by expiry. *)
Inductive pool_reach : Pool -> Prop :=
  | reach_empty : pool_reach empty_pool
  | reach_add p tx id blobSize tvc kept height clock now r tvc' p' :
      pool_reach p -> own_distinct tx -> 0 < blobSize < 2 ^ 64 ->
      add_tx c getObjectHash p tx id blobSize tvc kept height clock now = Ret (r, tvc', p') -> pool_reach p'
  | reach_take p id r p' : pool_reach p -> take_tx getObjectHash p id = Ret (r, p') -> pool_reach p'
  | reach_idle p now p' : pool_reach p -> on_idle c getObjectHash p now = Ret p' -> pool_reach p'.

Context (Hdust : 0 <= m_defaultDustThreshold c).

Lemma add_tx_sums p tx id blobSize tvc kept height clock now r :
  add_tx c getObjectHash p tx id blobSize tvc kept height clock now = Ret r -> check_inputs_types_supported tx = true ->
  exists amount, getTransactionAllInputsAmount c tx height = Ret amount.
Proof. unfold add_tx. intros Hr Ht. rewrite Ht in Hr. cbn [negb] in Hr. apply outcome_bind_inv in Hr as (a & Ha & _). eauto. Qed.

Lemma add_tx_returned p tx id blobSize tvc kept height clock now r tvc' p' :
  pool_ok p -> own_distinct tx -> 0 < blobSize < 2 ^ 64 ->
  add_tx c getObjectHash p tx id blobSize tvc kept height clock now = Ret (r, tvc', p') ->
  pool_ok p' /\ p_paymentIdIndex p' = p_paymentIdIndex p.
Proof.
  intros Hok Hown Hb Hr.
  assert (Ham : exists amount, check_inputs_types_supported tx = true -> getTransactionAllInputsAmount c tx height = Ret amount).
  { destruct (check_inputs_types_supported tx) eqn:E; [| by exists 0]. destruct (add_tx_sums _ _ _ _ _ _ _ _ _ _ Hr E) as [a Ha].
    by exists a. }
  destruct Ham as [amount Ham].
  destruct (add_tx_ok c getObjectHash Hdust p tx id blobSize tvc kept height clock now amount Hok Hown Hb Ham)
    as (r0 & tvc0 & p0 & Heq & Hok0 & Hcase).
  rewrite Heq in Hr. injection Hr as <- <- <-. split; [done |]. by destruct Hcase as [-> | (d & _ & _ & _ & _ & ->)].
Qed.

Lemma pool_reach_ok p : pool_reach p -> pool_ok p.
Proof.
  induction 1 as [| p tx id b tvc kept height clock now r tvc' p' _ IH Hown Hb Hr | p id r p' _ IH Hr | p now p' _ IH Hr].
  - apply empty_pool_ok.
  - by eapply add_tx_returned.
  - destruct (take_tx_ok getObjectHash p id IH) as (r0 & p0 & Heq & Hok & _). rewrite Heq in Hr. by injection Hr as <- <-.
  - destruct (on_idle_ok c getObjectHash p now IH) as (p0 & Heq & Hok & _). rewrite Heq in Hr. by injection Hr as <-.
Qed.

Lemma removeTransaction_payment p d p' :
  removeTransaction getObjectHash p d = Ret p' -> p_paymentIdIndex p = ∅ -> p_paymentIdIndex p' = ∅.
Proof.
  unfold removeTransaction. intros ([[b i] o] & _ & [= <-])%outcome_bind_inv He. cbn [p_paymentIdIndex]. rewrite He.
  unfold payment_remove. destruct (getPaymentId _); [| done]. rewrite decide_False; [done |]. multiset_solver.
Qed.

Lemma remove_expired_payment now l p p' :
  remove_expired_loop c getObjectHash now l p = Ret p' -> p_paymentIdIndex p = ∅ -> p_paymentIdIndex p' = ∅.
Proof.
  revert p. induction l as [| d l IH]; intros p; cbn [remove_expired_loop]; [by intros [= <-] |].
  destruct (expired c p now d); [| by apply IH]. intros (p1 & H1 & H2)%outcome_bind_inv He.
  apply (IH p1 H2). by apply removeTransaction_payment in H1.
Qed.

Lemma pool_reach_payment p : pool_reach p -> p_paymentIdIndex p = ∅.
Proof.
  induction 1 as [| p tx id b tvc kept height clock now r tvc' p' Hp IH Hown Hb Hr | p id r p' _ IH Hr | p now p' _ IH Hr].
  - done.
  - apply add_tx_returned in Hr as [_ ->]; [done | by apply pool_reach_ok | done | done].
  - unfold take_tx in Hr. destruct (find_tx id (m_transactions p)) as [d |]; [| by injection Hr as <- <-].
    apply outcome_bind_inv in Hr as (p1 & H1 & [= <- <-]). by apply removeTransaction_payment in H1.
  - unfold on_idle in Hr. destruct (60 <? _); [| by injection Hr as <-].
    apply outcome_bind_inv in Hr as (p1 & H1 & [= <-]). by apply remove_expired_payment in H1.
Qed.


(** [add_tx] moves the details into the container and then reads the payment id from what is left
    of them, so the pool never finds a transaction by its payment id: the search answers false for
    every id in every pool a running node reaches. *)
Theorem pool_forgets_payment_ids p (Hreach : pool_reach p) (paymentId : Hash) :
  getTransactionIdsByPaymentId p paymentId = (false, []).
Proof.
  unfold getTransactionIdsByPaymentId, payment_find. by rewrite (pool_reach_payment p Hreach).
Qed.

End Life.

(** * What the miner gets *)

Section Miner.
Context (c : Currency) `{ITransactionValidator} (getObjectHash : Transaction -> Hash).

(** The size that a template with fees may reach. *)
Definition template_max (median_size maxCumulativeSize : Z) : Z :=
  Z.min (u64 (u64 (125 * median_size) / 100 - m_minerTxBlobReservedSize c)) maxCumulativeSize.

Lemma template_max_range median_size maxCumulativeSize :
  0 <= maxCumulativeSize -> 0 <= template_max median_size maxCumulativeSize <= maxCumulativeSize.
Proof. intros Hm. unfold template_max. pose proof (u64_range (u64 (125 * median_size) / 100 - m_minerTxBlobReservedSize c)). lia. Qed.

Lemma empty_selection p median max height : 0 <= median -> selection c p median max height [] [].
Proof. intros Hm. split; [constructor |]. split; [constructor |]. split; [cbn; lia |]. intros d Hd. by apply elem_of_nil in Hd. Qed.

(** C34: [fill_block_template] always returns, and what it returns is a valid choice.  The hashes are
    those of transactions of the pool, in the reverse order of the fee index; each has no TTL, passes
    the input checks now and spends no more than it has; together they spend no key image (ring,
    certificate redemption or transfer) and no multisignature output twice; the reported size is the
    sum of the blobs and stays within the larger of the two limits, and the reported fee is the sum of
    the fees modulo 2^64.  Nothing is left out needlessly: any other transaction that could be mined
    would exceed its size limit or spend an input of a chosen one. *)
Theorem template_valid p median_size maxCumulativeSize height
    (Hwf : Forall (well_formed c height) (m_transactions p))
    (Hmedian : 0 <= median_size < 2 ^ 63) (Hmax : 0 <= maxCumulativeSize < 2 ^ 63) :
  exists chosen,
    fill_block_template c p median_size maxCumulativeSize height
      = Ret (map td_id chosen, sumZ (map td_blobSize chosen), u64 (sumZ (map td_fee chosen)))
    /\ sublist chosen (rev (m_transactions p)) /\ Forall (candidate c p height) chosen
    /\ NoDup (chosen ≫= fun d => spent_images (tx_inputs (td_tx d)))
    /\ NoDup (chosen ≫= fun d => multisig_pairs (tx_inputs (td_tx d)))
    /\ sumZ (map td_blobSize chosen) <= Z.max median_size (template_max median_size maxCumulativeSize)
    /\ (forall d, d ∈ m_transactions p -> d ∉ chosen -> candidate c p height d ->
          size_limit median_size (template_max median_size maxCumulativeSize) d
            < sumZ (map td_blobSize chosen) + td_blobSize d
          \/ shares_input chosen d).
Proof.
  pose proof (template_max_range median_size maxCumulativeSize ltac:(lia)) as Hm.
  destruct (template_loop_spec c p median_size (template_max median_size maxCumulativeSize) height (rev (m_transactions p)) [])
    as (chosen & Heq & Hsub & Hc & _ & Hs & Ho & Hb & Hout);
    [by apply Forall_rev | done | lia | apply empty_selection; lia |].
  unfold fill_block_template. cbv zeta. fold (template_max median_size maxCumulativeSize).
  change (template_loop c p median_size (template_max median_size maxCumulativeSize) height (rev (m_transactions p)) (template_of [])
            (total_blob []) (u64 (total_fee [])))
    with (template_loop c p median_size (template_max median_size maxCumulativeSize) height (rev (m_transactions p)) empty_template 0 0)
    in Heq.
  rewrite Heq, outcome_bind_ret. exists chosen. split; [done |]. split_and!; try done; [apply Hb |].
  intros d Hd. apply Hout. apply list_elem_of_In, in_rev. rewrite rev_involutive. by apply list_elem_of_In.
Qed.

Lemma by_priority_last l d e :
  by_priority (l ++ [d]) -> e ∈ l -> td_fee d * td_blobSize e <= td_fee e * td_blobSize d.
Proof.
  intros Hs He. induction l as [| x l IH]; [by apply elem_of_nil in He |]. apply StronglySorted_inv in Hs as [Hs Hx].
  apply elem_of_cons in He as [-> | He]; [| by apply IH]. rewrite Forall_forall in Hx.
  assert (Hb : better d x = false) by (apply Hx, elem_of_app; right; by left).
  apply not_true_iff_false in Hb. rewrite better_true in Hb. lia.
Qed.

(** The loop runs over the fee index backwards although the index puts the most profitable first:
    the transaction it considers first pays the least per byte of the whole pool, and when that one
    can be mined and fits, it is always in the template, before every better one. *)
Theorem template_cheapest_first p txs d median_size maxCumulativeSize height
    (Hdust : 0 <= m_defaultDustThreshold c) (Hreach : pool_reach c getObjectHash p)
    (Hlast : m_transactions p = txs ++ [d])
    (Hwf : Forall (well_formed c height) (m_transactions p))
    (Hmedian : 0 <= median_size < 2 ^ 63) (Hmax : 0 <= maxCumulativeSize < 2 ^ 63)
    (Hcand : candidate c p height d)
    (Hfits : td_blobSize d <= size_limit median_size (template_max median_size maxCumulativeSize) d) :
  (forall e, e ∈ txs -> td_fee d * td_blobSize e <= td_fee e * td_blobSize d)
  /\ exists hashes size fee, fill_block_template c p median_size maxCumulativeSize height = Ret (td_id d :: hashes, size, fee).
Proof.
  split.
  { intros e He. apply (by_priority_last txs); [| done]. rewrite <- Hlast. apply (pool_reach_ok _ _ Hdust _ Hreach). }
  unfold fill_block_template. cbv zeta. fold (template_max median_size maxCumulativeSize).
  pose proof (template_max_range median_size maxCumulativeSize ltac:(lia)) as Hm.
  rewrite Hlast in *. rewrite rev_app_distr. cbn [rev app].
  apply Forall_app in Hwf as [Hwf Hd]. apply Forall_inv in Hd as (Hn1 & Hn2 & Hb & _).
  destruct Hcand as (Httl & Hready & amount & Ham & Hle).
  assert (Hlim : size_limit median_size (template_max median_size maxCumulativeSize) d
    <= Z.max median_size (template_max median_size maxCumulativeSize)) by (unfold size_limit; destruct (_ =? 0); lia).
  cbn [template_loop]. rewrite Httl, bool_decide_false by (by intros [? ?]). rewrite Ham, outcome_bind_ret.
  rewrite (proj2 (Z.ltb_ge _ _)) by done. fold (size_limit median_size (template_max median_size maxCumulativeSize) d).
  rewrite !Z.add_0_l, (u64_small (td_blobSize d)), (proj2 (Z.ltb_ge _ _)), Hready by lia.
  change empty_template with (template_of []).
  destruct (addTransaction_spec [] d) as [[_ Hsh] | (-> & H1 & H2)]; [done | done | constructor | constructor | |].
  { destruct Hsh as [(k & _ & Hk) | (k & _ & Hk)]; by apply elem_of_nil in Hk. }
  rewrite outcome_bind_ret. cbn [app].
  destruct (template_loop_spec c p median_size (template_max median_size maxCumulativeSize) height (rev txs) [d])
    as (more & Heq & _); [by apply Forall_rev | done | lia | |].
  { split; [done |]. split; [done |]. unfold total_blob. cbn. split; [lia |]. intros e He. by apply elem_of_nil in He. }
  replace (total_blob [d]) with (td_blobSize d) in Heq by (unfold total_blob; cbn; lia).
  replace (total_fee [d]) with (td_fee d) in Heq by (unfold total_fee; cbn; lia).
  rewrite Heq, outcome_bind_ret. cbn [app template_of bt_txHashes map]. by eexists _, _, _.
Qed.

End Miner.

(** * A pool with three transactions *)

Module PoolDemo.
#[local] Instance accept_all : ITransactionValidator := {|
  checkTransactionInputs _ := (true, mkBlockInfo 9 NULL_HASH);
  checkTransactionInputsAgain _ _ _ := true;
  haveSpentKeyImages _ := false;
  checkTransactionSize _ := true
|}.
Definition payment : Hash := replicate 32 4.
Definition tx (image : Z) (paid : Z) : Transaction :=
  mkTransaction 1 0 [InKey (mkKeyInput 90000000 [1; 2] [image])]
    [mkTransactionOutput (90000000 - paid) (OutKey (mkKeyOutput [7]))] 
    (default [] (addExtraNonceToTransactionExtra [] (setPaymentIdToTransactionExtraNonce payment))) [].
Definition hash_of (t : Transaction) : Hash := tx_extra t.
Definition tvc0 : tx_verification_context := mkTvc false false false false false.
Definition add (p : Pool) (image size paid : Z) : outcome (bool * tx_verification_context * Pool) :=
  add_tx testnet hash_of p (tx image paid) [image] size tvc0 false 100 1000 1000.
Definition after (r : outcome (bool * tx_verification_context * Pool)) : Pool :=
  match r with Ret (_, _, p) => p | _ => empty_pool end.
Definition pool : Pool := after (add (after (add (after (add empty_pool 1 400 80000)) 2 300 9000000)) 3 900 90000).

Lemma add_reach p image size paid :
  0 < size < 2 ^ 64 -> pool_reach testnet hash_of p -> pool_reach testnet hash_of (after (add p image size paid)).
Proof.
  intros Hs Hp. destruct (add p image size paid) as [[[r t] p'] | | |] eqn:E; cbn [after]; try apply reach_empty.
  refine (reach_add _ _ _ _ _ _ _ _ _ _ _ _ _ _ Hp _ Hs E). split; cbn; [apply NoDup_singleton | constructor].
Qed.

Lemma pool_reached : pool_reach testnet hash_of pool.
Proof. unfold pool. repeat (apply add_reach; [lia |]). apply reach_empty. Qed.

Lemma pool_well_formed : Forall (well_formed testnet 100) (m_transactions pool).
Proof.
  let l := eval vm_compute in (m_transactions pool) in replace (m_transactions pool) with l by (vm_compute; reflexivity).
  repeat apply Forall_cons_2; [..| by apply Forall_nil];
    (split; [apply NoDup_singleton |]; split; [constructor |]; split; [cbn; lia |]; eexists; vm_compute; reflexivity).
Qed.
End PoolDemo.

#[local] Existing Instance PoolDemo.accept_all.


Lemma pool_forgets_payment_ids_witness :
  getTransactionIdsByPaymentId PoolDemo.pool PoolDemo.payment = (false, [])
  /\ Forall (fun d => getPaymentId (td_tx d) = Some PoolDemo.payment) (m_transactions PoolDemo.pool).
Proof.
  split; [exact (pool_forgets_payment_ids testnet PoolDemo.hash_of ltac:(vm_compute; discriminate) PoolDemo.pool
                   PoolDemo.pool_reached PoolDemo.payment) |].
  let l := eval vm_compute in (m_transactions PoolDemo.pool) in
    replace (m_transactions PoolDemo.pool) with l by (vm_compute; reflexivity).
  repeat constructor.
Defined.

Lemma template_valid_witness :
  exists chosen, fill_block_template testnet PoolDemo.pool 100000 100000 100
      = Ret (map td_id chosen, sumZ (map td_blobSize chosen), u64 (sumZ (map td_fee chosen)))
    /\ sublist chosen (rev (m_transactions PoolDemo.pool)).
Proof.
  destruct (template_valid testnet PoolDemo.pool 100000 100000 100 PoolDemo.pool_well_formed) as (chosen & He & Hs & _); [lia | lia |].
  exists chosen. exact (conj He Hs).
Defined.

Lemma template_cheapest_first_witness :
  let d := List.last (m_transactions PoolDemo.pool) (mkDetails BlockInfo_clear BlockInfo_clear [] (PoolDemo.tx 0 0) 0 0 false 0) in
  td_fee d = 90000 /\ td_blobSize d = 900
  /\ exists hashes size fee, fill_block_template testnet PoolDemo.pool 100000 100000 100 = Ret (td_id d :: hashes, size, fee).
Proof.
  intros d. split; [vm_compute; reflexivity |]. split; [vm_compute; reflexivity |].
  refine (proj2 (template_cheapest_first testnet PoolDemo.hash_of PoolDemo.pool (removelast (m_transactions PoolDemo.pool)) d
    100000 100000 100 _ PoolDemo.pool_reached _ PoolDemo.pool_well_formed _ _ _ _)).
  - vm_compute. discriminate.
  - vm_compute. reflexivity.
  - lia.
  - lia.
  - split; [vm_compute; reflexivity |]. split; [vm_compute; reflexivity |].
    exists 90000000. split; [vm_compute; reflexivity | vm_compute; discriminate].
  - vm_compute. discriminate.
Defined.
