(* ===== verification/PeerList.v ===== *)
(** The lists of known peers: [src/src/P2p/PeerListManager.cpp], the addresses of [P2pProtocolTypes.h] and
    [src/src/System/Ipv4Address.cpp], and the correction of times in [NetNode.cpp].

    A [multi_index_container] that is unique by address and ordered by time is the list in the order of the times:
    a new entry goes behind those of the same time, and a replaced entry keeps its place when the order allows it.
    The file of the node holds each list in the order of the addresses; a restart reads what was written. *)

From stdpp Require Import sorting.
From S2P Require Import Prelude.

Definition P2P_LOCAL_WHITE_PEERLIST_LIMIT : nat := 1000.
Definition P2P_LOCAL_GRAY_PEERLIST_LIMIT : nat := 5000.
Definition P2P_DEFAULT_PEERS_IN_HANDSHAKE : Z := 250.

(** * Addresses *)

Record NetworkAddress := mkNetworkAddress { na_ip : Z; na_port : Z }.

#[export] Instance NetworkAddress_eq_dec : EqDecision NetworkAddress.
Proof. solve_decision. Defined.

Definition hostToNetwork (n : Z) : Z :=
  Z.lor (Z.lor (Z.lor (u32 (Z.shiftl n 24)) (u32 (Z.shiftl (Z.land n 0xff00) 8))) (Z.shiftr (Z.land n 0xff0000) 8)) (Z.shiftr n 24).
Definition networkToHost (n : Z) : Z := hostToNetwork n.

Definition isLoopback (value : Z) : bool := Z.land value 0xff000000 =? u32 (Z.shiftl 127 24).

Definition isPrivate (value : Z) : bool :=
  (Z.land value 0xff000000 =? u32 (Z.shiftl 10 24))
  || (Z.land value 0xfff00000 =? u32 (Z.lor (Z.shiftl 172 24) (Z.shiftl 16 16)))
  || (Z.land value 0xffff0000 =? u32 (Z.lor (Z.shiftl 192 24) (Z.shiftl 168 16))).

(** * Containers ordered by time *)

Section Indexed.
Context {E : Type} (adr : E -> NetworkAddress) (time : E -> Z).

Definition mi_find (a : NetworkAddress) (l : list E) : option E := snd <$> list_find (fun e => adr e = a) l.

Fixpoint insert_time (e : E) (l : list E) : list E :=
  match l with
  | [] => [e]
  | x :: l' => if time e <? time x then e :: l else x :: insert_time e l'
  end.

Definition mi_erase (a : NetworkAddress) (l : list E) : list E := filter (fun e => adr e <> a) l.

(** [insert]: refused when the address is there. *)
Definition mi_insert (e : E) (l : list E) : list E :=
  match mi_find (adr e) l with Some _ => l | None => insert_time e l end.

(** [replace] of the entry with the same address. *)
Definition mi_replace (e : E) (l : list E) : list E :=
  match list_find (fun x => adr x = adr e) l with
  | None => l
  | Some (i, _) =>
      let pre := take i l in
      let post := drop (S i) l in
      let after := match last pre with Some p => time p <=? time e | None => true end in
      let before := match head post with Some n => time e <=? time n | None => true end in
      if after && before then pre ++ e :: post else insert_time e (pre ++ post)
  end.

(** [Peerlist::trim] and [Peerlist::get]. *)
Definition trim (maxSize : nat) (l : list E) : list E := drop (length l - maxSize) l.
Definition get (l : list E) (i : nat) : option E := reverse l !! i.

(** [serialize] of a container: written in the order of the addresses, and read by inserting. *)
Definition addr_le (a b : E) : Prop :=
  na_ip (adr a) < na_ip (adr b) \/ na_ip (adr a) = na_ip (adr b) /\ na_port (adr a) <= na_port (adr b).
#[global] Instance addr_le_dec a b : Decision (addr_le a b).
Proof. unfold addr_le. apply _. Defined.
Definition write_container (l : list E) : list E := merge_sort addr_le l.
Definition read_container (file l : list E) : list E := foldl (fun l e => mi_insert e l) l file.

(** ** Lemmas *)

Definition by_time : list E -> Prop := StronglySorted (fun a b => time a <= time b).

Lemma insert_time_perm e l : insert_time e l ≡ₚ e :: l.
Proof.
  induction l as [| x l IH]; cbn [insert_time]; [done |]. destruct (time e <? time x); [done |].
  rewrite IH. apply Permutation_swap.
Qed.

Lemma insert_time_sorted e l : by_time l -> by_time (insert_time e l).
Proof.
  induction 1 as [| x l Hs IH Hx]; cbn [insert_time]; [by repeat constructor |].
  destruct (Z.ltb_spec (time e) (time x)).
  - constructor; [by constructor |]. constructor; [lia |]. eapply Forall_impl; [exact Hx |]. cbn. lia.
  - constructor; [exact IH |]. rewrite insert_time_perm. constructor; [lia | done].
Qed.

Lemma mi_find_None a l : mi_find a l = None <-> a ∉ map adr l.
Proof.
  unfold mi_find. rewrite fmap_None, list_find_None, Forall_forall, list_elem_of_fmap. split.
  - intros Hn (x & -> & Hx). by apply (Hn x).
  - intros Hn x Hx <-. apply Hn. by exists x.
Qed.

Lemma mi_erase_sorted a l : by_time l -> by_time (mi_erase a l).
Proof.
  induction 1 as [| x l Hs IH Hx]; [constructor |]. unfold mi_erase in *. rewrite filter_cons.
  case_decide; [| exact IH]. constructor; [exact IH |]. apply Forall_forall. intros y [_ Hy]%list_elem_of_filter.
  by apply (proj1 (Forall_forall _ _) Hx).
Qed.

Lemma sorted_app_inv l1 l2 : by_time (l1 ++ l2) -> by_time l1 /\ by_time l2 /\ (forall x y, x ∈ l1 -> y ∈ l2 -> time x <= time y).
Proof.
  induction l1 as [| z l1 IH]; cbn [app]; intros Hs.
  - split; [constructor |]. split; [done |]. intros x y Hx. by apply not_elem_of_nil in Hx.
  - inversion Hs as [| ? ? Hs' Hz]; subst. apply IH in Hs' as (H1 & H2 & H12). apply Forall_app in Hz as [Hz1 Hz2].
    split; [by constructor |]. split; [done |]. intros x y [-> | Hx]%elem_of_cons Hy; [by apply (proj1 (Forall_forall _ _) Hz2) | by apply H12].
Qed.

Lemma sorted_app l1 l2 : by_time l1 -> by_time l2 -> (forall x y, x ∈ l1 -> y ∈ l2 -> time x <= time y) -> by_time (l1 ++ l2).
Proof.
  intros H1 H2. induction H1 as [| z l1 Hs IH Hz]; cbn [app]; intros H12; [done |].
  constructor; [apply IH; intros x y Hx; apply H12; by right |]. apply Forall_app. split; [done |].
  apply Forall_forall. intros y Hy. apply H12; [left | done].
Qed.

Lemma trim_suffix n l : exists pre, l = pre ++ trim n l.
Proof. exists (take (length l - n) l). unfold trim. by rewrite take_drop. Qed.

Lemma trim_length n l : (length (trim n l) <= n)%nat.
Proof. unfold trim. rewrite length_drop. lia. Qed.

Lemma trim_sorted n l : by_time l -> by_time (trim n l).
Proof. intros Hs. destruct (trim_suffix n l) as [pre E']. rewrite E' in Hs. by apply sorted_app_inv in Hs as (_ & ? & _). Qed.

Lemma trim_subset n l x : x ∈ trim n l -> x ∈ l.
Proof. intros Hx. destruct (trim_suffix n l) as [pre ->]. apply elem_of_app. by right. Qed.

Lemma trim_NoDup n l : NoDup (map adr l) -> NoDup (map adr (trim n l)).
Proof. intros Hn. destruct (trim_suffix n l) as [pre E']. rewrite E', map_app in Hn. by apply NoDup_app in Hn as (_ & _ & ?). Qed.

(** What a replacement finds. *)
Lemma mi_replace_cases e l :
  NoDup (map adr l) ->
  (mi_replace e l = l /\ adr e ∉ map adr l) \/
  exists pre x post, l = pre ++ x :: post /\ adr x = adr e
    /\ (adr e ∉ map adr (pre ++ post)) /\ mi_replace e l ≡ₚ e :: pre ++ post /\ (by_time l -> by_time (mi_replace e l)).
Proof.
  intros Hn. unfold mi_replace. destruct (list_find _ l) as [[i x] |] eqn:Ef.
  - right. apply list_find_Some in Ef as (Hi & Ex & _). exists (take i l), x, (drop (S i) l).
    rewrite take_drop_middle by done. split; [done |]. split; [done |].
    rewrite <- (take_drop_middle l i x Hi) in Hn at 1.
    split.
    { rewrite map_app in *. cbn [map] in Hn. apply NoDup_app in Hn as (_ & H1 & H2%NoDup_cons). rewrite <- Ex.
      intros [Hin | Hin]%elem_of_app; [by apply (H1 _ Hin); left | by apply H2]. }
    split; [case_match; [by rewrite Permutation_middle | by apply insert_time_perm] |].
    intros Hs. rewrite <- (take_drop_middle l i x Hi) in Hs. apply sorted_app_inv in Hs as (H1 & H2 & H12).
    inversion H2 as [| ? ? H2' Hx]; subst.
    assert (Hmid : by_time (take i l ++ drop (S i) l)) by (apply sorted_app; [done.. |]; intros y z Hy Hz; apply H12; [done | by right]).
    destruct (_ && _) eqn:Eab; [| by apply insert_time_sorted]. apply andb_true_iff in Eab as [Ea Eb].
    apply sorted_app; [done | |].
    + constructor; [done |]. destruct (drop (S i) l) as [| n post]; [constructor |]. cbn [head] in Eb. apply Z.leb_le in Eb.
      constructor; [done |]. inversion H2' as [| ? ? _ Hn']; subst. eapply Forall_impl; [exact Hn' |]. cbn. lia.
    + intros y z Hy [-> | Hz]%elem_of_cons; [| by apply H12; [| right]].
      destruct (last (take i l)) as [p |] eqn:Elast; [| apply last_None in Elast; rewrite Elast in Hy; by apply not_elem_of_nil in Hy].
      apply last_Some in Elast as [pre Epre]. rewrite Epre in *. apply Z.leb_le in Ea.
      apply elem_of_app in Hy as [Hy | ->%list_elem_of_singleton]; [| done].
      apply sorted_app_inv in H1 as (_ & _ & H1). specialize (H1 y p Hy). etransitivity; [apply H1; left | done].
  - left. split; [done |]. apply list_find_None in Ef. rewrite list_elem_of_fmap. intros (x & E' & Hx).
    by apply (proj1 (Forall_forall _ _) Ef x Hx).
Qed.

Lemma read_container_ok file l :
  NoDup (map adr file) -> (forall a, a ∈ map adr file -> a ∉ map adr l) -> by_time l ->
  read_container file l ≡ₚ file ++ l /\ by_time (read_container file l).
Proof.
  unfold read_container. revert l. induction file as [| e file IH]; intros l Hn Hd Hs; [done |]. cbn [foldl map] in *. apply NoDup_cons in Hn as [He Hn].
  unfold mi_insert at 2 4. rewrite (proj2 (mi_find_None (adr e) l)) by (apply Hd; by left).
  assert (Hp : map adr (insert_time e l) ≡ₚ adr e :: map adr l) by (rewrite insert_time_perm; done).
  destruct (IH (insert_time e l)) as [H1 H2]; [done | | by apply insert_time_sorted |].
  - intros a Ha. rewrite Hp. intros [-> | Hin]%elem_of_cons; [done |]. apply (Hd a); [by right | done].
  - split; [| done]. rewrite H1, insert_time_perm. symmetry. apply Permutation_middle.
Qed.

(** What was written and is read into an empty container are the same entries. *)
Lemma read_written l : NoDup (map adr l) -> read_container (write_container l) [] ≡ₚ l /\ by_time (read_container (write_container l) []).
Proof.
  intros Hn. unfold write_container. assert (Hp : merge_sort addr_le l ≡ₚ l) by apply merge_sort_Permutation.
  destruct (read_container_ok (merge_sort addr_le l) []) as [H1 H2]; [by rewrite Hp | intros a _ Ha; by apply not_elem_of_nil in Ha | constructor |].
  split; [| done]. by rewrite H1, app_nil_r.
Qed.
End Indexed.

(** * The manager *)

Record PeerlistEntry := mkPeer { pe_adr : NetworkAddress; pe_id : Z; last_seen : Z }.
Record AnchorPeerlistEntry := mkAnchor { ap_adr : NetworkAddress; ap_id : Z; first_seen : Z }.

Record PeerlistManager := mkPeerlist {
  m_allow_local_ip : bool;
  m_peers_gray : list PeerlistEntry;
  m_peers_white : list PeerlistEntry;
  m_peers_anchor : list AnchorPeerlistEntry
}.

Definition no_peers (allow_local_ip : bool) : PeerlistManager := mkPeerlist allow_local_ip [] [] [].

Definition is_ip_allowed (m : PeerlistManager) (ip : Z) : bool :=
  let addr := networkToHost ip in
  negb (isLoopback addr) && (m_allow_local_ip m || negb (isPrivate addr)).

Definition append_with_peer_anchor (ple : AnchorPeerlistEntry) (m : PeerlistManager) : PeerlistManager :=
  if is_ip_allowed m (na_ip (ap_adr ple)) then
    mkPeerlist (m_allow_local_ip m) (m_peers_gray m) (m_peers_white m) (mi_insert ap_adr first_seen ple (m_peers_anchor m))
  else m.

Definition append_with_peer_white (ple : PeerlistEntry) (m : PeerlistManager) : PeerlistManager :=
  if is_ip_allowed m (na_ip (pe_adr ple)) then
    let white := match mi_find pe_adr (pe_adr ple) (m_peers_white m) with
                 | None => trim P2P_LOCAL_WHITE_PEERLIST_LIMIT (mi_insert pe_adr last_seen ple (m_peers_white m))
                 | Some _ => mi_replace pe_adr last_seen ple (m_peers_white m)
                 end in
    mkPeerlist (m_allow_local_ip m) (mi_erase pe_adr (pe_adr ple) (m_peers_gray m)) white (m_peers_anchor m)
  else m.

Definition append_with_peer_gray (ple : PeerlistEntry) (m : PeerlistManager) : PeerlistManager :=
  if is_ip_allowed m (na_ip (pe_adr ple)) then
    match mi_find pe_adr (pe_adr ple) (m_peers_white m) with
    | Some _ => m
    | None =>
        let gray := match mi_find pe_adr (pe_adr ple) (m_peers_gray m) with
                    | None => trim P2P_LOCAL_GRAY_PEERLIST_LIMIT (mi_insert pe_adr last_seen ple (m_peers_gray m))
                    | Some _ => mi_replace pe_adr last_seen ple (m_peers_gray m)
                    end in
        mkPeerlist (m_allow_local_ip m) gray (m_peers_white m) (m_peers_anchor m)
    end
  else m.

Definition trim_gray_peerlist (m : PeerlistManager) : PeerlistManager :=
  mkPeerlist (m_allow_local_ip m) (trim P2P_LOCAL_GRAY_PEERLIST_LIMIT (m_peers_gray m)) (m_peers_white m) (m_peers_anchor m).

Definition merge_peerlist (outer_bs : list PeerlistEntry) (m : PeerlistManager) : PeerlistManager :=
  trim_gray_peerlist (foldl (fun m be => append_with_peer_gray be m) m outer_bs).

Definition set_peer_just_seen (now peer ip port : Z) (m : PeerlistManager) : PeerlistManager :=
  append_with_peer_white (mkPeer (mkNetworkAddress ip port) peer now) m.

Definition get_white_peer_by_index (m : PeerlistManager) (i : nat) : option PeerlistEntry := get (m_peers_white m) i.
Definition get_gray_peer_by_index (m : PeerlistManager) (i : nat) : option PeerlistEntry := get (m_peers_gray m) i.

(** The loop over the white peers, the last seen first: [cnt] peers were taken. *)
Fixpoint head_loop (depth cnt : Z) (peers : list PeerlistEntry) : list PeerlistEntry :=
  match peers with
  | [] => []
  | vl :: peers =>
      if last_seen vl =? 0 then head_loop depth cnt peers
      else vl :: (if depth <? cnt then [] else head_loop depth (u32 (cnt + 1)) peers)
  end.

Definition get_peerlist_head (m : PeerlistManager) (depth : Z) : list PeerlistEntry := head_loop depth 0 (reverse (m_peers_white m)).

(** Gray and white peers. *)
Definition get_peerlist_full (m : PeerlistManager) : list PeerlistEntry * list PeerlistEntry :=
  (reverse (m_peers_gray m), reverse (m_peers_white m)).

Definition get_and_empty_anchor_peerlist (m : PeerlistManager) : list AnchorPeerlistEntry * PeerlistManager :=
  (m_peers_anchor m, mkPeerlist (m_allow_local_ip m) (m_peers_gray m) (m_peers_white m) []).

Definition remove_from_peer_anchor (addr : NetworkAddress) (m : PeerlistManager) : PeerlistManager :=
  mkPeerlist (m_allow_local_ip m) (m_peers_gray m) (m_peers_white m) (mi_erase ap_adr addr (m_peers_anchor m)).

(** [serialize] to and from the state file of the node, and [init]. *)
Record StoredPeers := mkStoredPeers {
  stp_version : Z; stp_whitelist : list PeerlistEntry; stp_graylist : list PeerlistEntry; stp_anchorlist : list AnchorPeerlistEntry
}.

Definition currentVersion : Z := 2.

Definition serialize_output (m : PeerlistManager) : StoredPeers :=
  mkStoredPeers currentVersion (write_container pe_adr (m_peers_white m)) (write_container pe_adr (m_peers_gray m))
    (write_container ap_adr (m_peers_anchor m)).

Definition serialize_input (file : StoredPeers) (m : PeerlistManager) : PeerlistManager :=
  if negb (stp_version file =? currentVersion) then m
  else
    mkPeerlist (m_allow_local_ip m) (read_container pe_adr last_seen (stp_graylist file) (m_peers_gray m))
      (read_container pe_adr last_seen (stp_whitelist file) (m_peers_white m))
      (read_container ap_adr first_seen (stp_anchorlist file) (m_peers_anchor m)).

Definition init (allow_local_ip : bool) (m : PeerlistManager) : PeerlistManager :=
  mkPeerlist allow_local_ip (m_peers_gray m) (m_peers_white m) (m_peers_anchor m).

(** The node ends and starts again with its file, and with its own setting ([NodeServer::store_config], [init_config], [init]). *)
Definition restart (allow_local_ip : bool) (m : PeerlistManager) : PeerlistManager :=
  init allow_local_ip (serialize_input (serialize_output m) (no_peers false)).

(** * The peers of a peer ([NetNode.cpp]) *)

(** The times of the entries are shifted by the difference of the clocks; a future time makes the list worthless. *)
Fixpoint fix_time_delta (now local_time : Z) (peerlist : list PeerlistEntry) : option (list PeerlistEntry) :=
  match peerlist with
  | [] => Some []
  | be :: peerlist =>
      if u64 local_time <? last_seen be then None
      else
        rest ← fix_time_delta now local_time peerlist;
        Some (mkPeer (pe_adr be) (pe_id be) (u64 (last_seen be + i64 (now - local_time))) :: rest)
  end.

Definition handle_remote_peerlist (now local_time : Z) (peerlist : list PeerlistEntry) (m : PeerlistManager) : option PeerlistManager :=
  peerlist_ ← fix_time_delta now local_time peerlist;
  Some (merge_peerlist peerlist_ m).

(** * The invariant *)

(** The addresses that a node may hold which has ([ever]) or never has been run with private addresses allowed. *)
Definition ip_allowed (ever : bool) (ip : Z) : bool :=
  let addr := networkToHost ip in negb (isLoopback addr) && (ever || negb (isPrivate addr)).

Record peers_ok (ever : bool) (m : PeerlistManager) : Prop := {
  po_setting : m_allow_local_ip m = true -> ever = true;
  po_white_unique : NoDup (map pe_adr (m_peers_white m));
  po_gray_unique : NoDup (map pe_adr (m_peers_gray m));
  po_anchor_unique : NoDup (map ap_adr (m_peers_anchor m));
  po_white_sorted : by_time last_seen (m_peers_white m);
  po_gray_sorted : by_time last_seen (m_peers_gray m);
  po_anchor_sorted : by_time first_seen (m_peers_anchor m);
  po_white_limit : (length (m_peers_white m) <= P2P_LOCAL_WHITE_PEERLIST_LIMIT)%nat;
  po_gray_limit : (length (m_peers_gray m) <= P2P_LOCAL_GRAY_PEERLIST_LIMIT)%nat;
  po_disjoint : forall a, a ∈ map pe_adr (m_peers_white m) -> a ∉ map pe_adr (m_peers_gray m);
  po_allowed : forall a, a ∈ map pe_adr (m_peers_white m) ++ map pe_adr (m_peers_gray m) ++ map ap_adr (m_peers_anchor m) ->
                 ip_allowed ever (na_ip a) = true
}.

Section Update.
Context {E : Type} (adr : E -> NetworkAddress) (time : E -> Z).

(** Adding or replacing an entry, cut to [n] when it is new. *)
Definition updated (n : nat) (e : E) (l : list E) : list E :=
  match mi_find adr (adr e) l with
  | None => trim n (mi_insert adr time e l)
  | Some _ => mi_replace adr time e l
  end.

Lemma updated_ok n e l :
  NoDup (map adr l) -> by_time time l -> (length l <= n)%nat ->
  NoDup (map adr (updated n e l)) /\ by_time time (updated n e l) /\ (length (updated n e l) <= n)%nat
  /\ (forall a, a ∈ map adr (updated n e l) -> a = adr e \/ a ∈ map adr l).
Proof.
  intros Hn Hs Hl. unfold updated. destruct (mi_find adr (adr e) l) as [x |] eqn:Ef.
  - destruct (mi_replace_cases adr time e l Hn) as [[E' Hnin] | (pre & y & post & -> & Ey & Hnin & Hp & Hs')].
    { apply mi_find_None in Hnin. congruence. }
    assert (Hp' : map adr (mi_replace adr time e (pre ++ y :: post)) ≡ₚ map adr (pre ++ y :: post)).
    { rewrite Hp, <- (Permutation_middle pre post y). cbn [map]. by rewrite Ey. }
    split; [by rewrite Hp' |]. split; [by apply Hs' |]. split.
    + apply Permutation_length in Hp'. rewrite !length_map in Hp'. lia.
    + intros a. rewrite Hp'. by right.
  - unfold mi_insert. rewrite Ef. apply mi_find_None in Ef.
    assert (Hp : map adr (insert_time time e l) ≡ₚ adr e :: map adr l) by (rewrite insert_time_perm; done).
    split; [apply trim_NoDup; rewrite Hp; by constructor |]. split; [by apply trim_sorted, insert_time_sorted |].
    split; [apply trim_length |].
    intros a (x & -> & Hx%trim_subset)%list_elem_of_fmap.
    assert (Hx' : adr x ∈ map adr (insert_time time e l)) by (by apply list_elem_of_fmap_2).
    rewrite Hp in Hx'. by apply elem_of_cons in Hx'.
Qed.

Lemma mi_erase_ok a l :
  NoDup (map adr l) -> NoDup (map adr (mi_erase adr a l)) /\ (length (mi_erase adr a l) <= length l)%nat
  /\ (forall b, b ∈ map adr (mi_erase adr a l) <-> b <> a /\ b ∈ map adr l).
Proof.
  intros Hn. split; [| split; [apply length_filter |]].
  - induction l as [| x l IH]; [constructor |]. cbn [map] in Hn. apply NoDup_cons in Hn as [Hx Hn]. unfold mi_erase. rewrite filter_cons.
    case_decide; [| by apply IH]. cbn [map]. constructor; [| by apply IH].
    intros (y & Ey & [_ Hy]%list_elem_of_filter)%list_elem_of_fmap. apply Hx, list_elem_of_fmap. by exists y.
  - intros b. unfold mi_erase. rewrite !list_elem_of_fmap. split.
    + intros (x & -> & [Hx Hin]%list_elem_of_filter). split; [done | by exists x].
    + intros (Hb & x & -> & Hin). exists x. split; [done |]. by apply list_elem_of_filter.
Qed.
End Update.

Lemma allowed_ever ever m ip : (m_allow_local_ip m = true -> ever = true) -> is_ip_allowed m ip = true -> ip_allowed ever ip = true.
Proof. unfold is_ip_allowed, ip_allowed. destruct (isLoopback _), (isPrivate _), (m_allow_local_ip m), ever; cbn; try done; intros H; by specialize (H eq_refl). Qed.

Lemma white_ok ever ple m : peers_ok ever m -> peers_ok ever (append_with_peer_white ple m).
Proof.
  intros [Hset Hwu Hgu Hau Hws Hgs Has Hwl Hgl Hd Ha]. unfold append_with_peer_white.
  destruct (is_ip_allowed m (na_ip (pe_adr ple))) eqn:Eip; [| by constructor]. pose proof (allowed_ever ever m _ Hset Eip) as Hip.
  fold (updated pe_adr last_seen P2P_LOCAL_WHITE_PEERLIST_LIMIT ple (m_peers_white m)).
  destruct (updated_ok pe_adr last_seen P2P_LOCAL_WHITE_PEERLIST_LIMIT ple (m_peers_white m)) as (H1 & H2 & H3 & H4); [done.. |].
  destruct (mi_erase_ok pe_adr (pe_adr ple) (m_peers_gray m)) as (H5 & H6 & H7); [done |].
  constructor; cbn [m_peers_white m_peers_gray m_peers_anchor]; try done.
  - by apply mi_erase_sorted.
  - lia.
  - intros a [-> | Hin]%H4 [Hne Hg]%H7; [done | by apply (Hd a)].
  - intros a Hin. change (ip_allowed ever (na_ip a) = true). rewrite !elem_of_app in Hin.
    destruct Hin as [[-> | Hin]%H4 | [[_ Hin]%H7 | Hin]]; [done | apply Ha; rewrite !elem_of_app; tauto..].
Qed.

Lemma gray_ok ever ple m : peers_ok ever m -> peers_ok ever (append_with_peer_gray ple m).
Proof.
  intros [Hset Hwu Hgu Hau Hws Hgs Has Hwl Hgl Hd Ha]. unfold append_with_peer_gray.
  destruct (is_ip_allowed m (na_ip (pe_adr ple))) eqn:Eip; [| by constructor]. pose proof (allowed_ever ever m _ Hset Eip) as Hip.
  destruct (mi_find pe_adr (pe_adr ple) (m_peers_white m)) as [x |] eqn:Ef; [by constructor |]. apply mi_find_None in Ef.
  fold (updated pe_adr last_seen P2P_LOCAL_GRAY_PEERLIST_LIMIT ple (m_peers_gray m)).
  destruct (updated_ok pe_adr last_seen P2P_LOCAL_GRAY_PEERLIST_LIMIT ple (m_peers_gray m)) as (H1 & H2 & H3 & H4); [done.. |].
  constructor; cbn [m_peers_white m_peers_gray m_peers_anchor]; try done.
  - intros a Hw [-> | Hin]%H4; [done | by apply (Hd a)].
  - intros a Hin. change (ip_allowed ever (na_ip a) = true). rewrite !elem_of_app in Hin.
    destruct Hin as [Hin | [[-> | Hin]%H4 | Hin]]; [apply Ha; rewrite !elem_of_app; tauto | done | apply Ha; rewrite !elem_of_app; tauto..].
Qed.

Lemma anchor_ok ever ple m : peers_ok ever m -> peers_ok ever (append_with_peer_anchor ple m).
Proof.
  intros [Hset Hwu Hgu Hau Hws Hgs Has Hwl Hgl Hd Ha]. unfold append_with_peer_anchor.
  destruct (is_ip_allowed m (na_ip (ap_adr ple))) eqn:Eip; [| by constructor]. pose proof (allowed_ever ever m _ Hset Eip) as Hip.
  unfold mi_insert. destruct (mi_find ap_adr (ap_adr ple) (m_peers_anchor m)) as [x |] eqn:Ef; [by constructor |]. apply mi_find_None in Ef.
  assert (Hp : map ap_adr (insert_time first_seen ple (m_peers_anchor m)) ≡ₚ ap_adr ple :: map ap_adr (m_peers_anchor m)) by (rewrite insert_time_perm; done).
  constructor; cbn [m_peers_white m_peers_gray m_peers_anchor]; try done.
  - rewrite Hp. by constructor.
  - by apply insert_time_sorted.
  - intros a Hin. change (ip_allowed ever (na_ip a) = true). rewrite Hp, !elem_of_app, elem_of_cons in Hin.
    destruct Hin as [Hin | [Hin | [-> | Hin]]]; [apply Ha; rewrite !elem_of_app; tauto.. | done | apply Ha; rewrite !elem_of_app; tauto].
Qed.

Lemma trim_gray_ok ever m : peers_ok ever m -> peers_ok ever (trim_gray_peerlist m).
Proof.
  intros [Hset Hwu Hgu Hau Hws Hgs Has Hwl Hgl Hd Ha]. unfold trim_gray_peerlist.
  assert (Hsub : forall a, a ∈ map pe_adr (trim P2P_LOCAL_GRAY_PEERLIST_LIMIT (m_peers_gray m)) -> a ∈ map pe_adr (m_peers_gray m)).
  { intros a (x & -> & Hx%trim_subset)%list_elem_of_fmap. by apply list_elem_of_fmap_2. }
  constructor; cbn [m_peers_white m_peers_gray m_peers_anchor]; try done.
  - by apply trim_NoDup.
  - by apply trim_sorted.
  - apply trim_length.
  - intros a Hw Hg%Hsub. by apply (Hd a).
  - intros a Hin. change (ip_allowed ever (na_ip a) = true). apply Ha. rewrite !elem_of_app in *. destruct Hin as [? | [?%Hsub | ?]]; tauto.
Qed.

Lemma merge_ok ever outer_bs m : peers_ok ever m -> peers_ok ever (merge_peerlist outer_bs m).
Proof.
  intros Hm. unfold merge_peerlist. apply trim_gray_ok. revert m Hm. induction outer_bs as [| be outer_bs IH]; intros m Hm; [done |].
  cbn [foldl]. apply IH, gray_ok, Hm.
Qed.

Lemma remove_anchor_ok ever a m : peers_ok ever m -> peers_ok ever (remove_from_peer_anchor a m).
Proof.
  intros [Hset Hwu Hgu Hau Hws Hgs Has Hwl Hgl Hd Ha]. destruct (mi_erase_ok ap_adr a (m_peers_anchor m)) as (H5 & H6 & H7); [done |].
  constructor; cbn [remove_from_peer_anchor m_peers_white m_peers_gray m_peers_anchor]; try done.
  - by apply mi_erase_sorted.
  - intros b Hin. change (ip_allowed ever (na_ip b) = true). apply Ha. rewrite !elem_of_app, H7 in *. tauto.
Qed.

Lemma empty_anchor_ok ever m : peers_ok ever m -> peers_ok ever (get_and_empty_anchor_peerlist m).2.
Proof.
  intros [Hset Hwu Hgu Hau Hws Hgs Has Hwl Hgl Hd Ha]. constructor; cbn [get_and_empty_anchor_peerlist snd m_peers_white m_peers_gray m_peers_anchor]; try done.
  - constructor.
  - constructor.
  - intros b Hin. change (ip_allowed ever (na_ip b) = true). apply Ha. rewrite !elem_of_app in *. cbn [map] in Hin. rewrite elem_of_nil in Hin. tauto.
Qed.

Lemma no_peers_ok b : peers_ok b (no_peers b).
Proof. constructor; cbn; try done; try (by constructor); try lia; intros a Ha; by apply not_elem_of_nil in Ha. Qed.

#[export] Hint Resolve white_ok gray_ok anchor_ok merge_ok remove_anchor_ok empty_anchor_ok no_peers_ok : fuego.

(** What is done to the lists. *)
Inductive peer_step : PeerlistManager -> PeerlistManager -> Prop :=
| ps_white m ple : peer_step m (append_with_peer_white ple m)
| ps_gray m ple : peer_step m (append_with_peer_gray ple m)
| ps_anchor m ple : peer_step m (append_with_peer_anchor ple m)
| ps_seen m now peer ip port : peer_step m (set_peer_just_seen now peer ip port m)
| ps_remote m now local_time peers m' : handle_remote_peerlist now local_time peers m = Some m' -> peer_step m m'
| ps_empty m : peer_step m (get_and_empty_anchor_peerlist m).2
| ps_remove m a : peer_step m (remove_from_peer_anchor a m).

Lemma peer_step_ok ever m m' : peer_step m m' -> peers_ok ever m -> peers_ok ever m'.
Proof.
  destruct 1 as [m ple | m ple | m ple | m now peer ip port | m now local_time peers m' Hr | m | m a]; intros Hm; eauto with fuego.
  unfold handle_remote_peerlist in Hr. destruct (fix_time_delta now local_time peers); [| discriminate].
  injection Hr as <-. by apply merge_ok.
Qed.

(** A node without peers, what happens to its lists, and restarts; the index says whether private addresses were ever allowed. *)
Inductive peer_reach : bool -> PeerlistManager -> Prop :=
| pr_first allow : peer_reach allow (no_peers allow)
| pr_step ever m m' : peer_reach ever m -> peer_step m m' -> peer_reach ever m'
| pr_restart ever allow m : peer_reach ever m -> peer_reach (ever || allow) (restart allow m).

Lemma ip_allowed_more ever allow ip : ip_allowed ever ip = true -> ip_allowed (ever || allow) ip = true.
Proof. unfold ip_allowed. destruct (isLoopback _), (isPrivate _), ever, allow; done. Qed.

Lemma restart_ok ever allow m : peers_ok ever m -> peers_ok (ever || allow) (restart allow m).
Proof.
  intros [Hset Hwu Hgu Hau Hws Hgs Has Hwl Hgl Hd Ha].
  destruct (read_written pe_adr last_seen (m_peers_white m) Hwu) as [Pw Sw]. destruct (read_written pe_adr last_seen (m_peers_gray m) Hgu) as [Pg Sg].
  destruct (read_written ap_adr first_seen (m_peers_anchor m) Hau) as [Pa Sa].
  unfold restart, init, serialize_input, serialize_output. cbn [stp_version stp_whitelist stp_graylist stp_anchorlist]. rewrite Z.eqb_refl. cbn [negb].
  constructor; cbn [no_peers m_allow_local_ip m_peers_white m_peers_gray m_peers_anchor]; try done.
  - intros ->. apply orb_true_r.
  - by rewrite Pw.
  - by rewrite Pg.
  - by rewrite Pa.
  - by rewrite Pw.
  - by rewrite Pg.
  - intros a. rewrite Pw, Pg. apply Hd.
  - intros a. rewrite Pw, Pg, Pa. intros Hin. by apply ip_allowed_more, Ha.
Qed.

Lemma peer_reach_ok ever m : peer_reach ever m -> peers_ok ever m.
Proof. induction 1; eauto using no_peers_ok, peer_step_ok, restart_ok. Qed.

(** * What is sent to a peer *)

Lemma head_loop_length depth cnt peers :
  0 <= cnt -> cnt <= depth + 1 -> depth + 1 < 2 ^ 32 ->
  Z.of_nat (length (head_loop depth cnt peers)) = Z.min (depth + 2 - cnt) (Z.of_nat (length (filter (fun p => last_seen p <> 0) peers))).
Proof.
  revert cnt. induction peers as [| p peers IH]; intros cnt Hc Hd Hm; cbn [head_loop]; [cbn; lia |].
  rewrite filter_cons. destruct (Z.eqb_spec (last_seen p) 0) as [E | Hne]; [rewrite decide_False by tauto; by apply IH |].
  rewrite decide_True by done. cbn [length]. destruct (Z.ltb_spec depth cnt); cbn [length]; [lia |].
  rewrite Nat2Z.inj_succ, (u32_small (cnt + 1)), IH by lia. rewrite Nat2Z.inj_succ. lia.
Qed.

(** * The theorems *)

(** C36: whatever is done to the lists of peers, over restarts with the file that the node wrote, the white and the gray list keep within 1000 and 5000
    entries, all three lists are ordered by time and hold no address twice, no address is both white and gray (one may be an anchor as well), no address is a loopback address,
    and none is private unless some run of the node allowed that. *)
Theorem peers_invariant ever m : peer_reach ever m -> peers_ok ever m.
Proof. apply peer_reach_ok. Qed.

Lemma peers_invariant_witness :
  exists m, peer_reach false m /\ length (m_peers_white m) = 1%nat /\ length (m_peers_gray m) = 1%nat /\ peers_ok false m.
Proof.
  pose (m1 := append_with_peer_white (mkPeer (mkNetworkAddress 0x04030201 10808) 7 50) (no_peers false)).
  pose (m2 := append_with_peer_gray (mkPeer (mkNetworkAddress 0x04030202 10808) 8 60) (restart false m1)).
  assert (Hr : peer_reach false m2).
  { eapply pr_step; [| apply ps_gray]. apply (pr_restart false false m1). eapply pr_step; [apply pr_first | apply ps_white]. }
  exists m2. split; [exact Hr |]. split; [vm_compute; reflexivity |]. split; [vm_compute; reflexivity |].
  exact (peers_invariant false m2 Hr).
Defined.

(** A private address that one run allowed is still there in a later run that does not allow it: the lists of the file are not filtered. *)
Example private_peer_survives :
  let m := restart false (append_with_peer_white (mkPeer (mkNetworkAddress 0x0100A8C0 10808) 7 50) (no_peers true)) in
  map (fun p => is_ip_allowed m (na_ip (pe_adr p))) (m_peers_white m) = [false].
Proof. vm_compute. reflexivity. Qed.

(** The list that is sent in a handshake holds up to two peers more than [depth], the white peers with a time of which there are that many. *)
Theorem peerlist_head_is_two_longer m depth :
  0 <= depth < 2 ^ 32 - 1 ->
  Z.of_nat (length (get_peerlist_head m depth)) = Z.min (depth + 2) (Z.of_nat (length (filter (fun p => last_seen p <> 0) (m_peers_white m)))).
Proof.
  intros Hd. unfold get_peerlist_head. rewrite head_loop_length by lia.
  rewrite Z.sub_0_r. f_equal. f_equal. apply Permutation_length. by rewrite reverse_Permutation.
Qed.

(** The correction of times wraps: an entry that a peer never saw gets a time in the far future when the peer's clock is one second ahead. *)
Theorem time_delta_wraps now a id :
  0 <= now < 2 ^ 63 - 1 ->
  fix_time_delta now (now + 1) [mkPeer a id 0] = Some [mkPeer a id (2 ^ 64 - 1)].
Proof.
  intros Hn. cbn [fix_time_delta last_seen]. rewrite (u64_small (now + 1)) by lia.
  destruct (Z.ltb_spec (now + 1) 0); [lia |]. cbn. replace (now - (now + 1)) with (-1) by lia. reflexivity.
Qed.
