(* ===== verification/P2pTypes.v ===== *)
(** The data of the peer-to-peer layer: the context of a connection ([src/src/P2p/ConnectionContext.h],
    [NetNode.h]), the notifications ([src/src/CryptoNoteProtocol/CryptoNoteProtocolDefinitions.h]), the state of
    [CryptoNoteProtocolHandler] together with what [NodeServer] keeps beside the connections (the blocked hosts and the lists of peers), and the monad in which the
    handlers are written.

    [Reply] is the answer to a handshake or a timed synchronisation.

    The core is used through the class [Core], the part of [ICore] that the handlers call.  Blobs and hashes are used
    through the class [Format]; [node_format] is the instance of the node.  Notifications that are posted, relayed or
    given to observers are collected in [sent], in their order; encoding them is left out. *)

From S2P Require Import Prelude Types Serialization Chain TransactionPool PeerList.

(** * Constants of [CryptoNoteConfig.h] *)

Definition BLOCKS_IDS_SYNCHRONIZING_DEFAULT_COUNT : Z := 10000.
Definition BLOCKS_SYNCHRONIZING_DEFAULT_COUNT : nat := 128.
Definition P2P_VERSION_1 : Z := 1.
Definition P2P_CURRENT_VERSION : Z := 1.
Definition P2P_MINIMUM_VERSION : Z := 1.
Definition P2P_LITE_BLOCKS_PROPOGATION_VERSION : Z := 3.
Definition P2P_IP_BLOCKTIME : Z := 60 * 60 * 24.
Definition P2P_IP_FAILS_BEFORE_BLOCK : Z := 45.

(** * The notifications *)

Record block_complete_entry := mkCompleteEntry { ce_block : bytes; ce_txs : list bytes }.

Record NOTIFY_NEW_BLOCK_request := mkNewBlock {
  nb_b : block_complete_entry;
  nb_current_blockchain_height : Z;
  nb_hop : Z
}.

Record NOTIFY_NEW_LITE_BLOCK_request := mkNewLiteBlock {
  lb_block : bytes;
  lb_current_blockchain_height : Z;
  lb_hop : Z
}.

Record NOTIFY_RESPONSE_GET_OBJECTS_request := mkResponseGetObjects {
  go_txs : list bytes;
  go_blocks : list block_complete_entry;
  go_missed_ids : list Hash;
  go_current_blockchain_height : Z
}.

Record NOTIFY_RESPONSE_CHAIN_ENTRY_request := mkResponseChainEntry {
  start_height : Z;
  total_height : Z;
  m_block_ids : list Hash
}.

Inductive Notification :=
| NOTIFY_NEW_BLOCK (arg : NOTIFY_NEW_BLOCK_request)
| NOTIFY_NEW_TRANSACTIONS (txs : list bytes)
| NOTIFY_REQUEST_GET_OBJECTS (txs blocks : list Hash)
| NOTIFY_RESPONSE_GET_OBJECTS (arg : NOTIFY_RESPONSE_GET_OBJECTS_request)
| NOTIFY_REQUEST_CHAIN (block_ids : list Hash)
| NOTIFY_RESPONSE_CHAIN_ENTRY (arg : NOTIFY_RESPONSE_CHAIN_ENTRY_request)
| NOTIFY_REQUEST_TX_POOL (txs : list Hash)
| NOTIFY_NEW_LITE_BLOCK (arg : NOTIFY_NEW_LITE_BLOCK_request)
| NOTIFY_MISSING_TXS (blockHash : Hash) (current_blockchain_height : Z) (missing_txs : list Hash).

(** * Connections *)

Inductive ConnectionState :=
| state_befor_handshake
| state_synchronizing
| state_idle
| state_normal
| state_sync_required
| state_pool_sync_required
| state_shutdown.

#[export] Instance ConnectionState_eq_dec : EqDecision ConnectionState.
Proof. solve_decision. Defined.

Record PendingLiteBlock := mkPendingLiteBlock {
  pl_request : NOTIFY_NEW_LITE_BLOCK_request;
  missed_transactions : gset Hash
}.

(** [CryptoNoteConnectionContext] with the [peerId] of [P2pConnectionContext]; a [uuid] is a number. *)
Record Connection := mkConnection {
  version : Z;
  m_connection_id : Z;
  m_remote_ip : Z;
  m_remote_port : Z;
  m_is_income : bool;
  peerId : Z;
  m_state : ConnectionState;
  m_pending_lite_block : option PendingLiteBlock;
  m_needed_objects : list Hash;
  m_requested_objects : gset Hash;
  m_remote_blockchain_height : Z;
  m_last_response_height : Z
}.

(** The context of a connection that was just accepted or opened. *)
Definition new_connection (id ip port : Z) (income : bool) : Connection :=
  mkConnection 0 id ip port income 0 state_befor_handshake None [] ∅ 0 0.

Definition with_version (v : Z) (c : Connection) : Connection :=
  mkConnection v (m_connection_id c) (m_remote_ip c) (m_remote_port c) (m_is_income c) (peerId c) (m_state c) (m_pending_lite_block c)
    (m_needed_objects c) (m_requested_objects c) (m_remote_blockchain_height c) (m_last_response_height c).
Definition with_peerId (p : Z) (c : Connection) : Connection :=
  mkConnection (version c) (m_connection_id c) (m_remote_ip c) (m_remote_port c) (m_is_income c) p (m_state c) (m_pending_lite_block c)
    (m_needed_objects c) (m_requested_objects c) (m_remote_blockchain_height c) (m_last_response_height c).
Definition with_state (s : ConnectionState) (c : Connection) : Connection :=
  mkConnection (version c) (m_connection_id c) (m_remote_ip c) (m_remote_port c) (m_is_income c) (peerId c) s (m_pending_lite_block c)
    (m_needed_objects c) (m_requested_objects c) (m_remote_blockchain_height c) (m_last_response_height c).
Definition with_pending (p : option PendingLiteBlock) (c : Connection) : Connection :=
  mkConnection (version c) (m_connection_id c) (m_remote_ip c) (m_remote_port c) (m_is_income c) (peerId c) (m_state c) p
    (m_needed_objects c) (m_requested_objects c) (m_remote_blockchain_height c) (m_last_response_height c).
Definition with_objects (needed : list Hash) (requested : gset Hash) (c : Connection) : Connection :=
  mkConnection (version c) (m_connection_id c) (m_remote_ip c) (m_remote_port c) (m_is_income c) (peerId c) (m_state c) (m_pending_lite_block c)
    needed requested (m_remote_blockchain_height c) (m_last_response_height c).
Definition with_remote (h : Z) (c : Connection) : Connection :=
  mkConnection (version c) (m_connection_id c) (m_remote_ip c) (m_remote_port c) (m_is_income c) (peerId c) (m_state c) (m_pending_lite_block c)
    (m_needed_objects c) (m_requested_objects c) h (m_last_response_height c).
Definition with_response (h : Z) (c : Connection) : Connection :=
  mkConnection (version c) (m_connection_id c) (m_remote_ip c) (m_remote_port c) (m_is_income c) (peerId c) (m_state c) (m_pending_lite_block c)
    (m_needed_objects c) (m_requested_objects c) (m_remote_blockchain_height c) h.

(** * The core and the formats *)

Record block_verification_context := mkBvc {
  m_added_to_main_chain : bool;
  bv_verification_failed : bool;
  m_marked_as_orphaned : bool;
  m_already_exists : bool;
  m_switched_to_alt_chain : bool
}.

(** [ICore]: only the calls of the handlers.  Blocks are passed with [relay_block = false]; the flag
    [control_miner] and the calls that pause and resume the miner concern the miner only and are left out.
    [getTransaction] and [getTransactions] look into the pool too. *)
Class Core (K : Type) := {
  have_block : K -> Hash -> bool;
  get_blockchain_top : K -> Z * Hash;
  buildSparseChain : K -> outcome (list Hash);
  getBlockIdByHeight : K -> Z -> outcome Hash;
  findBlockchainSupplement : K -> list Hash -> Z -> outcome (NOTIFY_RESPONSE_CHAIN_ENTRY_request);
  handle_get_objects : K -> list Hash -> list Hash -> outcome (bool * NOTIFY_RESPONSE_GET_OBJECTS_request);
  handle_incoming_tx : bytes -> bool -> K -> outcome (tx_verification_context * K);
  handle_incoming_block : Block -> K -> outcome (block_verification_context * K);
  handle_incoming_block_blob : bytes -> K -> outcome (block_verification_context * K);
  getPoolTransactions : K -> list Transaction;
  getPoolChanges : K -> list Hash -> outcome (list Transaction);
  getTransaction : K -> Hash -> outcome (option Transaction);
  getTransactions : K -> list Hash -> outcome (list Transaction * list Hash)
}.

Class Format := {
  parse_block : bytes -> option Block;
  block_id : Block -> outcome Hash;
  blob_id : bytes -> Hash;
  tx_blob : Transaction -> bytes;
  tx_id : Transaction -> Hash
}.

(** The formats of the node.  A block is read into a variable that holds [b0]; the transactions that are written
    were read before. *)
Definition node_format (b0 : Block) : Format := {|
  parse_block := blockFromBinaryArray b0;
  block_id := block_hash;
  blob_id := getBinaryArrayHash;
  tx_blob tx := default [] (toBinaryArray tx);
  tx_id := getObjectHash
|}.

(** * The state of a node *)

(** What the node sends, and what it tells its observers. *)
Inductive Sent :=
| Post (id : Z) (n : Notification)
| RelayToAll (n : Notification) (excludeConnection : option Z)
| RelayToList (n : Notification) (relayList : list Z)
| ObservedHeight (h : Z)
| PeerCount (n : Z)
| Synchronized (height : Z)
| Reply (id : Z) (local_peerlist : list PeerlistEntry) (payload_data : Z * Hash).

(** The members of [CryptoNoteProtocolHandler], the core, and the connections and blocked hosts of [NodeServer].
    The context of the connection that is being served is passed beside it. *)
Record Handler (K : Type) := mkHandler {
  m_core : K;
  m_synchronized : bool;
  m_stop : bool;
  m_observedHeight : Z;
  m_peersCount : Z;
  m_connections : gmap Z Connection;
  m_host_fails_score : gmap Z Z;
  m_blocked_hosts : gmap Z Z;
  m_peerlist : PeerlistManager;
  sent : list Sent
}.
Arguments mkHandler {K}.
Arguments m_core {K}.
Arguments m_synchronized {K}.
Arguments m_stop {K}.
Arguments m_observedHeight {K}.
Arguments m_peersCount {K}.
Arguments m_connections {K}.
Arguments m_host_fails_score {K}.
Arguments m_blocked_hosts {K}.
Arguments m_peerlist {K}.
Arguments sent {K}.

Section Updates.
Context {K : Type}.
Implicit Type h : Handler K.

Definition with_core (k : K) h : Handler K :=
  mkHandler k (m_synchronized h) (m_stop h) (m_observedHeight h) (m_peersCount h) (m_connections h) (m_host_fails_score h) (m_blocked_hosts h) (m_peerlist h) (sent h).
Definition with_synchronized (b : bool) h : Handler K :=
  mkHandler (m_core h) b (m_stop h) (m_observedHeight h) (m_peersCount h) (m_connections h) (m_host_fails_score h) (m_blocked_hosts h) (m_peerlist h) (sent h).
Definition with_observed (z : Z) h : Handler K :=
  mkHandler (m_core h) (m_synchronized h) (m_stop h) z (m_peersCount h) (m_connections h) (m_host_fails_score h) (m_blocked_hosts h) (m_peerlist h) (sent h).
Definition with_peers (z : Z) h : Handler K :=
  mkHandler (m_core h) (m_synchronized h) (m_stop h) (m_observedHeight h) z (m_connections h) (m_host_fails_score h) (m_blocked_hosts h) (m_peerlist h) (sent h).
Definition with_connections (cs : gmap Z Connection) h : Handler K :=
  mkHandler (m_core h) (m_synchronized h) (m_stop h) (m_observedHeight h) (m_peersCount h) cs (m_host_fails_score h) (m_blocked_hosts h) (m_peerlist h) (sent h).
Definition with_hosts (fails blocked : gmap Z Z) h : Handler K :=
  mkHandler (m_core h) (m_synchronized h) (m_stop h) (m_observedHeight h) (m_peersCount h) (m_connections h) fails blocked (m_peerlist h) (sent h).
Definition with_sent (l : list Sent) h : Handler K :=
  mkHandler (m_core h) (m_synchronized h) (m_stop h) (m_observedHeight h) (m_peersCount h) (m_connections h) (m_host_fails_score h) (m_blocked_hosts h) (m_peerlist h) l.
Definition with_peerlist (f : PeerlistManager -> PeerlistManager) h : Handler K :=
  mkHandler (m_core h) (m_synchronized h) (m_stop h) (m_observedHeight h) (m_peersCount h) (m_connections h) (m_host_fails_score h) (m_blocked_hosts h) (f (m_peerlist h)) (sent h).
End Updates.

(** A computation that is known to return, with a test of the value. *)
Lemma returns {A} (p : A -> bool) (o : outcome A) :
  match o with Ret a => p a | _ => false end = true -> exists a, o = Ret a /\ p a = true.
Proof. destruct o as [a | | |]; try discriminate. by exists a. Qed.

(** * The monad of the handlers *)

(** The connection being served and the handler are threaded through; [Ret] or a failure of [outcome]. *)
Definition M (K A : Type) : Type := Connection * Handler K -> outcome (A * (Connection * Handler K)).

#[export] Instance M_ret K : MRet (M K) := fun A a s => Ret (a, s).
#[export] Instance M_bind K : MBind (M K) := fun A B f m s => '(a, s) ← m s; f a s.

Section Monad.
Context {K : Type}.

Definition context : M K Connection := fun s => Ret (s.1, s).
Definition handler : M K (Handler K) := fun s => Ret (s.2, s).
Definition set_context (f : Connection -> Connection) : M K unit := fun s => Ret (tt, (f s.1, s.2)).
Definition set_handler (f : Handler K -> Handler K) : M K unit := fun s => Ret (tt, (s.1, f s.2)).
Definition emit (e : Sent) : M K unit := set_handler (fun h => with_sent (sent h ++ [e]) h).

(** A question to the core, and a call that changes it. *)
Definition ask {A} (f : K -> outcome A) : M K A := fun s => a ← f (m_core s.2); Ret (a, s).
Definition call {A} (f : K -> outcome (A * K)) : M K A :=
  fun s => '(a, k) ← f (m_core s.2); Ret (a, (s.1, with_core k s.2)).
Definition lift {A} (o : outcome A) : M K A := fun s => a ← o; Ret (a, s).

(** [wp m Q s]: if [m] returns from [s], then [Q] holds of what it returns. *)
Definition wp {A} (m : M K A) (Q : A -> Connection -> Handler K -> Prop) (s : Connection * Handler K) : Prop :=
  match m s with Ret (a, s') => Q a s'.1 s'.2 | _ => True end.

Lemma wp_ret {A} (a : A) (Q : A -> Connection -> Handler K -> Prop) s : Q a s.1 s.2 -> wp (mret a) Q s.
Proof. exact id. Qed.

Lemma wp_bind {A B} (m : M K A) (f : A -> M K B) Q s :
  wp m (fun a c h => wp (f a) Q (c, h)) s -> wp (m ≫= f) Q s.
Proof.
  unfold wp. change ((m ≫= f) s) with (match m s with Ret a => let '(a, s) := a in f a s | AssertFail => AssertFail | Undefined => Undefined | Throw e => Throw e end).
  destruct (m s) as [[a [c h]] | | |]; auto.
Qed.

Lemma wp_mono {A} (m : M K A) (Q Q' : A -> Connection -> Handler K -> Prop) s :
  wp m Q s -> (forall a c h, Q a c h -> Q' a c h) -> wp m Q' s.
Proof. unfold wp. destruct (m s) as [[a [c h]] | | |]; auto. Qed.

Lemma wp_if {A} (b : bool) (m n : M K A) Q s :
  (b = true -> wp m Q s) -> (b = false -> wp n Q s) -> wp (if b then m else n) Q s.
Proof. destruct b; auto. Qed.

Lemma wp_context (Q : Connection -> Connection -> Handler K -> Prop) s : Q s.1 s.1 s.2 -> wp context Q s.
Proof. exact id. Qed.

Lemma wp_handler (Q : Handler K -> Connection -> Handler K -> Prop) s : Q s.2 s.1 s.2 -> wp handler Q s.
Proof. exact id. Qed.

Lemma wp_set_context f (Q : unit -> Connection -> Handler K -> Prop) s : Q tt (f s.1) s.2 -> wp (set_context f) Q s.
Proof. exact id. Qed.

Lemma wp_set_handler f (Q : unit -> Connection -> Handler K -> Prop) s : Q tt s.1 (f s.2) -> wp (set_handler f) Q s.
Proof. exact id. Qed.

Lemma wp_ask {A} (f : K -> outcome A) (Q : A -> Connection -> Handler K -> Prop) s :
  (forall a, f (m_core s.2) = Ret a -> Q a s.1 s.2) -> wp (ask f) Q s.
Proof. unfold wp, ask. destruct (f (m_core s.2)); simpl; auto. Qed.

Lemma wp_call {A} (f : K -> outcome (A * K)) (Q : A -> Connection -> Handler K -> Prop) s :
  (forall a k, f (m_core s.2) = Ret (a, k) -> Q a s.1 (with_core k s.2)) -> wp (call f) Q s.
Proof. unfold wp, call. destruct (f (m_core s.2)) as [[a k] | | |]; simpl; auto. Qed.

Lemma wp_lift {A} (o : outcome A) (Q : A -> Connection -> Handler K -> Prop) s :
  (forall a, o = Ret a -> Q a s.1 s.2) -> wp (lift o) Q s.
Proof. unfold wp, lift. destruct o; simpl; auto. Qed.

(** What [wp] says of a run. *)
Lemma wp_run {A} (m : M K A) Q s a c h : wp m Q s -> m s = Ret (a, (c, h)) -> Q a c h.
Proof. unfold wp. intros Hwp E. rewrite E in Hwp. exact Hwp. Qed.

(** [twp m Q s]: [m] does return from [s], and [Q] holds of what it returns. *)
Definition twp {A} (m : M K A) (Q : A -> Connection -> Handler K -> Prop) (s : Connection * Handler K) : Prop :=
  exists a c h, m s = Ret (a, (c, h)) /\ Q a c h.

Lemma twp_ret {A} (a : A) (Q : A -> Connection -> Handler K -> Prop) s : Q a s.1 s.2 -> twp (mret a) Q s.
Proof. destruct s as [c h]. intros HQ. by exists a, c, h. Qed.

Lemma twp_bind {A B} (m : M K A) (f : A -> M K B) Q s :
  twp m (fun a c h => twp (f a) Q (c, h)) s -> twp (m ≫= f) Q s.
Proof.
  intros (a & c & h & Em & b & c' & h' & Ef & HQ). exists b, c', h'. split; [| exact HQ].
  change ((m ≫= f) s) with (match m s with Ret a => let '(a, s) := a in f a s | AssertFail => AssertFail | Undefined => Undefined | Throw e => Throw e end).
  by rewrite Em.
Qed.

Lemma twp_mono {A} (m : M K A) (Q Q' : A -> Connection -> Handler K -> Prop) s :
  twp m Q s -> (forall a c h, Q a c h -> Q' a c h) -> twp m Q' s.
Proof. intros (a & c & h & E & HQ) HQQ. exists a, c, h. auto. Qed.

Lemma twp_if {A} (b : bool) (m n : M K A) Q s :
  (b = true -> twp m Q s) -> (b = false -> twp n Q s) -> twp (if b then m else n) Q s.
Proof. destruct b; auto. Qed.

Lemma twp_context (Q : Connection -> Connection -> Handler K -> Prop) s : Q s.1 s.1 s.2 -> twp context Q s.
Proof. destruct s as [c h]. intros HQ. by exists c, c, h. Qed.

Lemma twp_handler (Q : Handler K -> Connection -> Handler K -> Prop) s : Q s.2 s.1 s.2 -> twp handler Q s.
Proof. destruct s as [c h]. intros HQ. by exists h, c, h. Qed.

Lemma twp_set_context f (Q : unit -> Connection -> Handler K -> Prop) s : Q tt (f s.1) s.2 -> twp (set_context f) Q s.
Proof. destruct s as [c h]. intros HQ. by exists tt, (f c), h. Qed.

Lemma twp_set_handler f (Q : unit -> Connection -> Handler K -> Prop) s : Q tt s.1 (f s.2) -> twp (set_handler f) Q s.
Proof. destruct s as [c h]. intros HQ. by exists tt, c, (f h). Qed.

Lemma twp_ask {A} (f : K -> outcome A) a (Q : A -> Connection -> Handler K -> Prop) s :
  f (m_core s.2) = Ret a -> Q a s.1 s.2 -> twp (ask f) Q s.
Proof. destruct s as [c h]. cbn [fst snd]. intros E HQ. exists a, c, h. split; [| done]. unfold ask. cbn [snd]. by rewrite E. Qed.

Lemma twp_call {A} (f : K -> outcome (A * K)) a k (Q : A -> Connection -> Handler K -> Prop) s :
  f (m_core s.2) = Ret (a, k) -> Q a s.1 (with_core k s.2) -> twp (call f) Q s.
Proof. destruct s as [c h]. cbn [fst snd]. intros E HQ. exists a, c, (with_core k h). split; [| done]. unfold call. cbn [fst snd]. by rewrite E. Qed.

Lemma twp_lift {A} (o : outcome A) a (Q : A -> Connection -> Handler K -> Prop) s :
  o = Ret a -> Q a s.1 s.2 -> twp (lift o) Q s.
Proof. destruct s as [c h]. intros -> HQ. by exists a, c, h. Qed.
End Monad.

(** One step of a handler, symbolically. *)
Ltac wp_step :=
  lazymatch goal with
  | |- wp (mbind _ _) _ _ => apply wp_bind
  | |- wp (mret _) _ _ => apply wp_ret
  | |- wp context _ _ => apply wp_context
  | |- wp handler _ _ => apply wp_handler
  | |- wp (set_context _) _ _ => apply wp_set_context
  | |- wp (set_handler _) _ _ => apply wp_set_handler
  | |- wp (emit _) _ _ => apply wp_set_handler
  | |- wp (ask _) _ _ => apply wp_ask; let a := fresh "a" in let Ha := fresh "Hask" in intros a Ha
  | |- wp (call _) _ _ => apply wp_call; let a := fresh "a" in let k := fresh "k" in let Hk := fresh "Hcall" in intros a k Hk
  | |- wp (lift _) _ _ => apply wp_lift; let a := fresh "a" in let Ha := fresh "Hlift" in intros a Ha
  | |- wp (if _ then _ else _) _ _ => apply wp_if; let E := fresh "Eif" in intros E
  end; cbv beta; cbn [fst snd].

Ltac twp_step :=
  lazymatch goal with
  | |- twp (mbind _ _) _ _ => apply twp_bind
  | |- twp (mret _) _ _ => apply twp_ret
  | |- twp context _ _ => apply twp_context
  | |- twp handler _ _ => apply twp_handler
  | |- twp (set_context _) _ _ => apply twp_set_context
  | |- twp (set_handler _) _ _ => apply twp_set_handler
  | |- twp (emit _) _ _ => apply twp_set_handler
  | |- twp (if _ then _ else _) _ _ => apply twp_if; let E := fresh "Eif" in intros E
  end; cbv beta; cbn [fst snd].
