(* ===== verification/NetHosts.v ===== *)
(** What [NodeServer] ([src/src/P2p/NetNode.cpp]) does for the protocol handler: the failures and the blocking of hosts,
    dropping a connection, and which connections a notification is sent to. *)

From S2P Require Import Prelude Types P2pTypes.

Section NetHosts.
Context {K : Type}.
(** [time(nullptr)]. *)
Context (now : Z).

(** * Hosts *)

Definition shut_host (address_ip : Z) (c : Connection) : Connection :=
  if m_remote_ip c =? address_ip then with_state state_shutdown c else c.

(** The context that is being served is one of the connections. *)
Definition block_host (address_ip seconds : Z) : M K bool :=
  set_handler (fun h => with_hosts (m_host_fails_score h) (<[address_ip := now + seconds]> (m_blocked_hosts h))
                          (with_connections (shut_host address_ip <$> m_connections h) h)) ;;
  set_context (shut_host address_ip) ;;
  mret true.

Definition unblock_host (address_ip : Z) : M K bool :=
  h ← handler;
  match m_blocked_hosts h !! address_ip with
  | None => mret false
  | Some _ => set_handler (fun h => with_hosts (m_host_fails_score h) (delete address_ip (m_blocked_hosts h)) h) ;; mret true
  end.

Definition add_host_fail (address_ip : Z) : M K bool :=
  h ← handler;
  let fails := u64 (default 0 (m_host_fails_score h !! address_ip) + 1) in
  set_handler (fun h => with_hosts (<[address_ip := fails]> (m_host_fails_score h)) (m_blocked_hosts h) h) ;;
  if P2P_IP_FAILS_BEFORE_BLOCK <=? fails then
    set_handler (fun h => with_hosts (<[address_ip := P2P_IP_FAILS_BEFORE_BLOCK / 2]> (m_host_fails_score h)) (m_blocked_hosts h) h) ;;
    block_host address_ip P2P_IP_BLOCKTIME
  else mret true.

Definition is_addr_recently_failed (address_ip : Z) : M K bool :=
  h ← handler; mret (bool_decide (is_Some (m_host_fails_score h !! address_ip))).

Definition is_remote_host_allowed (address_ip : Z) : M K bool :=
  h ← handler;
  match m_blocked_hosts h !! address_ip with
  | None => mret true
  | Some limit => if limit <=? now then unblock_host address_ip else mret false
  end.

Definition drop_connection (add_fail : bool) : M K unit :=
  c ← context;
  (if add_fail then _ ← add_host_fail (m_remote_ip c); mret tt else mret tt) ;;
  set_context (with_state state_shutdown).

(** * Notifications *)

(** A connection that [relay_notify_to_all] and [externalRelayNotifyToList] write to. *)
Definition receives (c : Connection) : bool :=
  negb (peerId c =? 0) && (bool_decide (m_state c = state_normal) || bool_decide (m_state c = state_synchronizing)).

Definition relay_notify_to_all (conns : gmap Z Connection) (excludeConnection : option Z) : gmap Z Connection :=
  filter (fun p => receives p.2 && negb (bool_decide (Some (m_connection_id p.2) = excludeConnection)) = true) conns.

Definition externalRelayNotifyToList (conns : gmap Z Connection) (relayList : list Z) : gmap Z Connection :=
  filter (fun p => bool_decide (m_connection_id p.2 ∈ relayList) && receives p.2 = true) conns.

(** [post_notify]; it fails when the connection is gone. *)
Definition invoke_notify_to_peer (n : Notification) : M K bool :=
  c ← context;
  h ← handler;
  if bool_decide (is_Some (m_connections h !! m_connection_id c)) then emit (Post (m_connection_id c) n) ;; mret true
  else mret false.

Definition post (n : Notification) : M K unit := _ ← invoke_notify_to_peer n; mret tt.

(** * The connections *)

Definition is_addr_connected (conns : gmap Z Connection) (ip port : Z) : bool :=
  existsb (fun c => negb (m_is_income c) && (ip =? m_remote_ip c) && (port =? m_remote_port c)) (map snd (map_to_list conns)).

Definition is_peer_used (own_peer_id : Z) (conns : gmap Z Connection) (id ip port : Z) : bool :=
  (own_peer_id =? id)
  || existsb (fun c => (peerId c =? id) || (negb (m_is_income c) && (ip =? m_remote_ip c) && (port =? m_remote_port c)))
       (map snd (map_to_list conns)).

Definition get_connections_count (h : Handler K) : Z := Z.of_nat (size (m_connections h)).
Definition get_outgoing_connections_count (h : Handler K) : Z :=
  Z.of_nat (size (filter (fun p => m_is_income p.2 = false) (m_connections h))).
End NetHosts.
