(* ===== verification/ProtocolHandler.v ===== *)
(** [src/src/CryptoNoteProtocol/CryptoNoteProtocolHandler.cpp]: how a node exchanges blocks and transactions with a peer.
    Every handler is a computation of the monad [M] of [P2pTypes]; [return 1] ends it.

    [processObjects] gives the other fibres a turn after each block ([m_dispatcher.yield()]): what they do to the
    node, and whether the host of this connection is blocked meanwhile, is the parameter [others].  Log lines, locks and
    the miner are left out. *)

From stdpp Require Import gmap sets.
From S2P Require Import Prelude Types TransactionPool P2pTypes NetHosts.

Section ProtocolHandler.
Context {K : Type} `{Core K} `{Format}.
Context (others : Handler K -> Handler K * bool).
(** [time(nullptr)]. *)
Context (now : Z).

Definition shutdown : M K unit := set_context (with_state state_shutdown).

Definition yield : M K unit :=
  h ← handler;
  let '(h', blocked) := others h in
  set_handler (fun _ => h') ;;
  if (blocked : bool) then shutdown else mret tt.

(** * Heights of the peers *)

Definition get_current_blockchain_height (h : Handler K) : Z := (get_blockchain_top (m_core h)).1.

Definition recalculateMaxObservedHeight : M K unit :=
  c ← context;
  h ← handler;
  let peerHeight := map_fold (fun _ ctx acc => if m_connection_id ctx =? m_connection_id c then acc
                                               else Z.max acc (m_remote_blockchain_height ctx)) 0 (m_connections h) in
  let localHeight := get_current_blockchain_height h in
  set_handler (with_observed (if bool_decide (m_state c = state_normal) then localHeight
                              else Z.max peerHeight (u32 (localHeight + 1)))).

(** The observers are told when the height has changed. *)
Definition notify_if_changed (before : Z) : M K unit :=
  h ← handler;
  if m_observedHeight h =? before then mret tt else emit (ObservedHeight (m_observedHeight h)).

Definition updateObservedHeight (peerHeight : Z) : M K unit :=
  c ← context;
  h ← handler;
  let height := m_observedHeight h in
  (if m_remote_blockchain_height c <? peerHeight then set_handler (with_observed (Z.max height peerHeight))
   else if negb (peerHeight =? m_remote_blockchain_height c) && (m_remote_blockchain_height c =? height) then recalculateMaxObservedHeight
   else mret tt) ;;
  notify_if_changed height.

(** * Connections *)

Definition count_peers (delta : Z) : M K unit :=
  set_handler (fun h => with_peers (u64 (m_peersCount h + delta)) h) ;;
  h ← handler;
  emit (PeerCount (m_peersCount h)).

Definition onConnectionClosed : M K unit :=
  h ← handler;
  recalculateMaxObservedHeight ;;
  notify_if_changed (m_observedHeight h) ;;
  c ← context;
  if bool_decide (m_state c = state_befor_handshake) then mret tt else count_peers (- 1).

Definition request_chain : M K unit :=
  block_ids ← ask buildSparseChain;
  post (NOTIFY_REQUEST_CHAIN block_ids).

Definition start_sync : M K unit :=
  c ← context;
  if bool_decide (m_state c = state_synchronizing) then
    lift (assert_ (bool_decide (m_needed_objects c = []))) ;;
    lift (assert_ (bool_decide (m_requested_objects c = ∅))) ;;
    request_chain
  else mret tt.

Definition on_connection_synchronized : M K unit :=
  h ← handler;
  if m_synchronized h then mret tt
  else
    set_handler (with_synchronized true) ;;
    emit (Synchronized (get_current_blockchain_height h)).

Definition process_payload_sync_data (current_height : Z) (top_id : Hash) (is_inital : bool) : M K unit :=
  c ← context;
  h ← handler;
  if bool_decide (m_state c = state_befor_handshake) && negb is_inital then mret tt
  else
    (if bool_decide (m_state c = state_synchronizing) then mret tt
     else if have_block (m_core h) top_id then
       if is_inital then on_connection_synchronized ;; set_context (with_state state_pool_sync_required)
       else set_context (with_state state_normal)
     else set_context (with_state state_sync_required)) ;;
    updateObservedHeight current_height ;;
    set_context (with_remote current_height) ;;
    if is_inital then count_peers 1 else mret tt.

(** The height and the top block that are announced. *)
Definition get_payload_sync_data (h : Handler K) : Z * Hash :=
  let '(current_height, top_id) := get_blockchain_top (m_core h) in (u32 (current_height + 1), top_id).

Definition requestMissingPoolTransactions : M K unit :=
  c ← context;
  h ← handler;
  if version c <? P2P_VERSION_1 then mret tt
  else post (NOTIFY_REQUEST_TX_POOL (map tx_id (getPoolTransactions (m_core h)))).

(** * New blocks and transactions *)

(** The connections by the notification they understand. *)
Definition relay_block (arg : NOTIFY_NEW_BLOCK_request) : M K unit :=
  h ← handler;
  let ids p := map (fun kv => m_connection_id kv.2) (filter (fun kv => p (version kv.2) = true) (map_to_list (m_connections h))) in
  let liteBlockConnections := ids (fun v => P2P_LITE_BLOCKS_PROPOGATION_VERSION <=? v) in
  let normalBlockConnections := ids (fun v => v <? P2P_LITE_BLOCKS_PROPOGATION_VERSION) in
  let lite_arg := mkNewLiteBlock (ce_block (nb_b arg)) (nb_current_blockchain_height arg) (nb_hop arg) in
  (if bool_decide (liteBlockConnections = []) then mret tt else emit (RelayToList (NOTIFY_NEW_LITE_BLOCK lite_arg) liteBlockConnections)) ;;
  if bool_decide (normalBlockConnections = []) then mret tt else emit (RelayToAll (NOTIFY_NEW_BLOCK arg) None).

Definition relay_transactions (txs : list bytes) : M K unit := emit (RelayToAll (NOTIFY_NEW_TRANSACTIONS txs) None).

(** Transactions of a block, one after the other until one fails. *)
Fixpoint incoming_txs (txs : list bytes) : M K bool :=
  match txs with
  | [] => mret true
  | tx :: txs =>
      tvc ← call (handle_incoming_tx tx true);
      if m_verification_failed tvc then mret false else incoming_txs txs
  end.

(** What is done with a block that came with its transactions: [announce] sends it on. *)
Definition push_block (txs : list bytes) (block : bytes) (announce : M K unit) : M K unit :=
  ok ← incoming_txs txs;
  if (ok : bool) then
    bvc ← call (handle_incoming_block_blob block);
    if bv_verification_failed bvc then drop_connection now true
    else if m_added_to_main_chain bvc then
      announce ;;
      if m_switched_to_alt_chain bvc then requestMissingPoolTransactions else mret tt
    else if m_marked_as_orphaned bvc then
      set_context (with_state state_synchronizing) ;;
      request_chain
    else mret tt
  else drop_connection now true.

Definition handle_notify_new_block (arg : NOTIFY_NEW_BLOCK_request) : M K unit :=
  updateObservedHeight (nb_current_blockchain_height arg) ;;
  set_context (with_remote (nb_current_blockchain_height arg)) ;;
  c ← context;
  if bool_decide (m_state c = state_normal) then
    push_block (ce_txs (nb_b arg)) (ce_block (nb_b arg))
      (relay_block (mkNewBlock (nb_b arg) (nb_current_blockchain_height arg) (u32 (nb_hop arg + 1))))
  else mret tt.

(** ** Lite blocks *)

(** The transactions of the block that are known, and the hashes of the others. *)
Fixpoint find_txs (provided : gmap Hash bytes) (hashes : list Hash) : M K (list bytes * list Hash) :=
  match hashes with
  | [] => mret ([], [])
  | transactionHash :: hashes =>
      found ← (match provided !! transactionHash with
               | Some tx => mret (Some tx)
               | None => tx ← ask (fun k => getTransaction k transactionHash); mret (tx_blob <$> tx)
               end);
      '(have_txs, need_txs) ← find_txs provided hashes;
      match found with
      | Some tx => mret (tx :: have_txs, need_txs)
      | None => mret (have_txs, transactionHash :: need_txs)
      end
  end.

Definition provide (missingTxs : list bytes) : gmap Hash bytes :=
  foldl (fun m tx => <[blob_id tx := tx]> m) ∅ missingTxs.

Definition doPushLiteBlock (arg : NOTIFY_NEW_LITE_BLOCK_request) (missingTxs : list bytes) : M K unit :=
  match parse_block (lb_block arg) with
  | None => shutdown
  | Some b =>
      let provided_txs := provide missingTxs in
      c ← context;
      let unanswered := match m_pending_lite_block c with
                        | None => false
                        | Some p => existsb (fun h => bool_decide (provided_txs !! h = None)) (elements (missed_transactions p))
                        end in
      if unanswered then set_context (with_pending None) ;; shutdown
      else
        '(have_txs, need_txs) ← find_txs provided_txs (b_transactionHashes b);
        if bool_decide (need_txs = []) then
          set_context (with_pending None) ;;
          push_block have_txs (lb_block arg)
            (emit (RelayToAll (NOTIFY_NEW_LITE_BLOCK (mkNewLiteBlock (lb_block arg) (lb_current_blockchain_height arg) (u32 (lb_hop arg + 1))))
                     (Some (m_connection_id c))))
        else if bool_decide (is_Some (m_pending_lite_block c)) then set_context (with_pending None) ;; shutdown
        else
          blockHash ← lift (block_id b);
          set_context (with_pending (Some (mkPendingLiteBlock arg (list_to_set need_txs)))) ;;
          ok ← invoke_notify_to_peer (NOTIFY_MISSING_TXS blockHash (lb_current_blockchain_height arg) need_txs);
          if (ok : bool) then mret tt else shutdown
  end.

Definition handle_notify_new_lite_block (arg : NOTIFY_NEW_LITE_BLOCK_request) : M K unit :=
  updateObservedHeight (lb_current_blockchain_height arg) ;;
  set_context (with_remote (lb_current_blockchain_height arg)) ;;
  c ← context;
  if bool_decide (m_state c = state_normal) then doPushLiteBlock arg [] else mret tt.

(** The transactions that should be relayed. *)
Fixpoint pool_txs (txs : list bytes) : M K (list bytes) :=
  match txs with
  | [] => mret []
  | tx :: txs =>
      tvc ← call (handle_incoming_tx tx false);
      rest ← pool_txs txs;
      mret (if negb (m_verification_failed tvc) && m_should_be_relayed tvc then tx :: rest else rest)
  end.

Definition handle_notify_new_transactions (txs : list bytes) : M K unit :=
  c ← context;
  if bool_decide (m_state c = state_normal) then
    match m_pending_lite_block c with
    | Some p => doPushLiteBlock (pl_request p) txs
    | None =>
        relayed ← pool_txs txs;
        if bool_decide (relayed = []) then mret tt
        else emit (RelayToAll (NOTIFY_NEW_TRANSACTIONS relayed) (Some (m_connection_id c)))
    end
  else mret tt.

Definition handle_notify_missing_txs (missing_txs : list Hash) : M K unit :=
  '(txs, missedHashes) ← ask (fun k => getTransactions k missing_txs);
  if bool_decide (missedHashes = []) then post (NOTIFY_NEW_TRANSACTIONS (map tx_blob txs)) else shutdown.

Definition handle_request_tx_pool (txs : list Hash) : M K unit :=
  addedTransactions ← ask (fun k => getPoolChanges k txs);
  if bool_decide (addedTransactions = []) then mret tt else post (NOTIFY_NEW_TRANSACTIONS (map tx_blob addedTransactions)).

(** * Synchronisation *)

(** The first batch of the needed objects, and what is left. *)
Fixpoint next_batch (check_having_blocks : bool) (k : K) (count : nat) (needed : list Hash) : list Hash * list Hash :=
  match needed with
  | [] => ([], [])
  | it :: rest =>
      if (BLOCKS_SYNCHRONIZING_DEFAULT_COUNT <=? count)%nat then ([], needed)
      else if check_having_blocks && have_block k it then next_batch check_having_blocks k count rest
      else let '(batch, kept) := next_batch check_having_blocks k (S count) rest in (it :: batch, kept)
  end.

Definition request_missing_objects (check_having_blocks : bool) : M K bool :=
  c ← context;
  h ← handler;
  match m_needed_objects c with
  | _ :: _ =>
      let '(blocks, kept) := next_batch check_having_blocks (m_core h) 0 (m_needed_objects c) in
      set_context (with_objects kept (m_requested_objects c ∪ list_to_set blocks)) ;;
      post (NOTIFY_REQUEST_GET_OBJECTS [] blocks) ;;
      mret true
  | [] =>
      if m_last_response_height c <? u32 (m_remote_blockchain_height c - 1) then request_chain ;; mret true
      else if (m_last_response_height c =? u32 (m_remote_blockchain_height c - 1)) && bool_decide (m_requested_objects c = ∅) then
        requestMissingPoolTransactions ;;
        set_context (with_state state_normal) ;;
        on_connection_synchronized ;;
        mret true
      else mret false
  end.

Definition handle_request_chain (block_ids : list Hash) : M K unit :=
  match last block_ids with
  | None => shutdown
  | Some genesis =>
      id ← ask (fun k => getBlockIdByHeight k 0);
      if bool_decide (genesis = id) then
        r ← ask (fun k => findBlockchainSupplement k block_ids BLOCKS_IDS_SYNCHRONIZING_DEFAULT_COUNT);
        post (NOTIFY_RESPONSE_CHAIN_ENTRY r)
      else shutdown
  end.

Definition handle_response_chain_entry (arg : NOTIFY_RESPONSE_CHAIN_ENTRY_request) : M K unit :=
  match m_block_ids arg with
  | [] => shutdown
  | front :: _ =>
      h ← handler;
      if have_block (m_core h) front then
        set_context (with_remote (total_height arg)) ;;
        set_context (with_response (u32 (start_height arg + u32 (Z.of_nat (length (m_block_ids arg))) - 1))) ;;
        c ← context;
        (if m_remote_blockchain_height c <? m_last_response_height c then shutdown else mret tt) ;;
        set_context (fun c => with_objects (m_needed_objects c ++ filter (fun id => have_block (m_core h) id = false) (m_block_ids arg))
                                (m_requested_objects c) c) ;;
        _ ← request_missing_objects false;
        mret tt
      else shutdown
  end.

Definition handle_request_get_objects (txs blocks : list Hash) : M K unit :=
  '(ok, rsp) ← ask (fun k => handle_get_objects k txs blocks);
  (if (ok : bool) then mret tt else shutdown) ;;
  post (NOTIFY_RESPONSE_GET_OBJECTS rsp).

(** ** The blocks of a response *)

Record parsed_block_entry := mkParsed { pe_block : Block; pe_txs : list bytes }.

Definition set_idle : M K unit :=
  set_context (fun c => with_objects [] ∅ (with_state state_idle c)).

(** The loop over [arg.blocks]: [count] blocks were seen before.  [None] ends the handler. *)
Fixpoint parse_blocks (maxBlockBlobSize : Z) (count : Z) (blocks : list block_complete_entry) : M K (option (list (Hash * parsed_block_entry))) :=
  match blocks with
  | [] => mret (Some [])
  | block_entry :: blocks =>
      if maxBlockBlobSize <? Z.of_nat (length (ce_block block_entry)) then shutdown ;; mret None
      else
        match parse_block (ce_block block_entry) with
        | None => shutdown ;; mret None
        | Some b =>
            blockHash ← lift (block_id b);
            h ← handler;
            c ← context;
            if (count + 1 =? 2) && have_block (m_core h) blockHash then set_idle ;; mret None
            else if bool_decide (blockHash ∉ m_requested_objects c) then shutdown ;; mret None
            else if negb (length (b_transactionHashes b) =? length (ce_txs block_entry))%nat then shutdown ;; mret None
            else
              set_context (fun c => with_objects (m_needed_objects c) (m_requested_objects c ∖ {[blockHash]}) c) ;;
              rest ← parse_blocks maxBlockBlobSize (count + 1) blocks;
              mret (cons (blockHash, mkParsed b (ce_txs block_entry)) <$> rest)
        end
  end.

(** The blocks up to the current top are dismissed. *)
Fixpoint dismiss (top : Hash) (blocks : list (Hash * parsed_block_entry)) : option (list (Hash * parsed_block_entry)) :=
  match blocks with
  | [] => None
  | (h, _) :: blocks => if bool_decide (top = h) then Some blocks else dismiss top blocks
  end.

(** The transactions of one block; [transactionHashes[i]] is read out of range when there are fewer. *)
Fixpoint process_txs (txs : list bytes) (transactionHashes : list Hash) : M K bool :=
  match txs with
  | [] => mret true
  | tx :: txs =>
      match transactionHashes with
      | [] => lift Undefined
      | hash :: transactionHashes =>
          if bool_decide (blob_id tx = hash) then
            tvc ← call (handle_incoming_tx tx true);
            if m_verification_failed tvc then mret false else process_txs txs transactionHashes
          else mret false
      end
  end.

(** [true] for [return 0]. *)
Fixpoint processObjects (blocks : list parsed_block_entry) : M K bool :=
  match blocks with
  | [] => mret true
  | block_entry :: blocks =>
      h ← handler;
      if m_stop h then mret true
      else
        ok ← process_txs (pe_txs block_entry) (b_transactionHashes (pe_block block_entry));
        if (ok : bool) then
          bvc ← call (handle_incoming_block (pe_block block_entry));
          if bv_verification_failed bvc then shutdown ;; mret false
          else if m_marked_as_orphaned bvc then shutdown ;; mret false
          else if m_already_exists bvc then set_idle ;; mret false
          else yield ;; processObjects blocks
        else shutdown ;; mret false
  end.

Definition handle_response_get_objects (maxBlockBlobSize : Z) (arg : NOTIFY_RESPONSE_GET_OBJECTS_request) : M K unit :=
  c ← context;
  if go_current_blockchain_height arg <? m_last_response_height c then shutdown
  else
    updateObservedHeight (go_current_blockchain_height arg) ;;
    set_context (with_remote (go_current_blockchain_height arg)) ;;
    parsed ← parse_blocks maxBlockBlobSize 0 (go_blocks arg);
    match parsed with
    | None => mret tt
    | Some parsed_blocks =>
        c ← context;
        if bool_decide (m_requested_objects c = ∅) then
          h ← handler;
          let top := (get_blockchain_top (m_core h)).2 in
          let parsed_blocks := default parsed_blocks (dismiss top parsed_blocks) in
          ok ← processObjects (map snd parsed_blocks);
          if (ok : bool) then
            h ← handler;
            c ← context;
            if negb (m_stop h) && bool_decide (m_state c = state_synchronizing) then _ ← request_missing_objects true; mret tt
            else mret tt
          else mret tt
        else shutdown
    end.

(** * The commands *)

Definition handleCommand (maxBlockBlobSize : Z) (n : Notification) : M K unit :=
  match n with
  | NOTIFY_NEW_BLOCK arg => handle_notify_new_block arg
  | NOTIFY_NEW_TRANSACTIONS txs => handle_notify_new_transactions txs
  | NOTIFY_REQUEST_GET_OBJECTS txs blocks => handle_request_get_objects txs blocks
  | NOTIFY_RESPONSE_GET_OBJECTS arg => handle_response_get_objects maxBlockBlobSize arg
  | NOTIFY_REQUEST_CHAIN block_ids => handle_request_chain block_ids
  | NOTIFY_RESPONSE_CHAIN_ENTRY arg => handle_response_chain_entry arg
  | NOTIFY_REQUEST_TX_POOL txs => handle_request_tx_pool txs
  | NOTIFY_NEW_LITE_BLOCK arg => handle_notify_new_lite_block arg
  | NOTIFY_MISSING_TXS _ _ missing_txs => handle_notify_missing_txs missing_txs
  end.
End ProtocolHandler.
