(* ===== verification/ProtocolDemo.v ===== *)
(** A small core for the examples of the protocol files: the chain is the list of the blocks [0], [1], ..., a core is the number
    of blocks that it holds, a block has one transaction, and hashes are the blobs themselves. *)

From stdpp Require Import gmap.
From S2P Require Import Prelude Types TransactionPool PeerList P2pTypes NetHosts ProtocolHandler.

Module ProtocolDemo.
Definition demo_tx (v : Z) : Transaction := mkTransaction v 0 [] [] [] [].
Definition demo_block (i : Z) : Block :=
  mkBlock 1 0 i 0 [] (mkParentBlock 0 0 [] 0 [] (demo_tx 0) []) (demo_tx 0) [[100 + i]].
Definition demo_entry (i : Z) : block_complete_entry := mkCompleteEntry [i] [[100 + i]].
Definition demo_ids (n : nat) : list Hash := map (fun i => [i]) (seqZ 0 (Z.of_nat n)).

#[export] Instance demo_format : Format := {|
  parse_block bs := match bs with [i] => Some (demo_block i) | _ => None end;
  block_id b := Ret [b_nonce b];
  blob_id bs := bs;
  tx_blob tx := [tx_version tx];
  tx_id tx := [tx_version tx]
|}.

Definition demo_number (id : Hash) : Z := match id with [i] => i | _ => -1 end.

Definition demo_push (i : Z) (k : nat) : outcome (block_verification_context * nat) :=
  if i =? Z.of_nat k then Ret (mkBvc true false false false false, S k)
  else if (0 <=? i) && (i <? Z.of_nat k) then Ret (mkBvc false false false true false, k)
  else Ret (mkBvc false false true false false, k).

#[export] Instance demo_core : Core nat := {|
  have_block k id := (0 <=? demo_number id) && (demo_number id <? Z.of_nat k);
  get_blockchain_top k := (Z.of_nat k - 1, [Z.of_nat k - 1]);
  buildSparseChain k := Ret (reverse (demo_ids k));
  getBlockIdByHeight k height := Ret [height];
  findBlockchainSupplement k ids maxCount :=
    match ids with
    | [] => AssertFail
    | front :: _ => Ret (mkResponseChainEntry (demo_number front) (Z.of_nat k)
                           (take (Z.to_nat maxCount) (drop (Z.to_nat (demo_number front)) (demo_ids k))))
    end;
  handle_get_objects k txs blocks := Ret (true, mkResponseGetObjects [] (map (fun id => demo_entry (demo_number id)) blocks) [] (Z.of_nat k));
  handle_incoming_tx tx keep k := Ret (mkTvc false false false false false, k);
  handle_incoming_block b k := demo_push (b_nonce b) k;
  handle_incoming_block_blob blob k := demo_push (demo_number blob) k;
  getPoolTransactions k := [];
  getPoolChanges k known := Ret [];
  getTransaction k id := Ret None;
  getTransactions k ids := Ret ([], ids)
|}.

Definition demo_connection (s : ConnectionState) (needed : list Hash) (requested : gset Hash) (remote last_response : Z) : Connection :=
  mkConnection 1 1 0x04030201 10808 true 7 s None needed requested remote last_response.

Definition demo_handler (k : nat) (c : Connection) : Handler nat :=
  mkHandler k false false 0 1 {[1 := c]} ∅ ∅ (no_peers false) [].
End ProtocolDemo.
