(* ===== verification/ProtocolSafety.v ===== *)
(** What the handlers of [ProtocolHandler] let through: the calls that a response makes to the core are deliveries of
    requested blocks, the batches are bounded, a lite block reaches the core with all of its transactions. *)

From stdpp Require Import gmap sets list.
From S2P Require Import Prelude Types TransactionPool PeerList P2pTypes NetHosts ProtocolHandler ProtocolDemo.

(** * Calls to the core *)

Inductive Call :=
| CallTx (tx : bytes) (keeped_by_block : bool)
| CallBlock (b : Block)
| CallBlob (block : bytes).

Section Runs.
Context {K : Type} `{Core K} `{Format}.
Context (others : Handler K -> Handler K * bool) (now : Z).

(** [runs h calls h']: from [h] to [h'] this connection makes just these [calls] to the core, with other fibres between. *)
Inductive runs : Handler K -> list Call -> Handler K -> Prop :=
| runs_done h h' : m_core h = m_core h' -> runs h [] h'
| runs_tx h tx keep tvc k l h' :
    handle_incoming_tx tx keep (m_core h) = Ret (tvc, k) -> runs (with_core k h) l h' -> runs h (CallTx tx keep :: l) h'
| runs_block h b bvc k l h' :
    handle_incoming_block b (m_core h) = Ret (bvc, k) -> runs (with_core k h) l h' -> runs h (CallBlock b :: l) h'
| runs_blob h b bvc k l h' :
    handle_incoming_block_blob b (m_core h) = Ret (bvc, k) -> runs (with_core k h) l h' -> runs h (CallBlob b :: l) h'
| runs_others h h1 l h' : m_core h1 = m_core h -> runs (others h1).1 l h' -> runs h l h'.

Hint Constructors runs : fuego.

Lemma runs_core h1 h2 l h' : m_core h1 = m_core h2 -> runs h2 l h' -> runs h1 l h'.
Proof.
  intros E Hr. revert h1 E. induction Hr as [| h tx keep tvc k l h' Hc _ IH | h b bvc k l h' Hc _ IH | h b bvc k l h' Hc _ IH | h h2 l h' E2 Hr IH];
    intros h1 E.
  - constructor. congruence.
  - eapply runs_tx; [rewrite E; exact Hc |]. apply IH. reflexivity.
  - eapply runs_block; [rewrite E; exact Hc |]. apply IH. reflexivity.
  - eapply runs_blob; [rewrite E; exact Hc |]. apply IH. reflexivity.
  - eapply (runs_others h1 h2); [congruence | exact Hr].
Qed.

Lemma runs_app h1 l1 h2 l2 h3 : runs h1 l1 h2 -> runs h2 l2 h3 -> runs h1 (l1 ++ l2) h3.
Proof.
  induction 1; intros Hr; cbn [app]; eauto with fuego.
  eapply runs_core; eassumption.
Qed.

Lemma runs_end h1 l h2 h3 : runs h1 l h2 -> m_core h2 = m_core h3 -> runs h1 l h3.
Proof. intros Hr E. rewrite <- (app_nil_r l). eapply runs_app; [exact Hr |]. by constructor. Qed.

(** ** The parts that make no call *)

(** [silent m]: [m] leaves the core as it is and makes no call. *)
Definition silent {A} (m : M K A) : Prop := forall c h, wp m (fun _ _ h' => m_core h' = m_core h /\ m_stop h' = m_stop h) (c, h).

Lemma silent_bind {A B} (m : M K A) (f : A -> M K B) : silent m -> (forall a, silent (f a)) -> silent (m ≫= f).
Proof.
  intros Hm Hf c h. apply wp_bind. eapply wp_mono; [apply Hm |]. intros a c' h' [Hc Hs].
  eapply wp_mono; [apply Hf |]. intros b c'' h'' [Hc' Hs']. split; congruence.
Qed.
Lemma silent_ret {A} (a : A) : silent (mret a).
Proof. intros c h. apply wp_ret. done. Qed.
Lemma silent_context : silent (context (K := K)).
Proof. intros c h. apply wp_context. done. Qed.
Lemma silent_handler : silent (handler (K := K)).
Proof. intros c h. apply wp_handler. done. Qed.
Lemma silent_set_context f : silent (set_context (K := K) f).
Proof. intros c h. apply wp_set_context. done. Qed.
Lemma silent_set_handler (f : Handler K -> Handler K) :
  (forall h, m_core (f h) = m_core h /\ m_stop (f h) = m_stop h) -> silent (set_handler f).
Proof. intros Hf c h. apply wp_set_handler. apply Hf. Qed.
Lemma silent_ask {A} (f : K -> outcome A) : silent (ask f).
Proof. intros c h. apply wp_ask. done. Qed.
Lemma silent_lift {A} (o : outcome A) : silent (lift (K := K) o).
Proof. intros c h. apply wp_lift. done. Qed.
End Runs.

#[export] Hint Constructors runs : fuego.

Ltac silent :=
  repeat first
    [ apply silent_bind; [| intros ?]
    | apply silent_ret | apply silent_context | apply silent_handler | apply silent_set_context
    | apply silent_ask | apply silent_lift
    | apply silent_set_handler; intros ?; split; reflexivity
    | progress (cbv beta iota zeta)
    | case_match ].

Section Silent.
Context {K : Type} `{Core K} `{Format}.
Context (now : Z).

Lemma silent_add_host_fail ip : silent (K := K) (add_host_fail now ip).
Proof. unfold add_host_fail, block_host. silent. Qed.
Lemma silent_drop b : silent (K := K) (drop_connection now b).
Proof. unfold drop_connection. silent; apply silent_add_host_fail. Qed.
Lemma silent_invoke n : silent (K := K) (invoke_notify_to_peer n).
Proof. unfold invoke_notify_to_peer, emit. silent. Qed.
Lemma silent_post n : silent (K := K) (post n).
Proof. unfold post. silent. Qed.
Lemma silent_notify z : silent (K := K) (notify_if_changed z).
Proof. unfold notify_if_changed, emit. silent. Qed.
Lemma silent_recalculate : silent (K := K) recalculateMaxObservedHeight.
Proof. unfold recalculateMaxObservedHeight. silent. Qed.
Lemma silent_observed z : silent (K := K) (updateObservedHeight z).
Proof. unfold updateObservedHeight. silent; first [apply silent_recalculate | apply silent_notify]. Qed.
(** The heights of the peers are no business of the connection. *)
Lemma silent_observed_objects z c h :
  wp (K := K) (updateObservedHeight z)
    (fun _ c' h' => m_requested_objects c' = m_requested_objects c /\ m_core h' = m_core h /\ c' = c /\ m_stop h' = m_stop h
                    /\ m_connections h' = m_connections h /\ m_peersCount h' = m_peersCount h) (c, h).
Proof.
  unfold updateObservedHeight, recalculateMaxObservedHeight, notify_if_changed, emit.
  repeat wp_step; repeat split.
Qed.
Lemma silent_request_chain : silent (K := K) request_chain.
Proof. unfold request_chain. silent. Qed.
Lemma silent_synchronized : silent (K := K) on_connection_synchronized.
Proof. unfold on_connection_synchronized, emit. silent. Qed.
Lemma silent_pool_request : silent (K := K) requestMissingPoolTransactions.
Proof. unfold requestMissingPoolTransactions. silent. Qed.
Lemma silent_request_missing b : silent (K := K) (request_missing_objects b).
Proof.
  unfold request_missing_objects.
  silent; first [apply silent_post | apply silent_request_chain | apply silent_pool_request | apply silent_synchronized].
Qed.
Lemma silent_relay_block arg : silent (K := K) (relay_block arg).
Proof. unfold relay_block, emit. silent. Qed.
Lemma silent_parse_blocks size count blocks : silent (K := K) (parse_blocks size count blocks).
Proof. revert count. induction blocks as [| e blocks IH]; intros count; cbn [parse_blocks]; unfold shutdown, set_idle; silent; apply IH. Qed.
Lemma silent_find_txs provided hashes : silent (K := K) (find_txs provided hashes).
Proof. induction hashes as [| h hashes IH]; cbn [find_txs]; silent; apply IH. Qed.
End Silent.

(** * The blocks of a response *)

Section Response.
Context {K : Type} `{Core K} `{Format}.
Context (others : Handler K -> Handler K * bool) (now : Z).

(** A block is delivered with its transactions before it. *)
Definition delivery (p : parsed_block_entry) : list Call :=
  map (fun tx => CallTx tx true) (pe_txs p) ++ [CallBlock (pe_block p)].
Definition deliveries (ps : list parsed_block_entry) : list Call := ps ≫= delivery.

(** The transactions are those that the block names. *)
Definition matches (p : parsed_block_entry) : Prop := map blob_id (pe_txs p) = b_transactionHashes (pe_block p).

Definition ended (c : Connection) : Prop := m_state c = state_shutdown \/ m_state c = state_idle.

Lemma process_txs_spec txs hashes c h :
  wp (process_txs txs hashes)
    (fun ok c' h' => exists calls, runs others h calls h' /\ c' = c
       /\ calls `prefix_of` map (fun tx => CallTx tx true) txs
       /\ (ok = true -> calls = map (fun tx => CallTx tx true) txs /\ map blob_id txs = take (length txs) hashes)) (c, h).
Proof.
  revert hashes h. induction txs as [| tx txs IH]; intros hashes h; cbn [process_txs map].
  - wp_step. exists []. split; [by apply runs_done |]. split; [done |]. split; [apply prefix_nil | done].
  - destruct hashes as [| hash hashes]; [wp_step; discriminate |].
    wp_step; [| wp_step; exists []; split; [by apply runs_done |]; split; [done |]; split; [apply prefix_nil | done]].
    apply bool_decide_eq_true in Eif as <-. wp_step. wp_step. wp_step.
    + wp_step. exists [CallTx tx true]. split; [eapply runs_tx; [exact Hcall | by apply runs_done] |].
      split; [done |]. split; [apply prefix_cons, prefix_nil | done].
    + eapply wp_mono; [apply IH |]. intros ok c' h' (calls & Hr & -> & Hp & Hok). cbn [snd] in Hr.
      exists (CallTx tx true :: calls). split; [eapply runs_tx; [exact Hcall | exact Hr] |].
      split; [done |]. split; [by apply prefix_cons |].
      intros Ht. destruct (Hok Ht) as [-> Hm]. split; [done |]. cbn [length take]. by rewrite Hm.
Qed.

Lemma yield_spec c h : wp (yield others) (fun _ c' h' => runs others h [] h' /\ (c' = c \/ c' = with_state state_shutdown c)) (c, h).
Proof.
  unfold yield. wp_step. wp_step. destruct (others h) as [h' blocked] eqn:E.
  wp_step. wp_step.
  assert (Hr : runs others h [] h') by (eapply (runs_others others h h); [done | rewrite E; by constructor]).
  destruct blocked; [unfold shutdown; wp_step; by split; [| right] | wp_step; by split; [| left]].
Qed.

Lemma deliveries_cons p ps : deliveries (p :: ps) = delivery p ++ deliveries ps.
Proof. done. Qed.

(** [processObjects] calls the core for a prefix of the deliveries.  When it succeeds this is all, unless the node stops. *)
Lemma processObjects_spec ps c h :
  Forall (fun p => length (b_transactionHashes (pe_block p)) = length (pe_txs p)) ps ->
  wp (processObjects others ps)
    (fun ok c' h' => exists calls, runs others h calls h'
       /\ calls `prefix_of` deliveries ps
       /\ (forall p, p ∈ ps -> CallBlock (pe_block p) ∈ calls -> exists q, q ∈ ps /\ pe_block q = pe_block p /\ matches q)
       /\ (ok = true -> calls = deliveries ps \/ m_stop h' = true) /\ (ok = false -> ended c')) (c, h).
Proof.
  intros Hlen. revert c h. induction Hlen as [| p ps Hp _ IH]; intros c h; cbn [processObjects].
  { wp_step. exists []. split; [by apply runs_done |]. split; [apply prefix_nil |]. split; [intros p Hp; by apply not_elem_of_nil in Hp |].
    split; [by left | done]. }
  assert (Hstop : forall ok : bool, exists calls, runs others h calls h /\ calls `prefix_of` deliveries (p :: ps)
       /\ (forall q, q ∈ p :: ps -> CallBlock (pe_block q) ∈ calls -> exists r, r ∈ p :: ps /\ pe_block r = pe_block q /\ matches r)
       /\ calls = []).
  { intros _. exists []. split; [by apply runs_done |]. split; [apply prefix_nil |]. split; [intros q _ Hq; by apply not_elem_of_nil in Hq | done]. }
  wp_step. wp_step. wp_step.
  { wp_step. destruct (Hstop true) as (calls & Hr & Hpre & Hm & _). exists calls. split_and!; [done.. | by right | done]. }
  clear Hstop. wp_step. eapply wp_mono; [apply process_txs_spec |].
  intros ok c' h1 (calls1 & Hr1 & -> & Hp1 & Hok). destruct ok; cbn [snd].
  - destruct (Hok eq_refl) as [-> Hm]. rewrite <- Hp, firstn_all in Hm. clear Hok Hp1.
    wp_step. wp_step.
    assert (Hr : runs others h (delivery p) (with_core k h1)).
    { eapply runs_app; [exact Hr1 | eapply runs_block; [exact Hcall | by apply runs_done]]. }
    assert (Hone : forall q, q ∈ p :: ps -> CallBlock (pe_block q) ∈ delivery p -> exists r, r ∈ p :: ps /\ pe_block r = pe_block q /\ matches r).
    { intros q Hq Hin. unfold delivery in Hin. apply elem_of_app in Hin as [Hin | Hin].
      - apply list_elem_of_fmap in Hin as (tx & [=] & _).
      - apply list_elem_of_singleton in Hin as [= Hb]. exists p. split; [left | by split]. }
    assert (Hbad : forall c' : Connection, ended c' -> exists calls, runs others h calls (with_core k h1)
       /\ calls `prefix_of` deliveries (p :: ps)
       /\ (forall q, q ∈ p :: ps -> CallBlock (pe_block q) ∈ calls -> exists r, r ∈ p :: ps /\ pe_block r = pe_block q /\ matches r)
       /\ (false = true -> calls = deliveries (p :: ps) \/ m_stop (with_core k h1) = true) /\ (false = false -> ended c')).
    { intros c' Hc'. exists (delivery p). split; [done |]. split; [rewrite deliveries_cons; by apply prefix_app_r |]. done. }
    unfold shutdown, set_idle.
    wp_step; [wp_step; wp_step; wp_step; apply Hbad; by left |].
    wp_step; [wp_step; wp_step; wp_step; apply Hbad; by left |].
    wp_step; [wp_step; wp_step; wp_step; apply Hbad; by right |].
    wp_step. eapply wp_mono; [apply yield_spec |]. intros _ c2 h2 [Hr2 _]. cbn [snd].
    eapply wp_mono; [apply IH |]. intros ok c3 h3 (calls & Hr3 & Hp3 & Hm3 & Ht & Hf).
    exists (delivery p ++ calls). split; [rewrite <- (app_nil_r (delivery p)); eapply runs_app; [eapply runs_app; [exact Hr | exact Hr2] | exact Hr3] |].
    split; [rewrite deliveries_cons; by apply prefix_app |].
    split; [| split; [| exact Hf]].
    + intros q Hq Hin. apply elem_of_app in Hin as [Hin | Hin]; [by apply Hone |].
      apply (elem_of_prefix _ _ _ Hin) in Hp3 as Hd. unfold deliveries in Hd. apply list_elem_of_bind in Hd as (r & Hr' & Hrps).
      unfold delivery in Hr'. apply elem_of_app in Hr' as [Hr' | Hr']; [apply list_elem_of_fmap in Hr' as (tx & [=] & _) |].
      apply list_elem_of_singleton in Hr' as [= Hrb].
      destruct (Hm3 r Hrps) as (r' & ? & Hb & ?); [by rewrite <- Hrb |]. exists r'. split; [by right |]. split; [congruence | done].
    + intros Hok. destruct (Ht Hok) as [-> | ?]; [by left | by right].
  - unfold shutdown. wp_step. wp_step. wp_step. exists calls1. split; [done |].
    split; [rewrite deliveries_cons; unfold delivery; rewrite <- app_assoc; by apply prefix_app_r |].
    split; [| split; [done | intros _; by left]].
    intros q _ Hin. exfalso. apply (elem_of_prefix _ _ _ Hin) in Hp1. apply list_elem_of_fmap in Hp1 as (tx & [=] & _).
Qed.

(** What the loop over the blocks of a response has checked. *)
Record parsed_ok (blocks : list block_complete_entry) (requested : gset Hash) (ps : list (Hash * parsed_block_entry)) : Prop := {
  po_ids : NoDup (map fst ps);
  po_requested : Forall (fun p => p.1 ∈ requested) ps;
  po_hash : Forall (fun p => block_id (pe_block p.2) = Ret p.1) ps;
  po_count : Forall (fun p => length (b_transactionHashes (pe_block p.2)) = length (pe_txs p.2)) ps;
  po_blobs : Forall2 (fun e p => parse_block (ce_block e) = Some (pe_block p.2) /\ ce_txs e = pe_txs p.2) blocks ps
}.

Lemma parse_blocks_spec size count blocks c h :
  wp (parse_blocks size count blocks)
    (fun r c' h' => h' = h /\ match r with
       | None => ended c'
       | Some ps => c' = with_objects (m_needed_objects c) (m_requested_objects c ∖ list_to_set (map fst ps)) c
                    /\ parsed_ok blocks (m_requested_objects c) ps
       end) (c, h).
Proof.
  revert count c. induction blocks as [| e blocks IH]; intros count c; cbn [parse_blocks].
  { wp_step. split; [done |]. cbn [map list_to_set]. split; [| by repeat constructor].
    destruct c. unfold with_objects. cbn. by rewrite difference_empty_L. }
  unfold shutdown, set_idle. wp_step; [wp_step; wp_step; wp_step; split; [done | by left] |].
  destruct (parse_block (ce_block e)) as [b |] eqn:Eb; [| wp_step; wp_step; wp_step; split; [done | by left]].
  wp_step. wp_step. wp_step. wp_step. wp_step. wp_step.
  wp_step; [wp_step; wp_step; wp_step; split; [done | by right] |].
  wp_step; [wp_step; wp_step; wp_step; split; [done | by left] |].
  apply bool_decide_eq_false, dec_stable in Eif1.
  wp_step; [wp_step; wp_step; wp_step; split; [done | by left] |].
  apply negb_false_iff, Nat.eqb_eq in Eif2.
  wp_step. wp_step. wp_step. eapply wp_mono; [apply IH |]. intros r c' h' [-> Hr]. wp_step. split; [done |].
  destruct r as [ps |]; cbn [fmap option_fmap option_map]; [| done]. destruct Hr as [-> Hps]. cbn [m_requested_objects m_needed_objects with_objects] in *.
  destruct Hps as [Hn Hreq Hh Hc Hb]. split.
  - unfold with_objects. cbn. by rewrite difference_difference_l_L.
  - constructor; cbn [map fst snd]; try (constructor; [done | done]).
    + constructor; [| done]. intros Hin. apply list_elem_of_fmap in Hin as (p & -> & Hp).
      apply (proj1 (Forall_forall _ _) Hreq), elem_of_difference in Hp as [_ Hp]. by apply Hp, elem_of_singleton.
    + constructor; [done |]. eapply Forall_impl; [exact Hreq |]. intros p Hp. by apply elem_of_difference in Hp as [Hp _].
Qed.

Lemma dismiss_suffix top ps ps' : dismiss top ps = Some ps' -> ps' `suffix_of` ps.
Proof.
  induction ps as [| [x p] ps IH]; cbn [dismiss]; [discriminate |].
  case_bool_decide; [intros [= ->]; by apply suffix_cons_r | intros Hd; by apply suffix_cons_r, IH].
Qed.

Lemma dismissed_suffix top ps : default ps (dismiss top ps) `suffix_of` ps.
Proof. destruct (dismiss top ps) as [ps' |] eqn:E; [by eapply dismiss_suffix | done]. Qed.

Lemma quiet_run {A} (m : M K A) (Q : A -> Connection -> Handler K -> Prop) c h :
  silent m -> (forall a c' h', m_core h' = m_core h -> m_stop h' = m_stop h -> Q a c' h') -> wp m Q (c, h).
Proof. intros Hm HQ. eapply wp_mono; [apply Hm |]. intros a c' h' [? ?]. by apply HQ. Qed.

(** When nothing that was requested is left, the response holds all of it. *)
Lemma all_requested requested (all : list (Hash * parsed_block_entry)) :
  Forall (fun p => p.1 ∈ requested) all -> requested ∖ list_to_set (map fst all) = (∅ : gset Hash) -> list_to_set (map fst all) = requested.
Proof.
  intros Hreq E. apply leibniz_equiv. intros x. split.
  - intros Hx%elem_of_list_to_set. apply list_elem_of_fmap in Hx as (p & -> & Hp). by apply (proj1 (Forall_forall _ _) Hreq).
  - intros Hx. destruct (decide (x ∈ (list_to_set (map fst all) : gset Hash))) as [? | Hn]; [done |].
    exfalso. apply (not_elem_of_empty (C := gset Hash) x). rewrite <- E. by apply elem_of_difference.
Qed.

(** Entry by entry, the blocks of a response: parsed, with the transactions that came with them and their hashes. *)
Definition block_of_entry (e : block_complete_entry) (p : Hash * parsed_block_entry) : Prop :=
  parse_block (ce_block e) = Some (pe_block p.2) /\ pe_txs p.2 = ce_txs e /\ block_id (pe_block p.2) = Ret p.1.

(** What a response did.  Either it was refused without a call to the core; or its blocks are, one for one and all different,
    those that were requested, the ones up to the current top are dismissed, and the calls are, in the order of the response, those for
    the rest: for each block its transactions and then the block, broken off only when the connection ends or the node stops. *)
Definition answered_by (arg : NOTIFY_RESPONSE_GET_OBJECTS_request) (c : Connection) (h : Handler K) (c' : Connection) (h' : Handler K) : Prop :=
  (runs others h [] h' /\ ended c') \/
  exists all ps calls,
    Forall2 block_of_entry (go_blocks arg) all /\ NoDup (map fst all) /\ list_to_set (map fst all) = m_requested_objects c
    /\ ps = default all (dismiss (get_blockchain_top (m_core h)).2 all)
    /\ runs others h calls h' /\ calls `prefix_of` deliveries (map snd ps)
    /\ (forall p, p ∈ ps -> CallBlock (pe_block p.2) ∈ calls -> matches p.2)
    /\ (calls = deliveries (map snd ps) \/ ended c' \/ m_stop h' = true).

Lemma no_calls arg c h c' h' : m_core h = m_core h' -> ended c' -> answered_by arg c h c' h'.
Proof. intros E He. left. split; [by apply runs_done | exact He]. Qed.

Lemma parsed_entries blocks requested ps : parsed_ok blocks requested ps -> Forall2 block_of_entry blocks ps.
Proof.
  intros [_ _ Hh _ Hb]. induction Hb as [| e p blocks ps [? ?] _ IH]; [constructor |].
  apply Forall_cons in Hh as [? Hh]. constructor; [by repeat split | by apply IH].
Qed.

(** A block is not in a response twice. *)
Lemma same_block all p q :
  NoDup (map fst all) -> Forall (fun p => block_id (pe_block p.2) = Ret p.1) all -> p ∈ all -> q ∈ all -> pe_block q.2 = pe_block p.2 -> q = p.
Proof.
  intros Hn Hh Hp Hq E. rewrite Forall_forall in Hh. pose proof (Hh _ Hp) as H1. pose proof (Hh _ Hq) as H2. rewrite E, H1 in H2. injection H2 as E2.
  apply list_elem_of_lookup in Hp as [i Hi], Hq as [j Hj].
  assert (i = j) as ->; [| congruence]. eapply NoDup_lookup; [exact Hn | |]; rewrite list_lookup_fmap; [by rewrite Hi | by rewrite Hj, E2].
Qed.

Lemma response_answered size arg c h :
  wp (handle_response_get_objects others size arg) (fun _ c' h' => answered_by arg c h c' h') (c, h).
Proof.
  unfold handle_response_get_objects, shutdown. wp_step. wp_step. wp_step; [wp_step; apply no_calls; [done | by left] |].
  wp_step. eapply wp_mono; [apply silent_observed_objects |]. intros _ c1 h1 (Ho & Hc1 & _). wp_step. wp_step. cbn [fst snd].
  wp_step. eapply wp_mono; [apply parse_blocks_spec |]. intros r c2 h2 [-> Hr]. cbn [snd].
  destruct r as [all |]; [| wp_step; by apply no_calls]. destruct Hr as [-> Hps].
  cbn [with_remote with_objects m_requested_objects m_needed_objects] in *. rewrite Ho in *.
  wp_step. wp_step. wp_step; [| wp_step; apply no_calls; [done | by left]]. apply bool_decide_eq_true in Eif0.
  cbn [with_remote with_objects m_requested_objects m_needed_objects] in Eif0.
  wp_step. wp_step. cbn [fst snd]. rewrite Hc1. set (ps := default all _).
  assert (Hps' : ps = default all (dismiss (get_blockchain_top (m_core h)).2 all)) by done.
  assert (Hsuf : ps `suffix_of` all) by apply dismissed_suffix. clearbody ps.
  pose proof (parsed_entries _ _ _ Hps) as Hent. destruct Hps as [Hn Hreq Hh Hc _].
  pose proof (all_requested _ _ Hreq Eif0) as Hset.
  assert (Hlen : Forall (fun p => length (b_transactionHashes (pe_block p)) = length (pe_txs p)) (map snd ps)).
  { apply Forall_fmap. destruct Hsuf as [pre ->]. by apply Forall_app in Hc as [_ Hc]. }
  wp_step. eapply wp_mono; [apply (processObjects_spec (map snd ps) _ _ Hlen) |].
  intros ok c3 h3 (calls & Hr & Hpre & Hm & Hok & Hko). cbn [snd].
  assert (Hr' : runs others h calls h3) by (eapply runs_core; [symmetry; exact Hc1 | exact Hr]).
  assert (Hm' : forall p, p ∈ ps -> CallBlock (pe_block p.2) ∈ calls -> matches p.2).
  { assert (Hin : forall q, q ∈ ps -> q ∈ all) by (intros q Hq; destruct Hsuf as [pre ->]; apply elem_of_app; by right).
    intros p Hp Hcall. destruct (Hm p.2) as (q & Hq & E & Hmq); [by apply list_elem_of_fmap_2 | done |].
    apply list_elem_of_fmap in Hq as (q' & -> & Hq'). by rewrite <- (same_block all p q' Hn Hh (Hin _ Hp) (Hin _ Hq') E). }
  assert (Hdone : forall c' h', m_core h3 = m_core h' ->
    calls = deliveries (map snd ps) \/ ended c' \/ m_stop h' = true -> answered_by arg c h c' h').
  { intros c' h' E Hend. right. exists all, ps, calls. split_and!; try done. by eapply runs_end. }
  destruct ok; [| wp_step; apply Hdone; [done |]; right; left; by apply Hko].
  destruct (Hok eq_refl) as [Hall' | Hst]; clear Hok Hko.
  - wp_step. wp_step. wp_step. wp_step. cbn [fst snd]. wp_step; [wp_step | wp_step; apply Hdone; [done | by left]].
    apply quiet_run; [apply silent_request_missing |]. intros b c' h' E _. wp_step. apply Hdone; [done | by left].
  - wp_step. wp_step. wp_step. wp_step. cbn [fst snd]. wp_step; [wp_step | wp_step; apply Hdone; [done | by right; right]].
    apply quiet_run; [apply silent_request_missing |]. intros b c' h' E Es. wp_step. apply Hdone; [done |]. right; right. cbn [snd] in *. congruence.
Qed.
End Response.

(** * Batches *)

Section Batches.
Context {K : Type} `{Core K} `{Format}.

Lemma next_batch_spec chk k count needed batch kept :
  next_batch chk k count needed = (batch, kept) ->
  exists seen, needed = seen ++ kept
    /\ batch = filter (fun x => chk && have_block k x = false) seen
    /\ (length batch + Nat.min count BLOCKS_SYNCHRONIZING_DEFAULT_COUNT <= BLOCKS_SYNCHRONIZING_DEFAULT_COUNT)%nat
    /\ (kept <> [] -> (BLOCKS_SYNCHRONIZING_DEFAULT_COUNT <= length batch + count)%nat).
Proof.
  revert count batch kept. induction needed as [| x needed IH]; intros count batch kept; cbn [next_batch].
  - intros [= <- <-]. exists []. repeat split; [cbn [length]; lia | done].
  - destruct (Nat.leb_spec BLOCKS_SYNCHRONIZING_DEFAULT_COUNT count) as [Hle | Hlt].
    + intros [= <- <-]. exists []. repeat split; [cbn [length]; lia | intros _; cbn [length]; lia].
    + destruct (chk && have_block k x) eqn:E.
      * intros Hb. apply IH in Hb as (seen & -> & -> & ? & ?). exists (x :: seen). repeat split; [| done..].
        rewrite filter_cons_False by congruence. done.
      * destruct (next_batch chk k (S count) needed) as [batch' kept'] eqn:E'. intros [= <- <-].
        apply IH in E' as (seen & -> & -> & ? & Hk). exists (x :: seen). repeat split.
        -- by rewrite filter_cons_True by done.
        -- cbn [length]. lia.
        -- intros Hne. specialize (Hk Hne). cbn [length]. lia.
Qed.

(** What the next step of a synchronisation is. *)
Inductive Next :=
| AskObjects (blocks : list Hash)
| AskChain
| Complete
| Stalled.

Definition next_step (check_having_blocks : bool) (c : Connection) (h : Handler K) : Next :=
  match m_needed_objects c with
  | _ :: _ => AskObjects (next_batch check_having_blocks (m_core h) 0 (m_needed_objects c)).1
  | [] =>
      if m_last_response_height c <? u32 (m_remote_blockchain_height c - 1) then AskChain
      else if (m_last_response_height c =? u32 (m_remote_blockchain_height c - 1)) && bool_decide (m_requested_objects c = ∅) then Complete
      else Stalled
  end.

(** [request_missing_objects] on each of its branches: the messages it adds, and the context it leaves. *)
Definition requested_ok (chk : bool) (c : Connection) (h : Handler K) (b : bool) (c' : Connection) (h' : Handler K) : Prop :=
  exists messages, sent h' = sent h ++ messages /\
  match next_step chk c h with
  | AskObjects blocks =>
      b = true /\ messages = [Post (m_connection_id c) (NOTIFY_REQUEST_GET_OBJECTS [] blocks)]
      /\ (length blocks <= BLOCKS_SYNCHRONIZING_DEFAULT_COUNT)%nat
      /\ m_state c' = m_state c
      /\ m_requested_objects c' = m_requested_objects c ∪ list_to_set blocks
      /\ exists seen, m_needed_objects c = seen ++ m_needed_objects c' /\ blocks = filter (fun x => chk && have_block (m_core h) x = false) seen
  | AskChain =>
      b = true /\ c' = c
      /\ exists ids, buildSparseChain (m_core h) = Ret ids /\ messages = [Post (m_connection_id c) (NOTIFY_REQUEST_CHAIN ids)]
  | Complete => b = true /\ c' = with_state state_normal c /\ m_synchronized h' = true
  | Stalled => b = false /\ c' = c /\ h' = h /\ messages = []
  end.

Definition connected (c : Connection) (h : Handler K) : Prop := is_Some (m_connections h !! m_connection_id c).

Lemma invoke_spec n c h :
  connected c h -> wp (K := K) (invoke_notify_to_peer n) (fun b c' h' => b = true /\ c' = c /\ h' = with_sent (sent h ++ [Post (m_connection_id c) n]) h) (c, h).
Proof.
  intros Hc. unfold invoke_notify_to_peer. do 4 wp_step. wp_step.
  - do 2 wp_step. wp_step. done.
  - by apply bool_decide_eq_false in Eif.
Qed.

Lemma post_spec n c h :
  connected c h -> wp (K := K) (post n) (fun _ c' h' => c' = c /\ h' = with_sent (sent h ++ [Post (m_connection_id c) n]) h) (c, h).
Proof.
  intros Hc. unfold post. wp_step. eapply wp_mono; [by apply invoke_spec |]. intros b c' h' (_ & -> & ->). by wp_step.
Qed.

Lemma request_missing_objects_ok chk c h :
  connected c h -> wp (K := K) (request_missing_objects chk) (requested_ok chk c h) (c, h).
Proof.
  intros Hc. unfold request_missing_objects, requested_ok, next_step. wp_step. wp_step. wp_step. wp_step. cbn [fst snd].
  destruct (m_needed_objects c) as [| x needed] eqn:En.
  - wp_step; rewrite Eif.
    + unfold request_chain. wp_step. wp_step. wp_step. eapply wp_mono; [by apply post_spec |]. intros _ c' h' [-> ->].
      wp_step. exists [Post (m_connection_id c) (NOTIFY_REQUEST_CHAIN a)]. split; [done |]. split; [done |]. split; [done |]. by exists a.
    + wp_step; rewrite Eif0; [| wp_step; exists []; split; [by rewrite app_nil_r | done]].
      wp_step. unfold requestMissingPoolTransactions. do 4 wp_step. cbn [fst snd].
      set (go := _ ;; _). assert (Hgo : forall h1 ms, sent h1 = sent h ++ ms -> wp go (fun b c' h' => exists messages, sent h' = sent h ++ messages /\ b = true /\ c' = with_state state_normal c /\ m_synchronized h' = true) (c, h1)).
      { intros h1 ms Hs. subst go. wp_step. wp_step. wp_step. unfold on_connection_synchronized. wp_step. wp_step. cbn [fst snd].
        wp_step; [wp_step; wp_step; exists ms; done |].
        wp_step. wp_step. wp_step. wp_step. cbn [fst snd]. eexists (ms ++ _). rewrite app_assoc, <- Hs. done. }
      wp_step; [wp_step; apply (Hgo h []); by rewrite app_nil_r |].
      eapply wp_mono; [by apply post_spec |]. intros _ c' h' [-> ->]. by eapply Hgo.
  - destruct (next_batch chk (m_core h) 0 (x :: needed)) as [batch kept] eqn:Eb.
    apply next_batch_spec in Eb as (seen & Hseen & Hbatch & Hlen & _).
    wp_step. wp_step. wp_step. eapply wp_mono; [by apply post_spec |]. intros _ c' h' [-> ->]. wp_step.
    eexists. split; [reflexivity |]. cbn. repeat split; [lia |]. by exists seen.
Qed.
End Batches.

(** * Lite blocks *)

Section LiteBlocks.
Context {K : Type} `{Core K} `{Format}.
Context (others : Handler K -> Handler K * bool) (now : Z).

(** [m] makes the calls that [P] describes. *)
Definition calling {A} (P : list Call -> Prop) (m : M K A) : Prop :=
  forall c h, wp m (fun _ _ h' => exists calls, runs others h calls h' /\ P calls) (c, h).

Lemma silent_calling {A} (P : list Call -> Prop) (m : M K A) : P [] -> silent m -> calling P m.
Proof.
  intros HP Hm c h. eapply wp_mono; [apply Hm |]. intros a c' h' [E _]. exists []. split; [by apply runs_done | done].
Qed.

Lemma calling_after {A B} (P : list Call -> Prop) (m : M K A) (f : A -> M K B) :
  silent m -> (forall a, calling P (f a)) -> calling P (m ≫= f).
Proof.
  intros Hm Hf c h. apply wp_bind. eapply wp_mono; [apply Hm |]. intros a c1 h1 [E _].
  eapply wp_mono; [apply Hf |]. intros b c2 h2 (calls & Hr & HP). exists calls. split; [by eapply runs_core | done].
Qed.

Lemma incoming_txs_spec txs c h :
  wp (incoming_txs txs) (fun ok _ h' => exists calls, runs others h calls h'
    /\ calls `prefix_of` map (fun tx => CallTx tx true) txs /\ (ok = true -> calls = map (fun tx => CallTx tx true) txs)) (c, h).
Proof.
  revert h. induction txs as [| tx txs IH]; intros h; cbn [incoming_txs map].
  - wp_step. exists []. split; [by apply runs_done | done].
  - wp_step. wp_step. wp_step.
    + wp_step. exists [CallTx tx true]. split; [eapply runs_tx; [exact Hcall | by apply runs_done] |]. split; [apply prefix_cons, prefix_nil | done].
    + eapply wp_mono; [apply IH |]. intros ok c' h' (calls & Hr & Hp & Hok). exists (CallTx tx true :: calls).
      split; [eapply runs_tx; [exact Hcall | exact Hr] |]. split; [by apply prefix_cons |]. intros Ht. by rewrite (Hok Ht).
Qed.

Lemma push_block_calls txs block (announce : M K unit) :
  silent announce -> calling (fun calls => calls `prefix_of` map (fun tx => CallTx tx true) txs ++ [CallBlob block]) (push_block now txs block announce).
Proof.
  intros Ha c h. unfold push_block. wp_step. eapply wp_mono; [apply incoming_txs_spec |]. intros ok c1 h1 (calls & Hr & Hp & Hok).
  assert (Hquiet : forall m : M K unit, silent m -> forall l h2 c2, runs others h l h2 -> wp m (fun _ _ h' => exists calls0, runs others h calls0 h' /\ calls0 = l) (c2, h2)).
  { intros m Hm l h2 c2 Hl. eapply wp_mono; [apply Hm |]. intros _ c' h' [E _]. exists l. split; [by eapply runs_end | done]. }
  destruct ok.
  - rewrite (Hok eq_refl) in *. clear Hok Hp. wp_step. wp_step. cbn [fst snd].
    assert (Hr' : runs others h (map (fun tx => CallTx tx true) txs ++ [CallBlob block]) (with_core k h1))
      by (eapply runs_app; [exact Hr | eapply runs_blob; [exact Hcall | by apply runs_done]]).
    eapply (wp_mono _ (fun _ _ h' => exists calls, runs others h calls h' /\ calls = map (fun tx => CallTx tx true) txs ++ [CallBlob block]));
      [| intros _ _ h' (l & Hl & ->); by exists (map (fun tx => CallTx tx true) txs ++ [CallBlob block])].
    apply Hquiet; [| exact Hr']. silent; first [exact Ha | apply silent_drop | apply silent_pool_request | apply silent_request_chain].
  - eapply (wp_mono _ (fun _ _ h' => exists calls0, runs others h calls0 h' /\ calls0 = calls));
      [apply Hquiet; [apply silent_drop | exact Hr] |].
    intros _ _ h' (l & Hl & ->). exists calls. split; [done |]. by apply prefix_app_r.
Qed.

(** A transaction that is found for a hash: one that the peer provided, or one that the core has. *)
Definition found_for (k : K) (provided : gmap Hash bytes) (hash : Hash) (tx : bytes) : Prop :=
  provided !! hash = Some tx \/ exists t, getTransaction k hash = Ret (Some t) /\ tx = tx_blob t.

Lemma find_txs_spec provided hashes c h :
  wp (find_txs provided hashes) (fun r c' h' => c' = c /\ h' = h /\ (r.2 = [] -> Forall2 (found_for (m_core h) provided) hashes r.1)) (c, h).
Proof.
  induction hashes as [| hash hashes IH]; cbn [find_txs]; [by wp_step |].
  wp_step. eapply (wp_mono _ (fun found c' h' => c' = c /\ h' = h /\ forall tx, found = Some tx -> found_for (m_core h) provided hash tx)).
  { destruct (provided !! hash) as [tx |] eqn:E.
    - wp_step. split; [done |]. split; [done |]. intros tx' [= ->]. by left.
    - wp_step. wp_step. wp_step. split; [done |]. split; [done |]. destruct a as [t |]; [| done]. intros tx [= <-]. right. by exists t. }
  intros found c' h' (-> & -> & Hf). wp_step. eapply wp_mono; [exact IH |]. intros [have need] c' h' (-> & -> & Hr). cbn [fst snd] in *.
  destruct found as [tx |]; wp_step; [| done]. cbn [fst snd]. split; [done |]. split; [done |]. intros E. constructor; [by apply Hf | by apply Hr].
Qed.

Lemma provide_spec txs hash tx : provide txs !! hash = Some tx -> tx ∈ txs /\ blob_id tx = hash.
Proof.
  unfold provide. revert hash tx. induction txs as [| x txs IH] using rev_ind; intros hash tx; [done |].
  rewrite foldl_app. cbn [foldl]. destruct (decide (blob_id x = hash)) as [<- | Hne].
  - rewrite lookup_insert_eq. intros [= <-]. split; [apply elem_of_app; right; by left | done].
  - rewrite lookup_insert_ne by done. intros Hl. apply IH in Hl as [? ?]. split; [apply elem_of_app; by left | done].
Qed.

(** What a lite block with provided transactions makes the core do. *)
Definition lite_pushed (k : K) (arg : NOTIFY_NEW_LITE_BLOCK_request) (missingTxs : list bytes) (calls : list Call) : Prop :=
  calls = [] \/
  exists b have, parse_block (lb_block arg) = Some b
    /\ Forall2 (fun hash tx => (tx ∈ missingTxs /\ blob_id tx = hash) \/ exists t, getTransaction k hash = Ret (Some t) /\ tx = tx_blob t)
         (b_transactionHashes b) have
    /\ calls `prefix_of` map (fun tx => CallTx tx true) have ++ [CallBlob (lb_block arg)].

Lemma doPushLiteBlock_spec arg missingTxs c h :
  wp (doPushLiteBlock now arg missingTxs) (fun _ _ h' => exists calls, runs others h calls h' /\ lite_pushed (m_core h) arg missingTxs calls) (c, h).
Proof.
  assert (Hq : forall m : M K unit, silent m -> forall c h1, m_core h1 = m_core h ->
    wp m (fun _ _ h' => exists calls, runs others h calls h' /\ lite_pushed (m_core h) arg missingTxs calls) (c, h1)).
  { intros m Hm c1 h1 E. eapply wp_mono; [apply Hm |]. intros _ c' h' [E' _]. exists []. split; [apply runs_done; congruence | by left]. }
  unfold doPushLiteBlock. destruct (parse_block (lb_block arg)) as [b |] eqn:Eb; [| by apply Hq; [apply silent_set_context |]].
  wp_step. wp_step. cbn [fst snd]. wp_step; [apply Hq; [unfold shutdown; silent | done] |]. clear Eif.
  wp_step. eapply wp_mono; [apply find_txs_spec |]. intros [have need] c1 h1 (-> & -> & Hf). cbn [fst snd] in Hf. wp_step.
  - apply bool_decide_eq_true in Eif as ->. wp_step. wp_step.
    eapply wp_mono; [apply push_block_calls; unfold emit; apply silent_set_handler; intros; split; reflexivity |].
    intros _ c2 h2 (calls & Hr & Hp). exists calls. split; [exact Hr |]. right. exists b, have. split; [done |]. split; [| exact Hp].
    eapply Forall2_impl; [by apply Hf |]. intros hash tx [Hpr | Hk]; [left; by apply provide_spec | by right].
  - apply Hq; [| done]. unfold shutdown. silent; apply silent_invoke.
Qed.
End LiteBlocks.

(** * What goes wrong *)

Section Defects.
Context {K : Type} `{Core K} `{Format}.
Context (now : Z).

Lemma observed_total z c h :
  twp (K := K) (updateObservedHeight z) (fun _ c' h' => c' = c /\ m_core h' = m_core h /\ m_connections h' = m_connections h) (c, h).
Proof. unfold updateObservedHeight, recalculateMaxObservedHeight, notify_if_changed. repeat twp_step; repeat split. Qed.

Lemma unanswered_shuts arg missingTxs p c h :
  m_pending_lite_block c = Some p -> (exists x, x ∈ missed_transactions p /\ provide missingTxs !! x = None) ->
  twp (doPushLiteBlock now arg missingTxs) (fun _ c' h' => m_state c' = state_shutdown /\ m_core h' = m_core h) (c, h).
Proof.
  intros Hp (x & Hx & Hn). unfold doPushLiteBlock, shutdown. destruct (parse_block (lb_block arg)) as [b |]; [| by twp_step].
  twp_step. twp_step. rewrite Hp. twp_step; [twp_step; twp_step; by twp_step |]. exfalso.
  apply not_true_iff_false in Eif. apply Eif, existsb_exists. exists x.
  split; [by apply list_elem_of_In, elem_of_elements | by apply bool_decide_eq_true].
Qed.
End Defects.

(** * The theorems *)

Section Theorems.
Context {K : Type} `{Core K} `{Format}.
Context (others : Handler K -> Handler K * bool) (now : Z).

(** C10: a response to a request for blocks is either refused without a call to the core, and the connection ends; or its blocks are, one for one and
    all different, those requested on this connection, and the calls to the core are, in the order of the response, those for its
    blocks after the current top of the core: for each block the transactions that came with it and then the block itself, whose hashes are
    those that the block names; the calls break off only when the connection is shut down or set idle or the node stops. *)
Theorem only_requested_blocks_reach_the_core size arg c h c' h' :
  handle_response_get_objects others size arg (c, h) = Ret (tt, (c', h')) -> answered_by others arg c h c' h'.
Proof. intros E. exact (wp_run _ _ _ _ _ _ (response_answered others size arg c h) E). Qed.

(** C20: [request_missing_objects] on every branch: it asks for at most 128 of the needed blocks, in their order, leaving out those that
    are known, and forgets exactly what it asked or knew; without needed blocks it asks for more hashes, or it is done; and otherwise
    it fails and sends nothing. *)
Theorem request_missing_objects_spec chk c h b c' h' :
  connected c h -> request_missing_objects chk (c, h) = Ret (b, (c', h')) -> requested_ok chk c h b c' h'.
Proof. intros Hc E. exact (wp_run _ _ _ _ _ _ (request_missing_objects_ok chk c h Hc) E). Qed.

(** C21: a lite block is handed to the core only after all of its transactions, each one being provided by the peer with the right hash or
    known to the core already. *)
Theorem lite_block_is_complete arg missingTxs c h c' h' :
  doPushLiteBlock now arg missingTxs (c, h) = Ret (tt, (c', h')) ->
  exists calls, runs others h calls h' /\ lite_pushed (m_core h) arg missingTxs calls.
Proof. intros E. exact (wp_run _ _ _ _ _ _ (doPushLiteBlock_spec others now arg missingTxs c h) E). Qed.

(** C38: once a lite block waits for transactions, an honest peer that goes on talking is dropped: the next lite block that it sends, and any
    relayed transactions without one of those that are waited for, shut the connection down and are lost. *)
Theorem pending_lite_block_drops_the_peer p c h :
  m_state c = state_normal -> m_pending_lite_block c = Some p -> missed_transactions p <> ∅ ->
  (forall arg, exists c' h', handle_notify_new_lite_block now arg (c, h) = Ret (tt, (c', h')) /\ m_state c' = state_shutdown /\ m_core h' = m_core h)
  /\ (forall txs x, x ∈ missed_transactions p -> (forall tx, tx ∈ txs -> blob_id tx <> x) ->
        exists c' h', handle_notify_new_transactions now txs (c, h) = Ret (tt, (c', h')) /\ m_state c' = state_shutdown /\ m_core h' = m_core h).
Proof.
  intros Hs Hp Hne. split.
  - intros arg. cut (twp (handle_notify_new_lite_block now arg) (fun _ c' h' => m_state c' = state_shutdown /\ m_core h' = m_core h) (c, h)).
    { intros ([] & c' & h' & ? & ?). by exists c', h'. }
    unfold handle_notify_new_lite_block. twp_step. eapply twp_mono; [apply observed_total |]. intros _ c1 h1 (-> & E & _).
    twp_step. twp_step. twp_step. twp_step. cbn [fst snd]. twp_step; [| by apply bool_decide_eq_false in Eif].
    rewrite <- E. eapply unanswered_shuts; [exact Hp |].
    destruct (set_choose_L _ Hne) as [x Hx]. by exists x.
  - intros txs x Hx Hnone. cut (twp (handle_notify_new_transactions now txs) (fun _ c' h' => m_state c' = state_shutdown /\ m_core h' = m_core h) (c, h)).
    { intros ([] & c' & h' & ? & ?). by exists c', h'. }
    unfold handle_notify_new_transactions. twp_step. twp_step. twp_step; [| by apply bool_decide_eq_false in Eif].
    rewrite Hp. eapply unanswered_shuts; [exact Hp |]. exists x. split; [done |].
    destruct (provide txs !! x) as [tx |] eqn:Et; [| done]. apply provide_spec in Et as [Hin E]. by apply Hnone in Hin.
Qed.

(** A list of hashes that reaches one block too far is not refused, as a longer one is, and stalls the synchronisation: when its blocks
    are known, nothing more is asked of the peer and the connection goes on waiting. *)
Theorem chain_entry_one_too_far_stalls arg front c h :
  m_state c = state_synchronizing -> m_needed_objects c = [] -> head (m_block_ids arg) = Some front ->
  Forall (fun id => have_block (m_core h) id = true) (m_block_ids arg) ->
  0 <= start_height arg -> 0 < total_height arg < 2 ^ 32 - 1 -> start_height arg + Z.of_nat (length (m_block_ids arg)) - 1 = total_height arg ->
  exists c', handle_response_chain_entry arg (c, h) = Ret (tt, (c', h)) /\ m_state c' = state_synchronizing
    /\ m_needed_objects c' = [] /\ m_requested_objects c' = m_requested_objects c.
Proof.
  intros Hs Hn Hf Hk Hst Ht Hlen.
  cut (twp (handle_response_chain_entry arg) (fun _ c' h' => h' = h /\ m_state c' = state_synchronizing
    /\ m_needed_objects c' = [] /\ m_requested_objects c' = m_requested_objects c) (c, h)).
  { intros ([] & c' & h' & E & -> & ?). by exists c'. }
  unfold handle_response_chain_entry. destruct (m_block_ids arg) as [| x ids] eqn:Ei; [done |]. injection Hf as ->.
  assert (Hu : u32 (start_height arg + u32 (Z.of_nat (length (front :: ids))) - 1) = total_height arg).
  { rewrite (u32_small (Z.of_nat _)), u32_small by lia. lia. }
  assert (Hfilter : filter (fun id => have_block (m_core h) id = false) (front :: ids) = []).
  { clear -Hk. induction Hk as [| y l Hy _ IH]; [done |]. rewrite filter_cons_False by congruence. exact IH. }
  twp_step. twp_step. twp_step; [| apply Forall_cons_1 in Hk as [Hk _]; congruence].
  do 6 twp_step. cbn [with_response with_remote m_remote_blockchain_height m_last_response_height]. rewrite Hu, Z.ltb_irrefl. twp_step. twp_step. twp_step. twp_step.
  rewrite Hfilter. twp_step. unfold request_missing_objects. twp_step. twp_step. twp_step. twp_step.
  cbn [with_response with_remote with_objects m_needed_objects m_last_response_height m_remote_blockchain_height m_requested_objects].
  rewrite Hn. cbn [app]. rewrite (u32_small (total_height arg - 1)) by lia.
  destruct (Z.ltb_spec (total_height arg) (total_height arg - 1)); [lia |]. destruct (Z.eqb_spec (total_height arg) (total_height arg - 1)); [lia |].
  cbn [andb]. twp_step. twp_step. done.
Qed.
End Theorems.

(** * Examples *)

Import ProtocolDemo.
#[local] Existing Instances demo_format demo_core.

Definition demo_alone (h : Handler nat) : Handler nat * bool := (h, false).

(** Blocks 1 and 2 were requested and come; the core held one block. *)
Definition demo_downloading : Connection := demo_connection state_synchronizing [] (list_to_set [[1]; [2]]) 3 2.
Definition demo_response : NOTIFY_RESPONSE_GET_OBJECTS_request := mkResponseGetObjects [] [demo_entry 1; demo_entry 2] [] 3.

Lemma only_requested_blocks_reach_the_core_witness :
  exists c' h', handle_response_get_objects demo_alone 1000 demo_response (demo_downloading, demo_handler 1 demo_downloading) = Ret (tt, (c', h'))
    /\ m_core h' = 3%nat /\ answered_by demo_alone demo_response demo_downloading (demo_handler 1 demo_downloading) c' h'.
Proof.
  destruct (returns (fun r => bool_decide (m_core r.2.2 = 3%nat))
    (handle_response_get_objects demo_alone 1000 demo_response (demo_downloading, demo_handler 1 demo_downloading))) as ([[] [c' h']] & E & Hk);
    [vm_compute; reflexivity |].
  exists c', h'. split; [exact E |]. split; [exact (bool_decide_eq_true_1 _ Hk) |].
  exact (only_requested_blocks_reach_the_core demo_alone 1000 demo_response demo_downloading (demo_handler 1 demo_downloading) c' h' E).
Defined.

Definition demo_needing : Connection := demo_connection state_synchronizing [[1]; [2]] ∅ 3 2.

Lemma request_missing_objects_spec_witness :
  exists b c' h', request_missing_objects true (demo_needing, demo_handler 2 demo_needing) = Ret (b, (c', h'))
    /\ m_needed_objects c' = [] /\ requested_ok true demo_needing (demo_handler 2 demo_needing) b c' h'.
Proof.
  destruct (returns (fun r => bool_decide (m_needed_objects r.2.1 = [])) (request_missing_objects true (demo_needing, demo_handler 2 demo_needing)))
    as ([b [c' h']] & E & Hk); [vm_compute; reflexivity |].
  exists b, c', h'. split; [exact E |]. split; [exact (bool_decide_eq_true_1 _ Hk) |].
  apply (request_missing_objects_spec true demo_needing (demo_handler 2 demo_needing) b c' h'); [by exists demo_needing | exact E].
Defined.

Definition demo_normal (p : option PendingLiteBlock) : Connection := with_pending p (demo_connection state_normal [] ∅ 3 2).

Lemma lite_block_is_complete_witness :
  exists c' h', doPushLiteBlock 0 (mkNewLiteBlock [2] 3 0) [[102]] (demo_normal None, demo_handler 2 (demo_normal None)) = Ret (tt, (c', h'))
    /\ m_core h' = 3%nat
    /\ exists calls, runs demo_alone (demo_handler 2 (demo_normal None)) calls h' /\ lite_pushed 2%nat (mkNewLiteBlock [2] 3 0) [[102]] calls.
Proof.
  destruct (returns (fun r => bool_decide (m_core r.2.2 = 3%nat))
    (doPushLiteBlock 0 (mkNewLiteBlock [2] 3 0) [[102]] (demo_normal None, demo_handler 2 (demo_normal None)))) as ([[] [c' h']] & E & Hk);
    [vm_compute; reflexivity |].
  exists c', h'. split; [exact E |]. split; [exact (bool_decide_eq_true_1 _ Hk) |].
  exact (lite_block_is_complete demo_alone 0 (mkNewLiteBlock [2] 3 0) [[102]] (demo_normal None) (demo_handler 2 (demo_normal None)) c' h' E).
Defined.

Definition demo_pending : PendingLiteBlock := mkPendingLiteBlock (mkNewLiteBlock [2] 3 0) {[ [102] ]}.

Lemma pending_lite_block_drops_the_peer_witness :
  exists c' h', handle_notify_new_lite_block 0 (mkNewLiteBlock [3] 4 0) (demo_normal (Some demo_pending), demo_handler 2 (demo_normal (Some demo_pending)))
    = Ret (tt, (c', h')) /\ m_state c' = state_shutdown /\ m_core h' = 2%nat.
Proof.
  apply (proj1 (pending_lite_block_drops_the_peer 0 demo_pending (demo_normal (Some demo_pending)) (demo_handler 2 (demo_normal (Some demo_pending)))
    eq_refl eq_refl ltac:(discriminate)) (mkNewLiteBlock [3] 4 0)).
Defined.

Definition demo_too_far : NOTIFY_RESPONSE_CHAIN_ENTRY_request := mkResponseChainEntry 0 1 [[0]; [1]].

Lemma chain_entry_one_too_far_stalls_witness :
  exists c', handle_response_chain_entry demo_too_far (demo_connection state_synchronizing [] ∅ 0 0, demo_handler 2 (demo_connection state_synchronizing [] ∅ 0 0))
      = Ret (tt, (c', demo_handler 2 (demo_connection state_synchronizing [] ∅ 0 0)))
    /\ m_state c' = state_synchronizing /\ m_needed_objects c' = [] /\ m_requested_objects c' = ∅.
Proof.
  apply (chain_entry_one_too_far_stalls demo_too_far [0]); try reflexivity; [| cbn; lia].
  apply List.Forall_cons; [reflexivity |]. apply List.Forall_cons; [reflexivity |]. apply List.Forall_nil.
Defined.
