(* ===== verification/NetNode.v ===== *)
(** [NodeServer] ([src/src/P2p/NetNode.cpp]) around the protocol handler: the handshake in both directions, the timed
    synchronisation, and the life of a connection in [connectionHandler].

    Connecting, sending and pinging are the system's; what the peer answers, and whether the back ping succeeds, are
    arguments.  The command of the Elderfier signatures is left out. *)

From stdpp Require Import gmap.
From S2P Require Import Prelude Types TransactionPool PeerList P2pTypes NetHosts ProtocolHandler ProtocolDemo ProtocolSafety.

Record basic_node_data := mkNodeData {
  network_id : Z;
  nd_version : Z;
  local_time : Z;
  my_port : Z;
  peer_id : Z
}.

Record CORE_SYNC_DATA := mkSyncData { current_height : Z; top_id : Hash }.

Record handshake_request := mkHandshake { hs_node_data : basic_node_data; hs_payload_data : CORE_SYNC_DATA }.
Record handshake_response := mkHandshakeResponse {
  hr_node_data : basic_node_data;
  hr_payload_data : CORE_SYNC_DATA;
  hr_local_peerlist : list PeerlistEntry
}.
Record timed_sync_response := mkTimedSyncResponse {
  ts_local_time : Z;
  ts_payload_data : CORE_SYNC_DATA;
  ts_local_peerlist : list PeerlistEntry
}.

Inductive Command :=
| COMMAND_HANDSHAKE (arg : handshake_request) (ping_ok : bool)
| COMMAND_TIMED_SYNC (arg : CORE_SYNC_DATA)
| TIMED_SYNC_RESPONSE (rsp : timed_sync_response)
| COMMAND_PING
| NOTIFY (n : Notification).

Section NetNode.
Context {K : Type} `{Core K} `{Format}.
Context (others : Handler K -> Handler K * bool).
(** [time(nullptr)]. *)
Context (now : Z).
(** The network, the own peer id, [maxBlockBlobSize()]. *)
Context (m_network_id own_peer_id maxBlockBlobSize : Z).

Definition change_peerlist (f : PeerlistManager -> PeerlistManager) : M K unit := set_handler (with_peerlist f).

Definition process_sync_data (d : CORE_SYNC_DATA) (is_inital : bool) : M K unit :=
  process_payload_sync_data (current_height d) (top_id d) is_inital.

(** [false] when the times of the entries are not to be believed. *)
Definition remote_peerlist (local_time : Z) (peers : list PeerlistEntry) : M K bool :=
  h ← handler;
  match handle_remote_peerlist now local_time peers (m_peerlist h) with
  | None => mret false
  | Some m => change_peerlist (fun _ => m) ;; mret true
  end.

Definition reply : M K unit :=
  c ← context;
  h ← handler;
  emit (Reply (m_connection_id c) (get_peerlist_head (m_peerlist h) P2P_DEFAULT_PEERS_IN_HANDSHAKE) (get_payload_sync_data h)).

(** * Commands *)

(** While the peer is pinged the other fibres run. *)
Definition handle_handshake (arg : handshake_request) (ping_ok : bool) : M K unit :=
  let node_data := hs_node_data arg in
  set_context (with_version (nd_version node_data)) ;;
  c ← context;
  allowed ← is_remote_host_allowed now (m_remote_ip c);
  if negb allowed then shutdown
  else if negb (network_id node_data =? m_network_id) then _ ← add_host_fail now (m_remote_ip c); shutdown
  else if nd_version node_data <? P2P_MINIMUM_VERSION then shutdown
  else if negb (m_is_income c) then _ ← add_host_fail now (m_remote_ip c); shutdown
  else if negb (peerId c =? 0) then shutdown
  else
    process_sync_data (hs_payload_data arg) true ;;
    set_context (with_peerId (peer_id node_data)) ;;
    (if negb (peer_id node_data =? own_peer_id) && negb (my_port node_data =? 0) then
       yield others ;;
       if ping_ok then
         change_peerlist (append_with_peer_white (mkPeer (mkNetworkAddress (m_remote_ip c) (my_port node_data)) (peer_id node_data) now))
       else mret tt
     else mret tt) ;;
    reply.

Definition handle_timed_sync (arg : CORE_SYNC_DATA) : M K unit :=
  process_sync_data arg false ;;
  reply.

Definition handleTimedSyncResponse (rsp : timed_sync_response) : M K bool :=
  ok ← remote_peerlist (ts_local_time rsp) (ts_local_peerlist rsp);
  if (ok : bool) then
    c ← context;
    (if m_is_income c then mret tt
     else change_peerlist (set_peer_just_seen now (peerId c) (m_remote_ip c) (m_remote_port c))) ;;
    process_sync_data (ts_payload_data rsp) false ;;
    mret true
  else mret false.

Definition handle_command (cmd : Command) : M K unit :=
  match cmd with
  | COMMAND_HANDSHAKE arg ping_ok => handle_handshake arg ping_ok
  | COMMAND_TIMED_SYNC arg => handle_timed_sync arg
  | TIMED_SYNC_RESPONSE rsp => ok ← handleTimedSyncResponse rsp; if (ok : bool) then mret tt else shutdown
  | COMMAND_PING => mret tt
  | NOTIFY n => handleCommand others now maxBlockBlobSize n
  end.

(** * Outgoing connections *)

(** [rsp] is what the peer answers, if it does. *)
Definition handshake (rsp : option handshake_response) (just_take_peerlist : bool) : M K bool :=
  match rsp with
  | None => mret false
  | Some rsp =>
      let node_data := hr_node_data rsp in
      set_context (with_version (nd_version node_data)) ;;
      if negb (network_id node_data =? m_network_id) then mret false
      else if nd_version node_data <? P2P_MINIMUM_VERSION then mret false
      else
        ok ← remote_peerlist (local_time node_data) (hr_local_peerlist rsp);
        c ← context;
        if negb ok then _ ← add_host_fail now (m_remote_ip c); mret false
        else if just_take_peerlist then mret true
        else
          process_sync_data (hr_payload_data rsp) true ;;
          set_context (with_peerId (peer_id node_data)) ;;
          change_peerlist (set_peer_just_seen now (peer_id node_data) (m_remote_ip c) (m_remote_port c)) ;;
          mret (negb (peer_id node_data =? own_peer_id))
  end.

(** The context is kept only when the handshake succeeds. *)
Definition try_to_connect_and_handshake_with_new_peer (id ip port : Z) (rsp : option handshake_response) (just_take_peerlist : bool)
    (first_seen_stamp : Z) (h : Handler K) : outcome (bool * Handler K) :=
  '(ok, (c, h)) ← handshake rsp just_take_peerlist (new_connection id ip port false, h);
  if negb ok || just_take_peerlist then Ret (ok, h)
  else
    let h := with_peerlist (append_with_peer_white (mkPeer (mkNetworkAddress ip port) (peerId c) now)) h in
    let stamp := if first_seen_stamp =? 0 then now else first_seen_stamp in
    let h := with_peerlist (append_with_peer_anchor (mkAnchor (mkNetworkAddress ip port) (peerId c) stamp)) h in
    if m_stop h then Throw "InterruptedException"
    else Ret (true, with_connections (<[id := c]> (m_connections h)) h).

(** [acceptLoop]. *)
Definition accept (id ip port : Z) (h : Handler K) : Handler K :=
  with_connections (<[id := new_connection id ip port true]> (m_connections h)) h.

(** * The loop of a connection *)

(** What is done before a command is read. *)
Definition before_read : M K unit :=
  c ← context;
  if bool_decide (m_state c = state_sync_required) then
    set_context (with_state state_synchronizing) ;;
    start_sync
  else if bool_decide (m_state c = state_pool_sync_required) then
    set_context (with_state state_normal) ;;
    requestMissingPoolTransactions
  else mret tt.

(** [m_stop] stands for [m_stopEvent], which is set with it. *)
Definition on_connection_close : M K unit :=
  c ← context;
  h ← handler;
  (if negb (m_stop h) && negb (m_is_income c) then
     change_peerlist (remove_from_peer_anchor (mkNetworkAddress (m_remote_ip c) (m_remote_port c)))
   else mret tt) ;;
  onConnectionClosed.

Definition close (id : Z) (c : Connection) (h : Handler K) : outcome (Handler K) :=
  '(_, (_, h)) ← on_connection_close (c, h);
  Ret (with_connections (delete id (m_connections h)) h).

(** One turn of the loop: a command is handled, and the connection is closed or made ready for the next one. *)
Definition serve (id : Z) (cmd : Command) (h : Handler K) : outcome (Handler K) :=
  match m_connections h !! id with
  | None => Undefined
  | Some c =>
      '(_, (c, h)) ← handle_command cmd (c, h);
      if bool_decide (m_state c = state_shutdown) then close id c h
      else
        '(_, (c, h)) ← before_read (c, h);
        Ret (with_connections (<[id := c]> (m_connections h)) h)
  end.

(** [ban_host], called outside of the connections. *)
Definition ban_host (address_ip seconds : Z) (h : Handler K) : Handler K :=
  with_hosts (m_host_fails_score h) (<[address_ip := now + seconds]> (m_blocked_hosts h))
    (with_connections (shut_host address_ip <$> m_connections h) h).

(** * Lemmas *)

Lemma ban_host_block ip s c h : block_host now ip s (c, h) = Ret (true, (shut_host ip c, ban_host ip s h)).
Proof. reflexivity. Qed.

Lemma process_known d c h :
  m_state c = state_shutdown -> have_block (m_core h) (top_id d) = true ->
  twp (process_sync_data d false)
    (fun _ c' h' => m_state c' = state_normal /\ m_core h' = m_core h /\ m_connections h' = m_connections h
                    /\ m_blocked_hosts h' = m_blocked_hosts h /\ m_remote_ip c' = m_remote_ip c) (c, h).
Proof.
  intros Hs Hb. unfold process_sync_data, process_payload_sync_data. do 4 twp_step. rewrite Hs. rewrite !bool_decide_false by done. cbn [andb].
  rewrite Hb. twp_step. twp_step. twp_step.
  unfold updateObservedHeight, recalculateMaxObservedHeight, notify_if_changed, emit. repeat twp_step; repeat split.
Qed.

Lemma total_count z c h :
  twp (K := K) (count_peers z) (fun _ c' h' => c' = c /\ m_peersCount h' = u64 (m_peersCount h + z) /\ m_connections h' = m_connections h) (c, h).
Proof. unfold count_peers, emit. repeat twp_step. done. Qed.

(** A part that leaves the context, the count and the connections. *)
Definition keeps (c : Connection) (h : Handler K) (c' : Connection) (h' : Handler K) : Prop :=
  c' = c /\ m_peersCount h' = m_peersCount h /\ m_connections h' = m_connections h.

Lemma recalculate_total c h : twp (K := K) recalculateMaxObservedHeight (fun _ => keeps c h) (c, h).
Proof. unfold recalculateMaxObservedHeight. by repeat twp_step. Qed.

Lemma notify_total z c h : twp (K := K) (notify_if_changed z) (fun _ => keeps c h) (c, h).
Proof. unfold notify_if_changed, emit. by repeat twp_step. Qed.

Lemma close_shutdown id c h :
  m_state c = state_shutdown ->
  exists h', close id c h = Ret h' /\ m_peersCount h' = u64 (m_peersCount h - 1) /\ m_connections h' = delete id (m_connections h).
Proof.
  intros Hs.
  assert (Ht : twp on_connection_close (fun _ _ h' => m_peersCount h' = u64 (m_peersCount h - 1) /\ m_connections h' = m_connections h) (c, h)).
  { unfold on_connection_close, change_peerlist. do 5 twp_step.
    eapply (twp_mono _ (fun _ => keeps c h)); [by repeat twp_step |].
    intros _ c1 h1 (-> & Hp & Hc). unfold onConnectionClosed. do 3 twp_step. eapply twp_mono; [apply recalculate_total |].
    intros _ c2 h2 (-> & Hp2 & Hc2). twp_step. eapply twp_mono; [apply notify_total |]. intros _ c3 h3' (-> & Hp3 & Hc3).
    twp_step. twp_step. rewrite Hs. twp_step; [by apply bool_decide_eq_true in Eif |].
    eapply twp_mono; [apply total_count |]. intros _ _ h3 (_ & E1 & E2). rewrite E1, E2, Hp3, Hp2, Hp, Hc3, Hc2, Hc. done. }
  destruct Ht as (u & c' & h' & E & H1 & H2). unfold close. rewrite E.
  exists (with_connections (delete id (m_connections h')) h'). split; [done |]. split; [done |]. cbn. by rewrite H2.
Qed.
End NetNode.

(** * The theorems *)

Section Theorems.
Context {K : Type} `{Core K} `{Format}.
Context (others : Handler K -> Handler K * bool) (now m_network_id own_peer_id maxBlockBlobSize : Z).

Abbreviation serve := (serve others now m_network_id own_peer_id maxBlockBlobSize).
Abbreviation connect := (try_to_connect_and_handshake_with_new_peer now m_network_id own_peer_id).

Lemma fail_total ip c h :
  twp (K := K) (add_host_fail now ip)
    (fun _ c' h' => m_peersCount h' = m_peersCount h /\ dom (m_connections h') = dom (m_connections h)) (c, h).
Proof.
  unfold add_host_fail, block_host. do 4 twp_step. twp_step; repeat twp_step; [| done].
  cbn. split; [done |]. apply dom_fmap_L.
Qed.

Lemma handshake_rejected arg ping_ok id ip port h :
  m_blocked_hosts h !! ip = None -> network_id (hs_node_data arg) <> m_network_id ->
  twp (handle_handshake others now m_network_id own_peer_id arg ping_ok)
    (fun _ c' h' => m_state c' = state_shutdown /\ m_peersCount h' = m_peersCount h /\ dom (m_connections h') = dom (m_connections h))
    (new_connection id ip port true, h).
Proof.
  intros Hb Hn. unfold handle_handshake. do 4 twp_step. unfold is_remote_host_allowed.
  do 3 twp_step. cbn [with_version new_connection m_remote_ip]. rewrite Hb. twp_step. cbn [negb].
  twp_step; [| by apply negb_false_iff, Z.eqb_eq in Eif].
  twp_step. eapply twp_mono; [apply fail_total |]. intros b c' h' [? ?]. unfold shutdown. twp_step. done.
Qed.

(** The number of peers drifts.  An incoming connection of a foreign network is never counted but takes one off when it is
    closed, from zero to 2^64 - 1; and a connection that turns out to lead to the node itself is counted and never taken off. *)
Theorem peers_count_drifts arg ping_ok rsp id ip port h :
  m_connections h !! id = None -> m_blocked_hosts h !! ip = None -> network_id (hs_node_data arg) <> m_network_id ->
  network_id (hr_node_data rsp) = m_network_id -> nd_version (hr_node_data rsp) = P2P_CURRENT_VERSION ->
  peer_id (hr_node_data rsp) = own_peer_id -> hr_local_peerlist rsp = [] ->
  (exists h', serve id (COMMAND_HANDSHAKE arg ping_ok) (accept id ip port h) = Ret h'
     /\ dom (m_connections h') = dom (m_connections h) /\ m_peersCount h' = u64 (m_peersCount h - 1))
  /\ (exists h', connect id ip port (Some rsp) false 0 h = Ret (false, h')
     /\ m_connections h' = m_connections h /\ m_peersCount h' = u64 (m_peersCount h + 1)).
Proof.
  intros Hid Hb Hn Hnet Hv Hown Hp. split.
  - unfold NetNode.serve, accept. cbn [with_connections m_connections]. rewrite lookup_insert_eq.
    destruct (handshake_rejected arg ping_ok id ip port (accept id ip port h)) as (u & c' & h' & E & Hs & Hc & Hd); [done.. |].
    cbn [handle_command]. unfold accept in E. rewrite E. cbn [mbind outcome_bind]. rewrite bool_decide_true by done.
    destruct (close_shutdown id c' h' Hs) as (h'' & -> & Hc' & Hd'). exists h''. split; [done |].
    split; [| by rewrite Hc', Hc]. rewrite Hd', dom_delete_L, Hd. cbn [accept with_connections m_connections].
    rewrite dom_insert_L. apply not_elem_of_dom in Hid.
    apply leibniz_equiv. intros x. rewrite elem_of_difference, elem_of_union, !elem_of_singleton.
    split; [tauto |]. intros Hx. split; [by right | by intros ->].
  - cut (twp (handshake now m_network_id own_peer_id (Some rsp) false)
           (fun b _ h' => b = false /\ m_connections h' = m_connections h /\ m_peersCount h' = u64 (m_peersCount h + 1))
           (new_connection id ip port false, h)).
    { intros (b & c' & h' & E & -> & ? & ?). exists h'. unfold connect. by rewrite E. }
    cbn [handshake]. twp_step. twp_step. twp_step; [by rewrite Hnet, Z.eqb_refl in Eif |]. clear Eif.
    twp_step; [rewrite Hv in Eif; discriminate |]. clear Eif. unfold remote_peerlist, change_peerlist. do 3 twp_step. rewrite Hp. cbn [handle_remote_peerlist fix_time_delta mbind option_bind].
    do 5 twp_step. cbn [negb]. twp_step.
    unfold process_sync_data, process_payload_sync_data. do 4 twp_step. cbn [with_version new_connection m_state].
    rewrite (bool_decide_true (state_befor_handshake = _)), (bool_decide_false (state_befor_handshake = state_synchronizing)) by done. cbn [andb negb].
    twp_step. eapply (twp_mono _ (fun _ _ h' => m_peersCount h' = m_peersCount h /\ m_connections h' = m_connections h)).
    { destruct (have_block _ _); [| by twp_step]. unfold on_connection_synchronized, emit. repeat twp_step; done. }
    intros _ c1 h1 [Hc1 Hd1]. twp_step.
    eapply (twp_mono _ (fun _ _ h' => m_peersCount h' = m_peersCount h /\ m_connections h' = m_connections h)).
    { unfold updateObservedHeight, recalculateMaxObservedHeight, notify_if_changed, emit. repeat twp_step; done. }
    intros _ c2 h2 [Hc2 Hd2]. do 2 twp_step. eapply twp_mono; [apply total_count |]. intros _ c3 h3 (-> & Hc3 & Hd3).
    do 5 twp_step. cbn [with_peerlist m_connections m_peersCount]. rewrite Hown, Z.eqb_refl, Hd3, Hd2, Hc3, Hc2. done.
Qed.

(** C40: blocking a host marks its connections to be closed, but a timed synchronisation of a peer whose top block is known makes such a
    connection a normal one again: it survives while its host is blocked. *)
Theorem timed_sync_revives_a_blocked_connection id c ip seconds d h :
  m_connections h !! id = Some c -> m_remote_ip c = ip -> have_block (m_core h) (top_id d) = true ->
  exists h' c', serve id (COMMAND_TIMED_SYNC d) (ban_host now ip seconds h) = Ret h'
    /\ m_connections h' !! id = Some c' /\ m_state c' = state_normal /\ m_remote_ip c' = ip /\ m_blocked_hosts h' !! ip = Some (now + seconds).
Proof.
  intros Hc Hip Hb. unfold NetNode.serve. cbn [ban_host with_hosts with_connections m_connections].
  rewrite lookup_fmap, Hc. cbn [fmap option_fmap option_map].
  assert (Es : shut_host ip c = with_state state_shutdown c) by (unfold shut_host; by rewrite Hip, Z.eqb_refl). rewrite Es.
  set (hb := ban_host now ip seconds h).
  assert (Ht : twp (handle_command others now m_network_id own_peer_id maxBlockBlobSize (COMMAND_TIMED_SYNC d))
    (fun _ c' h' => m_state c' = state_normal /\ m_remote_ip c' = ip /\ m_blocked_hosts h' !! ip = Some (now + seconds)) (with_state state_shutdown c, hb)).
  { cbn [handle_command]. unfold handle_timed_sync. twp_step.
    eapply twp_mono; [by apply process_known |]. intros _ c1 h1 (Hs & Hk & Hcs & Hbl & Hr).
    unfold reply, emit. do 5 twp_step. cbn. split; [done |]. split; [by rewrite Hr |]. rewrite Hbl. apply lookup_insert_eq. }
  destruct Ht as (u & c1 & h1 & E & Hs & Hr & Hbl). rewrite E. cbn [mbind outcome_bind]. rewrite bool_decide_false by congruence.
  assert (Eb : before_read (c1, h1) = Ret (tt, (c1, h1))).
  { assert (Hbr : twp before_read (fun _ c' h' => c' = c1 /\ h' = h1) (c1, h1)).
    { unfold before_read. twp_step. twp_step. rewrite !bool_decide_false by congruence. by twp_step. }
    by destruct Hbr as ([] & c' & h' & E' & -> & ->). }
  rewrite Eb. exists (with_connections (<[id:=c1]> (m_connections h1)) h1), c1. split; [done |].
  cbn. by rewrite lookup_insert_eq.
Qed.
End Theorems.

(** * Examples *)

Import ProtocolDemo.
#[local] Existing Instances demo_format demo_core.

Definition demo_node_data (network : Z) : basic_node_data := mkNodeData network P2P_CURRENT_VERSION 500 0 7.
Definition demo_foreign : handshake_request := mkHandshake (demo_node_data 2) (mkSyncData 3 [2]).
Definition demo_self : handshake_response := mkHandshakeResponse (demo_node_data 1) (mkSyncData 3 [2]) [].
Definition demo_known : Connection := with_state state_normal (demo_connection state_normal [] ∅ 3 2).

(** Connection 1 is there, connection 2 is new; the node is peer 7 of network 1. *)
Lemma peers_count_drifts_witness :
  exists h1 h2, serve demo_alone 500 1 7 1000 2 (COMMAND_HANDSHAKE demo_foreign true) (accept 2 99 10808 (demo_handler 3 demo_known)) = Ret h1
    /\ m_peersCount h1 = 0
    /\ try_to_connect_and_handshake_with_new_peer 500 1 7 2 99 10808 (Some demo_self) false 0 (demo_handler 3 demo_known) = Ret (false, h2)
    /\ m_peersCount h2 = 2.
Proof.
  destruct (peers_count_drifts demo_alone 500 1 7 1000 demo_foreign true demo_self 2 99 10808 (demo_handler 3 demo_known))
    as [(h1 & E1 & _ & C1) (h2 & E2 & _ & C2)]; try reflexivity; [discriminate |].
  exists h1, h2. split; [exact E1 |]. split; [rewrite C1; reflexivity |]. split; [exact E2 |]. rewrite C2. reflexivity.
Defined.

Lemma timed_sync_revives_a_blocked_connection_witness :
  exists h' c', serve demo_alone 500 1 7 1000 1 (COMMAND_TIMED_SYNC (mkSyncData 3 [2])) (ban_host 500 0x04030201 60 (demo_handler 3 demo_known)) = Ret h'
    /\ m_connections h' !! 1 = Some c' /\ m_state c' = state_normal /\ m_blocked_hosts h' !! 0x04030201 = Some 560.
Proof.
  destruct (timed_sync_revives_a_blocked_connection demo_alone 500 1 7 1000 1 demo_known 0x04030201 60 (mkSyncData 3 [2]) (demo_handler 3 demo_known))
    as (h' & c' & E & Hc & Hs & _ & Hb); try reflexivity.
  exists h', c'. split; [exact E |]. split; [exact Hc |]. split; [exact Hs | exact Hb].
Defined.
