(* ===== verification/ProtocolLiveness.v ===== *)
(** Two nodes that run the handlers of [ProtocolHandler]: one downloads the chain of the other, and the download ends.

    The core of the node that follows and the core of the node that serves are used through the records [follows] and
    [serves], which state what an honest node's core does on a given chain.  A session takes turns: the request is
    handled by the peer, its answer by the node, until the node is no longer synchronising. *)

From stdpp Require Import gmap sets list.
From S2P Require Import Prelude Types TransactionPool PeerList P2pTypes NetHosts ProtocolHandler ProtocolDemo ProtocolSafety.

(** A block of the chain that is downloaded. *)
Record remote_block := mkRemote { rb_id : Hash; rb_block : Block; rb_entry : block_complete_entry }.

Section Session.
Context {K : Type} `{Core K} `{Format}.
Context (now maxBlockBlobSize : Z).

(** No other connection is active. *)
Definition alone (h : Handler K) : Handler K * bool := (h, false).

(** What was posted to a peer. *)
Definition posts (id : Z) (l : list Sent) : list Notification :=
  omap (fun e => match e with Post i n => if i =? id then Some n else None | _ => None end) l.

#[local] Arguments posts : simpl never.

(** A command is handled; what is posted to the peer meanwhile. *)
Definition turn (n : Notification) (s : Connection * Handler K) : outcome (list Notification * (Connection * Handler K)) :=
  '(_, (c, h)) ← handleCommand alone now maxBlockBlobSize n (s.1, with_sent [] s.2);
  Ret (posts (m_connection_id c) (sent h), (c, h)).

Fixpoint session (fuel : nat) (requests : list Notification) (local peer : Connection * Handler K) : outcome ((Connection * Handler K) * (Connection * Handler K)) :=
  match fuel, requests with
  | S fuel, req :: _ =>
      '(answers, peer) ← turn req peer;
      match answers with
      | [] => Ret (local, peer)
      | answer :: _ =>
          '(requests, local) ← turn answer local;
          if bool_decide (m_state local.1 = state_synchronizing) then session fuel requests local peer else Ret (local, peer)
      end
  | _, _ => Ret (local, peer)
  end.

(** * The chain and the two cores *)

Context (chain : list remote_block).

Abbreviation ids := (map rb_id chain).
Abbreviation N := (length chain).

Definition genuine (rb : remote_block) : Prop :=
  parse_block (ce_block (rb_entry rb)) = Some (rb_block rb) /\ block_id (rb_block rb) = Ret (rb_id rb)
  /\ map blob_id (ce_txs (rb_entry rb)) = b_transactionHashes (rb_block rb)
  /\ Z.of_nat (length (ce_block (rb_entry rb))) <= maxBlockBlobSize.

Record chain_ok : Prop := {
  ch_genuine : Forall genuine chain;
  ch_unique : NoDup ids;
  ch_nonempty : (0 < N)%nat;
  ch_size : Z.of_nat N < 2 ^ 32
}.

(** The core of the peer holds the chain and answers with it. *)
Record serves (k : K) : Prop := {
  sv_genesis : exists g, head ids = Some g /\ getBlockIdByHeight k 0 = Ret g;
  sv_chain : forall n front rest, ids !! n = Some front -> last (front :: rest) = head ids ->
    findBlockchainSupplement k (front :: rest) BLOCKS_IDS_SYNCHRONIZING_DEFAULT_COUNT
    = Ret (mkResponseChainEntry (Z.of_nat n) (Z.of_nat N) (take (Z.to_nat BLOCKS_IDS_SYNCHRONIZING_DEFAULT_COUNT) (drop n ids)));
  sv_objects : forall n b, handle_get_objects k [] (take b (drop n ids))
    = Ret (true, mkResponseGetObjects [] (map rb_entry (take b (drop n chain))) [] (Z.of_nat N))
}.

(** The core of the node holds the first [n] blocks of the chain, and it accepts the next one with its transactions. *)
Record follows (holds : K -> nat -> Prop) : Prop := {
  fo_have : forall k n i id, holds k n -> ids !! i = Some id -> have_block k id = bool_decide (i < n)%nat;
  fo_top : forall k n id, holds k (S n) -> ids !! n = Some id -> (get_blockchain_top k).2 = id;
  fo_sparse : forall k n id, holds k (S n) -> ids !! n = Some id -> exists rest, buildSparseChain k = Ret (id :: rest) /\ last (id :: rest) = head ids;
  fo_tx : forall k n rb tx, holds k n -> chain !! n = Some rb -> tx ∈ ce_txs (rb_entry rb) ->
    exists tvc k', handle_incoming_tx tx true k = Ret (tvc, k') /\ m_verification_failed tvc = false /\ holds k' n;
  fo_block : forall k n rb, holds k n -> chain !! n = Some rb ->
    exists bvc k', handle_incoming_block (rb_block rb) k = Ret (bvc, k') /\ bv_verification_failed bvc = false
      /\ m_marked_as_orphaned bvc = false /\ m_already_exists bvc = false /\ holds k' (S n)
}.

(** [n] blocks are held and [b] are requested; the list of hashes reached up to [m]. *)
Record downloading (holds : K -> nat -> Prop) (n b m : nat) (c : Connection) (h : Handler K) : Prop := {
  dl_holds : holds (m_core h) n;
  dl_state : m_state c = state_synchronizing;
  dl_stop : m_stop h = false;
  dl_connected : connected c h;
  dl_bounds : (0 < n)%nat /\ (n + b <= m)%nat /\ (m <= N)%nat;
  dl_last : (0 < b)%nat -> m_last_response_height c = Z.of_nat m - 1;
  dl_requested : m_requested_objects c = list_to_set (take b (drop n ids));
  dl_needed : m_needed_objects c = take (m - (n + b)) (drop (n + b) ids)
}.

(** * A response with requested blocks *)

Definition parsed (rb : remote_block) : Hash * parsed_block_entry := (rb_id rb, mkParsed (rb_block rb) (ce_txs (rb_entry rb))).

(** The parts of the handler that a download does not change, the core apart. *)
Definition same_place (h h' : Handler K) : Prop :=
  m_stop h' = m_stop h /\ m_connections h' = m_connections h /\ forall id, posts id (sent h') = posts id (sent h).

Lemma with_objects_same c : with_objects (m_needed_objects c) (m_requested_objects c) c = c.
Proof. by destruct c. Qed.

Lemma parse_batch l count c h :
  Forall genuine l -> NoDup (map rb_id l) -> Forall (fun rb => rb_id rb ∈ m_requested_objects c) l ->
  Forall (fun rb => have_block (m_core h) (rb_id rb) = false) l ->
  twp (parse_blocks maxBlockBlobSize count (map rb_entry l))
    (fun r c' h' => h' = h /\ r = Some (map parsed l)
       /\ c' = with_objects (m_needed_objects c) (m_requested_objects c ∖ list_to_set (map rb_id l)) c) (c, h).
Proof.
  intros Hg. revert count c. induction Hg as [| rb l (Hparse & Hid & Htx & Hsz) _ IH]; intros count c Hn Hr Hk; cbn [map parse_blocks].
  { twp_step. split; [done |]. split; [done |]. cbn [list_to_set]. by rewrite difference_empty_L, with_objects_same. }
  apply NoDup_cons in Hn as [Hnin Hn]. apply Forall_cons_1 in Hr as [Hr0 Hr]. apply Forall_cons_1 in Hk as [Hk0 Hk].
  destruct (Z.ltb_spec maxBlockBlobSize (Z.of_nat (length (ce_block (rb_entry rb))))); [lia |]. rewrite Hparse.
  twp_step. eapply twp_lift; [exact Hid |]. do 4 twp_step. rewrite Hk0, andb_false_r. rewrite bool_decide_false by (intros Hf; by apply Hf).
  assert (El : length (b_transactionHashes (rb_block rb)) = length (ce_txs (rb_entry rb))) by (by rewrite <- Htx, length_map).
  rewrite El, Nat.eqb_refl. cbn [negb]. do 3 twp_step.
  eapply twp_mono; [apply IH; [done | | done] |].
  - cbn. apply Forall_forall. intros rb' Hin. apply elem_of_difference. split; [by apply (proj1 (Forall_forall _ _) Hr) |].
    intros E%elem_of_singleton. apply Hnin. rewrite <- E. by apply list_elem_of_fmap_2.
  - intros r c' h' (-> & -> & ->). twp_step. split; [done |]. split; [done |]. cbn. by rewrite difference_difference_l_L.
Qed.

Section Following.
Context (holds : K -> nat -> Prop) (Hfollows : follows holds).

Lemma process_txs_ok n rb txs c h :
  holds (m_core h) n -> chain !! n = Some rb -> (forall tx, tx ∈ txs -> tx ∈ ce_txs (rb_entry rb)) ->
  twp (process_txs txs (map blob_id txs)) (fun ok c' h' => ok = true /\ c' = c /\ holds (m_core h') n /\ same_place h h') (c, h).
Proof.
  intros Hh Hrb. revert h Hh. induction txs as [| tx txs IH]; intros h Hh Hin; cbn [process_txs map]; [by twp_step |].
  rewrite bool_decide_true by done. twp_step.
  destruct (fo_tx _ Hfollows _ n rb tx Hh Hrb) as (tvc & k' & E & Hv & Hk'); [apply Hin; left |].
  eapply twp_call; [exact E |]. rewrite Hv. eapply twp_mono; [apply IH; [exact Hk' | intros tx' ?; apply Hin; by right] |].
  intros ok c' h' (-> & -> & ? & Hs). done.
Qed.

Lemma processObjects_ok l n c h :
  holds (m_core h) n -> m_stop h = false -> l `prefix_of` drop n chain -> Forall genuine l ->
  twp (processObjects alone (map snd (map parsed l)))
    (fun ok c' h' => ok = true /\ c' = c /\ holds (m_core h') (n + length l)%nat /\ same_place h h') (c, h).
Proof.
  intros Hh Hstop Hl Hg. revert n h Hh Hstop Hl. induction Hg as [| rb l (_ & _ & Htx & _) _ IH]; intros n h Hh Hstop Hl; cbn [map processObjects].
  { twp_step. by rewrite Nat.add_0_r. }
  assert (Hrb : chain !! n = Some rb).
  { destruct Hl as [rest E]. rewrite <- (Nat.add_0_r n), <- lookup_drop, E. done. }
  assert (Hl' : l `prefix_of` drop (S n) chain).
  { rewrite (drop_S _ _ _ Hrb) in Hl. by apply prefix_cons_inv_2 in Hl. }
  do 2 twp_step. rewrite Hstop. cbn [parsed snd pe_txs pe_block]. rewrite <- Htx. twp_step.
  eapply twp_mono; [eapply process_txs_ok; [exact Hh | exact Hrb | done] |]. intros ok c1 h1 (-> & -> & Hh1 & Hs1 & Hc1 & Hp1).
  destruct (fo_block _ Hfollows _ n rb Hh1 Hrb) as (bvc & k' & E & Hf1 & Hf2 & Hf3 & Hk').
  twp_step. eapply twp_call; [exact E |]. rewrite Hf1, Hf2, Hf3. twp_step.
  unfold yield, alone. do 4 twp_step. twp_step.
  eapply twp_mono; [apply (IH (S n)); [exact Hk' | cbn; congruence | done] |].
  intros ok c2 h2 (-> & -> & Hh2 & Hs2 & Hc2 & Hp2). cbn [length]. replace (n + S (length l))%nat with (S n + length l)%nat by lia.
  cbn in Hs2, Hc2. split; [done |]. split; [done |]. split; [done |].
  split; [congruence |]. split; [congruence |]. intros id. rewrite Hp2. exact (Hp1 id).
Qed.

(** ** What is asked next *)

Definition range (n m : nat) : list Hash := take (m - n) (drop n ids).

Lemma range_unknown k n m : holds k n -> Forall (fun id => have_block k id = false) (range n m).
Proof.
  intros Hk. apply Forall_forall. intros id (i & Hi)%list_elem_of_lookup. unfold range in Hi. apply lookup_take_Some in Hi as [Hi _].
  rewrite lookup_drop in Hi. rewrite (fo_have _ Hfollows _ _ _ _ Hk Hi). apply bool_decide_false. lia.
Qed.

Lemma next_batch_unknown chk k count needed :
  (count <= BLOCKS_SYNCHRONIZING_DEFAULT_COUNT)%nat -> Forall (fun id => have_block k id = false) needed ->
  next_batch chk k count needed
  = (take (BLOCKS_SYNCHRONIZING_DEFAULT_COUNT - count) needed, drop (BLOCKS_SYNCHRONIZING_DEFAULT_COUNT - count) needed).
Proof.
  intros Hc Hn. revert count Hc. induction Hn as [| id needed Hid _ IH]; intros count Hc; cbn [next_batch].
  - by rewrite take_nil, drop_nil.
  - destruct (Nat.leb_spec BLOCKS_SYNCHRONIZING_DEFAULT_COUNT count) as [Hle | Hlt].
    + by replace (BLOCKS_SYNCHRONIZING_DEFAULT_COUNT - count)%nat with O by lia.
    + rewrite Hid, andb_false_r, IH by lia.
      replace (BLOCKS_SYNCHRONIZING_DEFAULT_COUNT - count)%nat with (S (BLOCKS_SYNCHRONIZING_DEFAULT_COUNT - S count)) by lia. done.
Qed.

(** The connection waits for the answer to [req]. *)
Definition waiting (n b m : nat) (req : Notification) (c : Connection) (h : Handler K) : Prop :=
  downloading holds n b m c h /\
  (((0 < b)%nat /\ req = NOTIFY_REQUEST_GET_OBJECTS [] (take b (drop n ids))) \/
   (b = O /\ m = n /\ exists front rest, ids !! (n - 1)%nat = Some front /\ last (front :: rest) = head ids /\ req = NOTIFY_REQUEST_CHAIN (front :: rest))).

Definition finished (c : Connection) (h : Handler K) : Prop :=
  m_state c = state_normal /\ m_synchronized h = true /\ holds (m_core h) N.

(** After [n] blocks: finished, or waiting for the answer to one request, which is for blocks when the list goes on. *)
Definition goes_on (n m : nat) (id : Z) (h : Handler K) (c' : Connection) (h' : Handler K) : Prop :=
  m_connection_id c' = id /\
  (finished c' h' \/
   exists b req, posts id (sent h') = posts id (sent h) ++ [req] /\ waiting n b m req c' h' /\ ((n < m -> 0 < b) /\ n < N)%nat).

Lemma posts_one id n : posts id [Post id n] = [n].
Proof. unfold posts. cbn. by rewrite Z.eqb_refl. Qed.

Lemma posts_app id l l' : posts id (l ++ l') = posts id l ++ posts id l'.
Proof. apply omap_app. Qed.

Lemma post_total n c h :
  connected c h -> twp (K := K) (post n) (fun _ c' h' => c' = c /\ h' = with_sent (sent h ++ [Post (m_connection_id c) n]) h) (c, h).
Proof.
  intros Hc. unfold post, invoke_notify_to_peer. do 5 twp_step. twp_step; [| by apply bool_decide_eq_false in Eif].
  unfold emit. do 3 twp_step. by twp_step.
Qed.

Lemma complete_total c h :
  connected c h -> twp (K := K) (requestMissingPoolTransactions ;; set_context (with_state state_normal) ;; on_connection_synchronized ;; mret true)
    (fun _ c' h' => c' = with_state state_normal c /\ m_synchronized h' = true /\ m_core h' = m_core h) (c, h).
Proof.
  intros Hc. unfold requestMissingPoolTransactions. twp_step. twp_step. twp_step. twp_step. twp_step.
  eapply (twp_mono _ (fun _ c' h' => c' = c /\ m_core h' = m_core h)).
  { twp_step; [by twp_step |]. eapply twp_mono; [by apply post_total |]. by intros _ c' h' [-> ->]. }
  intros _ c1 h1 [-> Hk]. unfold on_connection_synchronized, emit. do 5 twp_step.
  twp_step; [by do 2 twp_step |]. by do 4 twp_step.
Qed.

Lemma ask_more chk n m c h :
  chain_ok -> holds (m_core h) n -> m_state c = state_synchronizing -> m_stop h = false -> connected c h -> (0 < n <= m)%nat -> (m <= N)%nat ->
  m_last_response_height c = Z.of_nat m - 1 -> m_remote_blockchain_height c = Z.of_nat N -> m_requested_objects c = ∅ -> m_needed_objects c = range n m ->
  twp (request_missing_objects chk) (fun _ => goes_on n m (m_connection_id c) h) (c, h).
Proof.
  intros Hch Hh Hs Hst Hc Hnm HmN Hl Hr Hreq Hneed. pose proof (ch_size Hch) as Hsz. unfold request_missing_objects.
  twp_step. twp_step. twp_step. twp_step. rewrite Hneed. destruct (decide (n < m)%nat) as [Hlt | Hge].
  - destruct (range n m) as [| x needed] eqn:Er.
    { exfalso. apply (f_equal length) in Er. unfold range in Er. rewrite length_take, length_drop, length_map in Er. cbn in Er. lia. }
    rewrite <- Er, next_batch_unknown by (first [lia | by apply range_unknown]). rewrite Nat.sub_0_r. twp_step. twp_step. twp_step.
    eapply twp_mono; [by apply post_total |]. intros _ c' h' [-> ->]. twp_step. split; [done |]. right.
    assert (exists b, b = Nat.min BLOCKS_SYNCHRONIZING_DEFAULT_COUNT (m - n)) as [b Hbe] by eauto.
    assert (Eb : take BLOCKS_SYNCHRONIZING_DEFAULT_COUNT (range n m) = take b (drop n ids)) by (unfold range; by rewrite take_take, Hbe).
    exists b, (NOTIFY_REQUEST_GET_OBJECTS [] (take b (drop n ids))). rewrite Eb. cbn. rewrite posts_app, posts_one. split; [done |].
    assert (Hb : (0 < b <= m - n)%nat) by (unfold BLOCKS_SYNCHRONIZING_DEFAULT_COUNT in Hbe; lia).
    split; [| split; lia]. split; [| left; split; [lia | done]]. constructor; cbn [m_core with_sent with_objects m_state m_stop m_last_response_height m_requested_objects m_needed_objects]; try done.
    + lia.
    + rewrite Hreq. by rewrite union_empty_l_L.
    + rewrite Hbe. unfold BLOCKS_SYNCHRONIZING_DEFAULT_COUNT, range. rewrite skipn_firstn_comm, drop_drop.
      destruct (decide (128 <= m - n)%nat).
      * rewrite Nat.min_l by lia. by rewrite Nat.sub_add_distr.
      * rewrite Nat.min_r by lia. replace (m - (n + (m - n)))%nat with O by lia.
        by replace (m - n - 128)%nat with O by lia.
  - assert (m = n) as -> by lia. unfold range. rewrite Nat.sub_diag, take_0. rewrite Hl, Hr, (u32_small (_ - 1)) by lia.
    destruct (decide (n = N)) as [-> | Hne].
    + rewrite Z.ltb_irrefl, Z.eqb_refl, Hreq, bool_decide_true by done. cbn [andb].
      eapply twp_mono; [by apply complete_total |]. intros _ c' h' (-> & Hsy & Hk). split; [done |]. left. split; [done |]. split; [done |]. by rewrite Hk.
    + destruct (Z.ltb_spec (Z.of_nat n - 1) (Z.of_nat N - 1)); [| lia].
      destruct (lookup_lt_is_Some_2 ids (n - 1)%nat) as [front Hf]; [rewrite length_map; lia |].
      destruct (fo_sparse _ Hfollows (m_core h) (n - 1)%nat front) as (rest & Hsp & Hlast); [by replace (S (n - 1)) with n by lia | done |].
      unfold request_chain. do 2 twp_step. eapply twp_ask; [exact Hsp |]. eapply twp_mono; [by apply post_total |]. intros _ c' h' [-> ->]. twp_step.
      split; [done |]. right. exists O, (NOTIFY_REQUEST_CHAIN (front :: rest)). cbn. rewrite posts_app, posts_one. split; [done |].
      split; [| split; lia]. split; [| right; split; [done |]; split; [done |]; by exists front, rest].
      constructor; cbn [m_core with_sent]; try done; [lia |]. by rewrite Hneed, Nat.add_0_r.
Qed.

(** ** The answers *)

Lemma posts_quiet id l e : (forall i n, e <> Post i n) -> posts id (l ++ [e]) = posts id l.
Proof. intros He. rewrite posts_app. destruct e; try (unfold posts at 2; cbn; by rewrite app_nil_r). by destruct (He id0 n). Qed.

Lemma observed_place z c h :
  twp (K := K) (updateObservedHeight z) (fun _ c' h' => c' = c /\ m_core h' = m_core h /\ same_place h h') (c, h).
Proof.
  unfold updateObservedHeight, recalculateMaxObservedHeight, notify_if_changed, emit, same_place.
  repeat twp_step; repeat split; intros id; by apply posts_quiet.
Qed.

Lemma ids_lookup i rb : chain !! i = Some rb -> ids !! i = Some (rb_id rb).
Proof. intros E. rewrite list_lookup_fmap, E. done. Qed.

Lemma batch_prefix n b : take b (drop n chain) `prefix_of` drop n chain.
Proof. exists (drop b (drop n chain)). by rewrite take_drop. Qed.

Lemma map_batch n b : map rb_id (take b (drop n chain)) = take b (drop n ids).
Proof. by rewrite skipn_map, firstn_map. Qed.

Lemma batch_sublist {A} (l : list A) n b : take b (drop n l) `sublist_of` l.
Proof. etransitivity; [apply sublist_take | apply sublist_drop]. Qed.

Lemma dismiss_none top l : top ∉ map fst l -> dismiss top l = None.
Proof.
  induction l as [| [x p] l IH]; intros Hn; cbn [dismiss]; [done |]. cbn [map fst] in Hn. apply not_elem_of_cons in Hn as [Hx Hn].
  rewrite bool_decide_false by done. by apply IH.
Qed.

Lemma objects_answered n b m c h :
  chain_ok -> (0 < b)%nat -> downloading holds n b m c h ->
  twp (handleCommand alone now maxBlockBlobSize
         (NOTIFY_RESPONSE_GET_OBJECTS (mkResponseGetObjects [] (map rb_entry (take b (drop n chain))) [] (Z.of_nat N))))
    (fun _ => goes_on (n + b) m (m_connection_id c) h) (c, h).
Proof.
  intros Hch Hb [Hh Hs Hst Hc (Hn0 & Hnb & HmN) Hl Hreq Hneed]. specialize (Hl Hb). set (l := take b (drop n chain)).
  assert (Hlen : length l = b) by (unfold l; rewrite length_take, length_drop; lia).
  assert (Hg : Forall genuine l) by (apply Forall_take, Forall_drop, (ch_genuine Hch)).
  assert (Hnd : NoDup (map rb_id l)) by (unfold l; rewrite map_batch; eapply sublist_NoDup; [apply (ch_unique Hch) | apply batch_sublist]).
  assert (Hunk : forall k, holds k n -> Forall (fun id => have_block k id = false) (map rb_id l)).
  { intros k Hk. unfold l. rewrite map_batch. replace b with ((n + b) - n)%nat by lia. apply (range_unknown k n (n + b)%nat Hk). }
  cbn [handleCommand]. unfold handle_response_get_objects, shutdown. cbn [go_current_blockchain_height go_blocks].
  twp_step. twp_step. rewrite Hl. destruct (Z.ltb_spec (Z.of_nat N) (Z.of_nat m - 1)); [lia |].
  twp_step. eapply twp_mono; [apply observed_place |]. intros _ c1 h1 (-> & Hk1 & Hs1 & Hc1 & Hp1).
  do 2 twp_step. twp_step. eapply twp_mono; [apply parse_batch |].
  { exact Hg. }
  { exact Hnd. }
  { cbn [with_remote m_requested_objects]. rewrite Hreq, <- map_batch. apply Forall_forall. intros rb Hrb. apply elem_of_list_to_set. by apply list_elem_of_fmap_2. }
  { cbn [snd]. rewrite Hk1. exact (proj1 (List.Forall_map _ _ _) (Hunk _ Hh)). }
  intros r c2 h2 (-> & -> & ->). cbn [with_remote with_objects m_requested_objects m_needed_objects].
  rewrite Hreq, <- map_batch. fold l. rewrite difference_diag_L. do 2 twp_step. rewrite bool_decide_true by done. do 2 twp_step.
  rewrite dismiss_none.
  2: { rewrite map_map. cbn [parsed fst]. intros Hin.
       assert (Hn1 : (n - 1 < length ids)%nat) by (rewrite length_map; lia). destruct (lookup_lt_is_Some_2 ids _ Hn1) as [front Hf].
       assert (Et : (get_blockchain_top (m_core h1)).2 = front).
       { apply (fo_top _ Hfollows (m_core h1) (n - 1)%nat); [| done]. replace (S (n - 1)) with n by lia. by rewrite Hk1. }
       rewrite Et in Hin. apply (proj1 (Forall_forall _ _) (Hunk _ Hh)) in Hin.
       rewrite (fo_have _ Hfollows _ _ _ _ Hh Hf) in Hin. apply bool_decide_eq_false in Hin. lia. }
  cbn [default]. twp_step. eapply twp_mono; [apply (processObjects_ok l n) |].
  { by rewrite Hk1. } { congruence. } { apply batch_prefix. } { exact Hg. }
  intros ok c3 h3 (-> & -> & Hh3 & Hs3 & Hc3 & Hp3). do 4 twp_step. rewrite Hs3, Hs1, Hst. cbn [with_objects with_remote m_state]. rewrite Hs.
  rewrite bool_decide_true by done. cbn [negb andb]. twp_step. eapply twp_mono.
  { apply (ask_more true (n + b) m); cbn [with_objects with_remote m_state m_last_response_height m_remote_blockchain_height m_requested_objects m_needed_objects]; try done.
    - by rewrite Hlen in Hh3.
    - congruence.
    - unfold connected in *. cbn [with_objects with_remote m_connection_id]. by rewrite Hc3, Hc1.
    - lia. }
  intros _ c4 h4 [Hid Hgo]. twp_step. split; [exact Hid |]. destruct Hgo as [? | (b' & req & Hpo & ?)]; [by left |]. right.
  exists b', req. split; [| done].
  cbn [with_objects with_remote m_connection_id] in Hpo. by rewrite Hpo, Hp3, Hp1.
Qed.

Lemma filter_unknown k l : Forall (fun id => have_block k id = false) l -> filter (fun id => have_block k id = false) l = l.
Proof. induction 1 as [| x l Hx _ IH]; [done |]. rewrite filter_cons_True by done. by rewrite IH. Qed.

Lemma chain_answered n c h :
  chain_ok -> downloading holds n 0 n c h ->
  twp (handleCommand alone now maxBlockBlobSize (NOTIFY_RESPONSE_CHAIN_ENTRY
         (mkResponseChainEntry (Z.of_nat (n - 1)) (Z.of_nat N) (take (Z.to_nat BLOCKS_IDS_SYNCHRONIZING_DEFAULT_COUNT) (drop (n - 1) ids)))))
    (fun _ => goes_on n (Nat.min N (n - 1 + Z.to_nat BLOCKS_IDS_SYNCHRONIZING_DEFAULT_COUNT)) (m_connection_id c) h) (c, h).
Proof.
  intros Hch [Hh Hs Hst Hc (Hn0 & _ & HnN) _ Hreq Hneed]. pose proof (ch_size Hch) as Hsz.
  set (cnt := Z.to_nat BLOCKS_IDS_SYNCHRONIZING_DEFAULT_COUNT). assert (Hcnt : (1 < cnt)%nat) by (unfold cnt, BLOCKS_IDS_SYNCHRONIZING_DEFAULT_COUNT; lia). clearbody cnt.
  assert (Hn1 : (n - 1 < length ids)%nat) by (rewrite length_map; lia). destruct (lookup_lt_is_Some_2 ids _ Hn1) as [front Hf].
  set (m := Nat.min N (n - 1 + cnt)).
  assert (El : take cnt (drop (n - 1) ids) = front :: range n m).
  { rewrite (drop_S _ _ _ Hf). destruct cnt as [| cnt']; [lia |]. cbn [take]. f_equal. unfold range. replace (S (n - 1)) with n by lia.
    destruct (decide (n - 1 + S cnt' <= N)%nat); [f_equal; unfold m; lia |].
    rewrite !take_ge; [done | |]; rewrite length_drop, length_map; unfold m; lia. }
  assert (Elen : length (front :: range n m) = S (m - n)).
  { cbn [length]. f_equal. unfold range. rewrite length_take, length_drop, length_map. unfold m. lia. }
  assert (Hm : (n <= m <= N)%nat) by (unfold m; lia). clearbody m.
  assert (Hfilter : filter (fun id => have_block (m_core h) id = false) (front :: range n m) = range n m).
  { rewrite filter_cons_False by (rewrite (fo_have _ Hfollows _ _ _ _ Hh Hf), bool_decide_true by lia; done).
    apply filter_unknown, range_unknown, Hh. }
  cbn [handleCommand]. unfold handle_response_chain_entry, shutdown. cbn [m_block_ids total_height start_height]. rewrite El.
  twp_step. twp_step. rewrite (fo_have _ Hfollows _ _ _ _ Hh Hf), bool_decide_true by lia. cbv iota. do 6 twp_step.
  cbn [with_response with_remote m_remote_blockchain_height m_last_response_height]. rewrite Elen, (u32_small (Z.of_nat (S (m - n)))), u32_small by lia.
  destruct (Z.ltb_spec (Z.of_nat N) (Z.of_nat (n - 1) + Z.of_nat (S (m - n)) - 1)); [lia |].
  do 2 twp_step. do 2 twp_step. rewrite Hfilter. twp_step. eapply twp_mono.
  { apply (ask_more false n m); cbn [with_objects with_remote with_response m_state m_last_response_height m_remote_blockchain_height m_requested_objects m_needed_objects];
      try done; try lia. rewrite Hneed. replace (n - (n + 0))%nat with O by lia. done. }
  intros a c' h' Hgo. twp_step. exact Hgo.
Qed.

(** ** The peer *)

(** The peer answers with one message. *)
Definition replies (answer : Notification) (c : Connection) (h : Handler K) (c' : Connection) (h' : Handler K) : Prop :=
  c' = c /\ m_core h' = m_core h /\ m_connections h' = m_connections h
  /\ posts (m_connection_id c) (sent h') = posts (m_connection_id c) (sent h) ++ [answer].

Lemma post_replies n c h : connected c h -> twp (K := K) (post n) (fun _ => replies n c h) (c, h).
Proof.
  intros Hc. eapply twp_mono; [by apply post_total |]. intros _ c' h' [-> ->]. repeat split. cbn [sent with_sent]. by rewrite posts_app, posts_one.
Qed.

Lemma peer_sends_chain n front rest c h :
  serves (m_core h) -> connected c h -> ids !! n = Some front -> last (front :: rest) = head ids ->
  twp (handleCommand alone now maxBlockBlobSize (NOTIFY_REQUEST_CHAIN (front :: rest)))
    (fun _ => replies (NOTIFY_RESPONSE_CHAIN_ENTRY (mkResponseChainEntry (Z.of_nat n) (Z.of_nat N)
       (take (Z.to_nat BLOCKS_IDS_SYNCHRONIZING_DEFAULT_COUNT) (drop n ids)))) c h) (c, h).
Proof.
  intros [(g & Hg & Hid) Hchain _] Hc Hf Hl. cbn [handleCommand]. unfold handle_request_chain. rewrite Hl, Hg.
  twp_step. eapply twp_ask; [exact Hid |]. rewrite bool_decide_true by done. cbv iota. twp_step.
  eapply twp_ask; [by apply Hchain |]. by apply post_replies.
Qed.

Lemma peer_sends_objects n b c h :
  serves (m_core h) -> connected c h ->
  twp (handleCommand alone now maxBlockBlobSize (NOTIFY_REQUEST_GET_OBJECTS [] (take b (drop n ids))))
    (fun _ => replies (NOTIFY_RESPONSE_GET_OBJECTS (mkResponseGetObjects [] (map rb_entry (take b (drop n chain))) [] (Z.of_nat N))) c h) (c, h).
Proof.
  intros [_ _ Hobj] Hc. cbn [handleCommand]. unfold handle_request_get_objects. twp_step. eapply twp_ask; [apply Hobj |]. cbv iota.
  twp_step. twp_step. by apply post_replies.
Qed.

Lemma turn_ok n c h (Q : Connection -> Handler K -> Prop) :
  twp (handleCommand alone now maxBlockBlobSize n) (fun _ => Q) (c, with_sent [] h) ->
  exists c' h', turn n (c, h) = Ret (posts (m_connection_id c') (sent h'), (c', h')) /\ Q c' h'.
Proof. intros (u & c' & h' & E & HQ). exists c', h'. split; [| done]. unfold turn. cbn [fst snd]. by rewrite E. Qed.

(** ** Sessions *)

Definition rounds (n b : nat) : nat := 2 * (N - n) + (if decide (b = 0)%nat then 1 else 0).

Lemma session_ends fuel : forall n b m req c h cp hp,
  chain_ok -> serves (m_core hp) -> connected cp hp -> waiting n b m req c h -> (rounds n b <= fuel)%nat ->
  exists c' h' peer', session fuel [req] (c, h) (cp, hp) = Ret ((c', h'), peer') /\ finished c' h'.
Proof.
  induction fuel as [| fuel IH]; intros n b m req c h cp hp Hch Hsv Hcp Hw Hfuel.
  { destruct Hw as [Hd [[Hb _] | (-> & _)]]; unfold rounds in Hfuel; [| rewrite decide_True in Hfuel by done; lia].
    destruct (dl_bounds _ _ _ _ _ _ Hd) as (? & ? & ?). lia. }
  assert (Hnext : forall n' m' answer, m_state c = state_synchronizing ->
    twp (handleCommand alone now maxBlockBlobSize answer) (fun _ => goes_on n' m' (m_connection_id c) (with_sent [] h)) (c, with_sent [] h) ->
    (forall b', (n' < m' -> 0 < b') -> n' < N -> rounds n' b' <= fuel)%nat ->
    twp (handleCommand alone now maxBlockBlobSize req) (fun _ => replies answer cp (with_sent [] hp)) (cp, with_sent [] hp) ->
    exists c' h' peer', session (S fuel) [req] (c, h) (cp, hp) = Ret ((c', h'), peer') /\ finished c' h').
  { intros n' m' answer Hst Hlocal Hr Hpeer. apply turn_ok in Hpeer as (cp' & hp' & Ep & (-> & Hkp & Hcn & Hpo)).
    apply turn_ok in Hlocal as (c' & h' & El & [Hid Hgo]). cbn [session]. rewrite Ep. cbn [mbind outcome_bind]. rewrite Hpo.
    change (posts (m_connection_id cp) (sent (with_sent [] hp))) with (@nil Notification). cbn [app]. rewrite El. cbn [mbind outcome_bind fst].
    destruct Hgo as [Hfin | (b' & req' & Hpo' & Hw' & Hb' & HnN')].
    - rewrite bool_decide_false by (destruct Hfin as [-> _]; done). by exists c', h', (cp, hp').
    - rewrite bool_decide_true by (apply (dl_state _ _ _ _ _ _ (proj1 Hw'))). rewrite Hid, Hpo'.
      change (posts (m_connection_id c) (sent (with_sent [] h))) with (@nil Notification). cbn [app].
      eapply IH; [done | by rewrite Hkp | unfold connected; by rewrite Hcn | exact Hw' | by apply Hr]. }
  destruct Hw as [Hd [[Hb ->] | (-> & -> & front & rest & Hf & Hl & ->)]].
  - destruct (dl_bounds _ _ _ _ _ _ Hd) as (? & ? & ?).
    eapply (Hnext (n + b)%nat m); [apply (dl_state _ _ _ _ _ _ Hd) | apply objects_answered; [done | done | by destruct Hd; constructor] | | by apply peer_sends_objects].
    intros b' _ _. unfold rounds in *. rewrite decide_False in Hfuel by lia. destruct (decide (b' = 0)%nat); lia.
  - destruct (dl_bounds _ _ _ _ _ _ Hd) as (? & ? & ?).
    eapply (Hnext n); [apply (dl_state _ _ _ _ _ _ Hd) | apply chain_answered; [done | by destruct Hd; constructor] | | by apply peer_sends_chain].
    intros b' Hb' HnN. unfold rounds in *. rewrite decide_True in Hfuel by done. destruct (decide (b' = 0)%nat); [| lia].
    assert (0 < b')%nat; [| lia]. apply Hb'. unfold BLOCKS_IDS_SYNCHRONIZING_DEFAULT_COUNT. lia.
Qed.
End Following.
End Session.

(** * The theorem *)

(** C8: a node that starts to synchronise with an honest peer finishes: when its core holds the first [n] blocks of the peer's chain of
    [N] blocks, then after at most [2 (N - n) + 1] requests and answers the connection is in the normal state, the node has announced that it is
    synchronised, and its core holds the whole chain. *)
Theorem synchronisation_with_an_honest_peer_ends {K : Type} `{Core K} `{Format} now maxBlockBlobSize chain (holds : K -> nat -> Prop) n c h cp hp :
  chain_ok maxBlockBlobSize chain -> follows chain holds -> serves chain (m_core hp) -> connected cp hp ->
  (0 < n <= length chain)%nat -> holds (m_core h) n ->
  m_state c = state_synchronizing -> m_needed_objects c = [] -> m_requested_objects c = ∅ -> m_stop h = false -> connected c h ->
  exists h1, start_sync (c, with_sent [] h) = Ret (tt, (c, h1)) /\
  forall fuel, (2 * (length chain - n) + 1 <= fuel)%nat ->
  exists c' h' peer', session now maxBlockBlobSize fuel (posts (m_connection_id c) (sent h1)) (c, h1) (cp, hp) = Ret ((c', h'), peer')
    /\ m_state c' = state_normal /\ m_synchronized h' = true /\ holds (m_core h') (length chain).
Proof.
  intros Hch Hfo Hsv Hcp Hn Hh Hs Hneed Hreq Hst Hc.
  destruct (lookup_lt_is_Some_2 (map rb_id chain) (n - 1)%nat) as [front Hf]; [rewrite length_map; lia |].
  destruct (fo_sparse _ _ Hfo (m_core h) (n - 1)%nat front) as (rest & Hsp & Hlast); [by replace (S (n - 1)) with n by lia | done |].
  assert (Hstart : twp start_sync (fun _ c' h' => c' = c /\ h' = with_sent [Post (m_connection_id c) (NOTIFY_REQUEST_CHAIN (front :: rest))] h) (c, with_sent [] h)).
  { unfold start_sync, request_chain. twp_step. twp_step. rewrite bool_decide_true by done. cbv iota.
    twp_step. eapply twp_lift; [by rewrite Hneed |]. twp_step. eapply twp_lift; [by rewrite bool_decide_true by done |].
    twp_step. eapply twp_ask; [exact Hsp |]. eapply twp_mono; [by apply post_total |]. intros _ c' h' [-> ->]. done. }
  destruct Hstart as ([] & c1 & h1 & E & -> & ->). eexists. split; [exact E |]. intros fuel Hfuel.
  cbn [sent with_sent]. rewrite posts_one.
  destruct (session_ends now maxBlockBlobSize chain holds Hfo fuel n 0 n (NOTIFY_REQUEST_CHAIN (front :: rest)) c
    (with_sent [Post (m_connection_id c) (NOTIFY_REQUEST_CHAIN (front :: rest))] h) cp hp) as (c' & h' & peer' & E' & Hfin & ? & ?); [done.. | | |].
  - split; [| right; split; [done |]; split; [done |]; by exists front, rest].
    constructor; cbn [with_sent m_core]; try done; [lia | lia | by rewrite Hneed, Nat.add_0_r, Nat.sub_diag].
  - unfold rounds. rewrite decide_True by done. lia.
  - by exists c', h', peer'.
Qed.

(** * Example *)

Import ProtocolDemo.
#[local] Existing Instances demo_format demo_core.

Definition demo_chain : list remote_block := map (fun i => mkRemote [i] (demo_block i) (demo_entry i)) [0; 1; 2].

Lemma demo_lookup i id : map rb_id demo_chain !! i = Some id -> id = [Z.of_nat i] /\ (i < 3)%nat.
Proof. destruct i as [| [| [| i]]]; [intros [= <-]; split; [reflexivity | lia].. | discriminate]. Qed.

Lemma demo_block_lookup i rb : demo_chain !! i = Some rb -> rb = mkRemote [Z.of_nat i] (demo_block (Z.of_nat i)) (demo_entry (Z.of_nat i)).
Proof. destruct i as [| [| [| i]]]; [intros [= <-]; reflexivity.. | discriminate]. Qed.

Lemma demo_chain_ok : chain_ok 1000 demo_chain.
Proof.
  split; [| | cbn; lia | cbn; lia].
  - apply Forall_forall. intros rb (i & ->%demo_block_lookup)%list_elem_of_lookup. repeat split. cbn. lia.
  - apply (bool_decide_unpack _). vm_compute. exact I.
Qed.

Lemma demo_serves : serves demo_chain 3%nat.
Proof.
  split.
  - exists [0]. split; reflexivity.
  - intros n front rest [-> _]%demo_lookup _. cbn [findBlockchainSupplement demo_core demo_number]. by rewrite Nat2Z.id.
  - intros n b. cbn [handle_get_objects demo_core]. do 3 f_equal. rewrite skipn_map, firstn_map, map_map.
    apply map_ext_in. intros rb (i & Hi)%list_elem_of_In%list_elem_of_lookup. apply lookup_take_Some in Hi as [Hi _]. rewrite lookup_drop in Hi.
    by apply demo_block_lookup in Hi as ->.
Qed.

Lemma demo_follows : follows demo_chain (fun k n => k = n /\ (n <= 3)%nat).
Proof.
  split.
  - intros k n i id [-> _] [-> _]%demo_lookup. cbn [have_block demo_core demo_number].
    destruct (Z.leb_spec 0 (Z.of_nat i)); [| lia]. cbn [andb]. destruct (Z.ltb_spec (Z.of_nat i) (Z.of_nat n)); symmetry; [apply bool_decide_true | apply bool_decide_false]; lia.
  - intros k n id [-> _] [-> _]%demo_lookup. cbn [get_blockchain_top demo_core snd]. f_equal. lia.
  - intros k n id [-> _] [-> Hn]%demo_lookup. cbn [buildSparseChain demo_core].
    destruct n as [| [| [| n]]]; [eexists; split; reflexivity.. | lia].
  - intros k n rb tx [-> ?] _ _. exists (mkTvc false false false false false), n. done.
  - intros k n rb [-> ?] Hrb. assert (Hlt : (n < length demo_chain)%nat) by (by eapply lookup_lt_Some). cbn in Hlt.
    apply demo_block_lookup in Hrb as ->. exists (mkBvc true false false false false), (S n). cbn. unfold demo_push. rewrite Z.eqb_refl.
    repeat split. lia.
Qed.

Definition demo_follower : Connection := demo_connection state_synchronizing [] ∅ 3 0.
Definition demo_server : Connection := demo_connection state_normal [] ∅ 1 0.

(** A node with the first block follows a node with three; five requests are enough. *)
Lemma synchronisation_with_an_honest_peer_ends_witness :
  exists h1, start_sync (demo_follower, with_sent [] (demo_handler 1 demo_follower)) = Ret (tt, (demo_follower, h1)) /\
  exists c' h' peer', session 0 1000 5 (posts 1 (sent h1)) (demo_follower, h1) (demo_server, demo_handler 3 demo_server) = Ret ((c', h'), peer')
    /\ m_state c' = state_normal /\ m_synchronized h' = true /\ m_core h' = 3%nat.
Proof.
  destruct (synchronisation_with_an_honest_peer_ends 0 1000 demo_chain (fun k n => k = n /\ (n <= 3)%nat) 1 demo_follower
    (demo_handler 1 demo_follower) demo_server (demo_handler 3 demo_server)) as (h1 & E & Hs);
    [apply demo_chain_ok | apply demo_follows | apply demo_serves | by exists demo_server | cbn; lia | cbn; lia | reflexivity.. | by exists demo_follower |].
  exists h1. split; [exact E |]. destruct (Hs 5%nat) as (c' & h' & peer' & E' & Hst & Hsy & Hk & _); [cbn; lia |].
  exists c', h', peer'. split; [exact E' |]. split; [exact Hst |]. split; [exact Hsy | exact Hk].
Defined.
