(* ===== verification/Synchronizer.v ===== *)
(** The synchroniser of a wallet, [src/src/Transfers/BlockchainSynchronizer.cpp], with any number of consumers: its requests to the
    node, the updates of the consumers, the pool, and the worker thread with its states.

    The worker is a program counter ([Pc]); [work] runs it up to the next point at which another thread can
    come between, that is from one lock of [m_stateMutex] to the next.  Consumers implement the class [IBlockchainConsumer];
    [G] holds what they share.  A call that throws an exception answers [None] with the state that it leaves; [TransfersExceptions.v] makes the consumer of a
    wallet an implementation.  The map of the consumers is a list in the order of their addresses.  A promise is a number, and
    [m_answers] the log of those that were set. *)

From S2P Require Import Prelude Types Sync.
From S2P Require Transfers TransfersConsumer TransactionExtra Serialization.

Abbreviation TransactionReader := Transfers.TransactionReader.
Abbreviation CompleteBlock := TransfersConsumer.CompleteBlock.
Abbreviation SynchronizationStart := TransfersConsumer.SynchronizationStart.
Abbreviation ss_timestamp := TransfersConsumer.ss_timestamp.
Abbreviation ss_height := TransfersConsumer.ss_height.

(** * [TransactionPrefixImpl] *)

Definition getTransactionInputAmount (i : TransactionInput) : Z :=
  match i with
  | InKey k => ki_amount k
  | InMultisignature m => mi_amount m
  | InCommitmentSpend s => cs_amount s
  | InCommitmentTransfer t => ct_amount t
  | InBase _ | InUnified _ => 0
  end.

Definition getInputTotalAmount (tx : Transaction) : Z := fold_left (fun val i => u64 (val + getTransactionInputAmount i)) (tx_inputs tx) 0.
Definition getOutputTotalAmount (tx : Transaction) : Z := fold_left (fun val o => u64 (val + out_amount o)) (tx_outputs tx) 0.

(** [createTransactionPrefix]; the signatures are not part of a prefix and not read. *)
Definition createTransactionPrefix (prefix : Transaction) (transactionHash : Hash) : TransactionReader :=
  let fields := (TransactionExtra.parseTransactionExtra (tx_extra prefix)).2 in
  Transfers.mkReader transactionHash
    (default TransfersConsumer.NULL_PUBLIC_KEY (TransactionExtra.find_public_key fields))
    (tx_unlockTime prefix)
    (TransactionExtra.find_nonce fields ≫= TransactionExtra.getPaymentIdFromTransactionExtraNonce)
    (tx_extra prefix) (tx_inputs prefix) (getInputTotalAmount prefix) (tx_outputs prefix) (getOutputTotalAmount prefix).

(** * Data *)

(** [0] is success. *)
Abbreviation error_code := Z (only parsing).
Definition interrupted : error_code := 4.
Definition invalid_argument : error_code := 22.

Class IBlockchainConsumer (G C : Type) := {
  getSyncStart : C -> SynchronizationStart;
  getKnownPoolTxIds : C -> gset Hash;
  onBlockchainDetach (height : Z) : G * C -> outcome (option unit * (G * C));
  onNewBlocks (blocks : list CompleteBlock) (startHeight : Z) : G * C -> outcome (option bool * (G * C));
  onPoolUpdated (addedTransactions : list TransactionReader) (deletedTransactions : list Hash) : G * C -> outcome (option error_code * (G * C));
  addUnconfirmedTransaction (tx : TransactionReader) : G * C -> outcome (option error_code * (G * C));
  removeUnconfirmedTransaction (h : Hash) : G * C -> outcome (option unit * (G * C))
}.

(** [enum class State], with its priorities. *)
Inductive State := idle | poolSync | blockchainSync | stopped.

#[export] Instance State_eq_dec : EqDecision State.
Proof. solve_decision. Defined.

Definition priority (s : State) : Z := match s with idle => 0 | poolSync => 1 | blockchainSync => 2 | stopped => 3 end.

Inductive Notified := synchronizationProgressUpdated (processedBlockCount totalBlockCount : Z) | synchronizationCompleted (ec : error_code).

(** What a promise was set to: [None] for an exception. *)
Record Answer := mkAnswer { an_promise : Z; an_result : option error_code }.

Record Consumer (C : Type) := mkConsumer { co_address : Z; co_consumer : C; co_state : SynchronizationState }.
Arguments mkConsumer {C}.
Arguments co_address {C}.
Arguments co_consumer {C}.
Arguments co_state {C}.

Record BlockchainSynchronizer (G C : Type) := mkSynchronizer {
  m_consumers : list (Consumer C);
  shared : G;
  m_genesisBlockHash : Hash;
  lastBlockId : Hash;
  m_currentState : State;
  m_futureState : State;
  m_addTransactionTasks : list (Z * TransactionReader);
  m_removeTransactionTasks : list (Z * Hash);
  m_observing : bool;
  m_answers : list Answer;
  m_notified : list Notified
}.
Arguments mkSynchronizer {G C}.
Arguments m_consumers {G C}.
Arguments shared {G C}.
Arguments m_genesisBlockHash {G C}.
Arguments lastBlockId {G C}.
Arguments m_currentState {G C}.
Arguments m_futureState {G C}.
Arguments m_addTransactionTasks {G C}.
Arguments m_removeTransactionTasks {G C}.
Arguments m_observing {G C}.
Arguments m_answers {G C}.
Arguments m_notified {G C}.

Record TransactionShortInfo := mkShortInfo { ti_txId : Hash; ti_txPrefix : Transaction }.
Record BlockShortEntry := mkShortEntry { se_blockHash : Hash; se_block : option Block; se_txsShortInfo : list TransactionShortInfo }.
Record GetBlocksResponse := mkBlocksResponse { br_startHeight : Z; br_newBlocks : list BlockShortEntry }.
Record GetBlocksRequest := mkBlocksRequest { bq_syncStart : SynchronizationStart; bq_knownBlocks : list Hash }.
Record GetPoolResponse := mkPoolResponse { pr_isLastKnownBlockActual : bool; pr_newTxs : list TransactionReader; pr_deletedTxIds : list Hash }.
Record GetPoolRequest := mkPoolRequest { pq_knownTxIds : list Hash; pq_lastKnownBlock : Hash }.

Inductive UpdateConsumersResult := nothingChanged | addedNewBlocks | errorOccurred | thrown.

(** What the node says of itself at a moment. *)
Record NodeView := mkNodeView { getLastLocalBlockHeight : Z; getLastKnownBlockHeight : Z; getKnownBlockCount : Z; getLocalBlockCount : Z }.

(** How a query ends; the worker takes the part it waits for. *)
Inductive Reply (R : Type) := QueryThrows | QueryFails (ec : error_code) | Replies (r : R).
Arguments QueryThrows {R}.
Arguments QueryFails {R}.
Arguments Replies {R}.

Record NodeAnswer := mkNodeAnswer { na_blocks : Reply GetBlocksResponse; na_pool : Reply GetPoolResponse }.

Section Setters.
Context {G C : Type}.
Implicit Types s : BlockchainSynchronizer G C.
Definition with_consumers (cs : list (Consumer C)) (g : G) s : BlockchainSynchronizer G C :=
  mkSynchronizer cs g (m_genesisBlockHash s) (lastBlockId s) (m_currentState s) (m_futureState s) (m_addTransactionTasks s)
    (m_removeTransactionTasks s) (m_observing s) (m_answers s) (m_notified s).
Definition with_lastBlockId (h : Hash) s : BlockchainSynchronizer G C :=
  mkSynchronizer (m_consumers s) (shared s) (m_genesisBlockHash s) h (m_currentState s) (m_futureState s) (m_addTransactionTasks s)
    (m_removeTransactionTasks s) (m_observing s) (m_answers s) (m_notified s).
Definition with_states (current future : State) s : BlockchainSynchronizer G C :=
  mkSynchronizer (m_consumers s) (shared s) (m_genesisBlockHash s) (lastBlockId s) current future (m_addTransactionTasks s)
    (m_removeTransactionTasks s) (m_observing s) (m_answers s) (m_notified s).
Definition with_tasks (add : list (Z * TransactionReader)) (remove : list (Z * Hash)) s : BlockchainSynchronizer G C :=
  mkSynchronizer (m_consumers s) (shared s) (m_genesisBlockHash s) (lastBlockId s) (m_currentState s) (m_futureState s) add
    remove (m_observing s) (m_answers s) (m_notified s).
Definition with_observing (b : bool) s : BlockchainSynchronizer G C :=
  mkSynchronizer (m_consumers s) (shared s) (m_genesisBlockHash s) (lastBlockId s) (m_currentState s) (m_futureState s) (m_addTransactionTasks s)
    (m_removeTransactionTasks s) b (m_answers s) (m_notified s).
Definition set_promise (promise : Z) (r : option error_code) s : BlockchainSynchronizer G C :=
  mkSynchronizer (m_consumers s) (shared s) (m_genesisBlockHash s) (lastBlockId s) (m_currentState s) (m_futureState s) (m_addTransactionTasks s)
    (m_removeTransactionTasks s) (m_observing s) (m_answers s ++ [mkAnswer promise r]) (m_notified s).
Definition notify (n : Notified) s : BlockchainSynchronizer G C :=
  mkSynchronizer (m_consumers s) (shared s) (m_genesisBlockHash s) (lastBlockId s) (m_currentState s) (m_futureState s) (m_addTransactionTasks s)
    (m_removeTransactionTasks s) (m_observing s) (m_answers s) (m_notified s ++ [n]).
End Setters.

Section Synchronizer.
Context {G C : Type} {IC : IBlockchainConsumer G C}.
Abbreviation Synchronizer := (BlockchainSynchronizer G C).
Abbreviation Consumers := (list (Consumer C)).

Definition newBlockchainSynchronizer (g : G) (genesisBlockHash uninitialised : Hash) : Synchronizer :=
  mkSynchronizer [] g genesisBlockHash uninitialised stopped stopped [] [] false [] [].

(** * The states *)

Definition checkIfShouldStop (s : Synchronizer) : bool := bool_decide (m_futureState s = stopped).
Definition checkIfStopped (s : Synchronizer) : bool := bool_decide (m_currentState s = stopped).

Definition setFutureStateIf (st : State) (pred : bool) (s : Synchronizer) : bool * Synchronizer :=
  if pred then (true, with_states (m_currentState s) st s) else (false, s).

Definition setFutureState (st : State) (s : Synchronizer) : bool * Synchronizer :=
  setFutureStateIf st (priority (m_futureState s) <? priority st) s.

(** After an error: everything that was asked for is given up. *)
Definition back_to_idle (s : Synchronizer) : bool * Synchronizer := setFutureStateIf idle (negb (checkIfShouldStop s)) s.

(** * The consumers *)

Fixpoint insert_consumer (c : Consumer C) (cs : Consumers) : Consumers :=
  match cs with
  | [] => [c]
  | d :: cs' => if co_address c <? co_address d then c :: cs else d :: insert_consumer c cs'
  end.

Definition addConsumer (address : Z) (c : C) (s : Synchronizer) : outcome Synchronizer :=
  _ ← assert_ (forallb (fun d => negb (co_address d =? address)) (m_consumers s));
  if negb (checkIfStopped s && checkIfShouldStop s) then Throw "Can't add consumer, because BlockchainSynchronizer isn't stopped"
  else Ret (with_consumers (insert_consumer (mkConsumer address c (mkSync [m_genesisBlockHash s])) (m_consumers s)) (shared s) s).

Definition removeConsumer (address : Z) (s : Synchronizer) : outcome (bool * Synchronizer) :=
  if negb (checkIfStopped s && checkIfShouldStop s) then Throw "Can't remove consumer, because BlockchainSynchronizer isn't stopped"
  else
    let kept := List.filter (fun d => negb (co_address d =? address)) (m_consumers s) in
    Ret (negb (length kept =? length (m_consumers s))%nat, with_consumers kept (shared s) s).

Definition getConsumerSynchronizationState (address : Z) (s : Synchronizer) : outcome (option SynchronizationState) :=
  if negb (checkIfStopped s && checkIfShouldStop s) then Throw "Can't get consumer state, because BlockchainSynchronizer isn't stopped"
  else Ret (co_state <$> List.find (fun d => co_address d =? address) (m_consumers s)).

Definition getConsumerKnownBlocks (address : Z) (s : Synchronizer) : outcome (list Hash) :=
  st ← getConsumerSynchronizationState address s;
  match st with None => Throw "Consumer not found" | Some st => Ret (m_blockchain st) end.

(** * Unconfirmed transactions *)

(** Adds the transaction to one consumer after the other; stops at an error or an exception, with the number of those before. *)
Fixpoint add_loop (tx : TransactionReader) (cs : Consumers) (g : G) : outcome (option error_code * nat * G * Consumers) :=
  match cs with
  | [] => Ret (Some 0, 0%nat, g, [])
  | c :: cs =>
      '(r, (g, x)) ← addUnconfirmedTransaction tx (g, co_consumer c);
      let c := mkConsumer (co_address c) x (co_state c) in
      if bool_decide (r = Some 0) then
        '(r, n, g, cs) ← add_loop tx cs g;
        Ret (r, S n, g, c :: cs)
      else Ret (r, 0%nat, g, c :: cs)
  end.

(** Removes a transaction from the first [n] consumers. *)
Fixpoint remove_loop (h : Hash) (n : nat) (cs : Consumers) (g : G) : outcome (option unit * G * Consumers) :=
  match n, cs with
  | S n, c :: cs =>
      '(r, (g, x)) ← removeUnconfirmedTransaction h (g, co_consumer c);
      let c := mkConsumer (co_address c) x (co_state c) in
      if bool_decide (r = Some tt) then
        '(r, g, cs) ← remove_loop h n cs g;
        Ret (r, g, c :: cs)
      else Ret (r, g, c :: cs)
  | _, _ => Ret (Some tt, g, cs)
  end.

Definition doAddUnconfirmedTransaction (tx : TransactionReader) (s : Synchronizer) : outcome (option error_code * Synchronizer) :=
  '(r, n, g, cs) ← add_loop tx (m_consumers s) (shared s);
  match r with
  | None => Ret (None, with_consumers cs g s)
  | Some ec =>
      if ec =? 0 then Ret (Some ec, with_consumers cs g s)
      else
        '(r, g, cs) ← remove_loop (Transfers.r_transactionHash tx) n cs g;
        Ret (match r with None => None | Some _ => Some ec end, with_consumers cs g s)
  end.

Definition doRemoveUnconfirmedTransaction (h : Hash) (s : Synchronizer) : outcome (option unit * Synchronizer) :=
  '(r, g, cs) ← remove_loop h (length (m_consumers s)) (m_consumers s) (shared s);
  Ret (r, with_consumers cs g s).

Definition addUnconfirmedTransactionTask (promise : Z) (tx : TransactionReader) (s : Synchronizer) : outcome Synchronizer :=
  if checkIfStopped s || checkIfShouldStop s then Throw "Can't add transaction, because BlockchainSynchronizer is stopped"
  else Ret (with_tasks (m_addTransactionTasks s ++ [(promise, tx)]) (m_removeTransactionTasks s) s).

Definition removeUnconfirmedTransactionTask (promise : Z) (h : Hash) (s : Synchronizer) : outcome Synchronizer :=
  if checkIfStopped s || checkIfShouldStop s then Throw "Can't remove transaction, because BlockchainSynchronizer is stopped"
  else Ret (with_tasks (m_addTransactionTasks s) (m_removeTransactionTasks s ++ [(promise, h)]) s).

(** The loops over the tasks. *)
Fixpoint remove_tasks (tasks : list (Z * Hash)) (s : Synchronizer) : outcome Synchronizer :=
  match tasks with
  | [] => Ret s
  | (promise, h) :: tasks =>
      '(r, s) ← doRemoveUnconfirmedTransaction h (with_tasks (m_addTransactionTasks s) tasks s);
      remove_tasks tasks (set_promise promise (match r with Some _ => Some 0 | None => None end) s)
  end.

Fixpoint add_tasks (tasks : list (Z * TransactionReader)) (s : Synchronizer) : outcome Synchronizer :=
  match tasks with
  | [] => Ret s
  | (promise, tx) :: tasks =>
      '(r, s) ← doAddUnconfirmedTransaction tx (with_tasks tasks (m_removeTransactionTasks s) s);
      add_tasks tasks (set_promise promise r s)
  end.

(** * Blocks *)

Fixpoint shortest_loop (shortest : SynchronizationState) (start : SynchronizationStart) (cs : Consumers) : SynchronizationState * SynchronizationStart :=
  match cs with
  | [] => (shortest, start)
  | c :: cs =>
      let consumerStart := getSyncStart (co_consumer c) in
      shortest_loop (if getHeight (co_state c) <? getHeight shortest then co_state c else shortest)
        (TransfersConsumer.mkSyncStart (Z.min (ss_timestamp start) (ss_timestamp consumerStart)) (Z.min (ss_height start) (ss_height consumerStart))) cs
  end.

Definition getCommonHistory (nd : NodeView) (cs : Consumers) : outcome GetBlocksRequest :=
  match cs with
  | [] => Ret (mkBlocksRequest (TransfersConsumer.mkSyncStart 0 0) [])
  | c :: cs =>
      let '(shortest, syncStart) := shortest_loop (co_state c) (getSyncStart (co_consumer c)) cs in
      knownBlocks ← getShortHistory shortest (getLastLocalBlockHeight nd);
      Ret (mkBlocksRequest syncStart knownBlocks)
  end.

Definition complete_block (b : BlockShortEntry) : CompleteBlock :=
  TransfersConsumer.mkCompleteBlock (se_blockHash b) (se_block b)
    (match se_block b with
     | None => []
     | Some block =>
         createTransactionPrefix (b_baseTransaction block) (Serialization.getObjectHash (b_baseTransaction block))
           :: map (fun i => createTransactionPrefix (ti_txPrefix i) (ti_txId i)) (se_txsShortInfo b)
     end).

(** One consumer is told to forget what is not in the interval, and given what is new in it. *)
Definition update_one (interval : BlockchainInterval) (blocks : list CompleteBlock) (g : G) (c : Consumer C)
    : outcome (UpdateConsumersResult * G * Consumer C) :=
  result ← checkInterval (co_state c) interval;
  '(r, (g, x), st) ←
    (if detachRequired result then
       '(r, (g, x)) ← onBlockchainDetach (detachHeight result) (g, co_consumer c);
       match r with
       | None => Ret (r, (g, x), co_state c)
       | Some _ => st ← detach (co_state c) (detachHeight result); Ret (r, (g, x), st)
       end
     else Ret (Some tt, (g, co_consumer c), co_state c));
  match r with
  | None => Ret (thrown, g, mkConsumer (co_address c) x st)
  | Some _ =>
      if hasNewBlocks result then
        let startOffset := u32 (newBlockHeight result - startHeight interval) in
        '(r, (g, x)) ← onNewBlocks (drop (Z.to_nat startOffset) blocks) (newBlockHeight result) (g, x);
        match r with
        | None => Ret (thrown, g, mkConsumer (co_address c) x st)
        | Some false => Ret (errorOccurred, g, mkConsumer (co_address c) x st)
        | Some true =>
            st ← addBlocks st (drop (Z.to_nat startOffset) (interval_blocks interval)) (newBlockHeight result);
            Ret (addedNewBlocks, g, mkConsumer (co_address c) x st)
        end
      else Ret (nothingChanged, g, mkConsumer (co_address c) x st)
  end.

Fixpoint updateConsumers (interval : BlockchainInterval) (blocks : list CompleteBlock) (smthChanged : bool) (cs : Consumers) (g : G)
    : outcome (UpdateConsumersResult * G * Consumers) :=
  match cs with
  | [] => Ret (if smthChanged then addedNewBlocks else nothingChanged, g, [])
  | c :: cs =>
      '(r, g, c) ← update_one interval blocks g c;
      match r with
      | thrown | errorOccurred => Ret (r, g, c :: cs)
      | _ =>
          '(r, g, cs) ← updateConsumers interval blocks (smthChanged || match r with addedNewBlocks => true | _ => false end) cs g;
          Ret (r, g, c :: cs)
      end
  end.

(** [interval] and [blocks] of a response. *)
Definition interval_of (response : GetBlocksResponse) : BlockchainInterval :=
  mkInterval (br_startHeight response) (map se_blockHash (br_newBlocks response)).

(** * The pool *)

(** [begin()] is dereferenced when there is no consumer. *)
Definition getPoolUnionAndIntersection (cs : Consumers) : outcome (gset Hash * gset Hash) :=
  match map (fun c => getKnownPoolTxIds (co_consumer c)) cs with
  | [] => Undefined
  | first :: others => Ret (fold_left (∪) others first, fold_left (∩) others first)
  end.

(** * The worker *)

Inductive Pc :=
| Absent
| Loop
| Actualize
| Waiting
| StartBlocks
| QueryBlocks (req : GetBlocksRequest)
| ProcessBlocks (response : GetBlocksResponse)
| Updated (result : UpdateConsumersResult) (processedBlockCount : Z) (lastBlock : option Hash)
| Interrupted
| StartPool
| QueryPool (req : GetPoolRequest) (intersection : option (list Hash))
| QueryPoolAgain (req : GetPoolRequest) (deletedTxIds : list Hash)
| ProcessPool (response : GetPoolResponse) (processed : nat)
| Returned.

(** The synchroniser with its worker; [sy_final] is set for the call of [actualizeFutureState] after the loop. *)
Record System := mkSystem { sy : Synchronizer; sy_pc : Pc; sy_final : bool }.

(** The state [actualizeFutureState] goes on with. *)
Definition enter_state (s : Synchronizer) : Pc * Synchronizer :=
  let s := with_states (m_futureState s) (m_futureState s) s in
  match m_futureState s with
  | stopped => (Returned, s)
  | blockchainSync => (StartBlocks, with_states (m_currentState s) poolSync s)
  | poolSync => (StartPool, with_states (m_currentState s) idle s)
  | idle => (Waiting, s)
  end.

(** The node's observer is attached on the way out of [stopped], and detached on the way in. *)
Definition observe (s : Synchronizer) : Synchronizer :=
  let s := if bool_decide (m_currentState s = stopped) && bool_decide (m_futureState s = blockchainSync) then with_observing true s else s in
  if bool_decide (m_futureState s = stopped) && negb (bool_decide (m_currentState s = stopped)) then with_observing false s else s.

(** [actualizeFutureState] as long as it holds the lock. *)
Definition actualizeFutureState (s : Synchronizer) : outcome (Pc * Synchronizer) :=
  s ← remove_tasks (m_removeTransactionTasks s) (observe s);
  s ← add_tasks (m_addTransactionTasks s) s;
  Ret (enter_state s).

Definition has_work (s : Synchronizer) : bool :=
  negb (bool_decide (m_futureState s = idle)) || negb (bool_decide (length (m_removeTransactionTasks s) = 0%nat))
  || negb (bool_decide (length (m_addTransactionTasks s) = 0%nat)).

(** The body of the [catch] of [startBlockchainSync]. *)
Definition caught (s : Synchronizer) : Synchronizer := notify (synchronizationCompleted invalid_argument) (back_to_idle s).2.

(** [processBlocks] after the update of the consumers. *)
Definition blocks_updated (nd : NodeView) (result : UpdateConsumersResult) (processedBlockCount : Z) (last : option Hash) (s : Synchronizer) : Pc * Synchronizer :=
  let go_on s := notify (synchronizationProgressUpdated processedBlockCount (Z.max (getKnownBlockCount nd) (getLocalBlockCount nd)))
                   (setFutureState blockchainSync s).2 in
  match result with
  | thrown => (Returned, caught s)
  | _ =>
      let s := match result with
               | errorOccurred => let '(set, s) := back_to_idle s in if set then notify (synchronizationCompleted invalid_argument) s else s
               | nothingChanged => if getLastKnownBlockHeight nd =? getLastLocalBlockHeight nd then s else go_on s
               | _ => go_on s
               end in
      (Interrupted, match last with Some h => with_lastBlockId h s | None => s end)
  end.

(** An error of the node. *)
Definition query_failed (ec : error_code) (s : Synchronizer) : Synchronizer := notify (synchronizationCompleted ec) (back_to_idle s).2.

(** One step of the worker; [a] is what the node has answered by then. *)
Definition work (nd : NodeView) (a : option NodeAnswer) (w : System) : outcome System :=
  let s := sy w in
  let next pc s := Ret (mkSystem s pc (sy_final w)) in
  match sy_pc w with
  | Absent => Ret w
  | Loop => Ret (mkSystem s Actualize (checkIfShouldStop s))
  | Actualize => '(pc, s) ← actualizeFutureState s; next pc s
  | Waiting => next (if has_work s then Returned else Waiting) s
  | StartBlocks =>
      req ← getCommonHistory nd (m_consumers s);
      next (if bool_decide (bq_knownBlocks req = []) then Returned else QueryBlocks req) s
  | QueryBlocks req =>
      match na_blocks <$> a with
      | Some QueryThrows => next Returned (caught s)
      | Some (QueryFails ec) => next Returned (query_failed ec s)
      | Some (Replies response) => next (ProcessBlocks response) s
      | None => Ret w
      end
  | ProcessBlocks response =>
      if checkIfShouldStop s then next Interrupted s
      else
        '(result, g, cs) ← updateConsumers (interval_of response) (map complete_block (br_newBlocks response)) false (m_consumers s) (shared s);
        next (Updated result (u32 (br_startHeight response + u32 (Z.of_nat (length (br_newBlocks response)))))
                (last (map se_blockHash (br_newBlocks response)))) (with_consumers cs g s)
  | Updated result processedBlockCount last => let '(pc, s) := blocks_updated nd result processedBlockCount last s in next pc s
  | Interrupted => next Returned (if checkIfShouldStop s then notify (synchronizationCompleted interrupted) s else s)
  | StartPool =>
      '(poolUnion, poolIntersection) ← getPoolUnionAndIntersection (m_consumers s);
      next (QueryPool (mkPoolRequest (elements poolUnion) (lastBlockId s))
              (if bool_decide (poolUnion = poolIntersection) then None else Some (elements poolIntersection))) s
  | QueryPool req intersection =>
      match na_pool <$> a with
      | Some QueryThrows => Throw "startPoolSync"
      | Some (QueryFails ec) => next Returned (query_failed ec s)
      | Some (Replies response) =>
          if negb (pr_isLastKnownBlockActual response) then next Returned (setFutureState blockchainSync s).2
          else match intersection with
               | None => next (ProcessPool response 0) s
               | Some ids => next (QueryPoolAgain (mkPoolRequest ids (lastBlockId s)) (pr_deletedTxIds response)) s
               end
      | None => Ret w
      end
  | QueryPoolAgain req deletedTxIds =>
      match na_pool <$> a with
      | Some QueryThrows => Throw "startPoolSync"
      | Some (QueryFails ec) => next Returned (query_failed ec s)
      | Some (Replies response) =>
          if negb (pr_isLastKnownBlockActual response) then next Returned (setFutureState blockchainSync s).2
          else next (ProcessPool (mkPoolResponse true (pr_newTxs response) deletedTxIds) 0) s
      | None => Ret w
      end
  | ProcessPool response processed =>
      match m_consumers s !! processed with
      | None => next Returned (notify (synchronizationCompleted 0) s)
      | Some c =>
          if checkIfShouldStop s then next Returned (notify (synchronizationCompleted interrupted) s)
          else
            '(r, (g, x)) ← onPoolUpdated (pr_newTxs response) (pr_deletedTxIds response) (shared s, co_consumer c);
            let s := with_consumers (<[processed := mkConsumer (co_address c) x (co_state c)]> (m_consumers s)) g s in
            match r with
            | None => Throw "processPoolTxs"
            | Some ec => if ec =? 0 then next (ProcessPool response (S processed)) s else next Returned (notify (synchronizationCompleted ec) s)
            end
      end
  | Returned => Ret (mkSystem s (if sy_final w then Absent else Loop) false)
  end.

(** * The other threads *)

(** [workingThread] is absent when the thread that starts has joined it. *)
Definition start (w : System) : outcome System :=
  if bool_decide (length (m_consumers (sy w)) = 0%nat) then Throw "Can't start, because BlockchainSynchronizer has no consumers"
  else
    let '(set, s) := setFutureStateIf blockchainSync (checkIfStopped (sy w) && checkIfShouldStop (sy w)) (sy w) in
    if set then Ret (mkSystem s Loop false) else Throw "BlockchainSynchronizer already started".

Inductive Event :=
| Work (nd : NodeView) (a : option NodeAnswer)
| Start
| Stop
| LocalBlockchainUpdated
| LastKnownBlockHeightUpdated
| PoolChanged
| AddTransaction (promise : Z) (tx : TransactionReader)
| RemoveTransaction (promise : Z) (h : Hash)
| AddConsumer (address : Z) (c : C)
| RemoveConsumer (address : Z).

Definition change (f : Synchronizer -> outcome Synchronizer) (w : System) : outcome System :=
  s ← f (sy w); Ret (mkSystem s (sy_pc w) (sy_final w)).

(** The node calls its observers only. *)
Definition observed (st : State) (w : System) : outcome System :=
  if m_observing (sy w) then change (fun s => Ret (setFutureState st s).2) w else Ret w.

(** What happens; a call that throws is answered by its exception and changes nothing.  [Stop] is the first half of [stop], which then
    waits for the worker. *)
Definition step (e : Event) (w : System) : outcome System :=
  match e with
  | Work nd a => work nd a w
  | Start => match sy_pc w with Absent => start w | _ => Throw "workingThread" end
  | Stop => change (fun s => Ret (setFutureState stopped s).2) w
  | LocalBlockchainUpdated | LastKnownBlockHeightUpdated => observed blockchainSync w
  | PoolChanged => observed poolSync w
  | AddTransaction promise tx => change (addUnconfirmedTransactionTask promise tx) w
  | RemoveTransaction promise h => change (removeUnconfirmedTransactionTask promise h) w
  | AddConsumer address c => change (addConsumer address c) w
  | RemoveConsumer address => change (fun s => '(_, s) ← removeConsumer address s; Ret s) w
  end.

Definition throws {A} (o : outcome A) : bool := match o with Throw _ => true | _ => false end.

(** An event, with the exceptions of the callers. *)
Definition occur (e : Event) (w : System) : outcome System :=
  match e with
  | Work _ _ => step e w
  | _ => if throws (step e w) then Ret w else step e w
  end.

(** A sequence of events. *)
Fixpoint run (es : list Event) (w : System) : outcome System :=
  match es with
  | [] => Ret w
  | e :: es => w ← occur e w; run es w
  end.

Definition newSystem (g : G) (genesisBlockHash uninitialised : Hash) : System :=
  mkSystem (newBlockchainSynchronizer g genesisBlockHash uninitialised) Absent false.

End Synchronizer.

Arguments System : clear implicits.
