(* ===== verification/TransfersExceptions.v ===== *)
(** What an exception leaves behind in a wallet.  A call of the consumer ([TransfersConsumer.cpp]) that throws has changed the containers up to the
    output, the transaction and the subscription at which it threw; [BlockchainSynchronizer::startBlockchainSync] catches the exception and goes on with the
    consumer as it is.  Here the operations of [TransfersConsumer.v] are completed by the state that they leave when they throw, and the
    consumer becomes an implementation of the class [IBlockchainConsumer] that the synchroniser drives. *)

From S2P Require Import Prelude Types Transfers Sync Synchronizer TransfersConsumer.
From S2P Require TransfersWallet.

(** * Calls that may throw *)

(** [true] with the state after the call, [false] with the state that the exception left. *)
Abbreviation attempt A := (outcome (bool * A)).

(** A step that checks before it changes anything leaves the state as it was. *)
Definition caught {A} (left : A) (o : outcome A) : attempt A :=
  match o with Ret a => Ret (true, a) | Throw _ => Ret (false, left) | AssertFail => AssertFail | Undefined => Undefined end.

(** The state at the first step that does not return. *)
Fixpoint run_until {X A} (step : X -> A -> outcome A) (l : list X) (s : A) : A :=
  match l with
  | [] => s
  | x :: l => match step x s with Ret s => run_until step l s | _ => s end
  end.

Section Containers.
Context (age : Z).

(** ** [TransfersContainer] *)

Fixpoint numbered (i : Z) (inputs : list TransactionInput) : list (Z * TransactionInput) :=
  match inputs with [] => [] | input :: inputs => (i, input) :: numbered (i + 1) inputs end.

(** Outputs are added before inputs, and the record of the transaction last: an input that throws leaves the outputs without their transaction. *)
Definition left_by_addTransaction (block : TransactionBlockInfo) (tx : TransactionReader) (transfers : list TransactionOutputInformationIn)
    (s : TransfersContainer) : TransfersContainer :=
  if (bi_height block <? m_currentHeight s) || negb (bool_decide (find_transaction (r_transactionHash tx) s = None)) then s
  else
    match addTransactionOutputs age block tx transfers s with
    | Ret (_, s) => run_until (fun '(i, input) s => '(_, s) ← addTransactionInput block tx i input s; Ret s) (numbered 0 (r_inputs tx)) s
    | _ => run_until (addTransactionOutput age block tx) transfers s
    end.

(** The transaction is already marked when the first output throws. *)
Definition left_by_markTransactionConfirmed (block : TransactionBlockInfo) (h : Hash) (globalIndices : list Z) (s : TransfersContainer) : TransfersContainer :=
  if bi_height block =? WALLET_LEGACY_UNCONFIRMED_TRANSACTION_HEIGHT then s
  else
    match find_transaction h s with
    | None => s
    | Some t =>
        let s := with_transactions (insert_by ti_blockHeight (confirmed_information block t) (m_transactions (erase_transaction h s))) s in
        run_until (fun x s => confirm_all age block globalIndices [x] s) (of_transaction h (m_unconfirmedTransfers s)) s
    end.
End Containers.

Section Consumer.
Context {E : Environment}.

(** ** [TransfersConsumer] *)

Definition left_by_processOutputs (block : TransactionBlockInfo) (tx : TransactionReader) (transfersList : list TransactionOutputInformationIn)
    (globalIdxs : list Z) (sub : TransfersSubscription) : TransfersSubscription :=
  match getTransactionInformation (r_transactionHash tx) (transfers sub) with
  | Some _ => with_transfers (left_by_markTransactionConfirmed (age_of sub) block (r_transactionHash tx) globalIdxs (transfers sub)) sub
  | None => with_transfers (left_by_addTransaction (age_of sub) block tx transfersList (transfers sub)) sub
  end.

(** The loop over the subscriptions ends at the one that throws. *)
Fixpoint try_each (keys : list bytes) (action : bytes -> TransfersSubscription -> outcome TransfersSubscription)
    (left : bytes -> TransfersSubscription -> TransfersSubscription) (m : gmap bytes TransfersSubscription) : attempt (gmap bytes TransfersSubscription) :=
  match keys with
  | [] => Ret (true, m)
  | k :: keys =>
      match m !! k with
      | None => try_each keys action left m
      | Some sub =>
          '(returned, sub) ← caught (left k sub) (action k sub);
          if (returned : bool) then try_each keys action left (<[k := sub]> m) else Ret (false, <[k := sub]> m)
      end
  end.

Definition trySubscriptions (action : bytes -> TransfersSubscription -> outcome TransfersSubscription)
    (left : bytes -> TransfersSubscription -> TransfersSubscription) (s : TransfersConsumer) : attempt TransfersConsumer :=
  '(returned, m) ← try_each (map_to_list (m_subscriptions s)).*1 action left (m_subscriptions s);
  Ret (returned, with_subscriptions m s).

(** Actions that throw before they change anything, if at all. *)
Definition try_atomic (action : TransfersSubscription -> outcome TransfersSubscription) : TransfersConsumer -> attempt TransfersConsumer :=
  trySubscriptions (fun _ => action) (fun _ sub => sub).

Definition try_process (block : TransactionBlockInfo) (tx : TransactionReader) (info : PreprocessInfo) : TransfersConsumer -> attempt TransfersConsumer :=
  let outputs k := default [] (pi_outputs info !! k) in
  trySubscriptions (fun k => processOutputs block tx (outputs k) (pi_globalIdxs info)) (fun k => left_by_processOutputs block tx (outputs k) (pi_globalIdxs info)).

Fixpoint try_process_all (l : list (TransactionBlockInfo * TransactionReader * PreprocessInfo)) (s : TransfersConsumer) : attempt TransfersConsumer :=
  match l with
  | [] => Ret (true, s)
  | (block, tx, info) :: l =>
      '(returned, s) ← try_process block tx info s;
      if (returned : bool) then try_process_all l s else Ret (false, s)
  end.

Definition try_onNewBlocks (blocks : list CompleteBlock) (startHeight : Z) (p : Seen * TransfersConsumer) : outcome (option bool * (Seen * TransfersConsumer)) :=
  let '(seen, s) := p in
  _ ← assert_ (negb (bool_decide (length blocks = 0%nat)));
  '(failed, preprocessed, seen) ← preprocess_all (schedule (queued (TransfersConsumer.ss_timestamp (m_syncStart s)) startHeight 0 blocks)) s seen;
  if (failed : bool) then
    '(returned, s) ← try_atomic (sub_onError startHeight) s;
    Ret (if (returned : bool) then Some false else None, (seen, s))
  else
    '(returned, s) ← try_process_all (merge_sort placed_before preprocessed) s;
    if (returned : bool) then
      '(returned, s) ← try_atomic (sub_advanceHeight (u32 (startHeight + Z.of_nat (length blocks) - 1))) s;
      Ret (if (returned : bool) then Some true else None, (seen, s))
    else Ret (None, (seen, s)).

Definition try_onBlockchainDetach (height : Z) (p : Seen * TransfersConsumer) : outcome (option unit * (Seen * TransfersConsumer)) :=
  let '(seen, s) := p in
  '(returned, s) ← try_atomic (sub_onBlockchainDetach height) s;
  Ret (if (returned : bool) then Some tt else None, (seen, s)).

(** [std::errc::argument_out_of_domain], the one error that unconfirmed transactions can cause. *)
Definition argument_out_of_domain : Z := 33.

(** The state of a transaction of the pool: [None] for an exception, else an error code. *)
Definition try_processTransaction (block : TransactionBlockInfo) (tx : TransactionReader) (p : Seen * TransfersConsumer)
    : outcome (option Z * (Seen * TransfersConsumer)) :=
  let '(seen, s) := p in
  '(failed, info, seen) ← preprocessOutputs block tx s seen;
  if (failed : bool) then Ret (Some argument_out_of_domain, (seen, s))
  else
    '(returned, s) ← try_process block tx info s;
    Ret (if (returned : bool) then Some 0 else None, (seen, s)).

Fixpoint try_pool_added (addedTransactions : list TransactionReader) (p : Seen * TransfersConsumer) : outcome (option Z * (Seen * TransfersConsumer)) :=
  match addedTransactions with
  | [] => Ret (Some 0, p)
  | tx :: addedTransactions =>
      let '(seen, s) := p in
      '(r, (seen, s)) ← try_processTransaction unconfirmedBlockInfo tx (seen, with_poolTxs ({[r_transactionHash tx]} ∪ m_poolTxs s) s);
      match r with
      | None => Ret (None, (seen, s))
      | Some ec =>
          if ec =? 0 then try_pool_added addedTransactions (seen, s)
          else
            '(returned, s) ← try_atomic (sub_onError WALLET_UNCONFIRMED_TRANSACTION_HEIGHT) s;
            Ret (if (returned : bool) then Some ec else None, (seen, s))
      end
  end.

Fixpoint try_pool_deleted (deletedTransactions : list Hash) (s : TransfersConsumer) : attempt TransfersConsumer :=
  match deletedTransactions with
  | [] => Ret (true, s)
  | h :: deletedTransactions =>
      '(returned, s) ← try_atomic (sub_deleteUnconfirmedTransaction h) (with_poolTxs (m_poolTxs s ∖ {[h]}) s);
      if (returned : bool) then try_pool_deleted deletedTransactions s else Ret (false, s)
  end.

Definition try_onPoolUpdated (addedTransactions : list TransactionReader) (deletedTransactions : list Hash) (p : Seen * TransfersConsumer)
    : outcome (option Z * (Seen * TransfersConsumer)) :=
  '(r, (seen, s)) ← try_pool_added addedTransactions p;
  match r with
  | Some 0 =>
      '(returned, s) ← try_pool_deleted deletedTransactions s;
      Ret (if (returned : bool) then Some 0 else None, (seen, s))
  | _ => Ret (r, (seen, s))
  end.

Definition try_removeUnconfirmedTransaction (h : Hash) (p : Seen * TransfersConsumer) : outcome (option unit * (Seen * TransfersConsumer)) :=
  let '(seen, s) := p in
  '(returned, s) ← try_atomic (sub_deleteUnconfirmedTransaction h) s;
  Ret (if (returned : bool) then Some tt else None, (seen, s)).

(** The consumer of a wallet is one of those that the synchroniser drives. *)
#[export] Instance transfers_consumer : IBlockchainConsumer Seen TransfersConsumer := {|
  Synchronizer.getSyncStart := m_syncStart;
  Synchronizer.getKnownPoolTxIds := m_poolTxs;
  Synchronizer.onBlockchainDetach := try_onBlockchainDetach;
  Synchronizer.onNewBlocks := try_onNewBlocks;
  Synchronizer.onPoolUpdated := try_onPoolUpdated;
  Synchronizer.addUnconfirmedTransaction tx := try_processTransaction (mkBlockInfo WALLET_UNCONFIRMED_TRANSACTION_HEIGHT 0 0) tx;
  Synchronizer.removeUnconfirmedTransaction := try_removeUnconfirmedTransaction
|}.

(** * The calls that return are those of [TransfersConsumer.v] *)

(** The two agree: a call that returns gives the same state, and one that throws leaves one. *)
Definition agrees {A} (o : outcome A) (t : attempt A) : Prop :=
  match o with
  | Ret a => t = Ret (true, a)
  | Throw _ => exists a, t = Ret (false, a)
  | AssertFail => t = AssertFail
  | Undefined => t = Undefined
  end.

Lemma agrees_caught {A} (left : A) o : agrees o (caught left o).
Proof. destruct o; cbn; eauto. Qed.

Lemma agrees_each keys action left m : agrees (for_each keys action m) (try_each keys action left m).
Proof.
  revert m. induction keys as [| k keys IH]; intros m; cbn [for_each try_each]; [done |].
  destruct (m !! k) as [sub |]; [| apply IH]. destruct (action k sub) as [sub' | | |]; cbn; eauto.
Qed.

Lemma agrees_subscriptions action left s : agrees (forEachSubscription action s) (trySubscriptions action left s).
Proof.
  unfold forEachSubscription, trySubscriptions. pose proof (agrees_each (map_to_list (m_subscriptions s)).*1 action left (m_subscriptions s)) as H.
  destruct (for_each _ _ _) as [m | | |]; cbn in H; [by rewrite H | by rewrite H | by rewrite H |]. destruct H as [m ->]. cbn. eauto.
Qed.

Lemma agrees_process_all l s : agrees (process_all l s) (try_process_all l s).
Proof.
  revert s. induction l as [| [[block tx] info] l IH]; intros s; cbn [process_all try_process_all]; [done |].
  pose proof (agrees_subscriptions (fun k => processOutputs block tx (default [] (pi_outputs info !! k)) (pi_globalIdxs info))
    (fun k => left_by_processOutputs block tx (default [] (pi_outputs info !! k)) (pi_globalIdxs info)) s) as H.
  unfold process_preprocessed, try_process. destruct (forEachSubscription _ s) as [s' | | |]; cbn in H; [| by rewrite H | by rewrite H |].
  - rewrite H. cbn. apply IH.
  - destruct H as [s' ->]. cbn. eauto.
Qed.

(** What a call of the consumer answers, and the state: [None] exactly when the call throws. *)
Definition answers {A R} (o : outcome A) (f : A -> R * (Seen * TransfersConsumer)) (t : outcome (option R * (Seen * TransfersConsumer))) : Prop :=
  match o with
  | Ret a => t = Ret (Some (f a).1, (f a).2)
  | Throw _ => exists p, t = Ret (None, p)
  | AssertFail => t = AssertFail
  | Undefined => t = Undefined
  end.

Lemma onBlockchainDetach_answers height s seen :
  answers (TransfersConsumer.onBlockchainDetach height s) (fun s => (tt, (seen, s))) (try_onBlockchainDetach height (seen, s)).
Proof.
  unfold TransfersConsumer.onBlockchainDetach, try_onBlockchainDetach, try_atomic.
  pose proof (agrees_subscriptions (fun _ => sub_onBlockchainDetach height) (fun _ sub => sub) s) as H.
  destruct (forEachSubscription _ s) as [s' | | |]; cbn in H; [by rewrite H | by rewrite H | by rewrite H |]. destruct H as [s' ->]. cbn. eauto.
Qed.

(** Looking at transactions does not throw. *)
Definition never_throws {A} (o : outcome A) : Prop := match o with Throw _ => False | _ => True end.

Lemma never_bind {A B} (o : outcome A) (f : A -> outcome B) : never_throws o -> (forall a, never_throws (f a)) -> never_throws (a ← o; f a).
Proof. destruct o; cbn; auto. Qed.
Lemma never_assert b : never_throws (assert_ b).
Proof. by destruct b. Qed.
Lemma never_vec {A} (l : list A) i : never_throws (vec_at l i).
Proof. unfold vec_at. repeat case_match; done. Qed.

Lemma never_createTransfer account block tx seen globalIdxs idx temp : never_throws (createTransfer account block tx seen globalIdxs idx temp).
Proof.
  unfold createTransfer. destruct (_ <=? idx); [done |]. apply never_bind; [apply never_vec |]. intros out. case_decide; [done |].
  apply never_bind; [destruct (_ =? _); [done | apply never_vec] |]. intros index. destruct (out_target out) as [o | o | o | o].
  - destruct (generate_key_image_helper _ _ _). apply never_bind; [apply never_assert |]. intros _. by destruct (key_seen _ _ _).
  - by destruct (multisignature_keys _ _ _ _).
  - by destruct (generate_key_derivation _ _).
  - done.
Qed.

Lemma never_create_loop account block tx seen globalIdxs outputs temp transfers : never_throws (create_loop account block tx seen globalIdxs outputs temp transfers).
Proof.
  revert temp transfers. induction outputs as [| idx outputs IH]; intros temp transfers; cbn [create_loop]; [done |].
  apply never_bind; [apply never_createTransfer |]. intros [st | [info temp']]; [done | apply IH].
Qed.

Lemma never_preprocess block tx s seen : never_throws (preprocessOutputs block tx s seen).
Proof.
  unfold preprocessOutputs. case_bool_decide; [done |]. destruct (if _ =? _ then _ else _) as [globalIdxs |]; [| done].
  apply never_bind; [| by intros [[? ?] ?]]. generalize (map_to_list (findMyOutputs tx (m_viewSecret s) (m_spendKeys s))).
  intros outputs. generalize (∅ : gmap bytes (list TransactionOutputInformationIn)). revert seen.
  induction outputs as [| [k idxs] outputs IH]; intros seen info; cbn [preprocess_loop]; [done |].
  destruct (m_subscriptions s !! k) as [sub |]; [| apply IH]. unfold createTransfers.
  apply never_bind; [apply never_bind; [apply never_create_loop | by intros [? ?]] |]. intros [[[[] | keys] ts] seen']; done || apply IH.
Qed.

Lemma never_preprocess_all items s seen : never_throws (preprocess_all items s seen).
Proof.
  revert seen. induction items as [| [block tx] items IH]; intros seen; cbn [preprocess_all]; [done |].
  apply never_bind; [apply never_preprocess |]. intros [[[] info] seen']; [done |]. apply never_bind; [apply IH |]. by intros [[? ?] ?].
Qed.

Lemma onNewBlocks_answers blocks startHeight s seen :
  answers (TransfersConsumer.onNewBlocks blocks startHeight s seen) (fun '(accepted, s, seen) => (accepted, (seen, s))) (try_onNewBlocks blocks startHeight (seen, s)).
Proof.
  unfold TransfersConsumer.onNewBlocks, try_onNewBlocks. destruct (negb _); [| done]. cbn [assert_ mbind outcome_bind].
  pose proof (never_preprocess_all (schedule (queued (TransfersConsumer.ss_timestamp (m_syncStart s)) startHeight 0 blocks)) s seen) as Hq.
  destruct (preprocess_all _ s seen) as [[[failed preprocessed] seen'] | | |]; [| done.. |]; [| by destruct Hq].
  rewrite !outcome_bind_ret. destruct failed.
  - unfold try_atomic. pose proof (agrees_subscriptions (fun _ => sub_onError startHeight) (fun _ sub => sub) s) as H.
    destruct (forEachSubscription _ s) as [s1 | | |]; cbn in H; [by rewrite H | by rewrite H | by rewrite H |]. destruct H as [s1 ->]. cbn. eauto.
  - pose proof (agrees_process_all (merge_sort placed_before preprocessed) s) as H.
    destruct (process_all _ s) as [s1 | | |]; cbn in H; [| by rewrite H | by rewrite H | destruct H as [s1 ->]; cbn; eauto].
    rewrite H, !outcome_bind_ret. unfold try_atomic.
    pose proof (agrees_subscriptions (fun _ => sub_advanceHeight (u32 (startHeight + Z.of_nat (length blocks) - 1))) (fun _ sub => sub) s1) as H1.
    destruct (forEachSubscription _ s1) as [s2 | | |]; cbn in H1; [by rewrite H1 | by rewrite H1 | by rewrite H1 |]. destruct H1 as [s2 ->]. cbn. eauto.
Qed.

(** * The synchroniser and the wallet *)

Lemma never_mismatch n i l interval : never_throws (mismatch n i l interval).
Proof.
  revert i. induction n as [| n IH]; intros i; cbn [mismatch]; [done |].
  apply never_bind; [apply never_vec |]. intros a. apply never_bind; [apply never_vec |]. intros b. case_decide; [apply IH | done].
Qed.

Lemma never_checkInterval st interval : never_throws (checkInterval st interval).
Proof.
  unfold checkInterval. apply never_bind; [apply never_assert |]. intros _. apply never_bind; [apply never_mismatch |].
  intros [j |]; [done |]. by destruct (_ <? _).
Qed.

Lemma never_detach st height : never_throws (detach st height).
Proof. apply never_bind; [apply never_assert | done]. Qed.

(** The wallet in the list of consumers of the synchroniser, and the result of its update. *)
Definition consumer_of (address : Z) (w : Wallet) : Consumer TransfersConsumer := Synchronizer.mkConsumer address (w_consumer w) (w_state w).
Definition result_of (r : option bool) : UpdateConsumersResult :=
  match r with None => errorOccurred | Some true => addedNewBlocks | Some false => nothingChanged end.

(** The second half of [update_one]. *)
Definition blocks_given (interval : BlockchainInterval) (blocks : list CompleteBlock) (result : CheckResult) (address : Z) (p : Seen * TransfersConsumer)
    (st : SynchronizationState) : outcome (UpdateConsumersResult * Seen * Consumer TransfersConsumer) :=
  if hasNewBlocks result then
    let startOffset := u32 (newBlockHeight result - startHeight interval) in
    '(r, (g, x)) ← Synchronizer.onNewBlocks (drop (Z.to_nat startOffset) blocks) (newBlockHeight result) p;
    match r with
    | None => Ret (thrown, g, Synchronizer.mkConsumer address x st)
    | Some false => Ret (errorOccurred, g, Synchronizer.mkConsumer address x st)
    | Some true =>
        st ← addBlocks st (drop (Z.to_nat startOffset) (interval_blocks interval)) (newBlockHeight result);
        Ret (addedNewBlocks, g, Synchronizer.mkConsumer address x st)
    end
  else Ret (nothingChanged, p.1, Synchronizer.mkConsumer address p.2 st).

(** The update of a consumer by the synchroniser is that of the wallet, and an exception leaves the chain as it was or at the fork. *)
Theorem synchroniser_updates_wallet address interval blocks w :
  match TransfersConsumer.updateConsumers interval blocks w with
  | Ret (r, w') => update_one interval blocks (w_seen w) (consumer_of address w) = Ret (result_of r, w_seen w', consumer_of address w')
  | Throw _ => exists seen s st, update_one interval blocks (w_seen w) (consumer_of address w) = Ret (thrown, seen, Synchronizer.mkConsumer address s st)
                 /\ m_blockchain st `prefix_of` m_blockchain (w_state w)
  | AssertFail => update_one interval blocks (w_seen w) (consumer_of address w) = AssertFail
  | Undefined => update_one interval blocks (w_seen w) (consumer_of address w) = Undefined
  end.
Proof.
  destruct w as [s seen st]. unfold TransfersConsumer.updateConsumers, update_one, consumer_of. cbn [co_state co_consumer co_address w_consumer w_seen w_state].
  pose proof (never_checkInterval st interval) as Hq. destruct (checkInterval st interval) as [result | | |]; [| done.. | by destruct Hq].
  rewrite !outcome_bind_ret. clear Hq.
  assert (Hblocks : forall s st1, m_blockchain st1 `prefix_of` m_blockchain st ->
    match (if hasNewBlocks result
           then let startOffset := u32 (newBlockHeight result - startHeight interval) in
                '(accepted, s, seen) ← TransfersConsumer.onNewBlocks (drop (Z.to_nat startOffset) blocks) (newBlockHeight result) s seen;
                if (accepted : bool) then state ← addBlocks st1 (drop (Z.to_nat startOffset) (interval_blocks interval)) (newBlockHeight result); Ret (Some true, mkWallet s seen state)
                else Ret (None, mkWallet s seen st1)
           else Ret (Some false, mkWallet s seen st1)) with
    | Ret (r, w') => blocks_given interval blocks result address (seen, s) st1 = Ret (result_of r, w_seen w', consumer_of address w')
    | Throw _ => exists seen' s' st2, blocks_given interval blocks result address (seen, s) st1 = Ret (thrown, seen', Synchronizer.mkConsumer address s' st2)
                   /\ m_blockchain st2 `prefix_of` m_blockchain st
    | AssertFail => blocks_given interval blocks result address (seen, s) st1 = AssertFail
    | Undefined => blocks_given interval blocks result address (seen, s) st1 = Undefined
    end).
  { intros s1 st1 Hpre. unfold blocks_given. destruct (hasNewBlocks result); [| done]. cbv zeta.
    match goal with |- context [TransfersConsumer.onNewBlocks ?b ?h s1 seen] => pose proof (onNewBlocks_answers b h s1 seen) as H end.
    cbn [Synchronizer.onNewBlocks transfers_consumer].
    destruct (TransfersConsumer.onNewBlocks _ _ s1 seen) as [[[[] s2] seen2] | | |]; cbn [answers fst snd] in H; [| | by rewrite H | by rewrite H |].
    - rewrite H. cbn. unfold addBlocks. destruct (assert_ _) as [[] | | |] eqn:Ea; cbn; try done. unfold assert_ in Ea. by destruct (_ =? _).
    - by rewrite H.
    - destruct H as [[seen2 s2] ->]. rewrite outcome_bind_ret. cbv iota beta. by exists seen2, s2, st1. }
  destruct (detachRequired result).
  - pose proof (onBlockchainDetach_answers (detachHeight result) s seen) as H. cbn [Synchronizer.onBlockchainDetach transfers_consumer].
    destruct (TransfersConsumer.onBlockchainDetach _ s) as [s1 | | |]; cbn [answers fst snd] in H; [| by rewrite H | by rewrite H | destruct H as [[seen1 s1] ->]; rewrite !outcome_bind_ret; cbv iota beta; rewrite ?outcome_bind_ret; by exists seen1, s1, st].
    rewrite H, !outcome_bind_ret. cbn [w_state w_consumer w_seen]. pose proof (never_detach st (detachHeight result)) as Hd.
    destruct (detach st (detachHeight result)) as [st1 | | |] eqn:Ed; [| done | done | by destruct Hd]. rewrite !outcome_bind_ret.
    apply Hblocks. apply outcome_bind_inv in Ed as (u & _ & [= <-]). apply prefix_take.
  - rewrite !outcome_bind_ret. by apply Hblocks.
Qed.
End Consumer.

(** * Where an exception leaves a wallet

    The wallet has followed two blocks; in the next block one transaction spends what it got in the first, and another one, which pays to it, does so again. *)

Module ExceptionDemo.
Import TransfersWallet.ConsumerDemo.
#[local] Existing Instance demo.

Definition spending (n : Z) (amount : Z) : TransactionReader :=
  mkReader (replicate 32 n) [n] 0 None [] [InKey (mkKeyInput 100 [0] [99; 7])] 100 [pay [1] [n] amount] amount.
Definition twice_spent : list CompleteBlock := [TransfersConsumer.mkCompleteBlock [11] (Some (header 11)) [spending 12 60; spending 13 70]].
Definition next_interval : BlockchainInterval := mkInterval 3 [[11]].

Definition state_after (o : outcome (UpdateConsumersResult * Seen * Consumer TransfersConsumer)) : Wallet :=
  match o with Ret (_, seen, c) => mkWallet (co_consumer c) seen (co_state c) | _ => w0 end.
Definition thrown_by (o : outcome (UpdateConsumersResult * Seen * Consumer TransfersConsumer)) : bool :=
  match o with Ret (thrown, _, _) => true | _ => false end.

Definition given_to (w : Wallet) : outcome (UpdateConsumersResult * Seen * Consumer TransfersConsumer) :=
  update_one next_interval twice_spent (w_seen w) (consumer_of 1 w).
Definition after_exception : Wallet := state_after (given_to w2).
Definition asserts (o : outcome (UpdateConsumersResult * Seen * Consumer TransfersConsumer)) : bool := match o with AssertFail => true | _ => false end.

(** The transactions by their numbers, and the amounts of the available outputs. *)
Definition amounts (w : Wallet) : list Z :=
  match m_subscriptions (w_consumer w) !! [1] with
  | Some sub => map (fun p => o_amount (x_info p.2)) (map_to_list (m_availableTransfers (transfers sub)))
  | None => []
  end.
End ExceptionDemo.

(** The output of the second transaction stays in the container, without the transaction; and when the synchroniser asks for the block again
    the output is there already, which the container asserts it is not. *)
Example exception_leaves_output :
  let w := ExceptionDemo.after_exception in
  ExceptionDemo.thrown_by (ExceptionDemo.given_to TransfersWallet.ConsumerDemo.w2) = true
  /\ TransfersWallet.ConsumerDemo.confirmed w = [(1, 7); (2, 8); (3, 12)] /\ existsb (Z.eqb 70) (ExceptionDemo.amounts w) = true
  /\ ExceptionDemo.asserts (ExceptionDemo.given_to w) = true.
Proof. vm_compute. repeat split; reflexivity. Qed.
