(* ===== verification/SynchronizerDemo.v ===== *)
(** A small consumer to run the synchroniser on: it keeps the hashes of the blocks and of the transactions of the pool, and refuses one
    block and one transaction. *)

From S2P Require Import Prelude Types Sync Synchronizer.
From S2P Require Transfers TransfersConsumer.

Record Mirror := mkMirror { mi_chain : list Hash; mi_pool : list Hash; mi_refused_block : Hash; mi_refused_tx : Hash }.

Definition set_chain (l : list Hash) (x : Mirror) : Mirror := mkMirror l (mi_pool x) (mi_refused_block x) (mi_refused_tx x).
Definition set_pool (l : list Hash) (x : Mirror) : Mirror := mkMirror (mi_chain x) l (mi_refused_block x) (mi_refused_tx x).
Definition without (h : Hash) (l : list Hash) : list Hash := List.filter (fun k => negb (bool_decide (k = h))) l.

(** What the consumers share counts their calls. *)
#[export] Instance mirror_consumer : IBlockchainConsumer Z Mirror := {|
  getSyncStart _ := TransfersConsumer.mkSyncStart 0 0;
  getKnownPoolTxIds x := list_to_set (mi_pool x);
  onBlockchainDetach height '(g, x) := Ret (Some tt, (g + 1, set_chain (take (Z.to_nat height) (mi_chain x)) x));
  onNewBlocks blocks _ '(g, x) :=
    let ids := map TransfersConsumer.cb_blockHash blocks in
    if existsb (fun h => bool_decide (h = mi_refused_block x)) ids then Ret (Some false, (g + 1, x))
    else Ret (Some true, (g + 1, set_chain (mi_chain x ++ ids) x));
  onPoolUpdated added deleted '(g, x) :=
    Ret (Some 0, (g + 1, set_pool (foldr without (mi_pool x ++ map Transfers.r_transactionHash added) deleted) x));
  addUnconfirmedTransaction tx '(g, x) :=
    if bool_decide (Transfers.r_transactionHash tx = mi_refused_tx x) then Ret (Some invalid_argument, (g + 1, x))
    else Ret (Some 0, (g + 1, set_pool (Transfers.r_transactionHash tx :: mi_pool x) x));
  removeUnconfirmedTransaction h '(g, x) := Ret (Some tt, (g + 1, set_pool (without h (mi_pool x)) x))
|}.

Definition mirror (refused_block refused_tx : Hash) : Mirror := mkMirror [[0]] [] refused_block refused_tx.

Definition demo_tx (h : Hash) : TransactionReader := Transfers.mkReader h [] 0 None [] [] 0 [] 0.
Definition demo_entry (h : Hash) : BlockShortEntry := mkShortEntry h None [].
Definition demo_view : NodeView := mkNodeView 5 5 6 6.
Definition demo_fails : option NodeAnswer := Some (mkNodeAnswer (QueryFails 1) (QueryFails 1)).
Definition demo_blocks (start : Z) (ids : list Hash) : option NodeAnswer :=
  Some (mkNodeAnswer (Replies (mkBlocksResponse start (map demo_entry ids))) (Replies (mkPoolResponse true [] []))).

(** Two consumers are added and the worker is started; it has asked for blocks. *)
Definition demo_started : list (Event (C:=Mirror)) :=
  [AddConsumer 1 (mirror [9] [9]); AddConsumer 2 (mirror [9] [8]); Start; Work demo_view None; Work demo_view None; Work demo_view None].

Definition outcome_test {A} (f : A -> bool) (o : outcome A) : bool := match o with Ret a => f a | _ => false end.

Lemma outcome_test_true {A} (f : A -> bool) o : outcome_test f o = true -> exists a, o = Ret a /\ f a = true.
Proof. destruct o; try discriminate. eauto. Qed.
