(* ===== verification/SynchronizerSafety.v ===== *)
(** The worker of the synchroniser: what holds in every system that is reached, that it ends when it is told to stop, and what becomes of
    the requests that are made while it works. *)

From S2P Require Import Prelude Sync Synchronizer SynchronizerDemo.

Section Safety.
Context {G C : Type} {IC : IBlockchainConsumer G C}.
Abbreviation Sys := (System G C).
Implicit Types (s : BlockchainSynchronizer G C) (w : Sys) (cs : list (Consumer C)).

(** * The tasks *)

(** The consumers are those that they were, with the chains that they had. *)
Definition same_chains cs cs' : Prop := map (fun c => (co_address c, co_state c)) cs' = map (fun c => (co_address c, co_state c)) cs.

(** What the tasks leave alone. *)
Record task_frame s s' : Prop := {
  tf_current : m_currentState s' = m_currentState s;
  tf_future : m_futureState s' = m_futureState s;
  tf_observing : m_observing s' = m_observing s;
  tf_genesis : m_genesisBlockHash s' = m_genesisBlockHash s;
  tf_chains : same_chains (m_consumers s) (m_consumers s')
}.

Lemma task_frame_refl s : task_frame s s.
Proof. by split. Qed.

Lemma task_frame_trans s1 s2 s3 : task_frame s1 s2 -> task_frame s2 s3 -> task_frame s1 s3.
Proof. intros [] []. split; unfold same_chains in *; congruence. Qed.

Lemma remove_loop_chains h n cs g r g' cs' : remove_loop h n cs g = Ret (r, g', cs') -> same_chains cs cs'.
Proof.
  revert n g r g' cs'. induction cs as [| c cs IH]; intros [| n] g r g' cs' E; cbn [remove_loop] in E; try (by injection E as <- <- <-).
  apply outcome_bind_inv in E as ([r1 [g1 x]] & _ & E). destruct (bool_decide (r1 = Some tt)).
  - apply outcome_bind_inv in E as ([[r2 g2] cs2] & E2 & E). injection E as <- <- <-. unfold same_chains. cbn. f_equal. by eapply IH.
  - by injection E as <- <- <-.
Qed.

Lemma add_loop_chains tx cs g r n g' cs' : add_loop tx cs g = Ret (r, n, g', cs') -> same_chains cs cs'.
Proof.
  revert g r n g' cs'. induction cs as [| c cs IH]; intros g r n g' cs' E; cbn [add_loop] in E; [by injection E as <- <- <- <- |].
  apply outcome_bind_inv in E as ([r1 [g1 x]] & _ & E). destruct (bool_decide (r1 = Some 0)).
  - apply outcome_bind_inv in E as ([[[r2 n2] g2] cs2] & E2 & E). injection E as <- <- <- <-. unfold same_chains. cbn. f_equal. by eapply IH.
  - by injection E as <- <- <- <-.
Qed.

Lemma same_chains_trans a b c : same_chains a b -> same_chains b c -> same_chains a c.
Proof. unfold same_chains. congruence. Qed.

Lemma same_chains_length a b : same_chains a b -> length b = length a.
Proof. intros H%(f_equal length). by rewrite !length_map in H. Qed.

Lemma do_remove_frame h s r s' :
  doRemoveUnconfirmedTransaction h s = Ret (r, s') -> exists cs g, s' = with_consumers cs g s /\ same_chains (m_consumers s) cs.
Proof.
  unfold doRemoveUnconfirmedTransaction. intros E. apply outcome_bind_inv in E as ([[r1 g1] cs1] & E1 & E). injection E as <- <-.
  exists cs1, g1. split; [done |]. by eapply remove_loop_chains.
Qed.

Lemma do_add_frame tx s r s' :
  doAddUnconfirmedTransaction tx s = Ret (r, s') -> exists cs g, s' = with_consumers cs g s /\ same_chains (m_consumers s) cs.
Proof.
  unfold doAddUnconfirmedTransaction. intros E. apply outcome_bind_inv in E as ([[[r1 n1] g1] cs1] & E1 & E).
  apply add_loop_chains in E1. destruct r1 as [ec |]; [| injection E as <- <-; eauto].
  destruct (ec =? 0); [injection E as <- <-; eauto |]. apply outcome_bind_inv in E as ([[r2 g2] cs2] & E2 & E). injection E as <- <-.
  apply remove_loop_chains in E2. exists cs2, g2. eauto using same_chains_trans.
Qed.

Lemma remove_tasks_spec tasks s s' :
  m_removeTransactionTasks s = tasks -> remove_tasks tasks s = Ret s' ->
  task_frame s s' /\ m_removeTransactionTasks s' = [] /\ m_addTransactionTasks s' = m_addTransactionTasks s
  /\ map an_promise (m_answers s') = map an_promise (m_answers s) ++ map fst tasks.
Proof.
  revert s. induction tasks as [| [p h] tasks IH]; intros s Hs E; cbn [remove_tasks] in E.
  - injection E as <-. rewrite app_nil_r. auto using task_frame_refl.
  - apply outcome_bind_inv in E as ([r s1] & E1 & E). apply do_remove_frame in E1 as (cs & g & -> & Hcs).
    apply IH in E as (Hf & H1 & H2 & H3); [| done]. split; [| split; [done | split; [done |]]].
    + eapply task_frame_trans, Hf. by split.
    + rewrite H3. cbn. by rewrite map_app, <- app_assoc.
Qed.

Lemma add_tasks_spec tasks s s' :
  m_addTransactionTasks s = tasks -> add_tasks tasks s = Ret s' ->
  task_frame s s' /\ m_addTransactionTasks s' = [] /\ m_removeTransactionTasks s' = m_removeTransactionTasks s
  /\ map an_promise (m_answers s') = map an_promise (m_answers s) ++ map fst tasks.
Proof.
  revert s. induction tasks as [| [p tx] tasks IH]; intros s Hs E; cbn [add_tasks] in E.
  - injection E as <-. rewrite app_nil_r. auto using task_frame_refl.
  - apply outcome_bind_inv in E as ([r s1] & E1 & E). apply do_add_frame in E1 as (cs & g & -> & Hcs).
    apply IH in E as (Hf & H1 & H2 & H3); [| done]. split; [| split; [done | split; [done |]]].
    + eapply task_frame_trans, Hf. by split.
    + rewrite H3. cbn. by rewrite map_app, <- app_assoc.
Qed.

(** The promises that wait, in the order in which they are answered. *)
Definition unanswered s : list Z := map fst (m_removeTransactionTasks s) ++ map fst (m_addTransactionTasks s).

Lemma observe_spec s :
  m_removeTransactionTasks (observe s) = m_removeTransactionTasks s /\ m_addTransactionTasks (observe s) = m_addTransactionTasks s
  /\ m_answers (observe s) = m_answers s /\ m_currentState (observe s) = m_currentState s /\ m_futureState (observe s) = m_futureState s
  /\ m_consumers (observe s) = m_consumers s /\ m_genesisBlockHash (observe s) = m_genesisBlockHash s
  /\ m_observing (observe s) = (if bool_decide (m_futureState s = stopped) then if bool_decide (m_currentState s = stopped) then m_observing s else false
                                else if bool_decide (m_currentState s = stopped /\ m_futureState s = blockchainSync) then true else m_observing s).
Proof. destruct s as [cs g gen l cur fut add rem ob an no]. by destruct cur, fut. Qed.

(** [actualizeFutureState] answers every task and enters the state that was asked for. *)
Lemma actualize_spec s pc s' :
  actualizeFutureState s = Ret (pc, s') ->
  exists s1, (pc, s') = enter_state s1 /\ m_currentState s1 = m_currentState s /\ m_futureState s1 = m_futureState s
    /\ same_chains (m_consumers s) (m_consumers s1) /\ m_genesisBlockHash s1 = m_genesisBlockHash s
    /\ m_removeTransactionTasks s1 = [] /\ m_addTransactionTasks s1 = []
    /\ map an_promise (m_answers s1) = map an_promise (m_answers s) ++ unanswered s
    /\ m_observing s1 = (if bool_decide (m_futureState s = stopped) then if bool_decide (m_currentState s = stopped) then m_observing s else false
                         else if bool_decide (m_currentState s = stopped /\ m_futureState s = blockchainSync) then true else m_observing s).
Proof.
  unfold actualizeFutureState. intros E. apply outcome_bind_inv in E as (s3 & E1 & E). apply outcome_bind_inv in E as (s4 & E2 & E).
  injection E as E. pose proof (observe_spec s) as Hs2. set (s2 := observe s) in *.
  destruct Hs2 as (Hr & Ha & Han & Hc & Hf & Hcs & Hg & Ho).
  apply remove_tasks_spec in E1 as (F1 & R1 & A1 & P1); [| done]. apply add_tasks_spec in E2 as (F2 & A2 & R2 & P2); [| done].
  pose proof (task_frame_trans _ _ _ F1 F2) as []. exists s4. split; [congruence |]. split; [congruence |]. split; [congruence |].
  split; [by rewrite <- Hcs |]. split; [congruence |]. split; [congruence |]. split; [done |]. split; [| congruence].
  rewrite P2, P1, A1, Ha, Han. unfold unanswered. by rewrite app_assoc.
Qed.

(** * Every system that is reached *)

(** What the worker does at a program counter, when it is in one state. *)
Definition working (pc : Pc) : option State :=
  match pc with
  | Absent | Loop | Actualize | Returned => None
  | Waiting => Some idle
  | StartBlocks | QueryBlocks _ | ProcessBlocks _ | Updated _ _ _ | Interrupted => Some blockchainSync
  | StartPool | QueryPool _ _ | QueryPoolAgain _ _ | ProcessPool _ _ => Some poolSync
  end.

Record system_ok w : Prop := {
  ok_observing : m_observing (sy w) = true <-> m_currentState (sy w) <> stopped;
  ok_working st : working (sy_pc w) = Some st -> m_currentState (sy w) = st;
  ok_final : sy_final w = true -> m_futureState (sy w) = stopped /\ (sy_pc w = Actualize \/ sy_pc w = Returned /\ m_currentState (sy w) = stopped);
  ok_absent : sy_pc w = Absent -> m_currentState (sy w) = stopped /\ m_futureState (sy w) = stopped /\ sy_final w = false;
  ok_tasks : m_currentState (sy w) = stopped -> unanswered (sy w) = [];
  ok_starting : m_currentState (sy w) = stopped -> m_futureState (sy w) = stopped \/ m_futureState (sy w) = blockchainSync /\ (sy_pc w = Loop \/ sy_pc w = Actualize);
  ok_consumers : m_currentState (sy w) <> stopped \/ m_futureState (sy w) <> stopped -> m_consumers (sy w) <> []
}.

(** A change that leaves the worker where it is. *)
Lemma set_future_ok st w :
  system_ok w -> (st = stopped \/ m_observing (sy w) = true) ->
  system_ok (mkSystem (setFutureState st (sy w)).2 (sy_pc w) (sy_final w)).
Proof.
  intros [Ho Hw Hf Ha Ht Hst Hc] Hob. unfold setFutureState, setFutureStateIf. destruct (Z.ltb_spec (priority (m_futureState (sy w))) (priority st)) as [Hlt | _];
    [| by split]. split; cbn; try done.
  - intros E. destruct (Hf E) as [E1 E2]. rewrite E1 in Hlt. destruct st; cbn in Hlt; try lia.
  - intros E. destruct (Ha E) as (E1 & E2 & E3). rewrite E2 in Hlt. destruct st; cbn in Hlt; lia.
  - intros E. destruct Hob as [-> | Hob]; [by left |]. by apply Ho in Hob.
  - intros H. apply Hc. destruct Hob as [-> | Hob]; [| left; by apply Ho]. destruct H; [by left |]. done.
Qed.

(** A step of the worker at work: only the program counter and what the other threads do not look at. *)
Definition same_post s s' : Prop :=
  m_currentState s' = m_currentState s /\ m_observing s' = m_observing s /\ unanswered s' = unanswered s /\ m_answers s' = m_answers s
  /\ (m_consumers s <> [] -> m_consumers s' <> []) /\ m_genesisBlockHash s' = m_genesisBlockHash s.

Lemma moved w st pc s :
  system_ok w -> working (sy_pc w) = Some st -> (working pc = Some st \/ pc = Returned) -> same_post (sy w) s ->
  system_ok (mkSystem s pc (sy_final w)).
Proof.
  intros [Ho Hw Hf Ha Ht Hst Hc] Hst0 Hpc (E1 & E2 & _ & _ & E3 & _).
  assert (Hne : m_currentState (sy w) <> stopped) by (rewrite (Hw _ Hst0); intros ->; by destruct (sy_pc w)).
  assert (Hfin : sy_final w = false).
  { destruct (sy_final w); [| done]. destruct (Hf eq_refl) as [_ [E | [E _]]]; by rewrite E in Hst0. }
  split; cbn [sy sy_pc sy_final]; rewrite ?E1, ?E2; try done.
  - destruct Hpc as [E | ->]; [| done]. intros st'. rewrite E. intros [= <-]. auto.
  - by rewrite Hfin.
  - intros ->. by destruct Hpc.
  - intros _. apply E3, Hc. by left.
Qed.

Lemma back_to_idle_post s : same_post s (back_to_idle s).2.
Proof. unfold back_to_idle, setFutureStateIf. by destruct (negb _). Qed.
Lemma future_post st s : same_post s (setFutureState st s).2.
Proof. unfold setFutureState, setFutureStateIf. by destruct (_ <? _). Qed.
Lemma caught_post s : same_post s (caught s).
Proof. exact (back_to_idle_post s). Qed.
Lemma query_failed_post ec s : same_post s (query_failed ec s).
Proof. exact (back_to_idle_post s). Qed.
Lemma notify_post n s : same_post s (notify n s).
Proof. by repeat split. Qed.
Lemma same_post_refl s : same_post s s.
Proof. by repeat split. Qed.

Lemma blocks_updated_post nd result n last s pc s' :
  blocks_updated nd result n last s = (pc, s') -> same_post s s' /\ (pc = Interrupted \/ pc = Returned).
Proof.
  unfold blocks_updated. intros E. assert (Hl : forall s1, same_post s s1 -> same_post s (match last with Some h => with_lastBlockId h s1 | None => s1 end))
    by (intros s1 ?; by destruct last).
  destruct result.
  - injection E as <- <-. split; [apply Hl | by left]. destruct (_ =? _); [apply same_post_refl | exact (future_post _ s)].
  - injection E as <- <-. split; [apply Hl; exact (future_post _ s) | by left].
  - pose proof (back_to_idle_post s) as Hg. destruct (back_to_idle s) as [b s1]. injection E as <- <-. split; [apply Hl | by left]. by destruct b.
  - injection E as <- <-. split; [exact (caught_post s) | by right].
Qed.

Lemma with_consumers_post cs g s : length cs = length (m_consumers s) -> same_post s (with_consumers cs g s).
Proof. intros E. repeat split. cbn. intros H ->. by destruct (m_consumers s). Qed.

Lemma updateConsumers_length interval blocks b cs g r g' cs' :
  updateConsumers interval blocks b cs g = Ret (r, g', cs') -> length cs' = length cs.
Proof.
  revert b g r g' cs'. induction cs as [| c cs IH]; intros b g r g' cs' E; cbn [updateConsumers] in E; [by injection E as <- <- <- |].
  apply outcome_bind_inv in E as ([[r1 g1] c1] & _ & E).
  destruct r1; try (by injection E as <- <- <-);
    apply outcome_bind_inv in E as ([[r2 g2] cs2] & E2 & E); injection E as <- <- <-; cbn; f_equal; by eapply IH.
Qed.

Create HintDb post.
#[local] Hint Resolve same_post_refl notify_post future_post query_failed_post caught_post back_to_idle_post : post.
Ltac posted := split; [done |]; split; [cbn [sy]; auto with post | auto].

(** The worker between two locks. *)
Lemma work_post nd a w w' st :
  working (sy_pc w) = Some st -> work nd a w = Ret w' ->
  sy_final w' = sy_final w /\ same_post (sy w) (sy w') /\ (working (sy_pc w') = Some st \/ sy_pc w' = Returned).
Proof.
  destruct w as [s pc f]. unfold work. cbn [sy sy_pc sy_final]. intros Hw E. destruct pc; try done; cbn [working] in Hw; injection Hw as <-.
  - injection E as <-. destruct (has_work s); posted.
  - apply outcome_bind_inv in E as (req & _ & E). injection E as <-. destruct (bool_decide _); posted.
  - destruct (na_blocks <$> a) as [[| ec | r] |]; injection E as <-; posted.
  - destruct (checkIfShouldStop s); [injection E as <-; posted |].
    apply outcome_bind_inv in E as ([[r g] cs] & Eu & E). injection E as <-. split; [done |]. split; [| auto].
    apply with_consumers_post. by eapply updateConsumers_length.
  - destruct (blocks_updated nd result processedBlockCount lastBlock s) as [pc s1] eqn:Eb. injection E as <-.
    apply blocks_updated_post in Eb as [Hp [-> | ->]]; posted.
  - injection E as <-. destruct (checkIfShouldStop s); posted.
  - apply outcome_bind_inv in E as ([u i] & _ & E). injection E as <-. posted.
  - destruct (na_pool <$> a) as [[| ec | r] |]; try done; [| destruct (pr_isLastKnownBlockActual r), intersection |]; injection E as <-;
      posted.
  - destruct (na_pool <$> a) as [[| ec | r] |]; try done; [| destruct (pr_isLastKnownBlockActual r) |]; injection E as <-;
      posted.
  - destruct (m_consumers s !! processed) as [c |]; [| injection E as <-; posted].
    destruct (checkIfShouldStop s); [injection E as <-; posted |].
    apply outcome_bind_inv in E as ([r [g x]] & _ & E). destruct r as [ec |]; [| done].
    assert (Hp : same_post s (with_consumers (<[processed:=mkConsumer (co_address c) x (co_state c)]> (m_consumers s)) g s))
      by (apply with_consumers_post, length_insert).
    destruct (ec =? 0); injection E as <-; posted.
Qed.

Lemma unanswered_nil s : m_removeTransactionTasks s = [] -> m_addTransactionTasks s = [] -> unanswered s = [].
Proof. unfold unanswered. by intros -> ->. Qed.

Lemma enter_ok s pc s' f :
  enter_state s = (pc, s') -> (m_observing s = true <-> m_futureState s <> stopped) -> unanswered s = [] ->
  (m_futureState s <> stopped -> m_consumers s <> []) -> (f = true -> m_futureState s = stopped) -> system_ok (mkSystem s' pc f).
Proof.
  unfold enter_state. intros E Ho Hq Hc Hf.
  assert (Hob : m_futureState s <> stopped -> m_observing s = true) by apply Ho.
  assert (Hfin : m_futureState s <> stopped -> f = false) by (destruct f; [intros H; by destruct (H (Hf eq_refl)) | done]).
  destruct (m_futureState s) eqn:Ef; injection E as <- <-; split; cbn; rewrite ?Hob, ?Hfin by done; try done;
    try (intros _; by apply Hc); try (by intros ? [= <-]); auto. by intros [|].
Qed.

Lemma actualize_ok w w' nd a : system_ok w -> sy_pc w = Actualize -> work nd a w = Ret w' -> system_ok w'.
Proof.
  destruct w as [s pc f]. cbn. intros [Ho Hw Hf Ha Ht Hst Hc] -> E. cbn in *. apply outcome_bind_inv in E as ([pc1 s1] & E & E').
  injection E' as <-. apply actualize_spec in E as (s2 & Ee & E1 & E2 & E3 & _ & E4 & E5 & _ & E6).
  apply (enter_ok s2); [done | | by apply unanswered_nil | | by intros H; rewrite E2; destruct (Hf H)].
  - rewrite E6, E2. destruct (bool_decide_reflect (m_futureState s = stopped)) as [Hs | Hs].
    + split; [| done]. case_bool_decide as Hcur; [| done]. intros Hb. by apply Ho in Hb.
    + split; [done |]. intros _. case_bool_decide as Hcur; [done |]. apply Ho. intros H. destruct (Hst H) as [? | [? _]]; [done |]. by apply Hcur.
  - intros H En. apply same_chains_length in E3. rewrite En in E3. rewrite E2 in H. specialize (Hc (or_intror H)). by destruct (m_consumers s).
Qed.

Lemma work_ok nd a w w' : system_ok w -> work nd a w = Ret w' -> system_ok w'.
Proof.
  intros Hok E. destruct (working (sy_pc w)) as [st |] eqn:Hw.
  - destruct (work_post _ _ _ _ _ Hw E) as (E1 & E2 & E3). destruct w' as [s' pc' f']. cbn in *. subst f'. by eapply moved.
  - destruct (sy_pc w) eqn:Hpc; try done.
    + unfold work in E. rewrite Hpc in E. by injection E as <-.
    + unfold work in E. rewrite Hpc in E. injection E as <-. destruct Hok as [Ho Hw' Hf Ha Ht Hst Hc]. split; cbn; try done.
      * unfold checkIfShouldStop. intros H%bool_decide_eq_true_1. auto.
      * intros H. destruct (Hst H) as [? | [? _]]; auto.
    + by eapply actualize_ok.
    + unfold work in E. rewrite Hpc in E. injection E as <-. destruct Hok as [Ho Hw' Hf Ha Ht Hst Hc]. split; cbn; try done.
      * by destruct (sy_final w).
      * destruct (sy_final w) eqn:Ef; [| done]. intros _. destruct (Hf eq_refl) as [? [E | [_ ?]]]; [congruence | done].
      * intros H. destruct (Hst H) as [? | [_ [E | E]]]; [by left | congruence | congruence].
Qed.

Lemma start_ok w w' : system_ok w -> sy_pc w = Absent -> start w = Ret w' -> system_ok w'.
Proof.
  intros [Ho Hw Hf Ha Ht Hst Hc] Hpc E. destruct (Ha Hpc) as (Hcur & Hfut & _). unfold start in E.
  destruct (bool_decide_reflect (length (m_consumers (sy w)) = 0%nat)) as [| Hne]; [done |].
  unfold checkIfStopped, checkIfShouldStop, setFutureStateIf in E. rewrite !bool_decide_true in E by done. injection E as <-.
  split; cbn; rewrite ?Hcur; try done; [by rewrite Hcur in Ho | intros _; exact (Ht Hcur) | by auto |]. intros _ En. by rewrite En in Hne.
Qed.

(** A change of the tasks while the worker runs, or of the consumers while it does not. *)
Lemma tasks_ok add remove w :
  system_ok w -> m_currentState (sy w) <> stopped -> system_ok (mkSystem (with_tasks add remove (sy w)) (sy_pc w) (sy_final w)).
Proof. intros [Ho Hw Hf Ha Ht Hst Hc] Hcur. by split. Qed.

Lemma consumers_ok cs g w :
  system_ok w -> m_currentState (sy w) = stopped -> m_futureState (sy w) = stopped ->
  system_ok (mkSystem (with_consumers cs g (sy w)) (sy_pc w) (sy_final w)).
Proof. intros [Ho Hw Hf Ha Ht Hst Hc] Hcur Hfut. split; cbn; try done. by intros []. Qed.

Lemma both_stopped s : negb (checkIfStopped s && checkIfShouldStop s) = false -> m_currentState s = stopped /\ m_futureState s = stopped.
Proof.
  unfold checkIfStopped, checkIfShouldStop. intros H%negb_false_iff%andb_true_iff. destruct H as [H1 H2].
  split; by eapply bool_decide_eq_true_1.
Qed.

Lemma none_stopped s : checkIfStopped s || checkIfShouldStop s = false -> m_currentState s <> stopped /\ m_futureState s <> stopped.
Proof.
  unfold checkIfStopped, checkIfShouldStop. intros H%orb_false_iff. destruct H as [H1 H2].
  split; by eapply bool_decide_eq_false_1.
Qed.

Lemma step_ok e w w' : system_ok w -> step e w = Ret w' -> system_ok w'.
Proof.
  intros Hok E. destruct e; cbn [step] in E.
  - by eapply work_ok.
  - destruct (sy_pc w) eqn:Hpc; try done. by eapply start_ok.
  - injection E as <-. apply set_future_ok; auto.
  - unfold observed in E. destruct (m_observing (sy w)) eqn:Ho; injection E as <-; [apply set_future_ok; auto | done].
  - unfold observed in E. destruct (m_observing (sy w)) eqn:Ho; injection E as <-; [apply set_future_ok; auto | done].
  - unfold observed in E. destruct (m_observing (sy w)) eqn:Ho; injection E as <-; [apply set_future_ok; auto | done].
  - unfold change, addUnconfirmedTransactionTask in E. destruct (checkIfStopped (sy w) || checkIfShouldStop (sy w)) eqn:Hs; [done |].
    injection E as <-. apply tasks_ok; [done | by apply none_stopped].
  - unfold change, removeUnconfirmedTransactionTask in E. destruct (checkIfStopped (sy w) || checkIfShouldStop (sy w)) eqn:Hs; [done |].
    injection E as <-. apply tasks_ok; [done | by apply none_stopped].
  - unfold change, addConsumer in E. destruct (assert_ _); try done. rewrite outcome_bind_ret in E.
    destruct (negb _) eqn:Hs; [done |]. injection E as <-. apply both_stopped in Hs as []. by apply consumers_ok.
  - unfold change, removeConsumer in E. destruct (negb (checkIfStopped _ && _)) eqn:Hs; [done |]. injection E as <-.
    apply both_stopped in Hs as []. by apply consumers_ok.
Qed.

Lemma occur_ok e w w' : system_ok w -> occur e w = Ret w' -> system_ok w'.
Proof.
  intros Hok E. assert (step e w = Ret w' \/ w' = w) as [? | ->]; [| by eapply step_ok | done].
  unfold occur in E. destruct e; [by left |..]; (destruct (throws _); [injection E as <-; by right | by left]).
Qed.

Lemma run_ok es w w' : system_ok w -> run es w = Ret w' -> system_ok w'.
Proof.
  revert w. induction es as [| e es IH]; intros w Hok E; cbn [run] in E; [by injection E as <- |].
  apply outcome_bind_inv in E as (w1 & E1 & E). eauto using occur_ok.
Qed.

Lemma new_ok g genesis h : system_ok (newSystem g genesis h).
Proof. split; cbn; try done; auto. intros [|]; done. Qed.

(** * Promises *)

(** The promises that were given, and those that are known to the synchroniser. *)
Definition given (e : Event) w : list Z :=
  match e with
  | AddTransaction promise _ | RemoveTransaction promise _ => if throws (step e w) then [] else [promise]
  | _ => []
  end.

Fixpoint accepted (es : list Event) w : list Z :=
  match es with
  | [] => []
  | e :: es => given e w ++ match occur e w with Ret w => accepted es w | _ => [] end
  end.

Definition promises s : list Z := map an_promise (m_answers s) ++ unanswered s.

Lemma work_promises nd a w w' : work nd a w = Ret w' -> promises (sy w') = promises (sy w).
Proof.
  intros E. unfold promises. destruct (working (sy_pc w)) as [st |] eqn:Hw.
  - destruct (work_post _ _ _ _ _ Hw E) as (_ & (_ & _ & -> & -> & _) & _). done.
  - unfold work in E. destruct (sy_pc w); try done; try (by injection E as <-).
    apply outcome_bind_inv in E as ([pc s'] & E & E'). injection E' as <-. apply actualize_spec in E as (s1 & Ee & _ & _ & _ & _ & E4 & E5 & E6 & _).
    assert (H : m_answers s' = m_answers s1 /\ unanswered s' = unanswered s1) by (unfold enter_state in Ee; destruct (m_futureState s1); by injection Ee as -> ->).
    destruct H as [H1 H2]. cbn. by rewrite H1, H2, E6, (unanswered_nil s1 E4 E5), app_nil_r.
Qed.

Lemma set_future_promises st s : promises (setFutureState st s).2 = promises s.
Proof. unfold promises. by destruct (future_post st s) as (_ & _ & -> & -> & _). Qed.

Lemma occur_promises e w w' : occur e w = Ret w' -> promises (sy w') ≡ₚ promises (sy w) ++ given e w.
Proof.
  intros E. unfold occur in E. destruct e; cbn [given]; rewrite ?app_nil_r; [by rewrite (work_promises _ _ _ _ E) |..];
    (destruct (throws (step _ w)) eqn:Ht; [injection E as <-; by rewrite ?app_nil_r |]); cbn [step] in E.
  - destruct (sy_pc w); try done. unfold start, setFutureStateIf in E. destruct (bool_decide _); [done |].
    destruct (_ && _); [by injection E as <- | done].
  - injection E as <-. cbn. by rewrite set_future_promises.
  - unfold observed in E. destruct (m_observing (sy w)); injection E as <-; [cbn; by rewrite set_future_promises | done].
  - unfold observed in E. destruct (m_observing (sy w)); injection E as <-; [cbn; by rewrite set_future_promises | done].
  - unfold observed in E. destruct (m_observing (sy w)); injection E as <-; [cbn; by rewrite set_future_promises | done].
  - unfold change, addUnconfirmedTransactionTask in E. destruct (_ || _); [done |]. injection E as <-. unfold promises, unanswered. cbn.
    rewrite map_app, !app_assoc. done.
  - unfold change, removeUnconfirmedTransactionTask in E. destruct (_ || _); [done |]. injection E as <-. unfold promises, unanswered. cbn.
    rewrite map_app, <- !app_assoc. do 2 f_equiv. apply Permutation_app_comm.
  - unfold change, addConsumer in E. destruct (assert_ _); try done. rewrite outcome_bind_ret in E. destruct (negb _); [done |]. by injection E as <-.
  - unfold change, removeConsumer in E. destruct (negb _); [done |]. by injection E as <-.
Qed.

Lemma run_promises es w w' : run es w = Ret w' -> promises (sy w') ≡ₚ promises (sy w) ++ accepted es w.
Proof.
  revert w. induction es as [| e es IH]; intros w E; cbn [run accepted] in *; [injection E as <-; by rewrite app_nil_r |].
  apply outcome_bind_inv in E as (w1 & E1 & E). rewrite (IH _ E), (occur_promises _ _ _ E1), E1. by rewrite app_assoc.
Qed.

(** * Stopping *)

(** Consumers whose calls for single transactions return, with an error, an exception or neither. *)
Record consumers_return : Prop := {
  add_returns tx (p : G * C) : exists r, addUnconfirmedTransaction tx p = Ret r;
  remove_returns h (p : G * C) : exists r, removeUnconfirmedTransaction h p = Ret r
}.

Definition bounded cs : Prop := Forall (fun c => Z.of_nat (length (m_blockchain (co_state c))) <= 2 ^ 30) cs.

Lemma bounded_same cs cs' : same_chains cs cs' -> bounded cs -> bounded cs'.
Proof.
  intros H Hb. assert (E : map co_state cs' = map co_state cs).
  { apply (f_equal (map snd)) in H. by rewrite !map_map in H. }
  unfold bounded in *. rewrite <- (List.Forall_map co_state (fun st => Z.of_nat (length (m_blockchain st)) <= 2 ^ 30)) in *. by rewrite E.
Qed.

Section Returns.
Context (Hret : consumers_return).

Lemma remove_loop_returns h n cs g : exists r, remove_loop h n cs g = Ret r.
Proof.
  revert n g. induction cs as [| c cs IH]; intros [| n] g; cbn [remove_loop]; eauto.
  destruct (remove_returns Hret h (g, co_consumer c)) as [[r [g1 x]] ->]. rewrite outcome_bind_ret. destruct (bool_decide _); eauto.
  destruct (IH n g1) as [[[r2 g2] cs2] ->]. eauto.
Qed.

Lemma add_loop_returns tx cs g : exists r, add_loop tx cs g = Ret r.
Proof.
  revert g. induction cs as [| c cs IH]; intros g; cbn [add_loop]; eauto.
  destruct (add_returns Hret tx (g, co_consumer c)) as [[r [g1 x]] ->]. rewrite outcome_bind_ret. destruct (bool_decide _); eauto.
  destruct (IH g1) as [[[[r2 n2] g2] cs2] ->]. eauto.
Qed.

Lemma do_add_returns tx s : exists r, doAddUnconfirmedTransaction tx s = Ret r.
Proof.
  unfold doAddUnconfirmedTransaction. destruct (add_loop_returns tx (m_consumers s) (shared s)) as [[[[[ec |] n] g] cs] ->]; rewrite outcome_bind_ret; [| eauto].
  destruct (ec =? 0); [eauto |]. destruct (remove_loop_returns (Transfers.r_transactionHash tx) n cs g) as [[[r2 g2] cs2] ->]. eauto.
Qed.

Lemma remove_tasks_return tasks s : exists s', remove_tasks tasks s = Ret s'.
Proof.
  revert s. induction tasks as [| [p h] tasks IH]; intros s; cbn [remove_tasks]; eauto. unfold doRemoveUnconfirmedTransaction.
  destruct (remove_loop_returns h (length (m_consumers s)) (m_consumers s) (shared s)) as [[[r g] cs] E]. cbn. rewrite E. apply IH.
Qed.

Lemma add_tasks_return tasks s : exists s', add_tasks tasks s = Ret s'.
Proof.
  revert s. induction tasks as [| [p tx] tasks IH]; intros s; cbn [add_tasks]; eauto.
  destruct (do_add_returns tx (with_tasks tasks (m_removeTransactionTasks s) s)) as [[r s1] ->]. apply IH.
Qed.

Lemma actualize_returns s : exists pc s', actualizeFutureState s = Ret (pc, s').
Proof.
  unfold actualizeFutureState. destruct (remove_tasks_return (m_removeTransactionTasks s) (observe s)) as [s1 ->]. rewrite outcome_bind_ret.
  destruct (add_tasks_return (m_addTransactionTasks s1) s1) as [s2 ->]. rewrite outcome_bind_ret. destruct (enter_state s2). eauto.
Qed.

Lemma shortest_loop_bounded st start cs :
  Z.of_nat (length (m_blockchain st)) <= 2 ^ 30 -> bounded cs -> Z.of_nat (length (m_blockchain (shortest_loop st start cs).1)) <= 2 ^ 30.
Proof.
  revert st start. induction cs as [| c cs IH]; intros st start Hst Hb; [done |]. apply List.Forall_cons_iff in Hb as [Hc Hb].
  cbn [shortest_loop]. apply IH; [| done]. by destruct (_ <? _).
Qed.

Lemma common_history_returns nd cs :
  0 <= getLastLocalBlockHeight nd < 2 ^ 32 - 1 -> bounded cs -> exists req, getCommonHistory nd cs = Ret req.
Proof.
  intros Hnd Hb. destruct cs as [| c cs]; [by eexists |]. apply List.Forall_cons_iff in Hb as [Hc Hb]. cbn [getCommonHistory].
  pose proof (shortest_loop_bounded (co_state c) (getSyncStart (co_consumer c)) cs Hc Hb) as Hs.
  destruct (shortest_loop (co_state c) (getSyncStart (co_consumer c)) cs) as [st start].
  assert (exists hist, getShortHistory st (getLastLocalBlockHeight nd) = Ret hist) as [hist ->]; [| by eexists].
  destruct (decide (m_blockchain st = [])) as [E | Hne].
  - exists []. unfold getShortHistory. rewrite E. cbn [length]. rewrite (u32_small (_ + 1)), u32_small, Z.min_l by lia. done.
  - destruct (getShortHistory_spec st (getLastLocalBlockHeight nd) Hne Hs Hnd) as (hist & _ & ? & _). eauto.
Qed.

(** What may still happen: the worker runs and the node answers or does not; nobody starts the synchroniser again. *)
Definition winding_down (e : Event (C:=C)) : Prop :=
  match e with
  | Work nd a => 0 <= getLastLocalBlockHeight nd < 2 ^ 32 - 1 /\ forall x, a = Some x -> na_pool x <> QueryThrows
  | Start | AddConsumer _ _ | RemoveConsumer _ => False
  | _ => True
  end.

(** How far the worker is from its end. *)
Definition rank w : nat :=
  match sy_pc w with
  | Absent => 0
  | Returned => if sy_final w then 1 else 4
  | Actualize => if sy_final w then 2 else 5
  | Loop => 3
  | Waiting | Interrupted | ProcessPool _ _ => 5
  | Updated _ _ _ | ProcessBlocks _ | QueryPoolAgain _ _ => 6
  | QueryBlocks _ | QueryPool _ _ => 7
  | StartBlocks | StartPool => 8
  end.

(** A system that was told to stop. *)
Definition stopping w : Prop := system_ok w /\ m_futureState (sy w) = stopped /\ bounded (m_consumers (sy w)).

Lemma back_to_idle_stopped s : m_futureState s = stopped -> (back_to_idle s).2 = s.
Proof. intros H. unfold back_to_idle, checkIfShouldStop, setFutureStateIf. by rewrite bool_decide_true. Qed.
Lemma future_stopped st s : m_futureState s = stopped -> (setFutureState st s).2 = s.
Proof. intros H. unfold setFutureState, setFutureStateIf. rewrite H. by destruct st. Qed.

Lemma blocks_updated_stopped nd result n last s pc s' :
  m_futureState s = stopped -> blocks_updated nd result n last s = (pc, s') ->
  m_futureState s' = stopped /\ m_consumers s' = m_consumers s /\ (pc = Interrupted \/ pc = Returned).
Proof.
  unfold blocks_updated, caught. intros H E. pose proof (back_to_idle_stopped s H) as Hg. pose proof (future_stopped blockchainSync s H) as Hf.
  destruct (back_to_idle s) as [b s1]. cbn in Hg. subst s1. rewrite ?Hf in E.
  destruct result; [destruct (_ =? _) | | destruct b |]; injection E as <- <-; destruct last; auto.
Qed.

Ltac wound := repeat (split; [first [done | lia] |]); try lia; try done; try (by intros []).

Lemma work_stopping nd a w :
  stopping w -> winding_down (Work nd a) ->
  exists w', work nd a w = Ret w' /\ m_futureState (sy w') = stopped /\ bounded (m_consumers (sy w'))
    /\ (rank w' <= rank w)%nat /\ (a <> None -> (rank w' <= rank w - 1)%nat).
Proof.
  destruct w as [s pc f]. intros (Hok & Hs & Hb) [Hnd Ha]. cbn in Hs, Hb. pose proof Hok as [Ho Hw Hf Hab Ht Hst Hc]. cbn in *.
  assert (Hfin : working pc <> None -> f = false).
  { intros H. destruct f; [| done]. destruct (Hf eq_refl) as [_ [-> | [-> _]]]; done. }
  assert (Hstop : checkIfShouldStop s = true) by (unfold checkIfShouldStop; by apply bool_decide_eq_true_2).
  unfold work, rank. cbn [sy sy_pc sy_final]. destruct pc; try rewrite Hfin by done.
  - eexists. split; [done |]. cbn. wound.
  - eexists. split; [done |]. cbn. rewrite Hstop. wound.
  - destruct (actualize_returns s) as (pc & s' & E). rewrite E. eexists. split; [done |].
    apply actualize_spec in E as (s1 & Ee & _ & E2 & E3 & _). unfold enter_state in Ee. rewrite E2, Hs in Ee. injection Ee as -> ->. cbn.
    split; [done |]. split; [by eapply bounded_same |]. destruct f; wound.
  - assert (has_work s = true) as -> by (unfold has_work; by rewrite Hs). eexists. split; [done |]. cbn. wound.
  - destruct (common_history_returns nd (m_consumers s) Hnd Hb) as [req ->]. rewrite outcome_bind_ret. eexists. split; [done |]. cbn.
    destruct (bool_decide _); wound.
  - destruct a as [[[| ec | r] p] |]; cbn; (eexists; split; [done |]); unfold caught, query_failed; cbn; rewrite ?back_to_idle_stopped by done; wound.
  - rewrite Hstop. eexists. split; [done |]. cbn. wound.
  - destruct (blocks_updated nd result processedBlockCount lastBlock s) as [pc s'] eqn:E.
    apply blocks_updated_stopped in E as (H1 & H2 & H3); [| done]. eexists. split; [done |]. cbn. rewrite H2. destruct H3 as [-> | ->]; wound.
  - rewrite Hstop. eexists. split; [done |]. cbn. wound.
  - assert (Hne : m_consumers s <> []) by (apply Hc; left; by rewrite (Hw _ eq_refl)).
    unfold getPoolUnionAndIntersection. destruct (m_consumers s) as [| c cs] eqn:Ecs; [done |]. cbn [map]. rewrite outcome_bind_ret.
    eexists. split; [done |]. cbn. rewrite Ecs. wound.
  - destruct a as [[b [| ec | r]] |]; cbn; [by destruct (Ha _ eq_refl) | | |]; [| destruct (pr_isLastKnownBlockActual r), intersection; cbn |];
      (eexists; split; [done |]); unfold query_failed; cbn; rewrite ?back_to_idle_stopped, ?future_stopped by done; wound.
  - destruct a as [[b [| ec | r]] |]; cbn; [by destruct (Ha _ eq_refl) | | |]; [| destruct (pr_isLastKnownBlockActual r); cbn |];
      (eexists; split; [done |]); unfold query_failed; cbn; rewrite ?back_to_idle_stopped, ?future_stopped by done; wound.
  - rewrite Hstop. destruct (m_consumers s !! processed); (eexists; split; [done |]); cbn; wound.
  - eexists. split; [done |]. cbn. destruct f; cbn; wound.
Qed.

Definition is_work (e : Event (C:=C)) : bool := match e with Work _ _ => true | _ => false end.

Lemma other_stopping e w : m_futureState (sy w) = stopped -> winding_down e -> is_work e = false -> occur e w = Ret w.
Proof.
  destruct w as [s pc f]. cbn [sy]. intros Hs Hw He. unfold occur. destruct e; try done; cbn [step]; unfold observed, change; cbn.
  - by rewrite future_stopped.
  - destruct (m_observing s); cbn; [by rewrite future_stopped | done].
  - destruct (m_observing s); cbn; [by rewrite future_stopped | done].
  - destruct (m_observing s); cbn; [by rewrite future_stopped | done].
  - unfold addUnconfirmedTransactionTask, checkIfShouldStop. by rewrite (bool_decide_eq_true_2 (m_futureState s = stopped)), orb_true_r.
  - unfold removeUnconfirmedTransactionTask, checkIfShouldStop. by rewrite (bool_decide_eq_true_2 (m_futureState s = stopped)), orb_true_r.
Qed.

(** The steps of the worker for which the node had answered. *)
Definition turns (es : list (Event (C:=C))) : nat := length (List.filter (fun e => match e with Work _ (Some _) => true | _ => false end) es).

Lemma run_stopping es w :
  stopping w -> Forall winding_down es ->
  exists w', run es w = Ret w' /\ stopping w' /\ (rank w' <= rank w - turns es)%nat /\ promises (sy w') = promises (sy w).
Proof.
  revert w. induction es as [| e es IH]; intros w Hs Hes.
  - exists w. cbn. split; [done |]. split; [done |]. split; [lia | done].
  - apply List.Forall_cons_iff in Hes as [He Hes]. cbn [run]. destruct (is_work e) eqn:Ew.
    + destruct e as [nd a | | | | | | | | |]; try done.
      destruct (work_stopping nd a w Hs He) as (w1 & E & Hf & Hb & Hr & Hd). unfold occur, step. rewrite E, outcome_bind_ret.
      destruct (IH w1) as (w' & E' & Hs' & Hr' & Hp'); [| done |].
      { split; [| done]. destruct Hs as [Hok _]. by eapply work_ok. }
      exists w'. split; [done |]. split; [done |]. split; [| by rewrite Hp', (work_promises _ _ _ _ E)].
      unfold turns in *. destruct a; cbn [List.filter length]; [specialize (Hd ltac:(done)); lia | lia].
    + rewrite other_stopping, outcome_bind_ret; [| by apply Hs | done | done].
      destruct (IH w Hs Hes) as (w' & ? & ? & Hr & ?). exists w'. split; [done |]. split; [done |]. split; [| done].
      unfold turns in *. destruct e; try done.
Qed.
End Returns.

(** * Requests *)

(** The steps that end a round with an error. *)
Definition fails (a : option NodeAnswer) w : bool :=
  match sy_pc w, a with
  | QueryBlocks _, Some x => match na_blocks x with Replies _ => false | _ => true end
  | QueryPool _ _, Some x | QueryPoolAgain _ _, Some x => match na_pool x with QueryFails _ => true | _ => false end
  | Updated errorOccurred _ _, _ | Updated thrown _ _, _ => true
  | _, _ => false
  end.

Lemma requested_future s : m_futureState s = blockchainSync -> m_futureState (setFutureState blockchainSync s).2 = blockchainSync.
Proof. intros H. unfold setFutureState, setFutureStateIf. by destruct (_ <? _). Qed.

Lemma requested_back_to_idle s : m_futureState s = blockchainSync -> back_to_idle s = (true, with_states (m_currentState s) idle s).
Proof. intros H. unfold back_to_idle, checkIfShouldStop, setFutureStateIf. by rewrite bool_decide_false by (by rewrite H). Qed.

Ltac asked := split; [done |]; split; [done |]; first [done | by auto].

Lemma request_step nd a w w' :
  m_futureState (sy w) = blockchainSync -> work nd a w = Ret w' ->
  m_futureState (sy w') = (if fails a w then idle else match sy_pc w with Actualize => poolSync | _ => blockchainSync end)
  /\ (sy_pc w = Actualize -> sy_pc w' = StartBlocks) /\ (fails a w = true -> sy_pc w' = Returned \/ sy_pc w' = Interrupted).
Proof.
  destruct w as [s pc f]. unfold work, fails. cbn [sy sy_pc sy_final]. intros Hs E. destruct pc; try (by injection E as <-).
  - apply outcome_bind_inv in E as ([pc s'] & E & E'). injection E' as <-. apply actualize_spec in E as (s1 & Ee & _ & E2 & _).
    unfold enter_state in Ee. rewrite E2, Hs in Ee. by injection Ee as -> ->.
  - apply outcome_bind_inv in E as (req & _ & E). by injection E as <-.
  - destruct a as [[[| ec | r] p] |]; cbn in E; injection E as <-; cbn; unfold caught, query_failed; rewrite ?requested_back_to_idle by done; asked.
  - destruct (checkIfShouldStop s); [by injection E as <- |]. apply outcome_bind_inv in E as ([[r g] cs] & _ & E). by injection E as <-.
  - unfold blocks_updated, caught in E. destruct result; rewrite ?requested_back_to_idle in E by done.
    + injection E as <-. split; [| done]. destruct (_ =? _), lastBlock; cbn; by rewrite ?requested_future.
    + injection E as <-. split; [| done]. destruct lastBlock; cbn; by rewrite ?requested_future.
    + injection E as <-. destruct lastBlock; asked.
    + injection E as <-. asked.
  - injection E as <-. split; [by destruct (checkIfShouldStop s) | done].
  - apply outcome_bind_inv in E as ([u i] & _ & E). by injection E as <-.
  - destruct a as [[b [| ec | r]] |]; cbn in E; try done; [| destruct (pr_isLastKnownBlockActual r), intersection |]; injection E as <-; cbn;
      unfold query_failed; rewrite ?requested_back_to_idle, ?requested_future by done; asked.
  - destruct a as [[b [| ec | r]] |]; cbn in E; try done; [| destruct (pr_isLastKnownBlockActual r) |]; injection E as <-; cbn;
      unfold query_failed; rewrite ?requested_back_to_idle, ?requested_future by done; asked.
  - destruct (m_consumers s !! processed) as [c |]; [| by injection E as <-]. destruct (checkIfShouldStop s); [by injection E as <- |].
    apply outcome_bind_inv in E as ([r [g x]] & _ & E). destruct r as [ec |]; [| done]. destruct (ec =? 0); by injection E as <-.
Qed.

(** A worker that was told to be idle and has no tasks ends up waiting, with nothing to wake it. *)
Lemma idle_waits w nd1 a1 nd2 a2 nd3 a3 nd4 a4 :
  m_futureState (sy w) = idle -> unanswered (sy w) = [] -> sy_final w = false -> (sy_pc w = Returned \/ sy_pc w = Interrupted) ->
  exists w', run [Work nd1 a1; Work nd2 a2; Work nd3 a3; Work nd4 a4] w = Ret w' /\ sy_pc w' = Waiting /\ has_work (sy w') = false.
Proof.
  destruct w as [[cs g gen l cur fut add rem ob an no] pc f]. unfold unanswered. cbn. intros -> Hq -> Hpc.
  apply app_eq_nil in Hq as [Hq1 Hq2]. apply map_eq_nil in Hq1 as ->, Hq2 as ->. destruct Hpc as [-> | ->]; destruct cur; by eexists.
Qed.

(** * The theorems *)

(** C23: whatever happens, the synchroniser observes the node exactly while it is not stopped; its current state says what the worker does; a worker
    that has ended leaves it stopped; and every promise that was given is either still queued or was set, once. *)
Theorem synchronizer_invariant g genesis h es w :
  run es (newSystem g genesis h) = Ret w -> system_ok w /\ promises (sy w) ≡ₚ accepted es (newSystem g genesis h).
Proof.
  intros E. split; [eapply run_ok, E; apply new_ok |]. by rewrite (run_promises _ _ _ E).
Qed.

(** C11: once the synchroniser is told to stop, the worker ends: in any interleaving with the node, its notifications and other callers,
    eight more steps of the worker for which the node has answered are enough.  The synchroniser is then stopped, does not observe the node,
    and has answered every task, in the order in which they were queued. *)
Theorem stop_ends g genesis h before es w :
  consumers_return -> run before (newSystem g genesis h) = Ret w -> bounded (m_consumers (sy w)) -> Forall winding_down es ->
  exists w', run (Stop :: es) w = Ret w' /\
  ((8 <= turns es)%nat ->
   sy_pc w' = Absent /\ m_currentState (sy w') = stopped /\ m_observing (sy w') = false
   /\ map an_promise (m_answers (sy w')) = promises (sy w)).
Proof.
  intros Hret E Hb Hes. assert (Hok : system_ok w) by (eapply run_ok, E; apply new_ok).
  cbn [run]. set (w1 := mkSystem (setFutureState stopped (sy w)).2 (sy_pc w) (sy_final w)).
  assert (E1 : occur Stop w = Ret w1) by done. rewrite E1, outcome_bind_ret.
  destruct (run_stopping Hret es w1) as (w' & E' & (Hok' & Hf' & _) & Hr & Hp); [| done |].
  - split; [apply set_future_ok; auto |]. cbn. unfold setFutureState, setFutureStateIf.
    split; [| by destruct (_ <? _)]. destruct (m_futureState (sy w)) eqn:Ef; cbn; done.
  - exists w'. split; [done |]. intros Ht. assert (H8 : (rank w1 <= 8)%nat) by (unfold rank; destruct (sy_pc w1), (sy_final w1); lia).
    assert (Hpc : sy_pc w' = Absent) by (unfold rank in Hr at 1; destruct (sy_pc w'), (sy_final w'); done || lia).
    destruct Hok' as [Ho _ _ Ha Hq _ _]. destruct (Ha Hpc) as (Hc & _ & _). split; [done |]. split; [done |]. split.
    + destruct (m_observing (sy w')); [| done]. by destruct (proj1 Ho eq_refl).
    + unfold promises in Hp. rewrite (Hq Hc), app_nil_r in Hp. rewrite Hp. exact (set_future_promises stopped (sy w)).
Qed.

(** C39: a request for blocks that comes in while the worker is busy is kept until the worker takes it up, unless the round ends with an error of the node
    or of a consumer: then it is forgotten, and without tasks the worker falls asleep although the node has announced a block. *)
Theorem errors_forget_requests g genesis h es nd a w w' :
  run es (newSystem g genesis h) = Ret w -> m_futureState (sy w) = blockchainSync -> work nd a w = Ret w' ->
  m_futureState (sy w') = (if fails a w then idle else match sy_pc w with Actualize => poolSync | _ => blockchainSync end)
  /\ (sy_pc w = Actualize -> sy_pc w' = StartBlocks)
  /\ (fails a w = true -> unanswered (sy w) = [] -> forall nd1 a1 nd2 a2 nd3 a3 nd4 a4,
        exists w'', run [Work nd1 a1; Work nd2 a2; Work nd3 a3; Work nd4 a4] w' = Ret w'' /\ sy_pc w'' = Waiting /\ has_work (sy w'') = false).
Proof.
  intros Er Hs E. assert (Hok : system_ok w) by (eapply run_ok, Er; apply new_ok).
  destruct (request_step _ _ _ _ Hs E) as (H1 & H2 & H3). split; [done |]. split; [done |].
  intros Hf Hq nd1 a1 nd2 a2 nd3 a3 nd4 a4. rewrite Hf in H1.
  assert (Hw : exists st, working (sy_pc w) = Some st) by (unfold fails in Hf; destruct (sy_pc w); cbn; eauto; done).
  destruct Hw as [st Hw]. destruct (work_post _ _ _ _ _ Hw E) as (Hfin & (_ & _ & Hq' & _) & _).
  apply idle_waits; [done | congruence | | by apply H3].
  rewrite Hfin. destruct (sy_final w) eqn:Ef; [| done]. destruct (ok_final _ Hok Ef) as [? _]. congruence.
Qed.
End Safety.

(** * Runs *)

Lemma mirror_returns : consumers_return (G := Z) (C := Mirror).
Proof.
  split.
  - intros tx [g x]. cbn. destruct (bool_decide _); by eexists.
  - intros hh [g x]. by eexists.
Qed.

(** While the worker waits for blocks a transaction comes in and a block is announced. *)
Definition demo_busy : list (Event (C:=Mirror)) := demo_started ++ [AddTransaction 7 (demo_tx [8]); LocalBlockchainUpdated].

Lemma demo_busy_runs : exists w, run demo_busy (newSystem 0 [0] [7]) = Ret w
  /\ bounded (m_consumers (sy w)) /\ promises (sy w) = [7] /\ m_futureState (sy w) = blockchainSync
  /\ exists req, sy_pc w = QueryBlocks req.
Proof.
  assert (Ht : outcome_test (fun w => forallb (fun c => Z.of_nat (length (m_blockchain (co_state c))) <=? 2 ^ 30) (m_consumers (sy w))
      && bool_decide (promises (sy w) = [7]) && bool_decide (m_futureState (sy w) = blockchainSync) && (match sy_pc w with QueryBlocks _ => true | _ => false end))
    (run demo_busy (newSystem 0 [0] [7])) = true) by (vm_compute; reflexivity).
  apply outcome_test_true in Ht as (w & E & Hw). exists w. split; [exact E |]. apply andb_true_iff in Hw as [Hw Hpc].
  apply andb_true_iff in Hw as [Hw Hf]. apply andb_true_iff in Hw as [Hb Hp].
  split; [| split; [by apply bool_decide_eq_true_1 in Hp | split; [by apply bool_decide_eq_true_1 in Hf | destruct (sy_pc w); try discriminate; eauto]]].
  apply Forall_forall. intros c Hc. rewrite forallb_forall in Hb. apply Z.leb_le, Hb. by apply list_elem_of_In.
Qed.

Lemma synchronizer_invariant_witness :
  exists w, run demo_busy (newSystem 0 [0] [7]) = Ret w /\ system_ok w /\ promises (sy w) = [7].
Proof.
  destruct demo_busy_runs as (w & E & _ & Hp & _). exists w. split; [exact E |]. split; [| exact Hp].
  exact (proj1 (synchronizer_invariant 0 [0] [7] demo_busy w E)).
Defined.

Lemma stop_ends_witness :
  exists w w', run demo_busy (newSystem 0 [0] [7]) = Ret w /\ run (Stop :: replicate 8 (Work demo_view demo_fails)) w = Ret w'
    /\ sy_pc w' = Absent /\ m_observing (sy w') = false /\ map an_promise (m_answers (sy w')) = [7].
Proof.
  destruct demo_busy_runs as (w & E & Hb & Hp & _).
  destruct (stop_ends 0 [0] [7] demo_busy (replicate 8 (Work demo_view demo_fails)) w mirror_returns E Hb) as (w' & E' & H).
  - apply Forall_replicate. split; [cbn; lia |]. by intros x [= <-].
  - exists w, w'. split; [exact E |]. split; [exact E' |]. destruct H as (H1 & _ & H2 & H3); [cbn; lia |]. by rewrite Hp in H3.
Defined.

Lemma errors_forget_requests_witness :
  exists w w' w'', run demo_busy (newSystem 0 [0] [7]) = Ret w /\ work demo_view demo_fails w = Ret w' /\ m_futureState (sy w') = idle
    /\ run [Work demo_view None; Work demo_view None; Work demo_view None; Work demo_view None] w' = Ret w'' /\ m_futureState (sy w'') = idle.
Proof.
  destruct demo_busy_runs as (w & E & _ & _ & Hf & req & Hpc).
  assert (Ew : exists w', work demo_view demo_fails w = Ret w') by (unfold work; rewrite Hpc; by eexists).
  destruct Ew as [w' Ew]. pose proof (errors_forget_requests 0 [0] [7] demo_busy demo_view demo_fails w w' E Hf Ew) as (H1 & _ & _).
  unfold fails in H1. rewrite Hpc in H1. cbn in H1.
  assert (Ht : outcome_test (fun v => bool_decide (m_futureState (sy v) = idle))
    (w ← run demo_busy (newSystem 0 [0] [7]); w ← work demo_view demo_fails w;
     run [Work demo_view None; Work demo_view None; Work demo_view None; Work demo_view None] w) = true) by (vm_compute; reflexivity).
  rewrite E, outcome_bind_ret, Ew, outcome_bind_ret in Ht. apply outcome_test_true in Ht as (w'' & E'' & H'').
  exists w, w', w''. split; [exact E |]. split; [exact Ew |]. split; [exact H1 |]. split; [exact E'' |]. by apply bool_decide_eq_true_1 in H''.
Defined.
