(* ===== verification/SynchronizerRound.v ===== *)
(** Rounds of the synchroniser with many consumers.  The consumers may refuse blocks at any time, so that some of them lag behind or are still on a
    branch that others have left; what the synchroniser relies on is that any stretch of them has a common beginning. *)

From S2P Require Import Prelude BankingIndex Sync SyncLiveness Synchronizer SynchronizerDemo.
From S2P Require TransfersConsumer.

Abbreviation chain c := (m_blockchain (co_state c)).

Section Rounds.
Context {G C : Type} {IC : IBlockchainConsumer G C}.
Implicit Types (c : Consumer C) (cs : list (Consumer C)).

(** * Consumers that agree *)

(** The chain of one of them is the beginning of the chains of all. *)
Definition common (w : list Hash) cs : Prop := (exists c, c ∈ cs /\ chain c = w) /\ forall c, c ∈ cs -> w `prefix_of` chain c.

Definition agreeing cs : Prop := forall i k, take k (drop i cs) <> [] -> exists w, common w (take k (drop i cs)).

Lemma shortest_loop_min st start cs :
  Z.of_nat (length (m_blockchain st)) < 2 ^ 32 -> Forall (fun c => Z.of_nat (length (chain c)) < 2 ^ 32) cs ->
  let st' := (shortest_loop st start cs).1 in
  (st' = st \/ exists c, c ∈ cs /\ co_state c = st')
  /\ (length (m_blockchain st') <= length (m_blockchain st))%nat /\ (forall c, c ∈ cs -> (length (m_blockchain st') <= length (chain c))%nat).
Proof.
  revert st start. induction cs as [| c cs IH]; intros st start Hst Hb; cbn [shortest_loop].
  - split; [by left |]. split; [done |]. intros c Hc. by apply elem_of_nil in Hc.
  - apply List.Forall_cons_iff in Hb as [Hc Hb]. assert (Hh : (getHeight (co_state c) <? getHeight st) = (Z.of_nat (length (chain c)) <? Z.of_nat (length (m_blockchain st))))
      by (unfold getHeight; by rewrite !u32_small by lia).
    rewrite Hh. clear Hh.
    match goal with |- context [shortest_loop _ ?start' cs] => set (next := start') end.
    destruct (Z.ltb_spec (Z.of_nat (length (chain c))) (Z.of_nat (length (m_blockchain st)))) as [Hlt | Hge].
    + destruct (IH (co_state c) next Hc Hb) as (H1 & H2 & H3). split; [right |].
      { destruct H1 as [E | (d & Hd & E)]; [exists c; split; [by left | exact (eq_sym E)] | exists d; split; [by right | exact E]]. }
      split; [lia |]. intros d [-> | Hd]%elem_of_cons; [done | auto].
    + destruct (IH st next Hst Hb) as (H1 & H2 & H3). split.
      { destruct H1 as [E | (d & Hd & E)]; [by left | right]. exists d. split; [by right | done]. }
      split; [done |]. intros d [-> | Hd]%elem_of_cons; [lia | auto].
Qed.

(** The request is made from the common beginning. *)
Lemma common_history nd w c cs :
  common w (c :: cs) -> Forall (fun c => Z.of_nat (length (chain c)) < 2 ^ 32) (c :: cs) ->
  exists start, getCommonHistory nd (c :: cs) = (knownBlocks ← getShortHistory (mkSync w) (getLastLocalBlockHeight nd); Ret (mkBlocksRequest start knownBlocks)).
Proof.
  intros [(d & Hd & Hdw) Hp] Hb. apply List.Forall_cons_iff in Hb as [Hc Hb]. cbn [getCommonHistory].
  destruct (shortest_loop_min (co_state c) (getSyncStart (co_consumer c)) cs Hc Hb) as (H1 & H2 & H3).
  destruct (shortest_loop (co_state c) (getSyncStart (co_consumer c)) cs) as [st start]. cbn [fst] in *. exists start.
  assert (st = mkSync w) as ->; [| done].
  assert (Hpre : w `prefix_of` m_blockchain st).
  { destruct H1 as [-> | (e & He & <-)]; apply Hp; [by left | by right]. }
  assert (Hle : (length (m_blockchain st) <= length w)%nat).
  { rewrite <- Hdw. apply elem_of_cons in Hd as [-> | Hd]; auto. }
  destruct st as [l]. cbn in *. f_equal. destruct Hpre as [k ->]. rewrite length_app in Hle. destruct k; [by rewrite app_nil_r | cbn in Hle; lia].
Qed.

(** * One consumer *)

Record detachable : Prop := {
  detach_returns height (p : G * C) : exists p', onBlockchainDetach height p = Ret (Some tt, p');
  blocks_return blocks startHeight (p : G * C) : blocks <> [] -> exists r, onNewBlocks blocks startHeight p = Ret r
}.

(** A consumer that has taken the answer [n] up to [m], and one that has failed at [j]. *)
Definition taken (n : list Hash) (m : nat) c c' : Prop :=
  chain c' = take m n /\ take m (chain c) <> take m n
  \/ chain c' = chain c /\ (m <= length (chain c))%nat /\ take m (chain c) = take m n.
Definition fell_back (n : list Hash) (m : nat) c c' : Prop :=
  exists j, (0 < j < m)%nat /\ (j <= length (chain c))%nat /\ chain c' = take j n /\ take j (chain c) = take j n.

Section Answer.
Context (Hret : detachable) (n : list Hash) (off : nat) (ids : list Hash) (blocks : list CompleteBlock).
Context (Hids : ids = take (length ids) (drop off n)) (Hm : (off + length ids <= length n)%nat) (Hn : Z.of_nat (length n) < 2 ^ 32)
  (Hblocks : map TransfersConsumer.cb_blockHash blocks = ids).
Abbreviation interval := (mkInterval (Z.of_nat off) ids).
Abbreviation m := (off + length ids)%nat.

(** The chain of a consumer agrees with the node's below the answer and at its beginning. *)
Definition joined c : Prop :=
  (off < length (chain c))%nat /\ take off (chain c) = take off n /\ chain c !! 0%nat = n !! 0%nat /\ Z.of_nat (length (chain c)) < 2 ^ 32.

Lemma blocks_from j : (j < length ids)%nat -> drop j blocks <> [].
Proof. intros Hj E%(f_equal length). rewrite length_drop in E. rewrite <- Hblocks, length_map in Hj. cbn in E. lia. Qed.

Lemma start_offset j : (off <= j <= m)%nat -> u32 (Z.of_nat j - Z.of_nat off) = Z.of_nat (j - off).
Proof. intros Hj. rewrite u32_small by lia. lia. Qed.

(** The consumer is given the blocks from [j] on, where its chain ends. *)
Lemma new_blocks_spec address (g : G) (x : C) j :
  (off <= j < m)%nat ->
  exists res g' x' st,
    (let startOffset := u32 (Z.of_nat j - Z.of_nat off) in
     '(r, (g, x)) ← onNewBlocks (drop (Z.to_nat startOffset) blocks) (Z.of_nat j) (g, x);
     match r with
     | None => Ret (thrown, g, mkConsumer address x (mkSync (take j n)))
     | Some false => Ret (errorOccurred, g, mkConsumer address x (mkSync (take j n)))
     | Some true =>
         st ← addBlocks (mkSync (take j n)) (drop (Z.to_nat startOffset) ids) (Z.of_nat j);
         Ret (addedNewBlocks, g, mkConsumer address x st)
     end) = Ret (res, g', mkConsumer address x' st)
    /\ (res = addedNewBlocks /\ m_blockchain st = take m n \/ (res = errorOccurred \/ res = thrown) /\ st = mkSync (take j n)).
Proof.
  intros Hj. cbv zeta. pose proof (add_interval n n off ids j Hids ltac:(lia) ltac:(lia) eq_refl ltac:(lia)) as Ha.
  rewrite start_offset in * by lia. rewrite Nat2Z.id in *.
  destruct (blocks_return Hret (drop (j - off) blocks) (Z.of_nat j) (g, x)) as [[[[] |] [g1 x1]] ->]; [by apply blocks_from; lia | | |]; rewrite outcome_bind_ret.
  - rewrite Ha, outcome_bind_ret. do 4 eexists. split; [done |]. by left.
  - do 4 eexists. split; [done |]. right. auto.
  - do 4 eexists. split; [done |]. right. auto.
Qed.

Lemma update_one_spec g c :
  joined c ->
  exists r g' c', update_one interval blocks g c = Ret (r, g', c')
    /\ ((r = nothingChanged /\ chain c' = chain c \/ r = addedNewBlocks) /\ taken n m c c' \/ (r = errorOccurred \/ r = thrown) /\ fell_back n m c c').
Proof.
  destruct c as [address x [w]]. intros (Hoff & Ht & H0 & Hw). cbn in *. unfold update_one. cbn [co_state co_consumer co_address].
  destruct (checkInterval_cases n w off ids Hids ltac:(lia) Ht Hm Hn Hw) as [(-> & Hle & Hag) | [(-> & Hlt & Hag) | (j & -> & Hj & Hjw & Hne & Hag)]];
    rewrite !outcome_bind_ret; cbn [detachRequired detachHeight hasNewBlocks newBlockHeight startHeight interval_blocks]; rewrite ?outcome_bind_ret.
  - do 3 eexists. split; [done |]. left. split; [by left |]. by right.
  - assert (Ew : mkSync w = mkSync (take (length w) n)) by (f_equal; exact Hag).
    destruct (new_blocks_spec address g x (length w) ltac:(lia)) as (r & g' & x' & st & E & H). rewrite <- Ew in E, H.
    do 3 eexists. split; [exact E |]. destruct H as [[-> Hst] | [Hr ->]].
    + left. split; [by right |]. left. split; [done |]. intros E'%(f_equal length). rewrite !length_take in E'. cbn in E'. lia.
    + right. split; [done |]. exists (length w). cbn. split; [lia |]. split; [done |]. split; [done |]. by rewrite take_ge.
  - destruct (detach_returns Hret (Z.of_nat j) (g, x)) as [[g1 x1] ->]. rewrite outcome_bind_ret. unfold detach. cbn [m_blockchain].
    rewrite assert_true, !outcome_bind_ret, Nat2Z.id, Hag by (apply Z.ltb_lt; lia).
    destruct (new_blocks_spec address g1 x1 j ltac:(lia)) as (r & g' & x' & st & E & H).
    do 3 eexists. split; [exact E |]. destruct H as [[-> Hst] | [Hr ->]].
    + left. split; [by right |]. left. split; [done |]. cbn. intros E'. apply Hne. rewrite <- (lookup_take_lt w m), <- (lookup_take_lt n m) by lia. by rewrite E'.
    + right. split; [done |]. exists j. cbn. split; [| split; [lia | done]]. destruct j; [done | lia].
Qed.

(** All consumers take the answer, or one fails: those before it have taken it, those after it are as they were. *)
Definition all_taken cs cs' : Prop := Forall2 (taken n m) cs cs'.
Definition one_failed cs cs' : Prop :=
  exists pre c post pre' c', cs = pre ++ c :: post /\ cs' = pre' ++ c' :: post /\ Forall2 (taken n m) pre pre' /\ fell_back n m c c'.

Lemma updateConsumers_spec b g cs :
  Forall joined cs ->
  exists r g' cs', updateConsumers interval blocks b cs g = Ret (r, g', cs')
    /\ ((r = nothingChanged /\ b = false /\ Forall2 (fun c c' => chain c' = chain c) cs cs' \/ r = addedNewBlocks) /\ all_taken cs cs'
        \/ (r = errorOccurred \/ r = thrown) /\ one_failed cs cs').
Proof.
  revert b g. induction cs as [| c cs IH]; intros b g Hj; cbn [updateConsumers].
  - do 3 eexists. split; [done |]. left. split; [| constructor]. destruct b; [by right | left; auto].
  - apply List.Forall_cons_iff in Hj as [Hc Hj].
    destruct (update_one_spec g c Hc) as (r & g1 & c' & E & [[Hr Ht] | [Hr Hf]]); rewrite E, outcome_bind_ret.
    + set (b' := b || match r with addedNewBlocks => true | _ => false end).
      destruct (IH b' g1 Hj) as (r2 & g2 & cs2 & E2 & H2). rewrite E2, outcome_bind_ret.
      exists r2, g2, (c' :: cs2). split; [by destruct Hr as [[-> _] | ->] |].
      destruct H2 as [[Hr2 Ht2] | [Hr2 (pre & d & post & pre' & d' & -> & -> & Hpre & Hd)]].
      * left. split; [| by constructor]. destruct Hr2 as [(-> & Hb & Hs) | ->]; [| by right]. left. apply orb_false_iff in Hb as [-> Hb].
        split; [done |]. split; [done |]. constructor; [| done]. by destruct Hr as [[_ ?] | ->].
      * right. split; [done |]. exists (c :: pre), d, post, (c' :: pre'), d'. repeat split; try done. by constructor.
    + exists r, g1, (c' :: cs). split; [by destruct Hr as [-> | ->] |]. right. split; [done |].
      exists [], c, cs, [], c'. by repeat split.
Qed.
End Answer.

(** * The agreement is kept *)

Lemma taken_prefix n m c c' j : taken n m c c' -> (j <= m)%nat -> take j n `prefix_of` chain c'.
Proof.
  intros [[-> _] | (-> & _ & Ht)] Hj; [| transitivity (take m (chain c)); [rewrite Ht | apply prefix_take]];
    rewrite <- (Nat.min_l j m) at 1 by done; rewrite <- take_take; apply prefix_take.
Qed.

Lemma prefix_is_take (e l : list Hash) : e `prefix_of` l -> e = take (length e) l.
Proof. intros [k ->]. by rewrite take_app_length. Qed.

Lemma Forall2_elem_r {A} (P : A -> A -> Prop) (l l' : list A) y : Forall2 P l l' -> y ∈ l' -> exists x, x ∈ l /\ P x y.
Proof.
  intros H Hy. apply list_elem_of_lookup in Hy as [i Hi]. destruct (Forall2_lookup_r _ _ _ _ _ H Hi) as (x & Hx & Hp).
  exists x. split; [by eapply list_elem_of_lookup_2 | done].
Qed.

(** A stretch of consumers of which all have taken the answer. *)
Lemma common_taken n m seg seg' : (exists w, common w seg) -> Forall2 (taken n m) seg seg' -> exists w, common w seg'.
Proof.
  intros [w [(c & Hc & Hcw) Hp]] H. destruct (decide (Exists (fun c' => chain c' = take m n) seg')) as [He | He].
  - apply Exists_exists in He as (d & Hd & E). exists (take m n). split; [by exists d |]. intros d' Hd'.
    destruct (Forall2_elem_r _ _ _ _ H Hd') as (x & _ & Hx). by eapply taken_prefix.
  - assert (Hs : Forall2 (fun c c' => chain c' = chain c) seg seg').
    { apply Forall2_same_length_lookup_2; [by eapply Forall2_length |]. intros i x y Hx Hy.
      destruct (Forall2_lookup_lr _ _ _ _ _ _ H Hx Hy) as [[E _] | [E _]]; [| done].
      destruct He. apply Exists_exists. exists y. split; [by eapply list_elem_of_lookup_2 | done]. }
    exists w. split.
    + apply list_elem_of_lookup in Hc as [i Hi]. destruct (Forall2_lookup_l _ _ _ _ _ Hs Hi) as (c' & Hc' & E).
      exists c'. split; [by eapply list_elem_of_lookup_2 | congruence].
    + intros d Hd. destruct (Forall2_elem_r _ _ _ _ Hs Hd) as (x & Hx & ->). auto.
Qed.

(** A stretch with the consumer that failed. *)
Lemma common_failed n m c c' pre pre' post :
  (exists w, common w (c :: post)) -> Forall2 (taken n m) pre pre' -> fell_back n m c c' -> exists w, common w (pre' ++ c' :: post).
Proof.
  intros [e [(x & Hx & Hxe) Hp]] Hpre (j & Hj & Hjc & Hc' & Ht).
  assert (Hec : e = take (length e) (chain c)) by (apply prefix_is_take, Hp; by left).
  destruct (Nat.le_gt_cases j (length e)) as [Hle | Hgt].
  - assert (Hje : take j e = take j n) by (rewrite Hec, take_take, Nat.min_l by done; done).
    exists (take j n). split; [exists c'; split; [apply elem_of_app; right; by left | done] |].
    intros d [Hd | [-> | Hd]%elem_of_cons]%elem_of_app.
    + destruct (Forall2_elem_r _ _ _ _ Hpre Hd) as (y & _ & Hy). eapply taken_prefix; [done | lia].
    + by rewrite Hc'.
    + rewrite <- Hje. transitivity e; [apply prefix_take | apply Hp; by right].
  - assert (Hen : e = take (length e) n).
    { rewrite Hec at 1. replace (length e) with (Nat.min (length e) j) by lia. by rewrite <- !take_take, Ht. }
    apply elem_of_cons in Hx as [-> | Hx]; [rewrite Hxe in Hjc; lia |].
    exists e. split; [exists x; split; [apply elem_of_app; right; by right | done] |].
    intros d [Hd | [-> | Hd]%elem_of_cons]%elem_of_app.
    + destruct (Forall2_elem_r _ _ _ _ Hpre Hd) as (y & _ & Hy). rewrite Hen. eapply taken_prefix; [done | lia].
    + rewrite Hc', Hen. replace (length e) with (Nat.min (length e) j) by lia. rewrite <- take_take. apply prefix_take.
    + apply Hp. by right.
Qed.

Lemma agreeing_taken n m cs cs' : agreeing cs -> Forall2 (taken n m) cs cs' -> agreeing cs'.
Proof.
  intros Ha H i k Hne. assert (Hs : Forall2 (taken n m) (take k (drop i cs)) (take k (drop i cs'))) by by apply Forall2_take, Forall2_drop.
  eapply common_taken, Hs. apply Ha. intros E. rewrite E in Hs. by apply Forall2_nil_inv_l in Hs.
Qed.

Lemma agreeing_failed n m pre c post pre' c' :
  agreeing (pre ++ c :: post) -> Forall2 (taken n m) pre pre' -> fell_back n m c c' -> agreeing (pre' ++ c' :: post).
Proof.
  intros Ha Hpre Hf i k Hne. pose proof (Forall2_length _ _ _ Hpre) as Hlen. destruct (Nat.lt_ge_cases (length pre') i) as [Hi | Hi].
  - rewrite drop_app_ge in * by lia. specialize (Ha i k). rewrite drop_app_ge, Hlen in Ha by lia.
    destruct (i - length pre')%nat eqn:E; [lia |]. cbn [drop] in *. auto.
  - rewrite drop_app_le in * by lia. destruct (Nat.le_gt_cases k (length (drop i pre'))) as [Hk | Hk].
    + rewrite take_app_le in * by done. apply (agreeing_taken n m pre pre'); [| done | done].
      intros i2 k2 H2. specialize (Ha i2 (Nat.min k2 (length pre - i2))).
      assert (E : take (Nat.min k2 (length pre - i2)) (drop i2 (pre ++ c :: post)) = take k2 (drop i2 pre)).
      { destruct (Nat.le_gt_cases i2 (length pre)).
        - rewrite drop_app_le, take_app_le by (rewrite ?length_drop; lia). rewrite <- take_take, (take_ge (drop i2 pre)) by (rewrite length_drop; lia). done.
        - by rewrite drop_ge in H2 by lia; rewrite take_nil in H2. }
      rewrite E in Ha. auto.
    + rewrite take_app_ge in * by lia. destruct (k - length (drop i pre'))%nat as [| q] eqn:E; [lia |]. cbn [take] in *.
      apply (common_failed n m c c' (drop i pre)); [| by apply Forall2_drop | done].
      specialize (Ha (length pre) (S q)). rewrite drop_app_length in Ha. cbn [take] in Ha. by apply Ha.
Qed.

(** * Rounds *)

(** One round with a node: the request, its answer and the update.  [entry] gives the contents of a block. *)
Definition blocks_round (nd : NodeView) (node : BlockIndex) (maxCount : Z) (entry : Hash -> BlockShortEntry) (cs : list (Consumer C)) (g : G)
    : outcome (UpdateConsumersResult * G * list (Consumer C)) :=
  req ← getCommonHistory nd cs;
  '(ids, _, off) ← findBlockchainSupplementIds node (bq_knownBlocks req) maxCount;
  let response := mkBlocksResponse off (map entry ids) in
  updateConsumers (interval_of response) (map complete_block (br_newBlocks response)) false cs g.

(** The chains that there are: equal hashes stand for equal chains up to them, and all begin with one block. *)
Record universe (valid : list Hash -> Prop) : Prop := {
  un_linked a b : valid a -> valid b -> hash_linked a b;
  un_take a k : valid a -> (0 < k)%nat -> valid (take k a);
  un_genesis a b : valid a -> valid b -> a !! 0%nat = b !! 0%nat;
  un_nonempty a : valid a -> a <> [];
  un_bound a : valid a -> Z.of_nat (length a) <= 2 ^ 30
}.

Record in_agreement (valid : list Hash -> Prop) cs : Prop := {
  ia_some : cs <> [];
  ia_valid : Forall (fun c => valid (chain c)) cs;
  ia_agreeing : agreeing cs
}.

Section Universe.
Context (valid : list Hash -> Prop) (U : universe valid).

Lemma valid_nodup a : valid a -> NoDup a.
Proof. intros Ha. apply NoDup_alt. intros i j x Hi Hj. by destruct (un_linked _ U a a Ha Ha i j x Hi Hj). Qed.

Lemma in_agreement_common cs : in_agreement valid cs -> exists w, common w cs /\ valid w.
Proof.
  intros [Hne Hv Ha]. specialize (Ha 0%nat (length cs)). rewrite drop_0, firstn_all in Ha. destruct (Ha Hne) as [w Hw].
  exists w. split; [done |]. destruct Hw as [(c & Hc & <-) _]. rewrite Forall_forall in Hv. auto.
Qed.

Lemma taken_valid n m c c' : valid n -> valid (chain c) -> (0 < m)%nat -> taken n m c c' -> valid (chain c').
Proof. intros Hn Hc Hm [[-> _] | [-> _]]; [by apply (un_take _ U) | done]. Qed.

Lemma all_taken_agree n m cs cs' : valid n -> (0 < m)%nat -> in_agreement valid cs -> Forall2 (taken n m) cs cs' -> in_agreement valid cs'.
Proof.
  intros Hn Hm [Hne Hv Ha] H. split.
  - intros ->. by apply Forall2_nil_inv_r in H.
  - apply Forall_forall. intros c' Hc'. destruct (Forall2_elem_r _ _ _ _ H Hc') as (c & Hc & Ht). rewrite Forall_forall in Hv.
    by apply (taken_valid n m c c'); auto.
  - by eapply agreeing_taken.
Qed.

Lemma one_failed_agree n m pre c post pre' c' :
  valid n -> in_agreement valid (pre ++ c :: post) -> Forall2 (taken n m) pre pre' -> fell_back n m c c' -> in_agreement valid (pre' ++ c' :: post).
Proof.
  intros Hn [Hne Hv Ha] Hpre Hf. split.
  - by destruct pre'.
  - apply Forall_app in Hv as [Hv1 Hv2]. apply List.Forall_cons_iff in Hv2 as [Hc Hv2]. apply Forall_app. split; [| constructor; [| done]].
    + apply Forall_forall. intros d' Hd'. destruct (Forall2_elem_r _ _ _ _ Hpre Hd') as (d & Hd & Ht). rewrite Forall_forall in Hv1.
      destruct Hf as (j & Hj & _). apply (taken_valid n m d d'); auto. lia.
    + destruct Hf as (j & Hj & _ & -> & _). apply (un_take _ U); [done | lia].
  - by eapply agreeing_failed.
Qed.

Lemma common_joined n w off cs h :
  valid n -> in_agreement valid cs -> common w cs -> n !! off = Some h -> w !! off = Some h -> take off n = take off w ->
  Forall (joined n off) cs.
Proof.
  intros Hn [_ Hv _] [_ Hp] Hno Hwo Ht. apply Forall_forall. intros c Hc. rewrite Forall_forall in Hv. pose proof (Hv c Hc) as Hvc.
  destruct (Hp c Hc) as [k Hk]. pose proof (lookup_lt_Some _ _ _ Hwo). pose proof (un_bound _ U _ Hvc).
  unfold joined. rewrite Hk in *. rewrite length_app in *. split; [lia |]. split; [by rewrite take_app_le by lia |]. split; [by apply (un_genesis _ U) | lia].
Qed.

(** The common beginning is determined by the consumers. *)
Lemma common_unique w w' cs : common w cs -> common w' cs -> w = w'.
Proof.
  intros [(c & Hc & <-) Hp] [(c' & Hc' & <-) Hp']. destruct (Hp c' Hc') as [k E]. destruct (Hp' c Hc) as [k' E']. rewrite E in E'.
  rewrite <- app_assoc in E'. apply (f_equal length) in E' as El. rewrite !length_app in El. destruct k; [by rewrite app_nil_r in E | cbn in El; lia].
Qed.

(** Where the answer starts, and that an undisturbed round takes it to all. *)
Definition answered_from (nd : NodeView) (node : BlockIndex) (w : list Hash) (off : nat) : Prop :=
  (off < length (m_container node))%nat
  /\ forall k, (1 <= k <= length w)%nat -> (k <= length (m_container node))%nat -> Z.of_nat k <= getLastLocalBlockHeight nd + 1 ->
       take k w = take k (m_container node) -> 2 * Z.of_nat k - 1 - Z.min (Z.of_nat (length w)) (getLastLocalBlockHeight nd + 1) <= Z.of_nat off.

Lemma starts_near node w hist (off : nat) L :
  hash_linked (m_container node) w -> Z.of_nat (length w) <= 2 ^ 30 -> 0 <= L < 2 ^ 32 - 1 -> getShortHistory (mkSync w) L = Ret hist ->
  (forall k x, (off < k)%nat -> w !! k = Some x -> x ∈ hist -> x ∉ m_container node) ->
  forall k, (1 <= k <= length w)%nat -> (k <= length (m_container node))%nat -> Z.of_nat k <= L + 1 -> take k w = take k (m_container node) ->
    2 * Z.of_nat k - 1 - Z.min (Z.of_nat (length w)) (L + 1) <= Z.of_nat off.
Proof.
  intros Hlink Hw HL Hh Hnewest k Hk Hkn HkL Ht. set (V := Z.min _ _).
  destruct (short_history_dense (mkSync w) L hist (V - Z.of_nat k + 1) Hw HL) as (j & x & Hj & Hx & Hj1 & Hj2); [unfold V; cbn; lia | done |].
  cbn in Hj, Hj1, Hj2. fold V in Hj1, Hj2. destruct (Nat.le_gt_cases j off) as [Hle | Hgt]; [lia |]. exfalso.
  apply (Hnewest j x Hgt Hj Hx). apply (list_elem_of_lookup_2 _ j). rewrite <- (lookup_take_lt _ k) by lia. rewrite <- Ht. by rewrite lookup_take_lt by lia.
Qed.

Lemma blocks_round_spec nd node maxCount entry cs w g :
  detachable -> (forall h, se_blockHash (entry h) = h) -> in_agreement valid cs -> common w cs -> valid (m_container node) ->
  0 <= getLastLocalBlockHeight nd < 2 ^ 32 - 1 -> 0 < maxCount < 2 ^ 32 ->
  exists r g' cs', blocks_round nd node maxCount entry cs g = Ret (r, g', cs') /\ in_agreement valid cs'
    /\ (r = nothingChanged \/ r = addedNewBlocks ->
        exists off m, answered_from nd node w off /\ Z.of_nat m = Z.min (Z.of_nat off + maxCount) (Z.of_nat (length (m_container node)))
          /\ Forall2 (taken (m_container node) m) cs cs').
Proof.
  intros Hret Hentry Hag Hw Hn Hnd Hmax. set (n := m_container node) in *.
  assert (Hvw : valid w) by (destruct Hw as [(c & Hc & <-) _]; pose proof (ia_valid _ _ Hag) as Hv; rewrite Forall_forall in Hv; auto).
  pose proof (un_bound _ U _ Hn) as Hbn. pose proof (un_bound _ U _ Hvw) as Hbw.
  destruct (getShortHistory_spec (mkSync w) (getLastLocalBlockHeight nd) (un_nonempty _ U _ Hvw) Hbw Hnd) as (hist & js & Hh & Hho).
  destruct (supplement_ids_spec node w hist js maxCount (valid_nodup _ Hn) ltac:(fold n; lia) Hho (un_nonempty _ U _ Hn) (un_genesis _ U _ _ Hn Hvw)
    (un_linked _ U _ _ Hn Hvw) ltac:(lia)) as (off & h & Hno & Hwo & Htake & Hnewest & Hs).
  pose proof (starts_near node w hist off _ (un_linked _ U _ _ Hn Hvw) Hbw Hnd Hh Hnewest) as Hnear.
  fold n in Hno, Htake, Hs, Hnear. set (ids := take (Z.to_nat maxCount) (drop off n)) in *. pose proof (lookup_lt_Some _ _ _ Hno) as Hoff.
  assert (Hlen : length ids = Nat.min (Z.to_nat maxCount) (length n - off)) by (unfold ids; by rewrite length_take, length_drop).
  unfold blocks_round. pose proof (ia_some _ _ Hag) as Hne. destruct cs as [| c0 cs0] eqn:Ecs; [done |]. rewrite <- Ecs in *.
  assert (Hb : Forall (fun c => Z.of_nat (length (chain c)) < 2 ^ 32) cs).
  { eapply Forall_impl; [exact (ia_valid _ _ Hag) |]. intros c Hc. pose proof (un_bound _ U _ Hc). lia. }
  rewrite Ecs in Hw, Hb. destruct (common_history nd w c0 cs0 Hw Hb) as [start Hreq]. rewrite <- Ecs in Hw, Hb, Hreq. rewrite Hreq, Hh.
  cbn [mbind outcome_bind bq_knownBlocks]. rewrite Hs, outcome_bind_ret. cbn [br_newBlocks]. unfold interval_of. cbn [br_startHeight br_newBlocks].
  assert (Hids : map se_blockHash (map entry ids) = ids) by (rewrite map_map, (map_ext _ id) by exact Hentry; apply map_id). rewrite Hids.
  assert (Hblocks : map TransfersConsumer.cb_blockHash (map complete_block (map entry ids)) = ids) by (rewrite map_map; exact Hids).
  destruct (updateConsumers_spec Hret n off ids (map complete_block (map entry ids)) (take_drop_ids n _ off) ltac:(lia) ltac:(lia) Hblocks false g cs
    (common_joined n w off cs h Hn Hag Hw Hno Hwo Htake)) as (r & g' & cs' & E & H).
  exists r, g', cs'. split; [exact E |]. destruct H as [[_ Ht] | [Hr (pre & c & post & pre' & c' & -> & -> & Hpre & Hf)]].
  - split; [apply (all_taken_agree n (off + length ids) cs); [done | lia | done | done] |]. intros _. exists off, (off + length ids)%nat.
    split; [by split |]. split; [lia | done].
  - split; [by apply (one_failed_agree n (off + length ids) pre c) |]. by destruct Hr as [-> | ->]; intros [|].
Qed.

(** ** Progress

    A chain leaves the node's by less than an answer: where it differs from it, it does not go on for [maxCount] blocks. *)
Definition within_reach (n : list Hash) (maxCount : Z) (a : list Hash) : Prop :=
  forall k, (k < length n)%nat -> a !! k <> n !! k -> Z.of_nat (length a) + 2 <= Z.of_nat k + maxCount.

(** All begin with the chain of the node, or their common beginning is one of its chain. *)
Definition caught_up (n : list Hash) cs : Prop := Forall (fun c => n `prefix_of` chain c) cs.
Definition abreast (n : list Hash) (p : nat) cs : Prop := caught_up n cs \/ (1 <= p <= length n)%nat /\ common (take p n) cs.

Lemma abreast_top n p cs : (length n <= p)%nat -> abreast n p cs -> caught_up n cs.
Proof. intros Hp [? | [_ [_ H]]]; [done |]. apply Forall_forall. intros c Hc. rewrite <- (take_ge n p) by done. by apply H. Qed.

(** A chain that does not begin with another leaves it somewhere. *)
Lemma first_difference (a n : list Hash) : n `prefix_of` a \/ exists k, (k < length n)%nat /\ a !! k <> n !! k /\ take k a = take k n.
Proof.
  revert a. induction n as [| x n IH]; intros a; [left; apply prefix_nil |].
  destruct a as [| y a]; [right; exists 0%nat; cbn; split; [lia | done] |].
  destruct (decide (y = x)) as [-> | Hne]; [| right; exists 0%nat; cbn; split; [lia |]; split; [congruence | done]].
  destruct (IH a) as [? | (k & Hk & Hd & Ht)]; [left; by apply prefix_cons |]. right. exists (S k). cbn. split; [lia |]. split; [done |]. by rewrite Ht.
Qed.

Lemma taken_shortest n m w cs cs' :
  (1 <= m <= length n)%nat -> common w cs -> Forall2 (taken n m) cs cs' ->
  take m w = take m n /\ Forall2 (fun c c' => chain c' = chain c) cs cs' \/ take m w <> take m n /\ common (take m n) cs'.
Proof.
  intros Hm Hw Ht. destruct (decide (take m w = take m n)) as [E | E]; [left | right]; (split; [done |]).
  - apply Forall2_same_length_lookup_2; [by eapply Forall2_length |]. intros i c c' Hi Hi'.
    destruct (Forall2_lookup_lr _ _ _ _ _ _ Ht Hi Hi') as [[_ Hne] | [? _]]; [| done]. apply list_elem_of_lookup_2 in Hi as Hc. destruct Hne.
    destruct Hw as [_ Hp]. destruct (Hp c Hc) as [k ->]. rewrite take_app_le; [done |].
    apply (f_equal length) in E. rewrite !length_take in E. lia.
  - split.
    + destruct Hw as [(c & Hc & Hcw) _]. apply list_elem_of_lookup in Hc as [i Hi]. destruct (Forall2_lookup_l _ _ _ _ _ Ht Hi) as (c' & Hc' & H).
      exists c'. split; [by eapply list_elem_of_lookup_2 |]. destruct H as [[? _] | (_ & _ & H)]; [done |]. by rewrite Hcw in H.
    + intros d Hd. destruct (Forall2_elem_r _ _ _ _ Ht Hd) as (x & _ & Hx). by eapply taken_prefix.
Qed.

Lemma caught_up_same n cs cs' : caught_up n cs -> Forall2 (fun c c' => chain c' = chain c) cs cs' -> caught_up n cs'.
Proof. intros H Hs. apply Forall_forall. intros d Hd. destruct (Forall2_elem_r _ _ _ _ Hs Hd) as (x & Hx & ->). unfold caught_up in H. rewrite Forall_forall in H. auto. Qed.

Lemma common_caught_up n w cs : n `prefix_of` w -> common w cs -> caught_up n cs.
Proof. intros Hn [_ Hp]. apply Forall_forall. intros c Hc. transitivity w; [done | auto]. Qed.
End Universe.

(** A node with what it shows of itself, and the contents of its blocks. *)
Record Round := mkRound { rd_view : NodeView; rd_node : BlockIndex; rd_maxCount : Z; rd_entry : Hash -> BlockShortEntry }.

Record honest (valid : list Hash -> Prop) (rd : Round) : Prop := {
  hn_entry h : se_blockHash (rd_entry rd h) = h;
  hn_chain : valid (m_container (rd_node rd));
  hn_height : 0 <= getLastLocalBlockHeight (rd_view rd) < 2 ^ 32 - 1;
  hn_count : 0 < rd_maxCount rd < 2 ^ 32
}.

(** One round after the other, with the results. *)
Fixpoint rounds (rs : list Round) (cs : list (Consumer C)) (g : G) : outcome (list UpdateConsumersResult * G * list (Consumer C)) :=
  match rs with
  | [] => Ret ([], g, cs)
  | rd :: rs =>
      '(r, g, cs) ← blocks_round (rd_view rd) (rd_node rd) (rd_maxCount rd) (rd_entry rd) cs g;
      '(results, g, cs) ← rounds rs cs g;
      Ret (r :: results, g, cs)
  end.

(** No consumer refused a block or threw. *)
Definition undisturbed (results : list UpdateConsumersResult) : Prop := Forall (fun r => r = nothingChanged \/ r = addedNewBlocks) results.

Lemma honest_round valid rd cs g :
  universe valid -> detachable -> in_agreement valid cs -> honest valid rd ->
  exists r g' cs', blocks_round (rd_view rd) (rd_node rd) (rd_maxCount rd) (rd_entry rd) cs g = Ret (r, g', cs') /\ in_agreement valid cs'.
Proof.
  intros U Hret Hag [He Hc Hh Hn]. destruct (in_agreement_common valid cs Hag) as (w & Hw & _).
  destruct (blocks_round_spec valid U _ _ _ _ cs w g Hret He Hag Hw Hc Hh Hn) as (r & g' & cs' & ? & ? & _). by exists r, g', cs'.
Qed.

Lemma rounds_agree valid rs cs g :
  universe valid -> detachable -> in_agreement valid cs -> Forall (honest valid) rs ->
  exists results g' cs', rounds rs cs g = Ret (results, g', cs') /\ in_agreement valid cs' /\ length results = length rs.
Proof.
  intros U Hret. revert cs g. induction rs as [| rd rs IH]; intros cs g Hag Hrs; cbn [rounds]; [by eexists _, _, _ |].
  apply List.Forall_cons_iff in Hrs as [Hrd Hrs]. destruct (honest_round valid rd cs g U Hret Hag Hrd) as (r & g1 & cs1 & -> & Hag1).
  destruct (IH cs1 g1 Hag1 Hrs) as (results & g2 & cs2 & E & Hag2 & Hl). rewrite outcome_bind_ret, E, outcome_bind_ret.
  exists (r :: results), g2, cs2. split; [done |]. split; [done |]. cbn. lia.
Qed.

Lemma rounds_app rs rs' cs g :
  rounds (rs ++ rs') cs g = ('(l, g, cs) ← rounds rs cs g; '(l', g, cs) ← rounds rs' cs g; Ret (l ++ l', g, cs)).
Proof.
  revert cs g. induction rs as [| rd rs IH]; intros cs g; cbn [app rounds].
  - rewrite outcome_bind_ret. by destruct (rounds rs' cs g) as [[[? ?] ?] | | |].
  - destruct (blocks_round _ _ _ _ cs g) as [[[r1 g1] cs1] | | |]; cbn; [| done..]. rewrite IH.
    destruct (rounds rs cs1 g1) as [[[l g2] cs2] | | |]; cbn; [| done..]. by destruct (rounds rs' cs2 g2) as [[[? ?] ?] | | |].
Qed.

Lemma same_in_agreement valid (gen : list Hash) cs : valid gen -> cs <> [] -> Forall (fun c => chain c = gen) cs -> in_agreement valid cs.
Proof.
  intros Hg Hne H. split; [done | |].
  - eapply Forall_impl; [exact H |]. by intros c ->.
  - intros i k Hk. exists gen. destruct (take k (drop i cs)) as [| c seg] eqn:E; [done |].
    assert (Hs : Forall (fun c => chain c = gen) (c :: seg)) by (rewrite <- E; by apply Forall_take, Forall_drop).
    rewrite Forall_forall in Hs. split; [exists c; split; [by left | apply Hs; by left] |]. intros d Hd. by rewrite (Hs d Hd).
Qed.

(** ** Undisturbed rounds with one node *)

Section OneNode.
Context (valid : list Hash -> Prop) (U : universe valid) (Hret : detachable) (rd : Round) (Hrd : honest valid rd).
Abbreviation n := (m_container (rd_node rd)).
Abbreviation maxCount := (rd_maxCount rd).

(** One answer holds the whole chain of the node, or all chains leave it by less than an answer and the node shows its height. *)
Definition reachable : Prop :=
  Z.of_nat (length n) <= maxCount
  \/ 2 <= maxCount /\ (forall a, valid a -> within_reach n maxCount a) /\ Z.of_nat (length n) <= getLastLocalBlockHeight (rd_view rd) + 1.

(** An undisturbed round, from anywhere and from a beginning of the node's chain. *)
Lemma undisturbed_round cs g :
  reachable -> in_agreement valid cs ->
  exists r g' cs', blocks_round (rd_view rd) (rd_node rd) maxCount (rd_entry rd) cs g = Ret (r, g', cs') /\ in_agreement valid cs'
    /\ (r = nothingChanged \/ r = addedNewBlocks ->
        (exists m, Z.min (Z.of_nat (length n)) maxCount <= Z.of_nat m /\ abreast n m cs')
        /\ forall p, abreast n p cs -> exists p', Z.min (Z.of_nat (length n)) (Z.of_nat p + (maxCount - 1)) <= Z.of_nat p' /\ abreast n p' cs').
Proof.
  intros Hreach Hag. destruct Hrd as [He Hc Hh Hn]. destruct (in_agreement_common valid cs Hag) as (w & Hw & Hvw).
  destruct (blocks_round_spec valid U _ _ _ _ cs w g Hret He Hag Hw Hc Hh Hn) as (r & g' & cs' & E & Hag' & H).
  exists r, g', cs'. split; [exact E |]. split; [exact Hag' |]. intros Hr. destruct (H Hr) as (off & m & [Hoff Hnear] & Hm & Ht). clear H Hr E.
  assert (Hm1 : (1 <= m <= length n)%nat) by lia.
  destruct (taken_shortest n m w cs cs' Hm1 Hw Ht) as [[Hsame Hcs] | [Hdiff Hcs]].
  - assert (Hup : n `prefix_of` w).
    { destruct (first_difference w n) as [? | (k & Hk & Hd & Htk)]; [done |]. exfalso.
      assert (Hmk : (m <= k)%nat).
      { destruct (Nat.le_gt_cases m k) as [| Hlt]; [done |]. destruct Hd. rewrite <- (lookup_take_lt w m), <- (lookup_take_lt n m) by done. by rewrite Hsame. }
      assert (Hkw : (k <= length w)%nat) by (apply (f_equal length) in Htk; rewrite !length_take in Htk; lia).
      destruct Hreach as [Hall | (H2 & Hwr & Hview)]; [lia |]. specialize (Hwr w Hvw k Hk Hd). specialize (Hnear k ltac:(lia) ltac:(lia) ltac:(lia) Htk). lia. }
    assert (Hup' : caught_up n cs') by (apply (caught_up_same n cs); [by apply (common_caught_up n w) | done]).
    split; [exists (length n); split; [lia | by left] |]. intros p _. exists (length n). split; [lia | by left].
  - split; [exists m; split; [lia | by right] |]. intros p [Hall | [Hp Hcp]].
    + exfalso. apply Hdiff. destruct Hw as [(c & Hcin & <-) _]. unfold caught_up in Hall. rewrite Forall_forall in Hall. destruct (Hall c Hcin) as [k ->].
      by rewrite take_app_le by lia.
    + exists m. split; [| by right]. assert (Ew : w = take p n) by (by apply (common_unique w (take p n) cs)). rewrite Ew, length_take in Hnear.
      destruct Hreach as [? | (_ & _ & Hview)]; [lia |].
      specialize (Hnear p ltac:(lia) ltac:(lia) ltac:(lia) ltac:(by rewrite take_take, Nat.min_id)). lia.
Qed.

Lemma undisturbed_rounds k cs g :
  reachable -> in_agreement valid cs ->
  exists results g' cs', rounds (replicate k rd) cs g = Ret (results, g', cs') /\ in_agreement valid cs'
    /\ (undisturbed results -> forall p, abreast n p cs ->
        exists p', Z.min (Z.of_nat (length n)) (Z.of_nat p + Z.of_nat k * (maxCount - 1)) <= Z.of_nat p' /\ abreast n p' cs').
Proof.
  intros Hreach. revert cs g. induction k as [| k IH]; intros cs g Hag; cbn [replicate rounds].
  { exists [], g, cs. split; [done |]. split; [done |]. intros _ p Hp. exists p. split; [lia | done]. }
  destruct (undisturbed_round cs g Hreach Hag) as (r & g1 & cs1 & E & Hag1 & Hround). rewrite E, outcome_bind_ret.
  destruct (IH cs1 g1 Hag1) as (results & g2 & cs2 & E2 & Hag2 & Hrest). rewrite E2, outcome_bind_ret.
  exists (r :: results), g2, cs2. split; [done |]. split; [done |]. intros [Hr Hres]%List.Forall_cons_iff p Hp.
  destruct (Hround Hr) as [_ Hp1]. destruct (Hp1 p Hp) as (p1 & Hle1 & Ha1). destruct (Hrest Hres p1 Ha1) as (p2 & Hle2 & Ha2).
  exists p2. split; [| done]. pose proof (hn_count _ _ Hrd). rewrite Nat2Z.inj_succ, Z.mul_succ_l.
  pose proof (Z.mul_nonneg_nonneg (Z.of_nat k) (maxCount - 1)). lia.
Qed.
End OneNode.

End Rounds.

(** * Two branches *)

Definition linked_test (a b : list Hash) : bool :=
  forallb (fun i => forallb (fun j => negb (bool_decide (a !! i = b !! j)) || bool_decide (i = j /\ take i a = take i b)) (seq 0 (length b))) (seq 0 (length a)).

Lemma linked_test_true a b : linked_test a b = true -> hash_linked a b.
Proof.
  unfold linked_test. intros H i j h Hi Hj. rewrite forallb_forall in H. specialize (H i). rewrite forallb_forall in H.
  assert (Hb : negb (bool_decide (a !! i = b !! j)) || bool_decide (i = j /\ take i a = take i b) = true).
  { apply H; apply List.in_seq; [apply lookup_lt_Some in Hi | apply lookup_lt_Some in Hj]; lia. }
  rewrite Hi, Hj, bool_decide_true in Hb by done. by apply bool_decide_eq_true in Hb.
Qed.

Lemma linked_take a b k l : hash_linked a b -> hash_linked (take k a) (take l b).
Proof.
  intros H i j h Hi Hj. pose proof (lookup_lt_Some _ _ _ Hi) as Hki. pose proof (lookup_lt_Some _ _ _ Hj) as Hlj. rewrite length_take in *.
  rewrite lookup_take_lt in Hi, Hj by lia. destruct (H i j h Hi Hj) as [-> E]. split; [done |]. rewrite !take_take, !Nat.min_l by lia. done.
Qed.

(** The beginnings of some branches. *)
Definition branches (bs : list (list Hash)) (a : list Hash) : Prop := exists b k, b ∈ bs /\ (0 < k)%nat /\ a = take k b.

Lemma branches_universe gen bs :
  Forall (fun b => head b = Some gen /\ Z.of_nat (length b) <= 2 ^ 30) bs -> Forall (fun a => Forall (fun b => linked_test a b = true) bs) bs ->
  universe (branches bs).
Proof.
  intros Hb Hl. rewrite Forall_forall in Hb, Hl.
  assert (Hhead : forall b k, b ∈ bs -> (0 < k)%nat -> take k b !! 0%nat = Some gen).
  { intros b k Hin Hk. destruct (Hb b Hin) as [Hh _]. destruct b, k; try done || lia. }
  split.
  - intros a a' (b & k & Hin & Hk & ->) (b' & k' & Hin' & Hk' & ->). apply linked_take, linked_test_true.
    specialize (Hl b Hin). rewrite Forall_forall in Hl. auto.
  - intros a i (b & k & Hin & Hk & ->) Hi. exists b, (Nat.min i k). rewrite take_take. split; [done |]. split; [lia | done].
  - intros a a' (b & k & Hin & Hk & ->) (b' & k' & Hin' & Hk' & ->). by rewrite !Hhead.
  - intros a (b & k & Hin & Hk & ->) E. specialize (Hhead b k Hin Hk). by rewrite E in Hhead.
  - intros a (b & k & Hin & Hk & ->). destruct (Hb b Hin) as [_ Hlen]. rewrite length_take. lia.
Qed.

Definition demo_branches : list (list Hash) := [[[0]; [1]; [2]; [30]; [31]]; [[0]; [1]; [2]; [3]; [4]; [5]; [6]]].

Definition long_branch : list Hash := [[0]; [1]; [2]; [3]; [4]; [5]; [6]].

(** Answers of at most four blocks. *)
Definition demo_round (b : list Hash) : Round := mkRound (mkNodeView 6 6 7 7) (mkBlockIndex b) 4 demo_entry.

Lemma demo_honest b : b ∈ demo_branches -> honest (branches demo_branches) (demo_round b).
Proof.
  intros Hb. split; [done | | done | done]. exists b, (length b). split; [done |]. split; [| by rewrite firstn_all].
  apply elem_of_cons in Hb as [-> | ->%list_elem_of_singleton]; cbn; lia.
Qed.

Definition reach_test (n : list Hash) (maxCount : Z) (a : list Hash) : bool :=
  forallb (fun k => bool_decide (a !! k = n !! k) || (Z.of_nat (length a) + 2 <=? Z.of_nat k + maxCount)) (seq 0 (length n)).

Lemma reach_test_true n maxCount a : reach_test n maxCount a = true -> within_reach n maxCount a.
Proof.
  intros H k Hk Hd. unfold reach_test in H. rewrite forallb_forall in H. assert (Hin : In k (seq 0 (length n))) by (apply in_seq; lia). specialize (H k Hin).
  rewrite bool_decide_false in H by done. by apply Z.leb_le in H.
Qed.

(** Every beginning of a branch is one of finitely many. *)
Lemma branches_reach n maxCount bs :
  forallb (fun b => forallb (fun k => reach_test n maxCount (take k b)) (seq 0 (S (length b)))) bs = true ->
  forall a, branches bs a -> within_reach n maxCount a.
Proof.
  intros H a (b & k & Hb & _ & ->). apply reach_test_true. rewrite forallb_forall in H. apply list_elem_of_In in Hb. specialize (H b Hb).
  rewrite forallb_forall in H. assert (Hin : In (Nat.min k (length b)) (seq 0 (S (length b)))) by (apply in_seq; lia). specialize (H _ Hin). cbn beta in H.
  by rewrite <- take_take, (take_ge b (length b)) in H by done.
Qed.

Lemma mirror_detachable : detachable (G := Z) (C := Mirror).
Proof.
  split.
  - intros height [g x]. by eexists.
  - intros blocks startHeight [g x] _. cbn. destruct (existsb _ _); by eexists.
Qed.

Definition demo_consumers : list (Consumer Mirror) :=
  [mkConsumer 1 (mirror [9] [9]) (mkSync [[0]]); mkConsumer 2 (mirror [30] [9]) (mkSync [[0]])].

