(* ===== verification/SynchronizerConsumers.v ===== *)
(** The synchroniser and its consumers: a refused transaction is taken back from the consumers that had accepted it, and a consumer has been told
    exactly the chain that the synchroniser keeps for it. *)

From S2P Require Import Prelude BankingIndex Sync Synchronizer SynchronizerDemo SynchronizerSafety.
From S2P Require Transfers TransfersConsumer.

Section Consumers.
Context {G C : Type} {IC : IBlockchainConsumer G C}.
Implicit Types (s : BlockchainSynchronizer G C) (w : System G C) (c : Consumer C) (cs : list (Consumer C)).

(** * Unconfirmed transactions *)

Definition with_consumer (x : C) c : Consumer C := mkConsumer (co_address c) x (co_state c).

(** [c'] is [c] after its call for the transaction answered [r]. *)
Definition answered (tx : TransactionReader) (r : option error_code) c c' : Prop :=
  exists g g' x, addUnconfirmedTransaction tx (g, co_consumer c) = Ret (r, (g', x)) /\ c' = with_consumer x c.

(** Removing a transaction that a consumer has just accepted leaves it as it was. *)
Definition undoes (tx : TransactionReader) c : Prop :=
  forall c', answered tx (Some 0) c c' -> forall g, exists g', removeUnconfirmedTransaction (Transfers.r_transactionHash tx) (g, co_consumer c') = Ret (Some tt, (g', co_consumer c)).

Lemma add_loop_spec tx cs g r n g' cs' :
  add_loop tx cs g = Ret (r, n, g', cs') ->
  (r = Some 0 /\ Forall2 (answered tx (Some 0)) cs cs')
  \/ exists pre c post pre' c', cs = pre ++ c :: post /\ cs' = pre' ++ c' :: post /\ Forall2 (answered tx (Some 0)) pre pre'
       /\ answered tx r c c' /\ r <> Some 0 /\ n = length pre.
Proof.
  revert g r n g' cs'. induction cs as [| c cs IH]; intros g r n g' cs' E; cbn [add_loop] in E; [injection E as <- <- <- <-; by left |].
  apply outcome_bind_inv in E as ([r1 [g1 x]] & E1 & E). destruct (bool_decide_reflect (r1 = Some 0)) as [-> | Hr].
  - apply outcome_bind_inv in E as ([[[r2 n2] g2] cs2] & E2 & E). injection E as <- <- <- <-.
    assert (Ha : answered tx (Some 0) c (mkConsumer (co_address c) x (co_state c))) by (by exists g, g1, x).
    destruct (IH _ _ _ _ _ E2) as [[-> H] | (pre & d & post & pre' & d' & -> & -> & H & Hd & Hr & ->)].
    + left. split; [done |]. by constructor.
    + right. exists (c :: pre), d, post, (mkConsumer (co_address c) x (co_state c) :: pre'), d'. repeat split; try done. by constructor.
  - injection E as <- <- <- <-. right. exists [], c, cs, [], (mkConsumer (co_address c) x (co_state c)). repeat split; try done. by exists g, g1, x.
Qed.

Lemma remove_loop_undoes tx pre pre' post g :
  Forall (undoes tx) pre -> Forall2 (answered tx (Some 0)) pre pre' ->
  exists g', remove_loop (Transfers.r_transactionHash tx) (length pre) (pre' ++ post) g = Ret (Some tt, g', pre ++ post).
Proof.
  intros Hu H. revert g. induction H as [| c c' pre pre' Hc H IH]; intros g; cbn [length app remove_loop]; [eauto |].
  apply List.Forall_cons_iff in Hu as [Huc Hu]. destruct (Huc c' Hc g) as [g1 ->]. rewrite outcome_bind_ret.
  rewrite bool_decide_true by done. destruct (IH Hu g1) as [g2 ->]. rewrite outcome_bind_ret. exists g2. do 3 f_equal.
  destruct Hc as (g3 & g4 & x & _ & ->). by destruct c.
Qed.

(** C32: a transaction is added to all consumers, or, when one refuses it, to none: those that had accepted it are as before, and only the one that refused it
    may have changed by its own refusal.  After an exception, however, the consumers before keep it. *)
Theorem refused_transaction_is_rolled_back tx s :
  consumers_return (G := G) (C := C) -> Forall (undoes tx) (m_consumers s) ->
  exists r s', doAddUnconfirmedTransaction tx s = Ret (r, s')
  /\ (r = Some 0 /\ Forall2 (answered tx (Some 0)) (m_consumers s) (m_consumers s')
      \/ exists pre c post pre' c', m_consumers s = pre ++ c :: post /\ m_consumers s' = pre' ++ c' :: post
           /\ answered tx r c c' /\ r <> Some 0 /\ (if r is Some _ then pre' = pre else Forall2 (answered tx (Some 0)) pre pre')).
Proof.
  intros Hret Hu. unfold doAddUnconfirmedTransaction.
  destruct (add_loop_returns Hret tx (m_consumers s) (shared s)) as [[[[r n] g] cs] E]. rewrite E, outcome_bind_ret.
  apply add_loop_spec in E as [[-> H] | (pre & c & post & pre' & c' & Hcs & -> & H & Hc & Hr & ->)].
  - do 2 eexists. split; [done |]. by left.
  - destruct r as [ec |].
    + destruct (Z.eqb_spec ec 0) as [-> | Hec]; [done |]. rewrite Hcs in Hu. apply Forall_app in Hu as [Hu _].
      destruct (remove_loop_undoes tx pre pre' (c' :: post) g Hu H) as [g' ->]. rewrite outcome_bind_ret.
      do 2 eexists. split; [done |]. right. by exists pre, c, post, pre, c'.
    + do 2 eexists. split; [done |]. right. by exists pre, c, post, pre', c'.
Qed.

(** * The chain of a consumer *)

(** Consumers that keep a chain themselves: calls about blocks change it as they should, other calls leave it alone. *)
Record following (view : C -> list Hash) : Prop := {
  fo_detach height g x r g' x' : onBlockchainDetach height (g, x) = Ret (r, (g', x')) -> r = Some tt /\ view x' = take (Z.to_nat height) (view x);
  fo_blocks blocks startHeight g x r g' x' :
    onNewBlocks blocks startHeight (g, x) = Ret (r, (g', x')) ->
    view x' = view x ++ (if bool_decide (r = Some true) then map TransfersConsumer.cb_blockHash blocks else []);
  fo_pool added deleted g x r g' x' : onPoolUpdated added deleted (g, x) = Ret (r, (g', x')) -> view x' = view x;
  fo_add tx g x r g' x' : addUnconfirmedTransaction tx (g, x) = Ret (r, (g', x')) -> view x' = view x;
  fo_remove h g x r g' x' : removeUnconfirmedTransaction h (g, x) = Ret (r, (g', x')) -> view x' = view x
}.

Section Following.
Context (view : C -> list Hash) (F : following view).

Definition told c : Prop := view (co_consumer c) = m_blockchain (co_state c).

Lemma told_same c x : told c -> view x = view (co_consumer c) -> told (with_consumer x c).
Proof. unfold told. cbn. congruence. Qed.

Lemma add_loop_told tx cs g r n g' cs' : add_loop tx cs g = Ret (r, n, g', cs') -> Forall told cs -> Forall told cs'.
Proof.
  revert g r n g' cs'. induction cs as [| c cs IH]; intros g r n g' cs' E H; cbn [add_loop] in E; [by injection E as <- <- <- <- |].
  apply List.Forall_cons_iff in H as [Hc H]. apply outcome_bind_inv in E as ([r1 [g1 x]] & E1 & E).
  assert (Hc' : told (with_consumer x c)) by (apply told_same; [done | by eapply (fo_add _ F)]).
  destruct (bool_decide (r1 = Some 0)); [| injection E as <- <- <- <-; by constructor].
  apply outcome_bind_inv in E as ([[[r2 n2] g2] cs2] & E2 & E). injection E as <- <- <- <-. constructor; [done | by eapply IH].
Qed.

Lemma remove_loop_told h n cs g r g' cs' : remove_loop h n cs g = Ret (r, g', cs') -> Forall told cs -> Forall told cs'.
Proof.
  revert n g r g' cs'. induction cs as [| c cs IH]; intros [| n] g r g' cs' E H; cbn [remove_loop] in E; try (by injection E as <- <- <-).
  apply List.Forall_cons_iff in H as [Hc H]. apply outcome_bind_inv in E as ([r1 [g1 x]] & E1 & E).
  assert (Hc' : told (with_consumer x c)) by (apply told_same; [done | by eapply (fo_remove _ F)]).
  destruct (bool_decide (r1 = Some tt)); [| injection E as <- <- <-; by constructor].
  apply outcome_bind_inv in E as ([[r2 g2] cs2] & E2 & E). injection E as <- <- <-. constructor; [done | by eapply IH].
Qed.

Lemma update_one_told interval blocks g c r g' c' :
  map TransfersConsumer.cb_blockHash blocks = interval_blocks interval -> update_one interval blocks g c = Ret (r, g', c') -> told c -> told c'.
Proof.
  intros Hb E Hc. unfold update_one in E. apply outcome_bind_inv in E as (check & _ & E). apply outcome_bind_inv in E as ([[r1 [g1 x1]] st1] & E1 & E).
  assert (H1 : r1 = Some tt /\ view x1 = m_blockchain st1).
  { destruct (detachRequired check); [| by injection E1 as <- <- <- <-]. apply outcome_bind_inv in E1 as ([r2 [g2 x2]] & E2 & E1).
    apply (fo_detach _ F) in E2 as [-> Hx]. apply outcome_bind_inv in E1 as (st2 & E3 & E1). injection E1 as <- <- <- <-. split; [done |].
    unfold detach in E3. apply outcome_bind_inv in E3 as (_ & _ & E3). injection E3 as <-. cbn. by rewrite Hx, Hc. }
  destruct H1 as [-> Hx1]. destruct (hasNewBlocks check); [| by injection E as <- <- <-].
  apply outcome_bind_inv in E as ([r2 [g2 x2]] & E2 & E). apply (fo_blocks _ F) in E2. rewrite Hx1 in E2. destruct r2 as [[] |].
  - apply outcome_bind_inv in E as (st2 & E3 & E). injection E as <- <- <-. unfold addBlocks in E3.
    apply outcome_bind_inv in E3 as (_ & _ & E3). injection E3 as <-. unfold told. cbn. rewrite E2, <- Hb, skipn_map. by rewrite bool_decide_true.
  - injection E as <- <- <-. unfold told. cbn. rewrite E2. by rewrite bool_decide_false, app_nil_r.
  - injection E as <- <- <-. unfold told. cbn. rewrite E2. by rewrite bool_decide_false, app_nil_r.
Qed.

Lemma updateConsumers_told interval blocks b cs g r g' cs' :
  map TransfersConsumer.cb_blockHash blocks = interval_blocks interval ->
  updateConsumers interval blocks b cs g = Ret (r, g', cs') -> Forall told cs -> Forall told cs'.
Proof.
  intros Hb. revert b g r g' cs'. induction cs as [| c cs IH]; intros b g r g' cs' E H; cbn [updateConsumers] in E; [by injection E as <- <- <- |].
  apply List.Forall_cons_iff in H as [Hc H]. apply outcome_bind_inv in E as ([[r1 g1] c1] & E1 & E).
  assert (Hc1 : told c1) by by eapply update_one_told.
  destruct r1; try (injection E as <- <- <-; by constructor);
    apply outcome_bind_inv in E as ([[r2 g2] cs2] & E2 & E); injection E as <- <- <-; (constructor; [done | by eapply IH]).
Qed.

Lemma do_add_told tx s r s' : doAddUnconfirmedTransaction tx s = Ret (r, s') -> Forall told (m_consumers s) -> Forall told (m_consumers s').
Proof.
  unfold doAddUnconfirmedTransaction. intros E H. apply outcome_bind_inv in E as ([[[r1 n1] g1] cs1] & E1 & E).
  apply add_loop_told in E1; [| done]. destruct r1 as [ec |]; [| by injection E as <- <-]. destruct (ec =? 0); [by injection E as <- <- |].
  apply outcome_bind_inv in E as ([[r2 g2] cs2] & E2 & E). injection E as <- <-. by eapply remove_loop_told.
Qed.

Lemma actualize_told s pc s' : actualizeFutureState s = Ret (pc, s') -> Forall told (m_consumers s) -> Forall told (m_consumers s').
Proof.
  unfold actualizeFutureState. intros E H. apply outcome_bind_inv in E as (s1 & E1 & E). apply outcome_bind_inv in E as (s2 & E2 & E). injection E as E.
  assert (Hr : forall tasks t t', remove_tasks tasks t = Ret t' -> Forall told (m_consumers t) -> Forall told (m_consumers t')).
  { induction tasks as [| [p h] tasks IH]; intros t t' Et Ht; cbn [remove_tasks] in Et; [by injection Et as <- |].
    unfold doRemoveUnconfirmedTransaction in Et. apply outcome_bind_inv in Et as ([r t1] & Et1 & Et).
    apply outcome_bind_inv in Et1 as ([[r1 g1] cs1] & El & Et1). injection Et1 as <- <-. eapply IH; [exact Et |]. cbn. by eapply remove_loop_told. }
  assert (Ha : forall tasks t t', add_tasks tasks t = Ret t' -> Forall told (m_consumers t) -> Forall told (m_consumers t')).
  { induction tasks as [| [p tx] tasks IH]; intros t t' Et Ht; cbn [add_tasks] in Et; [by injection Et as <- |].
    apply outcome_bind_inv in Et as ([r t1] & Et1 & Et). eapply IH; [exact Et |]. cbn. by eapply do_add_told. }
  assert (Hs' : m_consumers s' = m_consumers s2) by (unfold enter_state in E; destruct (m_futureState s2); by injection E as <- <-).
  rewrite Hs'. eapply Ha, Hr; [exact E2 | exact E1 |]. destruct (observe_spec s) as (_ & _ & _ & _ & _ & -> & _). done.
Qed.

Lemma back_to_idle_consumers s : m_consumers (back_to_idle s).2 = m_consumers s.
Proof. unfold back_to_idle, setFutureStateIf. by destruct (negb _). Qed.
Lemma future_consumers st s : m_consumers (setFutureState st s).2 = m_consumers s.
Proof. unfold setFutureState, setFutureStateIf. by destruct (_ <? _). Qed.

Lemma blocks_updated_consumers nd result n last s pc s' : blocks_updated nd result n last s = (pc, s') -> m_consumers s' = m_consumers s.
Proof.
  unfold blocks_updated, caught. intros E. pose proof (back_to_idle_consumers s) as Hg. pose proof (future_consumers blockchainSync s) as Hf.
  destruct (back_to_idle s) as [b s1]. cbn in Hg. destruct result; [destruct (_ =? _) | | destruct b |]; injection E as <- <-; by destruct last.
Qed.

Lemma work_told nd a w w' : work nd a w = Ret w' -> Forall told (m_consumers (sy w)) -> Forall told (m_consumers (sy w')).
Proof.
  destruct w as [s pc f]. unfold work. cbn [sy sy_pc sy_final]. intros E H. destruct pc; try (by injection E as <-).
  - apply outcome_bind_inv in E as ([pc s'] & E & E'). injection E' as <-. by eapply actualize_told.
  - apply outcome_bind_inv in E as (req & _ & E). by injection E as <-.
  - destruct (na_blocks <$> a) as [[| ec | r] |]; injection E as <-; unfold caught, query_failed; cbn; by rewrite ?back_to_idle_consumers.
  - destruct (checkIfShouldStop s); [by injection E as <- |]. apply outcome_bind_inv in E as ([[r g] cs] & Eu & E). injection E as <-. cbn.
    eapply updateConsumers_told; [| exact Eu | done]. unfold interval_of. cbn. by rewrite map_map.
  - destruct (blocks_updated nd result processedBlockCount lastBlock s) as [pc s1] eqn:Eb. injection E as <-. cbn.
    by rewrite (blocks_updated_consumers _ _ _ _ _ _ _ Eb).
  - injection E as <-. by destruct (checkIfShouldStop s).
  - apply outcome_bind_inv in E as ([u i] & _ & E). by injection E as <-.
  - destruct (na_pool <$> a) as [[| ec | r] |]; try done; [| destruct (pr_isLastKnownBlockActual r), intersection |];
      injection E as <-; unfold query_failed; cbn; by rewrite ?back_to_idle_consumers, ?future_consumers.
  - destruct (na_pool <$> a) as [[| ec | r] |]; try done; [| destruct (pr_isLastKnownBlockActual r) |];
      injection E as <-; unfold query_failed; cbn; by rewrite ?back_to_idle_consumers, ?future_consumers.
  - destruct (m_consumers s !! processed) as [c |] eqn:Ec; [| by injection E as <-]. destruct (checkIfShouldStop s); [by injection E as <- |].
    apply outcome_bind_inv in E as ([r [g x]] & Ep & E). apply (fo_pool _ F) in Ep. destruct r as [ec |]; [| done].
    assert (Hc : told c) by (eapply Forall_lookup_1; [exact H | exact Ec]).
    destruct (ec =? 0); injection E as <-; cbn; (apply Forall_insert; [done | by apply (told_same c x)]).
Qed.

Lemma insert_consumer_told c cs : told c -> Forall told cs -> Forall told (insert_consumer c cs).
Proof.
  intros Hc. induction 1 as [| d cs Hd H IH]; cbn [insert_consumer]; [by repeat constructor |].
  destruct (_ <? _); by repeat constructor.
Qed.

Lemma step_told genesis e w w' :
  m_genesisBlockHash (sy w) = genesis -> (forall address x, e = AddConsumer address x -> view x = [genesis]) ->
  step e w = Ret w' -> Forall told (m_consumers (sy w)) -> Forall told (m_consumers (sy w')).
Proof.
  intros Hg Hadd E H. assert (Ho : forall st, observed st w = Ret w' -> Forall told (m_consumers (sy w'))).
  { intros st. unfold observed. destruct (m_observing (sy w)); intros [= <-]; [cbn; by rewrite future_consumers | done]. }
  destruct e; cbn [step] in E; eauto.
  - by eapply work_told.
  - destruct (sy_pc w); try done. unfold start, setFutureStateIf in E. destruct (bool_decide _); [done |]. destruct (_ && _); [by injection E as <- | done].
  - injection E as <-. cbn. by rewrite future_consumers.
  - unfold change, addUnconfirmedTransactionTask in E. destruct (_ || _); [done |]. by injection E as <-.
  - unfold change, removeUnconfirmedTransactionTask in E. destruct (_ || _); [done |]. by injection E as <-.
  - unfold change, addConsumer in E. destruct (assert_ _); try done. rewrite outcome_bind_ret in E. destruct (negb _); [done |]. injection E as <-. cbn.
    apply insert_consumer_told; [| done]. unfold told. cbn. rewrite Hg. by eapply Hadd.
  - unfold change, removeConsumer in E. destruct (negb (checkIfStopped _ && _)); [done |]. injection E as <-. cbn.
    apply Forall_forall. intros c Hc. apply list_elem_of_In, List.filter_In in Hc as [Hc _]. rewrite Forall_forall in H. by apply H, list_elem_of_In.
Qed.

Lemma work_genesis nd a w w' : work nd a w = Ret w' -> m_genesisBlockHash (sy w') = m_genesisBlockHash (sy w).
Proof.
  intros E. destruct (working (sy_pc w)) as [st |] eqn:Hw; [by destruct (work_post _ _ _ _ _ Hw E) as (_ & (_ & _ & _ & _ & _ & ?) & _) |].
  unfold work in E. destruct (sy_pc w); try done; try (by injection E as <-).
  apply outcome_bind_inv in E as ([pc s'] & E & E'). injection E' as <-. apply actualize_spec in E as (s1 & Ee & _ & _ & _ & Hg & _).
  rewrite <- Hg. unfold enter_state in Ee. destruct (m_futureState s1); by injection Ee as -> ->.
Qed.

Lemma step_genesis e w w' : step e w = Ret w' -> m_genesisBlockHash (sy w') = m_genesisBlockHash (sy w).
Proof.
  intros E. assert (Hf : forall st (t : BlockchainSynchronizer G C), m_genesisBlockHash (setFutureState st t).2 = m_genesisBlockHash t)
    by (intros st t; by destruct (future_post st t) as (_ & _ & _ & _ & _ & ?)).
  assert (Ho : forall st, observed st w = Ret w' -> m_genesisBlockHash (sy w') = m_genesisBlockHash (sy w)).
  { intros st. unfold observed. destruct (m_observing (sy w)); intros [= <-]; [apply Hf | done]. }
  destruct e; cbn [step] in E; eauto.
  - by eapply work_genesis.
  - destruct (sy_pc w); try done. unfold start, setFutureStateIf in E. destruct (bool_decide _); [done |]. destruct (_ && _); [by injection E as <- | done].
  - injection E as <-. apply Hf.
  - unfold change, addUnconfirmedTransactionTask in E. destruct (_ || _); [done |]. by injection E as <-.
  - unfold change, removeUnconfirmedTransactionTask in E. destruct (_ || _); [done |]. by injection E as <-.
  - unfold change, addConsumer in E. destruct (assert_ _); try done. rewrite outcome_bind_ret in E. destruct (negb _); [done |]. by injection E as <-.
  - unfold change, removeConsumer in E. destruct (negb _); [done |]. by injection E as <-.
Qed.

Lemma occur_cases e w w' : occur e w = Ret w' -> step e w = Ret w' \/ w' = w.
Proof. intros E. unfold occur in E. destruct e; [by left |..]; (destruct (throws _); [injection E as <-; by right | by left]). Qed.

Lemma run_told genesis es w w' :
  m_genesisBlockHash (sy w) = genesis -> (forall address x, AddConsumer address x ∈ es -> view x = [genesis]) ->
  run es w = Ret w' -> Forall told (m_consumers (sy w)) -> Forall told (m_consumers (sy w')).
Proof.
  revert w. induction es as [| e es IH]; intros w Hg Hadd E H; cbn [run] in E; [by injection E as <- |].
  apply outcome_bind_inv in E as (w1 & E1 & E). apply (IH w1); [| | done |].
  - apply occur_cases in E1 as [E1 | ->]; [by rewrite (step_genesis _ _ _ E1) | done].
  - intros address x Hx. eapply Hadd. by right.
  - apply occur_cases in E1 as [E1 | ->]; [| done]. eapply step_told; [exact Hg | | exact E1 | done].
    intros address x ->. eapply Hadd. by left.
Qed.
End Following.

(** C22: whatever the node answers, in whichever order things happen and whatever fails, every consumer has been told exactly the chain that the synchroniser keeps
    for it: each block once, in order, each fork taken back at the block where it begins, and nothing of what it refused. *)
Theorem consumers_are_told_their_chain view g genesis h es w :
  following view -> (forall address x, AddConsumer address x ∈ es -> view x = [genesis]) -> run es (newSystem g genesis h) = Ret w ->
  Forall (fun c => view (co_consumer c) = m_blockchain (co_state c)) (m_consumers (sy w)).
Proof. intros F Hadd E. exact (run_told view F genesis es (newSystem g genesis h) w eq_refl Hadd E (List.Forall_nil _)). Qed.
End Consumers.

(** * A run *)

Lemma mirror_following : following (G := Z) mi_chain.
Proof.
  split.
  - intros height g x r g' x' E. injection E as <- <- <-. done.
  - intros blocks startHeight g x r g' x' E. cbn in E. destruct (existsb _ _); injection E as <- <- <-; [by rewrite app_nil_r | done].
  - intros added deleted g x r g' x' E. by injection E as <- <- <-.
  - intros tx g x r g' x' E. cbn in E. destruct (bool_decide _); by injection E as <- <- <-.
  - intros hh g x r g' x' E. by injection E as <- <- <-.
Qed.

(** Both consumers take three blocks; of the next answer, which departs after the second block, the first refuses the last one. *)
Definition demo_follow : list (Event (C:=Mirror)) :=
  demo_started ++ [Work demo_view (demo_blocks 0 [[0]; [1]; [2]]); Work demo_view None; Work demo_view None; LocalBlockchainUpdated; Work demo_view None;
                   Work demo_view None; Work demo_view None; Work demo_view None; Work demo_view None; Work demo_view (demo_blocks 1 [[1]; [3]; [9]]);
                   Work demo_view None].

Lemma consumers_are_told_their_chain_witness :
  exists w, run demo_follow (newSystem 0 [0] [7]) = Ret w
    /\ map (fun c => m_blockchain (co_state c)) (m_consumers (sy w)) = [[[0]; [1]]; [[0]; [1]; [2]]]
    /\ Forall (fun c => mi_chain (co_consumer c) = m_blockchain (co_state c)) (m_consumers (sy w)).
Proof.
  assert (Ht : outcome_test (fun w => bool_decide (map (fun c => m_blockchain (co_state c)) (m_consumers (sy w)) = [[[0]; [1]]; [[0]; [1]; [2]]]))
    (run demo_follow (newSystem 0 [0] [7])) = true) by (vm_compute; reflexivity).
  apply outcome_test_true in Ht as (w & E & Hw).
  exists w. split; [exact E |]. split; [by apply bool_decide_eq_true_1 in Hw |].
  apply (consumers_are_told_their_chain mi_chain 0 [0] [7] demo_follow w mirror_following); [| exact E].
  intros address x Hx.
  assert (Ha : Forall (fun e => match e with AddConsumer _ x => mi_chain x = [[0]] | _ => True end) demo_follow)
    by (unfold demo_follow, demo_started; repeat (apply List.Forall_cons; [first [exact I | reflexivity] |]); apply List.Forall_nil).
  rewrite Forall_forall in Ha. exact (Ha _ Hx).
Defined.

(** The second consumer refuses transaction 8, which the first one has taken. *)
Definition demo_pair : BlockchainSynchronizer Z Mirror :=
  with_consumers [mkConsumer 1 (mirror [9] [9]) (mkSync [[0]]); mkConsumer 2 (mirror [9] [8]) (mkSync [[0]])] 0 (newBlockchainSynchronizer 0 [0] [7]).

Lemma refused_transaction_is_rolled_back_witness :
  exists s', doAddUnconfirmedTransaction (demo_tx [8]) demo_pair = Ret (Some invalid_argument, s')
    /\ map co_consumer (m_consumers s') = [mirror [9] [9]; mirror [9] [8]] /\ shared s' = 3.
Proof.
  destruct (refused_transaction_is_rolled_back (demo_tx [8]) demo_pair mirror_returns) as (r & s' & E & H).
  - apply List.Forall_cons; [| apply List.Forall_cons; [| apply List.Forall_nil]]; intros c' (g & g' & x & Ea & ->) g2; cbn in Ea; [| discriminate Ea].
    injection Ea as <- <-. by eexists.
  - assert (Hc : exists s1, doAddUnconfirmedTransaction (demo_tx [8]) demo_pair = Ret (Some invalid_argument, s1)
      /\ map co_consumer (m_consumers s1) = [mirror [9] [9]; mirror [9] [8]] /\ shared s1 = 3) by (eexists; split; [vm_compute; reflexivity | done]).
    destruct Hc as (s1 & Ec & Hc). rewrite E in Ec. injection Ec as -> ->. exists s1. by split.
Defined.
