(* ===== verification/BlockQueries.v ===== *)
(** What a node tells others about its blocks: the queries of [src/src/CryptoNoteCore/Blockchain.cpp] and [Blockchain.h], the ones of
    [core] that are built on them ([Core.cpp]), and the answer that a wallet in the same process gets ([InProcessNode.cpp]).

    The queries read the [Node] of [Reorg.v]; locks are left out.  Writing a block or a transaction that cannot be written leaves
    behind what was written before the exception; the value of that is left open, as [Undefined].

    The theorems say that a node whose chain can be read back is the honest peer of [ProtocolLiveness.v], and that its answers to wallets
    are those which [SynchronizerRound.v] assumes of an honest node. *)

From stdpp Require Import gmap.
From S2P Require Import Prelude Config Currency Types Codec Serialization ChainStore InputChecks Chain ChainInvariant Reorg P2pTypes.
From S2P Require ChainReach Sync Synchronizer ProtocolLiveness.

(** * [std::lower_bound] *)

(** The range is halved; [before] compares an element with the value.  [fuel] bounds the number of halvings. *)
Fixpoint lower_bound_loop (fuel : nat) (before : Z -> outcome bool) (first len : Z) : outcome Z :=
  if 0 <? len then
    match fuel with
    | O => Undefined
    | S fuel =>
        let half := len / 2 in
        let middle := first + half in
        b ← before middle;
        if b : bool then lower_bound_loop fuel before (middle + 1) (len - half - 1) else lower_bound_loop fuel before first half
    end
  else Ret first.

(** [BlockShortInfo], [BlockFullInfo] and [TransactionPrefixInfo] of [CryptoNoteProtocolDefinitions.h]. *)
Record TransactionPrefixInfo := mkPrefixInfo { txHash : Hash; txPrefix : Transaction }.
Record BlockShortInfo := mkShortInfo { blockId : Hash; si_block : bytes; txPrefixes : list TransactionPrefixInfo }.
Record BlockFullInfo := mkFullInfo { fi_block_id : Hash; fi_entry : block_complete_entry }.

Definition BLOCKS_SYNCHRONIZING_COUNT : Z := Z.of_nat BLOCKS_SYNCHRONIZING_DEFAULT_COUNT.

(** [toBinaryArray] as a value. *)
Definition written (o : outcome bytes) : outcome bytes := match o with Throw _ => Undefined | _ => o end.
Definition block_binary (b : Block) : outcome bytes := written (write_block b).
Definition tx_binary (tx : Transaction) : outcome bytes := written (write_transaction tx).

Section Queries.
Context {P : Type} `{TxPool P} (c : Currency).
Implicit Types (bc : Blockchain P) (nd : Node P).

Abbreviation top_count bc := (currentHeight (m_blocks bc)).

(** * Transactions *)

Definition getTransactions (nd : Node P) (txs_ids : list Hash) (checkTxPool : bool) : outcome (list Transaction * list Hash) :=
  '(txs, missed_txs) ← getBlockchainTransactions (nd_chain nd) txs_ids;
  if checkTxPool then
    let pool := m_tx_pool (nd_chain nd) in
    Ret (txs ++ omap (pool_get pool) missed_txs, filter (fun id => pool_get pool id = None) missed_txs)
  else Ret (txs, missed_txs).

(** [core::getTransaction]. *)
Definition getTransaction (nd : Node P) (id : Hash) (checkTxPool : bool) : outcome (option Transaction) :=
  '(txs, missed_txs) ← getTransactions nd [id] checkTxPool;
  Ret (match missed_txs, txs with [], [tx] => Some tx | _, _ => None end).

Definition getBlockContainingTransaction bc (txId : Hash) : outcome (option (Hash * Z)) :=
  match m_transactionMap (m_store bc) !! txId with
  | None => Ret None
  | Some it =>
      e ← block_at (m_blocks bc) (ti_block it);
      blockId ← Chain.getBlockIdByHeight bc (be_height e);
      Ret (Some (blockId, be_height e))
  end.

(** * Blocks *)

(** The blocks that are found; an index entry beyond the blocks ends the search, and the answer [false] is not looked at. *)
Fixpoint getBlocksByIds bc (block_ids : list Hash) : outcome (list Block * list Hash) :=
  match block_ids with
  | [] => Ret ([], [])
  | bl_id :: block_ids =>
      match Sync.getBlockHeight (m_blockIndex bc) bl_id with
      | None => '(blocks, missed_bs) ← getBlocksByIds bc block_ids; Ret (blocks, bl_id :: missed_bs)
      | Some height =>
          if negb (height <? Z.of_nat (length (m_blocks bc))) then Ret ([], [])
          else
            e ← block_at (m_blocks bc) height;
            '(blocks, missed_bs) ← getBlocksByIds bc block_ids;
            Ret (be_bl e :: blocks, missed_bs)
      end
  end.

(** [getBlocks(start_offset, count, blocks)]: the blocks of the loop, none when it answers [false].  The end of the range has 32 bits. *)
Definition getBlocks bc (start_offset count : Z) : list Block :=
  if Z.of_nat (length (m_blocks bc)) <=? start_offset then []
  else map be_bl (take (Z.to_nat (u32 (start_offset + count) - start_offset)) (drop (Z.to_nat start_offset) (m_blocks bc))).

Definition getBlockHashes bc (startHeight maxCount : Z) : list Hash := Sync.getBlockIds (m_blockIndex bc) startHeight maxCount.

(** [core::getBlockIdByHeight]. *)
Definition getBlockIdByHeight bc (height : Z) : outcome Hash :=
  if height <? top_count bc then Chain.getBlockIdByHeight bc height else Ret NULL_HASH.

(** [get_blockchain_top] of a chain with a block. *)
Definition get_blockchain_top bc : outcome (Z * Hash) :=
  _ ← assert_ (0 <? top_count bc);
  _ ← assert_ (bool_decide (m_blocks bc <> []));
  tail ← Chain.getTailId bc;
  Ret (u32 (top_count bc - 1), tail).

(** The first block whose time is not before [timestamp] less the tolerance for times in the future. *)
Definition getLowerBound bc (timestamp startOffset : Z) : outcome (option Z) :=
  let size := Z.of_nat (length (m_blocks bc)) in
  _ ← assert_ (startOffset <? size);
  let value := u64 (timestamp - m_blockFutureTimeLimit c) in
  bound ← lower_bound_loop 64 (fun i => e ← block_at (m_blocks bc) i; Ret (b_timestamp (be_bl e) <? value)) startOffset (size - startOffset);
  Ret (if bound =? size then None else Some (u32 bound)).

(** * Objects for a peer *)

(** Blocks with their transactions, and the hashes of the transactions that are missed. *)
Fixpoint complete_entries bc (blocks : list Block) : outcome (list block_complete_entry * list Hash) :=
  match blocks with
  | [] => Ret ([], [])
  | bl :: blocks =>
      '(txs, missed) ← getBlockchainTransactions bc (b_transactionHashes bl);
      block ← block_binary bl;
      txs ← mapM tx_binary txs;
      '(entries, missed_ids) ← complete_entries bc blocks;
      Ret (mkCompleteEntry block txs :: entries, missed ++ missed_ids)
  end.

Definition handleGetObjects bc (txs blocks : list Hash) : outcome (bool * NOTIFY_RESPONSE_GET_OBJECTS_request) :=
  '(found, missed_blocks) ← getBlocksByIds bc blocks;
  '(entries, missed_txs) ← complete_entries bc found;
  '(others, missed_others) ← getBlockchainTransactions bc txs;
  others ← mapM tx_binary others;
  Ret (true, mkResponseGetObjects others entries (missed_blocks ++ missed_txs ++ missed_others) (top_count bc)).

(** [core::findBlockchainSupplement]. *)
Definition findBlockchainSupplement bc (remoteBlockIds : list Hash) (maxCount : Z) : outcome NOTIFY_RESPONSE_CHAIN_ENTRY_request :=
  match last remoteBlockIds with
  | None => AssertFail
  | Some back =>
      genesis ← Chain.getBlockIdByHeight bc 0;
      _ ← assert_ (bool_decide (back = genesis));
      '(ids, _, startBlockIndex) ← Sync.findBlockchainSupplementIds (m_blockIndex bc) remoteBlockIds maxCount;
      Ret (mkResponseChainEntry startBlockIndex (top_count bc) ids)
  end.

(** * Sparse chains *)

(** Down the alternative blocks to the main chain: the blocks, the latest first, and the block of the main chain. *)
Fixpoint alternative_ancestors (fuel : nat) (blocks : gmap Hash BlockEntry) (id : Hash) : outcome (list Hash * Hash) :=
  match blocks !! id with
  | None => Ret ([], id)
  | Some e =>
      match fuel with
      | O => Undefined
      | S fuel => '(chain, ancestor) ← alternative_ancestors fuel blocks (b_previousBlockHash (be_bl e)); Ret (id :: chain, ancestor)
      end
  end.

(** [for (size_t i = 1; i <= alternativeChain.size(); i *= 2)]. *)
Fixpoint doubling_loop (fuel : nat) (chain : list Hash) (i : Z) : outcome (list Hash) :=
  if i <=? Z.of_nat (length chain) then
    match fuel with
    | O => Undefined
    | S fuel => h ← vec_at chain (i - 1); rest ← doubling_loop fuel chain (u64 (i * 2)); Ret (h :: rest)
    end
  else Ret [].

Definition doBuildSparseChain (nd : Node P) (startBlockId : Hash) : outcome (list Hash) :=
  let index := m_blockIndex (nd_chain nd) in
  _ ← assert_ (negb (Sync.size index =? 0));
  if Sync.hasBlock index startBlockId then Sync.buildSparseChain index startBlockId
  else
    _ ← assert_ (bool_decide (is_Some (m_alternative_chains nd !! startBlockId)));
    '(alternativeChain, blockchainAncestor) ←
      alternative_ancestors (base.size (m_alternative_chains nd)) (m_alternative_chains nd) startBlockId;
    sparseChain ← doubling_loop 64 alternativeChain 1;
    _ ← assert_ (bool_decide (sparseChain <> []));
    _ ← assert_ (Sync.hasBlock index blockchainAncestor);
    sparseMainChain ← Sync.buildSparseChain index blockchainAncestor;
    Ret (sparseChain ++ sparseMainChain).

(** [core::buildSparseChain], from the tail. *)
Definition buildSparseChain (nd : Node P) : outcome (list Hash) :=
  let index := m_blockIndex (nd_chain nd) in
  _ ← assert_ (negb (top_count (nd_chain nd) =? 0));
  _ ← assert_ (negb (Sync.size index =? 0));
  tail ← Sync.getTailId index;
  doBuildSparseChain nd tail.

(** ... and from a block. *)
Definition buildSparseChainFrom (nd : Node P) (startBlockId : Hash) : outcome (list Hash) :=
  _ ← assert_ (haveBlock nd startBlockId); doBuildSparseChain nd startBlockId.

(** * Queries of wallets *)

(** The common block and the first block that is sent in full; [None] is [false]. *)
Definition findStartAndFullOffsets bc (knownBlockIds : list Hash) (timestamp : Z) : outcome (option (Z * Z)) :=
  match last knownBlockIds with
  | None => Ret None
  | Some back =>
      genesis ← Chain.getBlockIdByHeight bc 0;
      if negb (bool_decide (back = genesis)) then Ret None
      else
        startOffset ← Sync.findBlockchainSupplement (m_blockIndex bc) knownBlockIds;
        startFullOffset ← getLowerBound bc timestamp startOffset;
        Ret (Some (startOffset, default startOffset startFullOffset))
  end.

Definition findIdsForShortBlocks bc (startOffset startFullOffset : Z) : outcome (list Hash) :=
  _ ← assert_ (startOffset <=? startFullOffset);
  Ret (if startOffset <? startFullOffset
       then getBlockHashes bc startOffset (Z.min (u32 BLOCKS_IDS_SYNCHRONIZING_DEFAULT_COUNT) (startFullOffset - startOffset))
       else []).

(** How many blocks are sent in full after that many hashes. *)
Definition blocks_left (ids : list Hash) : Z :=
  u32 (Z.min (u64 (BLOCKS_IDS_SYNCHRONIZING_DEFAULT_COUNT - Z.of_nat (length ids))) BLOCKS_SYNCHRONIZING_COUNT).

Definition full_info bc (timestamp : Z) (b : Block) : outcome BlockFullInfo :=
  block_id ← block_hash b;
  if timestamp <=? b_timestamp b then
    '(txs, _) ← getBlockchainTransactions bc (b_transactionHashes b);
    block ← block_binary b;
    txs ← mapM tx_binary txs;
    Ret (mkFullInfo block_id (mkCompleteEntry block txs))
  else Ret (mkFullInfo block_id (mkCompleteEntry [] [])).

(** The start height, the current height, the offset of the full blocks and the entries. *)
Definition queryBlocks (nd : Node P) (knownBlockIds : list Hash) (timestamp : Z) : outcome (option (Z * Z * Z * list BlockFullInfo)) :=
  let bc := nd_chain nd in
  offsets ← findStartAndFullOffsets bc knownBlockIds timestamp;
  match offsets with
  | None => Ret None
  | Some (startOffset, startFullOffset) =>
      blockIds ← findIdsForShortBlocks bc startOffset startFullOffset;
      let short := map (fun id => mkFullInfo id (mkCompleteEntry [] [])) blockIds in
      let blocksLeft := blocks_left blockIds in
      if blocksLeft =? 0 then Ret (Some (startOffset, top_count bc, startFullOffset, short))
      else
        full ← mapM (full_info bc timestamp) (getBlocks bc startFullOffset blocksLeft);
        Ret (Some (startOffset, top_count bc, startFullOffset, short ++ full))
  end.

Definition short_info bc (timestamp : Z) (b : Block) : outcome BlockShortInfo :=
  block_id ← block_hash b;
  if timestamp <=? b_timestamp b then
    '(txs, _) ← getBlockchainTransactions bc (b_transactionHashes b);
    block ← block_binary b;
    Ret (mkShortInfo block_id block (map (fun tx => mkPrefixInfo (getObjectHash tx) tx) txs))
  else Ret (mkShortInfo block_id [] []).

Definition queryBlocksLite (nd : Node P) (knownBlockIds : list Hash) (timestamp : Z) : outcome (option (Z * Z * Z * list BlockShortInfo)) :=
  let bc := nd_chain nd in
  offsets ← findStartAndFullOffsets bc knownBlockIds timestamp;
  match offsets with
  | None => Ret None
  | Some (resStartHeight, resFullOffset) =>
      blockIds ← findIdsForShortBlocks bc resStartHeight resFullOffset;
      let short := map (fun id => mkShortInfo id [] []) blockIds in
      let blocksLeft := blocks_left blockIds in
      if blocksLeft =? 0 then Ret (Some (resStartHeight, top_count bc, resFullOffset, short))
      else
        full ← mapM (short_info bc timestamp) (getBlocks bc resFullOffset blocksLeft);
        Ret (Some (resStartHeight, top_count bc, resFullOffset, short ++ full))
  end.

(** ** In the same process *)

(** An entry for the wallet, or [invalid_argument]; the block is read into a new [BlockShortEntry], which holds [b0]. *)
Definition short_entry (b0 : Block) (entry : BlockShortInfo) : option Synchronizer.BlockShortEntry :=
  block ← (if bool_decide (si_block entry = []) then Some None else Some <$> blockFromBinaryArray b0 (si_block entry));
  Some (Synchronizer.mkShortEntry (blockId entry) block
          (map (fun tsi => Synchronizer.mkShortInfo (txHash tsi) (txPrefix tsi)) (txPrefixes entry))).

(** What the wallet gets for its query: [INTERNAL_NODE_ERROR] and [invalid_argument] are [None]. *)
Definition doQueryBlocksLite (b0 : Block) (nd : Node P) (knownBlockIds : list Hash) (timestamp : Z)
    : outcome (option Synchronizer.GetBlocksResponse) :=
  r ← queryBlocksLite nd knownBlockIds timestamp;
  Ret (match r with
       | None => None
       | Some (startHeight, _, _, entries) => Synchronizer.mkBlocksResponse startHeight <$> mapM (short_entry b0) entries
       end).
End Queries.

(** * The bound *)

(** The bound is in the range, the element before it is before the value, and the element at it is not. *)
Lemma lower_bound_spec fuel before f first len :
  0 <= len < 2 ^ Z.of_nat fuel -> (forall i, first <= i < first + len -> before i = Ret (f i)) ->
  exists p, lower_bound_loop fuel before first len = Ret p /\ first <= p <= first + len
    /\ (p = first \/ f (p - 1) = true) /\ (p = first + len \/ f p = false).
Proof.
  revert first len. induction fuel as [| fuel IH]; intros first len Hlen Hb; cbn [lower_bound_loop].
  - change (2 ^ Z.of_nat 0) with 1 in Hlen. destruct (Z.ltb_spec 0 len); [lia |]. exists first. split; [done | lia].
  - destruct (Z.ltb_spec 0 len) as [Hpos |]; [| exists first; split; [done | lia]].
    rewrite Nat2Z.inj_succ, Z.pow_succ_r in Hlen by lia.
    assert (Hhalf : 0 <= len / 2 < len /\ len / 2 < 2 ^ Z.of_nat fuel /\ len - len / 2 - 1 < 2 ^ Z.of_nat fuel).
    { pose proof (Z.div_mod len 2 ltac:(lia)). pose proof (Z.mod_pos_bound len 2 ltac:(lia)). lia. }
    set (half := len / 2) in *. rewrite (Hb (first + half)), outcome_bind_ret by lia.
    destruct (f (first + half)) eqn:Ef.
    + destruct (IH (first + half + 1) (len - half - 1)) as (p & -> & Hp & Hl & Hr); [lia | intros; apply Hb; lia |].
      exists p. split; [done |]. split; [lia |]. split; [right | destruct Hr as [Hr | ?]; [left; lia | by right]].
      destruct Hl as [-> | ?]; [by replace (first + half + 1 - 1) with (first + half) by lia | done].
    + destruct (IH first half) as (p & -> & Hp & Hl & Hr); [lia | intros; apply Hb; lia |].
      exists p. split; [done |]. split; [lia |]. split; [done |]. right. destruct Hr as [-> | ?]; done.
Qed.

(** * What is stored *)

Definition stored_tx {P} (bc : Blockchain P) (h : Hash) (tx : Transaction) (ba : bytes) : Prop :=
  exists index e, m_transactionMap (m_store bc) !! h = Some index /\ transactionByIndex (m_blocks bc) index = Ret e /\ te_tx e = tx
    /\ write_transaction tx = Ret ba /\ getBinaryArrayHash ba = h.

(** A block that can be written and read back into [b0]. *)
Definition readable (b0 b : Block) (ba : bytes) : Prop := write_block b = Ret ba /\ ba <> [] /\ blockFromBinaryArray b0 ba = Some b.

(** The chain is consistent and not empty, its blocks can be read back, and their transactions are found. *)
Record well_stored {P} (b0 : Block) (limit : Z) (bc : Blockchain P) : Prop := {
  ws_chain : chain_ok bc;
  ws_some : m_blocks bc <> [];
  ws_block e : e ∈ m_blocks bc -> exists ba, readable b0 (be_bl e) ba /\ Z.of_nat (length ba) <= limit;
  ws_txs e h : e ∈ m_blocks bc -> h ∈ b_transactionHashes (be_bl e) -> exists tx ba, stored_tx bc h tx ba
}.

Lemma exists_Forall2 {A B} (R : A -> B -> Prop) (l : list A) : (forall x, x ∈ l -> exists y, R x y) -> exists k, Forall2 R l k.
Proof.
  induction l as [| x l IH]; intros Hl; [by exists [] |]. destruct (Hl x) as [y Hy]; [by left |].
  destruct IH as [k Hk]; [intros z Hz; apply Hl; by right |]. exists (y :: k). by constructor.
Qed.

Section Stored.
Context {P : Type} `{TxPool P} (c : Currency) (b0 : Block) (limit : Z).
Implicit Types (bc : Blockchain P) (nd : Node P).

Lemma top_count_small bc : chain_ok bc -> currentHeight (m_blocks bc) = Z.of_nat (length (m_blocks bc)).
Proof. intros Hok. unfold currentHeight. pose proof (ok_length _ Hok). apply u32_small. lia. Qed.

Lemma index_height bc i h : chain_ok bc -> hashes bc !! i = Some h -> Sync.getBlockHeight (m_blockIndex bc) h = Some (Z.of_nat i).
Proof.
  intros Hok Hi. pose proof (ok_length _ Hok). pose proof (length_hashes _ Hok). pose proof (lookup_lt_Some _ _ _ Hi).
  unfold Sync.getBlockHeight. change (Sync.m_container (m_blockIndex bc)) with (hashes bc).
  rewrite (Sync.height_of_nodup _ _ i (ok_distinct _ Hok) Hi). cbn [fmap option_fmap option_map]. by rewrite u32_small by lia.
Qed.

Lemma stored_list bc hs : (forall h, h ∈ hs -> exists tx ba, stored_tx bc h tx ba) ->
  exists txs bas, getBlockchainTransactions bc hs = Ret (txs, []) /\ mapM tx_binary txs = Ret bas
    /\ map getBinaryArrayHash bas = hs /\ map getObjectHash txs = hs.
Proof.
  induction hs as [| h hs IH]; intros Hs; [by exists [], [] |].
  destruct (Hs h) as (tx & ba & index & e & Hi & He & <- & Hw & Hh); [by left |].
  destruct IH as (txs & bas & E1 & E2 & E3 & E4); [intros x Hx; apply Hs; by right |].
  exists (te_tx e :: txs), (ba :: bas). cbn [getBlockchainTransactions]. rewrite Hi, He, !outcome_bind_ret, E1, outcome_bind_ret.
  split; [done |]. assert (Hb : tx_binary (te_tx e) = Ret ba) by (unfold tx_binary; by rewrite Hw).
  split; [cbn [mapM]; by rewrite Hb, outcome_bind_ret, E2, outcome_bind_ret |]. cbn [map]. rewrite E3, E4.
  rewrite Hh. split; [done |]. f_equal. unfold getObjectHash, toBinaryArray. rewrite Hw. exact Hh.
Qed.
End Stored.

(** * The honest peer *)

(** What the handlers ask of the core of the node.  The operations that receive blocks and transactions and the contents of the pool are
    arguments: the theorems here are about what the chain answers. *)
Section NodeCore.
Context {P : Type} `{TxPool P} (c : Currency) (b0 : Block) (limit : Z).
Context (incoming_tx : bytes -> bool -> Node P -> outcome (TransactionPool.tx_verification_context * Node P)).
Context (incoming_block : Block -> Node P -> outcome (block_verification_context * Node P)).
Context (incoming_blob : bytes -> Node P -> outcome (block_verification_context * Node P)).
Context (pool_transactions : Node P -> list Transaction) (pool_changes : Node P -> list Hash -> outcome (list Transaction)).
Implicit Types (bc : Blockchain P) (nd : Node P).

Definition node_core : Core (Node P) := {|
  P2pTypes.have_block := haveBlock;
  P2pTypes.get_blockchain_top nd := match get_blockchain_top (nd_chain nd) with Ret top => top | _ => (0, NULL_HASH) end;
  P2pTypes.buildSparseChain := buildSparseChain;
  P2pTypes.getBlockIdByHeight nd := getBlockIdByHeight (nd_chain nd);
  P2pTypes.findBlockchainSupplement nd := findBlockchainSupplement (nd_chain nd);
  P2pTypes.handle_get_objects nd := handleGetObjects (nd_chain nd);
  P2pTypes.handle_incoming_tx := incoming_tx;
  P2pTypes.handle_incoming_block := incoming_block;
  P2pTypes.handle_incoming_block_blob := incoming_blob;
  P2pTypes.getPoolTransactions := pool_transactions;
  P2pTypes.getPoolChanges := pool_changes;
  P2pTypes.getTransaction nd id := getTransaction nd id true;
  P2pTypes.getTransactions nd ids := getTransactions nd ids true
|}.
#[local] Existing Instance node_core.
#[local] Instance stored_format : Format := node_format b0.

(** A block of the chain as it is sent. *)
Definition sent_as bc (e : BlockEntry) (rb : ProtocolLiveness.remote_block) : Prop :=
  ProtocolLiveness.rb_block rb = be_bl e /\ block_hash (be_bl e) = Ret (ProtocolLiveness.rb_id rb)
  /\ readable b0 (be_bl e) (ce_block (ProtocolLiveness.rb_entry rb)) /\ Z.of_nat (length (ce_block (ProtocolLiveness.rb_entry rb))) <= limit
  /\ exists txs, getBlockchainTransactions bc (b_transactionHashes (be_bl e)) = Ret (txs, [])
       /\ mapM tx_binary txs = Ret (ce_txs (ProtocolLiveness.rb_entry rb))
       /\ map getBinaryArrayHash (ce_txs (ProtocolLiveness.rb_entry rb)) = b_transactionHashes (be_bl e).

Lemma chain_sent bc : well_stored b0 limit bc -> exists chain, Forall2 (sent_as bc) (m_blocks bc) chain.
Proof.
  intros [Hok _ Hb Ht]. apply exists_Forall2. intros e He. destruct (Hb e He) as (ba & Hr & Hl).
  destruct (stored_list bc (b_transactionHashes (be_bl e))) as (txs & bas & E1 & E2 & E3 & _); [intros h Hh; by apply (Ht e) |].
  apply list_elem_of_lookup_1 in He as [i Hi]. destruct (Forall2_lookup_l _ _ _ _ _ (ok_hashes _ Hok) Hi) as (h & _ & Hh).
  exists (ProtocolLiveness.mkRemote h (be_bl e) (mkCompleteEntry ba bas)). split_and!; [done..| by exists txs].
Qed.

Lemma sent_ids bc chain : chain_ok bc -> Forall2 (sent_as bc) (m_blocks bc) chain -> map ProtocolLiveness.rb_id chain = hashes bc.
Proof.
  intros Hok Hs. pose proof (ok_hashes _ Hok) as Hh. revert Hh. generalize (hashes bc).
  induction Hs as [| e rb es chain (_ & Hid & _) _ IH]; intros hs Hh; [by inversion Hh |].
  apply Forall2_cons_inv_l in Hh as (h & hs' & Hh & Hhs & ->). cbn [map]. rewrite (IH _ Hhs). congruence.
Qed.

Lemma sent_genuine bc chain : Forall2 (sent_as bc) (m_blocks bc) chain -> Forall (ProtocolLiveness.genuine limit) chain.
Proof.
  induction 1 as [| e rb es chain (Hb & Hid & (_ & _ & Hr) & Hl & txs & _ & _ & Hh) _ IH]; constructor; [| done].
  unfold ProtocolLiveness.genuine. cbn. by rewrite Hb.
Qed.

(** The blocks behind some hashes of the chain are sent as they are. *)
Lemma objects_sent bc l : chain_ok bc -> (forall x, x ∈ l -> exists i e, m_blocks bc !! i = Some e /\ sent_as bc e x) ->
  exists bls, getBlocksByIds bc (map ProtocolLiveness.rb_id l) = Ret (bls, [])
    /\ complete_entries bc bls = Ret (map ProtocolLiveness.rb_entry l, []).
Proof.
  intros Hok. pose proof (ok_length _ Hok) as Hl. induction l as [| rb l IH]; intros Hl0; [by exists [] |].
  destruct IH as (bls & E1 & E2); [intros x Hx; apply Hl0; by right |].
  destruct (Hl0 rb) as (i & e & Hi & _ & Hid & (Hw & _ & _) & _ & txs & Ht & Hm & _); [by left |]. pose proof (lookup_lt_Some _ _ _ Hi).
  exists (be_bl e :: bls). cbn [map getBlocksByIds].
  destruct (Forall2_lookup_l _ _ _ _ _ (ok_hashes _ Hok) Hi) as (h & Hh & Hh'). rewrite Hid in Hh'. injection Hh' as <-.
  rewrite (index_height _ _ _ Hok Hh). destruct (Z.ltb_spec (Z.of_nat i) (Z.of_nat (length (m_blocks bc)))); [| lia]. cbn [negb].
  unfold block_at. destruct (Z.ltb_spec (Z.of_nat i) 0); [lia |]. rewrite Nat2Z.id, Hi, outcome_bind_ret, E1, outcome_bind_ret.
  split; [done |]. cbn [complete_entries]. rewrite Ht, outcome_bind_ret. unfold block_binary. rewrite Hw. cbn [written].
  rewrite outcome_bind_ret, Hm, outcome_bind_ret, E2, outcome_bind_ret. by destruct rb as [? ? []].
Qed.

Lemma genesis_id bc : chain_ok bc -> m_blocks bc <> [] ->
  exists g, hashes bc !! 0%nat = Some g /\ Chain.getBlockIdByHeight bc 0 = Ret g.
Proof.
  intros Hok Hne. pose proof (length_hashes _ Hok) as Hlen. pose proof (ok_length _ Hok) as Hl.
  destruct (m_blocks bc) as [| e es] eqn:E; [done |]. destruct (hashes bc) as [| g gs] eqn:Eh; [done |].
  exists g. split; [done |]. unfold Chain.getBlockIdByHeight, Sync.size, Sync.getBlockId. unfold hashes in Eh. rewrite Eh, Hlen, u32_small by lia.
  cbn [length]. destruct (Z.ltb_spec 0 (Z.of_nat (S (length es)))); [done | lia].
Qed.

Lemma peer_supplement bc n front rest :
  chain_ok bc -> m_blocks bc <> [] -> hashes bc !! n = Some front -> last (front :: rest) = head (hashes bc) ->
  findBlockchainSupplement bc (front :: rest) BLOCKS_IDS_SYNCHRONIZING_DEFAULT_COUNT
  = Ret (mkResponseChainEntry (Z.of_nat n) (Z.of_nat (length (hashes bc)))
           (take (Z.to_nat BLOCKS_IDS_SYNCHRONIZING_DEFAULT_COUNT) (drop n (hashes bc)))).
Proof.
  intros Hok Hne Hn Hlast. destruct (genesis_id bc Hok Hne) as (g & Hg & Eg). pose proof (length_hashes _ Hok) as Hlen.
  pose proof (ok_length _ Hok) as Hl. pose proof (lookup_lt_Some _ _ _ Hn) as Hlt.
  assert (Hback : last (front :: rest) = Some g) by (rewrite Hlast; by destruct (hashes bc)).
  unfold findBlockchainSupplement. rewrite Hback, Eg, outcome_bind_ret, bool_decide_true by done. cbn [assert_]. rewrite outcome_bind_ret.
  unfold Sync.findBlockchainSupplementIds, Sync.findBlockchainSupplement. rewrite Hback.
  assert (Egen : Sync.getBlockId (m_blockIndex bc) 0 = Ret g).
  { unfold Chain.getBlockIdByHeight in Eg. by apply outcome_bind_inv in Eg as (? & _ & ?). }
  rewrite Egen, outcome_bind_ret, bool_decide_true by done. cbn [assert_]. rewrite outcome_bind_ret. cbn [Sync.findSupplement].
  rewrite (index_height _ _ _ Hok Hn), !outcome_bind_ret.
  rewrite (top_count_small _ Hok), <- Hlen. do 2 f_equal. unfold Sync.getBlockIds. fold (hashes bc).
  destruct (Z.leb_spec (Z.of_nat (length (hashes bc))) (Z.of_nat n)); [lia |]. rewrite Nat2Z.id.
  rewrite (u32_small BLOCKS_IDS_SYNCHRONIZING_DEFAULT_COUNT) by (unfold BLOCKS_IDS_SYNCHRONIZING_DEFAULT_COUNT; lia).
  rewrite Z2Nat.inj_min. replace (Z.to_nat (Z.of_nat (length (hashes bc)) - Z.of_nat n)) with (length (drop n (hashes bc))) by (rewrite length_drop; lia).
  destruct (Nat.le_ge_cases (Z.to_nat BLOCKS_IDS_SYNCHRONIZING_DEFAULT_COUNT) (length (drop n (hashes bc)))) as [Hm | Hm];
    [by rewrite Nat.min_l | by rewrite Nat.min_r, !take_ge].
Qed.

Lemma announced nd :
  chain_ok (nd_chain nd) -> m_blocks (nd_chain nd) <> [] ->
  get_blockchain_top (nd_chain nd) = Ret (Z.of_nat (length (m_blocks (nd_chain nd))) - 1, default NULL_HASH (last (hashes (nd_chain nd))))
  /\ exists hist js, buildSparseChain nd = Ret hist /\ Sync.history_of (hashes (nd_chain nd)) hist js.
Proof.
  intros Hok Hne. set (bc := nd_chain nd) in *. pose proof (length_hashes _ Hok) as Hlen. pose proof (ok_length _ Hok) as Hl.
  assert (Hpos : (0 < length (m_blocks bc))%nat) by (destruct (m_blocks bc); [done | cbn; lia]).
  destruct (last (hashes bc)) as [h |] eqn:Eh; [| apply last_None in Eh; rewrite Eh in Hlen; cbn in Hlen; lia].
  assert (Et : Sync.getTailId (m_blockIndex bc) = Ret h) by (unfold Sync.getTailId; fold (hashes bc); by rewrite Eh).
  split.
  - unfold get_blockchain_top. rewrite (top_count_small _ Hok). destruct (Z.ltb_spec 0 (Z.of_nat (length (m_blocks bc)))); [| lia].
    cbn [assert_]. rewrite outcome_bind_ret, bool_decide_true by done. cbn [assert_]. rewrite outcome_bind_ret. unfold Chain.getTailId.
    destruct (m_blocks bc) as [| e es] eqn:E; [done |]. rewrite Et, outcome_bind_ret, u32_small by lia. done.
  - unfold buildSparseChain. change (nd_chain nd) with bc. rewrite (top_count_small _ Hok).
    destruct (Z.eqb_spec (Z.of_nat (length (m_blocks bc))) 0); [lia |]. cbn [negb assert_]. rewrite outcome_bind_ret.
    assert (Esz : (Sync.size (m_blockIndex bc) =? 0) = false) by (unfold Sync.size; fold (hashes bc); rewrite u32_small by lia; apply Z.eqb_neq; lia).
    rewrite Esz. cbn [negb assert_]. rewrite outcome_bind_ret, Et, outcome_bind_ret. unfold doBuildSparseChain. change (nd_chain nd) with bc.
    rewrite Esz. cbn [negb assert_]. rewrite outcome_bind_ret. apply last_Some_elem_of in Eh. pose proof Eh as Ein.
    assert (Hhas : Sync.hasBlock (m_blockIndex bc) h = true).
    { apply list_elem_of_lookup_1 in Eh as [i Hi]. unfold Sync.hasBlock. fold (hashes bc). by rewrite (Sync.height_of_nodup _ _ i (ok_distinct _ Hok) Hi). }
    rewrite Hhas. apply Sync.buildSparseChain_spec; [apply (ok_distinct _ Hok) | fold (hashes bc); lia | exact Ein].
Qed.

End NodeCore.

(** * The wallet's node *)

(** The times of the blocks never go back by more than the tolerance. *)
Definition steady (tolerance : Z) (times : list Z) : Prop :=
  Forall (fun t => 0 <= t < 2 ^ 64 - tolerance) times
  /\ forall i j ti tj, (i <= j)%nat -> times !! i = Some ti -> times !! j = Some tj -> ti <= tj + tolerance.

Section Wallets.
Context {P : Type} `{TxPool P} (c : Currency) (b0 : Block) (limit : Z).
Context (Htol : 0 <= m_blockFutureTimeLimit c < 2 ^ 64).
Implicit Types (bc : Blockchain P) (nd : Node P).

(** The transactions of a block for a wallet, and the entry for a block of the chain: in full from a height on, and from a time on. *)
Definition shown_txs bc (b : Block) : list Synchronizer.TransactionShortInfo :=
  match getBlockchainTransactions bc (b_transactionHashes b) with
  | Ret (txs, _) => map (fun tx => Synchronizer.mkShortInfo (getObjectHash tx) tx) txs
  | _ => []
  end.

Definition shown_entry bc (timestamp full : Z) (h : Hash) : Synchronizer.BlockShortEntry :=
  match Sync.getBlockHeight (m_blockIndex bc) h ≫= (fun i => (fun e => (i, e)) <$> m_blocks bc !! Z.to_nat i) with
  | Some (i, e) =>
      if (full <=? i) && (timestamp <=? b_timestamp (be_bl e)) then Synchronizer.mkShortEntry h (Some (be_bl e)) (shown_txs bc (be_bl e))
      else Synchronizer.mkShortEntry h None []
  | None => Synchronizer.mkShortEntry h None []
  end.

Lemma shown_at bc timestamp full i e h :
  chain_ok bc -> m_blocks bc !! i = Some e -> hashes bc !! i = Some h ->
  shown_entry bc timestamp full h
  = if (full <=? Z.of_nat i) && (timestamp <=? b_timestamp (be_bl e)) then Synchronizer.mkShortEntry h (Some (be_bl e)) (shown_txs bc (be_bl e))
    else Synchronizer.mkShortEntry h None [].
Proof. intros Hok He Hh. unfold shown_entry. rewrite (index_height _ _ _ Hok Hh). cbn. by rewrite Nat2Z.id, He. Qed.

Lemma shown_hash bc timestamp full h : Synchronizer.se_blockHash (shown_entry bc timestamp full h) = h.
Proof. unfold shown_entry. destruct (_ ≫= _) as [[i e] |]; [by destruct (_ && _) | done]. Qed.

Lemma short_blocks bc timestamp full l i :
  chain_ok bc -> hashes bc !! i = Some l -> Z.of_nat i < full -> short_entry b0 (mkShortInfo l [] []) = Some (shown_entry bc timestamp full l).
Proof.
  intros Hok Hh Hi. destruct (Forall2_lookup_r _ _ _ _ _ (ok_hashes _ Hok) Hh) as (e & He & _).
  rewrite (shown_at _ _ _ _ _ _ Hok He Hh). destruct (Z.leb_spec full (Z.of_nat i)); [lia | done].
Qed.

(** A block in full, as it is put together and as it is taken apart. *)
Lemma full_block bc timestamp full i e h :
  well_stored b0 limit bc -> m_blocks bc !! i = Some e -> hashes bc !! i = Some h -> full <= Z.of_nat i ->
  exists s, short_info bc timestamp (be_bl e) = Ret s /\ short_entry b0 s = Some (shown_entry bc timestamp full h).
Proof.
  intros Hw He Hh Hi. pose proof (ws_chain _ _ _ Hw) as Hok. rewrite (shown_at _ _ _ _ _ _ Hok He Hh).
  destruct (Forall2_lookup_l _ _ _ _ _ (ok_hashes _ Hok) He) as (h' & Hh' & Hbh). assert (h' = h) as -> by congruence.
  unfold short_info. rewrite Hbh, outcome_bind_ret. destruct (Z.leb_spec full (Z.of_nat i)); [| lia]. cbn [andb].
  destruct (timestamp <=? b_timestamp (be_bl e)); [| by eexists].
  pose proof (list_elem_of_lookup_2 _ _ _ He) as Hin. destruct (ws_block _ _ _ Hw e Hin) as (ba & (Hwr & Hne & Hrd) & _).
  destruct (stored_list bc (b_transactionHashes (be_bl e))) as (txs & bas & E1 & E2 & E3 & E4); [intros x Hx; by apply (ws_txs _ _ _ Hw e) |].
  rewrite E1, outcome_bind_ret. unfold block_binary. rewrite Hwr. cbn [written]. rewrite outcome_bind_ret. eexists. split; [done |].
  unfold short_entry. cbn [si_block txPrefixes blockId]. rewrite bool_decide_false, Hrd by done. cbn.
  unfold shown_txs. by rewrite E1, map_map.
Qed.

Lemma full_blocks bc timestamp full i n :
  well_stored b0 limit bc -> full <= Z.of_nat i ->
  exists infos, mapM (short_info bc timestamp) (map be_bl (take n (drop i (m_blocks bc)))) = Ret infos
    /\ mapM (short_entry b0) infos = Some (map (shown_entry bc timestamp full) (take n (drop i (hashes bc)))).
Proof.
  intros Hw. pose proof (ws_chain _ _ _ Hw) as Hok. pose proof (length_hashes _ Hok) as Hlen.
  revert i. induction n as [| n IH]; intros i Hi; [by exists [] |].
  destruct (m_blocks bc !! i) as [e |] eqn:He.
  - destruct (lookup_lt_is_Some_2 (hashes bc) i) as [h Hh]; [rewrite Hlen; by eapply lookup_lt_Some |].
    rewrite (drop_S _ _ _ He), (drop_S _ _ _ Hh). cbn [take map mapM].
    destruct (full_block bc timestamp full i e h Hw He Hh Hi) as (s & -> & Hs). destruct (IH (S i)) as (infos & -> & Hi'); [lia |].
    rewrite !outcome_bind_ret. exists (s :: infos). split; [done |]. cbn [mapM]. by rewrite Hs, Hi'.
  - apply lookup_ge_None in He. rewrite !drop_ge by lia. rewrite !take_nil. by exists [].
Qed.

(** ** The offsets *)

Lemma bound_spec bc timestamp off :
  chain_ok bc -> steady (m_blockFutureTimeLimit c) (times bc) -> is_u64 timestamp -> (off < length (m_blocks bc))%nat ->
  exists full, getLowerBound c bc timestamp (Z.of_nat off) = Ret full
    /\ Z.of_nat off <= default (Z.of_nat off) full < Z.of_nat (length (m_blocks bc))
    /\ forall i t, (off <= i)%nat -> Z.of_nat i < default (Z.of_nat off) full -> times bc !! i = Some t -> t < timestamp.
Proof.
  intros Hok [Hrange Hsteady] Ht Hoff. pose proof (ok_length _ Hok) as Hl. unfold getLowerBound.
  destruct (Z.ltb_spec (Z.of_nat off) (Z.of_nat (length (m_blocks bc)))); [| lia]. cbn [assert_]. rewrite outcome_bind_ret.
  set (value := u64 (timestamp - m_blockFutureTimeLimit c)).
  set (f := fun i => match m_blocks bc !! Z.to_nat i with Some e => b_timestamp (be_bl e) <? value | None => false end).
  destruct (lower_bound_spec 64 (fun i => e ← block_at (m_blocks bc) i; Ret (b_timestamp (be_bl e) <? value)) f (Z.of_nat off)
    (Z.of_nat (length (m_blocks bc)) - Z.of_nat off)) as (p & -> & Hp & Hbefore & Hat).
  { change (2 ^ Z.of_nat 64) with (2 ^ 64). lia. }
  { intros i Hi. unfold f, block_at. destruct (Z.ltb_spec i 0); [lia |].
    destruct (lookup_lt_is_Some_2 (m_blocks bc) (Z.to_nat i)) as [e ->]; [lia | done]. }
  rewrite outcome_bind_ret. eexists. split; [done |]. destruct (Z.eqb_spec p (Z.of_nat (length (m_blocks bc)))) as [-> | Hne]; cbn [default from_option]; unfold id.
  { split; [lia |]. intros i t Hi Hi'. lia. }
  rewrite u32_small by lia. unfold id. split; [lia |]. intros i t Hi Hi' Hti. destruct Hbefore as [-> | Hbefore]; [lia |].
  destruct Hat as [-> | Hat]; [lia |]. unfold f in Hbefore, Hat.
  destruct (m_blocks bc !! Z.to_nat (p - 1)) as [e |] eqn:He; [| done]. apply Z.ltb_lt in Hbefore.
  destruct (lookup_lt_is_Some_2 (m_blocks bc) (Z.to_nat p)) as [e' He']; [lia |]. rewrite He' in Hat. apply Z.ltb_ge in Hat.
  assert (Hte : times bc !! Z.to_nat (p - 1) = Some (b_timestamp (be_bl e))) by (unfold times; rewrite list_lookup_fmap, He; done).
  assert (Hte' : times bc !! Z.to_nat p = Some (b_timestamp (be_bl e'))) by (unfold times; rewrite list_lookup_fmap, He'; done).
  assert (Hip : (i <= Z.to_nat (p - 1))%nat) by lia. pose proof (Hsteady _ _ _ _ Hip Hti Hte) as Hstep. rewrite Forall_forall in Hrange.
  pose proof (Hrange _ (list_elem_of_lookup_2 _ _ _ Hte')) as Hr. unfold value, u64 in *. unfold is_u64 in Ht.
  destruct (Z.le_gt_cases (m_blockFutureTimeLimit c) timestamp).
  - rewrite Z.mod_small in Hbefore by lia. lia.
  - rewrite <- (Z.mod_add _ 1), Z.mod_small in Hat by lia. lia.
Qed.

Lemma offsets_spec bc w known js timestamp :
  chain_ok bc -> m_blocks bc <> [] -> steady (m_blockFutureTimeLimit c) (times bc) -> is_u64 timestamp ->
  Sync.history_of w known js -> hashes bc !! 0%nat = w !! 0%nat ->
  exists off full, findStartAndFullOffsets c bc known timestamp = Ret (Some (Z.of_nat off, Z.of_nat full))
    /\ Sync.findBlockchainSupplement (m_blockIndex bc) known = Ret (Z.of_nat off)
    /\ (off <= full < length (m_blocks bc))%nat /\ forall i t, (off <= i < full)%nat -> times bc !! i = Some t -> t < timestamp.
Proof.
  intros Hok Hne Hst Ht Hh H0. pose proof (length_hashes _ Hok) as Hlen. pose proof (ok_length _ Hok) as Hl.
  destruct (genesis_id bc Hok Hne) as (g & Hg & Eg).
  destruct (Sync.findSupplement_spec (m_blockIndex bc) w known js (ok_distinct _ Hok)) as (off & j & h & Hf & _ & Hn & _);
    [fold (hashes bc); lia | done | done |]. apply lookup_lt_Some in Hn. fold (hashes bc) in Hn.
  assert (Hs : Sync.findBlockchainSupplement (m_blockIndex bc) known = Ret (Z.of_nat off)).
  { unfold Sync.findBlockchainSupplement. rewrite (Sync.history_of_genesis _ _ _ Hh), <- H0, Hg.
    unfold Chain.getBlockIdByHeight in Eg. apply outcome_bind_inv in Eg as (? & _ & Eg). rewrite Eg, outcome_bind_ret, bool_decide_true by done.
    cbn [assert_]. rewrite outcome_bind_ret. by rewrite Hf. }
  destruct (bound_spec bc timestamp off Hok Hst Ht ltac:(lia)) as (full & Hb & Hr & Hbefore).
  exists off, (Z.to_nat (default (Z.of_nat off) full)). split.
  - unfold findStartAndFullOffsets. rewrite (Sync.history_of_genesis _ _ _ Hh), <- H0, Hg, Eg, outcome_bind_ret, bool_decide_true by done.
    cbn [negb]. rewrite Hs, outcome_bind_ret, Hb, outcome_bind_ret. by rewrite Z2Nat.id by lia.
  - split; [done |]. split; [lia |]. intros i t Hi. apply Hbefore; lia.
Qed.
(** ** The answer *)

Lemma query_spec bc nd timestamp known off full :
  nd_chain nd = bc -> well_stored b0 limit bc -> Z.of_nat (length (m_blocks bc)) + 128 < 2 ^ 32 -> (off <= full < length (m_blocks bc))%nat ->
  findStartAndFullOffsets c bc known timestamp = Ret (Some (Z.of_nat off, Z.of_nat full)) ->
  exists count, 128 <= Z.of_nat count <= 10000
    /\ doQueryBlocksLite c b0 nd known timestamp
       = Ret (Some (Synchronizer.mkBlocksResponse (Z.of_nat off) (map (shown_entry bc timestamp (Z.of_nat full)) (take count (drop off (hashes bc)))))).
Proof.
  intros Hnd Hw Hbig Hoff Hfind. pose proof (ws_chain _ _ _ Hw) as Hok. pose proof (length_hashes _ Hok) as Hlen. pose proof (ok_length _ Hok) as Hl.
  remember (Nat.min (Z.to_nat 10000) (full - off)) as n eqn:En.
  assert (Hids : findIdsForShortBlocks bc (Z.of_nat off) (Z.of_nat full) = Ret (take n (drop off (hashes bc)))).
  { unfold findIdsForShortBlocks. destruct (Z.leb_spec (Z.of_nat off) (Z.of_nat full)); [| lia]. cbn [assert_]. rewrite outcome_bind_ret.
    destruct (Z.ltb_spec (Z.of_nat off) (Z.of_nat full)); [| by replace n with 0%nat by lia].
    unfold getBlockHashes, Sync.getBlockIds. fold (hashes bc). destruct (Z.leb_spec (Z.of_nat (length (hashes bc))) (Z.of_nat off)); [lia |].
    rewrite Nat2Z.id. do 2 f_equal. change (u32 BLOCKS_IDS_SYNCHRONIZING_DEFAULT_COUNT) with 10000. lia. }
  assert (Hn : length (take n (drop off (hashes bc))) = n) by (rewrite length_take, length_drop; lia).
  assert (Hshort : mapM (short_entry b0) (map (fun id => mkShortInfo id [] []) (take n (drop off (hashes bc))))
    = Some (map (shown_entry bc timestamp (Z.of_nat full)) (take n (drop off (hashes bc))))).
  { apply mapM_Some, Forall2_fmap, Forall2_same_length_lookup_2; [done |]. intros i h h' Hi Hi'. assert (h' = h) as -> by congruence.
    apply lookup_take_Some in Hi as [Hi Hin]. rewrite lookup_drop in Hi. apply (short_blocks bc timestamp _ h (off + i) Hok Hi). lia. }
  remember (Nat.min 128 (Z.to_nat 10000 - n)) as m eqn:Em.
  assert (Hleft : blocks_left (take n (drop off (hashes bc))) = Z.of_nat m).
  { unfold blocks_left. rewrite Hn. change BLOCKS_IDS_SYNCHRONIZING_DEFAULT_COUNT with 10000. change BLOCKS_SYNCHRONIZING_COUNT with 128.
    rewrite (u64_small (_ - _)) by lia. rewrite u32_small by lia. lia. }
  unfold doQueryBlocksLite, queryBlocksLite. rewrite Hnd, Hfind, outcome_bind_ret, Hids, outcome_bind_ret, Hleft.
  destruct (Z.eqb_spec (Z.of_nat m) 0) as [Hm | Hm].
  - exists n. split; [lia |]. rewrite outcome_bind_ret, Hshort. done.
  - destruct (full_blocks bc timestamp (Z.of_nat full) full m Hw ltac:(lia)) as (infos & Einf & Eent).
    assert (Hbl : getBlocks bc (Z.of_nat full) (Z.of_nat m) = map be_bl (take m (drop full (m_blocks bc)))).
    { unfold getBlocks. destruct (Z.leb_spec (Z.of_nat (length (m_blocks bc))) (Z.of_nat full)); [lia |]. rewrite Nat2Z.id.
      rewrite u32_small by lia. do 2 f_equal. lia. }
    rewrite Hbl, Einf, !outcome_bind_ret. exists (n + m)%nat. split; [lia |].
    assert (Hcat : mapM (short_entry b0) (map (fun id => mkShortInfo id [] []) (take n (drop off (hashes bc))) ++ infos)
      = Some (map (shown_entry bc timestamp (Z.of_nat full)) (take n (drop off (hashes bc)) ++ take m (drop full (hashes bc))))).
    { rewrite map_app. apply mapM_Some in Hshort, Eent. apply mapM_Some. by apply Forall2_app. }
    rewrite Hcat. cbn. do 4 f_equal. rewrite <- take_take_drop, drop_drop. assert (Hnf : n = (full - off)%nat) by lia. by replace (off + n)%nat with full by lia.
Qed.
Lemma supplement_ids bc known off count :
  chain_ok bc -> Sync.findBlockchainSupplement (m_blockIndex bc) known = Ret (Z.of_nat off) -> (off < length (m_blocks bc))%nat -> Z.of_nat count < 2 ^ 32 ->
  Sync.findBlockchainSupplementIds (m_blockIndex bc) known (Z.of_nat count)
  = Ret (take count (drop off (hashes bc)), Z.of_nat (length (hashes bc)), Z.of_nat off).
Proof.
  intros Hok Hs Hoff Hc. pose proof (length_hashes _ Hok) as Hlen. pose proof (ok_length _ Hok) as Hl.
  unfold Sync.findBlockchainSupplementIds. rewrite Hs, outcome_bind_ret. unfold Sync.getBlockIds, Sync.size. fold (hashes bc).
  rewrite !u32_small by lia. destruct (Z.leb_spec (Z.of_nat (length (hashes bc))) (Z.of_nat off)); [lia |]. rewrite Nat2Z.id. do 3 f_equal.
  destruct (Nat.le_ge_cases count (length (drop off (hashes bc)))) as [Hm | Hm]; rewrite length_drop in Hm.
  - f_equal. lia.
  - rewrite !take_ge by (rewrite length_drop; lia). done.
Qed.

Lemma shown_ids bc e :
  well_stored b0 limit bc -> e ∈ m_blocks bc -> map Synchronizer.ti_txId (shown_txs bc (be_bl e)) = b_transactionHashes (be_bl e).
Proof.
  intros Hw He. destruct (stored_list bc (b_transactionHashes (be_bl e))) as (txs & bas & E1 & _ & _ & E4); [intros x Hx; by apply (ws_txs _ _ _ Hw e) |].
  unfold shown_txs. by rewrite E1, map_map.
Qed.

(** C14: a wallet that asks the node in its process is answered as [SynchronizerRound.v] assumes of an honest node: the hashes from the latest
    block of its history that the node has, at least 128 of them as far as there are so many; and, if no block is older than an earlier one by more
    than the tolerance, exactly the blocks that are not older than the time it asks for come with their contents and all their transactions. *)
Theorem wallets_are_answered_honestly nd w known js timestamp :
  let bc := nd_chain nd in
  well_stored b0 limit bc -> Z.of_nat (length (m_blocks bc)) + 128 < 2 ^ 32 -> steady (m_blockFutureTimeLimit c) (times bc) -> is_u64 timestamp ->
  Sync.history_of w known js -> hashes bc !! 0%nat = w !! 0%nat ->
  exists count ids off entry,
    128 <= count <= 10000
    /\ Sync.findBlockchainSupplementIds (m_blockIndex bc) known count = Ret (ids, Z.of_nat (length (hashes bc)), off)
    /\ doQueryBlocksLite c b0 nd known timestamp = Ret (Some (Synchronizer.mkBlocksResponse off (map entry ids)))
    /\ (forall h, Synchronizer.se_blockHash (entry h) = h)
    /\ (forall i e h, m_blocks bc !! i = Some e -> hashes bc !! i = Some h -> h ∈ ids ->
          if timestamp <=? b_timestamp (be_bl e)
          then Synchronizer.se_block (entry h) = Some (be_bl e)
               /\ map Synchronizer.ti_txId (Synchronizer.se_txsShortInfo (entry h)) = b_transactionHashes (be_bl e)
          else Synchronizer.se_block (entry h) = None /\ Synchronizer.se_txsShortInfo (entry h) = []).
Proof.
  intros bc Hw Hbig Hst Ht Hh H0. pose proof (ws_chain _ _ _ Hw) as Hok. pose proof (length_hashes _ Hok) as Hlen.
  destruct (offsets_spec bc w known js timestamp Hok (ws_some _ _ _ Hw) Hst Ht Hh H0) as (off & full & Hf & Hs & Hr & Hbefore).
  destruct (query_spec bc nd timestamp known off full eq_refl Hw Hbig Hr Hf) as (count & Hc & Hq).
  exists (Z.of_nat count), (take count (drop off (hashes bc))), (Z.of_nat off), (shown_entry bc timestamp (Z.of_nat full)).
  split; [done |]. split; [apply (supplement_ids bc known off count Hok Hs); lia |]. split; [done |]. split; [apply shown_hash |].
  intros i e h He Hi Hin. rewrite (shown_at _ _ _ _ _ _ Hok He Hi).
  apply list_elem_of_lookup_1 in Hin as [k Hk]. apply lookup_take_Some in Hk as [Hk _]. rewrite lookup_drop in Hk.
  assert (i = (off + k)%nat) as -> by (eapply NoDup_lookup; [apply (ok_distinct _ Hok) | done..]).
  destruct (Z.leb_spec timestamp (b_timestamp (be_bl e))) as [Hle |]; [| by rewrite andb_false_r].
  destruct (Z.leb_spec (Z.of_nat full) (Z.of_nat (off + k))); cbn [andb].
  - split; [done |]. apply (shown_ids bc e Hw). by eapply list_elem_of_lookup_2.
  - pose proof (Hbefore (off + k)%nat (b_timestamp (be_bl e))) as Hb. unfold times in Hb. rewrite list_lookup_fmap, He in Hb.
    specialize (Hb ltac:(lia) eq_refl). lia.
Qed.
End Wallets.

(** * A chain with a transaction *)

(** [well_stored], but for the consistency of the chain, as a test. *)
Definition stored_test {P} (b0 : Block) (limit : Z) (bc : Blockchain P) : bool :=
  bool_decide (0 < length (m_blocks bc))%nat
  && forallb (fun e =>
       match write_block (be_bl e) with
       | Ret ba => bool_decide (ba <> []) && (Z.of_nat (length ba) <=? limit) && bool_decide (blockFromBinaryArray b0 ba = Some (be_bl e))
       | _ => false
       end
       && forallb (fun h =>
            match m_transactionMap (m_store bc) !! h with
            | Some index =>
                match transactionByIndex (m_blocks bc) index with
                | Ret te => match write_transaction (te_tx te) with Ret ba => bool_decide (getBinaryArrayHash ba = h) | _ => false end
                | _ => false
                end
            | None => false
            end) (b_transactionHashes (be_bl e))) (m_blocks bc).

Lemma stored_test_true {P} b0 limit (bc : Blockchain P) : chain_ok bc -> stored_test b0 limit bc = true -> well_stored b0 limit bc.
Proof.
  unfold stored_test. intros Hok [Hn H]%andb_true_iff. apply bool_decide_eq_true_1 in Hn. rewrite forallb_forall in H.
  split; [done | by destruct (m_blocks bc); [cbn in Hn; lia |] | |].
  - intros e [H1 _]%list_elem_of_In%H%andb_true_iff. unfold readable. destruct (write_block (be_bl e)) as [ba | | |]; try done. exists ba.
    apply andb_true_iff in H1 as [[H1 H2]%andb_true_iff H3]. apply bool_decide_eq_true_1 in H1, H3. apply Z.leb_le in H2. done.
  - intros e h [_ H2]%list_elem_of_In%H%andb_true_iff Hh%list_elem_of_In. rewrite forallb_forall in H2. apply H2 in Hh. unfold stored_tx.
    destruct (m_transactionMap (m_store bc) !! h) as [index |]; [| done].
    destruct (transactionByIndex (m_blocks bc) index) as [te | | |] eqn:Et; try done.
    destruct (write_transaction (te_tx te)) as [ba | | |] eqn:Ew; try done. apply bool_decide_eq_true_1 in Hh.
    exists (te_tx te), ba, index, te. done.
Qed.

Lemma facts_split (a c : bool) (P Q : Prop) `{Decision P, Decision Q} :
  a && bool_decide P && c && bool_decide Q = true -> (a = true /\ P) /\ c = true /\ Q.
Proof. intros [[[H1 H2%bool_decide_eq_true_1]%andb_true_iff H3]%andb_true_iff H4%bool_decide_eq_true_1]%andb_true_iff. done. Qed.

Lemma times_length {P} (bc : Blockchain P) l : times bc = l -> length (m_blocks bc) = length l.
Proof. intros <-. unfold times. by rewrite length_map. Qed.

Lemma push_accepted (r : outcome (bool * Blockchain unit)) : ChainReach.ReachDemo.accepted r = true -> r = Ret (true, ChainReach.ReachDemo.chain_of r).
Proof. by destruct r as [[[] bc] | | |]. Qed.

Module QueryDemo.
Import ChainReach ReachDemo.
Definition empty_tx (version : Z) : Transaction := mkTransaction version 0 [] [] [] [].
Definition paid : Transaction := empty_tx 1.
Definition third : Block :=
  let b := block_at 2 305173788 (default NULL_HASH (last (hashes chain2))) in
  mkBlock (b_majorVersion b) (b_minorVersion b) (b_nonce b) (b_timestamp b) (b_previousBlockHash b) (b_parentBlock b) (b_baseTransaction b)
    [getObjectHash paid].
Definition third_push : outcome (bool * Blockchain unit) :=
  pushBlock testnet (fun _ => true) (fun _ => None) (fun _ => true) (fun _ _ _ _ => true) (fun _ _ _ => true) slow_hash NULL_HASH (fun _ _ => Ret 1) []
    false 1 no_verdict 100000 third [paid] chain2.
Definition chain3 : Blockchain unit := chain_of third_push.
Definition node3 : Node unit := mkNode chain3 ∅ ∅ false.
Definition new_block : Block := mkBlock 0 0 0 0 [] (b_parentBlock third) (empty_tx 0) [].

(** What the chain is like, evaluated once. *)
Lemma chain3_evaluated :
  accepted third_push && bool_decide (length (m_blocks chain2) = 2%nat) && stored_test new_block 1000 chain3 && bool_decide (times chain3 = [1000; 1100; 1200]) = true.
Proof. vm_compute. reflexivity. Qed.

Lemma chain3_facts :
  (accepted third_push = true /\ length (m_blocks chain2) = 2%nat) /\ stored_test new_block 1000 chain3 = true /\ times chain3 = [1000; 1100; 1200].
Proof. exact (facts_split _ _ _ _ chain3_evaluated). Qed.

Lemma third_pushed : third_push = Ret (true, chain3).
Proof. exact (push_accepted third_push (proj1 (proj1 chain3_facts))). Qed.

Lemma chain3_ok : chain_ok chain3.
Proof.
  assert (H2 : chain_ok chain2).
  { eapply chain_step_ok; [| eapply step_push; [exact chain1_length | exact second_pushed]].
    eapply chain_step_ok; [apply empty_chain_ok | eapply step_push; [| exact genesis_pushed]; cbn; lia]. }
  eapply chain_step_ok; [exact H2 |]. eapply step_push; [| exact third_pushed].
  rewrite (proj2 (proj1 chain3_facts)). lia.
Qed.

Lemma chain3_length : length (m_blocks chain3) = 3%nat.
Proof. exact (times_length chain3 _ (proj2 (proj2 chain3_facts))). Qed.

Lemma chain3_stored : well_stored new_block 1000 chain3.
Proof. apply stored_test_true; [exact chain3_ok | exact (proj1 (proj2 chain3_facts))]. Qed.

Definition demo_core : Core (Node unit) :=
  node_core (fun _ _ nd => Ret (TransactionPool.mkTvc false false false false false, nd)) (fun _ nd => Ret (mkBvc false false false false false, nd))
    (fun _ nd => Ret (mkBvc false false false false false, nd)) (fun _ => []) (fun _ _ => Ret []).

(** A wallet that knows the first block. *)
Definition known : list Hash := take 1 (hashes chain3).

Lemma first_history (hs : list Hash) : (0 < length hs)%nat -> Sync.history_of (take 1 hs) (take 1 hs) [0%nat] /\ hs !! 0%nat = take 1 hs !! 0%nat.
Proof. destruct hs as [| g rest]; cbn [length]; [lia |]. intros _. split; [| done]. split; [by constructor | by repeat constructor | done]. Qed.

Lemma known_history : Sync.history_of known known [0%nat] /\ hashes chain3 !! 0%nat = known !! 0%nat.
Proof. apply (first_history (hashes chain3)). rewrite (length_hashes _ chain3_ok), chain3_length. lia. Qed.

Lemma some_times_steady : steady 7200 [1000; 1100; 1200].
Proof.
  split; [repeat constructor; lia |]. intros i j ti tj _ Hi Hj. apply list_elem_of_lookup_2 in Hi, Hj. set_unfold. lia.
Qed.

Lemma chain3_steady : steady (m_blockFutureTimeLimit testnet) (times chain3).
Proof.
  assert (Hl : m_blockFutureTimeLimit testnet = 7200) by reflexivity.
  rewrite Hl, (proj2 (proj2 chain3_facts)). exact some_times_steady.
Qed.

Lemma chain3_small : Z.of_nat (length (m_blocks chain3)) + 128 < 2 ^ 32.
Proof. rewrite chain3_length. lia. Qed.
End QueryDemo.


Lemma wallets_are_answered_honestly_witness :
  exists count ids off entry,
    128 <= count <= 10000
    /\ Sync.findBlockchainSupplementIds (m_blockIndex QueryDemo.chain3) QueryDemo.known count = Ret (ids, Z.of_nat (length (hashes QueryDemo.chain3)), off)
    /\ doQueryBlocksLite testnet QueryDemo.new_block QueryDemo.node3 QueryDemo.known 1150
       = Ret (Some (Synchronizer.mkBlocksResponse off (map entry ids))).
Proof.
  destruct (@wallets_are_answered_honestly unit testnet QueryDemo.new_block 1000 ltac:(vm_compute; split; [discriminate | reflexivity]) QueryDemo.node3
    QueryDemo.known QueryDemo.known [0%nat] 1150 QueryDemo.chain3_stored QueryDemo.chain3_small QueryDemo.chain3_steady
    ltac:(vm_compute; split; [discriminate | reflexivity]) (proj1 QueryDemo.known_history) (proj2 QueryDemo.known_history))
    as (count & ids & off & entry & Hc & Hs & Hq & _).
  exists count, ids, off, entry. exact (conj Hc (conj Hs Hq)).
Defined.
